(* ===== verification/_CoqProject ===== *)
-Q . S2P
Prelude.v
MathHelper.v
Primitives.v
SlotTime.v
ForkTypes.v
ForkStore.v
ForkChoice.v
ForkTree.v
ForkGhost.v
ForkVotes.v
ForkHead.v
ForkAttest.v
ForkChain.v
ForkInsert.v
ForkRemove.v
ForkPrune.v
MultiValueSlice.v
MultiValueSpec.v
SlasherChunks.v
SlasherDetect.v
SlasherSpans.v
SlasherLaws.v
SlasherCorrect.v
SlasherWindow.v
Shuffle.v
ShuffleCorrect.v
Committee.v
CommitteeCorrect.v
CommitteeDuties.v
Justification.v
JustificationCorrect.v
Finality.v
ExitQueue.v
ExitQueueCorrect.v
Bytes.v
Protection.v
ProtectionKV.v
ProtectionView.v
ProtectionCheck.v
ProtectionBatch.v
ProtectionKVLaws.v
ProtectionFS.v
ProtectionSafety.v
ProtectionPrune.v
ProtectionRace.v
ProtectionInterchange.v
ProtectionImport.v
ProtectionConvert.v
Sha256.v
Merkle.v
Ssz.v
SszRoots.v
SparseTrie.v
SparseTrieProofs.v
DepositTree.v
DepositSnapshots.v
DepositTheorems.v
DepositCache.v
DepositCacheTheorems.v
SliceSets.v
Ledger.v
Participation.v
Rewards.v
RewardsCorrect.v
ParticipationCorrect.v
EpochUpdates.v
RegistryUpdates.v
BalanceUpdates.v
SlashingCorrect.v
Withdrawals.v
WithdrawalsCorrect.v
DepositOps.v
Consolidations.v
PendingDeposits.v
LinkedList.v
OperationPools.v
LedgerValue.v
EpochTransition.v
BlockOperations.v
