(* ===== verification/Prelude.v ===== *)
(** * Verification of the Prysm consensus node: overview and prelude

    Prysm is a consensus client of the Ethereum proof-of-stake chain, written in Go.
    This library models the parts that decide what the chain is and who may say so,
    and proves that they do what they promise.  Paths are relative to [src/].

    ** The program's parts and the files that model them

    - _Machine arithmetic and time._  [MathHelper.v] ([math/math_helper.go]):
      overflow-checked 64-bit operations and the cached Newton square root.
      [Primitives.v] ([consensus-types/primitives/*.go], [config/params/*.go]): the
      chain configuration as the class [BeaconChainConfig], the [Slot], [Epoch] and
      [ValidatorIndex] arithmetic.  [SlotTime.v] ([time/slots/slottime.go]): slots,
      epochs and wall-clock time in nanoseconds.
    - _Fork choice_ ([beacon-chain/forkchoice/doubly-linked-tree]): the block tree with
      parent, child and best-descendant pointers, the latest votes of the validators,
      the proposer boost and optimistic sync.  Go pointers alias each other, so nodes
      live in an explicit heap.  [ForkTypes.v] has the data, the heap and the
      state-and-error monad; [ForkStore.v] and [ForkChoice.v] the
      operations of [node.go], [store.go], [optimistic_sync.go] and
      [proposer_boost.go], and of [forkchoice.go], [unrealized_justification.go],
      [on_tick.go], [last_root.go] and [reorg_late_blocks.go].  [ForkTree.v]
      is the abstract tree behind the pointers and the store's well-formedness;
      [ForkGhost.v] and [ForkVotes.v] verify the three passes of
      [Head]; [ForkHead.v] composes them; [ForkAttest.v], [ForkChain.v],
      [ForkInsert.v], [ForkRemove.v] and [ForkPrune.v] verify the other operations.
    - _The multi-value slice_ ([container/multi-value-slice]), the copy-on-write array
      that beacon states share: [MultiValueSlice.v], and its refinement to independent
      lists in [MultiValueSpec.v].
    - _The slasher_ ([beacon-chain/slasher], [beacon-chain/db/slasherkv]), which looks
      for double and surround votes with chunks of min and max spans.
      [SlasherChunks.v] (the layout, the [Chunker] interface and its
      two implementations), [SlasherDetect.v] (the database interface with its bolt
      implementation as maps, and detection).  [SlasherLaws.v] states
      what a [Chunker] promises, [SlasherSpans.v] proves it of the update loops,
      [SlasherCorrect.v] verifies the detection against the promise and
      [SlasherWindow.v] shows where the promise ends.
    - _Shuffling_ ([beacon-chain/core/helpers/shuffle.go]): [Shuffle.v], [ShuffleCorrect.v].
    - _Committees_ ([beacon-chain/core/helpers/beacon_committee.go] and [validators.go],
      [beacon-chain/cache/committee.go]): [Committee.v]; [CommitteeCorrect.v] and
      [CommitteeDuties.v] use the shuffling theorems.
    - _Justification and finalization_ ([beacon-chain/core/epoch/precompute/
      justification_finalization.go], [core/helpers/block.go], [core/time/slot_epoch.go],
      [state/stateutil/unrealized_justification.go]): [Justification.v] with the part
      of the slot loop of [core/transition/transition.go] that drives it;
      [JustificationCorrect.v] has the reachable states and their invariant,
      [Finality.v] the theorems.
    - _The exit queue_ ([core/validators/validator.go], [core/helpers/validator_churn.go],
      [state/state-native/setters_churn.go], [core/electra/churn.go],
      [core/blocks/exit.go]): [ExitQueue.v], [ExitQueueCorrect.v].
    - _The ledger of the state transition_: the validators, balances, participation and
      queues of the beacon state.  [Ledger.v] ([state/state-native], [core/helpers/
      rewards_penalties.go], [core/helpers/validators.go]) has the state, its
      accessors and what they keep.  [Participation.v] and
      [ParticipationCorrect.v]: the flags an attestation sets
      ([core/altair/attestation.go]).  [Rewards.v] and
      [RewardsCorrect.v]: rewards and penalties of an epoch ([core/altair/
      epoch_precompute.go], [core/epoch/precompute]), the specification's definition
      over sets, and their agreement.  [EpochUpdates.v] ([core/epoch/
      epoch_processing.go] and its Electra versions), with [RegistryUpdates.v] and
      [BalanceUpdates.v].  [SlashingCorrect.v]: the slashings of a block ([core/blocks/attester_slashing.go],
      [proposer_slashing.go]).  [Withdrawals.v] and [WithdrawalsCorrect.v]:
      ([state/state-native/getters_withdrawal.go], [core/blocks/withdrawals.go],
      [core/electra/withdrawals.go]).  [DepositOps.v] and [PendingDeposits.v]
      ([core/electra/deposits.go], [core/altair/deposit.go], [core/blocks/deposit.go]),
      [Consolidations.v] ([core/electra/consolidations.go]), and [LedgerValue.v] for what
      these queues conserve together.  [EpochTransition.v]: [ProcessEpoch] of Altair and of Electra.
      [BlockOperations.v]: sync aggregates ([core/altair/block.go]) and votes for eth1 data
      ([core/blocks/eth1_data.go]).
    - _Hash tree roots_ ([encoding/ssz], [crypto/hash/htr], [container/trie/
      zerohashes.go]): [Sha256.v] (the hash function as a class, FIPS
      180-4 as its instance, and the table of zero hashes), [Merkle.v] (the padded tree that all Merkle code means),
      [Ssz.v], [SszRoots.v].
    - _Deposits of the contract_: the sparse Merkle trie ([container/trie/
      sparse_merkle.go]) in [SparseTrie.v], [SparseTrieProofs.v];
      the tree of EIP-4881 ([beacon-chain/cache/depositsnapshot]) in [DepositTree.v],
      [DepositSnapshots.v], [DepositTheorems.v]; the cache above them in
      [DepositCache.v], [DepositCacheTheorems.v].
    - _Containers and pools._  [SliceSets.v] ([container/slice]), [LinkedList.v]
      ([container/doubly-linked-list]) and, on the linked list, the pools of voluntary
      exits and credential changes ([beacon-chain/operations]) in [OperationPools.v].
    - _Slashing protection of the validator client_ ([validator/db], [validator/client],
      [validator/slashing-protection-history], [validator/helpers]): the local database
      that is asked before a vote or a block is published.  [Bytes.v]
      ([encoding/bytesutil]) has the byte encodings, [Protection.v] the interface to bbolt,
      and the interface of the two databases as a class: a transition system of calls, writes
      and restarts with the messages that have been published, the condition [inTime] under
      which the database is used, and as a second class the invariant that makes it safe.  The complete database ([validator/db/kv]): [ProtectionKV.v] the
      operations on the buckets, [ProtectionView.v] their typing and what they mean,
      [ProtectionCheck.v] the two checks, [ProtectionBatch.v]
      the queue, the worker and the callers as a step relation, [ProtectionKVLaws.v] the
      contract, [ProtectionPrune.v] start-up pruning, [ProtectionRace.v] the
      interleavings.  The minimal one ([validator/db/filesystem]): [ProtectionFS.v].  [ProtectionSafety.v] has what a client can rely on;
      [ProtectionInterchange.v] and [ProtectionImport.v] the EIP-3076 files,
      [ProtectionConvert.v] the conversion between the databases.

    ** How the Go code is translated

    A [uint64] is a [Z] with its wrap-around written out ([+w], [-w], [*w]); a call
    returns an [outcome]: a value, an [error] (its message), or a panic.  Code that
    mutates shared objects threads the heap or returns the changed object.  The clock,
    the iteration order of Go maps and the schedule of goroutines that hash in parallel
    are arguments; third-party
    code (SHA-256, gohashtree, go-bitfield, bbolt, the YAML codec, the BLS verification
    of deposit signatures) is a class with its documented behaviour,
    and has an instance on which the witnesses run.  Signature checks of other messages
    and roots that generated code computes are arguments.  What the disk answers to a write is
    an argument ([io]).  Locks make an
    operation one step; where goroutines interleave between locks (the batched writes, the
    calls of the complete database and the reads and writes of the minimal one) the model is
    a step relation.  Metrics, traces and log lines are left out.

    ** What the theorems show

    - Fork choice: [Head] returns the LMD-GHOST head and never runs out of fuel;
      inserting, attesting, slashing, pruning and invalidating keep the store well
      formed and the vote accounting on which [Head] relies, and change exactly what
      they should (pruning only while the finalized block has no child incompatible with the
      checkpoint; the theorem says what is left of such a child); ancestor queries terminate with the right block; refused calls
      change nothing.
    - Multi-value slice: every history of operations gives each object the list it
      would have on its own.
    - Slasher: a surround vote is reported exactly when one of the applied
      attestations is surrounded (surrounding), within the first history window;
      beyond it, concrete runs miss a surround vote or do not terminate.
    - Shuffling and committees: the optimised list shuffle is the specification's
      index shuffle; the committees of an epoch partition the active validators; the
      cache is invisible; both duty lookups agree.
    - Finality: the transition is the specification's; finality is monotone, needs two
      voted epochs and follows from two voted epochs; unrealized checkpoints come true.
    - Exits: the threaded exit information is the recomputed one, the churn limit holds
      for every list of exits, and the balance queue of Electra conserves balance.
    - Ledger: rewards, penalties and inactivity scores are the specification's; a flag is
      rewarded once; effective balances follow with hysteresis; slashings punish exactly
      proven offenders, and the later penalty is bounded; activations are in order;
      withdrawals are complete, bounded and never exceed a balance; batched pending
      deposits end like the sequential ones; no sequence of queue operations creates
      value; the whole epoch transition keeps the state well formed.
    - Merkle trees: both merkleization algorithms, the sparse trie and the deposit tree
      compute the root of the same padded tree; proofs verify and bind; snapshots restore
      the tree; a single all-zero item is the one case in which trie and tree
      differ; the deposit cache stays consistent in every history that begins empty or with
      one start-up load of the stored containers.
    - Pools: the linked list is a list, and the pools on it are lists of operations with
      one for each validator, also while a walk removes nodes.
    - Slashing protection: with either database a client never publishes two slashable
      messages, in any interleaving of its calls, with writes that fail and restarts, under
      conditions that the code itself does not enforce.  Complete database ([kvInTime]): a
      key attests again, and the process stops, only when no record that was already
      answered for is still unsaved; the proposals of a key lie within one weak
      subjectivity period; no start prunes.  Minimal database ([fsInTime]): the calls of
      a key do not overlap, and a torn write leaves the new file or one that does not parse.
      Concrete runs outside the conditions publish slashable messages ([ProtectionRace.v],
      [ProtectionFS.v]).  Messages above all earlier ones are not refused; a waiting call is
      answered unless it has missed its wake-up.  The early-stopping search is the
      search of the whole history; no batched record is lost; imports and conversions
      protect; pruning does what it says, and concrete runs show what it lets through.
    - Block operations: the sync aggregate pays what the specification pays while the
      proposer's balance covers its own absences; eth1 data changes exactly by majority.
    - Arithmetic and time: slots and epochs partition each other, slot times invert,
      the square root is exact.

    ** Fuel

    A loop or pointer recursion that is not structural takes fuel and returns
    [OutOfFuel] when it ends.  Pointer walks get the number of heap cells plus one
    ([walkFuel]), more than the height of a well-formed tree; Newton's iteration gets
    66 steps, one more than the distance can halve; a shuffle round gets its mirror
    index plus one and the shuffle 256 rounds; the pruning of proposals gets the number
    of entries, each round removing one; a decimal numeral gets 20 digits; the merging
    of subtrees gets 66 levels, more than a 64-bit count has bits; a binary search gets
    the length of its range, the reversal of a slice its length; the withdrawal sweep is
    bounded by the code itself; walks over a linked list get its length; the theorems prove that a result is
    returned, so the bounds are enough.  The slasher's walk over chunks takes the
    fuel as an argument: the theorems give a bound inside the first window and show
    that no fuel suffices in the diverging run.

    ** Not modelled

    Of the state transition: block headers, randao reveals, payload headers,
    the phase 0 rewards and the upgrades between forks; the state's
    field tries; proposer selection and the choice of sync committees; the pools of
    attestations, slashings and sync committee messages; the remaining containers; of the
    validator's databases the migrations, graffiti, proposer settings and the import into
    the minimal one: these are future work.  Networking, RPC, the database engine,
    generated SSZ code, bindings to cryptographic libraries and process set-up are I/O or
    not written here.  The goroutines, tickers and event feeds around the modelled
    services are left out.

    This file holds what all others share: errors and outcomes, machine integers,
    automation and generic lemmas. *)

From Stdlib Require Export ZArith Lia.
From stdpp Require Export base tactics strings numbers gmap list.
#[global] Open Scope Z_scope.
#[global] Set Default Goal Selector "!".

(** ** Go errors and run-time panics

    A Go [error] is its message; [errors.Wrap(err, msg)] prefixes it. *)

Definition error : Type := string.

Definition wrapErr (e msg : error) : error := (msg +:+ ": " +:+ e)%string.

(** What a call can do: return, return a non-nil error, panic, or (only for the
    fuelled models of unbounded loops) run out of fuel. *)
Inductive outcome (A : Type) : Type :=
| Ret (a : A)
| Err (e : error)
| Panic (msg : string)
| OutOfFuel.
Arguments Ret {A} a.
Arguments Err {A} e.
Arguments Panic {A} msg.
Arguments OutOfFuel {A}.

Definition obind {A B} (m : outcome A) (k : A → outcome B) : outcome B :=
  match m with
  | Ret a => k a
  | Err e => Err e
  | Panic s => Panic s
  | OutOfFuel => OutOfFuel
  end.

Definition omap_err {A} (f : error → error) (m : outcome A) : outcome A :=
  match m with Err e => Err (f e) | _ => m end.

(** [panic(err.Error())] on an error, the value otherwise. *)
Definition must {A} (m : outcome A) : outcome A :=
  match m with Err e => Panic e | _ => m end.

Declare Scope outcome_scope.
Delimit Scope outcome_scope with outcome.
Notation "x <-? m ;; k" := (obind m (λ x, k))
  (at level 100, m at next level, right associativity) : outcome_scope.
#[global] Open Scope outcome_scope.

Definition is_ret {A} (m : outcome A) : bool :=
  match m with Ret _ => true | _ => false end.

#[global] Instance outcome_eq_dec `{EqDecision A} : EqDecision (outcome A).
Proof. solve_decision. Defined.

(** ** Machine integers: [uint64] and [int64] as [Z] with explicit wrap-around *)

Definition two64 : Z := 18446744073709551616.
Definition two63 : Z := 9223372036854775808.
Definition maxUint64 : Z := 18446744073709551615.
Definition maxInt64 : Z := 9223372036854775807.
Definition minInt64 : Z := -9223372036854775808.

Definition wrap64 (z : Z) : Z := z mod two64.
Definition wrapI64 (z : Z) : Z := (z - minInt64) mod two64 + minInt64.

Declare Scope u64_scope.
Delimit Scope u64_scope with u64.
Infix "+w" := (λ a b, wrap64 (a + b)) (at level 50, left associativity) : u64_scope.
Infix "-w" := (λ a b, wrap64 (a - b)) (at level 50, left associativity) : u64_scope.
Infix "*w" := (λ a b, wrap64 (a * b)) (at level 40, left associativity) : u64_scope.
#[global] Open Scope u64_scope.

Definition is_u64 (z : Z) : Prop := 0 ≤ z < two64.
Definition is_i64 (z : Z) : Prop := minInt64 ≤ z ≤ maxInt64.

(** ** Sums *)

Fixpoint Zsum (l : list Z) : Z :=
  match l with [] => 0 | x :: l' => x + Zsum l' end.

(** ** Tactics and hint databases *)

Create HintDb go.
Create Rewrite HintDb go.
#[global] Hint Unfold is_u64 is_i64 wrap64 wrapI64 two64 maxUint64 maxInt64 minInt64 : go.

(** Linear arithmetic with [/], [mod] and the machine bounds unfolded. *)
Ltac u64_lia :=
  unfold is_u64, is_i64, wrap64, wrapI64, two64, maxUint64, maxInt64, minInt64 in *;
  Z.div_mod_to_equations; lia.

(** Turn boolean comparisons in hypotheses and goal into propositions. *)
Ltac bprop :=
  repeat match goal with
  | H : (_ =? _) = true |- _ => apply Z.eqb_eq in H
  | H : (_ =? _) = false |- _ => apply Z.eqb_neq in H
  | H : (_ <? _) = true |- _ => apply Z.ltb_lt in H
  | H : (_ <? _) = false |- _ => apply Z.ltb_ge in H
  | H : (_ <=? _) = true |- _ => apply Z.leb_le in H
  | H : (_ <=? _) = false |- _ => apply Z.leb_gt in H
  | H : (_ && _) = true |- _ => apply andb_true_iff in H; destruct H
  | H : (_ || _) = false |- _ => apply orb_false_iff in H; destruct H
  | H : negb _ = true |- _ => apply negb_true_iff in H
  | H : negb _ = false |- _ => apply negb_false_iff in H
  | H : bool_decide _ = true |- _ => apply bool_decide_eq_true in H
  | H : bool_decide _ = false |- _ => apply bool_decide_eq_false in H
  end.

(** Case analysis on the condition of an [if] of the goal. *)
Ltac case_if :=
  match goal with
  | |- context [if ?b then _ else _] => let E := fresh "E" in destruct b eqn:E; bprop
  end.

(** ** Lemmas on machine integers *)

Lemma wrap64_small z : is_u64 z → wrap64 z = z.
Proof. unfold is_u64, wrap64. intros ?. by apply Z.mod_small. Qed.

Lemma wrap64_range z : is_u64 (wrap64 z).
Proof. unfold is_u64, wrap64. apply Z.mod_pos_bound. unfold two64. lia. Qed.

Lemma wrap64_add_l a b : wrap64 (wrap64 a + b) = wrap64 (a + b).
Proof. unfold wrap64. apply Zplus_mod_idemp_l. Qed.

Lemma wrap64_add_r a b : wrap64 (a + wrap64 b) = wrap64 (a + b).
Proof. unfold wrap64. apply Zplus_mod_idemp_r. Qed.

Lemma wrap64_sub_l a b : wrap64 (wrap64 a - b) = wrap64 (a - b).
Proof. unfold wrap64. apply Zminus_mod_idemp_l. Qed.

Lemma wrapI64_small z : is_i64 z → wrapI64 z = z.
Proof.
  unfold is_i64, wrapI64, two64, minInt64, maxInt64. intros ?.
  rewrite Z.mod_small; lia.
Qed.

#[export] Hint Resolve wrap64_range : go.
#[export] Hint Rewrite wrap64_add_l wrap64_add_r wrap64_sub_l : go.
#[export] Hint Rewrite wrap64_small using (by eauto with go) : go.

(** ** Lemmas on sums *)

Lemma Zsum_cons x l : Zsum (x :: l) = x + Zsum l.
Proof. done. Qed.

Lemma Zsum_app l1 l2 : Zsum (l1 ++ l2) = Zsum l1 + Zsum l2.
Proof.
  induction l1 as [|x l1 IH]; [done|]. rewrite <- app_comm_cons, !Zsum_cons. lia.
Qed.

Lemma Zsum_nonneg l : Forall (λ x, 0 ≤ x) l → 0 ≤ Zsum l.
Proof. induction 1; cbn; lia. Qed.

Lemma Zsum_perm l1 l2 : l1 ≡ₚ l2 → Zsum l1 = Zsum l2.
Proof. induction 1; cbn; lia. Qed.

(** Pointwise comparison of two sums over the same list. *)
Lemma Zsum_map_le {A} (f g : A → Z) l :
  (∀ x, x ∈ l → f x ≤ g x) → Zsum (map f l) ≤ Zsum (map g l).
Proof.
  induction l as [|x l IH]; intros H; [done|]. cbn.
  assert (f x ≤ g x) by (apply H; set_solver).
  assert (Zsum (map f l) ≤ Zsum (map g l)) by (apply IH; set_solver). lia.
Qed.

Lemma Zsum_map_ext {A} (f g : A → Z) l :
  (∀ x, x ∈ l → f x = g x) → Zsum (map f l) = Zsum (map g l).
Proof.
  induction l as [|x l IH]; intros H; [done|]. cbn.
  rewrite (H x) by set_solver. rewrite IH by set_solver. done.
Qed.

Lemma Zsum_map_add {A} (f g : A → Z) l :
  Zsum (map (λ x, f x + g x) l) = Zsum (map f l) + Zsum (map g l).
Proof. induction l; cbn; lia. Qed.

(** An element bounds the sum of a non-negative list from below. *)
Lemma Zsum_map_elem {A} (f : A → Z) l x :
  (∀ y, y ∈ l → 0 ≤ f y) → x ∈ l → f x ≤ Zsum (map f l).
Proof.
  induction l as [|y l IH]; intros Hnn Hx; [set_solver|].
  assert (0 ≤ f y) by (apply Hnn; set_solver).
  assert (0 ≤ Zsum (map f l)).
  { apply Zsum_nonneg, Forall_forall. intros z Hz%list_elem_of_fmap.
    destruct Hz as (w & -> & ?). apply Hnn; set_solver. }
  apply elem_of_cons in Hx as [->|Hx]; cbn; [lia|].
  assert (f x ≤ Zsum (map f l)) by (apply IH; set_solver). lia.
Qed.

(** ** Concatenations *)

Lemma elem_of_flat_map {A B} (f : A → list B) l y :
  y ∈ flat_map f l ↔ ∃ x, x ∈ l ∧ y ∈ f x.
Proof.
  rewrite list_elem_of_In, in_flat_map. setoid_rewrite list_elem_of_In. done.
Qed.

Lemma NoDup_flat_map {A B} (f : A → list B) l x :
  NoDup (flat_map f l) → x ∈ l → NoDup (f x).
Proof.
  induction l as [|y l IH]; intros Hnd Hx; [set_solver|]. cbn in Hnd.
  apply NoDup_app in Hnd as (H1 & H2 & H3).
  apply elem_of_cons in Hx as [->|Hx]; [done|by apply IH].
Qed.

(** Two elements of a duplicate-free concatenation share nothing unless equal. *)
Lemma NoDup_flat_map_disjoint {A B} (f : A → list B) l x y b :
  NoDup (flat_map f l) → x ∈ l → y ∈ l → b ∈ f x → b ∈ f y → x = y.
Proof.
  induction l as [|z l IH]; intros Hnd Hx Hy Hbx Hby; [set_solver|]. cbn in Hnd.
  apply NoDup_app in Hnd as (H1 & H2 & H3).
  apply elem_of_cons in Hx as [->|Hx]; apply elem_of_cons in Hy as [->|Hy]; [done|..].
  - exfalso. apply (H2 b); [done|]. apply elem_of_flat_map. eauto.
  - exfalso. apply (H2 b); [done|]. apply elem_of_flat_map. eauto.
  - by apply IH.
Qed.

(** ** Lemmas on outcomes *)

Lemma omap_err_ret {A} (f : error → error) (m : outcome A) a : omap_err f m = Ret a ↔ m = Ret a.
Proof. by destruct m. Qed.

Lemma obind_ret {A B} (m : outcome A) (k : A → outcome B) b :
  obind m k = Ret b ↔ ∃ a, m = Ret a ∧ k a = Ret b.
Proof. destruct m; naive_solver. Qed.

(** ** Lists: removing an entry by moving the last one into its place *)

Lemma swap_remove_perm {A} (l : list A) i x z :
  l !! i = Some x → l !! (length l - 1)%nat = Some z →
  l ≡ₚ x :: take (length l - 1) (<[i := z]> l).
Proof.
  intros Hx Hz. destruct l as [|y l _] using rev_ind; [done|].
  rewrite length_app in *. cbn in Hz |- *. replace (length l + 1 - 1)%nat with (length l) in * by lia.
  rewrite lookup_app_r, Nat.sub_diag in Hz by lia. cbn in Hz. injection Hz as ->.
  destruct (decide (i < length l)%nat) as [Hi|Hi].
  - rewrite lookup_app_l in Hx by done. rewrite insert_app_l by done.
    rewrite take_app_length' by (by rewrite length_insert). rewrite insert_take_drop by done.
    rewrite <- (take_drop_middle l i x Hx) at 1. rewrite <- app_assoc. cbn.
    rewrite <- Permutation_middle. apply perm_skip. f_equiv. by rewrite Permutation_app_comm.
  - apply lookup_lt_Some in Hx as Hlt. rewrite length_app in Hlt. cbn in Hlt.
    assert (i = length l) as -> by lia.
    rewrite lookup_app_r, Nat.sub_diag in Hx by lia. injection Hx as ->.
    rewrite insert_app_r_alt, Nat.sub_diag by lia. cbn. rewrite take_app_length.
    by rewrite Permutation_app_comm.
Qed.
