(* ===== verification/MathHelper.v ===== *)
(** * Overflow-checked 64-bit arithmetic and integer square roots

    Models [math/math_helper.go].  A [uint64] is a [Z] in [[0, 2^64)], an [int]
    a [Z] in the [int64] range; [bits.Mul64], [bits.Add64] and [bits.Sub64] are
    written out as the high word, carry and borrow they return.  The
    process-wide square-root cache is explicit state.  [IntegerSquareRoot] is
    not modelled: it only selects between a floating-point and a third-party
    routine. *)

From S2P Require Import Prelude.

(** ** Definitions *)

Definition ErrOverflow : error := "integer overflow".
Definition ErrDivByZero : error := "integer divide by zero".
Definition ErrMulOverflow : error := "multiplication overflows".
Definition ErrAddOverflow : error := "addition overflows".
Definition ErrSubUnderflow : error := "subtraction underflow".

(** [bits.Mul64(a, b)]: the high and the low word of the product. *)
Definition bitsMul64 (a b : Z) : Z * Z := (a * b / two64, wrap64 (a * b)).
(** [bits.Add64(a, b, 0)]: the sum and the carry. *)
Definition bitsAdd64 (a b : Z) : Z * Z := (wrap64 (a + b), (a + b) / two64).
(** [bits.Sub64(a, b, 0)]: the difference and the borrow. *)
Definition bitsSub64 (a b : Z) : Z * Z := (wrap64 (a - b), if a <? b then 1 else 0).

Definition Mul64 (a b : Z) : outcome Z :=
  let '(overflows, val) := bitsMul64 a b in
  if 0 <? overflows then Err ErrMulOverflow else Ret val.

Definition Div64 (a b : Z) : outcome Z :=
  if b =? 0 then Err ErrDivByZero else Ret (a / b).

Definition Add64 (a b : Z) : outcome Z :=
  let '(res, carry) := bitsAdd64 a b in
  if 0 <? carry then Err ErrAddOverflow else Ret res.

Definition Sub64 (a b : Z) : outcome Z :=
  let '(res, borrow) := bitsSub64 a b in
  if 0 <? borrow then Err ErrSubUnderflow else Ret res.

Definition Mod64 (a b : Z) : outcome Z :=
  if b =? 0 then Err ErrDivByZero else Ret (a mod b).

Definition Max (a b : Z) : Z := if b <? a then a else b.
Definition Min (a b : Z) : Z := if a <? b then a else b.

(** Go's integer division and remainder truncate towards zero. *)
Definition CeilDiv8 (n : Z) : Z :=
  let ret := Z.quot n 8 in
  if 0 <? Z.rem n 8 then wrapI64 (ret + 1) else ret.

Definition IsPowerOf2 (n : Z) : bool :=
  negb (n =? 0) && (Z.land n (n -w 1) =? 0).

Definition PowerOf2 (n : Z) : outcome Z :=
  if 64 <=? n then Panic "integer overflow" else Ret (wrap64 (Z.shiftl 1 n)).

Definition IntOf (u : Z) : outcome Z :=
  if maxInt64 <? u then Err ErrOverflow else Ret u.

Fixpoint AddInt_loop (sum : Z) (l : list Z) : outcome Z :=
  match l with
  | [] => Ret sum
  | ii :: l' =>
      if (0 <? ii) && (wrapI64 (maxInt64 - ii) <? sum) then Err ErrOverflow
      else if (ii <? 0) && (sum <? wrapI64 (minInt64 - ii)) then Err ErrOverflow
      else AddInt_loop (wrapI64 (sum + ii)) l'
  end.

Definition AddInt (l : list Z) : outcome Z := AddInt_loop 0 l.

(** [bi.Cmp(0) >= 0 && bi.BitLen() <= 256]; [BitLen] is that of the absolute value. *)
Definition bitLen (bi : Z) : Z := if bi =? 0 then 0 else Z.log2 (Z.abs bi) + 1.
Definition IsValidUint256 (bi : Z) : bool := (0 <=? bi) && (bitLen bi <=? 256).

(** The package variable [cachedSquareRoot]. *)
Record sqrtCache := mkSqrtCache { squareRoot : Z; cachedBalance : Z }.

Definition initialSqrtCache : sqrtCache := mkSqrtCache 126491106 15999999897103236.

(** The [for] loop of [CachedSquareRoot]: one Newton step, then the exit test.
    Returns the last value of the [squareRoot] field as well, which the loop
    writes even when the division that follows panics. *)
Fixpoint newtonLoop (fuel : nat) (balance sr val : Z) : outcome Z * Z :=
  match fuel with
  | O => (OutOfFuel, sr)
  | S fuel' =>
      let sr' := (sr +w val) / 2 in
      if sr' =? 0 then (Panic ErrDivByZero, sr')
      else
        let val' := balance / sr' in
        if sr' <=? val' then (Ret sr', sr') else newtonLoop fuel' balance sr' val'
  end.

(** The distance to the root halves at every step, so 66 steps are enough for
    every 64-bit balance (see [CachedSquareRoot_correct]). *)
Definition sqrtFuel : nat := 66.

Definition CachedSquareRoot (balance : Z) (c : sqrtCache) : outcome Z * sqrtCache :=
  if balance =? 0 then (Ret 0, c)
  else if balance =? cachedBalance c then (Ret (squareRoot c), c)
  else if squareRoot c =? 0 then (Panic ErrDivByZero, mkSqrtCache (squareRoot c) balance)
  else
    let val := balance / squareRoot c in
    let '(r, sr) := newtonLoop sqrtFuel balance (squareRoot c) val in
    (r, mkSqrtCache sr balance).

(** The cache holds the root of the balance it was computed for. *)
Definition sqrtCache_ok (c : sqrtCache) : Prop :=
  0 < cachedBalance c < two64 ∧ squareRoot c = Z.sqrt (cachedBalance c).

(** ** Checked arithmetic *)

(** Each checked operation returns the exact integer result when it fits
    in 64 bits and its error otherwise. *)
Lemma Mul64_spec a b :
  is_u64 a → is_u64 b →
  Mul64 a b = if a * b <? two64 then Ret (a * b) else Err ErrMulOverflow.
Proof.
  intros Ha Hb. unfold Mul64, bitsMul64.
  assert (0 ≤ a * b) by (unfold is_u64 in *; nia).
  destruct (a * b <? two64) eqn:E; bprop.
  - rewrite Z.div_small by done. cbn. rewrite wrap64_small; done.
  - assert (1 ≤ a * b / two64) by (apply Z.div_le_lower_bound; unfold two64 in *; lia).
    rewrite (proj2 (Z.ltb_lt _ _)) by lia. done.
Qed.

Lemma Add64_spec a b :
  is_u64 a → is_u64 b →
  Add64 a b = if a + b <? two64 then Ret (a + b) else Err ErrAddOverflow.
Proof.
  intros Ha Hb. unfold Add64, bitsAdd64. destruct (a + b <? two64) eqn:E; bprop.
  - rewrite Z.div_small, wrap64_small by (unfold is_u64 in *; lia). done.
  - rewrite (proj2 (Z.ltb_lt _ _)) by u64_lia. done.
Qed.

Lemma Sub64_spec a b :
  is_u64 a → is_u64 b →
  Sub64 a b = if b <=? a then Ret (a - b) else Err ErrSubUnderflow.
Proof.
  intros Ha Hb. unfold Sub64, bitsSub64.
  destruct (b <=? a) eqn:E; bprop.
  - replace (a <? b) with false by lia. cbn.
    rewrite wrap64_small by (unfold is_u64 in *; lia). done.
  - replace (a <? b) with true by lia. done.
Qed.

#[export] Hint Rewrite Mul64_spec Add64_spec Sub64_spec using (by eauto with go) : go.

(** ** [AddInt] *)

(** The sums of all prefixes of [l], starting from [s]. *)
Fixpoint prefixSums (s : Z) (l : list Z) : list Z :=
  match l with [] => [] | x :: l' => (s + x) :: prefixSums (s + x) l' end.

Lemma AddInt_loop_spec l : ∀ s,
  is_i64 s → Forall is_i64 l →
  AddInt_loop s l =
    if forallb (λ x, (minInt64 <=? x) && (x <=? maxInt64)) (prefixSums s l)
    then Ret (s + Zsum l) else Err ErrOverflow.
Proof.
  induction l as [|x l IH]; intros s Hs Hl; cbn.
  { f_equal; lia. }
  apply Forall_cons in Hl as [Hx Hl].
  destruct ((minInt64 <=? s + x) && (s + x <=? maxInt64)) eqn:E; cbn.
  - bprop. rewrite !(wrapI64_small (s + x)) by (split; lia).
    destruct (0 <? x) eqn:Ex; cbn; bprop.
    + rewrite wrapI64_small by u64_lia.
      rewrite (proj2 (Z.ltb_ge _ _)) by lia. rewrite (proj2 (Z.ltb_ge x 0)) by lia. cbn.
      rewrite IH by (done || split; lia). case_if; [f_equal; lia|done].
    + destruct (x <? 0) eqn:Ex'; cbn; bprop.
      * rewrite wrapI64_small by u64_lia. rewrite (proj2 (Z.ltb_ge _ _)) by lia.
        rewrite IH by (done || split; lia). case_if; [f_equal; lia|done].
      * rewrite IH by (done || split; lia). case_if; [f_equal; lia|done].
  - apply andb_false_iff in E.
    destruct (0 <? x) eqn:Ex; cbn; bprop.
    + rewrite wrapI64_small by u64_lia.
      rewrite (proj2 (Z.ltb_lt _ _)) by (destruct E; bprop; u64_lia). done.
    + destruct (x <? 0) eqn:Ex'; cbn; bprop; [|destruct E; bprop; u64_lia].
      rewrite wrapI64_small by u64_lia.
      rewrite (proj2 (Z.ltb_lt _ _)) by (destruct E; bprop; u64_lia). done.
Qed.

(** ** Newton's iteration *)

(** One step from any positive start lands on or above the root. *)
Lemma newton_above n x : 0 < x → 0 ≤ n → Z.sqrt n ≤ (x + n / x) / 2.
Proof.
  intros Hx Hn. pose proof (Z.sqrt_spec n Hn) as [Hs _].
  set (r := Z.sqrt n) in *. assert (0 ≤ r) by apply Z.sqrt_nonneg.
  apply Z.div_le_lower_bound; [lia|].
  assert (2 * r - x ≤ n / x); [|lia].
  apply Z.div_le_lower_bound; [done|]. pose proof (Z.square_nonneg (r - x)). lia.
Qed.

Lemma div_above_sqrt n x : 0 ≤ n → Z.sqrt n < x → n / x ≤ Z.sqrt n.
Proof.
  intros Hn Hx. pose proof (Z.sqrt_spec n Hn) as [_ Hs].
  set (r := Z.sqrt n) in *. assert (0 ≤ r) by apply Z.sqrt_nonneg.
  assert (n / x < r + 1); [|lia]. apply Z.div_lt_upper_bound; nia.
Qed.

(** A step from above the root at least halves the distance to it. *)
Lemma newton_halves n x :
  0 ≤ n → Z.sqrt n < x → (x + n / x) / 2 - Z.sqrt n ≤ (x - Z.sqrt n) / 2.
Proof.
  intros Hn Hx. pose proof (div_above_sqrt n x Hn Hx).
  set (r := Z.sqrt n) in *.
  assert ((x + n / x) / 2 ≤ (x + r) / 2) by (apply Z.div_le_mono; lia).
  assert ((x + r) / 2 = (x - r) / 2 + r); [|lia].
  replace (x + r) with (x - r + r * 2) by lia. rewrite Z.div_add by lia. done.
Qed.

(** The exit test identifies the root among the values on or above it. *)
Lemma newton_exit n x :
  0 ≤ n → 0 < x → Z.sqrt n ≤ x → (x <=? n / x) = true ↔ x = Z.sqrt n.
Proof.
  intros Hn Hx Hr. rewrite Z.leb_le. pose proof (Z.sqrt_spec n Hn) as [Hs1 Hs2]. split.
  - intros Hle. assert (x * x ≤ n) by (pose proof (Z.mul_div_le n x Hx); nia).
    assert (x ≤ Z.sqrt n); [|lia]. apply Z.sqrt_le_square; lia.
  - intros ->. apply Z.div_le_lower_bound; [done|]. nia.
Qed.

Lemma newtonLoop_S fuel n x v :
  newtonLoop (S fuel) n x v =
    (let y := (x +w v) / 2 in
     if y =? 0 then (Panic ErrDivByZero, y)
     else if y <=? n / y then (Ret y, y) else newtonLoop fuel n y (n / y)).
Proof. done. Qed.

Lemma newtonLoop_root fuel n x :
  0 < n < two64 → Z.sqrt n < x → x < two63 →
  x - Z.sqrt n < 2 ^ Z.of_nat fuel →
  newtonLoop fuel n x (n / x) = (Ret (Z.sqrt n), Z.sqrt n).
Proof.
  revert x. induction fuel as [|fuel IH]; intros x Hn Hx Hb Hf.
  { change (2 ^ Z.of_nat 0) with 1 in Hf. lia. }
  rewrite newtonLoop_S. cbv zeta beta.
  assert (0 < Z.sqrt n) by (apply Z.sqrt_pos; lia).
  pose proof (div_above_sqrt n x ltac:(lia) Hx).
  assert (0 ≤ n / x) by (apply Z.div_pos; lia).
  rewrite wrap64_small by (unfold is_u64, two63, two64 in *; lia).
  pose proof (newton_above n x ltac:(lia) ltac:(lia)) as Habove.
  pose proof (newton_halves n x ltac:(lia) Hx) as Hhalf.
  set (y := (x + n / x) / 2) in *.
  rewrite (proj2 (Z.eqb_neq y 0)) by lia.
  destruct (y <=? n / y) eqn:E.
  - apply newton_exit in E; [|lia..]. by rewrite E.
  - assert (y ≠ Z.sqrt n).
    { intros Heq. apply (newton_exit n y) in Heq; [congruence|lia..]. }
    assert (y ≤ x) by (subst y; apply Z.div_le_upper_bound; lia).
    apply IH; [done|lia|lia|].
    assert ((x - Z.sqrt n) / 2 < 2 ^ Z.of_nat fuel); [|lia].
    apply Z.div_lt_upper_bound; [lia|].
    rewrite Nat2Z.inj_succ, Z.pow_succ_r in Hf by lia. lia.
Qed.

(** From every consistent cache, and outside the one overflowing corner, the
    loop reaches the exact root and the cache stays consistent. *)
Lemma CachedSquareRoot_root balance c :
  0 ≤ balance < two64 → sqrtCache_ok c →
  ¬ (squareRoot c = 1 ∧ balance = maxUint64) →
  ∃ c', CachedSquareRoot balance c = (Ret (Z.sqrt balance), c') ∧ sqrtCache_ok c'.
Proof.
  intros Hb [Hc1 Hc2] Hcorner. unfold CachedSquareRoot.
  destruct (balance =? 0) eqn:E0; bprop; [subst; by exists c|].
  destruct (balance =? cachedBalance c) eqn:E1; bprop.
  { subst balance. exists c. rewrite Hc2. done. }
  assert (0 < squareRoot c) as Hpos by (rewrite Hc2; apply Z.sqrt_pos; lia).
  assert (squareRoot c < 4294967296) as Hlt.
  { rewrite Hc2. apply Z.sqrt_lt_square; unfold two64 in *; lia. }
  rewrite (proj2 (Z.eqb_neq _ 0)) by lia. unfold sqrtFuel.
  set (x := squareRoot c) in *. rewrite newtonLoop_S. cbv zeta beta.
  assert (0 ≤ balance / x) by (apply Z.div_pos; lia).
  assert (x + balance / x < two64) as Hov.
  { destruct (Z.eq_dec x 1) as [->|Hne].
    - rewrite Z.div_1_r. unfold maxUint64, two64 in *. lia.
    - assert (balance / x ≤ balance / 2) by (apply Z.div_le_compat_l; lia).
      unfold two64 in *. Z.div_mod_to_equations. lia. }
  rewrite wrap64_small by (unfold is_u64; lia).
  pose proof (newton_above balance x Hpos ltac:(lia)) as Habove.
  assert (0 < Z.sqrt balance) by (apply Z.sqrt_pos; lia).
  set (y := (x + balance / x) / 2) in *.
  assert (y < two63) by (apply Z.div_lt_upper_bound; unfold two63, two64 in *; lia).
  rewrite (proj2 (Z.eqb_neq y 0)) by lia.
  destruct (y <=? balance / y) eqn:E.
  - apply newton_exit in E; [|lia..]. rewrite E.
    eexists; split; [done|]. split; cbn; [lia|done].
  - assert (y ≠ Z.sqrt balance).
    { intros Heq. apply (newton_exit balance y) in Heq; [congruence|lia..]. }
    rewrite newtonLoop_root; [|lia|lia|done|].
    + eexists; split; [done|]. split; cbn; [lia|done].
    + change (2 ^ Z.of_nat 65) with (2 * two64). unfold two63, two64 in *. lia.
Qed.

(** ** Properties *)

(** [CachedSquareRoot] terminates with the exact integer square root of every
    [uint64] balance, whatever balance the cache was last used for, and keeps
    the cache consistent; the only excluded input is the pair of a cached root
    of 1 and the balance [2^64 - 1]. *)
Theorem CachedSquareRoot_correct balance c :
  0 ≤ balance < two64 → sqrtCache_ok c →
  ¬ (squareRoot c = 1 ∧ balance = maxUint64) →
  ∃ c', CachedSquareRoot balance c = (Ret (Z.sqrt balance), c') ∧ sqrtCache_ok c'.
Proof. apply CachedSquareRoot_root. Qed.

Lemma CachedSquareRoot_correct_witness :
  ∃ c', CachedSquareRoot 31000000000000000 initialSqrtCache =
        (Ret (Z.sqrt 31000000000000000), c') ∧ sqrtCache_ok c'.
Proof.
  apply (CachedSquareRoot_correct 31000000000000000 initialSqrtCache).
  - unfold two64; lia.
  - split; [unfold two64; cbn; lia|vm_compute; reflexivity].
  - cbn. lia.
Defined.

(** The excluded corner is real: after a call for a balance of 1, a call for
    the maximal balance overflows [squareRoot + val], divides by zero and
    leaves a zero root in the cache, so that every later call for another
    non-zero balance panics too. *)
Theorem CachedSquareRoot_overflow_poisons c b :
  sqrtCache_ok c → cachedBalance c ≠ 1 → b ≠ 0 → b ≠ maxUint64 →
  ∃ c1 c2 c3,
    CachedSquareRoot 1 c = (Ret 1, c1) ∧
    CachedSquareRoot maxUint64 c1 = (Panic ErrDivByZero, c2) ∧
    CachedSquareRoot b c2 = (Panic ErrDivByZero, c3).
Proof.
  intros Hc Hne1 Hb0 Hbm.
  destruct (CachedSquareRoot_root 1 c) as (c1 & H1 & Hok); [unfold two64; lia|done| |].
  { unfold maxUint64. lia. }
  assert (c1 = mkSqrtCache 1 1) as ->.
  { destruct Hok as [_ Hr]. revert H1 Hr. unfold CachedSquareRoot.
    destruct Hc as [Hc1 Hc2].
    assert (0 < squareRoot c) by (rewrite Hc2; apply Z.sqrt_pos; lia).
    rewrite (proj2 (Z.eqb_neq 1 (cachedBalance c))), (proj2 (Z.eqb_neq (squareRoot c) 0)) by lia.
    cbn [Z.eqb]. destruct (newtonLoop _ _ _ _) as [r sr]. intros [= _ <-]. cbn.
    intros ->. done. }
  exists (mkSqrtCache 1 1), (mkSqrtCache 0 maxUint64), (mkSqrtCache 0 b).
  repeat split; [done|].
  unfold CachedSquareRoot. cbn.
  rewrite (proj2 (Z.eqb_neq b 0)), (proj2 (Z.eqb_neq b maxUint64)) by done. done.
Qed.

Lemma CachedSquareRoot_overflow_poisons_witness :
  ∃ c1 c2 c3,
    CachedSquareRoot 1 initialSqrtCache = (Ret 1, c1) ∧
    CachedSquareRoot maxUint64 c1 = (Panic ErrDivByZero, c2) ∧
    CachedSquareRoot 32000000000 c2 = (Panic ErrDivByZero, c3).
Proof.
  apply (CachedSquareRoot_overflow_poisons initialSqrtCache 32000000000).
  - split; [unfold two64; cbn; lia|vm_compute; reflexivity].
  - cbn; lia.
  - lia.
  - unfold maxUint64; lia.
Defined.
