(* ===== verification/Primitives.v ===== *)
(** * Chain configuration and the [Slot], [Epoch] and [ValidatorIndex] types

    Models the fields of [config/params/config.go] (with the values of
    [config/params/mainnet_config.go]) that the other files read, and the
    arithmetic methods of [consensus-types/primitives/{slot,epoch,validator}.go].
    A method documented to panic is a [must] of its checked counterpart.  The
    SSZ marshalling methods are not modelled (they call the fastssz library). *)

From S2P Require Import Prelude MathHelper.

(** ** Configuration

    [params.BeaconConfig()] is a process-wide value loaded at start-up: the
    definitions take it as a class, whose laws say that a configuration is
    usable (no division by zero, values in the range of their Go type). *)
Class BeaconChainConfig := {
  GenesisEpoch : Z;
  SecondsPerSlot : Z;
  SlotsPerEpoch : Z;
  IntervalsPerSlot : Z;
  EpochsPerEth1VotingPeriod : Z;
  EpochsPerSyncCommitteePeriod : Z;
  ProposerScoreBoost : Z;
  ReorgHeadWeightThreshold : Z;
  ReorgParentWeightThreshold : Z;
  ReorgMaxEpochsSinceFinalization : Z;
  AltairForkEpoch : Z;
  BellatrixForkEpoch : Z;
  CapellaForkEpoch : Z;
  DenebForkEpoch : Z;
  ElectraForkEpoch : Z;
  FuluForkEpoch : Z;
  MinSeedLookahead : Z;
  MaxSeedLookahead : Z;
  TargetCommitteeSize : Z;
  MaxCommitteesPerSlot : Z;
  ShuffleRoundCount : Z;
  MinPerEpochChurnLimit : Z;
  ChurnLimitQuotient : Z;
  MaxPerEpochActivationChurnLimit : Z;
  MinPerEpochChurnLimitElectra : Z;
  MaxPerEpochActivationExitChurnLimit : Z;
  EffectiveBalanceIncrement : Z;
  MaxEffectiveBalance : Z;
  MaxEffectiveBalanceElectra : Z;
  EjectionBalance : Z;
  MinValidatorWithdrawabilityDelay : Z;
  EpochsPerSlashingsVector : Z;
  SlotsPerHistoricalRoot : Z;
  FarFutureEpoch : Z;
  TimelyTargetFlagIndex : Z;
  WeakSubjectivityPeriod : Z;
  SlashingProtectionPruningEpochs : Z;
  SlotsPerEpoch_range : 0 < SlotsPerEpoch < two63;
  SecondsPerSlot_range : 0 < SecondsPerSlot < 4294967296;
  IntervalsPerSlot_range : 0 < IntervalsPerSlot < two64;
  EpochsPerSyncCommitteePeriod_range : 0 < EpochsPerSyncCommitteePeriod < two64;
  TargetCommitteeSize_range : 0 < TargetCommitteeSize < two64;
  MaxCommitteesPerSlot_range : 0 < MaxCommitteesPerSlot ∧ MaxCommitteesPerSlot * SlotsPerEpoch < 16777216;
  ShuffleRoundCount_range : 0 < ShuffleRoundCount < 256;
  ChurnLimitQuotient_range : 0 < ChurnLimitQuotient < two64;
  MinPerEpochChurnLimit_range : 0 < MinPerEpochChurnLimit < two64;
  EffectiveBalanceIncrement_range : 0 < EffectiveBalanceIncrement < two64;
  WeakSubjectivityPeriod_range : 0 < WeakSubjectivityPeriod < two63;
  SlashingProtectionPruningEpochs_range : 0 < SlashingProtectionPruningEpochs < two64;
  SlotsPerHistoricalRoot_range : 2 * SlotsPerEpoch ≤ SlotsPerHistoricalRoot ∧ SlotsPerHistoricalRoot < two63;
}.

#[program] Definition mainnetBeaconConfig : BeaconChainConfig := {|
  GenesisEpoch := 0;
  SecondsPerSlot := 12;
  SlotsPerEpoch := 32;
  IntervalsPerSlot := 3;
  EpochsPerEth1VotingPeriod := 64;
  EpochsPerSyncCommitteePeriod := 256;
  ProposerScoreBoost := 40;
  ReorgHeadWeightThreshold := 20;
  ReorgParentWeightThreshold := 160;
  ReorgMaxEpochsSinceFinalization := 2;
  AltairForkEpoch := 74240;
  BellatrixForkEpoch := 144896;
  CapellaForkEpoch := 194048;
  DenebForkEpoch := 269568;
  ElectraForkEpoch := 364032;
  FuluForkEpoch := maxUint64;
  MinSeedLookahead := 1;
  MaxSeedLookahead := 4;
  TargetCommitteeSize := 128;
  MaxCommitteesPerSlot := 64;
  ShuffleRoundCount := 90;
  MinPerEpochChurnLimit := 4;
  ChurnLimitQuotient := 65536;
  MaxPerEpochActivationChurnLimit := 8;
  MinPerEpochChurnLimitElectra := 128000000000;
  MaxPerEpochActivationExitChurnLimit := 256000000000;
  EffectiveBalanceIncrement := 1000000000;
  MaxEffectiveBalance := 32000000000;
  MaxEffectiveBalanceElectra := 2048000000000;
  EjectionBalance := 16000000000;
  MinValidatorWithdrawabilityDelay := 256;
  EpochsPerSlashingsVector := 8192;
  SlotsPerHistoricalRoot := 8192;
  FarFutureEpoch := maxUint64;
  TimelyTargetFlagIndex := 1;
  WeakSubjectivityPeriod := 54000;
  SlashingProtectionPruningEpochs := 512;
|}.
Solve Obligations with (split; vm_compute; (reflexivity || discriminate)).

(** Fork version numbers, [runtime/version/fork.go]. *)
Inductive ForkVersion := Phase0 | Altair | Bellatrix | Capella | Deneb | Electra | Fulu.

Definition versionNumber (v : ForkVersion) : Z :=
  match v with
  | Phase0 => 0 | Altair => 1 | Bellatrix => 2 | Capella => 3
  | Deneb => 4 | Electra => 5 | Fulu => 6
  end.

(** ** [Slot] *)

Definition Slot_SafeMul (s x : Z) : outcome Z := Mul64 s x.
Definition Slot_Mul (s x : Z) : outcome Z := must (Slot_SafeMul s x).
Definition Slot_MulSlot (s x : Z) : outcome Z := Slot_Mul s x.
Definition Slot_SafeMulSlot (s x : Z) : outcome Z := Slot_SafeMul s x.
Definition Slot_SafeDiv (s x : Z) : outcome Z := Div64 s x.
Definition Slot_Div (s x : Z) : outcome Z := must (Slot_SafeDiv s x).
Definition Slot_DivSlot (s x : Z) : outcome Z := Slot_Div s x.
Definition Slot_SafeDivSlot (s x : Z) : outcome Z := Slot_SafeDiv s x.
Definition Slot_SafeAdd (s x : Z) : outcome Z := Add64 s x.
Definition Slot_Add (s x : Z) : outcome Z := must (Slot_SafeAdd s x).
Definition Slot_AddSlot (s x : Z) : outcome Z := Slot_Add s x.
Definition Slot_SafeAddSlot (s x : Z) : outcome Z := Slot_SafeAdd s x.
Definition Slot_SafeSub (s x : Z) : outcome Z := Sub64 s x.
Definition Slot_Sub (s x : Z) : outcome Z := must (Slot_SafeSub s x).
Definition Slot_SubSlot (s x : Z) : outcome Z := Slot_Sub s x.
Definition Slot_FlooredSubSlot (s x : Z) : Z := if s <? x then 0 else s -w x.
Definition Slot_SafeSubSlot (s x : Z) : outcome Z := Slot_SafeSub s x.
Definition Slot_SafeMod (s x : Z) : outcome Z := Mod64 s x.
Definition Slot_Mod (s x : Z) : outcome Z := must (Slot_SafeMod s x).
Definition Slot_ModSlot (s x : Z) : outcome Z := Slot_Mod s x.
Definition Slot_SafeModSlot (s x : Z) : outcome Z := Slot_SafeMod s x.

(** ** [Epoch] *)

Definition MaxEpoch (a b : Z) : Z := if b <? a then a else b.
Definition Epoch_SafeMul (e x : Z) : outcome Z := Mul64 e x.
Definition Epoch_Mul (e x : Z) : outcome Z := must (Epoch_SafeMul e x).
Definition Epoch_SafeDiv (e x : Z) : outcome Z := Div64 e x.
Definition Epoch_Div (e x : Z) : outcome Z := must (Epoch_SafeDiv e x).
Definition Epoch_SafeAdd (e x : Z) : outcome Z := Add64 e x.
Definition Epoch_Add (e x : Z) : outcome Z := must (Epoch_SafeAdd e x).
Definition Epoch_AddEpoch (e x : Z) : outcome Z := Epoch_Add e x.
Definition Epoch_SafeAddEpoch (e x : Z) : outcome Z := Epoch_SafeAdd e x.
Definition Epoch_SafeSub (e x : Z) : outcome Z := Sub64 e x.
Definition Epoch_Sub (e x : Z) : outcome Z := must (Epoch_SafeSub e x).
Definition Epoch_SafeMod (e x : Z) : outcome Z := Mod64 e x.
Definition Epoch_Mod (e x : Z) : outcome Z := must (Epoch_SafeMod e x).

(** ** [ValidatorIndex] *)

Definition ValidatorIndex_Div (v x : Z) : outcome Z :=
  if x =? 0 then Panic "divbyzero" else Ret (v / x).
Definition ValidatorIndex_Add (v x : Z) : Z := v +w x.
Definition ValidatorIndex_Sub (v x : Z) : outcome Z :=
  if v <? x then Panic "underflow" else Ret (v -w x).
Definition ValidatorIndex_Mod (v x : Z) : outcome Z :=
  if x =? 0 then Panic ErrDivByZero else Ret (v mod x).

(** ** Lemmas *)

Section config_lemmas.
Context `{BeaconChainConfig}.

Lemma SlotsPerEpoch_pos : 0 < SlotsPerEpoch.
Proof. pose proof SlotsPerEpoch_range. lia. Qed.

Lemma SecondsPerSlot_pos : 0 < SecondsPerSlot.
Proof. pose proof SecondsPerSlot_range. lia. Qed.

Lemma SlotsPerEpoch_u64 : is_u64 SlotsPerEpoch.
Proof. pose proof SlotsPerEpoch_range. unfold is_u64, two63, two64 in *. lia. Qed.
End config_lemmas.

#[export] Hint Resolve SlotsPerEpoch_pos SecondsPerSlot_pos SlotsPerEpoch_u64 : go.
