(* ===== verification/SlotTime.v ===== *)
(** * Slots, epochs and wall-clock time

    Models [time/slots/slottime.go].  A [time.Time] is a number of nanoseconds
    since the Unix epoch ([Z]); a [time.Duration] is an [int64] number of
    nanoseconds, so products of durations wrap and [Time.Sub] saturates.  Code
    that reads the clock takes the reading as the argument [now].  Divisions by
    [SlotsPerEpoch] and [SecondsPerSlot] cannot panic by the laws of
    [BeaconChainConfig].  The log line of [SecondsUntilNextEpochStart] is left
    out. *)

From S2P Require Import Prelude MathHelper Primitives.

(** ** Go's [time] package, as far as it is used *)

Definition nsPerSecond : Z := 1000000000.
Definition nsPerMillisecond : Z := 1000000.

(** [t.Sub(u)] saturates at the bounds of [time.Duration]. *)
Definition timeSub (t u : Z) : Z := Z.max minInt64 (Z.min maxInt64 (t - u)).
Definition timeAdd (t d : Z) : Z := t + d.
Definition timeBefore (t u : Z) : bool := t <? u.
Definition timeUnix (t : Z) : Z := t / nsPerSecond.
(** [t.Truncate(time.Second)]; Go's zero time is a whole number of seconds away. *)
Definition truncSecond (t : Z) : Z := t - t mod nsPerSecond.

Definition MaxSlotBuffer : Z := Z.shiftl 1 7.

Section slottime.
Context `{BeaconChainConfig}.

(** ** Slots and epochs *)

Definition AbsoluteValueSlotDifference (x y : Z) : outcome Z :=
  if y <? x then Slot_SubSlot x y else Slot_SubSlot y x.

(** [slot.DivSlot(SlotsPerEpoch)], which cannot panic ([ToEpoch_DivSlot]). *)
Definition ToEpoch (slot : Z) : Z := slot / SlotsPerEpoch.

Definition ToForkVersion (slot : Z) : ForkVersion :=
  let epoch := ToEpoch slot in
  if FuluForkEpoch <=? epoch then Fulu
  else if ElectraForkEpoch <=? epoch then Electra
  else if DenebForkEpoch <=? epoch then Deneb
  else if CapellaForkEpoch <=? epoch then Capella
  else if BellatrixForkEpoch <=? epoch then Bellatrix
  else if AltairForkEpoch <=? epoch then Altair
  else Phase0.

Definition EpochStart (epoch : Z) : outcome Z :=
  omap_err (λ e, "start slot calculation overflows: " +:+ e)%string
    (Slot_SafeMul SlotsPerEpoch epoch).

Definition UnsafeEpochStart (epoch : Z) : outcome Z := must (EpochStart epoch).

Definition EpochEnd (epoch : Z) : outcome Z :=
  if epoch =? maxUint64 then Err "start slot calculation overflows"
  else slot <-? EpochStart (epoch +w 1);; Ret (slot -w 1).

Definition IsEpochStart (slot : Z) : bool := slot mod SlotsPerEpoch =? 0.
Definition IsEpochEnd (slot : Z) : bool := IsEpochStart (slot +w 1).
Definition SinceEpochStarts (slot : Z) : Z := slot mod SlotsPerEpoch.

Definition RoundUpToNearestEpoch (slot : Z) : Z :=
  if negb (slot mod SlotsPerEpoch =? 0)
  then (slot -w (slot mod SlotsPerEpoch)) +w SlotsPerEpoch
  else slot.

Definition VotingPeriodStartTime (genesis slot : Z) : outcome Z :=
  slots <-? Slot_Mul SlotsPerEpoch EpochsPerEth1VotingPeriod;;
  m <-? Slot_ModSlot slot slots;;
  startTime <-? Slot_Mul (slot -w m) SecondsPerSlot;;
  Ret (genesis +w startTime).

Definition PrevSlot (slot : Z) : outcome Z :=
  if 0 <? slot then Slot_Sub slot 1 else Ret 0.

Definition SyncCommitteePeriod (e : Z) : Z := e / EpochsPerSyncCommitteePeriod.

Definition SyncCommitteePeriodStartEpoch (e : Z) : outcome Z :=
  Mul64 (SyncCommitteePeriod e) EpochsPerSyncCommitteePeriod.

Definition MaxSafeEpoch : Z := maxUint64 / SlotsPerEpoch.

(** ** Slots and time *)

Definition DivideSlotBy (timesPerSlot : Z) : outcome Z :=
  if timesPerSlot =? 0 then Panic ErrDivByZero
  else Ret (wrapI64 (wrapI64 (Z.quot (wrapI64 (SecondsPerSlot *w 1000)) timesPerSlot)
                     * nsPerMillisecond)).

Definition MultiplySlotBy (times : Z) : Z :=
  wrapI64 (wrapI64 (wrapI64 SecondsPerSlot * times) * nsPerSecond).

Definition StartTime (genesis slot : Z) : outcome Z :=
  match Slot_SafeMul slot SecondsPerSlot with
  | Ret _ =>
      let sd := wrapI64 (wrapI64 (nsPerSecond * wrapI64 SecondsPerSlot) * wrapI64 slot) in
      Ret (timeAdd genesis sd)
  | Err e => Err ("slot is in the far distant future: " +:+ e)%string
  | o => o
  end.

Definition UnsafeStartTime (genesis slot : Z) : outcome Z := must (StartTime genesis slot).

Definition At (genesis tm : Z) : Z :=
  if timeBefore tm genesis then 0
  else wrap64 (Z.quot (Z.quot (timeSub tm genesis) nsPerSecond) (wrapI64 SecondsPerSlot)).

Definition CurrentSlot (genesis now : Z) : Z := At genesis now.

Definition EpochsSinceGenesis (genesis now : Z) : Z := CurrentSlot genesis now / SlotsPerEpoch.

Definition Duration (start end_ : Z) : Z :=
  if timeBefore end_ start then 0
  else wrap64 (wrapI64 (timeUnix end_ - timeUnix start)) / SecondsPerSlot.

Definition ValidateClock (slot genesis now : Z) : outcome unit :=
  maxPossibleSlot <-? Slot_Add (CurrentSlot genesis now) MaxSlotBuffer;;
  if maxPossibleSlot <? slot
  then Err "slot exceeds max allowed value relative to the local clock" else Ret tt.

(** The clock is read once in [ValidateClock] ([now]) and once afterwards ([now']). *)
Definition VerifyTime (genesis slot timeTolerance now now' : Z) : outcome unit :=
  slotTime <-? StartTime genesis slot;;
  _ <-? ValidateClock slot genesis now;;
  let diff := timeSub slotTime now' in
  if timeTolerance <? diff then Err "could not process slot from the future" else Ret tt.

Definition SinceSlotStart (s genesis timestamp : Z) : outcome Z :=
  let limit := timeAdd genesis (wrapI64 (wrapI64 (s *w SecondsPerSlot) * nsPerSecond)) in
  if timeBefore timestamp limit
  then Err "could not compute seconds since slot start: invalid timestamp"
  else Ret (timeSub timestamp limit).

Definition votingWindow : Z := wrapI64 (wrapI64 (SecondsPerSlot / IntervalsPerSlot) * nsPerSecond).

Definition WithinVotingWindow (genesis slot now : Z) : outcome bool :=
  start <-? UnsafeStartTime genesis slot;;
  Ret (timeSub now start <? votingWindow).

(** [now] is the reading of [CurrentSlot], [now'] the later one. *)
Definition SecondsUntilNextEpochStart (genesis now now' : Z) : outcome Z :=
  firstSlotOfNextEpoch <-? EpochStart (ToEpoch (CurrentSlot genesis now) +w 1);;
  nextEpochStartTime <-? StartTime genesis firstSlotOfNextEpoch;;
  Ret (wrap64 (wrapI64 (timeUnix nextEpochStartTime - timeUnix now'))).

(** ** Lemmas *)

Lemma ToEpoch_DivSlot slot : Slot_DivSlot slot SlotsPerEpoch = Ret (ToEpoch slot).
Proof.
  unfold Slot_DivSlot, Slot_Div, Slot_SafeDiv, Div64.
  pose proof SlotsPerEpoch_pos. replace (SlotsPerEpoch =? 0) with false by lia. done.
Qed.

Lemma EpochStart_spec e :
  is_u64 e →
  EpochStart e = if SlotsPerEpoch * e <? two64 then Ret (SlotsPerEpoch * e)
                 else Err ("start slot calculation overflows: " +:+ ErrMulOverflow)%string.
Proof.
  intros He. unfold EpochStart, Slot_SafeMul.
  rewrite Mul64_spec by eauto with go. by case_if.
Qed.

Lemma ToEpoch_bounds s :
  0 ≤ s → SlotsPerEpoch * ToEpoch s ≤ s < SlotsPerEpoch * (ToEpoch s + 1) ∧ 0 ≤ ToEpoch s.
Proof.
  intros Hs. unfold ToEpoch. pose proof SlotsPerEpoch_pos.
  pose proof (Z.mul_div_le s _ SlotsPerEpoch_pos).
  pose proof (Z.mul_succ_div_gt s _ SlotsPerEpoch_pos).
  assert (0 ≤ s / SlotsPerEpoch) by (apply Z.div_pos; lia). lia.
Qed.

Lemma ToEpoch_u64 s : is_u64 s → is_u64 (ToEpoch s).
Proof.
  intros [Hs1 Hs2]. pose proof (ToEpoch_bounds s Hs1). pose proof SlotsPerEpoch_pos.
  unfold is_u64. nia.
Qed.

Lemma EpochEnd_ret e b :
  is_u64 e →
  EpochEnd e = Ret b ↔ SlotsPerEpoch * (e + 1) < two64 ∧ b = SlotsPerEpoch * (e + 1) - 1.
Proof.
  intros He. unfold EpochEnd. pose proof SlotsPerEpoch_range as HS.
  destruct (e =? maxUint64) eqn:Em; bprop.
  { split; [done|]. intros [Hlt _]. exfalso. subst e. unfold maxUint64, two64 in *. nia. }
  assert (is_u64 (e + 1)) by (unfold is_u64, maxUint64, two64 in *; lia).
  rewrite wrap64_small, EpochStart_spec by done.
  case_if; cbn; [|split; [done|lia]].
  rewrite wrap64_small by (unfold is_u64 in *; nia).
  split; [intros [= <-]; lia|]. intros [_ ->]. done.
Qed.

(** [StartTime] without overflow. *)
Lemma StartTime_exact genesis slot :
  0 ≤ slot → slot * SecondsPerSlot * nsPerSecond ≤ maxInt64 →
  StartTime genesis slot = Ret (genesis + slot * SecondsPerSlot * nsPerSecond).
Proof.
  intros Hs Hov. pose proof SecondsPerSlot_range.
  assert (slot ≤ slot * SecondsPerSlot) by nia.
  unfold StartTime, Slot_SafeMul, nsPerSecond, maxInt64 in *.
  rewrite Mul64_spec by (unfold is_u64, two64; lia).
  replace (slot * SecondsPerSlot <? two64) with true by (unfold two64; lia).
  unfold timeAdd. rewrite (wrapI64_small SecondsPerSlot), (wrapI64_small slot),
    (wrapI64_small (1000000000 * _)), wrapI64_small;
    [f_equal; lia|unfold is_i64, minInt64, maxInt64; lia..].
Qed.

(** The current slot as a quotient of nanoseconds. *)
Lemma CurrentSlot_div genesis now :
  genesis ≤ now → now - genesis ≤ maxInt64 →
  CurrentSlot genesis now = (now - genesis) / (nsPerSecond * SecondsPerSlot).
Proof.
  intros Hge Hmax. pose proof SecondsPerSlot_range as HS.
  unfold CurrentSlot, At, timeBefore, timeSub. replace (now <? genesis) with false by lia.
  rewrite (wrapI64_small SecondsPerSlot) by (unfold is_i64, minInt64, maxInt64; lia).
  rewrite Z.min_r, Z.max_r by (unfold minInt64, maxInt64 in *; lia).
  rewrite (Z.quot_div_nonneg (now - genesis)) by (unfold nsPerSecond; lia).
  rewrite Z.quot_div_nonneg by (try apply Z.div_pos; unfold nsPerSecond; lia).
  rewrite Z.div_div by (unfold nsPerSecond; lia). apply wrap64_small.
  assert (0 ≤ (now - genesis) / (nsPerSecond * SecondsPerSlot)) by (apply Z.div_pos; unfold nsPerSecond; lia).
  assert ((now - genesis) / (nsPerSecond * SecondsPerSlot) ≤ maxInt64).
  { apply Z.div_le_upper_bound; unfold nsPerSecond, maxInt64 in *; nia. }
  unfold is_u64, two64, maxInt64 in *. lia.
Qed.

Lemma SinceSlotStart_exact s genesis tm :
  0 ≤ s → s * SecondsPerSlot * nsPerSecond ≤ maxInt64 → genesis ≤ tm → tm - genesis ≤ maxInt64 →
  SinceSlotStart s genesis tm =
  if tm - genesis <? s * SecondsPerSlot * nsPerSecond
  then Err "could not compute seconds since slot start: invalid timestamp"
  else Ret (tm - genesis - s * SecondsPerSlot * nsPerSecond).
Proof.
  intros Hs Hmax Hge Hmax'. pose proof SecondsPerSlot_range as HS.
  assert (s * SecondsPerSlot ≤ maxInt64) by (unfold nsPerSecond, maxInt64 in *; lia).
  unfold SinceSlotStart, timeAdd, timeBefore, timeSub.
  rewrite (wrap64_small (s * SecondsPerSlot)) by (unfold is_u64, two64, maxInt64 in *; nia).
  rewrite (wrapI64_small (s * SecondsPerSlot)) by (unfold is_i64, minInt64, maxInt64 in *; nia).
  rewrite wrapI64_small by (unfold is_i64, minInt64, maxInt64, nsPerSecond in *; nia).
  destruct (Z.ltb_spec (tm - genesis) (s * SecondsPerSlot * nsPerSecond)).
  - by replace (tm <? _) with true by lia.
  - assert (0 ≤ s * SecondsPerSlot * nsPerSecond) by (unfold nsPerSecond; nia).
    replace (tm <? _) with false by lia. set (x := s * SecondsPerSlot * nsPerSecond) in *.
    rewrite Z.min_r, Z.max_r by (unfold minInt64, maxInt64 in *; lia). f_equal. lia.
Qed.

(** The clock reading that gave the slot is not before the slot's start. *)
Lemma SinceSlotStart_current genesis now :
  genesis ≤ now → now - genesis ≤ maxInt64 →
  SinceSlotStart (CurrentSlot genesis now) genesis now =
  Ret (now - genesis - CurrentSlot genesis now * SecondsPerSlot * nsPerSecond).
Proof.
  intros Hge Hmax. pose proof SecondsPerSlot_range as HS.
  assert (0 < nsPerSecond * SecondsPerSlot) as Hpos by (unfold nsPerSecond; lia).
  pose proof (Z.mul_div_le (now - genesis) (nsPerSecond * SecondsPerSlot) Hpos) as Hdiv.
  assert (0 ≤ CurrentSlot genesis now) by (rewrite CurrentSlot_div by done; apply Z.div_pos; [lia|exact Hpos]).
  rewrite <- CurrentSlot_div in Hdiv by done.
  rewrite SinceSlotStart_exact by lia. replace (_ <? _) with false by lia. done.
Qed.

(** A reading of an earlier slot is before the start of a later one. *)
Lemma SinceSlotStart_later genesis now s :
  genesis ≤ now → now - genesis ≤ maxInt64 → CurrentSlot genesis now < s →
  s * SecondsPerSlot * nsPerSecond ≤ maxInt64 →
  SinceSlotStart s genesis now = Err "could not compute seconds since slot start: invalid timestamp".
Proof.
  intros Hge Hmax Hlt Hs. pose proof SecondsPerSlot_range as HS.
  assert (0 < nsPerSecond * SecondsPerSlot) as Hpos by (unfold nsPerSecond; lia).
  pose proof (Z.mul_succ_div_gt (now - genesis) (nsPerSecond * SecondsPerSlot) Hpos) as Hdiv.
  assert (0 ≤ CurrentSlot genesis now) by (rewrite CurrentSlot_div by done; apply Z.div_pos; [lia|exact Hpos]).
  rewrite <- CurrentSlot_div in Hdiv by done.
  rewrite SinceSlotStart_exact by lia. replace (_ <? _) with true by nia. done.
Qed.
End slottime.

#[export] Hint Resolve ToEpoch_u64 : go.

(** ** Properties *)

(** Epoch boundaries partition the slots: an epoch's start and end slots are
    in that epoch, every slot lies between the start and the end of its own
    epoch, and [EpochStart]/[EpochEnd] fail exactly when the boundary leaves the
    64-bit range. *)
Theorem epoch_slot_partition `{BeaconChainConfig} s :
  is_u64 s →
  ∃ a, EpochStart (ToEpoch s) = Ret a ∧ a ≤ s ∧ ToEpoch a = ToEpoch s ∧
       SinceEpochStarts s = s - a ∧ IsEpochStart a = true ∧
       (∀ b, EpochEnd (ToEpoch s) = Ret b →
             s ≤ b ∧ ToEpoch b = ToEpoch s ∧ IsEpochEnd b = true) ∧
       (is_ret (EpochEnd (ToEpoch s)) = true ↔ SlotsPerEpoch * (ToEpoch s + 1) < two64).
Proof.
  intros Hs. destruct (ToEpoch_bounds s ltac:(apply Hs)) as [[Hlo Hhi] Hnn].
  pose proof SlotsPerEpoch_range as HS. pose proof Hs as [Hs1 Hs2].
  exists (SlotsPerEpoch * ToEpoch s).
  rewrite EpochStart_spec by eauto with go.
  replace (SlotsPerEpoch * ToEpoch s <? two64) with true by lia.
  assert ((∃ b, EpochEnd (ToEpoch s) = Ret b) ↔ SlotsPerEpoch * (ToEpoch s + 1) < two64) as Hret.
  { setoid_rewrite EpochEnd_ret; [naive_solver|eauto with go]. }
  unfold IsEpochEnd, IsEpochStart, SinceEpochStarts.
  rewrite !(Z.mul_comm SlotsPerEpoch (ToEpoch s)), Z.mod_mul by lia.
  split_and!; try done.
  - lia.
  - unfold ToEpoch at 1. by rewrite Z.div_mul by lia.
  - rewrite Z.mod_eq by lia. unfold ToEpoch. lia.
  - intros b [Hlt ->]%EpochEnd_ret; [|eauto with go]. split_and!; [lia|..].
    + symmetry. apply (Z.div_unique_pos _ _ _ (SlotsPerEpoch - 1)); lia.
    + rewrite wrap64_small by (unfold is_u64; nia).
      rewrite Z.sub_add, (Z.mul_comm SlotsPerEpoch), Z.mod_mul by lia. done.
  - rewrite <- Hret. unfold is_ret. destruct (EpochEnd (ToEpoch s)); split; naive_solver.
Qed.

Lemma epoch_slot_partition_witness :
  let H := mainnetBeaconConfig in
  ∃ a, EpochStart (ToEpoch 12345678) = Ret a ∧ a ≤ 12345678 ∧
       ToEpoch a = ToEpoch 12345678.
Proof.
  destruct (@epoch_slot_partition mainnetBeaconConfig 12345678) as (a & H1 & H2 & H3 & _).
  - unfold is_u64, two64; lia.
  - exists a. auto.
Defined.

(** As long as the slot's offset in nanoseconds fits in an [int64], the
    slot computed from a wall-clock time is the one whose interval
    [[StartTime s, StartTime (s+1))] contains that time. *)
Theorem At_StartTime_interval `{BeaconChainConfig} genesis tm s :
  0 ≤ s → (s + 1) * SecondsPerSlot * nsPerSecond ≤ maxInt64 →
  genesis ≤ tm → tm - genesis ≤ maxInt64 →
  At genesis tm = s ↔
  ∃ a b, StartTime genesis s = Ret a ∧ StartTime genesis (s + 1) = Ret b ∧ a ≤ tm < b.
Proof.
  intros Hs Hov Htm Hsat. pose proof SecondsPerSlot_range as HS.
  rewrite !StartTime_exact by (unfold nsPerSecond in *; nia).
  change (At genesis tm) with (CurrentSlot genesis tm). rewrite CurrentSlot_div by done.
  set (q := nsPerSecond * SecondsPerSlot). set (d := tm - genesis) in *.
  assert (0 < q) as Hq by (unfold q, nsPerSecond; lia).
  replace (s * SecondsPerSlot * nsPerSecond) with (q * s) by (unfold q; ring).
  replace ((s + 1) * SecondsPerSlot * nsPerSecond) with (q * (s + 1)) by (unfold q; ring).
  split.
  - intros <-. pose proof (Z.mul_div_le d q Hq). pose proof (Z.mul_succ_div_gt d q Hq).
    eexists _, _. split_and!; [done..|lia|lia].
  - intros (a & b & [= <-] & [= <-] & Ha & Hb). symmetry.
    apply (Z.div_unique_pos _ _ _ (d - q * s)); lia.
Qed.

Lemma At_StartTime_interval_witness :
  At (H := mainnetBeaconConfig) 1606824023000000000 1758000000000000000 = 12597998.
Proof.
  apply (@At_StartTime_interval mainnetBeaconConfig 1606824023000000000 1758000000000000000 12597998);
    [lia|unfold nsPerSecond, maxInt64; cbn; lia|lia|unfold maxInt64; lia|].
  eexists _, _. split_and!; [vm_compute; reflexivity..|lia|lia].
Defined.

(** [StartTime] does not reject every overflow of its [int64] duration: on
    mainnet parameters, slots past the [int64] nanosecond range but below the
    [uint64] bound of the check are given, without an error, a start time
    before genesis. *)
Theorem StartTime_silent_overflow genesis slot :
  768614337 ≤ slot ≤ 1537228672 →
  ∃ t, StartTime (H := mainnetBeaconConfig) genesis slot = Ret t ∧ t < genesis.
Proof.
  intros Hs. unfold StartTime, Slot_SafeMul. cbn [SecondsPerSlot mainnetBeaconConfig].
  rewrite Mul64_spec by (unfold is_u64, two64; lia).
  replace (slot * 12 <? two64) with true by (unfold two64; lia).
  eexists; split; [done|]. unfold timeAdd, nsPerSecond, wrapI64, minInt64, two64.
  Z.div_mod_to_equations. lia.
Qed.

Lemma StartTime_silent_overflow_witness :
  ∃ t, StartTime (H := mainnetBeaconConfig) 1606824023000000000 1000000000 = Ret t ∧ t < 1606824023000000000.
Proof. apply (StartTime_silent_overflow 1606824023000000000 1000000000). lia. Defined.
