(* ===== verification/ForkTypes.v ===== *)
(** * The fork-choice store: data, heap and effect monad

    Models [beacon-chain/forkchoice/doubly-linked-tree/types.go] and the
    effects its operations have.  The doubly linked tree is a graph of Go
    pointers that alias each other (parent, target, children, best descendant),
    so a [Node] lives in an explicit heap and every [*Node] is a [ptr]; 0 is
    [nil].  Roots and payload hashes ([[32]byte]) are the 256-bit numbers they
    spell big-endian, so that [bytes.Compare] is the order of [Z] and the zero
    hash is 0.  The clock is a sequence of readings and a [context.Context] is
    the number of polls after which it is found cancelled ([None]: never). *)

From S2P Require Import Prelude MathHelper Primitives SlotTime.

(** ** Data *)

Abbreviation ptr := nat (only parsing).
Definition nilptr : ptr := 0%nat.

Definition ZeroHash : Z := 0.

Record Checkpoint := mkCheckpoint { Epoch : Z; Root : Z }.

(** A validator's latest vote. *)
Record Vote := mkVote { currentRoot : Z; nextRoot : Z; nextEpoch : Z }.

(** A block of the tree. *)
Record Node := mkNode {
  slot : Z;
  root : Z;
  payloadHash : Z;
  parent : ptr;
  target : ptr;
  children : list ptr;
  justifiedEpoch : Z;
  unrealizedJustifiedEpoch : Z;
  finalizedEpoch : Z;
  unrealizedFinalizedEpoch : Z;
  balance : Z;
  weight : Z;
  bestDescendant : ptr;
  optimistic : bool;
  timestamp : Z
}.

(** The tree, its indices and the checkpoints.  The values of [slashedIndices]
    are always [true], so the map is the set of its keys. *)
Record Store := mkStore {
  justifiedCheckpoint : Checkpoint;
  unrealizedJustifiedCheckpoint : Checkpoint;
  unrealizedFinalizedCheckpoint : Checkpoint;
  prevJustifiedCheckpoint : Checkpoint;
  finalizedCheckpoint : Checkpoint;
  proposerBoostRoot : Z;
  previousProposerBoostRoot : Z;
  previousProposerBoostScore : Z;
  committeeWeight : Z;
  treeRootNode : ptr;
  headNode : ptr;
  nodeByRoot : gmap Z ptr;
  nodeByPayload : gmap Z ptr;
  slashedIndices : gset Z;
  originRoot : Z;
  genesisTime : Z;
  highestReceivedNode : ptr;
  receivedBlocksLastEpoch : list Z;
  allTipsAreInvalid : bool
}.

Record ForkChoice := mkForkChoice {
  store : Store;
  votes : list Vote;
  balances : list Z;
  justifiedBalances : list Z;
  numActiveValidators : Z;
  balancesByRoot : option (Z → outcome (list Z))
}.

(** The fork-choice object together with the Go heap, the clock and the context. *)
Record World := mkWorld {
  fc : ForkChoice;
  heap : gmap ptr Node;
  nextPtr : ptr;
  clock : nat → Z;
  ticks : nat;
  ctx : option nat
}.

(** ** Field updates *)

Definition set_parent (v : ptr) (x : Node) : Node :=
  mkNode (slot x) (root x) (payloadHash x) v (target x) (children x) (justifiedEpoch x)
    (unrealizedJustifiedEpoch x) (finalizedEpoch x) (unrealizedFinalizedEpoch x) (balance x)
    (weight x) (bestDescendant x) (optimistic x) (timestamp x).
Definition set_target (v : ptr) (x : Node) : Node :=
  mkNode (slot x) (root x) (payloadHash x) (parent x) v (children x) (justifiedEpoch x)
    (unrealizedJustifiedEpoch x) (finalizedEpoch x) (unrealizedFinalizedEpoch x) (balance x)
    (weight x) (bestDescendant x) (optimistic x) (timestamp x).
Definition set_children (v : list ptr) (x : Node) : Node :=
  mkNode (slot x) (root x) (payloadHash x) (parent x) (target x) v (justifiedEpoch x)
    (unrealizedJustifiedEpoch x) (finalizedEpoch x) (unrealizedFinalizedEpoch x) (balance x)
    (weight x) (bestDescendant x) (optimistic x) (timestamp x).
Definition set_justifiedEpoch (v : Z) (x : Node) : Node :=
  mkNode (slot x) (root x) (payloadHash x) (parent x) (target x) (children x) v
    (unrealizedJustifiedEpoch x) (finalizedEpoch x) (unrealizedFinalizedEpoch x) (balance x)
    (weight x) (bestDescendant x) (optimistic x) (timestamp x).
Definition set_unrealizedJustifiedEpoch (v : Z) (x : Node) : Node :=
  mkNode (slot x) (root x) (payloadHash x) (parent x) (target x) (children x)
    (justifiedEpoch x) v (finalizedEpoch x) (unrealizedFinalizedEpoch x) (balance x) (weight
    x) (bestDescendant x) (optimistic x) (timestamp x).
Definition set_finalizedEpoch (v : Z) (x : Node) : Node :=
  mkNode (slot x) (root x) (payloadHash x) (parent x) (target x) (children x)
    (justifiedEpoch x) (unrealizedJustifiedEpoch x) v (unrealizedFinalizedEpoch x) (balance
    x) (weight x) (bestDescendant x) (optimistic x) (timestamp x).
Definition set_unrealizedFinalizedEpoch (v : Z) (x : Node) : Node :=
  mkNode (slot x) (root x) (payloadHash x) (parent x) (target x) (children x)
    (justifiedEpoch x) (unrealizedJustifiedEpoch x) (finalizedEpoch x) v (balance x) (weight
    x) (bestDescendant x) (optimistic x) (timestamp x).
Definition set_balance (v : Z) (x : Node) : Node :=
  mkNode (slot x) (root x) (payloadHash x) (parent x) (target x) (children x)
    (justifiedEpoch x) (unrealizedJustifiedEpoch x) (finalizedEpoch x)
    (unrealizedFinalizedEpoch x) v (weight x) (bestDescendant x) (optimistic x) (timestamp
    x).
Definition set_weight (v : Z) (x : Node) : Node :=
  mkNode (slot x) (root x) (payloadHash x) (parent x) (target x) (children x)
    (justifiedEpoch x) (unrealizedJustifiedEpoch x) (finalizedEpoch x)
    (unrealizedFinalizedEpoch x) (balance x) v (bestDescendant x) (optimistic x) (timestamp
    x).
Definition set_bestDescendant (v : ptr) (x : Node) : Node :=
  mkNode (slot x) (root x) (payloadHash x) (parent x) (target x) (children x)
    (justifiedEpoch x) (unrealizedJustifiedEpoch x) (finalizedEpoch x)
    (unrealizedFinalizedEpoch x) (balance x) (weight x) v (optimistic x) (timestamp x).
Definition set_optimistic (v : bool) (x : Node) : Node :=
  mkNode (slot x) (root x) (payloadHash x) (parent x) (target x) (children x)
    (justifiedEpoch x) (unrealizedJustifiedEpoch x) (finalizedEpoch x)
    (unrealizedFinalizedEpoch x) (balance x) (weight x) (bestDescendant x) v (timestamp x).

Definition set_justifiedCheckpoint (v : Checkpoint) (x : Store) : Store :=
  mkStore v (unrealizedJustifiedCheckpoint x) (unrealizedFinalizedCheckpoint x)
    (prevJustifiedCheckpoint x) (finalizedCheckpoint x) (proposerBoostRoot x)
    (previousProposerBoostRoot x) (previousProposerBoostScore x) (committeeWeight x)
    (treeRootNode x) (headNode x) (nodeByRoot x) (nodeByPayload x) (slashedIndices x)
    (originRoot x) (genesisTime x) (highestReceivedNode x) (receivedBlocksLastEpoch x)
    (allTipsAreInvalid x).
Definition set_unrealizedJustifiedCheckpoint (v : Checkpoint) (x : Store) : Store :=
  mkStore (justifiedCheckpoint x) v (unrealizedFinalizedCheckpoint x)
    (prevJustifiedCheckpoint x) (finalizedCheckpoint x) (proposerBoostRoot x)
    (previousProposerBoostRoot x) (previousProposerBoostScore x) (committeeWeight x)
    (treeRootNode x) (headNode x) (nodeByRoot x) (nodeByPayload x) (slashedIndices x)
    (originRoot x) (genesisTime x) (highestReceivedNode x) (receivedBlocksLastEpoch x)
    (allTipsAreInvalid x).
Definition set_unrealizedFinalizedCheckpoint (v : Checkpoint) (x : Store) : Store :=
  mkStore (justifiedCheckpoint x) (unrealizedJustifiedCheckpoint x) v
    (prevJustifiedCheckpoint x) (finalizedCheckpoint x) (proposerBoostRoot x)
    (previousProposerBoostRoot x) (previousProposerBoostScore x) (committeeWeight x)
    (treeRootNode x) (headNode x) (nodeByRoot x) (nodeByPayload x) (slashedIndices x)
    (originRoot x) (genesisTime x) (highestReceivedNode x) (receivedBlocksLastEpoch x)
    (allTipsAreInvalid x).
Definition set_prevJustifiedCheckpoint (v : Checkpoint) (x : Store) : Store :=
  mkStore (justifiedCheckpoint x) (unrealizedJustifiedCheckpoint x)
    (unrealizedFinalizedCheckpoint x) v (finalizedCheckpoint x) (proposerBoostRoot x)
    (previousProposerBoostRoot x) (previousProposerBoostScore x) (committeeWeight x)
    (treeRootNode x) (headNode x) (nodeByRoot x) (nodeByPayload x) (slashedIndices x)
    (originRoot x) (genesisTime x) (highestReceivedNode x) (receivedBlocksLastEpoch x)
    (allTipsAreInvalid x).
Definition set_finalizedCheckpoint (v : Checkpoint) (x : Store) : Store :=
  mkStore (justifiedCheckpoint x) (unrealizedJustifiedCheckpoint x)
    (unrealizedFinalizedCheckpoint x) (prevJustifiedCheckpoint x) v (proposerBoostRoot x)
    (previousProposerBoostRoot x) (previousProposerBoostScore x) (committeeWeight x)
    (treeRootNode x) (headNode x) (nodeByRoot x) (nodeByPayload x) (slashedIndices x)
    (originRoot x) (genesisTime x) (highestReceivedNode x) (receivedBlocksLastEpoch x)
    (allTipsAreInvalid x).
Definition set_proposerBoostRoot (v : Z) (x : Store) : Store :=
  mkStore (justifiedCheckpoint x) (unrealizedJustifiedCheckpoint x)
    (unrealizedFinalizedCheckpoint x) (prevJustifiedCheckpoint x) (finalizedCheckpoint x) v
    (previousProposerBoostRoot x) (previousProposerBoostScore x) (committeeWeight x)
    (treeRootNode x) (headNode x) (nodeByRoot x) (nodeByPayload x) (slashedIndices x)
    (originRoot x) (genesisTime x) (highestReceivedNode x) (receivedBlocksLastEpoch x)
    (allTipsAreInvalid x).
Definition set_previousProposerBoostRoot (v : Z) (x : Store) : Store :=
  mkStore (justifiedCheckpoint x) (unrealizedJustifiedCheckpoint x)
    (unrealizedFinalizedCheckpoint x) (prevJustifiedCheckpoint x) (finalizedCheckpoint x)
    (proposerBoostRoot x) v (previousProposerBoostScore x) (committeeWeight x) (treeRootNode
    x) (headNode x) (nodeByRoot x) (nodeByPayload x) (slashedIndices x) (originRoot x)
    (genesisTime x) (highestReceivedNode x) (receivedBlocksLastEpoch x) (allTipsAreInvalid
    x).
Definition set_previousProposerBoostScore (v : Z) (x : Store) : Store :=
  mkStore (justifiedCheckpoint x) (unrealizedJustifiedCheckpoint x)
    (unrealizedFinalizedCheckpoint x) (prevJustifiedCheckpoint x) (finalizedCheckpoint x)
    (proposerBoostRoot x) (previousProposerBoostRoot x) v (committeeWeight x) (treeRootNode
    x) (headNode x) (nodeByRoot x) (nodeByPayload x) (slashedIndices x) (originRoot x)
    (genesisTime x) (highestReceivedNode x) (receivedBlocksLastEpoch x) (allTipsAreInvalid
    x).
Definition set_committeeWeight (v : Z) (x : Store) : Store :=
  mkStore (justifiedCheckpoint x) (unrealizedJustifiedCheckpoint x)
    (unrealizedFinalizedCheckpoint x) (prevJustifiedCheckpoint x) (finalizedCheckpoint x)
    (proposerBoostRoot x) (previousProposerBoostRoot x) (previousProposerBoostScore x) v
    (treeRootNode x) (headNode x) (nodeByRoot x) (nodeByPayload x) (slashedIndices x)
    (originRoot x) (genesisTime x) (highestReceivedNode x) (receivedBlocksLastEpoch x)
    (allTipsAreInvalid x).
Definition set_treeRootNode (v : ptr) (x : Store) : Store :=
  mkStore (justifiedCheckpoint x) (unrealizedJustifiedCheckpoint x)
    (unrealizedFinalizedCheckpoint x) (prevJustifiedCheckpoint x) (finalizedCheckpoint x)
    (proposerBoostRoot x) (previousProposerBoostRoot x) (previousProposerBoostScore x)
    (committeeWeight x) v (headNode x) (nodeByRoot x) (nodeByPayload x) (slashedIndices x)
    (originRoot x) (genesisTime x) (highestReceivedNode x) (receivedBlocksLastEpoch x)
    (allTipsAreInvalid x).
Definition set_headNode (v : ptr) (x : Store) : Store :=
  mkStore (justifiedCheckpoint x) (unrealizedJustifiedCheckpoint x)
    (unrealizedFinalizedCheckpoint x) (prevJustifiedCheckpoint x) (finalizedCheckpoint x)
    (proposerBoostRoot x) (previousProposerBoostRoot x) (previousProposerBoostScore x)
    (committeeWeight x) (treeRootNode x) v (nodeByRoot x) (nodeByPayload x) (slashedIndices
    x) (originRoot x) (genesisTime x) (highestReceivedNode x) (receivedBlocksLastEpoch x)
    (allTipsAreInvalid x).
Definition set_nodeByRoot (v : gmap Z ptr) (x : Store) : Store :=
  mkStore (justifiedCheckpoint x) (unrealizedJustifiedCheckpoint x)
    (unrealizedFinalizedCheckpoint x) (prevJustifiedCheckpoint x) (finalizedCheckpoint x)
    (proposerBoostRoot x) (previousProposerBoostRoot x) (previousProposerBoostScore x)
    (committeeWeight x) (treeRootNode x) (headNode x) v (nodeByPayload x) (slashedIndices x)
    (originRoot x) (genesisTime x) (highestReceivedNode x) (receivedBlocksLastEpoch x)
    (allTipsAreInvalid x).
Definition set_nodeByPayload (v : gmap Z ptr) (x : Store) : Store :=
  mkStore (justifiedCheckpoint x) (unrealizedJustifiedCheckpoint x)
    (unrealizedFinalizedCheckpoint x) (prevJustifiedCheckpoint x) (finalizedCheckpoint x)
    (proposerBoostRoot x) (previousProposerBoostRoot x) (previousProposerBoostScore x)
    (committeeWeight x) (treeRootNode x) (headNode x) (nodeByRoot x) v (slashedIndices x)
    (originRoot x) (genesisTime x) (highestReceivedNode x) (receivedBlocksLastEpoch x)
    (allTipsAreInvalid x).
Definition set_slashedIndices (v : gset Z) (x : Store) : Store :=
  mkStore (justifiedCheckpoint x) (unrealizedJustifiedCheckpoint x)
    (unrealizedFinalizedCheckpoint x) (prevJustifiedCheckpoint x) (finalizedCheckpoint x)
    (proposerBoostRoot x) (previousProposerBoostRoot x) (previousProposerBoostScore x)
    (committeeWeight x) (treeRootNode x) (headNode x) (nodeByRoot x) (nodeByPayload x) v
    (originRoot x) (genesisTime x) (highestReceivedNode x) (receivedBlocksLastEpoch x)
    (allTipsAreInvalid x).
Definition set_originRoot (v : Z) (x : Store) : Store :=
  mkStore (justifiedCheckpoint x) (unrealizedJustifiedCheckpoint x)
    (unrealizedFinalizedCheckpoint x) (prevJustifiedCheckpoint x) (finalizedCheckpoint x)
    (proposerBoostRoot x) (previousProposerBoostRoot x) (previousProposerBoostScore x)
    (committeeWeight x) (treeRootNode x) (headNode x) (nodeByRoot x) (nodeByPayload x)
    (slashedIndices x) v (genesisTime x) (highestReceivedNode x) (receivedBlocksLastEpoch x)
    (allTipsAreInvalid x).
Definition set_genesisTime (v : Z) (x : Store) : Store :=
  mkStore (justifiedCheckpoint x) (unrealizedJustifiedCheckpoint x)
    (unrealizedFinalizedCheckpoint x) (prevJustifiedCheckpoint x) (finalizedCheckpoint x)
    (proposerBoostRoot x) (previousProposerBoostRoot x) (previousProposerBoostScore x)
    (committeeWeight x) (treeRootNode x) (headNode x) (nodeByRoot x) (nodeByPayload x)
    (slashedIndices x) (originRoot x) v (highestReceivedNode x) (receivedBlocksLastEpoch x)
    (allTipsAreInvalid x).
Definition set_highestReceivedNode (v : ptr) (x : Store) : Store :=
  mkStore (justifiedCheckpoint x) (unrealizedJustifiedCheckpoint x)
    (unrealizedFinalizedCheckpoint x) (prevJustifiedCheckpoint x) (finalizedCheckpoint x)
    (proposerBoostRoot x) (previousProposerBoostRoot x) (previousProposerBoostScore x)
    (committeeWeight x) (treeRootNode x) (headNode x) (nodeByRoot x) (nodeByPayload x)
    (slashedIndices x) (originRoot x) (genesisTime x) v (receivedBlocksLastEpoch x)
    (allTipsAreInvalid x).
Definition set_receivedBlocksLastEpoch (v : list Z) (x : Store) : Store :=
  mkStore (justifiedCheckpoint x) (unrealizedJustifiedCheckpoint x)
    (unrealizedFinalizedCheckpoint x) (prevJustifiedCheckpoint x) (finalizedCheckpoint x)
    (proposerBoostRoot x) (previousProposerBoostRoot x) (previousProposerBoostScore x)
    (committeeWeight x) (treeRootNode x) (headNode x) (nodeByRoot x) (nodeByPayload x)
    (slashedIndices x) (originRoot x) (genesisTime x) (highestReceivedNode x) v
    (allTipsAreInvalid x).
Definition set_allTipsAreInvalid (v : bool) (x : Store) : Store :=
  mkStore (justifiedCheckpoint x) (unrealizedJustifiedCheckpoint x)
    (unrealizedFinalizedCheckpoint x) (prevJustifiedCheckpoint x) (finalizedCheckpoint x)
    (proposerBoostRoot x) (previousProposerBoostRoot x) (previousProposerBoostScore x)
    (committeeWeight x) (treeRootNode x) (headNode x) (nodeByRoot x) (nodeByPayload x)
    (slashedIndices x) (originRoot x) (genesisTime x) (highestReceivedNode x)
    (receivedBlocksLastEpoch x) v.

Definition set_store (v : Store) (x : ForkChoice) : ForkChoice :=
  mkForkChoice v (votes x) (balances x) (justifiedBalances x) (numActiveValidators x)
    (balancesByRoot x).
Definition set_votes (v : list Vote) (x : ForkChoice) : ForkChoice :=
  mkForkChoice (store x) v (balances x) (justifiedBalances x) (numActiveValidators x)
    (balancesByRoot x).
Definition set_balances (v : list Z) (x : ForkChoice) : ForkChoice :=
  mkForkChoice (store x) (votes x) v (justifiedBalances x) (numActiveValidators x)
    (balancesByRoot x).
Definition set_justifiedBalances (v : list Z) (x : ForkChoice) : ForkChoice :=
  mkForkChoice (store x) (votes x) (balances x) v (numActiveValidators x) (balancesByRoot
    x).
Definition set_numActiveValidators (v : Z) (x : ForkChoice) : ForkChoice :=
  mkForkChoice (store x) (votes x) (balances x) (justifiedBalances x) v (balancesByRoot x).
Definition set_balancesByRoot (v : option (Z → outcome (list Z))) (x : ForkChoice) : ForkChoice :=
  mkForkChoice (store x) (votes x) (balances x) (justifiedBalances x) (numActiveValidators
    x) v.

Definition set_fc (v : ForkChoice) (x : World) : World :=
  mkWorld v (heap x) (nextPtr x) (clock x) (ticks x) (ctx x).
Definition set_heap (v : gmap ptr Node) (x : World) : World :=
  mkWorld (fc x) v (nextPtr x) (clock x) (ticks x) (ctx x).
Definition set_nextPtr (v : ptr) (x : World) : World :=
  mkWorld (fc x) (heap x) v (clock x) (ticks x) (ctx x).
Definition set_ticks (v : nat) (x : World) : World :=
  mkWorld (fc x) (heap x) (nextPtr x) (clock x) v (ctx x).
Definition set_ctx (v : option nat) (x : World) : World :=
  mkWorld (fc x) (heap x) (nextPtr x) (clock x) (ticks x) v.

Definition set_currentRoot (v : Z) (x : Vote) : Vote := mkVote v (nextRoot x) (nextEpoch x).

(** ** The monad: state that survives errors *)

Definition M (A : Type) : Type := World → outcome A * World.

Definition mret {A} (a : A) : M A := λ w, (Ret a, w).
Definition mthrow {A} (e : error) : M A := λ w, (Err e, w).
Definition mpanic {A} (s : string) : M A := λ w, (Panic s, w).
Definition mfuel {A} : M A := λ w, (OutOfFuel, w).

Definition mseq {A B} (m : M A) (k : A → M B) : M B := λ w,
  match m w with
  | (Ret a, w') => k a w'
  | (Err e, w') => (Err e, w')
  | (Panic s, w') => (Panic s, w')
  | (OutOfFuel, w') => (OutOfFuel, w')
  end.

(** [if err := m; err != nil { return h(err) }], and the value otherwise. *)
Definition mcatch {A} (m : M A) (h : error → M A) : M A := λ w,
  match m w with
  | (Err e, w') => h e w'
  | r => r
  end.

(** Run [m] and hand over its error instead of returning it. *)
Definition mtry {A} (m : M A) : M (error + A) := λ w,
  match m w with
  | (Ret a, w') => (Ret (inr a), w')
  | (Err e, w') => (Ret (inl e), w')
  | (Panic s, w') => (Panic s, w')
  | (OutOfFuel, w') => (OutOfFuel, w')
  end.

Definition mlift {A} (o : outcome A) : M A := λ w, (o, w).
Definition mget {A} (f : World → A) : M A := λ w, (Ret (f w), w).
Definition mput (f : World → World) : M unit := λ w, (Ret tt, f w).

Declare Scope fc_scope.
Delimit Scope fc_scope with fc.
Notation "x <~ m ;; k" := (mseq m (λ x, k))
  (at level 100, m at next level, right associativity) : fc_scope.
Notation "m ;;; k" := (mseq m (λ _, k))
  (at level 100, right associativity) : fc_scope.
#[global] Open Scope fc_scope.

(** [for _, x := range l { b = body(b, x) }], leaving at the first error. *)
Fixpoint mfold {A B} (body : B → A → M B) (l : list A) (b : B) : M B :=
  match l with
  | [] => mret b
  | x :: l' => b' <~ body b x;; mfold body l' b'
  end.

Definition wrapM {A} (msg : error) (m : M A) : M A := mcatch m (λ e, mthrow (wrapErr e msg)).

(** ** Primitive effects *)

Definition nilDeref : string := "nil pointer dereference".

(** Read and write through a [*Node]; [nil] is never in the heap. *)
Definition deref (p : ptr) : M Node := λ w,
  match heap w !! p with
  | Some n => (Ret n, w)
  | None => (Panic nilDeref, w)
  end.

Definition modify (p : ptr) (f : Node → Node) : M unit := λ w,
  match heap w !! p with
  | Some n => (Ret tt, set_heap (<[p := f n]> (heap w)) w)
  | None => (Panic nilDeref, w)
  end.

(** [&Node{...}] *)
Definition alloc (n : Node) : M ptr := λ w,
  (Ret (nextPtr w), set_nextPtr (S (nextPtr w)) (set_heap (<[nextPtr w := n]> (heap w)) w)).

Definition errCanceled : error := "context canceled".

(** [if ctx.Err() != nil { return ctx.Err() }] *)
Definition checkCtx : M unit := λ w,
  match ctx w with
  | None => (Ret tt, w)
  | Some 0%nat => (Err errCanceled, w)
  | Some (S k) => (Ret tt, set_ctx (Some k) w)
  end.

(** [time.Now()] *)
Definition timeNow : M Z := λ w, (Ret (clock w (ticks w)), set_ticks (S (ticks w)) w).

Definition getStore : M Store := mget (λ w, store (fc w)).
Definition modStore (f : Store → Store) : M unit :=
  mput (λ w, set_fc (set_store (f (store (fc w))) (fc w)) w).
Definition getFC : M ForkChoice := mget fc.
Definition modFC (f : ForkChoice → ForkChoice) : M unit := mput (λ w, set_fc (f (fc w)) w).

(** Enough steps for every walk that follows pointers without repeating one. *)
Definition walkFuel : M nat := mget (λ w, S (size (heap w))).

(** [node, ok := s.nodeByRoot[r]; !ok || node == nil]: the node pointer, if any. *)
Definition lookupRoot (s : Store) (r : Z) : option ptr :=
  match nodeByRoot s !! r with
  | Some p => if bool_decide (p = nilptr) then None else Some p
  | None => None
  end.

(** ** Lemmas on the monad *)

Lemma mseq_ret {A B} (m : M A) (k : A → M B) w a w' :
  m w = (Ret a, w') → mseq m k w = k a w'.
Proof. unfold mseq. by intros ->. Qed.

Lemma mseq_mret {A B} (a : A) (k : A → M B) w : mseq (mret a) k w = k a w.
Proof. done. Qed.

Lemma mseq_getStore {B} (k : Store → M B) w : mseq getStore k w = k (store (fc w)) w.
Proof. done. Qed.

Lemma mseq_getFC {B} (k : ForkChoice → M B) w : mseq getFC k w = k (fc w) w.
Proof. done. Qed.

Lemma mseq_walkFuel {B} (k : nat → M B) w : mseq walkFuel k w = k (S (size (heap w))) w.
Proof. done. Qed.

Lemma mseq_modStore {B} f (k : unit → M B) w :
  mseq (modStore f) k w = k tt (set_fc (set_store (f (store (fc w))) (fc w)) w).
Proof. done. Qed.

Lemma mseq_modFC {B} f (k : unit → M B) w : mseq (modFC f) k w = k tt (set_fc (f (fc w)) w).
Proof. done. Qed.

Lemma wrapM_ret {A} msg (m : M A) w a w' : m w = (Ret a, w') → wrapM msg m w = (Ret a, w').
Proof. unfold wrapM, mcatch. by intros ->. Qed.

Lemma mseq_assoc {A B C} (m : M A) (k : A → M B) (k' : B → M C) w :
  mseq (mseq m k) k' w = mseq m (λ a, mseq (k a) k') w.
Proof. unfold mseq. by destruct (m w) as [[] ?]. Qed.

Lemma deref_eq p n w : heap w !! p = Some n → deref p w = (Ret n, w).
Proof. unfold deref. by intros ->. Qed.

Lemma modify_eq p f n w :
  heap w !! p = Some n → modify p f w = (Ret tt, set_heap (<[p := f n]> (heap w)) w).
Proof. unfold modify. by intros ->. Qed.

Lemma checkCtx_eq w : ctx w = None → checkCtx w = (Ret tt, w).
Proof. unfold checkCtx. by intros ->. Qed.

Lemma lookupRoot_Some s r p :
  lookupRoot s r = Some p ↔ nodeByRoot s !! r = Some p ∧ p ≠ nilptr.
Proof.
  unfold lookupRoot. destruct (nodeByRoot s !! r) as [q|]; [|naive_solver].
  case_bool_decide; naive_solver.
Qed.

Lemma fc_heap_eta w : set_fc (set_votes (votes (fc w)) (fc w)) (set_heap (heap w) w) = w.
Proof. by destruct w as [[] ? ? ? ? ?]. Qed.

Lemma heap_eta w : set_heap (heap w) w = w.
Proof. by destruct w. Qed.

(** Run the next statement of a computation: a store access, or one whose
    result is given by the equation [H]. *)
Ltac mstep :=
  first [ rewrite mseq_mret | rewrite mseq_getStore | rewrite mseq_getFC
        | rewrite mseq_walkFuel | rewrite mseq_modStore | rewrite mseq_modFC ]; cbv beta.
Tactic Notation "mstep" "with" constr(H) := rewrite (mseq_ret _ _ _ _ _ H); cbv beta.
