(* ===== verification/ForkStore.v ===== *)
(** * Node operations of the fork-choice tree

    Models [beacon-chain/forkchoice/doubly-linked-tree/node.go]: the recursive
    weight and best-descendant updates, viability, validation of ancestors,
    arrival times and the tree dump.  A recursive method takes a fuel argument;
    [ForkTree.v] shows that the height of the tree is enough. *)

From S2P Require Import Prelude MathHelper Primitives SlotTime ForkTypes.

Section node.
Context `{BeaconChainConfig}.

(** [10 * time.Second] *)
Definition ProcessAttestationsThreshold : Z := 10 * nsPerSecond.

Definition ErrNilNode : error := "invalid nil or unknown node".

Fixpoint applyWeightChanges (fuel : nat) (n : ptr) : M unit :=
  match fuel with
  | O => mfuel
  | S fuel' =>
      nd <~ deref n;;
      childrenWeight <~ mfold (λ childrenWeight child,
          checkCtx;;;
          applyWeightChanges fuel' child;;;
          c <~ deref child;;
          mret (childrenWeight +w weight c))
        (children nd) 0;;
      nd <~ deref n;;
      if root nd =? ZeroHash then mret tt
      else modify n (λ nd, set_weight (balance nd +w childrenWeight) nd)
  end.

Definition viableForHead (n : Node) (justifiedEpoch' currentEpoch : Z) : bool :=
  if justifiedEpoch' =? 0 then true
  else (justifiedEpoch n =? justifiedEpoch') || (currentEpoch <=? justifiedEpoch n +w 2).

Definition leadsToViableHead (n : Node) (justifiedEpoch' currentEpoch : Z) : M bool :=
  if bool_decide (bestDescendant n = nilptr)
  then mret (viableForHead n justifiedEpoch' currentEpoch)
  else d <~ deref (bestDescendant n);; mret (viableForHead d justifiedEpoch' currentEpoch).

(** The local variables of the loop of [updateBestDescendant]. *)
Record bestState := mkBest { bestChild : ptr; bestWeight : Z; hasViableDescendant : bool }.

Fixpoint updateBestDescendant (fuel : nat) (n : ptr)
    (justifiedEpoch' finalizedEpoch' currentEpoch : Z) : M unit :=
  match fuel with
  | O => mfuel
  | S fuel' =>
      checkCtx;;;
      nd <~ deref n;;
      if bool_decide (children nd = []) then modify n (set_bestDescendant nilptr)
      else
        b <~ mfold (λ b child,
            if bool_decide (child = nilptr)
            then mthrow (wrapErr ErrNilNode "could not update best descendant")
            else
              updateBestDescendant fuel' child justifiedEpoch' finalizedEpoch' currentEpoch;;;
              c <~ deref child;;
              childLeadsToViableHead <~ leadsToViableHead c justifiedEpoch' currentEpoch;;
              if childLeadsToViableHead && negb (hasViableDescendant b)
              then mret (mkBest child (weight c) true)
              else if childLeadsToViableHead
              then
                if weight c =? bestWeight b
                then
                  bc <~ deref (bestChild b);;
                  if root bc <? root c
                  then mret (mkBest child (bestWeight b) (hasViableDescendant b))
                  else mret b
                else if bestWeight b <? weight c
                then mret (mkBest child (weight c) (hasViableDescendant b))
                else mret b
              else mret b)
          (children nd) (mkBest nilptr 0 false);;
        if hasViableDescendant b
        then
          bc <~ deref (bestChild b);;
          if bool_decide (bestDescendant bc = nilptr)
          then modify n (set_bestDescendant (bestChild b))
          else modify n (set_bestDescendant (bestDescendant bc))
        else modify n (set_bestDescendant nilptr)
  end.

Fixpoint setNodeAndParentValidated (fuel : nat) (n : ptr) : M unit :=
  match fuel with
  | O => mfuel
  | S fuel' =>
      checkCtx;;;
      nd <~ deref n;;
      if negb (optimistic nd) then mret tt
      else
        modify n (set_optimistic false);;;
        if bool_decide (parent nd = nilptr) then mret tt
        else setNodeAndParentValidated fuel' (parent nd)
  end.

(** The error is returned beside the boolean, so the pair is kept. *)
Definition arrivedEarly (n : Node) (genesis : Z) : outcome bool :=
  sss <-? SinceSlotStart (slot n) genesis (truncSecond (timestamp n));;
  Ret (sss <? votingWindow).

Definition arrivedAfterOrphanCheck (n : Node) (genesis : Z) : outcome bool :=
  secs <-? SinceSlotStart (slot n) genesis (truncSecond (timestamp n));;
  Ret (ProcessAttestationsThreshold <=? secs).

(** [consensus-types/forkchoice.Node], the element of a dump. *)
Inductive Validity := DumpValid | DumpOptimistic.
Record DumpNode := mkDumpNode {
  d_Slot : Z; d_BlockRoot : Z; d_ParentRoot : Z;
  d_JustifiedEpoch : Z; d_FinalizedEpoch : Z;
  d_UnrealizedJustifiedEpoch : Z; d_UnrealizedFinalizedEpoch : Z;
  d_Balance : Z; d_Weight : Z; d_ExecutionOptimistic : bool;
  d_ExecutionBlockHash : Z; d_Timestamp : Z; d_Target : Z; d_Validity : Validity
}.

(** [x.root], or the zero hash for a nil [x]. *)
Definition rootOrZero (p : ptr) : M Z :=
  if bool_decide (p = nilptr) then mret ZeroHash else n <~ deref p;; mret (root n).

Fixpoint nodeTreeDump (fuel : nat) (n : ptr) (nodes : list DumpNode) : M (list DumpNode) :=
  match fuel with
  | O => mfuel
  | S fuel' =>
      checkCtx;;;
      nd <~ deref n;;
      parentRoot <~ rootOrZero (parent nd);;
      target' <~ rootOrZero (target nd);;
      let thisNode := mkDumpNode (slot nd) (root nd) parentRoot
        (justifiedEpoch nd) (finalizedEpoch nd)
        (unrealizedJustifiedEpoch nd) (unrealizedFinalizedEpoch nd)
        (balance nd) (weight nd) (optimistic nd) (payloadHash nd) (timestamp nd) target'
        (if optimistic nd then DumpOptimistic else DumpValid) in
      mfold (λ nodes child, nodeTreeDump fuel' child nodes) (children nd) (nodes ++ [thisNode])
  end.
End node.

(** * Store operations of the fork-choice tree

    Models [store.go], [optimistic_sync.go], [proposer_boost.go] and the
    node-level part of [unrealized_justification.go] under
    [beacon-chain/forkchoice/doubly-linked-tree/].  Metrics, tracing spans and
    log lines are left out.  A block is what [insert] reads of it; the result
    of [precompute.UnrealizedCheckpoints] on a state is part of the view of the
    state. *)

Definition errInvalidParentRoot : error := "invalid parent root".
Definition errInvalidProposerBoostRoot : error := "invalid proposer boost root".
Definition errUnknownFinalizedRoot : error := "unknown finalized root".
Definition errUnknownJustifiedRoot : error := "unknown justified root".
Definition errInvalidOptimisticStatus : error := "invalid optimistic status".
Definition errInvalidNilCheckpoint : error := "invalid nil checkpoint".
Definition errInvalidUnrealizedJustifiedEpoch : error := "invalid unrealized justified epoch".
Definition errInvalidUnrealizedFinalizedEpoch : error := "invalid unrealized finalized epoch".

(** What [insert] reads of a [consensus_blocks.ROBlock]; [blkExecution] is the
    block hash of the execution payload, or the error of [Body().Execution()]. *)
Record ROBlock := mkROBlock {
  blkRoot : Z; blkSlot : Z; blkParentRoot : Z;
  blkVersion : ForkVersion; blkExecution : outcome Z
}.

(** What fork choice reads of a [state.BeaconState]. *)
Record StateView := mkStateView {
  stateSlot : Z;
  currentJustifiedCheckpoint : option Checkpoint;
  stateFinalizedCheckpoint : option Checkpoint;
  unrealizedCheckpoints : outcome (Checkpoint * Checkpoint)
}.

Section store.
Context `{BeaconChainConfig}.

(** [slots.CurrentSlot(s.genesisTime)] *)
Definition currentSlotM : M Z :=
  s <~ getStore;; now <~ timeNow;; mret (CurrentSlot (genesisTime s) now).

(** [slots.EpochsSinceGenesis(s.genesisTime)] *)
Definition currentEpochM : M Z :=
  s <~ getStore;; now <~ timeNow;; mret (EpochsSinceGenesis (genesisTime s) now).

Definition head : M Z :=
  checkCtx;;;
  s <~ getStore;;
  justifiedNode <~
    match lookupRoot s (Root (justifiedCheckpoint s)) with
    | Some p => mret p
    | None =>
        if Epoch (justifiedCheckpoint s) =? GenesisEpoch then mret (treeRootNode s)
        else mthrow errUnknownJustifiedRoot
    end;;
  jn <~ deref justifiedNode;;
  let bd := if bool_decide (bestDescendant jn = nilptr) then justifiedNode
            else bestDescendant jn in
  currentEpoch <~ currentEpochM;;
  b <~ deref bd;;
  if negb (viableForHead b (Epoch (justifiedCheckpoint s)) currentEpoch)
  then modStore (set_allTipsAreInvalid true);;; mthrow "head is not eligible"
  else
    modStore (set_allTipsAreInvalid false);;;
    (if bool_decide (bd = headNode s) then mret tt else modStore (set_headNode bd));;;
    mret (root b).

(** [removeNodeAndChildren] *)
Fixpoint removeNodeAndChildren (fuel : nat) (node : ptr) (invalidRoots : list Z) : M (list Z) :=
  match fuel with
  | O => mfuel
  | S fuel' =>
      nd <~ deref node;;
      invalidRoots <~ mfold (λ invalidRoots child,
          checkCtx;;; removeNodeAndChildren fuel' child invalidRoots)
        (children nd) invalidRoots;;
      nd <~ deref node;;
      let invalidRoots := invalidRoots ++ [root nd] in
      s <~ getStore;;
      (if root nd =? proposerBoostRoot s then modStore (set_proposerBoostRoot 0) else mret tt);;;
      (if root nd =? previousProposerBoostRoot s
       then modStore (λ s, set_previousProposerBoostScore 0 (set_previousProposerBoostRoot ZeroHash s))
       else mret tt);;;
      modStore (λ s, set_nodeByRoot (delete (root nd) (nodeByRoot s)) s);;;
      modStore (λ s, set_nodeByPayload (delete (payloadHash nd) (nodeByPayload s)) s);;;
      mret invalidRoots
  end.

(** The loop of [removeNode]: overwrite the entry of [node] by the last one and
    shrink the slice; the slice is unchanged when [node] is not in it. *)
Definition swapRemove (children : list ptr) (node : ptr) : list ptr :=
  match list_find (λ p, p = node) children with
  | Some (i, _) =>
      match children !! (length children - 1)%nat with
      | Some l => take (length children - 1) (<[i := l]> children)
      | None => children
      end
  | None => children
  end.

Definition removeNode (node : ptr) : M (list Z) :=
  if bool_decide (node = nilptr)
  then mthrow (wrapErr ErrNilNode "could not remove node")
  else
    nd <~ deref node;;
    if negb (optimistic nd) || bool_decide (parent nd = nilptr)
    then mthrow errInvalidOptimisticStatus
    else
      pn <~ deref (parent nd);;
      (if bool_decide (length (children pn) = 1%nat)
       then modify (parent nd) (set_children [])
       else modify (parent nd) (set_children (swapRemove (children pn) node)));;;
      fuel <~ walkFuel;;
      removeNodeAndChildren fuel node [].

(** The [for] loop of [setOptimisticToInvalid]. *)
Fixpoint findFirstInvalid (fuel : nat) (firstInvalid : ptr) (lastValidHash : Z) : M ptr :=
  match fuel with
  | O => mfuel
  | S fuel' =>
      nd <~ deref firstInvalid;;
      if bool_decide (parent nd = nilptr) then mret firstInvalid
      else
        pn <~ deref (parent nd);;
        if payloadHash pn =? lastValidHash then mret firstInvalid
        else checkCtx;;; findFirstInvalid fuel' (parent nd) lastValidHash
  end.

Definition setOptimisticToInvalid (root' parentRoot lastValidHash : Z) : M (list Z) :=
  s <~ getStore;;
  start <~
    match nodeByRoot s !! root' with
    | None =>
        match lookupRoot s parentRoot with
        | None => mthrow (wrapErr ErrNilNode "could not set node to invalid")
        | Some node =>
            nd <~ deref node;;
            if payloadHash nd =? lastValidHash then mret None else mret (Some node)
        end
    | Some node =>
        if bool_decide (node = nilptr)
        then mthrow (wrapErr ErrNilNode "could not set node to invalid")
        else
          nd <~ deref node;;
          pn <~ deref (parent nd);;
          if negb (root pn =? parentRoot) then mthrow errInvalidParentRoot
          else mret (Some node)
    end;;
  match start with
  | None => mret []
  | Some node =>
      fuel <~ walkFuel;;
      firstInvalid <~ findFirstInvalid fuel node lastValidHash;;
      fi <~ deref firstInvalid;;
      if bool_decide (parent fi = nilptr)
      then
        nd <~ deref node;;
        if root nd =? parentRoot then mret [] else removeNode node
      else removeNode firstInvalid
  end.

(** [insert]; the second clock reading decides the proposer boost. *)
Definition insert (blk : ROBlock) (justifiedEpoch' finalizedEpoch' : Z) : M ptr :=
  let root' := blkRoot blk in
  let slot' := blkSlot blk in
  payloadHash' <~
    (if versionNumber Bellatrix <=? versionNumber (blkVersion blk)
     then mlift (blkExecution blk) else mret 0);;
  s <~ getStore;;
  match nodeByRoot s !! root' with
  | Some n => mret n
  | None =>
      let parent' := default nilptr (nodeByRoot s !! blkParentRoot blk) in
      now0 <~ timeNow;;
      n <~ alloc (mkNode slot' root' payloadHash' parent' nilptr []
                    justifiedEpoch' justifiedEpoch' finalizedEpoch' finalizedEpoch'
                    0 0 nilptr true now0);;
      (if slot' mod SlotsPerEpoch =? 0 then modify n (set_target n)
       else if bool_decide (parent' = nilptr) then mret tt
       else
         pn <~ deref parent';;
         if ToEpoch slot' =? ToEpoch (slot pn)
         then modify n (set_target (target pn))
         else modify n (set_target parent'));;;
      modStore (λ s, set_nodeByPayload (<[payloadHash' := n]> (nodeByPayload s)) s);;;
      modStore (λ s, set_nodeByRoot (<[root' := n]> (nodeByRoot s)) s);;;
      early <~
        (if bool_decide (parent' = nilptr)
         then
           if bool_decide (treeRootNode s = nilptr)
           then
             modStore (λ s, set_highestReceivedNode n (set_headNode n (set_treeRootNode n s)));;;
             mret false
           else
             modStore (λ s, set_nodeByRoot (delete root' (nodeByRoot s)) s);;;
             modStore (λ s, set_nodeByPayload (delete payloadHash' (nodeByPayload s)) s);;;
             mthrow errInvalidParentRoot
         else
           modify parent' (λ pn, set_children (children pn ++ [n]) pn);;;
           now <~ timeNow;;
           if timeBefore now (genesisTime s) then mret true
           else
             currentSlot <~ currentSlotM;;
             sss <~ wrapM "could not determine time since current slot started"
                      (mlift (SinceSlotStart currentSlot (genesisTime s) now));;
             let isFirstBlock := proposerBoostRoot s =? 0 in
             (if (currentSlot =? slot') && (sss <? votingWindow) && isFirstBlock
              then modStore (set_proposerBoostRoot root') else mret tt);;;
             fuel <~ walkFuel;;
             mcatch (updateBestDescendant fuel (treeRootNode s)
                       (Epoch (justifiedCheckpoint s)) (Epoch (finalizedCheckpoint s))
                       (ToEpoch currentSlot))
               (λ err,
                  _ <~ mtry (removeNode n);;
                  mthrow (wrapErr err "could not update best descendants"));;;
             mret false);;
      if (early : bool) then mret n
      else
        currentSlot <~ currentSlotM;;
        (if currentSlot <? slot' +w SlotsPerEpoch
         then
           s <~ getStore;;
           let i := Z.to_nat (slot' mod SlotsPerEpoch) in
           if bool_decide (i < length (receivedBlocksLastEpoch s))%nat
           then modStore (λ s, set_receivedBlocksLastEpoch
                                 (<[i := slot']> (receivedBlocksLastEpoch s)) s)
           else mpanic "index out of range"
         else mret tt);;;
        s <~ getStore;;
        hn <~ deref (highestReceivedNode s);;
        (if slot hn <? slot' then modStore (set_highestReceivedNode n) else mret tt);;;
        mret n
  end.

Fixpoint pruneFinalizedNodeByRootMap (fuel : nat) (node finalizedNode : ptr) : M unit :=
  match fuel with
  | O => mfuel
  | S fuel' =>
      checkCtx;;;
      if bool_decide (node = finalizedNode)
      then
        nd <~ deref node;;
        if bool_decide (target nd = node) then mret tt else modify node (set_target nilptr)
      else
        nd <~ deref node;;
        mfold (λ _ child, pruneFinalizedNodeByRootMap fuel' child finalizedNode)
          (children nd) tt;;;
        modify node (set_children []);;;
        nd <~ deref node;;
        modStore (λ s, set_nodeByRoot (delete (root nd) (nodeByRoot s)) s);;;
        modStore (λ s, set_nodeByPayload (delete (payloadHash nd) (nodeByPayload s)) s)
  end.

Definition prune : M unit :=
  s <~ getStore;;
  match lookupRoot s (Root (finalizedCheckpoint s)) with
  | None => mthrow errUnknownFinalizedRoot
  | Some finalizedNode =>
      fn <~ deref finalizedNode;;
      if bool_decide (parent fn = nilptr) then mret tt
      else
        fuel <~ walkFuel;;
        pruneFinalizedNodeByRootMap fuel (treeRootNode s) finalizedNode;;;
        modify finalizedNode (set_parent nilptr);;;
        modStore (set_treeRootNode finalizedNode);;;
        checkpointMaxSlot <~ wrapM "could not compute epoch start"
                               (mlift (EpochStart (Epoch (finalizedCheckpoint s))));;
        fn <~ deref finalizedNode;;
        if slot fn =? checkpointMaxSlot then mret tt
        else
          mfold (λ _ child,
              if bool_decide (child = nilptr) then mret tt
              else
                c <~ deref child;;
                if slot c <=? checkpointMaxSlot
                then wrapM "could not prune incompatible finalized child"
                       (pruneFinalizedNodeByRootMap fuel child finalizedNode)
                else mret tt)
            (children fn) tt
  end.

(** [order] is the order in which Go's map iteration yields the entries. *)
Definition tips (order : list (Z * ptr)) : M (list Z * list Z) :=
  mfold (λ acc e,
      nd <~ deref e.2;;
      if bool_decide (children nd = [])
      then mret (acc.1 ++ [e.1], acc.2 ++ [slot nd]) else mret acc)
    order ([], []).

(** ** [proposer_boost.go] *)

Definition applyProposerBoostScore : M unit :=
  s <~ getStore;;
  (if previousProposerBoostRoot s =? ZeroHash then mret tt
   else match lookupRoot s (previousProposerBoostRoot s) with
        | None => mret tt
        | Some previousNode =>
            modify previousNode (λ n, set_balance (balance n -w previousProposerBoostScore s) n)
        end);;;
  proposerScore <~
    (if proposerBoostRoot s =? ZeroHash then mret 0
     else match lookupRoot s (proposerBoostRoot s) with
          | None => mret 0
          | Some currentNode =>
              let proposerScore := (committeeWeight s *w ProposerScoreBoost) / 100 in
              modify currentNode (λ n, set_balance (balance n +w proposerScore) n);;;
              mret proposerScore
          end);;
  modStore (λ s, set_previousProposerBoostRoot (proposerBoostRoot s) s);;;
  modStore (set_previousProposerBoostScore proposerScore).

Definition proposerBoost : M Z := s <~ getStore;; mret (proposerBoostRoot s).

(** ** [unrealized_justification.go], store methods *)

Definition setUnrealizedJustifiedEpoch (root' epoch : Z) : M unit :=
  s <~ getStore;;
  match lookupRoot s root' with
  | None => mthrow (wrapErr ErrNilNode "could not set unrealized justified epoch")
  | Some node =>
      nd <~ deref node;;
      if epoch <? unrealizedJustifiedEpoch nd then mthrow errInvalidUnrealizedJustifiedEpoch
      else modify node (set_unrealizedJustifiedEpoch epoch)
  end.

Definition setUnrealizedFinalizedEpoch (root' epoch : Z) : M unit :=
  s <~ getStore;;
  match lookupRoot s root' with
  | None => mthrow (wrapErr ErrNilNode "could not set unrealized finalized epoch")
  | Some node =>
      nd <~ deref node;;
      if epoch <? unrealizedFinalizedEpoch nd then mthrow errInvalidUnrealizedFinalizedEpoch
      else modify node (set_unrealizedFinalizedEpoch epoch)
  end.

Definition pullTips (st : StateView) (node : ptr) (jc fc' : Checkpoint)
    : M (Checkpoint * Checkpoint) :=
  nd <~ deref node;;
  if bool_decide (parent nd = nilptr) then mret (jc, fc')
  else
    currentSlot <~ currentSlotM;;
    let currentEpoch := ToEpoch currentSlot in
    let stateEpoch := ToEpoch (stateSlot st) in
    pn <~ deref (parent nd);;
    let currJustified := unrealizedJustifiedEpoch pn =? currentEpoch in
    let prevJustified := unrealizedJustifiedEpoch pn +w 1 =? currentEpoch in
    let tooEarlyForCurr := SinceEpochStarts (stateSlot st) *w 3 <? SlotsPerEpoch *w 2 in
    if currJustified || ((stateEpoch =? currentEpoch) && prevJustified && tooEarlyForCurr)
    then
      modify node (set_unrealizedJustifiedEpoch (unrealizedJustifiedEpoch pn));;;
      modify node (set_unrealizedFinalizedEpoch (unrealizedFinalizedEpoch pn));;;
      mret (jc, fc')
    else
      r <~ mtry (mlift (unrealizedCheckpoints st));;
      let '(uj, uf) := match r with inr p => p | inl _ => (jc, fc') end in
      s <~ getStore;;
      (if Epoch (unrealizedJustifiedCheckpoint s) <? Epoch uj
       then modStore (set_unrealizedJustifiedCheckpoint uj) else mret tt);;;
      (if Epoch (unrealizedFinalizedCheckpoint s) <? Epoch uf
       then modStore (set_unrealizedJustifiedCheckpoint uj);;;
            modStore (set_unrealizedFinalizedCheckpoint uf) else mret tt);;;
      modify node (λ n, set_unrealizedFinalizedEpoch (Epoch uf)
                          (set_unrealizedJustifiedEpoch (Epoch uj) n));;;
      if stateEpoch <? currentEpoch
      then
        modify node (set_justifiedEpoch (Epoch uj));;;
        modify node (set_finalizedEpoch (Epoch uf));;;
        mret (uj, uf)
      else mret (jc, fc').
End store.
