(* ===== verification/ForkChoice.v ===== *)
(** * The fork-choice interface

    Models [forkchoice.go], [unrealized_justification.go], [on_tick.go],
    [last_root.go] and [reorg_late_blocks.go] under
    [beacon-chain/forkchoice/doubly-linked-tree/], and the received-block
    queries of [store.go].  Metrics, tracing spans and log lines are left out;
    the callers' read-write lock serialises the calls, so an operation is one
    step on the [World]. *)

From S2P Require Import Prelude MathHelper Primitives SlotTime ForkTypes ForkStore.

(** [fieldparams.SlotsPerEpoch], the length of [receivedBlocksLastEpoch]. *)
Definition fieldSlotsPerEpoch : Z := 32.

(** [forkchoice.ErrUnknownCommonAncestor] *)
Definition ErrUnknownCommonAncestor : error := "unknown common ancestor".

Definition New : ForkChoice :=
  let zero := mkCheckpoint 0 0 in
  mkForkChoice
    (mkStore zero zero zero zero zero 0 0 0 0 nilptr nilptr ∅ ∅ ∅ 0 0 nilptr
       (replicate (Z.to_nat fieldSlotsPerEpoch) 0) false)
    [] [] [] 0 None.

Section forkchoice.
Context `{BeaconChainConfig}.

Definition NodeCount (f : ForkChoice) : nat := size (nodeByRoot (store f)).

(** ** Votes and balances *)

(** [f.balances[i]], 0 when out of range. *)
Definition balanceAt (l : list Z) (i : nat) : Z := default 0 (l !! i).

(** One iteration of the loop of [updateBalances]. *)
Definition updateBalancesStep (newBalances : list Z) (index : nat) : M unit :=
  f <~ getFC;;
  if bool_decide (Z.of_nat index ∈ slashedIndices (store f)) then mret tt
  else
    match votes f !! index with
    | None => mpanic "index out of range"
    | Some vote =>
        if (currentRoot vote =? ZeroHash) && (nextRoot vote =? ZeroHash) then mret tt
        else
          let oldBalance := balanceAt (balances f) index in
          let newBalance := balanceAt newBalances index in
          (if negb (currentRoot vote =? nextRoot vote) || negb (oldBalance =? newBalance)
           then
             (match nodeByRoot (store f) !! nextRoot vote with
              | Some nextNode =>
                  if nextRoot vote =? ZeroHash then mret tt
                  else if bool_decide (nextNode = nilptr)
                  then mthrow (wrapErr ErrNilNode "could not update balances")
                  else modify nextNode (λ n, set_balance (balance n +w newBalance) n)
              | None => mret tt
              end);;;
             (match nodeByRoot (store f) !! currentRoot vote with
              | Some currentNode =>
                  if currentRoot vote =? ZeroHash then mret tt
                  else if bool_decide (currentNode = nilptr)
                  then mthrow (wrapErr ErrNilNode "could not update balances")
                  else modify currentNode (λ n,
                         set_balance (if balance n <? oldBalance then 0
                                      else balance n -w oldBalance) n)
              | None => mret tt
              end)
           else mret tt);;;
          modFC (λ f, set_votes (<[index := set_currentRoot (nextRoot vote) vote]> (votes f)) f)
    end.

Definition updateBalances : M unit :=
  f <~ getFC;;
  let newBalances := justifiedBalances f in
  mfold (λ _ index, updateBalancesStep newBalances index) (seq 0 (length (votes f))) tt;;;
  modFC (set_balances newBalances).

Definition zeroVote : Vote := mkVote ZeroHash ZeroHash 0.

(** [for index >= len(votes) { votes = append(votes, Vote{}) }] *)
Definition growVotes (l : list Vote) (index : nat) : list Vote :=
  l ++ replicate (S index - length l) zeroVote.

Definition processVote (blockRoot targetEpoch : Z) (l : list Vote) (index : nat) : list Vote :=
  let l := growVotes l index in
  match l !! index with
  | None => l
  | Some v =>
      let newVote := (nextRoot v =? ZeroHash) && (currentRoot v =? ZeroHash) in
      if newVote || (nextEpoch v <? targetEpoch)
      then <[index := mkVote (currentRoot v) blockRoot targetEpoch]> l
      else l
  end.

Definition ProcessAttestation (validatorIndices : list nat) (blockRoot targetEpoch : Z) : M unit :=
  modFC (λ f, set_votes (fold_left (processVote blockRoot targetEpoch) validatorIndices (votes f)) f).

Definition InsertSlashedIndex (index : nat) : M unit :=
  f <~ getFC;;
  if bool_decide (Z.of_nat index ∈ slashedIndices (store f)) then mret tt
  else
    modStore (λ s, set_slashedIndices ({[Z.of_nat index]} ∪ slashedIndices s) s);;;
    match balances f !! index, votes f !! index with
    | Some b, Some v =>
        match lookupRoot (store f) (currentRoot v) with
        | None => mret tt
        | Some node => modify node (λ n,
            set_balance (if balance n <? b then 0 else balance n -w b) n)
        end
    | _, _ => mret tt
    end.

(** The sum and count over positive balances of [updateJustifiedBalances]. *)
Definition sumActive (balances : list Z) : Z * Z :=
  fold_left (λ acc val, if 0 <? val then (acc.1 +w val, acc.2 +w 1) else acc) balances (0, 0).

Definition updateJustifiedBalances (root' : Z) : M unit :=
  f <~ getFC;;
  match balancesByRoot f with
  | None => mpanic nilDeref
  | Some handler =>
      balances <~ wrapM "could not get justified balances" (mlift (handler root'));;
      let '(total, n) := sumActive balances in
      modFC (set_justifiedBalances balances);;;
      modStore (set_committeeWeight (total / SlotsPerEpoch));;;
      modFC (set_numActiveValidators n)
  end.

(** ** Head *)

Definition Head : M Z :=
  wrapM "could not update balances" updateBalances;;;
  wrapM "could not apply proposer boost score" applyProposerBoostScore;;;
  s <~ getStore;;
  fuel <~ walkFuel;;
  wrapM "could not apply weight changes" (applyWeightChanges fuel (treeRootNode s));;;
  currentEpoch <~ currentEpochM;;
  wrapM "could not update best descendant"
    (updateBestDescendant fuel (treeRootNode s) (Epoch (justifiedCheckpoint s))
       (Epoch (finalizedCheckpoint s)) currentEpoch);;;
  head.

(** ** Insertion *)

Definition updateCheckpoints (jc fc' : Checkpoint) : M unit :=
  s <~ getStore;;
  (if Epoch (justifiedCheckpoint s) <? Epoch jc
   then
     modStore (λ s, set_justifiedCheckpoint jc (set_prevJustifiedCheckpoint (justifiedCheckpoint s) s));;;
     wrapM "could not update justified balances" (updateJustifiedBalances (Root jc))
   else mret tt);;;
  s <~ getStore;;
  if Epoch fc' <=? Epoch (finalizedCheckpoint s) then mret tt
  else modStore (set_finalizedCheckpoint fc');;; prune.

Definition InsertNode (st : StateView) (blk : ROBlock) : M unit :=
  match currentJustifiedCheckpoint st, stateFinalizedCheckpoint st with
  | Some jc, Some fc' =>
      node <~ insert blk (Epoch jc) (Epoch fc');;
      cps <~ pullTips st node jc fc';;
      mcatch (updateCheckpoints cps.1 cps.2)
        (λ err,
           _ <~ mtry (removeNode node);;
           mthrow (wrapErr err "could not update checkpoints"))
  | _, _ => mthrow errInvalidNilCheckpoint
  end.

(** [forkchoicetypes.BlockAndCheckpoints] *)
Record BlockAndCheckpoints := mkBCP {
  bcpBlock : ROBlock; bcpJustified : Checkpoint; bcpFinalized : Checkpoint
}.

Definition InsertChain (chain : list BlockAndCheckpoints) : M unit :=
  mfold (λ _ bcp,
      _ <~ insert (bcpBlock bcp) (Epoch (bcpJustified bcp)) (Epoch (bcpFinalized bcp));;
      updateCheckpoints (bcpJustified bcp) (bcpFinalized bcp))
    chain tt.

(** ** Ticks *)

(** [order]: the order in which Go's map iteration yields the nodes. *)
Definition updateUnrealizedCheckpoints (order : list ptr) : M unit :=
  mfold (λ _ node,
      modify node (λ n, set_justifiedEpoch (unrealizedJustifiedEpoch n) n);;;
      modify node (λ n, set_finalizedEpoch (unrealizedFinalizedEpoch n) n);;;
      nd <~ deref node;;
      s <~ getStore;;
      (if Epoch (justifiedCheckpoint s) <? justifiedEpoch nd
       then
         modStore (λ s, set_prevJustifiedCheckpoint (justifiedCheckpoint s) s);;;
         modStore (λ s, set_justifiedCheckpoint (unrealizedJustifiedCheckpoint s) s);;;
         s <~ getStore;;
         wrapM "could not update justified balances"
           (updateJustifiedBalances (Root (justifiedCheckpoint s)))
       else mret tt);;;
      s <~ getStore;;
      if Epoch (finalizedCheckpoint s) <? finalizedEpoch nd
      then modStore (λ s, set_finalizedCheckpoint (unrealizedFinalizedCheckpoint s) s)
      else mret tt)
    order tt.

Definition NewSlot (order : list ptr) (slot' : Z) : M unit :=
  modStore (set_proposerBoostRoot 0);;;
  if negb (IsEpochStart slot') then mret tt
  else
    wrapM "could not update unrealized checkpoints" (updateUnrealizedCheckpoints order);;;
    prune.

(** ** Queries along the tree *)

Definition HasNode (f : ForkChoice) (root' : Z) : bool :=
  bool_decide (is_Some (nodeByRoot (store f) !! root')).

Definition IsCanonical (root' : Z) : M bool :=
  s <~ getStore;;
  match lookupRoot s root' with
  | None => mret false
  | Some node =>
      nd <~ deref node;;
      hn <~ deref (headNode s);;
      if bool_decide (bestDescendant nd = nilptr)
      then
        if bool_decide (bestDescendant hn = nilptr)
        then mret (bool_decide (node = headNode s))
        else mret (bool_decide (node = bestDescendant hn))
      else
        if bool_decide (bestDescendant hn = nilptr)
        then mret (bool_decide (bestDescendant nd = headNode s))
        else mret (bool_decide (bestDescendant nd = bestDescendant hn))
  end.

(** [IsOptimistic] returns its boolean beside the error. *)
Definition IsOptimistic (root' : Z) : M bool :=
  s <~ getStore;;
  if allTipsAreInvalid s then mret true
  else match lookupRoot s root' with
       | None => mthrow ErrNilNode
       | Some node => nd <~ deref node;; mret (optimistic nd)
       end.

(** The loop of [AncestorRoot]: climb while the slot is too high. *)
Fixpoint ancestorLoop (fuel : nat) (n : ptr) (slot' : Z) : M ptr :=
  match fuel with
  | O => mfuel
  | S fuel' =>
      if bool_decide (n = nilptr) then mret n
      else
        nd <~ deref n;;
        if slot' <? slot nd then checkCtx;;; ancestorLoop fuel' (parent nd) slot'
        else mret n
  end.

Definition AncestorRoot (root' slot' : Z) : M Z :=
  s <~ getStore;;
  match lookupRoot s root' with
  | None => mthrow (wrapErr ErrNilNode "could not determine ancestor root")
  | Some node =>
      fuel <~ walkFuel;;
      n <~ ancestorLoop (S fuel) node slot';;
      if bool_decide (n = nilptr)
      then mthrow (wrapErr ErrNilNode "could not determine ancestor root")
      else nd <~ deref n;; mret (root nd)
  end.

Definition IsViableForCheckpoint (cp : Checkpoint) : M bool :=
  s <~ getStore;;
  match lookupRoot s (Root cp) with
  | None => mret false
  | Some node =>
      epochStart <~ mlift (EpochStart (Epoch cp));;
      nd <~ deref node;;
      if epochStart <? slot nd then mret false
      else if bool_decide (children nd = []) then mret true
      else if slot nd =? epochStart then mret true
      else if Epoch cp <=? ToEpoch (slot nd) then mret false
      else
        mfold (λ found child,
            if found : bool then mret true
            else c <~ deref child;; mret (epochStart <? slot c))
          (children nd) false
  end.

(** The [for] loop of [CommonAncestor]. *)
Fixpoint commonAncestorLoop (fuel : nat) (n1 n2 : ptr) : M (Z * Z) :=
  match fuel with
  | O => mfuel
  | S fuel' =>
      checkCtx;;;
      d1 <~ deref n1;;
      d2 <~ deref n2;;
      let '(n1', n2') := if slot d2 <? slot d1 then (parent d1, n2) else (n1, parent d2) in
      if bool_decide (n1' = nilptr) || bool_decide (n2' = nilptr)
      then mthrow ErrUnknownCommonAncestor
      else if bool_decide (n1' = n2')
      then d <~ deref n1';; mret (root d, slot d)
      else commonAncestorLoop fuel' n1' n2'
  end.

Definition CommonAncestor (r1 r2 : Z) : M (Z * Z) :=
  s <~ getStore;;
  match lookupRoot s r1 with
  | None => mthrow ErrUnknownCommonAncestor
  | Some n1 =>
      d1 <~ deref n1;;
      if r1 =? r2 then mret (r1, slot d1)
      else match lookupRoot s r2 with
           | None => mthrow ErrUnknownCommonAncestor
           | Some n2 => fuel <~ walkFuel;; commonAncestorLoop (fuel + fuel) n1 n2
           end
  end.

Fixpoint targetRootLoop (fuel : nat) (root' epoch : Z) : M Z :=
  match fuel with
  | O => mfuel
  | S fuel' =>
      s <~ getStore;;
      match lookupRoot s root' with
      | None => mthrow ErrNilNode
      | Some n =>
          nd <~ deref n;;
          let nodeEpoch := ToEpoch (slot nd) in
          if nodeEpoch <? epoch then mret (root nd)
          else if bool_decide (target nd = nilptr) then mret ZeroHash
          else
            tn <~ deref (target nd);;
            let targetRoot := root tn in
            if epoch =? nodeEpoch then mret targetRoot
            else
              match lookupRoot s targetRoot with
              | None => mthrow ErrNilNode
              | Some targetNode =>
                  t <~ deref targetNode;;
                  if nodeEpoch =? ToEpoch (slot t)
                  then
                    if bool_decide (parent t = nilptr) then mthrow ErrNilNode
                    else p <~ deref (parent t);; targetRootLoop fuel' (root p) epoch
                  else targetRootLoop fuel' (root t) epoch
              end
      end
  end.

Definition TargetRootForEpoch (root' epoch : Z) : M Z :=
  fuel <~ walkFuel;; targetRootLoop fuel root' epoch.

Definition CachedHeadRoot : M Z := s <~ getStore;; rootOrZero (headNode s).

Definition DependentRoot (epoch : Z) : M Z :=
  h <~ CachedHeadRoot;;
  tr <~ TargetRootForEpoch h epoch;;
  if tr =? 0 then mret 0
  else
    s <~ getStore;;
    match lookupRoot s tr with
    | None => mthrow ErrNilNode
    | Some n =>
        nd <~ deref n;;
        if (ToEpoch (slot nd) =? epoch) && negb (bool_decide (parent nd = nilptr))
        then p <~ deref (parent nd);; mret (root p)
        else mret (root nd)
    end.

Definition ParentRoot (root' : Z) : M Z :=
  s <~ getStore;;
  match lookupRoot s root' with
  | None => mthrow ErrNilNode
  | Some n => nd <~ deref n;; rootOrZero (parent nd)
  end.

(** The [for] loop of [LastRoot]. *)
Fixpoint lastRootLoop (fuel : nat) (n : ptr) (epochEnd : Z) : M ptr :=
  match fuel with
  | O => mfuel
  | S fuel' =>
      if bool_decide (n = nilptr) then mret n
      else
        nd <~ deref n;;
        if epochEnd <? slot nd then lastRootLoop fuel' (parent nd) epochEnd else mret n
  end.

Definition LastRoot (epoch : Z) : M Z :=
  s <~ getStore;;
  hd <~ deref (headNode s);;
  match EpochEnd epoch with
  | Ret epochEnd =>
      if ToEpoch (slot hd) <=? epoch then mret (root hd)
      else
        fuel <~ walkFuel;;
        n <~ lastRootLoop (S fuel) (headNode s) epochEnd;;
        rootOrZero n
  | _ => mret 0
  end.

(** ** Simple accessors and mutators *)

(** A field of the node with the given root. *)
Definition nodeField (root' : Z) (get : Node → Z) : M Z :=
  s <~ getStore;;
  match lookupRoot s root' with
  | None => mthrow ErrNilNode
  | Some n => nd <~ deref n;; mret (get nd)
  end.

Definition Weight (root' : Z) : M Z := nodeField root' weight.
Definition SlotOf (root' : Z) : M Z := nodeField root' slot.

(** The payload hash of a root, zero when the root is unknown. *)
Definition payloadHashOf (root' : Z) : M Z :=
  s <~ getStore;;
  match lookupRoot s root' with
  | None => mret 0
  | Some n => nd <~ deref n;; mret (payloadHash nd)
  end.

Definition FinalizedPayloadBlockHash : M Z :=
  s <~ getStore;; payloadHashOf (Root (finalizedCheckpoint s)).
Definition JustifiedPayloadBlockHash : M Z :=
  s <~ getStore;; payloadHashOf (Root (justifiedCheckpoint s)).
Definition UnrealizedJustifiedPayloadBlockHash : M Z :=
  s <~ getStore;; payloadHashOf (Root (unrealizedJustifiedCheckpoint s)).

Definition SetOptimisticToValid (root' : Z) : M unit :=
  s <~ getStore;;
  match lookupRoot s root' with
  | None => mthrow (wrapErr ErrNilNode "could not set node to valid")
  | Some node => fuel <~ walkFuel;; setNodeAndParentValidated fuel node
  end.

Definition SetOptimisticToInvalid (root' parentRoot payloadHash' : Z) : M (list Z) :=
  setOptimisticToInvalid root' parentRoot payloadHash'.

Definition UpdateJustifiedCheckpoint (jc : option Checkpoint) : M unit :=
  match jc with
  | None => mthrow errInvalidNilCheckpoint
  | Some jc =>
      modStore (λ s, set_prevJustifiedCheckpoint (justifiedCheckpoint s) s);;;
      modStore (set_justifiedCheckpoint jc);;;
      wrapM "could not update justified balances" (updateJustifiedBalances (Root jc))
  end.

Definition UpdateFinalizedCheckpoint (fc' : option Checkpoint) : M unit :=
  match fc' with
  | None => mthrow errInvalidNilCheckpoint
  | Some fc' => modStore (set_finalizedCheckpoint fc')
  end.

Definition SetGenesisTime (genesis : Z) : M unit := modStore (set_genesisTime (truncSecond genesis)).
Definition SetOriginRoot (root' : Z) : M unit := modStore (set_originRoot root').
Definition SetBalancesByRooter (handler : Z → outcome (list Z)) : M unit :=
  modFC (set_balancesByRoot (Some handler)).

(** ** Received blocks ([store.go]) *)

Definition HighestReceivedBlockRoot : M Z := s <~ getStore;; rootOrZero (highestReceivedNode s).

Definition HighestReceivedBlockSlot : M Z :=
  s <~ getStore;;
  if bool_decide (highestReceivedNode s = nilptr) then mret 0
  else n <~ deref (highestReceivedNode s);; mret (slot n).

Definition HighestReceivedBlockDelay : M Z :=
  s <~ getStore;;
  if bool_decide (highestReceivedNode s = nilptr) then mret 0
  else
    n <~ deref (highestReceivedNode s);;
    match SinceSlotStart (slot n) (genesisTime s) (timestamp n) with
    | Ret sss => mret (wrap64 (Z.quot sss nsPerSecond) / SecondsPerSlot)
    | _ => mret 0
    end.

Definition ReceivedBlocksLastEpoch : M Z :=
  lowerBound <~ currentSlotM;;
  lowerBound <~ (if fieldSlotsPerEpoch <? lowerBound
                 then mlift (Slot_SafeSub lowerBound fieldSlotsPerEpoch) else mret lowerBound);;
  s <~ getStore;;
  mret (fold_left (λ count s, if negb (s =? 0) && (lowerBound <=? s) then count +w 1 else count)
          (receivedBlocksLastEpoch s) 0).

(** ** The dump *)

(** [consensus-types/forkchoice.Dump] *)
Record Dump := mkDump {
  dumpJustified : Checkpoint; dumpUnrealizedJustified : Checkpoint;
  dumpFinalized : Checkpoint; dumpUnrealizedFinalized : Checkpoint;
  dumpProposerBoostRoot : Z; dumpPreviousProposerBoostRoot : Z;
  dumpHeadRoot : Z; dumpNodes : list DumpNode
}.

Definition ForkChoiceDump : M Dump :=
  s <~ getStore;;
  fuel <~ walkFuel;;
  nodes <~ (if bool_decide (treeRootNode s = nilptr) then mret []
            else nodeTreeDump fuel (treeRootNode s) []);;
  headRoot <~ rootOrZero (headNode s);;
  mret (mkDump (justifiedCheckpoint s) (unrealizedJustifiedCheckpoint s)
          (finalizedCheckpoint s) (unrealizedFinalizedCheckpoint s)
          (proposerBoostRoot s) (previousProposerBoostRoot s) headRoot nodes).

(** ** Proposer re-orgs of late blocks *)

(** [orphanLateBlockProposingEarly * time.Second] *)
Definition orphanLateBlockProposingEarly : Z := 2.

(** The conditions common to [ShouldOverrideFCU] and [GetProposerHead] between
    the epoch-boundary test and the head-weight test, on the head and its
    parent: [true] when the head may be orphaned so far. *)
Definition lateAndWeak (s : Store) (hd : Node) : M (option Node) :=
  if (slot hd +w 1) mod SlotsPerEpoch =? 0 then mret None
  else
    match arrivedEarly hd (genesisTime s) with
    | Ret early =>
        if early then mret None
        else if Epoch (finalizedCheckpoint s) +w ReorgMaxEpochsSinceFinalization
                  <? ToEpoch (slot hd +w 1) then mret None
        else if bool_decide (parent hd = nilptr) then mret None
        else
          pn <~ deref (parent hd);;
          if slot pn +w 1 <? slot hd then mret None
          else if committeeWeight s *w ReorgHeadWeightThreshold <? weight hd *w 100 then mret None
          else mret (Some pn)
    | _ => mret None
    end.

Definition ShouldOverrideFCU : M bool :=
  s <~ getStore;;
  if bool_decide (headNode s = nilptr) then mret false
  else
    hd <~ deref (headNode s);;
    currentSlot <~ currentSlotM;;
    if negb (slot hd =? currentSlot) then mret false
    else
      c <~ lateAndWeak s hd;;
      match c with
      | None => mret false
      | Some pn =>
          now <~ timeNow;;
          match SinceSlotStart (slot hd) (genesisTime s) now with
          | Ret sss =>
              if sss <? ProcessAttestationsThreshold then mret true
              else if weight pn *w 100 <? committeeWeight s *w ReorgParentWeightThreshold
              then mret false else mret true
          | _ => mret true
          end
      end.

Definition GetProposerHead : M Z :=
  s <~ getStore;;
  if bool_decide (headNode s = nilptr) then mret 0
  else
    hd <~ deref (headNode s);;
    currentSlot <~ currentSlotM;;
    if negb (slot hd +w 1 =? currentSlot) then mret (root hd)
    else
      c <~ lateAndWeak s hd;;
      match c with
      | None => mret (root hd)
      | Some pn =>
          if weight pn *w 100 <? committeeWeight s *w ReorgParentWeightThreshold
          then mret (root hd)
          else
            now <~ timeNow;;
            match SinceSlotStart currentSlot (genesisTime s) now with
            | Ret sss =>
                if orphanLateBlockProposingEarly * nsPerSecond <=? sss
                then mret (root hd) else mret (root pn)
            | _ => mret (root hd)
            end
      end.
End forkchoice.
