(* ===== verification/ForkTree.v ===== *)
(** * The tree behind the pointers

    An inductive tree of pointers, the predicate that a heap represents it, the
    well-formedness invariant of the store, and the lemmas that let the
    fuelled pointer recursions of [ForkStore.v] and [ForkStore.v] be reasoned
    about by induction on the tree. *)

From S2P Require Import Prelude MathHelper Primitives SlotTime ForkTypes ForkStore.

(** ** Trees of pointers *)

Inductive tree : Type := TNode (p : ptr) (cs : list tree).

Definition tptr (t : tree) : ptr := match t with TNode p _ => p end.
Definition tchildren (t : tree) : list tree := match t with TNode _ cs => cs end.

Fixpoint tptrs (t : tree) : list ptr :=
  match t with TNode p cs => p :: flat_map tptrs cs end.

Fixpoint subtrees (t : tree) : list tree :=
  match t with TNode p cs => t :: flat_map subtrees cs end.

Fixpoint theight (t : tree) : nat :=
  match t with TNode _ cs => S (fold_right (λ c n, Nat.max (theight c) n) 0%nat cs) end.

Lemma tree_ind' (P : tree → Prop) :
  (∀ p cs, Forall P cs → P (TNode p cs)) → ∀ t, P t.
Proof.
  intros HP. fix IH 1. intros [p cs]. apply HP.
  induction cs as [|c cs IHcs]; [constructor|]. constructor; [apply IH|apply IHcs].
Qed.

(** The heap holds the tree: the children slices are the children's pointers. *)
Inductive repr (h : gmap ptr Node) : tree → Prop :=
| repr_node p cs nd :
    h !! p = Some nd → p ≠ nilptr → children nd = map tptr cs →
    Forall (repr h) cs → repr h (TNode p cs).

(** The parent links agree with the tree. *)
Definition parents_ok (h : gmap ptr Node) (t : tree) : Prop :=
  ∀ s c nd, s ∈ subtrees t → c ∈ tchildren s → h !! tptr c = Some nd → parent nd = tptr s.

(** ** The invariant of the store *)

Record wf (w : World) (t : tree) : Prop := {
  wf_root : treeRootNode (store (fc w)) = tptr t;
  wf_repr : repr (heap w) t;
  wf_nodup : NoDup (tptrs t);
  wf_parents : parents_ok (heap w) t;
  wf_top : ∀ nd, heap w !! tptr t = Some nd → parent nd = nilptr;
  wf_index : ∀ r p, nodeByRoot (store (fc w)) !! r = Some p ↔
                    p ∈ tptrs t ∧ ∃ nd, heap w !! p = Some nd ∧ root nd = r;
  wf_heap : ∀ p nd, heap w !! p = Some nd → p ≠ nilptr ∧ (p < nextPtr w)%nat;
}.

(** ** Lemmas *)

Lemma subtrees_self t : t ∈ subtrees t.
Proof. destruct t. cbn. constructor. Qed.

Lemma subtrees_ptr t s : s ∈ subtrees t → tptr s ∈ tptrs t.
Proof.
  revert s. induction t as [p cs IH] using tree_ind'. intros s.
  cbn. intros [->|Hs]%elem_of_cons; [cbn; constructor|].
  apply elem_of_flat_map in Hs as (c & Hc & Hs). right. apply elem_of_flat_map.
  exists c. split; [done|]. rewrite Forall_forall in IH. by apply IH.
Qed.

Lemma tptrs_subtree t p : p ∈ tptrs t → ∃ s, s ∈ subtrees t ∧ tptr s = p.
Proof.
  revert p. induction t as [q cs IH] using tree_ind'. intros p.
  cbn. intros [->|Hp]%elem_of_cons.
  { exists (TNode q cs). split; [constructor|done]. }
  apply elem_of_flat_map in Hp as (c & Hc & Hp).
  rewrite Forall_forall in IH. destruct (IH c Hc p Hp) as (s & Hs & <-).
  exists s. split; [|done]. right. apply elem_of_flat_map. eauto.
Qed.

Lemma subtrees_trans t s u : s ∈ subtrees t → u ∈ subtrees s → u ∈ subtrees t.
Proof.
  revert s. induction t as [p cs IH] using tree_ind'. intros s.
  cbn. intros [->|Hs]%elem_of_cons Hu; [done|].
  apply elem_of_flat_map in Hs as (c & Hc & Hs). right. apply elem_of_flat_map.
  rewrite Forall_forall in IH. eauto.
Qed.

Lemma subtrees_child t c : c ∈ tchildren t → c ∈ subtrees t.
Proof.
  destruct t as [p cs]. cbn. intros Hc. right. apply elem_of_flat_map.
  exists c. split; [done|apply subtrees_self].
Qed.

Lemma tptrs_sub t s p : s ∈ subtrees t → p ∈ tptrs s → p ∈ tptrs t.
Proof.
  intros Hs (u & Hu & <-)%tptrs_subtree. apply subtrees_ptr. by eapply subtrees_trans.
Qed.

Lemma tptr_in t : tptr t ∈ tptrs t.
Proof. destruct t. cbn. constructor. Qed.

#[export] Hint Resolve subtrees_self subtrees_ptr subtrees_trans subtrees_child tptrs_sub tptr_in : go.

Lemma NoDup_subtree t s : NoDup (tptrs t) → s ∈ subtrees t → NoDup (tptrs s).
Proof.
  revert s. induction t as [p cs IH] using tree_ind'. intros s Hnd.
  cbn. intros [->|Hs]%elem_of_cons; [done|].
  apply elem_of_flat_map in Hs as (c & Hc & Hs). cbn in Hnd. apply NoDup_cons in Hnd as [_ Hnd].
  rewrite Forall_forall in IH. apply (IH c Hc); [|done]. by eapply NoDup_flat_map.
Qed.

(** In a duplicate-free tree a pointer identifies its subtree. *)
Lemma subtree_unique t s1 s2 :
  NoDup (tptrs t) → s1 ∈ subtrees t → s2 ∈ subtrees t → tptr s1 = tptr s2 → s1 = s2.
Proof.
  revert s1 s2. induction t as [p cs IH] using tree_ind'. intros s1 s2 Hnd H1 H2 Heq.
  cbn in *. apply NoDup_cons in Hnd as [Hp Hnd].
  assert (∀ s, s ∈ flat_map subtrees cs → tptr s ∈ flat_map tptrs cs) as Hin.
  { intros s (c & Hc & Hs)%elem_of_flat_map. apply elem_of_flat_map. exists c.
    split; [done|by apply subtrees_ptr]. }
  apply elem_of_cons in H1 as [->|H1]; apply elem_of_cons in H2 as [->|H2]; [done|..].
  - exfalso. apply Hp. cbn in Heq. rewrite Heq. by apply Hin.
  - exfalso. apply Hp. cbn in Heq. rewrite <- Heq. by apply Hin.
  - apply elem_of_flat_map in H1 as (c1 & Hc1 & H1), H2 as (c2 & Hc2 & H2).
    assert (c1 = c2) as <-.
    { eapply (NoDup_flat_map_disjoint tptrs cs c1 c2 (tptr s1)); [done..|by apply subtrees_ptr|].
      rewrite Heq. by apply subtrees_ptr. }
    rewrite Forall_forall in IH. apply (IH c1 Hc1); [|done..]. by eapply NoDup_flat_map.
Qed.

Lemma repr_lookup h t : repr h t → ∃ nd, h !! tptr t = Some nd ∧ tptr t ≠ nilptr ∧
  children nd = map tptr (tchildren t).
Proof. inversion 1; subst. eauto. Qed.

Lemma repr_subtree h t s : repr h t → s ∈ subtrees t → repr h s.
Proof.
  revert s. induction t as [p cs IH] using tree_ind'. intros s Hr.
  cbn. intros [->|Hs]%elem_of_cons; [done|].
  apply elem_of_flat_map in Hs as (c & Hc & Hs). inversion Hr; subst.
  rewrite Forall_forall in *. eauto.
Qed.

Lemma repr_ptr h t p : repr h t → p ∈ tptrs t → ∃ nd, h !! p = Some nd ∧ p ≠ nilptr.
Proof.
  intros Hr (s & Hs & <-)%tptrs_subtree.
  destruct (repr_lookup h s) as (nd & ? & ? & _); [by eapply repr_subtree|eauto].
Qed.

(** Only the children slices of the tree's own nodes matter. *)
Lemma repr_frame h h' t :
  (∀ p, p ∈ tptrs t → children <$> h' !! p = children <$> h !! p) → repr h t → repr h' t.
Proof.
  induction t as [p cs IH] using tree_ind'. intros Hf Hr. inversion Hr as [??? Hp Hnil Hch Hcs]; subst.
  pose proof (Hf p ltac:(cbn; constructor)) as Hp'. rewrite Hp in Hp'. cbn in Hp'.
  destruct (h' !! p) as [nd'|] eqn:Hnd'; [|done]. cbn in Hp'. injection Hp' as Hp'.
  econstructor; [done|done|congruence|].
  rewrite Forall_forall in *. intros c Hc. apply IH; [done| |by apply Hcs].
  intros q Hq. apply Hf. cbn. right. apply elem_of_flat_map. eauto.
Qed.

Lemma theight_child t c : c ∈ tchildren t → (theight c < theight t)%nat.
Proof.
  destruct t as [p cs]. cbn. intros Hc. induction cs as [|d cs IH]; [set_solver|].
  apply elem_of_cons in Hc as [->|Hc]; cbn; [lia|]. specialize (IH Hc). lia.
Qed.

Lemma theight_length t : (theight t ≤ length (tptrs t))%nat.
Proof.
  induction t as [p cs IH] using tree_ind'. cbn.
  assert (fold_right (λ c n, Nat.max (theight c) n) 0%nat cs ≤ length (flat_map tptrs cs))%nat; [|lia].
  induction IH as [|c cs Hc _ IHcs]; [done|]. cbn. rewrite length_app. lia.
Qed.

Lemma NoDup_dom_length {A} (h : gmap nat A) l :
  NoDup l → (∀ p, p ∈ l → is_Some (h !! p)) → (length l ≤ size h)%nat.
Proof.
  intros Hnd Hl. rewrite <- size_dom.
  rewrite <- (size_list_to_set (C := gset nat) l) by done.
  apply subseteq_size. intros p Hp%elem_of_list_to_set. by apply elem_of_dom, Hl.
Qed.

(** The walk fuel bounds the height of every represented tree. *)
Lemma repr_fuel h t : repr h t → NoDup (tptrs t) → (theight t ≤ size h)%nat.
Proof.
  intros Hr Hnd. etransitivity; [apply theight_length|]. apply NoDup_dom_length; [done|].
  intros p Hp. destruct (repr_ptr h t p Hr Hp) as (nd & -> & _). eauto.
Qed.

Lemma lookupRoot_wf w t r p :
  wf w t → lookupRoot (store (fc w)) r = Some p ↔
           p ∈ tptrs t ∧ ∃ nd, heap w !! p = Some nd ∧ root nd = r.
Proof.
  intros Hwf. rewrite lookupRoot_Some, (wf_index w t Hwf).
  split; [naive_solver|]. intros (Hp & nd & Hnd & <-). split; [eauto|].
  by destruct (wf_heap w t Hwf p nd Hnd).
Qed.

(** ** The invariant depends on the links and roots only *)

Definition skeleton (nd : Node) : list ptr * ptr * Z := (children nd, parent nd, root nd).

Definition same_skeleton (h h' : gmap ptr Node) : Prop :=
  ∀ p, skeleton <$> h' !! p = skeleton <$> h !! p.

Lemma same_skeleton_trans h1 h2 h3 :
  same_skeleton h1 h2 → same_skeleton h2 h3 → same_skeleton h1 h3.
Proof. intros H1 H2 p. by rewrite H2, H1. Qed.

Lemma same_skeleton_lookup h h' p nd' :
  same_skeleton h h' → h' !! p = Some nd' →
  ∃ nd, h !! p = Some nd ∧ children nd = children nd' ∧ parent nd = parent nd' ∧ root nd = root nd'.
Proof.
  intros Hs Hp. specialize (Hs p). rewrite Hp in Hs. destruct (h !! p) as [nd|]; [|done].
  cbn in Hs. unfold skeleton in Hs. exists nd. naive_solver.
Qed.

Lemma same_skeleton_sym h h' : same_skeleton h h' → same_skeleton h' h.
Proof. intros Hs p. by rewrite Hs. Qed.

Lemma wf_same_skeleton w w' t :
  wf w t → same_skeleton (heap w) (heap w') → nextPtr w' = nextPtr w →
  treeRootNode (store (fc w')) = treeRootNode (store (fc w)) →
  nodeByRoot (store (fc w')) = nodeByRoot (store (fc w)) → wf w' t.
Proof.
  intros Hwf Hs Hn Ht Hi. pose proof (same_skeleton_sym _ _ Hs) as Hs'.
  constructor; rewrite ?Hn, ?Ht, ?Hi.
  - apply Hwf.
  - eapply repr_frame; [|apply (wf_repr w t Hwf)]. intros p _.
    destruct (heap w' !! p) as [nd'|] eqn:E.
    + destruct (same_skeleton_lookup _ _ p nd' Hs E) as (nd & -> & Hc & _). cbn. by rewrite Hc.
    + specialize (Hs p). rewrite E in Hs. by destruct (heap w !! p).
  - apply Hwf.
  - intros u c nd' Hu Hc Hnd'.
    destruct (same_skeleton_lookup _ _ _ _ Hs Hnd') as (nd & Hnd & _ & <- & _).
    by apply (wf_parents w t Hwf u c).
  - intros nd' Hnd'. destruct (same_skeleton_lookup _ _ _ _ Hs Hnd') as (nd & Hnd & _ & <- & _).
    by apply (wf_top w t Hwf).
  - intros r p. rewrite (wf_index w t Hwf). split; intros (Hp & nd & Hnd & <-); (split; [done|]).
    + destruct (same_skeleton_lookup _ _ _ _ Hs' Hnd) as (nd' & Hnd' & _ & _ & Hr). eauto.
    + destruct (same_skeleton_lookup _ _ _ _ Hs Hnd) as (nd' & Hnd' & _ & _ & Hr). eauto.
  - intros p nd' Hnd'. destruct (same_skeleton_lookup _ _ _ _ Hs Hnd') as (nd & Hnd & _).
    by apply (wf_heap w t Hwf p nd).
Qed.

(** ** An executable check of the invariant *)

Fixpoint reprb (h : gmap ptr Node) (t : tree) : bool :=
  match t with
  | TNode p cs =>
      match h !! p with
      | Some nd => negb (Nat.eqb p nilptr) && bool_decide (children nd = map tptr cs) &&
                   forallb (reprb h) cs
      | None => false
      end
  end.

Definition parentb (h : gmap ptr Node) (q : ptr) (c : tree) : bool :=
  match h !! tptr c with Some nd => Nat.eqb (parent nd) q | None => true end.

Definition wfb (w : World) (t : tree) : bool :=
  let h := heap w in
  let ix := nodeByRoot (store (fc w)) in
  Nat.eqb (treeRootNode (store (fc w))) (tptr t) &&
  reprb h t && bool_decide (NoDup (tptrs t)) &&
  forallb (λ s, forallb (parentb h (tptr s)) (tchildren s)) (subtrees t) &&
  parentb h nilptr t &&
  forallb (λ e, bool_decide (e.2 ∈ tptrs t) && bool_decide (root <$> h !! e.2 = Some e.1)) (map_to_list ix) &&
  forallb (λ p, match h !! p with Some nd => bool_decide (ix !! root nd = Some p) | None => true end) (tptrs t) &&
  forallb (λ e, negb (Nat.eqb e.1 nilptr) && Nat.ltb e.1 (nextPtr w)) (map_to_list h).

Lemma forallb_elem {A} (f : A → bool) l x : forallb f l = true → x ∈ l → f x = true.
Proof. intros Hf Hx. rewrite forallb_forall in Hf. by apply Hf, list_elem_of_In. Qed.

Lemma reprb_sound h t : reprb h t = true → repr h t.
Proof.
  induction t as [p cs IH] using tree_ind'. cbn. destruct (h !! p) as [nd|] eqn:E; [|done].
  rewrite !andb_true_iff, negb_true_iff, Nat.eqb_neq, bool_decide_eq_true.
  intros [[Hnil Hch] Hcs].
  econstructor; [done|done|done|]. rewrite Forall_forall in *. intros c Hc.
  by apply IH, (forallb_elem (reprb h) cs).
Qed.

Lemma wfb_sound w t : wfb w t = true → wf w t.
Proof.
  unfold wfb. rewrite !andb_true_iff. intros [[[[[[[H1 H2] H3] H4] H5] H6] H7] H8].
  constructor.
  - by apply Nat.eqb_eq.
  - by apply reprb_sound.
  - by apply bool_decide_eq_true in H3.
  - intros s c nd Hs Hc Hnd. pose proof (forallb_elem _ _ _ (forallb_elem _ _ _ H4 Hs) Hc) as Hp.
    unfold parentb in Hp. rewrite Hnd in Hp. by apply Nat.eqb_eq.
  - intros nd Hnd. unfold parentb in H5. rewrite Hnd in H5. by apply Nat.eqb_eq.
  - intros r p. split.
    + intros Hrp%elem_of_map_to_list. pose proof (forallb_elem _ _ _ H6 Hrp) as Hx. cbn in Hx. bprop.
      split; [done|]. destruct (heap w !! p) as [nd|]; [|done]. exists nd. naive_solver.
    + intros (Hp & nd & Hnd & <-). pose proof (forallb_elem _ _ _ H7 Hp) as Hx. cbn in Hx.
      rewrite Hnd in Hx. by bprop.
  - intros p nd Hp%elem_of_map_to_list. pose proof (forallb_elem _ _ _ H8 Hp) as Hx. cbn in Hx.
    apply andb_true_iff in Hx as [Hx1 Hx2]. apply negb_true_iff, Nat.eqb_neq in Hx1.
    apply Nat.ltb_lt in Hx2. done.
Qed.
