(* ===== verification/ForkGhost.v ===== *)
(** * Weights: [applyWeightChanges] computes subtree sums

    The recursion of [node.go] writes into every node of the tree the wrapped
    sum of the balances below it, and nothing else. *)

From S2P Require Import Prelude MathHelper Primitives SlotTime ForkTypes ForkStore ForkTree.

(** ** Reference definition *)

(** The weight [applyWeightChanges] leaves at the top of [t]; a node with the
    zero root keeps the weight it had. *)
Fixpoint wt (h : gmap ptr Node) (t : tree) : Z :=
  match t with
  | TNode p cs =>
      match h !! p with
      | None => 0
      | Some nd =>
          if root nd =? ZeroHash then weight nd
          else wrap64 (balance nd + Zsum (map (wt h) cs))
      end
  end.

(** [h'] is [h] with every node of the forest [l] rewritten by [upd]. *)
Definition rewritten (upd : gmap ptr Node → tree → Node → Node)
    (h : gmap ptr Node) (l : list tree) (h' : gmap ptr Node) : Prop :=
  (∀ p, p ∉ flat_map tptrs l → h' !! p = h !! p) ∧
  (∀ s, s ∈ flat_map subtrees l → h' !! tptr s = upd h s <$> h !! tptr s).

Definition reweigh (h : gmap ptr Node) (s : tree) (nd : Node) : Node := set_weight (wt h s) nd.

(** The balance at a pointer. *)
Definition balanceOf (h : gmap ptr Node) (p : ptr) : Z :=
  match h !! p with Some nd => balance nd | None => 0 end.

(** ** Lemmas *)

(** A node function that [upd] keeps is the same in both heaps. *)
Lemma rewritten_field {A} (upd : gmap ptr Node → tree → Node → Node) (f : Node → A) h l h' p :
  (∀ h s nd, f (upd h s nd) = f nd) → rewritten upd h l h' → f <$> h' !! p = f <$> h !! p.
Proof.
  intros Hk [Hf Hu]. destruct (decide (p ∈ flat_map tptrs l)) as [Hin|Hout]; [|by rewrite Hf].
  apply elem_of_flat_map in Hin as (c & Hc & (s & Hs & <-)%tptrs_subtree).
  rewrite Hu by (apply elem_of_flat_map; eauto).
  destruct (h !! tptr s); cbn; [|done]. by rewrite Hk.
Qed.

Section rewritten.
Variable upd : gmap ptr Node → tree → Node → Node.
(** The rewriting of a node reads only its own subtree and keeps the children. *)
Hypothesis upd_local : ∀ h1 h2 s,
  (∀ p, p ∈ tptrs s → h1 !! p = h2 !! p) → upd h1 s = upd h2 s.
Hypothesis upd_children : ∀ h s nd, children (upd h s nd) = children nd.

Lemma rewritten_nil h : rewritten upd h [] h.
Proof using Type. clear upd_local upd_children. split; [done|]. cbn. set_solver. Qed.

(** Rewriting the first tree and then the others rewrites them all. *)
Lemma rewritten_cons h h1 h2 c l :
  NoDup (flat_map tptrs (c :: l)) →
  rewritten upd h [c] h1 → rewritten upd h1 l h2 → rewritten upd h (c :: l) h2.
Proof using upd_local.
  clear upd_children.
  cbn. intros (Hnc & Hdisj & Hnl)%NoDup_app [Hf1 Hu1] [Hf2 Hu2]. cbn in *.
  rewrite app_nil_r in *.
  assert (∀ p, p ∈ flat_map tptrs l → h1 !! p = h !! p) as Hagree.
  { intros p Hp. apply Hf1. intros Hc. by eapply Hdisj. }
  split.
  - intros p Hp. rewrite Hf2, Hf1 by set_solver. done.
  - intros s [Hs|Hs]%elem_of_app.
    + rewrite Hf2; [by apply Hu1|]. intros Hin. eapply Hdisj; [|done]. eauto with go.
    + rewrite Hu2 by done.
      apply elem_of_flat_map in Hs as (d & Hd & Hs).
      assert (∀ p, p ∈ tptrs s → h1 !! p = h !! p) as Hs'.
      { intros p Hp. apply Hagree, elem_of_flat_map. exists d. eauto with go. }
      rewrite (Hs' (tptr s)) by eauto with go. by rewrite (upd_local h1 h).
Qed.

(** Rewriting the children and then the top rewrites the tree. *)
Lemma rewritten_node h h1 p cs nd :
  NoDup (tptrs (TNode p cs)) → h !! p = Some nd → rewritten upd h cs h1 →
  rewritten upd h [TNode p cs] (<[p := upd h (TNode p cs) nd]> h1).
Proof using Type.
  clear upd_local upd_children.
  intros Hnd Hp [Hf Hu]. cbn in Hnd. apply NoDup_cons in Hnd as [Hpn Hnd]. split.
  - cbn. intros q Hq. rewrite app_nil_r in Hq.
    rewrite lookup_insert_ne by set_solver. apply Hf. set_solver.
  - cbn. intros s Hs. rewrite app_nil_r in Hs.
    apply elem_of_cons in Hs as [->|Hs].
    + cbn. rewrite lookup_insert_eq, Hp. done.
    + rewrite lookup_insert_ne; [by apply Hu|]. intros Heq. apply Hpn.
      rewrite Heq. apply elem_of_flat_map in Hs as (c & Hc & Hs).
      apply elem_of_flat_map. eauto with go.
Qed.

Lemma rewritten_repr h l h' t : rewritten upd h l h' → repr h t → repr h' t.
Proof using upd_children.
  intros Hr. apply repr_frame. intros p _. by apply (rewritten_field upd children _ l).
Qed.
End rewritten.

Lemma wt_local h1 h2 t : (∀ p, p ∈ tptrs t → h1 !! p = h2 !! p) → wt h1 t = wt h2 t.
Proof.
  induction t as [p cs IH] using tree_ind'. intros Hp. cbn.
  rewrite (Hp p) by (cbn; set_solver). destruct (h2 !! p); [|done].
  case_if; [done|]. f_equal. f_equal. apply Zsum_map_ext. intros c Hc.
  rewrite Forall_forall in IH. apply IH; [done|]. intros q Hq. apply Hp. cbn. right.
  apply elem_of_flat_map. eauto.
Qed.

Lemma reweigh_local h1 h2 s :
  (∀ p, p ∈ tptrs s → h1 !! p = h2 !! p) → reweigh h1 s = reweigh h2 s.
Proof. intros Hp. unfold reweigh. by rewrite (wt_local h1 h2). Qed.

Lemma wt_range h t :
  (∀ p nd, h !! p = Some nd → is_u64 (weight nd)) → is_u64 (wt h t).
Proof.
  intros Hw. destruct t as [p cs]. cbn. destruct (h !! p) as [nd|] eqn:E.
  - case_if; eauto with go.
  - unfold is_u64, two64; lia.
Qed.

Section weights.
Context `{BeaconChainConfig}.

(** The statement proved by induction on the tree. *)
Definition weighs (fuel : nat) (t : tree) : Prop := ∀ w,
  ctx w = None → repr (heap w) t → NoDup (tptrs t) →
  ∃ h', applyWeightChanges fuel (tptr t) w = (Ret tt, set_heap h' w) ∧
        rewritten reweigh (heap w) [t] h'.

Lemma weighs_forest fuel l : Forall (weighs fuel) l → ∀ acc w,
  ctx w = None → Forall (repr (heap w)) l → NoDup (flat_map tptrs l) →
  ∃ h', mfold (λ childrenWeight child,
            checkCtx;;; applyWeightChanges fuel child;;;
            c <~ deref child;; mret (childrenWeight +w weight c))
          (map tptr l) (wrap64 acc) w
        = (Ret (wrap64 (acc + Zsum (map (wt (heap w)) l))), set_heap h' w) ∧
        rewritten reweigh (heap w) l h'.
Proof.
  induction 1 as [|c l Hc Hl IH]; intros acc w Hctx Hr Hnd.
  { exists (heap w). split; [|apply rewritten_nil]. cbn. rewrite Z.add_0_r. by destruct w. }
  apply Forall_cons in Hr as [Hrc Hrl].
  assert (NoDup (tptrs c)) as Hndc by (cbn in Hnd; by apply NoDup_app in Hnd as [? _]).
  destruct (Hc w Hctx Hrc Hndc) as (h1 & Hrun & Hrew1).
  assert (∀ u, repr (heap w) u → repr h1 u) as Hkeep.
  { intros u. by apply (rewritten_repr reweigh ltac:(done) _ _ _ _ Hrew1). }
  destruct (repr_lookup (heap w) c Hrc) as (nd & Hnd' & _).
  assert (h1 !! tptr c = Some (reweigh (heap w) c nd)) as Hc1.
  { destruct Hrew1 as [_ Hu]. rewrite Hu, Hnd'; [done|]. cbn. rewrite app_nil_r. eauto with go. }
  destruct (IH (acc + wt (heap w) c) (set_heap h1 w)) as (h2 & Hrest & Hrew2);
    [done|by eapply Forall_impl|by cbn in Hnd; apply NoDup_app in Hnd as (_ & _ & ?)|].
  exists h2. split.
  - cbn [map mfold]. erewrite mseq_ret.
    2:{ rewrite (mseq_ret _ _ _ _ _ (checkCtx_eq w Hctx)), (mseq_ret _ _ _ _ _ Hrun).
        rewrite (mseq_ret _ _ _ _ _ (deref_eq _ _ (set_heap h1 w) Hc1)). done. }
    cbn [weight reweigh set_weight]. rewrite wrap64_add_l, Hrest. cbn. f_equal. f_equal.
    f_equal. rewrite Z.add_assoc. f_equal. apply Zsum_map_ext. intros d Hd.
    apply wt_local. intros p Hp. destruct Hrew1 as [Hf _]. apply Hf. cbn. rewrite app_nil_r.
    intros Hpc. cbn in Hnd. apply NoDup_app in Hnd as (_ & Hdisj & _).
    apply (Hdisj p Hpc). apply elem_of_flat_map. eauto.
  - eapply rewritten_cons; [apply reweigh_local|done|done|done].
Qed.

Lemma weighs_all fuel t : (theight t ≤ fuel)%nat → weighs fuel t.
Proof.
  revert t. induction fuel as [|fuel IH]; intros [p cs] Hh; [cbn in Hh; lia|].
  intros w Hctx Hr Hnd. inversion Hr as [??? Hp Hnil Hch Hcs]; subst.
  assert (Forall (weighs fuel) cs) as Hall.
  { apply Forall_forall. intros c Hc. apply IH.
    pose proof (theight_child (TNode p cs) c Hc). lia. }
  cbn in Hnd. apply NoDup_cons in Hnd as [Hpn Hnd'].
  destruct (weighs_forest fuel cs Hall 0 w Hctx Hcs Hnd') as (h1 & Hrun & Hrew).
  assert (h1 !! p = Some nd) as Hp1 by (destruct Hrew as [Hf _]; by rewrite Hf).
  eexists. split; [|apply rewritten_node; [by cbn; apply NoDup_cons|done|done]].
  cbn [applyWeightChanges tptr]. rewrite (mseq_ret _ _ _ _ _ (deref_eq _ _ _ Hp)), Hch.
  change 0 with (wrap64 0). rewrite (mseq_ret _ _ _ _ _ Hrun).
  rewrite (mseq_ret _ _ _ _ _ (deref_eq _ _ (set_heap h1 w) Hp1)).
  unfold reweigh. cbn [wt]. rewrite Hp. case_if.
  - unfold mret. f_equal. f_equal. symmetry. apply insert_id. rewrite Hp1. f_equal. by destruct nd.
  - rewrite (modify_eq _ _ nd) by done. cbn. rewrite wrap64_add_r, Z.add_0_l. done.
Qed.

(** With non-zero roots the weight is the wrapped sum over the subtree. *)
Lemma wt_sum h t :
  repr h t → (∀ p nd, p ∈ tptrs t → h !! p = Some nd → root nd ≠ ZeroHash) →
  wt h t = wrap64 (Zsum (map (balanceOf h) (tptrs t))).
Proof.
  induction t as [p cs IH] using tree_ind'. intros Hr Hz.
  inversion Hr as [??? Hp Hnil Hch Hcs]; subst. cbn. unfold balanceOf at 1. rewrite Hp.
  rewrite (proj2 (Z.eqb_neq _ _)) by (apply (Hz p nd); [cbn; set_solver|done]).
  assert (wrap64 (Zsum (map (wt h) cs)) = wrap64 (Zsum (map (balanceOf h) (flat_map tptrs cs)))) as Hs.
  { assert (∀ c q nd, c ∈ cs → q ∈ tptrs c → h !! q = Some nd → root nd ≠ ZeroHash) as Hz'.
    { intros c q nd' Hc Hq. apply Hz. cbn. right. apply elem_of_flat_map. eauto. }
    clear Hz Hr Hp Hch. induction cs as [|c cs IHcs]; [done|].
    apply Forall_cons in IH as [IHc IH], Hcs as [Hc Hcs]. cbn. rewrite map_app, Zsum_app.
    rewrite IHc; [|done|intros q nd' Hq; apply (Hz' c); [set_solver|done]].
    rewrite wrap64_add_l. rewrite <- wrap64_add_r, IHcs, wrap64_add_r; [done..|].
    intros d q nd' Hd. apply Hz'. set_solver. }
  rewrite <- wrap64_add_r, Hs, wrap64_add_r. done.
Qed.
End weights.

(** * Best descendants: the greedy heaviest viable path

    [updateBestDescendant] of [node.go] writes into every node the tip of the
    path that, from child to child, follows the greatest (weight, root) among
    the children that lead to a viable head. *)

Section ghost.
Context `{BeaconChainConfig}.

(** ** Reference definition *)

Section reference.
Variables (h : gmap ptr Node) (je ce : Z).

Definition weightOf (p : ptr) : Z := match h !! p with Some nd => weight nd | None => 0 end.
Definition rootOf (p : ptr) : Z := match h !! p with Some nd => root nd | None => 0 end.
Definition viableAt (p : ptr) : bool :=
  match h !! p with Some nd => viableForHead nd je ce | None => false end.

(** A child that leads to a viable head: its key and the tip it leads to. *)
Record cand := mkCand { cPtr : ptr; cWeight : Z; cRoot : Z; cTip : ptr }.

(** Lexicographic order on (weight, root). *)
Definition cand_le (a b : cand) : Prop :=
  cWeight a < cWeight b ∨ (cWeight a = cWeight b ∧ cRoot a ≤ cRoot b).

Definition pick (b : option cand) (c : cand) : option cand :=
  match b with
  | None => Some c
  | Some b =>
      if cWeight c =? cWeight b
      then if cRoot b <? cRoot c then Some c else Some b
      else if cWeight b <? cWeight c then Some c else Some b
  end.

Definition consider (b : option cand) (p tip : ptr) : option cand :=
  if viableAt tip then pick b (mkCand p (weightOf p) (rootOf p) tip) else b.

(** The tip below [t], if some child of [t] leads to a viable head. *)
Fixpoint bestTip (t : tree) : option ptr :=
  match t with
  | TNode _ cs =>
      cTip <$> fold_left (λ b c, consider b (tptr c) (default (tptr c) (bestTip c))) cs None
  end.

(** The tip reached from [t]: [t] itself when no child leads to a viable head. *)
Definition ghostTip (t : tree) : ptr := default (tptr t) (bestTip t).

(** [t] leads to a viable head. *)
Definition leads (t : tree) : bool := viableAt (ghostTip t).

Definition bestCand (cs : list tree) : option cand :=
  fold_left (λ b c, consider b (tptr c) (ghostTip c)) cs None.

Definition candOf (c : tree) : cand := mkCand (tptr c) (weightOf (tptr c)) (rootOf (tptr c)) (ghostTip c).
End reference.

(** The node rewriting of [updateBestDescendant]. *)
Definition relink (je ce : Z) (h : gmap ptr Node) (s : tree) (nd : Node) : Node :=
  set_bestDescendant (default nilptr (bestTip h je ce s)) nd.

(** ** The greedy path *)

Lemma cand_le_refl a : cand_le a a.
Proof. right. lia. Qed.

Lemma cand_le_trans a b c : cand_le a b → cand_le b c → cand_le a c.
Proof. unfold cand_le. lia. Qed.

Lemma pick_spec b c :
  ∃ d, pick b c = Some d ∧ (d = c ∨ b = Some d) ∧ cand_le c d ∧
       (∀ a, b = Some a → cand_le a d).
Proof.
  unfold pick, cand_le. destruct b as [b|]; [|exists c; naive_solver lia].
  repeat case_if; eexists; (split; [done|]); (split; [naive_solver|]);
    (split; [lia|]); intros a [= <-]; lia.
Qed.

(** The result of the fold is a viable-leading child that no other one beats. *)
Lemma bestCand_spec h je ce cs :
  match bestCand h je ce cs with
  | None => ∀ c, c ∈ cs → leads h je ce c = false
  | Some d =>
      (∃ c, c ∈ cs ∧ leads h je ce c = true ∧ d = candOf h je ce c) ∧
      (∀ c, c ∈ cs → leads h je ce c = true → cand_le (candOf h je ce c) d)
  end.
Proof.
  unfold bestCand. induction cs as [|c cs IH] using rev_ind; [cbn; set_solver|].
  rewrite fold_left_app. cbn. unfold consider at 1.
  fold (candOf h je ce c). change (viableAt h je ce (ghostTip h je ce c)) with (leads h je ce c).
  set (b := fold_left _ cs None) in *. destruct (leads h je ce c) eqn:Hc.
  - destruct (pick_spec b (candOf h je ce c)) as (d & -> & Hd & Hle & Hmax). split.
    + destruct Hd as [->|Hb]; [exists c; set_solver|]. rewrite Hb in IH.
      destruct IH as [(c' & ? & ? & ?) _]. exists c'. set_solver.
    + intros c' [Hc'| ->%list_elem_of_singleton]%elem_of_app Hl; [|done].
      destruct b as [b|]; [|rewrite IH in Hl; done].
      eapply cand_le_trans; [by apply IH|by apply Hmax].
  - destruct b as [b|].
    + destruct IH as [(c' & ? & ? & ?) IH2]. split; [exists c'; set_solver|].
      intros c'' [Hc''| ->%list_elem_of_singleton]%elem_of_app Hl; [by apply IH2|congruence].
    + intros c' [Hc'| ->%list_elem_of_singleton]%elem_of_app; [by apply IH|done].
Qed.

Lemma bestTip_bestCand h je ce t : bestTip h je ce t = cTip <$> bestCand h je ce (tchildren t).
Proof. by destruct t. Qed.

(** [ghostTip] walks down: it stops where no child leads to a viable head and
    otherwise continues in the child with the greatest (weight, root). *)
Lemma ghostTip_step h je ce t :
  (ghostTip h je ce t = tptr t ∧ ∀ c, c ∈ tchildren t → leads h je ce c = false) ∨
  (∃ c, c ∈ tchildren t ∧ leads h je ce c = true ∧
        (∀ c', c' ∈ tchildren t → leads h je ce c' = true →
               cand_le (candOf h je ce c') (candOf h je ce c)) ∧
        ghostTip h je ce t = ghostTip h je ce c).
Proof.
  unfold ghostTip at 1 2. rewrite bestTip_bestCand.
  pose proof (bestCand_spec h je ce (tchildren t)) as Hs.
  destruct (bestCand h je ce (tchildren t)) as [d|]; cbn; [right|by left].
  destruct Hs as [(c & Hc & Hl & ->) Hmax]. exists c. done.
Qed.

Lemma ghostTip_in h je ce t : ghostTip h je ce t ∈ tptrs t.
Proof.
  induction t as [p cs IH] using tree_ind'.
  destruct (ghostTip_step h je ce (TNode p cs)) as [[-> _]|(c & Hc & _ & _ & ->)]; [eauto with go|].
  rewrite Forall_forall in IH. apply (tptrs_sub _ c); eauto with go.
Qed.

(** The fields of a node that decide the head. *)
Definition headKey (nd : Node) : Z * Z * Z := (weight nd, root nd, justifiedEpoch nd).

Lemma headKey_eq h1 h2 p je ce :
  headKey <$> h1 !! p = headKey <$> h2 !! p →
  weightOf h1 p = weightOf h2 p ∧ rootOf h1 p = rootOf h2 p ∧
  viableAt h1 je ce p = viableAt h2 je ce p.
Proof.
  unfold weightOf, rootOf, viableAt, viableForHead.
  destruct (h1 !! p) as [n1|], (h2 !! p) as [n2|]; try done.
  intros Hk. apply (inj Some) in Hk. unfold headKey in Hk. by injection Hk as -> -> ->.
Qed.

(** Heaps that agree on these fields have the same candidates and tips. *)
Lemma fold_consider_ext h1 h2 je ce cs o :
  (∀ c, c ∈ cs → bestTip h1 je ce c = bestTip h2 je ce c) →
  (∀ c q, c ∈ cs → q ∈ tptrs c → headKey <$> h1 !! q = headKey <$> h2 !! q) →
  fold_left (λ o c, consider h1 je ce o (tptr c) (ghostTip h1 je ce c)) cs o =
  fold_left (λ o c, consider h2 je ce o (tptr c) (ghostTip h2 je ce c)) cs o.
Proof.
  revert o. induction cs as [|c cs IHcs]; intros o Hb Hk; [done|]. cbn.
  assert (consider h1 je ce o (tptr c) (ghostTip h1 je ce c) =
          consider h2 je ce o (tptr c) (ghostTip h2 je ce c)) as ->.
  { pose proof (ghostTip_in h2 je ce c) as Hin. unfold ghostTip in *.
    rewrite Hb by set_solver. unfold consider.
    destruct (headKey_eq h1 h2 _ je ce (Hk c _ ltac:(set_solver) Hin)) as (_ & _ & ->).
    destruct (headKey_eq h1 h2 _ je ce (Hk c (tptr c) ltac:(set_solver) (tptr_in c))) as (-> & -> & _).
    done. }
  apply IHcs; [set_solver|]. intros d q Hd. apply Hk. set_solver.
Qed.

Lemma bestTip_ext h1 h2 je ce t :
  (∀ p, p ∈ tptrs t → headKey <$> h1 !! p = headKey <$> h2 !! p) →
  bestTip h1 je ce t = bestTip h2 je ce t.
Proof.
  induction t as [p cs IH] using tree_ind'. intros Hp. cbn. f_equal.
  assert (∀ c q, c ∈ cs → q ∈ tptrs c → headKey <$> h1 !! q = headKey <$> h2 !! q) as Hp'.
  { intros c q Hc Hq. apply Hp. cbn. right. apply elem_of_flat_map. eauto. }
  rewrite Forall_forall in IH. apply (fold_consider_ext h1 h2); [|done].
  intros c Hc. apply IH; [done|]. intros q. by apply Hp'.
Qed.

Lemma bestTip_local h1 h2 je ce t :
  (∀ p, p ∈ tptrs t → h1 !! p = h2 !! p) → bestTip h1 je ce t = bestTip h2 je ce t.
Proof. intros Hp. apply bestTip_ext. intros p Hin. by rewrite Hp. Qed.

Lemma relink_local je ce h1 h2 s :
  (∀ p, p ∈ tptrs s → h1 !! p = h2 !! p) → relink je ce h1 s = relink je ce h2 s.
Proof. intros Hp. unfold relink. by rewrite (bestTip_local h1 h2). Qed.

(** ** The pointer recursion *)

(** The loop variables [b] stand for the reference candidate [o]. *)
Definition related (h : gmap ptr Node) (b : bestState) (o : option cand) : Prop :=
  match o with
  | None => b = mkBest nilptr 0 false
  | Some c =>
      b = mkBest (cPtr c) (cWeight c) true ∧
      ∃ nd, h !! cPtr c = Some nd ∧ root nd = cRoot c ∧
            (if bool_decide (bestDescendant nd = nilptr) then cPtr c else bestDescendant nd) = cTip c
  end.

Definition relinks (je fe ce : Z) (fuel : nat) (t : tree) : Prop := ∀ w,
  ctx w = None → repr (heap w) t → NoDup (tptrs t) →
  ∃ h', updateBestDescendant fuel (tptr t) je fe ce w = (Ret tt, set_heap h' w) ∧
        rewritten (relink je ce) (heap w) [t] h'.

(** The loop body of [updateBestDescendant]. *)
Definition bestBody (je fe ce : Z) (fuel : nat) (b : bestState) (child : ptr) : M bestState :=
  if bool_decide (child = nilptr)
  then mthrow (wrapErr ErrNilNode "could not update best descendant")
  else
    updateBestDescendant fuel child je fe ce;;;
    c <~ deref child;;
    childLeadsToViableHead <~ leadsToViableHead c je ce;;
    if childLeadsToViableHead && negb (hasViableDescendant b)
    then mret (mkBest child (weight c) true)
    else if childLeadsToViableHead
    then
      if weight c =? bestWeight b
      then
        bc <~ deref (bestChild b);;
        if root bc <? root c
        then mret (mkBest child (bestWeight b) (hasViableDescendant b))
        else mret b
      else if bestWeight b <? weight c
      then mret (mkBest child (weight c) (hasViableDescendant b))
      else mret b
    else mret b.

Lemma rewritten_tip je ce h t h' :
  repr h t → rewritten (relink je ce) h [t] h' →
  ∃ nd, h !! tptr t = Some nd ∧
        h' !! tptr t = Some (relink je ce h t nd) ∧
        (if bool_decide (bestDescendant (relink je ce h t nd) = nilptr) then tptr t
         else bestDescendant (relink je ce h t nd)) = ghostTip h je ce t ∧
        ∃ ndt, h' !! ghostTip h je ce t = Some ndt ∧
               viableForHead ndt je ce = leads h je ce t.
Proof.
  intros Hr [Hf Hu]. cbn in Hf, Hu. rewrite app_nil_r in *.
  destruct (repr_lookup h t Hr) as (nd & Hnd & Hnil & _).
  exists nd. split; [done|]. split; [rewrite Hu, Hnd by eauto with go; done|].
  pose proof (ghostTip_in h je ce t) as Hin.
  destruct (repr_ptr h t _ Hr Hin) as (ndt & Hndt & Hnilt).
  split.
  - cbn. unfold ghostTip in *. destruct (bestTip h je ce t) as [q|]; cbn in *.
    + rewrite bool_decide_false by done. done.
    + rewrite bool_decide_true by done. done.
  - destruct (tptrs_subtree t _ Hin) as (s & Hs & Hsp). rewrite <- Hsp, Hu by done.
    rewrite Hsp, Hndt. cbn. eexists; split; [done|].
    unfold leads, viableAt. rewrite Hndt. done.
Qed.

Lemma leadsToViableHead_eq je ce h t h' w nd :
  repr h t → rewritten (relink je ce) h [t] h' → heap w = h' → h !! tptr t = Some nd →
  leadsToViableHead (relink je ce h t nd) je ce w = (Ret (leads h je ce t), w).
Proof.
  intros Hr Hrew Hw Hnd.
  destruct (rewritten_tip je ce h t h' Hr Hrew) as (nd' & Hnd1 & Hnd2 & Htip & ndt & Hndt & Hv).
  rewrite Hnd in Hnd1. injection Hnd1 as <-. unfold leadsToViableHead.
  destruct (bool_decide _) eqn:E; rewrite <- Htip in Hndt.
  - rewrite Hnd2 in Hndt. injection Hndt as <-. by rewrite Hv.
  - rewrite (mseq_ret _ _ _ _ _ (deref_eq _ _ w ltac:(rewrite Hw; exact Hndt))). by rewrite Hv.
Qed.

Lemma related_step je ce h t h' b o nd w :
  repr h t → rewritten (relink je ce) h [t] h' → heap w = h' → h !! tptr t = Some nd →
  related h' b o →
  ∃ b',
    (if leads h je ce t && negb (hasViableDescendant b)
     then mret (mkBest (tptr t) (weight nd) true)
     else if leads h je ce t
     then
       if weight nd =? bestWeight b
       then
         bc <~ deref (bestChild b);;
         if root bc <? root nd
         then mret (mkBest (tptr t) (bestWeight b) (hasViableDescendant b))
         else mret b
       else if bestWeight b <? weight nd
       then mret (mkBest (tptr t) (weight nd) (hasViableDescendant b))
       else mret b
     else mret b) w = (Ret b', w) ∧
    related h' b' (consider h je ce o (tptr t) (ghostTip h je ce t)).
Proof.
  intros Hr Hrew Hw Hnd Hrel.
  destruct (rewritten_tip je ce h t h' Hr Hrew) as (nd' & Hnd1 & Hnd2 & Htip & _).
  rewrite Hnd in Hnd1. injection Hnd1 as <-.
  unfold consider. change (viableAt h je ce (ghostTip h je ce t)) with (leads h je ce t).
  destruct (leads h je ce t); cbn [andb]; [|exists b; done].
  set (c := mkCand (tptr t) (weightOf h (tptr t)) (rootOf h (tptr t)) (ghostTip h je ce t)).
  assert (cWeight c = weight nd ∧ cRoot c = root nd) as [Hcw Hcr].
  { cbn. unfold weightOf, rootOf. rewrite Hnd. done. }
  assert (related h' (mkBest (tptr t) (weight nd) true) (Some c)) as Hnew.
  { split; [f_equal; symmetry; exact Hcw|]. eexists. split; [exact Hnd2|].
    split; [symmetry; exact Hcr|exact Htip]. }
  clearbody c.
  destruct o as [a|]; cbn in Hrel.
  - destruct Hrel as (-> & ba & Hba & Hroot & Hbt). cbn. rewrite Hcw, Hcr.
    assert (related h' (mkBest (cPtr a) (cWeight a) true) (Some a)) as Hold by (cbn; eauto).
    destruct (weight nd =? cWeight a) eqn:E1; bprop.
    + rewrite (mseq_ret _ _ _ _ _ (deref_eq _ _ w ltac:(rewrite Hw; exact Hba))), Hroot.
      case_if; eexists; (split; [done|]); [by rewrite <- E1|done].
    + case_if; eexists; (split; [done|]); done.
  - subst b. cbn. eexists; split; [done|]. done.
Qed.

Lemma related_frame je ce h l h' b o :
  rewritten (relink je ce) h l h' → related h b o →
  (∀ c, o = Some c → cPtr c ∉ flat_map tptrs l) → related h' b o.
Proof.
  intros [Hf _] Hrel Hout. destruct o as [c|]; [|done]. cbn in *.
  destruct Hrel as (-> & nd & Hnd & Hr). split; [done|]. exists nd.
  by rewrite Hf by (by apply Hout).
Qed.

Lemma consider_ptr h je ce o p tip c :
  consider h je ce o p tip = Some c → cPtr c = p ∨ o = Some c.
Proof.
  unfold consider. case_match; [|by right].
  destruct (pick_spec o (mkCand p (weightOf h p) (rootOf h p) tip)) as (d & -> & Hd & _).
  intros [= <-]. destruct Hd as [Hd|Hd]; subst; [by left|by right].
Qed.

Lemma relinks_forest je fe ce fuel l : Forall (relinks je fe ce fuel) l → ∀ b o w,
  ctx w = None → Forall (repr (heap w)) l → NoDup (flat_map tptrs l) →
  related (heap w) b o → (∀ c, o = Some c → cPtr c ∉ flat_map tptrs l) →
  ∃ h' b', mfold (bestBody je fe ce fuel) (map tptr l) b w = (Ret b', set_heap h' w) ∧
    rewritten (relink je ce) (heap w) l h' ∧
    related h' b' (fold_left (λ o c, consider (heap w) je ce o (tptr c) (ghostTip (heap w) je ce c)) l o).
Proof.
  induction 1 as [|t l Ht Hl IH]; intros b o w Hctx Hr Hnd Hrel Hout.
  { exists (heap w), b. split; [cbn; by destruct w|]. split; [apply rewritten_nil|done]. }
  apply Forall_cons in Hr as [Hrt Hrl].
  pose proof Hnd as (Hndt & Hdisj & Hndl)%NoDup_app.
  destruct (Ht w Hctx Hrt Hndt) as (h1 & Hrun & Hrew1).
  destruct (repr_lookup (heap w) t Hrt) as (nd & Hnd' & Hnil & _).
  destruct (rewritten_tip je ce (heap w) t h1 Hrt Hrew1) as (nd' & Hnd1 & Hnd2 & _).
  rewrite Hnd' in Hnd1. injection Hnd1 as <-.
  assert (related h1 b o) as Hrel1.
  { eapply related_frame; [exact Hrew1|done|]. intros c Hc. cbn. rewrite app_nil_r.
    intros Hin. apply (Hout c Hc). cbn. set_solver. }
  destruct (related_step je ce (heap w) t h1 b o nd (set_heap h1 w) Hrt Hrew1 eq_refl Hnd' Hrel1)
    as (b1 & Hstep & Hrelb).
  destruct (IH b1 (consider (heap w) je ce o (tptr t) (ghostTip (heap w) je ce t)) (set_heap h1 w))
    as (h2 & b2 & Hrest & Hrew2 & Hrel2); [done| |done|done| |].
  { eapply Forall_impl; [done|]. intros u. by apply (rewritten_repr (relink je ce) ltac:(done) _ _ _ _ Hrew1). }
  { intros c [Hc|Hc]%consider_ptr Hin.
    - apply (Hdisj (cPtr c)); [|done]. rewrite Hc. eauto with go.
    - apply (Hout c Hc). cbn. set_solver. }
  exists h2, b2. split_and!.
  - cbn [map mfold]. erewrite mseq_ret; [exact Hrest|]. unfold bestBody.
    rewrite bool_decide_false by done. rewrite (mseq_ret _ _ _ _ _ Hrun).
    rewrite (mseq_ret _ _ _ _ _ (deref_eq _ _ (set_heap h1 w) Hnd2)).
    rewrite (mseq_ret _ _ _ _ _
      (leadsToViableHead_eq je ce (heap w) t h1 (set_heap h1 w) nd Hrt Hrew1 eq_refl Hnd')).
    exact Hstep.
  - eapply rewritten_cons; [apply relink_local|done|done|done].
  - assert (∀ u, u ∈ l → ∀ p, p ∈ tptrs u → h1 !! p = heap w !! p) as Hsame.
    { intros u Hu p Hp. destruct Hrew1 as [Hf _]. apply Hf. cbn. rewrite app_nil_r.
      intros Hpt. apply (Hdisj p Hpt). apply elem_of_flat_map. eauto. }
    cbn. erewrite <- fold_consider_ext; [exact Hrel2|..].
    + intros u Hu. apply bestTip_local. by apply Hsame.
    + intros u p Hu Hp. cbn. by rewrite (Hsame u Hu p Hp).
Qed.

Lemma relinks_all je fe ce fuel t : (theight t ≤ fuel)%nat → relinks je fe ce fuel t.
Proof.
  revert t. induction fuel as [|fuel IH]; intros [p cs] Hh; [cbn in Hh; lia|].
  intros w Hctx Hr Hnd. inversion Hr as [??? Hp Hnil Hch Hcs]; subst.
  assert (Forall (relinks je fe ce fuel) cs) as Hall.
  { apply Forall_forall. intros c Hc. apply IH.
    pose proof (theight_child (TNode p cs) c Hc). lia. }
  pose proof Hnd as [Hpn Hnd']%NoDup_cons.
  cbn [updateBestDescendant tptr].
  rewrite (mseq_ret _ _ _ _ _ (checkCtx_eq w Hctx)), (mseq_ret _ _ _ _ _ (deref_eq _ _ _ Hp)), Hch.
  destruct cs as [|c0 cs0] eqn:Ecs; [|rewrite <- Ecs in *].
  { rewrite bool_decide_true by done. rewrite (modify_eq _ _ nd) by done.
    eexists; split; [done|].
    apply (rewritten_node (relink je ce) (heap w) (heap w) p [] nd); [done|done|apply rewritten_nil]. }
  rewrite bool_decide_false by (by rewrite Ecs).
  destruct (relinks_forest je fe ce fuel cs Hall (mkBest nilptr 0 false) None w Hctx Hcs Hnd')
    as (h1 & b & Hrun & Hrew & Hrel); [done|done|].
  change (mfold _ (map tptr cs) _) with (mfold (bestBody je fe ce fuel) (map tptr cs) (mkBest nilptr 0 false)).
  rewrite (mseq_ret _ _ _ _ _ Hrun).
  assert (h1 !! p = Some nd) as Hp1 by (destruct Hrew as [Hf _]; by rewrite Hf).
  eexists. split; [|apply (rewritten_node (relink je ce) (heap w) h1 p cs nd); done].
  unfold relink. rewrite bestTip_bestCand. cbn [tchildren]. unfold bestCand.
  destruct (fold_left _ cs None) as [a|]; cbn in Hrel |- *.
  - destruct Hrel as (-> & ba & Hba & _ & Htip). cbn.
    rewrite (mseq_ret _ _ _ _ _ (deref_eq _ _ (set_heap h1 w) Hba)).
    destruct (bool_decide _); rewrite (modify_eq _ _ nd) by done; by rewrite Htip.
  - subst b. cbn. by rewrite (modify_eq _ _ nd).
Qed.
End ghost.
