(* ===== verification/ForkVotes.v ===== *)
(** * Vote accounting: [updateBalances] tracks the latest votes

    After [updateBalances] every block's own balance is the sum of the justified
    balances of the validators whose latest vote is for that block, on top of
    whatever else (the proposer boost) it carried before. *)

From S2P Require Import Prelude MathHelper Primitives SlotTime ForkTypes ForkStore.
From S2P Require Import ForkStore ForkChoice ForkTree ForkGhost.

(** ** Reference definitions *)

(** The amount validator [i] adds to the block [r], by the root [get] of its vote. *)
Definition contrib (slashed : gset Z) (V : list Vote) (get : Vote → Z) (bals : list Z)
    (r : Z) (i : nat) : Z :=
  match V !! i with
  | None => 0
  | Some v =>
      if bool_decide (Z.of_nat i ∈ slashed) then 0
      else if get v =? r then balanceAt bals i else 0
  end.

(** The total for the block [r]. *)
Definition voteSum (slashed : gset Z) (V : list Vote) (get : Vote → Z) (bals : list Z) (r : Z) : Z :=
  Zsum (map (contrib slashed V get bals r) (seq 0 (length V))).

(** The total of the balances of the validators that have a vote entry. *)
Definition totalBalance (n : nat) (bals : list Z) : Z := Zsum (map (balanceAt bals) (seq 0 n)).

(** The votes below [k] have been rotated. *)
Definition rotate1 (slashed : gset Z) (k i : nat) (v : Vote) : Vote :=
  if bool_decide (i < k)%nat && negb (bool_decide (Z.of_nat i ∈ slashed))
  then set_currentRoot (nextRoot v) v else v.

Definition rotated (slashed : gset Z) (k : nat) (V : list Vote) : list Vote :=
  imap (rotate1 slashed k) V.

(** Equal up to the balances of the nodes. *)
Definition same_but_balance (h h' : gmap ptr Node) : Prop :=
  ∀ p, set_balance 0 <$> h' !! p = set_balance 0 <$> h !! p.

(** The root index points at live nodes with that root. *)
Definition index_ok (s : Store) (h : gmap ptr Node) : Prop :=
  ∀ r p, nodeByRoot s !! r = Some p → p ≠ nilptr ∧ ∃ nd, h !! p = Some nd ∧ root nd = r.

(** The balance of a known root. *)
Definition bal (s : Store) (h : gmap ptr Node) (r : Z) : Z :=
  match nodeByRoot s !! r with Some p => balanceOf h p | None => 0 end.

(** Every known block holds [base] plus the votes counted by [get]. *)
Definition accounted (s : Store) (h : gmap ptr Node) (base : Z → Z) (sum : Z → Z) : Prop :=
  ∀ r, r ≠ ZeroHash → is_Some (nodeByRoot s !! r) → bal s h r = base r + sum r.

(** ** Lemmas *)

Lemma same_but_balance_refl h : same_but_balance h h.
Proof. done. Qed.

Lemma same_but_balance_trans h1 h2 h3 :
  same_but_balance h1 h2 → same_but_balance h2 h3 → same_but_balance h1 h3.
Proof. intros H1 H2 p. by rewrite H2, H1. Qed.

(** A field that [set_balance] keeps is the same in both heaps. *)
Lemma same_but_balance_field {A} (f : Node → A) h h' p :
  (∀ nd, f (set_balance 0 nd) = f nd) → same_but_balance h h' → f <$> h' !! p = f <$> h !! p.
Proof.
  intros Hf Hs. specialize (Hs p).
  destruct (h !! p) as [n|], (h' !! p) as [n'|]; try done.
  apply (inj Some) in Hs. cbn [fmap option_fmap option_map]. f_equal.
  by rewrite <- (Hf n'), <- (Hf n), Hs.
Qed.

Lemma same_but_balance_lookup h h' p nd :
  same_but_balance h h' → h !! p = Some nd → ∃ b, h' !! p = Some (set_balance b nd).
Proof.
  intros Hs Hp. specialize (Hs p). rewrite Hp in Hs.
  destruct (h' !! p) as [nd'|]; [|done]. exists (balance nd'). f_equal.
  apply (inj Some) in Hs. destruct nd, nd'. unfold set_balance in *. cbn in *.
  injection Hs; intros; subst. done.
Qed.

Lemma same_but_balance_repr h h' t : same_but_balance h h' → repr h t → repr h' t.
Proof.
  intros Hs. apply repr_frame. intros p _. by apply (same_but_balance_field children).
Qed.

Lemma index_ok_same s h h' : same_but_balance h h' → index_ok s h → index_ok s h'.
Proof.
  intros Hs Hi r p Hp. destruct (Hi r p Hp) as (Hnil & nd & Hnd & Hr). split; [done|].
  destruct (same_but_balance_lookup h h' p nd Hs Hnd) as (b & Hb). eauto.
Qed.

Lemma wf_index_ok w t : wf w t → index_ok (store (fc w)) (heap w).
Proof.
  intros Hwf r p Hp. apply (wf_index w t Hwf) in Hp as (Hin & nd & Hnd & Hr).
  split; [|eauto]. by destruct (wf_heap w t Hwf p nd Hnd).
Qed.

(** One of the two balance adjustments of the loop body. *)
Definition adjustM (s : Store) (r : Z) (g : Z → Z) : M unit :=
  match nodeByRoot s !! r with
  | Some p =>
      if r =? ZeroHash then mret tt
      else if bool_decide (p = nilptr)
      then mthrow (wrapErr ErrNilNode "could not update balances")
      else modify p (λ n, set_balance (g (balance n)) n)
  | None => mret tt
  end.

Lemma adjustM_spec s r g w :
  index_ok s (heap w) →
  ∃ h1, adjustM s r g w = (Ret tt, set_heap h1 w) ∧ same_but_balance (heap w) h1 ∧
        ∀ r', r' ≠ ZeroHash → is_Some (nodeByRoot s !! r') →
              bal s h1 r' = if r' =? r then g (bal s (heap w) r') else bal s (heap w) r'.
Proof.
  intros Hi. unfold adjustM. destruct (nodeByRoot s !! r) as [p|] eqn:Hp; cycle 1.
  { exists (heap w). split; [by destruct w|]. split; [done|]. intros r' _ [q Hq].
    case_if; [|done]. congruence. }
  destruct (Hi r p Hp) as (Hnil & nd & Hnd & Hroot). case_if.
  { exists (heap w). split; [by destruct w|]. split; [done|]. intros r' Hz _.
    case_if; [|done]. congruence. }
  rewrite bool_decide_false by done. rewrite (modify_eq _ _ nd) by done.
  eexists. split; [done|]. split.
  - intros q. destruct (decide (q = p)) as [->|Hne].
    + rewrite lookup_insert_eq, Hnd. by destruct nd.
    + by rewrite lookup_insert_ne.
  - intros r' Hz [q Hq]. unfold bal. rewrite Hq. unfold balanceOf.
    destruct (Hi r' q Hq) as (_ & nd' & Hnd' & Hroot').
    destruct (decide (q = p)) as [->|Hne].
    + assert (r' = r) as -> by congruence. rewrite Z.eqb_refl, lookup_insert_eq, Hnd. done.
    + rewrite lookup_insert_ne by done. case_if; [|done]. congruence.
Qed.

(** ** Sums of contributions *)

Section sums.
Variables (slashed : gset Z) (V : list Vote) (old new : list Z).
Hypothesis old_nonneg : ∀ i, 0 ≤ balanceAt old i.
Hypothesis new_nonneg : ∀ i, 0 ≤ balanceAt new i.

(** The sum half-way through the loop: new votes below [k], old ones from [k] on. *)
Definition midContrib (k : nat) (r : Z) (i : nat) : Z :=
  if bool_decide (i < k)%nat then contrib slashed V nextRoot new r i
  else contrib slashed V currentRoot old r i.

Definition midSum (k : nat) (r : Z) : Z := Zsum (map (midContrib k r) (seq 0 (length V))).

Lemma midSum_0 r : midSum 0 r = voteSum slashed V currentRoot old r.
Proof using Type. done. Qed.

Lemma midSum_end r : midSum (length V) r = voteSum slashed V nextRoot new r.
Proof using Type.
  apply Zsum_map_ext. intros i Hi%elem_of_seq. unfold midContrib.
  rewrite bool_decide_true by lia. done.
Qed.

Lemma midSum_step k r :
  (k < length V)%nat →
  midSum (S k) r = midSum k r + contrib slashed V nextRoot new r k
                             - contrib slashed V currentRoot old r k.
Proof using Type.
  intros Hk. unfold midSum.
  replace (length V) with (k + S (length V - S k))%nat by lia.
  rewrite !seq_app, !map_app, !Zsum_app. cbn.
  rewrite (Zsum_map_ext (midContrib (S k) r) (midContrib k r) (seq 0 k)).
  2:{ intros i Hi%elem_of_seq. unfold midContrib. rewrite !bool_decide_true by lia. done. }
  rewrite (Zsum_map_ext (midContrib (S k) r) (midContrib k r) (seq (S k) _)).
  2:{ intros i Hi%elem_of_seq. unfold midContrib. rewrite !bool_decide_false by lia. done. }
  unfold midContrib at 2 5. rewrite bool_decide_true, bool_decide_false by lia. lia.
Qed.

Lemma contrib_bounds get bals r i :
  0 ≤ balanceAt bals i → 0 ≤ contrib slashed V get bals r i ≤ balanceAt bals i.
Proof using Type. intros. unfold contrib. repeat case_match; lia. Qed.

(** The old contribution at [k] is part of the sum, so subtracting it is exact. *)
Lemma midSum_lower k r :
  (k < length V)%nat → contrib slashed V currentRoot old r k ≤ midSum k r.
Proof using old_nonneg new_nonneg.
  intros Hk. etransitivity; [|apply (Zsum_map_elem _ _ k)].
  - unfold midContrib. rewrite bool_decide_false by lia. done.
  - intros i _. unfold midContrib. case_bool_decide; by apply contrib_bounds.
  - apply elem_of_seq. lia.
Qed.

(** Adding a new contribution at [k] keeps the sum below the two totals. *)
Lemma midSum_upper k r :
  (k < length V)%nat → 0 ≤ midSum k r ∧
  midSum k r + balanceAt new k ≤ totalBalance (length V) old + totalBalance (length V) new.
Proof using old_nonneg new_nonneg.
  intros Hk. split.
  { apply Zsum_nonneg, Forall_forall. intros z (i & -> & _)%list_elem_of_fmap.
    unfold midContrib. case_bool_decide; by apply contrib_bounds. }
  unfold totalBalance. rewrite <- Zsum_map_add. unfold midSum.
  assert (∀ i, midContrib k r i ≤ balanceAt old i + balanceAt new i) as Hle.
  { intros i. unfold midContrib. case_bool_decide.
    - pose proof (contrib_bounds nextRoot new r i (new_nonneg i)). specialize (old_nonneg i). lia.
    - pose proof (contrib_bounds currentRoot old r i (old_nonneg i)). specialize (new_nonneg i). lia. }
  replace (length V) with (k + S (length V - S k))%nat by lia.
  rewrite !seq_app, !map_app, !Zsum_app. cbn.
  pose proof (Zsum_map_le (midContrib k r) (λ i, balanceAt old i + balanceAt new i) (seq 0 k) ltac:(auto)).
  pose proof (Zsum_map_le (midContrib k r) (λ i, balanceAt old i + balanceAt new i)
                (seq (S k) (length V - S k)) ltac:(auto)).
  assert (midContrib k r k ≤ balanceAt old k); [|lia].
  unfold midContrib. rewrite bool_decide_false by lia. by apply contrib_bounds.
Qed.
End sums.

Lemma rotated_S slashed k V v :
  V !! k = Some v → Z.of_nat k ∉ slashed →
  <[k := set_currentRoot (nextRoot v) v]> (rotated slashed k V) = rotated slashed (S k) V.
Proof.
  intros Hv Hns. unfold rotated. apply list_eq. intros i.
  destruct (decide (i = k)) as [->|Hne].
  - rewrite list_lookup_insert_eq by (rewrite length_imap; by apply lookup_lt_Some in Hv).
    rewrite list_lookup_imap, Hv. cbn. unfold rotate1.
    rewrite bool_decide_true by lia. by rewrite bool_decide_false.
  - rewrite list_lookup_insert_ne by done. rewrite !list_lookup_imap.
    destruct (V !! i); cbn; [|done]. unfold rotate1.
    by rewrite (bool_decide_ext (i < S k)%nat (i < k)%nat) by lia.
Qed.

(** Nothing to rotate at [k]. *)
Lemma rotated_skip slashed k V :
  (∀ v, V !! k = Some v → Z.of_nat k ∈ slashed ∨ currentRoot v = nextRoot v) →
  rotated slashed (S k) V = rotated slashed k V.
Proof.
  intros Hk. unfold rotated. apply list_eq. intros i. rewrite !list_lookup_imap.
  destruct (V !! i) as [v|] eqn:Hv; cbn; [|done]. unfold rotate1.
  destruct (decide (i = k)) as [->|Hne].
  - rewrite bool_decide_true, (bool_decide_false (k < k)%nat) by lia. cbn.
    destruct (Hk v Hv) as [Hin|Heq]; [by rewrite bool_decide_true|].
    case_bool_decide; cbn; [done|]. rewrite <- Heq. by destruct v.
  - by rewrite (bool_decide_ext (i < S k)%nat (i < k)%nat) by lia.
Qed.

Lemma rotated_0 slashed V : rotated slashed 0 V = V.
Proof.
  unfold rotated. apply list_eq. intros i. rewrite list_lookup_imap.
  by destruct (V !! i).
Qed.

Lemma rotated_lookup slashed k V : rotated slashed k V !! k = V !! k.
Proof.
  unfold rotated. rewrite list_lookup_imap. destruct (V !! k) as [v|]; cbn; [|done].
  unfold rotate1. by rewrite bool_decide_false by lia.
Qed.

Section votes.
Context `{BeaconChainConfig}.

(** ** The loop of [updateBalances] *)

(** The state at the start of iteration [k]. *)
Definition atIndex (k : nat) (V : list Vote) (base : Z → Z) (w0 w : World) : Prop :=
  let s := store (fc w0) in
  ∃ h, w = set_fc (set_votes (rotated (slashedIndices s) k V) (fc w0)) (set_heap h w0) ∧
       same_but_balance (heap w0) h ∧
       accounted s h base
         (midSum (slashedIndices s) V (balances (fc w0)) (justifiedBalances (fc w0)) k).

Variables (w0 : World) (base : Z → Z).
Abbreviation s0 := (store (fc w0)).
Abbreviation V := (votes (fc w0)).
Abbreviation old := (balances (fc w0)).
Abbreviation new := (justifiedBalances (fc w0)).

Hypothesis Hindex : index_ok s0 (heap w0).
Hypothesis Hold : ∀ i, 0 ≤ balanceAt old i.
Hypothesis Hnew : ∀ i, 0 ≤ balanceAt new i.
Hypothesis Hbase : ∀ r, 0 ≤ base r ∧
  base r + totalBalance (length V) old + totalBalance (length V) new < two64.

(** The two adjustments of an iteration move the sum from [k] to [S k]. *)
Lemma adjust_accounted k v w :
  V !! k = Some v → Z.of_nat k ∉ slashedIndices s0 → index_ok s0 (heap w) →
  accounted s0 (heap w) base (midSum (slashedIndices s0) V old new k) →
  ∃ h', mseq (adjustM s0 (nextRoot v) (λ b, b +w balanceAt new k))
          (λ _, adjustM s0 (currentRoot v)
                  (λ b, if b <? balanceAt old k then 0 else b -w balanceAt old k)) w
        = (Ret tt, set_heap h' w) ∧ same_but_balance (heap w) h' ∧
        accounted s0 h' base (midSum (slashedIndices s0) V old new (S k)).
Proof.
  intros Hv Hns Hi Hacc. pose proof (lookup_lt_Some _ _ _ Hv) as Hk.
  destruct (adjustM_spec s0 (nextRoot v) (λ b, b +w balanceAt new k) w Hi) as (h1 & Hr1 & Hs1 & Hb1).
  destruct (adjustM_spec s0 (currentRoot v)
    (λ b, if b <? balanceAt old k then 0 else b -w balanceAt old k) (set_heap h1 w))
    as (h2 & Hr2 & Hs2 & Hb2); [by eapply index_ok_same|].
  exists h2. split; [rewrite (mseq_ret _ _ _ _ _ Hr1); exact Hr2|].
  split; [by eapply same_but_balance_trans|].
  intros r Hz Hr. rewrite Hb2, Hb1, Hacc by done. cbn.
  rewrite midSum_step by done.
  pose proof (midSum_lower (slashedIndices s0) V old new Hold Hnew k r Hk) as Hlo.
  pose proof (midSum_upper (slashedIndices s0) V old new Hold Hnew k r Hk) as [Hm0 Hup].
  unfold contrib in *. rewrite Hv in *. rewrite bool_decide_false in * by done.
  rewrite !(Z.eqb_sym r). destruct (Hbase r) as [Hb0 Hbu]. pose proof (Hold k). pose proof (Hnew k).
  destruct (nextRoot v =? r), (currentRoot v =? r); cbn -[Z.sub];
    rewrite ?(wrap64_small (_ + balanceAt new k)) by (unfold is_u64; lia);
    repeat match goal with |- context [?a <? ?b] => replace (a <? b) with false by lia end;
    rewrite ?wrap64_small by (unfold is_u64; lia); lia.
Qed.

Lemma updateBalancesStep_spec k w :
  (k < length V)%nat → atIndex k V base w0 w →
  ∃ w', updateBalancesStep new k w = (Ret tt, w') ∧ atIndex (S k) V base w0 w'.
Proof.
  intros Hk (h & -> & Hsame & Hacc). destruct (lookup_lt_is_Some_2 V k Hk) as [v Hv].
  unfold updateBalancesStep. mstep. cbn.
  case_bool_decide as Hsl.
  { eexists; split; [done|]. exists h. rewrite rotated_skip by auto.
    split; [done|]. split; [done|]. intros r Hz Hr. rewrite midSum_step by done.
    rewrite Hacc by done. unfold contrib. rewrite Hv, bool_decide_true by done. lia. }
  rewrite rotated_lookup, Hv. case_if.
  { eexists; split; [done|]. exists h. rewrite rotated_skip by (intros ? [= <-]%(eq_trans (eq_sym Hv)); right; congruence).
    split; [done|]. split; [done|]. intros r Hz Hr. rewrite midSum_step by done.
    rewrite Hacc by done. unfold contrib. rewrite Hv, bool_decide_false by done.
    rewrite !(proj2 (Z.eqb_neq _ r)) by congruence. lia. }
  clear E. set (w := set_fc _ _).
  assert (∃ h', (if negb (currentRoot v =? nextRoot v) || negb (balanceAt old k =? balanceAt new k)
                 then mseq (adjustM s0 (nextRoot v) (λ b, b +w balanceAt new k))
                        (λ _, adjustM s0 (currentRoot v)
                          (λ b, if b <? balanceAt old k then 0 else b -w balanceAt old k))
                 else mret tt) w = (Ret tt, set_heap h' w) ∧ same_but_balance h h' ∧
                accounted s0 h' base (midSum (slashedIndices s0) V old new (S k)))
    as (h' & Hrun & Hsame' & Hacc').
  { case_if.
    - apply (adjust_accounted k v w Hv Hsl); [by apply (index_ok_same s0 (heap w0))|done].
    - exists h. split; [done|]. split; [done|]. intros r Hz Hr. rewrite midSum_step by done.
      rewrite Hacc by done. unfold contrib. rewrite Hv, bool_decide_false by done.
      replace (currentRoot v) with (nextRoot v) by congruence.
      replace (balanceAt old k) with (balanceAt new k) by congruence. lia. }
  eexists. split; [erewrite mseq_ret; [done|exact Hrun]|].
  exists h'. split; [|split; [by eapply same_but_balance_trans|done]].
  cbn. unfold modFC, mput, w. cbn. rewrite rotated_S by done. done.
Qed.

Lemma updateBalances_loop m : ∀ k w,
  (k + m = length V)%nat → atIndex k V base w0 w →
  ∃ w', mfold (λ _ index, updateBalancesStep new index) (seq k m) tt w = (Ret tt, w') ∧
        atIndex (length V) V base w0 w'.
Proof.
  induction m as [|m IH]; intros k w Hkm Hat.
  - exists w. split; [done|]. by replace (length V) with k by lia.
  - destruct (updateBalancesStep_spec k w ltac:(lia) Hat) as (w1 & Hrun & Hat1).
    destruct (IH (S k) w1 ltac:(lia) Hat1) as (w2 & Hrest & Hat2).
    exists w2. split; [|done]. cbn [seq mfold]. mstep with Hrun. exact Hrest.
Qed.

(** The whole operation, as used by [Head]. *)
Lemma updateBalances_run :
  accounted s0 (heap w0) base (voteSum (slashedIndices s0) V currentRoot old) →
  ∃ h, updateBalances w0 =
         (Ret tt, set_fc (set_balances new
                    (set_votes (rotated (slashedIndices s0) (length V) V) (fc w0)))
                    (set_heap h w0)) ∧
       same_but_balance (heap w0) h ∧
       accounted s0 h base (voteSum (slashedIndices s0) V nextRoot new).
Proof.
  intros Hacc. destruct (updateBalances_loop (length V) 0 w0) as (w' & Hrun & h & -> & Hsame & Hacc').
  - done.
  - exists (heap w0). rewrite rotated_0, fc_heap_eta. done.
  - exists h. split; [|split; [done|]].
    + unfold updateBalances. mstep. cbv zeta. mstep with Hrun. done.
    + intros r Hz Hr. rewrite Hacc' by done. by rewrite midSum_end.
Qed.
End votes.
