(* ===== verification/ForkHead.v ===== *)
(** * [Head] computes the LMD-GHOST head

    Composition of the vote accounting, the proposer boost, the weights and the
    best descendants into the specification of [ForkChoice.Head]
    ([forkchoice.go]) and [Store.head] ([store.go]). *)

From S2P Require Import Prelude MathHelper Primitives SlotTime ForkTypes ForkStore.
From S2P Require Import ForkStore ForkChoice ForkTree ForkGhost ForkVotes.

(** ** Reference definitions *)

(** The balance a boosted root carries. *)
Definition boostOf (r score : Z) (r' : Z) : Z :=
  if (r' =? r) && negb (r =? ZeroHash) then score else 0.

Section head_spec.
Context `{BeaconChainConfig}.

(** The score [applyProposerBoostScore] gives to the boosted block. *)
Definition boostScore (s : Store) : Z :=
  if proposerBoostRoot s =? ZeroHash then 0
  else match nodeByRoot s !! proposerBoostRoot s with
       | Some _ => (committeeWeight s *w ProposerScoreBoost) / 100
       | None => 0
       end.

(** What a block weighs by itself after [Head]: the justified balances of the
    unslashed validators whose latest vote is for it, and the proposer boost. *)
Definition lmdScore (w : World) (r : Z) : Z :=
  boostOf (proposerBoostRoot (store (fc w))) (boostScore (store (fc w))) r +
  voteSum (slashedIndices (store (fc w))) (votes (fc w)) nextRoot (justifiedBalances (fc w)) r.

(** The state in which [Head] is called: a well-formed tree whose balances
    account for the current votes and the previous boost, and totals that fit
    in 64 bits. *)
Record head_ready (w : World) (t : tree) : Prop := {
  hr_wf : wf w t;
  hr_ctx : ctx w = None;
  hr_roots : ∀ p nd, p ∈ tptrs t → heap w !! p = Some nd → root nd ≠ ZeroHash;
  hr_old : ∀ i, 0 ≤ balanceAt (balances (fc w)) i;
  hr_new : ∀ i, 0 ≤ balanceAt (justifiedBalances (fc w)) i;
  hr_accounted : accounted (store (fc w)) (heap w)
    (boostOf (previousProposerBoostRoot (store (fc w))) (previousProposerBoostScore (store (fc w))))
    (voteSum (slashedIndices (store (fc w))) (votes (fc w)) currentRoot (balances (fc w)));
  hr_score : 0 ≤ previousProposerBoostScore (store (fc w));
  hr_fits : previousProposerBoostScore (store (fc w)) +
            totalBalance (length (votes (fc w))) (balances (fc w)) +
            totalBalance (length (votes (fc w))) (justifiedBalances (fc w)) < two64;
  hr_fits' : boostScore (store (fc w)) +
             totalBalance (length (votes (fc w))) (justifiedBalances (fc w)) < two64;
}.

(** The subtree of the justified checkpoint; the whole tree for a genesis
    checkpoint whose root is unknown. *)
Definition justified_tree (s : Store) (t jt : tree) : Prop :=
  jt ∈ subtrees t ∧
  (lookupRoot s (Root (justifiedCheckpoint s)) = Some (tptr jt) ∨
   (lookupRoot s (Root (justifiedCheckpoint s)) = None ∧
    Epoch (justifiedCheckpoint s) = GenesisEpoch ∧ jt = t)).

(** The epoch of the [k]-th next clock reading. *)
Definition epochAt (w : World) (k : nat) : Z :=
  EpochsSinceGenesis (genesisTime (store (fc w))) (clock w (ticks w + k)%nat).

(** ** The proposer boost *)

Lemma lookupRoot_index s h r : index_ok s h → lookupRoot s r = nodeByRoot s !! r.
Proof.
  intros Hi. unfold lookupRoot. destruct (nodeByRoot s !! r) as [p|] eqn:E; [|done].
  destruct (Hi r p E) as [Hp _]. by rewrite bool_decide_false.
Qed.

Lemma boostOf_range r score r' : 0 ≤ score → 0 ≤ boostOf r score r' ≤ score.
Proof. intros. unfold boostOf. case_if; lia. Qed.

Lemma voteSum_nonneg sl V get bals r : (∀ i, 0 ≤ balanceAt bals i) → 0 ≤ voteSum sl V get bals r.
Proof.
  intros Hb. apply Zsum_nonneg, Forall_forall. intros z (i & -> & _)%list_elem_of_fmap.
  by apply contrib_bounds.
Qed.

Lemma voteSum_le_total sl V get bals r :
  (∀ i, 0 ≤ balanceAt bals i) → voteSum sl V get bals r ≤ totalBalance (length V) bals.
Proof. intros Hb. apply Zsum_map_le. intros i _. by apply contrib_bounds. Qed.

Definition boosted (s : Store) : Store :=
  set_previousProposerBoostScore (boostScore s)
    (set_previousProposerBoostRoot (proposerBoostRoot s) s).

Lemma boostScore_nonneg s : 0 ≤ boostScore s.
Proof.
  unfold boostScore. repeat case_match; [lia|..|lia].
  apply Z.div_pos; [|lia]. apply wrap64_range.
Qed.

(** Removing the previous boost and adding the new one. *)
Lemma applyProposerBoostScore_run w sum :
  let s := store (fc w) in
  index_ok s (heap w) →
  accounted s (heap w) (boostOf (previousProposerBoostRoot s) (previousProposerBoostScore s)) sum →
  0 ≤ previousProposerBoostScore s →
  (∀ r, 0 ≤ sum r ∧ previousProposerBoostScore s + sum r < two64 ∧ boostScore s + sum r < two64) →
  ∃ h, applyProposerBoostScore w = (Ret tt, set_fc (set_store (boosted s) (fc w)) (set_heap h w)) ∧
       same_but_balance (heap w) h ∧
       accounted s h (boostOf (proposerBoostRoot s) (boostScore s)) sum.
Proof.
  intros s Hi Hacc Hsc Hsum.
  destruct (adjustM_spec s (previousProposerBoostRoot s)
    (λ b, b -w previousProposerBoostScore s) w Hi) as (h1 & Hr1 & Hs1 & Hb1).
  assert (index_ok s h1) as Hi1 by (by eapply index_ok_same).
  destruct (adjustM_spec s (proposerBoostRoot s) (λ b, b +w boostScore s) (set_heap h1 w) Hi1)
    as (h2 & Hr2 & Hs2 & Hb2).
  exists h2. split; [|split; [by eapply same_but_balance_trans|]].
  - unfold applyProposerBoostScore. mstep. fold s. rewrite !(lookupRoot_index s (heap w)) by done.
    erewrite mseq_ret.
    2:{ rewrite <- Hr1. unfold adjustM.
        destruct (previousProposerBoostRoot s =? ZeroHash); [by destruct (nodeByRoot s !! _)|].
        destruct (nodeByRoot s !! previousProposerBoostRoot s) as [p|] eqn:Ep; [|done].
        rewrite bool_decide_false; [done|by apply (Hi _ _ Ep)]. }
    erewrite (mseq_ret _ _ _ (boostScore s) (set_heap h2 w)); [done|].
    revert Hr2. unfold adjustM, boostScore.
    destruct (proposerBoostRoot s =? ZeroHash);
      [destruct (nodeByRoot s !! _); unfold mret; intros [= <-]; by destruct w|].
    destruct (nodeByRoot s !! proposerBoostRoot s) as [p|] eqn:Ep.
    + rewrite bool_decide_false by apply (Hi _ _ Ep). cbv zeta. intros Hrun.
      by rewrite (mseq_ret _ _ _ _ _ Hrun).
    + unfold mret. intros [= <-]; by destruct w.
  - intros r Hz Hr. rewrite Hb2, Hb1, Hacc by done. cbn. destruct (Hsum r) as (H0 & H1 & H2).
    pose proof (boostScore_nonneg s).
    assert (r = proposerBoostRoot s → proposerBoostRoot s ≠ 0) by (unfold ZeroHash in *; lia).
    unfold boostOf, ZeroHash in *.
    destruct (r =? previousProposerBoostRoot s) eqn:E1, (r =? proposerBoostRoot s) eqn:E2; bprop; cbn;
      rewrite ?(proj2 (Z.eqb_neq (previousProposerBoostRoot s) 0)) by lia;
      rewrite ?(proj2 (Z.eqb_neq (proposerBoostRoot s) 0)) by lia; cbn;
      rewrite ?wrap64_add_l, ?wrap64_small by (unfold is_u64; lia);
      rewrite ?wrap64_small by (unfold is_u64; lia); lia.
Qed.

(** ** Totals over the tree *)

Lemma Zsum_exchange {A B} (f : A → B → Z) la lb :
  Zsum (map (λ a, Zsum (map (f a) lb)) la) = Zsum (map (λ b, Zsum (map (λ a, f a b) la)) lb).
Proof.
  induction la as [|a la IH]; cbn.
  - induction lb; cbn; lia.
  - rewrite IH, <- Zsum_map_add. done.
Qed.

(** A validator counts for at most one of several distinct roots. *)
Lemma contrib_distinct sl V get bals i rs :
  0 ≤ balanceAt bals i → NoDup rs →
  Zsum (map (λ r, contrib sl V get bals r i) rs) ≤ balanceAt bals i.
Proof.
  intros Hb Hnd. unfold contrib. destruct (V !! i) as [v|]; cycle 1.
  { clear Hnd. induction rs; cbn in *; lia. }
  case_bool_decide. { clear Hnd. induction rs; cbn in *; lia. }
  induction Hnd as [|r rs Hr Hnd IH]; cbn; [done|]. case_if; [|lia]. subst r.
  enough (Zsum (map (λ r, if get v =? r then balanceAt bals i else 0) rs) = 0) by lia.
  clear IH Hnd. induction rs as [|r rs IH]; [done|]. cbn.
  rewrite (proj2 (Z.eqb_neq (get v) r)) by set_solver. rewrite IH by set_solver. done.
Qed.

Lemma voteSum_total sl V get bals rs :
  (∀ i, 0 ≤ balanceAt bals i) → NoDup rs →
  Zsum (map (voteSum sl V get bals) rs) ≤ totalBalance (length V) bals.
Proof.
  intros Hb Hnd. unfold voteSum. rewrite Zsum_exchange. apply Zsum_map_le.
  intros i _. by apply contrib_distinct.
Qed.

Lemma boostOf_total r score rs :
  0 ≤ score → NoDup rs → Zsum (map (boostOf r score) rs) ≤ score.
Proof.
  intros Hs. unfold boostOf. destruct (negb (r =? ZeroHash)).
  - induction 1 as [|x rs Hx Hnd IH]; cbn; [done|]. rewrite andb_true_r. case_if; [|lia]. subst x.
    enough (Zsum (map (λ r', if (r' =? r) && true then score else 0) rs) = 0) by lia.
    clear IH Hnd. induction rs as [|x rs IH]; [done|]. cbn.
    rewrite (proj2 (Z.eqb_neq x r)) by set_solver. rewrite IH by set_solver. done.
  - intros _. induction rs as [|x rs IH]; cbn; [done|]. rewrite andb_false_r. lia.
Qed.

(** Distinct nodes of a well-formed tree have distinct roots. *)
Lemma wf_roots_nodup w t u :
  wf w t → u ∈ subtrees t → NoDup (map (rootOf (heap w)) (tptrs u)).
Proof.
  intros Hwf Hu. apply NoDup_fmap_2_strong; [|by eapply NoDup_subtree; [apply Hwf|]].
  intros p q Hp Hq Heq. assert (∀ p, p ∈ tptrs u → nodeByRoot (store (fc w)) !! rootOf (heap w) p = Some p) as Hlk.
  { intros x Hx. apply (wf_index w t Hwf). split; [eauto with go|].
    destruct (repr_ptr (heap w) t x (wf_repr w t Hwf) ltac:(eauto with go)) as (nd & Hnd & _).
    unfold rootOf. rewrite Hnd. eauto. }
  pose proof (Hlk p Hp). pose proof (Hlk q Hq). congruence.
Qed.

(** ** [Store.head] after the updates *)

(** The store [head] leaves behind. *)
Definition headed (s : Store) (viable : bool) (tip : ptr) : Store :=
  if viable then
    (let s := set_allTipsAreInvalid false s in
     if bool_decide (tip = headNode s) then s else set_headNode tip s)
  else set_allTipsAreInvalid true s.

Definition errNotEligible : error := "head is not eligible".

Lemma head_run w h t jt je ce :
  let s := store (fc w) in
  ctx w = None → repr h t → rewritten (relink je ce) h [t] (heap w) →
  justified_tree s t jt → treeRootNode s = tptr t →
  je = Epoch (justifiedCheckpoint s) → ce = epochAt w 0 →
  let tip := ghostTip h je ce jt in
  head w =
    (if leads h je ce jt then Ret (rootOf (heap w) tip) else Err errNotEligible,
     set_fc (set_store (headed s (leads h je ce jt) tip) (fc w)) (set_ticks (S (ticks w)) w)).
Proof.
  intros s Hctx Hr Hrew [Hjt Hj] Htree -> -> tip. unfold head.
  mstep with (checkCtx_eq w Hctx). mstep. fold s.
  erewrite (mseq_ret _ _ w (tptr jt) w).
  2:{ destruct Hj as [->|(-> & -> & ->)]; [done|]. rewrite Z.eqb_refl, Htree. done. }
  set (je := Epoch (justifiedCheckpoint s)) in *. set (ce := epochAt w 0) in *.
  assert (repr h jt) as Hrj by (by eapply repr_subtree).
  destruct Hrew as [_ Hu]. cbn in Hu. rewrite app_nil_r in Hu.
  destruct (repr_lookup h jt Hrj) as (nd & Hnd & _).
  assert (heap w !! tptr jt = Some (relink je ce h jt nd)) as Hjw by (by rewrite Hu, Hnd).
  pose proof (ghostTip_in h je ce jt) as Hin.
  destruct (repr_ptr h jt _ Hrj Hin) as (ndt & Hndt & Hnilt).
  destruct (tptrs_subtree jt _ Hin) as (u & Hut & Hup).
  assert (heap w !! tip = Some (relink je ce h u ndt)) as Htw.
  { unfold tip. rewrite <- Hup, Hu by eauto with go. by rewrite Hup, Hndt. }
  mstep with (deref_eq _ _ _ Hjw). cbv zeta.
  assert ((if bool_decide (bestDescendant (relink je ce h jt nd) = nilptr) then tptr jt
           else bestDescendant (relink je ce h jt nd)) = tip) as ->.
  { unfold tip, ghostTip in *. cbn. destruct (bestTip h je ce jt) as [q|]; cbn in *.
    - by rewrite bool_decide_false.
    - by rewrite bool_decide_true. }
  unfold currentEpochM. rewrite mseq_assoc. mstep. rewrite mseq_assoc. fold s.
  rewrite (mseq_ret timeNow _ w (clock w (ticks w)) (set_ticks (S (ticks w)) w) eq_refl). mstep.
  replace (EpochsSinceGenesis (genesisTime s) (clock w (ticks w))) with ce
    by (unfold ce, epochAt; by rewrite Nat.add_0_r).
  rewrite (mseq_ret _ _ _ _ _ (deref_eq _ _ (set_ticks (S (ticks w)) w) Htw)).
  assert (viableForHead (relink je ce h u ndt) je ce = leads h je ce jt) as ->.
  { unfold leads, viableAt. fold tip. unfold tip. rewrite Hndt. done. }
  unfold headed. destruct (leads h je ce jt); cbn [negb].
  - mstep. cbn [set_fc fc set_store store]. unfold rootOf. rewrite Htw.
    cbn [headNode set_allTipsAreInvalid]. fold s. by case_bool_decide.
  - mstep. done.
Qed.

(** ** The whole of [Head] *)

Definition afterHead (w : World) (h : gmap ptr Node) (viable : bool) (tip : ptr) : World :=
  let s := store (fc w) in
  set_fc (set_store (headed (boosted s) viable tip)
            (set_balances (justifiedBalances (fc w))
               (set_votes (rotated (slashedIndices s) (length (votes (fc w))) (votes (fc w))) (fc w))))
    (set_ticks (S (S (ticks w))) (set_heap h w)).

Lemma Head_run w t jt :
  head_ready w t → justified_tree (store (fc w)) t jt → epochAt w 0 = epochAt w 1 →
  let je := Epoch (justifiedCheckpoint (store (fc w))) in
  let ce := epochAt w 0 in
  ∃ h2 h3 h4,
    same_but_balance (heap w) h2 ∧
    accounted (store (fc w)) h2
      (boostOf (proposerBoostRoot (store (fc w))) (boostScore (store (fc w))))
      (voteSum (slashedIndices (store (fc w))) (votes (fc w)) nextRoot (justifiedBalances (fc w))) ∧
    rewritten reweigh h2 [t] h3 ∧ rewritten (relink je ce) h3 [t] h4 ∧
    Head w = (if leads h3 je ce jt then Ret (rootOf h4 (ghostTip h3 je ce jt)) else Err errNotEligible,
              afterHead w h4 (leads h3 je ce jt) (ghostTip h3 je ce jt)).
Proof.
  intros Hrdy Hjt Hep je ce. destruct Hrdy as [Hwf Hctx Hroots Hold Hnew Hacc Hsc Hfit Hfit'].
  pose proof (wf_index_ok w t Hwf) as Hi. set (s := store (fc w)) in *.
  assert (∀ r, 0 ≤ boostOf (previousProposerBoostRoot s) (previousProposerBoostScore s) r ∧
    boostOf (previousProposerBoostRoot s) (previousProposerBoostScore s) r +
    totalBalance (length (votes (fc w))) (balances (fc w)) +
    totalBalance (length (votes (fc w))) (justifiedBalances (fc w)) < two64) as Hbase.
  { intros r. pose proof (boostOf_range (previousProposerBoostRoot s) _ r Hsc). lia. }
  destruct (updateBalances_run w _ Hi Hold Hnew Hbase Hacc) as (h1 & Hrun1 & Hs1 & Hacc1).
  set (f1 := set_balances _ _) in Hrun1. set (w1 := set_fc f1 (set_heap h1 w)) in Hrun1.
  destruct (applyProposerBoostScore_run w1 _ (index_ok_same _ _ _ Hs1 Hi) Hacc1 Hsc)
    as (h2 & Hrun2 & Hs2 & Hacc2).
  { intros r. cbn -[boostScore].
    pose proof (voteSum_nonneg (slashedIndices s) (votes (fc w)) nextRoot (justifiedBalances (fc w)) r Hnew).
    pose proof (voteSum_le_total (slashedIndices s) (votes (fc w)) nextRoot (justifiedBalances (fc w)) r Hnew).
    assert (0 ≤ totalBalance (length (votes (fc w))) (balances (fc w))).
    { apply Zsum_nonneg, Forall_forall. intros z (i & -> & _)%list_elem_of_fmap. apply Hold. }
    fold s. split_and!; lia. }
  assert (same_but_balance (heap w) h2) as Hs12 by (by eapply same_but_balance_trans).
  assert (repr h2 t) as Hr2 by (eapply same_but_balance_repr; [done|apply Hwf]).
  pose proof (wf_nodup w t Hwf) as Hnd.
  set (w2 := set_fc (set_store (boosted s) f1) (set_heap h2 w)).
  assert (theight t ≤ S (size h2))%nat as Hh by (pose proof (repr_fuel h2 t Hr2 Hnd); lia).
  destruct (weighs_all (S (size h2)) t Hh w2 Hctx Hr2 Hnd) as (h3 & Hrun3 & Hrew3).
  assert (repr h3 t) as Hr3 by (by apply (rewritten_repr reweigh ltac:(done) _ _ _ _ Hrew3)).
  set (w3 := set_ticks (S (ticks w)) (set_heap h3 w2)).
  destruct (relinks_all je (Epoch (finalizedCheckpoint s)) ce (S (size h2)) t Hh w3 Hctx Hr3 Hnd)
    as (h4 & Hrun4 & Hrew4).
  exists h2, h3, h4. split_and!; [done..|].
  unfold Head. mstep with (wrapM_ret "could not update balances" _ _ _ _ Hrun1).
  mstep with (wrapM_ret "could not apply proposer boost score" _ _ _ _ Hrun2).
  mstep. mstep. cbn [store fc set_fc set_store heap set_heap treeRootNode boosted
    set_previousProposerBoostScore set_previousProposerBoostRoot].
  change (treeRootNode (store (fc w1))) with (treeRootNode s). rewrite (wf_root w t Hwf : treeRootNode s = tptr t).
  rewrite (mseq_ret _ _ _ _ _ (wrapM_ret "could not apply weight changes" _ _ _ _ Hrun3)).
  rewrite (mseq_ret currentEpochM _ (set_heap h3 w2) ce w3).
  2:{ unfold ce, epochAt. rewrite Nat.add_0_r. done. }
  rewrite (mseq_ret _ _ _ _ _ (wrapM_ret "could not update best descendant" _ _ _ _ Hrun4)).
  rewrite (head_run (set_heap h4 w3) h3 t jt je ce);
    [done|done|done|done|exact Hjt|apply Hwf|done|].
  unfold ce. rewrite Hep. unfold epochAt. cbn. by rewrite Nat.add_0_r, Nat.add_1_r.
Qed.

Lemma voteSum_rotated sl V bals r :
  voteSum sl (rotated sl (length V) V) currentRoot bals r = voteSum sl V nextRoot bals r.
Proof.
  unfold voteSum, rotated. rewrite length_imap. apply Zsum_map_ext. intros i Hi%elem_of_seq.
  unfold contrib. rewrite list_lookup_imap. destruct (V !! i) as [v|]; [|done]. cbn.
  unfold rotate1. rewrite (bool_decide_true (i < length V)%nat) by lia. cbn.
  by case_bool_decide.
Qed.

(** The greedy descent of LMD-GHOST, from [t] down to [u]. *)
Inductive greedy (h : gmap ptr Node) (je ce : Z) : tree → tree → Prop :=
| greedy_stop t : (∀ c, c ∈ tchildren t → leads h je ce c = false) → greedy h je ce t t
| greedy_step t c u :
    c ∈ tchildren t → leads h je ce c = true →
    (∀ c', c' ∈ tchildren t → leads h je ce c' = true →
           cand_le (candOf h je ce c') (candOf h je ce c)) →
    greedy h je ce c u → greedy h je ce t u.

Lemma ghostTip_greedy h je ce t : ∃ u, greedy h je ce t u ∧ tptr u = ghostTip h je ce t.
Proof.
  induction t as [p cs IH] using tree_ind'.
  destruct (ghostTip_step h je ce (TNode p cs)) as [[-> Hno]|(c & Hc & Hl & Hmax & ->)].
  - eexists. split; [by apply greedy_stop|done].
  - rewrite Forall_forall in IH. destruct (IH c Hc) as (u & Hu & <-).
    exists u. split; [by eapply greedy_step|done].
Qed.

(** What a call of [Head] does, in terms of the state [w'] it leaves: the
    weights are the latest-message scores of the subtrees, the result is the
    block at the end of the greedy path from the justified block if that block
    is viable, and the vote accounting holds for the next call. *)
Definition lmd_ghost (w : World) (t jt : tree) (res : outcome Z) (w' : World) : Prop :=
  let s := store (fc w) in let s' := store (fc w') in
  let je := Epoch (justifiedCheckpoint s) in let ce := epochAt w 0 in
  (∀ u, u ∈ subtrees t →
        weightOf (heap w') (tptr u) = Zsum (map (λ p, lmdScore w (rootOf (heap w) p)) (tptrs u))) ∧
  (∃ u, greedy (heap w') je ce jt u ∧
        allTipsAreInvalid s' = negb (viableAt (heap w') je ce (tptr u)) ∧
        (if viableAt (heap w') je ce (tptr u)
         then res = Ret (rootOf (heap w') (tptr u)) ∧ headNode s' = tptr u
         else res = Err errNotEligible ∧ headNode s' = headNode s)) ∧
  wf w' t ∧
  accounted s' (heap w')
    (boostOf (previousProposerBoostRoot s') (previousProposerBoostScore s'))
    (voteSum (slashedIndices s') (votes (fc w')) currentRoot (balances (fc w'))).

Lemma headed_keeps s v tip :
  nodeByRoot (headed s v tip) = nodeByRoot s ∧ treeRootNode (headed s v tip) = treeRootNode s ∧
  slashedIndices (headed s v tip) = slashedIndices s ∧
  previousProposerBoostRoot (headed s v tip) = previousProposerBoostRoot s ∧
  previousProposerBoostScore (headed s v tip) = previousProposerBoostScore s ∧
  allTipsAreInvalid (headed s v tip) = negb v ∧
  headNode (headed s v tip) = (if v then tip else headNode s).
Proof. unfold headed. destruct v; [case_bool_decide as E; cbn in E|]; done. Qed.

(** The weight the update leaves is the exact sum of the scores below. *)
Lemma weight_is_score w t h2 u :
  head_ready w t → same_but_balance (heap w) h2 →
  accounted (store (fc w)) h2
    (boostOf (proposerBoostRoot (store (fc w))) (boostScore (store (fc w))))
    (voteSum (slashedIndices (store (fc w))) (votes (fc w)) nextRoot (justifiedBalances (fc w))) →
  u ∈ subtrees t →
  wt h2 u = Zsum (map (λ p, lmdScore w (rootOf (heap w) p)) (tptrs u)).
Proof.
  intros Hrdy Hs2 Hacc Hu. pose proof (hr_wf w t Hrdy) as Hwf.
  assert (repr h2 u) as Hr2.
  { eapply same_but_balance_repr; [done|]. eapply repr_subtree; [apply Hwf|done]. }
  assert (∀ p, p ∈ tptrs u → balanceOf h2 p = lmdScore w (rootOf (heap w) p)) as Hbal.
  { intros p Hp. destruct (repr_ptr (heap w) t p (wf_repr w t Hwf) ltac:(eauto with go)) as (nd & Hnd & _).
    assert (nodeByRoot (store (fc w)) !! root nd = Some p) as Hix.
    { apply (wf_index w t Hwf). split; eauto with go. }
    pose proof (Hacc (root nd) (hr_roots w t Hrdy p nd ltac:(eauto with go) Hnd) ltac:(eauto)) as Hb.
    unfold bal in Hb. rewrite Hix in Hb. unfold rootOf, lmdScore. by rewrite Hnd. }
  rewrite wt_sum; [|done|].
  2:{ intros p nd2 Hp Hnd2. destruct (repr_ptr (heap w) t p (wf_repr w t Hwf) ltac:(eauto with go)) as (nd & Hnd & _).
      destruct (same_but_balance_lookup _ _ p nd Hs2 Hnd) as (b & Hb). simplify_eq.
      eapply (hr_roots w t Hrdy p nd); eauto with go. }
  rewrite (Zsum_map_ext _ _ _ Hbal). apply wrap64_small. unfold lmdScore.
  pose proof (wf_roots_nodup w t u Hwf Hu) as Hnd.
  rewrite <- (map_map (rootOf (heap w)) (λ r, boostOf _ _ r + voteSum _ _ _ _ r)).
  set (rs := map (rootOf (heap w)) (tptrs u)) in *. rewrite Zsum_map_add.
  pose proof (boostScore_nonneg (store (fc w))) as Hsc.
  pose proof (boostOf_total (proposerBoostRoot (store (fc w))) _ rs Hsc Hnd).
  pose proof (voteSum_total (slashedIndices (store (fc w))) (votes (fc w)) nextRoot _ rs (hr_new w t Hrdy) Hnd).
  pose proof (hr_fits' w t Hrdy).
  assert (0 ≤ Zsum (map (boostOf (proposerBoostRoot (store (fc w))) (boostScore (store (fc w)))) rs)).
  { apply Zsum_nonneg, Forall_forall. intros z (r & -> & _)%list_elem_of_fmap. by apply boostOf_range. }
  assert (0 ≤ Zsum (map (voteSum (slashedIndices (store (fc w))) (votes (fc w)) nextRoot
                          (justifiedBalances (fc w))) rs)).
  { apply Zsum_nonneg, Forall_forall. intros z (r & -> & _)%list_elem_of_fmap.
    apply voteSum_nonneg, (hr_new w t Hrdy). }
  unfold is_u64. lia.
Qed.
End head_spec.

(** ** Properties *)

(** C1. [Head] is LMD-GHOST: on a well-formed store, with a live context and both
    clock readings in one epoch, it returns the block reached from the
    justified block by always moving to the child with the greatest (weight,
    root) among those that lead to a viable block; every node's weight is then
    exactly the sum, over its subtree, of the justified balances of the
    unslashed validators voting there plus the proposer boost.  If the block
    reached is not viable the call fails and flags all tips as invalid.  The
    tree stays well formed and its balances account for the rotated votes. *)
Theorem Head_lmd_ghost `{BeaconChainConfig} w t jt :
  head_ready w t → justified_tree (store (fc w)) t jt → epochAt w 0 = epochAt w 1 →
  ∃ res w', Head w = (res, w') ∧ lmd_ghost w t jt res w'.
Proof.
  intros Hrdy Hjt Hep.
  destruct (Head_run w t jt Hrdy Hjt Hep) as (h2 & h3 & h4 & Hs2 & Hacc & Hrew3 & Hrew4 & Hrun).
  set (je := Epoch (justifiedCheckpoint (store (fc w)))) in *. set (ce := epochAt w 0) in *.
  pose proof (hr_wf w t Hrdy) as Hwf.
  assert (∀ p, headKey <$> h4 !! p = headKey <$> h3 !! p) as Hkey.
  { intros p. by apply (rewritten_field (relink je ce) headKey h3 [t]). }
  assert (ghostTip h4 je ce jt = ghostTip h3 je ce jt ∧ leads h4 je ce jt = leads h3 je ce jt) as [Htip Hlead].
  { assert (ghostTip h4 je ce jt = ghostTip h3 je ce jt) as E.
    { unfold ghostTip. by rewrite (bestTip_ext h4 h3) by auto. }
    split; [done|]. unfold leads. rewrite E. by apply headKey_eq. }
  rewrite <- Htip, <- Hlead in Hrun. eexists _, _. split; [exact Hrun|].
  set (v := leads h4 je ce jt). set (tip := ghostTip h4 je ce jt).
  destruct (headed_keeps (boosted (store (fc w))) v tip) as (K1 & K2 & K3 & K4 & K5 & K6 & K7).
  unfold lmd_ghost, afterHead. cbn [fc store set_fc set_store heap set_heap set_ticks votes
    balances set_votes set_balances]. rewrite K3, K4, K5, K6, K7. split_and!.
  - intros u Hu. rewrite <- (weight_is_score w t h2 u Hrdy Hs2 Hacc Hu).
    destruct (headKey_eq h4 h3 (tptr u) je ce (Hkey _)) as (-> & _).
    destruct Hrew3 as [_ Hu3]. unfold weightOf. rewrite Hu3 by (cbn; rewrite app_nil_r; done).
    destruct (repr_lookup h2 u) as (nd & -> & _); [|done].
    eapply same_but_balance_repr; [done|]. eapply repr_subtree; [apply Hwf|done].
  - destruct (ghostTip_greedy h4 je ce jt) as (u & Hg & Hu). exists u. split; [done|].
    rewrite Hu. fold je ce. fold tip. change (viableAt h4 je ce tip) with v.
    split; [done|]. by destruct v.
  - eapply wf_same_skeleton; [exact Hwf| |done|exact K2|exact K1].
    intros p. cbn. rewrite (rewritten_field (relink je ce) skeleton h3 [t] h4 p) by done.
    rewrite (rewritten_field reweigh skeleton h2 [t] h3 p) by done.
    by apply (same_but_balance_field skeleton).
  - intros r Hz Hr. rewrite K1 in Hr. unfold bal. rewrite K1. cbn [boosted].
    rewrite voteSum_rotated. change (slashedIndices (boosted (store (fc w)))) with (slashedIndices (store (fc w))).
    pose proof (Hacc r Hz Hr) as Hb. unfold bal in Hb.
    change (nodeByRoot (boosted (store (fc w)))) with (nodeByRoot (store (fc w))).
    destruct (nodeByRoot (store (fc w)) !! r) as [p|]; [|exact Hb].
    refine (eq_trans _ Hb). unfold balanceOf.
    pose proof (rewritten_field (relink je ce) balance h3 [t] h4 p ltac:(done) Hrew4) as E4.
    pose proof (rewritten_field reweigh balance h2 [t] h3 p ltac:(done) Hrew3) as E3.
    rewrite E3 in E4. destruct (h4 !! p), (h2 !! p); cbn in E4; congruence.
Qed.

(** A store with a justified block and two competing children; one validator
    votes for each child and a third one moves its vote to the second. *)
Definition demoNode (r slot' : Z) (par : ptr) (cs : list ptr) (b : Z) : Node :=
  mkNode slot' r (r + 1000) par nilptr cs 0 0 0 0 b 0 nilptr false 0.

Definition demoHeap : gmap ptr Node :=
  list_to_map [(1%nat, demoNode 10 32 nilptr [2%nat; 3%nat] 0);
               (2%nat, demoNode 20 33 1 [] 64);
               (3%nat, demoNode 30 34 1 [] 0)].

Definition demoStore : Store :=
  mkStore (mkCheckpoint 0 10) (mkCheckpoint 0 10) (mkCheckpoint 0 10) (mkCheckpoint 0 10)
    (mkCheckpoint 0 10) 0 0 0 0 1 1 (list_to_map [(10, 1%nat); (20, 2%nat); (30, 3%nat)])
    ∅ ∅ 0 0 3 (replicate 32 0) false.

Definition demoWorld : World :=
  mkWorld (mkForkChoice demoStore [mkVote 20 20 1; mkVote 20 30 2; mkVote 0 30 2]
             [32; 32; 32] [32; 31; 32] 3 None)
    demoHeap 4 (λ _, 480000000000) 0 None.

Definition demoTree : tree := TNode 1 [TNode 2 []; TNode 3 []].

Lemma balanceAt_nonneg l i : Forall (λ b, 0 ≤ b) l → 0 ≤ balanceAt l i.
Proof.
  intros Hl. unfold balanceAt. destruct (l !! i) as [b|] eqn:E; [|done].
  by eapply Forall_lookup_1 in E.
Qed.

Lemma demo_ready : head_ready (H := mainnetBeaconConfig) demoWorld demoTree.
Proof.
  constructor.
  - apply wfb_sound. vm_compute. reflexivity.
  - reflexivity.
  - intros p nd Hp Hnd. assert (p = 1 ∨ p = 2 ∨ p = 3)%nat as Hc by (cbn in Hp; set_solver).
    destruct Hc as [->|[->| ->]]; vm_compute in Hnd; injection Hnd as <-; done.
  - intros i. apply balanceAt_nonneg. repeat constructor; lia.
  - intros i. apply balanceAt_nonneg. repeat constructor; lia.
  - intros r Hz [p Hp]. cbn [demoWorld fc store demoStore nodeByRoot] in Hp.
    apply elem_of_list_to_map_2 in Hp.
    assert ((r, p) = (10, 1%nat) ∨ (r, p) = (20, 2%nat) ∨ (r, p) = (30, 3%nat)) as Hc by set_solver.
    destruct Hc as [[= -> ->]|[[= -> ->]|[= -> ->]]]; vm_compute; reflexivity.
  - vm_compute. discriminate.
  - vm_compute. reflexivity.
  - vm_compute. reflexivity.
Qed.

Lemma Head_lmd_ghost_witness :
  fst (Head (H := mainnetBeaconConfig) demoWorld) = Ret 30 ∧
  ∃ res w', Head (H := mainnetBeaconConfig) demoWorld = (res, w') ∧
            lmd_ghost (H := mainnetBeaconConfig) demoWorld demoTree demoTree res w'.
Proof.
  split; [vm_compute; reflexivity|].
  apply (@Head_lmd_ghost mainnetBeaconConfig demoWorld demoTree demoTree).
  - apply demo_ready.
  - split; [cbn; set_solver|]. left. vm_compute. reflexivity.
  - vm_compute. reflexivity.
Defined.
