(* ===== verification/ForkAttest.v ===== *)
(** * Attestations and slashings

    [ProcessAttestation] and [InsertSlashedIndex] of [forkchoice.go] change the
    votes and the equivocation set.  The theorems say that the vote kept for a
    validator is its latest message, and that both operations keep the balances
    of the nodes in agreement with the votes, so that [Head] may follow. *)

From S2P Require Import Prelude MathHelper Primitives SlotTime ForkTypes ForkStore.
From S2P Require Import ForkStore ForkChoice ForkTree ForkGhost ForkVotes ForkHead.

(** ** Reference definitions *)

(** The vote of validator [i]; entries are made on demand. *)
Definition voteOf (V : list Vote) (i : nat) : Vote := default zeroVote (V !! i).

Definition blank (v : Vote) : bool := (nextRoot v =? ZeroHash) && (currentRoot v =? ZeroHash).

(** The vote that a message for [blockRoot] with target [te] leaves. *)
Definition voteAfter (blockRoot te : Z) (v : Vote) : Vote :=
  if blank v || (nextEpoch v <? te) then mkVote (currentRoot v) blockRoot te else v.

(** An attestation as fork choice receives it. *)
Record attMsg := mkAtt { attIndices : list nat; attRoot : Z; attTarget : Z }.

(** [a] is validator [i]'s latest message among [l]: a message of maximal target
    epoch, the first one received with it. *)
Definition latest_message (l : list attMsg) (i : nat) (a : attMsg) : Prop :=
  ∃ l1 l2, l = l1 ++ a :: l2 ∧ i ∈ attIndices a ∧
    (∀ b, b ∈ l1 → i ∈ attIndices b → attTarget b < attTarget a) ∧
    (∀ b, b ∈ l2 → i ∈ attIndices b → attTarget b ≤ attTarget a).

(** ** [ProcessAttestation] *)

Lemma voteOf_grow l i j : voteOf (growVotes l i) j = voteOf l j.
Proof.
  unfold voteOf, growVotes. destruct (decide (j < length l)%nat) as [Hlt|Hge].
  - by rewrite lookup_app_l.
  - rewrite lookup_app_r, (lookup_ge_None_2 l j) by lia.
    destruct (replicate _ zeroVote !! _) as [v|] eqn:E; [|done].
    by apply lookup_replicate in E as [-> _].
Qed.

Lemma growVotes_length l i : length (growVotes l i) = Nat.max (length l) (S i).
Proof. unfold growVotes. rewrite length_app, length_replicate. lia. Qed.

Lemma processVote_voteOf br te l i j :
  voteOf (processVote br te l i) j = if Nat.eqb j i then voteAfter br te (voteOf l j) else voteOf l j.
Proof.
  unfold processVote. pose proof (growVotes_length l i) as Hlen.
  destruct (growVotes l i !! i) as [v|] eqn:E; [|apply lookup_ge_None in E; lia].
  assert (voteOf l i = v) as Hv by (rewrite <- (voteOf_grow l i i); unfold voteOf; by rewrite E).
  fold (blank v). unfold voteAfter. destruct (Nat.eqb_spec j i) as [->|Hne].
  - rewrite Hv. destruct (blank v || _).
    + unfold voteOf. rewrite list_lookup_insert_eq by lia. done.
    + unfold voteOf. by rewrite E.
  - rewrite <- (voteOf_grow l i j). destruct (blank v || _); [|done].
    unfold voteOf. by rewrite list_lookup_insert_ne.
Qed.

Lemma voteAfter_idemp br te v : voteAfter br te (voteAfter br te v) = voteAfter br te v.
Proof.
  unfold voteAfter at 2 3. destruct (blank v || (nextEpoch v <? te)) eqn:E.
  - unfold voteAfter. by match goal with |- context [if ?b then _ else _] => destruct b end.
  - unfold voteAfter. by rewrite E.
Qed.

(** Repeated indices have no effect. *)
Lemma processVotes_voteOf br te idx l j :
  voteOf (fold_left (processVote br te) idx l) j =
  if bool_decide (j ∈ idx) then voteAfter br te (voteOf l j) else voteOf l j.
Proof.
  revert l. induction idx as [|i idx IH]; intros l; [done|]. cbn [fold_left].
  rewrite IH, processVote_voteOf. destruct (Nat.eqb_spec j i) as [->|Hne].
  - rewrite (bool_decide_eq_true_2 (i ∈ i :: idx)) by set_solver.
    case_bool_decide; [apply voteAfter_idemp|done].
  - by rewrite (bool_decide_ext (j ∈ i :: idx) (j ∈ idx)) by set_solver.
Qed.

(** ** The sum of the votes depends on the votes only *)

Lemma contrib_voteOf sl V get bals r i :
  get zeroVote ≠ r →
  contrib sl V get bals r i =
  if bool_decide (Z.of_nat i ∈ sl) then 0
  else if get (voteOf V i) =? r then balanceAt bals i else 0.
Proof.
  intros Hz. unfold contrib, voteOf. destruct (V !! i); [done|].
  cbn [default]. replace (get zeroVote =? r) with false by lia. by case_bool_decide.
Qed.

Lemma contrib_beyond sl V get bals r i : (length V ≤ i)%nat → contrib sl V get bals r i = 0.
Proof. intros Hi. unfold contrib. by rewrite (lookup_ge_None_2 V i). Qed.

Lemma Zsum_zero {A} (f : A → Z) l : (∀ x, x ∈ l → f x = 0) → Zsum (map f l) = 0.
Proof.
  induction l as [|x l IH]; intros Hf; [done|]. cbn. rewrite (Hf x), IH; [done| |]; set_solver.
Qed.

(** Summing over more indices adds nothing. *)
Lemma voteSum_upto sl V get bals r n :
  (length V ≤ n)%nat → voteSum sl V get bals r = Zsum (map (contrib sl V get bals r) (seq 0 n)).
Proof.
  intros Hn. unfold voteSum. replace n with (length V + (n - length V))%nat by lia.
  rewrite seq_app, map_app, Zsum_app, (Zsum_zero _ (seq (0 + length V) _)); [lia|].
  intros i Hi%elem_of_seq. apply contrib_beyond. lia.
Qed.

Lemma voteSum_ext sl V V' (get : Vote → Z) bals r :
  get zeroVote ≠ r → (∀ i, get (voteOf V i) = get (voteOf V' i)) →
  voteSum sl V get bals r = voteSum sl V' get bals r.
Proof.
  intros Hz He. set (n := Nat.max (length V) (length V')).
  rewrite (voteSum_upto sl V get bals r n), (voteSum_upto sl V' get bals r n) by lia.
  apply Zsum_map_ext. intros i _. by rewrite !contrib_voteOf, He.
Qed.

(** ** Properties *)

(** The totals fit in 64 bits however many validators have voted. *)
Definition totals_fit `{BeaconChainConfig} (w : World) : Prop :=
  ∀ n, previousProposerBoostScore (store (fc w)) + totalBalance n (balances (fc w)) +
       totalBalance n (justifiedBalances (fc w)) < two64 ∧
       boostScore (store (fc w)) + totalBalance n (justifiedBalances (fc w)) < two64.

(** [ProcessAttestation] replaces the pending vote of exactly the listed
    validators that have none or an older target, leaves every other vote, keeps
    the votes already counted, and keeps the store ready for [Head]. *)
Theorem ProcessAttestation_correct `{BeaconChainConfig} idx br te w t :
  head_ready w t → totals_fit w →
  ∃ V', ProcessAttestation idx br te w = (Ret tt, set_fc (set_votes V' (fc w)) w) ∧
    (∀ i, voteOf V' i =
          if bool_decide (i ∈ idx) then voteAfter br te (voteOf (votes (fc w)) i)
          else voteOf (votes (fc w)) i) ∧
    (∀ i, currentRoot (voteOf V' i) = currentRoot (voteOf (votes (fc w)) i)) ∧
    head_ready (set_fc (set_votes V' (fc w)) w) t.
Proof.
  intros Hr Hfit. set (V' := fold_left (processVote br te) idx (votes (fc w))).
  assert (∀ i, voteOf V' i = if bool_decide (i ∈ idx) then voteAfter br te (voteOf (votes (fc w)) i)
                             else voteOf (votes (fc w)) i) as Hv by (intros; apply processVotes_voteOf).
  assert (∀ i, currentRoot (voteOf V' i) = currentRoot (voteOf (votes (fc w)) i)) as Hc.
  { intros i. rewrite Hv. unfold voteAfter. case_bool_decide; [|done]. by destruct (blank _ || _). }
  exists V'. split_and!; [done|done|done|]. destruct Hr as [Hwf Hctx Hroots Hold Hnew Hacc Hsc Hf1 Hf2].
  constructor; try done; try apply Hfit.
  - by apply (wf_same_skeleton w).
  - intros r Hz Hr. etransitivity; [apply (Hacc r Hz Hr)|]. f_equal. by apply voteSum_ext.
Qed.

(** Running a sequence of attestations. *)
Definition processAll (l : list attMsg) : M unit :=
  mfold (λ _ a, ProcessAttestation (attIndices a) (attRoot a) (attTarget a)) l tt.

Lemma processAll_run l w :
  processAll l w = (Ret tt, set_fc (set_votes
    (fold_left (λ V a, fold_left (processVote (attRoot a) (attTarget a)) (attIndices a) V) l (votes (fc w)))
    (fc w)) w).
Proof.
  revert w. induction l as [|a l IH]; intros w; [by destruct w as [[]]|]. unfold processAll in *.
  cbn [mfold fold_left]. unfold ProcessAttestation at 1. mstep. by rewrite IH.
Qed.

(** What a validator's entry looks like after the messages [l]. *)
Definition tracks (l : list attMsg) (i : nat) (v : Vote) : Prop :=
  ((∀ a, a ∈ l → i ∉ attIndices a) ∧ v = zeroVote) ∨
  (∃ a, latest_message l i a ∧ v = mkVote ZeroHash (attRoot a) (attTarget a)).

Lemma tracks_snoc l i v a :
  (∀ b, b ∈ l ++ [a] → attRoot b ≠ ZeroHash) → tracks l i v →
  tracks (l ++ [a]) i (if bool_decide (i ∈ attIndices a)
                       then voteAfter (attRoot a) (attTarget a) v else v).
Proof.
  intros Hnz Ht. case_bool_decide as Hi.
  - destruct Ht as [[Hno ->]|(b & (l1 & l2 & -> & Hb & H1 & H2) & ->)].
    { right. exists a. split; [|done]. exists l, []. split_and!; [done|done|set_solver|set_solver]. }
    assert (attRoot b ≠ ZeroHash) as Hbz by (apply Hnz; set_solver).
    unfold voteAfter, blank. cbn. replace (attRoot b =? ZeroHash) with false by lia.
    cbn. destruct (Z.ltb_spec (attTarget b) (attTarget a)) as [Hlt|Hge]; right.
    + exists a. split; [|done]. exists (l1 ++ b :: l2), []. split_and!; [done|done| |set_solver].
      intros c [Hc|[->|Hc]%elem_of_cons]%elem_of_app Hic; [|done|].
      * specialize (H1 c Hc Hic). lia.
      * specialize (H2 c Hc Hic). lia.
    + exists b. split; [|done]. exists l1, (l2 ++ [a]). split_and!; [by rewrite <- app_assoc|done|done|].
      intros c [Hc| ->%list_elem_of_singleton]%elem_of_app Hic; [by apply H2|done].
  - destruct Ht as [[Hno ->]|(b & (l1 & l2 & -> & Hb & H1 & H2) & ->)]; [left|right].
    + split; [|done]. intros c [Hc| ->%list_elem_of_singleton]%elem_of_app; [by apply Hno|done].
    + exists b. split; [|done]. exists l1, (l2 ++ [a]). split_and!; [by rewrite <- app_assoc|done|done|].
      intros c [Hc| ->%list_elem_of_singleton]%elem_of_app Hic; [by apply H2|done].
Qed.

(** C15. The votes are the latest messages: after any sequence of attestations
    (for blocks with a root) on a fork choice without votes, every validator's
    pending vote is its first message of maximal target epoch, or blank when no
    attestation names it. *)
Theorem latest_message_driven l w :
  votes (fc w) = [] → (∀ a, a ∈ l → attRoot a ≠ ZeroHash) →
  ∃ V', processAll l w = (Ret tt, set_fc (set_votes V' (fc w)) w) ∧
    ∀ i, tracks l i (voteOf V' i).
Proof.
  intros H0 Hnz. eexists. split; [apply processAll_run|]. intros i. rewrite H0.
  induction l as [|a l IH] using rev_ind; [by left; split; [set_solver|]|].
  rewrite fold_left_app. cbn [fold_left]. rewrite processVotes_voteOf.
  apply tracks_snoc; [done|]. apply IH. set_solver.
Qed.

(** ** [InsertSlashedIndex] *)

Lemma seq_split i n : (i < n)%nat → seq 0 n = seq 0 i ++ i :: seq (S i) (n - S i).
Proof.
  intros Hi. replace n with (i + S (n - S i))%nat at 1 by lia. by rewrite seq_app.
Qed.

(** Slashing a validator removes its contribution. *)
Lemma voteSum_slash sl V get bals r i :
  Z.of_nat i ∉ sl →
  voteSum ({[Z.of_nat i]} ∪ sl) V get bals r = voteSum sl V get bals r - contrib sl V get bals r i.
Proof.
  intros Hi. set (n := Nat.max (length V) (S i)).
  rewrite (voteSum_upto sl V get bals r n), (voteSum_upto ({[Z.of_nat i]} ∪ sl) V get bals r n) by lia.
  rewrite (seq_split i n) by lia. rewrite !map_app, !Zsum_app. cbn [map Zsum].
  assert (∀ j, j ≠ i → contrib ({[Z.of_nat i]} ∪ sl) V get bals r j = contrib sl V get bals r j) as Hne.
  { intros j Hj. unfold contrib. destruct (V !! j); [|done].
    rewrite (bool_decide_ext (Z.of_nat j ∈ {[Z.of_nat i]} ∪ sl) (Z.of_nat j ∈ sl)); [done|].
    rewrite elem_of_union, elem_of_singleton. split; [intros [?|?]; [lia|done]|auto]. }
  rewrite (Zsum_map_ext _ (contrib sl V get bals r) (seq 0 i)), (Zsum_map_ext _ (contrib sl V get bals r) (seq (S i) _))
    by (intros j Hj%elem_of_seq; apply Hne; lia).
  assert (contrib ({[Z.of_nat i]} ∪ sl) V get bals r i = 0) as ->; [|lia].
  unfold contrib. destruct (V !! i); [|done]. by rewrite bool_decide_eq_true_2 by set_solver.
Qed.

Lemma contrib_le_voteSum sl V get bals r i :
  (∀ j, 0 ≤ balanceAt bals j) → contrib sl V get bals r i ≤ voteSum sl V get bals r.
Proof.
  intros Hb. set (n := Nat.max (length V) (S i)). rewrite (voteSum_upto _ _ _ _ _ n) by lia.
  apply (Zsum_map_elem (contrib sl V get bals r)); [intros; by apply contrib_bounds|].
  apply elem_of_seq. lia.
Qed.

Lemma lookup_adjustM s h r g w :
  index_ok s h → nodeByRoot s !! ZeroHash = None →
  match lookupRoot s r with
  | None => mret tt
  | Some node => modify node (λ n, set_balance (g (balance n)) n)
  end w = adjustM s r g w.
Proof.
  intros Hi Hz. unfold adjustM. rewrite (lookupRoot_index s h) by done.
  destruct (nodeByRoot s !! r) as [p|] eqn:E; [|done]. destruct (Hi r p E) as [Hp _].
  case_if; [congruence|]. by rewrite bool_decide_eq_false_2.
Qed.

Section slashing.
Context `{BeaconChainConfig}.

Lemma head_ready_zero w t : head_ready w t → nodeByRoot (store (fc w)) !! ZeroHash = None.
Proof.
  intros Hr. destruct (nodeByRoot _ !! ZeroHash) as [p|] eqn:E; [|done].
  apply (wf_index w t (hr_wf w t Hr)) in E as (Hp & nd & Hnd & Hz).
  by destruct (hr_roots w t Hr p nd Hp Hnd).
Qed.

(** The subtraction is exact: the node holds at least the validator's balance. *)
Lemma slash_balance w t i v b r :
  head_ready w t → Z.of_nat i ∉ slashedIndices (store (fc w)) →
  votes (fc w) !! i = Some v → balances (fc w) !! i = Some b → r ≠ ZeroHash →
  is_Some (nodeByRoot (store (fc w)) !! r) →
  let x := bal (store (fc w)) (heap w) r in
  let V := votes (fc w) in let B := balances (fc w) in let S := slashedIndices (store (fc w)) in
  (if r =? currentRoot v then (if x <? b then 0 else x -w b) else x) =
  boostOf (previousProposerBoostRoot (store (fc w))) (previousProposerBoostScore (store (fc w))) r +
  voteSum ({[Z.of_nat i]} ∪ S) V currentRoot B r.
Proof.
  intros Hr Hi Hv Hb Hz Hin x V B S.
  assert (contrib S V currentRoot B r i = if currentRoot v =? r then b else 0) as Hc.
  { unfold contrib, V. rewrite Hv, bool_decide_eq_false_2 by done.
    unfold B, balanceAt. by rewrite Hb. }
  pose proof (hr_accounted w t Hr r Hz Hin) as Hx. fold x V B S in Hx.
  pose proof (contrib_le_voteSum S V currentRoot B r i (hr_old w t Hr)) as Hle.
  pose proof (boostOf_range (previousProposerBoostRoot (store (fc w)))
                (previousProposerBoostScore (store (fc w))) r (hr_score w t Hr)) as Hbo.
  rewrite voteSum_slash, Hc by done. rewrite Hc in Hle. rewrite (Z.eqb_sym r).
  destruct (Z.eqb_spec (currentRoot v) r) as [<-|Hne]; [|lia].
  replace (x <? b) with false by lia.
  assert (0 ≤ b) as Hb0. { pose proof (hr_old w t Hr i) as Hb0. unfold balanceAt in Hb0. by rewrite Hb in Hb0. }
  pose proof (voteSum_le_total S V currentRoot B (currentRoot v) (hr_old w t Hr)) as Htot.
  pose proof (hr_fits w t Hr) as Hfit. fold V B in Hfit.
  assert (0 ≤ totalBalance (length V) (justifiedBalances (fc w))).
  { apply Zsum_nonneg, Forall_forall. intros z (j & -> & _)%list_elem_of_fmap. apply (hr_new w t Hr). }
  rewrite wrap64_small by (unfold is_u64; lia). lia.
Qed.

(** The state after slashing validator [i], with the heap [h']. *)
Definition slashedWorld (i : nat) (h' : gmap ptr Node) (w : World) : World :=
  let s := store (fc w) in
  set_heap h' (set_fc (set_store (set_slashedIndices
    ({[Z.of_nat i]} ∪ slashedIndices s) s) (fc w)) w).

(** Any heap with the right balances will do. *)
Lemma slashed_ready w t i h' :
  head_ready w t → same_but_balance (heap w) h' →
  (∀ r, r ≠ ZeroHash → is_Some (nodeByRoot (store (fc w)) !! r) → bal (store (fc w)) h' r =
     boostOf (previousProposerBoostRoot (store (fc w))) (previousProposerBoostScore (store (fc w))) r +
     voteSum ({[Z.of_nat i]} ∪ slashedIndices (store (fc w))) (votes (fc w)) currentRoot
       (balances (fc w)) r) →
  head_ready (slashedWorld i h' w) t.
Proof.
  intros [Hwf Hctx Hroots Hold Hnew _ Hsc Hf1 Hf2] Hsame Hacc. constructor; try done.
  - eapply wf_same_skeleton; [exact Hwf| |done..]. intros p. by apply (same_but_balance_field skeleton).
  - intros p nd Hp Hnd. pose proof (same_but_balance_field root (heap w) h' p ltac:(done) Hsame) as E.
    cbn in Hnd. rewrite Hnd in E. destruct (heap w !! p) as [nd0|] eqn:E0; [|done].
    injection E as ->. by apply (Hroots p).
Qed.

(** A validator without a balance or a vote has nothing to take out. *)
Lemma slashed_ready_skip w t i :
  head_ready w t →
  (∀ r, Z.of_nat i ∉ slashedIndices (store (fc w)) →
        contrib (slashedIndices (store (fc w))) (votes (fc w)) currentRoot (balances (fc w)) r i = 0) →
  head_ready (slashedWorld i (heap w) w) t.
Proof.
  intros Hr Hno. apply slashed_ready; [done|done|]. intros r Hz Hin.
  rewrite (hr_accounted w t Hr r Hz Hin). f_equal.
  destruct (decide (Z.of_nat i ∈ slashedIndices (store (fc w)))) as [Hi|Hi].
  - by replace ({[Z.of_nat i]} ∪ slashedIndices (store (fc w))) with (slashedIndices (store (fc w)))
      by set_solver.
  - rewrite voteSum_slash, Hno by done. lia.
Qed.

(** [InsertSlashedIndex] adds the validator to the equivocation set once and
    takes exactly its counted vote out of the balances: nothing but balances
    and that set change, and the store stays ready for [Head], whose scores
    then leave the validator out. *)
Theorem InsertSlashedIndex_correct i w t :
  head_ready w t →
  ∃ h', let w' := slashedWorld i h' w in
    InsertSlashedIndex i w = (Ret tt, w') ∧ same_but_balance (heap w) h' ∧ head_ready w' t ∧
    (∀ r, contrib (slashedIndices (store (fc w'))) (votes (fc w')) nextRoot
            (justifiedBalances (fc w')) r i = 0).
Proof.
  intros Hr. set (s := store (fc w)).
  assert (∀ h' r, contrib (slashedIndices (store (fc (slashedWorld i h' w)))) (votes (fc w)) nextRoot
                    (justifiedBalances (fc w)) r i = 0) as Hgone.
  { intros h' r. unfold contrib. destruct (votes (fc w) !! i); [|done].
    by rewrite bool_decide_eq_true_2 by (cbn; set_solver). }
  unfold InsertSlashedIndex. mstep. fold s. case_bool_decide as Hs.
  { exists (heap w). split_and!; [|done|by apply slashed_ready_skip|by apply Hgone].
    unfold slashedWorld. fold s.
    replace ({[Z.of_nat i]} ∪ slashedIndices s) with (slashedIndices s) by set_solver.
    unfold s. by destruct w as [[[] ? ? ? ? ?] ? ? ? ? ?]. }
  mstep. destruct (balances (fc w) !! i) as [b|] eqn:Hb; [destruct (votes (fc w) !! i) as [v|] eqn:Hv|].
  - pose proof (wf_index_ok w t (hr_wf w t Hr)) as Hix.
    rewrite (lookup_adjustM s (heap w) (currentRoot v) (λ x, if x <? b then 0 else x -w b))
      by (done || by apply (head_ready_zero w t)).
    destruct (adjustM_spec s (currentRoot v) (λ x, if x <? b then 0 else x -w b)
                (slashedWorld i (heap w) w) Hix) as (h' & Hrun & Hsame & Hbal).
    exists h'. split_and!; [exact Hrun|done| |by apply Hgone]. apply slashed_ready; [done|done|].
    intros r Hz Hin. refine (eq_trans (Hbal r Hz Hin) _). by apply (slash_balance w t).
  - exists (heap w). split_and!; [done|done| |by apply Hgone]. apply slashed_ready_skip; [done|].
    intros r _. unfold contrib. by rewrite Hv.
  - exists (heap w). split_and!; [done|done| |by apply Hgone]. apply slashed_ready_skip; [done|].
    intros r _. unfold contrib, balanceAt. rewrite Hb. by repeat case_match.
Qed.
End slashing.

(** ** Witnesses on the sample store *)

Lemma totalBalance_le bals n : Forall (λ b, 0 ≤ b) bals → totalBalance n bals ≤ Zsum bals.
Proof.
  intros Hb. revert n. induction Hb as [|b bals Hb Hbs IH]; intros [|n]; unfold totalBalance in *.
  - done.
  - rewrite (Zsum_zero (balanceAt [])); [done|]. done.
  - cbn. specialize (IH 0%nat). cbn in IH. lia.
  - cbn [seq map Zsum]. rewrite <- seq_shift, map_map. specialize (IH n).
    cbn [Zsum]. rewrite (Zsum_map_ext _ (balanceAt bals)) by done. cbn. lia.
Qed.

Lemma demo_totals_fit : totals_fit (H := mainnetBeaconConfig) demoWorld.
Proof.
  intros n. cbn [demoWorld fc store demoStore previousProposerBoostScore balances justifiedBalances].
  pose proof (totalBalance_le [32; 32; 32] n ltac:(repeat constructor; lia)).
  pose proof (totalBalance_le [32; 31; 32] n ltac:(repeat constructor; lia)).
  change (boostScore (H := mainnetBeaconConfig) _) with 0. cbn in *. unfold two64. lia.
Qed.

Lemma ProcessAttestation_correct_witness :
  ∃ V', ProcessAttestation [0; 7]%nat 30 5 demoWorld = (Ret tt, set_fc (set_votes V' (fc demoWorld)) demoWorld) ∧
    voteOf V' 0 = mkVote 20 30 5 ∧ voteOf V' 1 = mkVote 20 30 2 ∧ voteOf V' 7 = mkVote 0 30 5 ∧
    head_ready (H := mainnetBeaconConfig) (set_fc (set_votes V' (fc demoWorld)) demoWorld) demoTree.
Proof.
  destruct (@ProcessAttestation_correct mainnetBeaconConfig [0; 7]%nat 30 5 demoWorld demoTree
              demo_ready demo_totals_fit) as (V' & H1 & H2 & _ & H3).
  exists V'. rewrite !H2. split_and!; [done|vm_compute; reflexivity..|done].
Defined.

(** A fork choice that has seen no block and no vote. *)
Definition emptyWorld : World := mkWorld New ∅ 1 (λ _, 0) 0 None.

Lemma latest_message_driven_witness :
  let l := [mkAtt [0; 1]%nat 20 3; mkAtt [1; 2]%nat 30 4; mkAtt [0; 2]%nat 40 4] in
  ∃ V', processAll l emptyWorld = (Ret tt, set_fc (set_votes V' (fc emptyWorld)) emptyWorld) ∧
    ∀ i, tracks l i (voteOf V' i).
Proof.
  intros l. apply (latest_message_driven l emptyWorld); [done|].
  intros a Ha. unfold l in Ha. set_unfold. naive_solver.
Defined.

Lemma InsertSlashedIndex_correct_witness :
  ∃ h', let w' := slashedWorld 1 h' demoWorld in
    InsertSlashedIndex 1 demoWorld = (Ret tt, w') ∧ same_but_balance (heap demoWorld) h' ∧
    head_ready (H := mainnetBeaconConfig) w' demoTree ∧
    (∀ r, contrib (slashedIndices (store (fc w'))) (votes (fc w')) nextRoot
            (justifiedBalances (fc w')) r 1 = 0).
Proof. apply (@InsertSlashedIndex_correct mainnetBeaconConfig 1 demoWorld demoTree demo_ready). Defined.
