(* ===== verification/ForkChain.v ===== *)
(** * Queries along the parent links

    [AncestorRoot], [CommonAncestor] and [SetOptimisticToValid] of
    [forkchoice.go] (with [setNodeAndParentValidated] of [node.go]) follow
    parent pointers; on a well-formed store they terminate and compute what
    their names say about the tree. *)

From S2P Require Import Prelude MathHelper Primitives SlotTime ForkTypes ForkStore.
From S2P Require Import ForkStore ForkChoice ForkTree ForkGhost.

(** ** Reference definitions *)

(** [a] is [p] or an ancestor of [p] in [t]. *)
Definition ancestor (t : tree) (a p : ptr) : Prop :=
  ∃ s, s ∈ subtrees t ∧ tptr s = a ∧ p ∈ tptrs s.

Definition slotOf (h : gmap ptr Node) (p : ptr) : Z :=
  match h !! p with Some nd => slot nd | None => 0 end.

(** The pointers from [p] up to the top of the tree. *)
Inductive upchain (h : gmap ptr Node) : ptr → list ptr → Prop :=
| up_nil : upchain h nilptr []
| up_cons p nd l :
    p ≠ nilptr → h !! p = Some nd → upchain h (parent nd) l → upchain h p (p :: l).

(** Blocks are later than their parents. *)
Definition slots_increase (h : gmap ptr Node) (t : tree) : Prop :=
  ∀ s c, s ∈ subtrees t → c ∈ tchildren s → slotOf h (tptr s) < slotOf h (tptr c).

(** ** Chains and the tree *)

Lemma ancestor_refl t p : p ∈ tptrs t → ancestor t p p.
Proof. intros (s & Hs & <-)%tptrs_subtree. exists s. eauto with go. Qed.

Lemma ancestor_in t a p : ancestor t a p → a ∈ tptrs t ∧ p ∈ tptrs t.
Proof. intros (s & Hs & <- & Hp). eauto with go. Qed.

Lemma ancestor_trans t a b p :
  NoDup (tptrs t) → ancestor t a b → ancestor t b p → ancestor t a p.
Proof.
  intros Hnd (s & Hs & <- & Hb) (u & Hu & <- & Hp). exists s. split_and!; [done|done|].
  apply tptrs_subtree in Hb as (u' & Hu' & Heq).
  assert (u' = u) as -> by (eapply subtree_unique; eauto with go). eauto with go.
Qed.

Lemma ancestor_antisym t a b : NoDup (tptrs t) → ancestor t a b → ancestor t b a → a = b.
Proof.
  intros Hnd (s & Hs & <- & Hb) (u & Hu & <- & Ha).
  apply tptrs_subtree in Hb as (u' & Hu' & Hub), Ha as (s' & Hs' & Hsa).
  assert (u' = u) as -> by (eapply (subtree_unique t); eauto with go).
  assert (s' = s) as -> by (eapply (subtree_unique t); eauto with go).
  assert (s = u) as ->; [|done].
  destruct s as [q cs], u as [q' cs']. cbn in Hu'. apply elem_of_cons in Hu' as [Hu'|Hu']; [done|].
  exfalso. apply elem_of_flat_map in Hu' as (c & Hc & Hu').
  assert (NoDup (tptrs (TNode q cs))) as [Hq _]%NoDup_cons by (by eapply NoDup_subtree).
  apply Hq, elem_of_flat_map. exists c. split; [done|].
  apply (subtrees_ptr c (TNode q cs)). by eapply subtrees_trans.
Qed.

(** The chain of a node of a subtree passes through the top of the subtree. *)
Lemma upchain_below h t s ls :
  repr h t → NoDup (tptrs t) → parents_ok h t → s ∈ subtrees t → upchain h (tptr s) ls →
  ∀ p, p ∈ tptrs s → ∃ l, upchain h p (l ++ ls) ∧ (∀ a, a ∈ l → ancestor s a p ∧ a ≠ tptr s) ∧
                          (∀ a, ancestor s a p → a ∈ l ++ [tptr s]).
Proof.
  intros Hr Hnd Hpar. revert ls. induction s as [q cs IH] using tree_ind'. intros ls Hs Hup p Hp.
  destruct (decide (p = q)) as [->|Hne].
  { exists []. split_and!; [done|set_solver|]. intros a (u & Hu & <- & Hq). cbn.
    assert (q ∈ tptrs u → u ∈ flat_map subtrees cs → False) as Hno.
    { intros Hqu (c & Hc & Huc)%elem_of_flat_map.
      assert (NoDup (tptrs (TNode q cs))) as [Hnq _]%NoDup_cons by (by eapply NoDup_subtree).
      apply Hnq, elem_of_flat_map. eauto with go. }
    cbn in Hu. apply elem_of_cons in Hu as [->|Hu]; [set_solver|]. exfalso. eauto. }
  cbn in Hp. apply elem_of_cons in Hp as [->|Hp]; [done|].
  apply elem_of_flat_map in Hp as (c & Hc & Hp). rewrite Forall_forall in IH.
  assert (c ∈ subtrees t) as Hct by (eapply subtrees_trans; [exact Hs|by apply subtrees_child]).
  destruct (repr_lookup h c ltac:(by eapply repr_subtree)) as (nd & Hnd' & Hnil & _).
  assert (upchain h (tptr c) (tptr c :: ls)) as Hupc.
  { econstructor; [done|done|]. by rewrite (Hpar (TNode q cs) c nd Hs Hc Hnd'). }
  destruct (IH c Hc (tptr c :: ls) Hct Hupc p Hp) as (l & Hl & Hanc & Hall).
  assert (NoDup (tptrs (TNode q cs))) as [Hnq Hncs]%NoDup_cons by (by eapply NoDup_subtree).
  exists (l ++ [tptr c]). split_and!.
  - rewrite <- app_assoc. done.
  - intros a Ha. assert (ancestor c a p) as (u & Hu & <- & Hpu).
    { apply elem_of_app in Ha as [Ha| ->%list_elem_of_singleton]; [by apply Hanc|].
      exists c. eauto with go. }
    split; [exists u; split_and!; [|done|done]; eapply subtrees_trans; [|done]; by apply subtrees_child|].
    cbn. intros Heq. apply Hnq, elem_of_flat_map. exists c. split; [done|]. rewrite <- Heq. eauto with go.
  - intros a (u & Hu & <- & Hpu). cbn in Hu. apply elem_of_cons in Hu as [->|Hu]; [set_solver|].
    apply elem_of_flat_map in Hu as (c' & Hc' & Hu).
    assert (c' = c) as -> by (eapply (NoDup_flat_map_disjoint tptrs cs c' c p); eauto with go).
    apply elem_of_app. left. apply Hall. exists u. done.
Qed.

(** Every node has a finite chain, which lists its ancestors. *)
Lemma wf_upchain w t p :
  wf w t → p ∈ tptrs t →
  ∃ l, upchain (heap w) p l ∧ (∀ a, a ∈ l ↔ ancestor t a p).
Proof.
  intros Hwf Hp. destruct (repr_lookup (heap w) t (wf_repr w t Hwf)) as (nd & Hnd & Hnil & _).
  assert (upchain (heap w) (tptr t) [tptr t]) as Hup.
  { econstructor; [done|done|]. rewrite (wf_top w t Hwf nd Hnd). constructor. }
  destruct (upchain_below (heap w) t t [tptr t] (wf_repr w t Hwf) (wf_nodup w t Hwf)
              (wf_parents w t Hwf) ltac:(eauto with go) Hup p Hp) as (l & Hl & H1 & H2).
  exists (l ++ [tptr t]). split; [done|]. intros a. split; [|apply H2].
  intros [Ha| ->%list_elem_of_singleton]%elem_of_app; [by apply H1|]. exists t. eauto with go.
Qed.

Lemma upchain_nil_inv h l : upchain h nilptr l → l = [].
Proof. inversion 1; done. Qed.

Lemma upchain_cons_inv h p l nd :
  upchain h p l → p ≠ nilptr → h !! p = Some nd → ∃ l', l = p :: l' ∧ upchain h (parent nd) l'.
Proof. intros Hup Hp Hnd. inversion Hup; subst; [done|]. simplify_eq. eauto. Qed.

Lemma upchain_det h p l1 l2 : upchain h p l1 → upchain h p l2 → l1 = l2.
Proof.
  intros H1. revert l2. induction H1 as [|p nd l Hp Hnd _ IH]; intros l2 H2.
  - by apply upchain_nil_inv in H2.
  - inversion H2; subst; [done|]. simplify_eq. f_equal. by apply IH.
Qed.

Lemma upchain_suffix h p l a l2 : upchain h p (l ++ a :: l2) → upchain h a (a :: l2).
Proof.
  revert p. induction l as [|b l IH]; intros p Hup; cbn in Hup.
  - inversion Hup; subst. done.
  - inversion Hup; subst. by eapply IH.
Qed.

Lemma upchain_nodup h p l : upchain h p l → NoDup l.
Proof.
  intros Hup. apply NoDup_alt. intros i j x Hi Hj.
  destruct (decide (i = j)) as [|Hne]; [done|].
  exfalso.
  pose proof (take_drop_middle l i x Hi) as E1. pose proof (take_drop_middle l j x Hj) as E2.
  assert (x :: drop (S i) l = x :: drop (S j) l) as E.
  { eapply upchain_det; eapply upchain_suffix; [rewrite E1|rewrite E2]; exact Hup. }
  injection E as E. apply (f_equal length) in E. rewrite !length_drop in E.
  apply lookup_lt_Some in Hi, Hj. lia.
Qed.

Lemma upchain_length h p l : upchain h p l → (length l ≤ size h)%nat.
Proof.
  intros Hup. apply NoDup_dom_length; [by eapply upchain_nodup|].
  induction Hup as [|p nd l Hp Hnd _ IH]; [set_solver|].
  intros q [->|Hq]%elem_of_cons; [rewrite Hnd; eauto|by apply IH].
Qed.

(** The chain after a node is the chain of its ancestors. *)
Lemma wf_chain_mono w t p l a l2 :
  wf w t → p ∈ tptrs t → upchain (heap w) p (l ++ a :: l2) →
  ∀ b, b ∈ a :: l2 ↔ ancestor t b a.
Proof.
  intros Hwf Hp Hup b. destruct (wf_upchain w t p Hwf Hp) as (lp & Hlp & Hin).
  assert (lp = l ++ a :: l2) as -> by (by eapply upchain_det).
  assert (ancestor t a p) as [Ha _]%ancestor_in by (apply Hin; set_solver).
  destruct (wf_upchain w t a Hwf Ha) as (la & Hla & Hina).
  by rewrite <- Hina, (upchain_det _ _ _ _ Hla (upchain_suffix _ _ _ _ _ Hup)).
Qed.

(** ** [AncestorRoot] *)

Section chain.
Context `{BeaconChainConfig}.

Lemma ancestorLoop_run w l p sl fuel :
  upchain (heap w) p l → ctx w = None → (length l < fuel)%nat →
  ∃ l1 l2, l = l1 ++ l2 ∧ (∀ a, a ∈ l1 → sl < slotOf (heap w) a) ∧
    ancestorLoop fuel p sl w = (Ret (default nilptr (list.head l2)), w) ∧
    (∀ a, list.head l2 = Some a → a ≠ nilptr ∧ slotOf (heap w) a ≤ sl).
Proof.
  intros Hup Hctx. revert fuel. induction Hup as [|p nd l Hp Hnd Hup IH]; intros fuel Hf;
    (destruct fuel as [|fuel]; [cbn in Hf; lia|]); cbn [ancestorLoop].
  { exists [], []. split_and!; [done|set_solver|done|done]. }
  rewrite bool_decide_eq_false_2 by done. mstep with (deref_eq p nd w Hnd).
  destruct (Z.ltb_spec sl (slot nd)) as [Hlt|Hge].
  - mstep with (checkCtx_eq w Hctx). destruct (IH fuel ltac:(cbn in Hf; lia)) as (l1 & l2 & -> & H1 & H2 & H3).
    exists (p :: l1), l2. split_and!; [done| |done|done].
    intros a [->|Ha]%elem_of_cons; [by unfold slotOf; rewrite Hnd|by apply H1].
  - exists [], (p :: l). split_and!; [done|set_solver|done|].
    cbn. intros a [= <-]. unfold slotOf. by rewrite Hnd.
Qed.

(** [AncestorRoot] on a known root returns the root of the lowest ancestor
    whose slot is at most the one asked for (the node itself included), and the
    nil-node error exactly when no ancestor is that old; it terminates and
    leaves the store alone. *)
Theorem AncestorRoot_correct w t r p sl :
  wf w t → ctx w = None → nodeByRoot (store (fc w)) !! r = Some p →
  match AncestorRoot r sl w with
  | (Ret a, w') =>
      w' = w ∧ ∃ q nd, heap w !! q = Some nd ∧ root nd = a ∧ ancestor t q p ∧ slot nd ≤ sl ∧
        ∀ b, ancestor t b p → slotOf (heap w) b ≤ sl → ancestor t b q
  | (Err e, w') =>
      w' = w ∧ e = wrapErr ErrNilNode "could not determine ancestor root" ∧
        ∀ b, ancestor t b p → sl < slotOf (heap w) b
  | _ => False
  end.
Proof.
  intros Hwf Hctx Hr. pose proof Hr as Hr'. apply (wf_index w t Hwf) in Hr' as (Hp & nd & Hnd & <-).
  assert (lookupRoot (store (fc w)) (root nd) = Some p) as Hlk by (apply (lookupRoot_wf w t); eauto).
  destruct (wf_upchain w t p Hwf Hp) as (l & Hup & Hanc). pose proof (upchain_length _ _ _ Hup) as Hlen.
  unfold AncestorRoot. mstep. rewrite Hlk. mstep.
  destruct (ancestorLoop_run w l p sl (S (S (size (heap w)))) Hup Hctx ltac:(lia))
    as (l1 & l2 & -> & Hhi & Hrun & Hlo).
  mstep with Hrun. destruct l2 as [|q l2]; cbn.
  { split_and!; [done|done|]. intros b Hb%Hanc. apply Hhi. rewrite app_nil_r in Hb. done. }
  destruct (Hlo q eq_refl) as [Hq Hsl]. rewrite bool_decide_eq_false_2 by done.
  assert (ancestor t q p) as Hqp by (apply Hanc; set_solver).
  destruct (repr_ptr (heap w) t q (wf_repr w t Hwf) (proj1 (ancestor_in _ _ _ Hqp))) as (qn & Hqn & _).
  mstep with (deref_eq q qn w Hqn). cbn. split; [done|]. exists q, qn.
  unfold slotOf in Hsl. rewrite Hqn in Hsl. split_and!; [done..|].
  intros b Hb%Hanc Hbs. apply (wf_chain_mono w t p l1 q l2 Hwf Hp Hup).
  apply elem_of_app in Hb as [Hb%Hhi|Hb]; [lia|done].
Qed.

(** ** [CommonAncestor] *)

(** Strict ancestors have smaller slots. *)
Lemma slots_increase_lt h t s p :
  slots_increase h t → s ∈ subtrees t → p ∈ tptrs s → p ≠ tptr s → slotOf h (tptr s) < slotOf h p.
Proof.
  intros Hinc. induction s as [q cs IH] using tree_ind'. intros Hs Hp Hne.
  cbn in Hp. apply elem_of_cons in Hp as [->|Hp]; [done|].
  apply elem_of_flat_map in Hp as (c & Hc & Hp). rewrite Forall_forall in IH.
  pose proof (Hinc _ c Hs Hc) as Hlt.
  destruct (decide (p = tptr c)) as [->|Hpc]; [done|].
  specialize (IH c Hc ltac:(eauto with go) Hp Hpc). lia.
Qed.

Lemma ancestor_lt h t a p :
  slots_increase h t → ancestor t a p → a ≠ p → slotOf h a < slotOf h p.
Proof. intros Hinc (s & Hs & <- & Hp) Hne. by apply (slots_increase_lt h t). Qed.

(** A node that is not the top has its parent for next ancestor. *)
Lemma wf_step_up w t p nd :
  wf w t → p ∈ tptrs t → heap w !! p = Some nd → p ≠ tptr t →
  parent nd ∈ tptrs t ∧ ∀ a, ancestor t a p ↔ a = p ∨ ancestor t a (parent nd).
Proof.
  intros Hwf Hp Hnd Hne. destruct (wf_upchain w t p Hwf Hp) as (l & Hup & Hin).
  inversion Hup as [|? nd' l' Hpn Hnd' Hup']; subst; simplify_eq.
  { by destruct (proj1 (wf_heap w t Hwf _ _ Hnd)). }
  destruct l' as [|b l'].
  { exfalso. apply Hne. assert (ancestor t (tptr t) p) as Ha%Hin by (exists t; eauto with go).
    by apply list_elem_of_singleton in Ha. }
  assert (b = parent nd) as -> by (inversion Hup'; done).
  pose proof (wf_chain_mono w t p [p] (parent nd) l' Hwf Hp Hup) as Hmono.
  split; [apply (ancestor_in t (parent nd) (parent nd)), Hmono; set_solver|].
  intros a. by rewrite <- Hin, elem_of_cons, Hmono.
Qed.

(** Stepping up from a node that is no ancestor of another one keeps their
    common ancestors. *)
Lemma wf_step_common w t p q d :
  wf w t → heap w !! p = Some d → p ∈ tptrs t → q ∈ tptrs t → ~ ancestor t p q →
  parent d ∈ tptrs t ∧ parent d ≠ nilptr ∧
  (∀ a, (ancestor t a p ∧ ancestor t a q) ↔ (ancestor t a (parent d) ∧ ancestor t a q)).
Proof.
  intros Hwf Hd Hp Hq Hno.
  assert (p ≠ tptr t) as Hpt by (intros ->; apply Hno; exists t; eauto with go).
  destruct (wf_step_up w t p d Hwf Hp Hd Hpt) as [Hpar Hanc].
  destruct (repr_ptr _ _ _ (wf_repr w t Hwf) Hpar) as (? & ? & ?). split_and!; [done|done|].
  intros a. rewrite Hanc. naive_solver.
Qed.

(** [q] is the lowest common ancestor of [p1] and [p2]. *)
Definition lowest_common (t : tree) (q p1 p2 : ptr) : Prop :=
  ancestor t q p1 ∧ ancestor t q p2 ∧ ∀ a, ancestor t a p1 → ancestor t a p2 → ancestor t a q.

Lemma commonAncestorLoop_run w t p1 p2 fuel l1 l2 :
  wf w t → slots_increase (heap w) t → ctx w = None → p1 ∈ tptrs t → p2 ∈ tptrs t → p1 ≠ p2 →
  upchain (heap w) p1 l1 → upchain (heap w) p2 l2 → (length l1 + length l2 ≤ fuel)%nat →
  ∃ q nd, heap w !! q = Some nd ∧ lowest_common t q p1 p2 ∧
    commonAncestorLoop fuel p1 p2 w = (Ret (root nd, slot nd), w).
Proof.
  intros Hwf Hinc Hctx. revert p1 p2 l1 l2. induction fuel as [|fuel IH];
    intros p1 p2 l1 l2 Hp1 Hp2 Hne Hu1 Hu2 Hf.
  { destruct l1; [|cbn in Hf; lia]. inversion Hu1; subst.
    by destruct (repr_ptr _ _ _ (wf_repr w t Hwf) Hp1) as (? & ? & []). }
  destruct (repr_ptr _ _ _ (wf_repr w t Hwf) Hp1) as (d1 & Hd1 & Hn1).
  destruct (repr_ptr _ _ _ (wf_repr w t Hwf) Hp2) as (d2 & Hd2 & Hn2).
  assert (slotOf (heap w) p1 = slot d1) as E1 by (unfold slotOf; by rewrite Hd1).
  assert (slotOf (heap w) p2 = slot d2) as E2 by (unfold slotOf; by rewrite Hd2).
  cbn [commonAncestorLoop]. mstep with (checkCtx_eq w Hctx).
  mstep with (deref_eq p1 d1 w Hd1). mstep with (deref_eq p2 d2 w Hd2).
  destruct (Z.ltb_spec (slot d2) (slot d1)) as [Hlt|Hge].
  - destruct (wf_step_common w t p1 p2 d1 Hwf Hd1 Hp1 Hp2) as (Hpar & Hnil & Hiff).
    { intros Ha. pose proof (ancestor_lt _ _ _ _ Hinc Ha Hne). lia. }
    rewrite !bool_decide_eq_false_2 by done. cbn [orb]. inversion Hu1; subst; simplify_eq.
    case_bool_decide as Heq.
    + rewrite Heq in *. exists p2, d2. mstep with (deref_eq p2 d2 w Hd2). split_and!; [done| |done].
      split_and!; [apply Hiff; split; by apply ancestor_refl|by apply ancestor_refl|done].
    + destruct (IH (parent d1) p2 l l2) as (q & nd & Hq & (L1 & L2 & L3) & Hrun);
        [done..|cbn in Hf; lia|]. exists q, nd. split_and!; [done| |done].
      split_and!; [by apply Hiff|done|]. intros a Ha1 Ha2. apply L3; [by apply Hiff|done].
  - destruct (wf_step_common w t p2 p1 d2 Hwf Hd2 Hp2 Hp1) as (Hpar & Hnil & Hiff).
    { intros Ha. pose proof (ancestor_lt _ _ _ _ Hinc Ha ltac:(done)). lia. }
    rewrite !bool_decide_eq_false_2 by done. cbn [orb]. inversion Hu2; subst; simplify_eq.
    case_bool_decide as Heq.
    + rewrite <- Heq in *. exists p1, d1. mstep with (deref_eq p1 d1 w Hd1). split_and!; [done| |done].
      split_and!; [by apply ancestor_refl|apply Hiff; split; by apply ancestor_refl|done].
    + destruct (IH p1 (parent d2) l1 l) as (q & nd & Hq & (L1 & L2 & L3) & Hrun);
        [done..|cbn in Hf; lia|]. exists q, nd. split_and!; [done| |done].
      split_and!; [done|by apply Hiff|]. intros a Ha1 Ha2. apply L3; [done|by apply Hiff].
Qed.

(** For two known roots of a tree whose blocks are later than their parents,
    [CommonAncestor] terminates without error and returns the root and slot of
    the lowest common ancestor: the common ancestor below which no other one
    lies. *)
Theorem CommonAncestor_correct w t r1 r2 p1 p2 :
  wf w t → slots_increase (heap w) t → ctx w = None →
  nodeByRoot (store (fc w)) !! r1 = Some p1 → nodeByRoot (store (fc w)) !! r2 = Some p2 →
  ∃ q nd, heap w !! q = Some nd ∧ lowest_common t q p1 p2 ∧
    CommonAncestor r1 r2 w = (Ret (root nd, slot nd), w).
Proof.
  intros Hwf Hinc Hctx Hr1 Hr2.
  apply (wf_index w t Hwf) in Hr1 as H1, Hr2 as H2. destruct H1 as (Hp1 & d1 & Hd1 & E1), H2 as (Hp2 & d2 & Hd2 & E2).
  assert (lookupRoot (store (fc w)) r1 = Some p1) as Hl1 by (apply (lookupRoot_wf w t); eauto).
  assert (lookupRoot (store (fc w)) r2 = Some p2) as Hl2 by (apply (lookupRoot_wf w t); eauto).
  unfold CommonAncestor. mstep. rewrite Hl1. mstep with (deref_eq p1 d1 w Hd1).
  destruct (Z.eqb_spec r1 r2) as [->|Hne].
  { assert (p1 = p2) as <- by congruence. exists p1, d1. split_and!; [done| |by rewrite <- E1].
    split_and!; [by apply ancestor_refl..|done]. }
  rewrite Hl2. mstep.
  destruct (wf_upchain w t p1 Hwf Hp1) as (l1 & Hu1 & _), (wf_upchain w t p2 Hwf Hp2) as (l2 & Hu2 & _).
  pose proof (upchain_length _ _ _ Hu1). pose proof (upchain_length _ _ _ Hu2).
  eapply (commonAncestorLoop_run w t p1 p2); eauto; [congruence|lia].
Qed.

(** ** [SetOptimisticToValid] *)

Definition optimisticAt (h : gmap ptr Node) (p : ptr) : bool :=
  match h !! p with Some nd => optimistic nd | None => false end.

(** The ancestors of a validated node are validated. *)
Definition validated_up (h : gmap ptr Node) (t : tree) : Prop :=
  ∀ a p, ancestor t a p → optimisticAt h p = false → optimisticAt h a = false.

(** [h'] is [h] with the nodes of [l] validated. *)
Definition validates (l : list ptr) (h h' : gmap ptr Node) : Prop :=
  ∀ q, h' !! q = (if bool_decide (q ∈ l) then set_optimistic false <$> h !! q else h !! q).

Lemma validates_id l h : (∀ a, a ∈ l → optimisticAt h a = false) → validates l h h.
Proof.
  intros Hl q. case_bool_decide as Hq; [|done]. apply Hl in Hq. unfold optimisticAt in Hq.
  destruct (h !! q) as [[]|]; [|done]. cbn in *. by subst.
Qed.

Lemma validates_cons p nd l h h' :
  h !! p = Some nd → p ∉ l → validates l (<[p := set_optimistic false nd]> h) h' →
  validates (p :: l) h h'.
Proof.
  intros Hp Hl Hv q. rewrite (Hv q). destruct (decide (q = p)) as [->|Hne].
  - rewrite bool_decide_eq_false_2, bool_decide_eq_true_2 by set_solver.
    by rewrite lookup_insert_eq, Hp.
  - rewrite lookup_insert_ne by done. by rewrite (bool_decide_ext (q ∈ p :: l) (q ∈ l)) by set_solver.
Qed.

Lemma upchain_insert h p nd nd' q l :
  upchain h q l → h !! p = Some nd → parent nd' = parent nd → upchain (<[p := nd']> h) q l.
Proof.
  intros Hup Hp Hpar. induction Hup as [|q x l Hq Hx _ IH]; [constructor|].
  destruct (decide (q = p)) as [->|Hne].
  - apply (up_cons _ p nd'); [done|by rewrite lookup_insert_eq|]. rewrite Hpar. by simplify_eq.
  - apply (up_cons _ q x); [done|by rewrite lookup_insert_ne|done].
Qed.

Lemma setNodeAndParentValidated_run fuel w p l :
  upchain (heap w) p l → p ≠ nilptr → ctx w = None → (length l ≤ fuel)%nat →
  (∀ l1 a l2, l = l1 ++ a :: l2 → optimisticAt (heap w) a = false →
              ∀ b, b ∈ l2 → optimisticAt (heap w) b = false) →
  ∃ h', setNodeAndParentValidated fuel p w = (Ret tt, set_heap h' w) ∧ validates l (heap w) h'.
Proof.
  revert w p l. induction fuel as [|fuel IH]; intros w p l Hup Hp Hctx Hf Hcl;
    inversion Hup as [|? nd l' _ Hnd Hup']; subst; [done|cbn in Hf; lia|done|].
  cbn [setNodeAndParentValidated]. mstep with (checkCtx_eq w Hctx). mstep with (deref_eq p nd w Hnd).
  pose proof (upchain_nodup _ _ _ Hup) as [Hpl _]%NoDup_cons.
  destruct (optimistic nd) eqn:Hopt; cbn [negb].
  - mstep with (modify_eq p (set_optimistic false) nd w Hnd). case_bool_decide as Hpar.
    { rewrite Hpar in Hup'. apply upchain_nil_inv in Hup' as ->. eexists. split; [done|].
      apply (validates_cons p nd []); [done|set_solver|]. apply validates_id. set_solver. }
    set (h1 := <[p := set_optimistic false nd]> (heap w)).
    assert (∀ q, q ∈ l' → optimisticAt h1 q = optimisticAt (heap w) q) as Hsame.
    { intros q Hq. unfold h1, optimisticAt. by rewrite lookup_insert_ne by set_solver. }
    destruct (IH (set_heap h1 w) (parent nd) l') as (h' & Hrun & Hv); [|done|done|cbn in Hf; lia|..].
    { by apply (upchain_insert _ _ nd). }
    { intros l1 a l2 -> Ha b Hb. cbn [heap set_heap] in *. rewrite Hsame in Ha |- * by set_solver.
      by apply (Hcl (p :: l1) a l2). }
    exists h'. rewrite Hrun. split; [done|]. by apply (validates_cons p nd).
  - exists (heap w). rewrite heap_eta. split; [done|]. apply validates_id.
    assert (optimisticAt (heap w) p = false) as H0 by (unfold optimisticAt; by rewrite Hnd).
    intros a [->|Ha]%elem_of_cons; [done|]. by apply (Hcl [] p l').
Qed.

(** [SetOptimisticToValid] on a known root, in a store where ancestors of
    validated blocks are validated, marks exactly the block and all its
    ancestors as validated, changes nothing else, and keeps both that property
    and the well-formedness of the store. *)
Theorem SetOptimisticToValid_correct w t r p :
  wf w t → ctx w = None → validated_up (heap w) t → nodeByRoot (store (fc w)) !! r = Some p →
  ∃ h', SetOptimisticToValid r w = (Ret tt, set_heap h' w) ∧
    (∀ q, ancestor t q p → h' !! q = set_optimistic false <$> heap w !! q) ∧
    (∀ q, ~ ancestor t q p → h' !! q = heap w !! q) ∧
    validated_up h' t ∧ wf (set_heap h' w) t.
Proof.
  intros Hwf Hctx Hval Hr. pose proof Hr as Hr'. apply (wf_index w t Hwf) in Hr' as (Hp & nd & Hnd & <-).
  assert (lookupRoot (store (fc w)) (root nd) = Some p) as Hlk by (apply (lookupRoot_wf w t); eauto).
  destruct (wf_upchain w t p Hwf Hp) as (l & Hup & Hanc). pose proof (upchain_length _ _ _ Hup) as Hlen.
  unfold SetOptimisticToValid. mstep. rewrite Hlk. mstep.
  destruct (setNodeAndParentValidated_run (S (size (heap w))) w p l) as (h' & Hrun & Hv); [done| |done|lia|..].
  { by destruct (wf_heap w t Hwf p nd Hnd). }
  { intros l1 a l2 -> Ha b Hb. apply (Hval b a); [|done].
    apply (wf_chain_mono w t p l1 a l2 Hwf Hp Hup). set_solver. }
  exists h'. split; [done|].
  assert (∀ q, ancestor t q p → h' !! q = set_optimistic false <$> heap w !! q) as Hin.
  { intros q Hq%Hanc. by rewrite (Hv q), bool_decide_eq_true_2. }
  assert (∀ q, ~ ancestor t q p → h' !! q = heap w !! q) as Hout.
  { intros q Hq. rewrite (Hv q), bool_decide_eq_false_2; [done|]. by rewrite Hanc. }
  split_and!; [done|done| |].
  - intros a q Haq Hq. destruct (decide (a ∈ l)) as [Hal|Hal].
    { unfold optimisticAt. rewrite (Hv a), bool_decide_eq_true_2 by done. by destruct (heap w !! a). }
    assert (q ∉ l) as Hql.
    { rewrite Hanc in *. intros Hqp. apply Hal. by eapply ancestor_trans; [apply Hwf|..]. }
    unfold optimisticAt in Hq |- *. rewrite (Hv a), (Hv q), !bool_decide_eq_false_2 in * by done.
    by apply (Hval a q).
  - eapply wf_same_skeleton; [exact Hwf| |done..]. intros q. cbn. rewrite (Hv q).
    case_bool_decide; [|done]. by destruct (heap w !! q).
Qed.
End chain.

(** ** Executable checks and a sample store *)

Definition slots_increaseb (h : gmap ptr Node) (t : tree) : bool :=
  forallb (λ s, forallb (λ c, slotOf h (tptr s) <? slotOf h (tptr c)) (tchildren s)) (subtrees t).

Lemma slots_increaseb_sound h t : slots_increaseb h t = true → slots_increase h t.
Proof.
  intros Hb s c Hs Hc. pose proof (forallb_elem _ _ _ (forallb_elem _ _ _ Hb Hs) Hc) as Hlt.
  cbn in Hlt. lia.
Qed.

Definition validated_upb (h : gmap ptr Node) (t : tree) : bool :=
  forallb (λ s, forallb (λ p, optimisticAt h p || negb (optimisticAt h (tptr s))) (tptrs s))
    (subtrees t).

Lemma validated_upb_sound h t : validated_upb h t = true → validated_up h t.
Proof.
  intros Hb a p (s & Hs & <- & Hp) Hopt.
  pose proof (forallb_elem _ _ _ (forallb_elem _ _ _ Hb Hs) Hp) as Hx. cbn in Hx.
  rewrite Hopt in Hx. by destruct (optimisticAt h (tptr s)).
Qed.

(** Two branches above a validated root, none of their blocks validated. *)
Definition chainNode (r slot' : Z) (par : ptr) (cs : list ptr) (opt : bool) : Node :=
  mkNode slot' r (r + 1000) par nilptr cs 0 0 0 0 0 0 nilptr opt 0.

Definition chainHeap : gmap ptr Node :=
  list_to_map [(1%nat, chainNode 10 32 nilptr [2%nat; 3%nat] false);
               (2%nat, chainNode 20 33 1 [4%nat] true);
               (3%nat, chainNode 30 34 1 [5%nat] true);
               (4%nat, chainNode 40 35 2 [] true);
               (5%nat, chainNode 50 36 3 [] true)].

Definition chainStore : Store :=
  mkStore (mkCheckpoint 0 10) (mkCheckpoint 0 10) (mkCheckpoint 0 10) (mkCheckpoint 0 10)
    (mkCheckpoint 0 10) 0 0 0 0 1 1
    (list_to_map [(10, 1%nat); (20, 2%nat); (30, 3%nat); (40, 4%nat); (50, 5%nat)])
    (list_to_map [(1010, 1%nat); (1020, 2%nat); (1030, 3%nat); (1040, 4%nat); (1050, 5%nat)])
    ∅ 0 0 5 (replicate 32 0) false.

Definition chainWorld : World :=
  mkWorld (mkForkChoice chainStore [] [] [] 0 None) chainHeap 6 (λ _, 480000000000) 0 None.

Definition chainTree : tree := TNode 1 [TNode 2 [TNode 4 []]; TNode 3 [TNode 5 []]].

Lemma chainWorld_wf : wf chainWorld chainTree.
Proof. apply wfb_sound. vm_compute. reflexivity. Qed.

Lemma AncestorRoot_correct_witness :
  fst (AncestorRoot 40 34 chainWorld) = Ret 20 ∧
  match AncestorRoot 40 34 chainWorld with
  | (Ret a, w') =>
      w' = chainWorld ∧ ∃ q nd, heap chainWorld !! q = Some nd ∧ root nd = a ∧
        ancestor chainTree q 4 ∧ slot nd ≤ 34 ∧
        ∀ b, ancestor chainTree b 4 → slotOf (heap chainWorld) b ≤ 34 → ancestor chainTree b q
  | (Err e, w') =>
      w' = chainWorld ∧ e = wrapErr ErrNilNode "could not determine ancestor root" ∧
        ∀ b, ancestor chainTree b 4 → 34 < slotOf (heap chainWorld) b
  | _ => False
  end.
Proof.
  split; [vm_compute; reflexivity|].
  apply (AncestorRoot_correct chainWorld chainTree 40 4 34); [apply chainWorld_wf|done|done].
Defined.

Lemma CommonAncestor_correct_witness :
  fst (CommonAncestor 40 50 chainWorld) = Ret (10, 32) ∧
  ∃ q nd, heap chainWorld !! q = Some nd ∧ lowest_common chainTree q 4 5 ∧
    CommonAncestor 40 50 chainWorld = (Ret (root nd, slot nd), chainWorld).
Proof.
  split; [vm_compute; reflexivity|].
  apply (CommonAncestor_correct chainWorld chainTree 40 50 4 5);
    [apply chainWorld_wf|by apply slots_increaseb_sound|done|done|done].
Defined.

Lemma SetOptimisticToValid_correct_witness :
  ∃ h', SetOptimisticToValid 40 chainWorld = (Ret tt, set_heap h' chainWorld) ∧
    (∀ q, ancestor chainTree q 4 → h' !! q = set_optimistic false <$> heap chainWorld !! q) ∧
    (∀ q, ~ ancestor chainTree q 4 → h' !! q = heap chainWorld !! q) ∧
    validated_up h' chainTree ∧ wf (set_heap h' chainWorld) chainTree.
Proof.
  apply (SetOptimisticToValid_correct chainWorld chainTree 40 4);
    [apply chainWorld_wf|done|by apply validated_upb_sound|done].
Defined.
