(* ===== verification/ForkInsert.v ===== *)
(** * Inserting a block

    [insert] of [store.go] on a well-formed store: the block becomes the last
    child of its parent, the indices know it, the best descendants are
    recomputed, and nothing else of the tree changes. *)

From S2P Require Import Prelude MathHelper Primitives SlotTime ForkTypes ForkStore.
From S2P Require Import ForkStore ForkChoice ForkTree ForkGhost ForkVotes.
From S2P Require Import ForkHead ForkAttest ForkChain.

(** ** Growing a tree *)

(** [t] with the leaf [n] as the last child of [p]. *)
Fixpoint graft (p n : ptr) (t : tree) : tree :=
  match t with
  | TNode q cs => TNode q (map (graft p n) cs ++ (if bool_decide (q = p) then [TNode n []] else []))
  end.

Lemma tptr_graft p n t : tptr (graft p n t) = tptr t.
Proof. by destruct t. Qed.

Lemma graft_out p n t : p ∉ tptrs t → graft p n t = t.
Proof.
  induction t as [q cs IH] using tree_ind'. cbn. intros [Hq Hcs]%not_elem_of_cons.
  rewrite bool_decide_eq_false_2, app_nil_r by done. f_equal.
  rewrite Forall_forall in IH. rewrite <- (map_id cs) at 2. apply map_ext_in.
  intros c Hc%list_elem_of_In. apply IH; [done|]. intros Hp. apply Hcs, elem_of_flat_map. eauto.
Qed.

(** The children that do not hold [p] are untouched; the one that does grows. *)
Lemma graft_forest p n cs :
  NoDup (flat_map tptrs cs) →
  (∀ c, c ∈ cs → NoDup (tptrs c) → p ∈ tptrs c → tptrs (graft p n c) ≡ₚ n :: tptrs c) →
  flat_map tptrs (map (graft p n) cs) ≡ₚ
  (if bool_decide (p ∈ flat_map tptrs cs) then [n] else []) ++ flat_map tptrs cs.
Proof.
  induction cs as [|c cs IH]; cbn; intros Hnd Hg; [done|].
  pose proof Hnd as (Hc & Hdisj & Hcs)%NoDup_app.
  rewrite IH by (done || set_solver).
  destruct (decide (p ∈ tptrs c)) as [Hp|Hp].
  - rewrite (bool_decide_eq_true_2 (p ∈ tptrs c ++ _)) by set_solver.
    rewrite (bool_decide_eq_false_2 (p ∈ flat_map tptrs cs)) by (by apply Hdisj).
    cbn. rewrite (Hg c) by (done || set_solver). done.
  - rewrite graft_out by done. rewrite (bool_decide_ext (p ∈ tptrs c ++ _) (p ∈ flat_map tptrs cs)) by set_solver.
    case_bool_decide; cbn; [|done]. by rewrite <- Permutation_middle.
Qed.

Lemma graft_tptrs p n t :
  NoDup (tptrs t) → p ∈ tptrs t → tptrs (graft p n t) ≡ₚ n :: tptrs t.
Proof.
  induction t as [q cs IH] using tree_ind'. cbn. intros [Hq Hnd]%NoDup_cons Hp.
  rewrite Forall_forall in IH. rewrite flat_map_app, (graft_forest p n cs) by (done || set_solver).
  destruct (decide (q = p)) as [->|Hqp].
  - rewrite (bool_decide_eq_false_2 (p ∈ _)), bool_decide_eq_true_2 by done. cbn.
    rewrite Permutation_app_comm. cbn. constructor.
  - rewrite (bool_decide_eq_true_2 (p ∈ _)), bool_decide_eq_false_2 by set_solver. cbn.
    rewrite app_nil_r. constructor.
Qed.

Lemma graft_subtrees p n t s' :
  s' ∈ subtrees (graft p n t) → s' = TNode n [] ∨ ∃ s, s ∈ subtrees t ∧ s' = graft p n s.
Proof.
  revert s'. induction t as [q cs IH] using tree_ind'. intros s' Hs'.
  cbn in Hs'. apply elem_of_cons in Hs' as [->|Hs'].
  { right. exists (TNode q cs). split; [apply subtrees_self|done]. }
  rewrite flat_map_app in Hs'. apply elem_of_app in Hs' as [Hs'|Hs'].
  - apply elem_of_flat_map in Hs' as (c' & (c & -> & Hc)%list_elem_of_fmap & Hs').
    rewrite Forall_forall in IH. destruct (IH c Hc s' Hs') as [->|(s & Hs & ->)]; [by left|].
    right. exists s. split; [|done]. cbn. right. apply elem_of_flat_map. eauto.
  - left. case_bool_decide; cbn in Hs'; set_solver.
Qed.

(** ** The links after an insertion *)

(** [h'] is [h] with the node [n] linked below [p]. *)
Record linked_heap (h h' : gmap ptr Node) (p n : ptr) (r : Z) : Prop := {
  lk_new : ∃ nd, h' !! n = Some nd ∧ children nd = [] ∧ parent nd = p ∧ root nd = r;
  lk_old : ∀ q, q ≠ n → skeleton <$> h' !! q =
             (λ nd, (children nd ++ (if bool_decide (q = p) then [n] else []), parent nd, root nd)) <$> h !! q
}.

Lemma linked_lookup h h' p n r q nd :
  linked_heap h h' p n r → q ≠ n → h !! q = Some nd →
  ∃ nd', h' !! q = Some nd' ∧ parent nd' = parent nd ∧ root nd' = root nd ∧
         children nd' = children nd ++ (if bool_decide (q = p) then [n] else []).
Proof.
  intros [_ Hold] Hq Hnd. specialize (Hold q Hq). rewrite Hnd in Hold.
  destruct (h' !! q) as [nd'|]; [|done]. exists nd'. cbn in Hold. unfold skeleton in Hold. naive_solver.
Qed.

Lemma linked_lookup_inv h h' p n r q nd' :
  linked_heap h h' p n r → q ≠ n → h' !! q = Some nd' →
  ∃ nd, h !! q = Some nd ∧ parent nd' = parent nd ∧ root nd' = root nd.
Proof.
  intros [_ Hold] Hq Hnd. specialize (Hold q Hq). rewrite Hnd in Hold.
  destruct (h !! q) as [nd|]; [|done]. exists nd. cbn in Hold. unfold skeleton in Hold. naive_solver.
Qed.

Lemma repr_graft h h' p n r t :
  linked_heap h h' p n r → n ≠ nilptr → n ∉ tptrs t → repr h t → repr h' (graft p n t).
Proof.
  intros Hl Hn. induction t as [q cs IH] using tree_ind'. intros Hnt Hr.
  inversion Hr as [??? Hq Hnil Hch Hcs]; subst. cbn in Hnt. apply not_elem_of_cons in Hnt as [Hnq Hncs].
  destruct (linked_lookup h h' p n r q nd Hl ltac:(done) Hq) as (nd' & Hnd' & _ & _ & Hch').
  cbn. apply (repr_node _ _ _ nd'); [done|done| |].
  - rewrite Hch', Hch, map_app, map_map. f_equal; [|by case_bool_decide].
    apply map_ext. intros c. by rewrite tptr_graft.
  - apply Forall_app. split.
    + apply Forall_fmap. rewrite Forall_forall in *. intros c Hc. cbn. apply IH; [done| |by apply Hcs].
      intros Hin. apply Hncs, elem_of_flat_map. eauto.
    + case_bool_decide; [|done]. destruct Hl as [(x & Hx & Hxc & _) _].
      constructor; [|constructor]. by apply (repr_node _ n [] x).
Qed.

Lemma parents_graft h h' p n r t :
  linked_heap h h' p n r → n ∉ tptrs t → parents_ok h t → parents_ok h' (graft p n t).
Proof.
  intros Hl Hn Hp s' c' nd' Hs' Hc' Hnd'.
  apply graft_subtrees in Hs' as [->|(s & Hs & ->)]; [cbn in Hc'; set_solver|].
  destruct s as [q cs]. cbn in Hc' |- *. apply elem_of_app in Hc' as [(c & -> & Hc)%list_elem_of_fmap|Hc'].
  - rewrite tptr_graft in Hnd'.
    assert (tptr c ∈ tptrs t) as Hct by (apply subtrees_ptr; eauto with go).
    destruct (linked_lookup_inv h h' p n r (tptr c) nd' Hl ltac:(congruence) Hnd') as (nd & Hnd & -> & _).
    by apply (Hp (TNode q cs) c nd).
  - case_bool_decide as Hq; [|set_solver]. apply list_elem_of_singleton in Hc' as ->.
    destruct Hl as [(x & Hx & _ & Hpar & _) _]. cbn in Hnd'. congruence.
Qed.

(** A well-formed store stays so when a fresh block is linked and indexed. *)
Lemma wf_linked w w' t p r :
  let n := nextPtr w in
  wf w t → p ∈ tptrs t → n ≠ nilptr → linked_heap (heap w) (heap w') p n r →
  nodeByRoot (store (fc w)) !! r = None →
  nodeByRoot (store (fc w')) = <[r := n]> (nodeByRoot (store (fc w))) →
  treeRootNode (store (fc w')) = treeRootNode (store (fc w)) → nextPtr w' = S n →
  wf w' (graft p n t).
Proof.
  intros n Hwf Hp Hn Hl Hr Hix Htr Hnext.
  assert (n ∉ tptrs t) as Hnt.
  { intros Hin. destruct (repr_ptr _ _ _ (wf_repr w t Hwf) Hin) as (nd & Hnd & _).
    destruct (wf_heap w t Hwf n nd Hnd). unfold n in *. lia. }
  assert (∀ q, q ∈ tptrs t → q ≠ n) as Hqn by congruence.
  pose proof (graft_tptrs p n t (wf_nodup w t Hwf) Hp) as Hperm.
  assert (∀ q, q ∈ tptrs (graft p n t) ↔ q = n ∨ q ∈ tptrs t) as Hin.
  { intros q. rewrite Hperm. apply elem_of_cons. }
  constructor.
  - rewrite Htr, tptr_graft. apply Hwf.
  - apply (repr_graft (heap w) (heap w') p n r); [done|done|done|apply Hwf].
  - rewrite Hperm. constructor; [done|apply Hwf].
  - apply (parents_graft (heap w) (heap w') p n r); [done|done|apply Hwf].
  - rewrite tptr_graft. intros nd' Hnd'.
    destruct (linked_lookup_inv _ _ _ _ _ _ _ Hl (Hqn _ (tptr_in t)) Hnd') as (nd & Hnd & -> & _).
    by apply (wf_top w t Hwf).
  - intros r' q. rewrite Hix, Hin. destruct (decide (r' = r)) as [->|Hne].
    + rewrite lookup_insert_eq. split.
      * intros [= <-]. split; [by left|]. destruct Hl as [(x & Hx & _ & _ & Hrx) _]. eauto.
      * intros ([->|Hq] & nd & Hnd & Hroot); [done|]. exfalso.
        destruct (linked_lookup_inv _ _ _ _ _ _ _ Hl (Hqn _ Hq) Hnd) as (nd0 & Hnd0 & _ & Hroot0).
        assert (nodeByRoot (store (fc w)) !! r = Some q) as E; [|congruence].
        apply (wf_index w t Hwf). split; [done|]. exists nd0. split; [done|congruence].
    + rewrite lookup_insert_ne by done. rewrite (wf_index w t Hwf). split.
      * intros (Hq & nd & Hnd & Hroot). split; [by right|].
        destruct (linked_lookup _ _ _ _ _ _ _ Hl (Hqn _ Hq) Hnd) as (nd' & Hnd' & _ & Hr' & _).
        exists nd'. split; [done|congruence].
      * intros ([->|Hq] & nd' & Hnd' & Hroot).
        { destruct Hl as [(x & Hx & _ & _ & Hrx) _]. congruence. }
        destruct (linked_lookup_inv _ _ _ _ _ _ _ Hl (Hqn _ Hq) Hnd') as (nd & Hnd & _ & Hr').
        split; [done|]. exists nd. split; [done|congruence].
  - intros q nd' Hnd'. destruct (decide (q = n)) as [->|Hne]; [split; [done|lia]|].
    destruct (linked_lookup_inv _ _ _ _ _ _ _ Hl Hne Hnd') as (nd & Hnd & _).
    destruct (wf_heap w t Hwf q nd Hnd). split; [done|]. unfold n in *. lia.
Qed.

(** ** The run of [insert] *)

Section insert.
Context `{BeaconChainConfig}.

(** The target checkpoint block of a new block at [slot'] with parent [pn]. *)
Definition targetFor (n p : ptr) (pn : Node) (slot' : Z) : ptr :=
  if slot' mod SlotsPerEpoch =? 0 then n
  else if ToEpoch slot' =? ToEpoch (slot pn) then target pn else p.

Definition newNode (blk : ROBlock) (ph je fe : Z) (n p : ptr) (pn : Node) (now : Z) : Node :=
  mkNode (blkSlot blk) (blkRoot blk) ph p (targetFor n p pn (blkSlot blk)) [] je je fe fe
    0 0 nilptr true now.

(** The store once the block is linked and indexed. *)
Definition linkedStore (blk : ROBlock) (ph : Z) (n : ptr) (s : Store) : Store :=
  set_nodeByRoot (<[blkRoot blk := n]> (nodeByRoot s))
    (set_nodeByPayload (<[ph := n]> (nodeByPayload s)) s).

Definition linkedWorld (blk : ROBlock) (ph je fe : Z) (p : ptr) (pn : Node) (w : World) : World :=
  let n := nextPtr w in
  mkWorld (set_store (linkedStore blk ph n (store (fc w))) (fc w))
    (<[p := set_children (children pn ++ [n]) pn]>
       (<[n := newNode blk ph je fe n p pn (clock w (ticks w))]> (heap w)))
    (S n) (clock w) (S (ticks w)) (ctx w).

(** The rest of [insert] after linking: the boost and the best descendants... *)
Definition boostAndRelink (s : Store) (slot' root' : Z) (n : ptr) : M bool :=
  now <~ timeNow;;
  if timeBefore now (genesisTime s) then mret true
  else
    currentSlot <~ currentSlotM;;
    sss <~ wrapM "could not determine time since current slot started"
             (mlift (SinceSlotStart currentSlot (genesisTime s) now));;
    let isFirstBlock := proposerBoostRoot s =? 0 in
    (if (currentSlot =? slot') && (sss <? votingWindow) && isFirstBlock
     then modStore (set_proposerBoostRoot root') else mret tt);;;
    fuel <~ walkFuel;;
    mcatch (updateBestDescendant fuel (treeRootNode s)
              (Epoch (justifiedCheckpoint s)) (Epoch (finalizedCheckpoint s))
              (ToEpoch currentSlot))
      (λ err,
         _ <~ mtry (removeNode n);;
         mthrow (wrapErr err "could not update best descendants"));;;
    mret false.

(** ... and the received-block counters. *)
Definition recordReceipt (slot' : Z) (n : ptr) : M ptr :=
  currentSlot <~ currentSlotM;;
  (if currentSlot <? slot' +w SlotsPerEpoch
   then
     s <~ getStore;;
     let i := Z.to_nat (slot' mod SlotsPerEpoch) in
     if bool_decide (i < length (receivedBlocksLastEpoch s))%nat
     then modStore (λ s, set_receivedBlocksLastEpoch
                           (<[i := slot']> (receivedBlocksLastEpoch s)) s)
     else mpanic "index out of range"
   else mret tt);;;
  s <~ getStore;;
  hn <~ deref (highestReceivedNode s);;
  (if slot hn <? slot' then modStore (set_highestReceivedNode n) else mret tt);;;
  mret n.

(** The payload hash [insert] reads. *)
Definition payloadOf (blk : ROBlock) (ph : Z) : Prop :=
  (if versionNumber Bellatrix <=? versionNumber (blkVersion blk)
   then blkExecution blk else Ret 0) = Ret ph.

Lemma insert_linked blk je fe ph p pn w t :
  wf w t → payloadOf blk ph → nodeByRoot (store (fc w)) !! blkRoot blk = None →
  nodeByRoot (store (fc w)) !! blkParentRoot blk = Some p → heap w !! p = Some pn →
  insert blk je fe w =
  (early <~ boostAndRelink (store (fc w)) (blkSlot blk) (blkRoot blk) (nextPtr w);;
   if (early : bool) then mret (nextPtr w) else recordReceipt (blkSlot blk) (nextPtr w))
    (linkedWorld blk ph je fe p pn w).
Proof.
  intros Hwf Hph Hnew Hpar Hpn. destruct (wf_heap w t Hwf p pn Hpn) as [Hpnil Hplt].
  set (n := nextPtr w). assert (p ≠ n) as Hne by (unfold n; lia).
  unfold insert. erewrite mseq_ret; [|instantiate (2 := ph)].
  2: { unfold payloadOf in Hph. destruct (_ <=? _); [unfold mlift; by rewrite Hph|by injection Hph as <-]. }
  mstep. rewrite Hnew, Hpar. cbn [default].
  erewrite (mseq_ret timeNow) by reflexivity. erewrite (mseq_ret (alloc _)) by reflexivity.
  rewrite bool_decide_eq_false_2 by done. cbn [nextPtr set_ticks]. fold n.
  set (x0 := mkNode _ _ _ _ _ _ _ _ _ _ _ _ _ _ _).
  set (w1 := set_nextPtr _ _).
  assert (heap w1 !! n = Some x0) as Hn1 by apply lookup_insert_eq.
  assert (heap w1 !! p = Some pn) as Hp1 by (cbn; by rewrite lookup_insert_ne).
  set (x1 := newNode blk ph je fe n p pn (clock w (ticks w))).
  assert (∀ v, modify n (set_target v) w1 =
               (Ret tt, set_heap (<[n := set_target v x0]> (heap w)) w1)) as Htgt.
  { intros v. rewrite (modify_eq _ _ x0) by done. cbn. by rewrite insert_insert_eq. }
  erewrite (mseq_ret _ _ w1); [|instantiate (2 := tt); instantiate (1 := set_heap (<[n := x1]> (heap w)) w1)].
  2: { unfold x1, newNode, targetFor. destruct (blkSlot blk mod _ =? 0); [by rewrite Htgt|].
       mstep with (deref_eq p pn w1 Hp1). destruct (ToEpoch _ =? _); by rewrite Htgt. }
  rewrite !mseq_modStore, !mseq_assoc.
  erewrite mseq_ret; [|apply (modify_eq p _ pn); cbn; by rewrite lookup_insert_ne].
  reflexivity.
Qed.

Lemma linkedWorld_linked blk ph je fe p pn w t :
  wf w t → heap w !! p = Some pn →
  linked_heap (heap w) (heap (linkedWorld blk ph je fe p pn w)) p (nextPtr w) (blkRoot blk).
Proof.
  intros Hwf Hpn. destruct (wf_heap w t Hwf p pn Hpn) as [_ Hlt]. cbn. split.
  - eexists. rewrite lookup_insert_ne, lookup_insert_eq by lia. done.
  - intros q Hq. destruct (decide (q = p)) as [->|Hqp].
    + by rewrite lookup_insert_eq, bool_decide_eq_true_2, Hpn by done.
    + rewrite !lookup_insert_ne, bool_decide_eq_false_2 by done.
      destruct (heap w !! q) as [nd|]; [|done]. cbn. by rewrite app_nil_r.
Qed.

Lemma linkedWorld_wf blk ph je fe p pn w t :
  wf w t → nodeByRoot (store (fc w)) !! blkRoot blk = None → p ∈ tptrs t → heap w !! p = Some pn →
  wf (linkedWorld blk ph je fe p pn w) (graft p (nextPtr w) t).
Proof.
  intros Hwf Hnew Hp Hpn. destruct (wf_heap w t Hwf p pn Hpn) as [_ Hlt].
  apply (wf_linked w _ t p (blkRoot blk)); try done; [unfold nilptr; lia|].
  by apply (linkedWorld_linked blk ph je fe p pn w t).
Qed.

(** What [insert] needs of the store besides its shape. *)
Record insert_ready (w : World) (t : tree) : Prop := {
  ir_wf : wf w t;
  ir_ctx : ctx w = None;
  ir_highest : is_Some (heap w !! highestReceivedNode (store (fc w)));
  ir_received : SlotsPerEpoch ≤ Z.of_nat (length (receivedBlocksLastEpoch (store (fc w))))
}.

(** The block earns the proposer boost: it is the first one of the current slot
    and arrived in the attesting interval. *)
Definition earnsBoost (s : Store) (slot' currentSlot now : Z) : bool :=
  (currentSlot =? slot') &&
  (now - genesisTime s - currentSlot * SecondsPerSlot * nsPerSecond <? votingWindow) &&
  (proposerBoostRoot s =? 0).

Definition boostedStore (b : bool) (root' : Z) (s : Store) : Store :=
  if b then set_proposerBoostRoot root' s else s.

(** Boost, then recompute the best descendants: one run of [boostAndRelink]. *)
Lemma boostAndRelink_run w t s slot' root' n :
  let now := clock w (ticks w) in let cs := CurrentSlot (genesisTime s) (clock w (S (ticks w))) in
  wf w t → ctx w = None → genesisTime s = genesisTime (store (fc w)) →
  treeRootNode s = treeRootNode (store (fc w)) →
  genesisTime s ≤ now → now - genesisTime s ≤ maxInt64 → CurrentSlot (genesisTime s) now = cs →
  ∃ h', boostAndRelink s slot' root' n w =
    (Ret false, set_heap h' (set_ticks (S (S (ticks w)))
       (set_fc (set_store (boostedStore (earnsBoost s slot' cs now) root' (store (fc w))) (fc w)) w))) ∧
    rewritten (relink (Epoch (justifiedCheckpoint s)) (ToEpoch cs)) (heap w) [t] h'.
Proof.
  intros now cs Hwf Hctx Hg Htr Hge Hmax Hcs. unfold boostAndRelink.
  erewrite (mseq_ret timeNow) by reflexivity. fold now.
  unfold timeBefore. replace (now <? genesisTime s) with false by lia.
  erewrite (mseq_ret currentSlotM) by reflexivity. cbn [store fc set_ticks ticks clock]. rewrite <- Hg. fold cs.
  pose proof (SinceSlotStart_current (genesisTime s) now Hge Hmax) as Hsss. rewrite Hcs in Hsss.
  erewrite mseq_ret; [|apply wrapM_ret; unfold mlift; by rewrite Hsss].
  set (w2 := set_ticks (S (S (ticks w))) w). cbv beta.
  set (b := earnsBoost s slot' cs now).
  set (w3 := set_fc (set_store (boostedStore b root' (store (fc w))) (fc w)) w2).
  assert ((if b then modStore (set_proposerBoostRoot root') else mret tt) w2 = (Ret tt, w3)) as Hb.
  { unfold w3, w2. destruct b; [done|]. by destruct w as [[[]]]. }
  change ((cs =? slot') && _ && _) with b. mstep with Hb. mstep.
  destruct (relinks_all (Epoch (justifiedCheckpoint s)) (Epoch (finalizedCheckpoint s)) (ToEpoch cs)
              (S (size (heap w3))) t) with (w := w3) as (h' & Hrun & Hrew).
  { pose proof (repr_fuel _ _ (wf_repr w t Hwf) (wf_nodup w t Hwf)). cbn. lia. }
  { done. }
  { apply (wf_repr w t Hwf). }
  { apply (wf_nodup w t Hwf). }
  exists h'. split; [|exact Hrew]. rewrite Htr, (wf_root w t Hwf).
  erewrite mseq_ret; [|unfold mcatch; rewrite Hrun; reflexivity]. reflexivity.
Qed.

Definition receivedStore (slot' currentSlot : Z) (highest : Z) (n : ptr) (s : Store) : Store :=
  let s1 := if currentSlot <? slot' +w SlotsPerEpoch
            then set_receivedBlocksLastEpoch
                   (<[Z.to_nat (slot' mod SlotsPerEpoch) := slot']> (receivedBlocksLastEpoch s)) s
            else s in
  if highest <? slot' then set_highestReceivedNode n s1 else s1.

Lemma recordReceipt_run w slot' n hn :
  heap w !! highestReceivedNode (store (fc w)) = Some hn →
  SlotsPerEpoch ≤ Z.of_nat (length (receivedBlocksLastEpoch (store (fc w)))) →
  let cs := CurrentSlot (genesisTime (store (fc w))) (clock w (ticks w)) in
  recordReceipt slot' n w =
  (Ret n, set_ticks (S (ticks w))
            (set_fc (set_store (receivedStore slot' cs (slot hn) n (store (fc w))) (fc w)) w)).
Proof.
  intros Hhn Hlen cs. unfold recordReceipt. erewrite (mseq_ret currentSlotM) by reflexivity.
  cbv beta. fold cs. pose proof SlotsPerEpoch_range as HS.
  assert (0 ≤ slot' mod SlotsPerEpoch < SlotsPerEpoch) as Hmod by (apply Z.mod_pos_bound; lia).
  unfold receivedStore.
  match goal with |- context [cs <? ?x] => destruct (cs <? x) end; cbv iota.
  - rewrite mseq_assoc. mstep. cbn [store fc set_ticks]. rewrite bool_decide_eq_true_2 by lia. mstep. mstep.
    erewrite mseq_ret; [|apply (deref_eq _ hn); exact Hhn]. cbv beta.
    destruct (slot hn <? slot'); reflexivity.
  - mstep. mstep. erewrite mseq_ret; [|apply (deref_eq _ hn); exact Hhn]. cbv beta.
    destruct (slot hn <? slot'); [reflexivity|]. by destruct w as [[]].
Qed.

Lemma relink_field {A} (f : Node → A) je ce h l h' q :
  (∀ v nd, f (set_bestDescendant v nd) = f nd) → rewritten (relink je ce) h l h' →
  f <$> h' !! q = f <$> h !! q.
Proof. intros Hf. apply rewritten_field. intros h0 s nd. apply Hf. Qed.

(** The fields other than the links. *)
Lemma linkedWorld_field {A} (f : Node → A) blk ph je fe p pn w t q :
  (∀ v nd, f (set_children v nd) = f nd) → wf w t → heap w !! p = Some pn → q ≠ nextPtr w →
  f <$> heap (linkedWorld blk ph je fe p pn w) !! q = f <$> heap w !! q.
Proof.
  intros Hf Hwf Hpn Hq. cbn. destruct (decide (q = p)) as [->|Hne].
  - rewrite lookup_insert_eq, Hpn. cbn. by rewrite Hf.
  - by rewrite !lookup_insert_ne by done.
Qed.

(** The slot of the highest received block. *)
Definition highestSlot (w : World) : Z :=
  match heap w !! highestReceivedNode (store (fc w)) with Some hn => slot hn | None => 0 end.

(** The store after a successful insertion. *)
Definition insertedStore (blk : ROBlock) (ph : Z) (w : World) : Store :=
  let s := store (fc w) in
  let now := clock w (S (ticks w)) in
  let cs := CurrentSlot (genesisTime s) (clock w (S (S (ticks w)))) in
  let cs' := CurrentSlot (genesisTime s) (clock w (S (S (S (ticks w))))) in
  receivedStore (blkSlot blk) cs' (highestSlot w) (nextPtr w)
    (boostedStore (earnsBoost s (blkSlot blk) cs now) (blkRoot blk) (linkedStore blk ph (nextPtr w) s)).

Lemma insertedStore_keeps blk ph w :
  nodeByRoot (insertedStore blk ph w) = <[blkRoot blk := nextPtr w]> (nodeByRoot (store (fc w))) ∧
  treeRootNode (insertedStore blk ph w) = treeRootNode (store (fc w)) ∧
  length (receivedBlocksLastEpoch (insertedStore blk ph w)) =
    length (receivedBlocksLastEpoch (store (fc w))) ∧
  (highestReceivedNode (insertedStore blk ph w) = nextPtr w ∨
   highestReceivedNode (insertedStore blk ph w) = highestReceivedNode (store (fc w))).
Proof.
  unfold insertedStore, receivedStore. unfold boostedStore.
  repeat (match goal with |- context [if ?b then _ else _] => destruct b end);
    cbn; rewrite ?length_insert; auto.
Qed.

Definition insertedWorld (blk : ROBlock) (ph : Z) (h' : gmap ptr Node) (w : World) : World :=
  mkWorld (set_store (insertedStore blk ph w) (fc w)) h' (S (nextPtr w)) (clock w)
    (S (S (S (S (ticks w))))) (ctx w).

(** The clock readings of [insert] are after genesis and in one slot. *)
Definition steady_clock (w : World) : Prop :=
  let g := genesisTime (store (fc w)) in
  let now := clock w (S (ticks w)) in
  g ≤ now ∧ now - g ≤ maxInt64 ∧ CurrentSlot g now = CurrentSlot g (clock w (S (S (ticks w)))).

Lemma insert_run blk je fe ph p pn w t :
  insert_ready w t → payloadOf blk ph → nodeByRoot (store (fc w)) !! blkRoot blk = None →
  nodeByRoot (store (fc w)) !! blkParentRoot blk = Some p → heap w !! p = Some pn → steady_clock w →
  ∃ h', insert blk je fe w = (Ret (nextPtr w), insertedWorld blk ph h' w) ∧
    rewritten (relink (Epoch (justifiedCheckpoint (store (fc w))))
                 (ToEpoch (CurrentSlot (genesisTime (store (fc w))) (clock w (S (S (ticks w)))))))
      (heap (linkedWorld blk ph je fe p pn w)) [graft p (nextPtr w) t] h'.
Proof.
  intros [Hwf Hctx [hn Hhn] Hlen] Hph Hnew Hpar Hpn (Hg & Hmax & Hcs).
  assert (p ∈ tptrs t) as Hp by (by apply (wf_index w t Hwf) in Hpar as [Hp _]).
  rewrite (insert_linked blk je fe ph p pn w t) by done.
  set (w1 := linkedWorld blk ph je fe p pn w).
  destruct (boostAndRelink_run w1 (graft p (nextPtr w) t) (store (fc w)) (blkSlot blk) (blkRoot blk)
              (nextPtr w)) as (h' & Hrun & Hrew); try done.
  { by apply linkedWorld_wf. }
  exists h'. split; [|exact Hrew]. mstep with Hrun. cbv iota.
  assert (highestReceivedNode (store (fc w)) ≠ nextPtr w) as Hne.
  { destruct (wf_heap w t Hwf _ _ Hhn). lia. }
  assert (∃ hn', h' !! highestReceivedNode (store (fc w)) = Some hn' ∧ slot hn' = slot hn) as (hn' & Hhn' & Hsl).
  { pose proof (relink_field slot _ _ _ _ _ (highestReceivedNode (store (fc w))) (λ _ _, eq_refl) Hrew) as E.
    unfold w1 in E. rewrite (linkedWorld_field slot blk ph je fe p pn w t), Hhn in E by done.
    destruct (h' !! _) as [x|]; [|done]. exists x. split; [done|]. by injection E as ->. }
  rewrite (recordReceipt_run _ _ _ hn').
  - f_equal. unfold insertedWorld, insertedStore, highestSlot. rewrite Hhn, Hsl.
    cbn [store fc set_heap set_ticks set_fc set_store clock ticks w1 linkedWorld nextPtr ctx].
    by destruct (earnsBoost _ _ _ _).
  - cbn. by destruct (earnsBoost _ _ _ _).
  - cbn. by destruct (earnsBoost _ _ _ _).
Qed.

(** C10. [insert] of a new block whose parent is known, with a live context and
    clock readings that stay in one slot, succeeds: it links the block as the
    last child of its parent with the target checkpoint of its epoch, indexes
    it by root and payload hash, gives it the proposer boost exactly when it is
    the first timely block of the current slot, recomputes every best
    descendant of the new tree, changes no other field of any node, and leaves
    a well-formed store ready for the next insertion. *)
Theorem insert_correct blk je fe ph p pn w t :
  insert_ready w t → payloadOf blk ph → nodeByRoot (store (fc w)) !! blkRoot blk = None →
  nodeByRoot (store (fc w)) !! blkParentRoot blk = Some p → heap w !! p = Some pn → steady_clock w →
  ∃ h', insert blk je fe w = (Ret (nextPtr w), insertedWorld blk ph h' w) ∧
    rewritten (relink (Epoch (justifiedCheckpoint (store (fc w))))
                 (ToEpoch (CurrentSlot (genesisTime (store (fc w))) (clock w (S (S (ticks w)))))))
      (heap (linkedWorld blk ph je fe p pn w)) [graft p (nextPtr w) t] h' ∧
    insert_ready (insertedWorld blk ph h' w) (graft p (nextPtr w) t).
Proof.
  intros Hr Hph Hnew Hpar Hpn Hclk. pose proof Hr as [Hwf Hctx [hn Hhn] Hlen].
  assert (p ∈ tptrs t) as Hp by (by apply (wf_index w t Hwf) in Hpar as [Hp _]).
  destruct (insert_run blk je fe ph p pn w t) as (h' & Hrun & Hrew); try done.
  exists h'. split; [done|]. split; [done|].
  destruct (insertedStore_keeps blk ph w) as (K1 & K2 & K3 & K4).
  pose proof (linkedWorld_wf blk ph je fe p pn w t Hwf Hnew Hp Hpn) as Hwf1.
  assert (same_skeleton (heap (linkedWorld blk ph je fe p pn w)) h') as Hsk.
  { intros q. by apply (relink_field skeleton _ _ _ _ _ q (λ _ _, eq_refl) Hrew). }
  constructor.
  - by apply (wf_same_skeleton (linkedWorld blk ph je fe p pn w)).
  - done.
  - cbn [heap insertedWorld fc store set_store]. pose proof (Hsk (highestReceivedNode (insertedStore blk ph w))) as E.
    destruct (h' !! _); [eauto|]. exfalso. destruct K4 as [K4|K4]; rewrite K4 in E; cbn in E.
    + destruct (wf_heap w t Hwf p pn Hpn). rewrite lookup_insert_ne, lookup_insert_eq in E by lia. done.
    + destruct (wf_heap w t Hwf _ _ Hhn).
      destruct (decide (highestReceivedNode (store (fc w)) = p)) as [Heq|Hne].
      * rewrite Heq in E. by rewrite lookup_insert_eq in E.
      * rewrite !lookup_insert_ne, Hhn in E by lia. done.
  - cbn [insertedWorld fc store set_store]. by rewrite K3.
Qed.
End insert.

(** ** Insertions that fail *)

Section insert_errors.
Context `{BeaconChainConfig}.

(** The heap may hold nodes outside the tree. *)
Lemma wf_garbage w w' t x :
  wf w t → heap w' = <[nextPtr w := x]> (heap w) → nextPtr w' = S (nextPtr w) → nextPtr w ≠ nilptr →
  treeRootNode (store (fc w')) = treeRootNode (store (fc w)) →
  nodeByRoot (store (fc w')) = nodeByRoot (store (fc w)) → wf w' t.
Proof.
  intros Hwf Hh Hn Hnil Ht Hi.
  assert (∀ q nd, q ∈ tptrs t → heap w' !! q = Some nd ↔ heap w !! q = Some nd) as Hsame.
  { intros q nd Hq. destruct (repr_ptr _ _ _ (wf_repr w t Hwf) Hq) as (y & Hy & _).
    destruct (wf_heap w t Hwf q y Hy). rewrite Hh, lookup_insert_ne by lia. done. }
  constructor; rewrite ?Ht, ?Hi, ?Hn.
  - apply Hwf.
  - eapply repr_frame; [|apply (wf_repr w t Hwf)]. intros q Hq.
    destruct (repr_ptr _ _ _ (wf_repr w t Hwf) Hq) as (y & Hy & _).
    by rewrite Hy, (proj2 (Hsame q y Hq) Hy).
  - apply Hwf.
  - intros s c nd Hs Hc Hnd%Hsame; [by apply (wf_parents w t Hwf s c)|]. apply subtrees_ptr; eauto with go.
  - intros nd Hnd%Hsame; [by apply (wf_top w t Hwf)|eauto with go].
  - intros r q. rewrite (wf_index w t Hwf). split; intros (Hq & nd & Hnd & Hr); (split; [done|]);
      exists nd; (split; [by apply Hsame|done]).
  - intros q nd. rewrite Hh. destruct (decide (q = nextPtr w)) as [->|Hne]; [auto|].
    rewrite lookup_insert_ne by done. intros Hnd. destruct (wf_heap w t Hwf q nd Hnd). split; [done|lia].
Qed.

(** C24. The other outcomes of [insert] change no block: a block whose execution
    payload cannot be read is refused, a known block is returned as it is, and
    a block with an unknown parent is refused with the invalid-parent error
    and the tree and its root index as they were. *)
Theorem insert_refuses blk je fe w t :
  wf w t → nextPtr w ≠ nilptr →
  (∀ e, (if versionNumber Bellatrix <=? versionNumber (blkVersion blk)
         then blkExecution blk else Ret 0) = Err e → insert blk je fe w = (Err e, w)) ∧
  (∀ ph q, payloadOf blk ph → nodeByRoot (store (fc w)) !! blkRoot blk = Some q →
           insert blk je fe w = (Ret q, w)) ∧
  (∀ ph, payloadOf blk ph → nodeByRoot (store (fc w)) !! blkRoot blk = None →
         nodeByRoot (store (fc w)) !! blkParentRoot blk = None →
         ∃ w', insert blk je fe w = (Err errInvalidParentRoot, w') ∧ wf w' t ∧
               nodeByRoot (store (fc w')) = nodeByRoot (store (fc w)) ∧
               (∀ q, q ∈ tptrs t → heap w' !! q = heap w !! q)).
Proof.
  intros Hwf Hn.
  assert (∀ ph, payloadOf blk ph → (if versionNumber Bellatrix <=? versionNumber (blkVersion blk)
            then mlift (blkExecution blk) else mret 0) w = (Ret ph, w)) as Hpay.
  { intros ph Hph. unfold payloadOf in Hph.
    destruct (_ <=? _); [unfold mlift; by rewrite Hph|by injection Hph as <-]. }
  split_and!.
  - intros e He. unfold insert, mseq, mlift. destruct (_ <=? _); [by rewrite He|done].
  - intros ph q Hph Hq. unfold insert. mstep with (Hpay ph Hph). mstep. by rewrite Hq.
  - intros ph Hph Hnew Hpar. unfold insert. mstep with (Hpay ph Hph). mstep. rewrite Hnew, Hpar. cbn [default].
    erewrite (mseq_ret timeNow) by reflexivity. erewrite (mseq_ret (alloc _)) by reflexivity.
    cbn [nextPtr set_ticks]. set (x0 := mkNode _ _ _ _ _ _ _ _ _ _ _ _ _ _ _). set (w1 := set_nextPtr _ _).
    assert (∃ x, (if blkSlot blk mod SlotsPerEpoch =? 0 then modify (nextPtr w) (set_target (nextPtr w))
             else if bool_decide (nilptr = nilptr) then mret tt
             else pn <~ deref nilptr;;
                  if ToEpoch (blkSlot blk) =? ToEpoch (slot pn) then modify (nextPtr w) (set_target (target pn))
                  else modify (nextPtr w) (set_target nilptr)) w1
           = (Ret tt, set_heap (<[nextPtr w := x]> (heap w)) w1)) as [x Hx].
    { destruct (_ =? 0).
      - exists (set_target (nextPtr w) x0). rewrite (modify_eq _ _ x0) by apply lookup_insert_eq.
        cbn. by rewrite insert_insert_eq.
      - exists x0. rewrite bool_decide_eq_true_2 by done. done. }
    mstep with Hx. rewrite !mseq_modStore. rewrite bool_decide_eq_true_2 by done.
    assert (treeRootNode (store (fc w)) ≠ nilptr) as Htr.
    { rewrite (wf_root w t Hwf). by destruct (repr_lookup _ _ (wf_repr w t Hwf)) as (? & ? & ? & _). }
    rewrite bool_decide_eq_false_2 by done. eexists. split; [cbn; reflexivity|]. cbn [store fc set_fc set_store].
    assert (nodeByRoot (store (fc w)) = delete (blkRoot blk) (<[blkRoot blk := nextPtr w]> (nodeByRoot (store (fc w))))) as Hdel.
    { by rewrite delete_insert_id. }
    split_and!; [|by cbn; rewrite <- Hdel|].
    + apply (wf_garbage w _ t x); try done.
    + intros q Hq. cbn. rewrite lookup_insert_ne; [done|]. intros <-.
      destruct (repr_ptr _ _ _ (wf_repr w t Hwf) Hq) as (y & Hy & _). destruct (wf_heap w t Hwf _ _ Hy). lia.
Qed.

(** [insert] reads the clock twice.  If a slot begins between the two
    readings, the block is refused with an error although it has been linked
    to its parent and indexed: the store reports the block as known, and
    offering it again returns it without an error. *)
Theorem insert_slot_boundary_leak blk je fe ph p pn w t :
  wf w t → payloadOf blk ph → nodeByRoot (store (fc w)) !! blkRoot blk = None →
  nodeByRoot (store (fc w)) !! blkParentRoot blk = Some p → heap w !! p = Some pn →
  let g := genesisTime (store (fc w)) in
  let now := clock w (S (ticks w)) in let cs := CurrentSlot g (clock w (S (S (ticks w)))) in
  g ≤ now → now - g ≤ maxInt64 → CurrentSlot g now < cs → cs * SecondsPerSlot * nsPerSecond ≤ maxInt64 →
  ∃ e w', insert blk je fe w = (Err e, w') ∧ wf w' (graft p (nextPtr w) t) ∧
    HasNode (fc w') (blkRoot blk) = true ∧ insert blk je fe w' = (Ret (nextPtr w), w').
Proof.
  intros Hwf Hph Hnew Hpar Hpn g now cs Hge Hmax Hlt Hcs.
  assert (p ∈ tptrs t) as Hp by (by apply (wf_index w t Hwf) in Hpar as [Hp _]).
  rewrite (insert_linked blk je fe ph p pn w t) by done. set (w1 := linkedWorld blk ph je fe p pn w).
  pose proof (SinceSlotStart_later g now cs Hge Hmax Hlt Hcs) as Herr.
  set (w2 := set_ticks (S (S (S (ticks w)))) w1).
  assert (∃ e, boostAndRelink (store (fc w)) (blkSlot blk) (blkRoot blk) (nextPtr w) w1 = (Err e, w2)) as [e He].
  { eexists. unfold boostAndRelink. erewrite (mseq_ret timeNow) by reflexivity.
    unfold timeBefore. change (clock w1 (ticks w1)) with now. fold g. replace (now <? g) with false by lia.
    erewrite (mseq_ret currentSlotM) by reflexivity. cbv beta.
    change (CurrentSlot _ (clock _ _)) with cs. unfold mseq, wrapM, mcatch, mlift. rewrite Herr. reflexivity. }
  exists e, w2. pose proof (linkedWorld_wf blk ph je fe p pn w t Hwf Hnew Hp Hpn) as Hwf1.
  split_and!.
  - unfold mseq at 1. by rewrite He.
  - by apply (wf_same_skeleton w1).
  - unfold HasNode. apply bool_decide_eq_true_2. cbn. rewrite lookup_insert_eq. eauto.
  - unfold insert. erewrite mseq_ret; [|instantiate (2 := ph)].
    2: { unfold payloadOf in Hph. destruct (_ <=? _); [unfold mlift; by rewrite Hph|by injection Hph as <-]. }
    mstep. cbn [w2 w1 linkedWorld fc store set_ticks set_store linkedStore set_nodeByRoot nodeByRoot].
    by rewrite lookup_insert_eq.
Qed.
End insert_errors.

(** ** Insertion and vote accounting *)

Section insert_votes.
Context `{BeaconChainConfig}.

Lemma insertedStore_keeps_votes blk ph w :
  slashedIndices (insertedStore blk ph w) = slashedIndices (store (fc w)) ∧
  previousProposerBoostRoot (insertedStore blk ph w) = previousProposerBoostRoot (store (fc w)) ∧
  previousProposerBoostScore (insertedStore blk ph w) = previousProposerBoostScore (store (fc w)).
Proof.
  unfold insertedStore, receivedStore, boostedStore.
  repeat (match goal with |- context [if ?b then _ else _] => destruct b end); done.
Qed.

(** A field of the nodes after the insertion. *)
Lemma inserted_field {A} (f : Node → A) je ce blk ph je' fe' p pn w t h' q :
  (∀ v nd, f (set_bestDescendant v nd) = f nd) → (∀ v nd, f (set_children v nd) = f nd) →
  wf w t → heap w !! p = Some pn →
  rewritten (relink je ce) (heap (linkedWorld blk ph je' fe' p pn w)) [graft p (nextPtr w) t] h' →
  f <$> h' !! q = if bool_decide (q = nextPtr w)
                  then Some (f (newNode blk ph je' fe' q p pn (clock w (ticks w))))
                  else f <$> heap w !! q.
Proof.
  intros Hb Hc Hwf Hpn Hrew. rewrite (relink_field f _ _ _ _ _ q Hb Hrew).
  destruct (wf_heap w t Hwf p pn Hpn) as [_ Hlt]. case_bool_decide as Hq.
  - subst q. cbn. by rewrite lookup_insert_ne, lookup_insert_eq by lia.
  - by apply (linkedWorld_field f blk ph je' fe' p pn w t).
Qed.

(** A successful insertion keeps the store ready for [Head]: with a block
    root that is not zero, has no counted votes and held no boost, and a boost
    that fits in 64 bits, the balances of the grown tree account for the votes
    as before, the new block starting at zero. *)
Theorem insert_keeps_head_ready blk je fe ph p pn w t :
  head_ready w t → insert_ready w t → payloadOf blk ph →
  nodeByRoot (store (fc w)) !! blkRoot blk = None →
  nodeByRoot (store (fc w)) !! blkParentRoot blk = Some p → heap w !! p = Some pn → steady_clock w →
  blkRoot blk ≠ ZeroHash → blkRoot blk ≠ previousProposerBoostRoot (store (fc w)) →
  voteSum (slashedIndices (store (fc w))) (votes (fc w)) currentRoot (balances (fc w)) (blkRoot blk) = 0 →
  boostScore (insertedStore blk ph w) +
    totalBalance (length (votes (fc w))) (justifiedBalances (fc w)) < two64 →
  ∃ h', insert blk je fe w = (Ret (nextPtr w), insertedWorld blk ph h' w) ∧
    head_ready (insertedWorld blk ph h' w) (graft p (nextPtr w) t).
Proof.
  intros Hr Hir Hph Hnew Hpar Hpn Hclk Hz Hb Hv Hfit. pose proof Hr as [Hwf Hctx Hroots Hold Hnn Hacc Hsc Hf1 _].
  assert (p ∈ tptrs t) as Hp by (by apply (wf_index w t Hwf) in Hpar as [Hp _]).
  destruct (insert_run blk je fe ph p pn w t) as (h' & Hrun & Hrew); try done.
  exists h'. split; [done|].
  destruct (insertedStore_keeps blk ph w) as (K1 & K2 & _), (insertedStore_keeps_votes blk ph w) as (K3 & K4 & K5).
  pose proof (λ q, inserted_field root _ _ blk ph je fe p pn w t h' q ltac:(done) ltac:(done) Hwf Hpn Hrew) as Froot.
  pose proof (λ q, inserted_field balance _ _ blk ph je fe p pn w t h' q ltac:(done) ltac:(done) Hwf Hpn Hrew) as Fbal.
  pose proof (λ q, relink_field skeleton _ _ _ _ _ q (λ _ _, eq_refl) Hrew) as Hsk.
  constructor; cbn [insertedWorld fc store set_store heap ctx votes balances justifiedBalances];
    rewrite ?K4, ?K5; try done.
  - apply (wf_same_skeleton (linkedWorld blk ph je fe p pn w)); [by apply linkedWorld_wf|done..].
  - intros q nd Hq Hnd. specialize (Froot q). rewrite Hnd in Froot. case_bool_decide as Hqn.
    + injection Froot as ->. done.
    + rewrite graft_tptrs in Hq by (done || apply Hwf).
      apply elem_of_cons in Hq as [Hq|Hq]; [done|].
      destruct (heap w !! q) as [nd0|] eqn:E; [|done]. injection Froot as ->. by apply (Hroots q).
  - intros r Hrz Hr'. rewrite K1 in Hr'. rewrite K3. unfold bal, balanceOf. rewrite K1.
    destruct (decide (r = blkRoot blk)) as [->|Hne].
    + rewrite lookup_insert_eq, Hv. specialize (Fbal (nextPtr w)). rewrite bool_decide_eq_true_2 in Fbal by done.
      destruct (h' !! nextPtr w) as [nd|]; [|done]. injection Fbal as ->.
      unfold boostOf. by replace (blkRoot blk =? _) with false by lia.
    + rewrite lookup_insert_ne in Hr' |- * by done. rewrite <- (Hacc r Hrz Hr'). unfold bal, balanceOf.
      destruct (nodeByRoot (store (fc w)) !! r) as [q|] eqn:Eq; [|done].
      apply (wf_index w t Hwf) in Eq as (_ & nd & Hnd & _). destruct (wf_heap w t Hwf q nd Hnd).
      specialize (Fbal q). rewrite bool_decide_eq_false_2, Hnd in Fbal by lia. rewrite Hnd.
      destruct (h' !! q); [|done]. by injection Fbal as ->.
Qed.
End insert_votes.

(** ** Witnesses *)

(** A block at slot 40, the current slot of the sample stores, on the block 20. *)
Definition sampleBlock : ROBlock := mkROBlock 60 40 20 Deneb (Ret 1060).

Lemma chain_insert_ready : insert_ready (H := mainnetBeaconConfig) chainWorld chainTree.
Proof.
  constructor; [apply chainWorld_wf|done|vm_compute; eauto|vm_compute; discriminate].
Qed.

Lemma demo_insert_ready : insert_ready (H := mainnetBeaconConfig) demoWorld demoTree.
Proof.
  constructor; [apply demo_ready|done|vm_compute; eauto|vm_compute; discriminate].
Qed.

Lemma insert_correct_witness :
  let H := mainnetBeaconConfig in
  proposerBoostRoot (insertedStore sampleBlock 1060 chainWorld) = 60 ∧
  ∃ h', insert sampleBlock 0 0 chainWorld = (Ret 6%nat, insertedWorld sampleBlock 1060 h' chainWorld) ∧
    insert_ready (insertedWorld sampleBlock 1060 h' chainWorld)
      (TNode 1 [TNode 2 [TNode 4 []; TNode 6 []]; TNode 3 [TNode 5 []]]).
Proof.
  intros H. split; [vm_compute; reflexivity|].
  destruct (@insert_correct mainnetBeaconConfig sampleBlock 0 0 1060 2 (chainNode 20 33 1 [4%nat] true)
              chainWorld chainTree chain_insert_ready) as (h' & H1 & _ & H3);
    [reflexivity|reflexivity|reflexivity|reflexivity|split_and!; vm_compute; congruence|].
  exists h'. split; [exact H1|exact H3].
Defined.

Lemma insert_refuses_witness :
  let H := mainnetBeaconConfig in
  insert (mkROBlock 40 35 20 Phase0 (Ret 0)) 0 0 chainWorld = (Ret 4%nat, chainWorld) ∧
  ∃ w', insert (mkROBlock 70 40 99 Phase0 (Ret 0)) 0 0 chainWorld = (Err errInvalidParentRoot, w') ∧
        wf w' chainTree.
Proof.
  intros H. split.
  - apply (@insert_refuses mainnetBeaconConfig (mkROBlock 40 35 20 Phase0 (Ret 0)) 0 0 chainWorld chainTree
             chainWorld_wf ltac:(done)) with (ph := 0); reflexivity.
  - destruct (@insert_refuses mainnetBeaconConfig (mkROBlock 70 40 99 Phase0 (Ret 0)) 0 0 chainWorld chainTree
                chainWorld_wf ltac:(done)) as (_ & _ & H3).
    destruct (H3 0) as (w' & Hw & Hwf & _); [reflexivity..|]. eauto.
Defined.

(** The sample store read just before and just after the start of slot 40. *)
Definition boundaryWorld : World :=
  mkWorld (fc chainWorld) chainHeap 6
    (λ k, if Nat.leb k 1 then 479999999999 else 480000000000) 0 None.

Lemma insert_slot_boundary_leak_witness :
  let H := mainnetBeaconConfig in
  ∃ e w', insert sampleBlock 0 0 boundaryWorld = (Err e, w') ∧
    wf w' (graft 2 6 chainTree) ∧ HasNode (fc w') 60 = true ∧
    insert sampleBlock 0 0 w' = (Ret 6%nat, w').
Proof.
  intros H.
  apply (@insert_slot_boundary_leak mainnetBeaconConfig sampleBlock 0 0 1060 2
           (chainNode 20 33 1 [4%nat] true) boundaryWorld chainTree);
    [|reflexivity|reflexivity|reflexivity|reflexivity|vm_compute; congruence..].
  apply wfb_sound. vm_compute. reflexivity.
Defined.

Lemma insert_keeps_head_ready_witness :
  let H := mainnetBeaconConfig in
  ∃ h', insert sampleBlock 0 0 demoWorld = (Ret 4%nat, insertedWorld sampleBlock 1060 h' demoWorld) ∧
    head_ready (insertedWorld sampleBlock 1060 h' demoWorld) (graft 2 4 demoTree).
Proof.
  intros H.
  apply (@insert_keeps_head_ready mainnetBeaconConfig sampleBlock 0 0 1060 2
           (demoNode 20 33 1 [] 64) demoWorld demoTree demo_ready demo_insert_ready);
    try reflexivity; try (vm_compute; congruence); split_and!; vm_compute; congruence.
Defined.
