(* ===== verification/ForkRemove.v ===== *)
(** * Removing invalid branches

    [removeNode], [removeNodeAndChildren] and [setOptimisticToInvalid] of
    [optimistic_sync.go] on a well-formed store: exactly the subtree of the
    first invalid block disappears from the tree and the indices, its roots
    are returned children first, and the votes of the surviving blocks are
    still accounted for. *)

From S2P Require Import Prelude MathHelper Primitives SlotTime ForkTypes ForkStore.
From S2P Require Import ForkStore ForkChoice ForkTree ForkGhost ForkVotes.
From S2P Require Import ForkHead ForkAttest ForkChain.

(** ** Cutting a subtree out of a tree *)

Definition swapCut (p : ptr) (cs : list tree) : list tree :=
  match list_find (λ c, tptr c = p) cs with
  | Some (i, _) =>
      match cs !! (length cs - 1)%nat with
      | Some l => take (length cs - 1) (<[i := l]> cs)
      | None => cs
      end
  | None => cs
  end.

(** [t] without the subtree at [p], which is not the top. *)
Fixpoint cut (p : ptr) (t : tree) : tree :=
  match t with TNode q cs => TNode q (swapCut p (map (cut p) cs)) end.

(** The pointers of a tree, children first. *)
Fixpoint postorder (t : tree) : list ptr :=
  match t with TNode p cs => flat_map postorder cs ++ [p] end.

Lemma swapCut_out p cs : p ∉ map tptr cs → swapCut p cs = cs.
Proof.
  intros Hp. unfold swapCut. rewrite (proj2 (list_find_None _ cs)); [done|].
  apply Forall_forall. intros c Hc <-. apply Hp. by apply list_elem_of_fmap_2.
Qed.

Lemma swapCut_perm p c cs :
  c ∈ cs → tptr c = p → (∀ d, d ∈ cs → tptr d = p → d = c) → cs ≡ₚ c :: swapCut p cs.
Proof.
  intros Hc Hp Huniq. unfold swapCut. destruct (list_find _ cs) as [[i d]|] eqn:E; cycle 1.
  { apply list_find_None in E. rewrite Forall_forall in E. by destruct (E c Hc). }
  apply list_find_Some in E as (Hi & Hd & _).
  assert (d = c) as -> by (apply Huniq; [by eapply list_elem_of_lookup_2|done]).
  destruct (cs !! (length cs - 1)%nat) as [z|] eqn:Ez; [by apply swap_remove_perm|].
  apply lookup_ge_None in Ez. apply lookup_lt_Some in Hi. lia.
Qed.

Lemma swapCut_in p cs d : d ∈ swapCut p cs → d ∈ cs.
Proof.
  unfold swapCut. destruct (list_find _ cs) as [[i c]|]; [|done].
  destruct (cs !! (length cs - 1)%nat) as [z|] eqn:Ez; [|done].
  intros Hd. apply list_elem_of_lookup in Hd as (j & Hj). apply lookup_take_Some in Hj as [Hj _].
  apply list_lookup_insert_Some in Hj as [(<- & <- & _)|[_ Hj]]; by eapply list_elem_of_lookup_2.
Qed.

Lemma swapRemove_map p cs : swapRemove (map tptr cs) p = map tptr (swapCut p cs).
Proof.
  unfold swapRemove, swapCut. rewrite (list_find_fmap tptr (λ q, q = p) cs), length_map, list_lookup_fmap.
  destruct (list_find _ cs) as [[i c]|]; [|done]. cbn.
  destruct (cs !! (length cs - 1)%nat) as [z|]; [|done]. cbn.
  by rewrite <- list_fmap_insert, <- firstn_map.
Qed.

Lemma tptr_cut p t : tptr (cut p t) = tptr t.
Proof. by destruct t. Qed.

Lemma map_tptr_cut p cs : map tptr (map (cut p) cs) = map tptr cs.
Proof. rewrite map_map. apply map_ext. intros c. apply tptr_cut. Qed.

Lemma cut_out p t : p ∉ flat_map tptrs (tchildren t) → cut p t = t.
Proof.
  induction t as [q cs IH] using tree_ind'. cbn. intros Hp. rewrite Forall_forall in IH.
  assert (map (cut p) cs = cs) as ->.
  { rewrite <- (map_id cs) at 2. apply map_ext_in. intros c Hc%list_elem_of_In. apply IH; [done|].
    intros Hin. apply Hp, elem_of_flat_map. exists c. split; [done|]. destruct c. cbn in *. set_solver. }
  rewrite swapCut_out; [done|]. intros (c & -> & Hc)%list_elem_of_fmap.
  apply Hp, elem_of_flat_map. eauto with go.
Qed.

Lemma postorder_perm t : postorder t ≡ₚ tptrs t.
Proof.
  induction t as [p cs IH] using tree_ind'. cbn. rewrite Permutation_app_comm. cbn. apply perm_skip.
  induction IH as [|c cs Hc _ IHcs]; [done|]. cbn. by rewrite Hc, IHcs.
Qed.

Lemma cut_subtrees p t s' : s' ∈ subtrees (cut p t) → ∃ s, s ∈ subtrees t ∧ s' = cut p s.
Proof.
  revert s'. induction t as [q cs IH] using tree_ind'. intros s' Hs'. cbn in Hs'.
  apply elem_of_cons in Hs' as [->|Hs']; [exists (TNode q cs); eauto with go|].
  apply elem_of_flat_map in Hs' as (c' & (c & -> & Hc)%swapCut_in%list_elem_of_fmap & Hs').
  rewrite Forall_forall in IH. destruct (IH c Hc s' Hs') as (s & Hs & ->).
  exists s. split; [|done]. cbn. right. apply elem_of_flat_map. eauto.
Qed.

(** Cutting below one child of a duplicate-free forest. *)
Lemma cut_forest p c cs s :
  NoDup (flat_map tptrs cs) → c ∈ cs → p ∈ flat_map tptrs (tchildren c) →
  tptrs c ≡ₚ s ++ tptrs (cut p c) →
  flat_map tptrs cs ≡ₚ s ++ flat_map tptrs (map (cut p) cs).
Proof.
  induction cs as [|d cs IH]; cbn; intros Hnd Hc Hp Hperm; [set_solver|].
  pose proof Hnd as (Hd & Hdisj & Hcs)%NoDup_app.
  assert (p ∈ tptrs c) as Hpc by (destruct c; cbn in *; set_solver).
  apply elem_of_cons in Hc as [->|Hc].
  - rewrite Hperm, <- app_assoc. do 2 f_equiv. rewrite (map_ext_in (cut p) id), map_id; [done|].
    intros e He%list_elem_of_In. apply cut_out. intros Hpe. apply (Hdisj p Hpc).
    apply elem_of_flat_map. exists e. split; [done|]. destruct e. cbn in *. set_solver.
  - rewrite (IH Hcs Hc Hp Hperm). rewrite (cut_out p d).
    + rewrite !app_assoc. f_equiv. apply Permutation_app_comm.
    + intros Hpd. apply (Hdisj p); [destruct d; cbn in *; set_solver|]. apply elem_of_flat_map. eauto.
Qed.

Lemma cut_tptrs t s :
  NoDup (tptrs t) → s ∈ subtrees t → tptr s ≠ tptr t →
  tptrs t ≡ₚ tptrs s ++ tptrs (cut (tptr s) t).
Proof.
  induction t as [q cs IH] using tree_ind'. intros Hnd Hs Hne. rewrite Forall_forall in IH.
  pose proof Hnd as [Hq Hcs]%NoDup_cons. cbn in Hs. apply elem_of_cons in Hs as [->|Hs]; [done|].
  apply elem_of_flat_map in Hs as (c & Hc & Hs). cbn [tptr] in Hne.
  assert (NoDup (tptrs c)) as Hndc by (by eapply NoDup_flat_map).
  destruct (decide (tptr s = tptr c)) as [Heq|Hneq].
  - assert (s = c) as -> by (eapply (subtree_unique c); eauto with go).
    assert (map (cut (tptr c)) cs = cs) as Hid.
    { rewrite <- (map_id cs) at 2. apply map_ext_in. intros d Hd%list_elem_of_In. apply cut_out. intros Hin.
      assert (tptr c ∈ tptrs d) as Hcd by (destruct d; cbn in *; set_solver).
      assert (d = c) as -> by (eapply (NoDup_flat_map_disjoint tptrs cs d c); eauto with go).
      destruct c as [x xs]. cbn in Hin, Hndc. by apply NoDup_cons in Hndc as [? _]. }
    cbn [cut tptrs]. rewrite Hid.
    assert (cs ≡ₚ c :: swapCut (tptr c) cs) as Hperm.
    { apply swapCut_perm; [done|done|]. intros d Hd Hdc.
      eapply (NoDup_flat_map_disjoint tptrs cs d c (tptr c)); eauto with go. rewrite <- Hdc. eauto with go. }
    assert (flat_map tptrs cs ≡ₚ tptrs c ++ flat_map tptrs (swapCut (tptr c) cs)) as ->.
    { change (tptrs c ++ _) with (flat_map tptrs (c :: swapCut (tptr c) cs)). by apply Permutation_flat_map. }
    by rewrite Permutation_middle.
  - assert (tptr s ∈ flat_map tptrs (tchildren c)) as Hin.
    { apply subtrees_ptr in Hs. destruct c as [x xs]. cbn in *. set_solver. }
    cbn [cut tptrs]. rewrite swapCut_out.
    + rewrite (cut_forest (tptr s) c cs (tptrs s)); [|done..|by apply IH]. by rewrite Permutation_middle.
    + rewrite map_tptr_cut. intros (d & Hd & Hdc)%list_elem_of_fmap.
      assert (d = c) as ->; [|done].
      eapply (NoDup_flat_map_disjoint tptrs cs d c (tptr s)); eauto with go. rewrite Hd. eauto with go.
Qed.

(** ** The heap after a cut *)

(** [h'] is [h] with [p] taken out of the children of [par]. *)
Definition unlinked_heap (h h' : gmap ptr Node) (p par : ptr) : Prop :=
  ∀ q, skeleton <$> h' !! q =
       (λ nd, (if bool_decide (q = par) then swapRemove (children nd) p else children nd,
               parent nd, root nd)) <$> h !! q.

(** [p] is a child of [par] only. *)
Definition only_parent (t : tree) (p par : ptr) : Prop :=
  ∀ s, s ∈ subtrees t → p ∈ map tptr (tchildren s) → tptr s = par.

Lemma unlinked_lookup h h' p par q nd :
  unlinked_heap h h' p par → h !! q = Some nd →
  ∃ nd', h' !! q = Some nd' ∧
         children nd' = (if bool_decide (q = par) then swapRemove (children nd) p else children nd) ∧
         parent nd' = parent nd ∧ root nd' = root nd.
Proof.
  intros Hu Hq. specialize (Hu q). rewrite Hq in Hu. destruct (h' !! q) as [nd'|]; [|done].
  exists nd'. unfold skeleton in Hu. cbn in Hu. naive_solver.
Qed.

Lemma unlinked_lookup_inv h h' p par q nd' :
  unlinked_heap h h' p par → h' !! q = Some nd' →
  ∃ nd, h !! q = Some nd ∧ parent nd' = parent nd ∧ root nd' = root nd.
Proof.
  intros Hu Hq. specialize (Hu q). rewrite Hq in Hu. destruct (h !! q) as [nd|]; [|done].
  exists nd. unfold skeleton in Hu. cbn in Hu. naive_solver.
Qed.

Lemma repr_cut h h' p par t :
  unlinked_heap h h' p par → only_parent t p par → repr h t → repr h' (cut p t).
Proof.
  intros Hu. induction t as [q cs IH] using tree_ind'. intros Hpar Hr.
  inversion Hr as [??? Hq Hnil Hch Hcs]; subst.
  destruct (unlinked_lookup h h' p par q nd Hu Hq) as (nd' & Hnd' & Hch' & _).
  cbn. apply (repr_node _ _ _ nd'); [done|done| |].
  - rewrite Hch', Hch, <- swapRemove_map, map_tptr_cut. case_bool_decide as Hqp; [done|].
    rewrite swapRemove_map, swapCut_out; [done|]. intros Hin. apply Hqp.
    by apply (Hpar (TNode q cs)); [apply subtrees_self|].
  - rewrite Forall_forall in *. intros d (c & -> & Hc)%swapCut_in%list_elem_of_fmap. apply IH; [done| |by apply Hcs].
    intros s Hs. apply Hpar. cbn. right. apply elem_of_flat_map. eauto.
Qed.

Lemma parents_cut h h' p par t : unlinked_heap h h' p par → parents_ok h t → parents_ok h' (cut p t).
Proof.
  intros Hu Hp s' c' nd' Hs' Hc' Hnd'. apply cut_subtrees in Hs' as (s & Hs & ->).
  destruct s as [q cs]. cbn in Hc' |- *. apply swapCut_in, list_elem_of_fmap in Hc' as (c & -> & Hc).
  rewrite tptr_cut in Hnd'. destruct (unlinked_lookup_inv h h' p par _ nd' Hu Hnd') as (nd & Hnd & -> & _).
  by apply (Hp (TNode q cs) c nd).
Qed.

(** In a well-formed store the parent pointer names the only parent. *)
Lemma wf_only_parent w t p nd :
  wf w t → heap w !! p = Some nd → only_parent t p (parent nd).
Proof.
  intros Hwf Hnd s Hs (c & Hc & Hin)%list_elem_of_fmap. symmetry.
  apply (wf_parents w t Hwf s c nd Hs Hin). by rewrite <- Hc.
Qed.

(** The roots of a list of nodes. *)
Definition rootsOf (h : gmap ptr Node) (l : list ptr) : list Z := map (rootOf h) l.

Lemma wf_cut w w' t s par :
  wf w t → s ∈ subtrees t → tptr s ≠ tptr t → unlinked_heap (heap w) (heap w') (tptr s) par →
  only_parent t (tptr s) par →
  (∀ r, nodeByRoot (store (fc w')) !! r =
        if bool_decide (r ∈ rootsOf (heap w) (tptrs s)) then None else nodeByRoot (store (fc w)) !! r) →
  treeRootNode (store (fc w')) = treeRootNode (store (fc w)) → nextPtr w' = nextPtr w →
  wf w' (cut (tptr s) t).
Proof.
  intros Hwf Hs Hne Hu Hop Hix Htr Hnext. pose proof (cut_tptrs t s (wf_nodup w t Hwf) Hs Hne) as Hperm.
  pose proof (wf_nodup w t Hwf) as Hnd. rewrite Hperm in Hnd. apply NoDup_app in Hnd as (_ & Hdisj & Hnd').
  assert (∀ q, q ∈ tptrs t ↔ q ∈ tptrs s ∨ q ∈ tptrs (cut (tptr s) t)) as Hin.
  { intros q. rewrite Hperm. apply elem_of_app. }
  constructor.
  - rewrite Htr, tptr_cut. apply Hwf.
  - apply (repr_cut (heap w) _ _ par); [done|done|apply Hwf].
  - done.
  - apply (parents_cut (heap w) _ _ par); [done|apply Hwf].
  - rewrite tptr_cut. intros nd' Hnd''. destruct (unlinked_lookup_inv _ _ _ _ _ _ Hu Hnd'') as (nd & Hx & -> & _).
    by apply (wf_top w t Hwf).
  - intros r q. rewrite Hix. case_bool_decide as Hr.
    + split; [done|]. intros (Hq & nd' & Hq' & Hroot). exfalso.
      destruct (unlinked_lookup_inv _ _ _ _ _ _ Hu Hq') as (nd & Hqn & _ & Hrn).
      apply list_elem_of_fmap in Hr as (q2 & Hr2 & Hq2).
      destruct (repr_ptr (heap w) t q2 (wf_repr w t Hwf)) as (n2 & Hn2 & _); [apply Hin; by left|].
      unfold rootOf in Hr2. rewrite Hn2 in Hr2.
      assert (q = q2) as ->; [|by apply (Hdisj q2)].
      assert (nodeByRoot (store (fc w)) !! r = Some q ∧ nodeByRoot (store (fc w)) !! r = Some q2) as [E1 E2]; [|congruence].
      split; apply (wf_index w t Hwf); (split; [apply Hin; auto|]); eexists; (split; [done|congruence]).
    + rewrite (wf_index w t Hwf). split.
      * intros (Hq & nd & Hqn & Hroot). destruct (unlinked_lookup _ _ _ _ _ _ Hu Hqn) as (nd' & Hn' & _ & _ & Hr').
        split; [|exists nd'; split; [done|congruence]]. apply Hin in Hq as [Hq|Hq]; [|done].
        exfalso. apply Hr, list_elem_of_fmap. exists q. unfold rootOf. by rewrite Hqn.
      * intros (Hq & nd' & Hq' & Hroot). destruct (unlinked_lookup_inv _ _ _ _ _ _ Hu Hq') as (nd & Hqn & _ & Hrn).
        split; [apply Hin; by right|]. exists nd. split; [done|congruence].
  - intros q nd' Hq'. destruct (unlinked_lookup_inv _ _ _ _ _ _ Hu Hq') as (nd & Hqn & _).
    rewrite Hnext. by apply (wf_heap w t Hwf q nd).
Qed.

(** ** The run of [removeNodeAndChildren] *)

(** Forgetting one node. *)
Definition dropNode (nd : Node) (s : Store) : Store :=
  let s1 := if root nd =? proposerBoostRoot s then set_proposerBoostRoot 0 s else s in
  let s2 := if root nd =? previousProposerBoostRoot s
            then set_previousProposerBoostScore 0 (set_previousProposerBoostRoot ZeroHash s1) else s1 in
  set_nodeByPayload (delete (payloadHash nd) (nodeByPayload s2))
    (set_nodeByRoot (delete (root nd) (nodeByRoot s2)) s2).

Definition dropPtr (h : gmap ptr Node) (s : Store) (p : ptr) : Store :=
  match h !! p with Some nd => dropNode nd s | None => s end.

Definition dropAll (h : gmap ptr Node) (l : list ptr) (s : Store) : Store := fold_left (dropPtr h) l s.

Definition withStore (s : Store) (w : World) : World := set_fc (set_store s (fc w)) w.

Definition removes (fuel : nat) (t : tree) : Prop := ∀ w inv,
  ctx w = None → repr (heap w) t →
  removeNodeAndChildren fuel (tptr t) inv w =
  (Ret (inv ++ rootsOf (heap w) (postorder t)),
   withStore (dropAll (heap w) (postorder t) (store (fc w))) w).

Lemma removes_forest fuel l : Forall (removes fuel) l → ∀ w inv,
  ctx w = None → Forall (repr (heap w)) l →
  mfold (λ inv child, checkCtx;;; removeNodeAndChildren fuel child inv) (map tptr l) inv w =
  (Ret (inv ++ rootsOf (heap w) (flat_map postorder l)),
   withStore (dropAll (heap w) (flat_map postorder l) (store (fc w))) w).
Proof.
  induction 1 as [|t l Ht _ IH]; intros w inv Hctx Hr.
  - cbn. rewrite app_nil_r. by destruct w as [[]].
  - apply Forall_cons in Hr as [Hrt Hrl]. cbn [map mfold flat_map].
    erewrite mseq_ret; [|rewrite (mseq_ret _ _ _ _ _ (checkCtx_eq w Hctx)); by apply Ht].
    rewrite IH by done. unfold rootsOf, dropAll. rewrite map_app, app_assoc, fold_left_app. done.
Qed.

Lemma removes_all fuel t : (theight t ≤ fuel)%nat → removes fuel t.
Proof.
  revert t. induction fuel as [|fuel IH]; intros [p cs] Hh; [cbn in Hh; lia|].
  intros w inv Hctx Hr. inversion Hr as [??? Hp Hnil Hch Hcs]; subst. cbn [removeNodeAndChildren tptr].
  mstep with (deref_eq p nd w Hp). rewrite Hch.
  erewrite mseq_ret; [|apply removes_forest; [|done|done]].
  2: { apply Forall_forall. intros c Hc. apply IH. pose proof (theight_child (TNode p cs) c Hc). lia. }
  cbv beta. set (w1 := withStore _ w).
  erewrite mseq_ret; [|apply (deref_eq p nd); exact Hp]. cbv beta.
  cbn [postorder]. unfold rootsOf, dropAll. rewrite map_app, fold_left_app, app_assoc.
  cbn [map fold_left].
  assert (rootOf (heap w) p = root nd) as -> by (unfold rootOf; by rewrite Hp).
  assert (∀ s, dropPtr (heap w) s p = dropNode nd s) as -> by (intros s; unfold dropPtr; by rewrite Hp).
  unfold dropNode. mstep. fold (dropAll (heap w) (flat_map postorder cs) (store (fc w))).
  change (store (fc w1)) with (dropAll (heap w) (flat_map postorder cs) (store (fc w))).
  destruct (root nd =? proposerBoostRoot _), (root nd =? previousProposerBoostRoot _);
    repeat mstep; reflexivity.
Qed.

(** ** What is forgotten *)

Lemma dropPtr_index h s p nd r :
  h !! p = Some nd →
  nodeByRoot (dropPtr h s p) !! r = if bool_decide (r = root nd) then None else nodeByRoot s !! r.
Proof.
  intros Hp. unfold dropPtr, dropNode. rewrite Hp. cbn.
  assert (nodeByRoot (if root nd =? previousProposerBoostRoot s
            then set_previousProposerBoostScore 0 (set_previousProposerBoostRoot ZeroHash
                   (if root nd =? proposerBoostRoot s then set_proposerBoostRoot 0 s else s))
            else if root nd =? proposerBoostRoot s then set_proposerBoostRoot 0 s else s) = nodeByRoot s) as ->.
  { by destruct (_ =? _), (_ =? _). }
  case_bool_decide as Hr; [subst; by rewrite lookup_delete_eq|by rewrite lookup_delete_ne].
Qed.

Lemma dropAll_index h l s r :
  (∀ p, p ∈ l → is_Some (h !! p)) →
  nodeByRoot (dropAll h l s) !! r =
  if bool_decide (r ∈ rootsOf h l) then None else nodeByRoot s !! r.
Proof.
  revert s. induction l as [|p l IH]; intros s Hl; [done|]. unfold dropAll in *. cbn [fold_left].
  destruct (Hl p) as [nd Hnd]; [set_solver|]. rewrite IH by set_solver. rewrite (dropPtr_index _ _ _ nd) by done.
  assert (rootOf h p = root nd) as Hr by (unfold rootOf; by rewrite Hnd). unfold rootsOf. cbn [map].
  destruct (decide (r ∈ map (rootOf h) l)) as [Hin|Hin].
  - by rewrite !bool_decide_eq_true_2 by set_solver.
  - rewrite (bool_decide_eq_false_2 (r ∈ map (rootOf h) l)) by done.
    rewrite (bool_decide_ext (r ∈ rootOf h p :: _) (r = root nd)) by set_solver. done.
Qed.

(** Forgetting nodes touches the indices and the boosts only. *)
Lemma dropAll_keeps {A} (f : Store → A) h l s :
  (∀ v s, f (set_proposerBoostRoot v s) = f s) → (∀ v s, f (set_previousProposerBoostRoot v s) = f s) →
  (∀ v s, f (set_previousProposerBoostScore v s) = f s) → (∀ v s, f (set_nodeByRoot v s) = f s) →
  (∀ v s, f (set_nodeByPayload v s) = f s) → f (dropAll h l s) = f s.
Proof.
  intros H1 H2 H3 H4 H5. revert s. induction l as [|p l IH]; intros s; [done|].
  unfold dropAll in *. cbn [fold_left]. rewrite IH. unfold dropPtr. destruct (h !! p) as [nd|]; [|done].
  unfold dropNode. rewrite H5, H4. destruct (_ =? _), (_ =? _); by rewrite ?H3, ?H2, ?H1.
Qed.

(** A boost on a forgotten block is taken back. *)
Lemma dropAll_boost h l s :
  (∀ p, p ∈ l → is_Some (h !! p)) →
  proposerBoostRoot (dropAll h l s) =
    (if bool_decide (proposerBoostRoot s ∈ rootsOf h l) then 0 else proposerBoostRoot s) ∧
  previousProposerBoostRoot (dropAll h l s) =
    (if bool_decide (previousProposerBoostRoot s ∈ rootsOf h l) then ZeroHash else previousProposerBoostRoot s) ∧
  previousProposerBoostScore (dropAll h l s) =
    (if bool_decide (previousProposerBoostRoot s ∈ rootsOf h l) then 0 else previousProposerBoostScore s).
Proof.
  revert s. induction l as [|p l IH]; intros s Hl; [done|]. unfold dropAll in *. cbn [fold_left].
  destruct (Hl p) as [nd Hnd]; [set_solver|].
  destruct (IH (dropPtr h s p)) as (-> & -> & ->); [set_solver|].
  assert (rootOf h p = root nd) as Hr by (unfold rootOf; by rewrite Hnd). unfold rootsOf. cbn [map].
  rewrite Hr. unfold dropPtr. rewrite Hnd. unfold dropNode.
  assert (∀ x, bool_decide (x ∈ root nd :: map (rootOf h) l) =
               (root nd =? x) || bool_decide (x ∈ map (rootOf h) l)) as Hb.
  { intros x. apply eq_true_iff_eq. rewrite orb_true_iff, !bool_decide_eq_true, Z.eqb_eq. set_solver. }
  rewrite !Hb. destruct (Z.eqb_spec (root nd) (proposerBoostRoot s)) as [E1|E1],
    (Z.eqb_spec (root nd) (previousProposerBoostRoot s)) as [E2|E2]; cbn;
    split_and!; try done; by case_bool_decide.
Qed.

(** ** [removeNode] *)

Lemma subtree_parent t s :
  s ∈ subtrees t → s = t ∨ ∃ u, u ∈ subtrees t ∧ s ∈ tchildren u.
Proof.
  revert s. induction t as [q cs IH] using tree_ind'. intros s Hs. cbn in Hs.
  apply elem_of_cons in Hs as [->|Hs]; [by left|]. apply elem_of_flat_map in Hs as (c & Hc & Hs). right.
  rewrite Forall_forall in IH. destruct (IH c Hc s Hs) as [->|(u & Hu & Hsu)].
  - exists (TNode q cs). eauto with go.
  - exists u. split; [|done]. cbn. right. apply elem_of_flat_map. eauto.
Qed.

(** The heap and the store once the subtree at [s] is removed. *)
Definition removedWorld (s : tree) (nd pn : Node) (w : World) : World :=
  withStore (dropAll (heap w) (postorder s) (store (fc w)))
    (set_heap (<[parent nd := set_children (swapRemove (children pn) (tptr s)) pn]> (heap w)) w).

Lemma wf_subtree_parent w t s nd :
  wf w t → s ∈ subtrees t → tptr s ≠ tptr t → heap w !! tptr s = Some nd →
  ∃ pn u, heap w !! parent nd = Some pn ∧ parent nd ≠ nilptr ∧ (parent nd ∉ tptrs s) ∧
    u ∈ subtrees t ∧ s ∈ tchildren u ∧ tptr u = parent nd ∧ children pn = map tptr (tchildren u).
Proof.
  intros Hwf Hs Hne Hnd. destruct (subtree_parent t s Hs) as [->|(u & Hu & Hsu)]; [done|].
  pose proof (wf_parents w t Hwf u s nd Hu Hsu Hnd) as Hpar.
  destruct (repr_lookup (heap w) u) as (pn & Hpn & Hnil & Hch); [by eapply repr_subtree, Hu; apply Hwf|].
  exists pn, u. rewrite Hpar. split_and!; try done.
  assert (NoDup (tptrs u)) as Hndu by (eapply NoDup_subtree; [apply Hwf|done]).
  destruct u as [q cs]. cbn in *. apply NoDup_cons in Hndu as [Hq _]. intros Hin. apply Hq, elem_of_flat_map. eauto.
Qed.

Lemma swapRemove_single p : swapRemove [p] p = [].
Proof. unfold swapRemove. cbn. by rewrite decide_True. Qed.

Lemma removeNode_run w t s nd :
  wf w t → ctx w = None → s ∈ subtrees t → tptr s ≠ tptr t → heap w !! tptr s = Some nd →
  optimistic nd = true →
  ∃ pn, heap w !! parent nd = Some pn ∧
    removeNode (tptr s) w = (Ret (rootsOf (heap w) (postorder s)), removedWorld s nd pn w).
Proof.
  intros Hwf Hctx Hs Hne Hnd Hopt.
  destruct (wf_subtree_parent w t s nd Hwf Hs Hne Hnd) as (pn & u & Hpn & Hnil & Hout & Hu & Hsu & Hup & Hch).
  exists pn. split; [done|]. unfold removeNode.
  destruct (wf_heap w t Hwf _ _ Hnd) as [Hsn _]. rewrite bool_decide_eq_false_2 by done.
  mstep with (deref_eq _ nd w Hnd). rewrite Hopt, bool_decide_eq_false_2 by done. cbn [negb orb].
  mstep with (deref_eq _ pn w Hpn).
  set (w1 := set_heap (<[parent nd := set_children (swapRemove (children pn) (tptr s)) pn]> (heap w)) w).
  erewrite mseq_ret; [|instantiate (1 := w1); instantiate (1 := tt)].
  2: { case_bool_decide as Hl; rewrite (modify_eq _ _ pn) by done; [|done].
       unfold w1. destruct (children pn) as [|x [|]] eqn:E; try done.
       assert (tptr s ∈ [x]) as ->%list_elem_of_singleton.
       { rewrite Hch. by apply list_elem_of_fmap_2. }
       by rewrite swapRemove_single. }
  mstep. assert (∀ q, q ∈ tptrs s → heap w1 !! q = heap w !! q) as Hsame.
  { intros q Hq. cbn. rewrite lookup_insert_ne by congruence. done. }
  assert (repr (heap w1) s) as Hrs.
  { eapply repr_frame; [|eapply repr_subtree; [apply Hwf|exact Hs]]. intros q Hq. by rewrite Hsame. }
  assert (NoDup (tptrs s)) as Hnds by (eapply NoDup_subtree; [apply Hwf|done]).
  rewrite (removes_all (S (size (heap w1))) s) by (try done; pose proof (repr_fuel _ _ Hrs Hnds); lia).
  assert (∀ q, q ∈ postorder s → heap w1 !! q = heap w !! q) as Hsame'.
  { intros q Hq. apply Hsame. by rewrite <- postorder_perm. }
  f_equal; [f_equal; apply map_ext_in; intros q Hq%list_elem_of_In; unfold rootOf; by rewrite Hsame'|].
  unfold removedWorld, withStore. do 2 f_equal. unfold dropAll.
  clear -Hsame'. change (store (fc w1)) with (store (fc w)). generalize (store (fc w)).
  induction (postorder s) as [|q l IH]; intros st; [done|]. cbn [fold_left]. rewrite IH by set_solver.
  f_equal. unfold dropPtr. by rewrite Hsame' by set_solver.
Qed.

Lemma removedWorld_wf w t s nd pn :
  wf w t → s ∈ subtrees t → tptr s ≠ tptr t → heap w !! tptr s = Some nd → heap w !! parent nd = Some pn →
  wf (removedWorld s nd pn w) (cut (tptr s) t).
Proof.
  intros Hwf Hs Hne Hnd Hpn. apply (wf_cut w _ t s (parent nd)); try done.
  - intros q. cbn. destruct (decide (q = parent nd)) as [->|Hq].
    + by rewrite lookup_insert_eq, bool_decide_eq_true_2, Hpn.
    + rewrite lookup_insert_ne, bool_decide_eq_false_2 by done. by destruct (heap w !! q).
  - by apply (wf_only_parent w).
  - intros r. cbn. rewrite dropAll_index.
    + unfold rootsOf. rewrite (bool_decide_ext (r ∈ map (rootOf (heap w)) (postorder s)) (r ∈ map (rootOf (heap w)) (tptrs s))); [done|].
      by rewrite postorder_perm.
    + intros q Hq. rewrite postorder_perm in Hq.
      destruct (repr_ptr (heap w) t q (wf_repr w t Hwf)) as (x & -> & _); [|eauto]. eauto with go.
  - cbn. by apply (dropAll_keeps treeRootNode).
Qed.

Section remove.
Context `{BeaconChainConfig}.

Lemma removed_field {A} (f : Node → A) w s nd pn q :
  (∀ v nd, f (set_children v nd) = f nd) → heap w !! parent nd = Some pn →
  f <$> heap (removedWorld s nd pn w) !! q = f <$> heap w !! q.
Proof.
  intros Hf Hpn. cbn. destruct (decide (q = parent nd)) as [->|Hq].
  - rewrite lookup_insert_eq, Hpn. cbn. by rewrite Hf.
  - by rewrite lookup_insert_ne by done.
Qed.

(** The votes of the surviving blocks are accounted for as before. *)
Lemma removed_head_ready w t s nd pn :
  head_ready w t → s ∈ subtrees t → tptr s ≠ tptr t → heap w !! tptr s = Some nd →
  heap w !! parent nd = Some pn → head_ready (removedWorld s nd pn w) (cut (tptr s) t).
Proof.
  intros Hr Hs Hne Hnd Hpn. pose proof Hr as [Hwf Hctx Hroots Hold Hnn Hacc Hsc Hf1 Hf2].
  set (w' := removedWorld s nd pn w). set (st := store (fc w)).
  assert (∀ q, q ∈ postorder s → is_Some (heap w !! q)) as Hl.
  { intros q Hq. rewrite postorder_perm in Hq.
    destruct (repr_ptr (heap w) t q (wf_repr w t Hwf)) as (x & -> & _); [|eauto]. eauto with go. }
  pose proof (dropAll_boost (heap w) (postorder s) st Hl) as (B1 & B2 & B3).
  assert (∀ r, nodeByRoot (store (fc w')) !! r =
               if bool_decide (r ∈ rootsOf (heap w) (postorder s)) then None else nodeByRoot st !! r) as Hix.
  { intros r. by apply dropAll_index. }
  assert (0 ≤ totalBalance (length (votes (fc w))) (balances (fc w))).
  { apply Zsum_nonneg, Forall_forall. intros z (i & -> & _)%list_elem_of_fmap. apply Hold. }
  constructor.
  - by apply removedWorld_wf.
  - done.
  - intros q x Hq Hx. pose proof (cut_tptrs t s (wf_nodup w t Hwf) Hs Hne) as Hperm.
    pose proof (removed_field root w s nd pn q ltac:(done) Hpn) as E. fold w' in E. rewrite Hx in E.
    destruct (heap w !! q) as [x0|] eqn:Ex; [|done]. injection E as ->. apply (Hroots q); [|done].
    rewrite Hperm. set_solver.
  - done.
  - done.
  - intros r Hz Hr'. rewrite Hix in Hr'. unfold bal. rewrite Hix. case_bool_decide as Hin; [by destruct Hr'|].
    cbn [w' removedWorld withStore fc store set_fc set_store set_heap heap votes balances].
    fold st. rewrite B2, B3. rewrite (dropAll_keeps slashedIndices) by done.
    pose proof (Hacc r Hz Hr') as Hb. unfold bal in Hb. fold st in Hb.
    destruct (nodeByRoot st !! r) as [q|]; [|done]. unfold balanceOf in Hb |- *.
    pose proof (removed_field balance w s nd pn q ltac:(done) Hpn) as E. cbn in E.
    destruct (heap w !! q) as [x|], (_ !! q) as [y|]; try done; [injection E as ->|]; rewrite Hb; f_equal;
      (case_bool_decide as Hp; [|done]); unfold boostOf;
      replace (r =? previousProposerBoostRoot st) with false by (symmetry; apply Z.eqb_neq; by intros ->);
      rewrite Z.eqb_refl; cbn; by rewrite andb_false_r.
  - cbn. fold st. rewrite B3. case_bool_decide; [done|exact Hsc].
  - cbn [w' removedWorld withStore fc store set_fc set_store set_heap votes balances justifiedBalances]. fold st. rewrite B3. fold st in Hf1, Hsc. case_if; lia.
  - assert (boostScore (store (fc w')) = boostScore st ∨ boostScore (store (fc w')) = 0) as Hb.
    { unfold boostScore. rewrite Hix. cbn [w' removedWorld withStore fc store set_fc set_store set_heap].
      fold st. rewrite B1, (dropAll_keeps committeeWeight) by done.
      destruct (decide (proposerBoostRoot st ∈ rootsOf (heap w) (postorder s))) as [Hp|Hp].
      - right. by rewrite (bool_decide_eq_true_2 (proposerBoostRoot st ∈ _)) by done.
      - left. rewrite (bool_decide_eq_false_2 (proposerBoostRoot st ∈ _)) by done.
        by rewrite (bool_decide_eq_false_2 (proposerBoostRoot st ∈ _)) by done. }
    cbn [w' removedWorld withStore fc set_fc set_store set_heap votes justifiedBalances] in *. fold st in Hf2.
    assert (0 ≤ boostScore st) by apply boostScore_nonneg.
    destruct Hb as [->| ->]; lia.
Qed.

(** ** The first invalid block *)

Definition payloadAt (h : gmap ptr Node) (p : ptr) : Z :=
  match h !! p with Some nd => payloadHash nd | None => 0 end.

Definition parentAt (h : gmap ptr Node) (p : ptr) : ptr :=
  match h !! p with Some nd => parent nd | None => nilptr end.

(** Going up from [p], [a] is the last block before one with the payload [lvh],
    or the top of the tree if there is none. *)
Definition first_invalid (h : gmap ptr Node) (t : tree) (p : ptr) (lvh : Z) (a : ptr) : Prop :=
  ancestor t a p ∧
  (∀ b, ancestor t b p → ancestor t a b → b ≠ p → payloadAt h b ≠ lvh) ∧
  (a = tptr t ∨ (a ≠ tptr t ∧ payloadAt h (parentAt h a) = lvh)).

Lemma findFirstInvalid_run w t lvh fuel p l :
  wf w t → ctx w = None → p ∈ tptrs t → upchain (heap w) p l → (length l ≤ fuel)%nat →
  ∃ a, findFirstInvalid fuel p lvh w = (Ret a, w) ∧ first_invalid (heap w) t p lvh a.
Proof.
  intros Hwf Hctx. revert p l. induction fuel as [|fuel IH]; intros p l Hp Hup Hf.
  { destruct l; [|cbn in Hf; lia]. inversion Hup; subst.
    by destruct (repr_ptr _ _ _ (wf_repr w t Hwf) Hp) as (? & ? & []). }
  destruct (repr_ptr _ _ _ (wf_repr w t Hwf) Hp) as (nd & Hnd & Hnil).
  cbn [findFirstInvalid]. mstep with (deref_eq p nd w Hnd).
  destruct (decide (p = tptr t)) as [->|Hpt].
  { rewrite bool_decide_eq_true_2 by (by apply (wf_top w t Hwf)). exists (tptr t). split; [done|].
    split_and!; [by apply ancestor_refl| |by left]. intros b Hb _ Hne. exfalso.
    destruct (wf_upchain w t (tptr t) Hwf Hp) as (l' & Hup' & Hin). apply Hin in Hb.
    inversion Hup'; subst; [done|]. simplify_eq. rewrite (wf_top w t Hwf nd Hnd) in *.
    match goal with Hx : upchain _ nilptr _ |- _ => apply upchain_nil_inv in Hx as -> end. set_solver. }
  destruct (wf_step_up w t p nd Hwf Hp Hnd Hpt) as [Hpar Hanc].
  destruct (repr_ptr _ _ _ (wf_repr w t Hwf) Hpar) as (pn & Hpn & Hpnil).
  rewrite bool_decide_eq_false_2 by done. mstep with (deref_eq (parent nd) pn w Hpn).
  assert (payloadAt (heap w) (parent nd) = payloadHash pn) as Hpp by (unfold payloadAt; by rewrite Hpn).
  destruct (Z.eqb_spec (payloadHash pn) lvh) as [Heq|Hne].
  - exists p. split; [done|]. split_and!; [by apply ancestor_refl| |right; split; [done|]].
    + intros b Hbp Hpb Hb. exfalso. apply Hb. destruct Hbp as (s & Hs & <- & Hps), Hpb as (s' & Hs' & Hp' & Hbs).
      eapply (ancestor_antisym t); [apply Hwf|exists s; done|exists s'; done].
    + unfold parentAt. rewrite Hnd. by rewrite Hpp.
  - mstep with (checkCtx_eq w Hctx). inversion Hup as [|? nd' l' _ Hnd' Hup']; subst; [done|]. simplify_eq.
    destruct (IH (parent nd) l' Hpar Hup' ltac:(cbn in Hf; lia)) as (a & Hrun & Ha & Hpay & Htop).
    exists a. split; [done|]. split_and!; [apply Hanc; by right| |done].
    intros b Hb Hab Hbp. apply Hanc in Hb as [->|Hb]; [done|].
    destruct (decide (b = parent nd)) as [->|Hbne]; [by rewrite Hpp|by apply Hpay].
Qed.

Lemma wf_parent_ne w t p nd :
  wf w t → p ∈ tptrs t → heap w !! p = Some nd → parent nd ≠ p.
Proof.
  intros Hwf Hp Hnd Heq. destruct (wf_upchain w t p Hwf Hp) as (l & Hup & _).
  destruct (upchain_cons_inv _ _ _ nd Hup) as (l' & -> & Hup'); [by destruct (wf_heap w t Hwf _ _ Hnd)|done|].
  rewrite Heq in Hup'.
  pose proof (upchain_det _ _ _ _ Hup' Hup) as Hl. apply (f_equal length) in Hl. cbn in Hl. lia.
Qed.

(** What is removed: the subtree of [victim], if it is still optimistic. *)
Definition removal (w : World) (t : tree) (victim : ptr) (m : outcome (list Z) * World) : Prop :=
  ∃ s, s ∈ subtrees t ∧ tptr s = victim ∧
    if optimisticAt (heap w) victim
    then ∃ w', m = (Ret (rootsOf (heap w) (postorder s)), w') ∧ wf w' (cut victim t) ∧
           (∀ r, HasNode (fc w') r = true ↔
                 HasNode (fc w) r = true ∧ r ∉ rootsOf (heap w) (tptrs s)) ∧
           (head_ready w t → head_ready w' (cut victim t))
    else m = (Err errInvalidOptimisticStatus, w).

Lemma removeNode_removal w t p :
  wf w t → ctx w = None → p ∈ tptrs t → p ≠ tptr t → removal w t p (removeNode p w).
Proof.
  intros Hwf Hctx (s & Hs & <-)%tptrs_subtree Hne. exists s. split; [done|]. split; [done|].
  destruct (repr_lookup (heap w) s) as (nd & Hnd & Hnil & _); [by eapply repr_subtree, Hs; apply Hwf|].
  unfold optimisticAt. rewrite Hnd. destruct (optimistic nd) eqn:Hopt.
  - destruct (removeNode_run w t s nd) as (pn & Hpn & Hrun); try done.
    exists (removedWorld s nd pn w). split; [done|]. split; [by apply removedWorld_wf|].
    split; [|intros Hr; by apply removed_head_ready].
    intros r. unfold HasNode. rewrite !bool_decide_eq_true. cbn. rewrite dropAll_index.
    + unfold rootsOf. rewrite (bool_decide_ext (r ∈ map (rootOf (heap w)) (postorder s)) (r ∈ map (rootOf (heap w)) (tptrs s)))
        by (by rewrite postorder_perm).
      case_bool_decide as Hr; [|tauto]. split; [by intros []|]. naive_solver.
    + intros q Hq. rewrite postorder_perm in Hq.
      destruct (repr_ptr (heap w) t q (wf_repr w t Hwf)) as (x & -> & _); [|eauto]. eauto with go.
  - unfold removeNode. rewrite bool_decide_eq_false_2 by done. mstep with (deref_eq _ nd w Hnd).
    by rewrite Hopt.
Qed.

(** C13. [SetOptimisticToInvalid] on a known block whose parent root matches
    removes exactly the subtree of the first invalid block: going up from the
    block, the last one before the block with the last valid payload (the block
    itself if no ancestor has that payload).  It returns the roots of the
    subtree children first, the indices forget exactly those roots, the store
    stays well formed and ready for [Head]; if the first invalid block was
    already validated nothing changes and the call fails. *)
Theorem SetOptimisticToInvalid_known w t r pr lvh p nd pn :
  wf w t → ctx w = None → nodeByRoot (store (fc w)) !! r = Some p → heap w !! p = Some nd →
  heap w !! parent nd = Some pn → root pn = pr →
  ∃ a, first_invalid (heap w) t p lvh a ∧
    removal w t (if bool_decide (a = tptr t) then p else a) (SetOptimisticToInvalid r pr lvh w).
Proof.
  intros Hwf Hctx Hr Hnd Hpn Hpr. apply (wf_index w t Hwf) in Hr as Hr'. destruct Hr' as (Hp & nd' & Hnd' & Hroot).
  simplify_eq. destruct (wf_heap w t Hwf p nd Hnd) as [Hpnil _], (wf_heap w t Hwf _ _ Hpn) as [Hparnil _].
  assert (p ≠ tptr t) as Hpt by (intros ->; by rewrite (wf_top w t Hwf nd Hnd) in Hparnil).
  destruct (wf_step_up w t p nd Hwf Hp Hnd Hpt) as [Hpar _].
  destruct (wf_upchain w t p Hwf Hp) as (l & Hup & _). pose proof (upchain_length _ _ _ Hup) as Hlen.
  destruct (findFirstInvalid_run w t lvh (S (size (heap w))) p l) as (a & Hrun & Ha); try done; [lia|].
  exists a. split; [done|]. unfold SetOptimisticToInvalid, setOptimisticToInvalid. mstep. rewrite Hr.
  rewrite (bool_decide_eq_false_2 (p = nilptr)) by done. rewrite !mseq_assoc. mstep with (deref_eq p nd w Hnd).
  rewrite !mseq_assoc. mstep with (deref_eq _ pn w Hpn). rewrite Z.eqb_refl. cbn [negb]. mstep. mstep.
  mstep with Hrun. pose proof (proj1 (ancestor_in _ _ _ (proj1 Ha))) as Hat.
  destruct (repr_ptr _ _ _ (wf_repr w t Hwf) Hat) as (an & Han & _). mstep with (deref_eq a an w Han).
  destruct (decide (a = tptr t)) as [->|Hatop].
  - rewrite (bool_decide_eq_true_2 (tptr t = tptr t)) by done.
    rewrite bool_decide_eq_true_2 by (by apply (wf_top w t Hwf)). mstep with (deref_eq p nd w Hnd).
    assert (root nd ≠ root pn) as Hrne.
    { intros Heq. assert (nodeByRoot (store (fc w)) !! root nd = Some (parent nd)) as E.
      { apply (wf_index w t Hwf). eauto. }
      by destruct (wf_parent_ne w t p nd Hwf Hp Hnd); congruence. }
    rewrite (proj2 (Z.eqb_neq _ _) Hrne). by apply removeNode_removal.
  - rewrite (bool_decide_eq_false_2 (a = tptr t)) by done.
    rewrite bool_decide_eq_false_2.
    + by apply removeNode_removal.
    + destruct (wf_step_up w t a an Hwf Hat Han Hatop) as [Hx _].
      by destruct (repr_ptr _ _ _ (wf_repr w t Hwf) Hx) as (? & ? & ?).
Qed.

(** [SetOptimisticToInvalid] on a block that was never inserted works from its
    parent: nothing happens if the parent has the last valid payload or if no
    block above it has, and otherwise exactly the subtree of the first invalid
    block, found going up from the parent, is removed.  With an unknown parent
    too, or with a known block and a parent root that is not its parent's, the
    call fails and changes nothing. *)
Theorem SetOptimisticToInvalid_unknown w t r pr lvh :
  wf w t → ctx w = None →
  (∀ p, nodeByRoot (store (fc w)) !! r = None → nodeByRoot (store (fc w)) !! pr = Some p →
     if payloadAt (heap w) p =? lvh then SetOptimisticToInvalid r pr lvh w = (Ret [], w)
     else ∃ a, first_invalid (heap w) t p lvh a ∧
       if bool_decide (a = tptr t) then SetOptimisticToInvalid r pr lvh w = (Ret [], w)
       else removal w t a (SetOptimisticToInvalid r pr lvh w)) ∧
  (nodeByRoot (store (fc w)) !! r = None → nodeByRoot (store (fc w)) !! pr = None →
     SetOptimisticToInvalid r pr lvh w = (Err (wrapErr ErrNilNode "could not set node to invalid"), w)) ∧
  (∀ p nd pn, nodeByRoot (store (fc w)) !! r = Some p → heap w !! p = Some nd →
     heap w !! parent nd = Some pn → root pn ≠ pr →
     SetOptimisticToInvalid r pr lvh w = (Err errInvalidParentRoot, w)).
Proof.
  intros Hwf Hctx. pose proof (wf_index_ok w t Hwf) as Hix.
  unfold SetOptimisticToInvalid, setOptimisticToInvalid. split_and!.
  - intros p Hr Hpr. apply (wf_index w t Hwf) in Hpr as Hpr'. destruct Hpr' as (Hp & nd & Hnd & Hroot).
    rewrite mseq_getStore, Hr, (lookupRoot_index _ (heap w)) by done. rewrite Hpr, !mseq_assoc.
    rewrite !(mseq_ret _ _ _ _ _ (deref_eq p nd w Hnd)).
    assert (payloadAt (heap w) p = payloadHash nd) as -> by (unfold payloadAt; by rewrite Hnd).
    destruct (payloadHash nd =? lvh); [done|]. mstep. mstep.
    destruct (wf_upchain w t p Hwf Hp) as (l & Hup & _). pose proof (upchain_length _ _ _ Hup) as Hlen.
    destruct (findFirstInvalid_run w t lvh (S (size (heap w))) p l) as (a & Hrun & Ha); try done; [lia|].
    exists a. split; [done|]. rewrite !(mseq_ret _ _ _ _ _ Hrun).
    pose proof (proj1 (ancestor_in _ _ _ (proj1 Ha))) as Hat.
    destruct (repr_ptr _ _ _ (wf_repr w t Hwf) Hat) as (an & Han & _).
    rewrite !(mseq_ret _ _ _ _ _ (deref_eq a an w Han)).
    destruct (decide (a = tptr t)) as [->|Hatop].
    + rewrite !bool_decide_eq_true_2 by (done || by apply (wf_top w t Hwf)).
      mstep with (deref_eq p nd w Hnd). by rewrite Hroot, Z.eqb_refl.
    + rewrite (bool_decide_eq_false_2 (a = tptr t)) by done. rewrite bool_decide_eq_false_2.
      * by apply removeNode_removal.
      * destruct (wf_step_up w t a an Hwf Hat Han Hatop) as [Hx _].
        by destruct (repr_ptr _ _ _ (wf_repr w t Hwf) Hx) as (? & ? & ?).
  - intros Hr Hpr. mstep. rewrite Hr, (lookupRoot_index _ (heap w)) by done. by rewrite Hpr.
  - intros p nd pn Hr Hnd Hpn Hne. mstep. rewrite Hr.
    destruct (wf_heap w t Hwf p nd Hnd) as [Hpnil _]. rewrite (bool_decide_eq_false_2 (p = nilptr)) by done.
    rewrite !mseq_assoc. mstep with (deref_eq p nd w Hnd). rewrite !mseq_assoc.
    mstep with (deref_eq _ pn w Hpn). by rewrite (proj2 (Z.eqb_neq _ _) Hne).
Qed.
End remove.

(** ** Witnesses *)

(** The payload 1010 of the root block is the last valid one: block 40 and its
    parent 20 go. *)
Lemma SetOptimisticToInvalid_known_witness :
  fst (SetOptimisticToInvalid 40 20 1010 chainWorld) = Ret [40; 20] ∧
  ∃ a, first_invalid (heap chainWorld) chainTree 4 1010 a ∧
    removal (H := mainnetBeaconConfig) chainWorld chainTree (if bool_decide (a = 1%nat) then 4%nat else a)
      (SetOptimisticToInvalid 40 20 1010 chainWorld).
Proof.
  split; [vm_compute; reflexivity|].
  apply (@SetOptimisticToInvalid_known mainnetBeaconConfig chainWorld chainTree 40 20 1010 4
           (chainNode 40 35 2 [] true) (chainNode 20 33 1 [4%nat] true));
    [apply chainWorld_wf|reflexivity..].
Defined.

Lemma SetOptimisticToInvalid_unknown_witness :
  fst (SetOptimisticToInvalid 99 50 1010 chainWorld) = Ret [50; 30] ∧
  ∃ a, first_invalid (heap chainWorld) chainTree 5 1010 a ∧
    if bool_decide (a = 1%nat) then SetOptimisticToInvalid 99 50 1010 chainWorld = (Ret [], chainWorld)
    else removal (H := mainnetBeaconConfig) chainWorld chainTree a
           (SetOptimisticToInvalid 99 50 1010 chainWorld).
Proof.
  split; [vm_compute; reflexivity|].
  destruct (@SetOptimisticToInvalid_unknown mainnetBeaconConfig chainWorld chainTree 99 50 1010
              chainWorld_wf eq_refl) as (H1 & _ & _).
  apply (H1 5%nat); reflexivity.
Defined.
