(* ===== verification/ForkPrune.v ===== *)
(** * Pruning on finalization

    [pruneFinalizedNodeByRootMap] and [prune] of [store.go]: everything outside
    the finalized block's subtree is forgotten and the finalized block becomes
    the root of the tree. *)

From S2P Require Import Prelude MathHelper Primitives SlotTime ForkTypes ForkStore.
From S2P Require Import ForkStore ForkChoice ForkTree ForkGhost ForkVotes.
From S2P Require Import ForkHead ForkAttest ForkChain ForkRemove.

(** ** Reference definitions *)

(** The nodes of [t] outside the subtree of [fp], children first. *)
Fixpoint prunedOrder (fp : ptr) (t : tree) : list ptr :=
  match t with
  | TNode p cs => if bool_decide (p = fp) then [] else flat_map (prunedOrder fp) cs ++ [p]
  end.

(** Forgetting a node by its root and payload hash. *)
Definition forgetKey (s : Store) (k : Z * Z) : Store :=
  set_nodeByPayload (delete k.2 (nodeByPayload s)) (set_nodeByRoot (delete k.1 (nodeByRoot s)) s).

Definition keysOf (h : gmap ptr Node) (l : list ptr) : list (Z * Z) :=
  map (λ p, (rootOf h p, payloadAt h p)) l.

Definition forgetAll (ks : list (Z * Z)) (s : Store) : Store := fold_left forgetKey ks s.

(** What pruning the forest [l] does to the node [q]. *)
Definition prunedNode (fp : ptr) (l : list tree) (q : ptr) (nd : Node) : Node :=
  if bool_decide (q ∈ flat_map (prunedOrder fp) l) then set_children [] nd
  else if bool_decide (q = fp ∧ q ∈ flat_map tptrs l)
  then (if bool_decide (target nd = q) then nd else set_target nilptr nd)
  else nd.

Definition prunedHeap (fp : ptr) (l : list tree) (h h' : gmap ptr Node) : Prop :=
  ∀ q, h' !! q = prunedNode fp l q <$> h !! q.

(** ** The run of [pruneFinalizedNodeByRootMap] *)

Lemma prunedOrder_in fp t q : q ∈ prunedOrder fp t → q ∈ tptrs t ∧ q ≠ fp.
Proof.
  induction t as [p cs IH] using tree_ind'. cbn. case_bool_decide as Hp; [set_solver|].
  rewrite Forall_forall in IH. intros [(c & Hc & Hq)%elem_of_flat_map| ->%list_elem_of_singleton]%elem_of_app.
  - destruct (IH c Hc Hq). split; [|done]. right. apply elem_of_flat_map. eauto.
  - split; [by left|done].
Qed.

Lemma prunedNode_out fp l q nd : q ∉ flat_map tptrs l → prunedNode fp l q nd = nd.
Proof.
  intros Hq. unfold prunedNode. rewrite !bool_decide_eq_false_2; [done|naive_solver|].
  intros (t & Ht & Hin)%elem_of_flat_map. apply prunedOrder_in in Hin as [Hin _].
  apply Hq, elem_of_flat_map. eauto.
Qed.

Lemma prunedNode_cons fp t l q nd :
  NoDup (flat_map tptrs (t :: l)) →
  prunedNode fp l q (prunedNode fp [t] q nd) = prunedNode fp (t :: l) q nd.
Proof.
  cbn [flat_map]. intros (_ & Hdisj & _)%NoDup_app. destruct (decide (q ∈ tptrs t)) as [Hq|Hq].
  - rewrite (prunedNode_out fp l) by (by apply Hdisj). unfold prunedNode. cbn [flat_map]. rewrite !app_nil_r.
    assert (q ∈ flat_map (prunedOrder fp) l → False) as Hno.
    { intros (u & Hu & [Hin _]%prunedOrder_in)%elem_of_flat_map. apply (Hdisj q Hq), elem_of_flat_map. eauto. }
    rewrite (bool_decide_ext (q ∈ prunedOrder fp t ++ _) (q ∈ prunedOrder fp t)) by set_solver.
    by rewrite (bool_decide_ext (q = fp ∧ q ∈ tptrs t ++ _) (q = fp ∧ q ∈ tptrs t)) by set_solver.
  - rewrite (prunedNode_out fp [t]) by (cbn; by rewrite app_nil_r). unfold prunedNode. cbn [flat_map].
    assert (q ∉ prunedOrder fp t) as Hno by (intros [Hin _]%prunedOrder_in; done).
    rewrite (bool_decide_ext (q ∈ prunedOrder fp t ++ _) (q ∈ flat_map (prunedOrder fp) l)) by set_solver.
    by rewrite (bool_decide_ext (q = fp ∧ q ∈ tptrs t ++ _) (q = fp ∧ q ∈ flat_map tptrs l)) by set_solver.
Qed.

Lemma prunedNode_keys fp l q nd :
  root (prunedNode fp l q nd) = root nd ∧ payloadHash (prunedNode fp l q nd) = payloadHash nd.
Proof. unfold prunedNode. by repeat case_bool_decide. Qed.

Lemma prunedHeap_keys fp l h h' ps : prunedHeap fp l h h' → keysOf h' ps = keysOf h ps.
Proof.
  intros Hp. unfold keysOf. apply map_ext. intros q. unfold rootOf, payloadAt. rewrite (Hp q).
  destruct (h !! q) as [nd|]; [|done]. cbn. by destruct (prunedNode_keys fp l q nd) as [-> ->].
Qed.

Definition prunes (fuel : nat) (fp : ptr) (t : tree) : Prop := ∀ w,
  ctx w = None → repr (heap w) t → NoDup (tptrs t) →
  ∃ h', pruneFinalizedNodeByRootMap fuel (tptr t) fp w =
    (Ret tt, withStore (forgetAll (keysOf (heap w) (prunedOrder fp t)) (store (fc w))) (set_heap h' w)) ∧
    prunedHeap fp [t] (heap w) h'.

Lemma prunes_forest fuel fp l : Forall (prunes fuel fp) l → ∀ w,
  ctx w = None → Forall (repr (heap w)) l → NoDup (flat_map tptrs l) →
  ∃ h', mfold (λ _ child, pruneFinalizedNodeByRootMap fuel child fp) (map tptr l) tt w =
    (Ret tt, withStore (forgetAll (keysOf (heap w) (flat_map (prunedOrder fp) l)) (store (fc w))) (set_heap h' w)) ∧
    prunedHeap fp l (heap w) h'.
Proof.
  induction 1 as [|t l Ht _ IH]; intros w Hctx Hr Hnd.
  { exists (heap w). split; [by destruct w as [[]]|]. intros q. unfold prunedNode. cbn.
    rewrite !bool_decide_eq_false_2 by set_solver. by destruct (heap w !! q). }
  apply Forall_cons in Hr as [Hrt Hrl]. pose proof Hnd as (Hndt & Hdisj & Hndl)%NoDup_app.
  destruct (Ht w Hctx Hrt Hndt) as (h1 & Hrun & Hp1). cbn [map mfold]. mstep with Hrun.
  set (w1 := withStore _ _).
  assert (∀ q, q ∈ flat_map tptrs l → h1 !! q = heap w !! q) as Hsame.
  { intros q Hq. rewrite (Hp1 q). destruct (heap w !! q); [|done]. cbn.
    rewrite prunedNode_out; [done|]. cbn. rewrite app_nil_r. intros Hqt. by apply (Hdisj q). }
  destruct (IH w1) as (h2 & Hrun2 & Hp2); [done| |done|].
  { rewrite Forall_forall in *. intros u Hu. eapply repr_frame; [|by apply Hrl]. intros q Hq.
    cbn. rewrite Hsame; [done|]. apply elem_of_flat_map. eauto. }
  exists h2. split.
  - rewrite Hrun2. cbn [heap w1 withStore set_fc set_heap]. rewrite (prunedHeap_keys _ _ _ _ _ Hp1).
    unfold keysOf, forgetAll. cbn [flat_map]. by rewrite map_app, fold_left_app.
  - intros q. rewrite (Hp2 q). cbn [heap w1 withStore set_fc set_heap]. rewrite (Hp1 q).
    destruct (heap w !! q); [|done]. cbn [fmap option_fmap option_map]. f_equal. by apply prunedNode_cons.
Qed.

Lemma prunes_all fuel fp t : (theight t ≤ fuel)%nat → prunes fuel fp t.
Proof.
  revert t. induction fuel as [|fuel IH]; intros [p cs] Hh; [cbn in Hh; lia|].
  intros w Hctx Hr Hnd. inversion Hr as [??? Hp Hnil Hch Hcs]; subst. cbn [pruneFinalizedNodeByRootMap tptr].
  mstep with (checkCtx_eq w Hctx). cbn [prunedOrder]. case_bool_decide as Hpf.
  { subst fp. mstep with (deref_eq p nd w Hp). unfold keysOf, forgetAll. cbn [map fold_left].
    assert (∀ q, prunedNode p [TNode p cs] q = λ nd, if bool_decide (q = p)
              then (if bool_decide (target nd = q) then nd else set_target nilptr nd) else nd) as Hpn.
    { intros q. unfold prunedNode. cbn [flat_map prunedOrder tptrs]. rewrite (bool_decide_eq_true_2 (p = p)) by done.
      rewrite (bool_decide_eq_false_2 (q ∈ [] ++ [])) by set_solver.
      by rewrite (bool_decide_ext (q = p ∧ q ∈ _) (q = p)) by set_solver. }
    case_bool_decide as Ht.
    - exists (heap w). split; [by destruct w as [[]]|]. intros q. rewrite Hpn.
      case_bool_decide; [subst q; rewrite Hp; cbn; by rewrite bool_decide_eq_true_2|by destruct (heap w !! q)].
    - rewrite (modify_eq _ _ nd) by done. exists (<[p := set_target nilptr nd]> (heap w)). split; [by destruct w as [[]]|]. intros q. rewrite Hpn.
      destruct (decide (q = p)) as [->|Hq].
      + rewrite lookup_insert_eq, Hp. cbn. by rewrite bool_decide_eq_true_2, bool_decide_eq_false_2.
      + rewrite lookup_insert_ne, bool_decide_eq_false_2 by done. by destruct (heap w !! q). }
  mstep with (deref_eq p nd w Hp). rewrite Hch. pose proof Hnd as [Hpn Hndcs]%NoDup_cons.
  destruct (prunes_forest fuel fp cs) with (w := w) as (h1 & Hrun & Hp1); try done.
  { apply Forall_forall. intros c Hc. apply IH. pose proof (theight_child (TNode p cs) c Hc). lia. }
  mstep with Hrun. set (w1 := withStore _ _).
  assert (heap w1 !! p = Some nd) as Hp1'.
  { cbn. rewrite (Hp1 p), Hp. cbn. by rewrite prunedNode_out. }
  mstep with (modify_eq p (set_children []) nd w1 Hp1').
  erewrite mseq_ret; [|apply (deref_eq p (set_children [] nd)); apply lookup_insert_eq]. cbv beta. mstep.
  exists (<[p := set_children [] nd]> h1). split.
  - unfold keysOf, forgetAll. rewrite map_app, fold_left_app. cbn [map fold_left].
    assert (rootOf (heap w) p = root nd ∧ payloadAt (heap w) p = payloadHash nd) as [-> ->]
      by (unfold rootOf, payloadAt; by rewrite Hp).
    reflexivity.
  - intros q. destruct (decide (q = p)) as [->|Hq].
    + rewrite lookup_insert_eq, Hp. cbn. unfold prunedNode. cbn [flat_map prunedOrder].
      rewrite (bool_decide_eq_false_2 (p = fp)) by done. by rewrite bool_decide_eq_true_2 by set_solver.
    + rewrite lookup_insert_ne, (Hp1 q) by done. destruct (heap w !! q) as [x|]; [|done]. cbn [fmap option_fmap option_map].
      f_equal. unfold prunedNode. cbn [flat_map prunedOrder tptrs]. rewrite (bool_decide_eq_false_2 (p = fp)) by done.
      rewrite !app_nil_r.
      rewrite (bool_decide_ext (q ∈ flat_map (prunedOrder fp) cs ++ [p]) (q ∈ flat_map (prunedOrder fp) cs)) by set_solver.
      by rewrite (bool_decide_ext (q = fp ∧ q ∈ p :: _) (q = fp ∧ q ∈ flat_map tptrs cs)) by set_solver.
Qed.

(** ** What pruning keeps *)

Lemma prunedOrder_full fp t q : fp ∉ tptrs t → q ∈ prunedOrder fp t ↔ q ∈ tptrs t.
Proof.
  induction t as [p cs IH] using tree_ind'. cbn. intros [Hp Hcs]%not_elem_of_cons.
  rewrite bool_decide_eq_false_2 by done. rewrite Forall_forall in IH.
  rewrite elem_of_app, list_elem_of_singleton, elem_of_cons, !elem_of_flat_map.
  assert (∀ c, c ∈ cs → q ∈ prunedOrder fp c ↔ q ∈ tptrs c) as Hc.
  { intros c Hc. apply IH; [done|]. intros Hin. apply Hcs, elem_of_flat_map. eauto. }
  split.
  - intros [(c & Hin & Hq)| ->]; [|by left]. right. exists c. split; [done|]. by apply Hc.
  - intros [->|(c & Hin & Hq)]; [by right|]. left. exists c. split; [done|]. by apply Hc.
Qed.

Lemma prunedOrder_spec t ft q :
  NoDup (tptrs t) → ft ∈ subtrees t →
  q ∈ prunedOrder (tptr ft) t ↔ q ∈ tptrs t ∧ q ∉ tptrs ft.
Proof.
  induction t as [p cs IH] using tree_ind'. intros Hnd Hft. pose proof Hnd as [Hp Hcs]%NoDup_cons.
  rewrite Forall_forall in IH. cbn [prunedOrder]. case_bool_decide as Hpf.
  { assert (ft = TNode p cs) as -> by (eapply (subtree_unique (TNode p cs)); eauto with go). set_solver. }
  cbn in Hft. apply elem_of_cons in Hft as [->|Hft]; [done|].
  apply elem_of_flat_map in Hft as (c & Hc & Hft).
  assert (∀ x, x ∈ tptrs ft → x ∈ tptrs c) as Hsub by eauto with go.
  assert (∀ d, d ∈ cs → q ∈ prunedOrder (tptr ft) d ↔ q ∈ tptrs d ∧ q ∉ tptrs ft) as Hd.
  { intros d Hd. destruct (decide (tptr ft ∈ tptrs d)) as [Hin|Hout].
    - assert (d = c) as -> by (eapply (NoDup_flat_map_disjoint tptrs cs d c (tptr ft)); eauto with go).
      apply IH; [done|by eapply NoDup_flat_map|done].
    - rewrite prunedOrder_full by done. split; [|naive_solver]. intros Hq. split; [done|]. intros Hqf.
      apply Hout. assert (d = c) as ->; [|eauto with go].
      eapply (NoDup_flat_map_disjoint tptrs cs d c q); eauto. }
  cbn [tptrs]. rewrite elem_of_app, list_elem_of_singleton, elem_of_cons, !elem_of_flat_map.
  assert (p ∉ tptrs ft) as Hpft by (intros Hin; apply Hp, elem_of_flat_map; eauto).
  split.
  - intros [(d & Hdc & Hq)| ->]; [|by auto]. apply Hd in Hq as [Hq Hqf]; [|done]. split; [right; eauto|done].
  - intros [[->|(d & Hdc & Hq)] Hqf]; [by right|]. left. exists d. split; [done|]. by apply Hd.
Qed.

Lemma forgetAll_index ks s r :
  nodeByRoot (forgetAll ks s) !! r =
  if bool_decide (r ∈ map fst ks) then None else nodeByRoot s !! r.
Proof.
  revert s. induction ks as [|k ks IH]; intros s; [done|]. unfold forgetAll in *. cbn [fold_left map].
  rewrite IH. cbn. destruct (decide (r ∈ map fst ks)) as [Hin|Hin].
  - by rewrite !bool_decide_eq_true_2 by set_solver.
  - rewrite (bool_decide_eq_false_2 (r ∈ map fst ks)) by done. destruct (decide (r = k.1)) as [->|Hne].
    + by rewrite lookup_delete_eq, bool_decide_eq_true_2 by set_solver.
    + by rewrite lookup_delete_ne, bool_decide_eq_false_2 by set_solver.
Qed.

Lemma forgetAll_keeps {A} (f : Store → A) ks s :
  (∀ v s, f (set_nodeByRoot v s) = f s) → (∀ v s, f (set_nodeByPayload v s) = f s) →
  f (forgetAll ks s) = f s.
Proof.
  intros H1 H2. revert s. induction ks as [|k ks IH]; intros s; [done|].
  unfold forgetAll in *. cbn [fold_left]. rewrite IH. unfold forgetKey. by rewrite H2, H1.
Qed.

Lemma keysOf_roots h l : map fst (keysOf h l) = rootsOf h l.
Proof. unfold keysOf, rootsOf. rewrite map_map. by apply map_ext. Qed.

Lemma list_filter_iff' {A} (P Q : A → Prop) `{!∀ x, Decision (P x), !∀ x, Decision (Q x)} l :
  Forall (λ x, P x ↔ Q x) l → base.filter P l = base.filter Q l.
Proof.
  induction 1 as [|x l Hx _ IH]; [done|]. rewrite !filter_cons.
  destruct (decide (P x)), (decide (Q x)); [by rewrite IH|naive_solver..|done].
Qed.

Lemma list_filter_none {A} (P : A → Prop) `{!∀ x, Decision (P x)} l :
  Forall (λ x, ¬ P x) l → base.filter P l = [].
Proof. induction 1 as [|x l Hx _ IH]; [done|]. by rewrite filter_cons, decide_False. Qed.

Lemma NoDup_flat_map_filter {A B} (f : A → list B) (P : A → Prop) `{!∀ x, Decision (P x)} l :
  NoDup (flat_map f l) → NoDup (flat_map f (base.filter P l)).
Proof.
  induction l as [|x l IH]; [done|]. cbn [flat_map]. intros (Hx & Hdisj & Hl)%NoDup_app.
  rewrite filter_cons. destruct (decide (P x)); [|by apply IH]. cbn [flat_map]. apply NoDup_app.
  split_and!; [done| |by apply IH]. intros b Hb (y & Hy & Hby)%elem_of_flat_map.
  apply (Hdisj b Hb), elem_of_flat_map. exists y. split; [|done]. by apply list_elem_of_filter in Hy as [_ Hy].
Qed.

(** ** The children that are incompatible with the checkpoint *)

Definition incompatible (h : gmap ptr Node) (cms : Z) (l : list tree) : list tree :=
  base.filter (λ c, slotOf h (tptr c) ≤ cms) l.

(** The body of the last loop of [prune]. *)
Definition pruneChildBody (fuel : nat) (fp : ptr) (cms : Z) (_ : unit) (child : ptr) : M unit :=
  if bool_decide (child = nilptr) then mret tt
  else
    c <~ deref child;;
    if slot c <=? cms
    then wrapM "could not prune incompatible finalized child"
           (pruneFinalizedNodeByRootMap fuel child fp)
    else mret tt.

Lemma pruneChildren_run fuel fp cms l : Forall (prunes fuel fp) l → ∀ w,
  ctx w = None → Forall (repr (heap w)) l → NoDup (flat_map tptrs l) →
  ∃ h', mfold (pruneChildBody fuel fp cms) (map tptr l) tt w =
    (Ret tt, withStore (forgetAll (keysOf (heap w)
               (flat_map (prunedOrder fp) (incompatible (heap w) cms l))) (store (fc w))) (set_heap h' w)) ∧
    prunedHeap fp (incompatible (heap w) cms l) (heap w) h'.
Proof.
  induction 1 as [|t l Ht _ IH]; intros w Hctx Hr Hnd.
  { exists (heap w). split; [by destruct w as [[]]|]. intros q. unfold prunedNode. cbn.
    rewrite !bool_decide_eq_false_2 by set_solver. by destruct (heap w !! q). }
  apply Forall_cons in Hr as [Hrt Hrl]. pose proof Hnd as (Hndt & Hdisj & Hndl)%NoDup_app.
  destruct (repr_lookup _ _ Hrt) as (nd & Hnd' & Hnil & _). cbn [map mfold].
  unfold pruneChildBody at 1. rewrite bool_decide_eq_false_2 by done.
  assert (slotOf (heap w) (tptr t) = slot nd) as Hsl by (unfold slotOf; by rewrite Hnd').
  rewrite mseq_assoc. mstep with (deref_eq _ nd w Hnd'). unfold incompatible. rewrite filter_cons, Hsl.
  destruct (decide (slot nd ≤ cms)) as [Hle|Hgt].
  - replace (slot nd <=? cms) with true by lia.
    destruct (Ht w Hctx Hrt Hndt) as (h1 & Hrun & Hp1). mstep with (wrapM_ret "could not prune incompatible finalized child" _ _ _ _ Hrun).
    set (w1 := withStore _ _).
    assert (∀ q, q ∈ flat_map tptrs l → h1 !! q = heap w !! q) as Hsame.
    { intros q Hq. rewrite (Hp1 q). destruct (heap w !! q); [|done]. cbn.
      rewrite prunedNode_out; [done|]. cbn. rewrite app_nil_r. intros Hqt. by apply (Hdisj q). }
    destruct (IH w1) as (h2 & Hrun2 & Hp2); [done| |done|].
    { rewrite Forall_forall in *. intros u Hu. eapply repr_frame; [|by apply Hrl]. intros q Hq.
      cbn. rewrite Hsame; [done|]. apply elem_of_flat_map. eauto. }
    assert (incompatible (heap w1) cms l = incompatible (heap w) cms l) as Hinc.
    { unfold incompatible. apply list_filter_iff'. apply Forall_forall. intros u Hu. unfold slotOf. cbn.
      rewrite Hsame; [done|]. apply elem_of_flat_map. eauto with go. }
    rewrite Hinc in Hrun2, Hp2. exists h2. split.
    + rewrite Hrun2. cbn [heap w1 withStore set_fc set_heap]. rewrite (prunedHeap_keys _ _ _ _ _ Hp1).
      unfold keysOf, forgetAll. cbn [flat_map]. by rewrite map_app, fold_left_app.
    + intros q. rewrite (Hp2 q). cbn [heap w1 withStore set_fc set_heap]. rewrite (Hp1 q).
      destruct (heap w !! q); [|done]. cbn [fmap option_fmap option_map]. f_equal. apply prunedNode_cons.
      cbn [flat_map]. apply NoDup_app. split_and!; [done| |].
      * intros x Hx (u & Hu & Hxu)%elem_of_flat_map. apply (Hdisj x Hx), elem_of_flat_map.
        exists u. split; [|done]. by apply list_elem_of_filter in Hu as [_ Hu].
      * by apply NoDup_flat_map_filter.
  - replace (slot nd <=? cms) with false by lia. mstep. by apply IH.
Qed.

(** ** The run of [prune] *)

Section prune.
Context `{BeaconChainConfig}.

(** The children pruned by the last loop. *)
Definition badChildren (h : gmap ptr Node) (fn : Node) (cms : Z) (ft : tree) : list tree :=
  if slot fn =? cms then [] else incompatible h cms (tchildren ft).

(** The finalized block loses its parent. *)
Definition unparent (fp q : ptr) (nd : Node) : Node :=
  if bool_decide (q = fp) then set_parent nilptr nd else nd.

Definition prunedStore (h : gmap ptr Node) (t ft : tree) (bad : list tree) (s : Store) : Store :=
  forgetAll (keysOf h (flat_map (prunedOrder (tptr ft)) bad))
    (set_treeRootNode (tptr ft) (forgetAll (keysOf h (prunedOrder (tptr ft) t)) s)).

Definition afterPrune (t ft : tree) (bad : list tree) (h h' : gmap ptr Node) : Prop :=
  ∀ q, h' !! q =
       (λ nd, prunedNode (tptr ft) bad q (unparent (tptr ft) q (prunedNode (tptr ft) [t] q nd))) <$> h !! q.

(** The heap between the two passes of [prune]. *)
Definition halfPruned (t ft : tree) (h h' : gmap ptr Node) : Prop :=
  ∀ q, h' !! q = (λ nd, unparent (tptr ft) q (prunedNode (tptr ft) [t] q nd)) <$> h !! q.

Lemma halfPruned_same t ft h h' q :
  NoDup (tptrs t) → ft ∈ subtrees t → halfPruned t ft h h' →
  q ∈ flat_map tptrs (tchildren ft) → h' !! q = h !! q.
Proof.
  intros Hnd Hft Hh Hq. assert (NoDup (tptrs ft)) as Hndf by (by eapply NoDup_subtree).
  destruct ft as [fp cs]. cbn [tptr tchildren] in *. apply NoDup_cons in Hndf as [Hfp _].
  rewrite (Hh q). destruct (h !! q) as [x|]; [|done]. cbn. f_equal.
  assert (q ≠ fp) as Hqf by (intros ->; done).
  unfold unparent, prunedNode. rewrite !bool_decide_eq_false_2; [done|naive_solver| |done].
  cbn. rewrite app_nil_r, (prunedOrder_spec t (TNode fp cs) q) by done. intros [_ Hno]. apply Hno. cbn. by right.
Qed.

Lemma halfPruned_keys t ft h h' l : halfPruned t ft h h' → keysOf h' l = keysOf h l.
Proof.
  intros Hh. unfold keysOf. apply map_ext. intros q. unfold rootOf, payloadAt. rewrite (Hh q).
  destruct (h !! q) as [x|]; [|done]. cbn. destruct (prunedNode_keys (tptr ft) [t] q x) as [E1 E2].
  rewrite <- E1, <- E2. unfold unparent. by case_bool_decide.
Qed.

(** The pass over the children of the finalized block. *)
Lemma prune_children w h t ft cms :
  ctx w = None → NoDup (tptrs t) → ft ∈ subtrees t → repr h t → halfPruned t ft h (heap w) →
  ∃ h', mfold (pruneChildBody (S (size h)) (tptr ft) cms) (map tptr (tchildren ft)) tt w =
    (Ret tt, withStore (forgetAll (keysOf h (flat_map (prunedOrder (tptr ft)) (incompatible h cms (tchildren ft))))
               (store (fc w))) (set_heap h' w)) ∧
    prunedHeap (tptr ft) (incompatible h cms (tchildren ft)) (heap w) h'.
Proof.
  intros Hctx Hnd Hft Hr Hh. assert (NoDup (tptrs ft)) as Hndf by (by eapply NoDup_subtree).
  pose proof (repr_subtree _ _ _ Hr Hft) as Hrf.
  pose proof (λ q, halfPruned_same t ft h (heap w) q Hnd Hft Hh) as Hsame.
  assert (incompatible (heap w) cms (tchildren ft) = incompatible h cms (tchildren ft)) as Hinc.
  { unfold incompatible. apply list_filter_iff'. apply Forall_forall. intros c Hc. unfold slotOf.
    rewrite Hsame; [done|]. apply elem_of_flat_map. eauto with go. }
  rewrite <- Hinc, <- (halfPruned_keys t ft h (heap w)) by done.
  apply pruneChildren_run; [|done| |].
  - apply Forall_forall. intros c Hc. apply prunes_all.
    pose proof (theight_child ft c Hc). pose proof (repr_fuel _ _ Hrf Hndf). lia.
  - destruct ft as [fp cs]. inversion Hrf; subst. rewrite Forall_forall in *. intros c Hc.
    eapply repr_frame; [|eauto]. intros q Hq. rewrite Hsame; [done|]. apply elem_of_flat_map. eauto.
  - destruct ft. cbn in *. by apply NoDup_cons in Hndf as [_ ?].
Qed.

(** The finalized block keeps its slot and children in the first pass. *)
Lemma prunedNode_final t ft nd :
  slot (prunedNode (tptr ft) [t] (tptr ft) nd) = slot nd ∧
  children (prunedNode (tptr ft) [t] (tptr ft) nd) = children nd.
Proof.
  unfold prunedNode. rewrite (bool_decide_eq_false_2 (_ ∈ flat_map (prunedOrder _) _)).
  - by repeat case_bool_decide.
  - cbn. rewrite app_nil_r. intros [_ Hin]%prunedOrder_in. done.
Qed.

Lemma prune_run w t ft fn cms :
  wf w t → ctx w = None → ft ∈ subtrees t → tptr ft ≠ tptr t → heap w !! tptr ft = Some fn →
  root fn = Root (finalizedCheckpoint (store (fc w))) →
  EpochStart (Epoch (finalizedCheckpoint (store (fc w)))) = Ret cms →
  let bad := badChildren (heap w) fn cms ft in
  ∃ h', prune w = (Ret tt, withStore (prunedStore (heap w) t ft bad (store (fc w))) (set_heap h' w)) ∧
    afterPrune t ft bad (heap w) h'.
Proof.
  intros Hwf Hctx Hft Hne Hfn Hroot Hcms bad.
  pose proof (wf_nodup w t Hwf) as Hnd. pose proof (wf_repr w t Hwf) as Hr.
  assert (NoDup (tptrs ft)) as Hndf by (by eapply NoDup_subtree).
  destruct (wf_subtree_parent w t ft fn Hwf Hft Hne Hfn) as (pn & u & _ & Hpar & _).
  assert (lookupRoot (store (fc w)) (Root (finalizedCheckpoint (store (fc w)))) = Some (tptr ft)) as Hlk.
  { apply (lookupRoot_wf w t _ _ Hwf). split; [by apply subtrees_ptr|eauto]. }
  unfold prune. mstep. rewrite Hlk. mstep with (deref_eq _ fn w Hfn).
  rewrite bool_decide_eq_false_2 by done. mstep. rewrite (wf_root w t Hwf).
  destruct (prunes_all (S (size (heap w))) (tptr ft) t) with (w := w) as (h1 & Hrun & Hp1); try done.
  { pose proof (repr_fuel _ _ Hr Hnd). lia. }
  mstep with Hrun. set (w1 := withStore _ (set_heap h1 w)).
  set (fn1 := prunedNode (tptr ft) [t] (tptr ft) fn).
  assert (heap w1 !! tptr ft = Some fn1) as Hf1 by (cbn; by rewrite (Hp1 (tptr ft)), Hfn).
  mstep with (modify_eq _ (set_parent nilptr) fn1 w1 Hf1). mstep. rewrite Hcms.
  erewrite mseq_ret; [|apply wrapM_ret; reflexivity]. cbv beta.
  set (h2 := <[tptr ft := set_parent nilptr fn1]> h1).
  set (w2 := withStore (set_treeRootNode (tptr ft) (store (fc w1))) (set_heap h2 w)).
  erewrite mseq_ret; [|instantiate (1 := w2); apply (deref_eq _ (set_parent nilptr fn1)); apply lookup_insert_eq].
  assert (halfPruned t ft (heap w) h2) as Hh2.
  { intros q. unfold h2, unparent. destruct (decide (q = tptr ft)) as [->|Hq].
    - by rewrite lookup_insert_eq, Hfn, bool_decide_eq_true_2.
    - rewrite lookup_insert_ne, (Hp1 q), bool_decide_eq_false_2 by done. done. }
  destruct (prunedNode_final t ft fn) as [Hs1 Hc1]. fold fn1 in Hs1, Hc1.
  change (slot (set_parent nilptr fn1)) with (slot fn1). rewrite Hs1.
  unfold bad, badChildren. destruct (slot fn =? cms) eqn:Esl.
  { exists h2. split; [reflexivity|]. intros q. rewrite (Hh2 q). destruct (heap w !! q); [|done]. cbn. f_equal.
    unfold prunedNode at 2. cbn. rewrite !bool_decide_eq_false_2 by set_solver. done. }
  change (children (set_parent nilptr fn1)) with (children fn1). rewrite Hc1.
  destruct (repr_lookup _ _ (repr_subtree _ _ _ Hr Hft)) as (fn' & Hfn' & _ & Hch). simplify_eq. rewrite Hch.
  destruct (prune_children w2 (heap w) t ft cms) as (h3 & Hrun3 & Hp3); try done.
  exists h3. split; [exact Hrun3|].
  intros q. rewrite (Hp3 q). cbn [heap w2 withStore set_fc set_heap]. rewrite (Hh2 q). by destruct (heap w !! q).
Qed.









(** A child of the finalized block that is incompatible with the checkpoint
    (its slot is not past the checkpoint's epoch start although the finalized
    block is older) is forgotten by the index but stays in the tree: [prune]
    succeeds, the block is no longer known, and it is still a child of the root
    of the tree, where weights and heads are computed. *)
Theorem prune_keeps_incompatible_child w t ft fn cms c :
  wf w t → ctx w = None → ft ∈ subtrees t → tptr ft ≠ tptr t → heap w !! tptr ft = Some fn →
  root fn = Root (finalizedCheckpoint (store (fc w))) →
  EpochStart (Epoch (finalizedCheckpoint (store (fc w)))) = Ret cms →
  slot fn ≠ cms → c ∈ tchildren ft → slotOf (heap w) (tptr c) ≤ cms →
  ∃ w' fn', prune w = (Ret tt, w') ∧ HasNode (fc w') (rootOf (heap w) (tptr c)) = false ∧
    treeRootNode (store (fc w')) = tptr ft ∧ heap w' !! tptr ft = Some fn' ∧ tptr c ∈ children fn'.
Proof.
  intros Hwf Hctx Hft Hne Hfn Hroot Hcms Hsl Hc Hle. pose proof (wf_nodup w t Hwf) as Hnd.
  destruct (prune_run w t ft fn cms) as (h' & Hrun & Hap); try done.
  unfold badChildren in Hrun, Hap. rewrite (proj2 (Z.eqb_neq _ _) Hsl) in Hrun, Hap.
  set (bad := incompatible (heap w) cms (tchildren ft)) in *.
  assert (c ∈ bad) as Hcb by (by apply list_elem_of_filter).
  assert (NoDup (tptrs ft)) as Hndf by (by eapply NoDup_subtree).
  assert (tptr ft ∉ flat_map tptrs (tchildren ft)) as Hno by (destruct ft; cbn in *; by apply NoDup_cons in Hndf as [? _]).
  eexists _, _. split; [exact Hrun|]. split_and!.
  - unfold HasNode. apply bool_decide_eq_false_2. cbn [fc withStore set_fc set_heap store set_store].
    unfold prunedStore. rewrite forgetAll_index, keysOf_roots, bool_decide_eq_true_2; [by intros []|].
    apply list_elem_of_fmap. exists (tptr c). split; [done|]. apply elem_of_flat_map. exists c. split; [done|].
    apply prunedOrder_full; [|eauto with go]. intros Hin. apply Hno, elem_of_flat_map. eauto.
  - cbn. unfold prunedStore. by rewrite (forgetAll_keeps treeRootNode).
  - cbn. rewrite (Hap (tptr ft)), Hfn. reflexivity.
  - destruct (repr_lookup _ _ (repr_subtree _ _ _ (wf_repr w t Hwf) Hft)) as (fn' & Hfn' & _ & Hch). simplify_eq.
    rewrite prunedNode_out.
    + unfold unparent. rewrite bool_decide_eq_true_2 by done. cbn.
      destruct (prunedNode_final t ft fn) as [_ ->]. rewrite Hch. by apply list_elem_of_fmap_2.
    + intros (u & Hu & Hin)%elem_of_flat_map. apply Hno, elem_of_flat_map. exists u. split; [|done].
      by apply list_elem_of_filter in Hu as [_ Hu].
Qed.
End prune.

(** ** Witnesses *)

(** The sample store with block 20 (slot 33) finalized; its child is block 40. *)
Definition finalizedWorld (epoch : Z) : World :=
  withStore (set_finalizedCheckpoint (mkCheckpoint epoch 20) chainStore) chainWorld.

Lemma finalizedWorld_wf epoch : wf (finalizedWorld epoch) chainTree.
Proof. by apply (wf_same_skeleton chainWorld); [apply chainWorld_wf|..]. Qed.


(** Epoch 2 starts at slot 64: the finalized block (slot 33) is older and its
    child at slot 35 is incompatible. *)
Lemma prune_keeps_incompatible_child_witness :
  let H := mainnetBeaconConfig in
  ∃ w' fn', prune (finalizedWorld 2) = (Ret tt, w') ∧ HasNode (fc w') 40 = false ∧
    treeRootNode (store (fc w')) = 2%nat ∧ heap w' !! 2%nat = Some fn' ∧ 4%nat ∈ children fn'.
Proof.
  intros H.
  apply (@prune_keeps_incompatible_child mainnetBeaconConfig (finalizedWorld 2) chainTree
           (TNode 2 [TNode 4 []]) (chainNode 20 33 1 [4%nat] true) 64 (TNode 4 []) (finalizedWorld_wf 2));
    [done|cbn; set_solver|done|reflexivity|reflexivity|vm_compute; reflexivity|done|set_solver|vm_compute; discriminate].
Defined.
