(* ===== verification/MultiValueSlice.v ===== *)
(** * The multi-value slice

    Models [container/multi-value-slice/multi_value_slice.go]: a slice that many
    objects (beacon states) share, each seeing its own contents.  Every
    [*Value] and [*MultiValueItem] is reachable from one place of one [Slice],
    so the pointers are modelled by the values they point to.  The loops over
    the map [individualItems] treat each entry by itself, so the iteration
    order does not matter and they are maps over the entries.  The lock
    serialises the operations.  Object ids are numbers and a [uint64] index is
    a natural number: the code only compares indices and subtracts after a
    comparison.  Writing outside a Go slice panics. *)

From S2P Require Import Prelude.

(** [s[i] = s[len(s)-1]; s = s[:len(s)-1]] *)
Definition deleteElemFromSlice {T} (s : list T) (i : nat) : list T :=
  match s !! (length s - 1)%nat with
  | Some l => take (length s - 1) (<[i := l]> s)
  | None => s
  end.

(** The index of [wanted], if it is there. *)
Definition containsId (ids : list Z) (wanted : Z) : option nat :=
  fst <$> list_find (λ x, x = wanted) ids.

Definition ErrOutOfBounds : error := "out of bounds".
Definition fragmentationLimit : Z := 50000.

(** [s[i] = v] *)
Definition setIdx {T} (s : list T) (i : nat) (v : T) : outcome (list T) :=
  if bool_decide (i < length s)%nat then Ret (<[i := v]> s) else Panic "index out of range".

Record Value (V : Type) := mkValue { val : V; ids : list Z }.
Arguments mkValue {V} val ids.
Arguments val {V} v.
Arguments ids {V} v.

(** The field [Values] of [MultiValueItem]. *)
Abbreviation MultiValueItem V := (list (Value V)).

Record Slice (V : Type) := mkSlice {
  sharedItems : list V;
  individualItems : gmap nat (MultiValueItem V);
  appendedItems : list (MultiValueItem V);
  cachedLengths : gmap Z nat
}.
Arguments mkSlice {V} sharedItems individualItems appendedItems cachedLengths.
Arguments sharedItems {V} s.
Arguments individualItems {V} s.
Arguments appendedItems {V} s.
Arguments cachedLengths {V} s.

Section mvslice.
(** [def] is the zero value of the element type. *)
Context {V : Type} `{!EqDecision V} (def : V).

Definition Init (items : list V) : Slice V := mkSlice items ∅ [] ∅.

Definition Len (s : Slice V) (obj : Z) : nat :=
  match cachedLengths s !! obj with Some l => l | None => length (sharedItems s) end.

(** The first value of the item that lists [id]: its index, itself, the index of [id]. *)
Fixpoint findValue (item : MultiValueItem V) (id : Z) : option (nat * Value V * nat) :=
  match item with
  | [] => None
  | v :: rest =>
      match containsId (ids v) id with
      | Some fi => Some (0%nat, v, fi)
      | None =>
          match findValue rest id with
          | Some (vi, w, fi) => Some (S vi, w, fi)
          | None => None
          end
      end
  end.

(** ** [Copy] *)

(** [v.ids = append(v.ids, dst.Id())] on the first value that lists [src]. *)
Definition copyItem (src dst : Z) (item : MultiValueItem V) : MultiValueItem V :=
  match findValue item src with
  | Some (vi, v, _) => <[vi := mkValue (val v) (ids v ++ [dst])]> item
  | None => item
  end.

(** The loop over the appended items stops at the first one without [src]. *)
Fixpoint copyAppended (src dst : Z) (items : list (MultiValueItem V)) : list (MultiValueItem V) :=
  match items with
  | [] => []
  | item :: rest =>
      match findValue item src with
      | Some _ => copyItem src dst item :: copyAppended src dst rest
      | None => item :: rest
      end
  end.

Definition Copy (src dst : Z) (s : Slice V) : Slice V :=
  mkSlice (sharedItems s) (copyItem src dst <$> individualItems s)
    (copyAppended src dst (appendedItems s))
    (match cachedLengths s !! src with
     | Some srcLen => <[dst := srcLen]> (cachedLengths s)
     | None => cachedLengths s
     end).

(** ** Reading *)

(** The value an item holds for [id]. *)
Definition lookupId (item : MultiValueItem V) (id : Z) : option V :=
  match findValue item id with Some (_, v, _) => Some (val v) | None => None end.

(** The loop of [fillOriginalItems], from index [i] on. *)
Fixpoint fillLoop (s : Slice V) (obj : Z) (i : nat) (shared : list V) (items : list V) : outcome (list V) :=
  match shared with
  | [] => Ret items
  | item :: rest =>
      let v := match individualItems s !! i with
               | None => item
               | Some ind => match lookupId ind obj with Some v => v | None => item end
               end in
      items <-? setIdx items i v;;
      fillLoop s obj (S i) rest items
  end.

Definition fillOriginalItems (s : Slice V) (obj : Z) (items : list V) : outcome (list V) :=
  fillLoop s obj 0 (sharedItems s) items.

(** The loop of [Value] over the appended items, from index [i] on. *)
Fixpoint fillAppended (sharedLen i : nat) (obj : Z) (app : list (MultiValueItem V)) (result : list V)
    : outcome (list V) :=
  match app with
  | [] => Ret result
  | item :: rest =>
      match lookupId item obj with
      | Some v =>
          result <-? setIdx result (sharedLen + i) v;;
          fillAppended sharedLen (S i) obj rest result
      | None => Ret result
      end
  end.

Definition ValueOf (s : Slice V) (obj : Z) : outcome (list V) :=
  match cachedLengths s !! obj with
  | Some l =>
      result <-? fillOriginalItems s obj (replicate l def);;
      fillAppended (length (sharedItems s)) 0 obj (appendedItems s) result
  | None => fillOriginalItems s obj (replicate (length (sharedItems s)) def)
  end.

Definition errIndex : error := wrapErr ErrOutOfBounds "index".

Definition ItemAt (s : Slice V) (obj : Z) (index : nat) : outcome V :=
  if bool_decide (length (sharedItems s) + length (appendedItems s) ≤ index)%nat then Err errIndex
  else
    match sharedItems s !! index with
    | Some sh =>
        match individualItems s !! index with
        | None => Ret sh
        | Some ind => match lookupId ind obj with Some v => Ret v | None => Ret sh end
        end
    | None =>
        match appendedItems s !! (index - length (sharedItems s))%nat with
        | Some item => match lookupId item obj with Some v => Ret v | None => Err errIndex end
        | None => Panic "index out of range"
        end
    end.

(** ** Updating *)

(** The loop that removes [id] from an item, and whether it was there. *)
Definition removeId (item : MultiValueItem V) (id : Z) : (MultiValueItem V) * bool :=
  match findValue item id with
  | Some (vi, v, fi) =>
      (if bool_decide (length (ids v) = 1%nat) then deleteElemFromSlice item vi
       else <[vi := mkValue (val v) (deleteElemFromSlice (ids v) fi)]> item, true)
  | None => (item, false)
  end.

(** The loop that adds [id] to the value [x], making a new [Value] if needed. *)
Definition addId (item : MultiValueItem V) (x : V) (id : Z) : MultiValueItem V :=
  match list_find (λ v, val v = x) item with
  | Some (vi, v) => <[vi := mkValue (val v) (ids v ++ [id])]> item
  | None => item ++ [mkValue x [id]]
  end.

Definition updateOriginalItem (s : Slice V) (obj : Z) (index : nat) (x : V) : outcome (Slice V) :=
  let ind := individualItems s !! index in
  let ind := (λ item, fst (removeId item obj)) <$> ind in
  match sharedItems s !! index with
  | None => Panic "index out of range"
  | Some sh =>
      let removed := match ind with
                     | Some item => <[index := item]> (individualItems s)
                     | None => individualItems s
                     end in
      let entry := match ind with
                   | None => [mkValue x [obj]]
                   | Some item => addId item x obj
                   end in
      Ret (mkSlice (sharedItems s)
             (if bool_decide (x = sh) then removed else <[index := entry]> removed)
             (appendedItems s) (cachedLengths s))
  end.

Definition updateAppendedItem (s : Slice V) (obj : Z) (index : nat) (x : V) : outcome (Slice V) :=
  let j := (index - length (sharedItems s))%nat in
  match appendedItems s !! j with
  | None => Panic "index out of range"
  | Some item =>
      let '(item', found) := removeId item obj in
      if (found : bool)
      then Ret (mkSlice (sharedItems s) (individualItems s)
                  (<[j := addId item' x obj]> (appendedItems s)) (cachedLengths s))
      else Err errIndex
  end.

(** An error leaves the slice as it was. *)
Definition UpdateAt (s : Slice V) (obj : Z) (index : nat) (x : V) : outcome (Slice V) :=
  if bool_decide (length (sharedItems s) + length (appendedItems s) ≤ index)%nat then Err errIndex
  else if bool_decide (index < length (sharedItems s))%nat then updateOriginalItem s obj index x
  else updateAppendedItem s obj index x.

(** ** Appending *)

(** The loop of [Append]: [Some] once an item without [obj] got the value. *)
Fixpoint appendLoop (items : list (MultiValueItem V)) (obj : Z) (x : V) : option (list (MultiValueItem V)) :=
  match items with
  | [] => None
  | item :: rest =>
      match findValue item obj with
      | None => Some (addId item x obj :: rest)
      | Some _ => (λ rest', item :: rest') <$> appendLoop rest obj x
      end
  end.

Definition Append (s : Slice V) (obj : Z) (x : V) : Slice V :=
  let sharedLen := length (sharedItems s) in
  match appendedItems s with
  | [] => mkSlice (sharedItems s) (individualItems s) [[mkValue x [obj]]]
            (<[obj := (sharedLen + 1)%nat]> (cachedLengths s))
  | _ =>
      match appendLoop (appendedItems s) obj x with
      | Some items =>
          mkSlice (sharedItems s) (individualItems s) items
            (<[obj := match cachedLengths s !! obj with
                      | Some l => (l + 1)%nat
                      | None => (sharedLen + 1)%nat
                      end]> (cachedLengths s))
      | None =>
          mkSlice (sharedItems s) (individualItems s) (appendedItems s ++ [[mkValue x [obj]]])
            (<[obj := (default 0 (cachedLengths s !! obj) + 1)%nat]> (cachedLengths s))
      end
  end.

(** ** Detaching *)

Definition detachIndividual (obj : Z) (ind : MultiValueItem V) : option (MultiValueItem V) :=
  match findValue ind obj with
  | Some (vi, v, fi) =>
      if bool_decide (length (ids v) = 1%nat)
      then if bool_decide (length ind = 1%nat) then None else Some (deleteElemFromSlice ind vi)
      else Some (<[vi := mkValue (val v) (deleteElemFromSlice (ids v) fi)]> ind)
  | None => Some ind
  end.

Fixpoint detachAppended (obj : Z) (items : list (MultiValueItem V)) : list (MultiValueItem V) :=
  match items with
  | [] => []
  | item :: rest =>
      let '(item', found) := removeId item obj in
      if (found : bool) then item' :: detachAppended obj rest else item' :: rest
  end.

Definition Detach (s : Slice V) (obj : Z) : Slice V :=
  mkSlice (sharedItems s) (omap (detachIndividual obj) (individualItems s))
    (detachAppended obj (appendedItems s)) (delete obj (cachedLengths s)).

(** ** Statistics and [Reset] *)

Record MultiValueStatistics := mkStats {
  TotalIndividualElements : nat;
  TotalAppendedElements : nat;
  TotalIndividualElemReferences : Z;
  TotalAppendedElemReferences : Z
}.

Definition refsOf (item : MultiValueItem V) : Z := Zsum (map (λ v, Z.of_nat (length (ids v))) item).

Definition MultiValueStatisticsOf (s : Slice V) : MultiValueStatistics :=
  mkStats (size (individualItems s)) (length (appendedItems s))
    (Zsum (map (λ e, refsOf e.2) (map_to_list (individualItems s))))
    (Zsum (map refsOf (appendedItems s))).

Definition IsFragmented (s : Slice V) : bool :=
  let stats := MultiValueStatisticsOf s in
  fragmentationLimit <=? TotalIndividualElemReferences stats + TotalAppendedElemReferences stats.

(** The loop of [Reset] over the individual items; [order] is the map's iteration order. *)
Fixpoint resetIndividual (obj : Z) (order : list (nat * MultiValueItem V)) (items : list V) : outcome (list V) :=
  match order with
  | [] => Ret items
  | (i, ind) :: rest =>
      match lookupId ind obj with
      | Some v => items <-? setIdx items i v;; resetIndividual obj rest items
      | None => resetIndividual obj rest items
      end
  end.

(** The loop over the appended items; an item without values does not stop it. *)
Fixpoint resetAppended (obj : Z) (index : nat) (app : list (MultiValueItem V)) (items : list V) : outcome (list V) :=
  match app with
  | [] => Ret items
  | item :: rest =>
      match lookupId item obj with
      | Some v => items <-? setIdx items index v;; resetAppended obj (S index) rest items
      | None => if bool_decide (item = []) then resetAppended obj index rest items else Ret items
      end
  end.

(** [copy(items, s.sharedItems)] into a slice of length [l]. *)
Definition copyInto (l : nat) (shared : list V) : list V :=
  take l shared ++ replicate (l - length shared) def.

Definition Reset (s : Slice V) (order : list (nat * MultiValueItem V)) (obj : Z) : outcome (Slice V) :=
  let l := Len s obj in
  items <-? resetIndividual obj order (copyInto l (sharedItems s));;
  items <-? resetAppended obj (length (sharedItems s)) (appendedItems s) items;;
  Ret (Init items).
End mvslice.
