(* ===== verification/MultiValueSpec.v ===== *)
(** * The multi-value slice refines a family of independent slices

    The abstract state maps each attached object to its own list; an object
    that is not attached sees the original items.  The operations of
    [MultiValueSlice.v] simulate the obvious operations on that map, and the
    reading operations agree with it. *)

From S2P Require Import Prelude MultiValueSlice.

Section spec.
Context {V : Type} `{!EqDecision V} (def : V).

Implicit Types (item : MultiValueItem V) (v w : Value V).

(** ** Items *)

(** All object ids of an item. *)
Definition itemIds (item : MultiValueItem V) : list Z := flat_map ids item.

(** An object occurs at most once, and no value is without an object. *)
Definition item_ok (item : MultiValueItem V) : Prop :=
  NoDup (itemIds item) ∧ ∀ v, v ∈ item → ids v ≠ [].

Lemma containsId_Some l id i : containsId l id = Some i → l !! i = Some id.
Proof.
  unfold containsId. destruct (list_find _ l) as [[j x]|] eqn:E; [|done].
  intros [= <-]. apply list_find_Some in E as (Hj & -> & _). done.
Qed.

Lemma containsId_None l id : containsId l id = None ↔ id ∉ l.
Proof.
  unfold containsId. destruct (list_find _ l) as [[j x]|] eqn:E; cbn.
  - apply list_find_Some in E as (Hj & -> & _). split; [done|]. intros Hn.
    destruct Hn. by eapply list_elem_of_lookup_2.
  - apply list_find_None in E. rewrite Forall_forall in E. split; [|done]. intros _ Hin. by apply (E id Hin).
Qed.

Lemma findValue_Some item id vi v fi :
  findValue item id = Some (vi, v, fi) → item !! vi = Some v ∧ ids v !! fi = Some id.
Proof.
  revert vi. induction item as [|w item IH]; intros vi; cbn; [done|].
  destruct (containsId (ids w) id) as [j|] eqn:E.
  - intros [= <- <- <-]. split; [done|]. by apply containsId_Some.
  - destruct (findValue item id) as [[[vj w'] fj]|]; [|done]. intros [= <- <- <-]. by apply IH.
Qed.

Lemma findValue_None item id : findValue item id = None ↔ id ∉ itemIds item.
Proof.
  induction item as [|w item IH]; cbn; [set_solver|].
  destruct (containsId (ids w) id) as [j|] eqn:E.
  - apply containsId_Some, list_elem_of_lookup_2 in E. split; [done|]. set_solver.
  - apply containsId_None in E. destruct (findValue item id) as [[[? ?] ?]|]; [|set_solver].
    split; [done|]. intros Hn. exfalso. assert (id ∉ itemIds item) as Hx%IH by set_solver. done.
Qed.

Lemma lookupId_None item id : lookupId item id = None ↔ id ∉ itemIds item.
Proof.
  rewrite <- findValue_None. unfold lookupId. by destruct (findValue item id) as [[[? ?] ?]|].
Qed.

(** In a duplicate-free item a lookup does not depend on the order. *)
Lemma lookupId_iff item id x :
  NoDup (itemIds item) → lookupId item id = Some x ↔ ∃ v, v ∈ item ∧ id ∈ ids v ∧ val v = x.
Proof.
  intros Hnd. unfold lookupId. destruct (findValue item id) as [[[vi w] fi]|] eqn:E.
  - apply findValue_Some in E as [Hw Hid]. apply list_elem_of_lookup_2 in Hw, Hid. split.
    + intros [= <-]. eauto.
    + intros (v & Hv & Hidv & <-). f_equal.
      assert (w = v) as ->; [|done]. by eapply (NoDup_flat_map_disjoint ids item w v id).
  - apply findValue_None in E. split; [done|]. intros (v & Hv & Hid & _). destruct E.
    apply elem_of_flat_map. eauto.
Qed.

Lemma item_ok_perm item item' : item ≡ₚ item' → item_ok item → item_ok item'.
Proof.
  intros Hp [Hnd Hne]. split.
  - unfold itemIds. by rewrite <- Hp.
  - intros v Hv. apply Hne. by rewrite Hp.
Qed.

Lemma lookupId_perm item item' id :
  item ≡ₚ item' → NoDup (itemIds item) → lookupId item id = lookupId item' id.
Proof.
  intros Hp Hnd. assert (NoDup (itemIds item')) as Hnd' by (unfold itemIds in *; by rewrite <- Hp).
  apply option_eq. intros x. rewrite !lookupId_iff by done. by setoid_rewrite Hp.
Qed.

Lemma lookupId_cons v item id :
  NoDup (itemIds (v :: item)) →
  lookupId (v :: item) id = if bool_decide (id ∈ ids v) then Some (val v) else lookupId item id.
Proof.
  intros Hnd. unfold lookupId at 1. cbn. destruct (containsId (ids v) id) as [j|] eqn:E.
  - apply containsId_Some, list_elem_of_lookup_2 in E. by rewrite bool_decide_eq_true_2.
  - apply containsId_None in E. rewrite bool_decide_eq_false_2 by done. unfold lookupId.
    by destruct (findValue item id) as [[[? ?] ?]|].
Qed.

(** Replacing the ids of one value; up to order it is the first one. *)
Lemma insert_perm (item : MultiValueItem V) i v w :
  item !! i = Some v → ∃ rest, item ≡ₚ v :: rest ∧ <[i := w]> item ≡ₚ w :: rest.
Proof.
  intros Hi. exists (take i item ++ drop (S i) item). split.
  - rewrite <- (take_drop_middle item i v Hi) at 1. by rewrite <- Permutation_middle.
  - rewrite insert_take_drop by (by eapply lookup_lt_Some). by rewrite <- Permutation_middle.
Qed.

Lemma deleteElem_perm {T} (s : list T) i (y : T) : s !! i = Some y → s ≡ₚ y :: deleteElemFromSlice s i.
Proof.
  intros Hi. unfold deleteElemFromSlice. destruct (s !! (length s - 1)%nat) as [z|] eqn:E.
  - by apply swap_remove_perm.
  - apply lookup_ge_None in E. apply lookup_lt_Some in Hi. lia.
Qed.

(** What an operation on items does for every object. *)
Definition item_upd (item item' : MultiValueItem V) (id : Z) (o : option V) : Prop :=
  item_ok item' ∧ lookupId item' id = o ∧
  (∀ id', id' ≠ id → lookupId item' id' = lookupId item id') ∧
  (∀ id', id' ≠ id → id' ∈ itemIds item' ↔ id' ∈ itemIds item).

Lemma item_upd_ids item item' id o :
  item_ok item' → lookupId item' id = o →
  (∀ id', id' ≠ id → lookupId item' id' = lookupId item id') → item_upd item item' id o.
Proof.
  intros Hok Ho Hne. split_and!; [done|done|done|]. intros id' Hid.
  pose proof (lookupId_None item id') as H1. pose proof (lookupId_None item' id') as H2.
  rewrite Hne in H2 by done. rewrite H1 in H2. destruct (decide (id' ∈ itemIds item)), (decide (id' ∈ itemIds item')); tauto.
Qed.

(** Up to order: [id] leaves its value, or the value goes with it. *)
Lemma remove_core v rest id l' :
  item_ok (v :: rest) → ids v ≡ₚ id :: l' →
  item_upd (v :: rest) (if bool_decide (l' = []) then rest else mkValue (val v) l' :: rest) id None.
Proof.
  intros [Hnd Hne] Hp. assert (NoDup (itemIds rest) ∧ id ∉ itemIds rest ∧ NoDup l' ∧ id ∉ l' ∧
     (∀ x, x ∈ l' → x ∉ itemIds rest)) as (Hr & Hidr & Hl & Hidl & Hdisj).
  { cbn in Hnd. rewrite Hp in Hnd. cbn in Hnd. apply NoDup_cons in Hnd as [Hid Hnd].
    apply NoDup_app in Hnd as (Hl & Hd & Hr). set_solver. }
  apply item_upd_ids.
  - case_bool_decide as E; split.
    + done.
    + intros x Hx. apply Hne. by right.
    + cbn. apply NoDup_app. split_and!; [done|done|done].
    + intros x [->|Hx]%elem_of_cons; [done|]. apply Hne. by right.
  - apply lookupId_None. case_bool_decide; cbn; [done|]. set_solver.
  - intros id' Hid'. rewrite (lookupId_cons v rest id' Hnd).
    assert (id' ∈ ids v ↔ id' ∈ l') as Hin by (rewrite Hp; set_solver).
    case_bool_decide as E.
    + subst l'. rewrite bool_decide_eq_false_2; [done|]. rewrite Hin. set_solver.
    + rewrite lookupId_cons by (cbn; apply NoDup_app; split_and!; done). cbn [ids val].
      by rewrite (bool_decide_ext (id' ∈ ids v) (id' ∈ l')).
Qed.

Lemma item_upd_perm item1 item1' item2 item2' id o :
  item1 ≡ₚ item2 → item1' ≡ₚ item2' → item_ok item1 → item_upd item1 item1' id o → item_upd item2 item2' id o.
Proof.
  intros H1 H2 [Hok1 _] (Hok & Ho & Hne & _).
  apply item_upd_ids; [by eapply item_ok_perm|..].
  - rewrite <- (lookupId_perm item1' item2') by (done || apply Hok). done.
  - intros id' Hid. rewrite <- (lookupId_perm item1' item2'), <- (lookupId_perm item1 item2) by (done || apply Hok). by apply Hne.
Qed.

Lemma removeId_spec item id :
  item_ok item → item_upd item (fst (removeId item id)) id None ∧
  snd (removeId item id) = bool_decide (is_Some (lookupId item id)).
Proof.
  intros Hok. unfold removeId, lookupId. destruct (findValue item id) as [[[vi v] fi]|] eqn:E; cbn.
  - split; [|done]. apply findValue_Some in E as [Hv Hid].
    pose proof (deleteElem_perm _ _ _ Hid) as Hpid. set (l' := deleteElemFromSlice (ids v) fi) in *.
    assert (length (ids v) = 1%nat ↔ l' = []) as Hlen.
    { rewrite Hpid. cbn. destruct l'; cbn; split; (done || lia). }
    destruct (insert_perm item vi v (mkValue (val v) l') Hv) as (rest & Hp1 & Hp2).
    pose proof (deleteElem_perm _ _ _ Hv) as Hpd.
    pose proof (remove_core v rest id l' (item_ok_perm _ _ Hp1 Hok) Hpid) as Hcore.
    eapply item_upd_perm; [symmetry; exact Hp1| |by eapply item_ok_perm|exact Hcore].
    rewrite (bool_decide_ext _ _ Hlen). case_bool_decide; [|by rewrite Hp2].
    apply (Permutation_cons_inv (a := v)). by rewrite <- Hp1, <- Hpd.
  - apply findValue_None in E. split; [|done]. apply item_upd_ids; [done|by apply lookupId_None|done].
Qed.

(** Up to order: [id] joins the value [v]. *)
Lemma add_core v rest id :
  item_ok (v :: rest) → id ∉ itemIds (v :: rest) →
  item_upd (v :: rest) (mkValue (val v) (ids v ++ [id]) :: rest) id (Some (val v)).
Proof.
  intros [Hnd Hne] Hid. assert (NoDup (itemIds (mkValue (val v) (ids v ++ [id]) :: rest))) as Hnd'.
  { cbn in *. rewrite (Permutation_app_comm (ids v) [id]). cbn. constructor; [done|done]. }
  apply item_upd_ids.
  - split; [done|]. intros x [->|Hx]%elem_of_cons; [cbn; by destruct (ids v)|]. apply Hne. by right.
  - rewrite lookupId_cons by done. cbn [ids val]. by rewrite bool_decide_eq_true_2 by set_solver.
  - intros id' Hid'. rewrite !lookupId_cons by done. cbn [ids val].
    by rewrite (bool_decide_ext (id' ∈ ids v ++ [id]) (id' ∈ ids v)) by set_solver.
Qed.

Lemma addId_spec item x id :
  item_ok item → id ∉ itemIds item → item_upd item (addId item x id) id (Some x).
Proof.
  intros Hok Hid. unfold addId. destruct (list_find _ item) as [[vi v]|] eqn:E.
  - apply list_find_Some in E as (Hv & <- & _).
    destruct (insert_perm item vi v (mkValue (val v) (ids v ++ [id])) Hv) as (rest & Hp1 & Hp2).
    eapply item_upd_perm; [symmetry; exact Hp1|symmetry; exact Hp2|by eapply item_ok_perm|].
    apply add_core; [by eapply item_ok_perm|]. unfold itemIds in *. by rewrite <- Hp1.
  - assert (NoDup (itemIds (mkValue x [id] :: item))) as Hnd.
    { cbn. constructor; [done|apply Hok]. }
    eapply (item_upd_perm item (mkValue x [id] :: item)); [done|by rewrite Permutation_app_comm|done|].
    apply item_upd_ids.
    + split; [done|]. intros v [->|Hv]%elem_of_cons; [done|]. by apply Hok.
    + rewrite lookupId_cons by done. cbn. by rewrite bool_decide_eq_true_2 by set_solver.
    + intros id' Hid'. rewrite lookupId_cons by done. cbn. by rewrite bool_decide_eq_false_2 by set_solver.
Qed.

Lemma copyItem_spec src dst item :
  item_ok item → dst ∉ itemIds item →
  item_upd item (copyItem src dst item) dst (lookupId item src).
Proof.
  intros Hok Hdst. unfold copyItem. destruct (findValue item src) as [[[vi v] fi]|] eqn:E.
  - assert (lookupId item src = Some (val v)) as -> by (unfold lookupId; by rewrite E).
    apply findValue_Some in E as [Hv _].
    destruct (insert_perm item vi v (mkValue (val v) (ids v ++ [dst])) Hv) as (rest & Hp1 & Hp2).
    eapply item_upd_perm; [symmetry; exact Hp1|symmetry; exact Hp2|by eapply item_ok_perm|].
    apply add_core; [by eapply item_ok_perm|]. unfold itemIds in *. by rewrite <- Hp1.
  - assert (lookupId item src = None) as -> by (unfold lookupId; by rewrite E).
    apply item_upd_ids; [done|by apply lookupId_None|done].
Qed.

(** ** The appended items *)

Implicit Types items : list (MultiValueItem V).

(** What an object sees of the appended items: up to the first one without it. *)
Fixpoint appendedView items (id : Z) : list V :=
  match items with
  | [] => []
  | item :: rest => match lookupId item id with Some v => v :: appendedView rest id | None => [] end
  end.

(** The appended items of an object have no gaps. *)
Fixpoint closed (id : Z) items : Prop :=
  match items with
  | [] => True
  | item :: rest => (lookupId item id = None → Forall (λ it, lookupId it id = None) rest) ∧ closed id rest
  end.

(** An operation for object [id] keeps what the others see of an item. *)
Definition keeps (id : Z) item item' : Prop :=
  item_ok item' ∧ ∀ id', id' ≠ id → lookupId item' id' = lookupId item id'.

Lemma item_upd_keeps item item' id o : item_upd item item' id o → keeps id item item'.
Proof. by intros (H1 & _ & H3 & _). Qed.

Lemma keeps_refl id item : item_ok item → keeps id item item.
Proof. done. Qed.

Lemma keeps_Forall_refl id items : Forall item_ok items → Forall2 (keeps id) items items.
Proof. induction 1; constructor; [by apply keeps_refl|done]. Qed.

Lemma keeps_views id items items' :
  Forall2 (keeps id) items items' → ∀ id', id' ≠ id →
  appendedView items' id' = appendedView items id' ∧ (closed id' items → closed id' items').
Proof.
  intros Hk id' Hne. induction Hk as [|it it' items items' [_ Hit] Hk [IH1 IH2]]; [done|]. cbn.
  rewrite (Hit id' Hne), IH1. split; [done|]. intros [Hn Hc]. split; [|by apply IH2].
  intros Hnone. specialize (Hn Hnone). clear -Hk Hn Hne.
  induction Hk as [|x x' items items' [_ Hx] _ IH]; [done|]. inversion Hn; subst.
  constructor; [by rewrite Hx|by apply IH].
Qed.

Lemma keeps_ok id items items' : Forall2 (keeps id) items items' → Forall item_ok items'.
Proof. induction 1 as [|? ? ? ? [H _]]; constructor; done. Qed.

Lemma closed_none id items : Forall (λ it, lookupId it id = None) items → closed id items ∧ appendedView items id = [].
Proof.
  induction 1 as [|it items Hit Hall [IH1 IH2]]; [done|]. cbn. rewrite Hit. split; [|done]. split; [|done]. done.
Qed.

Lemma appendedView_lookup id items j :
  closed id items → appendedView items id !! j = items !! j ≫= λ it, lookupId it id.
Proof.
  revert j. induction items as [|it items IH]; intros j; [by destruct j|]. cbn. intros [Hn Hc].
  destruct (lookupId it id) as [v|] eqn:E; destruct j as [|j]; cbn; [done|by apply IH|done|].
  specialize (Hn eq_refl). destruct (items !! j) as [it'|] eqn:Ej; [|done]. cbn.
  by apply (Forall_lookup_1 _ _ _ _ Hn) in Ej.
Qed.

Lemma copyAppended_spec src dst items :
  Forall item_ok items → closed src items → Forall (λ it, lookupId it dst = None) items →
  Forall2 (keeps dst) items (copyAppended src dst items) ∧ closed dst (copyAppended src dst items) ∧
  appendedView (copyAppended src dst items) dst = appendedView items src.
Proof.
  induction 1 as [|it items Hok Hoks IH]; cbn; [done|]. intros [Hn Hc] Hd.
  inversion Hd as [|? ? Hd1 Hd2]; subst. destruct (IH Hc Hd2) as (IH1 & IH2 & IH3).
  pose proof (copyItem_spec src dst it Hok ltac:(by apply lookupId_None)) as Hcp.
  destruct (findValue it src) as [[[vi v] fi]|] eqn:E.
  - assert (lookupId it src = Some (val v)) as Hl by (unfold lookupId; by rewrite E).
    rewrite Hl in Hcp |- *. cbn. destruct Hcp as (C1 & C2 & C3 & _). rewrite C2, IH3. split_and!; [|done..].
    constructor; [split; done|done].
  - assert (lookupId it src = None) as Hl by (unfold lookupId; by rewrite E). rewrite Hl.
    destruct (closed_none dst (it :: items) ltac:(by constructor)) as [K1 K2]. split; [|split; [exact K1|exact K2]].
    constructor; [by apply keeps_refl|by apply keeps_Forall_refl].
Qed.

Lemma detachAppended_spec obj items :
  Forall item_ok items → closed obj items →
  Forall2 (keeps obj) items (detachAppended obj items) ∧
  Forall (λ it, lookupId it obj = None) (detachAppended obj items).
Proof.
  induction 1 as [|it items Hok Hoks IH]; cbn; [done|]. intros [Hn Hc]. destruct (IH Hc) as [IH1 IH2].
  destruct (removeId_spec it obj Hok) as [Hr Hf]. destruct (removeId it obj) as [it' found]. cbn in *. subst found.
  destruct Hr as (R1 & R2 & R3 & _). case_bool_decide as Hs.
  - split; constructor; done.
  - assert (lookupId it obj = None) as Hl by (by apply eq_None_not_Some). split; constructor; try done; [|by apply Hn].
    by apply keeps_Forall_refl.
Qed.

Lemma appendLoop_Some items obj x items' :
  Forall item_ok items → closed obj items → appendLoop items obj x = Some items' →
  Forall2 (keeps obj) items items' ∧ closed obj items' ∧
  appendedView items' obj = appendedView items obj ++ [x].
Proof.
  intros Hoks. revert items'. induction Hoks as [|it items Hok Hoks IH]; intros items'; cbn; [done|].
  intros [Hn Hc]. destruct (findValue it obj) as [[[vi v] fi]|] eqn:E.
  - assert (lookupId it obj = Some (val v)) as Hl by (unfold lookupId; by rewrite E).
    destruct (appendLoop items obj x) as [rest|]; [|done]. intros [= <-].
    destruct (IH rest Hc eq_refl) as (IH1 & IH2 & IH3). cbn. rewrite Hl, IH3.
    split_and!; [constructor; [by apply keeps_refl|done]|done..].
  - assert (lookupId it obj = None) as Hl by (unfold lookupId; by rewrite E).
    intros [= <-]. destruct (addId_spec it x obj Hok ltac:(by apply lookupId_None)) as (A1 & A2 & A3 & _).
    cbn. rewrite Hl, A2. destruct (closed_none obj items (Hn Hl)) as [K1 K2]. rewrite K2.
    split_and!; [|done..]. constructor; [done|by apply keeps_Forall_refl].
Qed.

Lemma appendLoop_None items obj x :
  appendLoop items obj x = None → Forall (λ it, is_Some (lookupId it obj)) items.
Proof.
  induction items as [|it items IH]; cbn; [constructor|].
  destruct (findValue it obj) as [[[vi v] fi]|] eqn:E; [|done].
  destruct (appendLoop items obj x); [done|]. intros _. constructor; [|by apply IH].
  unfold lookupId. rewrite E. eauto.
Qed.

(** Appending one more item for [obj], which has all of them. *)
Lemma snoc_spec items obj x :
  Forall (λ it, is_Some (lookupId it obj)) items → Forall item_ok items →
  let items' := items ++ [[mkValue x [obj]]] in
  Forall item_ok items' ∧ closed obj items' ∧ appendedView items' obj = appendedView items obj ++ [x] ∧
  (∀ id, id ≠ obj → appendedView items' id = appendedView items id ∧ (closed id items → closed id items')).
Proof.
  intros Hs Hok items'. assert (item_ok [mkValue x [obj]]) as Hnew.
  { split; [cbn; apply NoDup_singleton|]. intros v ->%list_elem_of_singleton. done. }
  assert (lookupId [mkValue x [obj]] obj = Some x) as Hl.
  { apply lookupId_iff; [apply Hnew|]. exists (mkValue x [obj]). set_solver. }
  assert (∀ id, id ≠ obj → lookupId [mkValue x [obj]] id = None) as Hne.
  { intros id Hid. apply lookupId_None. cbn. set_solver. }
  split; [apply Forall_app; split; [done|by constructor]|]. unfold items'. clear items'.
  induction Hs as [|it items [v Hv] Hs IH]; cbn.
  - rewrite Hl. split_and!; [done|done|done|]. intros id Hid. rewrite Hne by done. done.
  - inversion Hok; subst. destruct IH as (IH1 & IH2 & IH3); [done|]. rewrite Hv, IH2. split_and!; [done|done|done|].
    intros id Hid. destruct (IH3 id Hid) as [E1 E2]. rewrite E1. split; [done|]. intros [Hn Hc].
    split; [|by apply E2]. intros Hnone. apply Forall_app. split; [by apply Hn|]. constructor; [by apply Hne|done].
Qed.

(** Replacing the value of [obj] at [j]. *)
Lemma replace_spec items obj j it it' x :
  Forall item_ok items → closed obj items → items !! j = Some it → is_Some (lookupId it obj) →
  keeps obj it it' → lookupId it' obj = Some x →
  Forall2 (keeps obj) items (<[j := it']> items) ∧ closed obj (<[j := it']> items) ∧
  appendedView (<[j := it']> items) obj = <[j := x]> (appendedView items obj).
Proof.
  intros Hok. revert j. induction Hok as [|it0 items Hok0 Hoks IH]; intros j; [by destruct j|].
  cbn. intros [Hn Hc] Hj [v Hv] Hk Hx. destruct j as [|j]; csimpl in *.
  - simplify_eq. rewrite Hx, Hv. split_and!; [|done..]. constructor; [done|by apply keeps_Forall_refl].
  - destruct (IH j Hc Hj ltac:(eauto) Hk Hx) as (IH1 & IH2 & IH3). rewrite IH3.
    destruct (lookupId it0 obj) as [v0|] eqn:E0.
    + split_and!; [constructor; [by apply keeps_refl|done]|done..].
    + exfalso. specialize (Hn eq_refl). apply (Forall_lookup_1 _ _ _ _ Hn) in Hj. congruence.
Qed.

(** ** The slice *)

Implicit Types s : Slice V.

(** The value an object sees at an original index. *)
Definition originalAt s (id : Z) (i : nat) (sh : V) : V :=
  match individualItems s !! i with
  | Some ind => default sh (lookupId ind id)
  | None => sh
  end.

(** The contents of the slice for an object. *)
Definition view s (id : Z) : list V :=
  imap (originalAt s id) (sharedItems s) ++ appendedView (appendedItems s) id.

Record slice_ok s : Prop := {
  so_ind : ∀ i ind, individualItems s !! i = Some ind → item_ok ind ∧ (i < length (sharedItems s))%nat;
  so_app : Forall item_ok (appendedItems s);
  so_closed : ∀ id, closed id (appendedItems s);
  so_len : ∀ id, cachedLengths s !! id =
             match appendedView (appendedItems s) id with
             | [] => None
             | l => Some (length (sharedItems s) + length l)%nat
             end
}.

(** No part of the slice mentions the object. *)
Definition detached s (id : Z) : Prop :=
  (∀ i ind, individualItems s !! i = Some ind → lookupId ind id = None) ∧
  Forall (λ it, lookupId it id = None) (appendedItems s).

Lemma view_length s id : slice_ok s → length (view s id) = Len s id.
Proof.
  intros Hok. unfold view, Len. rewrite length_app, length_imap, (so_len s Hok).
  destruct (appendedView (appendedItems s) id); cbn; lia.
Qed.

Lemma view_detached s id : detached s id → view s id = sharedItems s.
Proof.
  intros [Hi Ha]. unfold view. destruct (closed_none id _ Ha) as [_ ->]. rewrite app_nil_r.
  apply list_eq. intros i. rewrite list_lookup_imap. destruct (sharedItems s !! i) as [sh|]; [|done]. cbn. f_equal.
  unfold originalAt. destruct (individualItems s !! i) as [ind|] eqn:E; [|done]. by rewrite (Hi i ind E).
Qed.

(** ** Reading *)

Lemma setIdx_ok {T} (l : list T) i y : (i < length l)%nat → setIdx l i y = Ret (<[i := y]> l).
Proof. intros Hi. unfold setIdx. by rewrite bool_decide_eq_true_2. Qed.

(** Filling from [i] on replaces the part of the original items. *)
Lemma fillLoop_run s id i shared pre mid post :
  length pre = i → length mid = length shared →
  fillLoop s id i shared (pre ++ mid ++ post) =
  Ret (pre ++ imap (λ k, originalAt s id (i + k)) shared ++ post).
Proof.
  revert i pre mid. induction shared as [|sh shared IH]; intros i pre mid Hpre Hmid; [by destruct mid|].
  destruct mid as [|m mid]; [done|]. cbn in Hmid. cbn [fillLoop].
  assert ((match individualItems s !! i with
           | Some ind => match lookupId ind id with Some v => v | None => sh end
           | None => sh end) = originalAt s id i sh) as ->.
  { unfold originalAt. destruct (individualItems s !! i); [|done]. by destruct (lookupId _ _). }
  rewrite setIdx_ok by (rewrite !length_app; cbn; lia). cbn [obind].
  replace (<[i := originalAt s id i sh]> (pre ++ (m :: mid) ++ post))
    with ((pre ++ [originalAt s id i sh]) ++ mid ++ post).
  2: { rewrite insert_app_r_alt by lia. rewrite Hpre, Nat.sub_diag. cbn. by rewrite <- app_assoc. }
  rewrite (IH (S i)); [|rewrite length_app; cbn; lia|lia]. f_equal. rewrite imap_cons, <- !app_assoc. cbn.
  rewrite Nat.add_0_r. do 3 f_equal. apply imap_ext. intros k x _. cbn. by rewrite Nat.add_succ_r.
Qed.

(** The appended items fill the rest. *)
Lemma fillAppended_run n id app pre post i :
  length pre = (n + i)%nat → length post = length (appendedView app id) →
  fillAppended n i id app (pre ++ post) = Ret (pre ++ appendedView app id).
Proof.
  revert i pre post. induction app as [|it app IH]; intros i pre post Hpre Hpost; [by destruct post|].
  cbn in *. destruct (lookupId it id) as [v|]; [|by destruct post].
  destruct post as [|p post]; [done|]. cbn in Hpost. rewrite setIdx_ok by (rewrite length_app; cbn; lia). cbn [obind].
  replace (<[(n + i)%nat := v]> (pre ++ p :: post)) with ((pre ++ [v]) ++ post).
  2: { rewrite insert_app_r_alt by lia. rewrite Hpre, Nat.sub_diag. cbn. by rewrite <- app_assoc. }
  rewrite IH; [by rewrite <- app_assoc|rewrite length_app; cbn; lia|lia].
Qed.

Lemma ValueOf_run s id : slice_ok s → ValueOf def s id = Ret (view s id).
Proof.
  intros Hok. pose proof (view_length s id Hok) as Hlen. unfold ValueOf, fillOriginalItems, view.
  unfold view, Len in Hlen. rewrite length_app, length_imap in Hlen.
  destruct (cachedLengths s !! id) as [l|] eqn:E.
  - rewrite <- Hlen, replicate_add.
    pose proof (fillLoop_run s id 0 (sharedItems s) [] (replicate (length (sharedItems s)) def)
                  (replicate (length (appendedView (appendedItems s) id)) def)
                  eq_refl (length_replicate _ _)) as Hf. cbn [app Nat.add] in Hf. rewrite Hf. cbn [obind].
    apply (fillAppended_run (length (sharedItems s)) id (appendedItems s) (imap _ _) _ 0).
    + rewrite length_imap. lia.
    + by rewrite length_replicate.
  - pose proof (fillLoop_run s id 0 (sharedItems s) [] (replicate (length (sharedItems s)) def) []
                  eq_refl (length_replicate _ _)) as Hf. cbn [app Nat.add] in Hf. rewrite !app_nil_r in Hf. rewrite Hf.
    destruct (appendedView (appendedItems s) id); [|cbn in Hlen; lia]. by rewrite app_nil_r.
Qed.

Lemma view_lookup s id i :
  slice_ok s → view s id !! i =
  match sharedItems s !! i with
  | Some sh => Some (originalAt s id i sh)
  | None => appendedItems s !! (i - length (sharedItems s))%nat ≫= λ it, lookupId it id
  end.
Proof.
  intros Hok. unfold view. destruct (sharedItems s !! i) as [sh|] eqn:E.
  - rewrite lookup_app_l by (rewrite length_imap; by eapply lookup_lt_Some). rewrite list_lookup_imap, E. done.
  - apply lookup_ge_None in E. rewrite lookup_app_r by (by rewrite length_imap). rewrite length_imap.
    apply appendedView_lookup, Hok.
Qed.

Lemma ItemAt_run s id i :
  slice_ok s → ItemAt s id i = match view s id !! i with Some v => Ret v | None => Err errIndex end.
Proof.
  intros Hok. rewrite view_lookup by done. unfold ItemAt, originalAt. case_bool_decide as Hb.
  - rewrite lookup_ge_None_2 by lia. by rewrite lookup_ge_None_2 by lia.
  - destruct (sharedItems s !! i) as [sh|] eqn:E.
    + destruct (individualItems s !! i) as [ind|]; [|done]. by destruct (lookupId ind id).
    + apply lookup_ge_None in E. destruct (appendedItems s !! (i - _)%nat) as [it|] eqn:Ea.
      * cbn. by destruct (lookupId it id).
      * apply lookup_ge_None in Ea. lia.
Qed.

(** ** Writing *)

Lemma view_eq s s' id id' :
  sharedItems s' = sharedItems s → (∀ i sh, originalAt s' id i sh = originalAt s id' i sh) →
  appendedView (appendedItems s') id = appendedView (appendedItems s) id' → view s' id = view s id'.
Proof.
  intros H1 H2 H3. unfold view. rewrite H1, H3. f_equal. apply imap_ext. intros i x _. apply H2.
Qed.

(** [s'] changes what [id] sees to [l], and nothing for the other objects. *)
Definition changes s s' (id : Z) (l : list V) : Prop :=
  slice_ok s' ∧ sharedItems s' = sharedItems s ∧ view s' id = l ∧
  (∀ id', id' ≠ id → view s' id' = view s id' ∧ (detached s id' → detached s' id')).

Lemma keeps_none id items items' id' :
  Forall2 (keeps id) items items' → id' ≠ id →
  Forall (λ it, lookupId it id' = None) items → Forall (λ it, lookupId it id' = None) items'.
Proof.
  intros Hk Hne. induction Hk as [|x x' items items' [_ Hx] _ IH]; [done|]. intros Hn. inversion Hn; subst.
  constructor; [by rewrite Hx|by apply IH].
Qed.

(** The part common to all operations: the originals and the appended items of
    the other objects are kept, and so are their lengths. *)
Lemma changes_intro s s' id l :
  slice_ok s → sharedItems s' = sharedItems s →
  (∀ i ind', individualItems s' !! i = Some ind' → item_ok ind' ∧ (i < length (sharedItems s))%nat) →
  (∀ i id' sh, id' ≠ id → originalAt s' id' i sh = originalAt s id' i sh) →
  (∀ i id' ind', id' ≠ id → individualItems s' !! i = Some ind' →
     (∀ ind, individualItems s !! i = Some ind → lookupId ind id' = None) → lookupId ind' id' = None) →
  Forall item_ok (appendedItems s') →
  (∀ id', id' ≠ id → appendedView (appendedItems s') id' = appendedView (appendedItems s) id' ∧
     closed id' (appendedItems s') ∧
     (Forall (λ it, lookupId it id' = None) (appendedItems s) →
      Forall (λ it, lookupId it id' = None) (appendedItems s'))) →
  closed id (appendedItems s') →
  (∀ id', id' ≠ id → cachedLengths s' !! id' = cachedLengths s !! id') →
  cachedLengths s' !! id = match appendedView (appendedItems s') id with
                           | [] => None | l => Some (length (sharedItems s) + length l)%nat end →
  view s' id = l → changes s s' id l.
Proof.
  intros Hok Hsh Hind Horig Hdet Happ Hothers Hcl Hlen Hlenid Hview. split_and!; [|done|done|].
  - constructor; rewrite ?Hsh; [done|done| |].
    + intros id'. destruct (decide (id' = id)) as [->|Hne]; [done|]. by apply Hothers.
    + intros id'. destruct (decide (id' = id)) as [->|Hne]; [done|]. rewrite Hlen by done.
      destruct (Hothers id' Hne) as (-> & _). apply (so_len s Hok).
  - intros id' Hne. destruct (Hothers id' Hne) as (E1 & _ & E3). split.
    + apply view_eq; [done| |done]. intros i sh. by apply Horig.
    + intros [D1 D2]. split; [|by apply E3]. intros i ind' Hi. apply (Hdet i id' ind' Hne Hi). intros ind. apply D1.
Qed.

(** Operations that leave the appended items and the lengths alone. *)
Lemma changes_same_appended s s' id :
  slice_ok s → appendedItems s' = appendedItems s →
  Forall item_ok (appendedItems s') ∧
  (∀ id', id' ≠ id → appendedView (appendedItems s') id' = appendedView (appendedItems s) id' ∧
     closed id' (appendedItems s') ∧
     (Forall (λ it, lookupId it id' = None) (appendedItems s) →
      Forall (λ it, lookupId it id' = None) (appendedItems s'))) ∧ closed id (appendedItems s').
Proof.
  intros Hok ->. split_and!; [apply Hok| |apply Hok]. intros id' _. split_and!; [done|apply Hok|done].
Qed.

(** Operations that change the appended items by an update for [id]. *)
Lemma changes_keeps_appended s items' id :
  slice_ok s → Forall2 (keeps id) (appendedItems s) items' →
  Forall item_ok items' ∧
  (∀ id', id' ≠ id → appendedView items' id' = appendedView (appendedItems s) id' ∧ closed id' items' ∧
     (Forall (λ it, lookupId it id' = None) (appendedItems s) → Forall (λ it, lookupId it id' = None) items')).
Proof.
  intros Hok Hk. split; [by eapply keeps_ok|]. intros id' Hne.
  destruct (keeps_views id _ _ Hk id' Hne) as [E1 E2]. split_and!; [done|apply E2, Hok|by eapply keeps_none].
Qed.

Lemma Copy_spec s src dst :
  slice_ok s → detached s dst → changes s (Copy src dst s) dst (view s src).
Proof.
  intros Hok [Hd1 Hd2].
  destruct (copyAppended_spec src dst (appendedItems s) (so_app s Hok) (so_closed s Hok src) Hd2) as (C1 & C2 & C3).
  destruct (changes_keeps_appended s _ dst Hok C1) as [A1 A2].
  assert (∀ i ind, individualItems s !! i = Some ind →
            item_upd ind (copyItem src dst ind) dst (lookupId ind src)) as Hcp.
  { intros i ind Hi. apply copyItem_spec; [by apply (so_ind s Hok) in Hi as [? _]|]. apply lookupId_None. by apply (Hd1 i). }
  apply changes_intro; cbn [Copy sharedItems individualItems appendedItems cachedLengths]; try done.
  - intros i ind'. rewrite lookup_fmap. destruct (individualItems s !! i) as [ind|] eqn:E; [|done]. intros [= <-].
    split; [by apply (Hcp i)|by apply (so_ind s Hok) in E as [_ ?]].
  - intros i id' sh Hne. unfold originalAt. cbn. rewrite lookup_fmap.
    destruct (individualItems s !! i) as [ind|] eqn:E; [|done]. cbn. destruct (Hcp i ind E) as (_ & _ & Hk & _). by rewrite Hk.
  - intros i id' ind' Hne. rewrite lookup_fmap. destruct (individualItems s !! i) as [ind|] eqn:E; [|done]. intros [= <-] Hn.
    destruct (Hcp i ind E) as (_ & _ & Hk & _). rewrite Hk by done. by apply Hn.
  - intros id' Hne. destruct (cachedLengths s !! src); [|done]. by rewrite lookup_insert_ne.
  - rewrite C3, (so_len s Hok src). destruct (appendedView (appendedItems s) src) as [|v l]; cbn.
    + rewrite (so_len s Hok dst). by destruct (closed_none dst _ Hd2) as [_ ->].
    + by rewrite lookup_insert_eq.
  - apply view_eq; [done| |done]. intros i sh. unfold originalAt. cbn. rewrite lookup_fmap.
    destruct (individualItems s !! i) as [ind|] eqn:E; [|done]. cbn. by destruct (Hcp i ind E) as (_ & -> & _).
Qed.

(** The entry for [index] after an update of an original item. *)
Lemma updateOriginal_entry s id index x sh :
  slice_ok s → sharedItems s !! index = Some sh →
  ∃ o ind', updateOriginalItem s id index x =
      Ret (mkSlice (sharedItems s)
             (match o with Some it => <[index := it]> (individualItems s) | None => individualItems s end)
             (appendedItems s) (cachedLengths s)) ∧
    (o = None → individualItems s !! index = None) ∧ (o = Some ind' ∨ o = None) ∧
    (o = Some ind' → item_ok ind') ∧
    default sh (o ≫= λ it, lookupId it id) = x ∧
    (∀ id', id' ≠ id → o ≫= (λ it, lookupId it id') =
       individualItems s !! index ≫= λ it, lookupId it id').
Proof.
  intros Hok Hsh. unfold updateOriginalItem. rewrite Hsh.
  destruct (individualItems s !! index) as [ind|] eqn:Ei; cbn.
  - destruct (removeId_spec ind id) as [(R1 & R2 & R3 & _) _]; [by apply (so_ind s Hok) in Ei as [? _]|].
    set (ind1 := fst (removeId ind id)) in *. case_bool_decide as Hx.
    + exists (Some ind1), ind1. split_and!; [done|done|by left|done|cbn; by rewrite R2|done].
    + destruct (addId_spec ind1 x id R1 ltac:(by apply lookupId_None)) as (A1 & A2 & A3 & _).
      exists (Some (addId ind1 x id)), (addId ind1 x id). rewrite insert_insert_eq.
      split_and!; [done|done|by left|done|cbn; by rewrite A2|]. intros id' Hne. cbn. by rewrite A3, R3.
  - case_bool_decide as Hx.
    + exists None, []. split_and!; [done|done|by right|done|done|done].
    + assert (item_ok []) as Hnil by (split; [constructor|set_solver]).
      destruct (addId_spec [] x id Hnil ltac:(cbn; set_solver)) as (A1 & A2 & A3 & _).
      exists (Some [mkValue x [id]]), [mkValue x [id]].
      split_and!; [done|done|by left|done|cbn [mbind option_bind]; by rewrite (A2 : lookupId [mkValue x [id]] id = Some x)|].
      intros id' Hne. exact (A3 id' Hne).
Qed.

Lemma originalAt_bind s id i sh :
  originalAt s id i sh = default sh (individualItems s !! i ≫= λ it, lookupId it id).
Proof. unfold originalAt. by destruct (individualItems s !! i). Qed.

Lemma updateOriginalItem_spec s id i x sh :
  slice_ok s → sharedItems s !! i = Some sh →
  ∃ s', updateOriginalItem s id i x = Ret s' ∧ changes s s' id (<[i := x]> (view s id)).
Proof.
  intros Hok Esh. pose proof (view_lookup s id i Hok) as Hl. rewrite Esh in Hl.
  apply lookup_lt_Some in Hl. pose proof (lookup_lt_Some _ _ _ Esh) as Hi.
  destruct (updateOriginal_entry s id i x sh Hok Esh) as (o & ind' & Hrun & Hnone & Ho & Hind & Hx & Hothers).
  eexists. split; [exact Hrun|]. set (s' := mkSlice _ _ _ _).
  assert (∀ k, individualItems s' !! k = if bool_decide (k = i) then o else individualItems s !! k) as Hlook.
  { intros k. unfold s'. cbn. case_bool_decide as Hk.
    - subst k. destruct o; [by rewrite lookup_insert_eq|by rewrite Hnone].
    - destruct o; [by rewrite lookup_insert_ne|done]. }
  destruct (changes_same_appended s s' id Hok eq_refl) as (A1 & A2 & A3).
  assert (∀ k it, individualItems s' !! k = Some it → item_ok it ∧ (k < length (sharedItems s))%nat) as Hin.
  { intros k it. rewrite Hlook. case_bool_decide as Hk; [|apply (so_ind s Hok)]. subst k.
    intros ->. split; [|done]. destruct Ho as [[= <-]|]; [by apply Hind|done]. }
  apply changes_intro; try done.
  - intros k id' sh' Hne. rewrite !originalAt_bind, Hlook. case_bool_decide as Hk; [subst k; by rewrite Hothers|done].
  - intros k id' it Hne. rewrite Hlook. case_bool_decide as Hk; [|intros E Hn; by apply Hn].
    subst k. intros -> Hn. specialize (Hothers id' Hne). cbn in Hothers. rewrite Hothers.
    destruct (individualItems s !! i) as [ind|]; [|done]. cbn. by apply Hn.
  - apply (so_len s Hok).
  - assert (slice_ok s') as Hok' by (constructor; [done|done|apply Hok|apply Hok]).
    apply list_eq. intros k. rewrite (view_lookup s' id k Hok'). cbn [sharedItems s']. destruct (decide (k = i)) as [->|Hk].
    + rewrite list_lookup_insert_eq by done. rewrite Esh, originalAt_bind, Hlook, bool_decide_eq_true_2 by done. by rewrite Hx.
    + rewrite list_lookup_insert_ne, (view_lookup s id k Hok) by done. destruct (sharedItems s !! k); [|done].
      by rewrite !originalAt_bind, Hlook, bool_decide_eq_false_2 by done.
Qed.

Lemma updateAppendedItem_spec s id i x it :
  slice_ok s → (length (sharedItems s) ≤ i)%nat →
  appendedItems s !! (i - length (sharedItems s))%nat = Some it →
  if bool_decide (is_Some (lookupId it id))
  then ∃ s', updateAppendedItem s id i x = Ret s' ∧ changes s s' id (<[i := x]> (view s id))
  else updateAppendedItem s id i x = Err errIndex.
Proof.
  intros Hok Hi Ej. unfold updateAppendedItem. rewrite Ej.
  assert (item_ok it) as Hit by (by eapply (Forall_lookup_1 _ _ _ _ (so_app s Hok))).
  destruct (removeId_spec it id Hit) as [(R1 & R2 & R3 & _) Hf]. destruct (removeId it id) as [it1 found]. cbn in *. subst found.
  case_bool_decide as Hs; [|done].
  destruct (addId_spec it1 x id R1 ltac:(by apply lookupId_None)) as (B1 & B2 & B3 & _).
  destruct (replace_spec (appendedItems s) id _ it (addId it1 x id) x (so_app s Hok) (so_closed s Hok id) Ej)
    as (C1 & C2 & C3); [done|split; [done|]; intros id' Hne; by rewrite B3, R3|done|].
  eexists. split; [done|]. destruct (changes_keeps_appended s _ id Hok C1) as [A1 A2].
  apply changes_intro; cbn [sharedItems individualItems appendedItems cachedLengths]; try done.
  - apply (so_ind s Hok).
  - intros k id' it' Hne Hk Hn. by apply Hn.
  - rewrite C3, (so_len s Hok). set (l := appendedView (appendedItems s) id).
    destruct (<[_ := x]> l) as [|y l'] eqn:E; apply (f_equal length) in E; rewrite length_insert in E;
      destruct l; cbn in *; [done|lia|lia|]. do 2 f_equal. lia.
  - unfold view. cbn [sharedItems appendedItems]. rewrite C3, insert_app_r_alt by (rewrite length_imap; lia).
    by rewrite length_imap.
Qed.

Lemma UpdateAt_spec s id i x :
  slice_ok s →
  if bool_decide (i < length (view s id))%nat
  then ∃ s', UpdateAt s id i x = Ret s' ∧ changes s s' id (<[i := x]> (view s id))
  else UpdateAt s id i x = Err errIndex.
Proof.
  intros Hok. pose proof (view_lookup s id i Hok) as Hl. rewrite (bool_decide_ext _ _ (iff_sym (lookup_lt_is_Some _ _))).
  rewrite Hl. unfold UpdateAt. destruct (sharedItems s !! i) as [sh|] eqn:Esh.
  - pose proof (lookup_lt_Some _ _ _ Esh). rewrite bool_decide_eq_true_2 by eauto.
    rewrite bool_decide_eq_false_2, bool_decide_eq_true_2 by lia. by eapply updateOriginalItem_spec.
  - apply lookup_ge_None in Esh.
    destruct (appendedItems s !! (i - length (sharedItems s))%nat) as [it|] eqn:Ej; cbn.
    + pose proof (lookup_lt_Some _ _ _ Ej). rewrite (bool_decide_eq_false_2 (_ ≤ i)%nat), (bool_decide_eq_false_2 (i < _)%nat) by lia.
      by apply updateAppendedItem_spec.
    + apply lookup_ge_None in Ej. by rewrite bool_decide_eq_true_2 by lia.
Qed.

(** The items after an append: [id] sees one more, the others the same. *)
Definition appended s (id : Z) (x : V) items' : Prop :=
  Forall item_ok items' ∧ closed id items' ∧ appendedView items' id = appendedView (appendedItems s) id ++ [x] ∧
  (∀ id', id' ≠ id → appendedView items' id' = appendedView (appendedItems s) id' ∧ closed id' items' ∧
     (Forall (λ it, lookupId it id' = None) (appendedItems s) → Forall (λ it, lookupId it id' = None) items')).

Lemma appended_snoc s id x :
  slice_ok s → Forall (λ it, is_Some (lookupId it id)) (appendedItems s) →
  appended s id x (appendedItems s ++ [[mkValue x [id]]]).
Proof.
  intros Hok Hs. destruct (snoc_spec (appendedItems s) id x Hs (so_app s Hok)) as (S1 & S2 & S3 & S4).
  split_and!; [done..|]. intros id' Hne. destruct (S4 id' Hne) as [E1 E2].
  split_and!; [done|apply E2, Hok|]. intros Hn. apply Forall_app. split; [done|]. constructor; [|done].
  apply lookupId_None. cbn. set_solver.
Qed.

Lemma Append_run s id x :
  slice_ok s → ∃ items', appended s id x items' ∧
    Append s id x = mkSlice (sharedItems s) (individualItems s) items'
      (<[id := (length (sharedItems s) + S (length (appendedView (appendedItems s) id)))%nat]> (cachedLengths s)).
Proof.
  intros Hok. pose proof (so_len s Hok id) as Hlen. unfold Append.
  destruct (appendedItems s) as [|it0 its] eqn:Eit.
  { exists [[mkValue x [id]]]. pose proof (appended_snoc s id x Hok) as Hs. rewrite Eit in Hs. split; [by apply Hs|done]. }
  rewrite <- Eit in *. destruct (appendLoop (appendedItems s) id x) as [items'|] eqn:El.
  - destruct (appendLoop_Some _ _ _ _ (so_app s Hok) (so_closed s Hok id) El) as (L1 & L2 & L3).
    destruct (changes_keeps_appended s _ id Hok L1) as [K1 K2]. exists items'. split; [done|].
    rewrite Hlen. do 2 f_equal. destruct (appendedView (appendedItems s) id); cbn; lia.
  - apply appendLoop_None in El. eexists. split; [by apply appended_snoc|]. rewrite Hlen. do 2 f_equal.
    assert (appendedView (appendedItems s) id ≠ []) as Hne.
    { rewrite Eit in El |- *. cbn. inversion El as [|? ? [v Hv] _]; subst. by rewrite Hv. }
    destruct (appendedView (appendedItems s) id); [done|]. cbn. lia.
Qed.

Lemma Append_spec s id x : slice_ok s → changes s (Append s id x) id (view s id ++ [x]).
Proof.
  intros Hok. destruct (Append_run s id x Hok) as (items' & (A1 & A2 & A3 & A4) & ->).
  apply changes_intro; cbn [sharedItems individualItems appendedItems cachedLengths]; try done.
  - apply (so_ind s Hok).
  - intros k id' it' Hne Hk Hn. by apply Hn.
  - intros id' Hne. by rewrite lookup_insert_ne.
  - rewrite lookup_insert_eq, A3. destruct (appendedView (appendedItems s) id); cbn; [done|].
    rewrite length_app. cbn. do 2 f_equal. lia.
  - unfold view. cbn [sharedItems appendedItems]. rewrite A3. by rewrite app_assoc.
Qed.

Lemma detachIndividual_spec id ind :
  item_ok ind →
  match detachIndividual id ind with
  | Some ind' => item_upd ind ind' id None
  | None => ∀ id', id' ≠ id → lookupId ind id' = None
  end.
Proof.
  intros Hok. destruct (removeId_spec ind id Hok) as [Hr _]. unfold detachIndividual, removeId in *.
  destruct (findValue ind id) as [[[vi v] fi]|] eqn:E; cbn in Hr; [|done].
  case_bool_decide as Hl; [|done]. case_bool_decide as Hl1; [|done]. intros id' Hne.
  apply findValue_Some in E as [Hv Hf]. destruct ind as [|v0 [|]]; [done| |done].
  destruct vi; [|done]. cbn in Hv. injection Hv as ->. apply lookupId_None. cbn. rewrite app_nil_r.
  destruct (ids v) as [|a [|]]; [done| |done]. destruct fi; [|done]. cbn in Hf. injection Hf as ->. set_solver.
Qed.

Lemma Detach_spec s id : slice_ok s → changes s (Detach s id) id (sharedItems s) ∧ detached (Detach s id) id.
Proof.
  intros Hok. destruct (detachAppended_spec id (appendedItems s) (so_app s Hok) (so_closed s Hok id)) as [D1 D2].
  destruct (changes_keeps_appended s _ id Hok D1) as [A1 A2]. destruct (closed_none id _ D2) as [C1 C2].
  assert (∀ i ind', omap (detachIndividual id) (individualItems s) !! i = Some ind' →
            ∃ ind, individualItems s !! i = Some ind ∧ item_upd ind ind' id None) as Hom.
  { intros i ind'. rewrite lookup_omap. destruct (individualItems s !! i) as [ind|] eqn:E; [|done]. cbn. intros Hd.
    exists ind. split; [done|]. pose proof (detachIndividual_spec id ind) as Hs. rewrite Hd in Hs.
    apply Hs. by apply (so_ind s Hok) in E as [? _]. }
  assert (detached (Detach s id) id) as Hdet.
  { split; [|done]. intros i ind' Hi. by destruct (Hom i ind' Hi) as (ind & _ & _ & ? & _). }
  split; [|done]. apply changes_intro; cbn [Detach sharedItems individualItems appendedItems cachedLengths]; try done.
  - intros i ind' Hi. destruct (Hom i ind' Hi) as (ind & E & Hu & _). split; [done|]. by apply (so_ind s Hok) in E as [_ ?].
  - intros i id' sh Hne. rewrite !originalAt_bind. cbn. rewrite lookup_omap.
    destruct (individualItems s !! i) as [ind|] eqn:E; [|done]. cbn.
    pose proof (detachIndividual_spec id ind ltac:(by apply (so_ind s Hok) in E as [? _])) as Hs.
    destruct (detachIndividual id ind) as [ind'|]; cbn.
    + destruct Hs as (_ & _ & Hk & _). by rewrite Hk.
    + by rewrite Hs.
  - intros i id' ind' Hne Hi Hn. destruct (Hom i ind' Hi) as (ind & E & _ & _ & Hk & _). rewrite Hk by done. by apply Hn.
  - intros id' Hne. by rewrite lookup_delete_ne.
  - by rewrite lookup_delete_eq, C2.
  - exact (view_detached (Detach s id) id Hdet).
Qed.

(** ** [Reset] *)

(** Each individual value of the object is written once. *)
Lemma resetIndividual_run id (order : list (nat * MultiValueItem V)) (items : list V) :
  NoDup order.*1 → (∀ i ind, (i, ind) ∈ order → (i < length items)%nat) →
  ∃ items' : list V, resetIndividual id order items = Ret items' ∧ length items' = length items ∧
    ∀ k, (k < length items)%nat →
      items' !! k = match (list_to_map order : gmap nat _) !! k ≫= λ ind, lookupId ind id with
                    | Some v => Some v | None => items !! k end.
Proof.
  revert items. induction order as [|[i ind] order IH]; intros items Hnd Hin; cbn.
  { exists items. split_and!; [done|done|]. intros k _. by rewrite lookup_empty. }
  apply NoDup_cons in Hnd as [Hi Hnd].
  assert ((list_to_map order : gmap nat (MultiValueItem V)) !! i = None) as Hnone by (by apply not_elem_of_list_to_map).
  destruct (lookupId ind id) as [v|] eqn:E.
  - rewrite setIdx_ok by (apply (Hin i ind); left). cbn.
    destruct (IH (<[i := v]> items)) as (items' & -> & Hl & Hk); [done|intros; rewrite length_insert; eapply Hin; by right|].
    rewrite length_insert in Hl, Hk. exists items'. split_and!; [done|done|]. intros k Hlt. rewrite (Hk k Hlt).
    destruct (decide (k = i)) as [->|Hne].
    + rewrite Hnone, lookup_insert_eq. cbn. rewrite E. by rewrite list_lookup_insert_eq.
    + rewrite (lookup_insert_ne _ i k), list_lookup_insert_ne by done. done.
  - destruct (IH items) as (items' & -> & Hl & Hk); [done|intros; eapply Hin; by right|].
    exists items'. split_and!; [done|done|]. intros k Hlt. rewrite (Hk k Hlt).
    destruct (decide (k = i)) as [->|Hne].
    + rewrite Hnone, lookup_insert_eq. cbn. by rewrite E.
    + by rewrite lookup_insert_ne.
Qed.

Lemma resetAppended_none id index app (items : list V) :
  Forall (λ it, lookupId it id = None) app → resetAppended id index app items = Ret items.
Proof. induction 1 as [|it app Hit _ IH]; cbn; [done|]. rewrite Hit. by case_bool_decide. Qed.

Lemma resetAppended_run id app (pre post : list V) :
  closed id app → length post = length (appendedView app id) →
  resetAppended id (length pre) app (pre ++ post) = Ret (pre ++ appendedView app id).
Proof.
  revert pre post. induction app as [|it app IH]; intros pre post; cbn; [by destruct post|]. intros [Hn Hc] Hl.
  destruct (lookupId it id) as [v|] eqn:E.
  - destruct post as [|y post]; [done|]. rewrite setIdx_ok by (rewrite length_app; cbn; lia). cbn [obind].
    replace (<[length pre := v]> (pre ++ y :: post)) with ((pre ++ [v]) ++ post).
    2: { rewrite insert_app_r_alt, Nat.sub_diag by lia. cbn. by rewrite <- app_assoc. }
    pose proof (IH (pre ++ [v]) post Hc ltac:(cbn in Hl; lia)) as Hr. rewrite length_app, Nat.add_1_r in Hr.
    by rewrite Hr, <- app_assoc.
  - destruct post; [|done]. case_bool_decide; [|done]. apply resetAppended_none, Hn. done.
Qed.

Lemma Reset_run s id order :
  slice_ok s → order ≡ₚ map_to_list (individualItems s) → Reset def s order id = Ret (Init (view s id)).
Proof.
  intros Hok Hord. pose proof (view_length s id Hok) as Hlen. unfold Reset. rewrite <- Hlen.
  assert (NoDup order.*1) as Hnd by (rewrite Hord; apply NoDup_fst_map_to_list).
  assert (∀ i ind, (i, ind) ∈ order ↔ individualItems s !! i = Some ind) as Hin.
  { intros i ind. rewrite Hord. apply elem_of_map_to_list. }
  assert (∀ k, (list_to_map order : gmap nat _) !! k = individualItems s !! k) as Hmap.
  { intros k. apply option_eq. intros ind. rewrite <- elem_of_list_to_map by done. apply Hin. }
  unfold view in *. rewrite length_app, length_imap in *.
  set (n := length (sharedItems s)) in *. set (app := appendedView (appendedItems s) id) in *.
  assert (copyInto def (n + length app) (sharedItems s) = sharedItems s ++ replicate (length app) def) as ->.
  { unfold copyInto. rewrite take_ge by (fold n; lia). do 2 f_equal. fold n. lia. }
  destruct (resetIndividual_run id order (sharedItems s ++ replicate (length app) def)) as (items & -> & Hl & Hk); [done| |].
  { intros i ind Hi%Hin. apply (so_ind s Hok) in Hi as [_ Hi]. rewrite length_app. lia. }
  rewrite length_app, length_replicate in Hl, Hk. fold n in Hl, Hk. cbn [obind].
  assert (items = imap (originalAt s id) (sharedItems s) ++ replicate (length app) def) as ->.
  { apply list_eq. intros k. destruct (decide (k < n + length app)%nat) as [Hlt|Hge].
    - rewrite (Hk k Hlt), Hmap. destruct (decide (k < n)%nat) as [Hkn|Hkn].
      + rewrite !lookup_app_l by (rewrite ?length_imap; done). rewrite list_lookup_imap.
        destruct (lookup_lt_is_Some_2 (sharedItems s) k Hkn) as [sh ->]. cbn. rewrite originalAt_bind.
        by destruct (individualItems s !! k ≫= _).
      + rewrite !lookup_app_r by (rewrite ?length_imap; fold n; lia). rewrite length_imap. fold n.
        destruct (individualItems s !! k) as [ind|] eqn:E; [|done].
        apply (so_ind s Hok) in E as [_ E]. fold n in E. lia.
    - rewrite !lookup_ge_None_2; [done|..]; rewrite ?length_app, ?length_imap, ?length_replicate; fold n; lia. }
  pose proof (resetAppended_run id (appendedItems s) (imap (originalAt s id) (sharedItems s))
                (replicate (length app) def) (so_closed s Hok id) (length_replicate _ _)) as Hr.
  rewrite length_imap in Hr. fold n in Hr. rewrite Hr. done.
Qed.
End spec.

(** ** The interface [MultiValueSlice] and its two implementations *)

(** The reading interface with what its clients rely on: every object has a
    contents list, and length, elements and the whole are read from it. *)
Class MultiValueSliceI (S V : Type) := {
  ifLen : S → Z → nat;
  ifAt : S → Z → nat → outcome V;
  ifValue : S → Z → outcome (list V);
  ifValid : S → Prop;
  ifContents : S → Z → list V;
  ifLen_spec : ∀ s id, ifValid s → ifLen s id = length (ifContents s id);
  ifAt_spec : ∀ s id i, ifValid s →
    ifAt s id i = match ifContents s id !! i with Some v => Ret v | None => Err errIndex end;
  ifValue_spec : ∀ s id, ifValid s → ifValue s id = Ret (ifContents s id)
}.

(** [EmptyMVSlice]: a plain slice, the same for every object. *)
Record EmptyMVSlice (V : Type) := mkEmpty { fullSlice : list V }.
Arguments mkEmpty {V} fullSlice.
Arguments fullSlice {V} e.

Definition EmptyLen {V} (e : EmptyMVSlice V) (_ : Z) : nat := length (fullSlice e).
Definition EmptyAt {V} (e : EmptyMVSlice V) (_ : Z) (index : nat) : outcome V :=
  match fullSlice e !! index with Some v => Ret v | None => Err errIndex end.
Definition EmptyValue {V} (e : EmptyMVSlice V) (_ : Z) : outcome (list V) := Ret (fullSlice e).
Definition BuildEmptyCompositeSlice {V} (values : list V) : EmptyMVSlice V := mkEmpty values.

#[export] Program Instance EmptyMVSlice_MVS {V} : MultiValueSliceI (EmptyMVSlice V) V := {|
  ifLen := EmptyLen; ifAt := EmptyAt; ifValue := EmptyValue;
  ifValid := λ _, True; ifContents := λ e _, fullSlice e
|}.
Solve All Obligations with done.

#[export] Program Instance Slice_MVS {V} `{!EqDecision V, !Inhabited V} : MultiValueSliceI (Slice V) V := {|
  ifLen := Len; ifAt := ItemAt; ifValue := ValueOf inhabitant;
  ifValid := slice_ok; ifContents := view
|}.
Next Obligation. intros V ? ? s id Hok. symmetry. by apply view_length. Qed.
Next Obligation. intros V ? ? s id i Hok. by apply ItemAt_run. Qed.
Next Obligation. intros V ? ? s id Hok. by apply ValueOf_run. Qed.

(** ** The abstract machine *)

Section machine.
Context {V : Type} `{!EqDecision V} (def : V).

Inductive op :=
| OpCopy (src dst : Z)
| OpUpdate (id : Z) (i : nat) (x : V)
| OpAppend (id : Z) (x : V)
| OpDetach (id : Z).

(** One operation of the code, with the error it returns. *)
Definition step (s : Slice V) (o : op) : outcome unit * Slice V :=
  match o with
  | OpCopy src dst => (Ret tt, Copy src dst s)
  | OpUpdate id i x =>
      match UpdateAt s id i x with
      | Ret s' => (Ret tt, s')
      | Err e => (Err e, s)
      | Panic p => (Panic p, s)
      | OutOfFuel => (OutOfFuel, s)
      end
  | OpAppend id x => (Ret tt, Append s id x)
  | OpDetach id => (Ret tt, Detach s id)
  end.

(** The objects that have contents of their own; the others see [sh]. *)
Definition contents (sh : list V) (A : gmap Z (list V)) (id : Z) : list V := default sh (A !! id).

(** The same operation on independent lists. *)
Definition astep (sh : list V) (A : gmap Z (list V)) (o : op) : outcome unit * gmap Z (list V) :=
  match o with
  | OpCopy src dst => (Ret tt, <[dst := contents sh A src]> A)
  | OpUpdate id i x =>
      if bool_decide (i < length (contents sh A id))%nat
      then (Ret tt, <[id := <[i := x]> (contents sh A id)]> A) else (Err errIndex, A)
  | OpAppend id x => (Ret tt, <[id := contents sh A id ++ [x]]> A)
  | OpDetach id => (Ret tt, delete id A)
  end.

(** A copy goes to an object that has no contents yet. *)
Definition allowed (A : gmap Z (list V)) (o : op) : bool :=
  match o with OpCopy _ dst => bool_decide (A !! dst = None) | _ => true end.

(** The simulation relation. *)
Definition represents (sh : list V) (s : Slice V) (A : gmap Z (list V)) : Prop :=
  slice_ok s ∧ sharedItems s = sh ∧
  ∀ id, match A !! id with Some l => view s id = l | None => detached s id end.

Lemma represents_contents sh s A id : represents sh s A → view s id = contents sh A id.
Proof.
  intros (_ & <- & Hr). specialize (Hr id). unfold contents. destruct (A !! id); [done|]. by apply view_detached.
Qed.

Lemma represents_changes sh s s' A id l :
  represents sh s A → changes s s' id l → represents sh s' (<[id := l]> A).
Proof.
  intros (Hok & Hsh & Hr) (C1 & C2 & C3 & C4). split_and!; [done|congruence|]. intros id'.
  destruct (decide (id' = id)) as [->|Hne]; [by rewrite lookup_insert_eq|]. rewrite lookup_insert_ne by done.
  specialize (Hr id'). destruct (C4 id' Hne) as [E1 E2]. destruct (A !! id'); [congruence|by apply E2].
Qed.

Lemma step_simulates sh s A o :
  represents sh s A → allowed A o = true →
  fst (step s o) = fst (astep sh A o) ∧ represents sh (snd (step s o)) (snd (astep sh A o)).
Proof.
  intros Hr Ha. pose proof Hr as (Hok & Hsh & Hv). destruct o as [src dst|id i x|id x|id]; cbn in *.
  - apply bool_decide_eq_true in Ha. split; [done|]. rewrite <- (represents_contents sh s A src Hr).
    eapply represents_changes; [done|]. apply Copy_spec; [done|]. specialize (Hv dst). by rewrite Ha in Hv.
  - rewrite <- (represents_contents sh s A id Hr). pose proof (UpdateAt_spec s id i x Hok) as Hu.
    case_bool_decide; [|by rewrite Hu]. destruct Hu as (s' & -> & Hc). split; [done|]. by eapply represents_changes.
  - rewrite <- (represents_contents sh s A id Hr). split; [done|]. eapply represents_changes; [done|]. by apply Append_spec.
  - split; [done|]. destruct (Detach_spec s id Hok) as [(C1 & C2 & _ & C4) Hd]. split_and!; [done|congruence|].
    intros id'. destruct (decide (id' = id)) as [->|Hne]; [by rewrite lookup_delete_eq|]. rewrite lookup_delete_ne by done.
    specialize (Hv id'). destruct (C4 id' Hne) as [E1 E2]. destruct (A !! id'); [congruence|by apply E2].
Qed.

Lemma Init_represents items : represents items (Init items) ∅.
Proof.
  split_and!; [|done|].
  - constructor; cbn; [intros i ind; by rewrite lookup_empty|constructor|done|done].
  - intros id. rewrite lookup_empty. split; [intros i ind; cbn; by rewrite lookup_empty|constructor].
Qed.

(** Sequences of operations. *)
Fixpoint run (s : Slice V) (ops : list op) : list (outcome unit) * Slice V :=
  match ops with
  | [] => ([], s)
  | o :: rest => let '(r, s') := step s o in let '(rs, s'') := run s' rest in (r :: rs, s'')
  end.

Fixpoint arun (sh : list V) (A : gmap Z (list V)) (ops : list op) : list (outcome unit) * gmap Z (list V) :=
  match ops with
  | [] => ([], A)
  | o :: rest => let '(r, A') := astep sh A o in let '(rs, A'') := arun sh A' rest in (r :: rs, A'')
  end.

Fixpoint allAllowed (sh : list V) (A : gmap Z (list V)) (ops : list op) : bool :=
  match ops with
  | [] => true
  | o :: rest => allowed A o && allAllowed sh (snd (astep sh A o)) rest
  end.

Lemma run_simulates sh s A ops :
  represents sh s A → allAllowed sh A ops = true →
  fst (run s ops) = fst (arun sh A ops) ∧ represents sh (snd (run s ops)) (snd (arun sh A ops)).
Proof.
  revert s A. induction ops as [|o ops IH]; intros s A Hr Ha; [done|]. cbn in *.
  apply andb_true_iff in Ha as [Ha1 Ha2]. destruct (step_simulates sh s A o Hr Ha1) as [H1 H2].
  destruct (step s o) as [r s'], (astep sh A o) as [r' A']. cbn in *. subst r'.
  destruct (IH s' A' H2 Ha2) as [H3 H4]. destruct (run s' ops), (arun sh A' ops). cbn in *. by subst.
Qed.
End machine.
Arguments op V : clear implicits.

(** ** Properties *)

(** C12. The multi-value slice refines independent slices: any sequence of
    copies (to objects without contents), updates, appends and detaches on a
    fresh slice returns the same errors as on a map from objects to lists, and
    afterwards every object reads exactly its own list, by [Len], by [At] at
    every index (out of range included) and by [Value]; no operation panics. *)
Theorem mvslice_refines_lists {V : Type} `{!EqDecision V} (def : V) items ops :
  allAllowed items ∅ ops = true →
  let s := snd (run (Init items) ops) in let A := snd (arun items ∅ ops) in
  fst (run (Init items) ops) = fst (arun items ∅ ops) ∧
  ∀ id, Len s id = length (contents items A id) ∧
    ValueOf def s id = Ret (contents items A id) ∧
    ∀ i, ItemAt s id i = match contents items A id !! i with Some v => Ret v | None => Err errIndex end.
Proof.
  intros Ha s A. destruct (run_simulates items (Init items) ∅ ops (Init_represents items) Ha) as [H1 Hr].
  split; [done|]. intros id. fold s A in Hr. rewrite <- (represents_contents items s A id Hr).
  pose proof (proj1 Hr) as Hok. split_and!; [by rewrite view_length|by apply ValueOf_run|]. intros i. by apply ItemAt_run.
Qed.

Lemma mvslice_refines_lists_witness :
  let ops := [OpUpdate 2 0 20; OpCopy 2 3; OpAppend 3 7; OpUpdate 3 0 30; OpUpdate 2 5 1; OpDetach 2] in
  let s := snd (run (Init [10; 11]) ops) in
  fst (run (Init [10; 11]) ops) = [Ret tt; Ret tt; Ret tt; Ret tt; Err errIndex; Ret tt] ∧
  ValueOf 0 s 3 = Ret [30; 11; 7] ∧ ValueOf 0 s 2 = Ret [10; 11].
Proof.
  intros ops s. destruct (mvslice_refines_lists 0 [10; 11] ops eq_refl) as [H1 H2].
  split; [rewrite H1; reflexivity|]. split; [destruct (H2 3) as (_ & H3 & _)|destruct (H2 2) as (_ & H3 & _)];
    unfold s; rewrite H3; vm_compute; reflexivity.
Defined.

(** [Reset] for an object, whatever order the map iteration takes, gives a
    slice in which every object sees what that object saw, with no individual
    and no appended items. *)
Theorem Reset_correct {V : Type} `{!EqDecision V} (def : V) s order id :
  slice_ok s → order ≡ₚ map_to_list (individualItems s) →
  ∃ s', Reset def s order id = Ret s' ∧ slice_ok s' ∧
    (∀ id', ValueOf def s' id' = ValueOf def s id) ∧
    TotalIndividualElemReferences (MultiValueStatisticsOf s') = 0 ∧
    TotalAppendedElemReferences (MultiValueStatisticsOf s') = 0.
Proof.
  intros Hok Hord. exists (Init (view s id)). split; [by apply Reset_run|].
  pose proof (Init_represents (view s id)) as Hr. split_and!; [apply Hr| |done|done].
  intros id'. rewrite !ValueOf_run by (done || apply Hr). f_equal.
  by rewrite (represents_contents _ _ _ id' Hr).
Qed.

Lemma Reset_correct_witness :
  let s := snd (run (Init [10; 11]) [OpUpdate 2 0 20; OpAppend 2 7; OpUpdate 3 1 5]) in
  ∃ s', Reset 0 s (map_to_list (individualItems s)) 2 = Ret s' ∧ slice_ok s' ∧
    (∀ id', ValueOf 0 s' id' = ValueOf 0 s 2) ∧
    TotalIndividualElemReferences (MultiValueStatisticsOf s') = 0 ∧
    TotalAppendedElemReferences (MultiValueStatisticsOf s') = 0.
Proof.
  intros s. apply (Reset_correct 0 s (map_to_list (individualItems s)) 2); [|done].
  apply (run_simulates [10; 11] (Init [10; 11]) ∅ _ (Init_represents [10; 11])). reflexivity.
Defined.
