(* ===== verification/SlasherChunks.v ===== *)
(** * Slasher: layout parameters

    Models [beacon-chain/slasher/params.go]: how the min and max spans of a
    validator are cut into chunks of [C] epochs, how the chunks of [K]
    validators are laid out in one flat slice and how a slice is keyed on disk.
    The theorem of the file says that the address of a span value (disk key and
    cell) determines the validator and the epoch within the history window. *)

From S2P Require Import Prelude MathHelper Primitives.

(** ** Definitions *)

Record Parameters := mkParameters {
  chunkSize : Z;
  validatorChunkSize : Z;
  historyLength : Z
}.

Definition DefaultParams : Parameters := mkParameters 16 256 4096.

Definition NewParams (chunkSize validatorChunkSize historyLength : Z) : Parameters :=
  mkParameters chunkSize validatorChunkSize historyLength.

Definition chunkIndex (p : Parameters) (epoch : Z) : outcome Z :=
  m <-? Epoch_Mod epoch (historyLength p) ;;
  Epoch_Div m (chunkSize p).

Definition validatorChunkIndex (p : Parameters) (validatorIndex : Z) : outcome Z :=
  ValidatorIndex_Div validatorIndex (validatorChunkSize p).

Definition firstEpoch (p : Parameters) (chunkIndex : Z) : Z := chunkIndex *w chunkSize p.

Definition lastEpoch (p : Parameters) (chunkIndex : Z) : outcome Z :=
  Epoch_Add (firstEpoch p chunkIndex) (chunkSize p -w 1).

Definition chunkOffset (p : Parameters) (epoch : Z) : outcome Z := Epoch_Mod epoch (chunkSize p).

Definition validatorOffset (p : Parameters) (validatorIndex : Z) : outcome Z :=
  ValidatorIndex_Mod validatorIndex (validatorChunkSize p).

Definition cellIndex (p : Parameters) (validatorIndex epoch : Z) : outcome Z :=
  validatorChunkOffset <-? validatorOffset p validatorIndex ;;
  chunkOffset <-? chunkOffset p epoch ;;
  Ret (validatorChunkOffset *w chunkSize p +w chunkOffset).

(** The eight bytes that [ssz.MarshalUint64] appends are kept as the number
    they encode. *)
Definition flatSliceID (p : Parameters) (validatorChunkIndex chunkIndex : Z) : outcome Z :=
  width <-? Epoch_Div (historyLength p) (chunkSize p) ;;
  w <-? Epoch_Mul width validatorChunkIndex ;;
  Epoch_Add w chunkIndex.

(** The loop from [low] while below [high]. *)
Definition ValidatorIndexesInChunk (p : Parameters) (validatorChunkIndex : Z) : list Z :=
  let low := validatorChunkIndex *w validatorChunkSize p in
  let high := (validatorChunkIndex +w 1) *w validatorChunkSize p in
  seqZ low (high - low).

(** ** Usable parameters

    Sizes are positive, a history is a whole number of chunks, at least two, and distances
    inside it fit the [uint16] of a cell. *)
Record params_ok (p : Parameters) : Prop := {
  C_pos : 0 < chunkSize p;
  K_pos : 0 < validatorChunkSize p;
  K_small : validatorChunkSize p < 4294967296;
  H_pos : 0 < historyLength p;
  H_small : historyLength p < 65536;
  H_chunks : historyLength p mod chunkSize p = 0;
  C_lt_H : chunkSize p < historyLength p
}.

Definition params_okb (p : Parameters) : bool :=
  (0 <? chunkSize p) && (0 <? validatorChunkSize p) && (validatorChunkSize p <? 4294967296)
  && (0 <? historyLength p) && (historyLength p <? 65536) && (historyLength p mod chunkSize p =? 0)
  && (chunkSize p <? historyLength p).

Lemma params_okb_ok p : params_okb p = true → params_ok p.
Proof. unfold params_okb. intros ?. bprop. by constructor. Qed.

Lemma DefaultParams_ok : params_ok DefaultParams.
Proof. by apply params_okb_ok. Qed.

Section layout.
Context (p : Parameters) (Hp : params_ok p).
Local Abbreviation C := (chunkSize p) (only parsing).
Local Abbreviation K := (validatorChunkSize p) (only parsing).
Local Abbreviation HL := (historyLength p) (only parsing).

Lemma C_le_H : C ≤ HL.
Proof using Hp. destruct Hp. lia. Qed.

(** The number of chunks of a span. *)
Lemma H_width : HL = HL / C * C.
Proof using Hp. destruct Hp. pose proof (Z.div_mod HL C ltac:(lia)). lia. Qed.

Lemma chunkIndex_eq e : chunkIndex p e = Ret (e mod HL / C).
Proof using Hp.
  destruct Hp. unfold chunkIndex, Epoch_Mod, Epoch_Div, Epoch_SafeMod, Epoch_SafeDiv, Mod64, Div64.
  rewrite (proj2 (Z.eqb_neq HL 0)) by lia. cbn. rewrite (proj2 (Z.eqb_neq C 0)) by lia. done.
Qed.

Lemma chunkIndex_div e : e mod HL / C = (e / C) mod (HL / C).
Proof using Hp.
  destruct Hp. pose proof H_width as Hw. assert (0 < HL / C) by nia.
  rewrite Hw at 1. rewrite Z.mul_comm, Z.rem_mul_r by lia.
  rewrite Z.add_comm, Z.mul_comm, Z.div_add_l by lia.
  rewrite (Z.div_small (e mod C)) by (apply Z.mod_pos_bound; lia). lia.
Qed.

(** Below the history length the modulus does nothing. *)
Lemma chunkIndex_low e : 0 ≤ e < HL → chunkIndex p e = Ret (e / C).
Proof using Hp. intros ?. by rewrite chunkIndex_eq, Z.mod_small. Qed.

Lemma chunkIndex_bound e : 0 ≤ e → 0 ≤ e mod HL / C < HL / C.
Proof using Hp.
  intros ?. destruct Hp. split; [apply Z.div_pos; [apply Z.mod_pos_bound|]; lia|].
  pose proof (Z.mod_pos_bound e HL ltac:(lia)). pose proof H_width.
  apply Z.div_lt_upper_bound; lia.
Qed.

Lemma validatorChunkIndex_eq v : validatorChunkIndex p v = Ret (v / K).
Proof using Hp.
  destruct Hp. unfold validatorChunkIndex, ValidatorIndex_Div.
  by rewrite (proj2 (Z.eqb_neq K 0)) by lia.
Qed.

Lemma cell_bound v e : 0 ≤ v mod K * C + e mod C < C * K.
Proof using Hp.
  destruct Hp. pose proof (Z.mod_pos_bound v K ltac:(lia)). pose proof (Z.mod_pos_bound e C ltac:(lia)). nia.
Qed.

Lemma CK_small : 0 < C * K < two63.
Proof using Hp. pose proof C_le_H. destruct Hp. unfold two63. nia. Qed.

Lemma cellIndex_eq v e : cellIndex p v e = Ret (v mod K * C + e mod C).
Proof using Hp.
  pose proof (cell_bound v e). pose proof CK_small. destruct Hp.
  pose proof (Z.mod_pos_bound v K ltac:(lia)). pose proof (Z.mod_pos_bound e C ltac:(lia)).
  unfold cellIndex, validatorOffset, chunkOffset, ValidatorIndex_Mod, Epoch_Mod, Epoch_SafeMod, Mod64.
  rewrite (proj2 (Z.eqb_neq K 0)), (proj2 (Z.eqb_neq C 0)) by lia. cbn.
  f_equal. unfold wrap64. rewrite (Z.mod_small (_ * _)) by (unfold two63, two64 in *; nia).
  apply Z.mod_small. unfold two63, two64 in *. nia.
Qed.

(** Two cells of the same slice are the same cell only for the same validator
    offset and the same epoch offset. *)
Lemma cell_inj v e v' e' :
  v mod K * C + e mod C = v' mod K * C + e' mod C → v mod K = v' mod K ∧ e mod C = e' mod C.
Proof using Hp.
  intros Heq. destruct Hp.
  pose proof (Z.mod_pos_bound e C ltac:(lia)). pose proof (Z.mod_pos_bound e' C ltac:(lia)).
  apply (Z.div_mod_unique C); lia.
Qed.

(** The chunk and the offset in it locate an epoch inside a history window. *)
Lemma epoch_in_window e e' :
  0 ≤ e → e ≤ e' < e + HL → e mod HL / C = e' mod HL / C → e mod C = e' mod C → e = e'.
Proof using Hp.
  intros ? Hw Hc Ho. destruct Hp as [? ? _ ? _ Hmod _].
  assert (∀ x, 0 ≤ x → x mod HL = x mod HL / C * C + x mod C) as Hdec.
  { intros x ?. pose proof (Z.div_mod (x mod HL) C ltac:(lia)) as Hd.
    enough ((x mod HL) mod C = x mod C) by lia.
    apply Z.mod_divide in Hmod; [|lia]. by apply Z.mod_mod_divide. }
  assert (e mod HL = e' mod HL) as Hm by (pose proof (Hdec e ltac:(lia)); pose proof (Hdec e' ltac:(lia)); congruence).
  pose proof (Z.div_mod e HL ltac:(lia)). pose proof (Z.div_mod e' HL ltac:(lia)). 
  assert (HL * (e' / HL - e / HL) = e' - e) by lia. assert (e' / HL - e / HL = 0) by nia. nia.
Qed.

Lemma width_bounds : 0 < HL / C < 65536.
Proof using Hp.
  pose proof C_le_H. destruct Hp. split; [apply Z.div_str_pos; lia|].
  apply Z.le_lt_trans with HL; [|lia]. apply Z.div_le_upper_bound; nia.
Qed.

Lemma flatSliceID_eq vc c :
  0 ≤ vc → 0 ≤ c → HL / C * vc + c < two64 → flatSliceID p vc c = Ret (HL / C * vc + c).
Proof using Hp.
  intros ? ? ?. pose proof width_bounds. destruct Hp.
  unfold flatSliceID, Epoch_Div, Epoch_Mul, Epoch_Add, Epoch_SafeDiv, Epoch_SafeMul, Epoch_SafeAdd.
  unfold Div64, Mul64, Add64, bitsMul64, bitsAdd64.
  rewrite (proj2 (Z.eqb_neq C 0)) by lia. cbn.
  rewrite (Z.div_small (HL / C * vc)) by nia. cbn. rewrite (wrap64_small (HL / C * vc)) by (unfold is_u64; nia).
  rewrite Z.div_small by nia. cbn. rewrite wrap64_small by (unfold is_u64; nia). done.
Qed.

(** Validators of a chunk, while the index arithmetic does not overflow. *)
Lemma ValidatorIndexesInChunk_spec vc v :
  0 ≤ vc → (vc + 1) * K < two64 → v ∈ ValidatorIndexesInChunk p vc ↔ 0 ≤ v ∧ v / K = vc.
Proof using Hp.
  intros ? ?. destruct Hp. unfold ValidatorIndexesInChunk.
  rewrite !wrap64_small by (unfold is_u64, two64 in *; nia).
  rewrite wrap64_small by (unfold is_u64, two64 in *; rewrite wrap64_small by (unfold is_u64, two64 in *; nia); nia).
  rewrite wrap64_small by (unfold is_u64, two64 in *; nia).
  rewrite elem_of_seqZ. split.
  - intros [? ?]. split; [nia|]. symmetry. apply Z.div_unique_pos with (v - vc * K); lia.
  - intros [? <-]. pose proof (Z.div_mod v K ltac:(lia)). pose proof (Z.mod_pos_bound v K ltac:(lia)). nia.
Qed.
End layout.

(** ** Theorem *)

(** The slasher never mixes up two span values: for usable parameters the
    disk key and the cell of a validator's epoch always exist, the cell lies
    inside a slice of [C*K] cells, and two validators at two epochs of one
    history window that get the same key and cell are the same validator at the
    same epoch. *)
Theorem span_address_injective p v v' e e' key key' cell cell' :
  params_ok p →
  0 ≤ v < 2 ^ 40 → 0 ≤ v' < 2 ^ 40 → 0 ≤ e → e ≤ e' < e + historyLength p →
  let address v e :=
    vc <-? validatorChunkIndex p v ;; c <-? chunkIndex p e ;;
    k <-? flatSliceID p vc c ;; i <-? cellIndex p v e ;; Ret (k, i) in
  (∃ k i, address v e = Ret (k, i) ∧ 0 ≤ i < chunkSize p * validatorChunkSize p) ∧
  (address v e = Ret (key, cell) → address v' e' = Ret (key', cell') →
   key = key' → cell = cell' → v = v' ∧ e = e').
Proof.
  intros Hp Hv Hv' He He' address.
  assert (∀ v e, 0 ≤ v < 2 ^ 40 → 0 ≤ e → address v e =
    Ret (historyLength p / chunkSize p * (v / validatorChunkSize p) + e mod historyLength p / chunkSize p,
         v mod validatorChunkSize p * chunkSize p + e mod chunkSize p)) as Haddr.
  { intros u x Hu Hx. unfold address. rewrite validatorChunkIndex_eq by done. cbn.
    rewrite chunkIndex_eq by done. cbn. pose proof (chunkIndex_bound p Hp x Hx). pose proof (width_bounds p Hp).
    pose proof (K_pos p Hp). assert (0 ≤ u / validatorChunkSize p ≤ u).
    { split; [apply Z.div_pos; lia|]. apply Z.div_le_upper_bound; nia. }
    rewrite flatSliceID_eq; [|done|lia..|unfold two64; nia]. cbn. by rewrite cellIndex_eq. }
  split; [eexists _, _; split; [by apply Haddr|by apply cell_bound]|].
  rewrite !Haddr by lia. intros [= <- <-] [= <- <-] Hk Hc.
  pose proof (chunkIndex_bound p Hp e He). pose proof (chunkIndex_bound p Hp e' ltac:(lia)).
  apply cell_inj in Hc as [Hvm Hem]; [|done]. pose proof (K_pos p Hp).
  assert (v / validatorChunkSize p = v' / validatorChunkSize p) as Hvd by nia.
  split; [|apply (epoch_in_window p Hp); [lia..| |done]; nia].
  pose proof (Z.div_mod v (validatorChunkSize p) ltac:(lia)).
  pose proof (Z.div_mod v' (validatorChunkSize p) ltac:(lia)). congruence.
Qed.

Lemma span_address_injective_witness :
  let address v e :=
    vc <-? validatorChunkIndex DefaultParams v ;; c <-? chunkIndex DefaultParams e ;;
    k <-? flatSliceID DefaultParams vc c ;; i <-? cellIndex DefaultParams v e ;; Ret (k, i) in
  address 300 5000 = Ret (312, 712) ∧
  (∃ k i, address 300 5000 = Ret (k, i) ∧ 0 ≤ i < 16 * 256).
Proof.
  split; [by vm_compute|].
  apply (span_address_injective DefaultParams 300 300 5000 5000 312 312 712 712 DefaultParams_ok); cbn; lia.
Defined.

(** * Slasher: min and max span chunks

    Models [beacon-chain/slasher/chunks.go], the data of
    [beacon-chain/slasher/types/types.go] and [unifyAttWrapperVersion] of
    [helpers.go].  A chunk is the flat slice of [uint16] distances of [K]
    validators over [C] epochs.  The [Chunker] interface of the source is a type
    class whose instances are the two slices; a slice that the source mutates in
    place is returned by the operation that mutates it.  The incoming attestation
    wrapper is mutated by [unifyAttWrapperVersion] too and is returned by
    [CheckSlashable].  Metrics and logging are left out. *)

(** ** Attestations *)

Record CheckpointPb := mkCheckpointPb { CheckpointEpoch : Z; CheckpointRoot : Z }.

Record AttestationData := mkAttestationData {
  DataSlot : Z;
  CommitteeIndex : Z;
  BeaconBlockRoot : Z;
  Source : CheckpointPb;
  Target : CheckpointPb
}.

(** The two implementations of [ethpb.IndexedAtt]. *)
Inductive IndexedAtt :=
| IndexedAttestation (AttestingIndices : list Z) (Data : AttestationData) (Signature : Z)
| IndexedAttestationElectra (AttestingIndices : list Z) (Data : AttestationData) (Signature : Z).

Definition GetAttestingIndices (a : IndexedAtt) : list Z :=
  match a with IndexedAttestation i _ _ | IndexedAttestationElectra i _ _ => i end.
Definition GetData (a : IndexedAtt) : AttestationData :=
  match a with IndexedAttestation _ d _ | IndexedAttestationElectra _ d _ => d end.
Definition GetSignature (a : IndexedAtt) : Z :=
  match a with IndexedAttestation _ _ s | IndexedAttestationElectra _ _ s => s end.
Definition Version (a : IndexedAtt) : Z :=
  match a with
  | IndexedAttestation _ _ _ => versionNumber Phase0
  | IndexedAttestationElectra _ _ _ => versionNumber Electra
  end.

Record IndexedAttestationWrapper := mkWrapper { Wrapped : IndexedAtt; DataRoot : Z }.

Definition sourceEpoch (w : IndexedAttestationWrapper) : Z := CheckpointEpoch (Source (GetData (Wrapped w))).
Definition targetEpoch (w : IndexedAttestationWrapper) : Z := CheckpointEpoch (Target (GetData (Wrapped w))).

(** The two implementations of [ethpb.AttSlashing]. *)
Inductive AttSlashing :=
| AttesterSlashing (Attestation_1 Attestation_2 : IndexedAtt)
| AttesterSlashingElectra (Attestation_1 Attestation_2 : IndexedAtt).

Definition FirstAttestation (s : AttSlashing) : IndexedAtt :=
  match s with AttesterSlashing a _ | AttesterSlashingElectra a _ => a end.
Definition SecondAttestation (s : AttSlashing) : IndexedAtt :=
  match s with AttesterSlashing _ a | AttesterSlashingElectra _ a => a end.

Definition toElectra (w : IndexedAttestationWrapper) : IndexedAttestationWrapper :=
  mkWrapper (IndexedAttestationElectra (GetAttestingIndices (Wrapped w)) (GetData (Wrapped w))
               (GetSignature (Wrapped w))) (DataRoot w).

Definition unifyAttWrapperVersion (w1 w2 : IndexedAttestationWrapper)
    : IndexedAttestationWrapper * IndexedAttestationWrapper :=
  if Version (Wrapped w1) =? Version (Wrapped w2) then (w1, w2)
  else if negb (Version (Wrapped w1) =? versionNumber Electra) then (toElectra w1, w2)
  else (w1, toElectra w2).

Definition errWrongType (which : string) : error := (which +:+ " attestation has wrong type")%string.

(** The type assertion [att.( *ethpb.IndexedAttestationElectra)], as a test. *)
Definition isElectra (a : IndexedAtt) : bool :=
  match a with IndexedAttestationElectra _ _ _ => true | _ => false end.

(** From two wrappers of one version to the slashing, lower data root first;
    [bytes.Compare] on the 32-byte roots is the order of the numbers. *)
Definition slashingOf (n1 n2 : string) (w1 w2 : IndexedAttestationWrapper) : outcome AttSlashing :=
  let postElectra := versionNumber Electra <=? Version (Wrapped w1) in
  if postElectra then
    if negb (isElectra (Wrapped w1)) then Err (errWrongType n1)
    else if negb (isElectra (Wrapped w2)) then Err (errWrongType n2)
    else if DataRoot w2 <? DataRoot w1
    then Ret (AttesterSlashingElectra (Wrapped w2) (Wrapped w1))
    else Ret (AttesterSlashingElectra (Wrapped w1) (Wrapped w2))
  else
    if isElectra (Wrapped w1) then Err (errWrongType n1)
    else if isElectra (Wrapped w2) then Err (errWrongType n2)
    else if DataRoot w2 <? DataRoot w1
    then Ret (AttesterSlashing (Wrapped w2) (Wrapped w1))
    else Ret (AttesterSlashing (Wrapped w1) (Wrapped w2)).

(** ** Cells of a chunk *)

Definition wrap16 (z : Z) : Z := z mod 65536.

Definition errWrongLength : error := "chunk has wrong length".
Definition errCellBounds : error := "cell index out of bounds".
Definition errBaseEpoch : error := "base epoch cannot be less than epoch".

Definition chunkDataAtEpoch (params : Parameters) (chunk : list Z) (validatorIdx epoch : Z) : outcome Z :=
  let requiredLen := chunkSize params *w validatorChunkSize params in
  if negb (Z.of_nat (length chunk) =? requiredLen) then Err errWrongLength else
  cellIdx <-? cellIndex params validatorIdx epoch ;;
  if Z.of_nat (length chunk) <=? cellIdx then Err errCellBounds else
  match chunk !! Z.to_nat cellIdx with
  | Some distance => Epoch_Add epoch distance
  | None => Panic "index out of range"
  end.

Definition setChunkRawDistance (params : Parameters) (chunk : list Z) (validatorIdx epochInChunk distance : Z)
    : outcome (list Z) :=
  cellIdx <-? cellIndex params validatorIdx epochInChunk ;;
  if Z.of_nat (length chunk) <=? cellIdx then Err errCellBounds else
  Ret (<[Z.to_nat cellIdx := distance]> chunk).

Definition epochDistance (epoch baseEpoch : Z) : outcome Z :=
  if epoch <? baseEpoch then Err errBaseEpoch else
  d <-? Epoch_Sub epoch baseEpoch ;; Ret (wrap16 d).

Definition setChunkDataAtEpoch (params : Parameters) (chunk : list Z) (validatorIdx epochInChunk targetEpoch : Z)
    : outcome (list Z) :=
  distance <-? epochDistance targetEpoch epochInChunk ;;
  setChunkRawDistance params chunk validatorIdx epochInChunk distance.

(** ** Min span chunks *)

Record MinSpanChunksSlice := mkMinSpan { minParams : Parameters; minData : list Z }.

Definition minNeutralElement : Z := 65535.

(** The [make] and the loop that stores the neutral element in each cell. *)
Definition EmptyMinSpanChunksSlice (params : Parameters) : MinSpanChunksSlice :=
  mkMinSpan params (replicate (Z.to_nat (chunkSize params *w validatorChunkSize params)) minNeutralElement).

Definition MinChunkSpansSliceFrom (params : Parameters) (chunk : list Z) : outcome MinSpanChunksSlice :=
  let requiredLen := chunkSize params *w validatorChunkSize params in
  if negb (Z.of_nat (length chunk) =? requiredLen) then Err errWrongLength
  else Ret (mkMinSpan params chunk).

(** [slasherDB.AttestationRecordForValidator]: the stored attestation of a
    validator with a target epoch. *)
Definition recordLookup : Type := Z → Z → outcome (option IndexedAttestationWrapper).

Definition minCheckSlashable (m : MinSpanChunksSlice) (slasherDB : recordLookup) (validatorIdx : Z)
    (incoming : IndexedAttestationWrapper) : outcome (option AttSlashing * IndexedAttestationWrapper) :=
  let source := sourceEpoch incoming in
  let target := targetEpoch incoming in
  minTarget <-? omap_err (λ e, wrapErr e "could not get min target")
                  (chunkDataAtEpoch (minParams m) (minData m) validatorIdx source) ;;
  if target <=? minTarget then Ret (None, incoming) else
  existing <-? omap_err (λ e, wrapErr e "could not get existing attestation record")
                 (slasherDB validatorIdx minTarget) ;;
  match existing with
  | None => Ret (None, incoming)
  | Some existing =>
      if sourceEpoch existing <=? source then Ret (None, incoming) else
      let '(existing, incoming) := unifyAttWrapperVersion existing incoming in
      slashing <-? slashingOf "existing" "incoming" existing incoming ;;
      Ret (Some slashing, incoming)
  end.

(** The loop of [Update]: it leaves either by the [return] in its body or when
    its condition fails.  An iteration lowers the epoch except at epoch 0. *)
Fixpoint minUpdateLoop (params : Parameters) (chunkIdx minEpoch validatorIndex newTargetEpoch : Z)
    (fuel : nat) (epochInChunk : Z) (data : list Z) : outcome (bool * list Z) :=
  match fuel with
  | O => OutOfFuel
  | S fuel' =>
      ci <-? chunkIndex params epochInChunk ;;
      if (ci =? chunkIdx) && (minEpoch <=? epochInChunk) then
        chunkTarget <-? omap_err (λ e, wrapErr e "could not get chunk data at epoch")
                          (chunkDataAtEpoch params data validatorIndex epochInChunk) ;;
        if newTargetEpoch <? chunkTarget then
          data <-? omap_err (λ e, wrapErr e "could not set chunk data at epoch")
                     (setChunkDataAtEpoch params data validatorIndex epochInChunk newTargetEpoch) ;;
          minUpdateLoop params chunkIdx minEpoch validatorIndex newTargetEpoch fuel'
            (if 0 <? epochInChunk then epochInChunk -w 1 else epochInChunk) data
        else Ret (false, data)
      else Ret (minEpoch <=? epochInChunk, data)
  end.

Definition minEpochOf (params : Parameters) (currentEpoch : Z) : Z :=
  if (historyLength params -w 1) <? currentEpoch
  then currentEpoch -w (historyLength params -w 1) else 0.

(** The fuel is one iteration for each epoch down to the lowest, one more for
    epoch 0 and one for the failing condition. *)
Definition minUpdate (m : MinSpanChunksSlice) (chunkIndex currentEpoch validatorIndex startEpoch newTargetEpoch : Z)
    : outcome (bool * MinSpanChunksSlice) :=
  let minEpoch := minEpochOf (minParams m) currentEpoch in
  r <-? minUpdateLoop (minParams m) chunkIndex minEpoch validatorIndex newTargetEpoch
          (S (S (Z.to_nat (startEpoch - minEpoch + 1)))) startEpoch (minData m) ;;
  Ret (r.1, mkMinSpan (minParams m) r.2).

Definition minStartEpoch (m : MinSpanChunksSlice) (sourceEpoch currentEpoch : Z) : outcome (option Z) :=
  if sourceEpoch =? 0 then Ret None else
  let difference :=
    if historyLength (minParams m) <? currentEpoch then currentEpoch -w historyLength (minParams m) else 0 in
  if sourceEpoch <=? difference then Ret None else
  e <-? Epoch_Sub sourceEpoch 1 ;; Ret (Some e).

Definition minNextChunkStartEpoch (m : MinSpanChunksSlice) (startEpoch : Z) : outcome Z :=
  prevChunkIdx <-? chunkIndex (minParams m) startEpoch ;;
  lastEpoch (minParams m) (if 0 <? prevChunkIdx then prevChunkIdx -w 1 else prevChunkIdx).

(** ** Max span chunks *)

Record MaxSpanChunksSlice := mkMaxSpan { maxParams : Parameters; maxData : list Z }.

Definition maxNeutralElement : Z := 0.

Definition EmptyMaxSpanChunksSlice (params : Parameters) : MaxSpanChunksSlice :=
  mkMaxSpan params (replicate (Z.to_nat (chunkSize params *w validatorChunkSize params)) maxNeutralElement).

Definition MaxChunkSpansSliceFrom (params : Parameters) (chunk : list Z) : outcome MaxSpanChunksSlice :=
  let requiredLen := chunkSize params *w validatorChunkSize params in
  if negb (Z.of_nat (length chunk) =? requiredLen) then Err errWrongLength
  else Ret (mkMaxSpan params chunk).

Definition maxCheckSlashable (m : MaxSpanChunksSlice) (slasherDB : recordLookup) (validatorIdx : Z)
    (incoming : IndexedAttestationWrapper) : outcome (option AttSlashing * IndexedAttestationWrapper) :=
  let source := sourceEpoch incoming in
  let target := targetEpoch incoming in
  maxTarget <-? omap_err (λ e, wrapErr e "could not get max target")
                  (chunkDataAtEpoch (maxParams m) (maxData m) validatorIdx source) ;;
  if maxTarget <=? target then Ret (None, incoming) else
  existing <-? omap_err (λ e, wrapErr e "could not get existing attestation record")
                 (slasherDB validatorIdx maxTarget) ;;
  match existing with
  | None => Ret (None, incoming)
  | Some existing =>
      if source <=? sourceEpoch existing then Ret (None, incoming) else
      let '(existing, incoming) := unifyAttWrapperVersion existing incoming in
      slashing <-? slashingOf "existing" "incoming" existing incoming ;;
      Ret (Some slashing, incoming)
  end.

Fixpoint maxUpdateLoop (params : Parameters) (chunkIdx currentEpoch validatorIndex newTargetEpoch : Z)
    (fuel : nat) (epochInChunk : Z) (data : list Z) : outcome (bool * list Z) :=
  match fuel with
  | O => OutOfFuel
  | S fuel' =>
      ci <-? chunkIndex params epochInChunk ;;
      if (ci =? chunkIdx) && (epochInChunk <=? currentEpoch) then
        chunkTarget <-? omap_err (λ e, wrapErr e "could not get chunk data at epoch")
                          (chunkDataAtEpoch params data validatorIndex epochInChunk) ;;
        if chunkTarget <? newTargetEpoch then
          data <-? omap_err (λ e, wrapErr e "could not set chunk data at epoch")
                     (setChunkDataAtEpoch params data validatorIndex epochInChunk newTargetEpoch) ;;
          maxUpdateLoop params chunkIdx currentEpoch validatorIndex newTargetEpoch fuel' (epochInChunk +w 1) data
        else Ret (false, data)
      else Ret (epochInChunk <=? currentEpoch, data)
  end.

(** The fuel is one iteration for each epoch up to the current one and one for
    the failing condition. *)
Definition maxUpdate (m : MaxSpanChunksSlice) (chunkIndex currentEpoch validatorIndex startEpoch newTargetEpoch : Z)
    : outcome (bool * MaxSpanChunksSlice) :=
  r <-? maxUpdateLoop (maxParams m) chunkIndex currentEpoch validatorIndex newTargetEpoch
          (S (Z.to_nat (currentEpoch - startEpoch + 1))) startEpoch (maxData m) ;;
  Ret (r.1, mkMaxSpan (maxParams m) r.2).

Definition maxStartEpoch (m : MaxSpanChunksSlice) (sourceEpoch currentEpoch : Z) : outcome (option Z) :=
  if currentEpoch <=? sourceEpoch then Ret None else
  e <-? Epoch_Add sourceEpoch 1 ;; Ret (Some e).

Definition maxNextChunkStartEpoch (m : MaxSpanChunksSlice) (startEpoch : Z) : outcome Z :=
  ci <-? chunkIndex (maxParams m) startEpoch ;;
  Ret (firstEpoch (maxParams m) (ci +w 1)).

(** ** The [Chunker] interface *)

Inductive ChunkKind := MinSpan | MaxSpan.
#[global] Instance ChunkKind_eq_dec : EqDecision ChunkKind.
Proof. solve_decision. Defined.

(** The methods of [Chunker], the constructors by which [loadChunksFromDisk]
    chooses the implementation, and [withChunk], the write through the slice that
    [Chunk] returns. *)
Class Chunker (T : Type) := {
  kindOf : ChunkKind;
  Empty : Parameters → T;
  From : Parameters → list Z → outcome T;
  NeutralElement : Z;
  Chunk : T → list Z;
  withChunk : T → list Z → T;
  CheckSlashable : T → recordLookup → Z → IndexedAttestationWrapper →
                   outcome (option AttSlashing * IndexedAttestationWrapper);
  Update : T → Z → Z → Z → Z → Z → outcome (bool * T);
  StartEpoch : T → Z → Z → outcome (option Z);
  NextChunkStartEpoch : T → Z → outcome Z
}.

#[global] Instance MinSpanChunker : Chunker MinSpanChunksSlice := {|
  kindOf := MinSpan;
  Empty := EmptyMinSpanChunksSlice;
  From := MinChunkSpansSliceFrom;
  NeutralElement := minNeutralElement;
  Chunk := minData;
  withChunk m d := mkMinSpan (minParams m) d;
  CheckSlashable := minCheckSlashable;
  Update := minUpdate;
  StartEpoch := minStartEpoch;
  NextChunkStartEpoch := minNextChunkStartEpoch
|}.

#[global] Instance MaxSpanChunker : Chunker MaxSpanChunksSlice := {|
  kindOf := MaxSpan;
  Empty := EmptyMaxSpanChunksSlice;
  From := MaxChunkSpansSliceFrom;
  NeutralElement := maxNeutralElement;
  Chunk := maxData;
  withChunk m d := mkMaxSpan (maxParams m) d;
  CheckSlashable := maxCheckSlashable;
  Update := maxUpdate;
  StartEpoch := maxStartEpoch;
  NextChunkStartEpoch := maxNextChunkStartEpoch
|}.
