(* ===== verification/SlasherDetect.v ===== *)
(** * Slasher: the database

    Models the part of [beacon-chain/db/slasherkv/slasher.go] that attestation
    slashing detection uses.  [SlasherDatabase] is the interface the detection
    code is written against; [Store] is the slasherkv implementation, with each
    bolt bucket a finite map from decoded keys to decoded values: batching does
    not change what a bucket holds, and the records and chunks are taken to
    survive their SSZ and snappy encodings (libraries outside the repository).
    The target epoch of a key has 8 bytes and the validator index 5. *)

From S2P Require Import Prelude MathHelper Primitives SlasherChunks.

(** A double vote found on disk: the stored attestation and the incoming one,
    which is the caller's wrapper. *)
Record AttesterDoubleVote := mkDoubleVote {
  DVTarget : Z;
  DVValidatorIndex : Z;
  Wrapper_1 : IndexedAttestationWrapper;
  Wrapper_2 : nat
}.

Class SlasherDatabase (D : Type) := {
  AttestationRecordForValidator : D → recordLookup;
  SaveAttestationRecordsForValidators : D → list IndexedAttestationWrapper → outcome D;
  CheckAttesterDoubleVotes : D → list (nat * IndexedAttestationWrapper) → outcome (list AttesterDoubleVote);
  LoadSlasherChunks : D → ChunkKind → list Z → outcome (list (list Z) * list bool);
  SaveSlasherChunks : D → ChunkKind → list Z → list (list Z) → outcome D
}.

(** ** slasherkv *)

Record SlasherStore := mkSlasherStore {
  attestationDataRootsBucket : gmap (Z * Z) Z;
  attestationRecordsBucket : gmap Z IndexedAttestationWrapper;
  slasherChunksBucket : gmap (bool * Z) (list Z)
}.

Definition emptySlasherStore : SlasherStore := mkSlasherStore ∅ ∅ ∅.

(** The low 5 bytes of the index. *)
Definition encodeValidatorIndex (index : Z) : Z := index mod 1099511627776.
Definition encodeTargetEpoch (epoch : Z) : Z := epoch.
Definition encodeKind (kind : ChunkKind) : bool := match kind with MinSpan => false | MaxSpan => true end.

Definition kvAttestationRecordForValidator (s : SlasherStore) : recordLookup := λ validatorIdx targetEpoch,
  let key := (encodeTargetEpoch targetEpoch, encodeValidatorIndex validatorIdx) in
  match attestationDataRootsBucket s !! key with
  | None => Ret None
  | Some attRecordKey => Ret (attestationRecordsBucket s !! attRecordKey)
  end.

(** One wrapper: its record under its data root, then the data root under each
    validator's key. *)
Definition saveRecord (s : SlasherStore) (w : IndexedAttestationWrapper) : SlasherStore :=
  mkSlasherStore
    (foldl (λ m validatorIndex,
       <[(encodeTargetEpoch (targetEpoch w), encodeValidatorIndex validatorIndex) := DataRoot w]> m)
       (attestationDataRootsBucket s) (GetAttestingIndices (Wrapped w)))
    (<[DataRoot w := w]> (attestationRecordsBucket s))
    (slasherChunksBucket s).

(** From the last wrapper to the first. *)
Definition kvSaveAttestationRecordsForValidators (s : SlasherStore) (ws : list IndexedAttestationWrapper)
    : outcome SlasherStore := Ret (foldr (λ w s, saveRecord s w) s ws).

Definition kvDoubleVotesOf (s : SlasherStore) (att : nat * IndexedAttestationWrapper) : list AttesterDoubleVote :=
  flat_map (λ valIdx,
    match attestationDataRootsBucket s !! (encodeTargetEpoch (targetEpoch att.2), encodeValidatorIndex valIdx) with
    | None => []
    | Some existingDataRoot =>
        match attestationRecordsBucket s !! existingDataRoot with
        | None => []
        | Some existing =>
            if existingDataRoot =? DataRoot att.2 then []
            else [mkDoubleVote (targetEpoch att.2) valIdx existing att.1]
        end
    end) (GetAttestingIndices (Wrapped att.2)).

(** The goroutines append their results in any order; here in list order. *)
Definition kvCheckAttesterDoubleVotes (s : SlasherStore) (atts : list (nat * IndexedAttestationWrapper))
    : outcome (list AttesterDoubleVote) := Ret (flat_map (kvDoubleVotesOf s) atts).

Definition kvLoadSlasherChunks (s : SlasherStore) (kind : ChunkKind) (chunkKeys : list Z)
    : outcome (list (list Z) * list bool) :=
  let found := map (λ key, slasherChunksBucket s !! (encodeKind kind, key)) chunkKeys in
  Ret (map (default []) found, map (λ o, bool_decide (is_Some o)) found).

Definition errSaveChunks : error := "cannot save slasher chunks".
Definition errEmptyChunk : error := "failed to encode slasher chunk for key: cannot encode empty chunk".

Definition kvSaveSlasherChunks (s : SlasherStore) (kind : ChunkKind) (chunkKeys : list Z) (chunks : list (list Z))
    : outcome SlasherStore :=
  if negb (length chunkKeys =? length chunks)%nat then Err errSaveChunks
  else if existsb (λ c, length c =? 0)%nat chunks then Err errEmptyChunk
  else Ret (mkSlasherStore (attestationDataRootsBucket s) (attestationRecordsBucket s)
         (foldl (λ m kc, <[(encodeKind kind, kc.1) := kc.2]> m) (slasherChunksBucket s) (zip chunkKeys chunks))).

#[global] Instance SlasherStore_db : SlasherDatabase SlasherStore := {|
  AttestationRecordForValidator := kvAttestationRecordForValidator;
  SaveAttestationRecordsForValidators := kvSaveAttestationRecordsForValidators;
  CheckAttesterDoubleVotes := kvCheckAttesterDoubleVotes;
  LoadSlasherChunks := kvLoadSlasherChunks;
  SaveSlasherChunks := kvSaveSlasherChunks
|}.

(** * Slasher: detection of slashable attestations

    Models [beacon-chain/slasher/detect_attestations.go] and the grouping
    functions of [helpers.go].  Attestation wrappers are shared pointers that
    detection mutates (their version is raised), so they live in a heap and the
    lists of the source are lists of [nat] pointers.  A Go map is iterated in no
    particular order: [rangeMap] is the order of the run.  A chunk map is local to
    a call and is returned by the operations that change it; the chunks themselves
    are behind the [Chunker] class and the database behind [SlasherDatabase].
    [HashTreeRoot] of a slashing is generated code, here the parameter [rootOf].
    The loop over chunks of [applyAttestationForValidator] has no bound in the
    source; [fuel] bounds it here.  Metrics, tracing and logs are left out. *)

Abbreviation wptr := nat (only parsing).
Abbreviation Heap := (gmap nat IndexedAttestationWrapper).

Definition deref (h : Heap) (w : wptr) : outcome IndexedAttestationWrapper :=
  match h !! w with
  | Some x => Ret x
  | None => Panic "invalid memory address or nil pointer dereference"
  end.

(** A [for] loop with early return: the first outcome that is not a value ends it. *)
Fixpoint forEach {A S} (f : S → A → outcome S) (s : S) (l : list A) : outcome S :=
  match l with
  | [] => Ret s
  | x :: l' => s' <-? f s x ;; forEach f s' l'
  end.

Section service.
Context (p : Parameters).

(** ** Grouping *)

(** [append(m[k], x)] *)
Definition appendAt {A} (m : gmap Z (list A)) (k : Z) (x : A) : gmap Z (list A) :=
  <[k := default [] (m !! k) ++ [x]]> m.

Definition groupByValidatorChunkIndex (h : Heap) (attestations : list wptr) : outcome (gmap Z (list wptr)) :=
  forEach (λ grouped attestation,
    att <-? deref h attestation ;;
    idxs <-? forEach (λ s v, c <-? validatorChunkIndex p v ;; Ret ({[c]} ∪ s))
               (∅ : gset Z) (GetAttestingIndices (Wrapped att)) ;;
    Ret (foldl (λ m c, appendAt m c attestation) grouped (elements idxs)))
    ∅ attestations.

Definition groupByChunkIndex (h : Heap) (attestations : list wptr) : outcome (gmap Z (list wptr)) :=
  forEach (λ grouped attestation,
    att <-? deref h attestation ;;
    c <-? chunkIndex p (sourceEpoch att) ;;
    Ret (appendAt grouped c attestation))
    ∅ attestations.

(** ** The epochs to update *)

Definition firstEpochToUpdate (latestEpochUpdatedForValidator : gmap Z Z) (validatorIndex currentEpoch : Z)
    : outcome (option Z) :=
  let latestEpochUpdated := default 0 (latestEpochUpdatedForValidator !! validatorIndex) in
  epochToUpdate <-? omap_err (λ e, wrapErr e "could not add 1 to latest updated epoch")
                      (Epoch_SafeAdd latestEpochUpdated 1) ;;
  let epochToUpdate :=
    if latestEpochUpdatedForValidator !! validatorIndex is Some _ then epochToUpdate else 0 in
  if latestEpochUpdated =? currentEpoch then Ret None
  else if currentEpoch <? latestEpochUpdated
  then Err "epoch to write should not be greater than the current epoch"
  else Ret (Some (if historyLength p <=? (currentEpoch -w epochToUpdate)
                  then currentEpoch +w 1 -w historyLength p else epochToUpdate)).

(** The chunk indexes of the epochs from [first] to [currentEpoch]. *)
Definition addNeeded (first currentEpoch : Z) (needed : gset Z) : outcome (gset Z) :=
  forEach (λ s i, c <-? chunkIndex p i ;; Ret ({[c]} ∪ s)) needed (seqZ first (currentEpoch - first + 1)).

Definition findNeededChunkIndexes (latest : gmap Z Z) (validatorIndexes : list Z) (currentEpoch : Z)
    (minFirstEpochToUpdate : option Z) : outcome (gset Z) :=
  r <-? forEach (λ '(needed, minFirst) validatorIndex,
    first <-? omap_err (λ e, wrapErr e "could not get first epoch to write")
                (firstEpochToUpdate latest validatorIndex currentEpoch) ;;
    match first with
    | None => Ret (needed, minFirst)
    | Some first =>
        if (match minFirst with Some m => m <=? first | None => false end) then Ret (needed, minFirst)
        else needed <-? addNeeded first currentEpoch needed ;; Ret (needed, Some first)
    end) (∅ : gset Z, minFirstEpochToUpdate) validatorIndexes ;;
  Ret r.1.

Section chunks.
Context {D : Type} `{SlasherDatabase D} {T : Type} `{Chunker T}.

(** ** Loading chunks *)

Definition loadChunksFromDisk (db : D) (validatorChunkIndex : Z) (chunkIndexes : list Z) : outcome (gmap Z T) :=
  let chunksCount := length chunkIndexes in
  if (chunksCount =? 0)%nat then Ret ∅ else
  chunkKeys <-? forEach (λ ks c, k <-? flatSliceID p validatorChunkIndex c ;; Ret (ks ++ [k])) [] chunkIndexes ;;
  loaded <-? omap_err (λ e, wrapErr e "could not load slasher chunk index")
               (LoadSlasherChunks db kindOf chunkKeys) ;;
  let '(rawChunks, chunksExist) := loaded in
  if negb (length rawChunks =? chunksCount)%nat then Err "unexpected number of chunks"
  else if negb (length chunksExist =? chunksCount)%nat then Err "unexpected number of chunks exist"
  else
    forEach (λ m '(ci, (raw, chunkExists)),
      chunk <-? omap_err (λ e, wrapErr e "could not initialize chunk")
                  (if chunkExists : bool then From p raw else Ret (Empty p)) ;;
      Ret (<[ci := chunk]> m)) (∅ : gmap Z T) (zip chunkIndexes (zip rawChunks chunksExist)).

Definition getChunkFromDatabase (db : D) (validatorChunkIndex chunkIndex : Z) : outcome T :=
  diskChunks <-? omap_err (λ e, wrapErr e "could not load chunk at index")
                   (loadChunksFromDisk db validatorChunkIndex [chunkIndex]) ;;
  match diskChunks !! chunkIndex with
  | Some chunk => Ret chunk
  | None => Err "could not retrieve chunk from disk"
  end.

(** The chunk of the map, or the one on disk. *)
Definition chunkOrLoad (db : D) (chunksByChunkIdx : gmap Z T) (validatorChunkIndex chunkIndex : Z) : outcome T :=
  match chunksByChunkIdx !! chunkIndex with
  | Some chunk => Ret chunk
  | None => omap_err (λ e, wrapErr e "could not get chunk at index")
              (getChunkFromDatabase db validatorChunkIndex chunkIndex)
  end.

(** ** Bringing chunks to the current epoch *)

(** The inner loop: the cells of one chunk from [epochToUpdate] on. *)
Fixpoint neutralCells (chunkIdx validatorIndex currentEpoch : Z) (fuel : nat) (epochToUpdate : Z) (data : list Z)
    : outcome (Z * list Z) :=
  match fuel with
  | O => OutOfFuel
  | S fuel' =>
      c <-? chunkIndex p epochToUpdate ;;
      if (c =? chunkIdx) && (epochToUpdate <=? currentEpoch) then
        data <-? setChunkRawDistance p data validatorIndex epochToUpdate (NeutralElement (T := T)) ;;
        neutralCells chunkIdx validatorIndex currentEpoch fuel' (epochToUpdate +w 1) data
      else Ret (epochToUpdate, data)
  end.

Fixpoint neutralChunks (validatorIndex currentEpoch : Z) (fuel : nat) (epochToUpdate : Z) (chunks : gmap Z T)
    : outcome (gmap Z T) :=
  match fuel with
  | O => OutOfFuel
  | S fuel' =>
      if epochToUpdate <=? currentEpoch then
        chunkIdx <-? chunkIndex p epochToUpdate ;;
        match chunks !! chunkIdx with
        | None => Err "chunk at index does not exist"
        | Some currentChunk =>
            r <-? neutralCells chunkIdx validatorIndex currentEpoch
                    (S (Z.to_nat (currentEpoch - epochToUpdate + 1))) epochToUpdate (Chunk currentChunk) ;;
            neutralChunks validatorIndex currentEpoch fuel' r.1 (<[chunkIdx := withChunk currentChunk r.2]> chunks)
        end
      else Ret chunks
  end.

Definition updatedChunkByChunkIndex (db : D) (latest : gmap Z Z) (currentEpoch validatorChunkIndex : Z)
    : outcome (gmap Z T) :=
  let validatorIndexes := ValidatorIndexesInChunk p validatorChunkIndex in
  needed <-? omap_err (λ e, wrapErr e "could not find the needed chunk indexed")
               (findNeededChunkIndexes latest validatorIndexes currentEpoch None) ;;
  chunkByChunkIndex <-? omap_err (λ e, wrapErr e "could not load chunks from disk")
                          (loadChunksFromDisk db validatorChunkIndex (elements needed)) ;;
  forEach (λ chunks validatorIndex,
    first <-? omap_err (λ e, wrapErr e "could not get first epoch to write")
                (firstEpochToUpdate latest validatorIndex currentEpoch) ;;
    match first with
    | None => Ret chunks
    | Some first =>
        neutralChunks validatorIndex currentEpoch (S (Z.to_nat (currentEpoch - first + 1))) first chunks
    end) chunkByChunkIndex validatorIndexes.

(** ** Applying an attestation *)

Fixpoint applyLoop (db : D) (validatorChunkIndex validatorIndex currentEpoch targetEpoch : Z)
    (fuel : nat) (startEpoch : Z) (chunksByChunkIdx : gmap Z T) : outcome (gmap Z T) :=
  match fuel with
  | O => OutOfFuel
  | S fuel' =>
      ci <-? chunkIndex p startEpoch ;;
      chunk <-? chunkOrLoad db chunksByChunkIdx validatorChunkIndex ci ;;
      r <-? omap_err (λ e, wrapErr e "could not update chunk at chunk index")
              (Update chunk ci currentEpoch validatorIndex startEpoch targetEpoch) ;;
      let '(keepGoing, chunk) := r in
      let chunksByChunkIdx := <[ci := chunk]> chunksByChunkIdx in
      if negb keepGoing then Ret chunksByChunkIdx else
      startEpoch <-? NextChunkStartEpoch chunk startEpoch ;;
      applyLoop db validatorChunkIndex validatorIndex currentEpoch targetEpoch fuel' startEpoch chunksByChunkIdx
  end.

Definition applyAttestationForValidator (fuel : nat) (db : D) (chunksByChunkIdx : gmap Z T)
    (attestation : IndexedAttestationWrapper) (validatorChunkIndex validatorIndex currentEpoch : Z)
    : outcome (option AttSlashing * IndexedAttestationWrapper * gmap Z T) :=
  let source := sourceEpoch attestation in
  let target := targetEpoch attestation in
  ci <-? chunkIndex p source ;;
  chunk <-? chunkOrLoad db chunksByChunkIdx validatorChunkIndex ci ;;
  r <-? omap_err (λ e, wrapErr e "could not check if attestation is slashable")
          (CheckSlashable chunk (AttestationRecordForValidator db) validatorIndex attestation) ;;
  let '(slashing, attestation) := r in
  match slashing with
  | Some slashing => Ret (Some slashing, attestation, chunksByChunkIdx)
  | None =>
      start <-? StartEpoch chunk source currentEpoch ;;
      match start with
      | None => Ret (None, attestation, chunksByChunkIdx)
      | Some startEpoch =>
          chunks <-? applyLoop db validatorChunkIndex validatorIndex currentEpoch target fuel startEpoch
                       chunksByChunkIdx ;;
          Ret (None, attestation, chunks)
      end
  end.

End chunks.

(** ** The service

    The fields of [Service] that detection changes, with the heap of wrappers.
    An operation that fails keeps what it changed before the failure. *)

Record Service (D : Type) := mkService {
  database : D;
  latestEpochUpdatedForValidator : gmap Z Z;
  wrappers : Heap
}.
#[global] Arguments mkService {D} database latestEpochUpdatedForValidator wrappers.
#[global] Arguments database {D} s.
#[global] Arguments latestEpochUpdatedForValidator {D} s.
#[global] Arguments wrappers {D} s.

Section detect.
Context {D : Type} `{SlasherDatabase D}.
Context (rangeMap : ∀ A, gmap Z A → list (Z * A)) (rootOf : AttSlashing → outcome Z) (fuel : nat).

Definition Svc (A : Type) : Type := Service D → outcome A * Service D.

Definition svcRet {A} (a : A) : Svc A := λ s, (Ret a, s).

Definition svcBind {A B} (m : Svc A) (k : A → Svc B) : Svc B := λ s,
  match m s with
  | (Ret a, s') => k a s'
  | (Err e, s') => (Err e, s')
  | (Panic e, s') => (Panic e, s')
  | (OutOfFuel, s') => (OutOfFuel, s')
  end.

Local Notation "x <-! m ;; k" := (svcBind m (λ x, k)) (at level 100, m at next level, right associativity).

(** A computation that reads the service, and one whose error is wrapped. *)
Definition svcLift {A} (f : Service D → outcome A) : Svc A := λ s, (f s, s).

Definition svcRead {A} (msg : string) (f : Service D → outcome A) : Svc A := λ s,
  (omap_err (λ e, wrapErr e msg) (f s), s).

Fixpoint svcFor {A S} (f : S → A → Svc S) (acc : S) (l : list A) : Svc S :=
  match l with
  | [] => svcRet acc
  | x :: l' => acc <-! f acc x ;; svcFor f acc l'
  end.

Definition setWrapper (w : wptr) (x : IndexedAttestationWrapper) : Svc unit := λ s,
  (Ret (), mkService (database s) (latestEpochUpdatedForValidator s) (<[w := x]> (wrappers s))).

Definition setDatabase (db : D) : Svc unit := λ s,
  (Ret (), mkService db (latestEpochUpdatedForValidator s) (wrappers s)).

Definition errHashRoot : string := "could not hash tree root for attester slashing".

(** One validator of one attestation in [updateSpans]. *)
Definition spanStep {T} `{Chunker T} (validatorChunkIdx currentEpoch : Z) (w : wptr)
    (acc : gmap Z T * gmap Z AttSlashing) (validatorIndex : Z) : Svc (gmap Z T * gmap Z AttSlashing) :=
  computed <-! svcLift (λ _, validatorChunkIndex p validatorIndex) ;;
  if negb (validatorChunkIdx =? computed) then svcRet acc else
  r <-! svcRead "could not apply attestation" (λ s,
          att <-? deref (wrappers s) w ;;
          applyAttestationForValidator fuel (database s) acc.1 att validatorChunkIdx validatorIndex currentEpoch) ;;
  let '(slashing, att, chunks) := r in
  _ <-! setWrapper w att ;;
  match slashing with
  | None => svcRet (chunks, acc.2)
  | Some slashing =>
      root <-! svcRead errHashRoot (λ _, rootOf slashing) ;;
      svcRet (chunks, <[root := slashing]> acc.2)
  end.

Definition updateSpans {T} `{Chunker T} (updatedChunks : gmap Z T) (attWrapperByChunkIdx : gmap Z (list wptr))
    (validatorChunkIdx currentEpoch : Z) : Svc (gmap Z T * gmap Z AttSlashing) :=
  svcFor (λ acc '(_, attWrappers),
    svcFor (λ acc w,
      att <-! svcLift (λ s, deref (wrappers s) w) ;;
      svcFor (spanStep validatorChunkIdx currentEpoch w) acc (GetAttestingIndices (Wrapped att)))
      acc attWrappers)
    (updatedChunks, ∅) (rangeMap _ attWrapperByChunkIdx).

Definition saveChunksToDisk {T} `{Chunker T} (chunks : gmap Z (gmap Z T)) : Svc unit :=
  kcs <-! svcLift (λ _,
    forEach (λ acc '(validatorChunkIdx, chunkByChunkIndex),
      forEach (λ acc '(chunkIdx, chunk),
        k <-? flatSliceID p validatorChunkIdx chunkIdx ;; Ret (acc ++ [(k, Chunk chunk)]))
        acc (rangeMap _ chunkByChunkIndex)) [] (rangeMap _ chunks)) ;;
  db <-! svcLift (λ s, SaveSlasherChunks (database s) (kindOf (T := T)) kcs.*1 kcs.*2) ;;
  setDatabase db.

(** The state of the loop of [checkSurroundVotes]. *)
Record surroundAcc := mkSurroundAcc {
  slashings : gmap Z AttSlashing;
  minChunks : gmap Z (gmap Z MinSpanChunksSlice);
  maxChunks : gmap Z (gmap Z MaxSpanChunksSlice);
  chunksCounts : Z
}.

Definition maxChunkBeforeFlush : Z := 25600.

Definition svcWrap {A} (msg : string) (m : Svc A) : Svc A := λ s,
  let '(r, s') := m s in (omap_err (λ e, wrapErr e msg) r, s').

(** [s.latestEpochUpdatedForValidator[index] = currentEpoch] for each index. *)
Definition setLatest (indexes : list Z) (currentEpoch : Z) : Svc unit := λ s,
  (Ret (), mkService (database s)
     (foldl (λ m i, <[i := currentEpoch]> m) (latestEpochUpdatedForValidator s) indexes) (wrappers s)).

Definition flushChunks (acc : surroundAcc) : Svc unit :=
  _ <-! svcWrap "could not save updated min chunks to disk" (saveChunksToDisk (minChunks acc)) ;;
  svcWrap "could not save updated max chunks to disk" (saveChunksToDisk (maxChunks acc)).

Definition surroundStep (currentEpoch : Z) (acc : surroundAcc) (group : Z * list wptr) : Svc surroundAcc :=
  let '(validatorChunkIdx, attWrappers) := group in
  minChunkByChunkIndex <-! svcRead "could not update updatedMinChunks" (λ s,
    updatedChunkByChunkIndex (T := MinSpanChunksSlice) (database s) (latestEpochUpdatedForValidator s)
      currentEpoch validatorChunkIdx) ;;
  maxChunkByChunkIndex <-! svcRead "could not update updatedMaxChunks" (λ s,
    updatedChunkByChunkIndex (T := MaxSpanChunksSlice) (database s) (latestEpochUpdatedForValidator s)
      currentEpoch validatorChunkIdx) ;;
  let counts := chunksCounts acc + Z.of_nat (size minChunkByChunkIndex) + Z.of_nat (size maxChunkByChunkIndex) in
  attWrappersByChunkIndex <-! svcLift (λ s, groupByChunkIndex (wrappers s) attWrappers) ;;
  r <-! svcWrap "could not update min attestation spans"
          (updateSpans minChunkByChunkIndex attWrappersByChunkIndex validatorChunkIdx currentEpoch) ;;
  let '(minChunkByChunkIndex, surroundingSlashings) := r in
  r <-! svcWrap "could not update max attestation spans"
          (updateSpans maxChunkByChunkIndex attWrappersByChunkIndex validatorChunkIdx currentEpoch) ;;
  let '(maxChunkByChunkIndex, surroundedSlashings) := r in
  let acc := mkSurroundAcc (surroundedSlashings ∪ (surroundingSlashings ∪ slashings acc))
    (<[validatorChunkIdx := minChunkByChunkIndex]> (minChunks acc))
    (<[validatorChunkIdx := maxChunkByChunkIndex]> (maxChunks acc)) counts in
  acc <-! (if maxChunkBeforeFlush <=? counts
           then _ <-! flushChunks acc ;; svcRet (mkSurroundAcc (slashings acc) ∅ ∅ 0)
           else svcRet acc) ;;
  _ <-! setLatest (ValidatorIndexesInChunk p validatorChunkIdx) currentEpoch ;;
  svcRet acc.

Definition checkSurroundVotes (attWrappers : list wptr) (currentEpoch : Z) : Svc (gmap Z AttSlashing) :=
  groups <-! svcLift (λ s, groupByValidatorChunkIndex (wrappers s) attWrappers) ;;
  acc <-! svcFor (surroundStep currentEpoch) (mkSurroundAcc ∅ ∅ ∅ 0) (rangeMap _ groups) ;;
  _ <-! flushChunks acc ;;
  svcRet (slashings acc).

(** ** Double votes *)

(** One validator of one incoming attestation against the earlier ones. *)
Definition doubleVoteStep (w : wptr) (acc : gmap (Z * Z) wptr * gmap Z AttSlashing) (validatorIndex : Z)
    : Svc (gmap (Z * Z) wptr * gmap Z AttSlashing) :=
  let '(existingAttWrappers, slashings) := acc in
  incoming <-! svcLift (λ s, deref (wrappers s) w) ;;
  let info := (validatorIndex, targetEpoch incoming) in
  match existingAttWrappers !! info with
  | None => svcRet (<[info := w]> existingAttWrappers, slashings)
  | Some e =>
      existing <-! svcLift (λ s, deref (wrappers s) e) ;;
      if DataRoot existing =? DataRoot incoming then svcRet acc else
      let '(existing, incoming) := unifyAttWrapperVersion existing incoming in
      _ <-! setWrapper e existing ;;
      _ <-! setWrapper w incoming ;;
      slashing <-! svcLift (λ _, slashingOf "existing" "incoming" existing incoming) ;;
      root <-! svcRead errHashRoot (λ _, rootOf slashing) ;;
      svcRet (existingAttWrappers, <[root := slashing]> slashings)
  end.

(** One double vote found on disk: its first wrapper was decoded for this
    vote, its second one is the caller's. *)
Definition diskVoteStep (slashings : gmap Z AttSlashing) (doubleVote : AttesterDoubleVote)
    : Svc (gmap Z AttSlashing) :=
  incoming <-! svcLift (λ s, deref (wrappers s) (Wrapper_2 doubleVote)) ;;
  let '(wrapper_1, wrapper_2) := unifyAttWrapperVersion (Wrapper_1 doubleVote) incoming in
  _ <-! setWrapper (Wrapper_2 doubleVote) wrapper_2 ;;
  slashing <-! svcLift (λ _, slashingOf "first" "second" wrapper_1 wrapper_2) ;;
  root <-! svcRead errHashRoot (λ _, rootOf slashing) ;;
  svcRet (<[root := slashing]> slashings).

Definition checkDoubleVotes (incomingAttWrappers : list wptr) : Svc (gmap Z AttSlashing) :=
  r <-! svcFor (λ acc w,
          incoming <-! svcLift (λ s, deref (wrappers s) w) ;;
          svcFor (doubleVoteStep w) acc (GetAttestingIndices (Wrapped incoming)))
        (∅ : gmap (Z * Z) wptr, ∅) incomingAttWrappers ;;
  doubleVotes <-! svcRead "could not retrieve potential double votes from disk" (λ s,
    atts <-? forEach (λ l w, x <-? deref (wrappers s) w ;; Ret (l ++ [(w, x)])) [] incomingAttWrappers ;;
    CheckAttesterDoubleVotes (database s) atts) ;;
  svcFor diskVoteStep r.2 doubleVotes.

(** ** The whole check *)

Definition checkSlashableAttestations (currentEpoch : Z) (atts : list wptr) : Svc (gmap Z AttSlashing) :=
  doubleVoteSlashings <-! svcWrap "could not check slashable double votes" (checkDoubleVotes atts) ;;
  db <-! svcRead "could not save attestation record" (λ s,
    ws <-? forEach (λ l w, x <-? deref (wrappers s) w ;; Ret (l ++ [x])) [] atts ;;
    SaveAttestationRecordsForValidators (database s) ws) ;;
  _ <-! setDatabase db ;;
  surroundSlashings <-! svcWrap "could not check slashable surround votes" (checkSurroundVotes atts currentEpoch) ;;
  svcRet (surroundSlashings ∪ doubleVoteSlashings).
End detect.
End service.
