(* ===== verification/SlasherSpans.v ===== *)
(** * Slasher: cells and the update loops

    The reading of a chunk as a function from validators and epochs to
    distances, and what the two [Update] loops do to it: every cell of the chunk
    that the attestation covers gets the minimum (maximum) of its target and of
    the new one, the early return being sound because spans grow with the
    epoch. *)

From S2P Require Import Prelude MathHelper Primitives SlasherChunks.

Section cells.
Context (p : Parameters) (Hp : params_ok p).
Local Abbreviation C := (chunkSize p) (only parsing).
Local Abbreviation K := (validatorChunkSize p) (only parsing).
Local Abbreviation HL := (historyLength p) (only parsing).

Definition cell (v e : Z) : nat := Z.to_nat (v mod K * C + e mod C).

(** The distance stored for a validator and an epoch. *)
Definition dist (data : list Z) (v e : Z) : Z := default 0 (data !! cell v e).

Definition data_ok (data : list Z) : Prop :=
  Z.of_nat (length data) = C * K ∧ Forall (λ d, 0 ≤ d < 65536) data.

Lemma cell_lt data v e : data_ok data → (cell v e < length data)%nat.
Proof using Hp. intros [Hl _]. unfold cell. pose proof (cell_bound p Hp v e). lia. Qed.

Lemma dist_lookup data v e : data_ok data → data !! cell v e = Some (dist data v e).
Proof using Hp.
  intros Hd. destruct (lookup_lt_is_Some_2 data (cell v e)) as [d Hl]; [by apply cell_lt|].
  unfold dist. by rewrite Hl.
Qed.

Lemma dist_bound data v e : data_ok data → 0 ≤ dist data v e < 65536.
Proof using Hp.
  intros Hd. pose proof (dist_lookup data v e Hd) as Hl. destruct Hd as [_ Hf].
  by eapply Forall_lookup_1 in Hf.
Qed.

Lemma cell_eq v e v' e' : cell v e = cell v' e' ↔ v mod K = v' mod K ∧ e mod C = e' mod C.
Proof using Hp.
  unfold cell. pose proof (cell_bound p Hp v e). pose proof (cell_bound p Hp v' e'). split.
  - intros ?. apply (cell_inj p Hp). lia.
  - intros [-> ->]. done.
Qed.

Lemma dist_insert data v e d v' e' :
  data_ok data →
  dist (<[cell v e := d]> data) v' e' =
    if decide (v' mod K = v mod K ∧ e' mod C = e mod C) then d else dist data v' e'.
Proof using Hp.
  intros Hd. unfold dist. case_decide as Hc.
  - assert (cell v e = cell v' e') as <- by (apply cell_eq; naive_solver).
    rewrite list_lookup_insert_eq by (by apply cell_lt). done.
  - rewrite list_lookup_insert_ne; [done|]. intros [? ?]%cell_eq. apply Hc. done.
Qed.

Lemma data_ok_insert data v e d :
  data_ok data → 0 ≤ d < 65536 → data_ok (<[cell v e := d]> data).
Proof using Type. intros [Hl Hf] ?. split; [by rewrite length_insert|by apply Forall_insert]. Qed.

Lemma requiredLen : chunkSize p *w validatorChunkSize p = C * K.
Proof using Hp. apply wrap64_small. pose proof (CK_small p Hp). unfold is_u64, two63, two64 in *. lia. Qed.

Lemma chunkDataAtEpoch_eq data v e :
  data_ok data → 0 ≤ e → e + 65536 ≤ two64 → chunkDataAtEpoch p data v e = Ret (e + dist data v e).
Proof using Hp.
  intros Hd ? ?. pose proof (dist_bound data v e Hd). pose proof (cell_lt data v e Hd) as Hc.
  pose proof (dist_lookup data v e Hd) as Hl. pose proof (cell_bound p Hp v e).
  unfold chunkDataAtEpoch. rewrite requiredLen, cellIndex_eq by done. destruct Hd as [Hlen _].
  rewrite (proj2 (Z.eqb_eq _ _) Hlen). cbn. unfold cell in Hc, Hl.
  rewrite (proj2 (Z.leb_gt _ _)) by lia. rewrite Hl.
  unfold Epoch_Add, Epoch_SafeAdd, Add64, bitsAdd64. rewrite Z.div_small by lia. cbn.
  by rewrite wrap64_small by (unfold is_u64; lia).
Qed.

Lemma setChunkRawDistance_eq data v e d :
  data_ok data → setChunkRawDistance p data v e d = Ret (<[cell v e := d]> data).
Proof using Hp.
  intros Hd. pose proof (cell_lt data v e Hd) as Hc. unfold setChunkRawDistance.
  rewrite cellIndex_eq by done. cbn. unfold cell in *. pose proof (cell_bound p Hp v e).
  by rewrite (proj2 (Z.leb_gt _ _)) by lia.
Qed.

(** The distance of an epoch and a target less than 2^16 away is exact. *)
Lemma setChunkDataAtEpoch_eq data v e t :
  data_ok data → 0 ≤ e ≤ t → t < e + 65536 → t < two64 →
  setChunkDataAtEpoch p data v e t = Ret (<[cell v e := t - e]> data).
Proof using Hp.
  intros Hd ? ? ?. unfold setChunkDataAtEpoch, epochDistance. rewrite (proj2 (Z.ltb_ge _ _)) by lia.
  unfold Epoch_Sub, Epoch_SafeSub, Sub64, bitsSub64. rewrite (proj2 (Z.ltb_ge t e)) by lia. cbn.
  rewrite wrap64_small by (unfold is_u64; lia). unfold wrap16. rewrite Z.mod_small by lia.
  by apply setChunkRawDistance_eq.
Qed.

(** ** Epochs of one chunk *)

(** [x] lies in the chunk that starts at [base]. *)
Definition inChunk (base x : Z) : Prop := base ≤ x < base + C.

Lemma inChunk_index base x :
  0 ≤ base → base mod C = 0 → inChunk base x → x mod HL / C = base mod HL / C.
Proof using Hp.
  intros Hb Hm [? ?]. pose proof (C_pos p Hp). apply Z.div_exact in Hm; [|lia].
  rewrite !chunkIndex_div by done.
  f_equal. symmetry. apply Z.div_unique_pos with (x - base); lia.
Qed.

(** The epoch before a chunk is in another chunk, and so is the one after it. *)
Lemma before_chunk base : 0 < base → base mod C = 0 → (base - 1) mod HL / C ≠ base mod HL / C.
Proof using Hp.
  intros Hb Hm. pose proof (C_pos p Hp). pose proof (C_lt_H p Hp). pose proof (H_width p Hp) as Hw.
  apply Z.div_exact in Hm; [|lia]. rewrite !chunkIndex_div by done.
  set (w := HL / C) in *. set (b := base / C) in *. assert (1 < w) by nia.
  assert ((base - 1) / C = b - 1) as -> by (symmetry; apply Z.div_unique_pos with (C - 1); lia).
  intros Heq. pose proof (Z.div_mod b w ltac:(lia)). pose proof (Z.div_mod (b - 1) w ltac:(lia)).
  assert (w * (b / w - (b - 1) / w) = 1) as Hk by lia. revert Hk.
  generalize (b / w - (b - 1) / w). intros k Hk. destruct (Z_le_gt_dec k 0); nia.
Qed.

Lemma after_chunk base : 0 ≤ base → base mod C = 0 → (base + C) mod HL / C ≠ base mod HL / C.
Proof using Hp.
  intros Hb Hm. pose proof (C_pos p Hp). pose proof (before_chunk (base + C)) as Hbc.
  rewrite <- (inChunk_index base (base + C - 1)); [|done..|unfold inChunk; lia].
  apply not_eq_sym, Hbc; [lia|]. by rewrite Zplus_mod, Z.mod_same, Hm by lia.
Qed.

Lemma chunk_mod base x y : inChunk base x → inChunk base y → base mod C = 0 → x mod C = y mod C → x = y.
Proof using Hp.
  intros [? ?] [? ?] Hm Heq. pose proof (C_pos p Hp). apply Z.div_exact in Hm; [|lia].
  assert (x / C = base / C) as Hx by (symmetry; apply Z.div_unique_pos with (x - base); lia).
  assert (y / C = base / C) as Hy by (symmetry; apply Z.div_unique_pos with (y - base); lia).
  pose proof (Z.div_mod x C ltac:(lia)). pose proof (Z.div_mod y C ltac:(lia)). congruence.
Qed.

(** ** The update loops *)

Section loops.
Context (base v T : Z) (Hb : 0 ≤ base) (Hbm : base mod C = 0) (Hbs : base + C + 65536 ≤ two64).
Context (HT : 0 ≤ T < two64).
Local Abbreviation ci := (base mod HL / C) (only parsing).

(** The cells of validator [v] at the epochs [A] of the chunk become [f] of
    their target, every other cell of the chunk is as before. *)
Definition updated (A : Z → Prop) `{∀ x, Decision (A x)} (f : Z → Z) (data data' : list Z) : Prop :=
  data_ok data' ∧
  ∀ v' x, inChunk base x →
    dist data' v' x =
      if decide (v' mod K = v mod K ∧ A x) then f (x + dist data v x) - x else dist data v' x.

(** Spans grow with the epoch. *)
Definition grows (data : list Z) (lo hi : Z) : Prop :=
  ∀ x y, lo ≤ x → x ≤ y → y ≤ hi → x + dist data v x ≤ y + dist data v y.

(** Writing the cell of [e] leaves the other epochs of the chunk alone. *)
Lemma dist_write data e d v' x :
  data_ok data → inChunk base e → inChunk base x →
  dist (<[cell v e := d]> data) v' x =
    if decide (v' mod K = v mod K ∧ x = e) then d else dist data v' x.
Proof using Hp Hbm.
  intros Hd He Hx. rewrite dist_insert by done. apply decide_ext.
  split; intros [? Heq]; (split; [done|]); [by apply (chunk_mod base)|by rewrite Heq].
Qed.

Lemma dist_mod data v' x : v' mod K = v mod K → dist data v' x = dist data v x.
Proof using Type. intros Heq. unfold dist, cell. by rewrite Heq. Qed.

Lemma in_chunk_index e : inChunk base e → chunkIndex p e = Ret ci.
Proof using Hp Hb Hbm. intros He. rewrite chunkIndex_eq by done. by rewrite (inChunk_index base e). Qed.

Lemma minUpdateLoop_spec minEpoch fuel : ∀ e data,
  data_ok data → inChunk base e → 0 ≤ minEpoch ≤ e → e ≤ T →
  grows data (Z.max minEpoch base) e → (Z.to_nat (e - minEpoch + 1) + 2 ≤ fuel)%nat →
  ∃ keepGoing data',
    minUpdateLoop p ci minEpoch v T fuel e data = Ret (keepGoing, data') ∧
    updated (λ x, minEpoch ≤ x ≤ e) (Z.min T) data data' ∧
    (keepGoing = true → minEpoch < base) ∧
    (keepGoing = false → minEpoch < base → base + dist data v base ≤ T).
Proof using Hp Hb Hbm Hbs HT.
  induction fuel as [|fuel IH]; intros e data Hd He Hmin HeT Hg Hf; [lia|]. pose proof He as [? ?].
  cbn [minUpdateLoop]. rewrite in_chunk_index by done. cbn [obind].
  rewrite Z.eqb_refl, (proj2 (Z.leb_le _ _)) by lia. cbn [andb].
  rewrite chunkDataAtEpoch_eq by (done || lia). cbn [omap_err obind].
  pose proof (dist_bound data v e Hd).
  destruct (Z.ltb_spec T (e + dist data v e)) as [Hlt|Hge]; cycle 1.
  { (* the early return *)
    eexists _, _. split; [done|]. split; [split; [done|]|split; [done|]].
    - intros v' x [? ?]. case_decide as Hc; [|done]. destruct Hc as [Hv ?].
      pose proof (Hg x e). rewrite (dist_mod data v') by done. lia.
    - intros _ ?. pose proof (Hg base e). lia. }
  rewrite setChunkDataAtEpoch_eq by (done || lia). cbn [omap_err obind].
  set (data1 := <[cell v e := T - e]> data).
  assert (data_ok data1) as Hd1 by (apply data_ok_insert; [done|lia]).
  assert (∀ x, inChunk base x → x ≠ e → dist data1 v x = dist data v x) as Hsame.
  { intros x Hx Hne. unfold data1. rewrite dist_write by done. rewrite decide_False by naive_solver. done. }
  destruct (decide (Z.max minEpoch base < e)) as [Hmore|Hlast].
  - (* more epochs of the chunk *)
    rewrite (proj2 (Z.ltb_lt 0 e)) by lia. rewrite wrap64_small by (unfold is_u64; lia).
    destruct (IH (e - 1) data1) as (kg & data' & -> & [Hok Hup] & Hkt & Hkf);
      [done|split; lia|lia..| |lia|].
    { intros x y ? ? ?. rewrite !Hsame by (unfold inChunk; lia). apply Hg; lia. }
    eexists _, _. split; [done|]. split; [split; [done|]|split; [done|]].
    + intros v' x Hx. rewrite Hup by done. unfold data1. rewrite !dist_write by done.
      repeat case_decide; naive_solver lia.
    + intros ? ?. rewrite <- (Hsame base) by (unfold inChunk; lia). by apply Hkf.
  - (* the last epoch of the chunk or of the history *)
    assert (updated (λ x, minEpoch ≤ x ≤ e) (Z.min T) data data1) as Hupd.
    { split; [done|]. intros v' x [? ?]. unfold data1. rewrite dist_write by done.
      repeat case_decide; naive_solver lia. }
    destruct fuel as [|fuel]; [lia|]. cbn [minUpdateLoop].
    destruct (decide (e = 0)) as [->|Hne].
    + rewrite in_chunk_index by done. cbn [obind Z.ltb Z.compare].
      rewrite Z.eqb_refl, (proj2 (Z.leb_le _ _)) by lia. cbn [andb].
      rewrite chunkDataAtEpoch_eq by (done || lia). cbn [omap_err obind].
      unfold data1 at 1. rewrite dist_write by done. rewrite decide_True by done.
      rewrite (proj2 (Z.ltb_ge _ _)) by lia.
      eexists _, _. split; [done|]. split; [done|]. split; [done|]. lia.
    + rewrite (proj2 (Z.ltb_lt 0 e)) by lia. rewrite wrap64_small by (unfold is_u64; lia).
      rewrite chunkIndex_eq by done. cbn [obind].
      destruct (Z.leb_spec minEpoch (e - 1)) as [Hle|Hgt].
      * assert (e = base) as -> by lia. rewrite (proj2 (Z.eqb_neq _ _)) by (by apply before_chunk; lia).
        cbn [andb]. eexists _, _. split; [done|]. split; [done|]. split; [lia|done].
      * rewrite andb_false_r. eexists _, _. split; [done|]. split; [done|]. split; [done|]. lia.
Qed.

Lemma maxUpdateLoop_spec currentEpoch fuel : ∀ e data,
  currentEpoch < two64 - 1 → T < e + 65536 →
  data_ok data → inChunk base e → e ≤ currentEpoch →
  grows data e (Z.min currentEpoch (base + C - 1)) → (Z.to_nat (currentEpoch - e + 1) + 1 ≤ fuel)%nat →
  ∃ keepGoing data',
    maxUpdateLoop p ci currentEpoch v T fuel e data = Ret (keepGoing, data') ∧
    updated (λ x, e ≤ x ≤ currentEpoch) (Z.max T) data data' ∧
    (keepGoing = true → base + C ≤ currentEpoch) ∧
    (keepGoing = false → base + C ≤ currentEpoch → T ≤ (base + C - 1) + dist data v (base + C - 1)).
Proof using Hp Hb Hbm Hbs HT.
  induction fuel as [|fuel IH]; intros e data Hcur HTe Hd He Hmax Hg Hf; [lia|]. pose proof He as [? ?].
  cbn [maxUpdateLoop]. rewrite in_chunk_index by done. cbn [obind].
  rewrite Z.eqb_refl, (proj2 (Z.leb_le _ _)) by lia. cbn [andb].
  rewrite chunkDataAtEpoch_eq by (done || lia). cbn [omap_err obind].
  pose proof (dist_bound data v e Hd).
  destruct (Z.ltb_spec (e + dist data v e) T) as [Hlt|Hge]; cycle 1.
  { (* the early return *)
    eexists _, _. split; [done|]. split; [split; [done|]|split; [done|]].
    - intros v' x [? ?]. case_decide as Hc; [|done]. destruct Hc as [Hv ?].
      pose proof (Hg e x). rewrite (dist_mod data v') by done. lia.
    - intros _ ?. pose proof (Hg e (base + C - 1)). lia. }
  rewrite setChunkDataAtEpoch_eq by (done || lia). cbn [omap_err obind].
  set (data1 := <[cell v e := T - e]> data).
  assert (data_ok data1) as Hd1 by (apply data_ok_insert; [done|lia]).
  assert (∀ x, inChunk base x → x ≠ e → dist data1 v x = dist data v x) as Hsame.
  { intros x Hx Hne. unfold data1. rewrite dist_write by done. rewrite decide_False by naive_solver. done. }
  rewrite wrap64_small by (unfold is_u64; lia).
  destruct (decide (e < Z.min currentEpoch (base + C - 1))) as [Hmore|Hlast].
  - (* more epochs of the chunk *)
    destruct (IH (e + 1) data1) as (kg & data' & -> & [Hok Hup] & Hkt & Hkf);
      [lia|lia|done|split; lia|lia| |lia|].
    { intros x y ? ? ?. rewrite !Hsame by (unfold inChunk; lia). apply Hg; lia. }
    eexists _, _. split; [done|]. split; [split; [done|]|split; [done|]].
    + intros v' x Hx. rewrite Hup by done. unfold data1. rewrite !dist_write by done.
      repeat case_decide; naive_solver lia.
    + intros ? ?. rewrite <- (Hsame (base + C - 1)) by (unfold inChunk; lia). by apply Hkf.
  - (* the last epoch of the chunk or the current one *)
    destruct fuel as [|fuel]; [lia|]. cbn [maxUpdateLoop]. rewrite chunkIndex_eq by done. cbn [obind].
    assert (updated (λ x, e ≤ x ≤ currentEpoch) (Z.max T) data data1) as Hupd.
    { split; [done|]. intros v' x [? ?]. unfold data1. rewrite dist_write by done.
      repeat case_decide; naive_solver lia. }
    destruct (Z.leb_spec (e + 1) currentEpoch) as [Hle|Hgt].
    + assert (e + 1 = base + C) as -> by lia. rewrite (proj2 (Z.eqb_neq _ _)) by (by apply after_chunk).
      cbn [andb]. eexists _, _. split; [done|]. split; [done|]. split; [lia|done].
    + rewrite andb_false_r. eexists _, _. split; [done|]. split; [done|]. split; [done|]. lia.
Qed.
End loops.
End cells.
