(* ===== verification/SlasherLaws.v ===== *)
(** * Slasher: what a [Chunker] promises to the detection code

    The laws are stated for epochs below the history length, where the chunk of
    an epoch is the quotient by the chunk size, and once for both kinds of span:
    [covers s e] says that an attestation with source [s] counts in the span of
    epoch [e], [pick] is the minimum or the maximum, [offends t m] compares the
    target of an incoming attestation with the span of its source, [visits start e]
    says that an update that starts at [start] reaches [e]. *)

From S2P Require Import Prelude MathHelper Primitives SlasherChunks SlasherSpans.

Class SpanLaws (T : Type) `{Chunker T} := {
  spanParams : T → Parameters;
  pick : Z → Z → Z;
  offends : Z → Z → bool;
  covers : Z → Z → bool;
  visits : Z → Z → bool;
  ready : Z → Z → Prop;
  chunksLeft : Parameters → Z → Z → nat;

  Empty_spec p :
    params_ok p →
    spanParams (Empty p) = p ∧ data_ok p (Chunk (Empty p)) ∧
    ∀ v e, dist p (Chunk (Empty p)) v e = NeutralElement;
  pick_or a b : pick a b = a ∨ pick a b = b;
  offends_pick t a b : offends t (pick a b) = offends t a || offends t b;
  offends_neutral t s : 0 ≤ s ≤ t → t < 65535 → offends t (s + NeutralElement) = false;
  cover_grows s t x y a b :
    x ≤ y → a ≤ b →
    (if covers s x then pick t a else a) ≤ (if covers s y then pick t b else b);
  chunksLeft_bound p current start :
    params_ok p → 0 ≤ start ≤ current → current < historyLength p →
    Z.of_nat (chunksLeft p current start) ≤ historyLength p / chunkSize p;

  CheckSlashable_eq p t lookup v w :
    params_ok p → spanParams t = p → data_ok p (Chunk t) → 0 ≤ sourceEpoch w → sourceEpoch w + 65536 ≤ two64 →
    CheckSlashable t lookup v w =
      let m := sourceEpoch w + dist p (Chunk t) v (sourceEpoch w) in
      if negb (offends (targetEpoch w) m) then Ret (None, w) else
      existing <-? omap_err (λ e, wrapErr e "could not get existing attestation record") (lookup v m) ;;
      match existing with
      | None => Ret (None, w)
      | Some ex =>
          if negb (covers (sourceEpoch ex) (sourceEpoch w)) then Ret (None, w) else
          let '(ex, inc) := unifyAttWrapperVersion ex w in
          slashing <-? slashingOf "existing" "incoming" ex inc ;; Ret (Some slashing, inc)
      end;

  StartEpoch_spec p current t s tgt :
    params_ok p → 0 ≤ current < historyLength p → spanParams t = p →
    0 ≤ s ≤ tgt → tgt ≤ current →
    (StartEpoch t s current = Ret None ∧ ∀ e, 0 ≤ e ≤ current → covers s e = false) ∨
    ∃ start, StartEpoch t s current = Ret (Some start) ∧ 0 ≤ start ≤ current ∧ ready start tgt ∧
      ∀ e, 0 ≤ e ≤ current → visits start e = covers s e;

  Update_spec p current t v start tgt :
    params_ok p → 0 ≤ current < historyLength p → spanParams t = p → data_ok p (Chunk t) →
    0 ≤ start ≤ current → 0 ≤ tgt ≤ current → ready start tgt →
    (∀ x y, 0 ≤ x → x ≤ y → y ≤ current → x / chunkSize p = start / chunkSize p →
       y / chunkSize p = start / chunkSize p → visits start x = true → visits start y = true →
       x + dist p (Chunk t) v x ≤ y + dist p (Chunk t) v y) →
    ∃ keepGoing t',
      Update t (start / chunkSize p) current v start tgt = Ret (keepGoing, t') ∧
      spanParams t' = p ∧ data_ok p (Chunk t') ∧
      (∀ v' x, 0 ≤ x ≤ current → x / chunkSize p = start / chunkSize p →
         dist p (Chunk t') v' x =
           if decide (v' mod validatorChunkSize p = v mod validatorChunkSize p ∧ visits start x = true)
           then pick tgt (x + dist p (Chunk t) v x) - x else dist p (Chunk t) v' x) ∧
      (keepGoing = true →
         ∃ next, NextChunkStartEpoch t' start = Ret next ∧ 0 ≤ next ≤ current ∧ ready next tgt ∧
           (chunksLeft p current next < chunksLeft p current start)%nat ∧
           ∀ x, 0 ≤ x ≤ current →
             visits next x = visits start x && negb (x / chunkSize p =? start / chunkSize p)) ∧
      (keepGoing = false →
         ∀ f, (∀ x y, 0 ≤ x → x ≤ y → y ≤ current → visits start x = true → visits start y = true → f x ≤ f y) →
           (∀ x, 0 ≤ x ≤ current → x / chunkSize p = start / chunkSize p → f x = x + dist p (Chunk t) v x) →
           ∀ x, 0 ≤ x ≤ current → visits start x = true → x / chunkSize p ≠ start / chunkSize p →
             pick tgt (f x) = f x)
}.

(** ** Shared facts on the chunk of an epoch *)

Section chunk_of.
Context (p : Parameters) (Hp : params_ok p).
Local Abbreviation C := (chunkSize p) (only parsing).

Definition baseOf (e : Z) : Z := e / C * C.

Lemma baseOf_spec e : 0 ≤ e → 0 ≤ baseOf e ∧ baseOf e mod C = 0 ∧ baseOf e ≤ e ∧ inChunk p (baseOf e) e.
Proof using Hp.
  intros ?. pose proof (C_pos p Hp). unfold inChunk, baseOf. pose proof (Z.div_mod e C ltac:(lia)).
  pose proof (Z.mod_pos_bound e C ltac:(lia)). assert (0 ≤ e / C) by (apply Z.div_pos; lia).
  rewrite Z.mod_mul by lia. nia.
Qed.

Lemma inChunk_div e x : 0 ≤ e → inChunk p (baseOf e) x ↔ x / C = e / C.
Proof using Hp.
  intros ?. pose proof (C_pos p Hp). unfold inChunk, baseOf. split.
  - intros ?. symmetry. apply Z.div_unique_pos with (x - e / C * C); lia.
  - intros <-. pose proof (Z.div_mod x C ltac:(lia)). pose proof (Z.mod_pos_bound x C ltac:(lia)). lia.
Qed.

(** Below the history length the chunk index of the source is the quotient. *)
Lemma index_low e : 0 ≤ e < historyLength p → baseOf e mod historyLength p / C = e / C.
Proof using Hp.
  intros ?. destruct (baseOf_spec e) as (? & ? & ? & ?); [lia|]. pose proof (C_pos p Hp).
  rewrite Z.mod_small by lia. unfold baseOf. by rewrite Z.div_mul by lia.
Qed.

Lemma history_room e : 0 ≤ e < historyLength p → baseOf e + C + 65536 ≤ two64.
Proof using Hp. intros ?. destruct (baseOf_spec e); [lia|]. destruct Hp. unfold two64. lia. Qed.

Lemma minEpochOf_low current : 0 ≤ current < historyLength p → minEpochOf p current = 0.
Proof using Hp.
  intros ?. destruct Hp. unfold minEpochOf. rewrite wrap64_small by (unfold is_u64, two64; lia).
  by rewrite (proj2 (Z.ltb_ge _ _)) by lia.
Qed.

Lemma Epoch_Add_small a b : 0 ≤ a → 0 ≤ b → a + b < two64 → Epoch_Add a b = Ret (a + b).
Proof using Type.
  intros ? ? ?. unfold Epoch_Add, Epoch_SafeAdd, Add64, bitsAdd64. rewrite Z.div_small by lia. cbn.
  by rewrite wrap64_small by (unfold is_u64; lia).
Qed.

Lemma Epoch_Sub_small a b : 0 ≤ b ≤ a → a < two64 → Epoch_Sub a b = Ret (a - b).
Proof using Type.
  intros ? ?. unfold Epoch_Sub, Epoch_SafeSub, Sub64, bitsSub64. rewrite (proj2 (Z.ltb_ge a b)) by lia. cbn.
  by rewrite wrap64_small by (unfold is_u64; lia).
Qed.
End chunk_of.

(** A slice filled with one value. *)
Lemma filled_spec p d :
  params_ok p → 0 ≤ d < 65536 →
  let data := replicate (Z.to_nat (chunkSize p *w validatorChunkSize p)) d in
  data_ok p data ∧ ∀ v e, dist p data v e = d.
Proof.
  intros Hp ? data. unfold data. pose proof (CK_small p Hp). rewrite requiredLen by done.
  assert (data_ok p (replicate (Z.to_nat (chunkSize p * validatorChunkSize p)) d)) as Hd.
  { split; [rewrite length_replicate; lia|by apply Forall_replicate]. }
  split; [done|]. intros v e. pose proof (dist_lookup p Hp _ v e Hd) as Hl.
  apply lookup_replicate in Hl as [Hl _]. done.
Qed.

(** ** Min spans *)

Section min_spans.
Context (p : Parameters) (Hp : params_ok p).
Local Abbreviation C := (chunkSize p) (only parsing).
Local Abbreviation K := (validatorChunkSize p) (only parsing).

Lemma minCheckSlashable_eq t lookup v w :
  minParams t = p → data_ok p (minData t) → 0 ≤ sourceEpoch w → sourceEpoch w + 65536 ≤ two64 →
  minCheckSlashable t lookup v w =
    let m := sourceEpoch w + dist p (minData t) v (sourceEpoch w) in
    if negb (m <? targetEpoch w) then Ret (None, w) else
    existing <-? omap_err (λ e, wrapErr e "could not get existing attestation record") (lookup v m) ;;
    match existing with
    | None => Ret (None, w)
    | Some ex =>
        if negb (sourceEpoch w <? sourceEpoch ex) then Ret (None, w) else
        let '(ex, inc) := unifyAttWrapperVersion ex w in
        slashing <-? slashingOf "existing" "incoming" ex inc ;; Ret (Some slashing, inc)
    end.
Proof using Hp.
  intros Ht Hd ? ?. unfold minCheckSlashable. rewrite Ht, chunkDataAtEpoch_eq by done. cbn.
  rewrite Z.leb_antisym. destruct (negb _); [done|].
  destruct (lookup _ _) as [[ex|]| | |]; cbn; [|done..]. by rewrite Z.leb_antisym.
Qed.

Lemma minStartEpoch_spec current t s tgt :
  0 ≤ current < historyLength p → minParams t = p → 0 ≤ s ≤ tgt → tgt ≤ current →
  (minStartEpoch t s current = Ret None ∧ ∀ e, 0 ≤ e ≤ current → (e <? s) = false) ∨
  ∃ start, minStartEpoch t s current = Ret (Some start) ∧ 0 ≤ start ≤ current ∧ start ≤ tgt ∧
    ∀ e, 0 ≤ e ≤ current → (e <=? start) = (e <? s).
Proof using Hp.
  intros Hc Ht ? ?. unfold minStartEpoch. rewrite Ht, (proj2 (Z.ltb_ge _ _)) by lia. destruct Hp.
  destruct (Z.eqb_spec s 0) as [->|]; [left; split; [done|intros; apply Z.ltb_ge; lia]|right].
  rewrite (proj2 (Z.leb_gt _ _)), Epoch_Sub_small by (unfold two64; lia). cbn.
  exists (s - 1). split; [done|]. split; [lia|]. split; [lia|]. intros e ?. apply eq_true_iff_eq.
  rewrite Z.leb_le, Z.ltb_lt. lia.
Qed.

Lemma minNext_spec current t start :
  0 ≤ start ≤ current → current < historyLength p → minParams t = p → 0 < baseOf p start →
  minNextChunkStartEpoch t start = Ret (baseOf p start - 1).
Proof using Hp.
  intros ? ? Ht Hb. unfold minNextChunkStartEpoch. rewrite Ht, chunkIndex_low by (done || lia). cbn.
  unfold baseOf in *. pose proof (C_pos p Hp). pose proof (C_lt_H p Hp). pose proof (H_small p Hp).
  assert (0 < start / C ≤ start) by (split; [nia|apply Z.div_le_upper_bound; nia]).
  rewrite (proj2 (Z.ltb_lt _ _)) by lia. rewrite wrap64_small by (unfold is_u64, two64; lia).
  pose proof (Z.mul_div_le start C). unfold lastEpoch, firstEpoch.
  rewrite !wrap64_small by (unfold is_u64, two64; nia). rewrite Epoch_Add_small by (unfold two64; nia).
  f_equal. nia.
Qed.

Lemma minUpdate_spec current t v start tgt :
  0 ≤ current < historyLength p → minParams t = p → data_ok p (minData t) →
  0 ≤ start ≤ current → 0 ≤ tgt ≤ current → start ≤ tgt →
  (∀ x y, 0 ≤ x → x ≤ y → y ≤ current → x / C = start / C → y / C = start / C →
     (x <=? start) = true → (y <=? start) = true →
     x + dist p (minData t) v x ≤ y + dist p (minData t) v y) →
  ∃ keepGoing t',
    minUpdate t (start / C) current v start tgt = Ret (keepGoing, t') ∧
    minParams t' = p ∧ data_ok p (minData t') ∧
    (∀ v' x, 0 ≤ x ≤ current → x / C = start / C →
       dist p (minData t') v' x =
         if decide (v' mod K = v mod K ∧ (x <=? start) = true)
         then Z.min tgt (x + dist p (minData t) v x) - x else dist p (minData t) v' x) ∧
    (keepGoing = true →
       ∃ next, minNextChunkStartEpoch t' start = Ret next ∧ 0 ≤ next ≤ current ∧ next ≤ tgt ∧
         (Z.to_nat (next / C) < Z.to_nat (start / C))%nat ∧
         ∀ x, 0 ≤ x ≤ current → (x <=? next) = (x <=? start) && negb (x / C =? start / C)) ∧
    (keepGoing = false →
       ∀ f, (∀ x y, 0 ≤ x → x ≤ y → y ≤ current → (x <=? start) = true → (y <=? start) = true → f x ≤ f y) →
         (∀ x, 0 ≤ x ≤ current → x / C = start / C → f x = x + dist p (minData t) v x) →
         ∀ x, 0 ≤ x ≤ current → (x <=? start) = true → x / C ≠ start / C → Z.min tgt (f x) = f x).
Proof using Hp.
  intros Hc Ht Hd Hs Htgt Hr Hg. pose proof (C_pos p Hp) as HC. pose proof (H_small p Hp).
  destruct (baseOf_spec p Hp start) as (Hb & Hbm & Hbs & Hin); [lia|].
  destruct (minUpdateLoop_spec p Hp (baseOf p start) v tgt Hb Hbm (history_room p Hp start ltac:(lia))
    ltac:(unfold two64; lia) 0 (S (S (Z.to_nat (start - 0 + 1)))) start (minData t))
    as (kg & data' & Hloop & [Hok Hup] & Hkt & Hkf); [done..|lia|done| |lia|].
  { destruct Hin. intros x y ? ? ?. apply Hg; rewrite ?Z.leb_le; try lia;
      (apply (inChunk_div p Hp start); unfold inChunk; lia). }
  rewrite index_low in Hloop by (done || lia).
  exists kg, (mkMinSpan p data'). unfold minUpdate. rewrite Ht, minEpochOf_low by (done || lia). rewrite Hloop.
  split; [done|]. split; [done|]. split; [done|]. cbn [minData]. split; [|split].
  - intros v' x Hx Hxc. rewrite Hup by (by apply (inChunk_div p Hp start x ltac:(lia))). apply decide_ext.
    rewrite Z.leb_le. naive_solver lia.
  - intros Hk. specialize (Hkt Hk). exists (baseOf p start - 1).
    rewrite (minNext_spec current) by (done || lia). split; [done|].
    assert ((baseOf p start - 1) / C = start / C - 1) as Hdiv.
    { symmetry. apply Z.div_unique_pos with (C - 1); unfold baseOf; lia. }
    assert (0 < start / C) by (unfold baseOf in Hkt; nia).
    split; [lia|]. split; [lia|]. split; [rewrite Hdiv; lia|].
    intros x Hx. apply eq_true_iff_eq. rewrite andb_true_iff, negb_true_iff, !Z.leb_le, Z.eqb_neq.
    rewrite <- (inChunk_div p Hp start x) by lia. destruct Hin. unfold inChunk. lia.
  - intros Hk f Hf Hfc x Hx Hxs%Z.leb_le Hxc.
    rewrite <- (inChunk_div p Hp start x) in Hxc by lia. destruct Hin. unfold inChunk in Hxc.
    assert (baseOf p start + dist p (minData t) v (baseOf p start) ≤ tgt) by (apply Hkf; [done|lia]).
    assert (f x ≤ f (baseOf p start)) by (apply Hf; rewrite ?Z.leb_le; lia).
    rewrite (Hfc (baseOf p start)) in *; [lia..|]. apply (inChunk_div p Hp start); unfold inChunk; lia.
Qed.
End min_spans.

(** ** Max spans *)

Section max_spans.
Context (p : Parameters) (Hp : params_ok p).
Local Abbreviation C := (chunkSize p) (only parsing).
Local Abbreviation K := (validatorChunkSize p) (only parsing).

Lemma maxCheckSlashable_eq t lookup v w :
  maxParams t = p → data_ok p (maxData t) → 0 ≤ sourceEpoch w → sourceEpoch w + 65536 ≤ two64 →
  maxCheckSlashable t lookup v w =
    let m := sourceEpoch w + dist p (maxData t) v (sourceEpoch w) in
    if negb (targetEpoch w <? m) then Ret (None, w) else
    existing <-? omap_err (λ e, wrapErr e "could not get existing attestation record") (lookup v m) ;;
    match existing with
    | None => Ret (None, w)
    | Some ex =>
        if negb (sourceEpoch ex <? sourceEpoch w) then Ret (None, w) else
        let '(ex, inc) := unifyAttWrapperVersion ex w in
        slashing <-? slashingOf "existing" "incoming" ex inc ;; Ret (Some slashing, inc)
    end.
Proof using Hp.
  intros Ht Hd ? ?. unfold maxCheckSlashable. rewrite Ht, chunkDataAtEpoch_eq by done. cbn.
  rewrite Z.leb_antisym. destruct (negb _); [done|].
  destruct (lookup _ _) as [[ex|]| | |]; cbn; [|done..]. by rewrite Z.leb_antisym.
Qed.

Lemma maxStartEpoch_spec current t s tgt :
  0 ≤ current < historyLength p → maxParams t = p → 0 ≤ s ≤ tgt → tgt ≤ current →
  (maxStartEpoch t s current = Ret None ∧ ∀ e, 0 ≤ e ≤ current → (s <? e) = false) ∨
  ∃ start, maxStartEpoch t s current = Ret (Some start) ∧ 0 ≤ start ≤ current ∧ True ∧
    ∀ e, 0 ≤ e ≤ current → (start <=? e) = (s <? e).
Proof using Hp.
  intros Hc Ht ? ?. unfold maxStartEpoch. destruct Hp.
  destruct (Z.leb_spec current s); [left; split; [done|intros; apply Z.ltb_ge; lia]|right].
  rewrite Epoch_Add_small by (unfold two64; lia). cbn.
  exists (s + 1). split; [done|]. split; [lia|]. split; [done|]. intros e ?. apply eq_true_iff_eq.
  rewrite Z.leb_le, Z.ltb_lt. lia.
Qed.

Lemma maxNext_spec current t start :
  0 ≤ start ≤ current → current < historyLength p → maxParams t = p →
  maxNextChunkStartEpoch t start = Ret (baseOf p start + C).
Proof using Hp.
  intros ? ? Ht. unfold maxNextChunkStartEpoch. rewrite Ht, chunkIndex_low by (done || lia). cbn.
  unfold baseOf in *. pose proof (C_pos p Hp). pose proof (C_lt_H p Hp). pose proof (H_small p Hp).
  assert (0 ≤ start / C ≤ start) by (split; [apply Z.div_pos; lia|apply Z.div_le_upper_bound; nia]).
  unfold firstEpoch. pose proof (Z.mul_div_le start C).
  rewrite !wrap64_small by (rewrite ?wrap64_small; unfold is_u64, two64; nia). f_equal. lia.
Qed.

Lemma maxUpdate_spec current t v start tgt :
  0 ≤ current < historyLength p → maxParams t = p → data_ok p (maxData t) →
  0 ≤ start ≤ current → 0 ≤ tgt ≤ current → True →
  (∀ x y, 0 ≤ x → x ≤ y → y ≤ current → x / C = start / C → y / C = start / C →
     (start <=? x) = true → (start <=? y) = true →
     x + dist p (maxData t) v x ≤ y + dist p (maxData t) v y) →
  ∃ keepGoing t',
    maxUpdate t (start / C) current v start tgt = Ret (keepGoing, t') ∧
    maxParams t' = p ∧ data_ok p (maxData t') ∧
    (∀ v' x, 0 ≤ x ≤ current → x / C = start / C →
       dist p (maxData t') v' x =
         if decide (v' mod K = v mod K ∧ (start <=? x) = true)
         then Z.max tgt (x + dist p (maxData t) v x) - x else dist p (maxData t) v' x) ∧
    (keepGoing = true →
       ∃ next, maxNextChunkStartEpoch t' start = Ret next ∧ 0 ≤ next ≤ current ∧ True ∧
         (Z.to_nat (current / C - next / C) < Z.to_nat (current / C - start / C))%nat ∧
         ∀ x, 0 ≤ x ≤ current → (next <=? x) = (start <=? x) && negb (x / C =? start / C)) ∧
    (keepGoing = false →
       ∀ f, (∀ x y, 0 ≤ x → x ≤ y → y ≤ current → (start <=? x) = true → (start <=? y) = true → f x ≤ f y) →
         (∀ x, 0 ≤ x ≤ current → x / C = start / C → f x = x + dist p (maxData t) v x) →
         ∀ x, 0 ≤ x ≤ current → (start <=? x) = true → x / C ≠ start / C → Z.max tgt (f x) = f x).
Proof using Hp.
  intros Hc Ht Hd Hs Htgt _ Hg. pose proof (C_pos p Hp) as HC. pose proof (H_small p Hp).
  destruct (baseOf_spec p Hp start) as (Hb & Hbm & Hbs & Hin); [lia|].
  destruct (maxUpdateLoop_spec p Hp (baseOf p start) v tgt Hb Hbm (history_room p Hp start ltac:(lia))
    ltac:(unfold two64; lia) current (S (Z.to_nat (current - start + 1))) start (maxData t))
    as (kg & data' & Hloop & [Hok Hup] & Hkt & Hkf); [unfold two64; lia|lia|done|done|lia| |lia|].
  { destruct Hin. intros x y ? ? ?. apply Hg; rewrite ?Z.leb_le; try lia;
      (apply (inChunk_div p Hp start); unfold inChunk; lia). }
  rewrite index_low in Hloop by (done || lia).
  exists kg, (mkMaxSpan p data'). unfold maxUpdate. rewrite Ht, Hloop.
  split; [done|]. split; [done|]. split; [done|]. cbn [maxData]. split; [|split].
  - intros v' x Hx Hxc. rewrite Hup by (by apply (inChunk_div p Hp start x ltac:(lia))). apply decide_ext.
    rewrite Z.leb_le. naive_solver lia.
  - intros Hk. specialize (Hkt Hk). exists (baseOf p start + C).
    rewrite (maxNext_spec current) by (done || lia). split; [done|].
    assert ((baseOf p start + C) / C = start / C + 1) as Hdiv.
    { symmetry. apply Z.div_unique_pos with 0; unfold baseOf; lia. }
    assert (start / C + 1 ≤ current / C) by (rewrite <- Hdiv; apply Z.div_le_mono; lia).
    split; [lia|]. split; [done|]. split; [rewrite Hdiv; lia|].
    intros x Hx. apply eq_true_iff_eq. rewrite andb_true_iff, negb_true_iff, !Z.leb_le, Z.eqb_neq.
    rewrite <- (inChunk_div p Hp start x) by lia. destruct Hin. unfold inChunk. lia.
  - intros Hk f Hf Hfc x Hx Hxs%Z.leb_le Hxc.
    rewrite <- (inChunk_div p Hp start x) in Hxc by lia. destruct Hin. unfold inChunk in Hxc.
    set (last := baseOf p start + C - 1) in *.
    assert (tgt ≤ last + dist p (maxData t) v last) by (apply Hkf; [done|lia]).
    assert (f last ≤ f x) by (apply Hf; rewrite ?Z.leb_le; lia).
    rewrite (Hfc last) in *; [lia..|]. apply (inChunk_div p Hp start); unfold inChunk; lia.
Qed.
End max_spans.

(** ** Both slices keep the promises *)

#[global, program] Instance MinSpanLaws : SpanLaws MinSpanChunksSlice := {|
  spanParams := minParams;
  pick := Z.min;
  offends t m := m <? t;
  covers s e := e <? s;
  visits start e := e <=? start;
  ready start t := start ≤ t;
  chunksLeft p _ start := Z.to_nat (start / chunkSize p);
  CheckSlashable_eq p t lookup v w Hp := minCheckSlashable_eq p Hp t lookup v w;
  StartEpoch_spec p current t s tgt Hp := minStartEpoch_spec p Hp current t s tgt;
  Update_spec p current t v start tgt Hp := minUpdate_spec p Hp current t v start tgt
|}.
Next Obligation.
  intros p Hp. split; [done|]. by apply filled_spec.
Qed.
Next Obligation. lia. Qed.
Next Obligation. intros t a b. apply eq_true_iff_eq. rewrite orb_true_iff, !Z.ltb_lt. lia. Qed.
Next Obligation. intros t s ? ?. apply Z.ltb_ge. cbn. unfold minNeutralElement. lia. Qed.
Next Obligation.
  intros s t x y a b ? ?. cbn. destruct (Z.ltb_spec x s), (Z.ltb_spec y s); lia.
Qed.
Next Obligation.
  intros p current start Hp ? ?. cbn. pose proof (C_pos p Hp).
  assert (start / chunkSize p ≤ historyLength p / chunkSize p) by (apply Z.div_le_mono; lia).
  assert (0 ≤ start / chunkSize p) by (apply Z.div_pos; lia). lia.
Qed.

#[global, program] Instance MaxSpanLaws : SpanLaws MaxSpanChunksSlice := {|
  spanParams := maxParams;
  pick := Z.max;
  offends t m := t <? m;
  covers s e := s <? e;
  visits start e := start <=? e;
  ready _ _ := True;
  chunksLeft p current start := Z.to_nat (current / chunkSize p - start / chunkSize p);
  CheckSlashable_eq p t lookup v w Hp := maxCheckSlashable_eq p Hp t lookup v w;
  StartEpoch_spec p current t s tgt Hp := maxStartEpoch_spec p Hp current t s tgt;
  Update_spec p current t v start tgt Hp := maxUpdate_spec p Hp current t v start tgt
|}.
Next Obligation.
  intros p Hp. split; [done|]. by apply filled_spec.
Qed.
Next Obligation. lia. Qed.
Next Obligation. intros t a b. apply eq_true_iff_eq. rewrite orb_true_iff, !Z.ltb_lt. lia. Qed.
Next Obligation. intros t s ? ?. apply Z.ltb_ge. cbn. unfold maxNeutralElement. lia. Qed.
Next Obligation.
  intros s t x y a b ? ?. cbn. destruct (Z.ltb_spec s x), (Z.ltb_spec s y); lia.
Qed.
Next Obligation.
  intros p current start Hp ? ?. cbn. pose proof (C_pos p Hp).
  assert (current / chunkSize p ≤ historyLength p / chunkSize p) by (apply Z.div_le_mono; lia).
  assert (0 ≤ start / chunkSize p) by (apply Z.div_pos; lia).
  assert (0 ≤ historyLength p / chunkSize p) by (apply Z.div_pos; lia). lia.
Qed.
