(* ===== verification/SlasherCorrect.v ===== *)
(** * Slasher: surround votes are detected exactly

    While the current epoch is below the history length, applying a validator's
    attestations keeps the spans equal to their definition (the minimum target
    over attestations with a later source, the maximum over those with an
    earlier one) and reports an incoming attestation exactly when it surrounds
    (is surrounded by) an applied one.  The client code is proved once, against
    the laws of [Chunker]; the two theorems instantiate it. *)

From S2P Require Import Prelude MathHelper Primitives SlasherChunks SlasherDetect.
From S2P Require Import SlasherDetect SlasherSpans SlasherLaws.

(** ** Evidence

    The two attestations of a slashing have the bodies of two wrappers, the one
    with the lower data root first. *)

Definition sameBody (a b : IndexedAtt) : Prop :=
  GetAttestingIndices a = GetAttestingIndices b ∧ GetData a = GetData b ∧ GetSignature a = GetSignature b.

Definition evidence (sl : AttSlashing) (existing incoming : IndexedAttestationWrapper) : Prop :=
  let '(first, second) :=
    if DataRoot incoming <? DataRoot existing then (incoming, existing) else (existing, incoming) in
  sameBody (FirstAttestation sl) (Wrapped first) ∧ sameBody (SecondAttestation sl) (Wrapped second).

(** Building a slashing from any two wrappers succeeds. *)
Lemma slashing_built n1 n2 ex w :
  ∃ sl ex' inc', unifyAttWrapperVersion ex w = (ex', inc') ∧
    slashingOf n1 n2 ex' inc' = Ret sl ∧ evidence sl ex w ∧
    sameBody (Wrapped inc') (Wrapped w) ∧ DataRoot inc' = DataRoot w.
Proof.
  destruct ex as [[] r1], w as [[] r2]; unfold evidence; cbn;
    destruct (Z.ltb_spec r2 r1); eexists _, _, _; (split; [done|]);
    unfold slashingOf; cbn; rewrite ?(proj2 (Z.ltb_lt r2 r1)), ?(proj2 (Z.ltb_ge r2 r1)) by lia; done.
Qed.

Section detection.
Context (p : Parameters) (Hp : params_ok p).
Context {D : Type} `{SlasherDatabase D} {T : Type} `{SpanLaws T}.
Context (db : D) (vci : Z).
Context (current : Z) (Hcur : 0 ≤ current < historyLength p).
Local Abbreviation C := (chunkSize p) (only parsing).
Local Abbreviation K := (validatorChunkSize p) (only parsing).

(** ** Spans of a chunk map *)

Local Abbreviation chunkAt M c := (chunkOrLoad p db M vci c).

Definition chunks_ok (M : gmap Z T) : Prop :=
  ∀ c, 0 ≤ c < historyLength p / C → ∃ t, chunkAt M c = Ret t ∧ spanParams t = p ∧ data_ok p (Chunk t).

(** The span of a validator at an epoch: the target its chunk stores. *)
Definition spanAt (M : gmap Z T) (v e : Z) : Z :=
  match chunkAt M (e / C) with Ret t => e + dist p (Chunk t) v e | _ => 0 end.

(** The definition of a span, from the applied attestations as pairs of a
    source and a target. *)
Definition spanSpec (atts : list (Z * Z)) (e : Z) : Z :=
  foldr (λ a acc, if covers (a.1) e then pick a.2 acc else acc) (e + NeutralElement) atts.

Lemma chunkAt_insert M c t c' :
  chunkAt (<[c := t]> M) c' = if decide (c = c') then Ret t else chunkAt M c'.
Proof using Type.
  unfold chunkOrLoad. case_decide as Hc; [subst; by rewrite lookup_insert_eq|by rewrite lookup_insert_ne].
Qed.

Lemma chunks_ok_insert M c t :
  chunks_ok M → spanParams t = p → data_ok p (Chunk t) → chunks_ok (<[c := t]> M).
Proof using Type.
  intros HM ? ? c' Hc'. rewrite chunkAt_insert. case_decide; [eauto|by apply HM].
Qed.

Lemma epoch_chunk e : 0 ≤ e ≤ current → 0 ≤ e / C < historyLength p / C.
Proof using Hp Hcur.
  intros ?. pose proof (chunkIndex_bound p Hp e ltac:(lia)). by rewrite Z.mod_small in * by lia.
Qed.

Lemma spanAt_mod M v v' e : v' mod K = v mod K → spanAt M v' e = spanAt M v e.
Proof using Type. intros Heq. unfold spanAt. destruct (chunkOrLoad _ _ _ _ _); [|done..]. by rewrite (dist_mod p v). Qed.

(** Replacing a chunk leaves the spans of the other chunks alone. *)
Lemma spanAt_insert_ne M c t v e : e / C ≠ c → spanAt (<[c := t]> M) v e = spanAt M v e.
Proof using Type. intros ?. unfold spanAt. by rewrite chunkAt_insert, decide_False. Qed.

Lemma spanAt_insert M c t v e : e / C = c → spanAt (<[c := t]> M) v e = e + dist p (Chunk t) v e.
Proof using Type. intros ?. unfold spanAt. by rewrite chunkAt_insert, decide_True. Qed.

Lemma spanAt_eq M c t v e : chunkAt M c = Ret t → e / C = c → spanAt M v e = e + dist p (Chunk t) v e.
Proof using Type. intros Ht <-. unfold spanAt. by rewrite Ht. Qed.

(** ** The loop over chunks *)

Lemma applyLoop_spec v tgt fuel : ∀ start M,
  chunks_ok M → 0 ≤ start ≤ current → 0 ≤ tgt ≤ current → ready start tgt →
  (∀ x y, 0 ≤ x → x ≤ y → y ≤ current → visits start x = true → visits start y = true →
     spanAt M v x ≤ spanAt M v y) →
  (chunksLeft p current start < fuel)%nat →
  ∃ M', applyLoop p db vci v current tgt fuel start M = Ret M' ∧ chunks_ok M' ∧
    ∀ v' e, 0 ≤ e ≤ current →
      spanAt M' v' e =
        if decide (v' mod K = v mod K ∧ visits start e = true) then pick tgt (spanAt M v e) else spanAt M v' e.
Proof using Hp Hcur.
  induction fuel as [|fuel IH]; intros start M HM Hs Htgt Hr Hg Hf; [lia|].
  cbn [applyLoop]. rewrite chunkIndex_low by (done || lia). cbn [obind].
  destruct (HM (start / C)) as (t & Ht & Htp & Htd); [by apply epoch_chunk|]. rewrite Ht. cbn [obind].
  destruct (Update_spec p current t v start tgt) as (kg & t' & -> & Htp' & Htd' & Hup & Hkt & Hkf); [done..| |].
  { intros x y ? ? ? ? ? ? ?. rewrite <- !(spanAt_eq M (start / C) t) by done. by apply Hg. }
  cbn [omap_err obind]. set (M1 := <[start / C := t']> M).
  assert (chunks_ok M1) as HM1 by (by apply chunks_ok_insert).
  assert (∀ v' e, 0 ≤ e ≤ current → e / C = start / C → spanAt M1 v' e =
    if decide (v' mod K = v mod K ∧ visits start e = true) then pick tgt (spanAt M v e) else spanAt M v' e) as Hin.
  { intros v' e He Hc. unfold M1. rewrite spanAt_insert by done. rewrite Hup by done.
    rewrite !(spanAt_eq M (start / C) t) by done. case_decide; lia. }
  destruct kg; cbn [negb].
  - destruct (Hkt eq_refl) as (next & -> & Hn & Hnr & Hleft & Hvis). cbn [obind].
    destruct (IH next M1) as (M' & -> & HM' & Hspan); [done..| |lia|].
    { intros x y ? ? ? Hx Hy. rewrite Hvis in Hx, Hy by lia. bprop. unfold M1.
      rewrite !spanAt_insert_ne by done. by apply Hg. }
    exists M'. split; [done|]. split; [done|]. intros v' e He. rewrite Hspan, Hvis by done.
    destruct (Z.eqb_spec (e / C) (start / C)) as [Hc|Hc].
    + rewrite decide_False by (rewrite andb_false_r; naive_solver). by apply Hin.
    + rewrite andb_true_r. unfold M1. by rewrite !spanAt_insert_ne.
  - exists M1. split; [done|]. split; [done|]. intros v' e He.
    destruct (decide (e / C = start / C)) as [Hc|Hc]; [by apply Hin|].
    unfold M1. rewrite spanAt_insert_ne by done. case_decide as Hd; [|done]. destruct Hd as [Hv Hvis].
    rewrite (spanAt_mod M v v') by done. symmetry.
    apply (Hkf eq_refl (spanAt M v)); [done| |done..]. intros x ? ?. by apply (spanAt_eq M (start / C)).
Qed.

(** ** The definition of spans *)

Lemma spanSpec_grows atts x y : x ≤ y → spanSpec atts x ≤ spanSpec atts y.
Proof using Type.
  intros Hxy. induction atts as [|a atts IH]; cbn; [lia|]. by apply cover_grows.
Qed.

(** An offending span is the target of an applied attestation that counts. *)
Lemma spanSpec_offends atts s t :
  0 ≤ s ≤ t → t ≤ current →
  (offends t (spanSpec atts s) = true ↔ ∃ a, a ∈ atts ∧ covers a.1 s = true ∧ offends t a.2 = true).
Proof using Hp Hcur.
  intros ? ?. pose proof (H_small p Hp). induction atts as [|a atts IH]; cbn.
  - rewrite offends_neutral by lia. split; [done|]. intros (? & ?%elem_of_nil & _). done.
  - setoid_rewrite elem_of_cons. destruct (covers a.1 s) eqn:Hc.
    + rewrite offends_pick, orb_true_iff, IH.
      split; [intros [?|(b & ? & ? & ?)]|intros (b & [->|?] & ? & ?)]; eauto 10.
    + rewrite IH. split; [intros (b & ? & ? & ?)|intros (b & [->|?] & ? & ?)]; [eauto 10|congruence|eauto 10].
Qed.

Lemma spanSpec_attained atts e :
  spanSpec atts e = e + NeutralElement ∨ ∃ a, a ∈ atts ∧ covers a.1 e = true ∧ spanSpec atts e = a.2.
Proof using Type.
  induction atts as [|a atts IH]; cbn; [by left|]. setoid_rewrite elem_of_cons.
  destruct (covers a.1 e) eqn:Hc; [|destruct IH as [?|(b & ? & ? & ?)]; [by left|right; exists b; auto]].
  destruct (pick_or a.2 (foldr (λ a acc, if covers a.1 e then pick a.2 acc else acc) (e + NeutralElement) atts))
    as [Hpk|Hpk]; rewrite Hpk; [right; exists a; auto|].
  destruct IH as [?|(b & ? & ? & ?)]; [by left|right; exists b; auto].
Qed.

(** ** Applying an attestation *)

(** The record of an applied attestation can be read back by its target. *)
Definition recorded (v : Z) (atts : list (Z * Z)) : Prop :=
  ∀ a, a ∈ atts → ∃ x, AttestationRecordForValidator db v a.2 = Ret (Some x) ∧
                       sourceEpoch x = a.1 ∧ targetEpoch x = a.2.

(** The spans of a validator are those of the attestations applied so far. *)
Definition spans_of (M : gmap Z T) (v : Z) (atts : list (Z * Z)) : Prop :=
  ∀ e, 0 ≤ e ≤ current → spanAt M v e = spanSpec atts e.

(** One of the attestations makes the incoming one slashable. *)
Definition conflict (atts : list (Z * Z)) (w : IndexedAttestationWrapper) : Prop :=
  ∃ a, a ∈ atts ∧ covers a.1 (sourceEpoch w) = true ∧ offends (targetEpoch w) a.2 = true.

(** The span of the source, when it offends, is the target of a conflicting
    attestation. *)
Lemma offending_record v atts w :
  recorded v atts → 0 ≤ sourceEpoch w ≤ targetEpoch w → targetEpoch w ≤ current → conflict atts w →
  ∃ x, spanSpec atts (sourceEpoch w) = targetEpoch x ∧
    AttestationRecordForValidator db v (targetEpoch x) = Ret (Some x) ∧
    (sourceEpoch x, targetEpoch x) ∈ atts ∧ covers (sourceEpoch x) (sourceEpoch w) = true ∧
    offends (targetEpoch w) (targetEpoch x) = true.
Proof using Hp Hcur.
  intros Hrec Hst Htc Hc. pose proof (H_small p Hp).
  apply spanSpec_offends in Hc; [|done..].
  destruct (spanSpec_attained atts (sourceEpoch w)) as [Hn|(a & Ha & Hcov & Heq)].
  - rewrite Hn, offends_neutral in Hc; [done|lia..].
  - destruct (Hrec a Ha) as (x & Hx & Hs & Ht). exists x. rewrite Heq in Hc. rewrite Hs, Ht.
    destruct a; done.
Qed.

Lemma apply_correct fuel v atts M w :
  chunks_ok M → spans_of M v atts → recorded v atts →
  0 ≤ sourceEpoch w ≤ targetEpoch w → targetEpoch w ≤ current → historyLength p / C < Z.of_nat fuel →
  let r := applyAttestationForValidator p fuel db M w vci v current in
  (conflict atts w →
     ∃ sl w' x, r = Ret (Some sl, w', M) ∧ AttestationRecordForValidator db v (targetEpoch x) = Ret (Some x) ∧
       (sourceEpoch x, targetEpoch x) ∈ atts ∧ covers (sourceEpoch x) (sourceEpoch w) = true ∧
       offends (targetEpoch w) (targetEpoch x) = true ∧ evidence sl x w) ∧
  (¬ conflict atts w →
     ∃ M', r = Ret (None, w, M') ∧ chunks_ok M' ∧ spans_of M' v ((sourceEpoch w, targetEpoch w) :: atts) ∧
       ∀ v' e, 0 ≤ e ≤ current → v' mod K ≠ v mod K → spanAt M' v' e = spanAt M v' e).
Proof using Hp Hcur.
  intros HM Hsp Hrec Hst Htc Hf r. unfold r, applyAttestationForValidator. clear r.
  set (s := sourceEpoch w) in *. set (t := targetEpoch w) in *. pose proof (H_small p Hp).
  rewrite chunkIndex_low by (done || lia). cbn [obind].
  destruct (HM (s / C)) as (c & Hcc & Hcp & Hcd); [apply epoch_chunk; lia|]. rewrite Hcc. cbn [obind].
  rewrite (CheckSlashable_eq p) by (done || (unfold two64; lia)). cbv zeta. fold s t.
  rewrite <- (spanAt_eq M (s / C)) by done. rewrite Hsp by lia.
  assert (offends t (spanSpec atts s) = true ↔ conflict atts w) as Hoff by (by apply spanSpec_offends). split.
  - intros Hc. destruct (offending_record v atts w) as (x & Hm & Hx & Hxa & Hcov & Hox); [done..|]. fold s in Hm, Hcov.
    rewrite (proj2 Hoff Hc). cbn [negb]. rewrite Hm, Hx. cbn [omap_err obind]. rewrite Hcov. cbn [negb].
    destruct (slashing_built "existing" "incoming" x w) as (sl & ex' & inc' & -> & -> & Hev & _).
    cbn [obind omap_err]. by exists sl, inc', x.
  - intros Hnc. rewrite <- Hoff in Hnc. apply not_true_is_false in Hnc. rewrite Hnc. cbn [negb omap_err obind].
    destruct (StartEpoch_spec p current c s t) as [[-> Hcov]|(start & -> & Hs & Hr & Hvis)]; [done..| |];
      cbn [obind].
    + exists M. split; [done|]. split; [done|]. split; [|done].
      intros e He. cbn. rewrite Hcov by done. by apply Hsp.
    + destruct (applyLoop_spec v t fuel start M) as (M' & -> & HM' & Hspan); [done|done|lia|done| | |].
      { intros x y ? ? ? _ _. rewrite !Hsp by lia. by apply spanSpec_grows. }
      { pose proof (chunksLeft_bound p current start Hp Hs ltac:(lia)). lia. }
      cbn [obind]. exists M'. split; [done|]. split; [done|]. split.
      * intros e He. rewrite Hspan, Hvis, Hsp by done. cbn.
        destruct (covers s e); [by rewrite decide_True|by rewrite decide_False by naive_solver].
      * intros v' e He Hv. rewrite Hspan by done. by rewrite decide_False by naive_solver.
Qed.
End detection.

(** ** A database without chunks *)

Lemma chunkOrLoad_fresh p {T : Type} `{Chunker T} db vci c :
  params_ok p → slasherChunksBucket db = ∅ → 0 ≤ vci → 0 ≤ c → historyLength p / chunkSize p * vci + c < two64 →
  chunkOrLoad p (T := T) db ∅ vci c = Ret (Empty p).
Proof.
  intros Hp Hdb ? ? ?. unfold chunkOrLoad. rewrite lookup_empty.
  unfold getChunkFromDatabase, loadChunksFromDisk. cbn. rewrite flatSliceID_eq by done. cbn.
  rewrite Hdb, lookup_empty. cbn. by rewrite lookup_insert_eq.
Qed.

Lemma fresh_spans p {T : Type} `{SpanLaws T} db vci current v :
  params_ok p → slasherChunksBucket db = ∅ → 0 ≤ vci < 2 ^ 40 → 0 ≤ current < historyLength p →
  chunks_ok p db vci (T := T) ∅ ∧ spans_of p db vci current (T := T) ∅ v [].
Proof.
  intros Hp Hdb Hv Hcur. pose proof (width_bounds p Hp). destruct (Empty_spec (T := T) p Hp) as (He1 & He2 & He3).
  split.
  - intros c ?. exists (Empty p). split; [|done]. apply chunkOrLoad_fresh; [done..|lia|lia|unfold two64; nia].
  - intros e He. pose proof (epoch_chunk p Hp current Hcur e He). unfold spanAt, spanSpec.
    rewrite chunkOrLoad_fresh; [|done..|lia|lia|unfold two64; nia]. by rewrite He3.
Qed.

(** ** Theorems *)

(** C37. Surrounding votes, found with min spans: with the current epoch inside
    the first history window, if a validator's min spans are those of the
    attestations applied so far and these can be read back from the database, then
    applying an attestation that surrounds one of them (earlier source, later
    target) returns a slashing built from it and a surrounded stored attestation,
    lower data root first, and leaves the chunks alone; applying any other one
    returns no slashing, makes the min spans those of the attestations with the new
    one, whatever chunks it reaches, and leaves every other validator's spans alone. *)
Theorem surrounding_vote_detected p fuel {D : Type} `{SlasherDatabase D} (db : D) vci v current M atts w :
  params_ok p → 0 ≤ current < historyLength p →
  chunks_ok p db vci (T := MinSpanChunksSlice) M → spans_of p db vci current M v atts → recorded db v atts →
  0 ≤ sourceEpoch w ≤ targetEpoch w → targetEpoch w ≤ current →
  historyLength p / chunkSize p < Z.of_nat fuel →
  let surrounds '(s, t) := sourceEpoch w < s ∧ t < targetEpoch w in
  let r := applyAttestationForValidator p fuel db M w vci v current in
  ((∃ a, a ∈ atts ∧ surrounds a) →
     ∃ sl w' x, r = Ret (Some sl, w', M) ∧ AttestationRecordForValidator db v (targetEpoch x) = Ret (Some x) ∧
       (sourceEpoch x, targetEpoch x) ∈ atts ∧ surrounds (sourceEpoch x, targetEpoch x) ∧ evidence sl x w) ∧
  (¬ (∃ a, a ∈ atts ∧ surrounds a) →
     ∃ M', r = Ret (None, w, M') ∧ chunks_ok p db vci M' ∧
       spans_of p db vci current M' v ((sourceEpoch w, targetEpoch w) :: atts) ∧
       ∀ v' e, 0 ≤ e ≤ current → v' mod validatorChunkSize p ≠ v mod validatorChunkSize p →
         spanAt p db vci M' v' e = spanAt p db vci M v' e).
Proof.
  intros Hp Hcur HM Hsp Hrec Hst Htc Hf surrounds r.
  destruct (apply_correct p Hp db vci current Hcur fuel v atts M w HM Hsp Hrec Hst Htc Hf) as [Hyes Hno].
  assert (conflict (T := MinSpanChunksSlice) atts w ↔ ∃ a, a ∈ atts ∧ surrounds a) as Hiff.
  { unfold conflict, surrounds, covers, offends. cbn [MinSpanLaws].
    split; intros ([s t] & ? & Hc); exists (s, t); revert Hc; cbn [fst snd]; rewrite ?Z.ltb_lt; tauto. }
  rewrite <- Hiff. split; [|done]. intros Hc. destruct (Hyes Hc) as (sl & w' & x & Hr & Hx & Hin & Ha & Ho & Hev).
  exists sl, w', x. cbn in Ha, Ho. apply Z.ltb_lt in Ha, Ho. by split_and!.
Qed.

(** Surrounded votes, found with max spans: the mirror image.  Applying an
    attestation that an applied one surrounds (later source, earlier target)
    returns the slashing; applying any other one extends the max spans, up to the
    current epoch, and touches no other validator. *)
Theorem surrounded_vote_detected p fuel {D : Type} `{SlasherDatabase D} (db : D) vci v current M atts w :
  params_ok p → 0 ≤ current < historyLength p →
  chunks_ok p db vci (T := MaxSpanChunksSlice) M → spans_of p db vci current M v atts → recorded db v atts →
  0 ≤ sourceEpoch w ≤ targetEpoch w → targetEpoch w ≤ current →
  historyLength p / chunkSize p < Z.of_nat fuel →
  let surrounded '(s, t) := s < sourceEpoch w ∧ targetEpoch w < t in
  let r := applyAttestationForValidator p fuel db M w vci v current in
  ((∃ a, a ∈ atts ∧ surrounded a) →
     ∃ sl w' x, r = Ret (Some sl, w', M) ∧ AttestationRecordForValidator db v (targetEpoch x) = Ret (Some x) ∧
       (sourceEpoch x, targetEpoch x) ∈ atts ∧ surrounded (sourceEpoch x, targetEpoch x) ∧ evidence sl x w) ∧
  (¬ (∃ a, a ∈ atts ∧ surrounded a) →
     ∃ M', r = Ret (None, w, M') ∧ chunks_ok p db vci M' ∧
       spans_of p db vci current M' v ((sourceEpoch w, targetEpoch w) :: atts) ∧
       ∀ v' e, 0 ≤ e ≤ current → v' mod validatorChunkSize p ≠ v mod validatorChunkSize p →
         spanAt p db vci M' v' e = spanAt p db vci M v' e).
Proof.
  intros Hp Hcur HM Hsp Hrec Hst Htc Hf surrounded r.
  destruct (apply_correct p Hp db vci current Hcur fuel v atts M w HM Hsp Hrec Hst Htc Hf) as [Hyes Hno].
  assert (conflict (T := MaxSpanChunksSlice) atts w ↔ ∃ a, a ∈ atts ∧ surrounded a) as Hiff.
  { unfold conflict, surrounded, covers, offends. cbn [MaxSpanLaws].
    split; intros ([s t] & ? & Hc); exists (s, t); revert Hc; cbn [fst snd]; rewrite ?Z.ltb_lt; tauto. }
  rewrite <- Hiff. split; [|done]. intros Hc. destruct (Hyes Hc) as (sl & w' & x & Hr & Hx & Hin & Ha & Ho & Hev).
  exists sl, w', x. cbn in Ha, Ho. apply Z.ltb_lt in Ha, Ho. by split_and!.
Qed.

(** ** Witnesses: validator 1 attests 30 to 31, then 20 to 32, and conversely *)

Definition demoAtt (v s t r : Z) : IndexedAttestationWrapper :=
  mkWrapper (IndexedAttestation [v] (mkAttestationData 0 0 0 (mkCheckpointPb s 0) (mkCheckpointPb t 0)) 0) r.

Definition demoStore (w : IndexedAttestationWrapper) : SlasherStore := saveRecord emptySlasherStore w.

Lemma demoStore_recorded v s t r :
  recorded (demoStore (demoAtt v s t r)) v [(s, t)].
Proof.
  intros a ->%list_elem_of_singleton. exists (demoAtt v s t r). split; [|done]. cbn. unfold kvAttestationRecordForValidator. cbn.
  rewrite lookup_insert_eq. by rewrite lookup_insert_eq.
Qed.

Lemma surrounding_vote_detected_witness :
  let a := demoAtt 1 30 31 5 in
  let b := demoAtt 1 20 32 6 in
  let apply M w := applyAttestationForValidator DefaultParams 300 (demoStore a) M w 0 1 40 in
  ∃ (M : gmap Z MinSpanChunksSlice) sl w', apply ∅ a = Ret (None, a, M) ∧ apply M b = Ret (Some sl, w', M).
Proof.
  pose proof DefaultParams_ok as Hp. set (a := demoAtt 1 30 31 5). set (b := demoAtt 1 20 32 6).
  destruct (fresh_spans DefaultParams (T := MinSpanChunksSlice) (demoStore a) 0 40 1) as [HM Hsp]; [done|done|cbn; lia..|].
  assert (recorded (demoStore a) 1 []) as Hrec by (intros ? ?%elem_of_nil; done).
  destruct (surrounding_vote_detected DefaultParams 300 (demoStore a) 0 1 40 ∅ [] a) as [_ Hno];
    [done|cbn; lia|done..|cbn; lia|cbn; lia|by vm_compute|].
  destruct Hno as (M & Hr & HM' & Hsp' & _); [intros (? & ?%elem_of_nil & _); done|].
  destruct (surrounding_vote_detected DefaultParams 300 (demoStore a) 0 1 40 M [(30, 31)] b) as [Hyes _];
    [done|cbn; lia|done|done|apply demoStore_recorded|cbn; lia|cbn; lia|by vm_compute|].
  destruct Hyes as (sl & w' & x & Hr' & _); [exists (30, 31); split; [by apply list_elem_of_singleton|cbn; lia]|].
  exists M, sl, w'. split; [exact Hr|exact Hr'].
Defined.

Lemma surrounded_vote_detected_witness :
  let a := demoAtt 1 20 32 5 in
  let b := demoAtt 1 30 31 6 in
  let apply M w := applyAttestationForValidator DefaultParams 300 (demoStore a) M w 0 1 40 in
  ∃ (M : gmap Z MaxSpanChunksSlice) sl w', apply ∅ a = Ret (None, a, M) ∧ apply M b = Ret (Some sl, w', M).
Proof.
  pose proof DefaultParams_ok as Hp. set (a := demoAtt 1 20 32 5). set (b := demoAtt 1 30 31 6).
  destruct (fresh_spans DefaultParams (T := MaxSpanChunksSlice) (demoStore a) 0 40 1) as [HM Hsp]; [done|done|cbn; lia..|].
  assert (recorded (demoStore a) 1 []) as Hrec by (intros ? ?%elem_of_nil; done).
  destruct (surrounded_vote_detected DefaultParams 300 (demoStore a) 0 1 40 ∅ [] a) as [_ Hno];
    [done|cbn; lia|done..|cbn; lia|cbn; lia|by vm_compute|].
  destruct Hno as (M & Hr & HM' & Hsp' & _); [intros (? & ?%elem_of_nil & _); done|].
  destruct (surrounded_vote_detected DefaultParams 300 (demoStore a) 0 1 40 M [(20, 32)] b) as [Hyes _];
    [done|cbn; lia|done|done|apply demoStore_recorded|cbn; lia|cbn; lia|by vm_compute|].
  destruct Hyes as (sl & w' & x & Hr' & _); [exists (20, 32); split; [by apply list_elem_of_singleton|cbn; lia]|].
  exists M, sl, w'. split; [exact Hr|exact Hr'].
Defined.
