(* ===== verification/SlasherWindow.v ===== *)
(** * Slasher: beyond the first history window

    [NextChunkStartEpoch] turns a chunk index, which is taken modulo the history
    length, back into an epoch without adding the windows that have passed.  This
    file shows what that does once the current epoch exceeds the history length:
    min spans are updated in one chunk only, so a surrounding vote whose source is
    further down is missed, and the loop over max span chunks never ends when the
    target is more than 2^16 epochs past the first window. *)

From S2P Require Import Prelude MathHelper Primitives SlasherChunks SlasherDetect.
From S2P Require Import SlasherDetect SlasherSpans SlasherLaws SlasherCorrect.

(** ** A missed surrounding vote *)

Definition smallParams : Parameters := NewParams 4 2 64.

(** The slashings found when attestation [b] is checked at epoch [now + 1], after
    attestation [a] was checked at epoch [now], on a new service. *)
Definition checkTwo (now : Z) (a b : IndexedAttestationWrapper) : outcome (list AttSlashing) :=
  let check epoch atts :=
    checkSlashableAttestations smallParams (λ _ m, map_to_list m) (λ _, Ret 7) 100 epoch atts in
  let s0 := mkService emptySlasherStore ∅ (<[1%nat := a]> (<[2%nat := b]> ∅)) in
  let '(r1, s1) := check now [1%nat] s0 in
  _ <-? r1 ;;
  m <-? (check (now + 1) [2%nat] s1).1 ;;
  Ret (map snd (map_to_list m)).

(** With a history of 64 epochs, a vote 20 to 32 that surrounds the vote 30
    to 31 is reported at epoch 41; the same two votes 100 epochs later, at epoch
    141, are not, although both lie well inside the 64 epochs of history the
    slasher keeps. *)
Theorem surrounding_vote_missed :
  let a n := demoAtt 1 (n + 30) (n + 31) 5 in
  let b n := demoAtt 1 (n + 20) (n + 32) 6 in
  checkTwo 40 (a 0) (b 0) = Ret [AttesterSlashing (Wrapped (a 0)) (Wrapped (b 0))] ∧
  checkTwo 140 (a 100) (b 100) = Ret [].
Proof. split; vm_compute; reflexivity. Qed.

(** ** An update that never ends *)

Section diverge.
Context (p : Parameters) (Hp : params_ok p).
Local Abbreviation C := (chunkSize p) (only parsing).
Local Abbreviation HL := (historyLength p) (only parsing).

Lemma setChunkDataAtEpoch_trunc data v e t :
  data_ok p data → 0 ≤ e ≤ t → t < two64 →
  setChunkDataAtEpoch p data v e t = Ret (<[cell p v e := wrap16 (t - e)]> data).
Proof using Hp.
  intros Hd ? ?. unfold setChunkDataAtEpoch, epochDistance. rewrite (proj2 (Z.ltb_ge _ _)) by lia.
  rewrite Epoch_Sub_small by lia. cbn. by apply setChunkRawDistance_eq.
Qed.

(** The loop runs through the chunk when no cell reaches the new target. *)
Lemma maxUpdateLoop_through base v tgt current fuel : ∀ e data,
  0 ≤ base → base mod C = 0 → base + C + 65536 ≤ two64 → base + C ≤ current → current < two64 - 1 →
  0 ≤ tgt < two64 → data_ok p data → inChunk p base e →
  (∀ x, e ≤ x → inChunk p base x → x + dist p data v x < tgt) →
  (Z.to_nat (base + C - e) + 1 ≤ fuel)%nat →
  ∃ data', maxUpdateLoop p (base mod HL / C) current v tgt fuel e data = Ret (true, data') ∧ data_ok p data'.
Proof using Hp.
  induction fuel as [|fuel IH]; intros e data Hb Hbm Hbs Hcb Hcur Htgt Hd He Hlow Hf; [lia|].
  pose proof (C_pos p Hp). pose proof He as [? ?]. pose proof (dist_bound p Hp data v e Hd).
  cbn [maxUpdateLoop]. rewrite (in_chunk_index p Hp base Hb Hbm e) by done. cbn [obind].
  rewrite Z.eqb_refl, (proj2 (Z.leb_le e current)) by lia. cbn [andb].
  rewrite chunkDataAtEpoch_eq by (done || lia). cbn [omap_err obind].
  pose proof (Hlow e ltac:(lia) He). rewrite (proj2 (Z.ltb_lt _ _)) by lia.
  rewrite setChunkDataAtEpoch_trunc by (done || lia). cbn [omap_err obind].
  rewrite wrap64_small by (unfold is_u64; lia).
  assert (data_ok p (<[cell p v e := wrap16 (tgt - e)]> data)) as Hd1.
  { apply data_ok_insert; [done|]. unfold wrap16. apply Z.mod_pos_bound. lia. }
  destruct (decide (e + 1 < base + C)) as [Hin|Hout].
  - apply IH; [done..|unfold inChunk; lia| |lia]. intros x ? Hx.
    rewrite (dist_write p Hp base v Hbm) by done. rewrite decide_False by lia. apply Hlow; [lia|done].
  - assert (e + 1 = base + C) as -> by lia. destruct fuel as [|fuel]; [lia|]. cbn [maxUpdateLoop].
    rewrite chunkIndex_eq by done. cbn [obind]. rewrite (proj2 (Z.eqb_neq _ _)) by (by apply after_chunk).
    cbn [andb]. rewrite (proj2 (Z.leb_le _ _)) by lia. eauto.
Qed.

Section loop.
Context {D : Type} `{SlasherDatabase D} (db : D) (vci v current tgt : Z).
Context (Hcur : current < two63) (Htgt : HL + C + 65536 ≤ tgt ≤ current).

(** One round: the whole chunk is rewritten and the next start epoch is a chunk
    boundary of the first window. *)
Lemma max_round base start M :
  0 ≤ base → base mod C = 0 → base + C ≤ current → inChunk p base start →
  chunks_ok p db vci M →
  (∀ t x, chunkOrLoad p db M vci (base mod HL / C) = Ret t → start ≤ x → inChunk p base x →
     x + dist p (maxData t) v x < tgt) →
  ∃ next M', 0 ≤ next ≤ HL ∧ next mod C = 0 ∧ chunks_ok p db vci M' ∧
    ∀ fuel, applyLoop p db vci v current tgt (S fuel) start M = applyLoop p db vci v current tgt fuel next M'.
Proof using Hp Hcur Htgt.
  intros Hb Hbm Hbc Hin HM Hlow. pose proof Hin as [? ?]. pose proof (C_pos p Hp). pose proof (H_small p Hp).
  pose proof (chunkIndex_bound p Hp base Hb) as Hci. destruct (HM _ Hci) as (t & Ht & Htp & Htd). cbn in Htp, Htd.
  pose proof (H_pos p Hp). assert (current < two64 - 65537) by (unfold two63, two64 in *; lia).
  destruct (maxUpdateLoop_through base v tgt current (S (Z.to_nat (current - start + 1))) start (maxData t))
    as (data' & Hloop & Hd');
    [exact Hb|exact Hbm|lia|exact Hbc|lia|lia|exact Htd|exact Hin|intros x ? ?; by apply (Hlow t)|lia|].
  exists ((base mod HL / C + 1) * C), (<[base mod HL / C := mkMaxSpan p data']> M).
  assert (0 ≤ (base mod HL / C + 1) * C ≤ HL) as Hnext.
  { split; [nia|]. transitivity (HL / C * C); [apply Z.mul_le_mono_nonneg_r; lia|].
    rewrite <- (H_width p Hp). lia. }
  split; [done|]. split; [by rewrite Z.mod_mul by lia|].
  split; [by apply chunks_ok_insert|]. intros fuel. cbn [applyLoop].
  rewrite (in_chunk_index p Hp base Hb Hbm start) by done. cbn [obind]. rewrite Ht. cbn [obind].
  cbn [Update MaxSpanChunker]. unfold maxUpdate. rewrite Htp, Hloop. cbn [obind omap_err fst snd negb].
  cbn [NextChunkStartEpoch MaxSpanChunker]. unfold maxNextChunkStartEpoch. cbn [maxParams].
  rewrite (in_chunk_index p Hp base Hb Hbm start) by done. cbn [obind]. unfold firstEpoch.
  pose proof (width_bounds p Hp).
  rewrite (wrap64_small (base mod HL / C + 1)) by (unfold is_u64, two64; lia).
  rewrite wrap64_small by (unfold is_u64, two64; lia). done.
Qed.

(** From a chunk boundary of the first window every round leads to another. *)
Lemma max_loop_diverges fuel : ∀ start M,
  0 ≤ start ≤ HL → start mod C = 0 → chunks_ok p db vci M →
  applyLoop p db vci v current tgt fuel start M = OutOfFuel (A := gmap Z MaxSpanChunksSlice).
Proof using Hp Hcur Htgt.
  induction fuel as [|fuel IH]; intros start M Hs Hm HM; [done|]. pose proof (C_pos p Hp).
  destruct (max_round start start M) as (next & M' & Hn & Hnm & HM' & ->); [lia|done|lia|split; lia|done| |by apply IH].
  intros t x Ht ? [? ?]. destruct (HM (start mod HL / C)) as (t' & Ht' & _ & Hd); [apply chunkIndex_bound; [done|lia]|].
  assert (t = t') as -> by congruence. pose proof (dist_bound p Hp (maxData t') v x Hd). lia.
Qed.
End loop.
End diverge.

(** C38. The slasher stops responding: on usable parameters, once the target of
    an attestation is more than 2^16 epochs past the history length, an attestation
    with a neutral max span whose source and current epoch are separated by a chunk
    boundary makes [applyAttestationForValidator] run for ever, whatever the
    database and the other cells hold: the loop over chunks restarts in the first
    history window, where truncated distances never reach the target. *)
Theorem max_span_update_diverges p {D : Type} `{SlasherDatabase D} (db : D) vci v current M w fuel :
  params_ok p → current < two63 → chunks_ok p db vci M →
  historyLength p + chunkSize p + 65536 ≤ targetEpoch w ≤ current →
  let start := sourceEpoch w + 1 in
  let boundary := (start / chunkSize p + 1) * chunkSize p in
  0 ≤ sourceEpoch w → boundary ≤ targetEpoch w →
  (∀ e t, sourceEpoch w ≤ e < boundary →
     chunkOrLoad p db M vci (e mod historyLength p / chunkSize p) = Ret t →
     dist p (maxData t) v e = maxNeutralElement) →
  applyAttestationForValidator p fuel db M w vci v current = OutOfFuel (A := _ * gmap Z MaxSpanChunksSlice).
Proof.
  intros Hp Hcur HM Ht start boundary Hs Hbt Hneutral.
  pose proof (C_pos p Hp). pose proof (H_pos p Hp). set (s := sourceEpoch w) in *. set (t := targetEpoch w) in *.
  assert (current < two64 - 65537) by (unfold two63, two64 in *; lia).
  destruct (baseOf_spec p Hp start) as (Hb & Hbm & Hbs & Hin); [lia|].
  pose proof Hin as [? ?]. assert (s < start) by (unfold start; lia).
  assert (boundary = baseOf p start + chunkSize p) as Hbd by (unfold boundary, baseOf; lia).
  unfold applyAttestationForValidator. fold s t. rewrite chunkIndex_eq by done. cbn [obind].
  destruct (HM _ (chunkIndex_bound p Hp s Hs)) as (c & Hc & Hcp & Hcd). rewrite Hc. cbn [obind].
  cbn [CheckSlashable MaxSpanChunker]. rewrite (maxCheckSlashable_eq p Hp) by (done || lia). fold s t. cbv zeta.
  rewrite (Hneutral s c) by (done || lia). unfold maxNeutralElement.
  rewrite (proj2 (Z.ltb_ge _ _)) by lia. cbn [negb omap_err obind].
  cbn [StartEpoch MaxSpanChunker]. unfold maxStartEpoch. rewrite (proj2 (Z.leb_gt _ _)) by lia.
  rewrite Epoch_Add_small by lia. cbn [obind]. fold start.
  destruct (max_round p Hp db vci v current t Hcur Ht (baseOf p start) start M)
    as (next & M' & Hn & Hnm & HM' & Hround); [done|done|lia|done|done| |].
  { intros c' x Hc' ? Hx. pose proof Hx as [? ?]. rewrite <- (inChunk_index p Hp (baseOf p start) x) in Hc' by done.
    rewrite (Hneutral x c') by (done || lia). unfold maxNeutralElement. lia. }
  destruct fuel as [|fuel]; [done|]. rewrite Hround. by rewrite max_loop_diverges.
Qed.

(** Validator 1 attests 99998 to 100000 with the default parameters. *)
Lemma max_span_update_diverges_witness :
  let w := demoAtt 1 99998 100000 5 in
  applyAttestationForValidator DefaultParams 1000 emptySlasherStore ∅ w 0 1 100000
    = OutOfFuel (A := _ * gmap Z MaxSpanChunksSlice).
Proof.
  destruct (fresh_spans DefaultParams (T := MaxSpanChunksSlice) emptySlasherStore 0 40 1 DefaultParams_ok)
    as [HM _]; [done|lia|cbn; lia|].
  apply (max_span_update_diverges DefaultParams emptySlasherStore 0 1 100000 ∅ (demoAtt 1 99998 100000 5));
    [exact DefaultParams_ok|vm_compute; reflexivity|exact HM|cbn; lia|cbn; lia|vm_compute; discriminate|].
  intros e t He Ht. pose proof (chunkIndex_bound DefaultParams DefaultParams_ok e ltac:(cbn in He; lia)) as Hb.
  pose proof (width_bounds DefaultParams DefaultParams_ok).
  rewrite chunkOrLoad_fresh in Ht; [|exact DefaultParams_ok|done|lia|lia|unfold two64; lia].
  injection Ht as <-. destruct (Empty_spec (T := MaxSpanChunksSlice) DefaultParams DefaultParams_ok) as (_ & _ & Hd).
  apply Hd.
Defined.
