(* ===== verification/Shuffle.v ===== *)
(** * The swap-or-not shuffle

    Models [beacon-chain/core/helpers/shuffle.go] and [SplitOffset] of
    [container/slice/slice.go].  Bytes are [Z]s; the SHA-256 hasher of
    [crypto/hash] is the parameter [hash], of which nothing is assumed.  The
    buffer that the source overwrites in place is rebuilt as the bytes it holds
    when it is hashed.  [ShuffleRoundCount] is the configuration value. *)

From S2P Require Import Prelude.

(** ** Definitions *)

Definition maxShuffleListSize : Z := Z.shiftl 1 40.

Definition SplitOffset (listSize chunks index : Z) : outcome Z :=
  if chunks =? 0 then Panic "integer divide by zero" else Ret ((listSize *w index) / chunks).

(** [l[start:end]] *)
Definition goSlice {A} (l : list A) (start fin : Z) : outcome (list A) :=
  if (start <=? fin) && (fin <=? Z.of_nat (length l))
  then Ret (take (Z.to_nat (fin - start)) (drop (Z.to_nat start) l))
  else Panic "slice bounds out of range".

Fixpoint splitLoop {A} (l : list A) (n : Z) (fuel : nat) (i : Z) (divided : list (list A)) : outcome (list (list A)) :=
  match fuel with
  | O => OutOfFuel
  | S fuel' =>
      if i <? n then
        start <-? SplitOffset (Z.of_nat (length l)) n i ;;
        fin <-? SplitOffset (Z.of_nat (length l)) n (i +w 1) ;;
        piece <-? goSlice l start fin ;;
        splitLoop l n fuel' (i +w 1) (divided ++ [piece])
      else Ret divided
  end.

Definition SplitIndices {A} (l : list A) (n : Z) : outcome (list (list A)) :=
  splitLoop l n (S (Z.to_nat n)) 0 [].

(** The four low bytes of a number, least significant first. *)
Definition le4 (x : Z) : list Z := map (λ k, Z.land (Z.shiftr x (8 * k)) 255) [0; 1; 2; 3].

(** [binary.LittleEndian.Uint64] of the first eight bytes. *)
Definition leUint64 (bytes : list Z) : Z := foldr (λ b acc, b + 256 * acc) 0 (take 8 bytes).

Section shuffle.
Context (hash : list Z → list Z) (ShuffleRoundCount : Z).
Context (seed : list Z).

(** [hashfunc(buf[:pivotViewSize])]: the seed and the round. *)
Definition pivotHash (round : Z) : list Z := hash (seed ++ [round]).
(** [hashfunc(buf)] with the position window set to [position >> 8]. *)
Definition sourceHash (round position : Z) : list Z := hash (seed ++ [round] ++ le4 (Z.shiftr position 8)).
(** [source[(position & 0xff) >> 3]] *)
Definition sourceByte (source : list Z) (position : Z) : Z :=
  default 0 (source !! Z.to_nat (Z.shiftr (Z.land position 255) 3)).
(** [(byteV >> (position & 0x7)) & 0x1] *)
Definition bitOf (byteV position : Z) : Z := Z.land (Z.shiftr byteV (Z.land position 7)) 1.

(** One iteration of the loop of [ComputeShuffledIndex]. *)
Definition shuffleRound (indexCount round index : Z) : Z :=
  let pivot := leUint64 (pivotHash round) mod indexCount in
  let flip := wrap64 (pivot + indexCount - index) mod indexCount in
  let position := if index <? flip then flip else index in
  let source := sourceHash round position in
  let byteV := sourceByte source position in
  let bitV := bitOf byteV position in
  if bitV =? 1 then flip else index.

(** The rounds are [uint8]s: 256 iterations at most. *)
Fixpoint indexLoop (indexCount rounds : Z) (shuffle : bool) (fuel : nat) (round index : Z) : outcome Z :=
  match fuel with
  | O => OutOfFuel
  | S fuel' =>
      let index := shuffleRound indexCount round index in
      if shuffle then
        let round := (round + 1) mod 256 in
        if round =? rounds then Ret index
        else indexLoop indexCount rounds shuffle fuel' round index
      else
        if round =? 0 then Ret index
        else indexLoop indexCount rounds shuffle fuel' ((round - 1) mod 256) index
  end.

Definition errIndexBounds : error := "input index out of bounds".
Definition errListBounds : error := "list size out of bounds".

Definition ComputeShuffledIndex (index indexCount : Z) (shuffle : bool) : outcome Z :=
  if ShuffleRoundCount =? 0 then Ret index
  else if indexCount <=? index then Err errIndexBounds
  else if maxShuffleListSize <? indexCount then Err errListBounds
  else
    let rounds := ShuffleRoundCount mod 256 in
    let round := if shuffle then 0 else (rounds - 1) mod 256 in
    indexLoop indexCount rounds shuffle 256 round index.

Definition ShuffledIndex (index indexCount : Z) : outcome Z := ComputeShuffledIndex index indexCount true.
Definition UnShuffledIndex (index indexCount : Z) : outcome Z := ComputeShuffledIndex index indexCount false.

Section lists.
Context {A : Type}.

(** [input[i], input[j] = input[j], input[i]] *)
Definition swap (input : list A) (i j : nat) : outcome (list A) :=
  match input !! i, input !! j with
  | Some x, Some y => Ret (<[j := x]> (<[i := y]> input))
  | _, _ => Panic "index out of range"
  end.

Definition swapOrNot (round byteV i : Z) (input : list A) (j : Z) (source : list Z)
    : outcome (Z * list Z * list A) :=
  let source := if Z.land j 255 =? 255 then sourceHash round j else source in
  let byteV := if Z.land j 7 =? 7 then sourceByte source j else byteV in
  let bitV := bitOf byteV j in
  input <-? (if bitV =? 1 then swap input (Z.to_nat i) (Z.to_nat j) else Ret input) ;;
  Ret (byteV, source, input).

(** [for i, j := ...; i < mirror; i, j = i+1, j-1] *)
Fixpoint mirrorLoop (round mirror : Z) (fuel : nat) (i j byteV : Z) (source : list Z) (input : list A)
    : outcome (list A) :=
  match fuel with
  | O => OutOfFuel
  | S fuel' =>
      if i <? mirror then
        r <-? swapOrNot round byteV i input j source ;;
        let '(byteV, source, input) := r in
        mirrorLoop round mirror fuel' (i +w 1) (j -w 1) byteV source input
      else Ret input
  end.

(** The two mirrored halves of one round. *)
Definition listRound (listSize r : Z) (input : list A) : outcome (list A) :=
  let pivot := leUint64 (pivotHash r) mod listSize in
  let mirror := Z.shiftr (pivot +w 1) 1 in
  let source := sourceHash r pivot in
  let byteV := sourceByte source pivot in
  input <-? mirrorLoop r mirror (S (Z.to_nat mirror)) 0 pivot byteV source input ;;
  let mirror := Z.shiftr (wrap64 (pivot + listSize + 1)) 1 in
  let fin := listSize -w 1 in
  let source := sourceHash r fin in
  let byteV := sourceByte source fin in
  mirrorLoop r mirror (S (Z.to_nat (mirror - (pivot + 1)))) (pivot +w 1) fin byteV source input.

Fixpoint listLoop (listSize rounds : Z) (shuffle : bool) (fuel : nat) (r : Z) (input : list A) : outcome (list A) :=
  match fuel with
  | O => OutOfFuel
  | S fuel' =>
      input <-? listRound listSize r input ;;
      if shuffle then
        let r := (r + 1) mod 256 in
        if r =? rounds then Ret input else listLoop listSize rounds shuffle fuel' r input
      else
        if r =? 0 then Ret input else listLoop listSize rounds shuffle fuel' ((r - 1) mod 256) input
  end.

Definition innerShuffleList (input : list A) (shuffle : bool) : outcome (list A) :=
  if Z.of_nat (length input) <=? 1 then Ret input
  else if maxShuffleListSize <? Z.of_nat (length input) then Err errListBounds
  else
    let rounds := ShuffleRoundCount mod 256 in
    if rounds =? 0 then Ret input else
    let r := if shuffle then 0 else (rounds - 1) mod 256 in
    listLoop (Z.of_nat (length input)) rounds shuffle 256 r input.

Definition ShuffleList (input : list A) : outcome (list A) := innerShuffleList input true.
Definition UnshuffleList (input : list A) : outcome (list A) := innerShuffleList input false.
End lists.
End shuffle.
