(* ===== verification/ShuffleCorrect.v ===== *)
(** * The list shuffle agrees with the index shuffle

    [ShuffleList] hashes once for 256 positions, walks each round's two mirrored
    halves and swaps in place; the specification's [ComputeShuffledIndex] follows
    one index through the rounds.  This file proves that they describe the same
    permutation, that the two directions are inverse to each other and that a
    shuffle loses and duplicates nothing. *)

From S2P Require Import Prelude Shuffle.

Section correct.
Context (hash : list Z → list Z) (seed : list Z).
Local Abbreviation sourceHash := (Shuffle.sourceHash hash seed).
Local Abbreviation pivotHash := (Shuffle.pivotHash hash seed).
Local Abbreviation shuffleRound := (Shuffle.shuffleRound hash seed).

(** The random bit of a position in a round. *)
Definition bitAt (r pos : Z) : bool := bitOf (sourceByte (sourceHash r pos) pos) pos =? 1.

Definition flipOf (n r x : Z) : Z := (leUint64 (pivotHash r) mod n + n - x) mod n.

Lemma maxShuffleListSize_eq : maxShuffleListSize = 2 ^ 40.
Proof. done. Qed.

(** ** One round on an index *)

Section round.
Context (n : Z) (Hn : 0 < n ≤ maxShuffleListSize).

Lemma flipOf_range r x : 0 ≤ flipOf n r x < n.
Proof using Hn. apply Z.mod_pos_bound. lia. Qed.

Lemma flipOf_cases r x :
  0 ≤ x < n →
  let pivot := leUint64 (pivotHash r) mod n in
  flipOf n r x = if x <=? pivot then pivot - x else pivot + n - x.
Proof using Hn.
  intros ? pivot. unfold flipOf. fold pivot. pose proof (Z.mod_pos_bound (leUint64 (pivotHash r)) n).
  destruct (Z.leb_spec x pivot).
  - symmetry. apply Z.mod_unique_pos with 1; lia.
  - apply Z.mod_small. lia.
Qed.

Lemma flipOf_involutive r x : 0 ≤ x < n → flipOf n r (flipOf n r x) = x.
Proof using Hn.
  intros ?. rewrite (flipOf_cases r (flipOf n r x)) by apply flipOf_range. rewrite flipOf_cases by done.
  pose proof (Z.mod_pos_bound (leUint64 (pivotHash r)) n).
  destruct (Z.leb_spec x (leUint64 (pivotHash r) mod n)); case_if; lia.
Qed.

Lemma shuffleRound_eq r x :
  0 ≤ x < n →
  shuffleRound n r x = if bitAt r (Z.max x (flipOf n r x)) then flipOf n r x else x.
Proof using Hn.
  intros ?. unfold Shuffle.shuffleRound. pose proof (Z.mod_pos_bound (leUint64 (pivotHash r)) n).
  rewrite maxShuffleListSize_eq in Hn. rewrite wrap64_small by (unfold is_u64, two64; lia).
  fold (flipOf n r x). unfold bitAt. destruct (Z.ltb_spec x (flipOf n r x)).
  - by rewrite Z.max_r by lia.
  - by rewrite Z.max_l by lia.
Qed.

Lemma shuffleRound_range r x : 0 ≤ x < n → 0 ≤ shuffleRound n r x < n.
Proof using Hn. intros ?. rewrite shuffleRound_eq by done. case_if; [apply flipOf_range|done]. Qed.

Lemma shuffleRound_involutive r x : 0 ≤ x < n → shuffleRound n r (shuffleRound n r x) = x.
Proof using Hn.
  intros Hx. pose proof (flipOf_range r x). rewrite (shuffleRound_eq r x) by done.
  destruct (bitAt r (Z.max x (flipOf n r x))) eqn:Hb; rewrite shuffleRound_eq by done.
  - rewrite flipOf_involutive by done. by rewrite Z.max_comm, Hb.
  - by rewrite Hb.
Qed.

(** ** Rounds in sequence *)

Definition rounds_fwd (rs : list Z) (x : Z) : Z := foldl (λ x r, shuffleRound n r x) x rs.

Lemma rounds_fwd_range rs x : 0 ≤ x < n → 0 ≤ rounds_fwd rs x < n.
Proof using Hn. revert x. induction rs as [|r rs IH]; intros x ?; cbn; [done|]. by apply IH, shuffleRound_range. Qed.

Lemma rounds_fwd_app rs rs' x : rounds_fwd (rs ++ rs') x = rounds_fwd rs' (rounds_fwd rs x).
Proof using Type. apply foldl_app. Qed.

(** Running the rounds backwards undoes them. *)
Lemma rounds_inverse rs x : 0 ≤ x < n → rounds_fwd (reverse rs) (rounds_fwd rs x) = x.
Proof using Hn.
  revert x. induction rs as [|r rs IH]; intros x ?; [done|].
  rewrite reverse_cons, rounds_fwd_app. cbn [rounds_fwd foldl]. fold (rounds_fwd rs (shuffleRound n r x)).
  rewrite IH by (by apply shuffleRound_range). by apply shuffleRound_involutive.
Qed.
End round.

(** ** The cached hash and byte of [swapOrNot] *)

(** The state before position [j]: what is not refreshed at [j] is right. *)
Definition cached (r j byteV : Z) (source : list Z) : Prop :=
  (Z.land j 255 = 255 ∨ source = sourceHash r j) ∧
  (Z.land j 7 = 7 ∨ byteV = sourceByte (sourceHash r j) j).

Lemma land255 j : Z.land j 255 = j mod 256.
Proof. change 255 with (Z.ones 8). by rewrite Z.land_ones. Qed.

Lemma land7 j : Z.land j 7 = j mod 8.
Proof. change 7 with (Z.ones 3). by rewrite Z.land_ones. Qed.

Lemma same_source r j j' : j / 256 = j' / 256 → sourceHash r j = sourceHash r j'.
Proof.
  intros Heq. unfold Shuffle.sourceHash. rewrite !Z.shiftr_div_pow2 by lia.
  change (2 ^ 8) with 256. by rewrite Heq.
Qed.

Lemma same_byte source j j' : j mod 256 / 8 = j' mod 256 / 8 → sourceByte source j = sourceByte source j'.
Proof.
  intros Heq. unfold sourceByte. rewrite !land255, !Z.shiftr_div_pow2 by lia.
  change (2 ^ 3) with 8. by rewrite Heq.
Qed.

Lemma swapOrNot_eq {A} r byteV i (input : list A) j source :
  cached r j byteV source →
  swapOrNot hash seed r byteV i input j source =
    (input <-? (if bitAt r j then swap input (Z.to_nat i) (Z.to_nat j) else Ret input) ;;
     Ret (sourceByte (sourceHash r j) j, sourceHash r j, input)).
Proof.
  intros [Hs Hb]. unfold swapOrNot, bitAt.
  assert ((if Z.land j 255 =? 255 then sourceHash r j else source) = sourceHash r j) as ->.
  { case_if; [done|]. by destruct Hs. }
  assert ((if Z.land j 7 =? 7 then sourceByte (sourceHash r j) j else byteV) = sourceByte (sourceHash r j) j) as ->.
  { case_if; [done|]. by destruct Hb. }
  done.
Qed.

Lemma cached_next r j : 0 < j → cached r (j - 1) (sourceByte (sourceHash r j) j) (sourceHash r j).
Proof.
  intros ?. split.
  - destruct (decide (Z.land (j - 1) 255 = 255)) as [|Hne]; [by left|right].
    rewrite land255 in Hne. apply same_source. Z.div_mod_to_equations. lia.
  - destruct (decide (Z.land (j - 1) 7 = 7)) as [|Hne]; [by left|right].
    rewrite land7 in Hne. rewrite (same_source r j (j - 1)) by (Z.div_mod_to_equations; lia).
    apply same_byte. Z.div_mod_to_equations. lia.
Qed.

Lemma cached_start r j : cached r j (sourceByte (sourceHash r j) j) (sourceHash r j).
Proof. split; by right. Qed.

(** ** Lists *)

Section lists.
Context {A : Type}.
Implicit Types L : list A.

Local Notation "L @ x" := (L !! Z.to_nat x) (at level 19).

Lemma swap_spec L i j :
  0 ≤ i < Z.of_nat (length L) → 0 ≤ j < Z.of_nat (length L) → i ≠ j →
  ∃ L', swap L (Z.to_nat i) (Z.to_nat j) = Ret L' ∧ length L' = length L ∧
    ∀ x, 0 ≤ x → L' @ x = L @ (if decide (x = i) then j else if decide (x = j) then i else x).
Proof using Type.
  intros Hi Hj Hne. unfold swap.
  destruct (lookup_lt_is_Some_2 L (Z.to_nat i)) as [a Ha]; [lia|].
  destruct (lookup_lt_is_Some_2 L (Z.to_nat j)) as [b Hb]; [lia|].
  rewrite Ha, Hb. eexists. split; [done|]. split; [by rewrite !length_insert|]. intros x Hx.
  case_decide as Hxi; [|case_decide as Hxj]; subst.
  - rewrite list_lookup_insert_ne, list_lookup_insert_eq by lia. done.
  - rewrite list_lookup_insert_eq by (rewrite length_insert; lia). done.
  - by rewrite !list_lookup_insert_ne by lia.
Qed.

(** The loop that walks the pairs [(x, s - x)] inwards from [(i, s - i)]. *)
Lemma mirrorLoop_spec r s fuel : ∀ i byteV source L,
  0 ≤ i → s - i < Z.of_nat (length L) → Z.of_nat (length L) ≤ maxShuffleListSize → s < 2 ^ 42 →
  i ≤ s + 1 - i → (i ≤ s - i → cached r (s - i) byteV source) →
  Z.shiftr (s + 1) 1 - i < Z.of_nat fuel →
  ∃ L', mirrorLoop hash seed r (Z.shiftr (s + 1) 1) fuel i (wrap64 (s - i)) byteV source L = Ret L' ∧
    length L' = length L ∧
    ∀ x, 0 ≤ x →
      L' @ x = L @ (if decide (i ≤ x ≤ s - i ∧ bitAt r (Z.max x (s - x)) = true) then s - x else x).
Proof using Type.
  rewrite maxShuffleListSize_eq. rewrite Z.shiftr_div_pow2 by lia. change (2 ^ 1) with 2.
  induction fuel as [|fuel IH]; intros i byteV source L Hi Hj Hn Hs Hm Hc Hf; [Z.div_mod_to_equations; lia|].
  cbn [mirrorLoop]. destruct (Z.ltb_spec i ((s + 1) / 2)) as [Hlt|Hge]; cycle 1.
  { exists L. split; [done|]. split; [done|]. intros x Hx. case_decide as Hd; [|done].
    f_equal. Z.div_mod_to_equations. lia. }
  assert (i < s - i) as Hij by (Z.div_mod_to_equations; lia).
  rewrite (wrap64_small (s - i)) by (unfold is_u64, two64; lia).
  rewrite swapOrNot_eq by (apply Hc; lia).
  rewrite wrap64_small by (unfold is_u64, two64; lia).
  assert (∃ L1, (if bitAt r (s - i) then swap L (Z.to_nat i) (Z.to_nat (s - i)) else Ret L) = Ret L1 ∧
    length L1 = length L ∧
    ∀ x, 0 ≤ x → L1 @ x = L @ (if decide ((x = i ∨ x = s - i) ∧ bitAt r (s - i) = true) then s - x else x))
    as (L1 & -> & Hlen & HL1).
  { destruct (bitAt r (s - i)).
    - destruct (swap_spec L i (s - i)) as (L1 & -> & Hlen & HL1); [lia..|]. exists L1. split; [done|].
      split; [done|]. intros x Hx. rewrite HL1 by done. f_equal. f_equal. repeat case_decide; naive_solver lia.
    - exists L. split; [done|]. split; [done|]. intros x Hx. rewrite decide_False; [done|naive_solver]. }
  cbn [obind].
  destruct (IH (i + 1) (sourceByte (sourceHash r (s - i)) (s - i)) (sourceHash r (s - i)) L1)
    as (L' & HL' & Hlen' & Hat); [lia..| |lia|].
  { intros _. replace (s - (i + 1)) with (s - i - 1) by lia. apply cached_next. lia. }
  replace (wrap64 (s - i - 1)) with (wrap64 (s - (i + 1))) by (f_equal; lia).
  exists L'. split; [done|]. split; [congruence|]. intros x Hx. rewrite Hat by done.
  destruct (decide (i + 1 ≤ x ≤ s - (i + 1) ∧ bitAt r (Z.max x (s - x)) = true)) as [Hd|Hd].
  - destruct Hd as [? Hb]. rewrite HL1 by lia.
    rewrite decide_False by (intros [? _]; lia). by rewrite decide_True by (split; [lia|done]).
  - rewrite HL1 by done. f_equal. f_equal. apply decide_ext.
    assert (x = i ∨ x = s - i → Z.max x (s - x) = s - i) as Hmax by lia. split; intros [Hx' Hb].
    + split; [lia|]. by rewrite Hmax.
    + assert (x = i ∨ x = s - i) as Hor.
      { destruct (decide (i + 1 ≤ x ≤ s - (i + 1))); [exfalso; tauto|lia]. }
      split; [done|]. by rewrite <- Hmax.
Qed.

(** One round moves to position [x] the entry of the position that the index
    shuffle sends [x] to. *)
Lemma listRound_spec n r L :
  Z.of_nat (length L) = n → 0 < n ≤ maxShuffleListSize →
  ∃ L', listRound hash seed n r L = Ret L' ∧ length L' = length L ∧
    ∀ x, 0 ≤ x < n → L' @ x = L @ (shuffleRound n r x).
Proof using Type.
  intros Hlen Hn. pose proof Hn as Hn'. rewrite maxShuffleListSize_eq in Hn'. unfold listRound.
  pose proof (Z.mod_pos_bound (leUint64 (pivotHash r)) n ltac:(lia)) as Hp.
  set (pivot := leUint64 (pivotHash r) mod n) in *.
  rewrite (wrap64_small (pivot + 1)), (wrap64_small (pivot + n + 1)) by (unfold is_u64, two64; lia).
  assert (∀ z, 0 ≤ z → 0 ≤ Z.shiftr z 1) as Hsh by (intros; by apply Z.shiftr_nonneg).
  pose proof (Hsh (pivot + 1)). pose proof (Hsh (pivot + n + 1)).
  destruct (mirrorLoop_spec r pivot (S (Z.to_nat (Z.shiftr (pivot + 1) 1))) 0
    (sourceByte (sourceHash r pivot) pivot) (sourceHash r pivot) L) as (L1 & HL1 & Hlen1 & Hat1); [lia..| |lia|].
  { intros _. rewrite Z.sub_0_r. apply cached_start. }
  rewrite Z.sub_0_r, (wrap64_small pivot) in HL1 by (unfold is_u64, two64; lia). rewrite HL1. cbn [obind].
  rewrite (wrap64_small (n - 1)) by (unfold is_u64, two64; lia).
  destruct (mirrorLoop_spec r (pivot + n) (S (Z.to_nat (Z.shiftr (pivot + n + 1) 1 - (pivot + 1)))) (pivot + 1)
    (sourceByte (sourceHash r (n - 1)) (n - 1)) (sourceHash r (n - 1)) L1) as (L2 & HL2 & Hlen2 & Hat2); [lia..| |lia|].
  { intros _. replace (pivot + n - (pivot + 1)) with (n - 1) by lia. apply cached_start. }
  replace (pivot + n - (pivot + 1)) with (n - 1) in HL2 by lia.
  rewrite (wrap64_small (n - 1)) in HL2 by (unfold is_u64, two64; lia). rewrite HL2.
  exists L2. split; [done|]. split; [congruence|]. intros x Hx. rewrite Hat2 by lia.
  rewrite (shuffleRound_eq n Hn) by done. rewrite (flipOf_cases n Hn) by done. fold pivot.
  destruct (Z.leb_spec x pivot).
  - rewrite decide_False by lia. rewrite Hat1 by lia. f_equal. f_equal.
    destruct (bitAt r (Z.max x (pivot - x))); [by rewrite decide_True by lia|by rewrite decide_False by naive_solver].
  - destruct (bitAt r (Z.max x (pivot + n - x))).
    + rewrite decide_True by lia. rewrite Hat1 by lia. by rewrite decide_False by lia.
    + rewrite decide_False by naive_solver. rewrite Hat1 by lia. by rewrite decide_False by lia.
Qed.

(** ** The loops over rounds *)

Lemma seqZ_cons' a k : 0 < k → seqZ a k = a :: seqZ (a + 1) (k - 1).
Proof using Type. intros ?. rewrite seqZ_cons by lia. f_equal. Qed.

Lemma indexLoop_up n rounds fuel : ∀ r x,
  0 ≤ r < rounds → rounds < 256 → rounds - r ≤ Z.of_nat fuel →
  indexLoop hash seed n rounds true fuel r x = Ret (rounds_fwd n (seqZ r (rounds - r)) x).
Proof using Type.
  induction fuel as [|fuel IH]; intros r x Hr ? ?; [lia|]. cbn [indexLoop].
  rewrite seqZ_cons' by lia. rewrite (Z.mod_small (r + 1)) by lia.
  destruct (Z.eqb_spec (r + 1) rounds) as [Heq|Hne].
  - by replace (rounds - r - 1) with 0 by lia.
  - rewrite IH by lia. by replace (rounds - (r + 1)) with (rounds - r - 1) by lia.
Qed.

Lemma indexLoop_down n rounds fuel : ∀ r x,
  0 ≤ r < 256 → r + 1 ≤ Z.of_nat fuel →
  indexLoop hash seed n rounds false fuel r x = Ret (rounds_fwd n (reverse (seqZ 0 (r + 1))) x).
Proof using Type.
  induction fuel as [|fuel IH]; intros r x Hr ?; [lia|]. cbn [indexLoop].
  rewrite (seqZ_app 0 r 1), reverse_app by lia. rewrite rounds_fwd_app.
  rewrite Z.add_0_l, (seqZ_cons' r 1) by lia. cbn [reverse rev_append rounds_fwd foldl].
  destruct (Z.eqb_spec r 0) as [->|Hne]; [done|].
  rewrite Z.mod_small by lia. rewrite IH by lia. by replace (r - 1 + 1) with r by lia.
Qed.

(** The entries after the rounds [rs], one after the other. *)
Definition moved (n : Z) (rs : list Z) L L' : Prop :=
  length L' = length L ∧ ∀ x, 0 ≤ x < n → L' @ x = L @ (rounds_fwd n (reverse rs) x).

Lemma moved_cons n r rs L L1 L2 :
  0 < n ≤ maxShuffleListSize →
  length L1 = length L → (∀ x, 0 ≤ x < n → L1 @ x = L @ (shuffleRound n r x)) →
  moved n rs L1 L2 → moved n (r :: rs) L L2.
Proof using Type.
  intros Hn Hlen1 H1 [Hlen2 H2]. split; [congruence|]. intros x Hx.
  rewrite H2 by done. rewrite H1 by (by apply rounds_fwd_range).
  by rewrite reverse_cons, rounds_fwd_app.
Qed.

Lemma moved_nil n L : moved n [] L L.
Proof using Type. done. Qed.

Lemma listLoop_up n rounds fuel : ∀ r L,
  Z.of_nat (length L) = n → 0 < n ≤ maxShuffleListSize →
  0 ≤ r < rounds → rounds < 256 → rounds - r ≤ Z.of_nat fuel →
  ∃ L', listLoop hash seed n rounds true fuel r L = Ret L' ∧ moved n (seqZ r (rounds - r)) L L'.
Proof using Type.
  induction fuel as [|fuel IH]; intros r L Hlen Hn Hr ? ?; [lia|]. cbn [listLoop].
  destruct (listRound_spec n r L Hlen Hn) as (L1 & -> & Hlen1 & Hat). cbn [obind].
  rewrite seqZ_cons', (Z.mod_small (r + 1)) by lia. destruct (Z.eqb_spec (r + 1) rounds) as [Heq|Hne].
  - exists L1. split; [done|]. replace (rounds - r - 1) with 0 by lia. by apply (moved_cons n r [] L L1 L1).
  - destruct (IH (r + 1) L1) as (L' & -> & Hm); [lia..|]. exists L'. split; [done|].
    replace (rounds - r - 1) with (rounds - (r + 1)) by lia. by apply (moved_cons n r _ L L1 L').
Qed.

Lemma listLoop_down n rounds fuel : ∀ r L,
  Z.of_nat (length L) = n → 0 < n ≤ maxShuffleListSize →
  0 ≤ r < 256 → r + 1 ≤ Z.of_nat fuel →
  ∃ L', listLoop hash seed n rounds false fuel r L = Ret L' ∧ moved n (reverse (seqZ 0 (r + 1))) L L'.
Proof using Type.
  induction fuel as [|fuel IH]; intros r L Hlen Hn Hr ?; [lia|]. cbn [listLoop].
  destruct (listRound_spec n r L Hlen Hn) as (L1 & -> & Hlen1 & Hat). cbn [obind].
  rewrite (seqZ_app 0 r 1), reverse_app by lia. rewrite Z.add_0_l, (seqZ_cons' r 1) by lia.
  change (reverse (r :: seqZ (r + 1) (1 - 1)) ++ reverse (seqZ 0 r)) with (r :: reverse (seqZ 0 r)).
  destruct (Z.eqb_spec r 0) as [->|Hne].
  - exists L1. split; [done|]. by apply (moved_cons n 0 [] L L1 L1).
  - rewrite Z.mod_small by lia. destruct (IH (r - 1) L1) as (L' & -> & Hm); [lia..|]. exists L'. split; [done|].
    replace (r - 1 + 1) with r in Hm by lia. by apply (moved_cons n r _ L L1 L').
Qed.
End lists.

(** Rounds in the opposite order undo a shuffle. *)
Lemma moved_inverse {A} n rs (L L1 L2 : list A) :
  Z.of_nat (length L) = n → n ≤ maxShuffleListSize →
  moved n rs L L1 → moved n (reverse rs) L1 L2 → L2 = L.
Proof using Type.
  intros Hlen Hn [Hl1 H1] [Hl2 H2]. apply list_eq_same_length with (length L); [done|congruence|].
  intros i x y Hi Hx Hy. assert (0 ≤ Z.of_nat i < n) as Hin by lia.
  specialize (H2 (Z.of_nat i) Hin). rewrite Nat2Z.id, Hx, reverse_involutive, H1 in H2 by (apply rounds_fwd_range; lia).
  rewrite rounds_inverse in H2 by lia. rewrite Nat2Z.id, Hy in H2. congruence.
Qed.

(** A shuffled list is a permutation. *)
Lemma moved_perm {A} n rs (L L' : list A) :
  Z.of_nat (length L) = n → n ≤ maxShuffleListSize → moved n rs L L' → L' ≡ₚ L.
Proof using Type.
  intros Hlen Hn [Hl Hat]. apply Permutation_inj. split; [done|].
  set (g := rounds_fwd n (reverse rs)). set (f := λ i : nat, if decide (Z.of_nat i < n) then Z.to_nat (g (Z.of_nat i)) else i).
  assert (∀ i, Z.of_nat i < n → 0 ≤ g (Z.of_nat i) < n) as Hg by (intros; apply rounds_fwd_range; lia).
  exists f. split.
  - intros i j. unfold f. destruct (decide (Z.of_nat i < n)) as [Hi|Hi], (decide (Z.of_nat j < n)) as [Hj|Hj];
      intros Heq.
    + assert (g (Z.of_nat i) = g (Z.of_nat j)) as Heq'.
      { pose proof (Hg i Hi). pose proof (Hg j Hj). lia. }
      pose proof (rounds_inverse n ltac:(lia) (reverse rs) (Z.of_nat i) ltac:(lia)) as Hri.
      pose proof (rounds_inverse n ltac:(lia) (reverse rs) (Z.of_nat j) ltac:(lia)) as Hrj.
      fold g in Hri, Hrj. rewrite Heq' in Hri. lia.
    + pose proof (Hg i Hi). lia.
    + pose proof (Hg j Hj). lia.
    + done.
  - intros i. unfold f. case_decide as Hd; [|rewrite !lookup_ge_None_2 by lia; done].
    specialize (Hat (Z.of_nat i)). rewrite Nat2Z.id in Hat. apply Hat. lia.
Qed.

(** ** Both shuffles as one permutation *)

Context (ShuffleRoundCount : Z) (Hrounds : 0 < ShuffleRoundCount < 256).
Local Abbreviation allRounds := (seqZ 0 ShuffleRoundCount).

Lemma ShuffledIndex_eq i n :
  0 ≤ i < n → n ≤ maxShuffleListSize →
  ShuffledIndex hash ShuffleRoundCount seed i n = Ret (rounds_fwd n allRounds i).
Proof using Hrounds.
  intros ? ?. unfold ShuffledIndex, ComputeShuffledIndex.
  rewrite (proj2 (Z.eqb_neq _ _)), (proj2 (Z.leb_gt _ _)), (proj2 (Z.ltb_ge _ _)), Z.mod_small by lia.
  rewrite indexLoop_up by lia. by rewrite Z.sub_0_r.
Qed.

Lemma UnShuffledIndex_eq i n :
  0 ≤ i < n → n ≤ maxShuffleListSize →
  UnShuffledIndex hash ShuffleRoundCount seed i n = Ret (rounds_fwd n (reverse allRounds) i).
Proof using Hrounds.
  intros ? ?. unfold UnShuffledIndex, ComputeShuffledIndex.
  rewrite (proj2 (Z.eqb_neq _ _)), (proj2 (Z.leb_gt _ _)), (proj2 (Z.ltb_ge _ _)) by lia.
  rewrite (Z.mod_small ShuffleRoundCount), Z.mod_small by lia.
  rewrite indexLoop_down by lia. by replace (ShuffleRoundCount - 1 + 1) with ShuffleRoundCount by lia.
Qed.

Lemma rounds_fwd_one rs i : 0 ≤ i < 1 → rounds_fwd 1 rs i = i.
Proof using Type. intros ?. pose proof (rounds_fwd_range 1 ltac:(done) rs i ltac:(lia)). lia. Qed.

(** The direction of the list shuffle. *)
Definition listRounds (shuffle : bool) : list Z := if shuffle then allRounds else reverse allRounds.

Lemma innerShuffleList_eq {A} (L : list A) shuffle :
  Z.of_nat (length L) ≤ maxShuffleListSize →
  ∃ L', innerShuffleList hash ShuffleRoundCount seed L shuffle = Ret L' ∧
    moved (Z.of_nat (length L)) (listRounds shuffle) L L'.
Proof using Hrounds.
  intros Hmax. unfold innerShuffleList, listRounds. destruct (Z.leb_spec (Z.of_nat (length L)) 1) as [Hle|Hgt].
  - exists L. split; [done|]. split; [done|]. intros x Hx.
    assert (Z.of_nat (length L) = 1) as Hl by lia. rewrite Hl in Hx |- *. by rewrite rounds_fwd_one.
  - rewrite (proj2 (Z.ltb_ge _ _)), (Z.mod_small ShuffleRoundCount), (proj2 (Z.eqb_neq _ _)) by lia.
    destruct shuffle.
    + destruct (listLoop_up (Z.of_nat (length L)) ShuffleRoundCount 256 0 L) as (L' & HL' & Hm); [lia..|].
      rewrite Z.sub_0_r in Hm. eauto.
    + rewrite Z.mod_small by lia.
      destruct (listLoop_down (Z.of_nat (length L)) ShuffleRoundCount 256 (ShuffleRoundCount - 1) L)
        as (L' & HL' & Hm); [lia..|]. rewrite Z.sub_add in Hm. eauto.
Qed.
End correct.

(** ** Theorems *)

(** C34. The optimised list shuffle computes the specification's permutation:
    for any hash function, any seed and any list of at most 2^40 entries,
    [UnshuffleList] returns, at each position, the entry whose position
    [ShuffledIndex] computes for it, and [ShuffleList] the one that
    [UnShuffledIndex] computes; none of the calls fails. *)
Theorem list_shuffle_is_index_shuffle {A} hash rounds seed (input : list A) :
  0 < rounds < 256 → Z.of_nat (length input) ≤ maxShuffleListSize →
  let n := Z.of_nat (length input) in
  ∃ unshuffled shuffled,
    UnshuffleList hash rounds seed input = Ret unshuffled ∧ length unshuffled = length input ∧
    ShuffleList hash rounds seed input = Ret shuffled ∧ length shuffled = length input ∧
    ∀ i, 0 ≤ i < n →
      (∃ k, ShuffledIndex hash rounds seed i n = Ret k ∧ 0 ≤ k < n ∧
        unshuffled !! Z.to_nat i = input !! Z.to_nat k) ∧
      (∃ k, UnShuffledIndex hash rounds seed i n = Ret k ∧ 0 ≤ k < n ∧
        shuffled !! Z.to_nat i = input !! Z.to_nat k).
Proof.
  intros Hr Hmax n.
  destruct (innerShuffleList_eq hash seed rounds Hr input false Hmax) as (U & HU & HlU & HatU).
  destruct (innerShuffleList_eq hash seed rounds Hr input true Hmax) as (S & HS & HlS & HatS).
  exists U, S. do 4 (split; [done|]). fold n in HatU, HatS. intros i Hi. split.
  - rewrite ShuffledIndex_eq by done. eexists. split; [done|].
    split; [by apply rounds_fwd_range; [lia|]|]. rewrite HatU by done. unfold listRounds.
    by rewrite reverse_involutive.
  - rewrite UnShuffledIndex_eq by done. eexists. split; [done|].
    split; [by apply rounds_fwd_range; [lia|]|]. by apply HatS.
Qed.

(** Shuffling an index and unshuffling it are inverse to each other and stay
    inside the list, whatever the hash function. *)
Theorem shuffled_index_roundtrip hash rounds seed i n :
  0 < rounds < 256 → 0 ≤ i < n → n ≤ maxShuffleListSize →
  (∃ k, ShuffledIndex hash rounds seed i n = Ret k ∧ 0 ≤ k < n ∧ UnShuffledIndex hash rounds seed k n = Ret i) ∧
  (∃ k, UnShuffledIndex hash rounds seed i n = Ret k ∧ 0 ≤ k < n ∧ ShuffledIndex hash rounds seed k n = Ret i).
Proof.
  intros Hr Hi Hn. assert (0 < n ≤ maxShuffleListSize) as Hn' by lia.
  rewrite ShuffledIndex_eq, UnShuffledIndex_eq by done.
  split; eexists; (split; [done|]); (split; [by apply rounds_fwd_range|]).
  - rewrite UnShuffledIndex_eq; [|done|by apply rounds_fwd_range|done]. f_equal. by apply rounds_inverse.
  - rewrite ShuffledIndex_eq; [|done|by apply rounds_fwd_range|done]. f_equal.
    rewrite <- (reverse_involutive (seqZ 0 rounds)) at 1. by apply rounds_inverse.
Qed.

(** Unshuffling a list undoes shuffling it and conversely, and each of them
    returns a permutation of its input. *)
Theorem list_shuffle_roundtrip {A} hash rounds seed (input : list A) :
  0 < rounds < 256 → Z.of_nat (length input) ≤ maxShuffleListSize →
  ∃ unshuffled shuffled,
    UnshuffleList hash rounds seed input = Ret unshuffled ∧ ShuffleList hash rounds seed unshuffled = Ret input ∧
    ShuffleList hash rounds seed input = Ret shuffled ∧ UnshuffleList hash rounds seed shuffled = Ret input ∧
    unshuffled ≡ₚ input ∧ shuffled ≡ₚ input.
Proof.
  intros Hr Hmax.
  destruct (innerShuffleList_eq hash seed rounds Hr input false Hmax) as (U & HU & HmU).
  destruct (innerShuffleList_eq hash seed rounds Hr input true Hmax) as (S & HS & HmS).
  pose proof HmU as [HlU _]. pose proof HmS as [HlS _].
  destruct (innerShuffleList_eq hash seed rounds Hr U true) as (U' & HU' & HmU'); [by rewrite HlU|].
  destruct (innerShuffleList_eq hash seed rounds Hr S false) as (S' & HS' & HmS'); [by rewrite HlS|].
  rewrite HlU in HmU'. rewrite HlS in HmS'. unfold listRounds in *.
  assert (U' = input) as ->.
  { apply (moved_inverse hash seed (Z.of_nat (length input)) (reverse (seqZ 0 rounds)) _ U); [done..|]. by rewrite reverse_involutive. }
  assert (S' = input) as -> by (by apply (moved_inverse hash seed (Z.of_nat (length input)) (seqZ 0 rounds) _ S)).
  exists U, S. do 4 (split; [done|]). split; by eapply moved_perm.
Qed.

(** ** Witnesses *)

(** A toy hash: 32 bytes from a polynomial of the input. *)
Definition demoHash (bytes : list Z) : list Z :=
  map (λ k, foldr (λ b a, (b * 7 + a * 31 + k * k * 13 + 5) mod 251) k bytes) (seqZ 0 32).

Lemma list_shuffle_is_index_shuffle_witness :
  UnshuffleList demoHash 90 [1; 2; 3] [10; 11; 12; 13; 14] = Ret [11; 10; 13; 14; 12] ∧
  ∃ unshuffled shuffled : list Z,
    UnshuffleList demoHash 90 [1; 2; 3] [10; 11; 12; 13; 14] = Ret unshuffled ∧
    ShuffleList demoHash 90 [1; 2; 3] [10; 11; 12; 13; 14] = Ret shuffled.
Proof.
  split; [by vm_compute|].
  destruct (list_shuffle_is_index_shuffle demoHash 90 [1; 2; 3] [10; 11; 12; 13; 14]) as (U & S & HU & _ & HS & _);
    [lia|by vm_compute|]. exists U, S. split; [exact HU|exact HS].
Defined.

Lemma shuffled_index_roundtrip_witness :
  ∃ k, ShuffledIndex demoHash 90 [1; 2; 3] 3 5 = Ret k ∧ UnShuffledIndex demoHash 90 [1; 2; 3] k 5 = Ret 3.
Proof.
  destruct (shuffled_index_roundtrip demoHash 90 [1; 2; 3] 3 5) as [(k & Hk & _ & Hu) _]; [lia|lia|by vm_compute|].
  exists k. split; [exact Hk|exact Hu].
Defined.

Lemma list_shuffle_roundtrip_witness :
  ∃ l, UnshuffleList demoHash 90 [1; 2; 3] [10; 11; 12] = Ret l ∧
    ShuffleList demoHash 90 [1; 2; 3] l = Ret [10; 11; 12].
Proof.
  destruct (list_shuffle_roundtrip demoHash 90 [1; 2; 3] [10; 11; 12]) as (U & _ & HU & HS & _); [lia|by vm_compute|].
  exists U. split; [exact HU|exact HS].
Defined.
