(* ===== verification/Committee.v ===== *)
(** * Beacon committees

    Models the committee functions of
    [beacon-chain/core/helpers/beacon_committee.go], the activity tests of
    [beacon-chain/core/helpers/validators.go] and the committee cache of
    [beacon-chain/cache/committee.go].  The cache is a finite map from seeds: the
    LRU library may drop entries at any time, so the theorems hold for any part of
    the entries that were added.  Waiting for a request in progress and the
    cancellation of contexts are left out.  [hash] is the SHA-256 hasher. *)

From stdpp Require Import sorting.
From S2P Require Import Prelude MathHelper Primitives SlotTime Shuffle.

(** The fields of [ethpb.Validator] that the modelled code reads. *)
Record Validator := mkValidator {
  EffectiveBalance : Z;
  Slashed : bool;
  ActivationEligibilityEpoch : Z;
  ActivationEpoch : Z;
  ExitEpoch : Z;
  WithdrawableEpoch : Z;
  ValPublicKey : list Z;
  ValWithdrawalCredentials : list Z
}.

Definition checkValidatorActiveStatus (activationEpoch exitEpoch epoch : Z) : bool :=
  (activationEpoch <=? epoch) && (epoch <? exitEpoch).

Definition IsActiveValidator (validator : Validator) (epoch : Z) : bool :=
  checkValidatorActiveStatus (ActivationEpoch validator) (ExitEpoch validator) epoch.

Definition IsActiveNonSlashedValidator (validator : Validator) (epoch : Z) : bool :=
  let active := checkValidatorActiveStatus (ActivationEpoch validator) (ExitEpoch validator) epoch in
  active && negb (Slashed validator).

Definition checkValidatorSlashable (activationEpoch withdrawableEpoch : Z) (slashed : bool) (epoch : Z) : bool :=
  let active := activationEpoch <=? epoch in
  let beforeWithdrawable := epoch <? withdrawableEpoch in
  beforeWithdrawable && active && negb slashed.

(** The loop over every validator that collects the active indices. *)
Fixpoint activeFrom (idx : Z) (validators : list Validator) (epoch : Z) : list Z :=
  match validators with
  | [] => []
  | val :: rest =>
      if IsActiveValidator val epoch then idx :: activeFrom (idx + 1) rest epoch
      else activeFrom (idx + 1) rest epoch
  end.

Record Committees := mkCommittees {
  CommitteeCount : Z;
  Seed : list Z;
  ShuffledIndices : list Z;
  SortedIndices : list Z
}.

Abbreviation CommitteeCache := (gmap (list Z) Committees).

Record LiteAssignment := mkLite {
  AttesterSlot : Z;
  LiteCommitteeIndex : Z;
  CommitteeLength : Z;
  ValidatorCommitteeIndex : Z
}.

Record CommitteeAssignment := mkAssignment {
  Committee : list Z;
  AssignedSlot : Z;
  AssignedCommitteeIndex : Z
}.

Section committee.
Context `{BeaconChainConfig} (hash : list Z → list Z).

Definition SlotCommitteeCount (activeValidatorCount : Z) : Z :=
  let committeesPerSlot := activeValidatorCount / SlotsPerEpoch / TargetCommitteeSize in
  if MaxCommitteesPerSlot <? committeesPerSlot then MaxCommitteesPerSlot
  else if committeesPerSlot =? 0 then 1
  else committeesPerSlot.

Definition ComputeCommittee (indices : list Z) (seed : list Z) (index count : Z) : outcome (list Z) :=
  let validatorCount := Z.of_nat (length indices) in
  start <-? SplitOffset validatorCount count index ;;
  fin <-? SplitOffset validatorCount count (index +w 1) ;;
  if (validatorCount <? start) || (validatorCount <? fin) then Err "index out of range" else
  shuffledList <-? UnshuffleList hash ShuffleRoundCount seed indices ;;
  goSlice shuffledList start fin.

(** ** The cache *)

Definition startEndIndices (c : Committees) (index : Z) : outcome (Z * Z) :=
  let validatorCount := Z.of_nat (length (ShuffledIndices c)) in
  start <-? SplitOffset validatorCount (CommitteeCount c) index ;;
  fin <-? SplitOffset validatorCount (CommitteeCount c) (index +w 1) ;;
  Ret (start, fin).

(** [CommitteeCache.Committee]; [None] is a cache miss. *)
Definition cacheCommittee (c : CommitteeCache) (slot : Z) (seed : list Z) (index : Z) : outcome (option (list Z)) :=
  match c !! seed with
  | None => Ret None
  | Some item =>
      let committeeCountPerSlot :=
        if 1 <? CommitteeCount item / SlotsPerEpoch then CommitteeCount item / SlotsPerEpoch else 1 in
      m <-? Slot_ModSlot slot SlotsPerEpoch ;;
      mm <-? Slot_Mul m committeeCountPerSlot ;;
      indexOffSet <-? Add64 index mm ;;
      se <-? startEndIndices item indexOffSet ;;
      let '(start, fin) := se in
      if (Z.of_nat (length (ShuffledIndices item)) <? fin) || (fin <? start)
      then Err "requested index out of bound"
      else l <-? goSlice (ShuffledIndices item) start fin ;; Ret (Some l)
  end.

Definition cacheActiveIndices (c : CommitteeCache) (seed : list Z) : option (list Z) := SortedIndices <$> c !! seed.

Definition AddCommitteeShuffledList (c : CommitteeCache) (committees : Committees) : CommitteeCache :=
  <[Seed committees := committees]> c.

(** [sort.Slice] on distinct indices. *)
Definition UpdateCommitteeCache (c : CommitteeCache) (validators : list Validator) (seed : list Z) (e : Z)
    : outcome CommitteeCache :=
  match c !! seed with
  | Some _ => Ret c
  | None =>
      shuffledIndices <-? UnshuffleList hash ShuffleRoundCount seed (activeFrom 0 validators e) ;;
      let count := SlotCommitteeCount (Z.of_nat (length shuffledIndices)) in
      let sortedIndices := merge_sort Z.le shuffledIndices in
      committeeCount <-? Slot_Mul SlotsPerEpoch count ;;
      Ret (AddCommitteeShuffledList c (mkCommittees committeeCount seed shuffledIndices sortedIndices))
  end.

Definition ActiveValidatorIndices (c : CommitteeCache) (validators : list Validator) (seed : list Z) (epoch : Z)
    : outcome (list Z * CommitteeCache) :=
  match cacheActiveIndices c seed with
  | Some activeIndices => Ret (activeIndices, c)
  | None =>
      let indices := activeFrom 0 validators epoch in
      if (length indices =? 0)%nat then Err "no active validator indices" else
      c <-? omap_err (λ e, wrapErr e "could not update committee cache")
              (UpdateCommitteeCache c validators seed epoch) ;;
      Ret (indices, c)
  end.

(** ** Committees *)

Definition BeaconCommittee (c : CommitteeCache) (validatorIndices : list Z) (seed : list Z) (slot committeeIndex : Z)
    : outcome (list Z) :=
  cached <-? omap_err (λ e, wrapErr e "could not interface with committee cache")
               (cacheCommittee c slot seed committeeIndex) ;;
  match cached with
  | Some committee => Ret committee
  | None =>
      let committeesPerSlot := SlotCommitteeCount (Z.of_nat (length validatorIndices)) in
      m <-? Slot_ModSlot slot SlotsPerEpoch ;;
      mm <-? Slot_Mul m committeesPerSlot ;;
      indexOffset <-? omap_err (λ e, wrapErr e "could not add calculate index offset") (Add64 committeeIndex mm) ;;
      let count := committeesPerSlot *w SlotsPerEpoch in
      ComputeCommittee validatorIndices seed indexOffset count
  end.

Definition BeaconCommitteeFromState (c : CommitteeCache) (validators : list Validator) (seed : list Z)
    (slot committeeIndex : Z) : outcome (list Z * CommitteeCache) :=
  cached <-? omap_err (λ e, wrapErr e "could not interface with committee cache")
               (cacheCommittee c slot seed committeeIndex) ;;
  match cached with
  | Some committee => Ret (committee, c)
  | None =>
      ac <-? omap_err (λ e, wrapErr e "could not get active indices")
               (ActiveValidatorIndices c validators seed (ToEpoch slot)) ;;
      committee <-? BeaconCommittee ac.2 ac.1 seed slot committeeIndex ;;
      Ret (committee, ac.2)
  end.

(** A cached count is used unless the state is at genesis. *)
Definition ActiveValidatorCount (c : CommitteeCache) (validators : list Validator) (seed : list Z) (stateSlot epoch : Z)
    : outcome (Z * CommitteeCache) :=
  let activeCount := match c !! seed with Some item => Z.of_nat (length (SortedIndices item)) | None => 0 end in
  if negb (activeCount =? 0) && negb (stateSlot =? 0) then Ret (activeCount, c) else
  let count := Z.of_nat (length (activeFrom 0 validators epoch)) in
  c <-? omap_err (λ e, wrapErr e "could not update committee cache")
          (UpdateCommitteeCache c validators seed epoch) ;;
  Ret (count, c).

(** The loop of [BeaconCommittees]; the active indices are fetched at the first miss. *)
Fixpoint committeesLoop (validators : list Validator) (seed : list Z) (slot : Z) (idxs : list Z)
    (activeIndices : list Z) (c : CommitteeCache) : outcome (list (list Z) * CommitteeCache) :=
  match idxs with
  | [] => Ret ([], c)
  | idx :: rest =>
      cached <-? omap_err (λ e, wrapErr e "could not interface with committee cache")
                   (cacheCommittee c slot seed idx) ;;
      match cached with
      | Some committee =>
          r <-? committeesLoop validators seed slot rest activeIndices c ;;
          Ret (committee :: r.1, r.2)
      | None =>
          ac <-? (if (length activeIndices =? 0)%nat
                  then omap_err (λ e, wrapErr e "could not get active indices")
                         (ActiveValidatorIndices c validators seed (ToEpoch slot))
                  else Ret (activeIndices, c)) ;;
          committee <-? omap_err (λ e, wrapErr e "could not compute beacon committee")
                          (BeaconCommittee ac.2 ac.1 seed slot idx) ;;
          r <-? committeesLoop validators seed slot rest ac.1 ac.2 ;;
          Ret (committee :: r.1, r.2)
      end
  end.

Definition BeaconCommittees (c : CommitteeCache) (validators : list Validator) (seed : list Z) (stateSlot slot : Z)
    : outcome (list (list Z) * CommitteeCache) :=
  ac <-? omap_err (λ e, wrapErr e "could not compute active validator count")
           (ActiveValidatorCount c validators seed stateSlot (ToEpoch slot)) ;;
  let committeesPerSlot := SlotCommitteeCount ac.1 in
  committeesLoop validators seed slot (seqZ 0 committeesPerSlot) [] ac.2.

(** The loop of [PrecomputeCommittees] over the slots of an epoch. *)
Fixpoint precomputeLoop (validators : list Validator) (seed : list Z) (stateSlot startSlot : Z)
    (relativeSlots : list Z) (c : CommitteeCache) : outcome (list (list (list Z)) * CommitteeCache) :=
  match relativeSlots with
  | [] => Ret ([], c)
  | relativeSlot :: rest =>
      comms <-? omap_err (λ e, wrapErr e "BeaconCommittees failed at slot")
                  (BeaconCommittees c validators seed stateSlot (startSlot +w relativeSlot)) ;;
      r <-? precomputeLoop validators seed stateSlot startSlot rest comms.2 ;;
      Ret (comms.1 :: r.1, r.2)
  end.

Definition PrecomputeCommittees (c : CommitteeCache) (validators : list Validator) (seed : list Z)
    (stateSlot startSlot : Z) : outcome (list (list (list Z)) * CommitteeCache) :=
  precomputeLoop validators seed stateSlot startSlot (seqZ 0 SlotsPerEpoch) c.

(** The scan of [AssignmentForValidator] over the committees of one slot ... *)
Fixpoint scanSlot (slot cIdx : Z) (committees : list (list Z)) (vIdx : Z) : option LiteAssignment :=
  match committees with
  | [] => None
  | committee :: rest =>
      match list_find (λ member, member = vIdx) committee with
      | Some (pos, _) => Some (mkLite slot cIdx (Z.of_nat (length committee)) (Z.of_nat pos))
      | None => scanSlot slot (cIdx + 1) rest vIdx
      end
  end.

(** ... and over the slots. *)
Fixpoint scanSlots (slot : Z) (bySlot : list (list (list Z))) (vIdx : Z) : option LiteAssignment :=
  match bySlot with
  | [] => None
  | committees :: rest =>
      match scanSlot slot 0 committees vIdx with
      | Some a => Some a
      | None => scanSlots (slot +w 1) rest vIdx
      end
  end.

(** The zero value stands for a validator that is not scheduled. *)
Definition AssignmentForValidator (bySlot : list (list (list Z))) (startSlot vIdx : Z) : LiteAssignment :=
  default (mkLite 0 0 0 0) (scanSlots startSlot bySlot vIdx).

(** ** Assignments of an epoch *)

Definition VerifyAssignmentEpoch (epoch stateSlot : Z) : outcome unit :=
  let nextEpoch := ToEpoch stateSlot +w 1 in
  if nextEpoch <? epoch then Err "epoch can't be greater than next epoch" else
  startSlot <-? EpochStart epoch ;;
  let minValidStartSlot := if SlotsPerHistoricalRoot <=? stateSlot then stateSlot - SlotsPerHistoricalRoot else 0 in
  if startSlot <? minValidStartSlot then Err "start slot is smaller than the minimum valid start slot" else Ret tt.

(** The inner loops of [CommitteeAssignments] over the members of one committee ... *)
Definition assignCommittee (vals : gset Z) (slot j : Z) (committee : list Z)
    (assignments : gmap Z CommitteeAssignment) : gmap Z CommitteeAssignment :=
  foldl (λ acc vIndex, if bool_decide (vIndex ∈ vals) then <[vIndex := mkAssignment committee slot j]> acc else acc)
    assignments committee.

(** ... over the committees of one slot ... *)
Fixpoint assignSlot (vals : gset Z) (slot j : Z) (committees : list (list Z))
    (assignments : gmap Z CommitteeAssignment) : gmap Z CommitteeAssignment :=
  match committees with
  | [] => assignments
  | committee :: rest => assignSlot vals slot (j + 1) rest (assignCommittee vals slot j committee assignments)
  end.

(** ... and over the slots. *)
Fixpoint assignSlots (vals : gset Z) (validators : list Validator) (seed : list Z) (stateSlot : Z) (slots : list Z)
    (assignments : gmap Z CommitteeAssignment) (c : CommitteeCache)
    : outcome (gmap Z CommitteeAssignment * CommitteeCache) :=
  match slots with
  | [] => Ret (assignments, c)
  | slot :: rest =>
      comms <-? omap_err (λ e, wrapErr e "could not compute beacon committees")
                  (BeaconCommittees c validators seed stateSlot slot) ;;
      assignSlots vals validators seed stateSlot rest (assignSlot vals slot 0 comms.1 assignments) comms.2
  end.

(** The loop bound [startSlot + SlotsPerEpoch] wraps around. *)
Definition CommitteeAssignments (c : CommitteeCache) (validators : list Validator) (seed : list Z)
    (stateSlot epoch : Z) (indices : list Z) : outcome (gmap Z CommitteeAssignment * CommitteeCache) :=
  _ <-? VerifyAssignmentEpoch epoch stateSlot ;;
  startSlot <-? EpochStart epoch ;;
  let vals : gset Z := list_to_set indices in
  assignSlots vals validators seed stateSlot (seqZ startSlot ((startSlot +w SlotsPerEpoch) - startSlot)) ∅ c.
End committee.
