(* ===== verification/CommitteeCorrect.v ===== *)
(** * Committees partition the active validators

    Every way to get a committee (computed, cached, the loops over a slot and an
    epoch) gives the same slice of the shuffled active validators, and the slices of
    an epoch make up the whole list, in nearly equal lengths.  [CommitteeDuties.v]
    draws the conclusions. *)

From stdpp Require Import sorting.
From S2P Require Import Prelude MathHelper Primitives SlotTime Shuffle ShuffleCorrect.
From S2P Require Import Committee.

(** ** Slices of a list at the split offsets *)

Section pieces.
Context {A : Type} (U : list A) (T : Z).
Local Abbreviation n := (Z.of_nat (length U)) (only parsing).

Definition offset (k : Z) : Z := n * k / T.
Definition piece (k : Z) : list A := take (Z.to_nat (offset (k + 1) - offset k)) (drop (Z.to_nat (offset k)) U).

Context (HT : 0 < T).

Lemma offset_mono k k' : 0 ≤ k ≤ k' → 0 ≤ offset k ≤ offset k'.
Proof using HT. intros ?. split; [apply Z.div_pos; nia|]. apply Z.div_le_mono; nia. Qed.

Lemma offset_end : offset T = n.
Proof using HT. unfold offset. by rewrite Z.div_mul by lia. Qed.

Lemma offset_le k : 0 ≤ k ≤ T → 0 ≤ offset k ≤ n.
Proof using HT. intros ?. rewrite <- offset_end. by apply offset_mono. Qed.

(** The pieces of a prefix. *)
Lemma concat_pieces k : 0 ≤ k ≤ T → concat (map piece (seqZ 0 k)) = take (Z.to_nat (offset k)) U.
Proof using HT.
  intros Hk. rewrite <- (Z2Nat.id k) in * by lia. induction (Z.to_nat k) as [|m IH].
  - unfold offset. rewrite Z.mul_0_r, Z.div_0_l by lia. done.
  - rewrite Nat2Z.inj_succ, <- Z.add_1_r in *. rewrite seqZ_app by lia.
    rewrite map_app, concat_app, IH by lia. rewrite Z.add_0_l.
    change (seqZ (Z.of_nat m) 1) with [Z.of_nat 0 + Z.of_nat m]. cbn [map concat]. rewrite app_nil_r, Z.add_0_l.
    unfold piece. pose proof (offset_mono (Z.of_nat m) (Z.of_nat m + 1)).
    replace (Z.to_nat (offset (Z.of_nat m + 1))) with
      (Z.to_nat (offset (Z.of_nat m)) + Z.to_nat (offset (Z.of_nat m + 1) - offset (Z.of_nat m)))%nat by lia.
    apply take_take_drop.
Qed.

Lemma pieces_all : concat (map piece (seqZ 0 T)) = U.
Proof using HT. rewrite concat_pieces by lia. rewrite offset_end, take_ge by lia. done. Qed.

(** All pieces have the same length, up to one. *)
Lemma piece_length k : 0 ≤ k < T → n / T ≤ Z.of_nat (length (piece k)) ≤ n / T + 1.
Proof using HT.
  intros Hk. unfold piece. rewrite length_take, length_drop.
  pose proof (offset_mono k (k + 1)). pose proof (offset_le (k + 1)).
  assert (n / T ≤ offset (k + 1) - offset k ≤ n / T + 1).
  { unfold offset. Z.div_mod_to_equations. nia. }
  lia.
Qed.
End pieces.

(** Numbering the entries of a matrix row by row. *)
Lemma concat_rows {B} (f : Z → B) m k :
  0 ≤ m → 0 ≤ k →
  concat (map (λ a, map (λ b, f (a * m + b)) (seqZ 0 m)) (seqZ 0 k)) = map f (seqZ 0 (k * m)).
Proof.
  intros Hm Hk. rewrite <- (Z2Nat.id k) by lia. induction (Z.to_nat k) as [|j IH]; [done|].
  rewrite Nat2Z.inj_succ, <- Z.add_1_r. rewrite seqZ_app by lia.
  rewrite map_app, concat_app, IH. rewrite Z.add_0_l.
  replace ((Z.of_nat j + 1) * m) with (Z.of_nat j * m + m) by lia. rewrite seqZ_app by nia. rewrite map_app. f_equal.
  change (seqZ (Z.of_nat j) 1) with [Z.of_nat 0 + Z.of_nat j]. cbn [map concat]. rewrite app_nil_r, !Z.add_0_l.
  unfold seqZ. rewrite !map_map. apply map_ext. intros i. f_equal. lia.
Qed.

Lemma seqZ_shift {B} (f : Z → B) m k : map f (seqZ m k) = map (λ i, f (m + i)) (seqZ 0 k).
Proof. unfold seqZ. rewrite !map_map. apply map_ext. intros i. f_equal. lia. Qed.

(** ** One epoch *)

Lemma SlotCommitteeCount_bounds `{BeaconChainConfig} m : 0 ≤ m → 1 ≤ SlotCommitteeCount m ≤ MaxCommitteesPerSlot.
Proof.
  intros ?. unfold SlotCommitteeCount. pose proof MaxCommitteesPerSlot_range. pose proof SlotsPerEpoch_pos.
  pose proof TargetCommitteeSize_range.
  assert (0 ≤ m / SlotsPerEpoch / TargetCommitteeSize) by (apply Z.div_pos; [apply Z.div_pos|]; lia).
  repeat case_if; lia.
Qed.

(** The active indices are collected in increasing order. *)
Lemma activeFrom_sorted idx vs ep : StronglySorted Z.lt (activeFrom idx vs ep) ∧ Forall (λ x, idx ≤ x) (activeFrom idx vs ep).
Proof.
  revert idx. induction vs as [|v vs IH]; intros idx; cbn; [split; constructor|].
  destruct (IH (idx + 1)) as [Hs Hf].
  assert (Forall (λ x, idx ≤ x) (activeFrom (idx + 1) vs ep)) by (eapply Forall_impl; [exact Hf|]; cbn; intros; lia).
  case_if; [|done]. split; [constructor; [done|]|constructor; [lia|done]].
  eapply Forall_impl; [exact Hf|]. cbn. intros. lia.
Qed.

Lemma strictly_sorted (l : list Z) : StronglySorted Z.lt l → StronglySorted Z.le l.
Proof.
  induction 1 as [|x l Hs IH Hf]; constructor; [done|]. eapply Forall_impl; [exact Hf|]. intros. by apply Z.lt_le_incl.
Qed.

Lemma activeFrom_NoDup idx vs ep : NoDup (activeFrom idx vs ep).
Proof.
  destruct (activeFrom_sorted idx vs ep) as [Hs _]. induction Hs as [|x l Hs IH Hf]; constructor; [|done].
  intros Hx. rewrite Forall_forall in Hf. specialize (Hf x Hx). lia.
Qed.

Section epoch.
Context `{BeaconChainConfig} (hash : list Z → list Z) (validators : list Validator) (seed : list Z) (e : Z).
Local Abbreviation active := (activeFrom 0 validators e) (only parsing).
Local Abbreviation n := (Z.of_nat (length active)) (only parsing).
Local Abbreviation count := (SlotCommitteeCount n) (only parsing).
Local Abbreviation total := (count * SlotsPerEpoch) (only parsing).
Context (Hn : 0 < n ≤ maxShuffleListSize).
Context (U : list Z) (HU : UnshuffleList hash ShuffleRoundCount seed active = Ret U).
Context (HUlen : length U = length active).

Lemma total_bounds : 0 < total < 16777216.
Proof using Hn HU HUlen.
  pose proof (SlotCommitteeCount_bounds n ltac:(lia)). pose proof MaxCommitteesPerSlot_range. pose proof SlotsPerEpoch_pos.
  nia.
Qed.

Lemma SplitOffset_eq m k : m = Z.of_nat (length U) → 0 ≤ k ≤ total → SplitOffset m total k = Ret (offset U total k).
Proof using Hn HU HUlen.
  intros -> ?. pose proof total_bounds. rewrite maxShuffleListSize_eq in Hn. unfold SplitOffset.
  rewrite (proj2 (Z.eqb_neq _ _)) by lia. rewrite wrap64_small; [done|]. unfold is_u64, two64. nia.
Qed.

Lemma goSlice_piece k : 0 ≤ k < total →
  goSlice U (offset U total k) (offset U total (k + 1)) = Ret (piece U total k).
Proof using Hn HU HUlen.
  intros ?. pose proof total_bounds as [? _]. pose proof (offset_mono U total ltac:(done) k (k + 1) ltac:(lia)).
  pose proof (offset_le U total ltac:(done) (k + 1) ltac:(lia)). unfold goSlice.
  by rewrite !(proj2 (Z.leb_le _ _)) by lia.
Qed.

Lemma ComputeCommittee_eq k : 0 ≤ k < total →
  ComputeCommittee hash active seed k total = Ret (piece U total k).
Proof using Hn HU HUlen.
  intros ?. pose proof total_bounds as [? ?]. unfold ComputeCommittee. rewrite HU.
  rewrite (wrap64_small (k + 1)) by (unfold is_u64, two64; lia).
  rewrite !SplitOffset_eq by lia. cbn [obind].
  pose proof (offset_le U total ltac:(done) k ltac:(lia)). pose proof (offset_le U total ltac:(done) (k + 1) ltac:(lia)).
  rewrite !(proj2 (Z.ltb_ge _ _)) by lia. cbn [orb]. by apply goSlice_piece.
Qed.

(** The index of a committee in the epoch. *)
Lemma committee_number slot idx :
  0 ≤ slot < two64 → 0 ≤ idx < count →
  (m <-? Slot_ModSlot slot SlotsPerEpoch ;; mm <-? Slot_Mul m count ;; Add64 idx mm)
    = Ret (slot mod SlotsPerEpoch * count + idx) ∧
  0 ≤ slot mod SlotsPerEpoch * count + idx < total.
Proof using Hn HU HUlen.
  intros Hs Hi. pose proof total_bounds as [? ?]. pose proof SlotsPerEpoch_pos.
  pose proof (Z.mod_pos_bound slot SlotsPerEpoch SlotsPerEpoch_pos).
  assert (0 ≤ slot mod SlotsPerEpoch * count + idx < total) by nia. split; [|done].
  assert (0 ≤ slot mod SlotsPerEpoch * count < two64) by (unfold two64; nia).
  unfold Slot_ModSlot, Slot_Mod, Slot_SafeMod, Mod64. rewrite (proj2 (Z.eqb_neq _ _)) by lia. cbn [must obind].
  unfold Slot_Mul, Slot_SafeMul. rewrite Mul64_spec by (unfold is_u64, two64 in *; nia).
  rewrite (proj2 (Z.ltb_lt _ _)) by lia. cbn [must obind]. rewrite Add64_spec by (unfold is_u64, two64 in *; lia).
  rewrite (proj2 (Z.ltb_lt _ _)) by (unfold two64 in *; lia). f_equal. lia.
Qed.

(** ** The cache *)

Definition epochEntry : Committees := mkCommittees total seed U (merge_sort Z.le U).

(** The cache holds either nothing or the right entry for the seed. *)
Definition cache_ok (c : CommitteeCache) : Prop := c !! seed = None ∨ c !! seed = Some epochEntry.

Definition committeeAt (slot idx : Z) : list Z := piece U total (slot mod SlotsPerEpoch * count + idx).

Lemma cacheCommittee_eq c slot idx :
  cache_ok c → 0 ≤ slot < two64 → 0 ≤ idx < count →
  cacheCommittee c slot seed idx = Ret (if c !! seed is Some _ then Some (committeeAt slot idx) else None).
Proof using Hn HU HUlen.
  intros [Hc|Hc] Hs Hi; unfold cacheCommittee; rewrite Hc; [done|]. cbn [CommitteeCount ShuffledIndices epochEntry].
  pose proof total_bounds as [? ?]. pose proof SlotsPerEpoch_pos. rewrite Z.div_mul by lia.
  assert ((if 1 <? count then count else 1) = count) as -> by (case_if; lia).
  destruct (committee_number slot idx Hs Hi) as [Hk Hkb].
  destruct (Slot_ModSlot slot SlotsPerEpoch) as [m| | |]; cbn [obind] in Hk |- *; [|done..].
  destruct (Slot_Mul m count) as [mm| | |]; cbn [obind] in Hk |- *; [|done..]. rewrite Hk. cbn [obind].
  unfold startEndIndices. cbn [CommitteeCount ShuffledIndices epochEntry].
  set (k := slot mod SlotsPerEpoch * count + idx) in *. rewrite (wrap64_small (k + 1)) by (unfold is_u64, two64; lia).
  rewrite !SplitOffset_eq by lia. cbn [obind].
  pose proof (offset_mono U total ltac:(done) k (k + 1) ltac:(lia)).
  pose proof (offset_le U total ltac:(done) (k + 1) ltac:(lia)).
  rewrite !(proj2 (Z.ltb_ge _ _)) by lia. cbn [orb]. by rewrite goSlice_piece.
Qed.

Lemma BeaconCommittee_eq c slot idx :
  cache_ok c → 0 ≤ slot < two64 → 0 ≤ idx < count →
  BeaconCommittee hash c active seed slot idx = Ret (committeeAt slot idx).
Proof using Hn HU HUlen.
  intros Hc Hs Hi. unfold BeaconCommittee. rewrite cacheCommittee_eq by done. cbn [omap_err obind].
  destruct (c !! seed); [done|]. pose proof total_bounds as [? ?].
  destruct (committee_number slot idx Hs Hi) as [Hk Hkb].
  destruct (Slot_ModSlot slot SlotsPerEpoch) as [m| | |]; cbn [obind] in Hk |- *; [|done..].
  destruct (Slot_Mul m count) as [mm| | |]; cbn [obind] in Hk |- *; [|done..]. rewrite Hk. cbn [omap_err obind].
  rewrite wrap64_small by (unfold is_u64, two64; lia). by apply ComputeCommittee_eq.
Qed.

Lemma UpdateCommitteeCache_eq c :
  cache_ok c → ∃ c', UpdateCommitteeCache hash c validators seed e = Ret c' ∧ c' !! seed = Some epochEntry.
Proof using Hn HU HUlen.
  intros Hc. unfold UpdateCommitteeCache. destruct Hc as [Hc|Hc]; rewrite Hc; [|by eauto].
  rewrite HU. cbn [obind]. pose proof total_bounds as [? ?]. rewrite HUlen.
  unfold Slot_Mul, Slot_SafeMul, Mul64, bitsMul64. rewrite (Z.mul_comm SlotsPerEpoch).
  rewrite Z.div_small by (unfold two64; lia). cbn. rewrite wrap64_small by (unfold is_u64, two64; lia).
  eexists. split; [done|]. by rewrite lookup_insert_eq.
Qed.


Context (HUperm : U ≡ₚ active).

Lemma epochEntry_sorted : SortedIndices epochEntry = active.
Proof using HUperm.
  cbn. apply (StronglySorted_unique Z.le); [apply StronglySorted_merge_sort; apply _| |].
  - apply strictly_sorted, activeFrom_sorted.
  - rewrite merge_sort_Permutation. done.
Qed.

Lemma ActiveValidatorIndices_eq c : cache_ok c →
  ∃ c', ActiveValidatorIndices hash c validators seed e = Ret (active, c') ∧ c' !! seed = Some epochEntry.
Proof using Hn HU HUlen HUperm.
  intros Hc. unfold ActiveValidatorIndices, cacheActiveIndices.
  destruct (c !! seed) as [item|] eqn:Hi; cbn.
  - destruct Hc as [Hc|Hc]; [congruence|]. replace item with epochEntry by congruence.
    exists c. rewrite epochEntry_sorted. split; congruence.
  - rewrite (proj2 (Nat.eqb_neq _ _)) by lia. destruct (UpdateCommitteeCache_eq c Hc) as (c' & -> & Hc').
    cbn. eauto.
Qed.

Lemma ActiveValidatorCount_eq c stateSlot : cache_ok c →
  ∃ c', ActiveValidatorCount hash c validators seed stateSlot e = Ret (n, c') ∧ c' !! seed = Some epochEntry.
Proof using Hn HU HUlen HUperm.
  intros Hc. unfold ActiveValidatorCount. destruct (UpdateCommitteeCache_eq c Hc) as (c' & -> & Hc').
  destruct Hc as [Hc|Hc]; rewrite Hc; cbn -[epochEntry]; [by eauto|].
  rewrite epochEntry_sorted. case_if; eauto.
Qed.

Lemma committeesLoop_eq slot idxs ai c :
  ToEpoch slot = e → 0 ≤ slot < two64 → Forall (λ idx, 0 ≤ idx < count) idxs → ai = [] ∨ ai = active → cache_ok c →
  ∃ c', committeesLoop hash validators seed slot idxs ai c = Ret (map (committeeAt slot) idxs, c') ∧ cache_ok c'.
Proof using Hn HU HUlen HUperm.
  intros He Hs Hf. revert ai c. induction Hf as [|idx idxs Hidx Hf IH]; intros ai c Hai Hc; cbn [committeesLoop map]; [by eauto|].
  rewrite cacheCommittee_eq by done. cbn [omap_err obind]. destruct (c !! seed) eqn:Hcs.
  - destruct (IH ai c Hai Hc) as (c' & -> & Hc'). cbn. eauto.
  - assert (∃ c1, (if (length ai =? 0)%nat
                  then omap_err (λ e, wrapErr e "could not get active indices")
                         (ActiveValidatorIndices hash c validators seed (ToEpoch slot))
                  else Ret (ai, c)) = Ret (active, c1) ∧ cache_ok c1) as (c1 & -> & Hc1).
    { destruct Hai as [->| ->].
      - rewrite He. destruct (ActiveValidatorIndices_eq c Hc) as (c1 & -> & Hc1). exists c1. split; [done|]. by right.
      - rewrite (proj2 (Nat.eqb_neq _ _)) by lia. eauto. }
    cbn [obind fst snd]. rewrite BeaconCommittee_eq by done. cbn [omap_err obind].
    destruct (IH active c1 (or_intror eq_refl) Hc1) as (c' & -> & Hc'). cbn. eauto.
Qed.

Lemma BeaconCommittees_eq slot stateSlot c :
  ToEpoch slot = e → 0 ≤ slot < two64 → cache_ok c →
  ∃ c', BeaconCommittees hash c validators seed stateSlot slot = Ret (map (committeeAt slot) (seqZ 0 count), c') ∧ cache_ok c'.
Proof using Hn HU HUlen HUperm.
  intros He Hs Hc. unfold BeaconCommittees. rewrite He.
  destruct (ActiveValidatorCount_eq c stateSlot Hc) as (c1 & -> & Hc1). cbn [omap_err obind fst snd].
  apply committeesLoop_eq; [done..| |by left|by right]. apply Forall_forall. intros x Hx%elem_of_seqZ. lia.
Qed.

(** ** The slots of the epoch *)

Definition epochCommittees : list (list (list Z)) :=
  map (λ slot, map (committeeAt slot) (seqZ 0 count)) (seqZ (e * SlotsPerEpoch) SlotsPerEpoch).

Context (Hslots : 0 ≤ e ∧ (e + 1) * SlotsPerEpoch ≤ two64).

Lemma slot_of_epoch rel : 0 ≤ rel < SlotsPerEpoch →
  let slot := e * SlotsPerEpoch + rel in
  ToEpoch slot = e ∧ slot mod SlotsPerEpoch = rel ∧ 0 ≤ slot < two64.
Proof using Hn HU HUlen Hslots.
  intros Hr. pose proof SlotsPerEpoch_pos. cbn zeta. unfold ToEpoch.
  rewrite Z.add_comm, Z.div_add, Z.mod_add, Z.div_small, Z.mod_small by lia. nia.
Qed.

Lemma precomputeLoop_eq stateSlot rels c :
  Forall (λ rel, 0 ≤ rel < SlotsPerEpoch) rels → cache_ok c →
  ∃ c', precomputeLoop hash validators seed stateSlot (e * SlotsPerEpoch) rels c =
    Ret (map (λ rel, map (committeeAt (e * SlotsPerEpoch + rel)) (seqZ 0 count)) rels, c') ∧ cache_ok c'.
Proof using Hn HU HUlen HUperm Hslots.
  intros Hf. revert c. induction Hf as [|rel rels Hr Hf IH]; intros c Hc; cbn [precomputeLoop map]; [by eauto|].
  destruct (slot_of_epoch rel Hr) as (He & _ & Hs). rewrite wrap64_small by (unfold is_u64; lia).
  destruct (BeaconCommittees_eq _ stateSlot c He Hs Hc) as (c1 & -> & Hc1). cbn [omap_err obind fst snd].
  destruct (IH c1 Hc1) as (c' & -> & Hc'). cbn. eauto.
Qed.

Lemma PrecomputeCommittees_eq stateSlot c : cache_ok c →
  ∃ c', PrecomputeCommittees hash c validators seed stateSlot (e * SlotsPerEpoch) = Ret (epochCommittees, c') ∧ cache_ok c'.
Proof using Hn HU HUlen HUperm Hslots.
  intros Hc. unfold PrecomputeCommittees, epochCommittees.
  destruct (precomputeLoop_eq stateSlot (seqZ 0 SlotsPerEpoch) c) as (c' & -> & Hc'); [|done|].
  - apply Forall_forall. intros x Hx%elem_of_seqZ. lia.
  - exists c'. split; [|done]. by rewrite (seqZ_shift _ (e * SlotsPerEpoch)).
Qed.

(** Every member of every committee, in the order of the slots. *)
Lemma epochCommittees_concat : concat (concat epochCommittees) = U.
Proof using Hn HU HUlen Hslots.
  unfold epochCommittees. rewrite seqZ_shift. pose proof total_bounds. pose proof SlotsPerEpoch_pos.
  pose proof (SlotCommitteeCount_bounds n ltac:(lia)).
  trans (concat (concat (map (λ a, map (λ b, piece U total (a * count + b)) (seqZ 0 count)) (seqZ 0 SlotsPerEpoch)))).
  - do 2 f_equal. apply map_ext_in. intros rel Hr%list_elem_of_In%elem_of_seqZ. unfold committeeAt.
    destruct (slot_of_epoch rel ltac:(lia)) as (_ & -> & _). done.
  - rewrite concat_rows by lia. rewrite (Z.mul_comm SlotsPerEpoch). apply pieces_all. lia.
Qed.

Lemma epochCommittees_lookup r cs j committee :
  epochCommittees !! r = Some cs → cs !! j = Some committee →
  Z.of_nat r < SlotsPerEpoch ∧ Z.of_nat j < count ∧
  committee = committeeAt (e * SlotsPerEpoch + Z.of_nat r) (Z.of_nat j).
Proof using Type.
  unfold epochCommittees. intros (slot & Hs & Hr)%list_lookup_fmap_Some. apply lookup_seqZ in Hr as [-> Hr].
  rewrite Hs. intros (idx & -> & Hj)%list_lookup_fmap_Some. apply lookup_seqZ in Hj as [-> Hj]. by rewrite Z.add_0_l.
Qed.

Lemma epochCommittees_shape :
  Z.of_nat (length epochCommittees) = SlotsPerEpoch ∧
  Forall (λ cs, Z.of_nat (length cs) = count ∧
    Forall (λ committee, n / total ≤ Z.of_nat (length committee) ≤ n / total + 1) cs) epochCommittees.
Proof using Hn HU HUlen Hslots.
  pose proof total_bounds. pose proof SlotsPerEpoch_pos. pose proof (SlotCommitteeCount_bounds n ltac:(lia)).
  unfold epochCommittees. rewrite length_map, length_seqZ. split; [lia|].
  apply Forall_map, Forall_forall. intros slot Hslot%elem_of_seqZ. split.
  - rewrite length_map, length_seqZ. lia.
  - apply Forall_map, Forall_forall. intros idx Hidx%elem_of_seqZ. unfold committeeAt. cbn.
    destruct (committee_number slot idx ltac:(nia) ltac:(lia)) as [_ Hk].
    pose proof (piece_length U total (proj1 total_bounds) _ Hk) as Hp. by rewrite HUlen in Hp.
Qed.
End epoch.
