(* ===== verification/CommitteeDuties.v ===== *)
(** * Duties read off the committees of an epoch

    The committees of an epoch partition the active validators, whatever valid part
    of the committee cache is present; the two functions that look up a validator's
    duty, [CommitteeAssignments] and [PrecomputeCommittees] followed by
    [AssignmentForValidator], give every active validator exactly one duty, and the
    same one. *)

From stdpp Require Import sorting.
From S2P Require Import Prelude MathHelper Primitives SlotTime Shuffle ShuffleCorrect.
From S2P Require Import Committee CommitteeCorrect.

(** ** Finding a member *)

Lemma list_find_member (v : Z) (l : list Z) :
  match list_find (λ member, member = v) l with
  | Some (pos, _) => l !! pos = Some v
  | None => v ∉ l
  end.
Proof.
  destruct (list_find _ l) as [[pos x]|] eqn:E.
  - apply list_find_Some in E as (E & -> & _). done.
  - apply list_find_None in E. intros Hv. rewrite Forall_forall in E. by apply (E v).
Qed.

Lemma scanSlot_spec slot cIdx cs v :
  match scanSlot slot cIdx cs v with
  | Some a => ∃ j committee (pos : nat), cs !! j = Some committee ∧ committee !! pos = Some v ∧
      a = mkLite slot (cIdx + Z.of_nat j) (Z.of_nat (length committee)) (Z.of_nat pos)
  | None => v ∉ concat cs
  end.
Proof.
  revert cIdx. induction cs as [|c cs IH]; intros cIdx; cbn; [set_solver|].
  pose proof (list_find_member v c) as Hf. destruct (list_find _ c) as [[pos x]|].
  - exists 0%nat, c, pos. split_and!; [done..|]. f_equal. lia.
  - specialize (IH (cIdx + 1)). destruct (scanSlot slot (cIdx + 1) cs v).
    + destruct IH as (j & committee & pos & Hj & Hp & ->). exists (S j), committee, pos. split_and!; [done..|].
      f_equal. lia.
    + set_solver.
Qed.

Lemma scanSlots_spec slot bySlot v :
  0 ≤ slot → slot + Z.of_nat (length bySlot) ≤ two64 →
  match scanSlots slot bySlot v with
  | Some a => ∃ r cs j committee (pos : nat),
      bySlot !! r = Some cs ∧ cs !! j = Some committee ∧ committee !! pos = Some v ∧
      a = mkLite (slot + Z.of_nat r) (Z.of_nat j) (Z.of_nat (length committee)) (Z.of_nat pos)
  | None => v ∉ concat (concat bySlot)
  end.
Proof.
  revert slot. induction bySlot as [|cs bySlot IH]; intros slot Hs Hlen; cbn [scanSlots concat length] in *; [set_solver|].
  pose proof (scanSlot_spec slot 0 cs v) as Hscan. destruct (scanSlot slot 0 cs v) as [a|].
  - destruct Hscan as (j & committee & pos & Hj & Hp & ->). exists 0%nat, cs, j, committee, pos.
    split_and!; [done..|]. f_equal; lia.
  - destruct (decide (length bySlot = 0%nat)) as [Hnil|Hne].
    { apply nil_length_inv in Hnil as ->. cbn. rewrite app_nil_r. done. }
    rewrite wrap64_small by (unfold is_u64; lia). specialize (IH (slot + 1) ltac:(lia) ltac:(lia)).
    destruct (scanSlots (slot + 1) bySlot v).
    + destruct IH as (r & cs' & j & committee & pos & Hr & Hj & Hp & ->). exists (S r), cs', j, committee, pos.
      split_and!; [done..|]. f_equal. lia.
    + rewrite concat_app. set_solver.
Qed.

(** ** The map of assignments *)

Lemma assignCommittee_lookup vals slot j committee m v :
  assignCommittee vals slot j committee m !! v =
  if bool_decide (v ∈ vals ∧ v ∈ committee) then Some (mkAssignment committee slot j) else m !! v.
Proof.
  unfold assignCommittee. set (a := mkAssignment committee slot j). clearbody a. revert m.
  induction committee as [|x l IH]; intros m; cbn [foldl].
  { rewrite bool_decide_false; set_solver. }
  rewrite IH. destruct (decide (v ∈ vals ∧ v ∈ l)) as [Hl|Hl].
  { rewrite !bool_decide_true; set_solver. }
  rewrite (bool_decide_false _ Hl). destruct (decide (x = v)) as [->|Hne].
  - destruct (decide (v ∈ vals)) as [Hv|Hv].
    + rewrite (bool_decide_true (v ∈ vals)), lookup_insert_eq, bool_decide_true by set_solver. done.
    + rewrite !bool_decide_false by set_solver. done.
  - rewrite (bool_decide_false (v ∈ vals ∧ v ∈ x :: l)) by set_solver.
    destruct (bool_decide (x ∈ vals)); [by rewrite lookup_insert_ne|done].
Qed.

(** Which committee a slot's scan writes for a validator. *)
Lemma assignSlot_lookup vals slot j cs m v :
  match assignSlot vals slot j cs m !! v with
  | Some a => m !! v = Some a ∧ (v ∉ vals ∨ v ∉ concat cs) ∨
      v ∈ vals ∧ ∃ i committee, cs !! i = Some committee ∧ v ∈ committee ∧ a = mkAssignment committee slot (j + Z.of_nat i)
  | None => m !! v = None ∧ (v ∉ vals ∨ v ∉ concat cs)
  end.
Proof.
  revert j m. induction cs as [|c cs IH]; intros j m; cbn [assignSlot concat].
  { destruct (m !! v); set_solver. }
  specialize (IH (j + 1) (assignCommittee vals slot j c m)). rewrite assignCommittee_lookup in IH.
  destruct (assignSlot _ _ _ _ _ !! v) as [a|].
  - destruct IH as [[Ha Hv]|(Hv & i & committee & Hi & Hc & ->)].
    + case_bool_decide as Hb.
      * right. split; [tauto|]. exists 0%nat, c. split_and!; [done|tauto|]. injection Ha as <-. f_equal. lia.
      * left. split; [done|]. destruct (decide (v ∈ vals)); set_solver.
    + right. split; [done|]. exists (S i), committee. split_and!; [done..|]. f_equal. lia.
  - destruct IH as [Ha Hv]. case_bool_decide; [done|]. split; [done|].
    destruct (decide (v ∈ vals)); set_solver.
Qed.

(** ** A matrix without repeated entries *)

Lemma elem_of_concat {A} (l : list (list A)) k d x : l !! k = Some d → x ∈ d → x ∈ concat l.
Proof.
  revert k. induction l as [|h l IH]; intros [|k] Hk Hd; cbn in Hk |- *; [done..| |]; apply elem_of_app.
  - injection Hk as ->. by left.
  - right. by eapply IH.
Qed.

Lemma NoDup_concat_unique {A} (l : list (list A)) i j a b x :
  NoDup (concat l) → l !! i = Some a → l !! j = Some b → x ∈ a → x ∈ b → i = j.
Proof.
  revert i j. induction l as [|h l IH]; intros i j Hnd Hi Hj Ha Hb; [done|].
  cbn in Hnd. apply NoDup_app in Hnd as (_ & Hdisj & Hnd).
  destruct i as [|i], j as [|j]; cbn in Hi, Hj; [done|..].
  - injection Hi as ->. exfalso. by eapply Hdisj, elem_of_concat.
  - injection Hj as ->. exfalso. by eapply Hdisj, elem_of_concat.
  - f_equal. by apply IH.
Qed.

Lemma concat_map_concat {A} (m : list (list (list A))) : concat (map (@concat A) m) = concat (concat m).
Proof. induction m as [|r m IH]; cbn; [done|]. by rewrite concat_app, IH. Qed.

(** The position of a member in a matrix of committees is unique. *)
Lemma member_unique {A} (m : list (list (list A))) r cs j a r' cs' j' a' x :
  NoDup (concat (concat m)) →
  m !! r = Some cs → cs !! j = Some a → x ∈ a → m !! r' = Some cs' → cs' !! j' = Some a' → x ∈ a' →
  r = r' ∧ j = j' ∧ a = a'.
Proof.
  intros Hnd Hr Hj Ha Hr' Hj' Ha'.
  assert (r = r') as <-.
  { rewrite <- concat_map_concat in Hnd.
    apply (NoDup_concat_unique _ r r' (concat cs) (concat cs') x Hnd).
    - rewrite list_lookup_fmap, Hr. done.
    - rewrite list_lookup_fmap, Hr'. done.
    - by eapply elem_of_concat.
    - by eapply elem_of_concat. }
  assert (cs' = cs) as -> by congruence.
  assert (j = j') as <-; [|split_and!; congruence].
  apply (NoDup_concat_unique cs j j' a a' x); [|done..].
  apply (list_elem_of_lookup_2) in Hr as Hin.
  clear -Hnd Hin. induction m as [|h m IH]; [set_solver|]. cbn in Hnd. rewrite concat_app in Hnd.
  apply NoDup_app in Hnd as (H1 & _ & H2). apply elem_of_cons in Hin as [->|Hin]; auto.
Qed.

Lemma elem_of_matrix {A} (m : list (list (list A))) r cs j a x :
  m !! r = Some cs → cs !! j = Some a → x ∈ a → x ∈ concat (concat m).
Proof.
  intros Hr Hj Hx. rewrite <- concat_map_concat. apply (elem_of_concat _ r (concat cs)).
  - rewrite list_lookup_fmap, Hr. done.
  - by eapply elem_of_concat.
Qed.

(** ** The interface of an epoch *)

(** What the committee cache may hold for a seed: nothing, or what
    [UpdateCommitteeCache] puts there. *)
Definition cache_valid `{BeaconChainConfig} (hash : list Z → list Z) (validators : list Validator) (seed : list Z) (e : Z)
    (c : CommitteeCache) : Prop :=
  ∀ item, c !! seed = Some item → ∃ c0, UpdateCommitteeCache hash ∅ validators seed e = Ret c0 ∧ c0 !! seed = Some item.

(** The unshuffled active validators that all committees are cut from. *)
Lemma epoch_setup `{BeaconChainConfig} hash validators seed e :
  0 < Z.of_nat (length (activeFrom 0 validators e)) ≤ maxShuffleListSize →
  ∃ U, UnshuffleList hash ShuffleRoundCount seed (activeFrom 0 validators e) = Ret U ∧
    length U = length (activeFrom 0 validators e) ∧ U ≡ₚ activeFrom 0 validators e ∧
    ∀ c, cache_valid hash validators seed e c ↔ cache_ok validators seed e U c.
Proof.
  intros Hn.
  destruct (innerShuffleList_eq hash seed ShuffleRoundCount ShuffleRoundCount_range (activeFrom 0 validators e) false)
    as (U & HU & Hm); [lia|].
  assert (length U = length (activeFrom 0 validators e)) as Hlen by apply Hm.
  exists U. split_and!; [done..| |].
  { eapply moved_perm; [done| |done]. lia. }
  destruct (UpdateCommitteeCache_eq hash validators seed e Hn U HU Hlen ∅) as (c0 & Hc0 & Hs0); [by left|].
  intros c. unfold cache_valid, cache_ok. split.
  - intros Hv. destruct (c !! seed) as [item|]; [|by left]. right. destruct (Hv item eq_refl) as (c1 & ? & ?). congruence.
  - intros [Hc|Hc] item Hi; [congruence|]. exists c0. split; congruence.
Qed.

(** ** Scheduling an epoch *)

Section schedule.
Context `{BeaconChainConfig} (hash : list Z → list Z) (validators : list Validator) (seed : list Z) (e : Z).
Local Abbreviation active := (activeFrom 0 validators e) (only parsing).
Local Abbreviation count := (SlotCommitteeCount (Z.of_nat (length active))) (only parsing).
Local Abbreviation start := (e * SlotsPerEpoch) (only parsing).
Context (Hn : 0 < Z.of_nat (length active) ≤ maxShuffleListSize).
Context (U : list Z) (HU : UnshuffleList hash ShuffleRoundCount seed active = Ret U).
Context (HUlen : length U = length active) (HUperm : U ≡ₚ active).
Context (Hslots : 0 ≤ e ∧ (e + 1) * SlotsPerEpoch ≤ two64).
Local Abbreviation committeeAt := (committeeAt validators e U) (only parsing).
Local Abbreviation matrix := (epochCommittees validators e U) (only parsing).
Local Abbreviation cache_ok := (cache_ok validators seed e U) (only parsing).

Lemma matrix_lookup (r j : nat) : Z.of_nat r < SlotsPerEpoch → Z.of_nat j < count →
  ∃ cs, matrix !! r = Some cs ∧ cs !! j = Some (committeeAt (start + Z.of_nat r) (Z.of_nat j)).
Proof using Type.
  intros Hr Hj. unfold epochCommittees. exists (map (committeeAt (start + Z.of_nat r)) (seqZ 0 count)). split.
  - rewrite list_lookup_fmap, (proj2 (lookup_seqZ _ _ r _)) by done. done.
  - rewrite list_lookup_fmap, (proj2 (lookup_seqZ _ _ j _)) by done. cbn [fmap option_fmap option_map]. by rewrite Z.add_0_l.
Qed.

Lemma matrix_NoDup : NoDup (concat (concat matrix)).
Proof using Hn HU HUlen HUperm Hslots.
  erewrite epochCommittees_concat by done. rewrite HUperm. apply activeFrom_NoDup.
Qed.

Lemma matrix_elem v : v ∈ concat (concat matrix) ↔ v ∈ active.
Proof using Hn HU HUlen HUperm Hslots. erewrite epochCommittees_concat by done. by rewrite HUperm. Qed.

(** What the map of assignments says of one validator after some slots. *)
Definition assigned (vals : gset Z) (slots : list Z) (m : gmap Z CommitteeAssignment) (v : Z)
    (r : option CommitteeAssignment) : Prop :=
  match r with
  | Some a => m !! v = Some a ∨ v ∈ vals ∧ ∃ slot (j : nat), slot ∈ slots ∧ Z.of_nat j < count ∧
      v ∈ committeeAt slot (Z.of_nat j) ∧ a = mkAssignment (committeeAt slot (Z.of_nat j)) slot (Z.of_nat j)
  | None => m !! v = None ∧ (v ∉ vals ∨ v ∉ concat (concat (map (λ slot, map (committeeAt slot) (seqZ 0 count)) slots)))
  end.

Lemma assignSlots_eq vals stateSlot slots m c :
  Forall (λ slot, start ≤ slot < start + SlotsPerEpoch) slots → cache_ok c →
  ∃ m' c', assignSlots hash vals validators seed stateSlot slots m c = Ret (m', c') ∧ cache_ok c' ∧
    ∀ v, assigned vals slots m v (m' !! v).
Proof using Hn HU HUlen HUperm Hslots.
  intros Hf. revert m c. induction Hf as [|slot slots Hs Hf IH]; intros m c Hc; cbn [assignSlots].
  { exists m, c. split_and!; [done..|]. intros v. unfold assigned. destruct (m !! v); [by left|set_solver]. }
  destruct (slot_of_epoch hash validators seed e Hn U HU HUlen Hslots (slot - start)) as (He & _ & Hb); [lia|].
  replace (start + (slot - start)) with slot in He, Hb by lia.
  destruct (BeaconCommittees_eq hash validators seed e Hn U HU HUlen HUperm slot stateSlot c He Hb Hc) as (c1 & -> & Hc1).
  cbn [omap_err obind fst snd].
  destruct (IH (assignSlot vals slot 0 (map (committeeAt slot) (seqZ 0 count)) m) c1 Hc1) as (m' & c' & -> & Hc' & Hm').
  exists m', c'. split_and!; [done..|]. intros v. specialize (Hm' v). unfold assigned in *.
  pose proof (assignSlot_lookup vals slot 0 (map (committeeAt slot) (seqZ 0 count)) m v) as Hl.
  destruct (m' !! v) as [a|].
  - destruct Hm' as [Ha|(Hv & slot' & j & Hin & Hj)]; [|right; set_solver]. rewrite Ha in Hl.
    destruct Hl as [[Hl _]|(Hv & j & committee & Hj & Hc2 & ->)]; [by left|]. right. split; [done|].
    apply list_lookup_fmap_Some in Hj as (idx & -> & Hj). apply lookup_seqZ in Hj as [-> Hj]. rewrite Z.add_0_l in *.
    exists slot, j. split_and!; [set_solver|done..].
  - destruct Hm' as [Ha Hv]. rewrite Ha in Hl. destruct Hl as [Hl Hv']. split; [done|].
    cbn [map concat]. rewrite concat_app. destruct (decide (v ∈ vals)); set_solver.
Qed.

Context (Hlast : (e + 1) * SlotsPerEpoch < two64).

Lemma EpochStart_eq : EpochStart e = Ret start ∧ start +w SlotsPerEpoch = start + SlotsPerEpoch.
Proof using Hslots Hlast Hn HU HUlen HUperm.
  pose proof SlotsPerEpoch_pos. unfold EpochStart, Slot_SafeMul. split.
  - rewrite Mul64_spec by (unfold is_u64; nia). rewrite (proj2 (Z.ltb_lt _ _)) by nia. cbn [omap_err]. f_equal. lia.
  - apply wrap64_small. unfold is_u64. nia.
Qed.

(** A duty in the map is a position of the matrix. *)
Definition duty (v : Z) (a : CommitteeAssignment) (r j : nat) : Prop :=
  (∃ cs, matrix !! r = Some cs ∧ cs !! j = Some (Committee a)) ∧ v ∈ Committee a ∧
  Z.of_nat r < SlotsPerEpoch ∧ Z.of_nat j < count ∧
  AssignedSlot a = start + Z.of_nat r ∧ AssignedCommitteeIndex a = Z.of_nat j ∧
  Committee a = committeeAt (AssignedSlot a) (Z.of_nat j).

Lemma CommitteeAssignments_eq stateSlot indices c :
  VerifyAssignmentEpoch e stateSlot = Ret tt → cache_ok c →
  ∃ m c', CommitteeAssignments hash c validators seed stateSlot e indices = Ret (m, c') ∧ cache_ok c' ∧
    ∀ v, match m !! v with
         | Some a => v ∈ indices ∧ ∃ r j, duty v a r j
         | None => v ∉ indices ∨ v ∉ active
         end.
Proof using Hslots Hlast Hn HU HUlen HUperm.
  intros Hver Hc. unfold CommitteeAssignments. rewrite Hver. cbn [obind]. destruct EpochStart_eq as [-> Hw]. cbn [obind]. rewrite Hw.
  replace (start + SlotsPerEpoch - start) with SlotsPerEpoch by lia.
  destruct (assignSlots_eq (list_to_set indices) stateSlot (seqZ start SlotsPerEpoch) ∅ c) as (m & c' & -> & Hc' & Hm); [|done|].
  { apply Forall_forall. intros x Hx%elem_of_seqZ. lia. }
  exists m, c'. split_and!; [done..|]. intros v. specialize (Hm v). unfold assigned in Hm. rewrite lookup_empty in Hm.
  destruct (m !! v) as [a|].
  - destruct Hm as [Hm|(Hv & slot & j & Hin & Hj & Hcm & ->)]; [done|]. split; [set_solver|].
    apply elem_of_seqZ in Hin. exists (Z.to_nat (slot - start)), j.
    assert (slot = start + Z.of_nat (Z.to_nat (slot - start))) as Hslot by lia. unfold duty. cbn.
    split_and!; [|done|lia|done..].
    destruct (matrix_lookup (Z.to_nat (slot - start)) j) as (cs & Hcs); [lia..|]. rewrite <- Hslot in Hcs. by exists cs.
  - destruct Hm as [_ Hm]. fold matrix in Hm. rewrite matrix_elem in Hm. set_solver.
Qed.

Lemma matrix_slots : 0 ≤ start ∧ start + Z.of_nat (length matrix) ≤ two64.
Proof using Hslots Hlast Hn HU HUlen HUperm.
  destruct (epochCommittees_shape hash validators seed e Hn U HU HUlen Hslots) as [-> _]. pose proof SlotsPerEpoch_pos. nia.
Qed.

(** The scan of the matrix finds the same duty. *)
Lemma AssignmentForValidator_duty v a r j : duty v a r j →
  ∃ pos : nat, Committee a !! pos = Some v ∧
    AssignmentForValidator matrix start v =
    mkLite (AssignedSlot a) (AssignedCommitteeIndex a) (Z.of_nat (length (Committee a))) (Z.of_nat pos).
Proof using Hslots Hlast Hn HU HUlen HUperm.
  intros ((cs & Hr & Hj) & Hv & _ & _ & Hs & Hi & _). unfold AssignmentForValidator.
  destruct matrix_slots as [H0 Hle]. pose proof (scanSlots_spec start matrix v H0 Hle) as Hscan.
  destruct (scanSlots start matrix v) as [b|].
  - destruct Hscan as (r' & cs' & j' & committee & pos & Hr' & Hj' & Hp & ->).
    destruct (member_unique matrix r cs j (Committee a) r' cs' j' committee v matrix_NoDup) as (<- & <- & <-);
      [done..|by eapply list_elem_of_lookup_2|].
    exists pos. split; [done|]. cbn. by rewrite Hs, Hi.
  - destruct Hscan. by eapply elem_of_matrix.
Qed.

Lemma AssignmentForValidator_none v : v ∉ active → AssignmentForValidator matrix start v = mkLite 0 0 0 0.
Proof using Hslots Hlast Hn HU HUlen HUperm.
  intros Hv. unfold AssignmentForValidator.
  destruct matrix_slots as [H0 Hle]. pose proof (scanSlots_spec start matrix v H0 Hle) as Hscan.
  destruct (scanSlots start matrix v) as [b|]; [|done].
  destruct Hscan as (r & cs & j & committee & pos & Hr & Hj & Hp & ->). 
  exfalso. apply Hv, matrix_elem. by eapply elem_of_matrix; [..|eapply list_elem_of_lookup_2].
Qed.
End schedule.

(** ** Main theorems *)

Section theorems.
Context `{BeaconChainConfig} (hash : list Z → list Z) (validators : list Validator) (seed : list Z) (e : Z).
Local Abbreviation active := (activeFrom 0 validators e) (only parsing).
Local Abbreviation n := (Z.of_nat (length active)) (only parsing).
Local Abbreviation count := (SlotCommitteeCount n) (only parsing).
Local Abbreviation start := (e * SlotsPerEpoch) (only parsing).

(** C35. The committees of an epoch partition its active validators: with any valid
    content of the committee cache, [PrecomputeCommittees] returns one row per slot,
    [SlotCommitteeCount] committees per row, all of the same size up to one, and the
    committees together hold every active validator exactly once. *)
Theorem committees_partition_validators c stateSlot :
  0 < n ≤ maxShuffleListSize → 0 ≤ e → (e + 1) * SlotsPerEpoch ≤ two64 → cache_valid hash validators seed e c →
  ∃ bySlot c', PrecomputeCommittees hash c validators seed stateSlot start = Ret (bySlot, c') ∧
    cache_valid hash validators seed e c' ∧
    Z.of_nat (length bySlot) = SlotsPerEpoch ∧
    Forall (λ committees, Z.of_nat (length committees) = count ∧
      Forall (λ committee, n / (count * SlotsPerEpoch) ≤ Z.of_nat (length committee) ≤ n / (count * SlotsPerEpoch) + 1)
        committees) bySlot ∧
    concat (concat bySlot) ≡ₚ active ∧ NoDup (concat (concat bySlot)).
Proof using Type.
  intros Hn He Hs Hc. destruct (epoch_setup hash validators seed e Hn) as (U & HU & Hlen & Hperm & Hiff).
  apply Hiff in Hc. pose proof (conj He Hs) as Hslots.
  destruct (PrecomputeCommittees_eq hash validators seed e Hn U HU Hlen Hperm Hslots stateSlot c Hc) as (c' & Hret & Hc').
  destruct (epochCommittees_shape hash validators seed e Hn U HU Hlen Hslots) as [Hrows Hshape].
  exists (epochCommittees validators e U), c'. split_and!; [done|by apply Hiff|done..| |].
  - by erewrite epochCommittees_concat.
  - by eapply matrix_NoDup.
Qed.

(** The committee cache never changes an answer: for every committee of the
    epoch, [BeaconCommittee] and [BeaconCommitteeFromState] with any valid cache
    return what [BeaconCommittee] computes with an empty cache, and the cache stays
    valid. *)
Theorem committee_cache_transparent c slot idx :
  0 < n ≤ maxShuffleListSize → ToEpoch slot = e → 0 ≤ slot < two64 → 0 ≤ idx < count →
  cache_valid hash validators seed e c →
  ∃ committee c', BeaconCommittee hash ∅ active seed slot idx = Ret committee ∧
    BeaconCommittee hash c active seed slot idx = Ret committee ∧
    BeaconCommitteeFromState hash c validators seed slot idx = Ret (committee, c') ∧
    cache_valid hash validators seed e c'.
Proof using Type.
  intros Hn He Hs Hi Hc. destruct (epoch_setup hash validators seed e Hn) as (U & HU & Hlen & Hperm & Hiff).
  apply Hiff in Hc. rewrite !(BeaconCommittee_eq hash validators seed e Hn U HU Hlen) by (done || by left).
  unfold BeaconCommitteeFromState. rewrite He, (cacheCommittee_eq hash validators seed e Hn U HU Hlen c) by done.
  cbn [omap_err obind]. destruct (c !! seed) eqn:Hcs.
  - eexists _, c. split_and!; [done..|]. by apply Hiff.
  - destruct (ActiveValidatorIndices_eq hash validators seed e Hn U HU Hlen Hperm c Hc) as (c' & -> & Hc').
    cbn [omap_err obind fst snd]. assert (cache_ok validators seed e U c') by (by right).
    rewrite (BeaconCommittee_eq hash validators seed e Hn U HU Hlen) by done.
    eexists _, c'. split_and!; [done..|]. by apply Hiff.
Qed.

(** [CommitteeAssignments] gives a duty to exactly the requested validators that
    are active in the epoch, and the duty is right: its slot lies in the epoch and its
    committee is the one [BeaconCommittee] returns for its slot and index, with the
    validator among its members. *)
Theorem committee_assignments_correct c stateSlot indices :
  0 < n ≤ maxShuffleListSize → 0 ≤ e → (e + 1) * SlotsPerEpoch < two64 → VerifyAssignmentEpoch e stateSlot = Ret tt →
  cache_valid hash validators seed e c →
  ∃ m c', CommitteeAssignments hash c validators seed stateSlot e indices = Ret (m, c') ∧
    cache_valid hash validators seed e c' ∧
    (∀ v, is_Some (m !! v) ↔ v ∈ indices ∧ v ∈ active) ∧
    (∀ v a, m !! v = Some a → v ∈ Committee a ∧ ToEpoch (AssignedSlot a) = e ∧
       BeaconCommittee hash ∅ active seed (AssignedSlot a) (AssignedCommitteeIndex a) = Ret (Committee a)).
Proof using Type.
  intros Hn He Hs Hver Hc. destruct (epoch_setup hash validators seed e Hn) as (U & HU & Hlen & Hperm & Hiff).
  apply Hiff in Hc. assert (Hslots : 0 ≤ e ∧ (e + 1) * SlotsPerEpoch ≤ two64) by lia.
  destruct (CommitteeAssignments_eq hash validators seed e Hn U HU Hlen Hperm Hslots Hs stateSlot indices c Hver Hc)
    as (m & c' & Hret & Hc' & Hm).
  exists m, c'. split_and!; [done|by apply Hiff| |]; intros v.
  - specialize (Hm v). destruct (m !! v) as [a|].
    + destruct Hm as (Hv & r & j & (cs & Hr & Hj) & Hin & _). split; [|done]. intros _. split; [done|].
      eapply matrix_elem; [done..|]. by eapply elem_of_matrix.
    + split; [by intros [? ?]|]. intros [? ?]. destruct Hm; contradiction.
  - intros a Ha. specialize (Hm v). rewrite Ha in Hm. destruct Hm as (_ & r & j & _ & Hin & Hr & Hj & Hslot & -> & Hcom).
    destruct (slot_of_epoch hash validators seed e Hn U HU Hlen Hslots (Z.of_nat r)) as (Hep & _ & Hb); [lia|].
    rewrite <- Hslot in Hep, Hb. split_and!; [done..|].
    rewrite (BeaconCommittee_eq hash validators seed e Hn U HU Hlen) by (done || lia || by left). by rewrite <- Hcom.
Qed.

(** The two ways to look up duties agree: for every requested validator, the
    entry of [CommitteeAssignments] and the result of scanning the precomputed
    committees with [AssignmentForValidator] name the same slot and committee, the
    latter with the validator's position in it; a validator without an entry gets the
    zero assignment. *)
Theorem duty_lookups_agree c stateSlot indices :
  0 < n ≤ maxShuffleListSize → 0 ≤ e → (e + 1) * SlotsPerEpoch < two64 → VerifyAssignmentEpoch e stateSlot = Ret tt →
  cache_valid hash validators seed e c →
  ∃ m c1 bySlot c2, CommitteeAssignments hash c validators seed stateSlot e indices = Ret (m, c1) ∧
    PrecomputeCommittees hash c validators seed stateSlot start = Ret (bySlot, c2) ∧
    ∀ v, v ∈ indices →
      match m !! v with
      | Some a => ∃ pos : nat, Committee a !! pos = Some v ∧
          AssignmentForValidator bySlot start v =
          mkLite (AssignedSlot a) (AssignedCommitteeIndex a) (Z.of_nat (length (Committee a))) (Z.of_nat pos)
      | None => AssignmentForValidator bySlot start v = mkLite 0 0 0 0
      end.
Proof using Type.
  intros Hn He Hs Hver Hc. destruct (epoch_setup hash validators seed e Hn) as (U & HU & Hlen & Hperm & Hiff).
  apply Hiff in Hc. assert (Hslots : 0 ≤ e ∧ (e + 1) * SlotsPerEpoch ≤ two64) by lia.
  destruct (CommitteeAssignments_eq hash validators seed e Hn U HU Hlen Hperm Hslots Hs stateSlot indices c Hver Hc)
    as (m & c1 & Hret & _ & Hm).
  destruct (PrecomputeCommittees_eq hash validators seed e Hn U HU Hlen Hperm Hslots stateSlot c Hc) as (c2 & Hret2 & _).
  exists m, c1, (epochCommittees validators e U), c2. split_and!; [done..|]. intros v Hv. specialize (Hm v).
  destruct (m !! v) as [a|].
  - destruct Hm as (_ & r & j & Hd). by eapply AssignmentForValidator_duty.
  - eapply AssignmentForValidator_none; [done..|]. by destruct Hm.
Qed.
End theorems.

(** ** A concrete epoch: four validators, of which the second has not been activated *)

Definition demoValidators : list Validator :=
  [mkValidator 32 false 0 0 100 200 [] []; mkValidator 32 false 0 50 100 200 [] [];
   mkValidator 32 false 0 0 100 200 [] []; mkValidator 32 true 0 0 100 200 [] []].

Lemma demo_active : activeFrom 0 demoValidators 1 = [0; 2; 3].
Proof. reflexivity. Qed.

Lemma demo_size : 0 < Z.of_nat (length (activeFrom 0 demoValidators 1)) ≤ maxShuffleListSize.
Proof. rewrite demo_active. by vm_compute. Qed.

Lemma demo_cache : @cache_valid mainnetBeaconConfig demoHash demoValidators [7] 1 ∅.
Proof. intros item Hi. by rewrite lookup_empty in Hi. Qed.

Lemma committees_partition_validators_witness :
  ∃ bySlot c', @PrecomputeCommittees mainnetBeaconConfig demoHash ∅ demoValidators [7] 40 (1 * @SlotsPerEpoch mainnetBeaconConfig) = Ret (bySlot, c') ∧
    concat (concat bySlot) ≡ₚ activeFrom 0 demoValidators 1.
Proof.
  destruct (@committees_partition_validators mainnetBeaconConfig demoHash demoValidators [7] 1 ∅ 40)
    as (bySlot & c' & Hret & _ & _ & _ & Hperm & _); [exact demo_size|lia|by vm_compute|exact demo_cache|].
  exists bySlot, c'. split; [exact Hret|exact Hperm].
Defined.

Lemma committee_cache_transparent_witness :
  ∃ committee c', @BeaconCommittee mainnetBeaconConfig demoHash ∅ (activeFrom 0 demoValidators 1) [7] 40 0 = Ret committee ∧
    @BeaconCommitteeFromState mainnetBeaconConfig demoHash ∅ demoValidators [7] 40 0 = Ret (committee, c').
Proof.
  destruct (@committee_cache_transparent mainnetBeaconConfig demoHash demoValidators [7] 1 ∅ 40 0)
    as (committee & c' & Hb & _ & Hs & _); [exact demo_size|reflexivity|by vm_compute|by vm_compute|exact demo_cache|].
  exists committee, c'. split; [exact Hb|exact Hs].
Defined.

Lemma committee_assignments_correct_witness :
  ∃ m c', @CommitteeAssignments mainnetBeaconConfig demoHash ∅ demoValidators [7] 40 1 [1; 2; 3] = Ret (m, c') ∧
    is_Some (m !! 2) ∧ ¬ is_Some (m !! 1).
Proof.
  destruct (@committee_assignments_correct mainnetBeaconConfig demoHash demoValidators [7] 1 ∅ 40 [1; 2; 3])
    as (m & c' & Hret & _ & Hdom & _); [exact demo_size|lia|by vm_compute|reflexivity|exact demo_cache|].
  exists m, c'. split; [exact Hret|]. rewrite demo_active in Hdom. split.
  - apply Hdom. set_solver +.
  - intros Hs%Hdom. set_solver + Hs.
Defined.

Lemma duty_lookups_agree_witness :
  ∃ m c1 bySlot c2,
    @CommitteeAssignments mainnetBeaconConfig demoHash ∅ demoValidators [7] 40 1 [1; 2; 3] = Ret (m, c1) ∧
    @PrecomputeCommittees mainnetBeaconConfig demoHash ∅ demoValidators [7] 40 (1 * @SlotsPerEpoch mainnetBeaconConfig) = Ret (bySlot, c2).
Proof.
  destruct (@duty_lookups_agree mainnetBeaconConfig demoHash demoValidators [7] 1 ∅ 40 [1; 2; 3])
    as (m & c1 & bySlot & c2 & Hret & Hret2 & _); [exact demo_size|lia|by vm_compute|reflexivity|exact demo_cache|].
  exists m, c1, bySlot, c2. split; [exact Hret|exact Hret2].
Defined.
