(* ===== verification/Justification.v ===== *)
(** * Justification and finalization of epochs

    Models [beacon-chain/core/epoch/precompute/justification_finalization.go], the
    block root lookups of [beacon-chain/core/helpers/block.go], the balances of
    [beacon-chain/state/stateutil/unrealized_justification.go] and the epoch helpers
    of [beacon-chain/core/time/slot_epoch.go].  [BeaconState] has the fields these
    functions read and write; the getters of the state copy checkpoints and bits, so
    that they are values here.  [Bitvector4] comes from the go-bitfield library: it
    is a class with the operations the code calls and their documented behaviour.
    A 32-byte root is the number it spells. *)

From S2P Require Import Prelude MathHelper Primitives SlotTime Shuffle Committee.

(** ** Four justification bits (library go-bitfield) *)

Class Bitvector4 (BV : Type) := {
  BitAt : BV → Z → bool;
  SetBitAt : BV → Z → bool → BV;
  Shift1 : BV → BV;
  Bytes : BV → list Z
}.

(** Bit [k] moves to bit [k + 1] and bit 0 is cleared; the first byte shows the four bits. *)
Class Bitvector4Laws (BV : Type) `{Bitvector4 BV} := {
  BitAt_Shift1 b k : 0 ≤ k < 4 → BitAt (Shift1 b) k = (0 <? k) && BitAt b (k - 1);
  BitAt_SetBitAt b i v k : 0 ≤ i < 4 → 0 ≤ k < 4 → BitAt (SetBitAt b i v) k = if k =? i then v else BitAt b k;
  Bytes_testbit b k : 0 ≤ k < 4 → ∃ byte, Bytes b = [byte] ∧ Z.testbit byte k = BitAt b k
}.

Record EthCheckpoint := mkEthCheckpoint { CheckpointEpoch : Z; CheckpointRoot : Z }.

Record BeaconState (BV : Type) := mkBeaconState {
  StateSlot : Z;
  JustificationBits : BV;
  PreviousJustifiedCheckpoint : EthCheckpoint;
  CurrentJustifiedCheckpoint : EthCheckpoint;
  FinalizedCheckpoint : EthCheckpoint;
  BlockRoots : list Z
}.
Arguments mkBeaconState {BV}.
Arguments StateSlot {BV}.
Arguments JustificationBits {BV}.
Arguments PreviousJustifiedCheckpoint {BV}.
Arguments CurrentJustifiedCheckpoint {BV}.
Arguments FinalizedCheckpoint {BV}.
Arguments BlockRoots {BV}.

(** The fields of [precompute.Balance] that are read here. *)
Record Balance := mkBalance {
  ActiveCurrentEpoch : Z;
  PrevEpochTargetAttested : Z;
  CurrentEpochTargetAttested : Z
}.

(** ** Unrealized balances *)

Section balances.
Context `{BeaconChainConfig}.

Definition ensureLowerBound (activeCurrEpoch prevTargetAttested currTargetAttested : Z) : Z * Z * Z :=
  let ebi := EffectiveBalanceIncrement in
  (if activeCurrEpoch <? ebi then ebi else activeCurrEpoch,
   if prevTargetAttested <? ebi then ebi else prevTargetAttested,
   if currTargetAttested <? ebi then ebi else currTargetAttested).

Definition targetFlag (participation : Z) : bool := Z.land (Z.shiftr participation TimelyTargetFlagIndex) 1 =? 1.

(** The loop over the validators; a participation list that ends early would panic. *)
Fixpoint balanceLoop (validators : list Validator) (cp pp : list Z) (currentEpoch : Z)
    (activeBalance prevTarget currentTarget : Z) : outcome (Z * Z * Z) :=
  match validators, cp, pp with
  | [], _, _ => Ret (activeBalance, prevTarget, currentTarget)
  | v :: vs, c :: cs, p :: ps =>
      let activeCurrent := (ActivationEpoch v <=? currentEpoch) && (currentEpoch <? ExitEpoch v) in
      activeBalance <-? (if activeCurrent then Add64 activeBalance (EffectiveBalance v) else Ret activeBalance) ;;
      if Slashed v then balanceLoop vs cs ps currentEpoch activeBalance prevTarget currentTarget else
      currentTarget <-? (if activeCurrent && targetFlag c then Add64 currentTarget (EffectiveBalance v)
                         else Ret currentTarget) ;;
      let activePrevious := (ActivationEpoch v <? currentEpoch) && (currentEpoch <=? ExitEpoch v) in
      prevTarget <-? (if activePrevious && targetFlag p then Add64 prevTarget (EffectiveBalance v)
                      else Ret prevTarget) ;;
      balanceLoop vs cs ps currentEpoch activeBalance prevTarget currentTarget
  | _, _, _ => Panic "index out of range"
  end.

Definition UnrealizedCheckpointBalances (cp pp : list Z) (validators : list Validator) (currentEpoch : Z)
    : outcome (Z * Z * Z) :=
  if (length cp <? length validators)%nat || (length pp <? length validators)%nat
  then Err "participation does not match validator set" else
  r <-? balanceLoop validators cp pp currentEpoch 0 0 0 ;;
  let '(activeBalance, prevTarget, currentTarget) := r in
  Ret (ensureLowerBound activeBalance prevTarget currentTarget).
End balances.

Section justification.
Context `{BeaconChainConfig} {BV : Type} `{Bitvector4 BV}.

(** ** Epochs and block roots of a state *)

Definition CurrentEpoch (state : BeaconState BV) : Z := ToEpoch (StateSlot state).

Definition PrevEpoch (state : BeaconState BV) : Z :=
  let currentEpoch := CurrentEpoch state in
  if currentEpoch =? 0 then 0 else currentEpoch - 1.

Definition CanProcessEpoch (state : BeaconState BV) : bool := (StateSlot state +w 1) mod SlotsPerEpoch =? 0.

Definition BlockRootAtIndex (state : BeaconState BV) (idx : Z) : outcome Z :=
  match BlockRoots state !! Z.to_nat idx with Some r => Ret r | None => Err "index out of bounds" end.

Definition BlockRootAtSlot (state : BeaconState BV) (slot : Z) : outcome Z :=
  if maxUint64 - slot <? SlotsPerHistoricalRoot then Err "slot overflows uint64" else
  if (StateSlot state <=? slot) || (slot +w SlotsPerHistoricalRoot <? StateSlot state)
  then Err "slot out of bounds"
  else BlockRootAtIndex state (slot mod SlotsPerHistoricalRoot).

Definition BlockRoot (state : BeaconState BV) (epoch : Z) : outcome Z :=
  s <-? EpochStart epoch ;; BlockRootAtSlot state s.

(** ** Justification and finalization *)

Definition processJustificationBits (state : BeaconState BV)
    (totalActiveBalance prevEpochTargetBalance currEpochTargetBalance : Z) : BV :=
  let newBits := Shift1 (JustificationBits state) in
  let newBits := if 2 *w totalActiveBalance <=? 3 *w prevEpochTargetBalance then SetBitAt newBits 1 true else newBits in
  if 2 *w totalActiveBalance <=? 3 *w currEpochTargetBalance then SetBitAt newBits 0 true else newBits.

Definition computeCheckpoints (state : BeaconState BV) (newBits : BV) : outcome (EthCheckpoint * EthCheckpoint) :=
  let prevEpoch := PrevEpoch state in
  let currentEpoch := CurrentEpoch state in
  let oldPrevJustifiedCheckpoint := PreviousJustifiedCheckpoint state in
  let oldCurrJustifiedCheckpoint := CurrentJustifiedCheckpoint state in
  let justifiedCheckpoint := CurrentJustifiedCheckpoint state in
  let finalizedCheckpoint := FinalizedCheckpoint state in
  justifiedCheckpoint <-?
    (if BitAt newBits 0 && (CheckpointEpoch justifiedCheckpoint <=? currentEpoch) then
       blockRoot <-? omap_err (λ e, wrapErr e "could not get block root for current epoch") (BlockRoot state currentEpoch) ;;
       Ret (mkEthCheckpoint currentEpoch blockRoot)
     else if BitAt newBits 1 && (CheckpointEpoch justifiedCheckpoint <=? prevEpoch) then
       blockRoot <-? omap_err (λ e, wrapErr e "could not get block root for previous epoch") (BlockRoot state prevEpoch) ;;
       Ret (mkEthCheckpoint prevEpoch blockRoot)
     else Ret justifiedCheckpoint) ;;
  match Bytes newBits with
  | [] => Err "empty justification bits"
  | justification :: _ =>
      let finalizedCheckpoint :=
        if (Z.land justification 14 =? 14) && (CheckpointEpoch oldPrevJustifiedCheckpoint +w 3 =? currentEpoch)
        then oldPrevJustifiedCheckpoint else finalizedCheckpoint in
      let finalizedCheckpoint :=
        if (Z.land justification 6 =? 6) && (CheckpointEpoch oldPrevJustifiedCheckpoint +w 2 =? currentEpoch)
        then oldPrevJustifiedCheckpoint else finalizedCheckpoint in
      let finalizedCheckpoint :=
        if (Z.land justification 7 =? 7) && (CheckpointEpoch oldCurrJustifiedCheckpoint +w 2 =? currentEpoch)
        then oldCurrJustifiedCheckpoint else finalizedCheckpoint in
      let finalizedCheckpoint :=
        if (Z.land justification 3 =? 3) && (CheckpointEpoch oldCurrJustifiedCheckpoint +w 1 =? currentEpoch)
        then oldCurrJustifiedCheckpoint else finalizedCheckpoint in
      Ret (justifiedCheckpoint, finalizedCheckpoint)
  end.

Definition weighJustificationAndFinalization (state : BeaconState BV) (newBits : BV) : outcome (BeaconState BV) :=
  r <-? computeCheckpoints state newBits ;;
  let '(jc, fc) := r in
  Ret (mkBeaconState (StateSlot state) newBits (CurrentJustifiedCheckpoint state) jc fc (BlockRoots state)).

Definition ProcessJustificationAndFinalizationPreCompute (state : BeaconState BV) (pBal : Balance)
    : outcome (BeaconState BV) :=
  canProcessSlot <-? EpochStart 2 ;;
  if StateSlot state <=? canProcessSlot then Ret state else
  let newBits := processJustificationBits state (ActiveCurrentEpoch pBal) (PrevEpochTargetAttested pBal)
                   (CurrentEpochTargetAttested pBal) in
  weighJustificationAndFinalization state newBits.

(** [balances] is the result of the state's [UnrealizedCheckpointBalances]. *)
Definition UnrealizedCheckpoints (st : option (BeaconState BV)) (balances : outcome (Z * Z * Z))
    : outcome (EthCheckpoint * EthCheckpoint) :=
  match st with
  | None => Err "nil state"
  | Some st =>
      if ToEpoch (StateSlot st) <=? GenesisEpoch +w 1
      then Ret (CurrentJustifiedCheckpoint st, FinalizedCheckpoint st)
      else
        r <-? balances ;;
        let '(activeBalance, prevTarget, currentTarget) := r in
        let justification := processJustificationBits st activeBalance prevTarget currentTarget in
        computeCheckpoints st justification
  end.

(** ** One slot of the chain

    The part of [ProcessSlotsCore]'s loop body that touches these fields: the root of
    the latest block is recorded for the slot, the epoch is processed at its last
    slot, and the slot advances.  The block root and the precomputed balances depend
    on the rest of the state and are inputs. *)

Definition cacheBlockRoot (state : BeaconState BV) (prevBlockRoot : Z) : outcome (BeaconState BV) :=
  let idx := Z.to_nat (StateSlot state mod SlotsPerHistoricalRoot) in
  if (idx <? length (BlockRoots state))%nat
  then Ret (mkBeaconState (StateSlot state) (JustificationBits state) (PreviousJustifiedCheckpoint state)
              (CurrentJustifiedCheckpoint state) (FinalizedCheckpoint state) (<[idx := prevBlockRoot]> (BlockRoots state)))
  else Err "index out of bounds".

Definition setSlot (state : BeaconState BV) (slot : Z) : BeaconState BV :=
  mkBeaconState slot (JustificationBits state) (PreviousJustifiedCheckpoint state)
    (CurrentJustifiedCheckpoint state) (FinalizedCheckpoint state) (BlockRoots state).

Definition processSlot (state : BeaconState BV) (input : Z * Balance) : outcome (BeaconState BV) :=
  state <-? cacheBlockRoot state input.1 ;;
  state <-? (if CanProcessEpoch state then ProcessJustificationAndFinalizationPreCompute state input.2 else Ret state) ;;
  Ret (setSlot state (StateSlot state +w 1)).

(** The loop, over the inputs of its slots. *)
Fixpoint processSlots (state : BeaconState BV) (inputs : list (Z * Balance)) : outcome (BeaconState BV) :=
  match inputs with
  | [] => Ret state
  | input :: rest => state <-? processSlot state input ;; processSlots state rest
  end.
End justification.
