(* ===== verification/JustificationCorrect.v ===== *)
(** * Finality

    What the epoch transitions of [Justification.v] do to the checkpoints along any
    run of the chain: the code agrees with the pseudocode of the consensus
    specification, finality never goes back, a finalized epoch and its successor
    both had two thirds of the balance behind their targets, and two such epochs in
    a row are enough to finalize. *)

From S2P Require Import Prelude MathHelper Primitives SlotTime Shuffle Committee.
From S2P Require Import Justification.

(** ** The first byte of the bits *)

Lemma low_bits byte : 0 ≤ byte mod 16 < 16 ∧
  (∀ m, Z.land 15 m = m → Z.land byte m = Z.land (byte mod 16) m) ∧
  (∀ k, 0 ≤ k < 4 → Z.testbit byte k = Z.testbit (byte mod 16) k).
Proof.
  split; [apply Z.mod_pos_bound; lia|]. change 16 with (2 ^ 4). rewrite <- Z.land_ones by lia. split.
  - intros m Hm. change (Z.ones 4) with 15. by rewrite <- Z.land_assoc, Hm.
  - intros k Hk. rewrite Z.land_spec, Z.ones_spec_low by lia. by rewrite andb_true_r.
Qed.

(** The four masks of the finalization rules. *)
Lemma masks byte :
  (Z.land byte 14 =? 14) = Z.testbit byte 1 && Z.testbit byte 2 && Z.testbit byte 3 ∧
  (Z.land byte 6 =? 6) = Z.testbit byte 1 && Z.testbit byte 2 ∧
  (Z.land byte 7 =? 7) = Z.testbit byte 0 && Z.testbit byte 1 && Z.testbit byte 2 ∧
  (Z.land byte 3 =? 3) = Z.testbit byte 0 && Z.testbit byte 1.
Proof.
  destruct (low_bits byte) as (Hr & Hm & Hb).
  rewrite !Hm by reflexivity. rewrite (Hb 0), (Hb 1), (Hb 2), (Hb 3) by lia.
  set (x := byte mod 16) in *. clearbody x. clear Hm Hb.
  assert (x ∈ seqZ 0 16) as Hx by (apply elem_of_seqZ; lia).
  revert x Hx Hr. apply (Forall_forall (λ x, _ → _)). vm_compute. repeat (constructor; [by intros|]). constructor.
Qed.

(** ** The specification

    [weigh_justification_and_finalization] as the comment on [computeCheckpoints]
    quotes it, on unbounded integers and a list of four bits. *)

Section spec.
Context `{BeaconChainConfig} {BV : Type} `{Bitvector4 BV}.

Definition specBlockRoot (st : BeaconState BV) (epoch : Z) : outcome Z :=
  let slot := epoch * SlotsPerEpoch in
  if (slot <? StateSlot st) && (StateSlot st <=? slot + SlotsPerHistoricalRoot) then
    match BlockRoots st !! Z.to_nat (slot mod SlotsPerHistoricalRoot) with
    | Some r => Ret r
    | None => Err "assertion failed"
    end
  else Err "assertion failed".

Definition specWeigh (st : BeaconState BV) (bal : Balance) : outcome (list bool * EthCheckpoint * EthCheckpoint) :=
  let current := CurrentEpoch st in
  let previous := PrevEpoch st in
  let bit := BitAt (JustificationBits st) in
  let prevSuper := ActiveCurrentEpoch bal * 2 <=? PrevEpochTargetAttested bal * 3 in
  let currSuper := ActiveCurrentEpoch bal * 2 <=? CurrentEpochTargetAttested bal * 3 in
  jc <-? (if prevSuper then r <-? specBlockRoot st previous ;; Ret (mkEthCheckpoint previous r)
          else Ret (CurrentJustifiedCheckpoint st)) ;;
  jc <-? (if currSuper then r <-? specBlockRoot st current ;; Ret (mkEthCheckpoint current r) else Ret jc) ;;
  let b0 := currSuper in
  let b1 := bit 0 || prevSuper in
  let b2 := bit 1 in
  let b3 := bit 2 in
  let oldPrev := PreviousJustifiedCheckpoint st in
  let oldCurr := CurrentJustifiedCheckpoint st in
  let fc := FinalizedCheckpoint st in
  let fc := if b1 && b2 && b3 && (CheckpointEpoch oldPrev + 3 =? current) then oldPrev else fc in
  let fc := if b1 && b2 && (CheckpointEpoch oldPrev + 2 =? current) then oldPrev else fc in
  let fc := if b0 && b1 && b2 && (CheckpointEpoch oldCurr + 2 =? current) then oldCurr else fc in
  let fc := if b0 && b1 && (CheckpointEpoch oldCurr + 1 =? current) then oldCurr else fc in
  Ret ([b0; b1; b2; b3], jc, fc).
End spec.

(** ** Runs of the chain *)

(** No product of the comparison with two thirds wraps. *)
Definition balance_ok (b : Balance) : Prop :=
  0 ≤ ActiveCurrentEpoch b ∧ 3 * ActiveCurrentEpoch b < two64 ∧
  0 ≤ PrevEpochTargetAttested b ∧ 3 * PrevEpochTargetAttested b < two64 ∧
  0 ≤ CurrentEpochTargetAttested b ∧ 3 * CurrentEpochTargetAttested b < two64.

(** Two thirds of the balance attested to the target of an epoch, as seen at the end of
    that epoch or of the next one.  A history lists the processed epochs with their
    balances. *)
Definition voted (hist : list (Z * Balance)) (e : Z) : Prop :=
  ∃ b, (e, b) ∈ hist ∧ 2 * ActiveCurrentEpoch b ≤ 3 * CurrentEpochTargetAttested b ∨
       (e + 1, b) ∈ hist ∧ 2 * ActiveCurrentEpoch b ≤ 3 * PrevEpochTargetAttested b.

Lemma voted_cons hist e x : voted hist e → voted (x :: hist) e.
Proof. intros (b & [[? ?]|[? ?]]); exists b; [left|right]; set_solver. Qed.

Section run.
Context `{BeaconChainConfig} {BV : Type} `{Bitvector4 BV, !Bitvector4Laws BV}.

(** The genesis state, and every state that processing slots leads to. *)
Inductive reachable : BeaconState BV → list (Z * Balance) → Prop :=
| reach_genesis st :
    StateSlot st = 0 → (∀ k, 0 ≤ k < 4 → BitAt (JustificationBits st) k = false) →
    CheckpointEpoch (PreviousJustifiedCheckpoint st) = 0 → CheckpointEpoch (CurrentJustifiedCheckpoint st) = 0 →
    CheckpointEpoch (FinalizedCheckpoint st) = 0 → Z.of_nat (length (BlockRoots st)) = SlotsPerHistoricalRoot →
    reachable st []
| reach_slot st hist root bal st' :
    reachable st hist → StateSlot st + SlotsPerHistoricalRoot < maxUint64 → balance_ok bal →
    processSlot st (root, bal) = Ret st' →
    reachable st' (if CanProcessEpoch st then (CurrentEpoch st, bal) :: hist else hist).

(** The invariant.  [c] is the epoch of the state, so that the bits were last written at the
    end of epoch [c - 1]. *)
Record ffg_inv (st : BeaconState BV) (hist : list (Z * Balance)) : Prop := {
  inv_slot : 0 ≤ StateSlot st;
  inv_roots : Z.of_nat (length (BlockRoots st)) = SlotsPerHistoricalRoot;
  inv_order : 0 ≤ CheckpointEpoch (FinalizedCheckpoint st) ≤ CheckpointEpoch (PreviousJustifiedCheckpoint st) ∧
    CheckpointEpoch (PreviousJustifiedCheckpoint st) ≤ CheckpointEpoch (CurrentJustifiedCheckpoint st) ∧
    CheckpointEpoch (CurrentJustifiedCheckpoint st) ≤ Z.max 0 (CurrentEpoch st - 1);
  inv_early : CurrentEpoch st ≤ 2 → ∀ k, 0 ≤ k < 4 → BitAt (JustificationBits st) k = false;
  inv_latest : BitAt (JustificationBits st) 0 = true →
    CheckpointEpoch (CurrentJustifiedCheckpoint st) = CurrentEpoch st - 1 ∧
    BlockRoots st !! Z.to_nat ((CurrentEpoch st - 1) * SlotsPerEpoch mod SlotsPerHistoricalRoot)
      = Some (CheckpointRoot (CurrentJustifiedCheckpoint st));
  inv_bits k : 0 ≤ k < 4 → BitAt (JustificationBits st) k = true → voted hist (CurrentEpoch st - 1 - k);
  inv_final : CheckpointEpoch (FinalizedCheckpoint st) = 0 ∨
    voted hist (CheckpointEpoch (FinalizedCheckpoint st)) ∧ voted hist (CheckpointEpoch (FinalizedCheckpoint st) + 1)
}.

Context (Hspe : 1 < SlotsPerEpoch).

(** *** One epoch transition *)

Lemma BlockRoot_spec (st : BeaconState BV) e :
  0 ≤ e → Z.of_nat (length (BlockRoots st)) = SlotsPerHistoricalRoot →
  e * SlotsPerEpoch < StateSlot st ≤ e * SlotsPerEpoch + SlotsPerHistoricalRoot →
  StateSlot st + SlotsPerHistoricalRoot < maxUint64 →
  ∃ r, BlockRoot st e = Ret r ∧ specBlockRoot st e = Ret r ∧
    BlockRoots st !! Z.to_nat (e * SlotsPerEpoch mod SlotsPerHistoricalRoot) = Some r.
Proof using Hspe.
  intros He Hlen Hs Hmax. pose proof SlotsPerHistoricalRoot_range. unfold maxUint64 in *.
  pose proof SlotsPerEpoch_range. unfold two63 in *.
  assert (0 ≤ e ≤ e * SlotsPerEpoch) by nia. assert (0 < SlotsPerHistoricalRoot) as Hp by lia.
  pose proof (Z.mod_pos_bound (e * SlotsPerEpoch) SlotsPerHistoricalRoot Hp).
  destruct (lookup_lt_is_Some_2 (BlockRoots st) (Z.to_nat (e * SlotsPerEpoch mod SlotsPerHistoricalRoot))) as [r Hr]; [lia|].
  exists r. unfold BlockRoot, EpochStart, Slot_SafeMul. rewrite Mul64_spec by (unfold is_u64, two64; lia).
  rewrite (proj2 (Z.ltb_lt _ _)) by (unfold two64; lia). cbn [omap_err obind].
  unfold BlockRootAtSlot, BlockRootAtIndex, specBlockRoot, maxUint64. rewrite (Z.mul_comm SlotsPerEpoch).
  rewrite (wrap64_small (_ + _)) by (unfold is_u64, two64; lia).
  rewrite !(proj2 (Z.ltb_ge _ _)), (proj2 (Z.leb_gt _ _)), (proj2 (Z.ltb_lt _ _)), (proj2 (Z.leb_le _ _)) by lia.
  cbn [orb andb]. rewrite Hr. done.
Qed.

Lemma last_slot (st : BeaconState BV) :
  0 ≤ StateSlot st → StateSlot st + 1 < two64 → CanProcessEpoch st = true →
  StateSlot st = CurrentEpoch st * SlotsPerEpoch + (SlotsPerEpoch - 1).
Proof using Hspe.
  intros Hs Hm Hc%Z.eqb_eq. rewrite wrap64_small in Hc by (unfold is_u64; lia). unfold CurrentEpoch, ToEpoch.
  assert (SlotsPerEpoch ≠ 0) as Hne by lia.
  pose proof (Z.div_mod (StateSlot st) SlotsPerEpoch Hne) as Hd. pose proof (Z.div_mod (StateSlot st + 1) SlotsPerEpoch Hne) as Hd1.
  pose proof (Z.mod_pos_bound (StateSlot st) SlotsPerEpoch SlotsPerEpoch_pos). rewrite Hc in Hd1.
  assert ((StateSlot st + 1) / SlotsPerEpoch - StateSlot st / SlotsPerEpoch = 1) by nia. nia.
Qed.

Definition currSuper (bal : Balance) : bool := ActiveCurrentEpoch bal * 2 <=? CurrentEpochTargetAttested bal * 3.
Definition prevSuper (bal : Balance) : bool := ActiveCurrentEpoch bal * 2 <=? PrevEpochTargetAttested bal * 3.

(** The bits after a transition. *)
Lemma newBits_spec (st : BeaconState BV) bal :
  balance_ok bal →
  let bits := processJustificationBits st (ActiveCurrentEpoch bal) (PrevEpochTargetAttested bal) (CurrentEpochTargetAttested bal) in
  let bit := BitAt (JustificationBits st) in
  BitAt bits 0 = currSuper bal ∧ BitAt bits 1 = bit 0 || prevSuper bal ∧ BitAt bits 2 = bit 1 ∧ BitAt bits 3 = bit 2.
Proof using Bitvector4Laws0.
  intros (? & ? & ? & ? & ? & ?). cbn zeta. unfold processJustificationBits, currSuper, prevSuper.
  rewrite !wrap64_small by (unfold is_u64; lia). rewrite !(Z.mul_comm _ 2), !(Z.mul_comm _ 3).
  destruct (_ <=? 3 * PrevEpochTargetAttested bal), (_ <=? 3 * CurrentEpochTargetAttested bal);
    rewrite ?BitAt_SetBitAt, ?BitAt_Shift1 by lia; cbn; by rewrite ?orb_true_r, ?orb_false_r.
Qed.

(** What the finalization rules do to the checkpoint, in terms of the four bits. *)
Definition finalizes (b0 b1 b2 b3 : bool) (c : Z) (oldPrev oldCurr fin : EthCheckpoint) : EthCheckpoint :=
  let fc := if b1 && b2 && b3 && (CheckpointEpoch oldPrev + 3 =? c) then oldPrev else fin in
  let fc := if b1 && b2 && (CheckpointEpoch oldPrev + 2 =? c) then oldPrev else fc in
  let fc := if b0 && b1 && b2 && (CheckpointEpoch oldCurr + 2 =? c) then oldCurr else fc in
  if b0 && b1 && (CheckpointEpoch oldCurr + 1 =? c) then oldCurr else fc.

(** The same on the byte, as the code writes it. *)
Definition finalizesByte (byte c : Z) (oldPrev oldCurr fin : EthCheckpoint) : EthCheckpoint :=
  let fc := if (Z.land byte 14 =? 14) && (CheckpointEpoch oldPrev +w 3 =? c) then oldPrev else fin in
  let fc := if (Z.land byte 6 =? 6) && (CheckpointEpoch oldPrev +w 2 =? c) then oldPrev else fc in
  let fc := if (Z.land byte 7 =? 7) && (CheckpointEpoch oldCurr +w 2 =? c) then oldCurr else fc in
  if (Z.land byte 3 =? 3) && (CheckpointEpoch oldCurr +w 1 =? c) then oldCurr else fc.

Lemma finalizes_byte b c (oldPrev oldCurr fin : EthCheckpoint) :
  0 ≤ CheckpointEpoch oldPrev < two63 → 0 ≤ CheckpointEpoch oldCurr < two63 →
  ∃ byte, Bytes b = [byte] ∧
    finalizesByte byte c oldPrev oldCurr fin =
    finalizes (BitAt b 0) (BitAt b 1) (BitAt b 2) (BitAt b 3) c oldPrev oldCurr fin.
Proof using Bitvector4Laws0.
  intros Hp Hc. destruct (Bytes_testbit b 0) as (byte & Hb & H0'); [lia|].
  destruct (Bytes_testbit b 1) as (? & Hb1 & H1'); [lia|]. destruct (Bytes_testbit b 2) as (? & Hb2 & H2'); [lia|].
  destruct (Bytes_testbit b 3) as (? & Hb3 & H3'); [lia|].
  rewrite Hb in Hb1, Hb2, Hb3. injection Hb1 as <-. injection Hb2 as <-. injection Hb3 as <-.
  exists byte. split; [done|]. unfold finalizesByte. destruct (masks byte) as (-> & -> & -> & ->).
  rewrite !wrap64_small by (unfold is_u64, two64, two63 in *; lia). unfold finalizes.
  by rewrite H0', H1', H2', H3'.
Qed.

(** Whether the code gets as far as the transition. *)
Lemma process_guard (st : BeaconState BV) bal :
  StateSlot st + SlotsPerHistoricalRoot < maxUint64 →
  StateSlot st = CurrentEpoch st * SlotsPerEpoch + (SlotsPerEpoch - 1) → 0 ≤ CurrentEpoch st →
  ProcessJustificationAndFinalizationPreCompute st bal =
  if CurrentEpoch st <=? 1 then Ret st else
  weighJustificationAndFinalization st
    (processJustificationBits st (ActiveCurrentEpoch bal) (PrevEpochTargetAttested bal) (CurrentEpochTargetAttested bal)).
Proof using Hspe.
  intros Hm Hs Hc. pose proof SlotsPerHistoricalRoot_range. unfold maxUint64, two63 in *.
  unfold ProcessJustificationAndFinalizationPreCompute, EpochStart, Slot_SafeMul.
  rewrite Mul64_spec by (unfold is_u64, two64; lia). rewrite (proj2 (Z.ltb_lt _ _)) by (unfold two64; lia). cbn [omap_err obind].
  destruct (Z.leb_spec (CurrentEpoch st) 1).
  - rewrite (proj2 (Z.leb_le _ _)); [done|]. nia.
  - rewrite (proj2 (Z.leb_gt _ _)); [done|]. nia.
Qed.

Lemma specWeigh_eq (st : BeaconState BV) bal :
  specWeigh st bal =
  (jc <-? (if prevSuper bal then r <-? specBlockRoot st (PrevEpoch st) ;; Ret (mkEthCheckpoint (PrevEpoch st) r)
          else Ret (CurrentJustifiedCheckpoint st)) ;;
   jc <-? (if currSuper bal then r <-? specBlockRoot st (CurrentEpoch st) ;; Ret (mkEthCheckpoint (CurrentEpoch st) r)
           else Ret jc) ;;
   let bit := BitAt (JustificationBits st) in
   Ret ([currSuper bal; bit 0 || prevSuper bal; bit 1; bit 2], jc,
        finalizes (currSuper bal) (bit 0 || prevSuper bal) (bit 1) (bit 2) (CurrentEpoch st)
          (PreviousJustifiedCheckpoint st) (CurrentJustifiedCheckpoint st) (FinalizedCheckpoint st))).
Proof using Type. reflexivity. Qed.

Lemma compute_spec (st : BeaconState BV) bal bits r p byte :
  BlockRoot st (CurrentEpoch st) = Ret r → specBlockRoot st (CurrentEpoch st) = Ret r →
  BlockRoot st (CurrentEpoch st - 1) = Ret p → specBlockRoot st (CurrentEpoch st - 1) = Ret p →
  PrevEpoch st = CurrentEpoch st - 1 →
  BitAt bits 0 = currSuper bal → BitAt bits 1 = BitAt (JustificationBits st) 0 || prevSuper bal →
  BitAt bits 2 = BitAt (JustificationBits st) 1 → BitAt bits 3 = BitAt (JustificationBits st) 2 →
  Bytes bits = [byte] →
  finalizesByte byte (CurrentEpoch st) (PreviousJustifiedCheckpoint st) (CurrentJustifiedCheckpoint st) (FinalizedCheckpoint st) =
  finalizes (BitAt bits 0) (BitAt bits 1) (BitAt bits 2) (BitAt bits 3) (CurrentEpoch st)
    (PreviousJustifiedCheckpoint st) (CurrentJustifiedCheckpoint st) (FinalizedCheckpoint st) →
  CheckpointEpoch (CurrentJustifiedCheckpoint st) ≤ CurrentEpoch st - 1 →
  (BitAt (JustificationBits st) 0 = true → CurrentJustifiedCheckpoint st = mkEthCheckpoint (CurrentEpoch st - 1) p) →
  let jc := if currSuper bal then mkEthCheckpoint (CurrentEpoch st) r
            else if prevSuper bal then mkEthCheckpoint (CurrentEpoch st - 1) p else CurrentJustifiedCheckpoint st in
  let fc := finalizes (BitAt bits 0) (BitAt bits 1) (BitAt bits 2) (BitAt bits 3) (CurrentEpoch st)
    (PreviousJustifiedCheckpoint st) (CurrentJustifiedCheckpoint st) (FinalizedCheckpoint st) in
  computeCheckpoints st bits = Ret (jc, fc) ∧
  specWeigh st bal = Ret ([BitAt bits 0; BitAt bits 1; BitAt bits 2; BitAt bits 3], jc, fc).
Proof using Type.
  intros Hr Hr' Hp Hp' Hprev Hb0 Hb1 Hb2 Hb3 Hbyte Hfin Hcj Hlat. cbn zeta. unfold finalizesByte in Hfin.
  rewrite specWeigh_eq. unfold computeCheckpoints. rewrite Hprev, Hr, Hp, Hr', Hp', Hbyte. cbn zeta. rewrite Hfin.
  rewrite <- Hb0, <- Hb1, <- Hb2, <- Hb3. set (fc := finalizes _ _ _ _ _ _ _ _). clearbody fc. rewrite Hb0, Hb1.
  rewrite !(proj2 (Z.leb_le (CheckpointEpoch _) _)) by lia. rewrite !andb_true_r.
  destruct (currSuper bal), (prevSuper bal), (BitAt (JustificationBits st) 0); cbn; (split; [|done]); try done.
  by rewrite Hlat.
Qed.

(** One transition: the code computes the specification's bits and checkpoints. *)
Lemma process_spec (st : BeaconState BV) bal :
  StateSlot st + SlotsPerHistoricalRoot < maxUint64 → balance_ok bal →
  StateSlot st = CurrentEpoch st * SlotsPerEpoch + (SlotsPerEpoch - 1) → 2 ≤ CurrentEpoch st →
  Z.of_nat (length (BlockRoots st)) = SlotsPerHistoricalRoot →
  0 ≤ CheckpointEpoch (PreviousJustifiedCheckpoint st) ≤ CheckpointEpoch (CurrentJustifiedCheckpoint st) →
  CheckpointEpoch (CurrentJustifiedCheckpoint st) ≤ CurrentEpoch st - 1 →
  (BitAt (JustificationBits st) 0 = true →
    CheckpointEpoch (CurrentJustifiedCheckpoint st) = CurrentEpoch st - 1 ∧
    BlockRoots st !! Z.to_nat ((CurrentEpoch st - 1) * SlotsPerEpoch mod SlotsPerHistoricalRoot)
      = Some (CheckpointRoot (CurrentJustifiedCheckpoint st))) →
  ∃ bits jc fc,
    ProcessJustificationAndFinalizationPreCompute st bal =
      Ret (mkBeaconState (StateSlot st) bits (CurrentJustifiedCheckpoint st) jc fc (BlockRoots st)) ∧
    specWeigh st bal = Ret ([BitAt bits 0; BitAt bits 1; BitAt bits 2; BitAt bits 3], jc, fc) ∧
    BitAt bits 0 = currSuper bal ∧ BitAt bits 1 = BitAt (JustificationBits st) 0 || prevSuper bal ∧
    BitAt bits 2 = BitAt (JustificationBits st) 1 ∧ BitAt bits 3 = BitAt (JustificationBits st) 2 ∧
    fc = finalizes (BitAt bits 0) (BitAt bits 1) (BitAt bits 2) (BitAt bits 3) (CurrentEpoch st)
           (PreviousJustifiedCheckpoint st) (CurrentJustifiedCheckpoint st) (FinalizedCheckpoint st) ∧
    (if currSuper bal then CheckpointEpoch jc = CurrentEpoch st ∧
       BlockRoots st !! Z.to_nat (CurrentEpoch st * SlotsPerEpoch mod SlotsPerHistoricalRoot) = Some (CheckpointRoot jc)
     else if prevSuper bal then CheckpointEpoch jc = CurrentEpoch st - 1 else jc = CurrentJustifiedCheckpoint st).
Proof using Hspe Bitvector4Laws0.
  intros Hm Hbal Hs Hc Hlen Hpj Hcj Hlat. pose proof SlotsPerHistoricalRoot_range. rewrite process_guard by (done || lia).
  rewrite (proj2 (Z.leb_gt _ _)) by lia. set (bits := processJustificationBits _ _ _ _).
  destruct (newBits_spec st bal Hbal) as (Hb0 & Hb1 & Hb2 & Hb3). fold bits in Hb0, Hb1, Hb2, Hb3.
  assert (PrevEpoch st = CurrentEpoch st - 1) as Hprev.
  { unfold PrevEpoch. by rewrite (proj2 (Z.eqb_neq _ _)) by lia. }
  destruct (BlockRoot_spec st (CurrentEpoch st)) as (r & Hr & Hr' & Hr''); [lia|done|lia|done|].
  destruct (BlockRoot_spec st (CurrentEpoch st - 1)) as (p & Hp & Hp' & Hp''); [lia|done|nia|done|].
  assert (CurrentEpoch st < two63) as Hc63 by (unfold maxUint64, two63 in *; nia).
  destruct (finalizes_byte bits (CurrentEpoch st) (PreviousJustifiedCheckpoint st) (CurrentJustifiedCheckpoint st)
    (FinalizedCheckpoint st)) as (byte & Hbyte & Hfin); [lia..|].
  destruct (compute_spec st bal bits r p byte) as [Hcode Hspec]; [done..|lia| |].
  { intros [Hje Hjr]%Hlat. rewrite Hp'' in Hjr. destruct (CurrentJustifiedCheckpoint st). cbn in *. congruence. }
  unfold weighJustificationAndFinalization. rewrite Hcode. cbn [obind].
  do 3 eexists. split; [done|]. split; [exact Hspec|]. split_and!; [done..|].
  destruct (currSuper bal), (prevSuper bal); done.
Qed.

(** *** The invariant along a run *)

Lemma cacheBlockRoot_inv st hist root :
  ffg_inv st hist →
  ∃ st1, cacheBlockRoot st root = Ret st1 ∧ ffg_inv st1 hist ∧
    StateSlot st1 = StateSlot st ∧ JustificationBits st1 = JustificationBits st ∧
    CurrentJustifiedCheckpoint st1 = CurrentJustifiedCheckpoint st ∧
    PreviousJustifiedCheckpoint st1 = PreviousJustifiedCheckpoint st ∧ FinalizedCheckpoint st1 = FinalizedCheckpoint st ∧
    BlockRoots st1 = <[Z.to_nat (StateSlot st mod SlotsPerHistoricalRoot) := root]> (BlockRoots st).
Proof using Hspe.
  intros [Hs Hlen Hord Hearly Hlat Hbits Hfin]. pose proof SlotsPerHistoricalRoot_range.
  assert (0 < SlotsPerHistoricalRoot) as Hp by lia. pose proof (Z.mod_pos_bound (StateSlot st) SlotsPerHistoricalRoot Hp).
  unfold cacheBlockRoot. rewrite (proj2 (Nat.ltb_lt _ _)) by lia. eexists. split; [done|]. split; [|done].
  split; cbn; try done; [by rewrite length_insert|].
  unfold CurrentEpoch in *. cbn. intros Hb. destruct (Hlat Hb) as [He Hr]. split; [done|].
  assert (2 < ToEpoch (StateSlot st)) as Hc.
  { destruct (decide (ToEpoch (StateSlot st) ≤ 2)); [|lia]. rewrite Hearly in Hb; [done|done|lia]. }
  rewrite list_lookup_insert_ne; [done|]. unfold ToEpoch in *. set (q := StateSlot st / SlotsPerEpoch) in *.
  assert (SlotsPerEpoch ≠ 0) as Hne by lia. pose proof (Z.div_mod (StateSlot st) SlotsPerEpoch Hne) as Hd. fold q in Hd.
  pose proof (Z.mod_pos_bound (StateSlot st) SlotsPerEpoch SlotsPerEpoch_pos).
  pose proof (Z.mod_pos_bound ((q - 1) * SlotsPerEpoch) SlotsPerHistoricalRoot Hp).
  intros Heq%Z2Nat.inj; [|lia..].
  assert (0 < StateSlot st - (q - 1) * SlotsPerEpoch < SlotsPerHistoricalRoot) by nia.
  assert (SlotsPerHistoricalRoot ≠ 0) as Hpne by lia.
  destruct (Z.mod_divide (StateSlot st - (q - 1) * SlotsPerEpoch) SlotsPerHistoricalRoot Hpne) as [Hdiv _].
  rewrite Zminus_mod, Heq, Z.sub_diag, Zmod_0_l in Hdiv. destruct (Hdiv eq_refl) as [z Hz].
  rewrite Hz in *. destruct (Z.le_gt_cases z 0); nia.
Qed.

(** The epoch of the next slot. *)
Lemma next_epoch (st : BeaconState BV) :
  0 ≤ StateSlot st → StateSlot st + 1 < two64 →
  ToEpoch (StateSlot st + 1) = if CanProcessEpoch st then CurrentEpoch st + 1 else CurrentEpoch st.
Proof using Hspe.
  intros Hs Hm. pose proof (last_slot st Hs Hm) as Hlast. unfold CurrentEpoch, ToEpoch in *.
  assert (SlotsPerEpoch ≠ 0) as Hne by lia. pose proof (Z.mod_pos_bound (StateSlot st) SlotsPerEpoch SlotsPerEpoch_pos).
  pose proof (Z.div_mod (StateSlot st) SlotsPerEpoch Hne) as Hd. destruct (CanProcessEpoch st) eqn:Hc.
  - specialize (Hlast eq_refl). set (q := StateSlot st / SlotsPerEpoch) in *. rewrite Hlast.
    replace (_ + 1) with ((q + 1) * SlotsPerEpoch) by lia. by apply Z.div_mul.
  - apply Z.eqb_neq in Hc. rewrite wrap64_small in Hc by (unfold is_u64; lia).
    assert (StateSlot st mod SlotsPerEpoch + 1 < SlotsPerEpoch) as Hlt.
    { destruct (decide (StateSlot st mod SlotsPerEpoch + 1 < SlotsPerEpoch)); [done|]. destruct Hc.
      replace (StateSlot st + 1) with ((StateSlot st / SlotsPerEpoch + 1) * SlotsPerEpoch) by lia. by apply Z.mod_mul. }
    symmetry. apply (Z.div_unique_pos _ _ _ (StateSlot st mod SlotsPerEpoch + 1)); lia.
Qed.

(** Which checkpoints the rules can finalize: one whose epoch and the next are marked. *)
Lemma finalizes_cases (bit : Z → bool) c oldPrev oldCurr fin :
  let fc := finalizes (bit 0) (bit 1) (bit 2) (bit 3) c oldPrev oldCurr fin in
  fc = fin ∨
  (fc = oldPrev ∨ fc = oldCurr) ∧
    ∃ k, 1 ≤ k < 4 ∧ CheckpointEpoch fc = c - k ∧ bit k = true ∧ bit (k - 1) = true.
Proof using Type.
  cbn zeta. unfold finalizes.
  destruct (bit 0 && bit 1 && _) eqn:E1; [|destruct (bit 0 && bit 1 && bit 2 && _) eqn:E2;
    [|destruct (bit 1 && bit 2 && (_ + 2 =? c)) eqn:E3; [|destruct (bit 1 && bit 2 && bit 3 && _) eqn:E4; [|by left]]]]; right;
    (split; [by (left + right)|]); bprop; [exists 1|exists 2|exists 2|exists 3]; (split_and!; [lia..|done|done]).
Qed.

(** A transition at the end of an epoch from 2 on. *)
Lemma transition_inv st hist bal :
  ffg_inv st hist → StateSlot st + SlotsPerHistoricalRoot < maxUint64 → balance_ok bal →
  CanProcessEpoch st = true → 2 ≤ CurrentEpoch st →
  ∃ st', ProcessJustificationAndFinalizationPreCompute st bal = Ret st' ∧
    ffg_inv (setSlot st' (StateSlot st + 1)) ((CurrentEpoch st, bal) :: hist) ∧
    StateSlot st' = StateSlot st ∧
    CheckpointEpoch (FinalizedCheckpoint st) ≤ CheckpointEpoch (FinalizedCheckpoint st') ∧
    CheckpointEpoch (CurrentJustifiedCheckpoint st) ≤ CheckpointEpoch (CurrentJustifiedCheckpoint st').
Proof using Hspe Bitvector4Laws0.
  intros [Hs Hlen Hord Hearly Hlat Hbits Hfin] Hm Hbal Hcan Hc. pose proof SlotsPerHistoricalRoot_range.
  assert (StateSlot st + 1 < two64) as Hm' by (unfold two64, maxUint64 in *; lia).
  destruct (process_spec st bal) as (bits & jc & fc & Hret & _ & Hb0 & Hb1 & Hb2 & Hb3 & Hfc & Hjc);
    [done|done|by apply last_slot|done|done|lia|lia|done|].
  pose proof (next_epoch st Hs Hm') as Hnext. rewrite Hcan in Hnext.
  assert (CheckpointEpoch (CurrentJustifiedCheckpoint st) ≤ CheckpointEpoch jc ≤ CurrentEpoch st) as Hjo.
  { destruct (currSuper bal); [lia|]. destruct (prevSuper bal); [lia|]. subst jc. lia. }
  assert (∀ k, 0 ≤ k < 4 → BitAt bits k = true → voted ((CurrentEpoch st, bal) :: hist) (CurrentEpoch st - k)) as Hvoted.
  { intros k Hk Hbk. assert (k = 0 ∨ k = 1 ∨ k = 2 ∨ k = 3) as [->|[->|[->| ->]]] by lia.
    - rewrite Hb0 in Hbk. apply Z.leb_le in Hbk. exists bal. left. rewrite Z.sub_0_r. split; [set_solver|lia].
    - rewrite Hb1 in Hbk. apply orb_true_iff in Hbk as [Hbk|Hbk].
      + apply voted_cons. rewrite <- (Z.sub_0_r (_ - 1)). by apply Hbits.
      + apply Z.leb_le in Hbk. exists bal. right. replace (_ - 1 + 1) with (CurrentEpoch st) by lia. split; [set_solver|lia].
    - rewrite Hb2 in Hbk. apply voted_cons. replace (_ - 2) with (CurrentEpoch st - 1 - 1) by lia. by apply Hbits.
    - rewrite Hb3 in Hbk. apply voted_cons. replace (_ - 3) with (CurrentEpoch st - 1 - 2) by lia. by apply Hbits. }
  pose proof (finalizes_cases (BitAt bits) (CurrentEpoch st) (PreviousJustifiedCheckpoint st) (CurrentJustifiedCheckpoint st)
    (FinalizedCheckpoint st)) as Hcases. cbn zeta in Hcases. rewrite <- Hfc in Hcases.
  set (st' := mkBeaconState _ _ _ _ _ _) in Hret. exists st'. split; [exact Hret|]. split; [|split_and!; [done| |cbn; lia]].
  - assert (CurrentEpoch (setSlot st' (StateSlot st + 1)) = CurrentEpoch st + 1) as Hce by exact Hnext.
    split; rewrite ?Hce; cbn; [lia|done| |lia| | |].
    + destruct Hcases as [->|[[->| ->] _]]; lia.
    + rewrite Hb0. intros Hcs. rewrite Hcs in Hjc.
      replace (_ + 1 - 1) with (CurrentEpoch st) by lia. done.
    + intros k Hk Hbk. replace (_ + 1 - 1 - k) with (CurrentEpoch st - k) by lia. by apply Hvoted.
    + destruct Hcases as [->|(_ & k & Hk & He & Hbk & Hbk1)].
      * destruct Hfin as [?|[? ?]]; [by left|]. right. split; by apply voted_cons.
      * right. rewrite He. replace (CurrentEpoch st - k + 1) with (CurrentEpoch st - (k - 1)) by lia.
        split; apply Hvoted; done || lia.
  - cbn. destruct Hcases as [->|[[->| ->] _]]; lia.
Qed.

(** One slot: it never fails, keeps the invariant and moves the checkpoints forward only. *)
Lemma processSlot_inv st hist root bal :
  ffg_inv st hist → StateSlot st + SlotsPerHistoricalRoot < maxUint64 → balance_ok bal →
  ∃ st', processSlot st (root, bal) = Ret st' ∧
    ffg_inv st' (if CanProcessEpoch st then (CurrentEpoch st, bal) :: hist else hist) ∧
    StateSlot st' = StateSlot st + 1 ∧
    CheckpointEpoch (FinalizedCheckpoint st) ≤ CheckpointEpoch (FinalizedCheckpoint st') ∧
    CheckpointEpoch (CurrentJustifiedCheckpoint st) ≤ CheckpointEpoch (CurrentJustifiedCheckpoint st').
Proof using Hspe Bitvector4Laws0.
  intros Hinv Hm Hbal. destruct (cacheBlockRoot_inv st hist root Hinv) as (st1 & Hst1 & Hinv1 & Hs1 & _ & Hj & _ & Hf & _).
  unfold processSlot. cbn [fst snd]. rewrite Hst1. cbn [obind].
  assert (CanProcessEpoch st1 = CanProcessEpoch st) as Hcan by (unfold CanProcessEpoch; by rewrite Hs1).
  assert (CurrentEpoch st1 = CurrentEpoch st) as Hce by (unfold CurrentEpoch; by rewrite Hs1).
  pose proof (inv_slot _ _ Hinv1) as Hs. pose proof SlotsPerHistoricalRoot_range.
  assert (StateSlot st1 + 1 < two64) as Hm' by (unfold two64, maxUint64 in *; lia).
  assert (∀ st' : BeaconState BV, StateSlot st' = StateSlot st1 → StateSlot st' +w 1 = StateSlot st1 + 1) as Hw.
  { intros st' ->. apply wrap64_small. unfold is_u64. lia. }
  pose proof (next_epoch st1 Hs Hm') as Hnext. rewrite <- Hs1 in Hm. rewrite <- Hcan, <- Hce, <- Hj, <- Hf, <- Hs1.
  destruct (CanProcessEpoch st1) eqn:Hc; [destruct (Z.leb_spec 2 (CurrentEpoch st1)) as [H2|H2]|].
  - destruct (transition_inv st1 hist bal Hinv1 Hm Hbal Hc H2) as (st' & -> & Hinv' & Hs' & Hmono). cbn [obind].
    rewrite (Hw st' Hs'). eexists. split; [done|]. split_and!; [done|done|apply Hmono..].
  - assert (0 ≤ CurrentEpoch st1) by (unfold CurrentEpoch, ToEpoch; apply Z.div_pos; lia).
    rewrite process_guard by (done || by apply last_slot). rewrite (proj2 (Z.leb_le _ _)) by lia. cbn [obind].
    rewrite (Hw st1 eq_refl). eexists. split; [done|]. split; [|done]. destruct Hinv1 as [_ Hlen Hord Hearly Hlat Hbits Hfin].
    assert (CurrentEpoch (setSlot st1 (StateSlot st1 + 1)) = CurrentEpoch st1 + 1) as Hce1 by exact Hnext.
    assert (∀ k, 0 ≤ k < 4 → BitAt (JustificationBits st1) k = false) as Hno by (apply Hearly; lia).
    split; rewrite ?Hce1; cbn; [lia|done|lia|done| | |].
    + by rewrite Hno by lia.
    + intros k Hk. by rewrite Hno.
    + destruct Hfin as [?|[? ?]]; [by left|]. right. split; by apply voted_cons.
  - cbn [obind]. rewrite (Hw st1 eq_refl). eexists. split; [done|]. split; [|done].
    assert (CurrentEpoch (setSlot st1 (StateSlot st1 + 1)) = CurrentEpoch st1) as Hce1 by exact Hnext.
    destruct Hinv1. split; rewrite ?Hce1; cbn; (lia || done).
Qed.

Lemma reachable_inv st hist : reachable st hist → ffg_inv st hist.
Proof using Hspe Bitvector4Laws0.
  induction 1 as [st Hs Hb Hp Hc Hf Hl|st hist root bal st' Hr IH Hm Hbal Hret].
  - assert (CurrentEpoch st = 0) as He by (unfold CurrentEpoch, ToEpoch; by rewrite Hs).
    split; rewrite ?He; [lia|done|lia|done| | |by left].
    + by rewrite Hb by lia.
    + intros k Hk Hbk. by rewrite Hb in Hbk by done.
  - destruct (processSlot_inv st hist root bal IH Hm Hbal) as (st'' & Hret' & Hinv & _).
    rewrite Hret in Hret'. injection Hret' as <-. exact Hinv.
Qed.
End run.
