(* ===== verification/Finality.v ===== *)
(** * Finality theorems

    The results of [JustificationCorrect.v] for reachable states: agreement with the
    specification, ordering, safety and liveness of finality; the agreement of the
    unrealized checkpoints with the transition they anticipate; and the balances they
    are computed from. *)

From S2P Require Import Prelude MathHelper Primitives SlotTime Shuffle Committee.
From S2P Require Import Justification JustificationCorrect.

Section finality.
Context `{BeaconChainConfig} {BV : Type} `{Bitvector4 BV, !Bitvector4Laws BV}.
Context (Hspe : 1 < SlotsPerEpoch).

(** ** Runs of slots *)

Lemma processSlots_app (st : BeaconState BV) l1 l2 :
  processSlots st (l1 ++ l2) = obind (processSlots st l1) (λ st', processSlots st' l2).
Proof using Type.
  revert st. induction l1 as [|i l1 IH]; intros st; cbn; [done|]. destruct (processSlot st i); cbn; [apply IH|done..].
Qed.

(** Only the slot and the block roots differ. *)
Definition same_checkpoints (st st' : BeaconState BV) : Prop :=
  JustificationBits st' = JustificationBits st ∧ PreviousJustifiedCheckpoint st' = PreviousJustifiedCheckpoint st ∧
  CurrentJustifiedCheckpoint st' = CurrentJustifiedCheckpoint st ∧ FinalizedCheckpoint st' = FinalizedCheckpoint st.

(** The recorded root of an earlier slot. *)
Definition rootOf (st : BeaconState BV) (slot : Z) : option Z := BlockRoots st !! Z.to_nat (slot mod SlotsPerHistoricalRoot).

Lemma cacheBlockRoot_quiet (st : BeaconState BV) hist root : ffg_inv st hist →
  ∃ st1, cacheBlockRoot st root = Ret st1 ∧ ffg_inv st1 hist ∧ StateSlot st1 = StateSlot st ∧ same_checkpoints st st1 ∧
    ∀ x, 0 ≤ x < StateSlot st → StateSlot st < x + SlotsPerHistoricalRoot → rootOf st1 x = rootOf st x.
Proof using Hspe.
  intros Hinv. destruct (cacheBlockRoot_inv Hspe st hist root Hinv) as (st1 & Hst1 & Hinv1 & Hs1 & Hb & Hj & Hp & Hf & Hroots).
  exists st1. split_and!; [done..|]. intros x Hx Hx2. unfold rootOf. rewrite Hroots.
  pose proof SlotsPerHistoricalRoot_range. assert (0 < SlotsPerHistoricalRoot) as Hpos by lia.
  assert (SlotsPerHistoricalRoot ≠ 0) as Hne by lia.
  pose proof (Z.mod_pos_bound x SlotsPerHistoricalRoot Hpos). pose proof (Z.mod_pos_bound (StateSlot st) SlotsPerHistoricalRoot Hpos).
  apply list_lookup_insert_ne. intros Heq%Z2Nat.inj; [|lia..].
  destruct (Z.mod_divide (StateSlot st - x) SlotsPerHistoricalRoot Hne) as [Hdiv _].
  rewrite Zminus_mod, Heq, Z.sub_diag, Zmod_0_l in Hdiv. destruct (Hdiv eq_refl) as [z Hz].
  destruct (Z.le_gt_cases z 0); nia.
Qed.

(** Slots before the last one of the epoch leave the bits and the checkpoints alone. *)
Lemma processSlot_quiet (st : BeaconState BV) hist root bal :
  ffg_inv st hist → StateSlot st + SlotsPerHistoricalRoot < maxUint64 → balance_ok bal → CanProcessEpoch st = false →
  ∃ st', processSlot st (root, bal) = Ret st' ∧ ffg_inv st' hist ∧ StateSlot st' = StateSlot st + 1 ∧ same_checkpoints st st' ∧
    ∀ x, 0 ≤ x < StateSlot st → StateSlot st < x + SlotsPerHistoricalRoot → rootOf st' x = rootOf st x.
Proof using Hspe Bitvector4Laws0.
  intros Hinv Hm Hbal Hcan. destruct (processSlot_inv Hspe st hist root bal Hinv Hm Hbal) as (st' & Hret & Hinv' & Hs' & _).
  rewrite Hcan in Hinv'. exists st'. do 3 (split; [done|]).
  destruct (cacheBlockRoot_quiet st hist root Hinv) as (st1 & Hst1 & _ & Hs1 & Hsame & Hroots).
  unfold processSlot in Hret. cbn [fst snd] in Hret. rewrite Hst1 in Hret. cbn [obind] in Hret.
  assert (CanProcessEpoch st1 = false) as Hcan1 by (unfold CanProcessEpoch; by rewrite Hs1).
  rewrite Hcan1 in Hret. cbn [obind] in Hret. injection Hret as <-. split; [exact Hsame|exact Hroots].
Qed.

Lemma quiet_run inputs (st : BeaconState BV) hist :
  ffg_inv st hist → StateSlot st + Z.of_nat (length inputs) + SlotsPerHistoricalRoot < maxUint64 →
  Forall (λ i, balance_ok i.2) inputs →
  StateSlot st + Z.of_nat (length inputs) ≤ CurrentEpoch st * SlotsPerEpoch + (SlotsPerEpoch - 1) →
  ∃ st', processSlots st inputs = Ret st' ∧ ffg_inv st' hist ∧ StateSlot st' = StateSlot st + Z.of_nat (length inputs) ∧
    CurrentEpoch st' = CurrentEpoch st ∧ same_checkpoints st st' ∧
    ∀ x, 0 ≤ x < StateSlot st → StateSlot st' ≤ x + SlotsPerHistoricalRoot → rootOf st' x = rootOf st x.
Proof using Hspe Bitvector4Laws0.
  revert st. induction inputs as [|[root bal] inputs IH]; intros st Hinv Hm Hbal Hlast; cbn [processSlots length].
  { exists st. cbn in *. split_and!; (done || lia). }
  apply Forall_cons in Hbal as [Hbal Hrest]. cbn [length] in Hm, Hlast. pose proof (inv_slot _ _ Hinv) as Hs.
  pose proof SlotsPerHistoricalRoot_range. assert (StateSlot st + 1 < two64) as Hm' by (unfold two64, maxUint64 in *; lia).
  destruct (CanProcessEpoch st) eqn:Hcan; [pose proof (last_slot Hspe st Hs Hm' Hcan); lia|].
  destruct (processSlot_quiet st hist root bal Hinv) as (st' & -> & Hinv' & Hs' & Hsame & Hroots); [lia|done..|]. cbn [obind].
  assert (CurrentEpoch st' = CurrentEpoch st) as Hce.
  { unfold CurrentEpoch at 1. rewrite Hs', (next_epoch Hspe) by done. by rewrite Hcan. }
  destruct (IH st' Hinv') as (st2 & Hret & Hinv2 & Hs2 & Hce2 & Hsame2 & Hroots2); [lia|done|rewrite Hce; lia|].
  exists st2. split_and!; [done|done|lia|congruence| |].
  - destruct Hsame as (? & ? & ? & ?), Hsame2 as (? & ? & ? & ?). unfold same_checkpoints. split_and!; congruence.
  - intros x Hx Hx2. rewrite Hroots2 by lia. apply Hroots; lia.
Qed.

(** What the code computes anywhere inside an epoch from 2 on, after its first slot. *)
Lemma checkpoints_of (st : BeaconState BV) hist bal :
  ffg_inv st hist → StateSlot st + SlotsPerHistoricalRoot < maxUint64 → balance_ok bal → 2 ≤ CurrentEpoch st →
  CurrentEpoch st * SlotsPerEpoch < StateSlot st →
  let bit := BitAt (JustificationBits st) in
  ∃ r p, rootOf st (CurrentEpoch st * SlotsPerEpoch) = Some r ∧ rootOf st ((CurrentEpoch st - 1) * SlotsPerEpoch) = Some p ∧
    computeCheckpoints st (processJustificationBits st (ActiveCurrentEpoch bal) (PrevEpochTargetAttested bal)
                             (CurrentEpochTargetAttested bal)) =
    Ret (if currSuper bal then mkEthCheckpoint (CurrentEpoch st) r
         else if prevSuper bal then mkEthCheckpoint (CurrentEpoch st - 1) p else CurrentJustifiedCheckpoint st,
         finalizes (currSuper bal) (bit 0 || prevSuper bal) (bit 1) (bit 2) (CurrentEpoch st)
           (PreviousJustifiedCheckpoint st) (CurrentJustifiedCheckpoint st) (FinalizedCheckpoint st)).
Proof using Hspe Bitvector4Laws0.
  intros [Hs Hlen Hord _ Hlat _ _] Hm Hbal Hc Hlow. cbn zeta. pose proof SlotsPerHistoricalRoot_range.
  assert (StateSlot st < CurrentEpoch st * SlotsPerEpoch + SlotsPerEpoch) as Hhigh.
  { assert (SlotsPerEpoch ≠ 0) as Hne by lia. pose proof (Z.div_mod (StateSlot st) SlotsPerEpoch Hne) as Hd.
    pose proof (Z.mod_pos_bound (StateSlot st) SlotsPerEpoch SlotsPerEpoch_pos). unfold CurrentEpoch, ToEpoch. lia. }
  set (bits := processJustificationBits _ _ _ _).
  destruct (newBits_spec st bal Hbal) as (Hb0 & Hb1 & Hb2 & Hb3). fold bits in Hb0, Hb1, Hb2, Hb3.
  destruct (BlockRoot_spec Hspe st (CurrentEpoch st)) as (r & Hr & Hr' & Hr''); [lia|done|lia|done|].
  destruct (BlockRoot_spec Hspe st (CurrentEpoch st - 1)) as (p & Hp & Hp' & Hp''); [lia|done|nia|done|].
  assert (CurrentEpoch st < two63) as Hc63 by (unfold maxUint64, two63 in *; nia).
  destruct (finalizes_byte bits (CurrentEpoch st) (PreviousJustifiedCheckpoint st) (CurrentJustifiedCheckpoint st)
    (FinalizedCheckpoint st)) as (byte & Hbyte & Hfin); [lia..|].
  destruct (compute_spec st bal bits r p byte) as [Hcode _]; [done..| |done|done|done|done|done|done|lia| |].
  { unfold PrevEpoch. by rewrite (proj2 (Z.eqb_neq _ _)) by lia. }
  { intros [Hje Hjr]%Hlat. rewrite Hp'' in Hjr. destruct (CurrentJustifiedCheckpoint st). cbn in *. congruence. }
  exists r, p. rewrite Hcode, Hb0, Hb1, Hb2, Hb3. done.
Qed.

(** The last slot of an epoch from 2 on. *)
Lemma processSlot_transition (st : BeaconState BV) hist root bal :
  ffg_inv st hist → StateSlot st + SlotsPerHistoricalRoot < maxUint64 → balance_ok bal →
  CanProcessEpoch st = true → 2 ≤ CurrentEpoch st →
  ∃ st', processSlot st (root, bal) = Ret st' ∧ BitAt (JustificationBits st') 0 = currSuper bal ∧
    (currSuper bal = true → BitAt (JustificationBits st) 0 = true →
     FinalizedCheckpoint st' = CurrentJustifiedCheckpoint st).
Proof using Hspe Bitvector4Laws0.
  intros Hinv Hm Hbal Hcan Hc. destruct (cacheBlockRoot_inv Hspe st hist root Hinv) as (st1 & Hst1 & Hinv1 & Hs1 & Hb1 & Hj1 & _).
  pose proof (inv_slot _ _ Hinv1) as Hs. pose proof SlotsPerHistoricalRoot_range.
  assert (CurrentEpoch st1 = CurrentEpoch st) as Hce by (unfold CurrentEpoch; by rewrite Hs1).
  assert (CanProcessEpoch st1 = true) as Hcan1 by (unfold CanProcessEpoch; by rewrite Hs1).
  assert (StateSlot st1 + 1 < two64) as Hm' by (unfold two64, maxUint64 in *; lia).
  destruct (process_spec Hspe st1 bal) as (bits & jc & fc & Hret & _ & Hb0 & Hbit1 & _ & _ & Hfc & _);
    [lia|done|by apply last_slot|lia|apply Hinv1|pose proof (inv_order _ _ Hinv1); lia..|apply Hinv1|].
  unfold processSlot. cbn [fst snd]. rewrite Hst1. cbn [obind]. rewrite Hcan1, Hret. cbn [obind].
  eexists. split; [done|]. cbn. split; [done|]. intros Hcs Hb. rewrite Hfc. unfold finalizes.
  rewrite Hb0, Hcs, Hbit1, Hb1, Hb. cbn [andb orb]. rewrite Hj1.
  destruct (inv_latest _ _ Hinv Hb) as [-> _]. rewrite Hce.
  by rewrite (proj2 (Z.eqb_eq _ _)) by lia.
Qed.

(** Two voted epochs in a row, from any state with the invariant. *)
Lemma consecutive_votes (st : BeaconState BV) hist root bal inputs root' bal' :
  ffg_inv st hist → StateSlot st + SlotsPerEpoch + SlotsPerHistoricalRoot < maxUint64 →
  CanProcessEpoch st = true → 2 ≤ CurrentEpoch st →
  balance_ok bal → 2 * ActiveCurrentEpoch bal ≤ 3 * CurrentEpochTargetAttested bal →
  Z.of_nat (length inputs) = SlotsPerEpoch - 1 → Forall (λ i, balance_ok i.2) inputs →
  balance_ok bal' → 2 * ActiveCurrentEpoch bal' ≤ 3 * CurrentEpochTargetAttested bal' →
  ∃ st1 st2, processSlot st (root, bal) = Ret st1 ∧ processSlots st1 (inputs ++ [(root', bal')]) = Ret st2 ∧
    CheckpointEpoch (FinalizedCheckpoint st2) = CurrentEpoch st ∧
    rootOf st1 (CurrentEpoch st * SlotsPerEpoch) = Some (CheckpointRoot (FinalizedCheckpoint st2)).
Proof using Hspe Bitvector4Laws0.
  intros Hr Hm Hcan Hc Hbal Hsup Hlen Hall Hbal' Hsup'.
  pose proof (inv_slot _ _ Hr) as Hs. pose proof SlotsPerHistoricalRoot_range.
  assert (StateSlot st + 1 < two64) as Hm' by (unfold two64, maxUint64 in *; lia).
  assert (currSuper bal = true ∧ currSuper bal' = true) as [Hcs Hcs'] by (split; apply Z.leb_le; lia).
  destruct (processSlot_transition st hist root bal Hr) as (st1 & Hret1 & Hb1 & _); [lia|done..|]. rewrite Hcs in Hb1.
  destruct (processSlot_inv Hspe st hist root bal Hr) as (st1' & Hret1' & Hinv1 & Hs1 & _); [lia|done|].
  rewrite Hret1 in Hret1'. injection Hret1' as <-. rewrite Hcan in Hinv1. pose proof (last_slot Hspe st Hs Hm' Hcan) as Hlast.
  assert (CurrentEpoch st1 = CurrentEpoch st + 1) as Hce1.
  { unfold CurrentEpoch at 1. rewrite Hs1, (next_epoch Hspe) by done. by rewrite Hcan. }
  destruct (quiet_run inputs st1 _ Hinv1) as (st2 & Hret2 & Hinv2 & Hs2 & Hce2 & (Hb2 & _ & Hj2 & _) & _); [lia|done|lia|].
  destruct (processSlot_transition st2 _ root' bal' Hinv2) as (st3 & Hret3 & _ & Hfin); [lia|done| |lia|].
  { unfold CanProcessEpoch. rewrite Hs2, Hs1, Hlast, Hlen. rewrite wrap64_small by (unfold is_u64, two64, maxUint64 in *; lia).
    replace (_ + _ + 1) with ((CurrentEpoch st + 2) * SlotsPerEpoch) by lia. by rewrite Z.mod_mul by lia. }
  exists st1, st3. split; [done|]. rewrite processSlots_app, Hret2. cbn [obind processSlots]. rewrite Hret3. cbn [obind].
  rewrite (Hfin Hcs') by (by rewrite Hb2). rewrite Hj2. destruct (inv_latest _ _ Hinv1 Hb1) as [He Hroot].
  rewrite Hce1 in He, Hroot. split; [done|]. split; [lia|].
  unfold rootOf. by replace (CurrentEpoch st) with (CurrentEpoch st + 1 - 1) by lia.
Qed.

(** Processing slots leads from reachable states to reachable states. *)
Lemma reachable_run inputs (st st' : BeaconState BV) hist :
  reachable st hist → Forall (λ i, balance_ok i.2) inputs →
  StateSlot st + Z.of_nat (length inputs) + SlotsPerHistoricalRoot < maxUint64 →
  processSlots st inputs = Ret st' → ∃ hist', reachable st' hist'.
Proof using Hspe Bitvector4Laws0.
  revert st hist. induction inputs as [|[root bal] inputs IH]; intros st hist Hr Hall Hm Hret; cbn [processSlots length] in *.
  { injection Hret as <-. eauto. }
  apply Forall_cons in Hall as [Hbal Hall].
  destruct (processSlot_inv Hspe st hist root bal) as (st1 & Hret1 & _ & Hs1 & _); [by apply (reachable_inv Hspe)|lia|done|].
  rewrite Hret1 in Hret. eapply (IH st1); [|done|lia|done]. eapply reach_slot; [done|lia|done|done].
Qed.

(** ** Theorems about reachable states *)

(** C33. Finality only moves forward: from a reachable state the next slot is always
    processed without error, and afterwards the finalized, previous justified and
    current justified epochs are ordered and at most the current epoch, and neither
    the finalized nor the justified epoch has decreased. *)
Theorem finality_monotone (st : BeaconState BV) hist root bal :
  reachable st hist → StateSlot st + SlotsPerHistoricalRoot < maxUint64 → balance_ok bal →
  ∃ st', processSlot st (root, bal) = Ret st' ∧
    CheckpointEpoch (FinalizedCheckpoint st') ≤ CheckpointEpoch (PreviousJustifiedCheckpoint st') ∧
    CheckpointEpoch (PreviousJustifiedCheckpoint st') ≤ CheckpointEpoch (CurrentJustifiedCheckpoint st') ∧
    CheckpointEpoch (CurrentJustifiedCheckpoint st') ≤ CurrentEpoch st' ∧
    CheckpointEpoch (FinalizedCheckpoint st) ≤ CheckpointEpoch (FinalizedCheckpoint st') ∧
    CheckpointEpoch (CurrentJustifiedCheckpoint st) ≤ CheckpointEpoch (CurrentJustifiedCheckpoint st').
Proof using Hspe Bitvector4Laws0.
  intros Hr Hm Hbal. apply (reachable_inv Hspe) in Hr.
  destruct (processSlot_inv Hspe st hist root bal Hr Hm Hbal) as (st' & Hret & Hinv & Hs & Hf & Hj).
  pose proof (inv_order _ _ Hinv). pose proof (inv_slot _ _ Hinv) as Hs0.
  assert (0 ≤ CurrentEpoch st') by (unfold CurrentEpoch, ToEpoch; apply Z.div_pos; lia).
  exists st'. split; [done|]. lia.
Qed.

(** C3. A finalized epoch was voted for, and so was the next one: in a reachable state
    the finalized epoch is still 0, or two thirds of the active balance attested to its
    target and to the target of the following epoch. *)
Theorem finalized_epochs_voted (st : BeaconState BV) hist :
  reachable st hist →
  CheckpointEpoch (FinalizedCheckpoint st) = 0 ∨
  voted hist (CheckpointEpoch (FinalizedCheckpoint st)) ∧ voted hist (CheckpointEpoch (FinalizedCheckpoint st) + 1).
Proof using Hspe Bitvector4Laws0. intros Hr. by apply (reachable_inv Hspe). Qed.

(** C32. The transition agrees with the specification: at the last slot of an epoch, in
    every reachable state, the code does nothing in the first two epochs and later
    computes exactly the bits and checkpoints of the specification's
    [weigh_justification_and_finalization], although it derives the justified checkpoint
    from the bits and not from the balances. *)
Theorem transition_matches_specification (st : BeaconState BV) hist root bal :
  reachable st hist → StateSlot st + SlotsPerHistoricalRoot < maxUint64 → balance_ok bal → CanProcessEpoch st = true →
  ∃ st1 st', cacheBlockRoot st root = Ret st1 ∧ ProcessJustificationAndFinalizationPreCompute st1 bal = Ret st' ∧
    (if CurrentEpoch st <=? 1 then st' = st1 else
     specWeigh st1 bal = Ret (map (BitAt (JustificationBits st')) [0; 1; 2; 3], CurrentJustifiedCheckpoint st', FinalizedCheckpoint st') ∧
     PreviousJustifiedCheckpoint st' = CurrentJustifiedCheckpoint st).
Proof using Hspe Bitvector4Laws0.
  intros Hr Hm Hbal Hcan. apply (reachable_inv Hspe) in Hr.
  destruct (cacheBlockRoot_inv Hspe st hist root Hr) as (st1 & Hst1 & Hinv1 & Hs1 & _ & Hj1 & _).
  pose proof (inv_slot _ _ Hinv1) as Hs. pose proof SlotsPerHistoricalRoot_range.
  assert (CurrentEpoch st1 = CurrentEpoch st) as Hce by (unfold CurrentEpoch; by rewrite Hs1).
  assert (CanProcessEpoch st1 = true) as Hcan1 by (unfold CanProcessEpoch; by rewrite Hs1).
  assert (StateSlot st1 + 1 < two64) as Hm' by (unfold two64, maxUint64 in *; lia).
  assert (0 ≤ CurrentEpoch st1) by (unfold CurrentEpoch, ToEpoch; apply Z.div_pos; lia).
  exists st1. destruct (Z.leb_spec (CurrentEpoch st) 1) as [Hle|Hgt].
  - exists st1. rewrite process_guard by (done || lia || by apply last_slot). by rewrite (proj2 (Z.leb_le _ _)) by lia.
  - destruct (process_spec Hspe st1 bal) as (bits & jc & fc & Hret & Hspec & _);
      [lia|done|by apply last_slot|lia|apply Hinv1|pose proof (inv_order _ _ Hinv1); lia..|apply Hinv1|].
    rewrite Hret. eexists. split_and!; [done..|exact Hspec|exact Hj1].
Qed.

(** C31. Two voted epochs in a row finalize: if at the end of an epoch, from epoch 2 on,
    two thirds of the balance attested to its target, and the same holds at the end of
    the next epoch, then every slot in between is processed and the first of the two
    epochs is finalized, with the block root recorded for its first slot. *)
Theorem two_voted_epochs_finalize (st : BeaconState BV) hist root bal inputs root' bal' :
  reachable st hist → StateSlot st + SlotsPerEpoch + SlotsPerHistoricalRoot < maxUint64 →
  CanProcessEpoch st = true → 2 ≤ CurrentEpoch st →
  balance_ok bal → 2 * ActiveCurrentEpoch bal ≤ 3 * CurrentEpochTargetAttested bal →
  Z.of_nat (length inputs) = SlotsPerEpoch - 1 → Forall (λ i, balance_ok i.2) inputs →
  balance_ok bal' → 2 * ActiveCurrentEpoch bal' ≤ 3 * CurrentEpochTargetAttested bal' →
  ∃ st1 st2, processSlot st (root, bal) = Ret st1 ∧ processSlots st1 (inputs ++ [(root', bal')]) = Ret st2 ∧
    CheckpointEpoch (FinalizedCheckpoint st2) = CurrentEpoch st ∧
    rootOf st1 (CurrentEpoch st * SlotsPerEpoch) = Some (CheckpointRoot (FinalizedCheckpoint st2)).
Proof using Hspe Bitvector4Laws0. intros Hr%(reachable_inv Hspe). by eapply consecutive_votes. Qed.

(** The unrealized checkpoints are the ones the chain will reach: in a reachable
    state past the first slot of an epoch from 2 on, [UnrealizedCheckpoints] returns the
    justified and finalized checkpoints that the state has after the remaining slots of
    the epoch, when the balances do not change until its end. *)
Theorem unrealized_checkpoints_realized (st : BeaconState BV) hist inputs root bal :
  reachable st hist → GenesisEpoch = 0 → 2 ≤ CurrentEpoch st → CurrentEpoch st * SlotsPerEpoch < StateSlot st →
  StateSlot st + Z.of_nat (length inputs) = CurrentEpoch st * SlotsPerEpoch + (SlotsPerEpoch - 1) →
  StateSlot st + SlotsPerEpoch + SlotsPerHistoricalRoot < maxUint64 →
  Forall (λ i, balance_ok i.2) inputs → balance_ok bal →
  ∃ jc fc st',
    UnrealizedCheckpoints (Some st)
      (Ret (ActiveCurrentEpoch bal, PrevEpochTargetAttested bal, CurrentEpochTargetAttested bal)) = Ret (jc, fc) ∧
    processSlots st (inputs ++ [(root, bal)]) = Ret st' ∧
    CurrentJustifiedCheckpoint st' = jc ∧ FinalizedCheckpoint st' = fc.
Proof using Hspe Bitvector4Laws0.
  intros Hr Hg Hc Hlow Hlen Hm Hall Hbal. apply (reachable_inv Hspe) in Hr. pose proof SlotsPerHistoricalRoot_range.
  destruct (checkpoints_of st hist bal Hr) as (r & p & Hroot & Hproot & Hcode); [lia|done..|].
  destruct (quiet_run inputs st hist Hr) as (st1 & Hret1 & Hinv1 & Hs1 & Hce1 & Hsame & Hroots1); [lia|done|lia|].
  destruct (cacheBlockRoot_quiet st1 hist root Hinv1) as (st2 & Hst2 & Hinv2 & Hs2 & Hsame2 & Hroots2).
  assert (CurrentEpoch st2 = CurrentEpoch st) as Hce2 by (rewrite <- Hce1; unfold CurrentEpoch; by rewrite Hs2).
  destruct (checkpoints_of st2 hist bal Hinv2) as (r2 & p2 & Hroot2 & Hproot2 & Hcode2); [lia|done|lia|nia|].
  assert (0 ≤ (CurrentEpoch st - 1) * SlotsPerEpoch) by nia.
  rewrite Hce2, Hroots2, Hroots1, Hroot in Hroot2 by nia. injection Hroot2 as <-.
  rewrite Hce2, Hroots2, Hroots1, Hproot in Hproot2 by nia. injection Hproot2 as <-.
  destruct Hsame as (Hb & Hpj & Hj & Hf), Hsame2 as (Hb2 & Hpj2 & Hj2 & Hf2).
  rewrite Hce2, Hb2, Hpj2, Hj2, Hf2, Hb, Hpj, Hj, Hf in Hcode2. rewrite <- Hcode in Hcode2.
  assert (StateSlot st2 = CurrentEpoch st2 * SlotsPerEpoch + (SlotsPerEpoch - 1)) as Hlast by (rewrite Hce2; lia).
  unfold UnrealizedCheckpoints. rewrite Hg, (wrap64_small (0 + 1)) by (unfold is_u64, two64; lia).
  fold (CurrentEpoch st). rewrite (proj2 (Z.leb_gt _ _)) by lia. cbn [obind]. rewrite Hcode. do 3 eexists. split; [done|].
  rewrite processSlots_app, Hret1. cbn [obind processSlots]. unfold processSlot. cbn [fst snd]. rewrite Hst2. cbn [obind].
  assert (CanProcessEpoch st2 = true) as ->.
  { unfold CanProcessEpoch. rewrite Hlast, wrap64_small by (unfold is_u64, two64, maxUint64 in *; lia).
    replace (_ + 1) with ((CurrentEpoch st2 + 1) * SlotsPerEpoch) by lia. by rewrite Z.mod_mul by lia. }
  rewrite process_guard by (done || lia). rewrite (proj2 (Z.leb_gt _ _)) by lia. unfold weighJustificationAndFinalization.
  rewrite Hcode2, Hcode. cbn [obind]. split; [done|]. done.
Qed.
End finality.

(** ** The balances of [UnrealizedCheckpointBalances] *)

Section balances.
Context `{BeaconChainConfig}.

(** The active balance of an epoch, and the part of it that is unslashed and whose
    participation has the target flag. *)
Fixpoint activeBalance (vs : list Validator) (e : Z) : Z :=
  match vs with
  | [] => 0
  | v :: vs => (if IsActiveValidator v e then EffectiveBalance v else 0) + activeBalance vs e
  end.

Fixpoint targetBalance (vs : list Validator) (participation : list Z) (e : Z) : Z :=
  match vs, participation with
  | v :: vs, p :: ps =>
      (if IsActiveValidator v e && negb (Slashed v) && targetFlag p then EffectiveBalance v else 0) + targetBalance vs ps e
  | _, _ => 0
  end.

Lemma activeBalance_nonneg vs e : Forall (λ v, 0 ≤ EffectiveBalance v) vs → 0 ≤ activeBalance vs e.
Proof using Type. induction 1; cbn; [done|]. destruct (IsActiveValidator _ _); lia. Qed.

Lemma targetBalance_bounds vs ps e :
  Forall (λ v, 0 ≤ EffectiveBalance v) vs → 0 ≤ targetBalance vs ps e ≤ activeBalance vs e.
Proof using Type.
  intros Hf. revert ps. induction Hf as [|v vs Hv Hf IH]; intros ps; cbn; [lia|].
  pose proof (activeBalance_nonneg vs e Hf). destruct ps as [|p ps]; [destruct (IsActiveValidator _ _); lia|]. specialize (IH ps).
  destruct (IsActiveValidator v e), (Slashed v), (targetFlag p); cbn; lia.
Qed.

(** An addition that does not overflow. *)
Lemma add_if (b : bool) acc x rest :
  0 ≤ acc → 0 ≤ x → 0 ≤ rest → acc + ((if b then x else 0) + rest) < two64 →
  (if b then Add64 acc x else Ret acc) = Ret (acc + if b then x else 0).
Proof using Type.
  intros. destruct b; [|f_equal; lia]. rewrite Add64_spec by (unfold is_u64; lia). by rewrite (proj2 (Z.ltb_lt _ _)) by lia.
Qed.

Lemma ret3 (a b c a' b' c' : Z) : a = a' → b = b' → c = c' → Ret (a, b, c) = Ret (a', b', c').
Proof using Type. by intros -> -> ->. Qed.

Lemma balanceLoop_eq vs cp pp e a p c :
  Forall (λ v, 0 ≤ EffectiveBalance v) vs → (length vs ≤ length cp)%nat → (length vs ≤ length pp)%nat →
  0 ≤ a → 0 ≤ p → 0 ≤ c → a + activeBalance vs e < two64 →
  p + targetBalance vs pp (e - 1) < two64 → c + targetBalance vs cp e < two64 →
  balanceLoop vs cp pp e a p c =
    Ret (a + activeBalance vs e, p + targetBalance vs pp (e - 1), c + targetBalance vs cp e).
Proof using Type.
  intros Hf. revert cp pp a p c. induction Hf as [|v vs Hv Hf IH]; intros cp pp a p c Hcp Hpp Ha Hp Hc Hsa Hsp Hsc.
  { cbn. by rewrite !Z.add_0_r. }
  cbn beta in Hv. destruct cp as [|x cp]; [cbn in Hcp; lia|]. destruct pp as [|y pp]; [cbn in Hpp; lia|].
  cbn [balanceLoop activeBalance targetBalance length] in *.
  pose proof (activeBalance_nonneg vs e Hf). pose proof (targetBalance_bounds vs cp e Hf).
  pose proof (targetBalance_bounds vs pp (e - 1) Hf).
  assert ((ActivationEpoch v <? e) && (e <=? ExitEpoch v) = IsActiveValidator v (e - 1)) as ->.
  { unfold IsActiveValidator, checkValidatorActiveStatus. f_equal.
    - destruct (Z.ltb_spec (ActivationEpoch v) e), (Z.leb_spec (ActivationEpoch v) (e - 1)); lia || done.
    - destruct (Z.leb_spec e (ExitEpoch v)), (Z.ltb_spec (e - 1) (ExitEpoch v)); lia || done. }
  fold (checkValidatorActiveStatus (ActivationEpoch v) (ExitEpoch v) e). fold (IsActiveValidator v e).
  rewrite (add_if _ a _ (activeBalance vs e)) by done. cbn [obind].
  assert (∀ b : bool, 0 ≤ if b then EffectiveBalance v else 0) as Hif by (intros []; lia).
  pose proof (Hif (IsActiveValidator v e)). destruct (Slashed v); cbn [negb] in *.
  - rewrite !andb_false_r in *. cbn [andb] in *. rewrite IH by lia. apply ret3; lia.
  - rewrite !andb_true_r in *. pose proof (Hif (IsActiveValidator v e && targetFlag x)).
    pose proof (Hif (IsActiveValidator v (e - 1) && targetFlag y)).
    rewrite (add_if _ c _ (targetBalance vs cp e)) by (done || lia). cbn [obind].
    rewrite (add_if _ p _ (targetBalance vs pp (e - 1))) by (done || lia). cbn [obind].
    rewrite IH by lia. apply ret3; lia.
Qed.

(** [UnrealizedCheckpointBalances] is correct: when the sums fit in 64 bits, it
    returns the active balance of the current epoch and the unslashed balances of the
    validators active in the previous and the current epoch whose participation has the
    target flag, each at least one increment; an attesting balance of the current epoch
    never exceeds the active one. *)
Theorem unrealized_balances_correct vs cp pp e :
  Forall (λ v, 0 ≤ EffectiveBalance v) vs → (length vs ≤ length cp)%nat → (length vs ≤ length pp)%nat →
  activeBalance vs e < two64 → targetBalance vs pp (e - 1) < two64 →
  UnrealizedCheckpointBalances cp pp vs e =
    Ret (Z.max EffectiveBalanceIncrement (activeBalance vs e),
         Z.max EffectiveBalanceIncrement (targetBalance vs pp (e - 1)),
         Z.max EffectiveBalanceIncrement (targetBalance vs cp e)) ∧
  targetBalance vs cp e ≤ activeBalance vs e.
Proof using Type.
  intros Hf Hcp Hpp Ha Hp. pose proof (targetBalance_bounds vs cp e Hf) as Hb. split; [|lia].
  unfold UnrealizedCheckpointBalances. rewrite !(proj2 (Nat.ltb_ge _ _)) by lia. cbn [orb].
  rewrite balanceLoop_eq by (done || lia). cbn [obind]. unfold ensureLowerBound. rewrite !Z.add_0_l.
  assert (∀ x, (if x <? EffectiveBalanceIncrement then EffectiveBalanceIncrement else x) = Z.max EffectiveBalanceIncrement x) as Hmax.
  { intros x. destruct (Z.ltb_spec x EffectiveBalanceIncrement); lia. }
  by rewrite !Hmax.
Qed.
End balances.

(** ** A concrete bit vector and chain *)

#[local] Instance byteBits : Bitvector4 Z := {
  BitAt := Z.testbit;
  SetBitAt b i v := if v then Z.setbit b i else Z.clearbit b i;
  Shift1 b := Z.land (Z.shiftl b 1) 15;
  Bytes b := [b]
}.

#[local] Instance byteBits_laws : Bitvector4Laws Z.
Proof.
  split; cbn.
  - intros b k Hk. rewrite Z.land_spec. change 15 with (Z.ones 4). rewrite Z.ones_spec_low by lia. rewrite andb_true_r.
    destruct (Z.ltb_spec 0 k); cbn; [by rewrite Z.shiftl_spec by lia|]. assert (k = 0) as -> by lia.
    by rewrite Z.shiftl_spec_low by lia.
  - intros b i [] k Hi Hk; [rewrite Z.setbit_eqb by lia|rewrite Z.clearbit_eqb]; destruct (Z.eqb_spec k i), (Z.eqb_spec i k);
      cbn; try lia; by rewrite ?andb_true_r, ?andb_false_r.
  - intros b k Hk. by exists b.
Qed.

Definition demoGenesis : BeaconState Z :=
  mkBeaconState 0 0 (mkEthCheckpoint 0 0) (mkEthCheckpoint 0 0) (mkEthCheckpoint 0 0) (replicate (Z.to_nat 8192) 0).

(** A chain on which nobody attests, and balances with which two thirds do. *)
Definition idle : Z * Balance := (7, mkBalance 96 32 32).
Definition lively : Balance := mkBalance 96 64 64.

Lemma idle_ok : balance_ok idle.2.
Proof. unfold balance_ok. cbn. unfold two64. lia. Qed.
Lemma lively_ok : balance_ok lively.
Proof. unfold balance_ok. cbn. unfold two64. lia. Qed.

#[local] Existing Instance mainnetBeaconConfig.

Lemma mainnet_slots : 1 < SlotsPerEpoch.
Proof. reflexivity. Qed.

Lemma demo_genesis : reachable demoGenesis [].
Proof. apply reach_genesis; try reflexivity. intros j _. apply Z.bits_0. Qed.

(** Idle slots can be processed for as long as one likes. *)
Lemma demo_chain (k : nat) : Z.of_nat k < 1000000 → ∃ st hist, reachable (BV := Z) st hist ∧ StateSlot st = Z.of_nat k.
Proof.
  induction k as [|k IH]; intros Hk; [exists demoGenesis, []; split; [exact demo_genesis|done]|].
  destruct IH as (st & hist & Hr & Hs); [lia|]. assert (StateSlot st + SlotsPerHistoricalRoot < maxUint64) as Hm.
  { rewrite Hs. change SlotsPerHistoricalRoot with 8192. unfold maxUint64. lia. }
  destruct (processSlot_inv mainnet_slots st hist idle.1 idle.2) as (st' & Hret & _ & Hs' & _); [|done|exact idle_ok|].
  { by apply (reachable_inv mainnet_slots). }
  exists st'. eexists. split; [by eapply reach_slot; [..|exact idle_ok|exact Hret]|]. lia.
Qed.

(** The same chain with two lively epochs at its end. *)
Lemma demo_finalized : ∃ st hist, reachable (BV := Z) st hist ∧ CheckpointEpoch (FinalizedCheckpoint st) = 2.
Proof.
  destruct (demo_chain 95) as (st & hist & Hr & Hs); [lia|].
  assert (CurrentEpoch st = 2) as He by (unfold CurrentEpoch; rewrite Hs; reflexivity).
  destruct (consecutive_votes mainnet_slots st hist 7 lively (replicate 31 idle) 8 lively)
    as (st1 & st2 & H1 & H2 & H3 & _);
    [by apply (reachable_inv mainnet_slots)|rewrite Hs; reflexivity|unfold CanProcessEpoch; rewrite Hs; reflexivity
    |rewrite He; lia|exact lively_ok|cbn; lia|reflexivity|apply Forall_replicate; exact idle_ok|exact lively_ok|cbn; lia|].
  destruct (reachable_run mainnet_slots ((7, lively) :: replicate 31 idle ++ [(8, lively)]) st st2 hist Hr) as [hist' Hr2].
  - constructor; [exact lively_ok|]. apply Forall_app. split; [apply Forall_replicate; exact idle_ok|].
    constructor; [exact lively_ok|constructor].
  - rewrite Hs. reflexivity.
  - cbn [processSlots]. rewrite H1. exact H2.
  - exists st2, hist'. split; [exact Hr2|]. rewrite H3. exact He.
Qed.

Lemma finality_monotone_witness : ∃ st st' : BeaconState Z, StateSlot st = 95 ∧ processSlot st (7, lively) = Ret st' ∧
  CheckpointEpoch (FinalizedCheckpoint st) ≤ CheckpointEpoch (FinalizedCheckpoint st').
Proof.
  destruct (demo_chain 95) as (st & hist & Hr & Hs); [lia|].
  destruct (finality_monotone mainnet_slots st hist 7 lively) as (st' & Hret & _ & _ & _ & Hle & _); [exact Hr| |exact lively_ok|].
  - rewrite Hs. reflexivity.
  - exists st, st'. split; [exact Hs|]. split; [exact Hret|exact Hle].
Defined.

Lemma finalized_epochs_voted_witness : ∃ (st : BeaconState Z) hist,
  CheckpointEpoch (FinalizedCheckpoint st) = 2 ∧ voted hist 2 ∧ voted hist 3.
Proof.
  destruct demo_finalized as (st & hist & Hr & He). exists st, hist.
  destruct (finalized_epochs_voted mainnet_slots st hist Hr) as [H0|[H2 H3]]; [rewrite He in H0; discriminate|].
  rewrite He in H2, H3. split; [exact He|]. split; [exact H2|exact H3].
Defined.

Lemma transition_matches_specification_witness : ∃ (st st1 st' : BeaconState Z), StateSlot st = 95 ∧
  cacheBlockRoot st 7 = Ret st1 ∧ ProcessJustificationAndFinalizationPreCompute st1 lively = Ret st'.
Proof.
  destruct (demo_chain 95) as (st & hist & Hr & Hs); [lia|].
  destruct (transition_matches_specification mainnet_slots st hist 7 lively) as (st1 & st' & H1 & H2 & _);
    [exact Hr|rewrite Hs; reflexivity|exact lively_ok|unfold CanProcessEpoch; rewrite Hs; reflexivity|].
  exists st, st1, st'. split; [exact Hs|]. split; [exact H1|exact H2].
Defined.

Lemma two_voted_epochs_finalize_witness : ∃ st st1 st2 : BeaconState Z, StateSlot st = 95 ∧
  processSlot st (7, lively) = Ret st1 ∧ processSlots st1 (replicate 31 idle ++ [(8, lively)]) = Ret st2 ∧
  CheckpointEpoch (FinalizedCheckpoint st2) = 2.
Proof.
  destruct (demo_chain 95) as (st & hist & Hr & Hs); [lia|].
  assert (CurrentEpoch st = 2) as He by (unfold CurrentEpoch; rewrite Hs; reflexivity).
  destruct (two_voted_epochs_finalize mainnet_slots st hist 7 lively (replicate 31 idle) 8 lively)
    as (st1 & st2 & H1 & H2 & H3 & _);
    [exact Hr|rewrite Hs; reflexivity|unfold CanProcessEpoch; rewrite Hs; reflexivity|rewrite He; lia|exact lively_ok
    |cbn; lia|reflexivity|apply Forall_replicate; exact idle_ok|exact lively_ok|cbn; lia|].
  exists st, st1, st2. split; [exact Hs|]. split; [exact H1|]. split; [exact H2|]. rewrite H3. exact He.
Defined.

Lemma unrealized_checkpoints_realized_witness : ∃ (st st' : BeaconState Z) jc fc, StateSlot st = 80 ∧
  UnrealizedCheckpoints (Some st) (Ret (96, 64, 64)) = Ret (jc, fc) ∧
  processSlots st (replicate 15 idle ++ [(8, lively)]) = Ret st' ∧ CurrentJustifiedCheckpoint st' = jc.
Proof.
  destruct (demo_chain 80) as (st & hist & Hr & Hs); [lia|].
  assert (CurrentEpoch st = 2) as He by (unfold CurrentEpoch; rewrite Hs; reflexivity).
  destruct (unrealized_checkpoints_realized mainnet_slots st hist (replicate 15 idle) 8 lively)
    as (jc & fc & st' & H1 & H2 & H3 & _);
    [exact Hr|reflexivity|rewrite He; lia|rewrite He, Hs; reflexivity|rewrite He, Hs; reflexivity|rewrite Hs; reflexivity
    |apply Forall_replicate; exact idle_ok|exact lively_ok|].
  exists st, st', jc, fc. split; [exact Hs|]. split; [exact H1|]. split; [exact H2|exact H3].
Defined.

Lemma unrealized_balances_correct_witness :
  UnrealizedCheckpointBalances [2; 2] [0; 2] [mkValidator 32000000000 false 0 0 100 200 [] []; mkValidator 32000000000 true 0 0 100 200 [] []] 1 =
  Ret (64000000000, 1000000000, 32000000000).
Proof.
  destruct (unrealized_balances_correct [mkValidator 32000000000 false 0 0 100 200 [] []; mkValidator 32000000000 true 0 0 100 200 [] []]
    [2; 2] [0; 2] 1) as [Heq _]; [repeat constructor; cbn; lia|cbn; lia|cbn; lia|reflexivity|reflexivity|].
  rewrite Heq. reflexivity.
Defined.
