(* ===== verification/ExitQueue.v ===== *)
(** * The exit queue

    Models the exit part of [beacon-chain/core/validators/validator.go], the churn
    limits of [beacon-chain/core/helpers/validators.go] and [validator_churn.go], the
    balance churn of [beacon-chain/state/state-native/setters_churn.go] and
    [beacon-chain/core/electra/churn.go].  [ExitState] has the state fields these read
    and write.  The state and the [ExitInfo] are shared pointers that the source
    mutates also when it returns an error, so the operations return both with the
    outcome.  The number of active validators and the total active balance are
    computed from the validators: [CommitteeCorrect.v] shows that the committee cache
    does not change the number, and the balance cache holds the computed value. *)

From S2P Require Import Prelude MathHelper Primitives SlotTime Shuffle Committee.

Record ExitState := mkExitState {
  StateValidators : list Validator;
  ExitSlot : Z;
  StateVersion : ForkVersion;
  EarliestExitEpoch : Z;
  ExitBalanceToConsume : Z;
  EarliestConsolidationEpoch : Z;
  ConsolidationBalanceToConsume : Z
}.

Definition setValidators (vs : list Validator) (s : ExitState) : ExitState :=
  mkExitState vs (ExitSlot s) (StateVersion s) (EarliestExitEpoch s) (ExitBalanceToConsume s)
    (EarliestConsolidationEpoch s) (ConsolidationBalanceToConsume s).
Definition setExitChurn (earliest toConsume : Z) (s : ExitState) : ExitState :=
  mkExitState (StateValidators s) (ExitSlot s) (StateVersion s) earliest toConsume
    (EarliestConsolidationEpoch s) (ConsolidationBalanceToConsume s).
Definition setConsolidationChurn (earliest toConsume : Z) (s : ExitState) : ExitState :=
  mkExitState (StateValidators s) (ExitSlot s) (StateVersion s) (EarliestExitEpoch s) (ExitBalanceToConsume s)
    earliest toConsume.

Record ExitInfo := mkExitInfo {
  HighestExitEpoch : Z;
  Churn : Z;
  TotalActiveBalanceInfo : Z
}.

Definition ErrValidatorAlreadyExited : error := "validator already exited".

Definition UpdateValidatorAtIndex (s : ExitState) (idx : Z) (val : Validator) : outcome ExitState :=
  if (Z.to_nat idx <? length (StateValidators s))%nat
  then Ret (setValidators (<[Z.to_nat idx := val]> (StateValidators s)) s)
  else Err "could not update validator: index out of bounds".

Definition ValidatorAtIndex (s : ExitState) (idx : Z) : outcome Validator :=
  match StateValidators s !! Z.to_nat idx with Some v => Ret v | None => Err "index out of bounds" end.

Section exits.
Context `{BeaconChainConfig}.

(** ** Churn limits *)

Definition ActivationExitEpoch (epoch : Z) : Z := wrap64 (epoch + 1 + MaxSeedLookahead).

Definition calculateChurnLimit (activeValidatorCount : Z) : Z :=
  let churnLimit := activeValidatorCount / ChurnLimitQuotient in
  if churnLimit <? MinPerEpochChurnLimit then MinPerEpochChurnLimit else churnLimit.

Definition ValidatorActivationChurnLimit (activeValidatorCount : Z) : Z := calculateChurnLimit activeValidatorCount.
Definition ValidatorExitChurnLimit (activeValidatorCount : Z) : Z := calculateChurnLimit activeValidatorCount.

Definition ValidatorActivationChurnLimitDeneb (activeValidatorCount : Z) : Z :=
  let limit := calculateChurnLimit activeValidatorCount in
  if MaxPerEpochActivationChurnLimit <? limit then MaxPerEpochActivationChurnLimit else limit.

Definition BalanceChurnLimit (activeBalance : Z) : Z :=
  let churn := Z.max MinPerEpochChurnLimitElectra (activeBalance / ChurnLimitQuotient) in
  churn - churn mod EffectiveBalanceIncrement.

Definition ActivationExitChurnLimit (activeBalance : Z) : Z :=
  Z.min MaxPerEpochActivationExitChurnLimit (BalanceChurnLimit activeBalance).

Definition ConsolidationChurnLimit (activeBalance : Z) : Z :=
  BalanceChurnLimit activeBalance -w ActivationExitChurnLimit activeBalance.

(** ** Reading the validators *)

Definition exitEpochOf (s : ExitState) : Z := ToEpoch (ExitSlot s).

(** [total += val.EffectiveBalance()] over the active validators. *)
Fixpoint sumActiveBalance (vs : list Validator) (epoch total : Z) : Z :=
  match vs with
  | [] => total
  | v :: vs => sumActiveBalance vs epoch (if IsActiveValidator v epoch then total +w EffectiveBalance v else total)
  end.

Definition TotalActiveBalance (s : ExitState) : Z :=
  Z.max EffectiveBalanceIncrement (sumActiveBalance (StateValidators s) (exitEpochOf s) 0).

(** The loop of [ExitInformation] over the exit epochs. *)
Fixpoint exitLoop (vs : list Validator) (highest churn : Z) : Z * Z :=
  match vs with
  | [] => (highest, churn)
  | v :: vs =>
      let e := ExitEpoch v in
      if negb (e =? FarFutureEpoch) then
        if highest <? e then exitLoop vs e 1
        else if e =? highest then exitLoop vs highest (churn +w 1)
        else exitLoop vs highest churn
      else exitLoop vs highest churn
  end.

Definition ExitInformation (s : ExitState) : ExitInfo :=
  let '(highest, churn) := exitLoop (StateValidators s) 0 0 in
  mkExitInfo highest churn
    (Z.max EffectiveBalanceIncrement (sumActiveBalance (StateValidators s) (exitEpochOf s) 0)).

(** ** Balance churn *)

Definition exitEpochAndUpdateChurn (s : ExitState) (totalActiveBalance exitBalance : Z) : ExitState * outcome Z :=
  let earliestExitEpoch := Z.max (EarliestExitEpoch s) (ActivationExitEpoch (exitEpochOf s)) in
  let perEpochChurn := ActivationExitChurnLimit totalActiveBalance in
  let exitBalanceToConsume :=
    if EarliestExitEpoch s <? earliestExitEpoch then perEpochChurn else ExitBalanceToConsume s in
  if exitBalanceToConsume <? exitBalance then
    let balanceToProcess := exitBalance -w exitBalanceToConsume in
    if perEpochChurn =? 0 then (s, Panic "integer divide by zero") else
    let additionalEpochs := (balanceToProcess -w 1) / perEpochChurn +w 1 in
    let earliestExitEpoch := earliestExitEpoch +w additionalEpochs in
    let exitBalanceToConsume := exitBalanceToConsume +w (additionalEpochs *w perEpochChurn) in
    (setExitChurn earliestExitEpoch (exitBalanceToConsume -w exitBalance) s, Ret earliestExitEpoch)
  else (setExitChurn earliestExitEpoch (exitBalanceToConsume -w exitBalance) s, Ret earliestExitEpoch).

Definition isElectra (s : ExitState) : bool := versionNumber Electra <=? versionNumber (StateVersion s).

Definition ExitEpochAndUpdateChurnForTotalBal (s : ExitState) (totalActiveBalance exitBalance : Z) : ExitState * outcome Z :=
  if negb (isElectra s) then (s, Err "ExitEpochAndUpdateChurnForTotalBal is not supported")
  else exitEpochAndUpdateChurn s totalActiveBalance exitBalance.

Definition ExitEpochAndUpdateChurn (s : ExitState) (exitBalance : Z) : ExitState * outcome Z :=
  if negb (isElectra s) then (s, Err "ExitEpochAndUpdateChurn is not supported")
  else exitEpochAndUpdateChurn s (TotalActiveBalance s) exitBalance.

(** The getters and setters of consolidations exist from Electra on. *)
Definition ComputeConsolidationEpochAndUpdateChurn (s : ExitState) (consolidationBalance : Z) : ExitState * outcome Z :=
  if negb (isElectra s) then (s, Err "EarliestConsolidationEpoch is not supported") else
  let earliestEpoch := EarliestConsolidationEpoch s in
  let earliestConsolidationEpoch := Z.max earliestEpoch (ActivationExitEpoch (exitEpochOf s)) in
  let perEpochConsolidationChurn := ConsolidationChurnLimit (TotalActiveBalance s) in
  let toConsume := if earliestEpoch <? earliestConsolidationEpoch then perEpochConsolidationChurn
                   else ConsolidationBalanceToConsume s in
  if toConsume <? consolidationBalance then
    let balanceToProcess := consolidationBalance -w toConsume in
    match Div64 (balanceToProcess -w 1) perEpochConsolidationChurn with
    | Ret q =>
        let additionalEpochs := q +w 1 in
        let earliestConsolidationEpoch := earliestConsolidationEpoch +w additionalEpochs in
        let toConsume := toConsume +w (additionalEpochs *w perEpochConsolidationChurn) in
        (setConsolidationChurn earliestConsolidationEpoch (toConsume -w consolidationBalance) s, Ret earliestConsolidationEpoch)
    | Err e => (s, Err e)
    | Panic m => (s, Panic m)
    | OutOfFuel => (s, OutOfFuel)
    end
  else (setConsolidationChurn earliestConsolidationEpoch (toConsume -w consolidationBalance) s, Ret earliestConsolidationEpoch).

(** ** Initiating an exit *)

Definition initiateValidatorExitPreElectra (s : ExitState) (exitInfo : ExitInfo) : ExitInfo * outcome unit :=
  let exitableEpoch := ActivationExitEpoch (exitEpochOf s) in
  let exitInfo := if HighestExitEpoch exitInfo <? exitableEpoch
                  then mkExitInfo exitableEpoch 0 (TotalActiveBalanceInfo exitInfo) else exitInfo in
  let activeValidatorCount := Z.of_nat (length (activeFrom 0 (StateValidators s) (exitEpochOf s))) in
  let currentChurn := ValidatorExitChurnLimit activeValidatorCount in
  if currentChurn <=? Churn exitInfo then
    match Epoch_SafeAdd (HighestExitEpoch exitInfo) 1 with
    | Ret e => (mkExitInfo e 1 (TotalActiveBalanceInfo exitInfo), Ret tt)
    | Err err => (mkExitInfo 0 (Churn exitInfo) (TotalActiveBalanceInfo exitInfo), Err err)
    | Panic m => (exitInfo, Panic m)
    | OutOfFuel => (exitInfo, OutOfFuel)
    end
  else (mkExitInfo (HighestExitEpoch exitInfo) (Churn exitInfo +w 1) (TotalActiveBalanceInfo exitInfo), Ret tt).

(** The end of [InitiateValidatorExit], shared with its variant. *)
Definition recordExit (s : ExitState) (idx : Z) (validator : Validator) (exitInfo : ExitInfo) : ExitState * ExitInfo * outcome unit :=
  match Epoch_SafeAddEpoch (HighestExitEpoch exitInfo) MinValidatorWithdrawabilityDelay with
  | Ret withdrawable =>
      let validator' := mkValidator (EffectiveBalance validator) (Slashed validator) (ActivationEligibilityEpoch validator)
                          (ActivationEpoch validator) (HighestExitEpoch exitInfo) withdrawable
                          (ValPublicKey validator) (ValWithdrawalCredentials validator) in
      match UpdateValidatorAtIndex s idx validator' with
      | Ret s' => (s', exitInfo, Ret tt)
      | Err e => (s, exitInfo, Err e)
      | Panic m => (s, exitInfo, Panic m)
      | OutOfFuel => (s, exitInfo, OutOfFuel)
      end
  | Err e => (s, exitInfo, Err e)
  | Panic m => (s, exitInfo, Panic m)
  | OutOfFuel => (s, exitInfo, OutOfFuel)
  end.

(** [electraExit] is the balance churn call that the two variants of the function make. *)
Definition initiateExit (electraExit : ExitState → Z → ExitState * outcome Z) (s : ExitState) (idx : Z) (exitInfo : ExitInfo)
    : ExitState * ExitInfo * outcome unit :=
  match ValidatorAtIndex s idx with
  | Ret validator =>
      if negb (ExitEpoch validator =? FarFutureEpoch) then (s, exitInfo, Err ErrValidatorAlreadyExited) else
      if negb (isElectra s) then
        match initiateValidatorExitPreElectra s exitInfo with
        | (exitInfo, Ret _) => recordExit s idx validator exitInfo
        | (exitInfo, r) => (s, exitInfo, r)
        end
      else
        match electraExit s (EffectiveBalance validator) with
        | (s, Ret e) => recordExit s idx validator (mkExitInfo e (Churn exitInfo) (TotalActiveBalanceInfo exitInfo))
        | (s, Err e) => (s, mkExitInfo 0 (Churn exitInfo) (TotalActiveBalanceInfo exitInfo), Err e)
        | (s, Panic m) => (s, exitInfo, Panic m)
        | (s, OutOfFuel) => (s, exitInfo, OutOfFuel)
        end
  | Err e => (s, exitInfo, Err e)
  | Panic m => (s, exitInfo, Panic m)
  | OutOfFuel => (s, exitInfo, OutOfFuel)
  end.

Definition InitiateValidatorExit (s : ExitState) (idx : Z) (exitInfo : ExitInfo) : ExitState * ExitInfo * outcome unit :=
  initiateExit ExitEpochAndUpdateChurn s idx exitInfo.

Definition InitiateValidatorExitForTotalBal (s : ExitState) (idx : Z) (exitInfo : ExitInfo) (totalActiveBalance : Z)
    : ExitState * ExitInfo * outcome unit :=
  initiateExit (λ s, ExitEpochAndUpdateChurnForTotalBal s totalActiveBalance) s idx exitInfo.

(** The loop over the exits of a block; a [nil] exit is [None], and [verify] is
    [VerifyExitAndSignature], which reads the state. *)
Fixpoint ProcessVoluntaryExits (verify : ExitState → Z → outcome unit) (s : ExitState) (exitInfo : ExitInfo)
    (exits : list (option Z)) : ExitState * ExitInfo * outcome unit :=
  match exits with
  | [] => (s, exitInfo, Ret tt)
  | None :: _ => (s, exitInfo, Err "nil voluntary exit in block body")
  | Some idx :: rest =>
      match (v <-? ValidatorAtIndex s idx ;; verify s idx) with
      | Ret _ =>
          match InitiateValidatorExit s idx exitInfo with
          | (s, exitInfo, Ret _) => ProcessVoluntaryExits verify s exitInfo rest
          | (s, exitInfo, Err e) =>
              if bool_decide (e = ErrValidatorAlreadyExited) then ProcessVoluntaryExits verify s exitInfo rest
              else (s, exitInfo, Err e)
          | r => r
          end
      | Err e => (s, exitInfo, Err (wrapErr e "could not verify exit"))
      | r => (s, exitInfo, r)
      end
  end.
End exits.
