(* ===== verification/ExitQueueCorrect.v ===== *)
(** * The exit queue keeps its promises

    The [ExitInfo] that is threaded through the exits of a block always equals the one
    recomputed from the state, every exit epoch is the one the specification names, no
    epoch gets more exits than the churn limit allows, and the balance-based queue of
    Electra spends exactly the balance that leaves. *)

From S2P Require Import Prelude MathHelper Primitives SlotTime Shuffle Committee.
From S2P Require Import ExitQueue.

Section queue.
Context `{BeaconChainConfig}.

(** ** The exits of a list of validators *)

(** The specification's [max(exit_epochs)] and number of exits at an epoch. *)
Fixpoint maxExit (vs : list Validator) : Z :=
  match vs with
  | [] => 0
  | v :: vs => if ExitEpoch v =? FarFutureEpoch then maxExit vs else Z.max (ExitEpoch v) (maxExit vs)
  end.

Fixpoint countExit (vs : list Validator) (e : Z) : Z :=
  match vs with
  | [] => 0
  | v :: vs => (if ExitEpoch v =? e then 1 else 0) + countExit vs e
  end.

Lemma maxExit_nonneg vs : 0 ≤ maxExit vs.
Proof using Type. induction vs as [|v vs IH]; cbn; [done|]. case_if; lia. Qed.

Lemma countExit_bounds vs e : 0 ≤ countExit vs e ≤ Z.of_nat (length vs).
Proof using Type. induction vs as [|v vs IH]; cbn [countExit length]; [lia|]. case_if; lia. Qed.

(** No exit lies beyond the greatest one. *)
Lemma countExit_beyond vs e : maxExit vs < e → e ≠ FarFutureEpoch → countExit vs e = 0.
Proof using Type.
  induction vs as [|v vs IH]; cbn; intros Hlt Hfar; [done|].
  destruct (Z.eqb_spec (ExitEpoch v) e) as [He|He].
  - rewrite (proj2 (Z.eqb_neq (ExitEpoch v) FarFutureEpoch)) in Hlt by lia. lia.
  - rewrite IH; [done| |done]. destruct (ExitEpoch v =? FarFutureEpoch); lia.
Qed.

Context (Hfar : 0 < FarFutureEpoch).

Lemma maxExit_ne vs : maxExit vs ≠ FarFutureEpoch.
Proof using Hfar.
  induction vs as [|v vs IH]; cbn; [lia|]. destruct (Z.eqb_spec (ExitEpoch v) FarFutureEpoch); [done|]. lia.
Qed.

(** The loop of [ExitInformation]. *)
Lemma exitLoop_spec vs h c :
  0 ≤ h → h ≠ FarFutureEpoch → 0 ≤ c → c + Z.of_nat (length vs) < two64 →
  exitLoop vs h c = (Z.max h (maxExit vs), (if maxExit vs <=? h then c else 0) + countExit vs (Z.max h (maxExit vs))).
Proof using Hfar.
  revert h c. induction vs as [|v vs IH]; intros h c Hh Hne Hc Hlen; cbn [exitLoop maxExit countExit length] in *.
  { rewrite (proj2 (Z.leb_le _ _)), Z.max_l by lia. f_equal. lia. }
  pose proof (maxExit_ne vs). destruct (Z.eqb_spec (ExitEpoch v) FarFutureEpoch) as [He|He]; cbn [negb].
  { rewrite IH by lia. rewrite (proj2 (Z.eqb_neq (ExitEpoch v) _)) by lia. done. }
  destruct (Z.ltb_spec h (ExitEpoch v)).
  - rewrite IH by lia. rewrite (Z.max_r h) by lia. f_equal.
    rewrite (proj2 (Z.leb_gt (Z.max _ _) h)) by lia.
    destruct (Z.leb_spec (maxExit vs) (ExitEpoch v)), (Z.eqb_spec (ExitEpoch v) (Z.max (ExitEpoch v) (maxExit vs))); lia.
  - assert (Z.max h (Z.max (ExitEpoch v) (maxExit vs)) = Z.max h (maxExit vs)) as -> by lia.
    destruct (Z.eqb_spec (ExitEpoch v) h).
    + rewrite wrap64_small by (unfold is_u64; lia). rewrite IH by lia. f_equal.
      destruct (Z.leb_spec (maxExit vs) h), (Z.leb_spec (Z.max (ExitEpoch v) (maxExit vs)) h),
        (Z.eqb_spec (ExitEpoch v) (Z.max h (maxExit vs))); lia.
    + rewrite IH by lia. f_equal.
      destruct (Z.leb_spec (maxExit vs) h), (Z.leb_spec (Z.max (ExitEpoch v) (maxExit vs)) h),
        (Z.eqb_spec (ExitEpoch v) (Z.max h (maxExit vs))); lia.
Qed.

(** What [ExitInformation] returns. *)
Lemma ExitInformation_spec s :
  Z.of_nat (length (StateValidators s)) < two64 →
  ExitInformation s = mkExitInfo (maxExit (StateValidators s)) (countExit (StateValidators s) (maxExit (StateValidators s)))
    (TotalActiveBalance s).
Proof using Hfar.
  intros Hlen. unfold ExitInformation. pose proof (maxExit_nonneg (StateValidators s)).
  rewrite exitLoop_spec by lia. rewrite Z.max_r by lia. unfold TotalActiveBalance. f_equal. destruct (_ <=? 0); lia.
Qed.

(** ** Replacing one validator *)

Section replace.
Context (v v' : Validator) (e : Z).
Context (Hv : ExitEpoch v = FarFutureEpoch) (Hv' : ExitEpoch v' = e) (He : 0 ≤ e < FarFutureEpoch).

Lemma countExit_insert vs i x :
  x ≠ FarFutureEpoch → vs !! i = Some v → countExit (<[i := v']> vs) x = countExit vs x + if x =? e then 1 else 0.
Proof using Hv Hv'.
  intros Hx. revert i. induction vs as [|w vs IH]; intros [|i] Hi; cbn in *; [done..| |].
  - injection Hi as ->. rewrite Hv, Hv'. rewrite (proj2 (Z.eqb_neq FarFutureEpoch x)) by lia. rewrite (Z.eqb_sym e x). lia.
  - rewrite IH by done. lia.
Qed.

Lemma maxExit_insert vs i : vs !! i = Some v → maxExit (<[i := v']> vs) = Z.max e (maxExit vs).
Proof using Hv Hv' He.
  revert i. induction vs as [|w vs IH]; intros [|i] Hi; cbn in *; [done..| |].
  - injection Hi as ->. rewrite Hv, Hv', Z.eqb_refl. by rewrite (proj2 (Z.eqb_neq _ _)) by lia.
  - rewrite IH by done. case_if; lia.
Qed.

Context (c : Z) (Hact : ActivationEpoch v' = ActivationEpoch v) (Heff : EffectiveBalance v' = EffectiveBalance v) (Hc : c < e).

Lemma same_activity : IsActiveValidator v' c = IsActiveValidator v c.
Proof using Hv Hv' He Hact Hc.
  unfold IsActiveValidator, checkValidatorActiveStatus. rewrite Hact, Hv, Hv'. f_equal.
  destruct (Z.ltb_spec c e), (Z.ltb_spec c FarFutureEpoch); lia || done.
Qed.

Lemma activeFrom_insert vs i k : vs !! i = Some v → activeFrom k (<[i := v']> vs) c = activeFrom k vs c.
Proof using Hv Hv' He Hact Hc.
  revert i k. induction vs as [|w vs IH]; intros [|i] k Hi; cbn in *; [done..| |].
  - injection Hi as ->. by rewrite same_activity.
  - by rewrite !IH.
Qed.

Lemma sumActiveBalance_insert vs i t : vs !! i = Some v → sumActiveBalance (<[i := v']> vs) c t = sumActiveBalance vs c t.
Proof using Hv Hv' He Hact Hc Heff.
  revert i t. induction vs as [|w vs IH]; intros [|i] t Hi; cbn in *; [done..| |].
  - injection Hi as ->. by rewrite same_activity, Heff.
  - by rewrite !IH.
Qed.
End replace.

(** ** Exits before Electra *)

Definition exitLimit (s : ExitState) : Z :=
  ValidatorExitChurnLimit (Z.of_nat (length (activeFrom 0 (StateValidators s) (exitEpochOf s)))).

Definition queueEpoch (s : ExitState) : Z := Z.max (maxExit (StateValidators s)) (ActivationExitEpoch (exitEpochOf s)).

(** The exit epoch that the specification assigns. *)
Definition specExitEpoch (s : ExitState) : Z :=
  if exitLimit s <=? countExit (StateValidators s) (queueEpoch s) then queueEpoch s + 1 else queueEpoch s.

Definition exitAt (v : Validator) (e : Z) : Validator :=
  mkValidator (EffectiveBalance v) (Slashed v) (ActivationEligibilityEpoch v) (ActivationEpoch v) e
    (e + MinValidatorWithdrawabilityDelay) (ValPublicKey v) (ValWithdrawalCredentials v).

(** Room for [n] more exit epochs below the end of the range. *)
Definition queue_room (s : ExitState) (n : Z) : Prop :=
  0 ≤ exitEpochOf s ∧ 0 ≤ MaxSeedLookahead ∧ 0 ≤ MinValidatorWithdrawabilityDelay ∧
  exitEpochOf s + 1 + MaxSeedLookahead < two64 ∧ Z.of_nat (length (StateValidators s)) < two64 - 1 ∧
  queueEpoch s + n < FarFutureEpoch ∧ queueEpoch s + n + MinValidatorWithdrawabilityDelay < two64.

Lemma exitLimit_pos s : 0 < exitLimit s.
Proof using Type.
  unfold exitLimit, ValidatorExitChurnLimit, calculateChurnLimit. pose proof MinPerEpochChurnLimit_range.
  destruct (Z.ltb_spec (Z.of_nat (length (activeFrom 0 (StateValidators s) (exitEpochOf s))) / ChurnLimitQuotient) MinPerEpochChurnLimit); lia.
Qed.

(** How the queue moves. *)
Lemma queue_step s : queue_room s 1 →
  initiateValidatorExitPreElectra s (ExitInformation s) =
  (mkExitInfo (specExitEpoch s) (countExit (StateValidators s) (specExitEpoch s) + 1) (TotalActiveBalance s), Ret tt).
Proof using Hfar.
  intros (Hc & Hl & Hd & Ha & Hlen & Hq & Hw). pose proof (maxExit_nonneg (StateValidators s)).
  pose proof (countExit_bounds (StateValidators s) (queueEpoch s)). unfold initiateValidatorExitPreElectra.
  rewrite ExitInformation_spec by lia. cbn [HighestExitEpoch Churn TotalActiveBalanceInfo]. fold (exitLimit s).
  assert ((if maxExit (StateValidators s) <? ActivationExitEpoch (exitEpochOf s)
      then mkExitInfo (ActivationExitEpoch (exitEpochOf s)) 0 (TotalActiveBalance s)
      else mkExitInfo (maxExit (StateValidators s)) (countExit (StateValidators s) (maxExit (StateValidators s))) (TotalActiveBalance s))
      = mkExitInfo (queueEpoch s) (countExit (StateValidators s) (queueEpoch s)) (TotalActiveBalance s)) as ->.
  { destruct (Z.ltb_spec (maxExit (StateValidators s)) (ActivationExitEpoch (exitEpochOf s))).
    - rewrite countExit_beyond by (unfold queueEpoch in *; lia). f_equal. unfold queueEpoch. lia.
    - unfold queueEpoch. by rewrite Z.max_l by lia. }
  cbn [HighestExitEpoch Churn TotalActiveBalanceInfo]. unfold specExitEpoch.
  destruct (Z.leb_spec (exitLimit s) (countExit (StateValidators s) (queueEpoch s))).
  - unfold Epoch_SafeAdd. rewrite Add64_spec by (unfold is_u64, queueEpoch, two64 in *; lia).
    rewrite (proj2 (Z.ltb_lt _ _)) by lia. rewrite countExit_beyond by (unfold queueEpoch in *; lia). done.
  - by rewrite wrap64_small by (unfold is_u64; lia).
Qed.

(** What an exit does to the information. *)
Lemma info_step s idx v :
  StateValidators s !! Z.to_nat idx = Some v → ExitEpoch v = FarFutureEpoch → queue_room s 1 →
  let vs' := <[Z.to_nat idx := exitAt v (specExitEpoch s)]> (StateValidators s) in
  ExitInformation (setValidators vs' s) =
    mkExitInfo (specExitEpoch s) (countExit (StateValidators s) (specExitEpoch s) + 1) (TotalActiveBalance s) ∧
  maxExit vs' = specExitEpoch s ∧ exitEpochOf s < specExitEpoch s < FarFutureEpoch ∧
  queueEpoch s ≤ specExitEpoch s ≤ queueEpoch s + 1.
Proof using Hfar.
  intros Hv Hexit (Hc & Hl & Hd & Ha & Hlen & Hq & Hw). cbn zeta. pose proof (maxExit_nonneg (StateValidators s)) as Hm0.
  assert (ActivationExitEpoch (exitEpochOf s) = exitEpochOf s + 1 + MaxSeedLookahead) as Hact.
  { unfold ActivationExitEpoch. apply wrap64_small. unfold is_u64. lia. }
  assert (queueEpoch s ≤ specExitEpoch s ≤ queueEpoch s + 1) as Hse by (unfold specExitEpoch; case_if; lia).
  assert (exitEpochOf s < queueEpoch s) as Hcq by (unfold queueEpoch; lia).
  set (e := specExitEpoch s) in *. set (vs' := <[Z.to_nat idx := exitAt v e]> (StateValidators s)).
  assert (maxExit vs' = e) as Hmax.
  { unfold vs'. rewrite (maxExit_insert v (exitAt v e) e) by (done || lia). unfold queueEpoch in *. lia. }
  split_and!; [|done|lia..]. rewrite ExitInformation_spec by (cbn; unfold vs'; rewrite length_insert; lia). cbn.
  rewrite Hmax. f_equal.
  - unfold vs'. rewrite (countExit_insert v (exitAt v e) e) by (done || lia). by rewrite Z.eqb_refl.
  - unfold TotalActiveBalance, exitEpochOf. cbn. f_equal.
    apply (sumActiveBalance_insert v (exitAt v e) e); (done || unfold exitEpochOf in *; lia).
Qed.

(** One exit, with the information recomputed before and after it. *)
Lemma exit_step s idx v :
  isElectra s = false → StateValidators s !! Z.to_nat idx = Some v → ExitEpoch v = FarFutureEpoch → queue_room s 1 →
  let s' := setValidators (<[Z.to_nat idx := exitAt v (specExitEpoch s)]> (StateValidators s)) s in
  InitiateValidatorExit s idx (ExitInformation s) = (s', ExitInformation s', Ret tt).
Proof using Hfar.
  intros Hel Hv Hexit Hroom. cbn zeta. destruct (info_step s idx v Hv Hexit Hroom) as (-> & _ & He & Hq).
  unfold InitiateValidatorExit, initiateExit, ValidatorAtIndex. rewrite Hv, Hexit, Z.eqb_refl, Hel. cbn [negb].
  rewrite queue_step by done. destruct Hroom as (Hc & Hl & Hd & Ha & Hlen & Hqr & Hw). unfold recordExit, Epoch_SafeAddEpoch, Epoch_SafeAdd.
  cbn [HighestExitEpoch]. rewrite Add64_spec by (unfold is_u64; lia). rewrite (proj2 (Z.ltb_lt _ _)) by lia.
  unfold UpdateValidatorAtIndex. apply lookup_lt_Some in Hv. rewrite (proj2 (Nat.ltb_lt _ _)) by lia. done.
Qed.

(** Room, limit and counts after one exit. *)
Lemma exit_step_queue s idx v n :
  StateValidators s !! Z.to_nat idx = Some v → ExitEpoch v = FarFutureEpoch → queue_room s (1 + n) → 0 ≤ n →
  let s' := setValidators (<[Z.to_nat idx := exitAt v (specExitEpoch s)]> (StateValidators s)) s in
  queue_room s' n ∧ exitLimit s' = exitLimit s ∧ queueEpoch s ≤ queueEpoch s' ∧ queueEpoch s ≤ specExitEpoch s ∧
  ∀ e, e ≠ FarFutureEpoch → countExit (StateValidators s') e ≤ Z.max (countExit (StateValidators s) e) (exitLimit s).
Proof using Hfar.
  intros Hv Hexit Hroom Hn. cbn zeta. assert (queue_room s 1) as Hroom1 by (unfold queue_room in *; lia).
  destruct (info_step s idx v Hv Hexit Hroom1) as (_ & Hmax & He & Hq).
  set (s' := setValidators _ s). destruct Hroom as (Hc & Hl & Hd & Ha & Hlen & Hqr & Hw).
  assert (exitEpochOf s' = exitEpochOf s) as Hce by done.
  assert (queueEpoch s' = specExitEpoch s) as Hq'.
  { unfold queueEpoch. rewrite Hce. cbn [StateValidators setValidators s']. rewrite Hmax. unfold queueEpoch in Hq. lia. }
  split_and!; [|..|lia|lia|].
  - unfold queue_room. rewrite Hq', Hce. cbn [StateValidators setValidators s']. rewrite length_insert. lia.
  - unfold exitLimit. rewrite Hce. cbn [StateValidators setValidators s'].
    by rewrite (activeFrom_insert v (exitAt v (specExitEpoch s)) (specExitEpoch s)) by (done || lia).
  - intros x Hx. cbn [StateValidators setValidators s'].
    rewrite (countExit_insert v (exitAt v (specExitEpoch s)) (specExitEpoch s)) by (done || lia).
    destruct (Z.eqb_spec x (specExitEpoch s)) as [->|]; [|lia]. pose proof (exitLimit_pos s). unfold specExitEpoch in *.
    destruct (Z.leb_spec (exitLimit s) (countExit (StateValidators s) (queueEpoch s))); [|lia].
    rewrite countExit_beyond by (unfold queueEpoch in *; lia). lia.
Qed.

(** How a validator may have changed. *)
Definition exited (s s' : ExitState) : Prop :=
  Forall2 (λ v v', v' = v ∨ ExitEpoch v = FarFutureEpoch ∧ ∃ e, v' = exitAt v e ∧ queueEpoch s ≤ e < FarFutureEpoch)
    (StateValidators s) (StateValidators s').

Lemma exited_refl s : exited s s.
Proof using Type. unfold exited. induction (StateValidators s); constructor; auto. Qed.

Lemma exited_step s s1 s2 i v e :
  s1 = setValidators (<[i := exitAt v e]> (StateValidators s)) s → StateValidators s !! i = Some v →
  ExitEpoch v = FarFutureEpoch → queueEpoch s ≤ e < FarFutureEpoch → queueEpoch s ≤ queueEpoch s1 →
  exited s1 s2 → exited s s2.
Proof using Type.
  intros -> Hv Hexit He Hq Hs. unfold exited in *. cbn [StateValidators setValidators] in *.
  revert Hq Hs. set (q1 := queueEpoch (setValidators _ s)). clearbody q1. intros Hq Hs. revert i Hv Hs.
  generalize (StateValidators s2) as ws. induction (StateValidators s) as [|w vs IH]; intros ws [|i] Hv Hs; cbn in *; [done..| |].
  - injection Hv as ->. apply Forall2_cons_inv_l in Hs as (w' & ws' & Hw & Hrest & ->). constructor.
    + right. split; [done|]. destruct Hw as [->|[Hbad _]]; [eauto|]. cbn in Hbad. lia.
    + eapply Forall2_impl; [exact Hrest|]. intros x y [?|(? & x' & ? & ?)]; [by left|]. right. split; [done|]. exists x'. split; [done|lia].
  - apply Forall2_cons_inv_l in Hs as (w' & ws' & Hw & Hrest & ->). constructor; [|by apply (IH ws' i)].
    destruct Hw as [?|(? & x' & ? & ?)]; [by left|]. right. split; [done|]. exists x'. split; [done|lia].
Qed.
End queue.

(** ** Main theorems *)

(** The exit information stays exact: before Electra, initiating the exit of a
    validator that has not exited, with the information computed from the state, assigns
    the exit epoch of the specification (the end of the queue, or the epoch after it when
    the churn limit is reached) and changes nothing but that validator; the information
    that the call leaves behind is the one that would be recomputed from the new state. *)
Theorem exit_information_incremental `{BeaconChainConfig} s idx v :
  0 < FarFutureEpoch → isElectra s = false → StateValidators s !! Z.to_nat idx = Some v → ExitEpoch v = FarFutureEpoch →
  queue_room s 1 →
  let s' := setValidators (<[Z.to_nat idx := exitAt v (specExitEpoch s)]> (StateValidators s)) s in
  InitiateValidatorExit s idx (ExitInformation s) = (s', ExitInformation s', Ret tt).
Proof. intros. by apply exit_step. Qed.

(** C36. No epoch gets more exits than the churn limit: whatever voluntary exits a block
    lists and whatever the verification accepts, before Electra the number of validators
    that leave at an epoch afterwards is at most the limit or what it was before; every
    changed validator was not exiting and gets an epoch at the end of the queue or later;
    and the threaded exit information agrees with the state. *)
Theorem voluntary_exits_respect_churn `{BeaconChainConfig} verify exits s s' info r :
  0 < FarFutureEpoch → isElectra s = false → queue_room s (Z.of_nat (length exits)) →
  ProcessVoluntaryExits verify s (ExitInformation s) exits = (s', info, r) →
  info = ExitInformation s' ∧ exited s s' ∧
  ∀ e, e ≠ FarFutureEpoch → countExit (StateValidators s') e ≤ Z.max (countExit (StateValidators s) e) (exitLimit s).
Proof.
  intros Hfar. revert s. induction exits as [|[idx|] exits IH]; intros s Hel Hroom Hret; cbn [ProcessVoluntaryExits length] in *.
  1, 3: (injection Hret as <- <- _; split_and!; [done|apply exited_refl|lia]).
  assert (∀ r0, (s, ExitInformation s, r0) = (s', info, r) → info = ExitInformation s' ∧ exited s s' ∧
    ∀ e, e ≠ FarFutureEpoch → countExit (StateValidators s') e ≤ Z.max (countExit (StateValidators s) e) (exitLimit s)) as Hsame.
  { intros r0 Heq. injection Heq as <- <- _. split_and!; [done|apply exited_refl|lia]. }
  assert (queue_room s (Z.of_nat (length exits))) as Hroom' by (unfold queue_room in *; lia).
  destruct (ValidatorAtIndex s idx) as [v| | |] eqn:Hv; cbn [obind] in Hret; [|by eapply Hsame..].
  destruct (verify s idx); [|by eapply Hsame..]. unfold ValidatorAtIndex in Hv.
  destruct (StateValidators s !! Z.to_nat idx) as [v0|] eqn:Hv0; [injection Hv as ->|done].
  destruct (Z.eqb_spec (ExitEpoch v) FarFutureEpoch) as [Hexit|Hexit].
  - rewrite (exit_step Hfar s idx v) in Hret by (done || unfold queue_room in *; lia).
    rewrite Nat2Z.inj_succ, <- Z.add_1_l in Hroom.
    destruct (exit_step_queue Hfar s idx v (Z.of_nat (length exits)) Hv0 Hexit Hroom) as (Hr1 & Hlim & Hq & Hse & Hcnt); [lia|].
    destruct (info_step Hfar s idx v Hv0 Hexit) as (_ & _ & He & _); [unfold queue_room in *; lia|].
    set (s1 := setValidators _ s) in *. destruct (IH s1 Hel Hr1 Hret) as (Hinfo & Hex & Hc). split_and!; [done| |].
    + eapply (exited_step s s1 s'); [done|done|done|lia|done|done].
    + intros e Hne. specialize (Hcnt e Hne). specialize (Hc e Hne). rewrite Hlim in Hc. lia.
  - assert (InitiateValidatorExit s idx (ExitInformation s) = (s, ExitInformation s, Err ErrValidatorAlreadyExited)) as Hinit.
    { unfold InitiateValidatorExit, initiateExit, ValidatorAtIndex. by rewrite Hv0, (proj2 (Z.eqb_neq _ _)) by done. }
    rewrite Hinit, bool_decide_true in Hret by done. by apply IH.
Qed.

(** ** Exits from Electra on *)

Section churn.
Context `{BeaconChainConfig}.

(** The comment "guaranteed to be non-zero" on the churn limit. *)
Lemma ActivationExitChurnLimit_pos bal :
  EffectiveBalanceIncrement ≤ MinPerEpochChurnLimitElectra → 0 < MaxPerEpochActivationExitChurnLimit →
  0 < ActivationExitChurnLimit bal.
Proof using Type.
  intros Hmin Hmax. unfold ActivationExitChurnLimit, BalanceChurnLimit. pose proof EffectiveBalanceIncrement_range as [Hpos _].
  set (churn := Z.max _ _). assert (EffectiveBalanceIncrement ≤ churn) by lia.
  pose proof (Z.mod_pos_bound churn EffectiveBalanceIncrement Hpos). lia.
Qed.

(** Where the queue stands before an exit: its epoch and the balance that epoch has left. *)
Definition churnEpoch (s : ExitState) : Z := Z.max (EarliestExitEpoch s) (ActivationExitEpoch (exitEpochOf s)).
Definition churnLeft (s : ExitState) (P : Z) : Z := if EarliestExitEpoch s <? churnEpoch s then P else ExitBalanceToConsume s.

(** The queue after leaving balances [total]: [k] epochs further, having spent exactly [total]. *)
Definition churned (s s' : ExitState) (P total : Z) : Prop :=
  ∃ k, 0 ≤ k ∧ s' = setExitChurn (churnEpoch s + k) (churnLeft s P + k * P - total) s ∧
    0 ≤ ExitBalanceToConsume s' ∧ (k = 0 ∨ ExitBalanceToConsume s' < P).

Lemma exitEpochAndUpdateChurn_spec s tab b :
  let P := ActivationExitChurnLimit tab in
  0 < P → 0 ≤ b → 0 ≤ churnLeft s P → 0 ≤ churnEpoch s → churnEpoch s + b < two64 → churnLeft s P + P + b < two64 →
  ∃ s', exitEpochAndUpdateChurn s tab b = (s', Ret (EarliestExitEpoch s')) ∧ churned s s' P b.
Proof using Type.
  intros P HP Hb HA HE HEb HAb. unfold exitEpochAndUpdateChurn. fold P. fold (churnEpoch s). fold (churnLeft s P).
  set (A := churnLeft s P) in *. set (E := churnEpoch s) in *. unfold churned. fold A E. destruct (Z.ltb_spec A b).
  - rewrite (wrap64_small (b - A)) by (unfold is_u64; lia). rewrite (wrap64_small (b - A - 1)) by (unfold is_u64; lia).
    rewrite (proj2 (Z.eqb_neq _ _)) by lia.
    pose proof (Z.div_mod (b - A - 1) P ltac:(lia)). pose proof (Z.mod_pos_bound (b - A - 1) P HP).
    assert (0 ≤ (b - A - 1) / P) by (apply Z.div_pos; lia). set (q := (b - A - 1) / P) in *.
    assert (q ≤ b - A - 1) by nia. assert (0 ≤ (q + 1) * P ≤ b - A - 1 + P) by nia.
    rewrite (wrap64_small (q + 1)) by (unfold is_u64; lia). rewrite (wrap64_small (E + _)) by (unfold is_u64; lia).
    rewrite (wrap64_small ((q + 1) * P)) by (unfold is_u64; lia). rewrite (wrap64_small (A + _)) by (unfold is_u64; lia).
    rewrite (wrap64_small (_ - b)) by (unfold is_u64; nia). exists (setExitChurn (E + (q + 1)) (A + (q + 1) * P - b) s). split; [done|].
    exists (q + 1). cbn. split_and!; (done || nia).
  - rewrite wrap64_small by (unfold is_u64; lia). exists (setExitChurn E (A - b) s). split; [done|]. exists 0. cbn.
    rewrite Z.add_0_r, Z.mul_0_l, Z.add_0_r. split_and!; (done || lia || by left).
Qed.

(** Balances leaving one after the other in the same slot. *)
Fixpoint churnAll (s : ExitState) (tab : Z) (bs : list Z) : ExitState * outcome Z :=
  match bs with
  | [] => (s, Ret (EarliestExitEpoch s))
  | b :: bs =>
      match exitEpochAndUpdateChurn s tab b with
      | (s, Ret _) => churnAll s tab bs
      | r => r
      end
  end.

Definition total (bs : list Z) : Z := foldr Z.add 0 bs.

Lemma total_nonneg bs : Forall (λ b, 0 ≤ b) bs → 0 ≤ total bs.
Proof using Type. unfold total. induction 1 as [|x l Hx Hl IH]; cbn in *; lia. Qed.

(** After an exit the queue stands where the state says. *)
Lemma churned_stands s s' P t : 0 ≤ t → churned s s' P t →
  churnEpoch s' = EarliestExitEpoch s' ∧ churnLeft s' P = ExitBalanceToConsume s' ∧
  churnEpoch s ≤ churnEpoch s' ∧ churnLeft s' P ≤ Z.max (churnLeft s P) P ∧ exitEpochOf s' = exitEpochOf s.
Proof using Type.
  intros Ht (k & Hk & -> & Hpos & Hlt). cbn in *.
  assert (churnEpoch (setExitChurn (churnEpoch s + k) (churnLeft s P + k * P - t) s) = churnEpoch s + k) as Hce.
  { unfold churnEpoch at 1. cbn. change (exitEpochOf (setExitChurn _ _ s)) with (exitEpochOf s). unfold churnEpoch. lia. }
  assert (churnLeft (setExitChurn (churnEpoch s + k) (churnLeft s P + k * P - t) s) P = churnLeft s P + k * P - t) as ->.
  { unfold churnLeft at 1. rewrite Hce. cbn [EarliestExitEpoch ExitBalanceToConsume setExitChurn]. by rewrite Z.ltb_irrefl. }
  rewrite Hce. split_and!; [done|done|lia| |done]. destruct Hlt as [->|]; lia.
Qed.

Lemma churned_trans s s1 s2 P t1 t2 : 0 < P → 0 ≤ t1 → 0 ≤ t2 → churned s s1 P t1 → churned s1 s2 P t2 → churned s s2 P (t1 + t2).
Proof using Type.
  intros HP Ht1 Ht2 H1 H2. destruct (churned_stands s s1 P t1 Ht1 H1) as (Hce & Hcl & _).
  destruct H1 as (k1 & Hk1 & -> & Hp1 & Hl1), H2 as (k2 & Hk2 & -> & Hp2 & Hl2). rewrite Hce, Hcl in *. cbn in *.
  exists (k1 + k2). cbn. split_and!; [lia| |lia|].
  - unfold setExitChurn. cbn. f_equal; lia.
  - destruct Hl2 as [->|]; [|by right]. destruct Hl1 as [->|]; [left; lia|right; lia].
Qed.

(** The balance-based exit queue conserves balance: however many balances leave one
    after the other in a slot, the queue's epoch advances by some [k] epochs, the balance
    left in that epoch is what was available plus [k] times the per-epoch churn minus all
    that left, and [k] is the least for which this is not negative; no call fails or
    divides by zero. *)
Theorem exit_churn_conserved s tab b bs :
  let P := ActivationExitChurnLimit tab in
  EffectiveBalanceIncrement ≤ MinPerEpochChurnLimitElectra → 0 < MaxPerEpochActivationExitChurnLimit →
  0 ≤ b → Forall (λ b, 0 ≤ b) bs → 0 ≤ churnLeft s P → 0 ≤ churnEpoch s →
  churnEpoch s + total (b :: bs) < two64 → Z.max (churnLeft s P) P + P + total (b :: bs) < two64 →
  ∃ s' k, churnAll s tab (b :: bs) = (s', Ret (churnEpoch s + k)) ∧ 0 ≤ k ∧
    s' = setExitChurn (churnEpoch s + k) (churnLeft s P + k * P - total (b :: bs)) s ∧
    total (b :: bs) ≤ churnLeft s P + k * P ∧ (k = 0 ∨ churnLeft s P + (k - 1) * P < total (b :: bs)).
Proof using Type.
  intros P Hmin Hmax Hb Hbs HA HE HEb HAb. pose proof (ActivationExitChurnLimit_pos tab Hmin Hmax) as HP. fold P in HP.
  assert (∃ s', churnAll s tab (b :: bs) = (s', Ret (EarliestExitEpoch s')) ∧ churned s s' P (total (b :: bs)))
    as (s' & Hret & k & Hk & -> & Hpos & Hlt).
  { revert s b Hb HA HE HEb HAb. induction Hbs as [|b' bs Hb' Hbs IH]; intros s b Hb HA HE HEb HAb.
    - cbn [total foldr] in *. destruct (exitEpochAndUpdateChurn_spec s tab b) as (s' & Hret & Hch); [fold P; lia..|].
      exists s'. cbn [churnAll]. rewrite Hret, Z.add_0_r. done.
    - assert (0 ≤ total (b' :: bs)) as Hrest by (apply total_nonneg; by constructor).
      change (total (b :: b' :: bs)) with (b + total (b' :: bs)) in *.
      destruct (exitEpochAndUpdateChurn_spec s tab b) as (s1 & Hret & Hch); [fold P; lia..|]. fold P in Hch.
      destruct (churned_stands s s1 P b Hb Hch) as (Hce & Hcl & Hle & Hmx & _).
      assert (0 ≤ churnLeft s1 P ∧ churnEpoch s1 ≤ churnEpoch s + b) as [Hl1 He1].
      { rewrite Hce, Hcl. destruct Hch as (k & Hk & -> & Hp & Hlt). cbn in *. split; [done|]. destruct Hlt as [->|]; nia. }
      destruct (IH s1 b' Hb' Hl1) as (s' & Hret' & Hch'); [lia..|]. exists s'.
      change (churnAll s tab (b :: b' :: bs)) with
        (match exitEpochAndUpdateChurn s tab b with (s, Ret _) => churnAll s tab (b' :: bs) | r => r end).
      rewrite Hret. split; [done|]. by eapply churned_trans. }
  exists (setExitChurn (churnEpoch s + k) (churnLeft s P + k * P - total (b :: bs)) s), k. cbn [ExitBalanceToConsume setExitChurn] in *.
  split_and!; [done|done|done|lia|]. destruct Hlt as [->|]; [by left|right; lia].
Qed.
End churn.

(** ** A concrete queue: three active validators, one of which is leaving *)

Definition demoState : ExitState :=
  mkExitState [mkValidator 32000000000 false 0 0 maxUint64 maxUint64 [] []; mkValidator 32000000000 false 0 0 120 376 [] [];
               mkValidator 32000000000 false 0 0 maxUint64 maxUint64 [] []] 3200 Capella 0 0 0 0.

Lemma demo_room n : 0 ≤ n < 10 → @queue_room mainnetBeaconConfig demoState n.
Proof.
  intros Hn. unfold queue_room. change (@queueEpoch mainnetBeaconConfig demoState) with 120.
  change (@exitEpochOf mainnetBeaconConfig demoState) with 100. cbn. unfold two64, maxUint64. lia.
Qed.

Lemma exit_information_incremental_witness :
  ∃ s', @InitiateValidatorExit mainnetBeaconConfig demoState 2 (@ExitInformation mainnetBeaconConfig demoState)
        = (s', mkExitInfo 120 2 96000000000, Ret tt).
Proof.
  eexists. rewrite (@exit_information_incremental mainnetBeaconConfig demoState 2
    (mkValidator 32000000000 false 0 0 maxUint64 maxUint64 [] [])); [|reflexivity..|].
  - vm_compute. reflexivity.
  - apply demo_room. lia.
Defined.

Lemma voluntary_exits_respect_churn_witness :
  ∃ s' info r, @ProcessVoluntaryExits mainnetBeaconConfig (λ _ _, Ret tt) demoState
      (@ExitInformation mainnetBeaconConfig demoState) [Some 0; Some 1; Some 2] = (s', info, r) ∧
    @countExit (StateValidators s') 120 ≤ 4.
Proof.
  destruct (@ProcessVoluntaryExits mainnetBeaconConfig (λ _ _, Ret tt) demoState
      (@ExitInformation mainnetBeaconConfig demoState) [Some 0; Some 1; Some 2]) as [[s' info] r] eqn:Hret.
  destruct (@voluntary_exits_respect_churn mainnetBeaconConfig (λ _ _, Ret tt) [Some 0; Some 1; Some 2] demoState s' info r)
    as (_ & _ & Hcnt); [reflexivity|reflexivity|apply demo_room; cbn; lia|exact Hret|].
  exists s', info, r. split; [exact eq_refl|]. etransitivity; [apply Hcnt; discriminate|]. vm_compute. discriminate.
Defined.

Lemma exit_churn_conserved_witness :
  ∃ s', @churnAll mainnetBeaconConfig demoState 96000000000 [100000000000; 32000000000] = (s', Ret 106).
Proof.
  destruct (@exit_churn_conserved mainnetBeaconConfig demoState 96000000000 100000000000 [32000000000])
    as (s' & k & Hret & Hk & _ & Hle & Hleast);
    [vm_compute; discriminate|reflexivity|lia|repeat constructor; lia|vm_compute; discriminate|vm_compute; discriminate
    |reflexivity|reflexivity|].
  change (@churnLeft mainnetBeaconConfig demoState _) with 128000000000 in *.
  change (@ActivationExitChurnLimit mainnetBeaconConfig 96000000000) with 128000000000 in *.
  change (total _) with 132000000000 in *. assert (k = 1) as -> by lia. exists s'. exact Hret.
Defined.
