(* ===== verification/Bytes.v ===== *)
(** * Byte slices and integers as bytes

    Models [encoding/bytesutil/integers.go], [bytes.go], [bytes_go120.go] and
    [eth_types.go]: the conversions between [uint64] values and their little- and
    big-endian encodings, fixed-size arrays and copies.  A byte is a [Z] in [0, 256).
    The main result is that big-endian keys sort like the numbers they encode, which
    is what the databases of this library rely on when they walk a bucket in order. *)

From S2P Require Import Prelude.

Definition bytes : Type := list Z.

Definition is_byte (b : Z) : Prop := 0 ≤ b < 256.
Definition is_bytes (l : bytes) : Prop := Forall is_byte l.

Definition RootLength : nat := 32.
Definition BLSPubkeyLength : nat := 48.

(** [make([]byte, n)]. *)
Definition zeroBytes (n : nat) : bytes := replicate n 0.

(** [binary.BigEndian] and [binary.LittleEndian] of the Go standard library. *)
Fixpoint PutLittleEndian (n : nat) (x : Z) : bytes :=
  match n with
  | O => []
  | S n => x mod 256 :: PutLittleEndian n (x / 256)
  end.
Definition PutBigEndian (n : nat) (x : Z) : bytes := reverse (PutLittleEndian n x).

Fixpoint LittleEndianUint (l : bytes) : Z :=
  match l with
  | [] => 0
  | b :: l => b + 256 * LittleEndianUint l
  end.
Definition BigEndianUint (l : bytes) : Z := LittleEndianUint (reverse l).

(** [copy(dst, src)]: as many bytes as fit. *)
Definition copyBytes (dst src : bytes) : bytes :=
  take (length dst) src ++ drop (length src) dst.

(** ** Integers *)

Definition ToBytes (x len : Z) : bytes :=
  let len := if len <? 0 then 0 else len in
  let makeLength := if len <? 8 then 8 else len in
  take (Z.to_nat len) (copyBytes (zeroBytes (Z.to_nat makeLength)) (PutLittleEndian 8 x)).

Definition Bytes1 (x : Z) : bytes := take 1 (PutLittleEndian 8 x).
Definition Bytes2 (x : Z) : bytes := take 2 (PutLittleEndian 8 x).
Definition Bytes3 (x : Z) : bytes := take 3 (PutLittleEndian 8 x).
Definition Bytes4 (x : Z) : bytes := take 4 (PutLittleEndian 8 x).
Definition Bytes8 (x : Z) : bytes := PutLittleEndian 8 x.
Definition Bytes32 (x : Z) : bytes := copyBytes (zeroBytes 32) (PutLittleEndian 8 x).

Definition FromBytes2 (x : bytes) : Z :=
  if (length x <? 2)%nat then 0 else LittleEndianUint (take 2 x).
Definition FromBytes8 (x : bytes) : Z :=
  if (length x <? 8)%nat then 0 else LittleEndianUint (take 8 x).
Definition ToLowInt64 (x : bytes) : Z :=
  if (length x <? 8)%nat then 0 else wrapI64 (LittleEndianUint (take 8 x)).

(** [append(x[:4], empty4bytes...)] writes into the caller's array when its capacity
    allows it: the slice has the whole array [x] here, as when it was made by [make].
    Returns the number and the array afterwards. *)
Definition FromBytes4 (x : bytes) : Z * bytes :=
  if (length x <? 4)%nat then (0, x)
  else (LittleEndianUint (take 4 x ++ zeroBytes 4),
        if (length x <? 8)%nat then x else take 4 x ++ zeroBytes 4 ++ drop 8 x).

Definition PadTo (b : bytes) (size : nat) : bytes :=
  if (size <=? length b)%nat then b else b ++ zeroBytes (size - length b).

(** [[n]byte(PadTo(x, n))]: the conversion to an array drops what is beyond [n]. *)
Definition ToBytesN (n : nat) (x : bytes) : bytes := take n (PadTo x n).
Definition ToBytes4 (x : bytes) : bytes := ToBytesN 4 x.
Definition ToBytes20 (x : bytes) : bytes := ToBytesN 20 x.
Definition ToBytes32 (x : bytes) : bytes := ToBytesN 32 x.
Definition ToBytes48 (x : bytes) : bytes := ToBytesN 48 x.
Definition ToBytes64 (x : bytes) : bytes := ToBytesN 64 x.
Definition ToBytes96 (x : bytes) : bytes := ToBytesN 96 x.
Definition ToBytes48Array (x : list bytes) : list bytes := map ToBytes48 x.

Definition Uint32ToBytes4 (i : Z) : bytes := ToBytes4 (PutBigEndian 4 i).
Definition Uint64ToBytesLittleEndian (i : Z) : bytes := PutLittleEndian 8 i.
Definition Uint64ToBytesLittleEndian32 (i : Z) : bytes := copyBytes (zeroBytes 32) (PutLittleEndian 8 i).
Definition Uint64ToBytesBigEndian (i : Z) : bytes := PutBigEndian 8 i.
Definition BytesToUint64BigEndian (b : bytes) : Z :=
  if (length b <? 8)%nat then 0 else BigEndianUint (take 8 b).

Definition EpochToBytesLittleEndian (i : Z) : bytes := Uint64ToBytesLittleEndian i.
Definition EpochToBytesBigEndian (i : Z) : bytes := Uint64ToBytesBigEndian i.
Definition BytesToEpochBigEndian (b : bytes) : Z := BytesToUint64BigEndian b.
Definition SlotToBytesBigEndian (i : Z) : bytes := Uint64ToBytesBigEndian i.
Definition BytesToSlotBigEndian (b : bytes) : Z := BytesToUint64BigEndian b.

Definition ZeroRoot (root : bytes) : bool := bool_decide (zeroBytes RootLength = root).
Definition IsRoot (root : bytes) : bool := (length root =? RootLength)%nat.
Definition IsValidRoot (root : bytes) : bool := IsRoot root && negb (ZeroRoot root).

(** ** Slices *)

Definition Trunc (x : bytes) : bytes := if (6 <? length x)%nat then take 6 x else x.

Definition errIndexOutOfRange : error := "index out of range".
(** [input] is [None] for a nil slice. *)
Definition SafeCopyRootAtIndex (input : option (list bytes)) (idx : Z) : outcome (option bytes) :=
  match input with
  | None => Ret None
  | Some input =>
      if Z.of_nat (length input) <=? idx then Err errIndexOutOfRange
      else match input !! Z.to_nat idx with
           | Some x => Ret (Some (copyBytes (zeroBytes 32) x))
           | None => Panic "index out of range"
           end
  end.

(** The swaps [b[i], b[len(b)-i-1] = b[len(b)-i-1], b[i]] for [i < len(b)/2]. *)
Definition swapAt (b : bytes) (i : nat) : bytes :=
  match b !! i, b !! (length b - i - 1)%nat with
  | Some x, Some y => <[(length b - i - 1)%nat := x]> (<[i := y]> b)
  | _, _ => b
  end.
Definition ReverseByteOrder (input : bytes) : bytes :=
  foldl swapAt input (seq 0 (length input / 2)).

(** ** Lexicographic order of byte slices, [bytes.Compare] *)

Fixpoint bytes_ltb (x y : bytes) : bool :=
  match x, y with
  | _, [] => false
  | [], _ :: _ => true
  | a :: x, b :: y => (a <? b) || ((a =? b) && bytes_ltb x y)
  end.
Definition bytes_lt (x y : bytes) : Prop := bytes_ltb x y = true.
Definition bytes_le (x y : bytes) : Prop := x = y ∨ bytes_lt x y.

#[global] Instance bytes_lt_dec : RelDecision bytes_lt.
Proof. intros x y. unfold bytes_lt. apply _. Defined.
#[global] Instance bytes_le_dec : RelDecision bytes_le.
Proof. intros x y. unfold bytes_le. apply _. Defined.

#[global] Arguments Uint64ToBytesBigEndian : simpl never.
#[global] Arguments EpochToBytesBigEndian : simpl never.
#[global] Arguments SlotToBytesBigEndian : simpl never.
#[global] Arguments BytesToUint64BigEndian : simpl never.
#[global] Arguments copyBytes : simpl never.
#[global] Arguments zeroBytes : simpl never.

(** ** Order lemmas *)

Lemma bytes_lt_irrefl x : ¬ bytes_lt x x.
Proof.
  unfold bytes_lt. induction x as [|a x IH]; cbn; [done|].
  rewrite Z.ltb_irrefl, Z.eqb_refl. done.
Qed.

Lemma bytes_lt_trans x y z : bytes_lt x y → bytes_lt y z → bytes_lt x z.
Proof.
  unfold bytes_lt. revert y z. induction x as [|a x IH]; intros [|b y] [|c z]; cbn; try done.
  rewrite !orb_true_iff, !andb_true_iff, !Z.ltb_lt, !Z.eqb_eq.
  intros [?|[-> ?]] [?|[-> ?]]; [left; lia..|]. right. split; [done|by eapply IH].
Qed.

Lemma bytes_lt_total x y : bytes_lt x y ∨ x = y ∨ bytes_lt y x.
Proof.
  unfold bytes_lt. revert y. induction x as [|a x IH]; intros [|b y]; cbn; [tauto..|].
  rewrite !orb_true_iff, !andb_true_iff, !Z.ltb_lt, !Z.eqb_eq.
  destruct (Z.lt_trichotomy a b) as [?|[->|?]]; [tauto| |tauto].
  destruct (IH y) as [?|[->|?]]; tauto.
Qed.

#[global] Instance bytes_le_trans : Transitive bytes_le.
Proof.
  intros x y z [->|Hxy] [->|Hyz]; [by left|by right|by right|].
  right. by eapply bytes_lt_trans.
Qed.
#[global] Instance bytes_le_total : Total bytes_le.
Proof. intros x y. destruct (bytes_lt_total x y) as [?|[->|?]]; unfold bytes_le; tauto. Qed.

(** ** Encodings *)

Lemma length_PutLittleEndian n x : length (PutLittleEndian n x) = n.
Proof. revert x. induction n; intros x; cbn; [done|]. by rewrite IHn. Qed.

Lemma PutLittleEndian_bytes n x : is_bytes (PutLittleEndian n x).
Proof.
  revert x. induction n; intros x; cbn; constructor; [|apply IHn].
  unfold is_byte. apply Z.mod_pos_bound. lia.
Qed.

Lemma LittleEndianUint_Put n x :
  0 ≤ x < 256 ^ Z.of_nat n → LittleEndianUint (PutLittleEndian n x) = x.
Proof.
  revert x. induction n as [|n IH]; intros x Hx; cbn [PutLittleEndian LittleEndianUint].
  { cbn in Hx. lia. }
  rewrite Nat2Z.inj_succ, Z.pow_succ_r in Hx by lia.
  rewrite IH; [pose proof (Z.div_mod x 256); lia|].
  split; [apply Z.div_pos; lia|]. apply Z.div_lt_upper_bound; lia.
Qed.

Lemma LittleEndianUint_app l1 l2 :
  LittleEndianUint (l1 ++ l2) = LittleEndianUint l1 + 256 ^ Z.of_nat (length l1) * LittleEndianUint l2.
Proof.
  induction l1 as [|b l1 IH]; cbn [app LittleEndianUint length]; [change (256 ^ Z.of_nat 0) with 1; lia|].
  rewrite IH, Nat2Z.inj_succ, Z.pow_succ_r by lia. lia.
Qed.

Lemma BigEndianUint_cons b l : BigEndianUint (b :: l) = b * 256 ^ Z.of_nat (length l) + BigEndianUint l.
Proof.
  unfold BigEndianUint. rewrite reverse_cons, LittleEndianUint_app, length_reverse.
  cbn [LittleEndianUint]. lia.
Qed.

Lemma BigEndianUint_range l : is_bytes l → 0 ≤ BigEndianUint l < 256 ^ Z.of_nat (length l).
Proof.
  induction 1 as [|b l Hb Hl IH]; [by vm_compute|].
  rewrite BigEndianUint_cons. cbn [length]. rewrite Nat2Z.inj_succ, Z.pow_succ_r by lia.
  unfold is_byte in Hb. nia.
Qed.

(** Slices of the same length compare like the numbers they encode. *)
Lemma bytes_lt_BigEndianUint x y :
  is_bytes x → is_bytes y → length x = length y →
  bytes_lt x y ↔ BigEndianUint x < BigEndianUint y.
Proof.
  intros Hx. revert y. induction Hx as [|a x Ha Hx IH]; intros [|b y] Hy Hlen; try done.
  inversion_clear Hy as [|?? Hb Hy']. cbn in Hlen. injection Hlen as Hlen.
  specialize (IH _ Hy' Hlen). rewrite !BigEndianUint_cons, <- Hlen.
  pose proof (BigEndianUint_range _ Hx). pose proof (BigEndianUint_range _ Hy') as Hry.
  rewrite <- Hlen in Hry. unfold bytes_lt in *. cbn [bytes_ltb].
  rewrite orb_true_iff, andb_true_iff, Z.ltb_lt, Z.eqb_eq, IH.
  set (P := 256 ^ Z.of_nat (length x)) in *. unfold is_byte in *. split.
  - intros [?|[-> ?]]; nia.
  - intros Hlt. destruct (Z.lt_trichotomy a b) as [?|[->|?]]; [by left|right; split; [done|lia]|nia].
Qed.

Lemma length_Uint64ToBytesBigEndian i : length (Uint64ToBytesBigEndian i) = 8%nat.
Proof. unfold Uint64ToBytesBigEndian, PutBigEndian. by rewrite length_reverse, length_PutLittleEndian. Qed.

Lemma Uint64ToBytesBigEndian_bytes i : is_bytes (Uint64ToBytesBigEndian i).
Proof. apply Forall_reverse, PutLittleEndian_bytes. Qed.

Lemma BigEndianUint_Uint64 i : is_u64 i → BigEndianUint (Uint64ToBytesBigEndian i) = i.
Proof.
  intros Hi. unfold BigEndianUint, Uint64ToBytesBigEndian, PutBigEndian.
  rewrite reverse_involutive. apply LittleEndianUint_Put. exact Hi.
Qed.

Lemma BytesToUint64BigEndian_app i l :
  is_u64 i → BytesToUint64BigEndian (Uint64ToBytesBigEndian i ++ l) = i.
Proof.
  intros Hi. unfold BytesToUint64BigEndian.
  rewrite length_app, length_Uint64ToBytesBigEndian.
  rewrite (take_app_length' (Uint64ToBytesBigEndian i) l 8) by (symmetry; apply length_Uint64ToBytesBigEndian).
  rewrite BigEndianUint_Uint64 by done. by destruct (8 + length l <? 8)%nat eqn:E; [apply Nat.ltb_lt in E; lia|].
Qed.

Lemma BytesToUint64BigEndian_Uint64 i :
  is_u64 i → BytesToUint64BigEndian (Uint64ToBytesBigEndian i) = i.
Proof.
  intros Hi. rewrite <- (app_nil_r (Uint64ToBytesBigEndian i)). by apply BytesToUint64BigEndian_app.
Qed.

Lemma Uint64ToBytesBigEndian_inj i j :
  is_u64 i → is_u64 j → Uint64ToBytesBigEndian i = Uint64ToBytesBigEndian j → i = j.
Proof.
  intros Hi Hj E. rewrite <- (BytesToUint64BigEndian_Uint64 i), E by done.
  by apply BytesToUint64BigEndian_Uint64.
Qed.

Lemma Uint64ToBytesBigEndian_lt i j :
  is_u64 i → is_u64 j → bytes_lt (Uint64ToBytesBigEndian i) (Uint64ToBytesBigEndian j) ↔ i < j.
Proof.
  intros Hi Hj. rewrite bytes_lt_BigEndianUint; [|apply Uint64ToBytesBigEndian_bytes..|].
  - by rewrite !BigEndianUint_Uint64.
  - by rewrite !length_Uint64ToBytesBigEndian.
Qed.

#[export] Hint Resolve Uint64ToBytesBigEndian_bytes : go.
#[export] Hint Rewrite length_Uint64ToBytesBigEndian : go.
