(* ===== verification/Protection.v ===== *)
(** * The key-value store under the databases

    [go.etcd.io/bbolt] is not part of the repository: the databases are modelled
    against the class [Bolt], whose operations are the calls the code makes on a
    bucket and whose laws are the documented behaviour of those calls.  A bucket maps
    byte-slice keys to byte slices or to nested buckets; [entries] is what
    [Bucket.ForEach] and a walk of a [Cursor] from [First] to [Last] visit, in byte
    order of the keys.  [Get] answers [None] for a missing key (a nil slice in Go)
    and [Some []] for a key with an empty value.  [gmapBolt] is an instance. *)

From stdpp Require Import sorting.
From S2P Require Import Prelude Primitives SlotTime Bytes.

Class Bolt := {
  Bucket : Type → Type;
  emptyBucket {V} : Bucket V;
  Get {V} : Bucket V → bytes → option V;
  Put {V} : Bucket V → bytes → V → Bucket V;
  Delete {V} : Bucket V → bytes → Bucket V;
  entries {V} : Bucket V → list (bytes * V);
  Get_empty {V} k : Get (@emptyBucket V) k = None;
  Get_Put {V} (b : Bucket V) k v k' :
    Get (Put b k v) k' = if decide (k = k') then Some v else Get b k';
  Get_Delete {V} (b : Bucket V) k k' :
    Get (Delete b k) k' = if decide (k = k') then None else Get b k';
  entries_Get {V} (b : Bucket V) k v : (k, v) ∈ entries b ↔ Get b k = Some v;
  entries_sorted {V} (b : Bucket V) : StronglySorted bytes_lt (entries b).*1
}.

(** [Cursor.First] and [Cursor.Last]. *)
Definition cursorFirst `{Bolt} {V} (b : Bucket V) : option (bytes * V) := head (entries b).
Definition cursorLast `{Bolt} {V} (b : Bucket V) : option (bytes * V) := last (entries b).

(** [CreateBucketIfNotExists] on a bucket of buckets, with what an empty one is. *)
Definition CreateBucketIfNotExists `{Bolt} {V} (b : Bucket V) (k : bytes) (new : V) : Bucket V :=
  match Get b k with Some _ => b | None => Put b k new end.

Section laws.
Context `{Bolt}.

Lemma Get_Put_eq {V} (b : Bucket V) k v : Get (Put b k v) k = Some v.
Proof. rewrite Get_Put. by rewrite decide_True. Qed.

Lemma Get_Put_ne {V} (b : Bucket V) k v k' : k ≠ k' → Get (Put b k v) k' = Get b k'.
Proof. intros ?. rewrite Get_Put. by rewrite decide_False. Qed.

Lemma Get_Create {V} (b : Bucket V) k new k' :
  Get (CreateBucketIfNotExists b k new) k' =
  if decide (k = k') then Some (default new (Get b k)) else Get b k'.
Proof.
  unfold CreateBucketIfNotExists. destruct (Get b k) eqn:E; [|by rewrite Get_Put].
  case_decide; by subst.
Qed.

Lemma entries_head_Get {V} (b : Bucket V) k v : cursorFirst b = Some (k, v) → Get b k = Some v.
Proof.
  unfold cursorFirst. destruct (entries b) as [|e l] eqn:E; [done|]. intros [= ->].
  apply entries_Get. rewrite E. set_solver.
Qed.

(** Every key is at least the first one and at most the last one. *)
Lemma cursorFirst_le {V} (b : Bucket V) k v k' v' :
  cursorFirst b = Some (k, v) → Get b k' = Some v' → bytes_le k k'.
Proof.
  unfold cursorFirst. pose proof (entries_sorted b) as Hs. intros Hh Hg%entries_Get.
  destruct (entries b) as [|e l]; [done|]. injection Hh as ->. cbn in Hs.
  apply StronglySorted_inv in Hs as [_ Hall]. rewrite Forall_forall in Hall.
  apply elem_of_cons in Hg as [[= -> ->]|Hg]; [by left|right].
  apply Hall, list_elem_of_fmap. by exists (k', v').
Qed.

Lemma cursorLast_Get {V} (b : Bucket V) k v : cursorLast b = Some (k, v) → Get b k = Some v.
Proof. intros Hl. by apply entries_Get, last_Some_elem_of. Qed.

Lemma cursorLast_None {V} (b : Bucket V) k : cursorLast b = None → Get b k = None.
Proof.
  unfold cursorLast. intros Hl%last_None. destruct (Get b k) eqn:E; [|done].
  apply entries_Get in E. rewrite Hl in E. set_solver.
Qed.

Lemma cursorLast_ge {V} (b : Bucket V) k v k' v' :
  cursorLast b = Some (k, v) → Get b k' = Some v' → bytes_le k' k.
Proof.
  unfold cursorLast. pose proof (entries_sorted b) as Hs. intros Hl Hg%entries_Get.
  apply last_Some in Hl as [l Hl]. rewrite Hl in Hs, Hg.
  rewrite fmap_app in Hs. apply elem_of_app in Hg as [Hg|Hg]; [right|left; set_solver].
  apply StronglySorted_app_1_elem_of with (x1 := k') (x2 := k) in Hs; [done| |set_solver].
  apply list_elem_of_fmap. by exists (k', v').
Qed.

Lemma entries_NoDup {V} (b : Bucket V) : NoDup (entries b).*1.
Proof.
  pose proof (entries_sorted b) as Hs.
  induction (entries b).*1 as [|k l IH]; [constructor|].
  apply StronglySorted_inv in Hs as [Hs Hall]. constructor; [|by apply IH].
  intros Hk. rewrite Forall_forall in Hall. by apply (bytes_lt_irrefl k), Hall.
Qed.
End laws.

(** ** A concrete store *)

Definition keyLe {V} (x y : bytes * V) : Prop := bytes_le x.1 y.1.
#[global] Instance keyLe_dec {V} : RelDecision (@keyLe V).
Proof. intros x y. unfold keyLe. apply _. Defined.
#[global] Instance keyLe_trans {V} : Transitive (@keyLe V).
Proof. intros x y z. unfold keyLe. apply bytes_le_trans. Qed.
#[global] Instance keyLe_total {V} : Total (@keyLe V).
Proof. intros x y. apply bytes_le_total. Qed.

Definition gmapEntries {V} (m : gmap bytes V) : list (bytes * V) := merge_sort keyLe (map_to_list m).

Lemma gmapEntries_elem {V} (m : gmap bytes V) k v : (k, v) ∈ gmapEntries m ↔ m !! k = Some v.
Proof. unfold gmapEntries. rewrite merge_sort_Permutation. apply elem_of_map_to_list. Qed.

Lemma gmapEntries_sorted {V} (m : gmap bytes V) : StronglySorted bytes_lt (gmapEntries m).*1.
Proof.
  assert (Hnd : NoDup (gmapEntries m).*1).
  { unfold gmapEntries. rewrite merge_sort_Permutation. apply NoDup_fst_map_to_list. }
  pose proof (StronglySorted_merge_sort keyLe (map_to_list m)) as Hs. fold (gmapEntries m) in Hs.
  induction Hs as [|[k v] l Hs IH Hall]; [constructor|]. cbn in *.
  apply NoDup_cons in Hnd as [Hk Hnd]. constructor; [by apply IH|].
  apply Forall_forall. intros k' Hk'. apply list_elem_of_fmap in Hk' as ([k2 v2] & -> & Hin).
  rewrite Forall_forall in Hall. destruct (Hall _ Hin) as [E|?]; [|done].
  exfalso. cbn in E. subst. apply Hk, list_elem_of_fmap. by exists (k2, v2).
Qed.

#[program] Definition gmapBolt : Bolt := {|
  Bucket := λ V, gmap bytes V;
  emptyBucket := λ V, ∅;
  Get := λ V b k, b !! k;
  Put := λ V b k v, <[k := v]> b;
  Delete := λ V b k, delete k b;
  entries := λ V, gmapEntries
|}.
Next Obligation. intros V k. apply lookup_empty. Qed.
Next Obligation. intros V b k v k'. cbn. apply lookup_insert. Qed.
Next Obligation. intros V b k k'. cbn. apply lookup_delete. Qed.
Next Obligation. intros V b k v. apply gmapEntries_elem. Qed.
Next Obligation. intros V b. apply gmapEntries_sorted. Qed.

(** * Slashing protection of the validator client: data, conditions and contract

    Models [validator/db/common/structs.go], [proto/prysm/v1alpha1/slashings/*.go] and
    the part of the [ValidatorDB] interface of [validator/db/iface/interface.go] that
    a signing client calls before it publishes a signature.  [SlashingProtection] is a
    database with the calls of a client under way, as a transition system, and the
    condition [inTime] on its surroundings; [SlashingProtectionLaws] is what the client
    relies on as long as the condition holds.  The complete database ([ProtectionKV.v],
    [ProtectionBatch.v], [ProtectionKVLaws.v]) and the minimal one ([ProtectionFS.v]) are
    instances; [ProtectionSafety.v] draws the conclusion for a client. *)

(** The epochs of an attestation; nothing else of it is looked at. *)
Record IndexedAttestation := mkAtt {
  SourceEpoch : Z;
  TargetEpoch : Z
}.

Record AttestationRecord := mkAttRecord {
  ARPubKey : bytes;
  ARSource : Z;
  ARTarget : Z;
  ARSigningRoot : bytes
}.

Record Proposal := mkProposal {
  PSlot : Z;
  PSigningRoot : bytes
}.

#[global] Instance AttestationRecord_eq_dec : EqDecision AttestationRecord.
Proof. solve_decision. Defined.
#[global] Instance Proposal_eq_dec : EqDecision Proposal.
Proof. solve_decision. Defined.

Definition recordAtt (r : AttestationRecord) : IndexedAttestation := mkAtt (ARSource r) (ARTarget r).

(** ** The conditions of [slashings] *)

Definition IsSurround (a b : IndexedAttestation) : bool :=
  (SourceEpoch a <? SourceEpoch b) && (TargetEpoch b <? TargetEpoch a).

(** An empty existing root differs from every root. *)
Definition SigningRootsDiffer (existingSigningRoot incomingSigningRoot : bytes) : bool :=
  if (length existingSigningRoot =? 0)%nat then true
  else negb (bool_decide (existingSigningRoot = incomingSigningRoot)).

(** What the protocol slashes an attester for: two different votes for one target,
    or two votes one of which surrounds the other. *)
Definition slashableAttestations (r1 r2 : AttestationRecord) : Prop :=
  ARPubKey r1 = ARPubKey r2 ∧
  ((ARTarget r1 = ARTarget r2 ∧ ARSigningRoot r1 ≠ ARSigningRoot r2) ∨
   IsSurround (recordAtt r1) (recordAtt r2) ∨ IsSurround (recordAtt r2) (recordAtt r1)).

Lemma slashableAttestations_sym r r' : slashableAttestations r r' → slashableAttestations r' r.
Proof. intros (Hpk & [[Ht Hr]|[Hs|Hs]]); (split; [done|]); [left; by split|right; by right|right; by left]. Qed.

Lemma slashableAttestations_irrefl r : ¬ slashableAttestations r r.
Proof. intros (_ & [[_ Hr]|[Hs|Hs]]); [done|..]; apply Is_true_true in Hs; unfold IsSurround in Hs; bprop; lia. Qed.

(** What the protocol slashes a proposer for: two different blocks for one slot. *)
Definition slashableProposals (p1 p2 : bytes * Proposal) : Prop :=
  p1.1 = p2.1 ∧ PSlot p1.2 = PSlot p2.2 ∧ PSigningRoot p1.2 ≠ PSigningRoot p2.2.

Lemma slashableProposals_sym p p' : slashableProposals p p' → slashableProposals p' p.
Proof. intros (Hpk & Hs & Hr). by split_and!. Qed.

(** Messages the client can be asked to sign: epochs and slots of their Go type and
    signing roots that are hashes. *)
Definition validAttestation (att : IndexedAttestation) (root : bytes) : Prop :=
  is_u64 (SourceEpoch att) ∧ is_u64 (TargetEpoch att) ∧ length root = RootLength.
Definition RecordValid (r : AttestationRecord) : Prop :=
  is_u64 (ARSource r) ∧ is_u64 (ARTarget r) ∧ length (ARSigningRoot r) = RootLength.
Definition validProposal (slot : Z) (root : bytes) : Prop :=
  0 ≤ slot < two63 ∧ length root = RootLength.

(** A proposal that is not yet a weak subjectivity period older than another one. *)
Definition withinWeakSubjectivity `{BeaconChainConfig} (old new : Z) : Prop :=
  ToEpoch new < ToEpoch old + WeakSubjectivityPeriod.

(** ** The interface

    A client asks its database before it publishes a message and publishes it when the
    answer is no error.  Its goroutines do this at the same time, so a database with the
    calls under way, [C], is a transition system: an event is one step of a call, of a
    goroutine of the database or of the storage.  [inTime] is what a database needs from
    its surroundings for its promise; each instance states it. *)
Class SlashingProtection (C : Type) := {
  Event : Type;
  dbStep : Event → C → C → Prop;
  inTime : C → Event → Prop;
  (** The messages whose check was answered without an error. *)
  attPublished : C → AttestationRecord → Prop;
  blockPublished : C → bytes * Proposal → Prop
}.

(** The promise: an invariant under which published messages are not slashable. *)
Class SlashingProtectionLaws (C : Type) `{SlashingProtection C} := {
  Protected : C → Prop;
  protected_step e c c' : dbStep e c c' → inTime c e → Protected c → Protected c';
  protected_atts c r r' : Protected c → attPublished c r → attPublished c r' → ¬ slashableAttestations r r';
  protected_blocks c p p' : Protected c → blockPublished c p → blockPublished c p' → ¬ slashableProposals p p'
}.

(** Events that respect the condition of the database. *)
Definition inTimeStep {C} `{SlashingProtection C} (c c' : C) : Prop := ∃ e, dbStep e c c' ∧ inTime c e.

Definition publishedSafely {C} `{SlashingProtection C} (c : C) : Prop :=
  (∀ r r', attPublished c r → attPublished c r' → ¬ slashableAttestations r r') ∧
  (∀ p p', blockPublished c p → blockPublished c p' → ¬ slashableProposals p p').

Lemma protected_run {C} `{SlashingProtectionLaws C} (c c' : C) :
  Protected c → rtc inTimeStep c c' → Protected c'.
Proof. intros Hc Hrun. induction Hrun as [|c c1 c2 (e & Hstep & Ht) _ IH]; [done|]. apply IH. by eapply protected_step. Qed.

Lemma protected_safely {C} `{SlashingProtectionLaws C} (c : C) : Protected c → publishedSafely c.
Proof. intros Hc. split; intros *; [by apply protected_atts|by apply protected_blocks]. Qed.
