(* ===== verification/ProtectionKV.v ===== *)
(** * Slashing protection: the complete database

    Models [validator/db/kv/attester_protection.go] (all but the batching, which is in
    [ProtectionBatch.v]), [proposer_protection.go], [prune_attester_protection.go],
    [eip_blacklisted_keys.go], [genesis.go] and the start-up part of [db.go].
    [DB] has the buckets of [schema.go]: nested buckets of a public key are the
    record [PkBucket], whose fields are [None] until the bucket is created.  Keys and
    values are the byte slices that the code writes; a read transaction ([s.view]) is
    the function of the buckets it computes, a write transaction ([s.update]) returns
    the new buckets.  Error messages are kept without the numbers formatted into them. *)

From S2P Require Import Prelude MathHelper Primitives SlotTime Bytes Protection.

Section kv.
Context `{Bolt} `{BeaconChainConfig}.

Record PkBucket := mkPkBucket {
  attestationSigningRootsBucket : option (Bucket bytes);
  attestationSourceEpochsBucket : option (Bucket bytes);
  attestationTargetEpochsBucket : option (Bucket bytes)
}.

Definition emptyPkBucket : PkBucket := mkPkBucket None None None.

Record DB := mkDB {
  genesisInfoBucket : Bucket bytes;
  historicProposalsBucket : Bucket (Bucket bytes);
  lowestSignedSourceBucket : Bucket bytes;
  lowestSignedTargetBucket : Bucket bytes;
  lowestSignedProposalsBucket : Bucket bytes;
  highestSignedProposalsBucket : Bucket bytes;
  slashablePublicKeysBucket : Bucket bytes;
  pubKeysBucket : Bucket PkBucket
}.

(** What [NewKVStore] creates in an empty file. *)
Definition emptyDB : DB :=
  mkDB emptyBucket emptyBucket emptyBucket emptyBucket emptyBucket emptyBucket emptyBucket emptyBucket.

Definition setProposals (d : DB) (low high : Bucket bytes) (hist : Bucket (Bucket bytes)) : DB :=
  mkDB (genesisInfoBucket d) hist (lowestSignedSourceBucket d) (lowestSignedTargetBucket d)
    low high (slashablePublicKeysBucket d) (pubKeysBucket d).
Definition setAttestations (d : DB) (lowS lowT : Bucket bytes) (pks : Bucket PkBucket) : DB :=
  mkDB (genesisInfoBucket d) (historicProposalsBucket d) lowS lowT (lowestSignedProposalsBucket d)
    (highestSignedProposalsBucket d) (slashablePublicKeysBucket d) pks.

(** ** Attestations: reading *)

Inductive SlashingKind := NotSlashable | DoubleVote | SurroundingVote | SurroundedVote.

Definition doubleVoteMessage : error := "double vote found, existing attestation at target epoch with conflicting signing root".
Definition surroundingVoteMessage : error := "attestation surrounds another".
Definition surroundedVoteMessage : error := "attestation is surrounded by another".
Definition failedAttLocalProtectionErr : error :=
  "attempted to make slashable attestation, rejected by local slashing protection".

(** The loop [for i := 0; i < len(v); i += 8] over the epochs packed in a value; a
    slice expression beyond the end panics. *)
Fixpoint packedEpochs (v : bytes) : outcome (list Z) :=
  match v with
  | [] => Ret []
  | b0 :: b1 :: b2 :: b3 :: b4 :: b5 :: b6 :: b7 :: rest =>
      es <-? packedEpochs rest;;
      Ret (BytesToEpochBigEndian [b0; b1; b2; b3; b4; b5; b6; b7] :: es)
  | _ => Panic "slice bounds out of range"
  end.

(** A stored lowest epoch or slot: at least 8 bytes. *)
Definition decodeLowest (v : option bytes) : option Z :=
  match v with
  | Some v => if (length v <? 8)%nat then None else Some (BytesToUint64BigEndian v)
  | None => None
  end.

Definition LowestSignedSourceEpoch (d : DB) (publicKey : bytes) : option Z :=
  decodeLowest (Get (lowestSignedSourceBucket d) publicKey).
Definition LowestSignedTargetEpoch (d : DB) (publicKey : bytes) : option Z :=
  decodeLowest (Get (lowestSignedTargetBucket d) publicKey).

(** Empty when there is no signing root. *)
Definition SigningRootAtTargetEpoch (d : DB) (pubKey : bytes) (target : Z) : bytes :=
  match Get (pubKeysBucket d) pubKey with
  | None => []
  | Some pkBucket =>
      match attestationSigningRootsBucket pkBucket with
      | None => []
      | Some signingRootsBucket =>
          match Get signingRootsBucket (EpochToBytesBigEndian target) with
          | None => []
          | Some sr => if (length sr =? 0)%nat then [] else copyBytes (zeroBytes 32) sr
          end
      end
  end.

(** [copy(pk[:], pubKey)] into a 48-byte array. *)
Definition pubKeyOfBytes (k : bytes) : bytes := copyBytes (zeroBytes BLSPubkeyLength) k.

Definition AttestedPublicKeys (d : DB) : list bytes :=
  map (λ e, pubKeyOfBytes e.1) (entries (pubKeysBucket d)).

(** The records of one entry of the source epochs bucket. *)
Definition recordsOfSource (pubKey : bytes) (signingRootsBucket : option (Bucket bytes))
    (e : bytes * bytes) : outcome (list AttestationRecord) :=
  targetEpochs <-? packedEpochs e.2;;
  let sourceEpoch := BytesToEpochBigEndian e.1 in
  foldr (λ targetEpoch acc,
    records <-? acc;;
    match signingRootsBucket with
    | None => Panic "nil bucket"
    | Some signingRootsBucket =>
        let signingRoot := default [] (Get signingRootsBucket (EpochToBytesBigEndian targetEpoch)) in
        Ret (mkAttRecord pubKey sourceEpoch targetEpoch
          (if (length signingRoot =? 0)%nat then [] else copyBytes (zeroBytes RootLength) signingRoot)
          :: records)
    end) (Ret []) targetEpochs.

Definition AttestationHistoryForPubKey (d : DB) (pubKey : bytes) : outcome (list AttestationRecord) :=
  match Get (pubKeysBucket d) pubKey with
  | None => Ret []
  | Some pkBucket =>
      match attestationSourceEpochsBucket pkBucket with
      | None => Panic "nil bucket"
      | Some sourceEpochsBucket =>
          foldr (λ e acc,
            records <-? recordsOfSource pubKey (attestationSigningRootsBucket pkBucket) e;;
            rest <-? acc;;
            Ret (records ++ rest)) (Ret []) (entries sourceEpochsBucket)
      end
  end.

(** ** Attestations: the check *)

(** The cursor goes from [Last] with [Prev]: [cur] is what it has still to visit. *)
Fixpoint surroundedWalk (cur : list (bytes * bytes)) (att : IndexedAttestation)
    : outcome (SlashingKind * option error) :=
  match cur with
  | [] => Ret (NotSlashable, None)
  | (k, v) :: cur =>
      let existingTargetEpoch := BytesToEpochBigEndian k in
      if existingTargetEpoch <=? TargetEpoch att then Ret (NotSlashable, None)
      else
        attestedSourceEpochs <-? packedEpochs v;;
        if existsb (λ existingSourceEpoch,
             IsSurround (mkAtt existingSourceEpoch existingTargetEpoch) att) attestedSourceEpochs
        then Ret (SurroundedVote, Some surroundedVoteMessage)
        else surroundedWalk cur att
  end.
Definition checkSurroundedVote (targetEpochsBucket : Bucket bytes) (att : IndexedAttestation) :=
  surroundedWalk (reverse (entries targetEpochsBucket)) att.

Fixpoint surroundingWalk (cur : list (bytes * bytes)) (att : IndexedAttestation)
    : outcome (SlashingKind * option error) :=
  match cur with
  | [] => Ret (NotSlashable, None)
  | (k, v) :: cur =>
      let existingSourceEpoch := BytesToEpochBigEndian k in
      if existingSourceEpoch <=? SourceEpoch att then Ret (NotSlashable, None)
      else
        attestedTargetEpochs <-? packedEpochs v;;
        if existsb (λ existingTargetEpoch,
             IsSurround att (mkAtt existingSourceEpoch existingTargetEpoch)) attestedTargetEpochs
        then Ret (SurroundingVote, Some surroundingVoteMessage)
        else surroundingWalk cur att
  end.
Definition checkSurroundingVote (sourceEpochsBucket : Bucket bytes) (att : IndexedAttestation) :=
  surroundingWalk (reverse (entries sourceEpochsBucket)) att.

(** Is there a stored root, empty or different? *)
Definition doubleVoteAt (signingRootsBucket : option (Bucket bytes)) (signingRoot : bytes) (target : Z) : bool :=
  match signingRootsBucket with
  | None => false
  | Some signingRootsBucket =>
      match Get signingRootsBucket (EpochToBytesBigEndian target) with
      | None => false
      | Some existingSigningRoot =>
          (length existingSigningRoot =? 0)%nat || SigningRootsDiffer existingSigningRoot signingRoot
      end
  end.

Definition CheckSlashableAttestation (d : DB) (pubKey signingRoot : bytes) (att : IndexedAttestation)
    : outcome (SlashingKind * option error) :=
  match Get (pubKeysBucket d) pubKey with
  | None => Ret (NotSlashable, None)
  | Some pkBucket =>
      if doubleVoteAt (attestationSigningRootsBucket pkBucket) signingRoot (TargetEpoch att)
      then Ret (DoubleVote, Some doubleVoteMessage)
      else
        match attestationSourceEpochsBucket pkBucket with
        | None => Ret (NotSlashable, None)
        | Some sourceEpochsBucket =>
            res <-? checkSurroundingVote sourceEpochsBucket att;;
            match res with
            | (slashKind, Some err) => Ret (slashKind, Some err)
            | (slashKind, None) =>
                match attestationTargetEpochsBucket pkBucket with
                | None => Ret (slashKind, None)
                | Some targetEpochsBucket => checkSurroundedVote targetEpochsBucket att
                end
            end
        end
  end.

(** ** Attestations: writing *)

(** A list of epochs grows at its end: [append(existing, epochBytes...)]. *)
Definition appendEpoch (b : option (Bucket bytes)) (key epoch : bytes) : Bucket bytes :=
  let b := default emptyBucket b in
  match Get b key with
  | Some existing => Put b key (existing ++ epoch)
  | None => Put b key epoch
  end.

(** [len(v) == 0 || epoch < lowest], where a value under 8 bytes counts as 0. *)
Definition lowerBound (low : Bucket bytes) (pubKey : bytes) (epoch : Z) : Bucket bytes :=
  let v := default [] (Get low pubKey) in
  let lowest := if (8 <=? length v)%nat then BytesToUint64BigEndian v else 0 in
  if (length v =? 0)%nat || (epoch <? lowest)
  then Put low pubKey (Uint64ToBytesBigEndian epoch) else low.

Definition saveAttestationRecord (d : DB) (att : AttestationRecord) : DB :=
  let sourceEpochBytes := EpochToBytesBigEndian (ARSource att) in
  let targetEpochBytes := EpochToBytesBigEndian (ARTarget att) in
  let pkBucket := default emptyPkBucket (Get (pubKeysBucket d) (ARPubKey att)) in
  let signingRootsBucket :=
    Put (default emptyBucket (attestationSigningRootsBucket pkBucket)) targetEpochBytes (ARSigningRoot att) in
  let sourceEpochsBucket :=
    appendEpoch (attestationSourceEpochsBucket pkBucket) sourceEpochBytes targetEpochBytes in
  let targetEpochsBucket :=
    appendEpoch (attestationTargetEpochsBucket pkBucket) targetEpochBytes sourceEpochBytes in
  setAttestations d
    (lowerBound (lowestSignedSourceBucket d) (ARPubKey att) (ARSource att))
    (lowerBound (lowestSignedTargetBucket d) (ARPubKey att) (ARTarget att))
    (Put (pubKeysBucket d) (ARPubKey att)
      (mkPkBucket (Some signingRootsBucket) (Some sourceEpochsBucket) (Some targetEpochsBucket))).

(** One transaction for the whole list. *)
Definition saveAttestationRecords (d : DB) (atts : list AttestationRecord) : DB :=
  foldl saveAttestationRecord d atts.

Definition errSigningRootCount : error := "number of signing roots does not match number of attestations".

Definition SaveAttestationsForPubKey (d : DB) (pubKey : bytes) (signingRoots : list bytes)
    (atts : list IndexedAttestation) : outcome DB :=
  if negb (length signingRoots =? length atts)%nat then Err errSigningRootCount
  else Ret (saveAttestationRecords d
    (map (λ ar, mkAttRecord pubKey (SourceEpoch ar.1) (TargetEpoch ar.1) ar.2) (zip atts signingRoots))).

(** ** Attestations: pruning at start-up *)

Definition pruningEpochCutoff (epoch : Z) : Z :=
  if SlashingProtectionPruningEpochs <? epoch then epoch -w SlashingProtectionPruningEpochs else 0.

(** The cursor continues with the next key after a deletion: [cur] is what it has
    still to visit. *)
Fixpoint pruneWalk (cur : list (bytes * bytes)) (upperBounds : Z) (bkt : Bucket bytes) : Bucket bytes :=
  match cur with
  | [] => bkt
  | (k, _) :: cur =>
      let targetEpoch := BytesToEpochBigEndian k in
      if upperBounds <=? targetEpoch then bkt
      else pruneWalk cur upperBounds (Delete bkt k)
  end.
Definition pruneBucket (bkt : Bucket bytes) : Bucket bytes :=
  let highestEpochBytes := default [] (option_map fst (cursorLast bkt)) in
  pruneWalk (entries bkt) (pruningEpochCutoff (BytesToEpochBigEndian highestEpochBytes)) bkt.

Definition pruneSourceEpochsBucket (b : PkBucket) : PkBucket :=
  mkPkBucket (attestationSigningRootsBucket b) (option_map pruneBucket (attestationSourceEpochsBucket b))
    (attestationTargetEpochsBucket b).
Definition pruneTargetEpochsBucket (b : PkBucket) : PkBucket :=
  mkPkBucket (attestationSigningRootsBucket b) (attestationSourceEpochsBucket b)
    (option_map pruneBucket (attestationTargetEpochsBucket b)).
Definition pruneSigningRootsBucket (b : PkBucket) : PkBucket :=
  mkPkBucket (option_map pruneBucket (attestationSigningRootsBucket b)) (attestationSourceEpochsBucket b)
    (attestationTargetEpochsBucket b).

(** One transaction per public key. *)
Definition PruneAttestations (d : DB) : DB :=
  foldl (λ d k,
    match Get (pubKeysBucket d) k with
    | None => d
    | Some pkBucket =>
        setAttestations d (lowestSignedSourceBucket d) (lowestSignedTargetBucket d)
          (Put (pubKeysBucket d) k
             (pruneSigningRootsBucket (pruneTargetEpochsBucket (pruneSourceEpochsBucket pkBucket))))
    end) d (entries (pubKeysBucket d)).*1.

(** ** Proposals *)

Definition ProposedPublicKeys (d : DB) : list bytes :=
  map (λ e, pubKeyOfBytes e.1) (entries (historicProposalsBucket d)).

(** The signing root, whether there is a proposal, and whether it has a root. *)
Definition ProposalHistoryForSlot (d : DB) (publicKey : bytes) (slot : Z) : bytes * bool * bool :=
  match Get (historicProposalsBucket d) publicKey with
  | None => (zeroBytes 32, false, false)
  | Some valBucket =>
      match Get valBucket (SlotToBytesBigEndian slot) with
      | None => (zeroBytes 32, false, false)
      | Some signingRootBytes =>
          if (length signingRootBytes =? 0)%nat then (zeroBytes 32, true, false)
          else (copyBytes (zeroBytes 32) signingRootBytes, true, true)
      end
  end.

Definition ProposalHistoryForPubKey (d : DB) (publicKey : bytes) : list Proposal :=
  match Get (historicProposalsBucket d) publicKey with
  | None => []
  | Some valBucket =>
      map (λ e, mkProposal (BytesToSlotBigEndian e.1) (copyBytes (zeroBytes RootLength) e.2))
        (entries valBucket)
  end.

Definition LowestSignedProposal (d : DB) (publicKey : bytes) : option Z :=
  decodeLowest (Get (lowestSignedProposalsBucket d) publicKey).
Definition HighestSignedProposal (d : DB) (publicKey : bytes) : option Z :=
  decodeLowest (Get (highestSignedProposalsBucket d) publicKey).

(** The oldest entry is deleted as long as it is too old.  Each round removes one
    entry, so the number of entries bounds the rounds. *)
Fixpoint pruneProposalRounds (fuel : nat) (valBucket : Bucket bytes) (newestSlot : Z) : Bucket bytes :=
  match fuel with
  | O => valBucket
  | S fuel =>
      match cursorFirst valBucket with
      | None => valBucket
      | Some (k, _) =>
          let epoch := ToEpoch (BytesToSlotBigEndian k) in
          let newestEpoch := ToEpoch newestSlot in
          if epoch +w WeakSubjectivityPeriod <=? newestEpoch
          then pruneProposalRounds fuel (Delete valBucket k) newestSlot
          else valBucket
      end
  end.
Definition pruneProposalHistoryBySlot (valBucket : Bucket bytes) (newestSlot : Z) : Bucket bytes :=
  pruneProposalRounds (length (entries valBucket)) valBucket newestSlot.

Definition upperBound (high : Bucket bytes) (pubKey : bytes) (slot : Z) : Bucket bytes :=
  let v := default [] (Get high pubKey) in
  let highest := if (8 <=? length v)%nat then BytesToSlotBigEndian v else 0 in
  if (length v =? 0)%nat || (highest <? slot)
  then Put high pubKey (SlotToBytesBigEndian slot) else high.

Definition SaveProposalHistoryForSlot (d : DB) (pubKey : bytes) (slot : Z) (signingRoot : bytes) : DB :=
  let valBucket := default emptyBucket (Get (historicProposalsBucket d) pubKey) in
  let valBucket := Put valBucket (SlotToBytesBigEndian slot) signingRoot in
  setProposals d
    (lowerBound (lowestSignedProposalsBucket d) pubKey slot)
    (upperBound (highestSignedProposalsBucket d) pubKey slot)
    (Put (historicProposalsBucket d) pubKey (pruneProposalHistoryBySlot valBucket slot)).

Definition errSlotLower : error := "could not sign block with slot < lowest signed slot in db".
Definition errSlotLowest : error :=
  "could not sign block with slot == lowest signed slot in db if it is not a repeat signing".
Definition FailedBlockSignLocalErr : error := "block rejected by local protection".

(** The conditions of [SlashableProposalCheck] before it saves. *)
Definition proposalConditions (d : DB) (pubKey : bytes) (slot : Z) (signingRoot : bytes) : option error :=
  let '(prevSigningRoot, proposalAtSlotExists, prevSigningRootExists) := ProposalHistoryForSlot d pubKey slot in
  let differs := negb (bool_decide (prevSigningRoot = signingRoot)) in
  let condition1 := negb proposalAtSlotExists in
  let condition2 := proposalAtSlotExists && negb prevSigningRootExists in
  let condition3 := proposalAtSlotExists && prevSigningRootExists && differs in
  let rest :=
    if proposalAtSlotExists && (negb prevSigningRootExists || differs)
    then Some FailedBlockSignLocalErr else None in
  match LowestSignedProposal d pubKey with
  | Some lowestSignedProposalSlot =>
      if slot <? lowestSignedProposalSlot then Some errSlotLower
      else if (slot =? lowestSignedProposalSlot) && (condition1 || condition2 || condition3)
      then Some errSlotLowest
      else rest
  | None => rest
  end.

(** ** Start-up, blacklist, genesis *)

(** [UpdatePublicKeysBuckets]: a proposal history for each key. *)
Definition createProposalBuckets (d : DB) (pubKeys : list bytes) : DB :=
  setProposals d (lowestSignedProposalsBucket d) (highestSignedProposalsBucket d)
    (foldl (λ b pubKey, CreateBucketIfNotExists b pubKey emptyBucket) (historicProposalsBucket d) pubKeys).

Definition EIPImportBlacklistedPublicKeys (d : DB) : list bytes :=
  map (λ e, pubKeyOfBytes e.1) (entries (slashablePublicKeysBucket d)).
Definition SaveEIPImportBlacklistedPublicKeys (d : DB) (publicKeys : list bytes) : DB :=
  mkDB (genesisInfoBucket d) (historicProposalsBucket d) (lowestSignedSourceBucket d)
    (lowestSignedTargetBucket d) (lowestSignedProposalsBucket d) (highestSignedProposalsBucket d)
    (foldl (λ b pubKey, Put b pubKey [1]) (slashablePublicKeysBucket d) publicKeys) (pubKeysBucket d).

(** ["genesis-val-root"]. *)
Definition genesisValidatorsRootKey : bytes :=
  [103; 101; 110; 101; 115; 105; 115; 45; 118; 97; 108; 45; 114; 111; 111; 116].
Definition errOverwriteGenesis : error := "cannot overwrite existing genesis validators root".

Definition GenesisValidatorsRoot (d : DB) : option bytes :=
  match Get (genesisInfoBucket d) genesisValidatorsRootKey with
  | Some enc => if (length enc =? 0)%nat then None else Some enc
  | None => None
  end.
Definition SaveGenesisValidatorsRoot (d : DB) (genValRoot : bytes) : outcome DB :=
  let enc := default [] (Get (genesisInfoBucket d) genesisValidatorsRootKey) in
  if negb (length enc =? 0)%nat && negb (bool_decide (enc = genValRoot)) then Err errOverwriteGenesis
  else Ret (mkDB (Put (genesisInfoBucket d) genesisValidatorsRootKey genValRoot)
    (historicProposalsBucket d) (lowestSignedSourceBucket d) (lowestSignedTargetBucket d)
    (lowestSignedProposalsBucket d) (highestSignedProposalsBucket d) (slashablePublicKeysBucket d)
    (pubKeysBucket d)).

(** Opening an existing database: the feature flag decides whether it is pruned. *)
Definition NewKVStore (d : DB) (pubKeys : option (list bytes)) (EnableSlashingProtectionPruning : bool) : DB :=
  let d := match pubKeys with Some pubKeys => createProposalBuckets d pubKeys | None => d end in
  if EnableSlashingProtectionPruning then PruneAttestations d else d.
End kv.
