(* ===== verification/ProtectionView.v ===== *)
(** * Slashing protection: what the complete database holds

    The buckets of [ProtectionKV.v] seen as functions of epochs: [rootAt], [targetsOf]
    and [sourcesOf] decode the three buckets of a public key.  [DBTyped] says that the
    bytes are encodings of what the code means them to be (8-byte keys, whole lists of
    epochs, empty or 32-byte roots); every operation keeps it, and under it no read
    panics.  The lemmas give the effect of each write on the view. *)

From stdpp Require Import sorting.
From S2P Require Import Prelude MathHelper Primitives SlotTime Bytes Protection ProtectionKV.

(** ** Packed lists of epochs *)

Definition packEpochs (es : list Z) : bytes := concat (map EpochToBytesBigEndian es).

Definition unpack (v : bytes) : list Z :=
  match packedEpochs v with Ret es => es | _ => [] end.

Definition Packed (v : bytes) : Prop := ∃ es, Forall is_u64 es ∧ v = packEpochs es.

Lemma packedEpochs_app e v es :
  is_u64 e → packedEpochs v = Ret es → packedEpochs (EpochToBytesBigEndian e ++ v) = Ret (e :: es).
Proof.
  intros He Hv. pose proof (length_Uint64ToBytesBigEndian e) as Hl.
  pose proof (BytesToUint64BigEndian_Uint64 e He) as Hd. unfold EpochToBytesBigEndian.
  destruct (Uint64ToBytesBigEndian e) as [|b0 [|b1 [|b2 [|b3 [|b4 [|b5 [|b6 [|b7 [|]]]]]]]]]; try done.
  cbn [app packedEpochs]. rewrite Hv. cbn [obind]. unfold BytesToEpochBigEndian. by rewrite Hd.
Qed.

Lemma packedEpochs_pack es : Forall is_u64 es → packedEpochs (packEpochs es) = Ret es.
Proof. induction 1 as [|e es He Hes IH]; [done|]. by apply packedEpochs_app. Qed.

Lemma unpack_pack es : Forall is_u64 es → unpack (packEpochs es) = es.
Proof. intros Hes. unfold unpack. by rewrite packedEpochs_pack. Qed.

Lemma pack_snoc es e : packEpochs (es ++ [e]) = packEpochs es ++ EpochToBytesBigEndian e.
Proof. unfold packEpochs. rewrite map_app, concat_app. cbn [map concat]. by rewrite app_nil_r. Qed.

Lemma Packed_one e : is_u64 e → Packed (EpochToBytesBigEndian e).
Proof. intros He. exists [e]. split; [by constructor|]. unfold packEpochs. cbn [map concat]. by rewrite app_nil_r. Qed.

Lemma unpack_one e : is_u64 e → unpack (EpochToBytesBigEndian e) = [e].
Proof.
  intros He. replace (EpochToBytesBigEndian e) with (packEpochs [e]) by (unfold packEpochs; cbn [map concat]; by rewrite app_nil_r).
  apply unpack_pack. by constructor.
Qed.

Lemma Packed_snoc v e : Packed v → is_u64 e → Packed (v ++ EpochToBytesBigEndian e).
Proof.
  intros (es & Hes & ->) He. exists (es ++ [e]). split; [|by rewrite pack_snoc].
  apply Forall_app. split; [done|by constructor].
Qed.

Lemma unpack_snoc v e : Packed v → is_u64 e → unpack (v ++ EpochToBytesBigEndian e) = unpack v ++ [e].
Proof.
  intros (es & Hes & ->) He. rewrite <- pack_snoc, !unpack_pack; [done|done|].
  apply Forall_app. split; [done|by constructor].
Qed.

Lemma Packed_unpack v : Packed v → packedEpochs v = Ret (unpack v) ∧ Forall is_u64 (unpack v).
Proof. intros (es & Hes & ->). rewrite unpack_pack, packedEpochs_pack by done. done. Qed.

Section view.
Context `{Bolt} `{BeaconChainConfig}.

(** ** The view *)

Definition getIn (ob : option (Bucket bytes)) (e : Z) : option bytes :=
  match ob with Some b => Get b (EpochToBytesBigEndian e) | None => None end.
Definition epochsAt (ob : option (Bucket bytes)) (e : Z) : list Z :=
  match getIn ob e with Some v => unpack v | None => [] end.

Definition pkb (d : DB) (pk : bytes) : PkBucket := default emptyPkBucket (Get (pubKeysBucket d) pk).

(** The signing root at a target, the targets voted for with a source, and the
    sources voted for with a target. *)
Definition rootAt (d : DB) (pk : bytes) (t : Z) : option bytes := getIn (attestationSigningRootsBucket (pkb d pk)) t.
Definition targetsOf (d : DB) (pk : bytes) (s : Z) : list Z := epochsAt (attestationSourceEpochsBucket (pkb d pk)) s.
Definition sourcesOf (d : DB) (pk : bytes) (t : Z) : list Z := epochsAt (attestationTargetEpochsBucket (pkb d pk)) t.

(** The signing root of the proposal for a slot. *)
Definition blockAt (d : DB) (pk : bytes) (slot : Z) : option bytes :=
  match Get (historicProposalsBucket d) pk with
  | Some b => Get b (SlotToBytesBigEndian slot)
  | None => None
  end.

(** ** Typing *)

Definition TypedBucket (P : bytes → Prop) (b : Bucket bytes) : Prop :=
  ∀ k v, Get b k = Some v → (∃ e, is_u64 e ∧ k = Uint64ToBytesBigEndian e) ∧ P v.

Definition IsRootValue (v : bytes) : Prop := length v = 0%nat ∨ length v = RootLength.

Definition PkTyped (b : PkBucket) : Prop :=
  (∃ rs, attestationSigningRootsBucket b = Some rs ∧ TypedBucket IsRootValue rs) ∧
  (∃ ss, attestationSourceEpochsBucket b = Some ss ∧ TypedBucket Packed ss) ∧
  (∃ ts, attestationTargetEpochsBucket b = Some ts ∧ TypedBucket Packed ts).

(** A bucket of one epoch or slot for each public key. *)
Definition BoundTyped (b : Bucket bytes) : Prop :=
  ∀ pk v, Get b pk = Some v → ∃ e, is_u64 e ∧ v = Uint64ToBytesBigEndian e.

Record DBTyped (d : DB) : Prop := {
  typed_pubKeys : ∀ pk b, Get (pubKeysBucket d) pk = Some b → PkTyped b;
  typed_proposals : ∀ pk b, Get (historicProposalsBucket d) pk = Some b → TypedBucket IsRootValue b;
  typed_lowestSource : BoundTyped (lowestSignedSourceBucket d);
  typed_lowestTarget : BoundTyped (lowestSignedTargetBucket d);
  typed_lowestProposal : BoundTyped (lowestSignedProposalsBucket d);
  typed_highestProposal : BoundTyped (highestSignedProposalsBucket d)
}.

Definition RecordTyped (r : AttestationRecord) : Prop :=
  is_u64 (ARSource r) ∧ is_u64 (ARTarget r) ∧ IsRootValue (ARSigningRoot r).

Lemma TypedBucket_empty P : TypedBucket P emptyBucket.
Proof. intros k v Hg. by rewrite Get_empty in Hg. Qed.

Lemma TypedBucket_Put P b e v :
  TypedBucket P b → is_u64 e → P v → TypedBucket P (Put b (Uint64ToBytesBigEndian e) v).
Proof.
  intros Hb He Hv k w. rewrite Get_Put. case_decide; [|apply Hb].
  intros [= <-]. split; [by exists e|done].
Qed.

Lemma TypedBucket_Delete P b k : TypedBucket P b → TypedBucket P (Delete b k).
Proof. intros Hb k' w. rewrite Get_Delete. case_decide; [done|apply Hb]. Qed.

Lemma emptyDB_typed : DBTyped emptyDB.
Proof. split; cbn; [intros ??|intros ??|intros ??..]; by rewrite Get_empty. Qed.

(** ** Stored bounds *)

Lemma decodeLowest_enc e : is_u64 e → decodeLowest (Some (Uint64ToBytesBigEndian e)) = Some e.
Proof.
  intros He. unfold decodeLowest. rewrite length_Uint64ToBytesBigEndian. cbn [Nat.ltb Nat.leb].
  by rewrite BytesToUint64BigEndian_Uint64.
Qed.

Lemma decodeLowest_u64 b pk e : BoundTyped b → decodeLowest (Get b pk) = Some e → is_u64 e.
Proof.
  intros Hb. destruct (Get b pk) as [v|] eqn:E; [|done].
  destruct (Hb _ _ E) as (e' & He' & ->). rewrite decodeLowest_enc by done. by intros [= <-].
Qed.

(** A typed bound decodes exactly when it is there. *)
Lemma BoundTyped_decode b pk :
  BoundTyped b → default [] (Get b pk) = match decodeLowest (Get b pk) with Some e => Uint64ToBytesBigEndian e | None => [] end.
Proof.
  intros Hb. destruct (Get b pk) as [v|] eqn:E; [|done].
  destruct (Hb _ _ E) as (e & He & ->). by rewrite decodeLowest_enc.
Qed.

Lemma BoundTyped_Put b pk e : BoundTyped b → is_u64 e → BoundTyped (Put b pk (Uint64ToBytesBigEndian e)).
Proof. intros Hb He pk' v. rewrite Get_Put. case_decide; [|apply Hb]. intros [= <-]. by exists e. Qed.

Lemma decodeLowest_lowerBound b pk e pk' :
  BoundTyped b → is_u64 e →
  decodeLowest (Get (lowerBound b pk e) pk') =
  if decide (pk = pk') then Some (match decodeLowest (Get b pk) with Some l => Z.min l e | None => e end)
  else decodeLowest (Get b pk').
Proof.
  intros Hb He. unfold lowerBound. rewrite (BoundTyped_decode b pk) by done.
  destruct (decodeLowest (Get b pk)) as [l|] eqn:El.
  - assert (is_u64 l) as Hl by by eapply decodeLowest_u64.
    rewrite length_Uint64ToBytesBigEndian, BytesToUint64BigEndian_Uint64 by done.
    cbn [Nat.leb Nat.eqb orb]. destruct (Z.ltb_spec e l).
    + rewrite Get_Put. case_decide; [|done]. rewrite decodeLowest_enc by done. f_equal. lia.
    + case_decide; [subst|done]. rewrite El. f_equal. lia.
  - cbn [length Nat.eqb orb]. rewrite Get_Put. case_decide; [|done]. by rewrite decodeLowest_enc.
Qed.

Lemma decodeLowest_upperBound b pk e pk' :
  BoundTyped b → is_u64 e →
  decodeLowest (Get (upperBound b pk e) pk') =
  if decide (pk = pk') then Some (match decodeLowest (Get b pk) with Some l => Z.max l e | None => e end)
  else decodeLowest (Get b pk').
Proof.
  intros Hb He. unfold upperBound. rewrite (BoundTyped_decode b pk) by done.
  unfold BytesToSlotBigEndian, SlotToBytesBigEndian.
  destruct (decodeLowest (Get b pk)) as [l|] eqn:El.
  - assert (is_u64 l) as Hl by by eapply decodeLowest_u64.
    rewrite length_Uint64ToBytesBigEndian, BytesToUint64BigEndian_Uint64 by done.
    cbn [Nat.leb Nat.eqb orb]. destruct (Z.ltb_spec l e).
    + rewrite Get_Put. case_decide; [|done]. rewrite decodeLowest_enc by done. f_equal. lia.
    + case_decide; [subst|done]. rewrite El. f_equal. lia.
  - cbn [length Nat.eqb orb]. rewrite Get_Put. case_decide; [|done]. by rewrite decodeLowest_enc.
Qed.

Lemma lowerBound_typed b pk e : BoundTyped b → is_u64 e → BoundTyped (lowerBound b pk e).
Proof. intros ??. unfold lowerBound. case_if; [by apply BoundTyped_Put|done]. Qed.
Lemma upperBound_typed b pk e : BoundTyped b → is_u64 e → BoundTyped (upperBound b pk e).
Proof. intros ??. unfold upperBound. case_if; [by apply BoundTyped_Put|done]. Qed.

(** ** Writing an attestation *)

Lemma getIn_Put b e v e' :
  is_u64 e → is_u64 e' →
  getIn (Some (Put b (EpochToBytesBigEndian e) v)) e' = if decide (e = e') then Some v else getIn (Some b) e'.
Proof.
  intros He He'. cbn. rewrite Get_Put. unfold EpochToBytesBigEndian.
  destruct (decide (e = e')) as [->|Hne]; [by rewrite decide_True|].
  rewrite decide_False; [done|]. intros E. by apply Hne, Uint64ToBytesBigEndian_inj.
Qed.

Lemma getIn_default ob e : getIn (Some (default emptyBucket ob)) e = getIn ob e.
Proof. destruct ob; cbn; [done|apply Get_empty]. Qed.

(** The bucket of a record field: typed if it is there. *)
Definition OTyped (P : bytes → Prop) (ob : option (Bucket bytes)) : Prop :=
  TypedBucket P (default emptyBucket ob).

Lemma PkTyped_alt b :
  PkTyped b → OTyped IsRootValue (attestationSigningRootsBucket b) ∧
              OTyped Packed (attestationSourceEpochsBucket b) ∧ OTyped Packed (attestationTargetEpochsBucket b).
Proof. intros ((rs & Hr & ?) & (ss & Hs & ?) & (ts & Ht & ?)). unfold OTyped. by rewrite Hr, Hs, Ht. Qed.

Lemma pkb_typed d pk :
  DBTyped d → OTyped IsRootValue (attestationSigningRootsBucket (pkb d pk)) ∧
              OTyped Packed (attestationSourceEpochsBucket (pkb d pk)) ∧
              OTyped Packed (attestationTargetEpochsBucket (pkb d pk)).
Proof.
  intros Hd. unfold pkb. destruct (Get (pubKeysBucket d) pk) as [b|] eqn:E.
  - by apply PkTyped_alt, (typed_pubKeys _ Hd pk).
  - cbn. unfold OTyped. cbn. split_and!; apply TypedBucket_empty.
Qed.

Lemma OTyped_getIn P ob e v : OTyped P ob → getIn ob e = Some v → P v.
Proof. destruct ob as [b|]; [|done]. cbn. intros Hb Hg. by apply (Hb _ _ Hg). Qed.

Lemma appendEpoch_typed ob key e :
  OTyped Packed ob → is_u64 key → is_u64 e →
  TypedBucket Packed (appendEpoch ob (EpochToBytesBigEndian key) (EpochToBytesBigEndian e)).
Proof.
  intros Hb Hk He. unfold appendEpoch. destruct (Get _ _) as [v|] eqn:E.
  - apply TypedBucket_Put; [done..|]. apply Packed_snoc; [|done]. by apply (Hb _ _ E).
  - apply TypedBucket_Put; [done..|]. by apply Packed_one.
Qed.

Lemma epochsAt_append ob key e k :
  OTyped Packed ob → is_u64 key → is_u64 e → is_u64 k →
  epochsAt (Some (appendEpoch ob (EpochToBytesBigEndian key) (EpochToBytesBigEndian e))) k =
  if decide (key = k) then epochsAt ob k ++ [e] else epochsAt ob k.
Proof.
  intros Hb Hkey He Hk. unfold appendEpoch, epochsAt.
  assert (Hg : Get (default emptyBucket ob) (EpochToBytesBigEndian key) = getIn ob key)
    by (rewrite <- getIn_default; done).
  rewrite Hg. destruct (getIn ob key) as [v|] eqn:E; rewrite getIn_Put by done;
    rewrite getIn_default; case_decide; subst; try done; rewrite E.
  - rewrite unpack_snoc; [done| |done]. by eapply OTyped_getIn.
  - by rewrite unpack_one.
Qed.

Lemma pkb_Put d low1 low2 pk b pk' :
  pkb (setAttestations d low1 low2 (Put (pubKeysBucket d) pk b)) pk' = if decide (pk = pk') then b else pkb d pk'.
Proof. unfold pkb. cbn. rewrite Get_Put. by case_decide. Qed.

Lemma saveAttestationRecord_typed d r : DBTyped d → RecordTyped r → DBTyped (saveAttestationRecord d r).
Proof.
  intros Hd (Hs & Ht & Hr). pose proof (pkb_typed d (ARPubKey r) Hd) as (H1 & H2 & H3).
  unfold saveAttestationRecord, setAttestations. split; cbn.
  - intros pk b. rewrite Get_Put. case_decide; [|apply Hd]. intros [= <-].
    split_and!; eexists; (split; [done|]).
    + by apply TypedBucket_Put.
    + by apply appendEpoch_typed.
    + by apply appendEpoch_typed.
  - apply Hd.
  - apply lowerBound_typed; [apply Hd|done].
  - apply lowerBound_typed; [apply Hd|done].
  - apply Hd.
  - apply Hd.
Qed.

Section save.
Context (d : DB) (r : AttestationRecord).
Hypothesis (Hd : DBTyped d) (Hr : RecordTyped r).

Lemma rootAt_save pk t :
  is_u64 t →
  rootAt (saveAttestationRecord d r) pk t =
  if decide (ARPubKey r = pk ∧ ARTarget r = t) then Some (ARSigningRoot r) else rootAt d pk t.
Proof using Hr.
  intros Htu. destruct Hr as (Hs & Ht & Hroot). unfold rootAt, saveAttestationRecord.
  rewrite pkb_Put. destruct (decide (ARPubKey r = pk)) as [<-|Hne].
  - cbn [attestationSigningRootsBucket]. rewrite getIn_Put, getIn_default by done. fold (pkb d (ARPubKey r)).
    destruct (decide (ARTarget r = t)); [by rewrite decide_True|]. rewrite decide_False by naive_solver. done.
  - rewrite decide_False by naive_solver. done.
Qed.

Lemma targetsOf_save pk s :
  is_u64 s →
  targetsOf (saveAttestationRecord d r) pk s =
  if decide (ARPubKey r = pk ∧ ARSource r = s) then targetsOf d pk s ++ [ARTarget r] else targetsOf d pk s.
Proof using Hd Hr.
  intros Hsu. destruct Hr as (Hs & Ht & Hroot). unfold targetsOf, saveAttestationRecord.
  rewrite pkb_Put. destruct (decide (ARPubKey r = pk)) as [<-|Hne].
  - cbn [attestationSourceEpochsBucket]. fold (pkb d (ARPubKey r)).
    rewrite epochsAt_append; [|by apply pkb_typed|done..].
    destruct (decide (ARSource r = s)); [by rewrite decide_True|]. rewrite decide_False by naive_solver. done.
  - rewrite decide_False by naive_solver. done.
Qed.

Lemma sourcesOf_save pk t :
  is_u64 t →
  sourcesOf (saveAttestationRecord d r) pk t =
  if decide (ARPubKey r = pk ∧ ARTarget r = t) then sourcesOf d pk t ++ [ARSource r] else sourcesOf d pk t.
Proof using Hd Hr.
  intros Hsu. destruct Hr as (Hs & Ht & Hroot). unfold sourcesOf, saveAttestationRecord.
  rewrite pkb_Put. destruct (decide (ARPubKey r = pk)) as [<-|Hne].
  - cbn [attestationTargetEpochsBucket]. fold (pkb d (ARPubKey r)).
    rewrite epochsAt_append; [|by apply pkb_typed|done..].
    destruct (decide (ARTarget r = t)); [by rewrite decide_True|]. rewrite decide_False by naive_solver. done.
  - rewrite decide_False by naive_solver. done.
Qed.

Definition lowered (o : option Z) (e : Z) : Z := match o with Some l => Z.min l e | None => e end.

Lemma LowestSignedSourceEpoch_save pk :
  LowestSignedSourceEpoch (saveAttestationRecord d r) pk =
  if decide (ARPubKey r = pk) then Some (lowered (LowestSignedSourceEpoch d pk) (ARSource r))
  else LowestSignedSourceEpoch d pk.
Proof using Hd Hr.
  unfold LowestSignedSourceEpoch. cbn. rewrite decodeLowest_lowerBound; [|apply Hd|apply Hr].
  case_decide; by subst.
Qed.

Lemma LowestSignedTargetEpoch_save pk :
  LowestSignedTargetEpoch (saveAttestationRecord d r) pk =
  if decide (ARPubKey r = pk) then Some (lowered (LowestSignedTargetEpoch d pk) (ARTarget r))
  else LowestSignedTargetEpoch d pk.
Proof using Hd Hr.
  unfold LowestSignedTargetEpoch. cbn. rewrite decodeLowest_lowerBound; [|apply Hd|apply Hr].
  case_decide; by subst.
Qed.
End save.
End view.
