(* ===== verification/ProtectionCheck.v ===== *)
(** * Slashing protection: the attestation check of the complete database

    [CheckSlashableAttestation] walks two buckets from the back and stops early; it
    decides the same question as a search through the whole history of the key. *)

From stdpp Require Import sorting.
From S2P Require Import Prelude MathHelper Primitives SlotTime Bytes Protection ProtectionKV ProtectionView.

Section walk.
Context `{Bolt} `{BeaconChainConfig}.

(** The shape of the two walks. *)
Fixpoint walkBack (bound : Z) (test : Z → Z → bool) (hit : SlashingKind * option error)
    (cur : list (bytes * bytes)) : outcome (SlashingKind * option error) :=
  match cur with
  | [] => Ret (NotSlashable, None)
  | (k, v) :: cur =>
      let e := BytesToEpochBigEndian k in
      if e <=? bound then Ret (NotSlashable, None)
      else
        es <-? packedEpochs v;;
        if existsb (test e) es then Ret hit else walkBack bound test hit cur
  end.

Lemma surroundedWalk_back cur att :
  surroundedWalk cur att =
  walkBack (TargetEpoch att) (λ t s, IsSurround (mkAtt s t) att) (SurroundedVote, Some surroundedVoteMessage) cur.
Proof. induction cur as [|[k v] cur IH]; [done|]. cbn [surroundedWalk walkBack]. by rewrite IH. Qed.

Lemma surroundingWalk_back cur att :
  surroundingWalk cur att =
  walkBack (SourceEpoch att) (λ s t, IsSurround att (mkAtt s t)) (SurroundingVote, Some surroundingVoteMessage) cur.
Proof. induction cur as [|[k v] cur IH]; [done|]. cbn [surroundingWalk walkBack]. by rewrite IH. Qed.

Definition epochKey (k : bytes) : Prop := ∃ e, is_u64 e ∧ k = Uint64ToBytesBigEndian e.

Lemma epochKey_lt k1 k2 :
  epochKey k1 → epochKey k2 → bytes_lt k1 k2 → BytesToEpochBigEndian k1 < BytesToEpochBigEndian k2.
Proof.
  intros (e1 & H1 & ->) (e2 & H2 & ->) Hlt%Uint64ToBytesBigEndian_lt; [|done..].
  unfold BytesToEpochBigEndian. by rewrite !BytesToUint64BigEndian_Uint64.
Qed.

(** A walk over descending keys finds a hit exactly when some entry has one. *)
Lemma walkBack_list bound test hit cur :
  (∀ e x, test e x = true → bound < e) →
  StronglySorted (flip bytes_lt) cur.*1 →
  (∀ k v, (k, v) ∈ cur → epochKey k ∧ Packed v) →
  (walkBack bound test hit cur = Ret hit ∧
     ∃ k v x, (k, v) ∈ cur ∧ x ∈ unpack v ∧ test (BytesToEpochBigEndian k) x = true) ∨
  (walkBack bound test hit cur = Ret (NotSlashable, None) ∧
     ∀ k v x, (k, v) ∈ cur → x ∈ unpack v → test (BytesToEpochBigEndian k) x = false).
Proof.
  intros Hb. induction cur as [|[k v] cur IH]; intros Hs Hty; [right; set_solver|].
  cbn in Hs. apply StronglySorted_inv in Hs as [Hs Hall]. cbn [walkBack].
  assert (Hk : epochKey k ∧ Packed v) by (apply Hty; set_solver). destruct Hk as [Hk Hv].
  destruct (Z.leb_spec (BytesToEpochBigEndian k) bound) as [Hle|Hgt].
  - right. split; [done|]. intros k' v' x Hin Hx. apply not_true_is_false. intros Ht%Hb.
    apply elem_of_cons in Hin as [[= -> ->]|Hin]; [lia|].
    rewrite Forall_forall in Hall. assert (Hlt : bytes_lt k' k).
    { apply Hall, list_elem_of_fmap. by exists (k', v'). }
    apply epochKey_lt in Hlt; [lia| |done]. apply (Hty k' v'). set_solver.
  - destruct (Packed_unpack v Hv) as [-> _]. cbn [obind].
    destruct (existsb _ (unpack v)) eqn:Eex.
    + left. split; [done|]. apply existsb_exists in Eex as (x & Hx%list_elem_of_In & Ht).
      exists k, v, x. set_solver.
    + destruct IH as [(-> & k' & v' & x & Hin & Hx & Ht)|[-> Hno]]; [done|set_solver| |].
      * left. split; [done|]. exists k', v', x. set_solver.
      * right. split; [done|]. intros k' v' x Hin Hx.
        apply elem_of_cons in Hin as [[= -> ->]|Hin]; [|by eapply Hno].
        apply not_true_is_false. intros Ht.
        assert (existsb (test (BytesToEpochBigEndian k)) (unpack v) = true) as E'; [|congruence].
        apply existsb_exists. exists x. split; [by apply list_elem_of_In|done].
Qed.

Lemma StronglySorted_flip_reverse {A} (R : A → A → Prop) (l : list A) :
  StronglySorted R l → StronglySorted (flip R) (reverse l).
Proof.
  induction 1 as [|x l Hs IH Hall]; [constructor|]. rewrite reverse_cons.
  apply StronglySorted_app. split_and!; [|done|by repeat constructor].
  intros x1 x2 H1 H2. apply list_elem_of_singleton in H2 as ->.
  rewrite Forall_forall in Hall. apply Hall. by rewrite elem_of_reverse in H1.
Qed.

(** The same in terms of the view of the bucket. *)
Lemma walkBack_bucket bound test hit (b : Bucket bytes) :
  (∀ e x, test e x = true → bound < e) → TypedBucket Packed b →
  let w := walkBack bound test hit (reverse (entries b)) in
  (w = Ret hit ∧ ∃ e x, is_u64 e ∧ x ∈ epochsAt (Some b) e ∧ test e x = true) ∨
  (w = Ret (NotSlashable, None) ∧
     ∀ e x, is_u64 e → x ∈ epochsAt (Some b) e → test e x = false).
Proof.
  intros Hb Hty. cbv zeta.
  assert (Helem : ∀ k v, (k, v) ∈ reverse (entries b) ↔ Get b k = Some v).
  { intros k v. by rewrite elem_of_reverse, entries_Get. }
  destruct (walkBack_list bound test hit (reverse (entries b)) Hb) as [(-> & k & v & x & Hin & Hx & Ht)|[-> Hno]].
  - rewrite fmap_reverse. apply StronglySorted_flip_reverse, entries_sorted.
  - intros k v Hin%Helem. apply (Hty k v Hin).
  - left. split; [done|]. apply Helem in Hin. destruct (Hty _ _ Hin) as [(e & He & ->) _].
    exists e, x. unfold BytesToEpochBigEndian in Ht. rewrite BytesToUint64BigEndian_Uint64 in Ht by done.
    unfold epochsAt, getIn, EpochToBytesBigEndian. by rewrite Hin.
  - right. split; [done|]. intros e x He Hx. unfold epochsAt, getIn in Hx.
    destruct (Get b (EpochToBytesBigEndian e)) as [v|] eqn:E; [|set_solver].
    specialize (Hno _ v x (proj2 (Helem _ _) E) Hx). unfold BytesToEpochBigEndian, EpochToBytesBigEndian in Hno.
    by rewrite BytesToUint64BigEndian_Uint64 in Hno.
Qed.

Lemma IsSurround_spec a b :
  IsSurround a b = true ↔ SourceEpoch a < SourceEpoch b ∧ TargetEpoch b < TargetEpoch a.
Proof. unfold IsSurround. by rewrite andb_true_iff, !Z.ltb_lt. Qed.

Lemma checkSurroundingVote_spec b att :
  TypedBucket Packed b →
  (checkSurroundingVote b att = Ret (SurroundingVote, Some surroundingVoteMessage) ∧
     ∃ s t, is_u64 s ∧ t ∈ epochsAt (Some b) s ∧ IsSurround att (mkAtt s t) = true) ∨
  (checkSurroundingVote b att = Ret (NotSlashable, None) ∧
     ∀ s t, is_u64 s → t ∈ epochsAt (Some b) s → IsSurround att (mkAtt s t) = false).
Proof.
  intros Hb. unfold checkSurroundingVote. rewrite surroundingWalk_back.
  refine (walkBack_bucket _ (λ s t, IsSurround att (mkAtt s t)) _ b _ Hb).
  intros e x Ht%IsSurround_spec. apply Ht.
Qed.

Lemma checkSurroundedVote_spec b att :
  TypedBucket Packed b →
  (checkSurroundedVote b att = Ret (SurroundedVote, Some surroundedVoteMessage) ∧
     ∃ t s, is_u64 t ∧ s ∈ epochsAt (Some b) t ∧ IsSurround (mkAtt s t) att = true) ∨
  (checkSurroundedVote b att = Ret (NotSlashable, None) ∧
     ∀ t s, is_u64 t → s ∈ epochsAt (Some b) t → IsSurround (mkAtt s t) att = false).
Proof.
  intros Hb. unfold checkSurroundedVote. rewrite surroundedWalk_back.
  refine (walkBack_bucket _ (λ t s, IsSurround (mkAtt s t) att) _ b _ Hb).
  intros e x Ht%IsSurround_spec. apply Ht.
Qed.

Lemma doubleVoteAt_spec d pk root t :
  doubleVoteAt (attestationSigningRootsBucket (pkb d pk)) root t = true ↔
  ∃ sr, rootAt d pk t = Some sr ∧ (sr = [] ∨ sr ≠ root).
Proof.
  unfold doubleVoteAt, rootAt, getIn. destruct (attestationSigningRootsBucket (pkb d pk)) as [b|]; [|naive_solver].
  destruct (Get b _) as [sr|]; [|naive_solver]. unfold SigningRootsDiffer. destruct sr as [|x sr]; cbn.
  - split; [|done]. intros _. exists []. tauto.
  - rewrite negb_true_iff, bool_decide_eq_false. naive_solver.
Qed.

(** ** The check in terms of the view *)

Definition checkMeans (d : DB) (pk root : bytes) (att : IndexedAttestation) (kind : SlashingKind) : Prop :=
  match kind with
  | NotSlashable =>
      (∀ sr, rootAt d pk (TargetEpoch att) = Some sr → sr ≠ [] ∧ sr = root) ∧
      (∀ s t, is_u64 s → t ∈ targetsOf d pk s → IsSurround att (mkAtt s t) = false) ∧
      (∀ s t, is_u64 t → s ∈ sourcesOf d pk t → IsSurround (mkAtt s t) att = false)
  | DoubleVote => ∃ sr, rootAt d pk (TargetEpoch att) = Some sr ∧ (sr = [] ∨ sr ≠ root)
  | SurroundingVote => ∃ s t, is_u64 s ∧ t ∈ targetsOf d pk s ∧ IsSurround att (mkAtt s t) = true
  | SurroundedVote => ∃ s t, is_u64 t ∧ s ∈ sourcesOf d pk t ∧ IsSurround (mkAtt s t) att = true
  end.

Lemma CheckSlashableAttestation_view d pk root att :
  DBTyped d →
  ∃ kind e, CheckSlashableAttestation d pk root att = Ret (kind, e) ∧
            (e = None ↔ kind = NotSlashable) ∧ checkMeans d pk root att kind.
Proof.
  intros Hd. unfold CheckSlashableAttestation.
  destruct (Get (pubKeysBucket d) pk) as [b|] eqn:Eb.
  2:{ exists NotSlashable, None. split; [done|]. split; [done|].
      unfold checkMeans, rootAt, targetsOf, sourcesOf, pkb. rewrite Eb. cbn. set_solver. }
  destruct (typed_pubKeys _ Hd _ _ Eb) as ((rs & Hrs & _) & (ss & Hss & Hsty) & (ts & Hts & Htty)).
  assert (Hpkb : pkb d pk = b) by (unfold pkb; by rewrite Eb).
  pose proof (doubleVoteAt_spec d pk root (TargetEpoch att)) as Hdv. rewrite Hpkb in Hdv.
  destruct (doubleVoteAt _ _ _) eqn:Edv.
  { exists DoubleVote, (Some doubleVoteMessage). split; [done|]. split; [done|]. by apply Hdv. }
  rewrite Hss, Hts. unfold checkMeans.
  assert (targetsOf d pk = epochsAt (Some ss)) as -> by (unfold targetsOf; by rewrite Hpkb, Hss).
  assert (sourcesOf d pk = epochsAt (Some ts)) as -> by (unfold sourcesOf; by rewrite Hpkb, Hts).
  destruct (checkSurroundingVote_spec ss att Hsty) as [(-> & ?)|[-> Hno1]].
  { eexists _, _. split; [done|]. done. }
  cbn [obind]. destruct (checkSurroundedVote_spec ts att Htty) as [(-> & t & s & ?)|[-> Hno2]].
  { eexists _, _. split; [done|]. split; [done|]. by exists s, t. }
  exists NotSlashable, None. split; [done|]. split; [done|]. split_and!; [|done|intros s t ??; by apply Hno2].
  intros sr Hsr. destruct (decide (sr = [])), (decide (sr = root)); try (by subst);
    exfalso; enough (false = true) by done; apply Hdv; eauto.
Qed.

(** ** The history *)

Lemma copyBytes_full n src : length src = n → copyBytes (zeroBytes n) src = src.
Proof.
  intros Hl. unfold copyBytes, zeroBytes. rewrite length_replicate, Hl, drop_ge by (rewrite length_replicate; lia).
  rewrite take_ge by lia. apply app_nil_r.
Qed.

Definition storedRoot (o : option bytes) : bytes :=
  let sr := default [] o in
  if (length sr =? 0)%nat then [] else copyBytes (zeroBytes RootLength) sr.

Lemma storedRoot_typed o : (∀ v, o = Some v → IsRootValue v) → storedRoot o = default [] o.
Proof.
  unfold storedRoot. destruct o as [v|]; [|done]. intros Hv. change (default [] (Some v)) with v. cbv zeta.
  destruct (Hv v eq_refl) as [Hl|Hl]; [by destruct v|].
  destruct (Nat.eqb_spec (length v) 0) as [E|_]; [unfold RootLength in Hl; lia|]. by apply copyBytes_full.
Qed.

Lemma recordsOfSource_spec pk rs k v :
  Packed v →
  recordsOfSource pk (Some rs) (k, v) =
  Ret (map (λ t, mkAttRecord pk (BytesToEpochBigEndian k) t (storedRoot (Get rs (EpochToBytesBigEndian t)))) (unpack v)).
Proof.
  intros Hv. unfold recordsOfSource. cbn [snd fst]. destruct (Packed_unpack v Hv) as [-> _]. cbn [obind].
  induction (unpack v) as [|t es IH]; [done|]. cbn [foldr map]. rewrite IH. done.
Qed.

Definition historyMeans (d : DB) (pk : bytes) (r : AttestationRecord) : Prop :=
  ARPubKey r = pk ∧ is_u64 (ARSource r) ∧ ARTarget r ∈ targetsOf d pk (ARSource r) ∧
  ARSigningRoot r = default [] (rootAt d pk (ARTarget r)).

Lemma AttestationHistory_view d pk :
  DBTyped d →
  ∃ h, AttestationHistoryForPubKey d pk = Ret h ∧ ∀ r, r ∈ h ↔ historyMeans d pk r.
Proof.
  intros Hd. unfold AttestationHistoryForPubKey, historyMeans, targetsOf, rootAt, pkb.
  destruct (Get (pubKeysBucket d) pk) as [b|] eqn:Eb.
  2:{ exists []. split; [done|]. cbn. set_solver. }
  change (default emptyPkBucket (Some b)) with b.
  destruct (typed_pubKeys _ Hd _ _ Eb) as ((rs & -> & Hrty) & (ss & -> & Hsty) & _).
  set (recs := λ e : bytes * bytes, map (λ t, mkAttRecord pk (BytesToEpochBigEndian e.1) t
      (storedRoot (Get rs (EpochToBytesBigEndian t)))) (unpack e.2)).
  exists (flat_map recs (entries ss)). split.
  - assert (Hall : ∀ k v, (k, v) ∈ entries ss → Packed v).
    { intros k v Hin%entries_Get. apply (Hsty _ _ Hin). }
    induction (entries ss) as [|[k v] l IH]; [done|]. cbn [foldr flat_map].
    rewrite IH by set_solver. rewrite recordsOfSource_spec by set_solver. done.
  - intros r. rewrite elem_of_flat_map. unfold epochsAt, getIn. split.
    + intros ([k v] & Hin%entries_Get & Hr). subst recs.
      apply list_elem_of_fmap in Hr as (t & -> & Ht). cbn in *.
      destruct (Hsty _ _ Hin) as [(e & He & ->) Hv]. unfold BytesToEpochBigEndian, EpochToBytesBigEndian.
      rewrite BytesToUint64BigEndian_Uint64 by done. split_and!; [done|done|by rewrite Hin|].
      apply storedRoot_typed. intros w Hw. by apply (Hrty _ _ Hw).
    + intros (Hpk & Hs & Ht & Hroot). unfold EpochToBytesBigEndian in *.
      destruct (Get ss _) as [v|] eqn:Ev; [|set_solver].
      eexists (_, v). split; [by apply entries_Get|]. unfold recs. apply list_elem_of_fmap.
      exists (ARTarget r). cbn [fst snd]. split; [|done]. unfold BytesToEpochBigEndian.
      rewrite BytesToUint64BigEndian_Uint64 by done. rewrite storedRoot_typed.
      2:{ intros w Hw. by apply (Hrty _ _ Hw). }
      destruct r; cbn in *; subst. done.
Qed.

(** ** The three buckets of a key agree *)

Record Synced (d : DB) (pk : bytes) : Prop := {
  synced_votes s t : is_u64 s → is_u64 t → t ∈ targetsOf d pk s ↔ s ∈ sourcesOf d pk t;
  synced_roots t : is_u64 t → is_Some (rootAt d pk t) ↔ ∃ s, is_u64 s ∧ t ∈ targetsOf d pk s
}.

Lemma Synced_empty pk : Synced emptyDB pk.
Proof.
  split.
  - intros s t _ _. unfold targetsOf, sourcesOf, pkb. cbn. rewrite Get_empty. cbn. set_solver.
  - intros t _. unfold rootAt, targetsOf, pkb. cbn. rewrite Get_empty. cbn.
    split; [by intros [? ?]|]. intros (s & _ & Hs). set_solver.
Qed.

Lemma Synced_save d r pk : DBTyped d → RecordTyped r → Synced d pk → Synced (saveAttestationRecord d r) pk.
Proof.
  intros Hd Hr [Hv Hroot]. split.
  - intros s t Hs Ht. rewrite targetsOf_save, sourcesOf_save by done.
    specialize (Hv s t Hs Ht). repeat case_decide; rewrite ?elem_of_app, ?list_elem_of_singleton; naive_solver.
  - intros t Ht. rewrite rootAt_save by done. destruct Hr as (Hrs & Hrt & Hrr).
    case_decide as Hc.
    + split; [|done]. intros _. destruct Hc as [<- <-]. exists (ARSource r). split; [done|].
      rewrite targetsOf_save, decide_True by done. set_solver.
    + rewrite Hroot by done. split; intros (s & Hs & Hin); exists s; (split; [done|]).
      * rewrite targetsOf_save by done. case_decide; set_solver.
      * rewrite targetsOf_save in Hin by done. case_decide; [|done].
        apply elem_of_app in Hin as [?|Hin%list_elem_of_singleton]; [done|]. naive_solver.
Qed.

Lemma saveAttestationRecords_inv d rs :
  DBTyped d → (∀ pk, Synced d pk) → Forall RecordTyped rs →
  DBTyped (saveAttestationRecords d rs) ∧ ∀ pk, Synced (saveAttestationRecords d rs) pk.
Proof.
  intros Hd Hs Hrs. revert d Hd Hs. induction Hrs as [|r rs Hr Hrs IH]; intros d Hd Hs; [done|].
  apply IH; [by apply saveAttestationRecord_typed|]. intros pk. by apply Synced_save.
Qed.

Lemma targetsOf_u64 d pk s t : DBTyped d → t ∈ targetsOf d pk s → is_u64 t.
Proof.
  intros Hd. unfold targetsOf, epochsAt. destruct (getIn _ _) as [v|] eqn:E; [|set_solver].
  apply OTyped_getIn with (P := Packed) in E; [|by apply pkb_typed].
  destruct (Packed_unpack _ E) as [_ Hall]. rewrite Forall_forall in Hall. apply Hall.
Qed.

Lemma sourcesOf_u64 d pk s t : DBTyped d → s ∈ sourcesOf d pk t → is_u64 s.
Proof.
  intros Hd. unfold sourcesOf, epochsAt. destruct (getIn _ _) as [v|] eqn:E; [|set_solver].
  apply OTyped_getIn with (P := Packed) in E; [|by apply pkb_typed].
  destruct (Packed_unpack _ E) as [_ Hall]. rewrite Forall_forall in Hall. apply Hall.
Qed.

(** Every record saved is found again. *)
Lemma targetsOf_saveRecords d rs pk s t :
  DBTyped d → Forall RecordTyped rs → is_u64 s →
  t ∈ targetsOf (saveAttestationRecords d rs) pk s ↔
  t ∈ targetsOf d pk s ∨ ∃ r, r ∈ rs ∧ ARPubKey r = pk ∧ ARSource r = s ∧ ARTarget r = t.
Proof.
  intros Hd Hrs Hs. revert d Hd. induction Hrs as [|r rs Hr Hrs IH]; intros d Hd; [set_solver|].
  change (saveAttestationRecords d (r :: rs)) with (saveAttestationRecords (saveAttestationRecord d r) rs).
  rewrite IH by (by apply saveAttestationRecord_typed). rewrite targetsOf_save by done.
  case_decide; set_solver.
Qed.

(** The root that the last of the records for this key and target wrote. *)
Definition lastRoot (rs : list AttestationRecord) (pk : bytes) (t : Z) : option bytes :=
  ARSigningRoot <$> last (filter (λ r, ARPubKey r = pk ∧ ARTarget r = t) rs).

Lemma rootAt_saveRecords d rs pk t :
  DBTyped d → Forall RecordTyped rs → is_u64 t →
  rootAt (saveAttestationRecords d rs) pk t =
  match lastRoot rs pk t with Some root => Some root | None => rootAt d pk t end.
Proof.
  intros Hd Hrs Ht. revert d Hd. induction Hrs as [|r rs Hr Hrs IH]; intros d Hd; [done|].
  change (saveAttestationRecords d (r :: rs)) with (saveAttestationRecords (saveAttestationRecord d r) rs).
  rewrite IH by (by apply saveAttestationRecord_typed). rewrite rootAt_save by done.
  unfold lastRoot. rewrite filter_cons. case_decide as Hc; [|done].
  rewrite last_cons. by destruct (last _).
Qed.
End walk.

(** Encoding round trip: the history of a key that is read back from the complete
    database has exactly the source and target of each record that was saved for the
    key, each with the signing root last saved for its target. *)
Theorem attestation_history_roundtrip `{Bolt} (rs : list AttestationRecord) (pk : bytes) :
  Forall RecordTyped rs →
  ∃ h, AttestationHistoryForPubKey (saveAttestationRecords emptyDB rs) pk = Ret h ∧
    ∀ r, r ∈ h ↔ (∃ r', r' ∈ rs ∧ ARPubKey r' = pk ∧ ARSource r' = ARSource r ∧ ARTarget r' = ARTarget r) ∧
      ARPubKey r = pk ∧ lastRoot rs pk (ARTarget r) = Some (ARSigningRoot r).
Proof.
  intros Hrs. destruct (saveAttestationRecords_inv emptyDB rs emptyDB_typed Synced_empty Hrs) as [Hd _].
  destruct (AttestationHistory_view _ pk Hd) as (h & -> & Hh). exists h. split; [done|].
  intros r. rewrite Hh. unfold historyMeans.
  assert (Hempty : ∀ s, targetsOf emptyDB pk s = []).
  { intros s. unfold targetsOf, pkb. cbn. by rewrite Get_empty. }
  assert (Hlast : ∀ r', r' ∈ rs → ARPubKey r' = pk → ARTarget r' = ARTarget r →
            is_Some (lastRoot rs pk (ARTarget r))).
  { intros r' Hin H1 H2. apply fmap_is_Some, last_is_Some. intros E.
    assert (r' ∈ filter (λ r0, ARPubKey r0 = pk ∧ ARTarget r0 = ARTarget r) rs) as Hf
      by (apply list_elem_of_filter; naive_solver). rewrite E in Hf. set_solver. }
  rewrite Forall_forall in Hrs. split.
  - intros (Hpk & Hs & Ht & Hroot). rewrite targetsOf_saveRecords in Ht;
      [|apply emptyDB_typed|by apply Forall_forall|done].
    rewrite Hempty in Ht. destruct Ht as [Ht|(r' & Hin & H1 & H2 & H3)]; [set_solver|].
    split; [naive_solver|]. split; [done|]. rewrite rootAt_saveRecords in Hroot;
      [|apply emptyDB_typed|by apply Forall_forall|rewrite <- H3; apply (Hrs r' Hin)].
    destruct (Hlast r' Hin H1 H3) as [root Hl]. rewrite Hl in *. by rewrite Hroot.
  - intros ((r' & Hin & H1 & H2 & H3) & Hpk & Hl). destruct (Hrs r' Hin) as (Hs' & Ht' & _).
    rewrite H2 in Hs'. rewrite H3 in Ht'. split_and!; [done|done| |].
    + rewrite targetsOf_saveRecords; [|apply emptyDB_typed|by apply Forall_forall|done]. right. by exists r'.
    + rewrite rootAt_saveRecords; [|apply emptyDB_typed|by apply Forall_forall|done]. by rewrite Hl.
Qed.

(** C21. Equivalence: for every set of saved records, [CheckSlashableAttestation], which
    walks the source and target buckets from the back and stops early, answers
    [NotSlashable] exactly when a search of the whole history of the key finds no
    record that the protocol slashes together with the new attestation, and names a
    kind of offence of which the history has an instance otherwise. *)
Theorem CheckSlashableAttestation_exact `{Bolt} (rs : list AttestationRecord) (pk root : bytes) (att : IndexedAttestation) :
  Forall RecordTyped rs → validAttestation att root →
  let d := saveAttestationRecords emptyDB rs in
  let new := mkAttRecord pk (SourceEpoch att) (TargetEpoch att) root in
  ∃ history kind e,
    AttestationHistoryForPubKey d pk = Ret history ∧
    CheckSlashableAttestation d pk root att = Ret (kind, e) ∧ (e = None ↔ kind = NotSlashable) ∧
    match kind with
    | NotSlashable => ∀ r, r ∈ history → ¬ slashableAttestations r new
    | DoubleVote => ∃ r, r ∈ history ∧ ARTarget r = TargetEpoch att ∧ ARSigningRoot r ≠ root
    | SurroundingVote => ∃ r, r ∈ history ∧ IsSurround att (recordAtt r) = true
    | SurroundedVote => ∃ r, r ∈ history ∧ IsSurround (recordAtt r) att = true
    end.
Proof.
  intros Hrs (Hs & Ht & Hlen). cbv zeta.
  destruct (saveAttestationRecords_inv emptyDB rs emptyDB_typed Synced_empty Hrs) as [Hd Hsync].
  set (d := saveAttestationRecords emptyDB rs) in *. specialize (Hsync pk) as [Hv Hroots].
  destruct (AttestationHistory_view d pk Hd) as (h & -> & Hh).
  destruct (CheckSlashableAttestation_view d pk root att Hd) as (kind & e & -> & He & Hm).
  exists h, kind, e. split_and!; [done..|]. destruct kind; cbn [checkMeans] in Hm.
  - destruct Hm as (Hm1 & Hm2 & Hm3). intros r (Hpk & Hrs1 & Hrt & Hroot)%Hh (_ & Hsl).
    pose proof (targetsOf_u64 _ _ _ _ Hd Hrt) as Htu.
    destruct Hsl as [[Heq Hne]|[Hsur|Hsur]]; cbn in *.
    + assert (is_Some (rootAt d pk (ARTarget r))) as [sr Hsr] by (apply Hroots; eauto).
      rewrite Heq in Hsr. destruct (Hm1 _ Hsr) as [_ ->]. apply Hne. by rewrite Hroot, Heq, Hsr.
    + unfold recordAtt in Hsur at 1. apply Is_true_true in Hsur.
      specialize (Hm3 (ARSource r) (ARTarget r) Htu (proj1 (Hv _ _ Hrs1 Htu) Hrt)).
      destruct att. cbn in *. unfold recordAtt in Hsur. cbn in Hsur. congruence.
    + apply Is_true_true in Hsur. specialize (Hm2 _ _ Hrs1 Hrt).
      destruct att. cbn in *. unfold recordAtt in Hsur. cbn in Hsur. congruence.
  - destruct Hm as (sr & Hsr & Hor). assert (is_Some (rootAt d pk (TargetEpoch att))) as Hsome by eauto.
    apply Hroots in Hsome as (s & Hsu & Hin); [|done].
    exists (mkAttRecord pk s (TargetEpoch att) sr). split; [apply Hh; unfold historyMeans; cbn; by rewrite Hsr|].
    split; [done|]. cbn. destruct Hor as [->|?]; [by intros <-|done].
  - destruct Hm as (s & t & Hsu & Hin & Hsur).
    exists (mkAttRecord pk s t (default [] (rootAt d pk t))). split; [apply Hh; unfold historyMeans; done|done].
  - destruct Hm as (s & t & Htu & Hin & Hsur). pose proof (sourcesOf_u64 _ _ _ _ Hd Hin) as Hsu.
    exists (mkAttRecord pk s t (default [] (rootAt d pk t))). split; [|done].
    apply Hh; unfold historyMeans; cbn. split_and!; [done|done|by apply Hv|done].
Qed.

(** ** Witnesses *)

Definition exampleKey : bytes := replicate 48 1.
Definition exampleRoot (b : Z) : bytes := replicate 32 b.
Definition exampleRecords : list AttestationRecord :=
  [mkAttRecord exampleKey 2 3 (exampleRoot 7); mkAttRecord exampleKey 3 4 [];
   mkAttRecord (replicate 48 2) 2 5 (exampleRoot 8)].

Lemma exampleRecords_typed : Forall RecordTyped exampleRecords.
Proof.
  repeat constructor; vm_compute; try done; try (by right); by left.
Qed.

Lemma attestation_history_roundtrip_witness :
  Forall RecordTyped exampleRecords ∧
  ∃ h, @AttestationHistoryForPubKey gmapBolt (saveAttestationRecords emptyDB exampleRecords) exampleKey = Ret h ∧
    ∀ r, r ∈ h ↔ (∃ r', r' ∈ exampleRecords ∧ ARPubKey r' = exampleKey ∧ ARSource r' = ARSource r ∧ ARTarget r' = ARTarget r) ∧
      ARPubKey r = exampleKey ∧ lastRoot exampleRecords exampleKey (ARTarget r) = Some (ARSigningRoot r).
Proof.
  split; [exact exampleRecords_typed|].
  exact (@attestation_history_roundtrip gmapBolt exampleRecords exampleKey exampleRecords_typed).
Defined.

(** A vote (1, 5) surrounds the stored (2, 3). *)
Lemma CheckSlashableAttestation_exact_witness :
  let d := @saveAttestationRecords gmapBolt emptyDB exampleRecords in
  (∃ history kind e,
    AttestationHistoryForPubKey d exampleKey = Ret history ∧
    CheckSlashableAttestation d exampleKey (exampleRoot 9) (mkAtt 1 5) = Ret (kind, e) ∧
    (e = None ↔ kind = NotSlashable)) ∧
  CheckSlashableAttestation d exampleKey (exampleRoot 9) (mkAtt 1 5) = Ret (SurroundingVote, Some surroundingVoteMessage).
Proof.
  cbv zeta. split; [|vm_compute; reflexivity].
  destruct (@CheckSlashableAttestation_exact gmapBolt exampleRecords exampleKey (exampleRoot 9) (mkAtt 1 5)
    exampleRecords_typed) as (h & k & e & H1 & H2 & H3 & _).
  - repeat split; vm_compute; congruence.
  - exists h, k, e. exact (conj H1 (conj H2 H3)).
Defined.

(** * Slashing protection: proposals of the complete database

    The effect of [SaveProposalHistoryForSlot], its pruning included, on the view of
    [ProtectionView.v], and what [SlashableProposalCheck] decides. *)

Section proposals.
Context `{Bolt} `{BeaconChainConfig}.

(** A slot that a save at [newest] prunes. *)
Definition tooOld (newest slot : Z) : bool :=
  ToEpoch slot +w WeakSubjectivityPeriod <=? ToEpoch newest.

Lemma length_entries_Delete {V} (b : Bucket V) k v :
  Get b k = Some v → length (entries b) = S (length (entries (Delete b k))).
Proof.
  intros Hk. rewrite <- !(length_fmap fst). change (S (length (entries (Delete b k)).*1)) with (length (k :: (entries (Delete b k)).*1)).
  apply Permutation_length. apply NoDup_Permutation.
  - apply entries_NoDup.
  - constructor; [|apply entries_NoDup]. intros ([k' w] & -> & Hin)%list_elem_of_fmap.
    apply entries_Get in Hin. cbn in Hin. rewrite Get_Delete, decide_True in Hin by done. done.
  - intros x. rewrite elem_of_cons, !list_elem_of_fmap. split.
    + intros ([k' w] & -> & Hin%entries_Get). cbn. destruct (decide (k' = k)) as [->|Hne]; [by left|right].
      exists (k', w). split; [done|]. apply entries_Get. rewrite Get_Delete, decide_False by done. done.
    + intros [->|([k' w] & -> & Hin%entries_Get)].
      * exists (k, v). split; [done|]. by apply entries_Get.
      * exists (k', w). split; [done|]. apply entries_Get. rewrite Get_Delete in Hin. by case_decide.
Qed.

Lemma tooOld_mono newest s1 s2 :
  0 ≤ s1 ≤ s2 → s2 < two63 → tooOld newest s2 = true → tooOld newest s1 = true.
Proof.
  unfold tooOld. rewrite !Z.leb_le. intros Hs Hb Ht.
  pose proof (ToEpoch_bounds s1 ltac:(lia)). pose proof (ToEpoch_bounds s2 ltac:(lia)).
  pose proof SlotsPerEpoch_pos. pose proof WeakSubjectivityPeriod_range.
  assert (ToEpoch s1 ≤ ToEpoch s2) by (apply Z.div_le_mono; lia).
  assert (ToEpoch s2 ≤ s2) by nia.
  rewrite wrap64_small in Ht |- * by (unfold is_u64, two63, two64 in *; lia). lia.
Qed.

(** Keys are encodings of slots that fit in an [int64], as all real slots do. *)
Definition SlotBucket (b : Bucket bytes) : Prop :=
  ∀ k v, Get b k = Some v → (∃ s, 0 ≤ s < two63 ∧ k = SlotToBytesBigEndian s) ∧ IsRootValue v.

Lemma two63_u64 s : 0 ≤ s < two63 → is_u64 s.
Proof. unfold is_u64, two63, two64. lia. Qed.

Lemma pruneProposalRounds_spec fuel b newest s :
  SlotBucket b → (length (entries b) ≤ fuel)%nat → 0 ≤ s < two63 →
  Get (pruneProposalRounds fuel b newest) (SlotToBytesBigEndian s) =
  if tooOld newest s then None else Get b (SlotToBytesBigEndian s).
Proof.
  revert b. induction fuel as [|fuel IH]; intros b Hb Hf Hs; cbn [pruneProposalRounds].
  - assert (entries b = []) as E by (destruct (entries b); [done|cbn in Hf; lia]).
    destruct (Get b (SlotToBytesBigEndian s)) eqn:Eg; [|by case_if].
    apply entries_Get in Eg. rewrite E in Eg. set_solver.
  - destruct (cursorFirst b) as [[k v]|] eqn:Ef.
    2:{ unfold cursorFirst in Ef. destruct (Get b (SlotToBytesBigEndian s)) eqn:Eg; [|by case_if].
        apply entries_Get in Eg. destruct (entries b); [set_solver|done]. }
    pose proof (entries_head_Get _ _ _ Ef) as Hk. destruct (Hb _ _ Hk) as [(s0 & Hs0 & ->) _].
    unfold BytesToSlotBigEndian, SlotToBytesBigEndian in *.
    rewrite BytesToUint64BigEndian_Uint64 by (by apply two63_u64). fold (tooOld newest s0).
    destruct (tooOld newest s0) eqn:Eold.
    + rewrite IH; [| |rewrite (length_entries_Delete _ _ _ Hk) in Hf; lia|done].
      * rewrite Get_Delete. case_decide as Hc; [|done].
        apply Uint64ToBytesBigEndian_inj in Hc as ->; [by rewrite Eold|by apply two63_u64..].
      * intros k' v' Hg. rewrite Get_Delete in Hg. case_decide; [done|]. by apply Hb.
    + destruct (tooOld newest s) eqn:Es; [|done].
      destruct (Get b (Uint64ToBytesBigEndian s)) as [w|] eqn:Eg; [|done].
      exfalso. destruct (cursorFirst_le _ _ _ _ _ Ef Eg) as [Hc|Hc].
      * apply Uint64ToBytesBigEndian_inj in Hc; [congruence|by apply two63_u64..].
      * apply Uint64ToBytesBigEndian_lt in Hc; [|by apply two63_u64..].
        rewrite (tooOld_mono newest s0 s) in Eold; [done|lia|lia|done].
Qed.

Lemma pruneProposalRounds_sub fuel b newest k v :
  Get (pruneProposalRounds fuel b newest) k = Some v → Get b k = Some v.
Proof.
  revert b. induction fuel as [|fuel IH]; intros b; cbn [pruneProposalRounds]; [done|].
  destruct (cursorFirst b) as [[k0 v0]|]; [|done]. case_if; [|done].
  intros Hg%IH. rewrite Get_Delete in Hg. by case_decide.
Qed.

Lemma pruneProposalHistoryBySlot_spec b newest s :
  SlotBucket b → 0 ≤ s < two63 →
  Get (pruneProposalHistoryBySlot b newest) (SlotToBytesBigEndian s) =
  if tooOld newest s then None else Get b (SlotToBytesBigEndian s).
Proof. intros. by apply pruneProposalRounds_spec. Qed.

(** ** Saving a proposal *)

(** The invariant of the proposal buckets. *)
Definition ProposalsTyped (d : DB) : Prop :=
  ∀ pk b, Get (historicProposalsBucket d) pk = Some b → SlotBucket b.

Lemma SlotBucket_empty : SlotBucket emptyBucket.
Proof. intros k v Hg. by rewrite Get_empty in Hg. Qed.

Lemma SlotBucket_Put b s v :
  SlotBucket b → 0 ≤ s < two63 → IsRootValue v → SlotBucket (Put b (SlotToBytesBigEndian s) v).
Proof.
  intros Hb Hs Hv k w. rewrite Get_Put. case_decide; [|apply Hb]. intros [= <-]. split; [by exists s|done].
Qed.

Lemma SlotBucket_prune b newest : SlotBucket b → SlotBucket (pruneProposalHistoryBySlot b newest).
Proof. intros Hb k v Hg%pruneProposalRounds_sub. by apply Hb. Qed.

Section save.
Context (d : DB) (pk : bytes) (slot : Z) (root : bytes).
Hypothesis (Hd : ProposalsTyped d) (Hslot : 0 ≤ slot < two63) (Hroot : IsRootValue root).

Lemma saved_bucket_typed :
  SlotBucket (Put (default emptyBucket (Get (historicProposalsBucket d) pk)) (SlotToBytesBigEndian slot) root).
Proof using Hd Hslot Hroot.
  apply SlotBucket_Put; [|done..]. destruct (Get _ pk) eqn:E; [by eapply Hd|apply SlotBucket_empty].
Qed.

Lemma SaveProposalHistoryForSlot_typed : ProposalsTyped (SaveProposalHistoryForSlot d pk slot root).
Proof using Hd Hslot Hroot.
  intros pk' b. cbn. rewrite Get_Put. case_decide; [|apply Hd]. intros [= <-].
  apply SlotBucket_prune, saved_bucket_typed.
Qed.

(** The proposal is stored, what is too old for it is gone, the rest is unchanged. *)
Lemma blockAt_save pk' s :
  0 ≤ s < two63 →
  blockAt (SaveProposalHistoryForSlot d pk slot root) pk' s =
  if decide (pk = pk') then
    if tooOld slot s then None else if decide (slot = s) then Some root else blockAt d pk' s
  else blockAt d pk' s.
Proof using Hd Hslot Hroot.
  intros Hs. unfold blockAt. cbn. rewrite Get_Put. case_decide as Hpk; [subst pk'|done].
  rewrite pruneProposalHistoryBySlot_spec by (done || apply saved_bucket_typed).
  case_if; [done|]. rewrite Get_Put. destruct (decide (slot = s)) as [->|Hne]; [by rewrite decide_True|].
  rewrite decide_False; [by destruct (Get _ pk); [|apply Get_empty]|].
  intros E'. apply Hne, Uint64ToBytesBigEndian_inj; [by apply two63_u64..|exact E'].
Qed.

Lemma tooOld_self : tooOld slot slot = false.
Proof using Hslot.
  clear Hd Hroot. unfold tooOld. apply Z.leb_gt. pose proof (ToEpoch_bounds slot ltac:(lia)).
  pose proof SlotsPerEpoch_pos. pose proof WeakSubjectivityPeriod_range.
  rewrite wrap64_small; [lia|]. unfold is_u64, two63, two64 in *. nia.
Qed.
End save.

Lemma withinWeakSubjectivity_tooOld old new :
  0 ≤ old < two63 → withinWeakSubjectivity old new → tooOld new old = false.
Proof.
  intros Hold Hw. unfold withinWeakSubjectivity in Hw. unfold tooOld. apply Z.leb_gt.
  pose proof (ToEpoch_bounds old ltac:(lia)). pose proof SlotsPerEpoch_pos.
  pose proof WeakSubjectivityPeriod_range.
  rewrite wrap64_small; [lia|]. unfold is_u64, two63, two64 in *. nia.
Qed.

(** ** The check *)

Lemma ProposalHistoryForSlot_view d pk slot :
  (∀ v, blockAt d pk slot = Some v → IsRootValue v) →
  ProposalHistoryForSlot d pk slot =
  match blockAt d pk slot with
  | None => (zeroBytes 32, false, false)
  | Some v => if (length v =? 0)%nat then (zeroBytes 32, true, false) else (v, true, true)
  end.
Proof.
  unfold ProposalHistoryForSlot, blockAt. destruct (Get _ pk) as [b|]; [|done].
  destruct (Get b _) as [v|]; [|done]. intros Hv. case_if; [done|].
  destruct (Hv v eq_refl) as [Hl|Hl]; [apply Nat.eqb_neq in E; lia|]. by rewrite copyBytes_full.
Qed.

(** A block that passes is at no slot with another root, and not below the lowest. *)
Lemma proposalConditions_pass d pk slot root :
  (∀ v, blockAt d pk slot = Some v → IsRootValue v) → length root = RootLength →
  proposalConditions d pk slot root = None ↔
  (∀ v, blockAt d pk slot = Some v → v = root) ∧
  (∀ l, LowestSignedProposal d pk = Some l →
     l < slot ∨ (slot = l ∧ blockAt d pk slot = Some root)).
Proof.
  intros Hv Hroot. unfold proposalConditions. rewrite ProposalHistoryForSlot_view by done.
  assert (Hnil : root ≠ []) by (by intros ->).
  destruct (blockAt d pk slot) as [v|] eqn:Eb.
  - destruct (Nat.eqb_spec (length v) 0) as [E0|E0].
    + apply nil_length_inv in E0 as ->. cbn. split.
      * destruct (LowestSignedProposal d pk) as [l|]; repeat case_if; done.
      * intros [Hall _]. by specialize (Hall [] eq_refl).
    + cbn. destruct (bool_decide_reflect (v = root)) as [->|Hne]; cbn.
      * destruct (LowestSignedProposal d pk) as [l|]; [|naive_solver].
        rewrite andb_false_r. destruct (Z.ltb_spec slot l); split; [done| | |done].
        { intros [_ Hl]. destruct (Hl l eq_refl) as [?|[? _]]; lia. }
        intros _. split; [naive_solver|]. intros ? [= <-].
        destruct (decide (slot = l)); [by right|left; lia].
      * destruct (LowestSignedProposal d pk) as [l|]; repeat case_if; naive_solver.
  - cbn. destruct (LowestSignedProposal d pk) as [l|]; [|naive_solver]. rewrite andb_true_r.
    destruct (Z.ltb_spec slot l).
    { split; [done|]. intros [_ Hl]. destruct (Hl l eq_refl) as [?|[? ?]]; [lia|done]. }
    destruct (Z.eqb_spec slot l); split; [done| | |done].
    + intros [_ Hl]. destruct (Hl l eq_refl) as [?|[? ?]]; [lia|done].
    + intros _. split; [done|]. intros ? [= <-]. left. lia.
Qed.
End proposals.
