(* ===== verification/ProtectionBatch.v ===== *)
(** * Slashing protection: the complete database's [KVStore] and its batched writes

    Attestation records are not written by the goroutine that asks for it: it sends
    the record on a channel and waits for a broadcast; one worker
    ([batchAttestationWrites]) takes records off the channel, queues them, and writes
    the queue in one transaction when a timer fires or the queue is full.  [KVStore]
    has the buckets, the channel, the queue, the feed's subscribers and where the
    worker is ([flushInProgress] is set exactly while it is flushing).  The functions
    are the worker's and the callers' actions; [batchStep] interleaves them, a caller being
    a number.  [SaveAttestationForPubKey] is one call, with everything that the worker and
    the other callers do in the meantime as arguments.

    The instance of the [SlashingProtection] interface is defined at the end. *)

From S2P Require Import Prelude MathHelper Primitives SlotTime Bytes Protection ProtectionKV.

Definition attestationBatchCapacity : nat := 2048.

(** ** The queue *)

Definition QueuedAttestationRecords : Type := list AttestationRecord.
Definition NewQueuedAttestationRecords : QueuedAttestationRecords := [].
Definition QueueAppend (p : QueuedAttestationRecords) (ar : AttestationRecord) : QueuedAttestationRecords := p ++ [ar].
(** The records, and the queue afterwards. *)
Definition QueueFlush (p : QueuedAttestationRecords) : list AttestationRecord * QueuedAttestationRecords :=
  (p, NewQueuedAttestationRecords).
Definition QueueLen (p : QueuedAttestationRecords) : nat := length p.

(** Where the worker is: at its [select]; writing a batch; with the result of the
    write in hand, before it is sent to the subscribers. *)
Inductive Worker :=
| Selecting
| Writing (records : list AttestationRecord)
| Notifying (err : option error).

Section batch.
Context `{Bolt} `{BeaconChainConfig}.

Record KVStore := mkStore {
  db : DB;
  batchedAttestations : QueuedAttestationRecords;
  batchedAttestationsChan : list AttestationRecord;
  batchAttestationsFlushedFeed : list nat;
  worker : Worker
}.

(** [NewKVStore] of a database file with these buckets. *)
Definition openStore (d : DB) : KVStore := mkStore d NewQueuedAttestationRecords [] [] Selecting.

Definition batchedAttestationsFlushInProgress (s : KVStore) : bool :=
  match worker s with Selecting => false | _ => true end.

(** ** Actions of a caller *)

Definition chanSend (s : KVStore) (r : AttestationRecord) : KVStore :=
  mkStore (db s) (batchedAttestations s) (batchedAttestationsChan s ++ [r])
    (batchAttestationsFlushedFeed s) (worker s).
Definition feedSubscribe (s : KVStore) (caller : nat) : KVStore :=
  mkStore (db s) (batchedAttestations s) (batchedAttestationsChan s)
    (batchAttestationsFlushedFeed s ++ [caller]) (worker s).

(** ** Actions of the worker *)

(** [s.flushAttestationRecords(ctx, s.batchedAttestations.QueueFlush())] up to the write. *)
Definition startFlush (s : KVStore) : KVStore :=
  let '(records, queue) := QueueFlush (batchedAttestations s) in
  mkStore (db s) queue (batchedAttestationsChan s) (batchAttestationsFlushedFeed s) (Writing records).

(** [case v := <-s.batchedAttestationsChan]. *)
Definition batchReceive (s : KVStore) : KVStore :=
  match batchedAttestationsChan s with
  | [] => s
  | v :: rest =>
      let s := mkStore (db s) (QueueAppend (batchedAttestations s) v) rest
                 (batchAttestationsFlushedFeed s) (worker s) in
      if (attestationBatchCapacity <=? QueueLen (batchedAttestations s))%nat
      then if negb (batchedAttestationsFlushInProgress s) then startFlush s else s
      else s
  end.

(** [case <-ticker.C]. *)
Definition batchTick (s : KVStore) : KVStore :=
  if (0 <? QueueLen (batchedAttestations s))%nat
  then if negb (batchedAttestationsFlushInProgress s) then startFlush s else s
  else s.

(** The write of [flushAttestationRecords]: a failed transaction changes nothing and
    the records go back to the queue. *)
Definition flushWrite (io : option error) (s : KVStore) : KVStore :=
  match worker s with
  | Writing records =>
      match io with
      | None => mkStore (saveAttestationRecords (db s) records) (batchedAttestations s)
                  (batchedAttestationsChan s) (batchAttestationsFlushedFeed s) (Notifying None)
      | Some err => mkStore (db s) (foldl QueueAppend (batchedAttestations s) records)
                  (batchedAttestationsChan s) (batchAttestationsFlushedFeed s) (Notifying (Some err))
      end
  | _ => s
  end.

(** [Feed.Send]: who is told what; a caller unsubscribes when it is told. *)
Definition flushNotify (s : KVStore) : KVStore * list (nat * option error) :=
  match worker s with
  | Notifying err =>
      (mkStore (db s) (batchedAttestations s) (batchedAttestationsChan s) [] Selecting,
       map (λ c, (c, err)) (batchAttestationsFlushedFeed s))
  | _ => (s, [])
  end.

(** ** Interleaving *)

(** A caller of [SaveAttestationForPubKey]: before the call, between the send and
    the subscription, waiting for the broadcast, and returned. *)
Inductive Caller :=
| Calling (r : AttestationRecord)
| Sent (r : AttestationRecord)
| Waiting (r : AttestationRecord)
| Returned (r : AttestationRecord) (err : option error).

Definition callerRecord (c : Caller) : AttestationRecord :=
  match c with Calling r | Sent r | Waiting r | Returned r _ => r end.

Definition tell (callers : gmap nat Caller) (a : nat * option error) : gmap nat Caller :=
  match callers !! a.1 with
  | Some (Waiting r) => <[a.1 := Returned r a.2]> callers
  | _ => callers
  end.

Definition config : Type := KVStore * gmap nat Caller.

Inductive batchStep : config → config → Prop :=
| step_send s cs c r :
    cs !! c = Some (Calling r) → (length (batchedAttestationsChan s) < attestationBatchCapacity)%nat →
    batchStep (s, cs) (chanSend s r, <[c := Sent r]> cs)
| step_subscribe s cs c r :
    cs !! c = Some (Sent r) → batchStep (s, cs) (feedSubscribe s c, <[c := Waiting r]> cs)
| step_receive s cs :
    worker s = Selecting → batchedAttestationsChan s ≠ [] → batchStep (s, cs) (batchReceive s, cs)
| step_tick s cs :
    worker s = Selecting → batchStep (s, cs) (batchTick s, cs)
| step_write s cs io records :
    worker s = Writing records → batchStep (s, cs) (flushWrite io s, cs)
| step_notify s cs err :
    worker s = Notifying err →
    batchStep (s, cs) ((flushNotify s).1, foldl tell cs (flushNotify s).2).

(** What the worker has in hand. *)
Definition inHand (w : Worker) : list AttestationRecord :=
  match w with Writing records => records | _ => [] end.

(** Records on their way to the database. *)
Definition pending (s : KVStore) : list AttestationRecord :=
  inHand (worker s) ++ batchedAttestations s ++ batchedAttestationsChan s.

(** ** Schedules *)

(** The steps as actions; an action that cannot be taken changes nothing. *)
Inductive Action :=
| Send (c : nat)
| Subscribe (c : nat)
| Receive
| Tick
| Write (io : option error)
| Notify.

Definition perform (x : config) (a : Action) : config :=
  let '(s, cs) := x in
  match a with
  | Send c =>
      match cs !! c with
      | Some (Calling r) =>
          if decide (length (batchedAttestationsChan s) < attestationBatchCapacity)%nat
          then (chanSend s r, <[c := Sent r]> cs) else x
      | _ => x
      end
  | Subscribe c => match cs !! c with Some (Sent r) => (feedSubscribe s c, <[c := Waiting r]> cs) | _ => x end
  | Receive =>
      match worker s, batchedAttestationsChan s with Selecting, _ :: _ => (batchReceive s, cs) | _, _ => x end
  | Tick => match worker s with Selecting => (batchTick s, cs) | _ => x end
  | Write io => match worker s with Writing _ => (flushWrite io s, cs) | _ => x end
  | Notify =>
      match worker s with Notifying _ => ((flushNotify s).1, foldl tell cs (flushNotify s).2) | _ => x end
  end.

Definition performAll (x : config) (acts : list Action) : config := foldl perform x acts.

Lemma perform_step x a : perform x a = x ∨ batchStep x (perform x a).
Proof.
  destruct x as [s cs], a as [c|c| | |io|]; cbn [perform].
  - destruct (cs !! c) as [[]|] eqn:E; try by left. case_decide; [right; by apply step_send|by left].
  - destruct (cs !! c) as [[]|] eqn:E; try by left. right. by apply step_subscribe.
  - destruct (worker s) eqn:E; try by left. destruct (batchedAttestationsChan s) eqn:E'; [by left|right].
    apply step_receive; [done|by rewrite E'].
  - destruct (worker s) eqn:E; try by left. right. by apply step_tick.
  - destruct (worker s) eqn:E; try by left. right. by eapply step_write.
  - destruct (worker s) eqn:E; try by left. right. by eapply step_notify.
Qed.

Lemma performAll_steps x acts : rtc batchStep x (performAll x acts).
Proof.
  revert x. induction acts as [|a acts IH]; intros x; [apply rtc_refl|]. cbn [performAll foldl].
  destruct (perform_step x a) as [E|Hs]; [rewrite E; apply IH|]. eapply rtc_l; [exact Hs|]. apply IH.
Qed.

(** The call of [me]: it sends the record, subscribes, and waits.  [untilSubscribed] is
    what the worker and the other callers do between the send and the subscription,
    [untilTold] what they do afterwards.  [OutOfFuel] is a call that still waits, or
    that the full channel still blocks. *)
Definition SaveAttestationForPubKey (untilSubscribed untilTold : list Action) (me : nat) (x : config)
    (pubKey signingRoot : bytes) (att : IndexedAttestation) : config * outcome unit :=
  let r := mkAttRecord pubKey (SourceEpoch att) (TargetEpoch att) signingRoot in
  let x := performAll (x.1, <[me := Calling r]> x.2) (Send me :: untilSubscribed ++ Subscribe me :: untilTold) in
  (x, match x.2 !! me with
      | Some (Returned _ None) => Ret tt
      | Some (Returned _ (Some err)) => Err err
      | _ => OutOfFuel
      end).

(** The schedule in which the record is written at once, with the caller subscribed. *)
Definition promptly (io : option error) : list Action := [Receive; Tick; Write io; Notify].

(** ** The interface *)

Definition errLowestSource : error := "could not sign attestation lower than lowest source epoch in db".
Definition errLowestTarget : error :=
  "could not sign attestation lower than or equal to lowest target epoch in db if signing roots differ".
Definition errSaveAttestation : error := "could not save attestation history for validator public key".

(** The conditions before the attestation is saved.  Each read is a transaction of its
    own: [d1] to [d4] are the database at the four reads. *)
Definition attestationConditionsRead (d1 d2 d3 d4 : DB) (att : IndexedAttestation) (pubKey signingRoot : bytes) : outcome unit :=
  let lowestSource := LowestSignedSourceEpoch d1 pubKey in
  if match lowestSource with Some l => SourceEpoch att <? l | None => false end then Err errLowestSource
  else
    let existingSigningRoot := SigningRootAtTargetEpoch d2 pubKey (TargetEpoch att) in
    let signingRootsDiffer := SigningRootsDiffer existingSigningRoot signingRoot in
    let lowestTarget := LowestSignedTargetEpoch d3 pubKey in
    if signingRootsDiffer && match lowestTarget with Some l => TargetEpoch att <=? l | None => false end
    then Err errLowestTarget
    else
      res <-? CheckSlashableAttestation d4 pubKey signingRoot att;;
      match res with
      | (_, Some err) => Err (wrapErr err failedAttLocalProtectionErr)
      | (_, None) => Ret tt
      end.

(** The conditions on a database that nobody writes to meanwhile. *)
Definition attestationConditions (d : DB) := attestationConditionsRead d d d d.

(** The whole check: [d1] to [d3] are the database at the first three reads, [x] is the
    store and the calls at the last one. *)
Definition kvSlashableAttestationCheck (d1 d2 d3 : DB) (untilSubscribed untilTold : list Action) (me : nat) (x : config)
    (att : IndexedAttestation) (pubKey signingRoot : bytes) : config * outcome unit :=
  match attestationConditionsRead d1 d2 d3 (db x.1) att pubKey signingRoot with
  | Ret _ =>
      let '(x, res) := SaveAttestationForPubKey untilSubscribed untilTold me x pubKey signingRoot att in
      (x, omap_err (λ err, wrapErr err errSaveAttestation) res)
  | failed => (x, failed)
  end.

Definition setDB (s : KVStore) (d : DB) : KVStore :=
  mkStore d (batchedAttestations s) (batchedAttestationsChan s) (batchAttestationsFlushedFeed s) (worker s).

Definition errSaveProposal : error := "failed to save updated proposal history".

Definition kvSlashableProposalCheck (io : option error) (s : KVStore) (pubKey : bytes) (slot : Z) (signingRoot : bytes)
    : KVStore * outcome unit :=
  match proposalConditions (db s) pubKey slot signingRoot with
  | Some err => (s, Err err)
  | None =>
      match io with
      | Some err => (s, Err (wrapErr err errSaveProposal))
      | None => (setDB s (SaveProposalHistoryForSlot (db s) pubKey slot signingRoot), Ret tt)
      end
  end.

Definition kvUpdatePublicKeysBuckets (io : option error) (s : KVStore) (pubKeys : list bytes) : KVStore * outcome unit :=
  match io with
  | Some err => (s, Err err)
  | None => (setDB s (createProposalBuckets (db s) pubKeys), Ret tt)
  end.

(** ** The client *)

(** The calls and the store, and the blocks whose check was answered without an error. *)
Record KVClient := mkKVClient {
  kvCalls : config;
  kvBlocks : list (bytes * Proposal)
}.

Definition kvStart (d : DB) : KVClient := mkKVClient (openStore d, ∅) [].

Definition underWay (x : Caller) : bool := match x with Returned _ _ => false | _ => true end.

(** [SubmitAttestation] holds a lock for the role and the key. *)
Definition attesterLockFree (cs : gmap nat Caller) (pk : bytes) : Prop :=
  ∀ i x, cs !! i = Some x → underWay x = true → ARPubKey (callerRecord x) ≠ pk.

(** A call that the end of the process cuts off. *)
Definition interrupt (x : Caller) : Caller :=
  match x with Returned _ _ => x | _ => Returned (callerRecord x) (Some "interrupted"%string) end.

Inductive kvEvent :=
| EvAttest (r : AttestationRecord)
| EvBatch
| EvPropose (pk : bytes) (slot : Z)
| EvAddKeys
| EvRestart (pruning : bool).

(** An attestation's check begins with its conditions; a call whose conditions hold goes
    on with the steps of [batchStep].  Proposals of all keys exclude each other (the lock
    of [ProposeBlock] has the role as one of its keys) and share no bucket with
    attestations, so theirs is one step.  A restart keeps the buckets only. *)
Inductive kvStep : kvEvent → KVClient → KVClient → Prop :=
| kv_attest s cs bs i r d1 d2 d3 :
    cs !! i = None → RecordValid r → attesterLockFree cs (ARPubKey r) →
    attestationConditionsRead d1 d2 d3 (db s) (recordAtt r) (ARPubKey r) (ARSigningRoot r) = Ret tt →
    kvStep (EvAttest r) (mkKVClient (s, cs) bs) (mkKVClient (s, <[i := Calling r]> cs) bs)
| kv_refuse s cs bs i r d1 d2 d3 err :
    cs !! i = None → RecordValid r → attesterLockFree cs (ARPubKey r) →
    attestationConditionsRead d1 d2 d3 (db s) (recordAtt r) (ARPubKey r) (ARSigningRoot r) = Err err →
    kvStep (EvAttest r) (mkKVClient (s, cs) bs) (mkKVClient (s, <[i := Returned r (Some err)]> cs) bs)
| kv_batch x x' bs :
    batchStep x x' → kvStep EvBatch (mkKVClient x bs) (mkKVClient x' bs)
| kv_propose s s' cs bs io pk slot root res :
    validProposal slot root → kvSlashableProposalCheck io s pk slot root = (s', res) →
    kvStep (EvPropose pk slot) (mkKVClient (s, cs) bs)
      (mkKVClient (s', cs) (match res with Ret _ => (pk, mkProposal slot root) :: bs | _ => bs end))
| kv_addKeys s cs bs io pks :
    kvStep EvAddKeys (mkKVClient (s, cs) bs) (mkKVClient ((kvUpdatePublicKeysBuckets io s pks).1, cs) bs)
| kv_restart s cs bs pks pruning :
    kvStep (EvRestart pruning) (mkKVClient (s, cs) bs)
      (mkKVClient (openStore (NewKVStore (db s) pks pruning), interrupt <$> cs) bs).

(** Calls answered without an error whose records are saved: none of them is on its way. *)
Definition answersSaved (x : config) (pk : bytes) : Prop :=
  ∀ i r, x.2 !! i = Some (Returned r None) → ARPubKey r = pk → r ∉ pending x.1.

(** The condition: when a key attests again, or the process ends, the worker has caught up
    with the calls it has answered; the proposals of a key lie within one weak
    subjectivity period; a start does not prune. *)
Definition kvInTime (c : KVClient) (e : kvEvent) : Prop :=
  match e with
  | EvAttest r => answersSaved (kvCalls c) (ARPubKey r)
  | EvPropose pk slot => ∀ p, p ∈ kvBlocks c → p.1 = pk → withinWeakSubjectivity (PSlot p.2) slot
  | EvRestart pruning => pruning = false ∧ ∀ pk, answersSaved (kvCalls c) pk
  | _ => True
  end.

#[global] Instance KV_protection : SlashingProtection KVClient := {|
  Event := kvEvent;
  dbStep := kvStep;
  inTime := kvInTime;
  attPublished c r := ∃ i, (kvCalls c).2 !! i = Some (Returned r None);
  blockPublished c p := p ∈ kvBlocks c
|}.
End batch.
