(* ===== verification/ProtectionKVLaws.v ===== *)
(** * Slashing protection: the complete database keeps the contract

    [KVClient] of [ProtectionBatch.v] implements [SlashingProtectionLaws].  The records on
    their way to the database, in the worker's hands, in the queue and in the channel, are
    one list in the order in which they will be written ([pending]), whether writes fail
    or not.  The invariant is about the database and that list: the record of a call is
    stored, or will be, and no record that is written later replaces its signing root
    ([settled]). *)

From S2P Require Import Prelude MathHelper Primitives SlotTime Bytes Protection ProtectionKV ProtectionView ProtectionCheck ProtectionBatch.

Section laws.
Context `{Bolt} `{BeaconChainConfig}.

Lemma foldl_Append q rs : foldl QueueAppend q rs = q ++ rs.
Proof.
  revert q. induction rs as [|r rs IH]; intros q; cbn; [by rewrite app_nil_r|].
  rewrite IH. unfold QueueAppend. by rewrite <- app_assoc.
Qed.

Lemma RecordValid_typed r : RecordValid r → RecordTyped r.
Proof. intros (? & ? & ?). split_and!; [done..|]. by right. Qed.

Definition isRecorded (d : DB) (r : AttestationRecord) : Prop :=
  rootAt d (ARPubKey r) (ARTarget r) = Some (ARSigningRoot r) ∧
  ARTarget r ∈ targetsOf d (ARPubKey r) (ARSource r) ∧
  ARSource r ∈ sourcesOf d (ARPubKey r) (ARTarget r).

(** The attestations and the bounds in the database are among these. *)
Record AttsFrom (d : DB) (atts : list AttestationRecord) : Prop := {
  from_targets : ∀ pk s t, is_u64 s → t ∈ targetsOf d pk s → ∃ r, r ∈ atts ∧ ARPubKey r = pk ∧ ARSource r = s;
  from_sources : ∀ pk s t, is_u64 t → s ∈ sourcesOf d pk t → ∃ r, r ∈ atts ∧ ARPubKey r = pk ∧ ARTarget r = t;
  from_roots : ∀ pk t, is_u64 t → is_Some (rootAt d pk t) → ∃ r, r ∈ atts ∧ ARPubKey r = pk ∧ ARTarget r = t;
  from_lowestSource : ∀ pk l, LowestSignedSourceEpoch d pk = Some l →
    ∃ r, r ∈ atts ∧ ARPubKey r = pk ∧ ARSource r = l;
  from_lowestTarget : ∀ pk l, LowestSignedTargetEpoch d pk = Some l →
    ∃ r, r ∈ atts ∧ ARPubKey r = pk ∧ ARTarget r = l
}.

Record PropsFrom (d : DB) (props : list (bytes * Proposal)) : Prop := {
  from_blocks : ∀ pk slot, 0 ≤ slot < two63 → is_Some (blockAt d pk slot) →
    ∃ p, p ∈ props ∧ p.1 = pk ∧ PSlot p.2 = slot;
  from_lowestBlock : ∀ pk l, LowestSignedProposal d pk = Some l →
    ∃ p, p ∈ props ∧ p.1 = pk ∧ PSlot p.2 = l
}.

(** ** Saving records *)

Lemma saveRecords_typed d rs : DBTyped d → Forall RecordTyped rs → DBTyped (saveAttestationRecords d rs).
Proof.
  intros Hd Hrs. revert d Hd. induction Hrs as [|r rs Hr _ IH]; intros d Hd; [done|].
  by apply IH, saveAttestationRecord_typed.
Qed.

Lemma saveRecords_proposals d rs :
  historicProposalsBucket (saveAttestationRecords d rs) = historicProposalsBucket d ∧
  lowestSignedProposalsBucket (saveAttestationRecords d rs) = lowestSignedProposalsBucket d.
Proof.
  revert d. induction rs as [|r rs IH]; intros d; [done|].
  change (saveAttestationRecords d (r :: rs)) with (saveAttestationRecords (saveAttestationRecord d r) rs).
  by destruct (IH (saveAttestationRecord d r)) as [-> ->].
Qed.

Lemma recorded_new d r : DBTyped d → RecordTyped r → isRecorded (saveAttestationRecord d r) r.
Proof.
  intros Hd Hr. destruct Hr as (Hs & Ht & Hrt). assert (RecordTyped r) as Hr by done. unfold isRecorded.
  rewrite rootAt_save, targetsOf_save, sourcesOf_save by done. rewrite !decide_True by done.
  rewrite !elem_of_app, !list_elem_of_singleton. tauto.
Qed.

(** Two records with different roots for one target of a key. *)
Definition clashes (r q : AttestationRecord) : Prop :=
  ARPubKey q = ARPubKey r ∧ ARTarget q = ARTarget r ∧ ARSigningRoot q ≠ ARSigningRoot r.

(** Records that do not clash with a stored one keep it. *)
Lemma recorded_saveRecords d rs r' :
  DBTyped d → Forall RecordTyped rs → RecordTyped r' →
  (∀ q, q ∈ rs → ¬ clashes r' q) → isRecorded d r' → isRecorded (saveAttestationRecords d rs) r'.
Proof.
  intros Hd Hrs Hr' Hcl Hrec. assert (Hrt : is_u64 (ARTarget r')) by apply Hr'.
  revert d Hd Hrec. induction Hrs as [|r rs Hr _ IH]; intros d Hd Hrec; [done|].
  apply IH; [set_solver|by apply saveAttestationRecord_typed|].
  destruct Hrec as (Hroot & Hts & Hss). unfold isRecorded. destruct Hr' as (Hs' & _ & _).
  rewrite rootAt_save, targetsOf_save, sourcesOf_save by done. split_and!.
  - case_decide as Hc; [|done]. f_equal. destruct Hc.
    destruct (decide (ARSigningRoot r = ARSigningRoot r')); [done|]. exfalso. apply (Hcl r); [set_solver|]. by split_and!.
  - case_decide; [apply elem_of_app; by left|done].
  - case_decide; [apply elem_of_app; by left|done].
Qed.

(** Whatever is recorded for a key after a batch was there or is in the batch. *)
Lemma saveRecords_rel d rs (P : DB → Prop) :
  DBTyped d → Forall RecordTyped rs → P d →
  (∀ d r, DBTyped d → r ∈ rs → RecordTyped r → P d → P (saveAttestationRecord d r)) →
  P (saveAttestationRecords d rs).
Proof.
  intros Hd Hrs HP Hstep. revert d Hd HP.
  induction Hrs as [|r rs Hr _ IH]; intros d Hd HP; [done|].
  apply IH; [set_solver|by apply saveAttestationRecord_typed|apply Hstep; set_solver].
Qed.

(** ** Settled records *)

(** Stored, or on its way, with nothing behind it that would replace its root. *)
Definition settled (d : DB) (l : list AttestationRecord) (r : AttestationRecord) : Prop :=
  (isRecorded d r ∧ ∀ q, q ∈ l → ¬ clashes r q) ∨
  (∃ l1 l2, l = l1 ++ r :: l2 ∧ ∀ q, q ∈ l2 → ¬ clashes r q).

Lemma settled_stored d l r : settled d l r → r ∉ l → isRecorded d r.
Proof. intros [[? _]|(l1 & l2 & -> & _)]; [done|set_solver]. Qed.

Lemma settled_sent d l r : settled d (l ++ [r]) r.
Proof. right. exists l, []. split; [done|set_solver]. Qed.

Lemma settled_snoc d l r q : settled d l r → ¬ clashes r q → settled d (l ++ [q]) r.
Proof.
  intros [[Hrec Hl]|(l1 & l2 & -> & Hl)] Hq; [left; split; [done|set_solver]|right].
  exists l1, (l2 ++ [q]). rewrite <- app_assoc. cbn. split; [done|set_solver].
Qed.

Lemma settled_write d l1 l2 r :
  DBTyped d → Forall RecordTyped l1 → RecordTyped r →
  settled d (l1 ++ l2) r → settled (saveAttestationRecords d l1) l2 r.
Proof.
  intros Hd Hl1 Hr [[Hrec Hl]|(a & b & E & Hl)].
  { left. split; [|set_solver]. apply recorded_saveRecords; [done..| |done]. set_solver. }
  apply app_eq_inv in E as [(k & -> & E)|(k & -> & ->)]; [|right; by exists k, b].
  destruct k as [|r' k]; cbn in E.
  { subst l2. rewrite app_nil_r. right. by exists [], b. }
  injection E as <- ->. left. apply Forall_app in Hl1 as [Ha [_ Hk]%Forall_cons].
  split; [|set_solver]. unfold saveAttestationRecords. rewrite foldl_app. cbn [foldl].
  apply recorded_saveRecords; [|done|done|set_solver|].
  - apply saveAttestationRecord_typed; [by apply (saveRecords_typed d a)|done].
  - apply recorded_new; [by apply (saveRecords_typed d a)|done].
Qed.

Lemma settled_frame d d' l r : pubKeysBucket d' = pubKeysBucket d → settled d l r → settled d' l r.
Proof.
  intros E [[Hrec Hl]|?]; [left|by right]. split; [|done].
  unfold isRecorded, rootAt, targetsOf, sourcesOf, pkb in *. by rewrite E.
Qed.

(** ** Attestations *)

Lemma attestationConditions_view d1 d2 d3 d att pk root :
  DBTyped d → 
  attestationConditionsRead d1 d2 d3 d att pk root = Ret tt → checkMeans d pk root att NotSlashable.
Proof.
  intros Hd. unfold attestationConditionsRead.
  destruct (match LowestSignedSourceEpoch d1 pk with Some l => _ | None => _ end); [done|].
  destruct (_ && _); [done|].
  destruct (CheckSlashableAttestation_view d pk root att Hd) as (kind & e & -> & He & Hm). cbn [obind].
  destruct e as [e|]; [done|]. intros _. by assert (kind = NotSlashable) as -> by (by apply He).
Qed.

Lemma not_slashable_recorded d att pk root r :
  checkMeans d pk root att NotSlashable → RecordTyped r → isRecorded d r →
  ¬ slashableAttestations r (mkAttRecord pk (SourceEpoch att) (TargetEpoch att) root).
Proof.
  intros (Hm1 & Hm2 & Hm3) (Hs & Ht & _) (Hroot & Hts & Hss) (Hpk & Hsl). cbn in Hpk. subst pk.
  destruct Hsl as [[Heq Hne]|[Hsur|Hsur]]; cbn in *.
  - rewrite Heq in Hroot. by destruct (Hm1 _ Hroot) as [_ ?].
  - apply Is_true_true in Hsur. specialize (Hm3 _ _ Ht Hss). destruct att. unfold recordAtt in Hsur. cbn in *. congruence.
  - apply Is_true_true in Hsur. specialize (Hm2 _ _ Hs Hts). destruct att. unfold recordAtt in Hsur. cbn in *. congruence.
Qed.

Lemma clashes_slashable r q : clashes r q → slashableAttestations r q.
Proof. intros (H1 & H2 & H3). split; [done|]. left. split; [done|]. intros E. by apply H3. Qed.

(** ** Proposals *)

Lemma blockAt_typed d pk slot v : ProposalsTyped d → blockAt d pk slot = Some v → IsRootValue v.
Proof.
  intros Hd. unfold blockAt. destruct (Get _ pk) as [b|] eqn:E; [|done]. intros Hg.
  apply (Hd _ _ E _ _ Hg).
Qed.

Lemma SlotBucket_typed b : SlotBucket b → TypedBucket IsRootValue b.
Proof.
  intros Hb k v Hg. destruct (Hb _ _ Hg) as [(s & Hs & ->) Hv]. split; [|done].
  exists s. split; [by apply two63_u64|done].
Qed.

(** ** The database *)

Definition DBOk (d : DB) : Prop := DBTyped d ∧ ProposalsTyped d.

Lemma emptyDB_ok : DBOk emptyDB.
Proof. split; [apply emptyDB_typed|]. intros pk b Hg. cbn in Hg. by rewrite Get_empty in Hg. Qed.

Lemma saveRecords_ok d rs : DBOk d → Forall RecordTyped rs → DBOk (saveAttestationRecords d rs).
Proof.
  intros [Hd Hp] Hrs. split; [by apply saveRecords_typed|].
  intros pk. destruct (saveRecords_proposals d rs) as [-> _]. apply Hp.
Qed.

Lemma proposal_saved_ok d pk slot root :
  DBOk d → validProposal slot root → DBOk (SaveProposalHistoryForSlot d pk slot root).
Proof.
  intros [[Ht1 Ht2 Ht3 Ht4 Ht5 Ht6] Hp0] (Hslot & Hlen).
  assert (Hp : ProposalsTyped (SaveProposalHistoryForSlot d pk slot root)).
  { apply SaveProposalHistoryForSlot_typed; [done|done|by right]. }
  split; [|done]. split; [done| |done|done| |].
  - intros pk' b Hg. by apply SlotBucket_typed, (Hp pk').
  - apply lowerBound_typed; [done|by apply two63_u64].
  - apply upperBound_typed; [done|by apply two63_u64].
Qed.

Lemma createProposalBuckets_Get d pks pk b :
  Get (historicProposalsBucket (createProposalBuckets d pks)) pk = Some b →
  Get (historicProposalsBucket d) pk = Some b ∨ b = emptyBucket.
Proof.
  cbn. generalize (historicProposalsBucket d). induction pks as [|pk' pks IH]; intros B; cbn; [by left|].
  intros [Hg| ->]%IH; [|by right]. rewrite Get_Create in Hg. case_decide; [subst|by left].
  destruct (Get B pk); naive_solver.
Qed.

Lemma createProposalBuckets_mono d pks pk b :
  Get (historicProposalsBucket d) pk = Some b →
  Get (historicProposalsBucket (createProposalBuckets d pks)) pk = Some b.
Proof.
  cbn. generalize (historicProposalsBucket d). induction pks as [|pk' pks IH]; intros B Hg; cbn; [done|].
  apply IH. rewrite Get_Create. case_decide; [subst; by rewrite Hg|done].
Qed.

Lemma createProposalBuckets_ok d pks : DBOk d → DBOk (createProposalBuckets d pks).
Proof.
  intros [Hd Hp0]. assert (Hp : ProposalsTyped (createProposalBuckets d pks)).
  { intros pk b [Hg| ->]%createProposalBuckets_Get; [by eapply Hp0|apply SlotBucket_empty]. }
  split; [|done]. destruct Hd. split; try done.
  intros pk b Hg. by apply SlotBucket_typed, (Hp pk).
Qed.

(** *** Blocks on record *)

Definition blockStored (d : DB) (p : bytes * Proposal) : Prop :=
  validProposal (PSlot p.2) (PSigningRoot p.2) ∧ blockAt d p.1 (PSlot p.2) = Some (PSigningRoot p.2).

Lemma blockStored_apart d p p' : blockStored d p → blockStored d p' → ¬ slashableProposals p p'.
Proof. intros [_ E] [_ E'] (Hpk & Hs & Hr). rewrite Hpk, Hs, E' in E. apply Hr. by injection E. Qed.

Lemma blockStored_save d pk slot root p :
  DBOk d → validProposal slot root → proposalConditions d pk slot root = None →
  (p = (pk, mkProposal slot root) ∨ blockStored d p ∧ (p.1 = pk → withinWeakSubjectivity (PSlot p.2) slot)) →
  blockStored (SaveProposalHistoryForSlot d pk slot root) p.
Proof.
  intros [Hd Hp0] [Hslot Hlen] Ec Hor.
  apply proposalConditions_pass in Ec as [Hsame _]; [|intros v; by apply blockAt_typed|done].
  assert (IsRootValue root) by (by right). destruct Hor as [->|[[[Hps Hpr] Hb] Hwin]].
  { cbn. split; [done|]. cbn. rewrite blockAt_save by done. rewrite decide_True by done.
    rewrite tooOld_self by done. by rewrite decide_True. }
  split; [done|]. rewrite blockAt_save by done. destruct (decide (pk = p.1)) as [Heq|]; [|done].
  rewrite withinWeakSubjectivity_tooOld by (done || (apply Hwin; by symmetry)).
  destruct (decide (slot = PSlot p.2)) as [Hs|]; [|done]. f_equal. symmetry. apply Hsame. by rewrite Heq, Hs.
Qed.

Lemma blockStored_records d rs p : blockStored d p → blockStored (saveAttestationRecords d rs) p.
Proof. intros [Hv Hb]. split; [done|]. unfold blockAt in *. by destruct (saveRecords_proposals d rs) as [-> _]. Qed.

Lemma blockStored_buckets d pks p : blockStored d p → blockStored (createProposalBuckets d pks) p.
Proof.
  intros [Hv Hb]. split; [done|]. unfold blockAt in *.
  destruct (Get (historicProposalsBucket d) p.1) as [b|] eqn:E; [|done].
  by rewrite (createProposalBuckets_mono _ _ _ _ E).
Qed.

(** ** What the steps of the batched writes do *)

Lemma tell_callers cs ans i x :
  foldl tell cs ans !! i = Some x →
  cs !! i = Some x ∨ ∃ r err, cs !! i = Some (Waiting r) ∧ x = Returned r err.
Proof.
  revert cs. induction ans as [|[j err] ans IH]; intros cs; cbn [foldl]; [by left|].
  intros [Hy|(r & err' & Hy & ->)]%IH; unfold tell in Hy; cbn in Hy;
    (destruct (cs !! j) as [[]|] eqn:Ej; try naive_solver);
    rewrite lookup_insert in Hy; case_decide; naive_solver.
Qed.

(** A call whose record was sent, and that was not answered with an error. *)
Definition entered (x : Caller) : bool :=
  match x with Sent _ | Waiting _ | Returned _ None => true | _ => false end.

(** A call that was not answered with an error. *)
Definition live (x : Caller) : bool := match x with Returned _ (Some _) => false | _ => true end.

(** No call is new, and none comes back to life. *)
Definition callersKept (cs cs' : gmap nat Caller) : Prop :=
  ∀ i y, cs' !! i = Some y → ∃ x, cs !! i = Some x ∧ callerRecord x = callerRecord y ∧
    (entered y = true → entered x = true) ∧ (live y = true → live x = true).

Lemma callersKept_refl cs : callersKept cs cs.
Proof. intros i y Hy. by exists y. Qed.

Lemma callersKept_tell cs ans : callersKept cs (foldl tell cs ans).
Proof.
  intros i y [Hy|(r & err & Hy & ->)]%tell_callers; eexists; (split; [exact Hy|done]).
Qed.

(** The queue is empty while a batch is being written: nothing is received then. *)
Definition queueTaken (s : KVStore) : Prop := ∀ rs, worker s = Writing rs → batchedAttestations s = [].

Lemma startFlush_effect s :
  worker s = Selecting → queueTaken (startFlush s) ∧ db (startFlush s) = db s ∧ pending (startFlush s) = pending s.
Proof. intros Hw. unfold queueTaken, startFlush, pending. cbn. by rewrite Hw. Qed.

Lemma batchReceive_effect s :
  worker s = Selecting →
  queueTaken (batchReceive s) ∧ db (batchReceive s) = db s ∧ pending (batchReceive s) = pending s.
Proof.
  intros Hw. unfold batchReceive. destruct (batchedAttestationsChan s) as [|v rest] eqn:E.
  { split; [|done]. intros rs. by rewrite Hw. }
  unfold batchedAttestationsFlushInProgress. cbn [worker]. rewrite Hw. cbn [negb].
  assert (pending (mkStore (db s) (QueueAppend (batchedAttestations s) v) rest
    (batchAttestationsFlushedFeed s) Selecting) = pending s) as Hp.
  { unfold pending, QueueAppend. cbn. rewrite Hw, E. cbn. by rewrite <- app_assoc. }
  destruct (attestationBatchCapacity <=? _)%nat; [|done].
  destruct (startFlush_effect (mkStore (db s) (QueueAppend (batchedAttestations s) v) rest
    (batchAttestationsFlushedFeed s) Selecting)) as (H1 & H2 & H3); [done|]. by rewrite H2, H3, Hp.
Qed.

Lemma batchTick_effect s :
  worker s = Selecting → queueTaken (batchTick s) ∧ db (batchTick s) = db s ∧ pending (batchTick s) = pending s.
Proof.
  intros Hw. unfold batchTick, batchedAttestationsFlushInProgress. rewrite Hw. cbn [negb].
  case_if; [by apply startFlush_effect|]. split; [|done]. intros rs. by rewrite Hw.
Qed.

(** A step sends a record, or writes records from the front of those on their way
    (none, most of the time). *)
Lemma batchStep_effect x x' :
  batchStep x x' → queueTaken x.1 →
  queueTaken x'.1 ∧
  ((∃ c r, x.2 !! c = Some (Calling r) ∧ x'.2 = <[c := Sent r]> x.2 ∧
           db x'.1 = db x.1 ∧ pending x'.1 = pending x.1 ++ [r]) ∨
   (∃ rs, pending x.1 = rs ++ pending x'.1 ∧ db x'.1 = saveAttestationRecords (db x.1) rs ∧
          callersKept x.2 x'.2)).
Proof.
  intros Hstep Hq.
  destruct Hstep as [s cs i r Hi Hcap|s cs i r Hi|s cs Hw Hne|s cs Hw|s cs io rs Hw|s cs err Hw]; cbn [fst snd] in *.
  - split; [exact Hq|]. left. exists i, r. split_and!; [done..|]. unfold pending. cbn. by rewrite <- !app_assoc.
  - split; [exact Hq|]. right. exists []. split_and!; [done..|]. intros j y. rewrite lookup_insert.
    case_decide as Hj; [|intros; by exists y]. intros [= <-]. subst. by exists (Sent r).
  - destruct (batchReceive_effect s Hw) as (H1 & H2 & H3). split; [done|]. right. exists [].
    split_and!; [by rewrite H3|done|apply callersKept_refl].
  - destruct (batchTick_effect s Hw) as (H1 & H2 & H3). split; [done|]. right. exists [].
    split_and!; [by rewrite H3|done|apply callersKept_refl].
  - unfold flushWrite. rewrite Hw. split; [by destruct io; intros rs'|]. right.
    unfold pending. rewrite Hw, (Hq _ Hw). destruct io as [err|]; [exists []|exists rs]; cbn;
      rewrite ?foldl_Append; (split_and!; [done..|apply callersKept_refl]).
  - unfold flushNotify. rewrite Hw. split; [by intros rs'|]. right. exists [].
    unfold pending. rewrite Hw. cbn. split_and!; [done..|apply callersKept_tell].
Qed.

(** ** The invariant *)

Record KVProtected (c : KVClient) : Prop := {
  kvp_db : DBOk (db (kvCalls c).1);
  kvp_queue : queueTaken (kvCalls c).1;
  kvp_pending : Forall RecordValid (pending (kvCalls c).1);
  kvp_callers : ∀ i x, (kvCalls c).2 !! i = Some x → RecordValid (callerRecord x);
  kvp_settled : ∀ i x, (kvCalls c).2 !! i = Some x → entered x = true →
    settled (db (kvCalls c).1) (pending (kvCalls c).1) (callerRecord x);
  kvp_apart : ∀ i j x y, i ≠ j → (kvCalls c).2 !! i = Some x → (kvCalls c).2 !! j = Some y →
    live x = true → live y = true → ¬ slashableAttestations (callerRecord x) (callerRecord y);
  kvp_blocks : ∀ p, p ∈ kvBlocks c → blockStored (db (kvCalls c).1) p
}.

Lemma pending_typed c : KVProtected c → Forall RecordTyped (pending (kvCalls c).1).
Proof. intros Hc. eapply Forall_impl; [apply Hc|]. apply RecordValid_typed. Qed.

Lemma kvStart_protected d : DBOk d → KVProtected (kvStart d).
Proof.
  intros Hd. split; cbn; [done|by intros rs|constructor|..]; intros *; rewrite ?lookup_empty; [done..|set_solver].
Qed.

(** A step of the batched writes. *)
Lemma protected_batch x x' bs : batchStep x x' → KVProtected (mkKVClient x bs) → KVProtected (mkKVClient x' bs).
Proof.
  intros Hstep Hc. pose proof (pending_typed _ Hc) as Hpt. destruct Hc as [Hd Hq Hp Hr Hs Ha Hb]. cbn [kvCalls kvBlocks] in *.
  destruct (batchStep_effect x x' Hstep Hq) as [Hq' [(c & r & Hcall & Ecs & Ed & Ep)|(rs & Ep & Ed & Hk)]].
  - pose proof (Hr _ _ Hcall) as Hrv. cbn in Hrv. split; cbn [kvCalls kvBlocks]; rewrite ?Ecs, ?Ed, ?Ep; [done|done| | | | |done].
    + apply Forall_app. by split; [|apply Forall_singleton].
    + intros i y. rewrite lookup_insert. case_decide; [by intros [= <-]|apply Hr].
    + intros i y. rewrite lookup_insert. case_decide as Hi; intros Hy Hen.
      { injection Hy as <-. apply settled_sent. }
      apply settled_snoc; [by eapply Hs|]. intros Hcl%clashes_slashable.
      apply (Ha i c y (Calling r)); [done|done|done| |done|done]. by destruct y as [| | |? []].
    + intros i j y z Hij. rewrite !lookup_insert. case_decide; case_decide; subst; [done|..].
      * intros [= <-] Hz _ Hlz. by apply (Ha i j (Calling r) z).
      * intros Hy [= <-] Hly _. by apply (Ha i j y (Calling r)).
      * intros. by apply (Ha i j y z).
  - rewrite Ep in Hpt, Hp. apply Forall_app in Hpt as [Hrs Hpt]. apply Forall_app in Hp as [_ Hp].
    split; cbn [kvCalls kvBlocks]; rewrite ?Ed; [by apply saveRecords_ok|done|done| | | |].
    + intros i y (x0 & Hx & <- & _)%Hk. by eapply Hr.
    + intros i y Hy Hen. destruct (Hk i y Hy) as (x0 & Hx & <- & He & _).
      apply settled_write; [apply Hd|done|by eapply RecordValid_typed, Hr|]. rewrite <- Ep. apply (Hs i); tauto.
    + intros i j y z Hij (y0 & Hy & <- & _ & Hly)%Hk (z0 & Hz & <- & _ & Hlz)%Hk Hy' Hz'.
      apply (Ha i j); [done|done|done|tauto..].
    + intros p Hp'. apply blockStored_records. by apply Hb.
Qed.

(** A call that passes its conditions. *)
Lemma protected_attest s cs bs i r d1 d2 d3 :
  cs !! i = None → RecordValid r → attesterLockFree cs (ARPubKey r) →
  attestationConditionsRead d1 d2 d3 (db s) (recordAtt r) (ARPubKey r) (ARSigningRoot r) = Ret tt →
  answersSaved (s, cs) (ARPubKey r) →
  KVProtected (mkKVClient (s, cs) bs) → KVProtected (mkKVClient (s, <[i := Calling r]> cs) bs).
Proof.
  intros Hi Hv Hlock Hcond Hsaved [Hd Hq Hp Hr Hs Ha Hb]. cbn [kvCalls kvBlocks fst snd] in *.
  pose proof (attestationConditions_view _ _ _ _ _ _ _ (proj1 Hd) Hcond) as Hm.
  assert (Hno : ∀ j x, cs !! j = Some x → live x = true → ¬ slashableAttestations (callerRecord x) r).
  { intros j x Hx Hlive Hsl. pose proof (proj1 Hsl) as Hpk.
    destruct (underWay x) eqn:Hu; [by apply (Hlock j x)|]. destruct x as [| | |r' [err|]]; [done..|].
    assert (isRecorded (db s) r') as Hrec.
    { apply (settled_stored _ (pending s)); [by apply (Hs j (Returned r' None))|]. by apply (Hsaved j r'). }
    apply (not_slashable_recorded (db s) (recordAtt r) (ARPubKey r) (ARSigningRoot r) r'); [done| |done|by destruct r].
    by apply RecordValid_typed, (Hr j (Returned r' None)). }
  split; cbn [kvCalls kvBlocks fst snd]; [done|done|done| | | |done].
  - intros j x. rewrite lookup_insert. case_decide; [by intros [= <-]|apply Hr].
  - intros j x. rewrite lookup_insert. case_decide; [by intros [= <-]|apply Hs].
  - intros j k x y Hjk. rewrite !lookup_insert. case_decide; case_decide; subst; [done|..].
    + intros [= <-] Hy _ Hly Hsl%slashableAttestations_sym. by apply (Hno k y).
    + intros Hx [= <-] Hlx _. by apply (Hno j x).
    + intros. by apply (Ha j k).
Qed.

Lemma protected_refuse s cs bs i r err :
  RecordValid r → KVProtected (mkKVClient (s, cs) bs) →
  KVProtected (mkKVClient (s, <[i := Returned r (Some err)]> cs) bs).
Proof.
  intros Hv [Hd Hq Hp Hr Hs Ha Hb]. cbn [kvCalls kvBlocks fst snd] in *.
  split; cbn [kvCalls kvBlocks fst snd]; [done|done|done| | | |done].
  - intros j x. rewrite lookup_insert. case_decide; [by intros [= <-]|apply Hr].
  - intros j x. rewrite lookup_insert. case_decide; [by intros [= <-]|apply Hs].
  - intros j k x y Hjk. rewrite !lookup_insert. case_decide; [by intros [= <-]|]. case_decide; [by intros _ [= <-]|].
    by apply Ha.
Qed.

(** A change of the proposal buckets. *)
Lemma protected_setDB s cs bs bs' d :
  DBOk d → pubKeysBucket d = pubKeysBucket (db s) → (∀ p, p ∈ bs' → blockStored d p) →
  KVProtected (mkKVClient (s, cs) bs) → KVProtected (mkKVClient (setDB s d, cs) bs').
Proof.
  intros Hd' E Hb' [Hd Hq Hp Hr Hs Ha Hb]. split; [done..| | |]; cbn in *; [|done|done].
  intros i x Hx Hen. apply (settled_frame (db s)); [done|]. by apply (Hs i).
Qed.

Lemma protected_propose s s' cs bs io pk slot root res :
  validProposal slot root → kvSlashableProposalCheck io s pk slot root = (s', res) →
  (∀ p, p ∈ bs → p.1 = pk → withinWeakSubjectivity (PSlot p.2) slot) →
  KVProtected (mkKVClient (s, cs) bs) →
  KVProtected (mkKVClient (s', cs) (match res with Ret _ => (pk, mkProposal slot root) :: bs | _ => bs end)).
Proof.
  intros Hv Hcheck Hwin Hc. unfold kvSlashableProposalCheck in Hcheck.
  destruct (proposalConditions (db s) pk slot root) as [err|] eqn:Ec; [by injection Hcheck as <- <-|].
  destruct io as [err|]; injection Hcheck as <- <-; [done|].
  apply (protected_setDB _ _ bs); [|done| |done].
  - apply proposal_saved_ok; [apply Hc|done].
  - intros p [->|Hp]%elem_of_cons; (apply blockStored_save; [apply Hc|done|done|]).
    + by left.
    + right. split; [by apply (kvp_blocks _ Hc)|by apply Hwin].
Qed.

Lemma interrupt_live x : entered (interrupt x) = true ∨ live (interrupt x) = true → ∃ r, x = Returned r None.
Proof. destruct x as [| | |r [err|]]; cbn; naive_solver. Qed.

Lemma protected_restart s cs bs d :
  DBOk d → pubKeysBucket d = pubKeysBucket (db s) → (∀ p, p ∈ bs → blockStored d p) →
  (∀ pk, answersSaved (s, cs) pk) →
  KVProtected (mkKVClient (s, cs) bs) → KVProtected (mkKVClient (openStore d, interrupt <$> cs) bs).
Proof.
  intros Hd' E Hb' Hsaved [Hd Hq Hp Hr Hs Ha Hb]. cbn [kvCalls kvBlocks fst snd] in *.
  assert (Hin : ∀ i x, (interrupt <$> cs) !! i = Some x → ∃ y, cs !! i = Some y ∧ x = interrupt y).
  { intros i x. rewrite lookup_fmap_Some. naive_solver. }
  split; cbn [kvCalls kvBlocks fst snd openStore db]; [done|by intros rs|constructor| | | |done].
  - intros i x (y & Hy & ->)%Hin. specialize (Hr _ _ Hy). by destruct y.
  - intros i x (y & Hy & ->)%Hin Hen. destruct (interrupt_live y (or_introl Hen)) as [r ->]. cbn.
    left. split; [|set_solver]. apply (settled_stored _ []); [|set_solver]. apply (settled_frame (db s)); [done|].
    left. split; [|set_solver]. apply (settled_stored _ (pending s)); [by apply (Hs i _ Hy)|by apply (Hsaved (ARPubKey r) i r)].
  - intros i j x y Hij (x0 & Hx & ->)%Hin (y0 & Hy & ->)%Hin Hlx Hly.
    destruct (interrupt_live x0 (or_intror Hlx)) as [r ->]. destruct (interrupt_live y0 (or_intror Hly)) as [r' ->].
    by apply (Ha i j _ _ Hij Hx Hy).
Qed.

Lemma kv_protected_step e c c' : kvStep e c c' → kvInTime c e → KVProtected c → KVProtected c'.
Proof.
  destruct 1 as [| | |s s' cs bs io pk slot root res Hv Hcheck|s cs bs io pks|s cs bs pks pruning]; cbn [kvInTime kvCalls kvBlocks]; intros Hw Hc.
  - by eapply protected_attest.
  - by apply protected_refuse.
  - by eapply protected_batch.
  - by eapply protected_propose.
  - destruct io as [err|]; [done|]. apply (protected_setDB _ _ bs); [|done| |done].
    + apply createProposalBuckets_ok, Hc.
    + intros p Hp. by apply blockStored_buckets, (kvp_blocks _ Hc).
  - destruct Hw as [-> Hsaved]. destruct pks as [pks|]; (apply (protected_restart s); [..|done|done]); cbn; try done.
    + apply createProposalBuckets_ok, Hc.
    + intros p Hp. by apply blockStored_buckets, (kvp_blocks _ Hc).
    + apply Hc.
    + intros p Hp. by apply (kvp_blocks _ Hc).
Qed.

Lemma kv_protected_atts c r r' :
  KVProtected c → attPublished c r → attPublished c r' → ¬ slashableAttestations r r'.
Proof.
  intros Hc [i Hi] [j Hj]. destruct (decide (i = j)) as [->|Hij].
  - rewrite Hi in Hj. injection Hj as ->. apply slashableAttestations_irrefl.
  - by apply (kvp_apart _ Hc i j _ _ Hij Hi Hj).
Qed.

#[global] Instance KV_laws : SlashingProtectionLaws KVClient := {|
  Protected := KVProtected;
  protected_step := kv_protected_step;
  protected_atts := kv_protected_atts;
  protected_blocks c p p' Hc Hp Hp' := blockStored_apart _ _ _ (kvp_blocks _ Hc p Hp) (kvp_blocks _ Hc p' Hp')
|}.

Lemma AttsFrom_mono d A B : A ⊆ B → AttsFrom d A → AttsFrom d B.
Proof. intros Hsub [H1 H2 H3 H4 H5]. split; intros; naive_solver. Qed.

(** The lowest epoch is the old one or the new one. *)
Lemma lowered_or o e : (∃ l, o = Some l ∧ lowered o e = l) ∨ lowered o e = e.
Proof. destruct o as [l|]; cbn; [|by right]. destruct (Z.min_spec l e) as [[_ ->]|[_ ->]]; eauto. Qed.

Lemma AttsFrom_save d r A :
  DBTyped d → RecordTyped r → r ∈ A → AttsFrom d A → AttsFrom (saveAttestationRecord d r) A.
Proof.
  intros Hd Hr Hin [H1 H2 H3 H4 H5]. split.
  - intros pk s t Hs. rewrite targetsOf_save by done. case_decide as Hc; [|by apply H1].
    intros _. exists r. naive_solver.
  - intros pk s t Ht. rewrite sourcesOf_save by done. case_decide as Hc; [|by apply H2].
    intros _. exists r. naive_solver.
  - intros pk t Ht. rewrite rootAt_save by done. case_decide as Hc; [|by apply H3].
    intros _. exists r. naive_solver.
  - intros pk l. rewrite LowestSignedSourceEpoch_save by done. case_decide; [|apply H4]. intros [= <-].
    destruct (lowered_or (LowestSignedSourceEpoch d pk) (ARSource r)) as [(l & Hl & ->)| ->]; [by apply H4|eauto].
  - intros pk l. rewrite LowestSignedTargetEpoch_save by done. case_decide; [|apply H5]. intros [= <-].
    destruct (lowered_or (LowestSignedTargetEpoch d pk) (ARTarget r)) as [(l & Hl & ->)| ->]; [by apply H5|eauto].
Qed.

Lemma AttsFrom_frame d d' A :
  pubKeysBucket d' = pubKeysBucket d → lowestSignedSourceBucket d' = lowestSignedSourceBucket d →
  lowestSignedTargetBucket d' = lowestSignedTargetBucket d → AttsFrom d A → AttsFrom d' A.
Proof.
  intros E1 E2 E3 [H1 H2 H3 H4 H5]. unfold targetsOf, sourcesOf, rootAt, pkb, LowestSignedSourceEpoch, LowestSignedTargetEpoch in *.
  split; unfold targetsOf, sourcesOf, rootAt, pkb, LowestSignedSourceEpoch, LowestSignedTargetEpoch;
    rewrite ?E1, ?E2, ?E3; done.
Qed.

(** ** What the database holds was asked for *)

Definition askedAtts (cs : gmap nat Caller) : list AttestationRecord := map (callerRecord ∘ snd) (map_to_list cs).

Lemma askedAtts_elem cs r : r ∈ askedAtts cs ↔ ∃ i x, cs !! i = Some x ∧ callerRecord x = r.
Proof.
  unfold askedAtts. rewrite list_elem_of_fmap. split.
  - intros ([i x] & -> & Hx%elem_of_map_to_list). by exists i, x.
  - intros (i & x & Hx & <-). exists (i, x). split; [done|]. by apply elem_of_map_to_list.
Qed.

(** Whether a waiting call is subscribed. *)
Definition waitersSubscribed (x : config) : Prop :=
  ∀ i r, x.2 !! i = Some (Waiting r) → i ∈ batchAttestationsFlushedFeed x.1.

Record KVHolds (c : KVClient) : Prop := {
  kvh_db : DBOk (db (kvCalls c).1);
  kvh_queue : queueTaken (kvCalls c).1;
  kvh_callers : ∀ i x, (kvCalls c).2 !! i = Some x → RecordValid (callerRecord x);
  kvh_pending : pending (kvCalls c).1 ⊆ askedAtts (kvCalls c).2;
  kvh_waiting : waitersSubscribed (kvCalls c);
  kvh_atts : AttsFrom (db (kvCalls c).1) (askedAtts (kvCalls c).2);
  kvh_blocks : PropsFrom (db (kvCalls c).1) (kvBlocks c)
}.

Lemma asked_valid c r : KVHolds c → r ∈ askedAtts (kvCalls c).2 → RecordValid r.
Proof. intros Hc (i & x & Hx & <-)%askedAtts_elem. by eapply Hc. Qed.

Lemma AttsFrom_empty : AttsFrom emptyDB [].
Proof.
  split; intros pk ?; unfold targetsOf, sourcesOf, rootAt, pkb, LowestSignedSourceEpoch, LowestSignedTargetEpoch;
    cbn; rewrite Get_empty; cbn; try set_solver; intros; by destruct_or?; naive_solver.
Qed.

Lemma PropsFrom_empty : PropsFrom emptyDB [].
Proof. split; intros pk ?; unfold blockAt, LowestSignedProposal; cbn; rewrite Get_empty; [by intros _ []|done]. Qed.

Lemma kvStart_holds : KVHolds (kvStart emptyDB).
Proof.
  split; cbn; [apply emptyDB_ok|by intros rs| |set_solver| |apply AttsFrom_empty|apply PropsFrom_empty];
    intros i ?; cbn; by rewrite lookup_empty.
Qed.

Lemma tell_told l cs i r err :
  i ∈ l → cs !! i = Some (Waiting r) → foldl tell cs (map (λ c, (c, err)) l) !! i = Some (Returned r err).
Proof.
  assert (Hkeep : ∀ l cs, cs !! i = Some (Returned r err) → foldl tell cs (map (λ c, (c, err)) l) !! i = Some (Returned r err)).
  { clear. induction l as [|j l IH]; intros cs Hi; [done|]. cbn. apply IH. unfold tell. cbn.
    destruct (cs !! j) as [[]|] eqn:E; try done. rewrite lookup_insert. case_decide; [congruence|done]. }
  revert cs. induction l as [|j l IH]; intros cs Hin Hi; [set_solver|]. cbn.
  apply elem_of_cons in Hin as [->|Hin].
  - apply Hkeep. unfold tell. cbn. rewrite Hi. apply lookup_insert_eq.
  - destruct (decide (i = j)) as [->|Hne].
    + apply Hkeep. unfold tell. cbn. rewrite Hi. apply lookup_insert_eq.
    + apply IH; [done|]. unfold tell. cbn. destruct (cs !! j) as [[]|]; try done. by rewrite lookup_insert_ne.
Qed.

Lemma feed_receive s : batchAttestationsFlushedFeed (batchReceive s) = batchAttestationsFlushedFeed s.
Proof. unfold batchReceive. destruct (batchedAttestationsChan s); [done|]. case_if; [case_if|]; done. Qed.
Lemma feed_tick s : batchAttestationsFlushedFeed (batchTick s) = batchAttestationsFlushedFeed s.
Proof. unfold batchTick. case_if; [case_if|]; done. Qed.

Lemma waiting_step x x' : batchStep x x' → waitersSubscribed x → waitersSubscribed x'.
Proof.
  intros Hstep Hw. unfold waitersSubscribed in *.
  destruct Hstep as [s cs i r Hi Hcap|s cs i r Hi|s cs Hwk Hne|s cs Hwk|s cs io rs Hwk|s cs err Hwk]; cbn [fst snd] in *; intros j q.
  - rewrite lookup_insert. case_decide; [done|]. apply Hw.
  - rewrite lookup_insert. cbn. case_decide; [set_solver|]. intros Hj%Hw. set_solver.
  - rewrite feed_receive. apply Hw.
  - rewrite feed_tick. apply Hw.
  - unfold flushWrite. rewrite Hwk. destruct io; apply Hw.
  - unfold flushNotify. rewrite Hwk. cbn. intros Hj. exfalso.
    destruct (tell_callers _ _ _ _ Hj) as [Hj'|(? & ? & _ & ?)]; [|done].
    by rewrite (tell_told _ _ _ _ err (Hw _ _ Hj') Hj') in Hj.
Qed.

Lemma asked_batch x x' : batchStep x x' → queueTaken x.1 → ∀ r, r ∈ askedAtts x'.2 ↔ r ∈ askedAtts x.2.
Proof.
  intros Hstep _ q. rewrite !askedAtts_elem.
  assert (Hrec : ∀ i, callerRecord <$> x'.2 !! i = callerRecord <$> x.2 !! i).
  { intros j. destruct Hstep as [s cs i r Hi Hcap|s cs i r Hi| | | |s cs err Hw]; cbn [fst snd] in *; try done;
      [rewrite lookup_insert; case_decide; [subst; by rewrite Hi|done]..|].
    unfold flushNotify. rewrite Hw. cbn. generalize (batchAttestationsFlushedFeed s). intros l. revert cs.
    induction l as [|k l IH]; intros cs; [done|]. cbn. rewrite IH. unfold tell. cbn.
    destruct (cs !! k) as [[]|] eqn:E; try done. rewrite lookup_insert. case_decide; [subst; by rewrite E|done]. }
  split; intros (i & y & Hy & <-); specialize (Hrec i); rewrite Hy in Hrec; cbn in Hrec.
  - destruct (x.2 !! i) as [z|] eqn:E; [|done]. exists i, z. split; [done|]. by injection Hrec.
  - destruct (x'.2 !! i) as [z|] eqn:E; [|done]. exists i, z. split; [done|]. by injection Hrec.
Qed.

Lemma holds_batch x x' bs : batchStep x x' → KVHolds (mkKVClient x bs) → KVHolds (mkKVClient x' bs).
Proof.
  intros Hstep Hc. pose proof (λ r, asked_valid _ r Hc) as Hav. destruct Hc as [Hd Hq Hr Hp Hw Ha Hb]. cbn [kvCalls kvBlocks] in *.
  pose proof (asked_batch x x' Hstep Hq) as Hasked. pose proof (waiting_step x x' Hstep Hw) as Hw'.
  assert (Hr' : ∀ i y, x'.2 !! i = Some y → RecordValid (callerRecord y)).
  { intros i y Hy. apply Hav, Hasked, askedAtts_elem. by exists i, y. }
  assert (Hsub : askedAtts x.2 ⊆ askedAtts x'.2) by (intros r; by apply Hasked).
  destruct (batchStep_effect x x' Hstep Hq) as [Hq' [(c & r & Hcall & Ecs & Ed & Ep)|(rs & Ep & Ed & Hk)]].
  - split; cbn [kvCalls kvBlocks]; [by rewrite Ed|done|done| |done|rewrite Ed; by eapply AttsFrom_mono|by rewrite Ed].
    rewrite Ep. intros q [Hq0| ->%list_elem_of_singleton]%elem_of_app; [by apply Hsub, Hp|].
    apply Hsub, askedAtts_elem. by exists c, (Calling r).
  - rewrite Ep in Hp. assert (Hrs : Forall RecordTyped rs).
    { apply Forall_forall. intros q Hq0. apply RecordValid_typed, Hav, Hp. set_solver. }
    split; cbn [kvCalls kvBlocks]; rewrite ?Ed; [by apply saveRecords_ok|done|done|set_solver|done| |].
    + apply (AttsFrom_mono _ (askedAtts x.2)); [done|]. apply saveRecords_rel; [apply Hd|done|done|].
      intros d r Hd' Hin Hr0. apply AttsFrom_save; [done|done|]. apply Hp. set_solver.
    + destruct (saveRecords_proposals (db x.1) rs) as [E1 E2]. destruct Hb as [Hb Hl].
      split; intros pk' z; [unfold blockAt; rewrite E1; apply Hb|unfold LowestSignedProposal; rewrite E2; apply Hl].
Qed.

(** A new call, whatever its conditions say. *)
Lemma holds_call s cs bs i r x :
  cs !! i = None → RecordValid r → callerRecord x = r → (∀ q, x ≠ Waiting q) →
  KVHolds (mkKVClient (s, cs) bs) → KVHolds (mkKVClient (s, <[i := x]> cs) bs).
Proof.
  intros Hi Hv Hx Hnw [Hd Hq Hr Hp Hw Ha Hb]. cbn [kvCalls kvBlocks fst snd] in *.
  assert (Hsub : askedAtts cs ⊆ askedAtts (<[i := x]> cs)).
  { intros q (j & y & Hy & <-)%askedAtts_elem. apply askedAtts_elem. exists j, y. split; [|done].
    rewrite lookup_insert_ne; [done|]. congruence. }
  split; cbn [kvCalls kvBlocks fst snd]; [done|done| |set_solver| |by eapply AttsFrom_mono|done].
  - intros j y. rewrite lookup_insert. case_decide; [intros [= <-]; by rewrite Hx|apply Hr].
  - intros j q. cbn. rewrite lookup_insert. case_decide; [intros [= ->]; by destruct (Hnw q)|apply Hw].
Qed.

(** A change of the proposal buckets. *)
Lemma holds_setDB s cs bs bs' d :
  DBOk d → pubKeysBucket d = pubKeysBucket (db s) → lowestSignedSourceBucket d = lowestSignedSourceBucket (db s) →
  lowestSignedTargetBucket d = lowestSignedTargetBucket (db s) → PropsFrom d bs' →
  KVHolds (mkKVClient (s, cs) bs) → KVHolds (mkKVClient (setDB s d, cs) bs').
Proof. intros Hd' E1 E2 E3 Hp' [Hd Hq Hr Hp Hw Ha Hb]. split; [done..| |done]. by apply (AttsFrom_frame (db s)). Qed.

Lemma PropsFrom_save d pk slot root bs :
  DBOk d → validProposal slot root → PropsFrom d bs →
  PropsFrom (SaveProposalHistoryForSlot d pk slot root) ((pk, mkProposal slot root) :: bs).
Proof.
  intros [Hd Hp] [Hslot Hlen] [Hb Hl]. split.
  - intros pk' s' Hs'. rewrite blockAt_save; [|done|done|by right|done].
    case_decide as Hpk; [|intros Hsome; destruct (Hb _ _ Hs' Hsome) as (p & ? & ?); exists p; set_solver].
    case_if; [by intros []|]. case_decide as Hss.
    + intros _. exists (pk, mkProposal slot root). set_solver.
    + intros Hsome. destruct (Hb _ _ Hs' Hsome) as (p & ? & ?). exists p. set_solver.
  - intros pk' l. unfold LowestSignedProposal.
    cbn [SaveProposalHistoryForSlot setProposals lowestSignedProposalsBucket].
    rewrite decodeLowest_lowerBound; [|apply Hd|by apply two63_u64].
    case_decide as Hpk; [|intros El; destruct (Hl _ _ El) as (p & ? & ?); exists p; set_solver].
    intros [= <-]. subst pk'. fold (LowestSignedProposal d pk). fold (lowered (LowestSignedProposal d pk) slot).
    destruct (lowered_or (LowestSignedProposal d pk) slot) as [(l & El & ->)| ->].
    + destruct (Hl _ _ El) as (p & ? & ?). exists p. set_solver.
    + exists (pk, mkProposal slot root). set_solver.
Qed.

Lemma PropsFrom_buckets d pks bs : PropsFrom d bs → PropsFrom (createProposalBuckets d pks) bs.
Proof.
  intros [Hb Hl]. split; [|exact Hl]. intros pk slot Hs. unfold blockAt.
  destruct (Get (historicProposalsBucket (createProposalBuckets _ _)) pk) as [b|] eqn:E; [|by intros []].
  apply createProposalBuckets_Get in E as [E| ->]; [|rewrite Get_empty; by intros []].
  intros Hsome. apply Hb; [done|]. unfold blockAt. by rewrite E.
Qed.

Lemma holds_restart s cs bs d :
  DBOk d → pubKeysBucket d = pubKeysBucket (db s) → lowestSignedSourceBucket d = lowestSignedSourceBucket (db s) →
  lowestSignedTargetBucket d = lowestSignedTargetBucket (db s) → PropsFrom d bs →
  KVHolds (mkKVClient (s, cs) bs) → KVHolds (mkKVClient (openStore d, interrupt <$> cs) bs).
Proof.
  intros Hd' E1 E2 E3 Hp' [Hd Hq Hr Hp Hw Ha Hb]. cbn [kvCalls kvBlocks fst snd] in *.
  assert (Hsub : askedAtts cs ⊆ askedAtts (interrupt <$> cs)).
  { intros q (j & y & Hy & <-)%askedAtts_elem. apply askedAtts_elem. exists j, (interrupt y).
    rewrite lookup_fmap, Hy. split; [done|]. by destruct y. }
  split; cbn [kvCalls kvBlocks fst snd]; [done|by intros rs| |cbn; set_solver| | |done].
  - intros j y. rewrite lookup_fmap_Some. intros (z & <- & Hz). specialize (Hr _ _ Hz). by destruct z.
  - intros j q. cbn. rewrite lookup_fmap_Some. intros (z & Hz & _). by destruct z.
  - eapply AttsFrom_mono; [done|]. by apply (AttsFrom_frame (db s)).
Qed.

(** Events of a process that does not prune. *)
Definition unprunedStep (c c' : KVClient) : Prop := ∃ e, kvStep e c c' ∧ e ≠ EvRestart true.

Lemma holds_step c c' : unprunedStep c c' → KVHolds c → KVHolds c'.
Proof.
  intros (e & Hstep & Hne) Hc.
  destruct Hstep as [| | |s s' cs bs io pk slot root res Hv Hcheck|s cs bs io pks|s cs bs pks pruning].
  - by eapply holds_call.
  - by eapply holds_call.
  - by eapply holds_batch.
  - unfold kvSlashableProposalCheck in Hcheck.
    destruct (proposalConditions (db s) pk slot root) as [err|] eqn:Ec; [by injection Hcheck as <- <-|].
    destruct io as [err|]; injection Hcheck as <- <-; [done|].
    apply (holds_setDB _ _ bs); [apply proposal_saved_ok; [apply Hc|done]|done..| |done].
    apply PropsFrom_save; [apply Hc|done|apply Hc].
  - destruct io as [err|]; [done|]. apply (holds_setDB _ _ bs); [apply createProposalBuckets_ok, Hc|done..| |done].
    apply PropsFrom_buckets, Hc.
  - destruct pruning; [done|]. destruct pks as [pks|]; (apply (holds_restart s); [..|done]); cbn; try done; try apply Hc.
    + apply createProposalBuckets_ok, Hc.
    + apply PropsFrom_buckets, Hc.
Qed.

Lemma holds_run c c' : KVHolds c → rtc unprunedStep c c' → KVHolds c'.
Proof. intros Hc Hrun. induction Hrun as [|c c1 c2 Hs _ IH]; [done|]. apply IH. by eapply holds_step. Qed.

Lemma asked_step c c' : unprunedStep c c' → KVHolds c → askedAtts (kvCalls c).2 ⊆ askedAtts (kvCalls c').2.
Proof.
  intros (e & Hstep & _) Hc r Hr. destruct Hstep as [s cs bs i q|s cs bs i q|x x' bs Hb| | |]; cbn [kvCalls snd] in *; try done.
  - apply askedAtts_elem in Hr as (j & y & Hy & <-). apply askedAtts_elem. exists j, y. split; [|done].
    rewrite lookup_insert_ne; [done|]. congruence.
  - apply askedAtts_elem in Hr as (j & y & Hy & <-). apply askedAtts_elem. exists j, y. split; [|done].
    rewrite lookup_insert_ne; [done|]. congruence.
  - apply (asked_batch x x' Hb); [|done]. apply (kvh_queue _ Hc).
  - apply askedAtts_elem in Hr as (j & y & Hy & <-). apply askedAtts_elem. exists j, (interrupt y).
    rewrite lookup_fmap, Hy. split; [done|]. by destruct y.
Qed.

Lemma asked_run c c' : KVHolds c → rtc unprunedStep c c' → askedAtts (kvCalls c).2 ⊆ askedAtts (kvCalls c').2.
Proof.
  intros Hc Hrun. induction Hrun as [|c c1 c2 Hs _ IH]; [done|].
  etrans; [by apply (asked_step c c1)|]. apply IH. by eapply holds_step.
Qed.

(** ** Progress *)

(** A vote above everything the databases read from hold passes the conditions. *)
Lemma conditions_progress d1 d2 d3 d A att pk root :
  AttsFrom d1 A → AttsFrom d3 A → AttsFrom d A → DBTyped d → validAttestation att root →
  (∀ r, r ∈ A → ARPubKey r = pk → ARSource r ≤ SourceEpoch att ∧ ARTarget r < TargetEpoch att) →
  attestationConditionsRead d1 d2 d3 d att pk root = Ret tt.
Proof.
  intros [_ _ _ H4 _] [_ _ _ _ H5] [H1 H2 H3 _ _] Hd Hv Hnew. unfold attestationConditionsRead.
  destruct (match LowestSignedSourceEpoch d1 pk with Some l => _ | None => _ end) eqn:E1.
  { destruct (LowestSignedSourceEpoch d1 pk) as [l|] eqn:El; [|done]. bprop.
    destruct (H4 _ _ El) as (r & Hr & Hpk & <-). destruct (Hnew r Hr Hpk). lia. }
  destruct (match LowestSignedTargetEpoch d3 pk with Some l => _ | None => _ end) eqn:E2.
  { destruct (LowestSignedTargetEpoch d3 pk) as [l|] eqn:El; [|done]. bprop.
    destruct (H5 _ _ El) as (r & Hr & Hpk & <-). destruct (Hnew r Hr Hpk). lia. }
  rewrite andb_false_r. destruct (CheckSlashableAttestation_view d pk root att Hd)
    as (kind & e & -> & He & Hm). destruct Hv as (Hs & Ht & _).
  destruct kind; cbn [checkMeans] in Hm.
  - assert (e = None) as -> by (by apply He). done.
  - destruct Hm as (sr & Hsr & _). destruct (H3 pk (TargetEpoch att)) as (r & Hr & Hpk & E); [done|by rewrite Hsr|].
    destruct (Hnew r Hr Hpk). lia.
  - destruct Hm as (s0 & t & Hs0 & Hin & Hsur%IsSurround_spec). destruct (H1 _ _ _ Hs0 Hin) as (r & Hr & Hpk & E).
    destruct (Hnew r Hr Hpk). cbn in Hsur. lia.
  - destruct Hm as (s0 & t & Ht0 & Hin & Hsur%IsSurround_spec). destruct (H2 _ _ _ Ht0 Hin) as (r & Hr & Hpk & E).
    destruct (Hnew r Hr Hpk). cbn in Hsur. lia.
Qed.

Lemma proposal_progress c pk slot root :
  KVHolds c → validProposal slot root → (∀ p, p ∈ kvBlocks c → p.1 = pk → PSlot p.2 < slot) →
  (kvSlashableProposalCheck None (kvCalls c).1 pk slot root).2 = Ret tt.
Proof.
  intros [[Hd Hp] _ _ _ _ _ [Hb Hl]] [Hslot Hlen] Hnew. unfold kvSlashableProposalCheck.
  assert (proposalConditions (db (kvCalls c).1) pk slot root = None) as ->; [|done].
  apply proposalConditions_pass; [intros v; by apply blockAt_typed|done|]. split.
  - intros v Hv. destruct (Hb pk slot Hslot) as (p & Hpp & Hpk & E); [by rewrite Hv|].
    specialize (Hnew p Hpp Hpk). lia.
  - intros l El. destruct (Hl _ _ El) as (p & Hpp & Hpk & <-). left. by apply Hnew.
Qed.

(** The worker at rest with nothing to do. *)
Definition idle (s : KVStore) : Prop := worker s = Selecting ∧ pending s = [].

(** The worker alone, its writes succeeding. *)
Definition workerActions (acts : list Action) : Prop := Forall (λ a, a ∈ [Receive; Tick; Write None; Notify]) acts.

Lemma notify_answers s cs i r err :
  worker s = Notifying err → waitersSubscribed (s, cs) → cs !! i = Some (Waiting r) →
  (performAll (s, cs) [Notify]).2 !! i = Some (Returned r err).
Proof.
  intros Hw Hsub Hi. cbn [performAll foldl perform]. rewrite Hw. unfold flushNotify. rewrite Hw. cbn.
  apply tell_told; [by apply Hsub in Hi|done].
Qed.

Lemma write_answers s cs i r rs :
  worker s = Writing rs → waitersSubscribed (s, cs) → cs !! i = Some (Waiting r) →
  (performAll (s, cs) [Write None; Notify]).2 !! i = Some (Returned r None).
Proof.
  intros Hw Hsub Hi. change (performAll (s, cs) [Write None; Notify])
    with (performAll (perform (s, cs) (Write None)) [Notify]). cbn [perform]. rewrite Hw.
  apply notify_answers; [by unfold flushWrite; rewrite Hw| |done].
  intros j q Hj. unfold flushWrite. rewrite Hw. by apply Hsub in Hj.
Qed.

Lemma tick_answers s cs i r :
  worker s = Selecting → batchedAttestations s ≠ [] → waitersSubscribed (s, cs) → cs !! i = Some (Waiting r) →
  (performAll (s, cs) [Tick; Write None; Notify]).2 !! i = Some (Returned r None).
Proof.
  intros Hw Hne Hsub Hi. change (performAll (s, cs) [Tick; Write None; Notify])
    with (performAll (perform (s, cs) Tick) [Write None; Notify]). cbn [perform]. rewrite Hw.
  unfold batchTick, batchedAttestationsFlushInProgress. rewrite Hw.
  destruct (batchedAttestations s) as [|q l] eqn:E; [done|]. cbn [QueueLen length Nat.ltb Nat.leb negb].
  eapply write_answers; [done| |done]. by intros j y Hj%Hsub.
Qed.

(** Nobody who waits waits for ever as long as the worker has something to do. *)
Lemma waiting_answered x i r :
  waitersSubscribed x → x.2 !! i = Some (Waiting r) → ¬ idle x.1 →
  ∃ acts, workerActions acts ∧
    (performAll x acts).2 !! i = Some (Returned r (match worker x.1 with Notifying err => err | _ => None end)).
Proof.
  destruct x as [s cs]. cbn [fst snd]. intros Hsub Hi Hidle. unfold workerActions.
  destruct (worker s) as [|rs|err] eqn:Hw.
  2:{ exists [Write None; Notify]. split; [repeat constructor; set_solver|by eapply write_answers]. }
  2:{ exists [Notify]. split; [repeat constructor; set_solver|by apply notify_answers]. }
  destruct (decide (batchedAttestations s = [])) as [Hq|Hq].
  2:{ exists [Tick; Write None; Notify]. split; [repeat constructor; set_solver|by apply tick_answers]. }
  destruct (batchedAttestationsChan s) as [|v rest] eqn:Hc.
  { exfalso. apply Hidle. split; [done|]. unfold pending. by rewrite Hw, Hq, Hc. }
  exists [Receive; Tick; Write None; Notify]. split; [repeat constructor; set_solver|].
  change (performAll (s, cs) [Receive; Tick; Write None; Notify])
    with (performAll (perform (s, cs) Receive) [Tick; Write None; Notify]). cbn [perform]. rewrite Hw, Hc.
  apply tick_answers; [| | |done].
  - unfold batchReceive. rewrite Hc. unfold QueueAppend, QueueLen. cbn [batchedAttestations]. rewrite Hq. by cbn.
  - unfold batchReceive. rewrite Hc. unfold QueueAppend, QueueLen. cbn [batchedAttestations]. rewrite Hq. by cbn.
  - intros j q Hj. cbn [fst]. rewrite feed_receive. by apply Hsub in Hj.
Qed.

Lemma waiting_steps x x' : rtc batchStep x x' → waitersSubscribed x → waitersSubscribed x'.
Proof. intros Hrun Hx. induction Hrun as [|x y z Hs _ IH]; [done|]. apply IH. by eapply waiting_step. Qed.

Lemma tell_other cs ans i x : cs !! i = Some x → (∀ r, x ≠ Waiting r) → foldl tell cs ans !! i = Some x.
Proof.
  intros Hi Hx. revert cs Hi. induction ans as [|[j err] ans IH]; intros cs Hi; [done|]. cbn. apply IH. unfold tell. cbn.
  destruct (cs !! j) as [[]|] eqn:E; try done. rewrite lookup_insert_ne; [done|]. intros ->. rewrite Hi in E.
  injection E as ->. by eapply Hx.
Qed.

(** The worker finishes with the batch it has just written. *)
Definition finishing (w : Worker) : list Action := match w with Notifying _ => [Notify] | _ => [] end.

Lemma sent_ready s cs me r :
  (length (batchedAttestationsChan s) < attestationBatchCapacity)%nat →
  let x := performAll (s, <[me := Calling r]> cs) (Send me :: finishing (worker s)) in
  x.2 !! me = Some (Sent r) ∧ r ∈ pending x.1 ∧ ∀ err, worker x.1 ≠ Notifying err.
Proof.
  intros Hcap. cbv zeta. cbn [performAll foldl perform]. rewrite lookup_insert_eq, decide_True by done.
  destruct (worker s) as [|rs|err] eqn:Hw; cbn [finishing foldl fst snd].
  - rewrite lookup_insert_eq. split; [done|]. cbn. rewrite Hw. split; [|done]. unfold pending. cbn. set_solver.
  - rewrite lookup_insert_eq. split; [done|]. cbn. rewrite Hw. split; [|done]. unfold pending. cbn. set_solver.
  - cbn [perform]. change (worker (chanSend s r)) with (worker s). rewrite Hw. unfold flushNotify.
    change (worker (chanSend s r)) with (worker s). rewrite Hw. cbn [fst snd].
    split; [apply tell_other; [apply lookup_insert_eq|done]|]. split; [unfold pending; cbn; set_solver|done].
Qed.

(** A call that finds room in the channel can end without an error: there is a schedule of
    the worker that answers it. *)
Lemma call_completes x me pk root att :
  waitersSubscribed x → (length (batchedAttestationsChan x.1) < attestationBatchCapacity)%nat →
  ∃ untilSubscribed untilTold, workerActions untilSubscribed ∧ workerActions untilTold ∧
    (SaveAttestationForPubKey untilSubscribed untilTold me x pk root att).2 = Ret tt.
Proof.
  intros Hsub Hcap. set (r := mkAttRecord pk (SourceEpoch att) (TargetEpoch att) root).
  destruct (sent_ready x.1 x.2 me r Hcap) as (H1' & H2' & H3').
  set (x1 := performAll (x.1, <[me := Calling r]> x.2) (Send me :: finishing (worker x.1))) in *.
  assert (Hsub1 : waitersSubscribed x1).
  { eapply waiting_steps; [apply performAll_steps|]. intros i q. cbn. rewrite lookup_insert. case_decide; [done|apply Hsub]. }
  assert (Hsub2 : waitersSubscribed (perform x1 (Subscribe me))).
  { eapply (waiting_steps _ (performAll x1 [Subscribe me])); [apply performAll_steps|done]. }
  destruct (waiting_answered (perform x1 (Subscribe me)) me r Hsub2) as (acts & Hacts & Hret).
  { destruct x1 as [s1 cs1]. cbn [snd] in H1'. cbn [perform]. rewrite H1'. cbn. apply lookup_insert_eq. }
  { destruct x1 as [s1 cs1]. cbn [snd] in H1'. cbn [perform]. rewrite H1'. cbn. intros [_ E].
    change (pending (feedSubscribe s1 me)) with (pending s1) in E. cbn in H2'. rewrite E in H2'. set_solver. }
  exists (finishing (worker x.1)), acts. split; [unfold workerActions, finishing; destruct (worker x.1); repeat constructor; set_solver|].
  split; [done|]. unfold SaveAttestationForPubKey. fold r. cbn [snd].
  change (Send me :: finishing (worker x.1) ++ Subscribe me :: acts)
    with ((Send me :: finishing (worker x.1)) ++ [Subscribe me] ++ acts).
  unfold performAll. rewrite !foldl_app. fold (performAll (x.1, <[me := Calling r]> x.2) (Send me :: finishing (worker x.1))).
  fold x1. cbn [foldl]. fold (performAll (perform x1 (Subscribe me)) acts). rewrite Hret.
  assert (worker (perform x1 (Subscribe me)).1 = worker x1.1) as ->.
  { destruct x1 as [s1 cs1]. cbn [perform]. by destruct (cs1 !! me) as [[]|]. }
  destruct (worker x1.1) as [|rs|err] eqn:E; [done|done|]. by destruct (H3' err).
Qed.

(** ** The check as a run *)

Lemma batch_run x acts bs : rtc inTimeStep (mkKVClient x bs) (mkKVClient (performAll x acts) bs).
Proof.
  pose proof (performAll_steps x acts) as Hrun. induction Hrun as [|x y z Hs _ IH]; [apply rtc_refl|].
  eapply rtc_l; [|exact IH]. exists EvBatch. split; [by apply kv_batch|done].
Qed.

(** Calls keep their records. *)
Lemma batchStep_records x x' i y :
  batchStep x x' → x'.2 !! i = Some y → ∃ z, x.2 !! i = Some z ∧ callerRecord z = callerRecord y.
Proof.
  intros Hstep Hy. destruct Hstep as [s cs j r Hj _|s cs j r Hj|s cs _ _|s cs _|s cs io rs _|s cs err _]; cbn [fst snd] in *; try by exists y.
  - rewrite lookup_insert in Hy. case_decide; [|by exists y]. injection Hy as <-. subst. by exists (Calling r).
  - rewrite lookup_insert in Hy. case_decide; [|by exists y]. injection Hy as <-. subst. by exists (Sent r).
  - destruct (callersKept_tell _ _ _ _ Hy) as (z & Hz & Hr & _). by exists z.
Qed.

Lemma batchSteps_records x x' i y :
  rtc batchStep x x' → x'.2 !! i = Some y → ∃ z, x.2 !! i = Some z ∧ callerRecord z = callerRecord y.
Proof.
  intros Hrun. revert y. induction Hrun as [|x x1 x2 Hstep _ IH]; intros y Hy; [by exists y|].
  destruct (IH y Hy) as (z & Hz & <-). by eapply batchStep_records.
Qed.

(** A check that is answered without an error, with whatever happens meanwhile, is a run
    at whose end the attestation is published. *)
Lemma kvSlashableAttestationCheck_run d1 d2 d3 untilSubscribed untilTold me c r x' :
  (kvCalls c).2 !! me = None → RecordValid r → attesterLockFree (kvCalls c).2 (ARPubKey r) → answersSaved (kvCalls c) (ARPubKey r) →
  kvSlashableAttestationCheck d1 d2 d3 untilSubscribed untilTold me (kvCalls c) (recordAtt r) (ARPubKey r) (ARSigningRoot r) = (x', Ret tt) →
  rtc inTimeStep c (mkKVClient x' (kvBlocks c)) ∧ attPublished (mkKVClient x' (kvBlocks c)) r.
Proof.
  destruct c as [[s cs] bs]. cbn [kvCalls kvBlocks fst snd]. intros Hme Hv Hlock Hsaved. unfold kvSlashableAttestationCheck. cbn [fst].
  destruct (attestationConditionsRead d1 d2 d3 (db s) _ _ _) as [[]| | |] eqn:Ec; [|done..].
  unfold SaveAttestationForPubKey. cbn [fst snd].
  replace (mkAttRecord (ARPubKey r) _ _ _) with r by by destruct r.
  set (acts := Send me :: untilSubscribed ++ Subscribe me :: untilTold). set (x0 := (s, <[me := Calling r]> cs)).
  assert (Hrun : rtc batchStep x0 (performAll x0 acts)) by apply performAll_steps.
  assert (Hcl : rtc inTimeStep (mkKVClient x0 bs) (mkKVClient (performAll x0 acts) bs)) by apply batch_run.
  generalize dependent (performAll x0 acts). intros x Hrun Hcl Hres. injection Hres as <- Hres. split.
  - eapply rtc_l; [|exact Hcl]. exists (EvAttest r). split; [by eapply kv_attest|done].
  - exists me. cbn. destruct (x.2 !! me) as [[| | |q [err|]]|] eqn:E; try done.
    destruct (batchSteps_records _ _ _ _ Hrun E) as (z & Hz & Hr).
    cbn in Hz. rewrite lookup_insert_eq in Hz. injection Hz as <-. cbn in Hr. by subst.
Qed.
End laws.
