(* ===== verification/ProtectionFS.v ===== *)
(** * Slashing protection: the minimal database

    Models [validator/db/filesystem/attester_protection.go], [proposer_protection.go]
    and the slashing protection part of [db.go].  The database is a directory with a
    YAML file for each public key; the file is found by the hexadecimal form of the
    key, here by the key itself.  The YAML library is not part of the repository: the
    class [Yaml] has its two functions and two facts about them.

    A call reads the file of its key, decides, and writes the file; the locks around a
    file cover the read and the write one by one, not the two together.  A call is
    therefore two steps of [fsStep], and a function of this file that reads and writes
    takes what happens to the directory in between as the argument [meanwhile].  A write
    truncates the file before it writes, so that a failed one can leave a part of the
    content behind ([WriteResult]).

    The second part proves that the database keeps the contract of [Protection.v] as
    long as the calls of a key do not overlap and no write leaves something readable
    and wrong; the last part shows what happens otherwise. *)

From S2P Require Import Prelude MathHelper Primitives SlotTime Bytes Protection.

Record ValidatorSlashingProtection := mkVSP {
  LatestSignedBlockSlot : option Z;
  LastSignedAttestationSourceEpoch : Z;
  LastSignedAttestationTargetEpoch : option Z
}.

(** The zero value of the struct. *)
Definition emptyVSP : ValidatorSlashingProtection := mkVSP None 0 None.

Definition VSPTyped (v : ValidatorSlashingProtection) : Prop :=
  (∀ s, LatestSignedBlockSlot v = Some s → is_u64 s) ∧ is_u64 (LastSignedAttestationSourceEpoch v) ∧
  (∀ t, LastSignedAttestationTargetEpoch v = Some t → is_u64 t).

(** Reading gives back what was written, and the zero struct from an empty file. *)
Class Yaml := {
  Marshal : ValidatorSlashingProtection → bytes;
  Unmarshal : bytes → option ValidatorSlashingProtection;
  Unmarshal_Marshal v : VSPTyped v → Unmarshal (Marshal v) = Some v;
  Unmarshal_nil : Unmarshal [] = Some emptyVSP
}.

Section fs.
Context `{Yaml}.

(** The files of the slashing protection directory. *)
Record FSStore := mkFSStore { slashingProtectionDir : gmap bytes bytes }.
Definition emptyFSStore : FSStore := mkFSStore ∅.

Definition errUnmarshal : error := "could not unmarshal file".

(** [None] for a key without a file. *)
Definition validatorSlashingProtection (s : FSStore) (publicKey : bytes)
    : outcome (option ValidatorSlashingProtection) :=
  match slashingProtectionDir s !! publicKey with
  | None => Ret None
  | Some yfile => match Unmarshal yfile with Some v => Ret (Some v) | None => Err errUnmarshal end
  end.

(** How [os.WriteFile] ends: with everything written; with an error before the file is
    opened; with an error after it was truncated and the first [n] bytes written. *)
Inductive WriteResult :=
| Written
| NotWritten (err : error)
| Torn (err : error) (n : nat).

Definition WriteFile (io : WriteResult) (s : FSStore) (publicKey data : bytes) : FSStore * outcome unit :=
  match io with
  | Written => (mkFSStore (<[publicKey := data]> (slashingProtectionDir s)), Ret tt)
  | NotWritten err => (s, Err err)
  | Torn err n => (mkFSStore (<[publicKey := take n data]> (slashingProtectionDir s)), Err err)
  end.

Definition saveValidatorSlashingProtection (io : WriteResult) (s : FSStore) (publicKey : bytes)
    (v : ValidatorSlashingProtection) : FSStore * outcome unit :=
  WriteFile io s publicKey (Marshal v).

(** In the order of the directory listing. *)
Definition publicKeys (s : FSStore) : list bytes := (gmapEntries (slashingProtectionDir s)).*1.

(** The files are written one by one; [io pubKey] is how the write for [pubKey] ends. *)
Fixpoint fsUpdatePublicKeysBuckets (io : bytes → WriteResult) (s : FSStore) (pubKeys : list bytes) : FSStore * outcome unit :=
  match pubKeys with
  | [] => (s, Ret tt)
  | pubKey :: pubKeys =>
      match slashingProtectionDir s !! pubKey with
      | Some _ => fsUpdatePublicKeysBuckets io s pubKeys
      | None =>
          match WriteFile (io pubKey) s pubKey (Marshal emptyVSP) with
          | (s, Ret _) => fsUpdatePublicKeysBuckets io s pubKeys
          | failed => failed
          end
      end
  end.

Definition errGetProtection : error := "could not get validator slashing protection".
Definition errSaveProtection : error := "could not save validator slashing protection".

(** The calls start by reading the file of the key. *)
Definition withProtection {A} (s : FSStore) (pubKey : bytes)
    (k : option ValidatorSlashingProtection → outcome A) : outcome A :=
  match validatorSlashingProtection s pubKey with
  | Ret v => k v
  | Err err => Err (wrapErr err errGetProtection)
  | Panic m => Panic m
  | OutOfFuel => OutOfFuel
  end.

(** ** Attestations *)

Definition fsLowestSignedTargetEpoch (s : FSStore) (pubKey : bytes) : outcome (option Z) :=
  withProtection s pubKey (λ v, Ret (v ≫= LastSignedAttestationTargetEpoch)).
Definition fsLowestSignedSourceEpoch (s : FSStore) (pubKey : bytes) : outcome (option Z) :=
  withProtection s pubKey (λ v, Ret (LastSignedAttestationSourceEpoch <$> v)).

Definition fsAttestedPublicKeys (s : FSStore) : outcome (list bytes) :=
  foldr (λ pubkey acc,
    withProtection s pubkey (λ v,
      attestedPublicKeys <-? acc;;
      Ret (match v ≫= LastSignedAttestationTargetEpoch with
           | Some _ => pubkey :: attestedPublicKeys
           | None => attestedPublicKeys
           end))) (Ret []) (publicKeys s).

Definition fsAttestationHistoryForPubKey (s : FSStore) (pubKey : bytes) : outcome (list AttestationRecord) :=
  withProtection s pubKey (λ v,
    match v with
    | Some (mkVSP _ source (Some target)) => Ret [mkAttRecord pubKey source target []]
    | _ => Ret []
    end).

Definition errNoSourceTarget : error := "incoming attestation does not contain source and/or target epoch".
Definition errSourceLower : error := "could not sign attestation with source lower than recorded source epoch".
Definition errTargetLower : error := "could not sign attestation with target lower than or equal to recorded target epoch".

Definition wrapSave (r : FSStore * outcome unit) : FSStore * outcome unit :=
  (r.1, omap_err (λ err, wrapErr err errSaveProtection) r.2).

(** What an attestation makes of the content of the file, or why it is refused. *)
Definition fsAttestationUpdate (v : option ValidatorSlashingProtection) (att : IndexedAttestation)
    : outcome ValidatorSlashingProtection :=
  match v with
  | None => Ret (mkVSP None (SourceEpoch att) (Some (TargetEpoch att)))
  | Some v =>
      if SourceEpoch att <? LastSignedAttestationSourceEpoch v then Err errSourceLower
      else if match LastSignedAttestationTargetEpoch v with Some t => TargetEpoch att <=? t | None => false end
      then Err errTargetLower
      else Ret (mkVSP (LatestSignedBlockSlot v) (SourceEpoch att) (Some (TargetEpoch att)))
  end.

(** [att] is [None] for a nil attestation or one without source or target. *)
Definition fsSaveAttestationForPubKey (meanwhile : FSStore → FSStore) (io : WriteResult) (s : FSStore) (pubkey : bytes)
    (att : option IndexedAttestation) : FSStore * outcome unit :=
  match att with
  | None => (s, Err errNoSourceTarget)
  | Some att =>
      match withProtection s pubkey (λ v, fsAttestationUpdate v att) with
      | Ret v => wrapSave (saveValidatorSlashingProtection io (meanwhile s) pubkey v)
      | Err err => (s, Err err)
      | Panic m => (s, Panic m)
      | OutOfFuel => (s, OutOfFuel)
      end
  end.

Fixpoint maxSourceTargetEpochFrom (maxSource maxTarget : Z) (atts : list (option IndexedAttestation)) : outcome (Z * Z) :=
  match atts with
  | [] => Ret (maxSource, maxTarget)
  | None :: _ => Err errNoSourceTarget
  | Some att :: atts =>
      maxSourceTargetEpochFrom
        (if maxSource <? SourceEpoch att then SourceEpoch att else maxSource)
        (if maxTarget <? TargetEpoch att then TargetEpoch att else maxTarget) atts
  end.
Definition maxSourceTargetEpoch := maxSourceTargetEpochFrom 0 0.

Definition fsSaveAttestationsForPubKey (meanwhile : FSStore → FSStore) (io : WriteResult) (s : FSStore) (pubkey : bytes)
    (atts : list (option IndexedAttestation)) : FSStore * outcome unit :=
  match atts with
  | [] => (s, Ret tt)
  | _ =>
      match maxSourceTargetEpoch atts with
      | Err err => (s, Err (wrapErr err "could not get maximum source and target epoch"))
      | Ret (maxSource, maxTarget) =>
          match withProtection s pubkey Ret with
          | Ret None =>
              wrapSave (saveValidatorSlashingProtection io (meanwhile s) pubkey (mkVSP None maxSource (Some maxTarget)))
          | Ret (Some v) =>
              let savedSource := LastSignedAttestationSourceEpoch v in
              let maxSource := if maxSource <? savedSource then savedSource else maxSource in
              let maxTarget := match LastSignedAttestationTargetEpoch v with
                               | Some savedTarget => if maxTarget <? savedTarget then savedTarget else maxTarget
                               | None => maxTarget
                               end in
              wrapSave (saveValidatorSlashingProtection io (meanwhile s) pubkey
                (mkVSP (LatestSignedBlockSlot v) maxSource (Some maxTarget)))
          | Err err => (s, Err err)
          | Panic m => (s, Panic m)
          | OutOfFuel => (s, OutOfFuel)
          end
      | Panic m => (s, Panic m)
      | OutOfFuel => (s, OutOfFuel)
      end
  end.

(** [strings.Contains(err.Error(), msg)]. *)
Definition errContains (err : error) (msg : string) : bool :=
  match String.index 0 msg err with Some _ => true | None => false end.

Definition fsSlashableAttestationCheck (meanwhile : FSStore → FSStore) (io : WriteResult) (s : FSStore)
    (att : IndexedAttestation) (pubKey signingRoot : bytes) : FSStore * outcome unit :=
  let '(s, res) := fsSaveAttestationForPubKey meanwhile io s pubKey (Some att) in
  (s, omap_err (λ err,
        if errContains err "could not sign attestation"
        then wrapErr err "attempted to make slashable attestation, rejected by local slashing protection"
        else wrapErr err "could not save attestation history for validator public key") res).

(** ** Proposals *)

Definition fsProposalHistoryForPubKey (s : FSStore) (publicKey : bytes) : outcome (list Proposal) :=
  withProtection s publicKey (λ v,
    match v ≫= LatestSignedBlockSlot with
    | Some slot => Ret [mkProposal slot []]
    | None => Ret []
    end).

Definition fsProposedPublicKeys (s : FSStore) : list bytes := publicKeys s.

Definition errSlotNotAbove : error := "could not sign proposal with slot lower than or equal to recorded slot".

(** What a proposal makes of the content of the file, or why it is refused. *)
Definition fsProposalUpdate (v : option ValidatorSlashingProtection) (slot : Z) : outcome ValidatorSlashingProtection :=
  match v with
  | None => Ret (mkVSP (Some slot) 0 None)
  | Some v =>
      let updated := mkVSP (Some slot) (LastSignedAttestationSourceEpoch v) (LastSignedAttestationTargetEpoch v) in
      match LatestSignedBlockSlot v with
      | None => Ret updated
      | Some latest => if slot <=? latest then Err errSlotNotAbove else Ret updated
      end
  end.

Definition fsSaveProposalHistoryForSlot (meanwhile : FSStore → FSStore) (io : WriteResult) (s : FSStore) (pubKey : bytes)
    (slot : Z) : FSStore * outcome unit :=
  match withProtection s pubKey (λ v, fsProposalUpdate v slot) with
  | Ret v => wrapSave (saveValidatorSlashingProtection io (meanwhile s) pubKey v)
  | Err err => (s, Err err)
  | Panic m => (s, Panic m)
  | OutOfFuel => (s, OutOfFuel)
  end.

Definition fsSlashableProposalCheck (meanwhile : FSStore → FSStore) (io : WriteResult) (s : FSStore) (pubKey : bytes)
    (slot : Z) (signingRoot : bytes) : FSStore * outcome unit :=
  let '(s, res) := fsSaveProposalHistoryForSlot meanwhile io s pubKey slot in
  (s, omap_err (λ err,
        if errContains err "could not sign proposal"
        then wrapErr err "block rejected by local protection"
        else wrapErr err "failed to save updated proposal history") res).

(** ** The client *)

(** A call between its read and its write, with what it is about to write, and a call
    that has returned. *)
Inductive FSCall :=
| AttWriting (r : AttestationRecord) (v : ValidatorSlashingProtection)
| BlockWriting (p : bytes * Proposal) (v : ValidatorSlashingProtection)
| KeyWriting (pk : bytes)
| AttDone (r : AttestationRecord) (err : option error)
| BlockDone (p : bytes * Proposal) (err : option error)
| KeyDone (pk : bytes) (err : option error).

Definition callKey (x : FSCall) : bytes :=
  match x with
  | AttWriting r _ | AttDone r _ => ARPubKey r
  | BlockWriting p _ | BlockDone p _ => p.1
  | KeyWriting pk | KeyDone pk _ => pk
  end.

Definition toWrite (x : FSCall) : option ValidatorSlashingProtection :=
  match x with
  | AttWriting _ v | BlockWriting _ v => Some v
  | KeyWriting _ => Some emptyVSP
  | _ => None
  end.

Definition finish (x : FSCall) (err : option error) : FSCall :=
  match x with
  | AttWriting r _ => AttDone r err
  | BlockWriting p _ => BlockDone p err
  | KeyWriting pk => KeyDone pk err
  | done => done
  end.

Definition errOf (res : outcome unit) : option error :=
  match res with Ret _ => None | Err err => Some err | _ => Some "interrupted"%string end.

Record FSClient := mkFSClient {
  fsDir : FSStore;
  fsCalls : gmap nat FSCall
}.
Definition fsStart : FSClient := mkFSClient emptyFSStore ∅.

(** The locks of the client: one for each attesting key, and one for proposals. *)
Definition fsAttesterLockFree (calls : gmap nat FSCall) (pk : bytes) : Prop :=
  ∀ i r v, calls !! i = Some (AttWriting r v) → ARPubKey r ≠ pk.
Definition fsProposerLockFree (calls : gmap nat FSCall) : Prop :=
  ∀ i p v, calls !! i ≠ Some (BlockWriting p v).

Inductive fsEvent :=
| FsRead (pk : bytes)
| FsWrite (i : nat) (io : WriteResult)
| FsCrash.

(** What a call is after its read. *)
Definition begun {A} (res : outcome A) (writing : A → FSCall) (refused : option error → FSCall) : option FSCall :=
  match res with Ret v => Some (writing v) | Err err => Some (refused (Some err)) | _ => None end.

(** The end of the process can cut calls off anywhere; a write that it cuts off is a
    torn one. *)
Inductive fsStep : fsEvent → FSClient → FSClient → Prop :=
| fs_attest s calls i r x :
    calls !! i = None → RecordValid r → fsAttesterLockFree calls (ARPubKey r) →
    begun (withProtection s (ARPubKey r) (λ v, fsAttestationUpdate v (recordAtt r))) (AttWriting r) (AttDone r) = Some x →
    fsStep (FsRead (ARPubKey r)) (mkFSClient s calls) (mkFSClient s (<[i := x]> calls))
| fs_propose s calls i p x :
    calls !! i = None → validProposal (PSlot p.2) (PSigningRoot p.2) → fsProposerLockFree calls →
    begun (withProtection s p.1 (λ v, fsProposalUpdate v (PSlot p.2))) (BlockWriting p) (BlockDone p) = Some x →
    fsStep (FsRead p.1) (mkFSClient s calls) (mkFSClient s (<[i := x]> calls))
| fs_addKey s calls i pk :
    calls !! i = None → slashingProtectionDir s !! pk = None →
    fsStep (FsRead pk) (mkFSClient s calls) (mkFSClient s (<[i := KeyWriting pk]> calls))
| fs_write s s' calls i x v io res :
    calls !! i = Some x → toWrite x = Some v → saveValidatorSlashingProtection io s (callKey x) v = (s', res) →
    fsStep (FsWrite i io) (mkFSClient s calls) (mkFSClient s' (<[i := finish x (errOf res)]> calls))
| fs_crash s calls :
    fsStep FsCrash (mkFSClient s calls) (mkFSClient s ((λ x, finish x (Some "interrupted"%string)) <$> calls)).

(** A write that fails half-way leaves nothing, or the whole, or something unreadable. *)
Definition harmless (io : WriteResult) (v : ValidatorSlashingProtection) : Prop :=
  match io with
  | Torn _ n => Unmarshal (take n (Marshal v)) = None ∨ Unmarshal (take n (Marshal v)) = Some v
  | _ => True
  end.

(** The condition: a call of a key begins when no other call of the key is between its
    read and its write, and failed writes are harmless. *)
Definition fsInTime (c : FSClient) (e : fsEvent) : Prop :=
  match e with
  | FsRead pk => ∀ i x, fsCalls c !! i = Some x → toWrite x ≠ None → callKey x ≠ pk
  | FsWrite i io => ∀ x v, fsCalls c !! i = Some x → toWrite x = Some v → harmless io v
  | FsCrash => True
  end.

#[global] Instance FS_protection : SlashingProtection FSClient := {|
  Event := fsEvent;
  dbStep := fsStep;
  inTime := fsInTime;
  attPublished c r := ∃ i, fsCalls c !! i = Some (AttDone r None);
  blockPublished c p := ∃ i, fsCalls c !! i = Some (BlockDone p None)
|}.
End fs.

(** * Slashing protection: the minimal database keeps the contract

    The file of a key bounds everything signed with it, or cannot be read at all:
    [guardsAtt], [guardsBlock].  A call between its read and its write has computed what
    it writes from the content the file still has ([consistent]). *)

Section laws.
Context `{Yaml}.

(** ** The view of a directory of well-formed files *)

Definition vspOf (s : FSStore) (pk : bytes) : option ValidatorSlashingProtection :=
  slashingProtectionDir s !! pk ≫= Unmarshal.

Definition FSTyped (s : FSStore) : Prop :=
  ∀ pk c, slashingProtectionDir s !! pk = Some c → ∃ v, VSPTyped v ∧ c = Marshal v.

Definition putVSP (s : FSStore) (pk : bytes) (v : ValidatorSlashingProtection) : FSStore :=
  mkFSStore (<[pk := Marshal v]> (slashingProtectionDir s)).

Lemma withProtection_view {A} s pk (k : _ → outcome A) : FSTyped s → withProtection s pk k = k (vspOf s pk).
Proof.
  intros Hs. unfold withProtection, validatorSlashingProtection, vspOf.
  destruct (slashingProtectionDir s !! pk) as [c|] eqn:E; [|done]. cbn.
  destruct (Hs _ _ E) as (v & Hv & ->). by rewrite Unmarshal_Marshal.
Qed.

Lemma vspOf_typed s pk v : FSTyped s → vspOf s pk = Some v → VSPTyped v.
Proof.
  intros Hs. unfold vspOf. destruct (slashingProtectionDir s !! pk) as [c|] eqn:E; [|done]. cbn.
  destruct (Hs _ _ E) as (v' & Hv & ->). rewrite Unmarshal_Marshal by done. by intros [= <-].
Qed.

Lemma vspOf_put s pk v pk' :
  VSPTyped v → vspOf (putVSP s pk v) pk' = if decide (pk = pk') then Some v else vspOf s pk'.
Proof.
  intros Hv. unfold vspOf, putVSP. cbn. rewrite lookup_insert. case_decide; [|done].
  cbn. by apply Unmarshal_Marshal.
Qed.

Lemma putVSP_typed s pk v : FSTyped s → VSPTyped v → FSTyped (putVSP s pk v).
Proof.
  intros Hs Hv pk' c. cbn. rewrite lookup_insert. case_decide; [|apply Hs]. intros [= <-]. by exists v.
Qed.

(** ** What the conditions mean *)

(** The updates only raise the bounds of the file. *)
Definition raises (o : option ValidatorSlashingProtection) (v : ValidatorSlashingProtection) : Prop :=
  ∀ w, o = Some w →
    LastSignedAttestationSourceEpoch w ≤ LastSignedAttestationSourceEpoch v ∧
    (∀ t, LastSignedAttestationTargetEpoch w = Some t → ∃ t', LastSignedAttestationTargetEpoch v = Some t' ∧ t ≤ t') ∧
    (∀ l, LatestSignedBlockSlot w = Some l → ∃ l', LatestSignedBlockSlot v = Some l' ∧ l ≤ l').

Lemma raises_some w v :
  LastSignedAttestationSourceEpoch w ≤ LastSignedAttestationSourceEpoch v →
  (∀ t, LastSignedAttestationTargetEpoch w = Some t → ∃ t', LastSignedAttestationTargetEpoch v = Some t' ∧ t ≤ t') →
  (∀ l, LatestSignedBlockSlot w = Some l → ∃ l', LatestSignedBlockSlot v = Some l' ∧ l ≤ l') → raises (Some w) v.
Proof. intros H1 H2 H3 w' [= <-]. done. Qed.

Lemma fsAttestationUpdate_spec o att v :
  fsAttestationUpdate o att = Ret v →
  v = mkVSP (o ≫= LatestSignedBlockSlot) (SourceEpoch att) (Some (TargetEpoch att)) ∧ raises o v ∧
  (∀ w t, o = Some w → LastSignedAttestationTargetEpoch w = Some t → t < TargetEpoch att).
Proof.
  destruct o as [w|]; cbn [fsAttestationUpdate mbind option_bind]; [|intros [= <-]; by split_and!].
  destruct (Z.ltb_spec (SourceEpoch att) (LastSignedAttestationSourceEpoch w)); [done|].
  destruct (match LastSignedAttestationTargetEpoch w with Some t => _ | None => _ end) eqn:Et; [done|]. intros [= <-].
  assert (Hlt : ∀ t, LastSignedAttestationTargetEpoch w = Some t → t < TargetEpoch att).
  { intros t Ht. rewrite Ht in Et. by bprop. }
  split_and!; [done| |intros w' t [= <-]; apply Hlt].
  apply raises_some; cbn; [done|intros t Ht%Hlt; eexists; split; [done|lia]|intros l Hl; by exists l].
Qed.

Lemma fsProposalUpdate_spec o slot v :
  fsProposalUpdate o slot = Ret v →
  v = mkVSP (Some slot) (default 0 (LastSignedAttestationSourceEpoch <$> o)) (o ≫= LastSignedAttestationTargetEpoch) ∧
  raises o v ∧ (∀ l, o ≫= LatestSignedBlockSlot = Some l → l < slot).
Proof.
  destruct o as [w|]; cbn [fsProposalUpdate mbind option_bind fmap option_fmap option_map default from_option];
    [|intros [= <-]; by split_and!].
  destruct (LatestSignedBlockSlot w) as [l|] eqn:El; [destruct (Z.leb_spec slot l); [done|]|]; intros [= <-];
    (split_and!; [done| |intros l' [= <-]; done || lia]); (apply raises_some; cbn; [done|intros t Ht; by exists t|]);
    rewrite El; [intros l' [= <-]; eexists; split; [done|lia]|done].
Qed.

(** ** Guards *)

Definition boundsAtt (v : ValidatorSlashingProtection) (r : AttestationRecord) : Prop :=
  ARSource r ≤ LastSignedAttestationSourceEpoch v ∧
  ∃ t, LastSignedAttestationTargetEpoch v = Some t ∧ ARTarget r ≤ t.
Definition boundsBlock (v : ValidatorSlashingProtection) (p : Proposal) : Prop :=
  ∃ l, LatestSignedBlockSlot v = Some l ∧ PSlot p ≤ l.

(** The file exists, and what can be read from it has the property. *)
Definition fileHas (s : FSStore) (pk : bytes) (P : ValidatorSlashingProtection → Prop) : Prop :=
  ∃ c, slashingProtectionDir s !! pk = Some c ∧ ∀ v, Unmarshal c = Some v → P v.
Definition guardsAtt (s : FSStore) (r : AttestationRecord) : Prop := fileHas s (ARPubKey r) (λ v, boundsAtt v r).
Definition guardsBlock (s : FSStore) (p : bytes * Proposal) : Prop := fileHas s p.1 (λ v, boundsBlock v p.2).

Lemma boundsAtt_raises w v r : boundsAtt w r → raises (Some w) v → boundsAtt v r.
Proof.
  intros [Hs (t & Ht & Hle)] Hr. destruct (Hr w eq_refl) as (H1 & H2 & _). destruct (H2 t Ht) as (t' & Ht' & ?).
  split; [lia|]. exists t'. split; [done|lia].
Qed.
Lemma boundsBlock_raises w v p : boundsBlock w p → raises (Some w) v → boundsBlock v p.
Proof.
  intros (l & Hl & Hle) Hr. destruct (Hr w eq_refl) as (_ & _ & H3). destruct (H3 l Hl) as (l' & Hl' & ?).
  exists l'. split; [done|lia].
Qed.

(** What a call has read. *)
Definition readsAs (s : FSStore) (pk : bytes) (o : option ValidatorSlashingProtection) : Prop :=
  match o with
  | None => slashingProtectionDir s !! pk = None
  | Some w => ∃ c, slashingProtectionDir s !! pk = Some c ∧ Unmarshal c = Some w
  end.

Lemma withProtection_reads {A} s pk (k : _ → outcome A) a :
  withProtection s pk k = Ret a → ∃ o, readsAs s pk o ∧ k o = Ret a.
Proof.
  unfold withProtection, validatorSlashingProtection. destruct (slashingProtectionDir s !! pk) as [c|] eqn:E.
  - destruct (Unmarshal c) as [w|] eqn:Eu; [|done]. intros Hk. exists (Some w). split; [by exists c|done].
  - intros Hk. by exists None.
Qed.

(** A file that was read and has the property still has it if the new content raises
    the bounds and the property goes up with them. *)
Lemma fileHas_write s pk o v (P : ValidatorSlashingProtection → Prop) c' pk' :
  (pk' = pk → readsAs s pk o ∧ raises o v ∧ ∀ w, P w → raises (Some w) v → P v) →
  (∀ w, Unmarshal c' = Some w → w = v) →
  fileHas s pk' P → fileHas (mkFSStore (<[pk := c']> (slashingProtectionDir s))) pk' P.
Proof.
  intros Hread Hc (c & Hc0 & HP). unfold fileHas. cbn. setoid_rewrite lookup_insert.
  case_decide as Hpk; [|by exists c]. exists c'. split; [done|]. intros w ->%Hc. subst pk'.
  destruct (Hread eq_refl) as (Ho & Hra & Hup). destruct o as [w0|]; cbn in Ho; [|congruence].
  destruct Ho as (c0 & Hc0' & Hw0). rewrite Hc0 in Hc0'. injection Hc0' as <-.
  by apply (Hup w0); [apply HP|].
Qed.

(** ** The invariant *)

(** The call computed what it is about to write from what the file has. *)
Definition consistent (s : FSStore) (x : FSCall) : Prop :=
  match x with
  | AttWriting r v =>
      RecordValid r ∧ ∃ o, readsAs s (ARPubKey r) o ∧ fsAttestationUpdate o (recordAtt r) = Ret v
  | BlockWriting p v =>
      validProposal (PSlot p.2) (PSigningRoot p.2) ∧ ∃ o, readsAs s p.1 o ∧ fsProposalUpdate o (PSlot p.2) = Ret v
  | KeyWriting pk => readsAs s pk None
  | _ => True
  end.

Record FSProtected (c : FSClient) : Prop := {
  fsp_typed : ∀ pk f v, slashingProtectionDir (fsDir c) !! pk = Some f → Unmarshal f = Some v → VSPTyped v;
  fsp_alone : ∀ i j x y, fsCalls c !! i = Some x → fsCalls c !! j = Some y → toWrite x ≠ None → toWrite y ≠ None →
    callKey x = callKey y → i = j;
  fsp_consistent : ∀ i x, fsCalls c !! i = Some x → consistent (fsDir c) x;
  fsp_atts : ∀ i r, fsCalls c !! i = Some (AttDone r None) → guardsAtt (fsDir c) r;
  fsp_blocks : ∀ i p, fsCalls c !! i = Some (BlockDone p None) → guardsBlock (fsDir c) p;
  fsp_attsApart : ∀ i j r r', fsCalls c !! i = Some (AttDone r None) → fsCalls c !! j = Some (AttDone r' None) →
    ¬ slashableAttestations r r';
  fsp_blocksApart : ∀ i j p p', fsCalls c !! i = Some (BlockDone p None) → fsCalls c !! j = Some (BlockDone p' None) →
    ¬ slashableProposals p p'
}.

Lemma readsAs_typed c pk w : FSProtected c → readsAs (fsDir c) pk (Some w) → VSPTyped w.
Proof. intros Hc (f & Hf & Hw). by eapply Hc. Qed.

(** What a call writes has the right type, and raises the bounds of what it has read. *)
Lemma toWrite_spec c i x v :
  FSProtected c → fsCalls c !! i = Some x → toWrite x = Some v →
  VSPTyped v ∧ ∃ o, readsAs (fsDir c) (callKey x) o ∧ raises o v.
Proof.
  intros Hc Hx Hv. pose proof (fsp_consistent _ Hc i x Hx) as Hcons.
  destruct x as [r v'|p v'|pk| | |]; try done; injection Hv as <-; cbn [consistent callKey] in *.
  - destruct Hcons as ((H1 & H2 & _) & o & Ho & Hu). destruct (fsAttestationUpdate_spec _ _ _ Hu) as (-> & Hra & _).
    split; [|by exists o]. split_and!; cbn; [|done|by intros t [= <-]].
    intros l Hl. destruct o as [w|]; [|done]. cbn in Hl. destruct (readsAs_typed _ _ _ Hc Ho) as (Hb & _). by apply Hb.
  - destruct Hcons as ((H1 & _) & o & Ho & Hu). destruct (fsProposalUpdate_spec _ _ _ Hu) as (-> & Hra & _).
    split; [|by exists o]. assert (∀ l, Some (PSlot p.2) = Some l → is_u64 l).
    { intros l [= <-]. unfold is_u64, two63, two64 in *. lia. }
    destruct o as [w|]; [|by split_and!]. destruct (readsAs_typed _ _ _ Hc Ho) as (_ & ? & ?). by split_and!.
  - split; [by split_and!|]. exists None. split; [done|]. by intros w.
Qed.

(** Files other than the one of the call, and calls of other keys. *)
Lemma readsAs_insert s pk f pk' o :
  pk' ≠ pk → readsAs s pk' o → readsAs (mkFSStore (<[pk := f]> (slashingProtectionDir s))) pk' o.
Proof. intros Hne. destruct o; cbn; by rewrite lookup_insert_ne. Qed.

Lemma consistent_insert s pk f x :
  (toWrite x ≠ None → callKey x ≠ pk) → consistent s x →
  consistent (mkFSStore (<[pk := f]> (slashingProtectionDir s))) x.
Proof.
  intros Hne. destruct x as [r v|p v|pk'| | |]; cbn in *; try done.
  - intros (Hv & o & Ho & Hu). split; [done|]. exists o. split; [|done]. by apply readsAs_insert; [apply Hne|].
  - intros (Hv & o & Ho & Hu). split; [done|]. exists o. split; [|done]. by apply readsAs_insert; [apply Hne|].
  - intros Ho. rewrite lookup_insert_ne; [done|]. intros E. by apply Hne.
Qed.

(** ** The steps *)

Lemma finish_done x err : toWrite (finish x err) = None.
Proof. by destruct x. Qed.

(** A call that passes is not slashable with what the file guards. *)
Lemma attWriting_apart s r v r' : consistent s (AttWriting r v) → guardsAtt s r' → ¬ slashableAttestations r' r.
Proof.
  intros (_ & o & Ho & Hu) (f & Hf & Hg) (Hpk & Hsl). destruct (fsAttestationUpdate_spec _ _ _ Hu) as (-> & Hra & Hlt).
  rewrite Hpk in Hf. destruct o as [w|]; cbn in Ho; [|congruence]. destruct Ho as (f' & Hf' & Hw).
  rewrite Hf in Hf'. injection Hf' as <-. destruct (Hg w Hw) as (Hs & t & Ht & Hle).
  destruct (Hra w eq_refl) as (H1 & _). specialize (Hlt w t eq_refl Ht). cbn in *.
  destruct Hsl as [[? _]|[Hsur|Hsur]]; [lia| |]; apply Is_true_true in Hsur; unfold IsSurround in Hsur;
    cbn in Hsur; bprop; lia.
Qed.

Lemma blockWriting_apart s p v p' : consistent s (BlockWriting p v) → guardsBlock s p' → ¬ slashableProposals p' p.
Proof.
  intros (_ & o & Ho & Hu) (f & Hf & Hg) (Hpk & Hsl & _). destruct (fsProposalUpdate_spec _ _ _ Hu) as (-> & Hra & Hlt).
  rewrite Hpk in Hf. destruct o as [w|]; cbn in Ho; [|congruence]. destruct Ho as (f' & Hf' & Hw).
  rewrite Hf in Hf'. injection Hf' as <-. destruct (Hg w Hw) as (l & Hl & Hle).
  specialize (Hlt l). cbn in Hlt. specialize (Hlt Hl). lia.
Qed.

(** A call that has read. *)
Lemma protected_read s calls i x :
  calls !! i = None → (∀ j y, calls !! j = Some y → toWrite y ≠ None → callKey y ≠ callKey x) →
  consistent s x → (∀ r, x ≠ AttDone r None) → (∀ p, x ≠ BlockDone p None) →
  FSProtected (mkFSClient s calls) → FSProtected (mkFSClient s (<[i := x]> calls)).
Proof.
  intros Hi Hal Hcons Hna Hnb [Ht Hone Hc Ha Hb Haa Hbb]. cbn [fsDir fsCalls] in *.
  split; cbn [fsDir fsCalls]; [done|..].
  - intros j k y z. rewrite !lookup_insert. case_decide as Hj; case_decide as Hk; subst; [done|..].
    + intros [= <-] Hz _ Hwz E. by destruct (Hal k z Hz Hwz).
    + intros Hy [= <-] Hwy _ E. by destruct (Hal j y Hy Hwy).
    + intros Hy Hz Hwy Hwz. by apply (Hone j k y z).
  - intros j y. rewrite lookup_insert. case_decide; [by intros [= <-]|apply Hc].
  - intros j r. rewrite lookup_insert. case_decide; [intros [= ->]; by destruct (Hna r)|apply Ha].
  - intros j p. rewrite lookup_insert. case_decide; [intros [= ->]; by destruct (Hnb p)|apply Hb].
  - intros j k r r'. rewrite !lookup_insert. case_decide; [intros [= ->]; by destruct (Hna r)|].
    case_decide; [intros _ [= ->]; by destruct (Hna r')|apply Haa].
  - intros j k p p'. rewrite !lookup_insert. case_decide; [intros [= ->]; by destruct (Hnb p)|].
    case_decide; [intros _ [= ->]; by destruct (Hnb p')|apply Hbb].
Qed.

(** A call that ends with an error, or is cut off, changes nothing that counts. *)
Lemma protected_fail s calls calls' :
  (∀ i y, calls' !! i = Some y → ∃ x, calls !! i = Some x ∧ (y = x ∨ ∃ err, y = finish x (Some err))) →
  FSProtected (mkFSClient s calls) → FSProtected (mkFSClient s calls').
Proof.
  intros Hin [Ht Hone Hc Ha Hb Haa Hbb]. cbn [fsDir fsCalls] in *.
  assert (Hatt : ∀ i r, calls' !! i = Some (AttDone r None) → calls !! i = Some (AttDone r None)).
  { intros i r (x & Hx & [<-|[err E]])%Hin; [done|]. by destruct x; cbn in E; simplify_eq. }
  assert (Hblk : ∀ i p, calls' !! i = Some (BlockDone p None) → calls !! i = Some (BlockDone p None)).
  { intros i p (x & Hx & [<-|[err E]])%Hin; [done|]. by destruct x; cbn in E; simplify_eq. }
  split; cbn [fsDir fsCalls]; [done|..].
  - intros j k y z (y0 & Hy & [->|[e ->]])%Hin (z0 & Hz & [->|[e' ->]])%Hin; rewrite ?finish_done; try done.
    by apply Hone.
  - intros j y (y0 & Hy & [->|[e ->]])%Hin; [by eapply Hc|]. specialize (Hc j y0 Hy). by destruct y0.
  - intros j r Hr%Hatt. by eapply Ha.
  - intros j p Hp%Hblk. by eapply Hb.
  - intros j k r r' Hr%Hatt Hr'%Hatt. by eapply Haa.
  - intros j k p p' Hp%Hblk Hp'%Hblk. by eapply Hbb.
Qed.

(** The write of a call: the file has what the call computed, or is unreadable. *)
Lemma protected_written s calls i x v f err :
  calls !! i = Some x → toWrite x = Some v → (∀ w, Unmarshal f = Some w → w = v) →
  FSProtected (mkFSClient s calls) →
  FSProtected (mkFSClient (mkFSStore (<[callKey x := f]> (slashingProtectionDir s))) (<[i := finish x err]> calls)).
Proof.
  intros Hx Hv Hf Hc0. destruct (toWrite_spec _ i x v Hc0 Hx Hv) as (Hty & o & Ho & Hra).
  pose proof Hc0 as [Ht Hone Hc Ha Hb Haa Hbb]. cbn [fsDir fsCalls] in *.
  assert (Hga : ∀ r, guardsAtt s r → guardsAtt (mkFSStore (<[callKey x := f]> (slashingProtectionDir s))) r).
  { intros r. apply (fileHas_write _ _ o v); [|done]. intros _. split_and!; [done|done|]. intros w ??. by eapply boundsAtt_raises. }
  assert (Hgb : ∀ p, guardsBlock s p → guardsBlock (mkFSStore (<[callKey x := f]> (slashingProtectionDir s))) p).
  { intros p. apply (fileHas_write _ _ o v); [|done]. intros _. split_and!; [done|done|]. intros w ??. by eapply boundsBlock_raises. }
  pose proof (Hc i x Hx) as Hcons.
  split; cbn [fsDir fsCalls slashingProtectionDir].
  - intros pk g w. rewrite lookup_insert. case_decide; [|apply Ht]. intros [= <-] ->%Hf. done.
  - intros j k y z. rewrite !lookup_insert. case_decide; [intros [= <-]; by rewrite finish_done|].
    case_decide; [intros _ [= <-]; by rewrite finish_done|]. apply Hone.
  - intros j y. rewrite lookup_insert. case_decide as Hj; [intros [= <-]; by destruct x|]. intros Hy.
    apply consistent_insert; [|by eapply Hc]. intros Hwy E. apply Hj. symmetry. apply (Hone j i y x); [done..|by rewrite Hv|done].
  - intros j r. rewrite lookup_insert. case_decide; [|intros Hr; by apply Hga, (Ha j)]. intros E.
    destruct x as [r0 v0| | | | |]; try done. injection E as <- ->. injection Hv as ->.
    exists f. cbn. rewrite lookup_insert_eq. split; [done|]. intros w ->%Hf. destruct Hcons as (_ & o' & _ & Hu).
    destruct (fsAttestationUpdate_spec _ _ _ Hu) as (-> & _). split; cbn; [done|]. eexists. split; [done|]. done.
  - intros j p. rewrite lookup_insert. case_decide; [|intros Hr; by apply Hgb, (Hb j)]. intros E.
    destruct x as [|p0 v0| | | |]; try done. injection E as <- ->. injection Hv as ->.
    exists f. cbn. rewrite lookup_insert_eq. split; [done|]. intros w ->%Hf. destruct Hcons as (_ & o' & _ & Hu).
    destruct (fsProposalUpdate_spec _ _ _ Hu) as (-> & _). eexists. split; [done|]. done.
  - intros j k r r'. rewrite !lookup_insert. case_decide; case_decide.
    + intros E E'. rewrite E in E'. injection E' as <-. apply slashableAttestations_irrefl.
    + intros E Hr'. destruct x as [r0 v0| | | | |]; try done. injection E as <- ->.
      intros Hsl%slashableAttestations_sym. by apply (attWriting_apart s r0 v0 r' Hcons); [eapply Ha|].
    + intros Hr E. destruct x as [r0 v0| | | | |]; try done. injection E as <- ->.
      by apply (attWriting_apart s r0 v0 r Hcons); eapply Ha.
    + apply Haa.
  - intros j k p p'. rewrite !lookup_insert. case_decide; case_decide.
    + intros E E'. rewrite E in E'. injection E' as <-. by intros (_ & _ & ?).
    + intros E Hp'. destruct x as [|p0 v0| | | |]; try done. injection E as <- ->.
      intros Hsl%slashableProposals_sym. by apply (blockWriting_apart s p0 v0 p' Hcons); [eapply Hb|].
    + intros Hp E. destruct x as [|p0 v0| | | |]; try done. injection E as <- ->.
      by apply (blockWriting_apart s p0 v0 p Hcons); eapply Hb.
    + apply Hbb.
Qed.

Lemma fs_protected_step e c c' : fsStep e c c' → fsInTime c e → FSProtected c → FSProtected c'.
Proof.
  destruct 1 as [s calls i r x Hi Hv Hl Hx|s calls i p x Hi Hv Hl Hx|s calls i pk Hi Hnone
                |s s' calls i x v io res Hx Hv Hsave|s calls]; cbn [fsInTime fsCalls]; intros Ht Hc.
  - unfold begun in Hx. destruct (withProtection s (ARPubKey r) _) as [v|err| |] eqn:E; [..|done|done];
      injection Hx as <-; (apply protected_read; [done|done| |done|done|done]); [|done].
    split; [done|]. by apply withProtection_reads in E.
  - unfold begun in Hx. destruct (withProtection s p.1 _) as [v|err| |] eqn:E; [..|done|done];
      injection Hx as <-; (apply protected_read; [done|done| |done|done|done]); [|done].
    split; [done|]. by apply withProtection_reads in E.
  - by apply protected_read.
  - destruct (toWrite_spec _ i x v Hc Hx Hv) as [Hty _]. specialize (Ht x v Hx Hv).
    unfold saveValidatorSlashingProtection, WriteFile in Hsave. destruct io as [|err|err n]; injection Hsave as <- <-; cbn [errOf].
    + apply (protected_written _ _ _ _ v); [done|done| |done]. intros w. rewrite Unmarshal_Marshal by done. by intros [= <-].
    + apply (protected_fail s calls); [|done]. intros j y. rewrite lookup_insert. case_decide; [|eauto].
      intros [= <-]. subst. eauto.
    + apply (protected_written _ _ _ _ v); [done|done| |done]. intros w Hw. destruct Ht as [E|E]; congruence.
  - apply (protected_fail s calls); [|done]. intros j y. rewrite lookup_fmap_Some. naive_solver.
Qed.

Lemma fs_protected_atts c r r' :
  FSProtected c → attPublished c r → attPublished c r' → ¬ slashableAttestations r r'.
Proof. intros Hc [i Hi] [j Hj]. by apply (fsp_attsApart _ Hc i j). Qed.
Lemma fs_protected_blocks c p p' :
  FSProtected c → blockPublished c p → blockPublished c p' → ¬ slashableProposals p p'.
Proof. intros Hc [i Hi] [j Hj]. by apply (fsp_blocksApart _ Hc i j). Qed.

#[global] Instance FS_laws : SlashingProtectionLaws FSClient := {|
  Protected := FSProtected;
  protected_step := fs_protected_step;
  protected_atts := fs_protected_atts;
  protected_blocks := fs_protected_blocks
|}.

Lemma fsStart_protected : FSProtected fsStart.
Proof. split; cbn; intros *; by rewrite lookup_empty. Qed.

(** ** What the files hold was asked for *)

Definition callAtt (x : FSCall) : option AttestationRecord :=
  match x with AttWriting r _ | AttDone r _ => Some r | _ => None end.
Definition callBlock (x : FSCall) : option (bytes * Proposal) :=
  match x with BlockWriting p _ | BlockDone p _ => Some p | _ => None end.

Definition fsAsked (calls : gmap nat FSCall) (r : AttestationRecord) : Prop :=
  ∃ i x, calls !! i = Some x ∧ callAtt x = Some r.
Definition fsAskedBlock (calls : gmap nat FSCall) (p : bytes * Proposal) : Prop :=
  ∃ i x, calls !! i = Some x ∧ callBlock x = Some p.

Definition fromAsked (calls : gmap nat FSCall) (pk : bytes) (v : ValidatorSlashingProtection) : Prop :=
  (LastSignedAttestationSourceEpoch v = 0 ∨
   ∃ r, fsAsked calls r ∧ ARPubKey r = pk ∧ ARSource r = LastSignedAttestationSourceEpoch v) ∧
  (∀ t, LastSignedAttestationTargetEpoch v = Some t → ∃ r, fsAsked calls r ∧ ARPubKey r = pk ∧ ARTarget r = t) ∧
  (∀ l, LatestSignedBlockSlot v = Some l → ∃ p, fsAskedBlock calls p ∧ p.1 = pk ∧ PSlot p.2 = l).

(** Calls that go on or are added. *)
Definition callsGrow (calls calls' : gmap nat FSCall) : Prop :=
  ∀ i x, calls !! i = Some x → ∃ y, calls' !! i = Some y ∧ callAtt y = callAtt x ∧ callBlock y = callBlock x.

Lemma callsGrow_new calls i x : calls !! i = None → callsGrow calls (<[i := x]> calls).
Proof. intros Hi j y Hy. exists y. rewrite lookup_insert_ne; [done|]. congruence. Qed.

Lemma callsGrow_finish calls i x err : calls !! i = Some x → callsGrow calls (<[i := finish x err]> calls).
Proof.
  intros Hx j y Hy. rewrite lookup_insert. case_decide; [|by exists y]. subst. rewrite Hx in Hy. injection Hy as <-.
  eexists. split; [done|]. by destruct x.
Qed.

Lemma fromAsked_grow calls calls' pk v : callsGrow calls calls' → fromAsked calls pk v → fromAsked calls' pk v.
Proof.
  intros Hg. assert (Ha : ∀ r, fsAsked calls r → fsAsked calls' r).
  { intros r (i & x & (y & Hy & E & _)%Hg & Hr). exists i, y. split; [done|]. by rewrite E. }
  assert (Hb : ∀ p, fsAskedBlock calls p → fsAskedBlock calls' p).
  { intros p (i & x & (y & Hy & _ & E)%Hg & Hr). exists i, y. split; [done|]. by rewrite E. }
  intros (H1 & H2 & H3). split_and!.
  - destruct H1 as [?|(r & ? & ?)]; [by left|right]. exists r. split; [by apply Ha|done].
  - intros t (r & ? & ?)%H2. exists r. split; [by apply Ha|done].
  - intros l (p & ? & ?)%H3. exists p. split; [by apply Hb|done].
Qed.

Record FSHolds (c : FSClient) : Prop := {
  fsh_files : ∀ pk f v, slashingProtectionDir (fsDir c) !! pk = Some f → Unmarshal f = Some v → fromAsked (fsCalls c) pk v;
  fsh_calls : ∀ i x v, fsCalls c !! i = Some x → toWrite x = Some v → fromAsked (fsCalls c) (callKey x) v
}.

Lemma fsStart_holds : FSHolds fsStart.
Proof. split; cbn; intros *; by rewrite lookup_empty. Qed.

Lemma fsHolds_read s calls i x :
  calls !! i = None → (∀ v, toWrite x = Some v → fromAsked (<[i := x]> calls) (callKey x) v) →
  FSHolds (mkFSClient s calls) → FSHolds (mkFSClient s (<[i := x]> calls)).
Proof.
  intros Hi Hx [H1 H2]. pose proof (callsGrow_new calls i x Hi) as Hg. split; cbn [fsDir fsCalls] in *.
  - intros pk f v Hf Hv. eapply fromAsked_grow; [done|]. by eapply H1.
  - intros j y v. rewrite lookup_insert. case_decide; [intros [= <-]; apply Hx|].
    intros Hy Hv. eapply fromAsked_grow; [done|]. by eapply H2.
Qed.

Lemma fsHolds_att s calls i r v :
  calls !! i = None → withProtection s (ARPubKey r) (λ v, fsAttestationUpdate v (recordAtt r)) = Ret v →
  FSHolds (mkFSClient s calls) → FSHolds (mkFSClient s (<[i := AttWriting r v]> calls)).
Proof.
  intros Hi (o & Ho & Hu)%withProtection_reads Hh. apply fsHolds_read; [done| |done]. intros v' [= <-].
  destruct (fsAttestationUpdate_spec _ _ _ Hu) as (-> & _ & _).
  assert (Hr : fsAsked (<[i := AttWriting r (mkVSP (o ≫= LatestSignedBlockSlot) (SourceEpoch (recordAtt r))
    (Some (TargetEpoch (recordAtt r))))]> calls) r) by (exists i; eexists; rewrite lookup_insert_eq; done).
  split_and!; cbn.
  - right. by exists r.
  - intros t [= <-]. by exists r.
  - intros l Hl. destruct o as [w|]; [|done]. destruct Ho as (f & Hf & Hw). cbn in Hl.
    eapply fromAsked_grow; [by apply callsGrow_new|by eapply (fsh_files _ Hh)|done].
Qed.

Lemma fsHolds_block s calls i p v :
  calls !! i = None → withProtection s p.1 (λ v, fsProposalUpdate v (PSlot p.2)) = Ret v →
  FSHolds (mkFSClient s calls) → FSHolds (mkFSClient s (<[i := BlockWriting p v]> calls)).
Proof.
  intros Hi (o & Ho & Hu)%withProtection_reads Hh. apply fsHolds_read; [done| |done]. intros v' [= <-].
  destruct (fsProposalUpdate_spec _ _ _ Hu) as (-> & _ & _).
  destruct o as [w|]; cbn.
  - destruct Ho as (f & Hf & Hw).
    destruct (fromAsked_grow _ _ _ _ (callsGrow_new calls i (BlockWriting p (mkVSP (Some (PSlot p.2))
      (LastSignedAttestationSourceEpoch w) (LastSignedAttestationTargetEpoch w))) Hi) (fsh_files _ Hh _ _ _ Hf Hw)) as (F1 & F2 & F3).
    split_and!; [done|done|]. intros l [= <-]. exists p. split; [|done]. exists i. eexists. by rewrite lookup_insert_eq.
  - split_and!; [by left|done|]. intros l [= <-]. exists p. split; [|done]. exists i. eexists. by rewrite lookup_insert_eq.
Qed.

Lemma fsHolds_step c c' : inTimeStep c c' → FSProtected c → FSHolds c → FSHolds c'.
Proof.
  intros (e & Hstep & Ht) Hc Hh. cbn in Hstep, Ht.
  destruct Hstep as [s calls i r x Hi Hv Hl Hx|s calls i p x Hi Hv Hl Hx|s calls i pk Hi Hnone
                    |s s' calls i x v io res Hx Hv Hsave|s calls]; cbn [fsInTime fsCalls] in Ht.
  - unfold begun in Hx. destruct (withProtection s (ARPubKey r) _) as [v|err| |] eqn:E; [..|done|done]; injection Hx as <-.
    + by apply fsHolds_att.
    + by apply fsHolds_read.
  - unfold begun in Hx. destruct (withProtection s p.1 _) as [v|err| |] eqn:E; [..|done|done]; injection Hx as <-.
    + by apply fsHolds_block.
    + by apply fsHolds_read.
  - apply fsHolds_read; [done| |done]. intros v [= <-]. split_and!; [by left|done|done].
  - destruct (toWrite_spec _ i x v Hc Hx Hv) as [Hty _]. specialize (Ht x v Hx Hv).
    pose proof (callsGrow_finish calls i x (errOf res) Hx) as Hg.
    assert (Hdir : ∀ pk f w, slashingProtectionDir s' !! pk = Some f → Unmarshal f = Some w →
      slashingProtectionDir s !! pk = Some f ∨ (pk = callKey x ∧ w = v)).
    { unfold saveValidatorSlashingProtection, WriteFile in Hsave. intros pk f w.
      destruct io as [|err|err n]; injection Hsave as <- <-; cbn; [|by left|]; rewrite lookup_insert;
        (case_decide; [|by left]); intros [= <-] Hw; right; (split; [done|]).
      - rewrite Unmarshal_Marshal in Hw by done. by injection Hw.
      - destruct Ht; congruence. }
    split; cbn [fsDir fsCalls].
    + intros pk f w Hf Hw. eapply fromAsked_grow; [done|].
      destruct (Hdir pk f w Hf Hw) as [Hf'|[-> ->]]; [by eapply (fsh_files _ Hh)|by eapply (fsh_calls _ Hh)].
    + intros j y w. rewrite lookup_insert. case_decide; [intros [= <-]; by rewrite finish_done|].
      intros Hy Hw. eapply fromAsked_grow; [done|]. by eapply (fsh_calls _ Hh).
  - assert (Hg : callsGrow calls ((λ x, finish x (Some "interrupted"%string)) <$> calls)).
    { intros j y Hy. exists (finish y (Some "interrupted"%string)). rewrite lookup_fmap, Hy. split; [done|]. by destruct y. }
    split; cbn [fsDir fsCalls].
    + intros pk f w Hf Hw. eapply fromAsked_grow; [done|]. by eapply (fsh_files _ Hh).
    + intros j y w. rewrite lookup_fmap_Some. intros (z & <- & _). by rewrite finish_done.
Qed.

Lemma fsHolds_run c c' : FSProtected c → FSHolds c → rtc inTimeStep c c' → FSProtected c' ∧ FSHolds c'.
Proof.
  intros Hc Hh Hrun. induction Hrun as [|c c1 c2 Hs _ IH]; [done|].
  apply IH; [|by eapply fsHolds_step]. destruct Hs as (e & Hs & Ht). by eapply fs_protected_step.
Qed.

(** ** Progress *)

(** A key whose file can be read, or that has none. *)
Definition readable (s : FSStore) (pk : bytes) : Prop := ∃ o, validatorSlashingProtection s pk = Ret o.

Lemma readable_reads {A} s pk (k : _ → outcome A) :
  readable s pk → ∃ o, readsAs s pk o ∧ withProtection s pk k = k o.
Proof.
  intros [o Ho]. exists o. unfold withProtection. rewrite Ho. split; [|done].
  unfold validatorSlashingProtection in Ho. destruct (slashingProtectionDir s !! pk) as [f|] eqn:E.
  - destruct (Unmarshal f) as [w|] eqn:Ew; [|done]. injection Ho as <-. by exists f.
  - by injection Ho as <-.
Qed.

Lemma fs_attestation_progress c att pk root meanwhile :
  FSHolds c → readable (fsDir c) pk → validAttestation att root →
  (∀ r, fsAsked (fsCalls c) r → ARPubKey r = pk → ARSource r ≤ SourceEpoch att ∧ ARTarget r < TargetEpoch att) →
  (fsSlashableAttestationCheck meanwhile Written (fsDir c) att pk root).2 = Ret tt.
Proof.
  intros Hh Hre Hv Hnew. unfold fsSlashableAttestationCheck, fsSaveAttestationForPubKey.
  destruct (readable_reads _ _ (λ v, fsAttestationUpdate v att) Hre) as (o & Ho & ->).
  destruct o as [w|]; cbn [fsAttestationUpdate]; [|done]. destruct Ho as (f & Hf & Hw).
  destruct (fsh_files _ Hh _ _ _ Hf Hw) as (F1 & F2 & _).
  destruct (Z.ltb_spec (SourceEpoch att) (LastSignedAttestationSourceEpoch w)).
  { exfalso. destruct F1 as [E|(r & Hr & Hpk & E)]; [destruct Hv as [[? ?] _]; lia|]. destruct (Hnew r Hr Hpk). lia. }
  destruct (LastSignedAttestationTargetEpoch w) as [t|] eqn:Et; [|done].
  destruct (Z.leb_spec (TargetEpoch att) t); [|done].
  destruct (F2 t eq_refl) as (r & Hr & Hpk & E). destruct (Hnew r Hr Hpk). lia.
Qed.

Lemma fs_proposal_progress c pk slot root meanwhile :
  FSHolds c → readable (fsDir c) pk → (∀ p, fsAskedBlock (fsCalls c) p → p.1 = pk → PSlot p.2 < slot) →
  (fsSlashableProposalCheck meanwhile Written (fsDir c) pk slot root).2 = Ret tt.
Proof.
  intros Hh Hre Hnew. unfold fsSlashableProposalCheck, fsSaveProposalHistoryForSlot.
  destruct (readable_reads _ _ (λ v, fsProposalUpdate v slot) Hre) as (o & Ho & ->).
  destruct o as [w|]; cbn [fsProposalUpdate]; [|done]. destruct Ho as (f & Hf & Hw).
  destruct (fsh_files _ Hh _ _ _ Hf Hw) as (_ & _ & F3).
  destruct (LatestSignedBlockSlot w) as [l|] eqn:El; [|done]. destruct (Z.leb_spec slot l); [|done].
  destruct (F3 l eq_refl) as (p & Hp & Hpk & E). specialize (Hnew p Hp Hpk). lia.
Qed.

(** ** Checks that pass *)

(** A check that is answered without an error is a read, what happens meanwhile, and a
    write after which the message is published. *)
Lemma fsSlashableAttestationCheck_steps meanwhile io i c r s' :
  fsCalls c !! i = None → RecordValid r → fsAttesterLockFree (fsCalls c) (ARPubKey r) → fsInTime c (FsRead (ARPubKey r)) →
  fsSlashableAttestationCheck meanwhile io (fsDir c) (recordAtt r) (ARPubKey r) (ARSigningRoot r) = (s', Ret tt) →
  ∃ v, inTimeStep c (mkFSClient (fsDir c) (<[i := AttWriting r v]> (fsCalls c))) ∧
    ∀ calls, calls !! i = Some (AttWriting r v) →
      inTimeStep (mkFSClient (meanwhile (fsDir c)) calls) (mkFSClient s' (<[i := AttDone r None]> calls)).
Proof.
  destruct c as [s calls0]. cbn [fsDir fsCalls]. intros Hi Hv Hlock Ht. unfold fsSlashableAttestationCheck, fsSaveAttestationForPubKey.
  destruct (withProtection s _ _) as [v| | |] eqn:Ew; [|done..]. intros Hres. exists v. split.
  - exists (FsRead (ARPubKey r)). split; [|done]. apply fs_attest; [done..|]. by rewrite Ew.
  - intros calls Hc. destruct io; [|done..]. injection Hres as <-. exists (FsWrite i Written). split; [|done].
    by apply (fs_write _ _ _ _ (AttWriting r v) v Written (Ret tt)).
Qed.

Lemma fsSlashableProposalCheck_steps meanwhile io i c p s' :
  fsCalls c !! i = None → validProposal (PSlot p.2) (PSigningRoot p.2) → fsProposerLockFree (fsCalls c) → fsInTime c (FsRead p.1) →
  fsSlashableProposalCheck meanwhile io (fsDir c) p.1 (PSlot p.2) (PSigningRoot p.2) = (s', Ret tt) →
  ∃ v, inTimeStep c (mkFSClient (fsDir c) (<[i := BlockWriting p v]> (fsCalls c))) ∧
    ∀ calls, calls !! i = Some (BlockWriting p v) →
      inTimeStep (mkFSClient (meanwhile (fsDir c)) calls) (mkFSClient s' (<[i := BlockDone p None]> calls)).
Proof.
  destruct c as [s calls0]. cbn [fsDir fsCalls]. intros Hi Hv Hlock Ht. unfold fsSlashableProposalCheck, fsSaveProposalHistoryForSlot.
  destruct (withProtection s _ _) as [v| | |] eqn:Ew; [|done..]. intros Hres. exists v. split.
  - exists (FsRead p.1). split; [|done]. apply fs_propose; [done..|]. by rewrite Ew.
  - intros calls Hc. destruct io; [|done..]. injection Hres as <-. exists (FsWrite i Written). split; [|done].
    by apply (fs_write _ _ _ _ (BlockWriting p v) v Written (Ret tt)).
Qed.

Lemma fsSlashableAttestationCheck_pass meanwhile io s att pk root :
  FSTyped s → (fsSlashableAttestationCheck meanwhile io s att pk root).2 = Ret tt →
  ∀ v, vspOf s pk = Some v → LastSignedAttestationSourceEpoch v ≤ SourceEpoch att ∧
    ∀ t, LastSignedAttestationTargetEpoch v = Some t → t < TargetEpoch att.
Proof.
  intros Hs. unfold fsSlashableAttestationCheck, fsSaveAttestationForPubKey. rewrite withProtection_view by done.
  destruct (fsAttestationUpdate (vspOf s pk) att) as [v'| | |] eqn:Eu; [|done..]. intros _ v Hv.
  destruct (fsAttestationUpdate_spec _ _ _ Eu) as (-> & Hra & Hlt). destruct (Hra v Hv) as (H1 & _). split; [done|].
  intros t Ht. by eapply Hlt.
Qed.

Lemma fsSlashableProposalCheck_pass meanwhile io s pk slot root :
  FSTyped s → (fsSlashableProposalCheck meanwhile io s pk slot root).2 = Ret tt →
  ∀ l, vspOf s pk ≫= LatestSignedBlockSlot = Some l → l < slot.
Proof.
  intros Hs. unfold fsSlashableProposalCheck, fsSaveProposalHistoryForSlot. rewrite withProtection_view by done.
  destruct (fsProposalUpdate (vspOf s pk) slot) as [v'| | |] eqn:Eu; [|done..]. intros _.
  by destruct (fsProposalUpdate_spec _ _ _ Eu) as (-> & _ & Hlt).
Qed.
End laws.

(** ** A concrete format *)

Definition listMarshal (v : ValidatorSlashingProtection) : bytes :=
  match v with
  | mkVSP None s None => [0; s]
  | mkVSP None s (Some t) => [1; s; t]
  | mkVSP (Some b) s None => [2; s; b]
  | mkVSP (Some b) s (Some t) => [3; s; b; t]
  end.
Definition listUnmarshal (c : bytes) : option ValidatorSlashingProtection :=
  match c with
  | [] => Some emptyVSP
  | [0; s] => Some (mkVSP None s None)
  | [1; s; t] => Some (mkVSP None s (Some t))
  | [2; s; b] => Some (mkVSP (Some b) s None)
  | [3; s; b; t] => Some (mkVSP (Some b) s (Some t))
  | _ => None
  end.
#[program] Definition listYaml : Yaml := {| Marshal := listMarshal; Unmarshal := listUnmarshal |}.
Next Obligation. intros [[b|] s [t|]] _; done. Qed.
Next Obligation. done. Qed.

(** ** What the condition is for *)

(** A write that fails right after the truncation forgets the key: whatever the file held,
    afterwards every vote and every block passes. *)
Lemma truncated_file_forgets `{Yaml} (s : FSStore) pk v err meanwhile att slot root :
  let s' := (saveValidatorSlashingProtection (Torn err 0) s pk v).1 in
  0 ≤ SourceEpoch att →
  (fsSlashableAttestationCheck meanwhile Written s' att pk root).2 = Ret tt ∧
  (fsSlashableProposalCheck meanwhile Written s' pk slot root).2 = Ret tt.
Proof.
  cbv zeta. intros Hs. unfold fsSlashableAttestationCheck, fsSlashableProposalCheck, fsSaveAttestationForPubKey,
    fsSaveProposalHistoryForSlot, withProtection, validatorSlashingProtection, saveValidatorSlashingProtection, WriteFile.
  cbn [fst slashingProtectionDir take]. rewrite lookup_insert_eq, Unmarshal_nil. cbn.
  destruct (Z.ltb_spec (SourceEpoch att) 0); [lia|]. done.
Qed.

(** A proposal between the read and the write of an attestation is lost: the block for slot
    100 passes, then the attestation that had read the file before writes it back without
    the slot, and a second block for slot 100 passes. *)
Lemma overlapping_calls_lose_block :
  let pk := replicate 48 1 in
  let propose s := (@fsSlashableProposalCheck listYaml id Written s pk 100 []) in
  let between s := (propose s).1 in
  let s := (@fsSlashableAttestationCheck listYaml between Written emptyFSStore (mkAtt 3 4) pk []).1 in
  (propose emptyFSStore).2 = Ret tt ∧ (propose s).2 = Ret tt.
Proof. split; vm_compute; reflexivity. Qed.
