(* ===== verification/ProtectionSafety.v ===== *)
(** * Slashing protection: what a client can rely on

    A validator client asks the database before it publishes an attestation
    ([validator/client/attest.go]) or a block ([validator/client/propose.go]) and
    drops the message when the database refuses.  The theorems instantiate the promise of
    [Protection.v] for the two databases, under the condition [inTime] of each, and show
    that messages that move forward are not refused.  [ProtectionRace.v] and the end of
    [ProtectionFS.v] have runs outside the conditions. *)

From S2P Require Import Prelude MathHelper Primitives SlotTime Bytes Protection ProtectionKV ProtectionView ProtectionCheck ProtectionBatch ProtectionKVLaws ProtectionFS.

(** C2. Safety of the complete database: goroutines attest and propose with any keys at
    the same time, interleaved in any way with the worker that saves the records and with
    writes that fail, and the process stops and starts any number of times; the
    attestations whose check is answered without an error never contain a double vote or a
    surround vote, and the blocks never two different ones for a slot.  The condition on
    the runs is [kvInTime]: when a key attests again, or the process stops, no record of a
    call that was answered without an error is still on its way to the database; the
    proposals of a key lie within one weak subjectivity period; and no start prunes the
    database.  The second part says the same of one call of the whole check, with any
    schedule: what it answers without an error is safe to publish. *)
Theorem complete_database_safe `{Bolt} `{BeaconChainConfig} (c : KVClient) :
  rtc inTimeStep (kvStart emptyDB) c →
  publishedSafely c ∧
  ∀ d1 d2 d3 untilSubscribed untilTold me r x',
    (kvCalls c).2 !! me = None → RecordValid r → attesterLockFree (kvCalls c).2 (ARPubKey r) → answersSaved (kvCalls c) (ARPubKey r) →
    kvSlashableAttestationCheck d1 d2 d3 untilSubscribed untilTold me (kvCalls c)
      (recordAtt r) (ARPubKey r) (ARSigningRoot r) = (x', Ret tt) →
    publishedSafely (mkKVClient x' (kvBlocks c)) ∧ attPublished (mkKVClient x' (kvBlocks c)) r.
Proof.
  intros Hrun. assert (Hc : Protected c) by (eapply protected_run; [|done]; apply kvStart_protected, emptyDB_ok).
  split; [by apply protected_safely|]. intros d1 d2 d3 us ut me r x' Hme Hv Hlock Hsaved Hcheck.
  destruct (kvSlashableAttestationCheck_run _ _ _ _ _ _ _ _ _ Hme Hv Hlock Hsaved Hcheck) as [Hrun' Hpub].
  split; [|done]. eapply protected_safely, protected_run; done.
Qed.

(** C11. Safety of the minimal database: calls for different keys interleave in any way,
    each reading its file, deciding, and writing it later; writes fail and the process
    stops and starts; the published messages are again never slashable, without a bound on
    the slots.  The condition on the runs is [fsInTime]: no call of a key begins while
    another call of the same key is between its read and its write, and a write that fails
    half-way leaves the new content or something that cannot be parsed.  The other two
    parts say the same of one call of each check, when what happens between its read and
    its write is such a run: what it answers without an error is safe to publish. *)
Theorem minimal_database_safe `{Yaml} (c : FSClient) :
  rtc inTimeStep fsStart c →
  publishedSafely c ∧
  (∀ meanwhile io i r s',
    fsCalls c !! i = None → RecordValid r → fsAttesterLockFree (fsCalls c) (ARPubKey r) → fsInTime c (FsRead (ARPubKey r)) →
    fsSlashableAttestationCheck meanwhile io (fsDir c) (recordAtt r) (ARPubKey r) (ARSigningRoot r) = (s', Ret tt) →
    ∃ v, ∀ calls, calls !! i = Some (AttWriting r v) →
      rtc inTimeStep (mkFSClient (fsDir c) (<[i := AttWriting r v]> (fsCalls c))) (mkFSClient (meanwhile (fsDir c)) calls) →
      publishedSafely (mkFSClient s' (<[i := AttDone r None]> calls))) ∧
  (∀ meanwhile io i p s',
    fsCalls c !! i = None → validProposal (PSlot p.2) (PSigningRoot p.2) → fsProposerLockFree (fsCalls c) → fsInTime c (FsRead p.1) →
    fsSlashableProposalCheck meanwhile io (fsDir c) p.1 (PSlot p.2) (PSigningRoot p.2) = (s', Ret tt) →
    ∃ v, ∀ calls, calls !! i = Some (BlockWriting p v) →
      rtc inTimeStep (mkFSClient (fsDir c) (<[i := BlockWriting p v]> (fsCalls c))) (mkFSClient (meanwhile (fsDir c)) calls) →
      publishedSafely (mkFSClient s' (<[i := BlockDone p None]> calls))).
Proof.
  intros Hrun. assert (Hc : Protected c) by (eapply protected_run; [|done]; apply fsStart_protected).
  split_and!; [by apply protected_safely| |]; intros meanwhile io i r s' Hi Hv Hlock Ht Hcheck;
    [destruct (fsSlashableAttestationCheck_steps _ _ _ _ _ _ Hi Hv Hlock Ht Hcheck) as (v & Hread & Hwrite)
    |destruct (fsSlashableProposalCheck_steps _ _ _ _ _ _ Hi Hv Hlock Ht Hcheck) as (v & Hread & Hwrite)];
    exists v; intros calls Hcalls Hmean; eapply protected_safely, protected_run; try exact Hc;
    (eapply rtc_l; [exact Hread|]); (eapply rtc_r; [exact Hmean|]); by apply Hwrite.
Qed.


(** ** Witnesses *)

Definition demoKey : bytes := replicate 48 1.
Definition demoRoot (b : Z) : bytes := replicate 32 b.

Section demo.
Context `{Bolt} `{BeaconChainConfig}.

Lemma client_eta x bs : mkKVClient x bs = mkKVClient (x.1, x.2) bs.
Proof. by destruct x. Qed.

Lemma answersSaved_empty x pk : pending x.1 = [] → answersSaved x pk.
Proof. intros E i r _ _. rewrite E. set_solver. Qed.

Lemma attesterLockFree_returned cs pk : map_Forall (λ _ x, underWay x = false) cs → attesterLockFree cs pk.
Proof. intros Hall i x Hx Hu. by rewrite (Hall i x Hx) in Hu. Qed.
End demo.

#[local] Existing Instances gmapBolt mainnetBeaconConfig.

(** A vote is saved; a vote that surrounds it is refused; a block is saved, and a second one
    for its slot refused; a later vote's write fails. *)
Definition demoVote (source target root : Z) : AttestationRecord := mkAttRecord demoKey source target (demoRoot root).
Definition demo0 : config := (openStore emptyDB, {[0%nat := Calling (demoVote 3 4 1)]}).
Definition demo1 : config := performAll demo0 (Send 0 :: Subscribe 0 :: promptly None).
Definition demo2 : config := (demo1.1, <[1%nat := Returned (demoVote 2 9 3) (Some errLowestSource)]> demo1.2).
Definition demo3 : config :=
  (setDB demo2.1 (SaveProposalHistoryForSlot (db demo2.1) demoKey 100 (demoRoot 4)), demo2.2).
Definition demo4 : config := (demo3.1, <[2%nat := Calling (demoVote 4 5 2)]> demo3.2).
Definition demo5 : config := performAll demo4 (Send 2 :: Subscribe 2 :: promptly (Some "disk full"%string)).
Definition demoBlock : bytes * Proposal := (demoKey, mkProposal 100 (demoRoot 4)).
Definition demoClient : KVClient := mkKVClient demo5 [demoBlock].

Lemma demo_valid s t b : is_u64 s → is_u64 t → RecordValid (demoVote s t b).
Proof. intros ??. split_and!; [done|done|]. apply length_replicate. Qed.

Lemma demo_run : rtc inTimeStep (kvStart emptyDB) demoClient.
Proof.
  apply (rtc_l _ _ (mkKVClient demo0 [])).
  { exists (EvAttest (demoVote 3 4 1)). split; [|by apply answersSaved_empty].
    apply (kv_attest _ _ _ 0 _ emptyDB emptyDB emptyDB); [done|by apply demo_valid| |vm_compute; reflexivity].
    by intros i x Hx. }
  transitivity (mkKVClient demo1 []); [apply batch_run|].
  apply (rtc_l _ _ (mkKVClient demo2 [])).
  { exists (EvAttest (demoVote 2 9 3)). split; [|apply answersSaved_empty; vm_compute; reflexivity].
    rewrite (client_eta demo1), (client_eta demo2).
    apply (kv_refuse demo1.1 demo1.2 [] 1 _ (db demo1.1) emptyDB emptyDB); [vm_compute; reflexivity|by apply demo_valid| |vm_compute; reflexivity].
    apply attesterLockFree_returned, (bool_decide_unpack _). vm_compute. reflexivity. }
  apply (rtc_l _ _ (mkKVClient demo3 [demoBlock])).
  { exists (EvPropose demoKey 100). split; [|intros p Hp; set_solver].
    rewrite (client_eta demo2), (client_eta demo3).
    apply (kv_propose demo2.1 demo3.1 demo2.2 [] None demoKey 100 (demoRoot 4) (Ret tt)).
    2:{ assert (E : proposalConditions (db demo2.1) demoKey 100 (demoRoot 4) = None) by (vm_compute; reflexivity).
        unfold kvSlashableProposalCheck. by rewrite E. }
    split; [vm_compute; split; congruence|apply length_replicate]. }
  apply (rtc_l _ _ (mkKVClient demo4 [demoBlock])).
  { exists (EvAttest (demoVote 4 5 2)). split; [|apply answersSaved_empty; vm_compute; reflexivity].
    rewrite (client_eta demo3), (client_eta demo4).
    apply (kv_attest demo3.1 demo3.2 _ 2 _ emptyDB emptyDB emptyDB); [vm_compute; reflexivity|by apply demo_valid| |vm_compute; reflexivity].
    apply attesterLockFree_returned, (bool_decide_unpack _). vm_compute. reflexivity. }
  apply batch_run.
Qed.

(** A further vote, whose record is saved together with the one that failed. *)
Definition nextVote : AttestationRecord := demoVote 5 6 8.
Definition nextCheck : config * outcome unit :=
  kvSlashableAttestationCheck emptyDB emptyDB emptyDB [] (promptly None) 3 (kvCalls demoClient)
    (recordAtt nextVote) demoKey (ARSigningRoot nextVote).

Definition answerSaved (x : config) (y : Caller) : bool :=
  match y with Returned r None => bool_decide (r ∉ pending x.1) | _ => true end.

Lemma answersSaved_all (x : config) pk : map_Forall (λ _ y, answerSaved x y = true) x.2 → answersSaved x pk.
Proof. intros Hall i r Hi _. specialize (Hall i _ Hi). by apply bool_decide_eq_true in Hall. Qed.

Lemma complete_database_safe_witness :
  publishedSafely demoClient ∧
  attPublished demoClient (demoVote 3 4 1) ∧ blockPublished demoClient demoBlock ∧
  (kvCalls demoClient).2 !! 2%nat = Some (Returned (demoVote 4 5 2) (Some "disk full"%string)) ∧
  publishedSafely (mkKVClient nextCheck.1 [demoBlock]) ∧ attPublished (mkKVClient nextCheck.1 [demoBlock]) nextVote.
Proof.
  destruct (complete_database_safe demoClient demo_run) as [P1 P2]. split; [exact P1|].
  split; [exists 0%nat; vm_compute; reflexivity|]. split; [constructor|]. split; [vm_compute; reflexivity|].
  apply (P2 emptyDB emptyDB emptyDB [] (promptly None) 3%nat nextVote nextCheck.1).
  - vm_compute. reflexivity.
  - by apply demo_valid.
  - apply attesterLockFree_returned, (bool_decide_unpack _). vm_compute. reflexivity.
  - apply answersSaved_all, (bool_decide_unpack _). vm_compute. reflexivity.
  - assert (E : nextCheck.2 = Ret tt) by (vm_compute; reflexivity). rewrite <- E. exact (surjective_pairing nextCheck).
Defined.

(** The minimal database: a vote and a block of another key interleave; a surrounding vote
    is refused; the write of a later vote is torn and leaves an unreadable file. *)
#[local] Existing Instance listYaml.

Definition otherKey : bytes := replicate 48 2.
Definition otherBlock : bytes * Proposal := (otherKey, mkProposal 100 (demoRoot 4)).
Definition demoFile : ValidatorSlashingProtection := mkVSP None 3 (Some 4).
Definition otherFile : ValidatorSlashingProtection := mkVSP (Some 100) 0 None.
Definition laterFile : ValidatorSlashingProtection := mkVSP None 4 (Some 5).

Definition fsCalls1 : gmap nat FSCall := {[0%nat := AttWriting (demoVote 3 4 1) demoFile]}.
Definition fsCalls2 : gmap nat FSCall := <[1%nat := BlockWriting otherBlock otherFile]> fsCalls1.
Definition fsDir3 : FSStore := putVSP emptyFSStore demoKey demoFile.
Definition fsCalls3 : gmap nat FSCall := <[0%nat := AttDone (demoVote 3 4 1) None]> fsCalls2.
Definition fsDir4 : FSStore := putVSP fsDir3 otherKey otherFile.
Definition fsCalls4 : gmap nat FSCall := <[1%nat := BlockDone otherBlock None]> fsCalls3.
Definition fsCalls5 : gmap nat FSCall := <[2%nat := AttDone (demoVote 2 9 3) (Some errSourceLower)]> fsCalls4.
Definition fsCalls6 : gmap nat FSCall := <[3%nat := AttWriting (demoVote 4 5 2) laterFile]> fsCalls5.
Definition fsDir7 : FSStore := (saveValidatorSlashingProtection (Torn "disk full" 1) fsDir4 demoKey laterFile).1.
Definition fsCalls7 : gmap nat FSCall := <[3%nat := AttDone (demoVote 4 5 2) (Some "disk full"%string)]> fsCalls6.

(** No call of the key is under way. *)
Definition keyFree (calls : gmap nat FSCall) (pk : bytes) : Prop :=
  map_Forall (λ _ x, match toWrite x with Some _ => negb (bool_decide (callKey x = pk)) | None => true end = true) calls.

Lemma keyFree_inTime s calls pk : keyFree calls pk → fsInTime (mkFSClient s calls) (FsRead pk).
Proof.
  intros Hall i x Hx Hw. specialize (Hall i x Hx). cbn in Hall, Hx. destruct (toWrite x); [|done].
  by case_bool_decide.
Qed.

Lemma keyFree_lock calls pk : keyFree calls pk → fsAttesterLockFree calls pk.
Proof. intros Hall i r v Hx. specialize (Hall i _ Hx). cbn in Hall. by case_bool_decide. Qed.

Ltac free := (apply keyFree_inTime || apply keyFree_lock); apply (bool_decide_unpack _); vm_compute; reflexivity.

Lemma fsDemo_prefix : rtc inTimeStep fsStart (mkFSClient fsDir4 fsCalls5).
Proof.
  apply (rtc_l _ _ (mkFSClient emptyFSStore fsCalls1)).
  { exists (FsRead demoKey). split; [|free].
    apply (fs_attest _ _ 0 (demoVote 3 4 1)); [done|by apply demo_valid|by intros i r v Hx|vm_compute; reflexivity]. }
  apply (rtc_l _ _ (mkFSClient emptyFSStore fsCalls2)).
  { exists (FsRead otherKey). split; [|free].
    apply (fs_propose _ _ 1 otherBlock); [done| | |vm_compute; reflexivity].
    - split; [vm_compute; split; congruence|apply length_replicate].
    - intros i p v Hx. unfold fsCalls1 in Hx. by apply lookup_singleton_Some in Hx as [_ Hx]. }
  apply (rtc_l _ _ (mkFSClient fsDir3 fsCalls3)).
  { exists (FsWrite 0 Written). split; [|done].
    by apply (fs_write emptyFSStore fsDir3 fsCalls2 0 (AttWriting (demoVote 3 4 1) demoFile) demoFile Written (Ret tt)). }
  apply (rtc_l _ _ (mkFSClient fsDir4 fsCalls4)).
  { exists (FsWrite 1 Written). split; [|done].
    by apply (fs_write fsDir3 fsDir4 fsCalls3 1 (BlockWriting otherBlock otherFile) otherFile Written (Ret tt)). }
  apply (rtc_l _ _ (mkFSClient fsDir4 fsCalls5)); [|apply rtc_refl].
  exists (FsRead demoKey). split; [|free].
  apply (fs_attest _ _ 2 (demoVote 2 9 3)); [vm_compute; reflexivity|by apply demo_valid|free|vm_compute; reflexivity].
Qed.

Lemma fsDemo_run : rtc inTimeStep fsStart (mkFSClient fsDir7 fsCalls7).
Proof.
  etrans; [exact fsDemo_prefix|].
  apply (rtc_l _ _ (mkFSClient fsDir4 fsCalls6)).
  { exists (FsRead demoKey). split; [|free].
    apply (fs_attest _ _ 3 (demoVote 4 5 2)); [vm_compute; reflexivity|by apply demo_valid|free|vm_compute; reflexivity]. }
  apply (rtc_l _ _ (mkFSClient fsDir7 fsCalls7)); [|apply rtc_refl].
  exists (FsWrite 3 (Torn "disk full" 1)). split.
  - by apply (fs_write fsDir4 fsDir7 fsCalls6 3 (AttWriting (demoVote 4 5 2) laterFile) laterFile (Torn "disk full" 1) (Err "disk full"%string)).
  - intros x v Hx Hv. assert (E : fsCalls6 !! 3%nat = Some (AttWriting (demoVote 4 5 2) laterFile)) by (vm_compute; reflexivity).
    cbn in Hx. rewrite E in Hx. injection Hx as <-. injection Hv as <-. by left.
Qed.

(** A further vote of the other key, while nothing else happens. *)
Definition otherVote : AttestationRecord := mkAttRecord otherKey 1 2 (demoRoot 5).
Definition otherCheck : FSStore * outcome unit :=
  fsSlashableAttestationCheck id Written fsDir7 (recordAtt otherVote) otherKey (ARSigningRoot otherVote).

Lemma minimal_database_safe_witness :
  publishedSafely (mkFSClient fsDir7 fsCalls7) ∧
  attPublished (mkFSClient fsDir7 fsCalls7) (demoVote 3 4 1) ∧ blockPublished (mkFSClient fsDir7 fsCalls7) otherBlock ∧
  ∃ v, publishedSafely (mkFSClient otherCheck.1 (<[4%nat := AttDone otherVote None]> (<[4%nat := AttWriting otherVote v]> fsCalls7))).
Proof.
  destruct (minimal_database_safe _ fsDemo_run) as (P1 & P2 & _). split; [exact P1|].
  split; [exists 0%nat; vm_compute; reflexivity|]. split; [exists 1%nat; vm_compute; reflexivity|].
  destruct (P2 id Written 4%nat otherVote otherCheck.1) as [v Hv].
  - vm_compute. reflexivity.
  - split_and!; [done|done|]. apply length_replicate.
  - free.
  - free.
  - assert (E : otherCheck.2 = Ret tt) by (vm_compute; reflexivity). rewrite <- E. exact (surjective_pairing otherCheck).
  - exists v. apply Hv; [apply lookup_insert_eq|apply rtc_refl].
Defined.




