(* ===== verification/ProtectionPrune.v ===== *)
(** * Slashing protection: pruning

    What [PruneAttestations] (at start-up) and [pruneProposalHistoryBySlot] (at every
    proposal) remove from the complete database, that every operation keeps the
    database well typed, and what pruning costs: the stored lowest epochs and slots are
    not raised, so an old vote or block that was pruned can be contradicted. *)

From stdpp Require Import sorting.
From S2P Require Import Prelude MathHelper Primitives SlotTime Bytes Protection ProtectionKV ProtectionView ProtectionCheck ProtectionBatch.

Section prune.
Context `{Bolt} `{BeaconChainConfig}.

(** The highest epoch among the keys, 0 for an empty bucket. *)
Definition highestKey (ob : option (Bucket bytes)) : Z :=
  match ob with
  | Some b => match cursorLast b with Some (k, _) => BytesToEpochBigEndian k | None => 0 end
  | None => 0
  end.

Definition keepFrom (ob : option (Bucket bytes)) : Z := pruningEpochCutoff (highestKey ob).

Lemma pruneWalk_sub cur upper b k v : Get (pruneWalk cur upper b) k = Some v → Get b k = Some v.
Proof.
  revert b. induction cur as [|[k0 v0] cur IH]; intros b; cbn [pruneWalk]; [done|]. case_if; [done|].
  intros Hg%IH. rewrite Get_Delete in Hg. by case_decide.
Qed.

(** A walk over ascending keys that has passed all keys of [b] not in [cur]. *)
Lemma pruneWalk_spec cur upper b e :
  is_u64 e → StronglySorted bytes_lt cur.*1 → (∀ k v, (k, v) ∈ cur → epochKey k) →
  (e < upper → is_Some (Get b (EpochToBytesBigEndian e)) → EpochToBytesBigEndian e ∈ cur.*1) →
  Get (pruneWalk cur upper b) (EpochToBytesBigEndian e) =
  if e <? upper then None else Get b (EpochToBytesBigEndian e).
Proof.
  intros He. revert b. induction cur as [|[k v] cur IH]; intros b Hs Hk Hin; cbn [pruneWalk].
  { destruct (Z.ltb_spec e upper); [|done]. destruct (Get b _) eqn:E; [|done].
    exfalso. enough (EpochToBytesBigEndian e ∈ ([] : list bytes)) by set_solver. by apply Hin. }
  cbn in Hs. apply StronglySorted_inv in Hs as [Hs Hall]. rewrite Forall_forall in Hall.
  assert (epochKey k) as (e0 & He0 & Ek) by (apply (Hk k v); set_solver).
  assert (Hd : BytesToEpochBigEndian k = e0) by (rewrite Ek; by apply BytesToUint64BigEndian_Uint64).
  rewrite Hd. destruct (Z.leb_spec upper e0) as [Hle|Hgt].
  - destruct (Z.ltb_spec e upper) as [Hlt|]; [|done].
    destruct (Get b (EpochToBytesBigEndian e)) eqn:E; [|done]. exfalso.
    assert (EpochToBytesBigEndian e ∈ ((k, v) :: cur).*1) as Hc by (by apply Hin).
    cbn in Hc. apply elem_of_cons in Hc as [Hc|Hc].
    + rewrite Ek in Hc. apply Uint64ToBytesBigEndian_inj in Hc; [lia|done..].
    + apply Hall in Hc. rewrite Ek in Hc. apply Uint64ToBytesBigEndian_lt in Hc; [lia|done..].
  - rewrite IH; [|done|set_solver|].
    + rewrite Get_Delete. case_decide as Hc; [|done]. rewrite Ek in Hc.
      apply Uint64ToBytesBigEndian_inj in Hc as ->; [|done..]. by destruct (Z.ltb_spec e upper); [|lia].
    + intros Hlt Hsome. rewrite Get_Delete in Hsome. case_decide as Hc; [by destruct Hsome|].
      specialize (Hin Hlt Hsome). cbn in Hin. set_solver.
Qed.

Lemma pruneBucket_spec P b e :
  TypedBucket P b → is_u64 e →
  Get (pruneBucket b) (EpochToBytesBigEndian e) =
  if e <? keepFrom (Some b) then None else Get b (EpochToBytesBigEndian e).
Proof.
  intros Hb He. unfold pruneBucket, keepFrom, highestKey.
  replace (BytesToEpochBigEndian _) with (match cursorLast b with Some (k, _) => BytesToEpochBigEndian k | None => 0 end)
    by (by destruct (cursorLast b) as [[]|]).
  apply pruneWalk_spec; [done|apply entries_sorted| |].
  - intros k v Hin%entries_Get. apply (Hb _ _ Hin).
  - intros _ [v Hv]. apply list_elem_of_fmap. exists (EpochToBytesBigEndian e, v). split; [done|]. by apply entries_Get.
Qed.

Lemma pruneBucket_typed P b : TypedBucket P b → TypedBucket P (pruneBucket b).
Proof. intros Hb k v Hg%pruneWalk_sub. by apply Hb. Qed.

Definition prunePk (b : PkBucket) : PkBucket :=
  pruneSigningRootsBucket (pruneTargetEpochsBucket (pruneSourceEpochsBucket b)).

Lemma prunePk_typed b : PkTyped b → PkTyped (prunePk b).
Proof.
  intros ((rs & Hr & Htr) & (ss & Hs & Hts) & (ts & Ht & Htt)).
  unfold PkTyped, prunePk. cbn. rewrite Hr, Hs, Ht. cbn.
  split_and!; eexists; (split; [done|]); by apply pruneBucket_typed.
Qed.

Lemma emptyPkBucket_prune : prunePk emptyPkBucket = emptyPkBucket.
Proof. done. Qed.

(** The loop over the keys prunes each key once. *)
Lemma PruneAttestations_Get d pk :
  Get (pubKeysBucket (PruneAttestations d)) pk = prunePk <$> Get (pubKeysBucket d) pk.
Proof.
  unfold PruneAttestations. set (F := foldl _).
  assert (Hgen : ∀ l d, NoDup l → Get (pubKeysBucket (F d l)) pk =
    if decide (pk ∈ l) then prunePk <$> Get (pubKeysBucket d) pk else Get (pubKeysBucket d) pk).
  { subst F. clear d. induction l as [|k l IH]; intros d Hnd; [done|].
    apply NoDup_cons in Hnd as [Hk Hnd]. cbn [foldl]. rewrite IH by done.
    destruct (Get (pubKeysBucket d) k) as [b|] eqn:E.
    - cbn [pubKeysBucket setAttestations]. rewrite Get_Put.
      destruct (decide (k = pk)) as [->|Hne].
      + rewrite decide_False by done. rewrite decide_True by set_solver. by rewrite E.
      + destruct (decide (pk ∈ l)); [rewrite decide_True by set_solver|rewrite decide_False by set_solver]; done.
    - destruct (decide (k = pk)) as [->|Hne].
      + rewrite decide_False by done. rewrite decide_True by set_solver. by rewrite E.
      + destruct (decide (pk ∈ l)); [rewrite decide_True by set_solver|rewrite decide_False by set_solver]; done. }
  rewrite Hgen by apply entries_NoDup. case_decide as Hin; [done|].
  destruct (Get (pubKeysBucket d) pk) as [b|] eqn:E; [|done]. exfalso. apply Hin, list_elem_of_fmap.
  exists (pk, b). split; [done|]. by apply entries_Get.
Qed.

Lemma PruneAttestations_frame d :
  let d' := PruneAttestations d in
  historicProposalsBucket d' = historicProposalsBucket d ∧
  lowestSignedSourceBucket d' = lowestSignedSourceBucket d ∧
  lowestSignedTargetBucket d' = lowestSignedTargetBucket d ∧
  lowestSignedProposalsBucket d' = lowestSignedProposalsBucket d ∧
  highestSignedProposalsBucket d' = highestSignedProposalsBucket d.
Proof.
  cbv zeta. unfold PruneAttestations. generalize ((entries (pubKeysBucket d)).*1). intros l. revert d.
  induction l as [|k l IH]; intros d; [done|]. cbn [foldl].
  destruct (IH (match Get (pubKeysBucket d) k with Some b => setAttestations d (lowestSignedSourceBucket d)
    (lowestSignedTargetBucket d) (Put (pubKeysBucket d) k (prunePk b)) | None => d end)) as (H1 & H2 & H3 & H4 & H5).
  unfold prunePk in *. rewrite H1, H2, H3, H4, H5. by destruct (Get _ k).
Qed.

Lemma PruneAttestations_typed d : DBTyped d → DBTyped (PruneAttestations d).
Proof.
  intros [H1 H2 H3 H4 H5 H6]. destruct (PruneAttestations_frame d) as (E1 & E2 & E3 & E4 & E5).
  split; rewrite ?E1, ?E2, ?E3, ?E4, ?E5; try done.
  intros pk b. rewrite PruneAttestations_Get. destruct (Get (pubKeysBucket d) pk) as [b0|] eqn:E; [|done].
  intros [= <-]. apply prunePk_typed. by apply (H1 pk).
Qed.

Lemma pkb_prune d pk : pkb (PruneAttestations d) pk = prunePk (pkb d pk).
Proof. unfold pkb. rewrite PruneAttestations_Get. by destruct (Get (pubKeysBucket d) pk). Qed.

Lemma getIn_prune P ob e :
  OTyped P ob → is_u64 e → getIn (option_map pruneBucket ob) e = if e <? keepFrom ob then None else getIn ob e.
Proof.
  destruct ob as [b|]; [|by intros; case_if]. cbn. intros Hb He. by apply (pruneBucket_spec P).
Qed.

(** ** Every operation keeps the types *)

Inductive dbReach : DB → Prop :=
| reach_empty : dbReach emptyDB
| reach_records d rs : dbReach d → Forall RecordTyped rs → dbReach (saveAttestationRecords d rs)
| reach_proposal d pk slot root :
    dbReach d → is_u64 slot → IsRootValue root → dbReach (SaveProposalHistoryForSlot d pk slot root)
| reach_keys d pks : dbReach d → dbReach (createProposalBuckets d pks)
| reach_prune d : dbReach d → dbReach (PruneAttestations d)
| reach_blacklist d pks : dbReach d → dbReach (SaveEIPImportBlacklistedPublicKeys d pks)
| reach_genesis d d' root : dbReach d → SaveGenesisValidatorsRoot d root = Ret d' → dbReach d'.

Lemma SaveProposalHistoryForSlot_DBTyped d pk slot root :
  DBTyped d → is_u64 slot → IsRootValue root → DBTyped (SaveProposalHistoryForSlot d pk slot root).
Proof.
  intros [H1 H2 H3 H4 H5 H6] Hs Hr. split; try done.
  - intros pk' b. cbn. rewrite Get_Put. case_decide; [|apply H2]. intros [= <-] k v Hg%pruneProposalRounds_sub.
    revert k v Hg. apply TypedBucket_Put; [|done..].
    destruct (Get (historicProposalsBucket d) pk) eqn:E; [by eapply H2|apply TypedBucket_empty].
  - by apply lowerBound_typed.
  - by apply upperBound_typed.
Qed.

Lemma createProposalBuckets_DBTyped d pks : DBTyped d → DBTyped (createProposalBuckets d pks).
Proof.
  intros [H1 H2 H3 H4 H5 H6]. split; try done. cbn. revert H2. generalize (historicProposalsBucket d).
  induction pks as [|pk' pks IH]; intros B HB pk b; cbn; [apply HB|].
  apply IH. intros pk2 b2. rewrite Get_Create. case_decide; [subst|apply HB]. intros [= <-].
  destruct (Get B pk2) eqn:E; [by eapply HB|apply TypedBucket_empty].
Qed.

Lemma dbReach_typed d : dbReach d → DBTyped d.
Proof.
  induction 1 as [|d rs _ IH Hrs|d pk slot root _ IH Hs Hr|d pks _ IH|d _ IH|d pks _ IH|d d' root _ IH Hg].
  - apply emptyDB_typed.
  - clear -IH Hrs. revert d IH. induction Hrs as [|r rs Hr _ IHr]; intros d Hd; [done|].
    by apply IHr, saveAttestationRecord_typed.
  - by apply SaveProposalHistoryForSlot_DBTyped.
  - by apply createProposalBuckets_DBTyped.
  - by apply PruneAttestations_typed.
  - by destruct IH.
  - unfold SaveGenesisValidatorsRoot in Hg. destruct (_ && _); [done|]. injection Hg as <-. by destruct IH.
Qed.
End prune.

(** C39. Typing: after any sequence of the operations that write to the complete
    database (records, proposals, keys, pruning, blacklist, genesis root) its buckets
    hold encodings of what the code reads there, and so reading a key's history and
    checking an attestation never panic. *)
Theorem database_well_typed `{Bolt} `{BeaconChainConfig} (d : DB) :
  dbReach d →
  DBTyped d ∧
  ∀ pk root att, (∃ history, AttestationHistoryForPubKey d pk = Ret history) ∧
                 (∃ res, CheckSlashableAttestation d pk root att = Ret res).
Proof.
  intros Hd%dbReach_typed. split; [done|]. intros pk root att. split.
  - destruct (AttestationHistory_view d pk Hd) as (h & Hh & _). eauto.
  - destruct (CheckSlashableAttestation_view d pk root att Hd) as (kind & e & Hc & _). eauto.
Qed.

(** Start-up pruning: for every key, the signing roots, the votes by source and the
    votes by target below the cutoff of their own bucket ([SlashingProtectionPruningEpochs]
    below its highest key) are gone and all others are unchanged; the lowest signed
    epochs and the proposals are not touched. *)
Theorem PruneAttestations_correct `{Bolt} `{BeaconChainConfig} (d : DB) (pk : bytes) (e : Z) :
  dbReach d → is_u64 e →
  let d' := PruneAttestations d in
  let b := pkb d pk in
  rootAt d' pk e = (if e <? keepFrom (attestationSigningRootsBucket b) then None else rootAt d pk e) ∧
  targetsOf d' pk e = (if e <? keepFrom (attestationSourceEpochsBucket b) then [] else targetsOf d pk e) ∧
  sourcesOf d' pk e = (if e <? keepFrom (attestationTargetEpochsBucket b) then [] else sourcesOf d pk e) ∧
  LowestSignedSourceEpoch d' pk = LowestSignedSourceEpoch d pk ∧
  LowestSignedTargetEpoch d' pk = LowestSignedTargetEpoch d pk ∧
  ProposalHistoryForPubKey d' pk = ProposalHistoryForPubKey d pk.
Proof.
  intros Hd%dbReach_typed He. cbv zeta. destruct (pkb_typed d pk Hd) as (H1 & H2 & H3).
  destruct (PruneAttestations_frame d) as (E1 & E2 & E3 & _).
  unfold rootAt, targetsOf, sourcesOf, epochsAt, LowestSignedSourceEpoch, LowestSignedTargetEpoch, ProposalHistoryForPubKey.
  rewrite pkb_prune, E1, E2, E3. unfold prunePk. cbn.
  rewrite (getIn_prune IsRootValue), !(getIn_prune Packed) by done.
  split_and!; try done; by case_if.
Qed.

(** ** Witnesses *)

Definition prunedRecords : list AttestationRecord :=
  [mkAttRecord exampleKey 0 1 (exampleRoot 1); mkAttRecord exampleKey 9 10 (exampleRoot 2);
   mkAttRecord exampleKey 600 601 (exampleRoot 3)].

Lemma prunedRecords_reach : @dbReach gmapBolt mainnetBeaconConfig (saveAttestationRecords emptyDB prunedRecords).
Proof.
  apply reach_records; [apply reach_empty|]. repeat (constructor; [repeat split; try (vm_compute; congruence); by right|]).
  constructor.
Qed.

Lemma database_well_typed_witness :
  let d := @PruneAttestations gmapBolt mainnetBeaconConfig (saveAttestationRecords emptyDB prunedRecords) in
  DBTyped d ∧ ∃ history, AttestationHistoryForPubKey d exampleKey = Ret history.
Proof.
  cbv zeta.
  destruct (@database_well_typed gmapBolt mainnetBeaconConfig _ (reach_prune _ prunedRecords_reach)) as [H1 H2].
  split; [exact H1|]. exact (proj1 (H2 exampleKey [] (mkAtt 0 0))).
Defined.

Lemma PruneAttestations_correct_witness :
  let d := @saveAttestationRecords gmapBolt emptyDB prunedRecords in
  rootAt (@PruneAttestations gmapBolt mainnetBeaconConfig d) exampleKey 10 = None ∧ rootAt d exampleKey 10 = Some (exampleRoot 2).
Proof.
  cbv zeta. split; [|vm_compute; reflexivity].
  destruct (@PruneAttestations_correct gmapBolt mainnetBeaconConfig _ exampleKey 10 prunedRecords_reach) as [E _].
  - split; vm_compute; congruence.
  - rewrite E. vm_compute. reflexivity.
Defined.
