(* ===== verification/ProtectionRace.v ===== *)
(** * Slashing protection: concurrent callers of the complete database

    Theorems on the interleavings [batchStep] of [ProtectionBatch.v], where any number of
    callers save attestations through the worker.  No record is ever lost; but the
    broadcast tells a caller about whatever batch the worker has just written, which
    need not be the one with its own record.  The last part shows what pruning and the
    broadcast cost, on concrete runs. *)

From S2P Require Import Prelude MathHelper Primitives SlotTime Bytes Protection ProtectionKV ProtectionView ProtectionCheck ProtectionBatch ProtectionKVLaws ProtectionSafety ProtectionPrune.

Section race.
Context `{Bolt} `{BeaconChainConfig}.

(** A vote that the surround checks will see. *)
Definition saved (d : DB) (r : AttestationRecord) : Prop :=
  ARTarget r ∈ targetsOf d (ARPubKey r) (ARSource r) ∧
  ARSource r ∈ sourcesOf d (ARPubKey r) (ARTarget r) ∧
  is_Some (rootAt d (ARPubKey r) (ARTarget r)).

Lemma saved_save d r r' :
  DBTyped d → RecordTyped r → RecordTyped r' → saved d r' → saved (saveAttestationRecord d r) r'.
Proof.
  intros Hd Hr (Hs & Ht & _) (H1 & H2 & H3). unfold saved.
  rewrite rootAt_save, targetsOf_save, sourcesOf_save by done. split_and!.
  - case_decide; [apply elem_of_app; by left|done].
  - case_decide; [apply elem_of_app; by left|done].
  - by case_decide.
Qed.

Lemma saved_saveRecords d rs r :
  DBTyped d → Forall RecordTyped rs → RecordTyped r →
  saved d r ∨ r ∈ rs → saved (saveAttestationRecords d rs) r.
Proof.
  intros Hd Hrs Hr. revert d Hd. induction Hrs as [|r0 rs Hr0 Hrs IH]; intros d Hd Hor.
  { destruct Hor; [done|set_solver]. }
  apply IH; [by apply saveAttestationRecord_typed|].
  destruct Hor as [?|[->|?]%elem_of_cons]; [left; by apply saved_save| |by right].
  left. destruct (recorded_new d r0 Hd Hr) as (H1 & H2 & H3). split_and!; [done|done|by rewrite H1].
Qed.

(** ** No record is lost *)

Definition hasCalled (c : Caller) : bool := match c with Calling _ => false | _ => true end.

Record RaceInv (c : config) : Prop := {
  race_typed : DBTyped (db c.1);
  race_pending : Forall RecordTyped (pending c.1);
  race_callers : ∀ i x, c.2 !! i = Some x → RecordTyped (callerRecord x);
  race_kept : ∀ i x, c.2 !! i = Some x → hasCalled x = true →
    saved (db c.1) (callerRecord x) ∨ callerRecord x ∈ pending c.1
}.

(** A change that keeps the pending records and the database. *)
Lemma RaceInv_same s s' cs :
  db s' = db s → (∀ r, r ∈ pending s' ↔ r ∈ pending s) → RaceInv (s, cs) → RaceInv (s', cs).
Proof.
  intros Ed Ep [H1 H2 H3 H4]. cbn in *. split; cbn.
  - by rewrite Ed.
  - rewrite Forall_forall in *. intros r Hr. apply H2. by apply Ep.
  - done.
  - intros i x Hx Hc. rewrite Ed, Ep. by eapply H4.
Qed.

Lemma RaceInv_effect s s' cs :
  db s' = db s ∧ pending s' = pending s → RaceInv (s, cs) → RaceInv (s', cs).
Proof. intros [Ed Ep]. apply RaceInv_same; [done|]. intros r. by rewrite Ep. Qed.

Lemma tell_kept cs ans i x :
  foldl tell cs ans !! i = Some x →
  ∃ y, cs !! i = Some y ∧ callerRecord y = callerRecord x ∧ (hasCalled x = true → hasCalled y = true).
Proof. intros [Hx|(r & err & Hx & ->)]%tell_callers; eexists; (split; [exact Hx|done]). Qed.

Lemma RaceInv_step c c' : batchStep c c' → RaceInv c → RaceInv c'.
Proof.
  destruct 1 as [s cs i r Hi Hcap|s cs i r Hi|s cs Hw Hne|s cs Hw|s cs io records Hw|s cs err Hw]; intros Hinv.
  - pose proof Hinv as [H1 H2 H3 H4]. cbn in *.
    assert (Hp : ∀ x, x ∈ pending (chanSend s r) ↔ x ∈ pending s ∨ x = r) by (intros x; unfold pending; cbn; set_solver).
    pose proof (H3 _ _ Hi) as Hr. cbn in Hr. split; cbn; [done| | |].
    + rewrite Forall_forall in *. intros x [?| ->]%Hp; [by apply H2|done].
    + intros j x. rewrite lookup_insert. case_decide; [|apply H3]. by intros [= <-].
    + intros j x. rewrite lookup_insert. case_decide; intros Hx Hc.
      * injection Hx as <-. right. apply Hp. by right.
      * destruct (H4 _ _ Hx Hc); [by left|right]. apply Hp. by left.
  - pose proof Hinv as [H1 H2 H3 H4]. cbn in *. split; cbn; [done|done| |].
    + intros j x. rewrite lookup_insert. case_decide; [|apply H3]. intros [= <-]. by apply (H3 _ _ Hi).
    + intros j x. rewrite lookup_insert. case_decide; [|apply H4]. intros [= <-] _. by apply (H4 _ _ Hi).
  - destruct (batchReceive_effect s Hw) as [_ He]. by eapply RaceInv_effect.
  - destruct (batchTick_effect s Hw) as [_ He]. by eapply RaceInv_effect.
  - destruct io as [err|].
    + eapply RaceInv_same; [| |exact Hinv]; unfold flushWrite; rewrite Hw; [done|].
      intros x. unfold pending. cbn. rewrite Hw, foldl_Append. cbn. set_solver.
    + pose proof Hinv as [H1 H2 H3 H4]. cbn in *. unfold pending in H2, H4. rewrite Hw in H2, H4. cbn in H2, H4.
      apply Forall_app in H2 as [H2a H2b]. unfold flushWrite. rewrite Hw. split; cbn; [by apply saveRecords_typed|done|done|].
      intros j x Hx Hc. destruct (H4 _ _ Hx Hc) as [?|[?|?]%elem_of_app]; [left..|by right];
        (apply saved_saveRecords; [done|done|by eapply H3|tauto]).
  - pose proof Hinv as [H1 H2 H3 H4]. cbn in *. unfold flushNotify. rewrite Hw. unfold pending in *.
    rewrite Hw in H2, H4. cbn in *. split; cbn; [done|done| |].
    + intros j x Hx. destruct (tell_kept _ _ _ _ Hx) as (y & Hy & <- & _). by eapply H3.
    + intros j x Hx Hc. destruct (tell_kept _ _ _ _ Hx) as (y & Hy & <- & Hcc). apply (H4 _ _ Hy). by apply Hcc.
Qed.

(** Callers that have not called yet. *)
Definition newCallers (rs : list AttestationRecord) : gmap nat Caller := map_seq 0 (map Calling rs).

Lemma newCallers_lookup rs i x : newCallers rs !! i = Some x → ∃ r, r ∈ rs ∧ x = Calling r.
Proof.
  unfold newCallers. rewrite lookup_map_seq_0. intros Hx. apply list_lookup_fmap_Some in Hx as (r & -> & Hr).
  exists r. split; [by eapply list_elem_of_lookup_2|done].
Qed.

Lemma RaceInv_start rs : Forall RecordTyped rs → RaceInv (openStore emptyDB, newCallers rs).
Proof.
  intros Hrs. rewrite Forall_forall in Hrs. split; cbn; [apply emptyDB_typed|constructor| |].
  - intros i x (r & Hr & ->)%newCallers_lookup. by apply Hrs.
  - by intros i x (r & Hr & ->)%newCallers_lookup.
Qed.
End race.

(** C22. No record is lost: in every interleaving of callers and worker, failed writes
    included, the record of every caller that has called is in the database, where the
    double vote and surround checks see it, or still on its way there (in the channel,
    in the queue or in the worker's hands). *)
Theorem batched_records_never_lost `{Bolt} (rs : list AttestationRecord) (s : KVStore) (cs : gmap nat Caller) :
  Forall RecordTyped rs →
  rtc batchStep (openStore emptyDB, newCallers rs) (s, cs) →
  ∀ i x, cs !! i = Some x → hasCalled x = true →
    saved (db s) (callerRecord x) ∨ callerRecord x ∈ pending s.
Proof.
  intros Hrs Hsteps. assert (RaceInv (s, cs)) as [_ _ _ Hkept]; [|exact Hkept].
  pose proof (RaceInv_start rs Hrs) as Hinv. clear Hrs.
  remember (openStore emptyDB, newCallers rs) as c0 eqn:E0. clear E0. remember (s, cs) as c1 eqn:E1. clear E1.
  induction Hsteps as [|c0 c c1 Hstep _ IH]; [done|]. apply IH. by eapply RaceInv_step.
Qed.

(** ** Concrete runs *)

Definition vote1 : AttestationRecord := mkAttRecord demoKey 2 3 (demoRoot 1).
Definition vote2 : AttestationRecord := mkAttRecord (replicate 48 2) 4 5 (demoRoot 2).

(** Caller 0's batch is being written when caller 1 sends its record and subscribes. *)
Definition earlyRun0 : @config gmapBolt := (openStore emptyDB, newCallers [vote1; vote2]).
Definition earlyRun1 : @config gmapBolt := (chanSend earlyRun0.1 vote1, <[0%nat := Sent vote1]> earlyRun0.2).
Definition earlyRun2 : @config gmapBolt := (feedSubscribe earlyRun1.1 0, <[0%nat := Waiting vote1]> earlyRun1.2).
Definition earlyRun3 : @config gmapBolt := (batchReceive earlyRun2.1, earlyRun2.2).
Definition earlyRun4 : @config gmapBolt := (batchTick earlyRun3.1, earlyRun3.2).
Definition earlyRun5 : @config gmapBolt := (chanSend earlyRun4.1 vote2, <[1%nat := Sent vote2]> earlyRun4.2).
Definition earlyRun6 : @config gmapBolt := (feedSubscribe earlyRun5.1 1, <[1%nat := Waiting vote2]> earlyRun5.2).
Definition earlyRun7 : @config gmapBolt := (flushWrite None earlyRun6.1, earlyRun6.2).
Definition earlyRun8 : @config gmapBolt := ((flushNotify earlyRun7.1).1, foldl tell earlyRun7.2 (flushNotify earlyRun7.1).2).

Lemma earlyRun_steps : rtc batchStep earlyRun0 earlyRun8.
Proof.
  apply (rtc_l _ _ earlyRun1); [apply step_send; vm_compute; [reflexivity|lia]|].
  apply (rtc_l _ _ earlyRun2); [apply step_subscribe; vm_compute; reflexivity|].
  apply (rtc_l _ _ earlyRun3); [apply step_receive; vm_compute; [reflexivity|discriminate]|].
  apply (rtc_l _ _ earlyRun4); [apply step_tick; vm_compute; reflexivity|].
  apply (rtc_l _ _ earlyRun5); [apply step_send; vm_compute; [reflexivity|lia]|].
  apply (rtc_l _ _ earlyRun6); [apply step_subscribe; vm_compute; reflexivity|].
  apply (rtc_l _ _ earlyRun7); [eapply step_write; vm_compute; reflexivity|].
  apply (rtc_l _ _ earlyRun8); [eapply step_notify; vm_compute; reflexivity|]. apply rtc_refl.
Qed.

(** The worker handles the record before its caller has subscribed. *)
Definition missedRun0 : @config gmapBolt := (openStore emptyDB, newCallers [vote1]).
Definition missedRun1 : @config gmapBolt := (chanSend missedRun0.1 vote1, <[0%nat := Sent vote1]> missedRun0.2).
Definition missedRun2 : @config gmapBolt := (batchReceive missedRun1.1, missedRun1.2).
Definition missedRun3 : @config gmapBolt := (batchTick missedRun2.1, missedRun2.2).
Definition missedRun4 : @config gmapBolt := (flushWrite None missedRun3.1, missedRun3.2).
Definition missedRun5 : @config gmapBolt := ((flushNotify missedRun4.1).1, foldl tell missedRun4.2 (flushNotify missedRun4.1).2).
Definition missedRun6 : @config gmapBolt := (feedSubscribe missedRun5.1 0, <[0%nat := Waiting vote1]> missedRun5.2).

Lemma missedRun_steps : rtc batchStep missedRun0 missedRun6.
Proof.
  apply (rtc_l _ _ missedRun1); [apply step_send; vm_compute; [reflexivity|lia]|].
  apply (rtc_l _ _ missedRun2); [apply step_receive; vm_compute; [reflexivity|discriminate]|].
  apply (rtc_l _ _ missedRun3); [apply step_tick; vm_compute; reflexivity|].
  apply (rtc_l _ _ missedRun4); [eapply step_write; vm_compute; reflexivity|].
  apply (rtc_l _ _ missedRun5); [eapply step_notify; vm_compute; reflexivity|].
  apply (rtc_l _ _ missedRun6); [apply step_subscribe; vm_compute; reflexivity|]. apply rtc_refl.
Qed.

(** A configuration with nothing in flight in which all callers wait stays as it is. *)
Lemma all_wait_stuck `{Bolt} (s : KVStore) (cs : gmap nat Caller) c :
  worker s = Selecting → batchedAttestations s = [] → batchedAttestationsChan s = [] →
  (∀ i x, cs !! i = Some x → ∃ r, x = Waiting r) →
  rtc batchStep (s, cs) c → c = (s, cs).
Proof.
  intros Hw Hq Hch Hall Hsteps. remember (s, cs) as c0 eqn:E0.
  induction Hsteps as [|c0 c c1 Hstep _ IH]; [done|]. subst c0. assert (c = (s, cs)) as ->; [|by apply IH].
  inversion Hstep as [s' cs' i r Hi|s' cs' i r Hi|s' cs' Hw' Hne|s' cs' Hw'|s' cs' io rec Hw'|s' cs' err Hw']; subst;
    try congruence.
  - destruct (Hall _ _ Hi) as [? ?]. done.
  - destruct (Hall _ _ Hi) as [? ?]. done.
  - unfold batchTick, QueueLen. by rewrite Hq.
Qed.

(** The broadcast is not about one's own record: there is a run in which a caller of
    [SaveAttestationForPubKey] is told that its record was saved while the record is
    still in the channel and nothing is stored for its key; the conditions of the check
    then let a different vote for the same target pass. *)
Theorem early_answer_before_save :
  rtc batchStep earlyRun0 earlyRun8 ∧
  earlyRun8.2 !! 1%nat = Some (Returned vote2 None) ∧
  rootAt (db earlyRun8.1) (ARPubKey vote2) (ARTarget vote2) = None ∧
  batchedAttestationsChan earlyRun8.1 = [vote2] ∧
  attestationConditions (db earlyRun8.1) (mkAtt 4 5) (ARPubKey vote2) (demoRoot 9) = Ret tt ∧
  slashableAttestations vote2 (mkAttRecord (ARPubKey vote2) 4 5 (demoRoot 9)).
Proof.
  split; [exact earlyRun_steps|]. repeat (split; [vm_compute; reflexivity|]).
  left. split; [reflexivity|]. vm_compute. congruence.
Qed.

(** A wake-up can be missed: there is a run in which the record of a caller is saved
    and the caller told before it has subscribed; it then waits, and as long as nobody
    else saves an attestation nothing that the store does will wake it. *)
Theorem wakeup_missed :
  rtc batchStep missedRun0 missedRun6 ∧
  rootAt (db missedRun6.1) demoKey 3 = Some (demoRoot 1) ∧
  missedRun6.2 !! 0%nat = Some (Waiting vote1) ∧
  ∀ c, rtc batchStep missedRun6 c → c = missedRun6.
Proof.
  split; [exact missedRun_steps|]. split; [vm_compute; reflexivity|]. split; [vm_compute; reflexivity|].
  intros c. apply all_wait_stuck; [vm_compute; reflexivity..|].
  assert (E : missedRun6.2 = {[0%nat := Waiting vote1]}) by (vm_compute; reflexivity).
  intros i x. change (missedRun6.2 !! i = Some x → ∃ r, x = Waiting r). rewrite E.
  intros [<- <-]%lookup_singleton_Some. by exists vote1.
Qed.

(** ** What pruning costs *)

(** A check while nothing else happens, and votes of one key, each saved at once. *)
Definition checkAlone (x : @config gmapBolt) : IndexedAttestation → bytes → bytes → @config gmapBolt * outcome unit :=
  @kvSlashableAttestationCheck gmapBolt (db x.1) (db x.1) (db x.1) [] (promptly None) 0 x.
Definition castVotes (x : @config gmapBolt) (votes : list (IndexedAttestation * bytes)) : @config gmapBolt :=
  foldl (λ x v, (checkAlone x v.1 demoKey v.2).1) x votes.

(** Three votes, with the last 591 epochs after the second. *)
Definition votesBeforePruning : @config gmapBolt :=
  castVotes (openStore emptyDB, ∅) [(mkAtt 0 1, demoRoot 1); (mkAtt 9 10, demoRoot 2); (mkAtt 600 601, demoRoot 3)].

(** The store after a restart. *)
Definition restarted (pruning : bool) : @config gmapBolt :=
  (openStore (@NewKVStore gmapBolt mainnetBeaconConfig (db votesBeforePruning.1) None pruning), ∅).

(** Start-up pruning opens a hole: after three accepted votes a restart without
    pruning refuses a double vote for the second one's target, but after a restart
    with pruning the same double vote passes, since the pruned vote is gone and the
    lowest signed target was not raised. *)
Theorem pruned_double_vote_accepted :
  let double := mkAttRecord demoKey 9 10 (demoRoot 4) in
  slashableAttestations (mkAttRecord demoKey 9 10 (demoRoot 2)) double ∧
  (∃ e, (checkAlone (restarted false) (recordAtt double) demoKey (demoRoot 4)).2 = Err e) ∧
  (checkAlone (restarted true) (recordAtt double) demoKey (demoRoot 4)).2 = Ret tt.
Proof.
  cbv zeta. split; [split; [reflexivity|]; left; split; [reflexivity|]; vm_compute; congruence|].
  split; [eexists; vm_compute; reflexivity|vm_compute; reflexivity].
Qed.

(** Proposals of one key, with the answers. *)
Definition proposeAll (s : @KVStore gmapBolt) (blocks : list Proposal) : @KVStore gmapBolt * list (outcome unit) :=
  foldl (λ '(s, answers) p,
    let '(s, res) := @kvSlashableProposalCheck gmapBolt mainnetBeaconConfig None s demoKey (PSlot p) (PSigningRoot p) in
    (s, answers ++ [res])) (s, []) blocks.

(** Pruning of proposals opens the same hole without a restart: a block for slot
    100, one more than a weak subjectivity period later, and then a different block
    for slot 100 are all let through, because the lowest signed slot is still the one
    of the first block. *)
Theorem pruned_proposal_accepted :
  let later := 54004 * 32 in
  let first := mkProposal 100 (demoRoot 2) in
  let second := mkProposal 100 (demoRoot 4) in
  slashableProposals (demoKey, first) (demoKey, second) ∧
  (proposeAll (openStore emptyDB) [mkProposal 1 (demoRoot 1); first; mkProposal later (demoRoot 3); second]).2 =
    [Ret tt; Ret tt; Ret tt; Ret tt].
Proof.
  cbv zeta. split; [split; [reflexivity|]; split; [reflexivity|]; vm_compute; congruence|vm_compute; reflexivity].
Qed.

Lemma batched_records_never_lost_witness :
  saved (db earlyRun8.1) vote1 ∨ vote1 ∈ pending earlyRun8.1.
Proof.
  refine (@batched_records_never_lost gmapBolt [vote1; vote2] earlyRun8.1 earlyRun8.2 _ earlyRun_steps 0 (Returned vote1 None) _ _).
  - repeat (constructor; [repeat split; try (vm_compute; congruence); by right|]). constructor.
  - vm_compute. reflexivity.
  - reflexivity.
Defined.
