(* ===== verification/ProtectionInterchange.v ===== *)
(** * Slashing protection: the interchange format

    Models [validator/slashing-protection-history/format/format.go] and [export.go],
    [validator/helpers/converts.go] and [metadata.go], and [validator/db/kv/import.go]:
    the export and import of a complete database in the format of EIP-3076.  A Go
    string is its bytes.  The JSON library stands between the two: here the import
    gets the struct that the export returned.  A Go map is ranged over in an
    unspecified order: [rangeOrder] is any order. *)

From S2P Require Import Prelude MathHelper Primitives SlotTime Bytes Protection ProtectionKV.

(** ** Numbers and byte slices as strings *)

(** [fmt.Sprintf("%d", x)]: at most 20 digits. *)
Fixpoint decimalDigits (fuel : nat) (x : Z) : bytes :=
  match fuel with
  | O => []
  | S fuel => if x <? 10 then [48 + x] else decimalDigits fuel (x / 10) ++ [48 + x mod 10]
  end.
Definition formatUint (x : Z) : bytes := decimalDigits 20 x.

Definition errSyntax : error := "invalid syntax".
Definition errRange : error := "value out of range".
Definition isDigit (c : Z) : bool := (48 <=? c) && (c <=? 57).

(** [strconv.ParseUint(str, 10, 64)]. *)
Definition Uint64FromString (str : bytes) : outcome Z :=
  if (length str =? 0)%nat then Err errSyntax
  else if negb (forallb isDigit str) then Err errSyntax
  else let n := foldl (λ n c, n * 10 + (c - 48)) 0 str in
       if maxUint64 <? n then Err errRange else Ret n.
Definition EpochFromString (str : bytes) : outcome Z := Uint64FromString str.
Definition SlotFromString (str : bytes) : outcome Z := Uint64FromString str.

Definition hexDigit (n : Z) : Z := if n <? 10 then 48 + n else 87 + n.
Definition hexEncode (b : bytes) : bytes := flat_map (λ x, [hexDigit (x / 16); hexDigit (x mod 16)]) b.
(** [fmt.Sprintf("%#x", b)] of a non-empty slice. *)
Definition formatHex (b : bytes) : bytes := 48 :: 120 :: hexEncode b.

Definition fromHexChar (c : Z) : option Z :=
  if (48 <=? c) && (c <=? 57) then Some (c - 48)
  else if (97 <=? c) && (c <=? 102) then Some (c - 87)
  else if (65 <=? c) && (c <=? 70) then Some (c - 55)
  else None.

Definition errHexByte : error := "encoding/hex: invalid byte".
Definition errHexLength : error := "encoding/hex: odd length hex string".
(** [hex.DecodeString]. *)
Fixpoint hexDecode (s : bytes) : outcome bytes :=
  match s with
  | [] => Ret []
  | [c] => match fromHexChar c with Some _ => Err errHexLength | None => Err errHexByte end
  | c1 :: c2 :: s =>
      match fromHexChar c1, fromHexChar c2 with
      | Some a, Some b => l <-? hexDecode s;; Ret (a * 16 + b :: l)
      | _, _ => Err errHexByte
      end
  end.
(** [strings.TrimPrefix(str, "0x")]. *)
Definition trimPrefix0x (str : bytes) : bytes :=
  match str with 48 :: 120 :: rest => rest | _ => str end.

Definition errPubKeyLength : error := "public key is not correct, 48-byte length".
Definition errRootLength : error := "wrong root length, 32-byte length".
Definition PubKeyFromHex (str : bytes) : outcome bytes :=
  pubKeyBytes <-? hexDecode (trimPrefix0x str);;
  if negb (length pubKeyBytes =? 48)%nat then Err errPubKeyLength else Ret pubKeyBytes.
Definition RootFromHex (str : bytes) : outcome bytes :=
  rootHexBytes <-? hexDecode (trimPrefix0x str);;
  if negb (length rootHexBytes =? 32)%nat then Err errRootLength else Ret rootHexBytes.

Definition errWantedLength : error := "wanted length 32 or 48".
Definition RootToHexString (root : bytes) : outcome bytes :=
  if (length root =? 0)%nat then Ret []
  else if negb (length root =? 32)%nat then Err errWantedLength else Ret (formatHex root).
Definition PubKeyToHexString (pubKey : bytes) : outcome bytes :=
  if negb (length pubKey =? 48)%nat then Err errWantedLength else Ret (formatHex pubKey).

#[global] Arguments formatUint : simpl never.
#[global] Arguments Uint64FromString : simpl never.
#[global] Arguments formatHex : simpl never.
#[global] Arguments RootFromHex : simpl never.

(** ** The format *)

Record SignedAttestation := mkSignedAttestation { SASourceEpoch : bytes; SATargetEpoch : bytes; SASigningRoot : bytes }.
Record SignedBlock := mkSignedBlock { SBSlot : bytes; SBSigningRoot : bytes }.
(** Pointers are [None] when nil. *)
Record ProtectionData := mkProtectionData {
  PDPubkey : bytes;
  PDSignedBlocks : list (option SignedBlock);
  PDSignedAttestations : list (option SignedAttestation)
}.
Record EIPSlashingProtectionFormat := mkFormat {
  MetaInterchangeFormatVersion : bytes;
  MetaGenesisValidatorsRoot : bytes;
  Data : option (list (option ProtectionData))
}.

(** ["5"]. *)
Definition InterchangeFormatVersion : bytes := [53].

(** A loop that stops at the first error. *)
Fixpoint mapM_outcome {A B} (f : A → outcome B) (l : list A) : outcome (list B) :=
  match l with
  | [] => Ret []
  | x :: l => y <-? f x;; ys <-? mapM_outcome f l;; Ret (y :: ys)
  end.

Section interchange.
Context `{Bolt} `{BeaconChainConfig}.

(** ** Export *)

Definition signedAttestationOf (att : AttestationRecord) : outcome SignedAttestation :=
  root <-? omap_err (λ e, wrapErr e "could not convert signing root to hex string")
    (if (length (ARSigningRoot att) =? 0)%nat then Ret [] else RootToHexString (ARSigningRoot att));;
  Ret (mkSignedAttestation (formatUint (ARSource att)) (formatUint (ARTarget att)) root).

(** The first entry is skipped when it shows the bug of an old schema. *)
Definition skipFirst (history : list AttestationRecord) : list AttestationRecord :=
  match history with
  | att :: (next :: _) as rest =>
      if (ARTarget next <? ARTarget att) && (ARSource att =? 0) then rest else history
  | _ => history
  end.

Definition signedAttestationsByPubKey (d : DB) (pubKey : bytes) : outcome (list SignedAttestation) :=
  history <-? omap_err (λ e, wrapErr e "cannot get attestation history for public key") (AttestationHistoryForPubKey d pubKey);;
  mapM_outcome signedAttestationOf (skipFirst history).

Definition signedBlockOf (proposal : Proposal) : outcome SignedBlock :=
  signingRootHex <-? omap_err (λ e, wrapErr e "could not convert signing root to hex string")
    (RootToHexString (PSigningRoot proposal));;
  Ret (mkSignedBlock (formatUint (PSlot proposal)) signingRootHex).

Definition signedBlocksByPubKey (d : DB) (pubKey : bytes) : outcome (list SignedBlock) :=
  mapM_outcome signedBlockOf (ProposalHistoryForPubKey d pubKey).

Definition errGenesisEmpty : error := "genesis validators root is empty, perhaps you are not connected to your beacon node".

(** Is the key to be exported? *)
Definition keyFiltered (filteredKeys : list bytes) (pubKey : bytes) : bool :=
  (0 <? length filteredKeys)%nat && negb (bool_decide (pubKey ∈ filteredKeys)).

(** The blocks of the proposers, by key. *)
Fixpoint exportBlocks (d : DB) (filteredKeys keys : list bytes) (dataByPubKey : gmap bytes ProtectionData)
    : outcome (gmap bytes ProtectionData) :=
  match keys with
  | [] => Ret dataByPubKey
  | pubKey :: keys =>
      if keyFiltered filteredKeys pubKey then exportBlocks d filteredKeys keys dataByPubKey
      else
        pubKeyHex <-? omap_err (λ e, wrapErr e "could not convert public key to hex string") (PubKeyToHexString pubKey);;
        signedBlocks <-? omap_err (λ e, wrapErr e "could not retrieve signed blocks for public key") (signedBlocksByPubKey d pubKey);;
        exportBlocks d filteredKeys keys (<[pubKey := mkProtectionData pubKeyHex (map Some signedBlocks) []]> dataByPubKey)
  end.

(** The attestations, by key: [None] when the function returns early with a nil error,
    which [errors.Wrapf] of a nil error is. *)
Fixpoint exportAttestations (d : DB) (filteredKeys keys : list bytes) (dataByPubKey : gmap bytes ProtectionData)
    : outcome (option (gmap bytes ProtectionData)) :=
  match keys with
  | [] => Ret (Some dataByPubKey)
  | pubKey :: keys =>
      if keyFiltered filteredKeys pubKey then exportAttestations d filteredKeys keys dataByPubKey
      else
        _ <-? omap_err (λ e, wrapErr e "could not convert public key to hex string") (PubKeyToHexString pubKey);;
        signedAttestations <-? omap_err (λ e, wrapErr e "could not retrieve signed attestations for public key") (signedAttestationsByPubKey d pubKey);;
        match dataByPubKey !! pubKey with
        | None => Ret None
        | Some item =>
            exportAttestations d filteredKeys keys
              (<[pubKey := mkProtectionData (PDPubkey item) (PDSignedBlocks item) (map Some signedAttestations)]> dataByPubKey)
        end
  end.

(** [None] stands for a nil result with a nil error.  The data is sorted by the
    hexadecimal key, which is the order of the keys. *)
Definition ExportStandardProtectionJSON (d : DB) (filteredKeys : list bytes) : outcome (option EIPSlashingProtectionFormat) :=
  match GenesisValidatorsRoot d with
  | None => Err errGenesisEmpty
  | Some genesisValidatorsRoot =>
      if negb (IsValidRoot genesisValidatorsRoot) then Err errGenesisEmpty
      else
        genesisRootHex <-? omap_err (λ e, wrapErr e "could not convert genesis validators root to hex string")
          (RootToHexString genesisValidatorsRoot);;
        blocks <-? exportBlocks d filteredKeys (ProposedPublicKeys d) ∅;;
        all <-? exportAttestations d filteredKeys (AttestedPublicKeys d) blocks;;
        match all with
        | None => Ret None
        | Some dataByPubKey =>
            Ret (Some (mkFormat InterchangeFormatVersion genesisRootHex
              (Some (map (λ e, Some e.2) (gmapEntries dataByPubKey)))))
        end
  end.

(** ** Import *)

Definition errVersion : error := "slashing protection JSON version is not supported".
Definition errGenesisMismatch : error := "genesis validators root doesn't match the one that is stored in slashing protection db".

Definition ValidateMetadata (d : DB) (json : EIPSlashingProtectionFormat) : DB * outcome unit :=
  if negb (bool_decide (MetaInterchangeFormatVersion json = InterchangeFormatVersion)) then (d, Err errVersion)
  else
    match RootFromHex (MetaGenesisValidatorsRoot json) with
    | Ret gvr =>
        match GenesisValidatorsRoot d with
        | None =>
            match SaveGenesisValidatorsRoot d gvr with
            | Ret d => (d, Ret tt)
            | Err e => (d, Err (wrapErr e "could not save genesis validators root to db"))
            | Panic m => (d, Panic m)
            | OutOfFuel => (d, OutOfFuel)
            end
        | Some dbGvr => if bool_decide (dbGvr = gvr) then (d, Ret tt) else (d, Err errGenesisMismatch)
        end
    | Err e => (d, Err (wrapErr e "not a valid root"))
    | Panic m => (d, Panic m)
    | OutOfFuel => (d, OutOfFuel)
    end.

(** [m[k] = append(m[k], x)]. *)
Definition appendUnder {A} (m : gmap bytes (list A)) (k : bytes) (x : A) : gmap bytes (list A) :=
  <[k := default [] (m !! k) ++ [x]]> m.

(** The common part of the two parsers: [select] takes the entries of one kind. *)
Definition parseUnique {A} (select : ProtectionData → list (option A)) (data : list (option ProtectionData))
    : outcome (gmap bytes (list A)) :=
  foldl (λ acc validatorData,
    m <-? acc;;
    match validatorData with
    | None => Panic "nil pointer dereference"
    | Some validatorData =>
        pubKey <-? omap_err (λ e, wrapErr e "not a valid public key") (PubKeyFromHex (PDPubkey validatorData));;
        Ret (foldl (λ m o, match o with Some x => appendUnder m pubKey x | None => m end) m (select validatorData))
    end) (Ret ∅) data.
Definition parseBlocksForUniquePublicKeys := parseUnique PDSignedBlocks.
Definition parseAttestationsForUniquePublicKeys := parseUnique PDSignedAttestations.

(** An absent root is a zero-length one. *)
Definition parseRoot (root : bytes) : outcome bytes :=
  if (length root =? 0)%nat then Ret [] else omap_err (λ e, wrapErr e "not a valid root") (RootFromHex root).

Definition transformSignedBlock (proposal : SignedBlock) : outcome Proposal :=
  slot <-? omap_err (λ e, wrapErr e "not a valid slot") (SlotFromString (SBSlot proposal));;
  signingRoot <-? parseRoot (SBSigningRoot proposal);;
  Ret (mkProposal slot signingRoot).
Definition transformSignedBlocks (signedBlocks : list SignedBlock) : outcome (list Proposal) :=
  mapM_outcome transformSignedBlock signedBlocks.

Definition transformSignedAttestation (pubKey : bytes) (att : SignedAttestation) : outcome AttestationRecord :=
  target <-? omap_err (λ e, wrapErr e "not a valid epoch") (EpochFromString (SATargetEpoch att));;
  source <-? omap_err (λ e, wrapErr e "not a valid epoch") (EpochFromString (SASourceEpoch att));;
  signingRoot <-? parseRoot (SASigningRoot att);;
  Ret (mkAttRecord pubKey source target signingRoot).
Definition transformSignedAttestations (pubKey : bytes) (atts : list SignedAttestation) : outcome (list AttestationRecord) :=
  mapM_outcome (transformSignedAttestation pubKey) atts.

(** Two different roots for a slot within the list.  The signing roots here are never
    nil, so the test [signingRoot == nil] of the code is never true. *)
Fixpoint slashableBlocks (seen : gmap Z bytes) (proposals : list Proposal) : bool :=
  match proposals with
  | [] => false
  | blk :: proposals =>
      match seen !! PSlot blk with
      | Some signingRoot =>
          if negb (bool_decide (signingRoot = PSigningRoot blk)) then true
          else slashableBlocks (<[PSlot blk := PSigningRoot blk]> seen) proposals
      | None => slashableBlocks (<[PSlot blk := PSigningRoot blk]> seen) proposals
      end
  end.

(** A double vote or a surround vote within the list. *)
Fixpoint slashableWithin (signingRootsByTarget : gmap Z bytes) (targetEpochsBySource : gmap Z (list Z))
    (signedAtts : list AttestationRecord) : bool :=
  match signedAtts with
  | [] => false
  | att :: signedAtts =>
      if match signingRootsByTarget !! ARTarget att with
         | Some sr => SigningRootsDiffer sr (ARSigningRoot att)
         | None => false
         end
      then true
      else if existsb (λ st : Z * list Z, existsb (λ target,
                 let a := mkAtt st.1 target in
                 IsSurround a (recordAtt att) || IsSurround (recordAtt att) a) st.2) (map_to_list targetEpochsBySource)
      then true
      else slashableWithin (<[ARTarget att := ARSigningRoot att]> signingRootsByTarget)
             (<[ARSource att := default [] (targetEpochsBySource !! ARSource att) ++ [ARTarget att]]> targetEpochsBySource)
             signedAtts
  end.

(** Is one of them slashable with respect to the database? *)
Fixpoint slashableInDatabase (d : DB) (pubKey : bytes) (signedAtts : list AttestationRecord) : outcome bool :=
  match signedAtts with
  | [] => Ret false
  | att :: signedAtts =>
      res <-? CheckSlashableAttestation d pubKey (ARSigningRoot att) (recordAtt att);;
      match res with
      | (NotSlashable, Some err) => Err err
      | (NotSlashable, None) => slashableInDatabase d pubKey signedAtts
      | _ => Ret true
      end
  end.

Section ordered.
Context (rangeOrder : ∀ {A}, gmap bytes A → list (bytes * A)).

Definition filterSlashablePubKeysFromBlocks (historyByPubKey : gmap bytes (list Proposal)) : list bytes :=
  map fst (filter (λ kv, slashableBlocks ∅ kv.2 = true) (rangeOrder _ historyByPubKey)).

Definition filterSlashablePubKeysFromAttestations (d : DB) (signedAttsByPubKey : gmap bytes (list AttestationRecord))
    : outcome (list bytes) :=
  let within := map fst (filter (λ kv, slashableWithin ∅ ∅ kv.2 = true) (rangeOrder _ signedAttsByPubKey)) in
  foldl (λ acc kv,
    slashablePubKeys <-? acc;;
    slashable <-? slashableInDatabase d kv.1 kv.2;;
    Ret (if slashable : bool then slashablePubKeys ++ [kv.1] else slashablePubKeys))
    (Ret within) (rangeOrder _ signedAttsByPubKey).

Definition saveProposals (d : DB) (proposalHistoryByPubKey : gmap bytes (list Proposal)) : DB :=
  foldl (λ d kv, foldl (λ d proposal,
           SaveProposalHistoryForSlot d kv.1 (PSlot proposal) (PSigningRoot proposal)) d kv.2)
    d (rangeOrder _ proposalHistoryByPubKey).

Definition saveAttestations (d : DB) (attestingHistoryByPubKey : gmap bytes (list AttestationRecord)) : DB * outcome unit :=
  foldl (λ acc kv,
    match acc with
    | (d, Ret _) =>
        match SaveAttestationsForPubKey d kv.1 (map ARSigningRoot kv.2) (map recordAtt kv.2) with
        | Ret d => (d, Ret tt)
        | Err e => (d, Err (wrapErr e "could not save attestations from imported JSON to database"))
        | Panic m => (d, Panic m)
        | OutOfFuel => (d, OutOfFuel)
        end
    | failed => failed
    end) (d, Ret tt) (rangeOrder _ attestingHistoryByPubKey).

(** A map with a function that can fail applied to each entry. *)
Definition transformMap {A B} (f : bytes → A → outcome B) (m : gmap bytes A) : outcome (gmap bytes B) :=
  foldl (λ acc kv, m' <-? acc;; y <-? f kv.1 kv.2;; Ret (<[kv.1 := y]> m')) (Ret ∅) (rangeOrder _ m).

(** All that is read and computed before anything but the metadata is written: the two
    histories and the keys to blacklist. *)
Definition readInterchange (d : DB) (data : list (option ProtectionData))
    : outcome (gmap bytes (list Proposal) * gmap bytes (list AttestationRecord) * list bytes) :=
  signedBlocksByPubKey <-? omap_err (λ e, wrapErr e "could not parse unique entries for blocks by public key")
    (parseBlocksForUniquePublicKeys data);;
  signedAttsByPubKey <-? omap_err (λ e, wrapErr e "could not parse unique entries for attestations by public key")
    (parseAttestationsForUniquePublicKeys data);;
  proposalHistoryByPubKey <-? omap_err (λ e, wrapErr e "could not parse signed blocks in JSON file for key")
    (transformMap (λ _, transformSignedBlocks) signedBlocksByPubKey);;
  attestingHistoryByPubKey <-? omap_err (λ e, wrapErr e "could not parse signed attestations in JSON file for key")
    (transformMap transformSignedAttestations signedAttsByPubKey);;
  let slashableProposerKeys := filterSlashablePubKeysFromBlocks proposalHistoryByPubKey in
  slashableAttesterKeys <-? omap_err (λ e, wrapErr e "could not filter slashable attester public keys from JSON data")
    (filterSlashablePubKeysFromAttestations d attestingHistoryByPubKey);;
  Ret (proposalHistoryByPubKey, attestingHistoryByPubKey, slashableProposerKeys ++ slashableAttesterKeys).

Definition ImportStandardProtectionJSON (d : DB) (json : EIPSlashingProtectionFormat) : DB * outcome unit :=
  match Data json with
  | None => (d, Ret tt)
  | Some data =>
      match ValidateMetadata d json with
      | (d, Ret _) =>
          match readInterchange d data with
          | Ret (proposalHistoryByPubKey, attestingHistoryByPubKey, slashablePublicKeys) =>
              let d := SaveEIPImportBlacklistedPublicKeys d slashablePublicKeys in
              let d := saveProposals d proposalHistoryByPubKey in
              saveAttestations d attestingHistoryByPubKey
          | Err e => (d, Err e)
          | Panic m => (d, Panic m)
          | OutOfFuel => (d, OutOfFuel)
          end
      | (d, Err e) => (d, Err (wrapErr e "slashing protection JSON metadata was incorrect"))
      | failed => failed
      end
  end.
End ordered.
End interchange.
