(* ===== verification/ProtectionImport.v ===== *)
(** * Slashing protection: export and import keep the protection

    The strings of the interchange format decode to what was exported, and after a
    successful import no vote that the database lets through is slashable together
    with an imported one, unless the key was blacklisted because the imported
    history already contradicts itself. *)

From S2P Require Import Prelude MathHelper Primitives SlotTime Bytes Protection ProtectionKV ProtectionView ProtectionCheck ProtectionBatch ProtectionKVLaws ProtectionPrune ProtectionInterchange.

(** ** Decimal numbers *)

Lemma decimalDigits_spec fuel x :
  (0 < fuel)%nat → 0 ≤ x < 10 ^ Z.of_nat fuel →
  let s := decimalDigits fuel x in
  s ≠ [] ∧ forallb isDigit s = true ∧ foldl (λ n c, n * 10 + (c - 48)) 0 s = x.
Proof.
  cbv zeta. revert x. induction fuel as [|fuel IH]; intros x Hf Hx; [lia|]. cbn [decimalDigits].
  destruct (Z.ltb_spec x 10) as [Hlt|Hge].
  - split; [done|]. cbn. unfold isDigit. split; [|lia].
    rewrite andb_true_r, andb_true_iff, !Z.leb_le. lia.
  - assert (Hdiv : 0 ≤ x / 10 < 10 ^ Z.of_nat fuel).
    { rewrite Nat2Z.inj_succ, Z.pow_succ_r in Hx by lia.
      split; [apply Z.div_pos; lia|apply Z.div_lt_upper_bound; lia]. }
    destruct fuel as [|fuel]; [change (10 ^ Z.of_nat 0) with 1 in Hdiv; Z.div_mod_to_equations; lia|].
    destruct (IH (x / 10)) as (H1 & H2 & H3); [lia|done|].
    pose proof (Z.mod_pos_bound x 10 ltac:(lia)). split; [by intros [_ ?]%app_eq_nil|].
    rewrite forallb_app, H2, foldl_app, H3. cbn. split; [|Z.div_mod_to_equations; lia].
    unfold isDigit. rewrite andb_true_r, andb_true_iff, !Z.leb_le. lia.
Qed.

Lemma Uint64FromString_format x : is_u64 x → Uint64FromString (formatUint x) = Ret x.
Proof.
  intros Hx. unfold Uint64FromString, formatUint.
  destruct (decimalDigits_spec 20 x) as (H1 & H2 & H3); [lia|unfold is_u64, two64 in Hx; lia|].
  destruct (decimalDigits 20 x) as [|c s] eqn:E; [done|]. cbn [length Nat.eqb]. rewrite H2. cbn [negb].
  rewrite H3. destruct (Z.ltb_spec maxUint64 x); [u64_lia|done].
Qed.

Lemma Uint64FromString_u64 s x : Uint64FromString s = Ret x → is_u64 x.
Proof.
  unfold Uint64FromString. destruct (length s =? 0)%nat; [done|].
  destruct (forallb isDigit s) eqn:E; [|done]. cbn [negb].
  destruct (Z.ltb_spec maxUint64 (foldl (λ n c, n * 10 + (c - 48)) 0 s)); [done|]. intros [= <-].
  assert (Hnn : ∀ l n, 0 ≤ n → forallb isDigit l = true → 0 ≤ foldl (λ n c, n * 10 + (c - 48)) n l).
  { induction l as [|c l IH]; intros n Hn Hl; [done|]. cbn in *. apply andb_true_iff in Hl as [Hc Hl].
    apply IH; [|done]. unfold isDigit in Hc. bprop. lia. }
  specialize (Hnn s 0 ltac:(lia) E). unfold is_u64, two64, maxUint64 in *. lia.
Qed.

(** ** Hexadecimal *)

Lemma fromHexChar_digit n : 0 ≤ n < 16 → fromHexChar (hexDigit n) = Some n.
Proof.
  intros Hn. unfold fromHexChar, hexDigit. destruct (Z.ltb_spec n 10).
  - replace ((48 <=? 48 + n) && (48 + n <=? 57)) with true by lia. f_equal. lia.
  - replace ((48 <=? 87 + n) && (87 + n <=? 57)) with false by lia.
    replace ((97 <=? 87 + n) && (87 + n <=? 102)) with true by lia. f_equal. lia.
Qed.

Lemma hexDecode_encode b : is_bytes b → hexDecode (hexEncode b) = Ret b.
Proof.
  induction 1 as [|x b Hx Hb IH]; [done|]. unfold is_byte in Hx. cbn [hexEncode flat_map app hexDecode].
  rewrite !fromHexChar_digit by (Z.div_mod_to_equations; lia).
  unfold hexEncode in IH. rewrite IH. cbn. do 2 f_equal. Z.div_mod_to_equations. lia.
Qed.

Lemma RootFromHex_format root : is_bytes root → length root = 32%nat → RootFromHex (formatHex root) = Ret root.
Proof. intros Hb Hl. unfold RootFromHex, formatHex. cbn [trimPrefix0x]. rewrite hexDecode_encode by done. cbn. by rewrite Hl. Qed.

Lemma RootFromHex_length s root : RootFromHex s = Ret root → length root = RootLength.
Proof.
  unfold RootFromHex. intros (r & _ & Hr)%obind_ret. destruct (length r =? 32)%nat eqn:E; [|done].
  injection Hr as <-. by apply Nat.eqb_eq.
Qed.

Lemma PubKeyFromHex_length s pk : PubKeyFromHex s = Ret pk → length pk = BLSPubkeyLength.
Proof.
  unfold PubKeyFromHex. intros (r & _ & Hr)%obind_ret. destruct (length r =? 48)%nat eqn:E; [|done].
  injection Hr as <-. by apply Nat.eqb_eq.
Qed.

Lemma parseRoot_typed s root : parseRoot s = Ret root → IsRootValue root.
Proof.
  unfold parseRoot. destruct (length s =? 0)%nat; [intros [= <-]; by left|].
  rewrite omap_err_ret. intros Hr%RootFromHex_length. by right.
Qed.

(** ** The export decodes to what was exported *)

Definition exportableRoot (root : bytes) : Prop := root = [] ∨ (length root = RootLength ∧ is_bytes root).

Definition exportable (r : AttestationRecord) : Prop :=
  is_u64 (ARSource r) ∧ is_u64 (ARTarget r) ∧ exportableRoot (ARSigningRoot r).
Definition exportableBlock (p : Proposal) : Prop := is_u64 (PSlot p) ∧ exportableRoot (PSigningRoot p).

Lemma RootToHexString_parse root :
  exportableRoot root → ∃ s, RootToHexString root = Ret s ∧ parseRoot s = Ret root.
Proof.
  intros [->|[Hl Hb]]; [by exists []|]. exists (formatHex root). unfold RootToHexString, parseRoot.
  rewrite Hl. cbn [Nat.eqb RootLength negb]. split; [done|]. unfold formatHex at 1. cbn [length Nat.eqb].
  by rewrite RootFromHex_format.
Qed.

Lemma signedAttestation_roundtrip r :
  exportable r → ∃ sa, signedAttestationOf r = Ret sa ∧ transformSignedAttestation (ARPubKey r) sa = Ret r.
Proof.
  intros (Hs & Ht & Hr). destruct (RootToHexString_parse _ Hr) as (s & E1 & E2).
  exists (mkSignedAttestation (formatUint (ARSource r)) (formatUint (ARTarget r)) s). split.
  - unfold signedAttestationOf. destruct (ARSigningRoot r) eqn:Er; [cbn in *; by injection E1 as <-|].
    cbn [length Nat.eqb]. by rewrite E1.
  - unfold transformSignedAttestation, EpochFromString. cbn. rewrite !Uint64FromString_format by done. cbn.
    rewrite E2. cbn. by destruct r.
Qed.

Lemma signedBlock_roundtrip p :
  exportableBlock p → ∃ sb, signedBlockOf p = Ret sb ∧ transformSignedBlock sb = Ret p.
Proof.
  intros (Hs & Hr). destruct (RootToHexString_parse _ Hr) as (s & E1 & E2).
  exists (mkSignedBlock (formatUint (PSlot p)) s). unfold signedBlockOf, transformSignedBlock, SlotFromString.
  rewrite E1. split; [done|]. cbn. rewrite Uint64FromString_format by done. cbn. rewrite E2. by destruct p.
Qed.

Lemma mapM_roundtrip {A B} (f : A → outcome B) (g : B → outcome A) l :
  Forall (λ x, ∃ y, f x = Ret y ∧ g y = Ret x) l →
  ∃ l', mapM_outcome f l = Ret l' ∧ mapM_outcome g l' = Ret l.
Proof.
  induction 1 as [|x l (y & Hf & Hg) _ (l' & IH1 & IH2)]; [by exists []|].
  exists (y :: l'). cbn. by rewrite Hf, IH1, Hg, IH2.
Qed.

Lemma skipFirst_sub h r : r ∈ skipFirst h → r ∈ h.
Proof. destruct h as [|a [|b h]]; cbn; [done|done|]. case_if; set_solver. Qed.

(** Interchange round trip: the attestations and blocks that the export writes for a
    key as decimal and hexadecimal strings are read back by the import as the very
    records of the key's history (without the first record where the export leaves it
    out because of an old schema's bug). *)
Theorem interchange_roundtrip `{Bolt} (d : DB) (pk : bytes) (history : list AttestationRecord) :
  AttestationHistoryForPubKey d pk = Ret history →
  Forall (λ r, exportable r ∧ ARPubKey r = pk) history → Forall exportableBlock (ProposalHistoryForPubKey d pk) →
  (∃ atts, signedAttestationsByPubKey d pk = Ret atts ∧
           transformSignedAttestations pk atts = Ret (skipFirst history)) ∧
  (∃ blocks, signedBlocksByPubKey d pk = Ret blocks ∧
             transformSignedBlocks blocks = Ret (ProposalHistoryForPubKey d pk)).
Proof.
  intros Hh Ha Hb. split.
  - unfold signedAttestationsByPubKey, transformSignedAttestations. rewrite Hh. cbn [obind omap_err].
    apply mapM_roundtrip. rewrite Forall_forall in *. intros r Hr%skipFirst_sub.
    destruct (Ha r Hr) as [He <-]. by apply signedAttestation_roundtrip.
  - apply mapM_roundtrip. eapply Forall_impl; [exact Hb|]. intros p Hp. by apply signedBlock_roundtrip.
Qed.

(** ** What the import reads *)

Lemma mapM_elem {A B} (f : A → outcome B) l l' x :
  mapM_outcome f l = Ret l' → x ∈ l → ∃ y, f x = Ret y ∧ y ∈ l'.
Proof.
  revert l'. induction l as [|a l IH]; intros l' Hm Hx; [set_solver|]. cbn in Hm.
  apply obind_ret in Hm as (y & Hy & (ys & Hys & [= <-])%obind_ret).
  apply elem_of_cons in Hx as [->|Hx]; [exists y; set_solver|].
  destruct (IH _ Hys Hx) as (y' & ? & ?). exists y'. set_solver.
Qed.

Lemma mapM_Forall {A B} (f : A → outcome B) (P : B → Prop) l l' :
  (∀ x y, f x = Ret y → P y) → mapM_outcome f l = Ret l' → Forall P l'.
Proof.
  intros HP. revert l'. induction l as [|a l IH]; intros l' Hm; cbn in Hm; [injection Hm as <-; constructor|].
  apply obind_ret in Hm as (y & Hy & (ys & Hys & [= <-])%obind_ret). constructor; [by eapply HP|by apply IH].
Qed.

Lemma foldl_obind_fail {A B} (f : A → B → outcome A) l (m : outcome A) a :
  foldl (λ acc x, y <-? acc;; f y x) m l = Ret a → ∃ a0, m = Ret a0.
Proof.
  revert m. induction l as [|x l IH]; intros m; cbn; [by exists a|].
  intros (a0 & Ha)%IH. apply obind_ret in Ha as (a1 & ? & _). eauto.
Qed.

(** What one item of the file adds to the map. *)
Lemma appendAll_elem {A} (l : list (option A)) m pk x :
  let m' := foldl (λ m o, match o with Some x => appendUnder m pk x | None => m end) m l in
  (∀ k y, y ∈ default [] (m !! k) → y ∈ default [] (m' !! k)) ∧ (Some x ∈ l → x ∈ default [] (m' !! pk)).
Proof.
  cbv zeta. revert m. induction l as [|o l IH]; intros m; cbn; [split; [done|set_solver]|].
  destruct (IH (match o with Some x => appendUnder m pk x | None => m end)) as [H1 H2].
  assert (Hmono : ∀ k y, y ∈ default [] (m !! k) →
    y ∈ default [] (match o with Some x => appendUnder m pk x | None => m end !! k)).
  { intros k y Hy. destruct o as [z|]; [|done]. unfold appendUnder. rewrite lookup_insert.
    case_decide; [subst|done]. cbn. set_solver. }
  split; [intros k y Hy; by apply H1, Hmono|]. intros [Ho|Hl]%elem_of_cons; [|by apply H2].
  apply H1. rewrite <- Ho. unfold appendUnder. rewrite lookup_insert_eq. cbn. set_solver.
Qed.

Lemma parseUnique_elem {A} (select : ProtectionData → list (option A)) data m pd pk x :
  parseUnique select data = Ret m → Some pd ∈ data → PubKeyFromHex (PDPubkey pd) = Ret pk →
  Some x ∈ select pd → x ∈ default [] (m !! pk).
Proof.
  unfold parseUnique. generalize (∅ : gmap bytes (list A)). intros m0 Hm Hpd Hpk Hx.
  revert m0 Hm. induction data as [|o data IH]; intros m0 Hm; [set_solver|]. cbn [foldl] in Hm.
  apply elem_of_cons in Hpd as [<-|Hpd].
  - clear IH. cbn in Hm. rewrite Hpk in Hm. cbn in Hm.
    destruct (appendAll_elem (select pd) m0 pk x) as [_ Hin]. specialize (Hin Hx).
    revert Hin Hm. generalize (foldl (λ m o, match o with Some x => appendUnder m pk x | None => m end) m0 (select pd)).
    induction data as [|o data IH]; intros m1 Hin Hm; [by injection Hm as <-|]. cbn [foldl obind] in Hm.
    destruct o as [pd'|]; [|by apply foldl_obind_fail in Hm as [? ?]].
    destruct (omap_err _ (PubKeyFromHex _)) as [pk'| | |]; cbn [obind] in Hm; try (by apply foldl_obind_fail in Hm as [? ?]).
    apply (IH _ ltac:(by apply (appendAll_elem (select pd') m1 pk' x)) Hm).
  - cbn [obind] in Hm. destruct o as [pd'|]; [|by apply foldl_obind_fail in Hm as [? ?]].
    destruct (omap_err _ (PubKeyFromHex _)) as [pk'| | |]; cbn [obind] in Hm; try (by apply foldl_obind_fail in Hm as [? ?]).
    by eapply IH.
Qed.

(** ** Lemmas that do not depend on the order of maps *)

Section pieces.
Context `{Bolt} `{BeaconChainConfig}.

Lemma slashableWithin_roots m s rs :
  slashableWithin m s rs = false →
  (∀ r sr, r ∈ rs → m !! ARTarget r = Some sr → sr = ARSigningRoot r) ∧
  (∀ r1 r2, r1 ∈ rs → r2 ∈ rs → ARTarget r1 = ARTarget r2 → ARSigningRoot r1 = ARSigningRoot r2).
Proof.
  revert m s. induction rs as [|a rs IH]; intros m s Hsl; [set_solver|]. cbn in Hsl.
  destruct (match m !! ARTarget a with Some sr => _ | None => _ end) eqn:Em; [done|].
  destruct (existsb _ _); [done|]. apply IH in Hsl as [H1 H2].
  assert (Ha : ∀ sr, m !! ARTarget a = Some sr → sr = ARSigningRoot a).
  { intros sr Hsr. rewrite Hsr in Em. unfold SigningRootsDiffer in Em.
    destruct (length sr =? 0)%nat; [done|]. by bprop. }
  assert (Hrest : ∀ r, r ∈ rs → ARTarget r = ARTarget a → ARSigningRoot a = ARSigningRoot r).
  { intros r Hr Ht. apply (H1 r _ Hr). rewrite Ht. apply lookup_insert_eq. }
  split.
  - intros r sr [->|Hr]%elem_of_cons Hm; [by apply Ha|].
    destruct (decide (ARTarget r = ARTarget a)) as [Ht|Ht].
    + rewrite Ht in Hm. rewrite <- (Hrest r Hr Ht). by apply Ha.
    + apply (H1 r sr Hr). by rewrite lookup_insert_ne.
  - intros r1 r2 [->|Hr1]%elem_of_cons [->|Hr2]%elem_of_cons Ht; [done|by apply Hrest|symmetry; by apply Hrest|by apply H2].
Qed.

Lemma records_of_zip pk rs :
  Forall (λ r, ARPubKey r = pk) rs →
  map (λ ar, mkAttRecord pk (SourceEpoch ar.1) (TargetEpoch ar.1) ar.2) (zip (map recordAtt rs) (map ARSigningRoot rs)) = rs.
Proof. induction 1 as [|r rs <- _ IH]; [done|]. cbn. rewrite IH. by destruct r. Qed.

Lemma transformed_records A pk rs atts :
  transformSignedAttestations pk atts = Ret rs → A = rs → Forall (λ r, ARPubKey r = pk ∧ RecordTyped r) A.
Proof.
  intros Ht ->. eapply mapM_Forall; [|exact Ht]. intros sa r Hr. unfold transformSignedAttestation in Hr.
  apply obind_ret in Hr as (t & Ht1%omap_err_ret & Hr).
  apply obind_ret in Hr as (s & Hs1%omap_err_ret & Hr).
  apply obind_ret in Hr as (root & Hroot & [= <-]). split; [done|]. split_and!; cbn.
  - by eapply Uint64FromString_u64.
  - by eapply Uint64FromString_u64.
  - by eapply parseRoot_typed.
Qed.

Lemma transformed_blocks ps blocks :
  transformSignedBlocks blocks = Ret ps → Forall (λ p, is_u64 (PSlot p) ∧ IsRootValue (PSigningRoot p)) ps.
Proof.
  intros Ht. eapply mapM_Forall; [|exact Ht]. intros sb p Hp. unfold transformSignedBlock in Hp.
  apply obind_ret in Hp as (s & Hs%omap_err_ret & Hp). apply obind_ret in Hp as (root & Hroot & [= <-]).
  split; [by eapply Uint64FromString_u64|by eapply parseRoot_typed].
Qed.

Lemma saveRecords_blacklist d rs :
  slashablePublicKeysBucket (saveAttestationRecords d rs) = slashablePublicKeysBucket d.
Proof. revert d. induction rs as [|r rs IH]; intros d; [done|]. apply (IH (saveAttestationRecord d r)). Qed.

Lemma blacklisted d d' keys pk :
  slashablePublicKeysBucket d' = slashablePublicKeysBucket (SaveEIPImportBlacklistedPublicKeys d keys) →
  pk ∈ keys → length pk = BLSPubkeyLength → pk ∈ EIPImportBlacklistedPublicKeys d'.
Proof.
  intros E Hin Hlen. unfold EIPImportBlacklistedPublicKeys. rewrite E. clear E. cbn. apply list_elem_of_fmap.
  exists (pk, [1]). cbn. split; [by rewrite (copyBytes_full BLSPubkeyLength)|]. apply entries_Get.
  revert Hin. generalize (slashablePublicKeysBucket d).
  assert (Hkeep : ∀ l B, Get B pk = Some [1] → Get (foldl (λ b pubKey, Put b pubKey [1]) B l) pk = Some [1]).
  { induction l as [|k l IH]; intros B HB; [done|]. cbn. apply IH. rewrite Get_Put. by case_decide. }
  induction keys as [|k keys IH]; intros B Hin; [set_solver|]. cbn.
  apply elem_of_cons in Hin as [->|Hin]; [|by apply IH]. apply Hkeep. by rewrite Get_Put_eq.
Qed.

Lemma lastRoot_same rs pk t root :
  (∃ r, r ∈ rs ∧ ARPubKey r = pk ∧ ARTarget r = t) →
  (∀ r, r ∈ rs → ARPubKey r = pk → ARTarget r = t → ARSigningRoot r = root) → lastRoot rs pk t = Some root.
Proof.
  intros (r & Hin & Hpk & Ht) Hall. unfold lastRoot.
  destruct (last (filter (λ r, ARPubKey r = pk ∧ ARTarget r = t) rs)) as [q|] eqn:E.
  - cbn. f_equal. apply last_Some_elem_of, list_elem_of_filter in E as [[? ?] ?]. by apply Hall.
  - apply last_None in E. assert (r ∈ filter (λ r, ARPubKey r = pk ∧ ARTarget r = t) rs) as Hf
      by (by apply list_elem_of_filter). rewrite E in Hf. set_solver.
Qed.

(** A batch without contradictions is recorded whatever was there before. *)
Lemma saveRecords_recorded d rs r :
  DBTyped d → Forall RecordTyped rs → r ∈ rs →
  (∀ q, q ∈ rs → ARPubKey q = ARPubKey r → ARTarget q = ARTarget r → ARSigningRoot q = ARSigningRoot r) →
  isRecorded (saveAttestationRecords d rs) r.
Proof.
  intros Hd Hrs Hin Hsame. assert (Hr : RecordTyped r) by (rewrite Forall_forall in Hrs; by apply Hrs).
  pose proof Hr as (Hs & Ht & _). split_and!.
  - rewrite rootAt_saveRecords by done.
    rewrite (lastRoot_same rs _ _ (ARSigningRoot r)); [done|by exists r|done].
  - apply targetsOf_saveRecords; [done..|]. right. by exists r.
  - clear Hsame. revert d Hd. induction Hrs as [|q rs Hq Hrs IH]; intros d Hd; [set_solver|].
    apply elem_of_cons in Hin as [->|Hin].
    + apply (saveRecords_rel (saveAttestationRecord d q) rs (λ d, ARSource q ∈ sourcesOf d (ARPubKey q) (ARTarget q)));
        [by apply saveAttestationRecord_typed|done| |].
      * by destruct (recorded_new d q Hd Hq) as (_ & _ & ?).
      * intros d0 r0 Hd0 _ Hr0 Hin0. rewrite sourcesOf_save by done. case_decide; [apply elem_of_app; by left|done].
    + apply IH; [done|]. by apply saveAttestationRecord_typed.
Qed.

Lemma ValidateMetadata_inv d json d1 :
  DBTyped d → ValidateMetadata d json = (d1, Ret tt) →
  DBTyped d1 ∧ slashablePublicKeysBucket d1 = slashablePublicKeysBucket d.
Proof.
  intros Hd. unfold ValidateMetadata. destruct (negb _); [done|].
  destruct (RootFromHex _) as [gvr| | |]; try done. destruct (GenesisValidatorsRoot d); [by case_match; intros [= <-]|].
  unfold SaveGenesisValidatorsRoot. destruct (_ && _); [done|]. intros [= <-]. destruct Hd. by split.
Qed.
End pieces.

Section import.
Context `{Bolt} `{BeaconChainConfig}.
Context (rangeOrder : ∀ {A}, gmap bytes A → list (bytes * A)).
Hypothesis rangeOrder_perm : ∀ A (m : gmap bytes A), rangeOrder A m ≡ₚ map_to_list m.

Lemma rangeOrder_elem {A} (m : gmap bytes A) k x : (k, x) ∈ rangeOrder A m ↔ m !! k = Some x.
Proof using rangeOrder_perm. rewrite rangeOrder_perm. apply elem_of_map_to_list. Qed.

Lemma transformMap_lookup {A B} (f : bytes → A → outcome B) m m' :
  transformMap rangeOrder f m = Ret m' →
  ∀ k, match m !! k with
       | Some x => ∃ y, f k x = Ret y ∧ m' !! k = Some y
       | None => m' !! k = None
       end.
Proof using rangeOrder_perm.
  unfold transformMap. intros Hm.
  assert (Hgen : ∀ l (m0 : gmap bytes B), NoDup l.*1 →
    foldl (λ acc kv, m' <-? acc;; y <-? f kv.1 kv.2;; Ret (<[kv.1 := y]> m')) (Ret m0) l = Ret m' →
    (∀ k x, (k, x) ∈ l → ∃ y, f k x = Ret y ∧ m' !! k = Some y) ∧ (∀ k, k ∉ l.*1 → m' !! k = m0 !! k)).
  { clear Hm. induction l as [|[k x] l IH]; intros m0 Hnd Hf; cbn in *; [injection Hf as <-; set_solver|].
    apply NoDup_cons in Hnd as [Hk Hnd]. destruct (f k x) as [y| | |] eqn:Ey; cbn in Hf;
      try (by apply foldl_obind_fail in Hf as [? ?]).
    destruct (IH _ Hnd Hf) as [H1 H2]. split.
    - intros k' x' [[= -> ->]|Hin]%elem_of_cons; [|by apply H1].
      exists y. split; [done|]. rewrite H2 by done. apply lookup_insert_eq.
    - intros k' Hk'. rewrite H2 by set_solver. apply lookup_insert_ne. set_solver. }
  destruct (Hgen (rangeOrder _ m) ∅) as [H1 H2]; [rewrite rangeOrder_perm; apply NoDup_fst_map_to_list|done|].
  intros k. destruct (m !! k) as [x|] eqn:E.
  - apply H1. by apply rangeOrder_elem.
  - rewrite H2; [apply lookup_empty|]. intros ([k' x] & -> & Hin)%list_elem_of_fmap.
    apply rangeOrder_elem in Hin. cbn in E. congruence.
Qed.

(** ** The filter *)

Lemma filterAttestations_within d A keys pk rs :
  filterSlashablePubKeysFromAttestations rangeOrder d A = Ret keys →
  A !! pk = Some rs → slashableWithin ∅ ∅ rs = true → pk ∈ keys.
Proof using rangeOrder_perm.
  unfold filterSlashablePubKeysFromAttestations. intros Hf HA Hsl.
  assert (Hin : pk ∈ map fst (filter (λ kv, slashableWithin ∅ ∅ kv.2 = true) (rangeOrder _ A))).
  { apply list_elem_of_fmap. exists (pk, rs). split; [done|]. apply list_elem_of_filter. split; [done|].
    by apply rangeOrder_elem. }
  revert Hf Hin. generalize (map fst (filter (λ kv, slashableWithin ∅ ∅ kv.2 = true) (rangeOrder _ A))).
  generalize (rangeOrder _ A). induction l as [|[k x] l IH]; intros acc Hf Hin; cbn in *; [by injection Hf as <-|].
  destruct (slashableInDatabase d k x) as [b| | |]; cbn in Hf; try (by apply foldl_obind_fail in Hf as [? ?]).
  apply (IH _ Hf). destruct b; set_solver.
Qed.

(** ** Saving *)

Lemma saveAttestations_flat d A :
  (∀ pk rs, A !! pk = Some rs → Forall (λ r, ARPubKey r = pk) rs) →
  saveAttestations rangeOrder d A = (saveAttestationRecords d (flat_map snd (rangeOrder _ A)), Ret tt).
Proof using rangeOrder_perm.
  intros HA. unfold saveAttestations.
  assert (Hl : ∀ k x, (k, x) ∈ rangeOrder _ A → Forall (λ r, ARPubKey r = k) x).
  { intros k x Hin%rangeOrder_elem. by apply HA. }
  revert d Hl. generalize (rangeOrder _ A). induction l as [|[k x] l IH]; intros d Hl; [done|].
  cbn [foldl flat_map fst snd]. unfold SaveAttestationsForPubKey at 2. rewrite !length_map, Nat.eqb_refl. cbn [negb].
  rewrite records_of_zip by (apply Hl; set_solver). rewrite IH by set_solver.
  unfold saveAttestationRecords. by rewrite foldl_app.
Qed.

Lemma saveProposals_inv d P :
  DBTyped d → (∀ pk ps, P !! pk = Some ps → Forall (λ p, is_u64 (PSlot p) ∧ IsRootValue (PSigningRoot p)) ps) →
  DBTyped (saveProposals rangeOrder d P) ∧
  slashablePublicKeysBucket (saveProposals rangeOrder d P) = slashablePublicKeysBucket d.
Proof using rangeOrder_perm.
  intros Hd HP. unfold saveProposals.
  assert (Hl : ∀ k x, (k, x) ∈ rangeOrder _ P → Forall (λ p, is_u64 (PSlot p) ∧ IsRootValue (PSigningRoot p)) x).
  { intros k x Hin%rangeOrder_elem. by eapply HP. }
  assert (Hone : ∀ k x d, DBTyped d → Forall (λ p, is_u64 (PSlot p) ∧ IsRootValue (PSigningRoot p)) x →
    let d' := foldl (λ d proposal, SaveProposalHistoryForSlot d k (PSlot proposal) (PSigningRoot proposal)) d x in
    DBTyped d' ∧ slashablePublicKeysBucket d' = slashablePublicKeysBucket d).
  { clear. intros k x d Hd Hx. cbv zeta. revert d Hd. induction Hx as [|p x [Hs Hr] _ IH]; intros d Hd; [done|].
    cbn [foldl]. destruct (IH (SaveProposalHistoryForSlot d k (PSlot p) (PSigningRoot p))) as [H1 H2];
      [by apply SaveProposalHistoryForSlot_DBTyped|]. split; [done|]. by rewrite H2. }
  clear HP. revert d Hd Hl. generalize (rangeOrder _ P).
  induction l as [|[k x] l IH]; intros d Hd Hl; [done|]. cbn [foldl fst snd].
  destruct (Hone k x d Hd) as [H1 H2]; [apply (Hl k); set_solver|].
  destruct (IH _ H1) as [H3 H4]; [set_solver|]. split; [done|]. by rewrite H4, H2.
Qed.

End import.

(** C23. An import protects: after a successful import of an interchange file, for every
    attestation in the file whose key and fields are well formed, either its key is
    blacklisted or no attestation that the database's check lets through for the key
    is slashable together with it. *)
Theorem import_protects `{Bolt} (rangeOrder : ∀ A, gmap bytes A → list (bytes * A))
    (d d' : DB) (json : EIPSlashingProtectionFormat) data pd sa pk r :
  (∀ A (m : gmap bytes A), rangeOrder A m ≡ₚ map_to_list m) →
  ∀ `{BeaconChainConfig},
  DBTyped d → ImportStandardProtectionJSON rangeOrder d json = (d', Ret tt) →
  Data json = Some data → Some pd ∈ data → Some sa ∈ PDSignedAttestations pd →
  PubKeyFromHex (PDPubkey pd) = Ret pk → transformSignedAttestation pk sa = Ret r →
  pk ∈ EIPImportBlacklistedPublicKeys d' ∨
  ∀ att root, validAttestation att root → attestationConditions d' att pk root = Ret tt →
    ¬ slashableAttestations r (mkAttRecord pk (SourceEpoch att) (TargetEpoch att) root).
Proof.
  intros Hperm ? Hd Himp Hdata Hpd Hsa Hpk Hr. unfold ImportStandardProtectionJSON in Himp. rewrite Hdata in Himp.
  destruct (ValidateMetadata d json) as [d1 [[]| | |]] eqn:Ev; try done.
  destruct (ValidateMetadata_inv _ _ _ Hd Ev) as [Hd1 _].
  destruct (readInterchange rangeOrder d1 data) as [[[P A] S]| | |] eqn:Er; try done.
  unfold readInterchange in Er.
  apply obind_ret in Er as (bs & Hbs%omap_err_ret & Er). apply obind_ret in Er as (ats & Hats%omap_err_ret & Er).
  apply obind_ret in Er as (P' & HP%omap_err_ret & Er). apply obind_ret in Er as (A' & HA%omap_err_ret & Er).
  apply obind_ret in Er as (ks & Hks%omap_err_ret & [= -> -> <-]).
  pose proof (parseUnique_elem _ _ _ _ _ _ Hats Hpd Hpk Hsa) as Hin.
  destruct (ats !! pk) as [sas|] eqn:Esas; [|set_solver]. cbn in Hin.
  pose proof (transformMap_lookup rangeOrder Hperm _ _ _ HA) as HAl.
  assert (HAty : ∀ k rs, A !! k = Some rs → Forall (λ q, ARPubKey q = k ∧ RecordTyped q) rs).
  { intros k rs Hk. specialize (HAl k). destruct (ats !! k) as [x|]; [|congruence].
    destruct HAl as (y & Hy & Hk'). rewrite Hk in Hk'. injection Hk' as <-. by eapply transformed_records. }
  pose proof (transformMap_lookup rangeOrder Hperm _ _ _ HP) as HPl.
  assert (HPty : ∀ k ps, P !! k = Some ps → Forall (λ p, is_u64 (PSlot p) ∧ IsRootValue (PSigningRoot p)) ps).
  { intros k ps Hk. specialize (HPl k). destruct (bs !! k) as [x|]; [|congruence].
    destruct HPl as (y & Hy & Hk'). rewrite Hk in Hk'. injection Hk' as <-. by eapply transformed_blocks. }
  specialize (HAl pk). rewrite Esas in HAl. destruct HAl as (rs & Hrs & Hkrs).
  destruct (mapM_elem _ _ _ _ Hrs Hin) as (r' & Hr' & Hrin). rewrite Hr in Hr'. injection Hr' as <-.
  rewrite saveAttestations_flat in Himp; [|done|intros k x Hx; eapply Forall_impl; [by apply HAty|by intros ? []]].
  injection Himp as <-. set (keys := filterSlashablePubKeysFromBlocks rangeOrder P ++ ks) in *.
  destruct (saveProposals_inv rangeOrder Hperm (SaveEIPImportBlacklistedPublicKeys d1 keys) P) as [Hd2 Hbl];
    [by destruct Hd1|done|].
  destruct (slashableWithin ∅ ∅ rs) eqn:Esl.
  - left. apply (blacklisted d1 _ keys); [etransitivity; [apply saveRecords_blacklist|exact Hbl]| |by eapply PubKeyFromHex_length].
    apply elem_of_app. right. by eapply filterAttestations_within.
  - right. intros att root Hv Hcond. destruct (slashableWithin_roots _ _ _ Esl) as [_ Hsame].
    assert (Hflat : Forall RecordTyped (flat_map snd (rangeOrder _ A))).
    { apply Forall_forall. intros q Hq. apply elem_of_flat_map in Hq as ([k x] & Hkx & Hqx).
      apply (rangeOrder_elem rangeOrder Hperm) in Hkx. pose proof (HAty _ _ Hkx) as Hf. rewrite Forall_forall in Hf.
      by apply Hf. }
    assert (Hrec : isRecorded (saveAttestationRecords (saveProposals rangeOrder (SaveEIPImportBlacklistedPublicKeys d1 keys) P)
      (flat_map snd (rangeOrder _ A))) r).
    { apply saveRecords_recorded; [done|done| |].
      - apply elem_of_flat_map. exists (pk, rs). split; [by apply rangeOrder_elem|done].
      - intros q Hq Hqp Hqt. apply elem_of_flat_map in Hq as ([k x] & Hkx & Hqx).
        apply (rangeOrder_elem rangeOrder Hperm) in Hkx. pose proof (HAty _ _ Hkx) as Hf.
        pose proof (HAty _ _ Hkrs) as Hf2. rewrite Forall_forall in Hf, Hf2.
        destruct (Hf _ Hqx) as [Hqk _]. destruct (Hf2 _ Hrin) as [Hrk _].
        assert (k = pk) as -> by congruence. rewrite Hkrs in Hkx. injection Hkx as <-. by apply Hsame. }
    pose proof (attestationConditions_view _ _ _ _ _ _ _ (saveRecords_typed _ _ Hd2 Hflat) Hcond) as Hm.
    apply (not_slashable_recorded _ _ _ _ _ Hm); [|done].
    pose proof (HAty _ _ Hkrs) as Hf. rewrite Forall_forall in Hf. by apply Hf.
Qed.

(** ** Concrete files *)

Definition fileKey : bytes := replicate 48 1.
Definition fileRoot (b : Z) : bytes := replicate 32 b.

(** One key with attestations (2, 3) and (3, 4) and no blocks. *)
Definition fileAttestation : SignedAttestation := mkSignedAttestation [50] [51] (formatHex (fileRoot 7)).
Definition fileData : ProtectionData :=
  mkProtectionData (formatHex fileKey) []
    [Some fileAttestation; None; Some (mkSignedAttestation [51] [52] [])].
Definition fileJSON : EIPSlashingProtectionFormat :=
  mkFormat InterchangeFormatVersion (formatHex (fileRoot 9)) (Some [Some fileData]).
Definition fileDB : @DB gmapBolt :=
  (@ImportStandardProtectionJSON gmapBolt mainnetBeaconConfig (λ _ m, map_to_list m) emptyDB fileJSON).1.

Lemma interchange_roundtrip_witness :
  (∃ atts, @signedAttestationsByPubKey gmapBolt fileDB fileKey = Ret atts ∧
     transformSignedAttestations fileKey atts =
     Ret [mkAttRecord fileKey 2 3 (fileRoot 7); mkAttRecord fileKey 3 4 []]).
Proof.
  refine (proj1 (@interchange_roundtrip gmapBolt fileDB fileKey
    [mkAttRecord fileKey 2 3 (fileRoot 7); mkAttRecord fileKey 3 4 []] _ _ _)).
  - vm_compute. reflexivity.
  - apply Forall_cons. split.
    + split; [|reflexivity]. split; [split; vm_compute; congruence|]. split; [split; vm_compute; congruence|].
      right. split; [reflexivity|]. apply Forall_replicate. split; vm_compute; congruence.
    + apply Forall_singleton. split; [|reflexivity]. split; [split; vm_compute; congruence|].
      split; [split; vm_compute; congruence|by left].
  - assert (E : @ProposalHistoryForPubKey gmapBolt fileDB fileKey = []) by (vm_compute; reflexivity).
    rewrite E. apply Forall_nil_2.
Defined.

Lemma fileDB_import :
  @ImportStandardProtectionJSON gmapBolt mainnetBeaconConfig (λ _ m, map_to_list m) emptyDB fileJSON = (fileDB, Ret tt).
Proof.
  assert (E : (@ImportStandardProtectionJSON gmapBolt mainnetBeaconConfig (λ _ m, map_to_list m) emptyDB fileJSON).2 = Ret tt)
    by (vm_compute; reflexivity).
  rewrite <- E. apply surjective_pairing.
Qed.

Lemma import_protects_witness :
  fileKey ∈ @EIPImportBlacklistedPublicKeys gmapBolt fileDB ∨
  ∀ att root, validAttestation att root → attestationConditions fileDB att fileKey root = Ret tt →
    ¬ slashableAttestations (mkAttRecord fileKey 2 3 (fileRoot 7)) (mkAttRecord fileKey (SourceEpoch att) (TargetEpoch att) root).
Proof.
  refine (@import_protects gmapBolt (λ _ m, map_to_list m) emptyDB fileDB fileJSON [Some fileData] fileData fileAttestation
    fileKey (mkAttRecord fileKey 2 3 (fileRoot 7)) (λ _ _, Permutation_refl _) mainnetBeaconConfig
    emptyDB_typed fileDB_import eq_refl _ _ _ _).
  - left.
  - left.
  - vm_compute. reflexivity.
  - vm_compute. reflexivity.
Defined.

(** A key with attestations and no proposal history empties the export: after the
    successful import of a file with attestations for one key and no blocks, the
    database holds them, but the export returns neither a file nor an error, because
    the error it wraps on finding the key without proposals is nil. *)
Theorem attested_only_key_exports_nothing :
  AttestedPublicKeys fileDB = [fileKey] ∧
  AttestationHistoryForPubKey fileDB fileKey = Ret [mkAttRecord fileKey 2 3 (fileRoot 7); mkAttRecord fileKey 3 4 []] ∧
  ExportStandardProtectionJSON fileDB [] = Ret None.
Proof. split; [|split]; vm_compute; reflexivity. Qed.

(** Two blocks for one slot without signing roots are not filtered out, although the
    comment at the filter says that a missing root makes the key slashable. *)
Example blocks_without_roots_pass :
  filterSlashablePubKeysFromBlocks (λ _ m, map_to_list m)
    {[ fileKey := [mkProposal 5 []; mkProposal 5 []] ]} = [].
Proof. vm_compute. reflexivity. Qed.
