(* ===== verification/ProtectionConvert.v ===== *)
(** * Slashing protection: conversion between the two databases

    Models the slashing protection part of [ConvertDatabase] ([validator/db/convert.go]):
    for every key, the highest source, target and slot of the source database are
    saved in the empty target database.  What the function reads from one database and
    writes to the other is a record of operations for each side.  (Genesis root,
    graffiti and proposer settings, which it copies first, are not modelled.) *)

From S2P Require Import Prelude MathHelper Primitives SlotTime Bytes Protection ProtectionKV ProtectionView ProtectionCheck ProtectionBatch ProtectionKVLaws ProtectionFS ProtectionPrune.

Record ConvertSource := mkConvertSource {
  srcAttestedPublicKeys : outcome (list bytes);
  srcAttestationHistoryForPubKey : bytes → outcome (list AttestationRecord);
  srcProposedPublicKeys : outcome (list bytes);
  srcProposalHistoryForPubKey : bytes → outcome (list Proposal)
}.

Record ConvertTarget (T : Type) := mkConvertTarget {
  tgtSaveAttestationForPubKey : T → bytes → bytes → IndexedAttestation → T * outcome unit;
  tgtSaveProposalHistoryForSlot : T → bytes → Z → bytes → T * outcome unit
}.
Arguments mkConvertTarget {T} _ _.
Arguments tgtSaveAttestationForPubKey {T} _ _ _ _ _.
Arguments tgtSaveProposalHistoryForSlot {T} _ _ _ _ _.

(** [if x > highest { highest = x }] over the records. *)
Definition highestOf {A} (f : A → Z) (l : list A) : Z :=
  foldl (λ highest x, if highest <? f x then f x else highest) 0 l.

Section convert.
Context {T : Type} (src : ConvertSource) (tgt : ConvertTarget T).

Fixpoint convertAttestations (t : T) (keys : list bytes) : T * outcome unit :=
  match keys with
  | [] => (t, Ret tt)
  | pubkey :: keys =>
      match srcAttestationHistoryForPubKey src pubkey with
      | Ret [] => convertAttestations t keys
      | Ret records =>
          let att := mkAtt (highestOf ARSource records) (highestOf ARTarget records) in
          match tgtSaveAttestationForPubKey tgt t pubkey (zeroBytes RootLength) att with
          | (t, Ret _) => convertAttestations t keys
          | (t, Err e) => (t, Err (wrapErr e "could not save attestation for public key"))
          | failed => failed
          end
      | Err e => (t, Err (wrapErr e "could not get attestation history for public key"))
      | Panic m => (t, Panic m)
      | OutOfFuel => (t, OutOfFuel)
      end
  end.

Fixpoint convertProposals (t : T) (keys : list bytes) : T * outcome unit :=
  match keys with
  | [] => (t, Ret tt)
  | pubkey :: keys =>
      match srcProposalHistoryForPubKey src pubkey with
      | Ret [] => convertProposals t keys
      | Ret proposals =>
          match tgtSaveProposalHistoryForSlot tgt t pubkey (highestOf PSlot proposals) [] with
          | (t, Ret _) => convertProposals t keys
          | (t, Err e) => (t, Err (wrapErr e "could not save proposal history for public key"))
          | failed => failed
          end
      | Err e => (t, Err (wrapErr e "could not get proposal history for public key"))
      | Panic m => (t, Panic m)
      | OutOfFuel => (t, OutOfFuel)
      end
  end.

Definition ConvertDatabase (t : T) : T * outcome unit :=
  match srcAttestedPublicKeys src with
  | Ret attestedPublicKeys =>
      match convertAttestations t attestedPublicKeys with
      | (t, Ret _) =>
          match srcProposedPublicKeys src with
          | Ret proposedPublicKeys => convertProposals t proposedPublicKeys
          | Err e => (t, Err (wrapErr e "could not get proposed public keys from source database"))
          | Panic m => (t, Panic m)
          | OutOfFuel => (t, OutOfFuel)
          end
      | failed => failed
      end
  | Err e => (t, Err (wrapErr e "could not get attested public keys from source database"))
  | Panic m => (t, Panic m)
  | OutOfFuel => (t, OutOfFuel)
  end.
End convert.

(** ** The two databases as source and target *)

Definition kvSource `{Bolt} (d : DB) : ConvertSource :=
  mkConvertSource (Ret (AttestedPublicKeys d)) (AttestationHistoryForPubKey d)
    (Ret (ProposedPublicKeys d)) (λ pk, Ret (ProposalHistoryForPubKey d pk)).
Definition fsSource `{Yaml} (s : FSStore) : ConvertSource :=
  mkConvertSource (fsAttestedPublicKeys s) (fsAttestationHistoryForPubKey s)
    (Ret (fsProposedPublicKeys s)) (fsProposalHistoryForPubKey s).
(** The conversion is the only user of its target, and its writes succeed. *)
Definition fsTarget `{Yaml} : ConvertTarget FSStore :=
  mkConvertTarget (λ s pk _ att, fsSaveAttestationForPubKey id Written s pk (Some att))
    (λ s pk slot _, fsSaveProposalHistoryForSlot id Written s pk slot).
(** With what the worker of the new database does before and after each subscription. *)
Definition kvTarget `{Bolt} `{BeaconChainConfig} (untilSubscribed untilTold : list Action) : ConvertTarget config :=
  mkConvertTarget (λ x pk root att, SaveAttestationForPubKey untilSubscribed untilTold 0 x pk root att)
    (λ x pk slot root, ((setDB x.1 (SaveProposalHistoryForSlot (db x.1) pk slot root), x.2), Ret tt)).

(** ** The highest value *)

Lemma highestOf_from {A} (f : A → Z) l h :
  let m := foldl (λ highest x, if highest <? f x then f x else highest) h l in
  h ≤ m ∧ (∀ x, x ∈ l → f x ≤ m) ∧ (m = h ∨ ∃ x, x ∈ l ∧ m = f x).
Proof.
  cbv zeta. revert h. induction l as [|y l IH]; intros h; cbn; [set_solver|].
  destruct (IH (if h <? f y then f y else h)) as (H1 & H2 & H3).
  destruct (Z.ltb_spec h (f y)); (split; [lia|]; split;
    [intros x [->|Hx]%elem_of_cons; [lia|by apply H2]|]); destruct H3 as [->|(x & Hx & ->)];
    [right; exists y; set_solver|right; exists x; set_solver|by left|right; exists x; set_solver].
Qed.

Lemma highestOf_ge {A} (f : A → Z) l x : x ∈ l → f x ≤ highestOf f l.
Proof. apply (highestOf_from f l 0). Qed.

Lemma highestOf_u64 {A} (f : A → Z) l : (∀ x, x ∈ l → is_u64 (f x)) → is_u64 (highestOf f l).
Proof.
  intros Hl. unfold highestOf. destruct (highestOf_from f l 0) as (H1 & _ & [->|(x & Hx & ->)]); [done|by apply Hl].
Qed.

(** ** From the complete to the minimal database *)

Lemma if_elem_cons {X} (pk k : bytes) keys (a b : X) :
  (if decide (pk ∈ k :: keys) then a else b) =
  (if decide (pk = k) then a else if decide (pk ∈ keys) then a else b).
Proof. destruct (decide (pk = k)), (decide (pk ∈ keys)), (decide (pk ∈ k :: keys)); try done; set_solver. Qed.

Section toMinimal.
Context `{Bolt} `{Yaml} (d : DB).
Hypothesis (Hd : DBTyped d).
Hypothesis keys48 : ∀ pk b, Get (pubKeysBucket d) pk = Some b → length pk = BLSPubkeyLength.
Hypothesis proposers48 : ∀ pk b, Get (historicProposalsBucket d) pk = Some b → length pk = BLSPubkeyLength.

Lemma keys_exact {V} (b : Bucket V) :
  (∀ pk v, Get b pk = Some v → length pk = BLSPubkeyLength) →
  map (λ e, pubKeyOfBytes e.1) (entries b) = (entries b).*1.
Proof.
  intros Hb. apply list_fmap_ext. intros i [k v] Hi. apply list_elem_of_lookup_2, entries_Get in Hi.
  by apply copyBytes_full, (Hb k v).
Qed.

Lemma attestedKeys_NoDup : NoDup (AttestedPublicKeys d).
Proof using keys48. unfold AttestedPublicKeys. rewrite keys_exact by apply keys48. apply entries_NoDup. Qed.
Lemma proposedKeys_NoDup : NoDup (ProposedPublicKeys d).
Proof using proposers48. unfold ProposedPublicKeys. rewrite keys_exact by apply proposers48. apply entries_NoDup. Qed.

Lemma history_key pk h r : AttestationHistoryForPubKey d pk = Ret h → r ∈ h →
  pk ∈ AttestedPublicKeys d ∧ is_u64 (ARSource r) ∧ is_u64 (ARTarget r).
Proof using Hd keys48 proposers48.
  intros Hh Hr. destruct (AttestationHistory_view d pk Hd) as (h' & Hh' & Hm). rewrite Hh in Hh'. injection Hh' as <-.
  apply Hm in Hr as (_ & Hs & Ht & _). pose proof (targetsOf_u64 _ _ _ _ Hd Ht) as Htu. split; [|done].
  unfold AttestedPublicKeys. rewrite keys_exact by apply keys48.
  unfold targetsOf, pkb in Ht. destruct (Get (pubKeysBucket d) pk) as [b|] eqn:E; [|cbn in Ht; set_solver].
  apply list_elem_of_fmap. exists (pk, b). split; [done|]. by apply entries_Get.
Qed.

Lemma proposal_key pk p : p ∈ ProposalHistoryForPubKey d pk → pk ∈ ProposedPublicKeys d ∧ is_u64 (PSlot p).
Proof using Hd keys48 proposers48.
  unfold ProposalHistoryForPubKey. destruct (Get (historicProposalsBucket d) pk) as [b|] eqn:E; [|set_solver].
  intros ([k v] & -> & Hin%entries_Get)%list_elem_of_fmap. cbn. split.
  - unfold ProposedPublicKeys. rewrite keys_exact by apply proposers48. apply list_elem_of_fmap.
    exists (pk, b). split; [done|]. by apply entries_Get.
  - destruct (typed_proposals _ Hd _ _ E _ _ Hin) as [(e & He & ->) _]. unfold BytesToSlotBigEndian.
    by rewrite BytesToUint64BigEndian_Uint64.
Qed.

(** The file of a key whose history is [h]. *)
Definition attFile (h : list AttestationRecord) : option ValidatorSlashingProtection :=
  match h with [] => None | _ => Some (mkVSP None (highestOf ARSource h) (Some (highestOf ARTarget h))) end.

Lemma convertAttestations_fs keys (t : FSStore) :
  FSTyped t → NoDup keys → (∀ pk, pk ∈ keys → vspOf t pk = None) →
  ∃ t', convertAttestations (kvSource d) fsTarget t keys = (t', Ret tt) ∧ FSTyped t' ∧
    ∀ pk, vspOf t' pk = if decide (pk ∈ keys)
                        then match AttestationHistoryForPubKey d pk with Ret h => attFile h | _ => None end
                        else vspOf t pk.
Proof using Hd keys48 proposers48.
  revert t. induction keys as [|k keys IH]; intros t Ht Hnd Hfresh.
  { exists t. split; [done|]. split; [done|]. intros pk. by rewrite decide_False by set_solver. }
  apply NoDup_cons in Hnd as [Hk Hnd]. cbn [convertAttestations kvSource srcAttestationHistoryForPubKey].
  destruct (AttestationHistory_view d k Hd) as (h & Hh & _). rewrite Hh.
  assert (Hty : h ≠ [] → VSPTyped (mkVSP None (highestOf ARSource h) (Some (highestOf ARTarget h)))).
  { intros _. split_and!; cbn; [done| |intros ? [= <-]]; apply highestOf_u64; intros r Hr;
      by destruct (history_key _ _ _ Hh Hr) as (_ & ? & ?). }
  destruct h as [|r0 h0].
  - destruct (IH t Ht Hnd) as (t' & -> & Ht' & Hv'); [set_solver|]. exists t'. split; [done|]. split; [done|].
    intros pk. rewrite Hv', if_elem_cons. destruct (decide (pk = k)) as [->|Hne]; [|done].
    rewrite decide_False by done. rewrite Hh. apply Hfresh. set_solver.
  - set (h := r0 :: h0) in *. specialize (Hty ltac:(done)).
    cbn [fsTarget tgtSaveAttestationForPubKey]. unfold fsSaveAttestationForPubKey.
    rewrite withProtection_view by done. rewrite (Hfresh k) by set_solver.
    cbn [fsAttestationUpdate id wrapSave saveValidatorSlashingProtection WriteFile fst snd omap_err SourceEpoch TargetEpoch].
    fold (putVSP t k (mkVSP None (highestOf ARSource h) (Some (highestOf ARTarget h)))).
    destruct (IH (putVSP t k (mkVSP None (highestOf ARSource h) (Some (highestOf ARTarget h))))) as (t' & -> & Ht' & Hv');
      [by apply putVSP_typed|done| |].
    { intros pk Hpk. rewrite vspOf_put by done. rewrite decide_False by (intros ->; done). apply Hfresh. set_solver. }
    exists t'. split; [done|]. split; [done|]. intros pk. rewrite Hv', vspOf_put, if_elem_cons by done.
    destruct (decide (pk = k)) as [->|Hne].
    + rewrite decide_False by done. rewrite decide_True by done. by rewrite Hh.
    + by rewrite (decide_False (P := k = pk)) by congruence.
Qed.

(** A key's file after its proposals are converted too. *)
Definition withBlock (v : option ValidatorSlashingProtection) (ps : list Proposal) : option ValidatorSlashingProtection :=
  match ps with
  | [] => v
  | _ => Some (mkVSP (Some (highestOf PSlot ps)) (default 0 (LastSignedAttestationSourceEpoch <$> v))
                (v ≫= LastSignedAttestationTargetEpoch))
  end.

Lemma convertProposals_fs keys (t : FSStore) :
  FSTyped t → NoDup keys → (∀ pk, pk ∈ keys → vspOf t pk ≫= LatestSignedBlockSlot = None) →
  ∃ t', convertProposals (kvSource d) fsTarget t keys = (t', Ret tt) ∧ FSTyped t' ∧
    ∀ pk, vspOf t' pk = if decide (pk ∈ keys) then withBlock (vspOf t pk) (ProposalHistoryForPubKey d pk)
                        else vspOf t pk.
Proof using Hd keys48 proposers48.
  revert t. induction keys as [|k keys IH]; intros t Ht Hnd Hfresh.
  { exists t. split; [done|]. split; [done|]. intros pk. by rewrite decide_False by set_solver. }
  apply NoDup_cons in Hnd as [Hk Hnd]. cbn [convertProposals kvSource srcProposalHistoryForPubKey].
  destruct (ProposalHistoryForPubKey d k) as [|p0 ps0] eqn:Eps.
  - destruct (IH t Ht Hnd) as (t' & -> & Ht' & Hv'); [set_solver|]. exists t'. split; [done|]. split; [done|].
    intros pk. rewrite Hv', if_elem_cons. destruct (decide (pk = k)) as [->|Hne]; [|done].
    rewrite decide_False by done. by rewrite Eps.
  - set (ps := p0 :: ps0) in *.
    set (v := mkVSP (Some (highestOf PSlot ps)) (default 0 (LastSignedAttestationSourceEpoch <$> vspOf t k))
                (vspOf t k ≫= LastSignedAttestationTargetEpoch)).
    assert (Hty : VSPTyped v).
    { split_and!; cbn.
      - intros s [= <-]. apply (highestOf_u64 PSlot ps). intros p Hp. apply (proposal_key k p). by rewrite Eps.
      - destruct (vspOf t k) as [w|] eqn:Ew; [|done]. by destruct (vspOf_typed _ _ _ Ht Ew) as (? & ? & ?).
      - destruct (vspOf t k) as [w|] eqn:Ew; [|done]. by destruct (vspOf_typed _ _ _ Ht Ew) as (? & ? & ?). }
    assert (Hsave : fsSaveProposalHistoryForSlot id Written t k (highestOf PSlot ps) = (putVSP t k v, Ret tt)).
    { unfold fsSaveProposalHistoryForSlot. rewrite withProtection_view by done. subst v.
      specialize (Hfresh k ltac:(set_solver)). destruct (vspOf t k) as [w|]; [|done].
      destruct w as [b so ta]. cbn in Hfresh. subst b. done. }
    cbn [fsTarget tgtSaveProposalHistoryForSlot]. rewrite Hsave.
    destruct (IH (putVSP t k v)) as (t' & -> & Ht' & Hv'); [by apply putVSP_typed|done| |].
    { intros pk Hpk. rewrite vspOf_put by done. rewrite decide_False by (intros ->; done). apply Hfresh. set_solver. }
    exists t'. split; [done|]. split; [done|]. intros pk. rewrite Hv', vspOf_put, if_elem_cons by done.
    destruct (decide (pk = k)) as [->|Hne].
    + rewrite decide_False by done. rewrite decide_True by done. by rewrite Eps.
    + by rewrite (decide_False (P := k = pk)) by congruence.
Qed.

Lemma convert_fs_view :
  ∃ t', ConvertDatabase (kvSource d) fsTarget emptyFSStore = (t', Ret tt) ∧ FSTyped t' ∧
    (∀ pk h r, AttestationHistoryForPubKey d pk = Ret h → r ∈ h → ∃ v, vspOf t' pk = Some v ∧ boundsAtt v r) ∧
    (∀ pk p, p ∈ ProposalHistoryForPubKey d pk → ∃ v, vspOf t' pk = Some v ∧ boundsBlock v p).
Proof using Hd keys48 proposers48.
  assert (He : FSTyped emptyFSStore) by (intros pk c; cbn; by rewrite lookup_empty).
  assert (Hnone : ∀ pk, vspOf emptyFSStore pk = None) by (intros pk; unfold vspOf; cbn; by rewrite lookup_empty).
  destruct (convertAttestations_fs (AttestedPublicKeys d) emptyFSStore) as (t1 & E1 & Ht1 & Hv1);
    [done|apply attestedKeys_NoDup|done|].
  assert (Hnb : ∀ pk, vspOf t1 pk ≫= LatestSignedBlockSlot = None).
  { intros pk. rewrite Hv1. destruct (decide _); [|by rewrite Hnone].
    destruct (AttestationHistoryForPubKey d pk) as [[|]| | |]; done. }
  destruct (convertProposals_fs (ProposedPublicKeys d) t1) as (t2 & E2 & Ht2 & Hv2);
    [done|apply proposedKeys_NoDup|done|].
  exists t2. unfold ConvertDatabase. cbn [kvSource srcAttestedPublicKeys srcProposedPublicKeys].
  split; [by rewrite E1|]. split; [done|]. split.
  - intros pk h r Hh Hr. destruct (history_key _ _ _ Hh Hr) as (Hk & _ & _).
    assert (Hv : vspOf t1 pk = Some (mkVSP None (highestOf ARSource h) (Some (highestOf ARTarget h)))).
    { rewrite Hv1, decide_True by done. rewrite Hh. destruct h; [set_solver|done]. }
    rewrite Hv2. assert (Hb : ∀ b, boundsAtt (mkVSP b (highestOf ARSource h) (Some (highestOf ARTarget h))) r).
    { intros b. split; cbn; [by apply highestOf_ge|]. eexists. split; [done|]. by apply highestOf_ge. }
    case_decide; rewrite Hv; [|by eexists]. unfold withBlock. cbn.
    destruct (ProposalHistoryForPubKey d pk); by eexists.
  - intros pk p Hp. destruct (proposal_key _ _ Hp) as [Hk _]. rewrite Hv2, decide_True by done.
    unfold withBlock. destruct (ProposalHistoryForPubKey d pk) as [|p0 ps] eqn:Ep; [set_solver|].
    eexists. split; [done|]. eexists. split; [done|]. by apply highestOf_ge.
Qed.
End toMinimal.

(** C25. Converting the complete database to the minimal one keeps the protection: the
    conversion succeeds, and the new database lets through no attestation and no block
    that is slashable together with one of the old database's history. *)
Theorem conversion_keeps_protection `{Bolt} `{Yaml} (d : DB) :
  DBTyped d →
  (∀ pk b, Get (pubKeysBucket d) pk = Some b → length pk = BLSPubkeyLength) →
  (∀ pk b, Get (historicProposalsBucket d) pk = Some b → length pk = BLSPubkeyLength) →
  ∃ t, ConvertDatabase (kvSource d) fsTarget emptyFSStore = (t, Ret tt) ∧
    (∀ pk h r, AttestationHistoryForPubKey d pk = Ret h → r ∈ h →
       ∀ meanwhile io att root, (fsSlashableAttestationCheck meanwhile io t att pk root).2 = Ret tt →
         ¬ slashableAttestations r (mkAttRecord pk (SourceEpoch att) (TargetEpoch att) root)) ∧
    (∀ pk p, p ∈ ProposalHistoryForPubKey d pk →
       ∀ meanwhile io slot root, (fsSlashableProposalCheck meanwhile io t pk slot root).2 = Ret tt →
         ¬ slashableProposals (pk, p) (pk, mkProposal slot root)).
Proof.
  intros Hd H1 H2. destruct (convert_fs_view d Hd H1 H2) as (t & Ht & Hty & Ha & Hb).
  exists t. split; [done|]. split.
  - intros pk h r Hh Hr meanwhile io att root Hc (_ & Hsl). destruct (Ha _ _ _ Hh Hr) as (v & Hv & Hso & tt' & Htt & Hle).
    destruct (fsSlashableAttestationCheck_pass _ _ _ _ _ _ Hty Hc v Hv) as [Hp1 Hp2]. specialize (Hp2 _ Htt).
    destruct Hsl as [[Heq _]|[Hs|Hs]]; cbn in *; [lia| |]; apply Is_true_true in Hs; unfold IsSurround in Hs; cbn in Hs; bprop; lia.
  - intros pk p Hp meanwhile io slot root Hc (_ & Heq & _). cbn in Heq. destruct (Hb _ _ Hp) as (v & Hv & l & Hl & Hle).
    pose proof (fsSlashableProposalCheck_pass _ _ _ _ _ _ Hty Hc l) as Hpass. rewrite Hv in Hpass. specialize (Hpass Hl). lia.
Qed.

(** ** Witness *)

#[local] Existing Instances gmapBolt listYaml.

Definition convertKey : bytes := replicate 48 1.
Definition convertedDB : @DB gmapBolt :=
  @SaveProposalHistoryForSlot gmapBolt mainnetBeaconConfig
    (saveAttestationRecord (saveAttestationRecord emptyDB (mkAttRecord convertKey 2 3 (replicate 32 7)))
       (mkAttRecord convertKey 3 4 (replicate 32 8))) convertKey 100 (replicate 32 9).

Lemma convertedDB_typed : DBTyped convertedDB.
Proof.
  assert (Hr : ∀ s t b, is_u64 s → is_u64 t → RecordTyped (mkAttRecord convertKey s t (replicate 32 b))).
  { intros s t b Hs Ht. split; [done|]. split; [done|]. right. apply length_replicate. }
  assert (H23 : is_u64 2 ∧ is_u64 3 ∧ is_u64 4 ∧ is_u64 100) by (unfold is_u64, two64; lia).
  destruct H23 as (I2 & I3 & I4 & I100).
  apply SaveProposalHistoryForSlot_DBTyped; [|exact I100|right; apply length_replicate].
  exact (saveAttestationRecord_typed _ _ (saveAttestationRecord_typed _ _ emptyDB_typed (Hr 2 3 7 I2 I3)) (Hr 3 4 8 I3 I4)).
Qed.

Lemma convertedDB_keys :
  (∀ pk b, Get (pubKeysBucket convertedDB) pk = Some b → length pk = BLSPubkeyLength) ∧
  (∀ pk b, Get (historicProposalsBucket convertedDB) pk = Some b → length pk = BLSPubkeyLength).
Proof.
  split; intros pk b; cbn [convertedDB SaveProposalHistoryForSlot setProposals historicProposalsBucket pubKeysBucket
    saveAttestationRecord setAttestations]; rewrite !Get_Put; repeat case_decide; try (by subst); by rewrite Get_empty.
Qed.

Lemma conversion_keeps_protection_witness :
  ∃ t, ConvertDatabase (kvSource convertedDB) (@fsTarget listYaml) emptyFSStore = (t, Ret tt) ∧
    ∀ h r, AttestationHistoryForPubKey convertedDB convertKey = Ret h → r ∈ h →
      ∀ meanwhile io att root, (fsSlashableAttestationCheck meanwhile io t att convertKey root).2 = Ret tt →
        ¬ slashableAttestations r (mkAttRecord convertKey (SourceEpoch att) (TargetEpoch att) root).
Proof.
  destruct (@conversion_keeps_protection gmapBolt listYaml convertedDB convertedDB_typed
    (proj1 convertedDB_keys) (proj2 convertedDB_keys)) as (t & H1 & H2 & _).
  exists t. split; [exact H1|]. intros h r. exact (H2 convertKey h r).
Defined.
