(* ===== verification/Merkle.v ===== *)
(** * Merkle trees: the reference

    The complete binary tree over a list of 32-byte leaves that is continued with zero
    leaves for ever.  [nodeAt leaves h i] is its [i]-th node at height [h]; the root of
    a tree of depth [d] is [nodeAt leaves d 0].  Every Merkle routine of the program is
    compared with it: a layer in memory [Represents] a height when reading it, with the
    zero hash of the height beyond its end, gives the nodes of the reference. *)

From S2P Require Import Prelude Bytes Sha256.

Abbreviation is_chunk := (λ c : bytes, length c = 32%nat).

(** [len(l) - 1 ≥ i ? l[i] : ZeroHashes[h]]. *)
Definition orZero (h : nat) (o : option bytes) : bytes :=
  match o with Some c => c | None => ZeroHash h end.

Section merkle.
Context `{Sha256}.

Fixpoint nodeAt (leaves : list bytes) (h i : nat) : bytes :=
  match h with
  | O => orZero 0 (leaves !! i)
  | S h => Hash (nodeAt leaves h (2 * i) ++ nodeAt leaves h (2 * i + 1))
  end.

Definition merkleRoot (leaves : list bytes) (depth : nat) : bytes := nodeAt leaves depth 0.

(** One layer from the one below: the digests of neighbours. *)
Fixpoint hashPairs (l : list bytes) : list bytes :=
  match l with
  | a :: b :: l => Hash (a ++ b) :: hashPairs l
  | _ => []
  end.

Definition Represents (leaves : list bytes) (h : nat) (layer : list bytes) : Prop :=
  ∀ i, orZero h (layer !! i) = nodeAt leaves h i.

(** ** The reference *)

Lemma nodeAt_S leaves h i :
  nodeAt leaves (S h) i = Hash (nodeAt leaves h (2 * i) ++ nodeAt leaves h (2 * i + 1)).
Proof. reflexivity. Qed.

(** A node depends on the leaves below it only. *)
Lemma nodeAt_ext l1 l2 h i :
  (∀ k, (i * 2 ^ h ≤ k < (i + 1) * 2 ^ h)%nat → orZero 0 (l1 !! k) = orZero 0 (l2 !! k)) →
  nodeAt l1 h i = nodeAt l2 h i.
Proof.
  revert i. induction h as [|h IH]; intros i Hext; cbn [nodeAt].
  - apply Hext. cbn. lia.
  - rewrite !IH; [done|..]; intros k Hk; apply Hext; rewrite Nat.pow_succ_r'; nia.
Qed.

Lemma nodeAt_zero leaves h i :
  (h < 100)%nat → (length leaves ≤ i * 2 ^ h)%nat → nodeAt leaves h i = ZeroHash h.
Proof.
  revert i. induction h as [|h IH]; intros i Hh Hi; cbn [nodeAt].
  - rewrite lookup_ge_None_2 by (cbn in Hi; lia). done.
  - rewrite Nat.pow_succ_r' in Hi. rewrite !IH by (lia || nia). apply Hash_zero. lia.
Qed.

Lemma length_nodeAt leaves h i : Forall is_chunk leaves → length (nodeAt leaves h i) = 32%nat.
Proof.
  intros Hl. destruct h; cbn [nodeAt]; [|apply length_Hash].
  destruct (leaves !! i) as [c|] eqn:E; cbn; [exact (Forall_lookup_1 _ _ _ _ Hl E)|].
  apply length_ZeroHash. lia.
Qed.

(** The left and right half of a tree. *)
Lemma nodeAt_shift leaves h i k : (k * 2 ^ h ≤ length leaves)%nat →
  nodeAt leaves h (k + i) = nodeAt (drop (k * 2 ^ h) leaves) h i.
Proof.
  revert i k. induction h as [|h IH]; intros i k Hk; cbn [nodeAt].
  - rewrite lookup_drop. do 2 f_equal. cbn. lia.
  - rewrite Nat.pow_succ_r' in *.
    replace (2 * (k + i))%nat with (2 * k + 2 * i)%nat by lia.
    replace (2 * k + 2 * i + 1)%nat with (2 * k + (2 * i + 1))%nat by lia.
    rewrite !IH by nia. by replace (2 * k * 2 ^ h)%nat with (k * (2 * 2 ^ h))%nat by nia.
Qed.

Lemma merkleRoot_S leaves d : (2 ^ d ≤ length leaves)%nat →
  merkleRoot leaves (S d) = Hash (merkleRoot (take (2 ^ d) leaves) d ++ merkleRoot (drop (2 ^ d) leaves) d).
Proof.
  intros Hlen. unfold merkleRoot. rewrite nodeAt_S. do 2 f_equal.
  - apply nodeAt_ext. intros k Hk. by rewrite lookup_take_lt by lia.
  - change (2 * 0 + 1)%nat with (1 + 0)%nat. rewrite nodeAt_shift by lia. by rewrite Nat.mul_1_l.
Qed.

Lemma merkleRoot_S_short leaves d : (d < 100)%nat → (length leaves ≤ 2 ^ d)%nat →
  merkleRoot leaves (S d) = Hash (merkleRoot leaves d ++ ZeroHash d).
Proof.
  intros Hd Hlen. unfold merkleRoot. rewrite nodeAt_S. do 2 f_equal.
  apply nodeAt_zero; [done|cbn; lia].
Qed.

(** Both cases in one: the halves of the list are the halves of the tree. *)
Lemma merkleRoot_halves leaves d : (d < 100)%nat →
  merkleRoot leaves (S d) = Hash (merkleRoot (take (2 ^ d) leaves) d ++ merkleRoot (drop (2 ^ d) leaves) d).
Proof.
  intros Hd. destruct (decide (2 ^ d ≤ length leaves)%nat); [by apply merkleRoot_S|].
  rewrite merkleRoot_S_short, take_ge, drop_ge by lia. do 2 f_equal.
  symmetry. apply nodeAt_zero; [done|cbn; lia].
Qed.

(** Changing a leaf changes the nodes above it. *)
Lemma nodeAt_insert_ne leaves h i k x :
  (k / 2 ^ h)%nat ≠ i → nodeAt (<[k := x]> leaves) h i = nodeAt leaves h i.
Proof.
  intros Hne. apply nodeAt_ext. intros j Hj. rewrite list_lookup_insert_ne; [done|]. intros ->. apply Hne.
  symmetry. apply (Nat.div_unique _ _ _ (j - i * 2 ^ h)); nia.
Qed.

(** Trailing zero leaves make no difference. *)
Lemma nodeAt_app_zero leaves h i n : nodeAt (leaves ++ replicate n (ZeroHash 0)) h i = nodeAt leaves h i.
Proof.
  apply nodeAt_ext. intros k _. destruct (decide (k < length leaves)%nat).
  - by rewrite lookup_app_l.
  - rewrite lookup_app_r by lia. rewrite (lookup_ge_None_2 leaves) by lia.
    destruct (replicate n (ZeroHash 0) !! (k - length leaves)%nat) as [z|] eqn:E; [|done].
    by apply lookup_replicate in E as [-> _].
Qed.

(** ** Layers *)

Lemma length_hashPairs l : length (hashPairs l) = (length l / 2)%nat.
Proof.
  assert (∀ n l, (length l ≤ n)%nat → length (hashPairs l) = (length l / 2)%nat) as Hn; [|exact (Hn _ _ (le_n _))].
  clear l. intros n. induction n as [|n IH]; intros l Hl; [destruct l; cbn in *; [done|lia]|].
  destruct l as [|a [|b l]]; [done..|]. cbn in Hl.
  cbn [hashPairs length]. rewrite IH by lia.
  replace (S (S (length l))) with (length l + 1 * 2)%nat by lia. rewrite Nat.div_add by lia. lia.
Qed.

Lemma lookup_hashPairs l i a b :
  l !! (2 * i)%nat = Some a → l !! (2 * i + 1)%nat = Some b → hashPairs l !! i = Some (Hash (a ++ b)).
Proof.
  revert l. induction i as [|i IH]; intros l Ha Hb.
  - destruct l as [|? [|? l]]; try done. cbn in *. congruence.
  - destruct l as [|x [|y l]]; [done|by destruct i|]. cbn [hashPairs lookup list_lookup].
    replace (2 * S i)%nat with (S (S (2 * i))) in Ha by lia.
    replace (2 * S i + 1)%nat with (S (S (2 * i + 1))) in Hb by lia. by apply IH.
Qed.

Lemma hashPairs_app l1 l2 : Nat.Even (length l1) → hashPairs (l1 ++ l2) = hashPairs l1 ++ hashPairs l2.
Proof.
  assert (∀ n l, (length l ≤ n)%nat → Nat.Even (length l) → hashPairs (l ++ l2) = hashPairs l ++ hashPairs l2) as Hn; [|exact (Hn _ _ (le_n _))].
  clear l1. intros n. induction n as [|n IH]; intros l Hl He; [destruct l; cbn in *; [done|lia]|].
  destruct l as [|a [|b l]]; [done|destruct He; cbn in *; lia|]. cbn in Hl.
  cbn [hashPairs app]. rewrite IH; [done|lia|]. destruct He as [k Hk]. exists (k - 1)%nat. cbn in Hk. lia.
Qed.

Lemma Represents_leaves leaves : Represents leaves 0 leaves.
Proof. intros i. done. Qed.

Lemma Represents_step leaves h l :
  (h < 99)%nat → Nat.Even (length l) → Represents leaves h l → Represents leaves (S h) (hashPairs l).
Proof.
  intros Hh [n Hn] Hl i. rewrite nodeAt_S, <- !Hl. destruct (decide (i < n)%nat) as [Hi|Hi].
  - destruct (lookup_lt_is_Some_2 l (2 * i)) as [a Ha]; [lia|].
    destruct (lookup_lt_is_Some_2 l (2 * i + 1)) as [b Hb]; [lia|].
    rewrite (lookup_hashPairs _ _ _ _ Ha Hb), Ha, Hb. done.
  - rewrite (lookup_ge_None_2 (hashPairs l)) by (rewrite length_hashPairs, Hn, Nat.mul_comm, Nat.div_mul; lia).
    rewrite !(lookup_ge_None_2 l) by lia. cbn. symmetry. by apply Hash_zero.
Qed.

Lemma Represents_pad leaves h l : Represents leaves h l → Represents leaves h (l ++ [ZeroHash h]).
Proof.
  intros Hl i. rewrite <- Hl. destruct (decide (i < length l)%nat).
  - by rewrite lookup_app_l.
  - rewrite lookup_app_r by lia. rewrite (lookup_ge_None_2 l) by lia.
    by destruct (i - length l)%nat as [|[]].
Qed.

Lemma Represents_root leaves d l r : Represents leaves d l → l !! 0%nat = Some r → r = merkleRoot leaves d.
Proof. intros Hl Hr. specialize (Hl 0%nat). by rewrite Hr in Hl. Qed.

Lemma Represents_lookup leaves h l i c : Represents leaves h l → l !! i = Some c → c = nodeAt leaves h i.
Proof. intros Hl Hc. specialize (Hl i). by rewrite Hc in Hl. Qed.
End merkle.

#[global] Arguments nodeAt : simpl never.
