(* ===== verification/Ssz.v ===== *)
(** * SSZ merkleization

    Models [encoding/ssz/merkleize.go], [hashers.go], [helpers.go], [htrutils.go],
    [slice_root.go] and [crypto/hash/htr/hashtree.go]: the hash tree roots of vectors,
    lists and byte slices.  The vectorised hashing of [gohashtree], which is not part of
    the repository, is the class [Gohashtree]; the number of processors and the order in
    which goroutines finish are the class [GoRuntime]. *)

From S2P Require Import Prelude Bytes Sha256 Merkle.

(** [gohashtree.Hash(digests, chunks)]: for an even number of chunks and enough room it
    writes the digests of neighbours to the front of [digests].  Returns [digests]. *)
Class Gohashtree `{Sha256} := {
  gohashtreeHash : list bytes → list bytes → outcome (list bytes);
  gohashtreeHash_even digests chunks :
    Nat.Even (length chunks) → (length chunks / 2 ≤ length digests)%nat →
    gohashtreeHash digests chunks = Ret (hashPairs chunks ++ drop (length chunks / 2) digests)
}.

(** [runtime.GOMAXPROCS(0)] and the order in which [n] jobs finish. *)
Class GoRuntime := {
  GOMAXPROCS : nat;
  GOMAXPROCS_pos : (0 < GOMAXPROCS)%nat;
  schedule : nat → list nat;
  schedule_perm n : schedule n ≡ₚ seq 0 n
}.

(** ** The depth of a tree *)

(** [mask0] to [mask5] and [bit0] to [bit5]: [^uint64((1 << (1 << iota)) - 1)] and
    [1 << iota]. *)
Definition mask (iota : Z) : Z := Z.lxor maxUint64 (Z.shiftl 1 (Z.shiftl 1 iota) - 1).
Definition bit (iota : Z) : Z := Z.shiftl 1 iota.

Definition depthStep (iota : Z) (s : Z * Z) : Z * Z :=
  let '(v, out) := s in
  if negb (Z.land v (mask iota) =? 0) then (Z.shiftr v (bit iota), Z.lor out (bit iota)) else (v, out).

Definition Depth (v : Z) : Z :=
  if v <=? 1 then 0
  else
    let v := v -w 1 in
    let '(v, out) := depthStep 1 (depthStep 2 (depthStep 3 (depthStep 4 (depthStep 5 (v, 0))))) in
    let out := if negb (Z.land v (mask 0) =? 0) then Z.lor out (bit 0) else out in
    (out + 1) mod 256.

Definition depthOf (v : Z) : nat := Z.to_nat (Depth v).

(** ** Hashers *)
Section ssz.
Context `{Sha256}.

(** The methods of [HasherFunc] with [hashFunc] the hash function. *)
Definition Combi (a b : bytes) : bytes := Hash (a ++ b).
Definition MixIn (a : bytes) (i : Z) : bytes := Hash (a ++ copyBytes (zeroBytes 32) (PutLittleEndian 8 i)).

(** ** Merkleize *)

Definition errOverLimit : string := "merkleizing list that is too large, over limit".

(** The closure [merge]: [h] is the node so far, [tmp] the left siblings that wait. *)
Fixpoint mergeLoop (fuel : nat) (i count : Z) (depth j : nat) (h : bytes) (tmp : list bytes) : outcome (nat * bytes) :=
  match fuel with
  | O => OutOfFuel
  | S fuel =>
      if Z.land i (if (64 <=? j)%nat then 0 else Z.shiftl 1 (Z.of_nat j)) =? 0 then
        if (i =? count) && (j <? depth)%nat then mergeLoop fuel i count depth (S j) (Combi h (ZeroHash j)) tmp
        else Ret (j, h)
      else match tmp !! j with
           | Some t => mergeLoop fuel i count depth (S j) (Combi t h) tmp
           | None => Panic "index out of range"
           end
  end.
Definition merge (i count : Z) (depth : nat) (h : bytes) (tmp : list bytes) : outcome (bytes * list bytes) :=
  jh <-? mergeLoop 66 i count depth 0 h tmp;;
  if (jh.1 <? length tmp)%nat then Ret (jh.2, <[jh.1 := jh.2]> tmp) else Panic "index out of range".

Fixpoint mergeLeaves (n : nat) (i count : Z) (depth : nat) (leaf : Z → bytes) (s : bytes * list bytes)
    : outcome (bytes * list bytes) :=
  match n with
  | O => Ret s
  | S n =>
      s <-? merge i count depth (copyBytes s.1 (leaf i)) s.2;;
      mergeLeaves n (i + 1) count depth leaf s
  end.

(** The zero hashes above the next power of two. *)
Fixpoint extendRoot (n j : nat) (tmp : list bytes) : outcome (list bytes) :=
  match n with
  | O => Ret tmp
  | S n =>
      match tmp !! j with
      | Some t => extendRoot n (S j) (<[S j := Combi t (ZeroHash j)]> tmp)
      | None => Panic "index out of range"
      end
  end.

Definition Merkleize (count limit : Z) (leaf : Z → bytes) : outcome bytes :=
  if limit <? count then Panic errOverLimit
  else if limit =? 0 then Ret (zeroBytes 32)
  else if limit =? 1 then Ret (if count =? 1 then copyBytes (zeroBytes 32) (leaf 0) else zeroBytes 32)
  else
    let depth := depthOf count in
    let limitDepth := depthOf limit in
    s <-? mergeLeaves (Z.to_nat count) 0 count depth leaf (zeroBytes 32, replicate (S limitDepth) (zeroBytes 32));;
    s <-? (if negb (wrap64 (Z.shiftl 1 (Z.of_nat depth)) =? count)
           then merge count count depth (copyBytes s.1 (ZeroHash 0)) s.2 else Ret s);;
    tmp <-? extendRoot (limitDepth - depth) depth s.2;;
    match tmp !! limitDepth with
    | Some r => Ret r
    | None => Panic "index out of range"
    end.

(** ** Vectorised hashing *)

Context `{!Gohashtree} `{!GoRuntime}.

(** [hashParallel(chunks, outputList[off:], wg)]: an error of the library panics. *)
Definition hashInto (out : list bytes) (off : nat) (chunks : list bytes) : outcome (list bytes) :=
  tail <-? must (gohashtreeHash (drop off out) chunks);;
  Ret (take off out ++ tail).

(** Job [j] of the [n] goroutines, and job [n], the rest, of the caller. *)
Definition hashJob (inputList : list bytes) (n groupSize j : nat) (out : list bytes) : outcome (list bytes) :=
  hashInto out (j * groupSize)
    (if (j =? n)%nat then drop (n * 2 * groupSize) inputList
     else take (2 * groupSize) (drop (j * 2 * groupSize) inputList)).

Definition VectorizedSha256 (inputList : list bytes) : outcome (list bytes) :=
  let outputList := replicate (length inputList / 2) (zeroBytes 32) in
  if Z.of_nat (length inputList) <? 5000 then hashInto outputList 0 inputList
  else
    let n := (GOMAXPROCS - 1)%nat in
    let groupSize := (length inputList / (2 * (n + 1)))%nat in
    foldl (λ out j, o <-? out;; hashJob inputList n groupSize j o) (Ret outputList) (schedule (S n)).

Fixpoint merkleizeLayers (n i : nat) (elements : list bytes) : outcome (list bytes) :=
  match n with
  | O => Ret elements
  | S n =>
      let elements := if Nat.odd (length elements) then elements ++ [ZeroHash i] else elements in
      elements <-? VectorizedSha256 elements;;
      merkleizeLayers n (S i) elements
  end.

Definition firstElement (elements : list bytes) : outcome bytes :=
  match elements with r :: _ => Ret r | [] => Panic "index out of range" end.

Definition MerkleizeVector (elements : list bytes) (length : Z) : outcome bytes :=
  let depth := depthOf length in
  match elements with
  | [] => Ret (ZeroHash depth)
  | _ => elements <-? merkleizeLayers depth 0 elements;; firstElement elements
  end.

(** A [Hashable] is what its [HashTreeRoot] returns. *)
Fixpoint hashableRoots (elements : list (outcome bytes)) : outcome (list bytes) :=
  match elements with
  | [] => Ret []
  | e :: elements => r <-? e;; roots <-? hashableRoots elements;; Ret (r :: roots)
  end.

Definition MerkleizeVectorSSZ (elements : list (outcome bytes)) (length : Z) : outcome bytes :=
  roots <-? hashableRoots elements;; MerkleizeVector roots length.

Definition MerkleizeListSSZ (elements : list (outcome bytes)) (limit : Z) : outcome bytes :=
  body <-? MerkleizeVectorSSZ elements limit;;
  let chunks := [body; copyBytes (zeroBytes 32) (PutLittleEndian 8 (Z.of_nat (length elements)))] in
  chunks <-? gohashtreeHash chunks chunks;;
  firstElement chunks.

Definition errInvalidNilSlice : error := "invalid empty slice".
Definition MerkleizeByteSliceSSZ (input : bytes) : outcome bytes :=
  let numChunks := ((length input + 31) / 32)%nat in
  if (numChunks =? 0)%nat then Err errInvalidNilSlice
  else MerkleizeVector (map (λ i, copyBytes (zeroBytes 32) (drop (32 * i) input)) (seq 0 numChunks)) (Z.of_nat numChunks).

(** ** Roots of SSZ values *)

Definition BitwiseMerkleize (chunks : list bytes) (count limit : Z) : outcome bytes :=
  if limit <? count then Err errOverLimit else MerkleizeVector chunks limit.

Fixpoint chunkLoop (n : nat) (orderedItems : bytes) : list bytes :=
  match n with
  | O => []
  | S n => ToBytes32 (take 32 orderedItems) :: chunkLoop n (drop 32 orderedItems)
  end.

Definition PackByChunk (serializedItems : list bytes) : list bytes :=
  match serializedItems with
  | [] => [zeroBytes 32]
  | item :: _ =>
      if (length item =? 32)%nat then map ToBytes32 serializedItems
      else
        let orderedItems := concat serializedItems in
        if (length orderedItems =? 0)%nat then [zeroBytes 32]
        else chunkLoop ((length orderedItems + 31) / 32) orderedItems
  end.

Definition MixInLength (root length : bytes) : bytes := Hash (root ++ length).

(** [binary.Write(buf, binary.LittleEndian, n)] copied into 32 bytes. *)
Definition lengthRoot (n : Z) : bytes := copyBytes (zeroBytes 32) (PutLittleEndian 8 n).

(** [bfield] is [None] for a nil bit field, otherwise its bytes and its length. *)
Definition BitlistRoot (bfield : option (bytes * Z)) (maxCapacity : Z) : outcome bytes :=
  let limit := (maxCapacity +w 255) / 256 in
  let empty := root <-? BitwiseMerkleize [] 0 limit;; Ret (MixInLength root (zeroBytes 32)) in
  match bfield with
  | None => empty
  | Some (bs, len) =>
      if len =? 0 then empty
      else
        let chunks := PackByChunk [bs] in
        root <-? BitwiseMerkleize chunks (Z.of_nat (length chunks)) limit;;
        Ret (MixInLength root (lengthRoot len))
  end.

Definition Uint64Root (val : Z) : bytes := ToBytes32 (PutLittleEndian 8 val).

Definition ByteArrayRootWithLimit (roots : list bytes) (limit : Z) : outcome bytes :=
  let newRoots := map (copyBytes (zeroBytes 32)) roots in
  result <-? omap_err (λ e, wrapErr e "could not compute byte array merkleization")
               (BitwiseMerkleize newRoots (Z.of_nat (length newRoots)) limit);;
  Ret (MixInLength result (lengthRoot (Z.of_nat (length newRoots)))).

(** [slashingMarshaling[i]] is nil beyond the slashings. *)
Definition SlashingsRoot (SlashingsLength : nat) (slashings : list Z) : outcome bytes :=
  let slashingMarshaling := take SlashingsLength (map (PutLittleEndian 8) slashings) ++
                            replicate (SlashingsLength - length slashings) [] in
  let slashingChunks := PackByChunk slashingMarshaling in
  BitwiseMerkleize slashingChunks (Z.of_nat (length slashingChunks)) (Z.of_nat (length slashingChunks)).

Definition SliceRoot (slice : list (outcome bytes)) (limit : Z) : outcome bytes :=
  if limit <? Z.of_nat (length slice) then Err "slice exceeds max length"
  else
    roots <-? omap_err (λ e, wrapErr e "could not merkleize object") (hashableRoots slice);;
    sliceRoot <-? omap_err (λ e, wrapErr e "could not slice merkleization")
                    (BitwiseMerkleize roots (Z.of_nat (length roots)) limit);;
    Ret (MixInLength sliceRoot (lengthRoot (Z.of_nat (length slice)))).

Definition ByteSliceRoot (slice : bytes) (maxLength : Z) : outcome bytes :=
  let chunkedRoots := PackByChunk [slice] in
  let maxRootLength := (maxLength +w 31) / 32 in
  bytesRoot <-? omap_err (λ e, wrapErr e "could not compute merkleization")
                  (BitwiseMerkleize chunkedRoots (Z.of_nat (length chunkedRoots)) maxRootLength);;
  Ret (MixInLength bytesRoot (lengthRoot (Z.of_nat (length slice)))).

Definition MaxBytesPerTxLength : Z := 1073741824.
Definition MaxTxsPerPayloadLength : Z := 1048576.
Definition TransactionsRoot (txs : list bytes) : outcome bytes :=
  SliceRoot (map (λ tx, ByteSliceRoot tx MaxBytesPerTxLength) txs) MaxTxsPerPayloadLength.
End ssz.
