(* ===== verification/SszRoots.v ===== *)
(** * SSZ merkleization: correctness

    [Depth] is the binary logarithm, rounded up; the vectorised hashing, split over any
    number of goroutines that finish in any order, hashes neighbours; the layer-by-layer
    [MerkleizeVector] and the streaming [Merkleize], which keeps one node per height,
    return the root of the reference tree. *)

From S2P Require Import Prelude Bytes Sha256 Merkle Ssz.

(** ** The depth *)

Lemma mask_eq k : 0 ≤ k ≤ 5 → mask k = Z.lxor (Z.ones 64) (Z.ones (2 ^ k)).
Proof.
  intros Hk. assert (k = 0 ∨ k = 1 ∨ k = 2 ∨ k = 3 ∨ k = 4 ∨ k = 5) as Hc by lia.
  destruct Hc as [->|[->|[->|[->|[->| ->]]]]]; reflexivity.
Qed.

Lemma land_mask v k : is_u64 v → 0 ≤ k ≤ 5 → Z.land v (mask k) = Z.ldiff v (Z.ones (2 ^ k)).
Proof.
  intros Hv Hk. rewrite mask_eq by done. apply Z.bits_inj'. intros i Hi.
  rewrite Z.land_spec, Z.lxor_spec, Z.ldiff_spec. destruct (decide (i < 64)).
  - rewrite (Z.ones_spec_low 64) by lia. done.
  - assert (Z.testbit v i = false) as ->; [|done].
    destruct (decide (v = 0)) as [->|]; [apply Z.bits_0|]. apply Z.bits_above_log2; [destruct Hv; lia|].
    apply Z.lt_le_trans with 64; [|lia]. apply Z.log2_lt_pow2; [destruct Hv; lia|]. exact (proj2 Hv).
Qed.

Lemma land_mask_zero v k : is_u64 v → 0 ≤ k ≤ 5 → Z.land v (mask k) = 0 ↔ v < 2 ^ (2 ^ k).
Proof.
  intros Hv Hk. rewrite land_mask by done. assert (0 < 2 ^ k) by (apply Z.pow_pos_nonneg; lia).
  rewrite Z.ldiff_ones_r, Z.shiftl_mul_pow2, Z.shiftr_div_pow2 by lia.
  assert (0 < 2 ^ (2 ^ k)) by (apply Z.pow_pos_nonneg; lia). destruct Hv. split; intros Hz.
  - assert (v / 2 ^ (2 ^ k) = 0) as Hd by nia. apply Z.div_small_iff in Hd; lia.
  - rewrite Z.div_small by lia. done.
Qed.

Lemma lor_bit q k : 0 ≤ k → Z.lor (Z.shiftl q (k + 1)) (bit k) = Z.shiftl q (k + 1) + 2 ^ k.
Proof.
  intros Hk. unfold bit. rewrite (Z.shiftl_1_l k).
  assert (Z.land (Z.shiftl q (k + 1)) (2 ^ k) = 0) as Hz.
  { apply Z.bits_inj'. intros i Hi. rewrite Z.land_spec, Z.bits_0, Z.pow2_bits_eqb by lia.
    destruct (k =? i) eqn:E; [|apply andb_false_r]. bprop. subst i.
    by rewrite Z.shiftl_spec_low by lia. }
  rewrite <- Z.lxor_lor by exact Hz. symmetry. by apply Z.add_nocarry_lxor.
Qed.

(** One comparison of the binary search. *)
Lemma depthStep_spec k k1 v q : k1 = k + 1 → 0 ≤ k ≤ 5 → 1 ≤ v < 2 ^ (2 ^ k1) → is_u64 v →
  ∃ v' q', depthStep k (v, Z.shiftl q k1) = (v', Z.shiftl q' k) ∧
    1 ≤ v' < 2 ^ (2 ^ k) ∧ is_u64 v' ∧ Z.shiftl q' k + Z.log2 v' = Z.shiftl q k1 + Z.log2 v.
Proof.
  intros -> Hk Hv Hu. unfold depthStep. assert (0 < 2 ^ k) by (apply Z.pow_pos_nonneg; lia).
  destruct (Z.land v (mask k) =? 0) eqn:E; bprop; cbn [negb].
  - apply land_mask_zero in E; [|done..]. exists v, (2 * q). split_and!; try done; try lia.
    + f_equal. rewrite !Z.shiftl_mul_pow2, Z.pow_add_r by lia. lia.
    + f_equal. rewrite !Z.shiftl_mul_pow2, Z.pow_add_r by lia. lia.
  - rewrite land_mask_zero in E by done.
    exists (Z.shiftr v (2 ^ k)), (2 * q + 1). unfold bit at 1. rewrite (Z.shiftl_1_l k), lor_bit by lia.
    assert (2 ^ (2 ^ (k + 1)) = 2 ^ (2 ^ k) * 2 ^ (2 ^ k)) as Hpow.
    { rewrite <- Z.pow_add_r by lia. f_equal. rewrite Z.pow_add_r by lia. lia. }
    assert (0 < 2 ^ (2 ^ k)) by (apply Z.pow_pos_nonneg; lia).
    assert (1 ≤ Z.shiftr v (2 ^ k) < 2 ^ (2 ^ k)) as Hv'.
    { rewrite Z.shiftr_div_pow2 by lia. split; [apply Z.div_le_lower_bound; lia|apply Z.div_lt_upper_bound; nia]. }
    split_and!; [apply f_equal2; [done|]; rewrite !Z.shiftl_mul_pow2, Z.pow_add_r by lia; lia|lia|lia| |].
    + destruct Hu. rewrite Z.shiftr_div_pow2 by lia. split; [apply Z.div_pos; lia|].
      apply Z.le_lt_trans with v; [|done]. apply Z.div_le_upper_bound; nia.
    + rewrite Z.log2_shiftr by lia. rewrite Z.max_r.
      * rewrite !Z.shiftl_mul_pow2, Z.pow_add_r by lia. lia.
      * apply Z.le_0_sub, (proj1 (Z.log2_le_pow2 v (2 ^ k) ltac:(lia))). by apply Z.nlt_ge.
Qed.

Lemma Depth_log2_up v : is_u64 v → Depth v = Z.log2_up v.
Proof.
  intros Hv. unfold Depth. destruct (v <=? 1) eqn:E; bprop.
  { destruct Hv. rewrite Z.log2_up_eqn0; lia. }
  assert (v -w 1 = v - 1) as -> by (apply wrap64_small; destruct Hv; unfold is_u64; lia).
  assert (is_u64 (v - 1)) as Hu by (destruct Hv; unfold is_u64; lia).
  rewrite Z.log2_up_eqn by lia. set (w := v - 1) in *. replace (Z.pred v) with w by (unfold w; lia).
  change 0 with (Z.shiftl 0 6) at 1.
  destruct (depthStep_spec 5 6 w 0) as (v5 & q5 & -> & H5 & U5 & L5); [done|lia|split; [unfold w; lia|exact (proj2 Hu)]|done|].
  destruct (depthStep_spec 4 5 v5 q5) as (v4 & q4 & -> & H4 & U4 & L4); [done|lia|done|done|].
  destruct (depthStep_spec 3 4 v4 q4) as (v3 & q3 & -> & H3 & U3 & L3); [done|lia|done|done|].
  destruct (depthStep_spec 2 3 v3 q3) as (v2 & q2 & -> & H2 & U2 & L2); [done|lia|done|done|].
  destruct (depthStep_spec 1 2 v2 q2) as (v1 & q1 & -> & H1 & U1 & L1); [done|lia|done|done|].
  destruct (depthStep_spec 0 1 v1 q1) as (v0 & q0 & Heq & H0 & U0 & L0); [done|lia|done|done|].
  unfold depthStep in Heq. assert (v0 = 1) as -> by lia.
  assert ((if negb (Z.land v1 (mask 0) =? 0) then Z.lor (Z.shiftl q1 1) (bit 0) else Z.shiftl q1 1) = Z.shiftl q0 0)
    as -> by (destruct (negb _); congruence).
  assert (Z.shiftl q0 0 = Z.log2 w) as -> by (change (Z.log2 1) with 0 in L0; change (Z.shiftl 0 6) with 0 in L5; lia).
  assert (Z.log2 w < 64).
  { apply Z.log2_lt_pow2; [unfold w; lia|]. exact (proj2 Hu). }
  rewrite Z.mod_small; [lia|]. pose proof (Z.log2_nonneg w). lia.
Qed.

Lemma depthOf_bound v : is_u64 v → (depthOf v ≤ 64)%nat ∧ v ≤ 2 ^ Z.of_nat (depthOf v).
Proof.
  intros Hv. unfold depthOf. rewrite Depth_log2_up by done. pose proof (Z.log2_up_nonneg v).
  rewrite Z2Nat.id by done. split.
  - assert (Z.log2_up v ≤ 64); [|lia]. apply (Z.log2_up_le_mono v (2 ^ 64)). exact (Z.lt_le_incl _ _ (proj2 Hv)).
  - destruct (decide (v ≤ 1)); [apply Z.le_trans with 1; [done|]|].
    + apply (Z.pow_le_mono_r 2 0); lia.
    + apply Z.log2_up_spec. lia.
Qed.

Lemma depthOf_mono v w : is_u64 v → is_u64 w → v ≤ w → (depthOf v ≤ depthOf w)%nat.
Proof.
  intros Hv Hw Hle. unfold depthOf. rewrite !Depth_log2_up by done.
  pose proof (Z.log2_up_le_mono v w Hle). pose proof (Z.log2_up_nonneg v). lia.
Qed.

(** ** Vectorised hashing *)

Section vector.
Context `{Sha256} `{!Gohashtree} `{!GoRuntime}.

Lemma hashPairs_drop m l : hashPairs (drop (2 * m) l) = drop m (hashPairs l).
Proof.
  revert l. induction m as [|m IH]; intros l; [done|]. replace (2 * S m)%nat with (S (S (2 * m))) by lia.
  destruct l as [|a [|b l]]; [done|cbn; done|]. cbn [drop hashPairs]. apply IH.
Qed.
Lemma hashPairs_take m l : hashPairs (take (2 * m) l) = take m (hashPairs l).
Proof.
  revert l. induction m as [|m IH]; intros l; [done|]. replace (2 * S m)%nat with (S (S (2 * m))) by lia.
  destruct l as [|a [|b l]]; [done..|]. cbn [take hashPairs]. by rewrite IH.
Qed.

Lemma hashInto_spec out off chunks :
  Nat.Even (length chunks) → (off + length chunks / 2 ≤ length out)%nat →
  hashInto out off chunks = Ret (take off out ++ hashPairs chunks ++ drop (off + length chunks / 2) out).
Proof.
  intros He Hl. unfold hashInto. rewrite gohashtreeHash_even by (done || rewrite length_drop; lia).
  cbn. by rewrite drop_drop.
Qed.

(** What job [j] writes: the digests [j * g] up to [(j + 1) * g], or to the end. *)
Definition inJob (n g total j k : nat) : Prop :=
  (j * g ≤ k < if (j =? n)%nat then total else (j + 1) * g)%nat.

Lemma hashJob_spec input n g j out :
  Nat.Even (length input) → (n * g ≤ length input / 2)%nat → (j ≤ n)%nat → length out = (length input / 2)%nat →
  ∃ out', hashJob input n g j out = Ret out' ∧ length out' = length out ∧
    ∀ k, (k < length out)%nat → out' !! k = hashPairs input !! k ∨ (out' !! k = out !! k ∧ ¬ inJob n g (length out) j k).
Proof.
  intros He Hng Hj Hout. unfold hashJob, inJob.
  assert (length (hashPairs input) = length out) as Hhp by (by rewrite length_hashPairs).
  assert (∀ m, hashInto out (j * g) (take (2 * m) (drop (2 * (j * g)) input)) =
    Ret (take (j * g) out ++ take m (drop (j * g) (hashPairs input)) ++
         drop (j * g + Nat.min m (length out - j * g)) out)) as Hinto.
  { intros m. destruct He as [e He]. assert (length input / 2 = e)%nat as Hl2 by (rewrite He, Nat.mul_comm; apply Nat.div_mul; lia).
    assert (length (take (2 * m) (drop (2 * (j * g)) input)) = 2 * Nat.min m (length out - j * g))%nat as Hlen.
    { rewrite length_take, length_drop, He. lia. }
    rewrite hashInto_spec; rewrite Hlen; [|by eexists|rewrite (Nat.mul_comm 2 (Nat.min _ _)), Nat.div_mul by lia; nia].
    rewrite (Nat.mul_comm 2 (Nat.min _ _)), Nat.div_mul by lia. by rewrite hashPairs_take, hashPairs_drop. }
  assert (∀ m k, (j * g ≤ length out)%nat → (k < length out)%nat →
    (take (j * g) out ++ take m (drop (j * g) (hashPairs input)) ++
         drop (j * g + Nat.min m (length out - j * g)) out) !! k = hashPairs input !! k ∨
    (take (j * g) out ++ take m (drop (j * g) (hashPairs input)) ++
         drop (j * g + Nat.min m (length out - j * g)) out) !! k = out !! k ∧ ¬ (j * g ≤ k < j * g + m)%nat) as Hlook.
  { intros m k Hjg Hk. destruct (decide (k < j * g)%nat).
    - right. rewrite lookup_app_l by (rewrite length_take; lia). rewrite lookup_take_lt by lia. split; [done|lia].
    - rewrite lookup_app_r by (rewrite length_take; lia). rewrite length_take, Nat.min_l by lia.
      destruct (decide (k - j * g < m)%nat).
      + left. rewrite lookup_app_l by (rewrite length_take, length_drop; lia).
        rewrite lookup_take_lt, lookup_drop by lia. f_equal. lia.
      + right. rewrite lookup_app_r by (rewrite length_take, length_drop; lia).
        rewrite length_take, length_drop, Hhp, lookup_drop. split; [|lia]. f_equal. lia. }
  assert (∀ m, (j * g ≤ length out)%nat → length (take (j * g) out ++ take m (drop (j * g) (hashPairs input)) ++
         drop (j * g + Nat.min m (length out - j * g)) out) = length out) as Hlength.
  { intros m Hjg. rewrite !length_app, !length_take, !length_drop, Hhp. lia. }
  assert (j * g ≤ length out)%nat as Hjg by nia.
  destruct (j =? n)%nat eqn:Ej.
  - apply Nat.eqb_eq in Ej as ->. replace (n * 2 * g)%nat with (2 * (n * g))%nat by lia.
    pose proof (Hinto (length input)) as Hi. rewrite take_ge in Hi by (rewrite length_drop; lia).
    eexists. split; [exact Hi|]. split; [by apply Hlength|]. intros k Hk.
    destruct (Hlook (length input) k Hjg Hk) as [?|[? Hn]]; [by left|right]. split; [done|].
    assert (length input / 2 ≤ length input)%nat by (apply Nat.Div0.div_le_upper_bound; lia). lia.
  - replace (j * 2 * g)%nat with (2 * (j * g))%nat by lia.
    eexists. split; [exact (Hinto g)|]. split; [by apply Hlength|]. intros k Hk.
    destruct (Hlook g k Hjg Hk) as [?|[? Hn]]; [by left|right]. split; [done|]. lia.
Qed.

(** All jobs together, in any order. *)
Lemma hashJobs_spec input n g jobs out :
  Nat.Even (length input) → (n * g ≤ length input / 2)%nat → Forall (λ j, j ≤ n)%nat jobs → length out = (length input / 2)%nat →
  ∃ out', foldl (λ out j, o <-? out;; hashJob input n g j o) (Ret out) jobs = Ret out' ∧ length out' = length out ∧
    ∀ k, (k < length out)%nat → out' !! k = hashPairs input !! k ∨
      (out' !! k = out !! k ∧ ∀ j, j ∈ jobs → ¬ inJob n g (length out) j k).
Proof.
  intros He Hng Hjobs. revert out. induction Hjobs as [|j jobs Hj _ IH]; intros out Hout; cbn [foldl].
  { exists out. split_and!; [done|done|]. intros k _. right. split; [done|set_solver]. }
  destruct (hashJob_spec input n g j out) as (out1 & Hjob & Hl1 & Hk1); try done. cbn [obind]. rewrite Hjob.
  destruct (IH out1) as (out' & Hfold & Hl' & Hk'); [congruence|]. exists out'. split_and!; [done|congruence|].
  intros k Hk. destruct (Hk' k) as [?|[Hsame Hno]]; [congruence|by left|]. rewrite Hl1 in Hno.
  destruct (Hk1 k Hk) as [?|[Hsame1 Hno1]]; [left; congruence|right]. split; [congruence|].
  intros j' [->|Hj']%elem_of_cons; [done|by apply Hno].
Qed.

Lemma VectorizedSha256_hashPairs l :
  Nat.Even (length l) → VectorizedSha256 l = Ret (hashPairs l).
Proof.
  intros He. unfold VectorizedSha256. case_if.
  - rewrite hashInto_spec; [|done|by rewrite length_replicate].
    rewrite drop_ge by (rewrite length_replicate; lia). by rewrite app_nil_r.
  - pose proof GOMAXPROCS_pos. set (n := (GOMAXPROCS - 1)%nat). set (g := (length l / (2 * (n + 1)))%nat).
    assert (g * (n + 1) ≤ length l / 2)%nat as Hg.
    { unfold g. rewrite <- Nat.Div0.div_div, Nat.mul_comm. apply Nat.Div0.mul_div_le. }
    destruct (hashJobs_spec l n g (schedule (S n)) (replicate (length l / 2) (zeroBytes 32))) as (out & -> & Hlen & Hk).
    + done.
    + nia.
    + apply Forall_forall. intros j Hj. rewrite (schedule_perm (S n)) in Hj. apply elem_of_seq in Hj. lia.
    + by rewrite length_replicate.
    + f_equal. apply list_eq_same_length with (length l / 2)%nat; [by rewrite length_hashPairs|by rewrite Hlen, length_replicate|].
      intros k x y Hlt Hx Hy. rewrite length_replicate in Hk. destruct (Hk k Hlt) as [Heq|[_ Hno]]; [congruence|].
      exfalso. set (j := if decide (n * g ≤ k)%nat then n else (k / g)%nat).
      apply (Hno j); unfold j, inJob; case_decide as Hd.
      * rewrite (schedule_perm (S n)). apply elem_of_seq. lia.
      * rewrite (schedule_perm (S n)). apply elem_of_seq. assert (k / g < n)%nat; [|lia]. apply Nat.Div0.div_lt_upper_bound. lia.
      * rewrite Nat.eqb_refl. lia.
      * assert (0 < g)%nat by nia. assert (k / g < n)%nat by (apply Nat.Div0.div_lt_upper_bound; lia).
        rewrite (proj2 (Nat.eqb_neq _ _)) by lia. pose proof (Nat.div_mod k g). pose proof (Nat.mod_upper_bound k g). nia.
Qed.
End vector.

(** ** Layer by layer *)

Section merkleize.
Context `{Sha256} `{!Gohashtree} `{!GoRuntime}.

Lemma merkleizeLayers_spec leaves n i elements :
  (i + n < 100)%nat → elements ≠ [] → Represents leaves i elements →
  ∃ out, merkleizeLayers n i elements = Ret out ∧ out ≠ [] ∧ Represents leaves (i + n) out.
Proof.
  revert i elements. induction n as [|n IH]; intros i elements Hn Hne Hrep; cbn [merkleizeLayers].
  { exists elements. by rewrite Nat.add_0_r. }
  set (padded := if Nat.odd (length elements) then elements ++ [ZeroHash i] else elements).
  assert (Represents leaves i padded ∧ Nat.Even (length padded) ∧ (1 < length padded)%nat) as (Hp & He & Hl).
  { unfold padded. destruct (Nat.odd (length elements)) eqn:Eo.
    - split; [by apply Represents_pad|]. rewrite length_app. apply Nat.odd_spec in Eo as [k Hk]. cbn. split; [exists (k + 1)%nat|]; lia.
    - split; [done|]. rewrite <- Nat.negb_even in Eo. apply negb_false_iff, Nat.even_spec in Eo as [k Hk].
      split; [by exists k|]. destruct elements; [done|]. cbn in *. lia. }
  rewrite VectorizedSha256_hashPairs by done. cbn [obind].
  destruct (IH (S i) (hashPairs padded)) as (out & -> & ? & Hout); [lia| |apply Represents_step; [lia|done..]|].
  - destruct padded as [|? [|]]; cbn in *; [lia..|done].
  - exists out. split_and!; [done..|]. by replace (i + S n)%nat with (S i + n)%nat by lia.
Qed.

Lemma MerkleizeVector_root elements len :
  is_u64 len → MerkleizeVector elements len = Ret (merkleRoot elements (depthOf len)).
Proof.
  intros Hlen. unfold MerkleizeVector. destruct (depthOf_bound len Hlen) as [Hd _]. destruct elements as [|e elements].
  - unfold merkleRoot. rewrite nodeAt_zero; [done|lia|]. apply Nat.le_0_l.
  - destruct (merkleizeLayers_spec (e :: elements) (depthOf len) 0 (e :: elements)) as (out & -> & Hne & Hrep);
      [lia|done|apply Represents_leaves|]. cbn [obind]. destruct out as [|r out]; [done|]. cbn.
    f_equal. by apply (Represents_root _ _ _ _ Hrep).
Qed.
End merkleize.

(** ** Streaming *)

Lemma Z_odd_of_nat m : Z.odd (Z.of_nat m) = Nat.odd m.
Proof.
  destruct (Nat.Even_or_Odd m) as [[k ->]|[k ->]]; rewrite ?Nat2Z.inj_add, Nat2Z.inj_mul.
  - by rewrite Z.odd_mul, Nat.odd_mul.
  - by rewrite Z.odd_add, Z.odd_mul, Nat.odd_add, Nat.odd_mul.
Qed.

Lemma land_shiftl_1 (n j : nat) : Z.of_nat n < two64 →
  (Z.land (Z.of_nat n) (if (64 <=? j)%nat then 0 else Z.shiftl 1 (Z.of_nat j)) =? 0) = negb (Nat.odd (n / 2 ^ j)).
Proof.
  intros Hn. destruct (64 <=? j)%nat eqn:Ej.
  - apply Nat.leb_le in Ej. rewrite Z.land_0_r, Nat.div_small; [done|].
    apply Nat.lt_le_trans with (2 ^ 64)%nat; [|apply Nat.pow_le_mono_r; lia].
    apply Nat2Z.inj_lt. rewrite Nat2Z.inj_pow. exact Hn.
  - rewrite Z.shiftl_1_l. assert (Nat.odd (n / 2 ^ j) = Z.testbit (Z.of_nat n) (Z.of_nat j)) as ->.
    { rewrite Z.testbit_odd, Z.shiftr_div_pow2 by lia. change 2 with (Z.of_nat 2).
      rewrite <- Nat2Z.inj_pow, <- Nat2Z.inj_div. symmetry. apply Z_odd_of_nat. }
    destruct (Z.testbit (Z.of_nat n) (Z.of_nat j)) eqn:E; cbn.
    + apply Z.eqb_neq. intros Hz. apply (f_equal (λ z, Z.testbit z (Z.of_nat j))) in Hz.
      rewrite Z.land_spec, E, Z.pow2_bits_true, Z.bits_0 in Hz by lia. done.
    + apply Z.eqb_eq, Z.bits_inj'. intros i Hi. rewrite Z.land_spec, Z.bits_0, Z.pow2_bits_eqb by lia.
      destruct (Z.of_nat j =? i) eqn:Ei; [bprop; subst; by rewrite E|apply andb_false_r].
Qed.

(** The bits below [j] of [n] are ones: [n + 1] ends in [j] zeros. *)
Lemma low_ones_succ n j : (∀ k, (k < j)%nat → Nat.odd (n / 2 ^ k) = true) → (n + 1 = 2 ^ j * (n / 2 ^ j + 1))%nat.
Proof.
  induction j as [|j IH]; intros Hodd; [change (2 ^ 0)%nat with 1%nat; rewrite Nat.div_1_r; lia|].
  rewrite IH at 1 by (intros k Hk; apply Hodd; lia). specialize (Hodd j (Nat.lt_succ_diag_r j)).
  apply Nat.odd_spec in Hodd as [r Hr]. rewrite Nat.pow_succ_r', (Nat.mul_comm 2), <- Nat.Div0.div_div, Hr.
  replace ((2 * r + 1) / 2)%nat with r; [lia|]. apply (Nat.div_unique _ _ _ 1); lia.
Qed.

Section streaming.
Context `{Sha256} (leaves : list bytes).

(** The left siblings that wait before leaf [n]: one for each bit of [n]. *)
Definition Waiting (n : nat) (tmp : list bytes) : Prop :=
  ∀ k, Nat.odd (n / 2 ^ k) = true → tmp !! k = Some (nodeAt leaves k (n / 2 ^ k - 1)).

Lemma nodeAt_half n j : nodeAt leaves (S j) (n / 2 ^ S j) =
  if Nat.odd (n / 2 ^ j) then Combi (nodeAt leaves j (n / 2 ^ j - 1)) (nodeAt leaves j (n / 2 ^ j))
  else Combi (nodeAt leaves j (n / 2 ^ j)) (nodeAt leaves j (n / 2 ^ j + 1)).
Proof.
  rewrite nodeAt_S, Nat.pow_succ_r', (Nat.mul_comm 2 (2 ^ j)), <- Nat.Div0.div_div. unfold Combi.
  set (q := (n / 2 ^ j)%nat). destruct (Nat.odd q) eqn:E.
  - apply Nat.odd_spec in E as [r Hr]. replace (q / 2)%nat with r by (apply (Nat.div_unique _ _ _ 1); lia).
    by rewrite Hr; replace (2 * r + 1 - 1)%nat with (2 * r)%nat by lia.
  - rewrite <- Nat.negb_even in E. apply negb_false_iff, Nat.even_spec in E as [r Hr].
    replace (q / 2)%nat with r by (apply (Nat.div_unique _ _ _ 0); lia). by rewrite Hr.
Qed.

Lemma mergeLoop_spec n count depth tmp fuel j :
  Z.of_nat n < two64 → (depth ≤ 64)%nat → (66 ≤ fuel + j)%nat → Waiting n tmp → (n = count → length leaves ≤ n)%nat →
  (∀ k, (k < j)%nat → Nat.odd (n / 2 ^ k) = true ∨ (n = count ∧ k < depth)%nat) →
  ∃ j', mergeLoop fuel (Z.of_nat n) (Z.of_nat count) depth j (nodeAt leaves j (n / 2 ^ j)) tmp =
          Ret (j', nodeAt leaves j' (n / 2 ^ j')) ∧
    Nat.odd (n / 2 ^ j') = false ∧ (n = count → depth ≤ j')%nat ∧
    (∀ k, (k < j')%nat → Nat.odd (n / 2 ^ k) = true ∨ (n = count ∧ k < depth)%nat).
Proof.
  intros Hn Hd Hfuel Hw Hz. revert j Hfuel. induction fuel as [|fuel IH]; intros j Hfuel Hbelow.
  { destruct (Hbelow 65%nat) as [Hodd|[_ ?]]; [lia| |lia].
    exfalso. rewrite Nat.div_small in Hodd; [done|]. apply Nat2Z.inj_lt. rewrite Nat2Z.inj_pow.
    apply Z.lt_trans with two64; [done|reflexivity]. }
  cbn [mergeLoop]. rewrite land_shiftl_1 by done. destruct (Nat.odd (n / 2 ^ j)) eqn:Eo; cbn [negb].
  - rewrite (Hw j Eo). pose proof (nodeAt_half n j) as Hh. rewrite Eo in Hh. rewrite <- Hh.
    apply IH; [lia|]. intros k Hk. destruct (decide (k = j)) as [->|]; [by left|apply Hbelow; lia].
  - destruct ((Z.of_nat n =? Z.of_nat count) && (j <? depth)%nat) eqn:Ec.
    + apply andb_true_iff in Ec as [Ec Ej]. apply Z.eqb_eq, Nat2Z.inj in Ec. apply Nat.ltb_lt in Ej.
      pose proof (nodeAt_half n j) as Hh. rewrite Eo in Hh. rewrite (nodeAt_zero leaves j (n / 2 ^ j + 1)) in Hh.
      * rewrite <- Hh. apply IH; [lia|]. intros k Hk. destruct (decide (k = j)) as [->|]; [by right|apply Hbelow; lia].
      * lia.
      * specialize (Hz Ec). pose proof (Nat.mul_succ_div_gt n (2 ^ j)) as Hgt.
        assert (2 ^ j ≠ 0)%nat as Hp by (apply Nat.pow_nonzero; lia). specialize (Hgt Hp). lia.
    + exists j. split_and!; [done|done| |done]. intros ->. rewrite Z.eqb_refl in Ec. cbn in Ec. by apply Nat.ltb_ge in Ec.
Qed.

Lemma merge_leaf n count depth tmp h :
  Z.of_nat count < two64 → (n < count)%nat → (count ≤ 2 ^ depth)%nat → (depth ≤ 64)%nat → (depth < length tmp)%nat →
  Waiting n tmp → h = nodeAt leaves 0 n →
  ∃ h' tmp', merge (Z.of_nat n) (Z.of_nat count) depth h tmp = Ret (h', tmp') ∧
    length tmp' = length tmp ∧ Waiting (n + 1) tmp' ∧
    ∃ j' i', h' = nodeAt leaves j' i'.
Proof.
  intros Hc Hn Hcd Hd Htmp Hw ->. unfold merge.
  destruct (mergeLoop_spec n count depth tmp 66 0) as (j & Hloop & Heven & _ & Hones); [lia|done|lia|done|lia|lia|].
  replace (nodeAt leaves 0 n) with (nodeAt leaves 0 (n / 2 ^ 0)) by (f_equal; cbn [Nat.pow]; apply Nat.div_1_r).
  rewrite Hloop. cbn [obind fst snd].
  assert (∀ k, (k < j)%nat → Nat.odd (n / 2 ^ k) = true) as Hones'.
  { intros k Hk. destruct (Hones k Hk) as [?|[? _]]; [done|lia]. }
  assert (j ≤ depth)%nat as Hj.
  { destruct (decide (j ≤ depth)%nat) as [|Hjd]; [done|]. specialize (Hones' depth). rewrite Nat.div_small in Hones' by lia.
    discriminate Hones'. lia. }
  rewrite (proj2 (Nat.ltb_lt _ _)) by lia. eexists _, _. split; [done|].
  split; [by rewrite length_insert|]. split; [|by eexists _, _].
  pose proof (low_ones_succ n j Hones') as Hsucc. set (q := (n / 2 ^ j)%nat) in *.
  rewrite <- Nat.negb_even in Heven. apply negb_false_iff, Nat.even_spec in Heven as [r Hr].
  assert (2 ^ j ≠ 0)%nat as Hp by (apply Nat.pow_nonzero; lia).
  assert ((n + 1) / 2 ^ j = q + 1)%nat as Hdiv by (rewrite Hsucc, Nat.mul_comm; by apply Nat.div_mul).
  intros k Hk. destruct (lt_eq_lt_dec k j) as [[Hlt| ->]|Hgt].
  - exfalso. replace j with (k + S (j - k - 1))%nat in Hsucc by lia. rewrite Nat.pow_add_r, Nat.pow_succ_r' in Hsucc.
    assert (2 ^ k ≠ 0)%nat by (apply Nat.pow_nonzero; lia).
    replace ((n + 1) / 2 ^ k)%nat with (2 * (2 ^ (j - k - 1) * (q + 1)))%nat in Hk.
    + by rewrite Nat.odd_mul in Hk.
    + symmetry. rewrite Hsucc. replace (k + S (j - k - 1))%nat with j by lia. fold q.
      rewrite <- Nat.mul_assoc, Nat.mul_comm, Nat.div_mul by done. lia.
  - rewrite list_lookup_insert_eq by lia. rewrite Hdiv. by replace (q + 1 - 1)%nat with q by lia.
  - rewrite list_lookup_insert_ne by lia.
    assert (∀ m, m / 2 ^ k = m / 2 ^ j / 2 / 2 ^ (k - j - 1))%nat as Hsplit.
    { intros m. replace k with (j + S (k - j - 1))%nat at 1 by lia.
      by rewrite Nat.pow_add_r, Nat.pow_succ_r', !Nat.Div0.div_div, Nat.mul_assoc. }
    assert ((n + 1) / 2 ^ k = n / 2 ^ k)%nat as Heq.
    { rewrite !Hsplit, Hdiv. fold q. f_equal. rewrite Hr. rewrite (Nat.mul_comm 2 r), Nat.div_mul by lia.
      symmetry. apply (Nat.div_unique _ _ _ 1); lia. }
    rewrite Heq in *. by apply Hw.
Qed.

Lemma copyBytes_chunk a b : length a = 32%nat → length b = 32%nat → copyBytes a b = b.
Proof. intros Ha Hb. unfold copyBytes. rewrite Ha, Hb, take_ge, drop_ge by lia. apply app_nil_r. Qed.

Lemma mergeLeaves_spec (leaf : Z → bytes) count depth m n (s : bytes * list bytes) :
  Z.of_nat count < two64 → (count ≤ 2 ^ depth)%nat → (depth ≤ 64)%nat → (depth < length s.2)%nat →
  Forall is_chunk leaves → (n + m = count)%nat → (∀ i, (i < count)%nat → leaves !! i = Some (leaf (Z.of_nat i))) →
  length s.1 = 32%nat → Waiting n s.2 →
  ∃ s', mergeLeaves m (Z.of_nat n) (Z.of_nat count) depth leaf s = Ret s' ∧
    length s'.1 = 32%nat ∧ length s'.2 = length s.2 ∧ Waiting count s'.2.
Proof.
  intros Hc Hcd Hd. revert n s. induction m as [|m IH]; intros n s Htmp Hch Hm Hleaf Hh Hw; cbn [mergeLeaves].
  { exists s. split_and!; [done..|]. by replace count with n by lia. }
  assert (nodeAt leaves 0 n = leaf (Z.of_nat n)) as Hnode.
  { unfold nodeAt. rewrite Hleaf by lia. done. }
  rewrite copyBytes_chunk; [|done|rewrite <- Hnode; by apply length_nodeAt].
  destruct (merge_leaf n count depth s.2 (leaf (Z.of_nat n))) as (h' & tmp' & -> & Hl & Hw' & j & i & Hh'); try done; [lia|].
  cbn [obind]. replace (Z.of_nat n + 1) with (Z.of_nat (n + 1)) by lia.
  destruct (IH (n + 1)%nat (h', tmp')) as (s' & -> & ? & Hl' & ?); try done.
  - cbn. by rewrite Hl.
  - lia.
  - cbn. rewrite Hh'. by apply length_nodeAt.
  - exists s'. split_and!; [done..| |done]. cbn in Hl'. congruence.
Qed.

(** The padding up to the next power of two. *)
Lemma merge_count count depth tmp :
  Z.of_nat count < two64 → (count < 2 ^ depth)%nat → (depth ≤ 64)%nat → (depth < length tmp)%nat →
  length leaves = count → Waiting count tmp →
  ∃ h, merge (Z.of_nat count) (Z.of_nat count) depth (ZeroHash 0) tmp = Ret (h, <[depth := merkleRoot leaves depth]> tmp).
Proof.
  intros Hc Hcd Hd Htmp Hlen Hw. unfold merge.
  destruct (mergeLoop_spec count count depth tmp 66 0) as (j & Hloop & _ & Hj & Hones); [done|done|lia|done|lia|lia|].
  replace (nodeAt leaves 0 (count / 2 ^ 0)) with (ZeroHash 0) in Hloop.
  2:{ symmetry. apply nodeAt_zero; [lia|]. change (2 ^ 0)%nat with 1%nat. rewrite Nat.div_1_r. lia. }
  rewrite Hloop. cbn [obind fst snd]. specialize (Hj eq_refl).
  assert (j = depth) as ->.
  { destruct (decide (j = depth)) as [|Hne]; [done|]. destruct (Hones depth) as [Hodd|[_ ?]]; [lia| |lia].
    by rewrite Nat.div_small in Hodd. }
  rewrite (proj2 (Nat.ltb_lt _ _)) by lia. rewrite Nat.div_small by done. by eexists.
Qed.

(** The zero subtrees above. *)
Lemma extendRoot_spec n j tmp :
  (j + n < 100)%nat → (j + n < length tmp)%nat → (length leaves ≤ 2 ^ j)%nat → tmp !! j = Some (merkleRoot leaves j) →
  ∃ tmp', extendRoot n j tmp = Ret tmp' ∧ tmp' !! (j + n)%nat = Some (merkleRoot leaves (j + n)).
Proof.
  revert j tmp. induction n as [|n IH]; intros j tmp Hn Hl Hlen Hj; cbn [extendRoot].
  { exists tmp. by rewrite Nat.add_0_r. }
  rewrite Hj. replace (j + S n)%nat with (S j + n)%nat by lia. apply IH.
  - lia.
  - rewrite length_insert. lia.
  - rewrite Nat.pow_succ_r'. lia.
  - rewrite list_lookup_insert_eq by lia. f_equal. symmetry. apply merkleRoot_S_short; [lia|done].
Qed.
End streaming.

Lemma depthOf_nat v : is_u64 v → (Z.to_nat v ≤ 2 ^ depthOf v)%nat.
Proof.
  intros Hv. destruct (depthOf_bound v Hv) as [_ Hle]. apply Nat2Z.inj_le. rewrite Z2Nat.id by (destruct Hv; lia).
  by rewrite Nat2Z.inj_pow.
Qed.

(** The streaming routine returns the root of the reference tree. *)
Lemma Merkleize_root `{Sha256} (count limit : Z) (leaf : Z → bytes) :
  is_u64 limit → 0 ≤ count ≤ limit → (∀ i, 0 ≤ i < count → length (leaf i) = 32%nat) →
  Merkleize count limit leaf =
    Ret (merkleRoot (map (λ i, leaf (Z.of_nat i)) (seq 0 (Z.to_nat count))) (depthOf limit)).
Proof.
  intros Hu Hcl Hleaf. set (n := Z.to_nat count). set (leaves := map _ _).
  assert (count = Z.of_nat n) as Hn by (unfold n; lia). assert (is_u64 count) as Huc by (destruct Hu; unfold is_u64; lia).
  assert (length leaves = n) as Hlen by (unfold leaves; by rewrite length_map, length_seq).
  assert (∀ i, (i < n)%nat → leaves !! i = Some (leaf (Z.of_nat i))) as Hlook.
  { intros i Hi. unfold leaves. rewrite list_lookup_fmap, lookup_seq_lt by done. done. }
  assert (Forall is_chunk leaves) as Hch.
  { apply Forall_lookup_2. intros i c Hc. pose proof (lookup_lt_Some _ _ _ Hc) as Hi. rewrite Hlen in Hi.
    rewrite Hlook in Hc by done. injection Hc as <-. apply Hleaf. lia. }
  unfold Merkleize. rewrite (proj2 (Z.ltb_ge _ _)) by lia.
  destruct (limit =? 0) eqn:E0; [|destruct (limit =? 1) eqn:E1]; bprop.
  - subst limit. change (depthOf 0) with 0%nat. unfold merkleRoot, nodeAt. rewrite lookup_ge_None_2 by lia. by rewrite <- ZeroHash_0.
  - subst limit. change (depthOf 1) with 0%nat. unfold merkleRoot, nodeAt. f_equal. case_if.
    + rewrite Hlook by lia. cbn. apply copyBytes_chunk; [done|]. apply Hleaf. lia.
    + rewrite lookup_ge_None_2 by lia. by rewrite <- ZeroHash_0.
  - destruct (depthOf_bound limit Hu) as [Hld _]. destruct (depthOf_bound count Huc) as [Hd _].
    pose proof (depthOf_mono count limit Huc Hu ltac:(lia)) as Hmono. pose proof (depthOf_nat count Huc) as Hcd. fold n in Hcd.
    set (d := depthOf count) in *. set (ld := depthOf limit) in *.
    destruct (mergeLeaves_spec leaves leaf n d n 0 (zeroBytes 32, replicate (S ld) (zeroBytes 32))) as (s & Hs & Hh & Hl & Hw).
    + rewrite <- Hn. exact (proj2 Huc).
    + done.
    + done.
    + cbn [snd]. rewrite length_replicate. lia.
    + done.
    + lia.
    + done.
    + done.
    + intros k. by rewrite Nat.Div0.div_0_l.
    + fold n. rewrite Hn in *. change (Z.of_nat 0) with 0 in Hs. rewrite Hs. cbn [obind]. cbn [snd] in Hl. rewrite length_replicate in Hl.
      assert (∃ h tmp, (if negb (wrap64 (Z.shiftl 1 (Z.of_nat d)) =? Z.of_nat n)
         then merge (Z.of_nat n) (Z.of_nat n) d (copyBytes s.1 (ZeroHash 0)) s.2 else Ret s) = Ret (h, tmp) ∧
         length tmp = S ld ∧ tmp !! d = Some (merkleRoot leaves d)) as (h & tmp & -> & Htl & Htd).
      { rewrite copyBytes_chunk by (done || by apply length_ZeroHash; lia).
        destruct (decide (n = 2 ^ d)%nat) as [Hpow|Hpow].
        - assert (Nat.odd (n / 2 ^ d) = true) as Hodd by (rewrite Hpow, Nat.div_same; [done|apply Nat.pow_nonzero; lia]).
          specialize (Hw d Hodd). rewrite Hpow, Nat.div_same in Hw by (apply Nat.pow_nonzero; lia).
          rewrite Z.shiftl_1_l. assert (2 ^ Z.of_nat d = Z.of_nat n) as -> by (rewrite Hpow, Nat2Z.inj_pow; done).
          rewrite wrap64_small, Z.eqb_refl by done. cbn. exists s.1, s.2. rewrite <- surjective_pairing. done.
        - assert ((wrap64 (Z.shiftl 1 (Z.of_nat d)) =? Z.of_nat n) = false) as ->.
          { apply Z.eqb_neq. rewrite Z.shiftl_1_l. intros Hwr. destruct (decide (d = 64)%nat) as [Hd64|].
            - rewrite Hd64 in Hwr. change (wrap64 (2 ^ Z.of_nat 64)) with 0 in Hwr. unfold d in Hd64.
              rewrite Hn, <- Hwr in Hd64. discriminate Hd64.
            - rewrite wrap64_small in Hwr.
              + apply Hpow, Nat2Z.inj. by rewrite Nat2Z.inj_pow.
              + split; [apply Z.pow_nonneg; lia|]. change two64 with (2 ^ 64). apply Z.pow_lt_mono_r; lia. }
          destruct (merge_count leaves n d s.2) as (h & Hm); [exact (proj2 Huc)|lia|done|lia|done|done|].
          cbn [negb]. rewrite Hm. exists h, (<[d := merkleRoot leaves d]> s.2). split_and!; [done|by rewrite length_insert|].
          rewrite list_lookup_insert_eq by lia. done. }
      cbn [obind snd]. destruct (extendRoot_spec leaves (ld - d) d tmp) as (tmp' & -> & Hr); [lia|lia|lia|done|].
      cbn [obind]. replace (d + (ld - d))%nat with ld in Hr by lia. by rewrite Hr.
Qed.

(** * Hash tree roots of SSZ values: correctness

    The two merkleization routines agree with the reference and so with each other; the
    roots of byte slices and of lists are those of the SSZ specification: the chunks (or
    the roots of the elements) merkleized at the depth of the limit, with the length
    mixed in. *)

(** C27. Merkleization: within the limit, the streaming [Merkleize], which keeps one node
    per height, and [MerkleizeVector], which hashes layer by layer over any number of
    processors that finish in any order, do not panic and both return the root of the
    zero-extended tree over the leaves, whose depth is the logarithm of the limit. *)
Theorem merkleization_correct `{Sha256} `{!Gohashtree} `{!GoRuntime} (count limit : Z) (leaf : Z → bytes) :
  is_u64 limit → 0 ≤ count ≤ limit → (∀ i, 0 ≤ i < count → length (leaf i) = 32%nat) →
  let leaves := map (λ i, leaf (Z.of_nat i)) (seq 0 (Z.to_nat count)) in
  let root := merkleRoot leaves (Z.to_nat (Z.log2_up limit)) in
  Merkleize count limit leaf = Ret root ∧ MerkleizeVector leaves limit = Ret root.
Proof.
  intros Hu Hc Hl. cbv zeta. rewrite <- Depth_log2_up by done. change (Z.to_nat (Depth limit)) with (depthOf limit).
  split; [by apply Merkleize_root|by apply MerkleizeVector_root].
Qed.

(** ** The SSZ specification *)

(** [pack] of a byte slice: chunks of 32 bytes, the last one filled up with zeros. *)
Definition chunksOf (b : bytes) : list bytes :=
  map (λ i, ToBytes32 (take 32 (drop (32 * i) b))) (seq 0 ((length b + 31) / 32)).

(** [mix_in_length(merkleize(chunks, limit), length)]. *)
Definition listRoot `{Sha256} (chunks : list bytes) (limit : Z) (length : nat) : bytes :=
  Hash (merkleRoot chunks (Z.to_nat (Z.log2_up limit)) ++ lengthRoot (Z.of_nat length)).

Section roots.
Context `{Sha256} `{!Gohashtree} `{!GoRuntime}.

Lemma BitwiseMerkleize_root chunks limit :
  is_u64 limit → Z.of_nat (length chunks) ≤ limit →
  BitwiseMerkleize chunks (Z.of_nat (length chunks)) limit = Ret (merkleRoot chunks (Z.to_nat (Z.log2_up limit))).
Proof.
  intros Hu Hl. unfold BitwiseMerkleize. rewrite (proj2 (Z.ltb_ge _ _)) by done.
  rewrite MerkleizeVector_root by done. unfold depthOf. by rewrite Depth_log2_up.
Qed.

Lemma chunkLoop_seq n b : chunkLoop n b = map (λ i, ToBytes32 (take 32 (drop (32 * i) b))) (seq 0 n).
Proof.
  revert b. induction n as [|n IH]; intros b; [done|]. cbn [chunkLoop seq map]. f_equal.
  rewrite IH, <- seq_shift, map_map. apply map_ext. intros i. rewrite drop_drop. do 3 f_equal. lia.
Qed.

Lemma PackByChunk_single b :
  PackByChunk [b] = (if (length b =? 0)%nat then [ZeroHash 0] else chunksOf b).
Proof.
  unfold PackByChunk. cbn [concat]. rewrite app_nil_r. destruct (length b =? 32)%nat eqn:E.
  - apply Nat.eqb_eq in E. unfold chunksOf. rewrite E. change ((32 + 31) / 32)%nat with 1%nat.
    cbn [map seq]. change (32 * 0)%nat with 0%nat. rewrite drop_0, (take_ge b) by lia. done.
  - destruct (length b =? 0)%nat; [by rewrite ZeroHash_0|apply chunkLoop_seq].
Qed.

Lemma length_chunksOf b : length (chunksOf b) = ((length b + 31) / 32)%nat.
Proof. unfold chunksOf. by rewrite length_map, length_seq. Qed.

Lemma hashableRoots_Ret roots : hashableRoots (map Ret roots) = Ret roots.
Proof. induction roots as [|r roots IH]; [done|]. cbn. by rewrite IH. Qed.

(** The number of chunks is within the limit when the bytes are. *)
Lemma chunks_limit b maxLength : 0 < maxLength → Z.of_nat (length b) ≤ maxLength → maxLength + 31 < two64 →
  Z.of_nat (length (PackByChunk [b])) ≤ (maxLength +w 31) / 32 ∧ (maxLength +w 31) / 32 = (maxLength + 31) / 32.
Proof.
  intros Hm Hl Hu. cbv beta. rewrite wrap64_small by (split; lia). split; [|done]. rewrite PackByChunk_single.
  destruct (length b =? 0)%nat.
  - cbn. apply Z.div_le_lower_bound; lia.
  - rewrite length_chunksOf, Nat2Z.inj_div. apply Z.div_le_mono; lia.
Qed.

Lemma ByteSliceRoot_listRoot b maxLength : 0 < maxLength → Z.of_nat (length b) ≤ maxLength → maxLength + 31 < two64 →
  ByteSliceRoot b maxLength = Ret (listRoot (chunksOf b) ((maxLength + 31) / 32) (length b)).
Proof.
  intros Hm Hl Hu. destruct (chunks_limit b maxLength Hm Hl Hu) as [Hc Hlim]. unfold ByteSliceRoot, listRoot, MixInLength.
  assert (is_u64 ((maxLength +w 31) / 32)) as Hu'.
  { rewrite Hlim. split; [apply Z.div_pos; lia|apply Z.div_lt_upper_bound; unfold two64 in *; lia]. }
  rewrite BitwiseMerkleize_root by done. cbn [omap_err obind]. rewrite Hlim. do 3 f_equal.
  rewrite PackByChunk_single. destruct (length b =? 0)%nat eqn:E; [|done].
  apply Nat.eqb_eq, nil_length_inv in E as ->. exact (nodeAt_app_zero [] _ _ 1).
Qed.

Lemma SliceRoot_listRoot roots limit : is_u64 limit → Z.of_nat (length roots) ≤ limit →
  SliceRoot (map Ret roots) limit = Ret (listRoot roots limit (length roots)).
Proof.
  intros Hu Hl. unfold SliceRoot. rewrite length_map, (proj2 (Z.ltb_ge _ _)) by done.
  rewrite hashableRoots_Ret. cbn [omap_err obind]. rewrite BitwiseMerkleize_root by done. done.
Qed.
End roots.

(** Hash tree roots: the root of a byte slice within its limit is the specification's,
    its chunks merkleized at the depth of the chunk limit with the byte length mixed in;
    the root of the transactions of a payload is the list root of the roots of its
    transactions; and a list over its limit is refused. *)
Theorem transactions_root_correct `{Sha256} `{!Gohashtree} `{!GoRuntime} (txs : list bytes) :
  Forall (λ tx, Z.of_nat (length tx) ≤ MaxBytesPerTxLength) txs →
  (∀ tx, tx ∈ txs → ByteSliceRoot tx MaxBytesPerTxLength =
     Ret (listRoot (chunksOf tx) (MaxBytesPerTxLength / 32) (length tx))) ∧
  TransactionsRoot txs =
    if MaxTxsPerPayloadLength <? Z.of_nat (length txs) then Err "slice exceeds max length"
    else Ret (listRoot (map (λ tx, listRoot (chunksOf tx) (MaxBytesPerTxLength / 32) (length tx)) txs)
                MaxTxsPerPayloadLength (length txs)).
Proof.
  intros Htx. assert (∀ tx, tx ∈ txs → ByteSliceRoot tx MaxBytesPerTxLength =
     Ret (listRoot (chunksOf tx) (MaxBytesPerTxLength / 32) (length tx))) as Hall.
  { intros tx Hin. rewrite Forall_forall in Htx. by apply ByteSliceRoot_listRoot; [|apply Htx|]. }
  split; [done|]. unfold TransactionsRoot. case_if.
  - unfold SliceRoot. rewrite length_map, (proj2 (Z.ltb_lt _ _)) by done. done.
  - pose proof (SliceRoot_listRoot (map (λ tx, listRoot (chunksOf tx) (MaxBytesPerTxLength / 32) (length tx)) txs)
      MaxTxsPerPayloadLength) as Hs. rewrite length_map in Hs. rewrite <- Hs by done. f_equal. rewrite map_map.
    apply map_ext_in. intros tx Hin. apply Hall. by apply list_elem_of_In.
Qed.

(** ** Witnesses *)

(** The portable version of [gohashtree], and three processors of which the last one
    finishes first. *)
Definition portableHash `{Sha256} (digests chunks : list bytes) : outcome (list bytes) :=
  if Nat.odd (length chunks) then Err "odd number of chunks"
  else if (length digests <? length chunks / 2)%nat then Err "not enough digest length"
  else Ret (hashPairs chunks ++ drop (length chunks / 2) digests).

Lemma portableHash_even `{Sha256} digests chunks :
  Nat.Even (length chunks) → (length chunks / 2 ≤ length digests)%nat →
  portableHash digests chunks = Ret (hashPairs chunks ++ drop (length chunks / 2) digests).
Proof.
  intros He Hl. unfold portableHash. rewrite <- Nat.negb_even, (proj2 (Nat.even_spec _) He). cbn [negb].
  by rewrite (proj2 (Nat.ltb_ge _ _) Hl).
Qed.

Definition portable `{Sha256} : Gohashtree :=
  {| gohashtreeHash := portableHash; gohashtreeHash_even := portableHash_even |}.

Lemma reverse_seq_perm n : reverse (seq 0 n) ≡ₚ seq 0 n.
Proof. by rewrite reverse_Permutation. Qed.

Definition threeProcessors : GoRuntime :=
  {| GOMAXPROCS := 3; GOMAXPROCS_pos := ltac:(lia); schedule n := reverse (seq 0 n); schedule_perm := reverse_seq_perm |}.

Definition demoLeaf (i : Z) : bytes := replicate 32 (i + 1).

Lemma merkleization_correct_witness :
  let leaves := map (λ i, demoLeaf (Z.of_nat i)) (seq 0 3) in
  @Merkleize fips180 3 5 demoLeaf = Ret (@merkleRoot fips180 leaves 3) ∧
  @MerkleizeVector fips180 portable threeProcessors leaves 5 = Ret (@merkleRoot fips180 leaves 3).
Proof.
  refine (@merkleization_correct fips180 portable threeProcessors 3 5 demoLeaf _ _ _).
  - unfold is_u64, two64. lia.
  - lia.
  - intros i _. unfold demoLeaf. by rewrite length_replicate.
Defined.

Lemma transactions_root_correct_witness :
  @TransactionsRoot fips180 portable threeProcessors [[1; 2; 3]; []] =
    Ret (@listRoot fips180 [@listRoot fips180 (chunksOf [1; 2; 3]) (MaxBytesPerTxLength / 32) 3;
                            @listRoot fips180 (chunksOf []) (MaxBytesPerTxLength / 32) 0] MaxTxsPerPayloadLength 2).
Proof.
  refine (proj2 (@transactions_root_correct fips180 portable threeProcessors [[1; 2; 3]; []] _)).
  repeat constructor; unfold MaxBytesPerTxLength; cbn; lia.
Defined.
