(* ===== verification/SparseTrie.v ===== *)
(** * The sparse Merkle trie

    Models [container/trie/sparse_merkle.go]: the trie of deposits before EIP-4881, with
    all its layers in memory, and the verification of Merkle branches that the state
    transition uses.  Go [int] indices are [Z]s where they come from outside and [nat]s
    inside, where they are never negative. *)

From S2P Require Import Prelude Bytes Sha256 Merkle.

Record SparseMerkleTrie := mkTrie {
  trieDepth : Z;
  branches : list (list bytes);
  originalItems : list bytes
}.

(** The protobuf messages [SparseMerkleTrie] and [TrieLayer]. *)
Record TrieProto := mkTrieProto {
  ProtoDepth : Z;
  ProtoLayers : list (list bytes);
  ProtoOriginalItems : list bytes
}.

Definition indexPanic : string := "index out of range".

Definition errNoItems : error := "no items provided to generate Merkle trie".
Definition errDepthExceeded : error :=
  "supported merkle trie depth exceeded (max uint64 depth is 63, theoretical max sparse merkle trie depth is 64)".
Definition errNoBranches : error := "no branches".
Definition errInvalidBranches : error := "invalid branches provided".
Definition errDepthBranches : error := "depth is greater than or equal to number of branches".
Definition errNegativeIndex : error := "negative index provided".
Definition errMerkleNegative : error := "merkle index is negative".
Definition errMerkleRange : error := "merkle index out of range in trie".

(** [binary.LittleEndian.PutUint64(enc[:], n)] for [enc] of 32 bytes. *)
Definition encCount (n : Z) : bytes := copyBytes (zeroBytes 32) (PutLittleEndian 8 n).

(** ** Construction and conversion *)
Section trie.
Context `{Sha256}.

(** The loop over the layers: each is made even, hashed, and stored. *)
Fixpoint generateLayers (n i : nat) (layer : list bytes) : list (list bytes) :=
  match n with
  | O => [layer]
  | S n =>
      let layer := if Nat.odd (length layer) then layer ++ [ZeroHash i] else layer in
      layer :: generateLayers n (S i) (hashPairs layer)
  end.

Definition GenerateTrieFromItems (items : list bytes) (depth : Z) : outcome SparseMerkleTrie :=
  if (length items =? 0)%nat then Err errNoItems
  else if 63 <=? depth then Err errDepthExceeded
  else Ret (mkTrie depth (generateLayers (Z.to_nat depth) 0 (map ToBytes32 items)) items).

Definition NewTrie (depth : Z) : outcome SparseMerkleTrie := GenerateTrieFromItems [zeroBytes 32] depth.

Definition validate (m : SparseMerkleTrie) : outcome unit :=
  match last (branches m) with
  | None => Err errNoBranches
  | Some l =>
      if (length l =? 0)%nat then Err errInvalidBranches
      else if Z.of_nat (length (branches m)) <=? trieDepth m then Err errDepthBranches
      else if 63 <=? trieDepth m then Err errDepthExceeded
      else Ret tt
  end.

Definition CreateTrieFromProto (trieObj : TrieProto) : outcome SparseMerkleTrie :=
  let trie := mkTrie (ProtoDepth trieObj) (ProtoLayers trieObj) (ProtoOriginalItems trieObj) in
  match validate trie with
  | Ret _ => Ret trie
  | Err e => Err (wrapErr e "invalid sparse merkle trie")
  | Panic s => Panic s
  | OutOfFuel => OutOfFuel
  end.

Definition ToProto (m : SparseMerkleTrie) : TrieProto :=
  mkTrieProto (trieDepth m) (branches m) (originalItems m).

Definition Items (m : SparseMerkleTrie) : list bytes := originalItems m.

Definition NumOfItems (m : SparseMerkleTrie) : Z :=
  if bool_decide (originalItems m = [zeroBytes 32]) then 0 else Z.of_nat (length (originalItems m)).

Definition HashTreeRoot (m : SparseMerkleTrie) : outcome bytes :=
  let depositCount := if bool_decide (originalItems m = [ZeroHash 0]) then 0 else Z.of_nat (length (originalItems m)) in
  match last (branches m) with
  | Some (r :: _) => Ret (Hash (r ++ encCount depositCount))
  | _ => Panic indexPanic
  end.

(** ** Insertion *)

(** The walk to the root: [root] is the new node at [currentIndex] of layer [i]. *)
Fixpoint insertLoop (n i currentIndex : nat) (root : bytes) (bs : list (list bytes)) : outcome (list (list bytes)) :=
  match n with
  | O => Ret bs
  | S n =>
      match bs !! i, bs !! S i with
      | Some layer, Some above =>
          let isLeft := (currentIndex mod 2 =? 0)%nat in
          let neighborIdx := Nat.lxor currentIndex 1 in
          let neighbor := if (length layer <=? neighborIdx)%nat then ZeroHash i else orZero i (layer !! neighborIdx) in
          let root := if isLeft then Hash (root ++ neighbor) else Hash (neighbor ++ root) in
          let parentIdx := (currentIndex / 2)%nat in
          let above := if (length above =? 0)%nat || (length above <=? parentIdx)%nat then above ++ [root]
                       else <[parentIdx := root]> above in
          insertLoop n (S i) parentIdx root (<[S i := above]> bs)
      | _, _ => Panic indexPanic
      end
  end.

(** [for index >= len(l) { l = append(l, ZeroHashes[0][:]) }] *)
Definition extendZero (index : nat) (l : list bytes) : list bytes := l ++ replicate (S index - length l) (ZeroHash 0).

Definition Insert (m : SparseMerkleTrie) (item : bytes) (index : Z) : outcome SparseMerkleTrie :=
  if index <? 0 then Err errNegativeIndex
  else match branches m with
       | [] => Panic indexPanic
       | leaves :: rest =>
           let index := Z.to_nat index in
           let someItem := ToBytes32 item in
           let bs := <[index := someItem]> (extendZero index leaves) :: rest in
           let items := if (length (originalItems m) <=? index)%nat then originalItems m ++ [someItem]
                        else <[index := someItem]> (originalItems m) in
           bs <-? insertLoop (Z.to_nat (trieDepth m)) 0 index someItem bs;;
           Ret (mkTrie (trieDepth m) bs items)
       end.

(** ** Proofs *)

Fixpoint proofLoop (n i : nat) (merkleIndex : nat) (bs : list (list bytes)) : outcome (list bytes) :=
  match n with
  | O => Ret []
  | S n =>
      match bs !! i with
      | Some layer =>
          let subIndex := Nat.lxor (merkleIndex / 2 ^ i) 1 in
          let item := match layer !! subIndex with Some c => ToBytes32 c | None => ZeroHash i end in
          rest <-? proofLoop n (S i) merkleIndex bs;;
          Ret (item :: rest)
      | None => Panic indexPanic
      end
  end.

Definition MerkleProof (m : SparseMerkleTrie) (index : Z) : outcome (list bytes) :=
  if index <? 0 then Err errMerkleNegative
  else match branches m with
       | [] => Panic indexPanic
       | leaves :: _ =>
           if Z.of_nat (length leaves) <=? index then Err errMerkleRange
           else
             proof <-? proofLoop (Z.to_nat (trieDepth m)) 0 (Z.to_nat index) (branches m);;
             Ret (proof ++ [encCount (Z.of_nat (length (originalItems m)))])
       end.

(** The fold of a branch: the digest of the node with its sibling, on the side that the
    lowest bit of the index says. *)
Definition branchInput (merkleIndex : Z) (node sibling : bytes) : bytes :=
  if Z.land merkleIndex 1 =? 1 then sibling ++ node else node ++ sibling.
Fixpoint verifyLoop (merkleIndex : Z) (node : bytes) (proof : list bytes) : bytes :=
  match proof with
  | [] => node
  | p :: proof => verifyLoop (merkleIndex / 2) (Hash (branchInput merkleIndex node p)) proof
  end.

(** With [depth] the largest [uint64] the length test wraps around, and the loop reads
    beyond the empty proof. *)
Definition VerifyMerkleProofWithDepth (root item : bytes) (merkleIndex : Z) (proof : list bytes) (depth : Z) : outcome bool :=
  if negb (Z.of_nat (length proof) =? depth +w 1) then Ret false
  else match proof with
       | [] => Panic indexPanic
       | _ => Ret (bool_decide (root = verifyLoop merkleIndex (ToBytes32 item) proof))
       end.

Definition VerifyMerkleProof (root item : bytes) (merkleIndex : Z) (proof : list bytes) : outcome bool :=
  match proof with
  | [] => Ret false
  | _ => VerifyMerkleProofWithDepth root item merkleIndex proof (Z.of_nat (length proof) -w 1)
  end.

Fixpoint layersLoop (layers : list (list bytes)) (currentIndex : nat) : outcome (list bytes) :=
  match layers with
  | layer :: ((_ :: _) as above) =>
      match layer !! Nat.lxor currentIndex 1 with
      | Some neighbor => rest <-? layersLoop above (currentIndex / 2);; Ret (neighbor :: rest)
      | None => Panic indexPanic
      end
  | _ => Ret []
  end.
Definition ProofFromMerkleLayers (layers : list (list bytes)) (startingLeafIndex : nat) : outcome (list bytes) :=
  layersLoop layers startingLeafIndex.

(** [SafeCopy2dBytes] copies every slice, so the copy has the same values and shares
    nothing. *)
Definition TrieCopy (m : SparseMerkleTrie) : SparseMerkleTrie :=
  mkTrie (trieDepth m) (map (map id) (branches m)) (map id (originalItems m)).
End trie.
