(* ===== verification/SparseTrieProofs.v ===== *)
(** * The sparse Merkle trie: correctness

    The invariant [TrieOk]: every layer represents its height of the reference tree over
    the items, and has room for the parents of the layer below.  [GenerateTrieFromItems]
    establishes it, [Insert] at the end or over an item keeps it, and the root and the
    proofs follow. *)

From S2P Require Import Prelude Bytes Sha256 Merkle SparseTrie.

(** ** Neighbours and parents *)

Lemma lxor_1 n : Nat.lxor n 1 = if Nat.odd n then (n - 1)%nat else (n + 1)%nat.
Proof.
  destruct (Nat.Even_or_Odd n) as [[k ->]|[k ->]].
  - rewrite Nat.odd_mul. cbn [Nat.odd Nat.even negb andb]. apply Nat.bits_inj. intros [|i]; rewrite Nat.lxor_spec.
    + by rewrite Nat.testbit_even_0, Nat.testbit_odd_0.
    + rewrite Nat.testbit_even_succ, Nat.testbit_odd_succ by lia. change 1%nat with (2 * 0 + 1)%nat at 1.
      rewrite Nat.testbit_odd_succ, Nat.bits_0 by lia. apply xorb_false_r.
  - replace (Nat.odd (2 * k + 1)) with true by (by rewrite Nat.odd_add, Nat.odd_mul).
    replace (2 * k + 1 - 1)%nat with (2 * k)%nat by lia. apply Nat.bits_inj. intros [|i]; rewrite Nat.lxor_spec.
    + by rewrite Nat.testbit_even_0, Nat.testbit_odd_0.
    + rewrite Nat.testbit_even_succ, Nat.testbit_odd_succ by lia. change 1%nat with (2 * 0 + 1)%nat at 1.
      rewrite Nat.testbit_odd_succ, Nat.bits_0 by lia. apply xorb_false_r.
Qed.

(** An index is left or right child of its half. *)
Lemma half_cases n : (n mod 2 = 0 ∧ n = 2 * (n / 2) ∧ Nat.lxor n 1 = 2 * (n / 2) + 1)%nat ∨
                     (n mod 2 = 1 ∧ n = 2 * (n / 2) + 1 ∧ Nat.lxor n 1 = 2 * (n / 2))%nat.
Proof.
  pose proof (Nat.div_mod n 2 ltac:(lia)) as Hd. pose proof (Nat.mod_upper_bound n 2 ltac:(lia)) as Hm. rewrite lxor_1.
  destruct (decide (n mod 2 = 0)%nat) as [H0|H0]; [left|right].
  - assert (n = 2 * (n / 2))%nat as Hn by lia. split_and!; [done|done|].
    assert (Nat.odd n = false) as -> by (rewrite Hn, Nat.odd_mul; done). lia.
  - assert (n = 2 * (n / 2) + 1)%nat as Hn by lia. split_and!; [lia|done|].
    assert (Nat.odd n = true) as -> by (rewrite Hn, Nat.odd_add, Nat.odd_mul; done). lia.
Qed.

Section trie.
Context `{Sha256}.

(** The parent of a node and its neighbour, on either side. *)
Lemma nodeAt_parent leaves h n :
  nodeAt leaves (S h) (n / 2) =
    if (n mod 2 =? 0)%nat then Hash (nodeAt leaves h n ++ nodeAt leaves h (Nat.lxor n 1))
    else Hash (nodeAt leaves h (Nat.lxor n 1) ++ nodeAt leaves h n).
Proof.
  rewrite nodeAt_S. destruct (half_cases n) as [(-> & Hn & ->)|(-> & Hn & ->)]; cbn [Nat.eqb]; by rewrite <- Hn.
Qed.

(** ** The invariant *)

Record TrieOk (leaves : list bytes) (m : SparseMerkleTrie) : Prop := {
  ok_depth : 0 ≤ trieDepth m < 63;
  ok_length : length (branches m) = S (Z.to_nat (trieDepth m));
  ok_items : leaves = map ToBytes32 (originalItems m);
  ok_layer : ∀ h layer, branches m !! h = Some layer → Represents leaves h layer ∧ layer ≠ [] ∧ Forall is_chunk layer;
  ok_room : ∀ h layer above, branches m !! h = Some layer → branches m !! S h = Some above →
    (length layer ≤ 2 * length above)%nat;
  ok_leaves : ∀ layer, branches m !! 0%nat = Some layer → (length leaves ≤ length layer)%nat
}.

Lemma length_ToBytes32 b : length (ToBytes32 b) = 32%nat.
Proof.
  unfold ToBytes32, ToBytesN, PadTo. rewrite length_take. case_match; [apply Nat.leb_le in H0; lia|].
  rewrite length_app. unfold zeroBytes. rewrite length_replicate. apply Nat.leb_gt in H0. lia.
Qed.
Lemma ToBytes32_chunk b : length b = 32%nat → ToBytes32 b = b.
Proof. intros Hb. unfold ToBytes32, ToBytesN, PadTo. rewrite Hb. cbn. apply take_ge. lia. Qed.

Lemma hashPairs_chunks l : Forall is_chunk (hashPairs l).
Proof.
  apply Forall_lookup_2. intros i c Hc. pose proof (lookup_lt_Some _ _ _ Hc) as Hi. rewrite length_hashPairs in Hi.
  assert (2 * i + 1 < length l)%nat as Hlt by (pose proof (Nat.Div0.mul_div_le (length l) 2); lia).
  destruct (lookup_lt_is_Some_2 l (2 * i)) as [a Ha]; [lia|]. destruct (lookup_lt_is_Some_2 l (2 * i + 1)) as [b Hb]; [lia|].
  rewrite (lookup_hashPairs _ _ _ _ Ha Hb) in Hc. injection Hc as <-. apply length_Hash.
Qed.

Lemma generateLayers_spec leaves n i layer :
  (i + n < 100)%nat → Represents leaves i layer → layer ≠ [] → Forall is_chunk layer →
  length (generateLayers n i layer) = S n ∧
  (∀ h l, generateLayers n i layer !! h = Some l → Represents leaves (i + h) l ∧ l ≠ [] ∧ Forall is_chunk l) ∧
  (∀ h l l', generateLayers n i layer !! h = Some l → generateLayers n i layer !! S h = Some l' → (length l ≤ 2 * length l')%nat) ∧
  ∃ l, generateLayers n i layer !! 0%nat = Some l ∧ (length layer ≤ length l)%nat.
Proof.
  revert i layer. induction n as [|n IH]; intros i layer Hn Hrep Hne Hch; cbn [generateLayers].
  { split_and!; [done| |by intros [|h] l l'|by eexists]. intros [|h] l Hl; [|done]. injection Hl as <-. by rewrite Nat.add_0_r. }
  set (padded := if Nat.odd (length layer) then layer ++ [ZeroHash i] else layer).
  assert (Represents leaves i padded ∧ Nat.Even (length padded) ∧ (1 < length padded)%nat ∧ Forall is_chunk padded ∧
    (length layer ≤ length padded)%nat) as (Hp & He & Hl & Hpc & Hle).
  { unfold padded. destruct (Nat.odd (length layer)) eqn:Eo.
    - split; [by apply Represents_pad|]. rewrite length_app. apply Nat.odd_spec in Eo as [k Hk]. cbn.
      split_and!; [exists (k + 1)%nat; lia|lia| |lia]. apply Forall_app. split; [done|]. constructor; [apply length_ZeroHash; lia|done].
    - split; [done|]. rewrite <- Nat.negb_even in Eo. apply negb_false_iff, Nat.even_spec in Eo as [k Hk].
      split_and!; [by exists k| |done|done]. destruct layer; [done|]. cbn in *. lia. }
  destruct (IH (S i) (hashPairs padded)) as (Hlen & Hlay & Hroom & l0 & Hl0 & Hle0).
  - lia.
  - apply Represents_step; [lia|done..].
  - destruct padded as [|? [|]]; cbn in *; [lia..|done].
  - apply hashPairs_chunks.
  - split_and!.
    + cbn. by rewrite Hlen.
    + intros [|h] l Hh; cbn in Hh.
      * injection Hh as <-. rewrite Nat.add_0_r. split_and!; [done| |done]. by destruct padded; cbn in *; [lia|].
      * replace (i + S h)%nat with (S i + h)%nat by lia. by apply Hlay.
    + intros [|h] l l' Hh Hh'.
      * injection Hh as <-. change (generateLayers n (S i) (hashPairs padded) !! 0%nat = Some l') in Hh'. rewrite Hl0 in Hh'. injection Hh' as <-. rewrite length_hashPairs in Hle0.
        destruct He as [k Hk]. rewrite Hk, (Nat.mul_comm 2), Nat.div_mul in Hle0 by lia. lia.
      * by eapply Hroom.
    + by exists padded.
Qed.

Lemma GenerateTrie_ok items depth m :
  0 ≤ depth → GenerateTrieFromItems items depth = Ret m → TrieOk (map ToBytes32 items) m ∧ trieDepth m = depth ∧ originalItems m = items.
Proof.
  intros Hd. unfold GenerateTrieFromItems. destruct (length items =? 0)%nat eqn:E; [done|].
  destruct (63 <=? depth) eqn:E63; [done|]. bprop. intros [= <-]. split; [|done].
  destruct (generateLayers_spec (map ToBytes32 items) (Z.to_nat depth) 0 (map ToBytes32 items)) as (Hlen & Hlay & Hroom & l0 & Hl0 & Hle0).
  - lia.
  - apply Represents_leaves.
  - by destruct items.
  - apply Forall_fmap, Forall_true. intros x. apply length_ToBytes32.
  - constructor; cbn; [lia|done|done|done|done|]. intros layer Hlayer. rewrite Hl0 in Hlayer. by injection Hlayer as <-.
Qed.

(** ** Insertion *)

(** On the way up, after layer [i]: the layers up to [i] are those of the new leaves. *)
Record LoopOk (leaves leaves' : list bytes) (index i : nat) (bs : list (list bytes)) : Prop := {
  lo_below : ∀ k l, (k ≤ i)%nat → bs !! k = Some l → Represents leaves' k l;
  lo_above : ∀ k l, (i < k)%nat → bs !! k = Some l → Represents leaves k l;
  lo_chunks : ∀ k l, bs !! k = Some l → l ≠ [] ∧ Forall is_chunk l;
  lo_room : ∀ k l u, k ≠ i → bs !! k = Some l → bs !! S k = Some u → (length l ≤ 2 * length u)%nat;
  lo_here : ∀ l, bs !! i = Some l → (index / 2 ^ i < length l)%nat;
  lo_next : ∀ l u, bs !! i = Some l → bs !! S i = Some u →
    (index / 2 ^ S i ≤ length u)%nat ∧ (length l ≤ 2 * Nat.max (length u) (index / 2 ^ S i + 1))%nat
}.

(** A layer after its node [p] got a new value. *)
Definition setNode (p : nat) (c : bytes) (u : list bytes) : list bytes :=
  if (length u =? 0)%nat || (length u <=? p)%nat then u ++ [c] else <[p := c]> u.

Lemma setNode_spec p c u : (p ≤ length u)%nat →
  length (setNode p c u) = Nat.max (length u) (p + 1) ∧ setNode p c u !! p = Some c ∧
  (∀ k, k ≠ p → setNode p c u !! k = u !! k).
Proof.
  intros Hp. unfold setNode. destruct (decide (p < length u)%nat) as [Hlt|Hge].
  - rewrite (proj2 (Nat.eqb_neq _ _)), (proj2 (Nat.leb_gt _ _)) by lia. cbn. rewrite length_insert, list_lookup_insert_eq by done.
    split_and!; [lia|done|]. intros k Hk. by rewrite list_lookup_insert_ne.
  - assert (p = length u) as -> by lia. rewrite Nat.leb_refl, orb_true_r, length_app. cbn. split_and!; [lia| |].
    + by rewrite lookup_app_r, Nat.sub_diag by lia.
    + intros k Hk. destruct (decide (k < length u)%nat); [by rewrite lookup_app_l|].
      rewrite !lookup_ge_None_2; [done|lia|rewrite length_app; cbn; lia].
Qed.

Lemma div_pow_S n i : (n / 2 ^ S i = n / 2 ^ i / 2)%nat.
Proof. by rewrite Nat.pow_succ_r', (Nat.mul_comm 2), Nat.Div0.div_div. Qed.

Lemma setNode_represents leaves leaves' index h u :
  (∀ k, k ≠ (index / 2 ^ h)%nat → nodeAt leaves' h k = nodeAt leaves h k) → (index / 2 ^ h ≤ length u)%nat →
  Represents leaves h u → Represents leaves' h (setNode (index / 2 ^ h) (nodeAt leaves' h (index / 2 ^ h)) u).
Proof.
  intros Hdiff Hp Hrep k. destruct (setNode_spec (index / 2 ^ h) (nodeAt leaves' h (index / 2 ^ h)) u Hp) as (_ & Hat & Hne).
  destruct (decide (k = index / 2 ^ h)%nat) as [->|Hk]; [by rewrite Hat|]. by rewrite Hne, Hdiff, Hrep.
Qed.

Lemma setNode_chunks p c u : length c = 32%nat → Forall is_chunk u → Forall is_chunk (setNode p c u) ∧ setNode p c u ≠ [].
Proof.
  intros Hc Hu. unfold setNode. destruct ((length u =? 0)%nat || (length u <=? p)%nat) eqn:E.
  - split; [apply Forall_app; split; [done|by constructor]|by destruct u].
  - split; [by apply Forall_insert|]. intros Hnil. apply (f_equal length) in Hnil. rewrite length_insert in Hnil. cbn in Hnil.
    apply orb_false_iff in E as [E _]. apply Nat.eqb_neq in E. lia.
Qed.

Section insert.
Context (leaves leaves' : list bytes) (index : nat).
Hypothesis other_nodes : ∀ h k, k ≠ (index / 2 ^ h)%nat → nodeAt leaves' h k = nodeAt leaves h k.
Hypothesis new_chunks : Forall is_chunk leaves'.

Lemma LoopOk_step i bs l u :
  bs !! i = Some l → bs !! S i = Some u → LoopOk leaves leaves' index i bs →
  LoopOk leaves leaves' index (S i) (<[S i := setNode (index / 2 ^ S i) (nodeAt leaves' (S i) (index / 2 ^ S i)) u]> bs).
Proof.
  intros Hl Hu [Hbelow Habove Hch Hroom Hhere Hnext]. destruct (Hnext l u Hl Hu) as [Hp Hle].
  set (above := setNode _ _ _). pose proof (lookup_lt_Some _ _ _ Hu) as Hlt.
  destruct (setNode_spec (index / 2 ^ S i) (nodeAt leaves' (S i) (index / 2 ^ S i)) u Hp) as (Hlen & _ & _). fold above in Hlen.
  assert (∀ k x, <[S i := above]> bs !! k = Some x → (k = S i ∧ x = above) ∨ (k ≠ S i ∧ bs !! k = Some x)) as Hcase.
  { intros k x Hx. destruct (decide (k = S i)) as [->|Hk]; [left|right].
    - rewrite list_lookup_insert_eq in Hx by done. by injection Hx as <-.
    - by rewrite list_lookup_insert_ne in Hx. }
  constructor.
  - intros k x Hk [(-> & ->)|(Hne & Hx)]%Hcase.
    + apply (setNode_represents leaves); [apply other_nodes|done|]. by apply (Habove (S i) u); [lia|].
    + apply Hbelow; [lia|done].
  - intros k x Hk [(-> & ->)|(Hne & Hx)]%Hcase; [lia|]. apply Habove; [lia|done].
  - intros k x [(-> & ->)|(Hne & Hx)]%Hcase; [|by eapply Hch].
    apply and_comm, setNode_chunks; [by apply length_nodeAt|]. by apply (Hch (S i)).
  - intros k x y Hk [(-> & ->)|(Hne & Hx)]%Hcase Hy; [done|]. apply Hcase in Hy as [(Heq & ->)|(Hne' & Hy)].
    + assert (k = i) as -> by lia. rewrite Hl in Hx. injection Hx as <-. lia.
    + apply (Hroom k); [lia|done..].
  - intros x [(_ & ->)|(Hne & _)]%Hcase; [lia|done].
  - intros x w [(_ & ->)|(Hne & _)]%Hcase Hw; [|done]. apply Hcase in Hw as [(Heq & _)|(_ & Hw)]; [lia|].
    pose proof (Hroom (S i) u w ltac:(lia) Hu Hw) as Hr. rewrite (div_pow_S index (S i)). rewrite Hlen.
    set (p := (index / 2 ^ S i)%nat) in *. pose proof (Nat.div_mod p 2 ltac:(lia)). pose proof (Nat.mod_upper_bound p 2 ltac:(lia)). lia.
Qed.

Lemma insertLoop_spec n i bs :
  length bs = S (i + n) → LoopOk leaves leaves' index i bs →
  ∃ bs', insertLoop n i (index / 2 ^ i) (nodeAt leaves' i (index / 2 ^ i)) bs = Ret bs' ∧
    length bs' = length bs ∧ LoopOk leaves leaves' index (i + n) bs' ∧ (bs' !! 0%nat = bs !! 0%nat).
Proof.
  revert i bs. induction n as [|n IH]; intros i bs Hlen Hok; cbn [insertLoop].
  { exists bs. rewrite Nat.add_0_r. done. }
  destruct (lookup_lt_is_Some_2 bs i) as [l Hl]; [lia|]. destruct (lookup_lt_is_Some_2 bs (S i)) as [u Hu]; [lia|].
  rewrite Hl, Hu. assert (Represents leaves' i l) as Hrep by exact (lo_below _ _ _ _ _ Hok i l (le_n i) Hl).
  assert ((if (length l <=? Nat.lxor (index / 2 ^ i) 1)%nat then ZeroHash i else orZero i (l !! Nat.lxor (index / 2 ^ i) 1)) =
    nodeAt leaves' i (Nat.lxor (index / 2 ^ i) 1)) as ->.
  { rewrite <- Hrep. case_match eqn:E; [|done]. apply Nat.leb_le in E. by rewrite lookup_ge_None_2. }
  rewrite <- nodeAt_parent, <- div_pow_S. fold (setNode (index / 2 ^ S i) (nodeAt leaves' (S i) (index / 2 ^ S i)) u).
  pose proof (LoopOk_step i bs l u Hl Hu Hok) as Hok'.
  eapply (IH (S i)) in Hok' as (bs' & Hloop & Hlen' & Hok'' & H0); [|rewrite length_insert; lia].
  exists bs'. split; [exact Hloop|]. rewrite length_insert in Hlen'. split; [done|]. split.
  - by replace (i + S n)%nat with (S i + n)%nat by lia.
  - rewrite H0. by rewrite list_lookup_insert_ne.
Qed.
End insert.

Lemma setNode_other_nodes leaves n c h k : (n ≤ length leaves)%nat → k ≠ (n / 2 ^ h)%nat →
  nodeAt (setNode n c leaves) h k = nodeAt leaves h k.
Proof.
  intros Hn Hk. apply nodeAt_ext. intros j Hj. destruct (setNode_spec n c leaves Hn) as (_ & _ & Hne).
  rewrite Hne; [done|]. intros ->. apply Hk. apply (Nat.div_unique _ _ _ (n - k * 2 ^ h)); nia.
Qed.

Lemma setNode_leaf leaves n c : (n ≤ length leaves)%nat → nodeAt (setNode n c leaves) 0 n = c.
Proof. intros Hn. destruct (setNode_spec n c leaves Hn) as (_ & Hat & _). unfold nodeAt. by rewrite Hat. Qed.

Lemma map_setNode n item items :
  map ToBytes32 (setNode n (ToBytes32 item) items) = setNode n (ToBytes32 item) (map ToBytes32 items).
Proof.
  unfold setNode. rewrite length_map. pose proof (ToBytes32_chunk _ (length_ToBytes32 item)) as Ht. case_match.
  - rewrite map_app. cbn. by rewrite Ht.
  - rewrite <- Ht at 2. apply (list_fmap_insert ToBytes32).
Qed.

(** The base layer of an insertion at or before the end. *)
Lemma base_layer leaves l n (c : bytes) : (n ≤ length leaves ≤ length l)%nat → Represents leaves 0 l → Forall is_chunk l → length c = 32%nat →
  let l' := <[n := c]> (extendZero n l) in
  length l' = Nat.max (length l) (n + 1) ∧ Represents (setNode n c leaves) 0 l' ∧ Forall is_chunk l'.
Proof.
  intros Hn Hrep Hch Hc. cbv zeta. unfold extendZero. set (ext := l ++ replicate (S n - length l) (ZeroHash 0)).
  assert (length ext = Nat.max (length l) (n + 1)) as Hlen by (unfold ext; rewrite length_app, length_replicate; lia).
  split_and!; [by rewrite length_insert| |].
  - intros k. destruct (decide (k = n)) as [->|Hk].
    + rewrite list_lookup_insert_eq by lia. by rewrite setNode_leaf by lia.
    + rewrite list_lookup_insert_ne by done. rewrite setNode_other_nodes by (rewrite ?Nat.div_1_r; lia || cbn [Nat.pow]; rewrite ?Nat.div_1_r; lia).
      rewrite <- Hrep. unfold ext. destruct (decide (k < length l)%nat); [by rewrite lookup_app_l|].
      rewrite lookup_app_r, (lookup_ge_None_2 l) by lia.
      destruct (replicate (S n - length l) (ZeroHash 0) !! (k - length l)%nat) as [z|] eqn:E; [|done].
      by apply lookup_replicate in E as [-> _].
  - apply Forall_insert; [|done]. apply Forall_app. split; [done|]. apply Forall_replicate, length_ZeroHash. lia.
Qed.

Lemma Insert_ok leaves m item (n : nat) :
  TrieOk leaves m → (n ≤ length leaves)%nat →
  ∃ m', Insert m item (Z.of_nat n) = Ret m' ∧ TrieOk (setNode n (ToBytes32 item) leaves) m' ∧
    trieDepth m' = trieDepth m ∧ originalItems m' = setNode n (ToBytes32 item) (originalItems m).
Proof.
  intros [Hd Hlen Hitems Hlay Hroom Hleaves] Hn. unfold Insert. rewrite (proj2 (Z.ltb_ge _ _)), Nat2Z.id by lia.
  destruct (branches m) as [|l0 rest] eqn:Eb; [done|]. specialize (Hleaves l0 eq_refl).
  destruct (Hlay 0%nat l0 eq_refl) as (Hrep0 & Hne0 & Hch0). set (c := ToBytes32 item).
  assert (length c = 32%nat) as Hc by apply length_ToBytes32.
  destruct (base_layer leaves l0 n c) as (Hlen0 & Hrep0' & Hch0'); [lia|done..|]. set (l0' := <[n := c]> (extendZero n l0)) in *. clearbody l0'.
  assert (Forall is_chunk (setNode n c leaves)) as Hchn.
  { rewrite Hitems. unfold c. rewrite <- map_setNode. apply Forall_fmap, Forall_true. intros x. apply length_ToBytes32. }
  assert (LoopOk leaves (setNode n c leaves) n 0 (l0' :: rest)) as Hok.
  { constructor.
    - intros k l Hk Hl. assert (k = 0%nat) as -> by lia. by injection Hl as <-.
    - intros [|k] l Hk Hl; [lia|]. by apply (Hlay (S k)).
    - intros [|k] l Hl; [|by apply (Hlay (S k))]. injection Hl as <-. split; [|done]. intros Hnil. rewrite Hnil in Hlen0. cbn in Hlen0. lia.
    - intros [|k] l u Hk Hl Hu; [done|]. by apply (Hroom (S k) l u).
    - intros l Hl. injection Hl as <-. change (2 ^ 0)%nat with 1%nat. rewrite Nat.div_1_r. lia.
    - intros l u Hl Hu. injection Hl as <-. change (2 ^ 1)%nat with 2%nat. pose proof (Hroom 0%nat l0 u eq_refl Hu) as Hr.
      pose proof (Nat.div_mod n 2 ltac:(lia)). pose proof (Nat.mod_upper_bound n 2 ltac:(lia)). lia. }
  destruct (insertLoop_spec leaves (setNode n c leaves) n) with (n := Z.to_nat (trieDepth m)) (i := 0%nat) (bs := l0' :: rest)
    as (bs & Hloop & Hlbs & Hokn & H0).
  - intros h k Hk. by apply setNode_other_nodes.
  - done.
  - exact Hlen.
  - exact Hok.
  - change (2 ^ 0)%nat with 1%nat in Hloop. rewrite Nat.div_1_r, setNode_leaf in Hloop by done. rewrite Hloop. cbn [obind].
    eexists. split; [done|]. cbn. rewrite Nat.add_0_l in Hokn. destruct Hokn as [Hb Ha Hcs Hr _ _].
    assert ((if (length (originalItems m) <=? n)%nat then originalItems m ++ [c] else <[n:=c]> (originalItems m)) =
      setNode n c (originalItems m)) as Eitems.
    { unfold setNode. destruct (length (originalItems m)) eqn:El; [done|]. cbn [Nat.eqb orb]. done. }
    rewrite Eitems. split; [|done]. cbn in Hlbs, Hlen. constructor; cbn.
    + done.
    + lia.
    + rewrite Hitems. unfold c. symmetry. apply map_setNode.
    + intros h l Hl. pose proof (lookup_lt_Some _ _ _ Hl). split; [apply Hb; [lia|done]|by eapply Hcs].
    + intros h l u Hl Hu. pose proof (lookup_lt_Some _ _ _ Hu). apply (Hr h); [lia|done..].
    + intros l Hl. rewrite H0 in Hl. injection Hl as <-. destruct (setNode_spec n c leaves Hn) as (-> & _). lia.
Qed.
End trie.

(** * The sparse Merkle trie: roots and proofs

    For every trie that is built and then extended: root and proofs are those of the
    trie rebuilt from its items; the proofs verify; and a verified proof binds the item,
    in that two different items under one root exhibit a collision of the hash. *)

Section proofs.
Context `{Sha256}.

(** ** Branches of the reference *)

Definition branchOf (leaves : list bytes) (h k n : nat) : list bytes :=
  map (λ i, nodeAt leaves i (Nat.lxor (n / 2 ^ i) 1)) (seq h k).

Lemma land_1 (q : nat) : (Z.land (Z.of_nat q) 1 =? 1) = negb (q mod 2 =? 0)%nat.
Proof.
  change 1 with (Z.ones 1) at 1. rewrite Z.land_ones by lia. change (2 ^ 1) with (Z.of_nat 2).
  rewrite <- Nat2Z.inj_mod. pose proof (Nat.mod_upper_bound q 2 ltac:(lia)).
  destruct (q mod 2)%nat as [|[|]]; [done..|lia].
Qed.

Lemma verifyLoop_branch leaves h k n rest :
  verifyLoop (Z.of_nat (n / 2 ^ h)) (nodeAt leaves h (n / 2 ^ h)) (branchOf leaves h k n ++ rest) =
  verifyLoop (Z.of_nat (n / 2 ^ (h + k))) (nodeAt leaves (h + k) (n / 2 ^ (h + k))) rest.
Proof.
  revert h. induction k as [|k IH]; intros h; [by rewrite Nat.add_0_r|].
  unfold branchOf. cbn [seq map app verifyLoop]. fold (branchOf leaves (S h) k n).
  replace (h + S k)%nat with (S h + k)%nat by lia. rewrite <- IH. f_equal.
  - change 2 with (Z.of_nat 2). by rewrite <- Nat2Z.inj_div, div_pow_S.
  - rewrite div_pow_S, nodeAt_parent. unfold branchInput. rewrite land_1. by destruct (_ mod 2 =? 0)%nat.
Qed.

(** The whole branch with the count mixed in at the end. *)
Lemma verifyLoop_root leaves d n leaf count :
  (n < 2 ^ d)%nat → leaf = nodeAt leaves 0 n →
  verifyLoop (Z.of_nat n) leaf (branchOf leaves 0 d n ++ [encCount count]) = Hash (merkleRoot leaves d ++ encCount count).
Proof.
  intros Hn ->. pose proof (verifyLoop_branch leaves 0 d n [encCount count]) as Hv.
  change (2 ^ 0)%nat with 1%nat in Hv. rewrite Nat.div_1_r in Hv. rewrite Hv. rewrite Nat.add_0_l, Nat.div_small by done. done.
Qed.

(** ** Roots and proofs of a trie *)

Lemma HashTreeRoot_ok leaves m : TrieOk leaves m →
  HashTreeRoot m = Ret (Hash (merkleRoot leaves (Z.to_nat (trieDepth m)) ++
    encCount (if bool_decide (originalItems m = [ZeroHash 0]) then 0 else Z.of_nat (length (originalItems m))))).
Proof.
  intros [Hd Hlen Hitems Hlay _ _]. unfold HashTreeRoot. rewrite last_lookup, Hlen. cbn [pred].
  destruct (lookup_lt_is_Some_2 (branches m) (Z.to_nat (trieDepth m))) as [l Hl]; [lia|].
  destruct (Hlay _ _ Hl) as (Hrep & Hne & _). rewrite Hl. destruct l as [|r l]; [done|].
  by rewrite (Represents_root _ _ _ r Hrep eq_refl).
Qed.

Lemma proofLoop_ok leaves m n k i : TrieOk leaves m → (i + k < length (branches m))%nat →
  proofLoop k i n (branches m) = Ret (branchOf leaves i k n).
Proof.
  intros Hok. revert i. induction k as [|k IH]; intros i Hi; [done|]. cbn [proofLoop].
  destruct (lookup_lt_is_Some_2 (branches m) i) as [l Hl]; [lia|]. rewrite Hl, IH by lia. cbn [obind].
  unfold branchOf. cbn [seq map]. do 2 f_equal. destruct (ok_layer _ _ Hok _ _ Hl) as (Hrep & _ & Hch).
  rewrite <- Hrep. destruct (l !! Nat.lxor (n / 2 ^ i) 1) as [c|] eqn:Ec; [|done].
  apply ToBytes32_chunk. exact (Forall_lookup_1 _ _ _ _ Hch Ec).
Qed.

Lemma MerkleProof_ok leaves m (n : nat) : TrieOk leaves m → (n < length leaves)%nat →
  MerkleProof m (Z.of_nat n) =
    Ret (branchOf leaves 0 (Z.to_nat (trieDepth m)) n ++ [encCount (Z.of_nat (length (originalItems m)))]).
Proof.
  intros Hok Hn. unfold MerkleProof. rewrite (proj2 (Z.ltb_ge _ _)) by lia. pose proof (ok_length _ _ Hok) as Hlen.
  destruct (branches m) as [|l0 rest] eqn:Eb; [done|]. pose proof (ok_leaves _ _ Hok l0) as Hl. rewrite Eb in Hl. specialize (Hl eq_refl).
  rewrite (proj2 (Z.leb_gt _ _)) by lia. rewrite <- Eb, Nat2Z.id, (proofLoop_ok leaves) by (done || rewrite Eb, Hlen; lia). done.
Qed.

(** ** Tries in use: built from items, then written to at most one past the end *)

Inductive TrieReach (depth : Z) : list bytes → SparseMerkleTrie → Prop :=
| reach_generate items m : GenerateTrieFromItems items depth = Ret m → TrieReach depth items m
| reach_insert items m item (n : nat) m' :
    TrieReach depth items m → (n ≤ length items)%nat → Insert m item (Z.of_nat n) = Ret m' →
    TrieReach depth (setNode n (ToBytes32 item) items) m'.

Lemma TrieReach_ok depth items m : 0 ≤ depth → TrieReach depth items m →
  TrieOk (map ToBytes32 items) m ∧ trieDepth m = depth ∧ originalItems m = items ∧ items ≠ [] ∧ depth < 63.
Proof.
  intros Hd Hr. induction Hr as [items m Hg|items m item n m' _ (Hok & Hdep & Hit & Hne & H63) Hn Hins].
  - destruct (GenerateTrie_ok items depth m Hd Hg) as (Hok & Hdep & Hit). split_and!; [done..| |].
    + intros ->. done.
    + destruct (ok_depth _ _ Hok). lia.
  - destruct (Insert_ok (map ToBytes32 items) m item n Hok) as (m'' & Hins' & Hok' & Hdep' & Hit'); [by rewrite length_map|].
    rewrite Hins in Hins'. injection Hins' as <-. rewrite map_setNode. split_and!; [done|congruence| | |done].
    + by rewrite Hit', Hit.
    + intros Hnil. apply (f_equal length) in Hnil. destruct (setNode_spec n (ToBytes32 item) items Hn) as (Hl & _).
      rewrite Hl in Hnil. cbn in Hnil. lia.
Qed.

Lemma Insert_progress depth items m item (n : nat) : 0 ≤ depth → TrieReach depth items m → (n ≤ length items)%nat →
  ∃ m', Insert m item (Z.of_nat n) = Ret m'.
Proof.
  intros Hd Hr Hn. destruct (TrieReach_ok _ _ _ Hd Hr) as (Hok & _).
  destruct (Insert_ok _ _ item n Hok) as (m' & Hm' & _); [by rewrite length_map|]. by exists m'.
Qed.
End proofs.

(** Incremental updates: writing an item at or before the end of a trie succeeds, and
    after any such writes the root and all proofs are those of the trie built anew from
    the items. *)
Theorem insert_matches_rebuild `{Sha256} (depth : Z) (items : list bytes) (m : SparseMerkleTrie) :
  0 ≤ depth → TrieReach depth items m →
  (∀ item (n : nat), (n ≤ length items)%nat → ∃ m', Insert m item (Z.of_nat n) = Ret m') ∧
  ∃ m0, GenerateTrieFromItems items depth = Ret m0 ∧ HashTreeRoot m = HashTreeRoot m0 ∧ Items m = items ∧
    ∀ n : nat, (n < length items)%nat → MerkleProof m (Z.of_nat n) = MerkleProof m0 (Z.of_nat n).
Proof.
  intros Hd Hr. destruct (TrieReach_ok _ _ _ Hd Hr) as (Hok & Hdep & Hit & Hne & H63).
  split; [intros item n Hn; by eapply Insert_progress|].
  destruct (GenerateTrieFromItems items depth) as [m0| | |] eqn:Eg.
  - destruct (GenerateTrie_ok items depth m0 Hd Eg) as (Hok0 & Hdep0 & Hit0). exists m0. split; [done|]. split; [|split; [done|]].
    + rewrite (HashTreeRoot_ok _ m Hok), (HashTreeRoot_ok _ m0 Hok0). by rewrite Hdep, Hdep0, Hit, Hit0.
    + intros n Hn. rewrite (MerkleProof_ok _ m n Hok), (MerkleProof_ok _ m0 n Hok0) by (by rewrite length_map).
      by rewrite Hdep, Hdep0, Hit, Hit0.
  - exfalso. revert Eg. unfold GenerateTrieFromItems. destruct items; [done|]. cbn [length Nat.eqb]. by rewrite (proj2 (Z.leb_gt _ _)).
  - exfalso. revert Eg. unfold GenerateTrieFromItems. repeat case_match; done.
  - exfalso. revert Eg. unfold GenerateTrieFromItems. repeat case_match; done.
Qed.

(** Proofs verify: for every item of a trie in use (other than the single zero item
    that stands for the empty trie) the proof exists and verifies against the root with
    the item, its index and the trie's depth. *)
Theorem merkle_proofs_verify `{Sha256} (depth : Z) (items : list bytes) (m : SparseMerkleTrie) (n : nat) (item : bytes) :
  0 ≤ depth → TrieReach depth items m → items ≠ [zeroBytes 32] → items !! n = Some item → Z.of_nat n < 2 ^ depth →
  ∃ root proof, HashTreeRoot m = Ret root ∧ MerkleProof m (Z.of_nat n) = Ret proof ∧
    VerifyMerkleProofWithDepth root item (Z.of_nat n) proof depth = Ret true ∧
    VerifyMerkleProof root item (Z.of_nat n) proof = Ret true.
Proof.
  intros Hd Hr Hne Hit Hn. destruct (TrieReach_ok _ _ _ Hd Hr) as (Hok & Hdep & Hoi & _ & H63).
  pose proof (lookup_lt_Some _ _ _ Hit) as Hlt. rewrite (HashTreeRoot_ok _ _ Hok), (MerkleProof_ok _ _ n Hok) by (by rewrite length_map).
  rewrite Hdep, Hoi, bool_decide_false by (by rewrite ZeroHash_0). eexists _, _. split; [done|]. split; [done|].
  set (proof := branchOf _ _ _ _ ++ _).
  assert (Z.of_nat (length proof) = depth + 1) as Hlen.
  { unfold proof, branchOf. rewrite length_app, length_map, length_seq. cbn. lia. }
  assert (VerifyMerkleProofWithDepth (Hash (merkleRoot (map ToBytes32 items) (Z.to_nat depth) ++ encCount (Z.of_nat (length items))))
    item (Z.of_nat n) proof depth = Ret true) as Hv.
  { unfold VerifyMerkleProofWithDepth. cbv beta. rewrite wrap64_small by (unfold is_u64, two64; lia). rewrite Hlen, Z.eqb_refl. cbn [negb].
    assert (verifyLoop (Z.of_nat n) (ToBytes32 item) proof = Hash (merkleRoot (map ToBytes32 items) (Z.to_nat depth) ++ encCount (Z.of_nat (length items)))) as Hloop.
    { apply verifyLoop_root.
      - apply Nat2Z.inj_lt. rewrite Nat2Z.inj_pow, Z2Nat.id by done. done.
      - unfold nodeAt. by rewrite list_lookup_fmap, Hit. }
    rewrite Hloop. destruct proof; [cbn in Hlen; lia|]. by rewrite bool_decide_true. }
  split; [done|]. unfold VerifyMerkleProof. destruct proof as [|p proof'] eqn:Ep; [cbn in Hlen; lia|]. rewrite <- Ep in *.
  cbv beta. rewrite Hlen. replace (depth + 1 - 1) with depth by lia. rewrite wrap64_small by (unfold is_u64, two64; lia). done.
Qed.

(** ** Binding *)

(** Follow two branches with the same index upwards until two different inputs have the
    same digest. *)
Fixpoint findCollision `{Sha256} (merkleIndex : Z) (node node' : bytes) (proof proof' : list bytes) : option (bytes * bytes) :=
  match proof, proof' with
  | p :: proof, p' :: proof' =>
      let x := branchInput merkleIndex node p in
      let y := branchInput merkleIndex node' p' in
      if bool_decide (Hash x = Hash y) then Some (x, y)
      else findCollision (merkleIndex / 2) (Hash x) (Hash y) proof proof'
  | _, _ => None
  end.

Lemma branchInput_inj merkleIndex node node' p p' : length node = 32%nat → length node' = 32%nat →
  branchInput merkleIndex node p = branchInput merkleIndex node' p' → node = node'.
Proof.
  intros Hn Hn'. unfold branchInput. case_match; intros Heq.
  - apply (f_equal reverse) in Heq. rewrite !reverse_app in Heq. apply app_inj_1 in Heq as [Heq _].
    + by apply (inj reverse) in Heq.
    + by rewrite !length_reverse, Hn.
  - apply app_inj_1 in Heq as [-> _]; [done|]. by rewrite Hn.
Qed.

Lemma verifyLoop_binding `{Sha256} merkleIndex node node' proof proof' :
  length node = 32%nat → length node' = 32%nat → length proof = length proof' → node ≠ node' →
  verifyLoop merkleIndex node proof = verifyLoop merkleIndex node' proof' →
  ∃ x y, findCollision merkleIndex node node' proof proof' = Some (x, y) ∧ x ≠ y ∧ Hash x = Hash y.
Proof.
  revert merkleIndex node node' proof'. induction proof as [|p proof IH]; intros idx node node' [|p' proof'] Hn Hn' Hl Hne Heq; try done.
  cbn [verifyLoop findCollision] in *. case_bool_decide as Hh.
  - eexists _, _. split; [done|]. split; [|done]. intros Hin. by apply branchInput_inj in Hin.
  - apply IH; [apply length_Hash..|by injection Hl|done|done].
Qed.

(** Proofs bind: two proofs that verify under one root, one index and one depth are
    for the same 32-byte leaf, or [findCollision] computes from them two different byte
    strings with the same digest. *)
Theorem merkle_proofs_bind `{Sha256} (root item item' : bytes) (merkleIndex depth : Z) (proof proof' : list bytes) :
  VerifyMerkleProofWithDepth root item merkleIndex proof depth = Ret true →
  VerifyMerkleProofWithDepth root item' merkleIndex proof' depth = Ret true →
  ToBytes32 item = ToBytes32 item' ∨
  ∃ x y, findCollision merkleIndex (ToBytes32 item) (ToBytes32 item') proof proof' = Some (x, y) ∧ x ≠ y ∧ Hash x = Hash y.
Proof.
  assert (∀ i pr, VerifyMerkleProofWithDepth root i merkleIndex pr depth = Ret true →
    Z.of_nat (length pr) = depth +w 1 ∧ root = verifyLoop merkleIndex (ToBytes32 i) pr) as Hinv.
  { intros i pr. unfold VerifyMerkleProofWithDepth. case_match eqn:E; [done|]. apply negb_false_iff, Z.eqb_eq in E.
    destruct pr; [done|]. intros [= Hb%bool_decide_eq_true]. done. }
  intros [Hl1 ->]%Hinv [Hl2 Heq]%Hinv. destruct (decide (ToBytes32 item = ToBytes32 item')) as [|Hne]; [by left|right].
  apply verifyLoop_binding; [apply length_ToBytes32..| |done|done]. apply Nat2Z.inj. congruence.
Qed.

(** ** Storage *)

Lemma trie_proto_roundtrip `{Sha256} depth items m : 0 ≤ depth → TrieReach depth items m → CreateTrieFromProto (ToProto m) = Ret m.
Proof.
  intros Hd Hr. destruct (TrieReach_ok _ _ _ Hd Hr) as ([Hdep Hlen _ Hlay _ _] & _).
  unfold CreateTrieFromProto, ToProto. cbn. destruct m as [d bs its]. cbn in *. unfold validate. cbn. rewrite last_lookup, Hlen. cbn [pred].
  destruct (lookup_lt_is_Some_2 bs (Z.to_nat d)) as [l Hl]; [lia|]. rewrite Hl. destruct (Hlay _ _ Hl) as (_ & Hne & _).
  destruct l as [|c l]; [done|]. cbn [length Nat.eqb]. rewrite !(proj2 (Z.leb_gt _ _)) by lia. done.
Qed.

(** ** Concrete tries *)

Definition demoItem (b : Z) : bytes := replicate 32 b.
Definition demoTrie : SparseMerkleTrie := mkTrie 3 (@generateLayers fips180 3 0 [demoItem 1; demoItem 2]) [demoItem 1; demoItem 2].

Lemma demo_reach : @TrieReach fips180 3 [demoItem 1; demoItem 2] demoTrie.
Proof. apply reach_generate. reflexivity. Qed.

Lemma insert_matches_rebuild_witness :
  ∃ m0, @GenerateTrieFromItems fips180 [demoItem 1; demoItem 2] 3 = Ret m0 ∧
    @HashTreeRoot fips180 demoTrie = @HashTreeRoot fips180 m0 ∧ Items demoTrie = [demoItem 1; demoItem 2] ∧
    ∀ n : nat, (n < 2)%nat → MerkleProof demoTrie (Z.of_nat n) = MerkleProof m0 (Z.of_nat n).
Proof. refine (proj2 (@insert_matches_rebuild fips180 3 [demoItem 1; demoItem 2] demoTrie _ demo_reach)). lia. Defined.

Lemma merkle_proofs_verify_witness :
  ∃ root proof, @HashTreeRoot fips180 demoTrie = Ret root ∧ MerkleProof demoTrie 1 = Ret proof ∧
    @VerifyMerkleProofWithDepth fips180 root (demoItem 2) 1 proof 3 = Ret true ∧
    @VerifyMerkleProof fips180 root (demoItem 2) 1 proof = Ret true.
Proof.
  refine (@merkle_proofs_verify fips180 3 [demoItem 1; demoItem 2] demoTrie 1 (demoItem 2) _ demo_reach _ _ _).
  - lia.
  - discriminate.
  - reflexivity.
  - reflexivity.
Defined.

(** A branch of depth 0: the count alone. *)
Lemma merkle_proofs_bind_witness :
  ToBytes32 (demoItem 1) = ToBytes32 (demoItem 1) ∨
  ∃ x y, @findCollision fips180 0 (ToBytes32 (demoItem 1)) (ToBytes32 (demoItem 1)) [encCount 1] [encCount 1] = Some (x, y) ∧
    x ≠ y ∧ @Hash fips180 x = @Hash fips180 y.
Proof.
  refine (@merkle_proofs_bind fips180 (@Hash fips180 (demoItem 1 ++ encCount 1)) (demoItem 1) (demoItem 1) 0 0 [encCount 1] [encCount 1] _ _);
    (unfold VerifyMerkleProofWithDepth; cbn [negb length]; rewrite bool_decide_true; reflexivity).
Defined.

(** Writing beyond the end puts the new parent next to the last one instead of at its
    own place: the layers no longer are those of any list of leaves. *)
Example insert_beyond_end_misplaces :
  match @Insert fips180 demoTrie (demoItem 3) 7 with
  | Ret m => bool_decide (head <$> last (branches m) =
               Some (Some (@merkleRoot fips180 ([demoItem 1; demoItem 2] ++ replicate 5 (zeroBytes 32) ++ [demoItem 3]) 3)))
  | _ => true
  end = false.
Proof. vm_compute. reflexivity. Qed.

(** The proof of the empty trie mixes in the count 1, its root the count 0. *)
Example empty_trie_proof_fails :
  match @NewTrie fips180 2 with
  | Ret m => match @HashTreeRoot fips180 m, MerkleProof m 0 with
             | Ret root, Ret proof => @VerifyMerkleProofWithDepth fips180 root (zeroBytes 32) 0 proof 2
             | _, _ => Ret true
             end
  | _ => Ret true
  end = Ret false.
Proof. vm_compute. reflexivity. Qed.
