(* ===== verification/DepositTree.v ===== *)
(** * The deposit tree of EIP-4881

    Models [beacon-chain/cache/depositsnapshot/merkle_tree.go], [deposit_tree.go] and
    [deposit_tree_snapshot.go]: a Merkle tree of deposits that forgets what is below its
    finalized nodes, and the snapshots it is stored and restored from.  The interface
    [MerkleTreeNode] and its four implementations are an inductive type.  The methods of
    an inner node change it in place and mostly return it: [Finalize] and [PushLeaf]
    return the object as the call leaves it, the returned node and the error. *)

From S2P Require Import Prelude MathHelper Bytes Sha256 Merkle SparseTrie.

Definition DepositContractDepth : Z := 32.

Definition ErrFinalizedNodeCannotPushLeaf : error := "can't push a leaf to a finalized node".
Definition ErrLeafNodeCannotPushLeaf : error := "can't push a leaf to a leaf node".
Definition ErrZeroLevel : error := "level should be greater than 0".
Definition ErrZeroDepth : error := "depth should be greater than 0".
Definition ErrInvalidSnapshotRoot : error := "snapshot root is invalid".
Definition ErrInvalidDepositCount : error := "deposit count should be greater than 0".
Definition ErrInvalidIndex : error := "index should be greater than finalizedDeposits - 1".
Definition ErrTooManyDeposits : error := "number of deposits should not be greater than the capacity of the tree".
Definition errHashTreeRoot : error := "could not retrieve hash tree root".
Definition nilPanic : string := "nil pointer dereference".

Inductive MerkleTreeNode :=
| FinalizedNode (depositCount : Z) (hash : bytes)
| LeafNode (hash : bytes)
| InnerNode (leftN rightN : MerkleTreeNode)
| ZeroNode (depth : Z).

(** [math.PowerOf2] below 64. *)
Definition powerOf2 (n : Z) : Z := wrap64 (Z.shiftl 1 n).

(** ** Nodes *)
Section nodes.
Context `{Sha256}.

Fixpoint create (leaves : list bytes) (depth : nat) : MerkleTreeNode :=
  match leaves with
  | [] => ZeroNode (Z.of_nat depth)
  | leaf :: _ =>
      match depth with
      | O => LeafNode leaf
      | S depth =>
          let split := Z.to_nat (Min (powerOf2 (Z.of_nat depth)) (Z.of_nat (length leaves))) in
          InnerNode (create (take split leaves) depth) (create (drop split leaves) depth)
      end
  end.

Fixpoint fromSnapshotParts (finalized : list bytes) (deposits : Z) (level : nat) : outcome MerkleTreeNode :=
  match finalized with
  | [] => Ret (ZeroNode (Z.of_nat level))
  | first :: rest =>
      if deposits =? 0 then Ret (ZeroNode (Z.of_nat level))
      else if deposits =? powerOf2 (Z.of_nat level) then Ret (FinalizedNode deposits first)
      else
        match level with
        | O => Err ErrZeroLevel
        | S level =>
            let leftSubtree := powerOf2 (Z.of_nat level) in
            if deposits <=? leftSubtree then
              leftN <-? fromSnapshotParts finalized deposits level;;
              Ret (InnerNode leftN (ZeroNode (Z.of_nat level)))
            else
              rightN <-? fromSnapshotParts rest (deposits -w leftSubtree) level;;
              Ret (InnerNode (FinalizedNode leftSubtree first) rightN)
        end
  end.

Fixpoint GetRoot (node : MerkleTreeNode) : bytes :=
  match node with
  | FinalizedNode _ hash => hash
  | LeafNode hash => hash
  | InnerNode leftN rightN => Hash (GetRoot leftN ++ GetRoot rightN)
  | ZeroNode depth =>
      if depth =? DepositContractDepth then Hash (ZeroHash 31 ++ ZeroHash 31) else ZeroHash (Z.to_nat depth)
  end.

Fixpoint IsFull (node : MerkleTreeNode) : bool :=
  match node with
  | FinalizedNode _ _ => true
  | LeafNode _ => true
  | InnerNode _ rightN => IsFull rightN
  | ZeroNode _ => false
  end.

(** The object after the call, the returned node and the error. *)
Fixpoint Finalize (node : MerkleTreeNode) (depositsToFinalize depth : Z) : MerkleTreeNode * MerkleTreeNode * option error :=
  match node with
  | FinalizedNode _ _ => (node, node, None)
  | LeafNode hash => (node, FinalizedNode 1 hash, None)
  | ZeroNode _ => (node, ZeroNode 0, None)
  | InnerNode leftN rightN =>
      let deposits := powerOf2 depth in
      if deposits <=? depositsToFinalize then (node, FinalizedNode deposits (GetRoot node), None)
      else if depth =? 0 then (node, ZeroNode 0, Some ErrZeroDepth)
      else
        match Finalize leftN depositsToFinalize (depth -w 1) with
        | (_, leftN, Some err) => (InnerNode leftN rightN, ZeroNode 0, Some err)
        | (_, leftN, None) =>
            if deposits / 2 <? depositsToFinalize then
              match Finalize rightN (depositsToFinalize -w deposits / 2) (depth -w 1) with
              | (_, rightN, Some err) => (InnerNode leftN rightN, ZeroNode 0, Some err)
              | (_, rightN, None) => let n := InnerNode leftN rightN in (n, n, None)
              end
            else let n := InnerNode leftN rightN in (n, n, None)
        end
  end.

Fixpoint GetFinalized (node : MerkleTreeNode) (result : list bytes) : Z * list bytes :=
  match node with
  | FinalizedNode depositCount hash => (depositCount, result ++ [hash])
  | LeafNode _ => (0, result)
  | ZeroNode _ => (0, result)
  | InnerNode leftN rightN =>
      let '(leftDeposits, result) := GetFinalized leftN result in
      let '(rightDeposits, result) := GetFinalized rightN result in
      (leftDeposits +w rightDeposits, result)
  end.

(** The object after the call, the returned node ([None] for nil) and the error. *)
Fixpoint PushLeaf (node : MerkleTreeNode) (leaf : bytes) (depth : Z) : MerkleTreeNode * option MerkleTreeNode * option error :=
  match node with
  | FinalizedNode _ _ => (node, None, Some ErrFinalizedNodeCannotPushLeaf)
  | LeafNode _ => (node, None, Some ErrLeafNodeCannotPushLeaf)
  | ZeroNode _ => (node, Some (create [leaf] (Z.to_nat depth)), None)
  | InnerNode leftN rightN =>
      if negb (IsFull leftN) then
        match PushLeaf leftN leaf (depth -w 1) with
        | (_, Some leftN, None) => let n := InnerNode leftN rightN in (n, Some n, None)
        | (leftN, _, err) => let n := InnerNode leftN rightN in (n, Some n, err)
        end
      else
        match PushLeaf rightN leaf (depth -w 1) with
        | (_, Some rightN, None) => let n := InnerNode leftN rightN in (n, Some n, None)
        | (rightN, _, err) => let n := InnerNode leftN rightN in (n, Some n, err)
        end
  end.

Definition Left (node : MerkleTreeNode) : option MerkleTreeNode :=
  match node with InnerNode leftN _ => Some leftN | _ => None end.
Definition Right (node : MerkleTreeNode) : option MerkleTreeNode :=
  match node with InnerNode _ rightN => Some rightN | _ => None end.

(** The loop of [generateProof]: the proof from the root down. *)
Fixpoint descend (depth : nat) (node : MerkleTreeNode) (index : Z) : outcome (bytes * list bytes) :=
  match depth with
  | O => Ret (GetRoot node, [])
  | S depth =>
      match Left node, Right node with
      | Some leftN, Some rightN =>
          if Z.land (Z.shiftr index (Z.of_nat depth)) 1 =? 1 then
            rest <-? descend depth rightN index;; Ret (rest.1, GetRoot leftN :: rest.2)
          else
            rest <-? descend depth leftN index;; Ret (rest.1, GetRoot rightN :: rest.2)
      | _, _ => Panic nilPanic
      end
  end.
Definition generateProof (tree : MerkleTreeNode) (index : Z) (depth : nat) : outcome (bytes * list bytes) :=
  res <-? descend depth tree index;; Ret (res.1, reverse res.2).

(** ** Snapshots *)

Record executionBlock := mkExecutionBlock { ExecHash : bytes; ExecDepth : Z }.
Record DepositTreeSnapshot := mkSnapshot {
  finalized : list bytes;
  depositRoot : bytes;
  snapshotCount : Z;
  snapshotBlock : executionBlock
}.

(** [index] entries of [finalized] are left, from the end. *)
Fixpoint rootLoop (n i : nat) (size : Z) (fin : list bytes) (root : bytes) : bytes :=
  match n with
  | O => root
  | S n =>
      if Z.land size 1 =? 1 then
        match fin with
        | [] => root
        | c :: fin => rootLoop n (S i) (Z.shiftr size 1) fin (Hash (c ++ root))
        end
      else rootLoop n (S i) (Z.shiftr size 1) fin (Hash (root ++ ZeroHash i))
  end.

Definition CalculateRoot (ds : DepositTreeSnapshot) : outcome bytes :=
  let root := rootLoop 32 0 (snapshotCount ds) (reverse (finalized ds)) (ZeroHash 0) in
  Ret (Hash (root ++ Uint64ToBytesLittleEndian32 (snapshotCount ds))).

Definition fromTreeParts (finalised : list bytes) (depositCount : Z) (block : executionBlock) : outcome DepositTreeSnapshot :=
  let snapshot := mkSnapshot finalised (ZeroHash 0) depositCount block in
  match CalculateRoot snapshot with
  | Ret root => Ret (mkSnapshot finalised root depositCount block)
  | Err _ => Err ErrInvalidSnapshotRoot
  | Panic s => Panic s
  | OutOfFuel => OutOfFuel
  end.

(** ** The tree *)

Record DepositTree := mkDepositTree {
  tree : option MerkleTreeNode;
  depositCount : Z;
  finalizedExecutionBlock : executionBlock
}.

Definition emptyBlock : executionBlock := mkExecutionBlock (zeroBytes 32) 0.
Definition NewDepositTree : DepositTree := mkDepositTree (Some (create [] 32)) 0 emptyBlock.

Definition withTree {A} (d : DepositTree) (k : MerkleTreeNode → outcome A) : outcome A :=
  match tree d with Some t => k t | None => Panic nilPanic end.

Definition GetSnapshot (d : DepositTree) : outcome DepositTreeSnapshot :=
  withTree d (λ t, let '(count, fin) := GetFinalized t [] in fromTreeParts fin count (finalizedExecutionBlock d)).

Definition fromSnapshot (snapshot : DepositTreeSnapshot) : outcome DepositTree :=
  root <-? CalculateRoot snapshot;;
  if negb (bool_decide (depositRoot snapshot = root)) then Err ErrInvalidSnapshotRoot
  else if powerOf2 DepositContractDepth <=? snapshotCount snapshot then Err ErrTooManyDeposits
  else
    t <-? fromSnapshotParts (finalized snapshot) (snapshotCount snapshot) 32;;
    Ret (mkDepositTree (Some t) (snapshotCount snapshot) (snapshotBlock snapshot)).

(** The result of [d.tree.Finalize] is dropped: an inner root changes in place. *)
Definition TreeFinalize (d : DepositTree) (eth1DepositIndex : Z) (executionHash : bytes) (executionNumber : Z)
    : outcome (DepositTree * option error) :=
  let block := mkExecutionBlock (copyBytes (zeroBytes 32) executionHash) executionNumber in
  withTree d (λ t,
    let '(t, _, err) := Finalize t (wrap64 (wrapI64 (eth1DepositIndex + 1))) DepositContractDepth in
    Ret (mkDepositTree (Some t) (depositCount d) block, err)).

Definition getProof (d : DepositTree) (index : Z) : outcome (bytes * list bytes) :=
  if depositCount d <=? 0 then Err ErrInvalidDepositCount
  else if depositCount d <=? index then Err ErrInvalidIndex
  else withTree d (λ t,
    let '(finalizedDeposits, _) := GetFinalized t [] in
    finalizedIdx <-? (if negb (finalizedDeposits =? 0) then fd <-? IntOf finalizedDeposits;; Ret (fd - 1) else Ret (-1));;
    i <-? IntOf index;;
    if (0 <? finalizedDeposits) && (i <=? finalizedIdx) then Err ErrInvalidIndex
    else
      res <-? generateProof t index 32;;
      Ret (res.1, res.2 ++ [copyBytes (zeroBytes 32) (Uint64ToBytesLittleEndian32 (depositCount d))])).

Definition getRoot (d : DepositTree) : outcome bytes :=
  withTree d (λ t, Ret (Hash (GetRoot t ++ encCount (depositCount d)))).

(** [d.tree] is assigned also when there is an error. *)
Definition pushLeaf (d : DepositTree) (leaf : bytes) : outcome (DepositTree * option error) :=
  withTree d (λ t,
    match PushLeaf t leaf DepositContractDepth with
    | (_, t, Some err) => Ret (mkDepositTree t (depositCount d) (finalizedExecutionBlock d), Some err)
    | (_, t, None) => Ret (mkDepositTree t (depositCount d +w 1) (finalizedExecutionBlock d), None)
    end).

Definition TreeInsert (d : DepositTree) (item : bytes) : outcome (DepositTree * option error) :=
  if (length item <? 32)%nat then Panic "slice bounds out of range"
  else pushLeaf d (take 32 item).

Definition TreeHashTreeRoot (d : DepositTree) : outcome bytes :=
  root <-? getRoot d;;
  if bool_decide (root = zeroBytes 32) then Err errHashTreeRoot else Ret root.

Definition TreeNumOfItems (d : DepositTree) : Z := wrapI64 (depositCount d).

Definition TreeMerkleProof (d : DepositTree) (index : Z) : outcome (list bytes) :=
  res <-? getProof d (wrap64 index);; Ret res.2.

Definition TreeCopy (d : DepositTree) : outcome DepositTree :=
  snapshot <-? GetSnapshot d;; fromSnapshot snapshot.

(** ** Protobuf *)

Record DepositSnapshotProto := mkSnapshotProto {
  PFinalized : list bytes;
  PDepositRoot : bytes;
  PDepositCount : Z;
  PExecutionHash : bytes;
  PExecutionDepth : Z
}.

Definition SnapshotToProto (ds : DepositTreeSnapshot) : DepositSnapshotProto :=
  mkSnapshotProto (finalized ds) (depositRoot ds) (snapshotCount ds) (ExecHash (snapshotBlock ds)) (ExecDepth (snapshotBlock ds)).

Definition TreeToProto (d : DepositTree) : outcome DepositSnapshotProto :=
  snapshot <-? GetSnapshot d;; Ret (SnapshotToProto snapshot).

Definition DepositTreeFromSnapshotProto (p : DepositSnapshotProto) : outcome DepositTree :=
  fromSnapshot (mkSnapshot (map ToBytes32 (PFinalized p)) (ToBytes32 (PDepositRoot p)) (PDepositCount p)
    (mkExecutionBlock (ToBytes32 (PExecutionHash p)) (PExecutionDepth p))).
End nodes.
