(* ===== verification/DepositSnapshots.v ===== *)
(** * The deposit tree: correctness of its nodes

    [Rep node h leaves f]: the node stands for the tree of height [h] over the leaves,
    of which the first [f] are finalized.  Every method is characterised on it. *)

From S2P Require Import Prelude MathHelper Bytes Sha256 Merkle SparseTrie SparseTrieProofs DepositTree.

Section rep.
Context `{Sha256}.

Fixpoint Rep (node : MerkleTreeNode) (h : nat) (leaves : list bytes) (f : nat) : Prop :=
  match node with
  | ZeroNode d => leaves = [] ∧ d = Z.of_nat h ∧ f = 0%nat
  | LeafNode c => h = 0%nat ∧ leaves = [c] ∧ f = 0%nat
  | FinalizedNode k c => length leaves = (2 ^ h)%nat ∧ k = 2 ^ Z.of_nat h ∧ c = merkleRoot leaves h ∧ f = (2 ^ h)%nat
  | InnerNode l r =>
      match h with
      | O => False
      | S h' => leaves ≠ [] ∧ (length leaves ≤ 2 ^ h)%nat ∧ (f ≤ length leaves)%nat ∧ (f < 2 ^ h)%nat ∧
          Rep l h' (take (2 ^ h') leaves) (Nat.min f (2 ^ h')) ∧ Rep r h' (drop (2 ^ h') leaves) (f - 2 ^ h')
      end
  end.

Lemma pow2_pos h : (0 < 2 ^ h)%nat.
Proof. apply Nat.neq_0_lt_0, Nat.pow_nonzero. lia. Qed.

Lemma of_nat_pow2 h : Z.of_nat (2 ^ h) = 2 ^ Z.of_nat h.
Proof. by rewrite Nat2Z.inj_pow. Qed.

Lemma powerOf2_nat h : (h < 64)%nat → powerOf2 (Z.of_nat h) = Z.of_nat (2 ^ h).
Proof.
  intros Hh. unfold powerOf2. rewrite Z.shiftl_1_l, of_nat_pow2. apply wrap64_small.
  split; [apply Z.pow_nonneg; lia|]. change two64 with (2 ^ 64). apply Z.pow_lt_mono_r; lia.
Qed.

Lemma pow2_u64 h : (h < 64)%nat → Z.of_nat (2 ^ h) < two64.
Proof. intros Hh. rewrite of_nat_pow2. change two64 with (2 ^ 64). apply Z.pow_lt_mono_r; lia. Qed.

Lemma Rep_bounds node h leaves f : Rep node h leaves f → (f ≤ length leaves ≤ 2 ^ h)%nat.
Proof.
  pose proof (pow2_pos h). destruct node as [k c|c|l r|d]; cbn [Rep].
  - intros (-> & _ & _ & ->). lia.
  - intros (-> & -> & ->). cbn. lia.
  - destruct h; [done|]. lia.
  - intros (-> & _ & ->). cbn. lia.
Qed.

(** ** Roots and fullness *)

Lemma Rep_root node h leaves f : (h ≤ 32)%nat → Rep node h leaves f → GetRoot node = merkleRoot leaves h.
Proof.
  revert h leaves f. induction node as [k c|c|l IHl r IHr|d]; intros h leaves f Hh; cbn [Rep GetRoot].
  - by intros (_ & _ & -> & _).
  - by intros (-> & -> & _).
  - destruct h as [|h]; [done|]. intros (_ & _ & _ & _ & Hl & Hr).
    rewrite (IHl h _ _ ltac:(lia) Hl), (IHr h _ _ ltac:(lia) Hr). symmetry. apply merkleRoot_halves. lia.
  - intros (-> & -> & _). unfold merkleRoot. rewrite nodeAt_zero by (cbn; lia). case_if.
    + unfold DepositContractDepth in E. replace h with 32%nat by lia. apply Hash_zero. lia.
    + by rewrite Nat2Z.id.
Qed.

Lemma Rep_full node h leaves f : Rep node h leaves f → IsFull node = bool_decide (length leaves = 2 ^ h)%nat.
Proof.
  revert h leaves f. induction node as [k c|c|l _ r IHr|d]; intros h leaves f; cbn [Rep IsFull].
  - intros (-> & _). by rewrite bool_decide_true.
  - intros (-> & -> & _). done.
  - destruct h as [|h]; [done|]. intros (_ & Hle & _ & _ & _ & Hr). rewrite (IHr _ _ _ Hr). apply bool_decide_ext.
    rewrite length_drop, Nat.pow_succ_r' in *. pose proof (pow2_pos h). lia.
  - intros (-> & _). rewrite bool_decide_false; [done|]. pose proof (pow2_pos h). cbn. lia.
Qed.

(** ** Construction and insertion *)

Lemma create_rep leaves h : (h < 64)%nat → (length leaves ≤ 2 ^ h)%nat → Rep (create leaves h) h leaves 0.
Proof.
  revert leaves. induction h as [|h IH]; intros leaves Hh Hle.
  - destruct leaves as [|c [|]]; cbn in *; [done|done|lia].
  - destruct leaves as [|c leaves]; [done|]. rewrite Nat.pow_succ_r' in Hle. pose proof (pow2_pos h).
    cbn [create]. rewrite powerOf2_nat by lia. set (l := c :: leaves) in *.
    assert (Z.to_nat (Min (Z.of_nat (2 ^ h)) (Z.of_nat (length l))) = Nat.min (2 ^ h) (length l)) as ->.
    { unfold Min. case_if; lia. }
    assert (take (Nat.min (2 ^ h) (length l)) l = take (2 ^ h) l) as ->.
    { destruct (decide (2 ^ h ≤ length l)%nat); [by rewrite Nat.min_l|]. rewrite !take_ge; [done|lia..]. }
    assert (drop (Nat.min (2 ^ h) (length l)) l = drop (2 ^ h) l) as ->.
    { destruct (decide (2 ^ h ≤ length l)%nat); [by rewrite Nat.min_l|]. rewrite !drop_ge; [done|lia..]. }
    cbn [Rep]. rewrite Nat.pow_succ_r'. split_and!; [done|lia|lia|lia| |].
    + apply IH; [lia|]. rewrite length_take. lia.
    + apply IH; [lia|]. rewrite length_drop. lia.
Qed.

Lemma PushLeaf_rep node h leaves f leaf :
  (h < 64)%nat → Rep node h leaves f → (length leaves < 2 ^ h)%nat →
  ∃ self node', PushLeaf node leaf (Z.of_nat h) = (self, Some node', None) ∧ Rep node' h (leaves ++ [leaf]) f.
Proof.
  revert h leaves f. induction node as [k c|c|l IHl r IHr|d]; intros h leaves f Hh HR Hlt; cbn [PushLeaf].
  - cbn in HR. destruct HR as (Hl & _). lia.
  - cbn in HR. destruct HR as (-> & -> & _). cbn in Hlt. lia.
  - destruct h as [|h]; [done|]. cbn [Rep] in HR. destruct HR as (Hne & Hle & Hf & Hf2 & Hl & Hr).
    pose proof (pow2_pos h). rewrite Nat.pow_succ_r' in *. rewrite (Rep_full _ _ _ _ Hl), length_take.
    assert (Z.of_nat (S h) -w 1 = Z.of_nat h) as -> by (cbv beta; rewrite wrap64_small; [lia|split; unfold two64; lia]).
    case_bool_decide as Hfull; cbn [negb].
    + destruct (IHr h _ _ ltac:(lia) Hr) as (self & r' & -> & Hr'); [rewrite length_drop; lia|].
      eexists _, _. split; [done|]. cbn [Rep]. rewrite length_app, Nat.pow_succ_r', take_app_le, drop_app_le by lia. cbn [length].
      split_and!; [by destruct leaves|lia|lia|lia|done|done].
    + destruct (IHl h _ _ ltac:(lia) Hl) as (self & l' & -> & Hl'); [rewrite length_take; lia|].
      eexists _, _. split; [done|]. cbn [Rep]. rewrite length_app, Nat.pow_succ_r'. cbn [length].
      assert (length leaves < 2 ^ h)%nat as Hsh by lia. rewrite (take_ge leaves) in Hl' by lia.
      rewrite take_ge by (rewrite length_app; cbn; lia). rewrite (drop_ge (leaves ++ [leaf])) by (rewrite length_app; cbn; lia).
      rewrite drop_ge in Hr by lia. split_and!; [by destruct leaves|lia|lia|lia|done|done].
  - cbn [Rep] in HR. destruct HR as (-> & -> & ->). eexists _, _. split; [done|]. rewrite Nat2Z.id. apply create_rep; [done|].
    cbn. apply pow2_pos.
Qed.

(** ** Finalization *)

Lemma Finalize_rep node h leaves f k :
  (h ≤ 32)%nat → Rep node h leaves f → (1 ≤ k)%nat → (k ≤ length leaves ∨ length leaves = 2 ^ h)%nat → Z.of_nat k < two64 →
  ∃ self node', Finalize node (Z.of_nat k) (Z.of_nat h) = (self, node', None) ∧
    Rep node' h leaves (Nat.max f (Nat.min k (2 ^ h))) ∧
    match node with InnerNode _ _ => (k < 2 ^ h)%nat → self = node' | _ => True end.
Proof.
  revert h leaves f k. induction node as [n c|c|l IHl r IHr|d]; intros h leaves f k Hh HR Hk Hlen Hu; cbn [Finalize].
  - cbn in HR. destruct HR as (Hl & -> & -> & ->). eexists _, _. split; [done|]. split; [|done]. cbn. split_and!; [done..|lia].
  - cbn in HR. destruct HR as (-> & -> & ->). eexists _, _. split; [done|]. split; [|done]. cbn. split_and!; [done..|lia].
  - destruct h as [|h]; [done|]. pose proof (Rep_root _ _ _ _ Hh HR) as Hroot. cbn [Rep] in HR. destruct HR as (Hne & Hle & Hf & Hf2 & Hl & Hr).
    pose proof (pow2_pos h). rewrite powerOf2_nat by lia. destruct (Z.of_nat (2 ^ S h) <=? Z.of_nat k) eqn:E; bprop.
    { eexists _, _. split; [done|]. split; [|intros; lia]. rewrite Hroot. cbn [Rep]. rewrite <- of_nat_pow2. split_and!; [lia|done|done|lia]. }
    rewrite (proj2 (Z.eqb_neq _ _)) by lia.
    assert (Z.of_nat (S h) -w 1 = Z.of_nat h) as -> by (cbv beta; rewrite wrap64_small; [lia|split; unfold two64; lia]).
    assert (Z.of_nat (2 ^ S h) / 2 = Z.of_nat (2 ^ h)) as ->.
    { rewrite Nat.pow_succ_r', Nat2Z.inj_mul, Z.mul_comm. apply Z.div_mul. lia. }
    rewrite Nat.pow_succ_r' in *. assert (k < 2 * 2 ^ h)%nat as Hk2 by lia.
    destruct (IHl h _ _ k ltac:(lia) Hl Hk) as (selfl & l' & -> & Hl' & _); [rewrite length_take; lia|done|].
    destruct (Z.of_nat (2 ^ h) <? Z.of_nat k) eqn:E2; bprop.
    + assert (Z.of_nat k -w Z.of_nat (2 ^ h) = Z.of_nat (k - 2 ^ h)) as -> by (cbv beta; rewrite wrap64_small; [lia|split; lia]).
      destruct (IHr h _ _ (k - 2 ^ h)%nat ltac:(lia) Hr) as (selfr & r' & -> & Hr' & _); [lia|rewrite length_drop; lia|lia|].
      eexists _, _. split; [done|]. split; [|done]. cbn [Rep]. rewrite Nat.pow_succ_r'. split_and!; [done|lia|lia|lia| |].
      * by replace (Nat.min (Nat.max f (Nat.min k (2 * 2 ^ h))) (2 ^ h)) with (Nat.max (Nat.min f (2 ^ h)) (Nat.min k (2 ^ h))) by lia.
      * by replace (Nat.max f (Nat.min k (2 * 2 ^ h)) - 2 ^ h)%nat with (Nat.max (f - 2 ^ h) (Nat.min (k - 2 ^ h) (2 ^ h))) by lia.
    + eexists _, _. split; [done|]. split; [|done]. cbn [Rep]. rewrite Nat.pow_succ_r'. split_and!; [done|lia|lia|lia| |].
      * by replace (Nat.min (Nat.max f (Nat.min k (2 * 2 ^ h))) (2 ^ h)) with (Nat.max (Nat.min f (2 ^ h)) (Nat.min k (2 ^ h))) by lia.
      * by replace (Nat.max f (Nat.min k (2 * 2 ^ h)) - 2 ^ h)%nat with (f - 2 ^ h)%nat by lia.
  - cbn [Rep] in HR. destruct HR as (-> & -> & ->). pose proof (pow2_pos h). cbn in Hlen. lia.
Qed.
End rep.

(** * The deposit tree: proofs and snapshots

    What is left of the finalized deposits are the roots of the largest subtrees that
    hold only finalized deposits, one for each bit of their number.  From them a snapshot
    computes its root and a tree is restored; from the rest of the tree come the proofs. *)

Section snapshots.
Context `{Sha256}.

(** ** The finalized hashes *)

Fixpoint finHashes (h : nat) (leaves : list bytes) (f : nat) : list bytes :=
  if (f =? 2 ^ h)%nat then [merkleRoot leaves h]
  else match h with
       | O => []
       | S h' => finHashes h' (take (2 ^ h') leaves) (Nat.min f (2 ^ h')) ++ finHashes h' (drop (2 ^ h') leaves) (f - 2 ^ h')
       end.

Lemma finHashes_full h leaves : finHashes h leaves (2 ^ h) = [merkleRoot leaves h].
Proof. destruct h; cbn [finHashes]; by rewrite Nat.eqb_refl. Qed.

Lemma finHashes_0 h leaves : finHashes h leaves 0 = [].
Proof.
  revert leaves. induction h as [|h IH]; intros leaves; [done|].
  cbn [finHashes]. pose proof (pow2_pos (S h)). rewrite (proj2 (Nat.eqb_neq _ _)) by lia. by rewrite !IH.
Qed.

Lemma finHashes_S h leaves f : (f < 2 ^ S h)%nat →
  finHashes (S h) leaves f = finHashes h (take (2 ^ h) leaves) (Nat.min f (2 ^ h)) ++ finHashes h (drop (2 ^ h) leaves) (f - 2 ^ h).
Proof. intros Hf. cbn [finHashes]. by rewrite (proj2 (Nat.eqb_neq _ _)) by lia. Qed.

Lemma GetFinalized_rep node h leaves f result : (h ≤ 32)%nat → Rep node h leaves f →
  GetFinalized node result = (Z.of_nat f, result ++ finHashes h leaves f).
Proof.
  revert h leaves f result. induction node as [k c|c|l IHl r IHr|d]; intros h leaves f result Hh HR; cbn [GetFinalized].
  - cbn in HR. destruct HR as (_ & -> & -> & ->). by rewrite finHashes_full, of_nat_pow2.
  - cbn in HR. destruct HR as (_ & _ & ->). by rewrite finHashes_0, app_nil_r.
  - destruct h as [|h]; [done|]. pose proof (Rep_bounds _ _ _ _ HR) as Hb. cbn [Rep] in HR. destruct HR as (_ & _ & _ & Hf & Hl & Hr).
    rewrite (IHl h _ _ _ ltac:(lia) Hl), (IHr h _ _ _ ltac:(lia) Hr), finHashes_S by done. rewrite app_assoc. f_equal.
    pose proof (pow2_u64 (S h) ltac:(lia)). cbv beta. rewrite wrap64_small; [lia|split; lia].
  - cbn in HR. destruct HR as (_ & _ & ->). by rewrite finHashes_0, app_nil_r.
Qed.

(** The nodes left of leaf [f] that the bits of [f] name, from height [i] upwards. *)
Fixpoint bitNodes (leaves : list bytes) (f i n : nat) : list bytes :=
  match n with
  | O => []
  | S n => (if Nat.odd (f / 2 ^ i) then [nodeAt leaves i (f / 2 ^ i - 1)] else []) ++ bitNodes leaves f (S i) n
  end.

Lemma bitNodes_app leaves f i n m : bitNodes leaves f i (n + m) = bitNodes leaves f i n ++ bitNodes leaves f (i + n) m.
Proof.
  revert i. induction n as [|n IH]; intros i; cbn [bitNodes Nat.add app]; [by rewrite Nat.add_0_r|].
  rewrite IH, <- app_assoc. by replace (S i + n)%nat with (i + S n)%nat by lia.
Qed.

Lemma bitNodes_ext l1 l2 f1 f2 i n :
  (∀ k, (i ≤ k < i + n)%nat → Nat.odd (f1 / 2 ^ k) = Nat.odd (f2 / 2 ^ k) ∧
     (Nat.odd (f2 / 2 ^ k) = true → nodeAt l1 k (f1 / 2 ^ k - 1) = nodeAt l2 k (f2 / 2 ^ k - 1))) →
  bitNodes l1 f1 i n = bitNodes l2 f2 i n.
Proof.
  revert i. induction n as [|n IH]; intros i Hext; cbn [bitNodes]; [done|].
  rewrite (IH (S i)) by (intros k Hk; apply Hext; lia). destruct (Hext i ltac:(lia)) as [-> Hn]. f_equal.
  destruct (Nat.odd (f2 / 2 ^ i)); [by rewrite Hn|done].
Qed.

Lemma bitNodes_none leaves f i n : (∀ k, (i ≤ k < i + n)%nat → Nat.odd (f / 2 ^ k) = false) → bitNodes leaves f i n = [].
Proof.
  revert i. induction n as [|n IH]; intros i Hk; cbn [bitNodes]; [done|].
  rewrite (Hk i ltac:(lia)), IH; [done|]. intros k Hk'. apply Hk. lia.
Qed.

(** Only the leaves before [f] matter. *)
Lemma bitNodes_leaves l1 l2 f i n : (∀ k, (k < f)%nat → l1 !! k = l2 !! k) → bitNodes l1 f i n = bitNodes l2 f i n.
Proof.
  intros Heq. apply bitNodes_ext. intros k _. split; [done|]. intros Hodd. apply nodeAt_ext. intros j Hj. rewrite Heq; [done|].
  assert (f / 2 ^ k ≠ 0)%nat by (intros E0; by rewrite E0 in Hodd).
  pose proof (Nat.Div0.mul_div_le f (2 ^ k)). replace (f / 2 ^ k - 1 + 1)%nat with (f / 2 ^ k)%nat in Hj by lia. lia.
Qed.

Lemma div_pow2_split a q h i : (i ≤ h)%nat → ((a * 2 ^ h + q) / 2 ^ i = a * 2 ^ (h - i) + q / 2 ^ i)%nat.
Proof.
  intros Hi. replace (2 ^ h)%nat with (2 ^ (h - i) * 2 ^ i)%nat by (rewrite <- Nat.pow_add_r; f_equal; lia).
  rewrite Nat.mul_assoc, Nat.div_add_l by (apply Nat.pow_nonzero; lia). done.
Qed.

Lemma odd_pow2_add a n : (0 < a)%nat → Nat.odd (2 ^ a + n) = Nat.odd n.
Proof.
  intros Ha. destruct a as [|a]; [lia|]. rewrite Nat.pow_succ_r', Nat.odd_add, Nat.odd_mul. cbn [Nat.odd Nat.even negb andb].
  by destruct (Nat.odd n).
Qed.

Lemma finHashes_bits h leaves f : (f ≤ 2 ^ h)%nat → (f ≤ length leaves)%nat →
  finHashes h leaves f = reverse (bitNodes leaves f 0 (S h)).
Proof.
  revert leaves f. induction h as [|h IH]; intros leaves f Hf Hlen.
  - cbn in Hf. destruct f as [|[|]]; [done|done|lia].
  - pose proof (pow2_pos h). destruct (decide (f = 2 ^ S h)%nat) as [->|Hne].
    { rewrite finHashes_full. replace (S (S h)) with (S h + 1)%nat by lia. rewrite bitNodes_app, bitNodes_none.
      - cbn [Nat.add bitNodes app]. rewrite Nat.div_same by (apply Nat.pow_nonzero; lia). done.
      - intros k Hk. pose proof (div_pow2_split 1 0 (S h) k ltac:(lia)) as Hd. rewrite Nat.add_0_r, Nat.Div0.div_0_l, !Nat.mul_1_l in Hd.
        rewrite Hd. rewrite odd_pow2_add by lia. done. }
    rewrite finHashes_S by lia. rewrite Nat.pow_succ_r' in *. destruct (decide (f ≤ 2 ^ h)%nat) as [Hle|Hgt].
    + rewrite Nat.min_l by done. replace (f - 2 ^ h)%nat with 0%nat by lia. rewrite finHashes_0, app_nil_r.
      rewrite IH by (rewrite ?length_take; lia). f_equal. replace (S (S h)) with (S h + 1)%nat by lia.
      rewrite bitNodes_app, (bitNodes_none _ _ (0 + S h) 1), app_nil_r.
      * apply bitNodes_leaves. intros k Hk. by rewrite lookup_take_lt by lia.
      * intros k Hk. replace k with (S h) by lia. rewrite Nat.div_small; [done|]. rewrite Nat.pow_succ_r'. lia.
    + rewrite Nat.min_r, finHashes_full by lia. set (f' := (f - 2 ^ h)%nat). assert (f = 1 * 2 ^ h + f')%nat as Hsplit by (unfold f'; lia).
      rewrite IH by (rewrite ?length_drop; lia). replace (S (S h)) with (h + 2)%nat by lia. replace (S h) with (h + 1)%nat by lia.
      rewrite !bitNodes_app, (bitNodes_none _ f' _ 1), app_nil_r.
      2:{ intros k Hk. replace k with h by lia. rewrite Nat.div_small by lia. done. }
      rewrite reverse_app. f_equal.
      * cbn [Nat.add bitNodes]. assert (f / 2 ^ h = 1)%nat as ->.
        { rewrite Hsplit, div_pow2_split, Nat.sub_diag by lia. rewrite Nat.div_small by lia. done. }
        rewrite Nat.div_small by (rewrite Nat.pow_succ_r'; lia). cbn. f_equal. unfold merkleRoot.
        apply nodeAt_ext. intros k Hk. by rewrite lookup_take_lt by lia.
      * f_equal. apply bitNodes_ext. intros k Hk. rewrite Hsplit, div_pow2_split, Nat.mul_1_l, odd_pow2_add by lia. split; [done|].
        intros Hodd. assert (f' / 2 ^ k ≠ 0)%nat by (intros E0; by rewrite E0 in Hodd).
        replace (2 ^ (h - k) + f' / 2 ^ k - 1)%nat with (2 ^ (h - k) + (f' / 2 ^ k - 1))%nat by lia.
        assert (2 ^ (h - k) * 2 ^ k = 2 ^ h)%nat as Hp by (rewrite <- Nat.pow_add_r; f_equal; lia).
        rewrite nodeAt_shift; rewrite Hp; [done|lia].
Qed.

(** ** The root of a snapshot *)

Lemma rootLoop_spec leaves f n i : length leaves = f → (i + n < 100)%nat →
  rootLoop n i (Z.of_nat (f / 2 ^ i)) (bitNodes leaves f i n) (nodeAt leaves i (f / 2 ^ i)) =
  nodeAt leaves (i + n) (f / 2 ^ (i + n)).
Proof.
  intros Hlen. revert i. induction n as [|n IH]; intros i Hi; cbn [rootLoop bitNodes]; [by rewrite Nat.add_0_r|].
  assert (Z.shiftr (Z.of_nat (f / 2 ^ i)) 1 = Z.of_nat (f / 2 ^ S i)) as ->.
  { rewrite Z.shiftr_div_pow2 by lia. change (2 ^ 1) with (Z.of_nat 2). by rewrite <- Nat2Z.inj_div, div_pow_S. }
  rewrite land_1. replace (i + S n)%nat with (S i + n)%nat by lia.
  pose proof (nodeAt_parent leaves i (f / 2 ^ i)) as Hp. rewrite <- div_pow_S in Hp.
  destruct (half_cases (f / 2 ^ i)) as [(Hm & Hq & Hx)|(Hm & Hq & Hx)]; rewrite Hm in *; cbn [Nat.eqb negb] in *.
  - assert (Nat.odd (f / 2 ^ i) = false) as -> by (rewrite Hq, Nat.odd_mul; done). cbn [app].
    rewrite (nodeAt_zero leaves i (Nat.lxor _ _)) in Hp; [rewrite <- Hp; apply IH; lia|lia|].
    rewrite Hx, <- Hq, Hlen. pose proof (Nat.mul_succ_div_gt f (2 ^ i) ltac:(apply Nat.pow_nonzero; lia)). lia.
  - assert (Nat.odd (f / 2 ^ i) = true) as -> by (rewrite Hq, Nat.odd_add, Nat.odd_mul; done). cbn [app].
    replace (f / 2 ^ i - 1)%nat with (Nat.lxor (f / 2 ^ i) 1) by lia. rewrite <- Hp. apply IH. lia.
Qed.

Lemma finHashes_root leaves f : (f ≤ length leaves)%nat → (f < 2 ^ 32)%nat →
  rootLoop 32 0 (Z.of_nat f) (reverse (finHashes 32 leaves f)) (ZeroHash 0) = merkleRoot (take f leaves) 32.
Proof.
  intros Hf H32. rewrite finHashes_bits, reverse_involutive by lia. replace (S 32)%nat with (32 + 1)%nat by lia.
  rewrite bitNodes_app, (bitNodes_none _ _ (0 + 32) 1), app_nil_r.
  2:{ intros k Hk. replace k with 32%nat by lia. by rewrite Nat.div_small. }
  rewrite (bitNodes_leaves leaves (take f leaves)) by (intros k Hk; by rewrite lookup_take_lt).
  pose proof (rootLoop_spec (take f leaves) f 32 0) as Hr. rewrite Nat.add_0_l in Hr.
  rewrite (nodeAt_zero (take f leaves) 0) in Hr; [|lia|].
  2:{ change (2 ^ 0)%nat with 1%nat. rewrite Nat.div_1_r, length_take. lia. }
  change (2 ^ 0)%nat with 1%nat in Hr. rewrite Nat.div_1_r in Hr. rewrite Hr; [|rewrite length_take; lia|lia].
  unfold merkleRoot. by rewrite Nat.div_small.
Qed.

(** ** Restoring a tree *)

Lemma finHashes_cons h leaves f : (0 < f ≤ 2 ^ h)%nat → finHashes h leaves f ≠ [].
Proof.
  revert leaves f. induction h as [|h IH]; intros leaves f Hf.
  - cbn in Hf. by replace f with 1%nat by lia.
  - destruct (decide (f = 2 ^ S h)%nat) as [->|]; [by rewrite finHashes_full|].
    rewrite finHashes_S by lia. pose proof (pow2_pos h). intros [Hl _]%app_nil. revert Hl. apply IH. lia.
Qed.

Lemma fromSnapshotParts_rep h leaves f : (h ≤ 32)%nat → (f ≤ 2 ^ h)%nat → (f ≤ length leaves)%nat →
  ∃ node, fromSnapshotParts (finHashes h leaves f) (Z.of_nat f) h = Ret node ∧ Rep node h (take f leaves) f.
Proof.
  revert leaves f. induction h as [|h IH]; intros leaves f Hh Hf Hlen.
  - cbn in Hf. destruct f as [|[|]]; [|destruct leaves as [|c leaves]; [cbn in Hlen; lia|]|lia].
    + by eexists.
    + eexists. split; [done|]. cbn. split_and!; done.
  - destruct (decide (f = 0)%nat) as [->|Hf0].
    { rewrite finHashes_0. by eexists. }
    destruct (finHashes (S h) leaves f) as [|first rest] eqn:Efin; [exfalso; revert Efin; apply finHashes_cons; lia|].
    cbn [fromSnapshotParts]. rewrite (proj2 (Z.eqb_neq _ _)), powerOf2_nat by lia.
    destruct (Z.of_nat f =? Z.of_nat (2 ^ S h)) eqn:E; bprop.
    { apply Nat2Z.inj in E as ->. rewrite finHashes_full in Efin. injection Efin as <- <-. eexists. split; [done|]. cbn [Rep].
      rewrite length_take, of_nat_pow2. split_and!; [lia|done| |done]. apply nodeAt_ext. intros k Hk. by rewrite lookup_take_lt by lia. }
    rewrite finHashes_S in Efin by lia. rewrite powerOf2_nat, Nat.pow_succ_r' in * by lia. pose proof (pow2_pos h).
    destruct (Z.of_nat f <=? Z.of_nat (2 ^ h)) eqn:E2; bprop.
    + rewrite Nat.min_l in Efin by lia. replace (f - 2 ^ h)%nat with 0%nat in Efin by lia. rewrite finHashes_0, app_nil_r in Efin.
      rewrite <- Efin. destruct (IH (take (2 ^ h) leaves) f) as (l & -> & Hl); [lia|lia|rewrite length_take; lia|].
      rewrite take_take, Nat.min_l in Hl by lia. eexists. split; [done|]. cbn [Rep]. rewrite length_take, Nat.pow_succ_r'.
      rewrite take_take, (Nat.min_r (2 ^ h) f), (Nat.min_l f (2 ^ h)) by lia. rewrite (drop_ge (take f leaves)) by (rewrite length_take; lia).
      split_and!; [|lia|lia|lia|done|done|done|lia]. destruct leaves; [cbn in Hlen; lia|]. by destruct f.
    + rewrite Nat.min_r, finHashes_full in Efin by lia. injection Efin as <- <-.
      assert (Z.of_nat f -w Z.of_nat (2 ^ h) = Z.of_nat (f - 2 ^ h)) as ->.
      { pose proof (pow2_u64 (S h) ltac:(lia)) as Hu. rewrite Nat.pow_succ_r' in Hu. cbv beta. rewrite wrap64_small; [lia|split; lia]. }
      destruct (IH (drop (2 ^ h) leaves) (f - 2 ^ h)%nat) as (r & -> & Hr); [lia|lia|rewrite length_drop; lia|].
      eexists. split; [done|]. cbn [Rep]. rewrite length_take, Nat.pow_succ_r', take_take, (Nat.min_l (2 ^ h) f) by lia.
      rewrite (Nat.min_r f (2 ^ h)) by lia. rewrite length_take, of_nat_pow2.
      split_and!; [|lia|lia|lia|lia|done|done|done|].
      * destruct leaves; [cbn in Hlen; lia|]. by destruct f.
      * rewrite take_drop_commute in Hr. by replace (2 ^ h + (f - 2 ^ h))%nat with f in Hr by lia.
Qed.
End snapshots.
