(* ===== verification/DepositTheorems.v ===== *)
(** * The deposit tree in use

    A tree that is started empty or from a snapshot, gets deposits and finalizations:
    its root and proofs are those of the deposits, a restored tree continues like the
    original, and both agree with the sparse Merkle trie. *)

From S2P Require Import Prelude MathHelper Bytes Sha256 Merkle Ssz SszRoots SparseTrie SparseTrieProofs DepositTree DepositSnapshots.

Section use.
Context `{Sha256}.

(** ** Proofs *)

Lemma merkleRoot_right leaves h : (h < 100)%nat → nodeAt leaves h 1 = merkleRoot (drop (2 ^ h) leaves) h.
Proof.
  intros Hh. destruct (decide (2 ^ h ≤ length leaves)%nat).
  - change 1%nat with (1 + 0)%nat at 1. rewrite nodeAt_shift by lia. by rewrite Nat.mul_1_l.
  - unfold merkleRoot. rewrite drop_ge by lia. rewrite !nodeAt_zero; [done|done|cbn; lia|done|lia].
Qed.

Lemma lxor_1_add a q : (0 < a)%nat → Nat.lxor (2 ^ a + q) 1 = (2 ^ a + Nat.lxor q 1)%nat.
Proof.
  intros Ha. rewrite !lxor_1, odd_pow2_add by done. destruct (Nat.odd q) eqn:E; [|lia].
  destruct q; [done|]. lia.
Qed.

Lemma branchOf_S leaves h m : branchOf leaves 0 (S h) m = branchOf leaves 0 h m ++ [nodeAt leaves h (Nat.lxor (m / 2 ^ h) 1)].
Proof. unfold branchOf. by rewrite seq_S, map_app. Qed.

Lemma branchOf_left leaves h m : (m < 2 ^ h)%nat → branchOf (take (2 ^ h) leaves) 0 h m = branchOf leaves 0 h m.
Proof.
  intros Hm. unfold branchOf. apply map_ext_in. intros i Hi%in_seq. apply nodeAt_ext. intros k Hk. rewrite lookup_take_lt; [done|].
  assert (2 ^ (h - i) * 2 ^ i = 2 ^ h)%nat as Hp by (rewrite <- Nat.pow_add_r; f_equal; lia).
  assert (m / 2 ^ i < 2 ^ (h - i))%nat as Hq by (apply Nat.Div0.div_lt_upper_bound; lia).
  assert (Nat.lxor (m / 2 ^ i) 1 < 2 ^ (h - i))%nat as Hx.
  { assert (h - i = S (h - i - 1))%nat as Hs by lia. rewrite Hs, Nat.pow_succ_r' in *.
    destruct (half_cases (m / 2 ^ i)) as [(_ & H1 & ->)|(_ & H1 & ->)]; lia. }
  nia.
Qed.

Lemma branchOf_right leaves h m' : (m' < 2 ^ h)%nat → (2 ^ h ≤ length leaves)%nat →
  branchOf (drop (2 ^ h) leaves) 0 h m' = branchOf leaves 0 h (2 ^ h + m').
Proof.
  intros Hm Hlen. unfold branchOf. apply map_ext_in. intros i Hi%in_seq.
  rewrite <- (Nat.mul_1_l (2 ^ h)) at 2. rewrite div_pow2_split, Nat.mul_1_l, lxor_1_add by lia.
  assert (2 ^ (h - i) * 2 ^ i = 2 ^ h)%nat as Hp by (rewrite <- Nat.pow_add_r; f_equal; lia).
  rewrite nodeAt_shift; rewrite Hp; [done|lia].
Qed.

(** The bit of the index that the walk tests at height [h]. *)
Lemma index_bit n h : let m := (n mod 2 ^ S h)%nat in
  (n mod 2 ^ h = m mod 2 ^ h)%nat ∧ (Z.land (Z.shiftr (Z.of_nat n) (Z.of_nat h)) 1 =? 1) = negb (m / 2 ^ h =? 0)%nat.
Proof.
  cbv zeta. set (m := (n mod 2 ^ S h)%nat). pose proof (pow2_pos h).
  assert (m < 2 * 2 ^ h)%nat as Hm by (rewrite <- Nat.pow_succ_r'; apply Nat.mod_upper_bound, Nat.pow_nonzero; lia).
  assert (n = (2 * (n / 2 ^ S h)) * 2 ^ h + m)%nat as Hn.
  { pose proof (Nat.div_mod n (2 ^ S h) ltac:(apply Nat.pow_nonzero; lia)) as Hd. fold m in Hd. rewrite Nat.pow_succ_r' in Hd at 1. lia. }
  set (q := (n / 2 ^ S h)%nat) in *. split.
  - rewrite Hn, Nat.add_comm. apply Nat.Div0.mod_add.
  - rewrite Z.shiftr_div_pow2 by lia. rewrite <- of_nat_pow2, <- Nat2Z.inj_div, land_1. do 2 f_equal.
    rewrite Hn, Nat.div_add_l, Nat.add_comm, Nat.mul_comm, Nat.Div0.mod_add by lia. apply Nat.mod_small.
    apply Nat.Div0.div_lt_upper_bound. lia.
Qed.

Lemma descend_rep node h leaves f n :
  (h ≤ 32)%nat → Rep node h leaves f → (f ≤ n mod 2 ^ h < length leaves)%nat →
  descend h node (Z.of_nat n) = Ret (nodeAt leaves 0 (n mod 2 ^ h), reverse (branchOf leaves 0 h (n mod 2 ^ h))).
Proof.
  revert node leaves f. induction h as [|h IH]; intros node leaves f Hh HR Hn; cbn [descend].
  { rewrite (Rep_root _ _ _ _ Hh HR). change (n mod 2 ^ 0)%nat with (n mod 1)%nat. by rewrite Nat.mod_1_r. }
  destruct node as [k c|c|l r|d]; cbn [Rep Left Right] in *.
  - destruct HR as (_ & _ & _ & ->). pose proof (Nat.mod_upper_bound n (2 ^ S h) ltac:(apply Nat.pow_nonzero; lia)). lia.
  - by destruct HR.
  - destruct HR as (_ & Hle & Hf & Hf2 & Hl & Hr). set (m := (n mod 2 ^ S h)%nat) in *. pose proof (pow2_pos h).
    assert (m < 2 ^ S h)%nat as Hm by (apply Nat.mod_upper_bound, Nat.pow_nonzero; lia).
    destruct (index_bit n h) as [Hmod Hbit]. fold m in Hmod, Hbit.
    rewrite Hbit, branchOf_S, reverse_app. rewrite Nat.pow_succ_r' in *.
    destruct (decide (m < 2 ^ h)%nat) as [Hlt|Hge].
    + rewrite (Nat.div_small m), (Nat.mod_small m) in * by done. cbn [Nat.eqb negb]. rewrite Nat.min_l in Hl by lia.
      rewrite (IH l _ _ ltac:(lia) Hl) by (rewrite Hmod, length_take; lia). rewrite Hmod. cbn [obind fst snd].
      rewrite branchOf_left by done. rewrite (Rep_root r h _ _ ltac:(lia) Hr), <- merkleRoot_right by lia. do 2 f_equal.
      apply nodeAt_ext. intros k Hk. rewrite lookup_take_lt; [done|]. cbn in Hk. lia.
    + assert (m = 1 * 2 ^ h + (m - 2 ^ h))%nat as Hs by lia. set (m' := (m - 2 ^ h)%nat) in *.
      assert (m / 2 ^ h = 1)%nat as -> by (rewrite Hs, div_pow2_split, Nat.sub_diag by lia; rewrite Nat.div_small by lia; done).
      assert (n mod 2 ^ h = m')%nat as Hm'. { rewrite Hmod, Hs, Nat.add_comm, Nat.Div0.mod_add. apply Nat.mod_small. lia. }
      cbn [Nat.eqb negb]. rewrite (IH r _ _ ltac:(lia) Hr) by (rewrite Hm', length_drop; lia). rewrite Hm'. cbn [obind fst snd].
      rewrite branchOf_right by lia. rewrite Nat.mul_1_l in Hs. rewrite <- Hs. rewrite (Rep_root l h _ _ ltac:(lia) Hl).
      change (Nat.lxor 1 1) with 0%nat. cbn [reverse app]. do 2 f_equal.
      * unfold nodeAt. rewrite lookup_drop. by rewrite <- Hs.
      * cbn. f_equal. apply nodeAt_ext. intros k Hk. by rewrite lookup_take_lt by lia.
  - destruct HR as (-> & _). cbn in Hn. lia.
Qed.

(** ** The invariant of a tree *)

Definition TreeOk (leaves : list bytes) (f : nat) (d : DepositTree) : Prop :=
  ∃ t, tree d = Some t ∧ Rep t 32 leaves f ∧ depositCount d = Z.of_nat (length leaves) ∧
    (length leaves < 2 ^ 32)%nat ∧ Forall is_chunk leaves.

Lemma capacity n : Z.of_nat n < 2 ^ 32 → (n < 2 ^ 32)%nat.
Proof. intros Hn. apply Nat2Z.inj_lt. by rewrite Nat2Z.inj_pow. Qed.
Lemma capacity_Z n : (n < 2 ^ 32)%nat → Z.of_nat n < 2 ^ 32.
Proof. intros Hn%Nat2Z.inj_lt. by rewrite Nat2Z.inj_pow in Hn. Qed.

Lemma NewDepositTree_ok : TreeOk [] 0 NewDepositTree.
Proof. exists (ZeroNode 32). split_and!; [done|done|done|apply capacity; done|done]. Qed.

Lemma TreeInsert_ok leaves f d item : TreeOk leaves f d → (32 ≤ length item)%nat → Z.of_nat (S (length leaves)) < 2 ^ 32 →
  ∃ d', TreeInsert d item = Ret (d', None) ∧ TreeOk (leaves ++ [take 32 item]) f d' ∧
    finalizedExecutionBlock d' = finalizedExecutionBlock d.
Proof.
  intros (t & Ht & HR & Hc & Hlt & Hch) Hi Hcap. unfold TreeInsert, pushLeaf, withTree. rewrite (proj2 (Nat.ltb_ge _ _)), Ht by done.
  destruct (PushLeaf_rep t 32 leaves f (take 32 item)) as (self & t' & Hp & HR'); [lia|done|done|].
  change (Z.of_nat 32) with DepositContractDepth in Hp. rewrite Hp. eexists. split; [done|]. split; [|done].
  exists t'. cbn [tree depositCount]. split_and!; [done|done| | |].
  - rewrite Hc, length_app. cbv beta. rewrite wrap64_small; [cbn [length]; lia|]. apply capacity_Z in Hlt. split; [lia|]. unfold two64. lia.
  - rewrite length_app. cbn [length]. replace (length leaves + 1)%nat with (S (length leaves)) by lia. by apply capacity.
  - apply Forall_app. split; [done|]. constructor; [|done]. rewrite length_take. lia.
Qed.

Lemma TreeFinalize_ok leaves f d (idx : nat) hash number : TreeOk leaves f d → (idx < length leaves)%nat →
  ∃ d', TreeFinalize d (Z.of_nat idx) hash number = Ret (d', None) ∧ TreeOk leaves (Nat.max f (S idx)) d'.
Proof.
  intros (t & Ht & HR & Hc & Hlt & Hch) Hidx. unfold TreeFinalize, withTree. rewrite Ht. pose proof (capacity_Z _ Hlt) as Hz.
  assert (wrap64 (wrapI64 (Z.of_nat idx + 1)) = Z.of_nat (S idx)) as ->.
  { rewrite wrapI64_small by (unfold is_i64, minInt64, maxInt64; lia). rewrite wrap64_small by (unfold is_u64, two64; lia). lia. }
  destruct (Finalize_rep t 32 leaves f (S idx)) as (self & t' & Hfin & HR' & Hself); [lia|done|lia|lia|unfold two64; lia|].
  change (Z.of_nat 32) with DepositContractDepth in Hfin. rewrite Hfin. eexists. split; [done|].
  rewrite Nat.min_l in HR' by lia. exists self. cbn [tree depositCount]. split_and!; [done| |done|done|done].
  destruct t as [k c|c|l r|dd]; cbn [Rep] in HR.
  - destruct HR as (Hl & _). lia.
  - by destruct HR.
  - rewrite Hself by lia. done.
  - destruct HR as (-> & _). cbn in Hidx. lia.
Qed.

Lemma CalculateRoot_ok leaves f r b : (f ≤ length leaves)%nat → (f < 2 ^ 32)%nat →
  CalculateRoot (mkSnapshot (finHashes 32 leaves f) r (Z.of_nat f) b) =
    Ret (Hash (merkleRoot (take f leaves) 32 ++ encCount (Z.of_nat f))).
Proof. intros Hf Hlt. unfold CalculateRoot. cbn [finalized snapshotCount]. by rewrite finHashes_root. Qed.

Lemma GetSnapshot_ok leaves f d : TreeOk leaves f d →
  GetSnapshot d = Ret (mkSnapshot (finHashes 32 leaves f) (Hash (merkleRoot (take f leaves) 32 ++ encCount (Z.of_nat f)))
                        (Z.of_nat f) (finalizedExecutionBlock d)).
Proof.
  intros (t & Ht & HR & Hc & Hlt & Hch). unfold GetSnapshot, withTree. rewrite Ht. pose proof (Rep_bounds _ _ _ _ HR) as Hb.
  rewrite (GetFinalized_rep t 32 leaves f [] ltac:(lia) HR). cbn [app]. unfold fromTreeParts. by rewrite CalculateRoot_ok by lia.
Qed.

Lemma fromSnapshot_ok leaves f b : (f ≤ length leaves)%nat → (f < 2 ^ 32)%nat → Forall is_chunk leaves →
  ∃ d, fromSnapshot (mkSnapshot (finHashes 32 leaves f) (Hash (merkleRoot (take f leaves) 32 ++ encCount (Z.of_nat f))) (Z.of_nat f) b)
    = Ret d ∧ TreeOk (take f leaves) f d ∧ finalizedExecutionBlock d = b.
Proof.
  intros Hf Hlt Hch. unfold fromSnapshot. rewrite CalculateRoot_ok by done. cbn [obind depositRoot snapshotCount finalized snapshotBlock].
  rewrite bool_decide_true by done. cbn [negb].
  assert ((powerOf2 DepositContractDepth <=? Z.of_nat f) = false) as -> by (apply Z.leb_gt; apply capacity_Z in Hlt; exact Hlt).
  destruct (fromSnapshotParts_rep 32 leaves f) as (t & -> & HR); [lia|lia|done|]. eexists. split; [done|]. split; [|done].
  exists t. cbn [tree depositCount]. rewrite length_take, Nat.min_l by done. split_and!; [done..|]. by apply Forall_take.
Qed.

Lemma getRoot_ok leaves f d : TreeOk leaves f d →
  getRoot d = Ret (Hash (merkleRoot leaves 32 ++ encCount (Z.of_nat (length leaves)))).
Proof.
  intros (t & Ht & HR & Hc & _). unfold getRoot, withTree. by rewrite Ht, Hc, (Rep_root _ _ _ _ (le_n 32) HR).
Qed.

Lemma getProof_ok leaves f d (n : nat) : TreeOk leaves f d → (n < length leaves)%nat →
  getProof d (Z.of_nat n) =
    if (n <? f)%nat then Err ErrInvalidIndex
    else Ret (nodeAt leaves 0 n, branchOf leaves 0 32 n ++ [encCount (Z.of_nat (length leaves))]).
Proof.
  intros (t & Ht & HR & Hc & Hlt & Hch) Hn. unfold getProof, withTree. pose proof (capacity_Z _ Hlt) as Hz.
  pose proof (Rep_bounds _ _ _ _ HR) as Hb. rewrite Ht, Hc, !(proj2 (Z.leb_gt _ _)) by lia.
  rewrite (GetFinalized_rep t 32 leaves f [] ltac:(lia) HR).
  assert (∀ u : nat, (u ≤ length leaves)%nat → IntOf (Z.of_nat u) = Ret (Z.of_nat u)) as Hint.
  { intros u Hu. unfold IntOf. rewrite (proj2 (Z.ltb_ge _ _)) by (unfold maxInt64; lia). done. }
  assert ((if negb (Z.of_nat f =? 0) then fd <-? IntOf (Z.of_nat f);; Ret (fd - 1) else Ret (-1)) = Ret (Z.of_nat f - 1)) as ->.
  { destruct (Z.of_nat f =? 0) eqn:E0; bprop; cbn [negb]; [by rewrite E0|]. by rewrite Hint by lia. }
  cbn [obind]. rewrite Hint by lia. cbn [obind]. destruct (n <? f)%nat eqn:E.
  - apply Nat.ltb_lt in E. rewrite (proj2 (Z.ltb_lt _ _)), (proj2 (Z.leb_le _ _)) by lia. done.
  - apply Nat.ltb_ge in E. rewrite (proj2 (Z.leb_gt _ _)), andb_false_r by lia. unfold generateProof.
    rewrite (descend_rep t 32 leaves f n) by (done || rewrite Nat.mod_small; lia). rewrite Nat.mod_small by lia.
    cbn [obind fst snd]. rewrite reverse_involutive. by do 4 f_equal.
Qed.

(** ** Histories *)

Inductive DepositTreeReach : list bytes → nat → DepositTree → Prop :=
| tree_new : DepositTreeReach [] 0 NewDepositTree
| tree_insert leaves f d item d' :
    DepositTreeReach leaves f d → Z.of_nat (S (length leaves)) < 2 ^ 32 →
    TreeInsert d item = Ret (d', None) → DepositTreeReach (leaves ++ [take 32 item]) f d'
| tree_finalize leaves f d (idx : nat) hash number d' :
    DepositTreeReach leaves f d → (idx < length leaves)%nat →
    TreeFinalize d (Z.of_nat idx) hash number = Ret (d', None) → DepositTreeReach leaves (Nat.max f (S idx)) d'
| tree_restore leaves f d d' :
    DepositTreeReach leaves f d → TreeCopy d = Ret d' → DepositTreeReach (take f leaves) f d'.

Lemma TreeCopy_ok leaves f d : TreeOk leaves f d →
  ∃ d', TreeCopy d = Ret d' ∧ TreeOk (take f leaves) f d' ∧ finalizedExecutionBlock d' = finalizedExecutionBlock d.
Proof.
  intros Hok. unfold TreeCopy. rewrite (GetSnapshot_ok _ _ _ Hok). cbn [obind].
  destruct Hok as (t & Ht & HR & Hc & Hlt & Hch). pose proof (Rep_bounds _ _ _ _ HR). apply fromSnapshot_ok; [lia|lia|done].
Qed.

Lemma DepositTreeReach_ok leaves f d : DepositTreeReach leaves f d → TreeOk leaves f d.
Proof.
  induction 1 as [|leaves f d item d' _ IH Hcap Hins|leaves f d idx hash number d' _ IH Hidx Hfin|leaves f d d' _ IH Hcopy].
  - apply NewDepositTree_ok.
  - destruct (decide (32 ≤ length item)%nat) as [Hi|Hi].
    + destruct (TreeInsert_ok _ _ _ item IH Hi Hcap) as (d'' & Hins' & Hok & _). rewrite Hins in Hins'. by injection Hins' as ->.
    + unfold TreeInsert in Hins. by rewrite (proj2 (Nat.ltb_lt _ _)) in Hins by lia.
  - destruct (TreeFinalize_ok _ _ _ idx hash number IH Hidx) as (d'' & Hfin' & Hok). rewrite Hfin in Hfin'. by injection Hfin' as ->.
  - destruct (TreeCopy_ok _ _ _ IH) as (d'' & Hcopy' & Hok & _). rewrite Hcopy in Hcopy'. by injection Hcopy' as ->.
Qed.
End use.

(** * The deposit trees: theorems

    The two implementations of [cache.MerkleTree], the sparse Merkle trie and the deposit
    tree of EIP-4881, behind one interface; what the deposit tree answers after any
    history; and that a tree restored from a snapshot continues like the original. *)

(** [cache.MerkleTree]; an insertion returns the changed tree and the error. *)
Class MerkleTree (T : Type) := {
  mtHashTreeRoot : T → outcome bytes;
  mtNumOfItems : T → Z;
  mtInsert : T → bytes → Z → outcome (T * option error);
  mtMerkleProof : T → Z → outcome (list bytes)
}.

#[global] Instance SparseMerkleTrie_MerkleTree `{Sha256} : MerkleTree SparseMerkleTrie := {|
  mtHashTreeRoot := HashTreeRoot;
  mtNumOfItems := NumOfItems;
  mtInsert m item index := match Insert m item index with
                           | Ret m => Ret (m, None)
                           | Err e => Ret (m, Some e)
                           | Panic s => Panic s
                           | OutOfFuel => OutOfFuel
                           end;
  mtMerkleProof := MerkleProof
|}.
#[global] Instance DepositTree_MerkleTree `{Sha256} : MerkleTree DepositTree := {|
  mtHashTreeRoot := TreeHashTreeRoot;
  mtNumOfItems := TreeNumOfItems;
  mtInsert d item _ := TreeInsert d item;
  mtMerkleProof := TreeMerkleProof
|}.

(** Insert items one after the other, the first at [index], until an error. *)
Fixpoint insertAll `{MerkleTree T} (t : T) (index : nat) (items : list bytes) : outcome (T * option error) :=
  match items with
  | [] => Ret (t, None)
  | item :: items =>
      res <-? mtInsert t item (Z.of_nat index);;
      match res with
      | (t, None) => insertAll t (S index) items
      | failed => Ret failed
      end
  end.

Section agree.
Context `{Sha256}.

Lemma insertAll_trie items : ∀ m pre, pre ≠ [] → TrieReach 32 pre m → Forall is_chunk items →
  ∃ m', insertAll m (length pre) items = Ret (m', None) ∧ TrieReach 32 (pre ++ items) m'.
Proof.
  induction items as [|x items IH]; intros m pre Hne Hr Hch; cbn [insertAll]; [exists m; by rewrite app_nil_r|].
  inversion_clear Hch as [|? ? Hx Hrest]. destruct (Insert_progress 32 pre m x (length pre)) as (m1 & Hm1); [lia|done|done|].
  cbn [mtInsert SparseMerkleTrie_MerkleTree]. rewrite Hm1. cbn [obind].
  pose proof (reach_insert 32 pre m x (length pre) m1 Hr (le_n _) Hm1) as Hr1. rewrite ToBytes32_chunk in Hr1 by done.
  assert (setNode (length pre) x pre = pre ++ [x]) as Es by (unfold setNode; by rewrite Nat.leb_refl, orb_true_r). rewrite Es in Hr1.
  destruct (IH m1 (pre ++ [x])) as (m' & Hall & Hr'); [by destruct pre|done|done|].
  rewrite length_app, Nat.add_comm in Hall. exists m'. split; [exact Hall|]. by rewrite <- app_assoc in Hr'.
Qed.

Lemma insertAll_new_trie x items : length x = 32%nat → Forall is_chunk items →
  ∃ m0 m, NewTrie 32 = Ret m0 ∧ insertAll m0 0 (x :: items) = Ret (m, None) ∧ TrieReach 32 (x :: items) m.
Proof.
  intros Hx Hch. destruct (NewTrie 32) as [m0|e|s|] eqn:E0; try (by unfold NewTrie, GenerateTrieFromItems in E0).
  exists m0. assert (TrieReach 32 [zeroBytes 32] m0) as Hr0 by (by apply reach_generate).
  destruct (Insert_progress 32 _ m0 x 0 ltac:(lia) Hr0) as (m1 & Hm1); [lia|].
  pose proof (reach_insert 32 _ m0 x 0 m1 Hr0 ltac:(lia) Hm1) as Hr1. rewrite ToBytes32_chunk in Hr1 by done.
  change (setNode 0 x [zeroBytes 32]) with [x] in Hr1. destruct (insertAll_trie items m1 [x]) as (m & Hall & Hr); [done|done|done|].
  exists m. split; [done|]. split; [|done]. cbn [insertAll mtInsert SparseMerkleTrie_MerkleTree]. rewrite Hm1. exact Hall.
Qed.

Lemma insertAll_tree items : ∀ d pre f, DepositTreeReach pre f d → Forall is_chunk items → Z.of_nat (length pre + length items) < 2 ^ 32 →
  ∀ i, ∃ d', insertAll d i items = Ret (d', None) ∧ DepositTreeReach (pre ++ items) f d' ∧
    finalizedExecutionBlock d' = finalizedExecutionBlock d.
Proof.
  induction items as [|x items IH]; intros d pre f Hr Hch Hcap i; cbn [insertAll]; [exists d; by rewrite app_nil_r|].
  inversion_clear Hch as [|? ? Hx Hrest]. cbn [length] in Hcap.
  destruct (TreeInsert_ok _ _ _ x (DepositTreeReach_ok _ _ _ Hr)) as (d1 & Hins & _ & Hb1); [lia|lia|].
  cbn [mtInsert DepositTree_MerkleTree]. rewrite Hins. cbn [obind].
  pose proof (tree_insert _ _ _ x _ Hr ltac:(lia) Hins) as Hr1. rewrite take_ge in Hr1 by lia.
  destruct (IH d1 (pre ++ [x]) f Hr1 Hrest) with (i := S i) as (d' & Hall & Hr' & Hb'); [rewrite length_app; cbn [length]; lia|].
  exists d'. split; [done|]. rewrite <- app_assoc in Hr'. split; [done|congruence].
Qed.
End agree.

(** A trie that was only created, and one with a single all-zero item, are the same. *)
Lemma merkleRoot_zero_item `{Sha256} depth : merkleRoot [zeroBytes 32] depth = merkleRoot [] depth.
Proof. apply nodeAt_ext. intros [|k] _; [by cbn; rewrite ZeroHash_0|done]. Qed.

(** The trie after the insertions: the items, or the zero item that stands for none. *)
Lemma insertAll_trie_view `{Sha256} items : Forall is_chunk items →
  ∃ m0 m, NewTrie 32 = Ret m0 ∧ insertAll m0 0 items = Ret (m, None) ∧
    let stored := if bool_decide (items = []) then [zeroBytes 32] else items in
    TrieOk stored m ∧ trieDepth m = 32 ∧ originalItems m = stored.
Proof.
  intros Hch. assert (Hview : ∀ l m, l ≠ [] → Forall is_chunk l → TrieReach 32 l m →
    TrieOk l m ∧ trieDepth m = 32 ∧ originalItems m = l).
  { intros l m Hne Hl Hr. destruct (TrieReach_ok 32 _ m ltac:(lia) Hr) as (Hok & Hdep & Hit & _).
    assert (map ToBytes32 l = l) as Emap; [|by rewrite Emap in Hok].
    rewrite <- (map_id l) at 2. apply map_ext_in. intros c Hc%list_elem_of_In. rewrite Forall_forall in Hl.
    by apply ToBytes32_chunk, Hl. }
  destruct items as [|x items].
  - destruct (NewTrie 32) as [m0|e|s|] eqn:E0; try (by unfold NewTrie, GenerateTrieFromItems in E0).
    exists m0, m0. split; [done|]. split; [done|]. cbn. apply Hview; [done|by repeat constructor|]. by apply reach_generate.
  - destruct (insertAll_new_trie x items) as (m0 & m & Hm0 & Hm & Hrm); [by inversion Hch|by inversion Hch|].
    exists m0, m. split; [done|]. split; [exact Hm|]. cbn. by apply Hview.
Qed.

(** C29. The two Merkle trees behind the deposit interface agree, up to one case: after the
    same insertions, in both of which none fails, the deposit tree of EIP-4881 counts the
    items and has their root with the count mixed in, and the sparse Merkle trie of depth 32
    the same, and both give the same proofs; the exception is a single all-zero item, for
    which the trie counts nothing and mixes in zero.  Without an insertion both are
    empty. *)
Theorem deposit_trees_agree `{Sha256} (items : list bytes) :
  Forall is_chunk items → Z.of_nat (length items) < 2 ^ 32 →
  let count := Z.of_nat (length items) in
  let trieCount := if bool_decide (items = [zeroBytes 32]) then 0 else count in
  ∃ m0 m d, NewTrie 32 = Ret m0 ∧ insertAll m0 0 items = Ret (m, None) ∧ insertAll NewDepositTree 0 items = Ret (d, None) ∧
    (mtNumOfItems m = trieCount ∧ mtHashTreeRoot m = Ret (Hash (merkleRoot items 32 ++ encCount trieCount))) ∧
    (mtNumOfItems d = count ∧ getRoot d = Ret (Hash (merkleRoot items 32 ++ encCount count))) ∧
    ∀ n : nat, (n < length items)%nat → mtMerkleProof m (Z.of_nat n) = mtMerkleProof d (Z.of_nat n).
Proof.
  intros Hch Hcap count trieCount. destruct (insertAll_trie_view items Hch) as (m0 & m & Hm0 & Hm & Hok & Hdep & Hit).
  destruct (insertAll_tree items NewDepositTree [] 0 tree_new Hch) with (i := 0%nat) as (d & Hd & Hrd & _); [exact Hcap|].
  exists m0, m, d. split; [done|]. split; [exact Hm|]. split; [exact Hd|].
  pose proof (DepositTreeReach_ok _ _ _ Hrd) as Htok. cbn [app] in Htok.
  cbn [mtHashTreeRoot mtNumOfItems mtMerkleProof SparseMerkleTrie_MerkleTree DepositTree_MerkleTree].
  assert (Hcount : (if bool_decide (originalItems m = [zeroBytes 32]) then 0 else Z.of_nat (length (originalItems m))) = trieCount).
  { rewrite Hit. unfold trieCount, count. by destruct items. }
  split_and!.
  - exact Hcount.
  - rewrite (HashTreeRoot_ok _ _ Hok), Hdep, ZeroHash_0, Hcount. by destruct items; [rewrite merkleRoot_zero_item|].
  - destruct Htok as (t & _ & _ & Hc & _). unfold TreeNumOfItems. rewrite Hc.
    apply wrapI64_small. unfold is_i64, minInt64, maxInt64. lia.
  - exact (getRoot_ok _ _ _ Htok).
  - intros n Hn. destruct items as [|x items]; [cbn in Hn; lia|]. cbn [bool_decide decide_rel] in Hok.
    rewrite (MerkleProof_ok _ _ n Hok Hn), Hdep, Hit. unfold TreeMerkleProof.
    rewrite wrap64_small by (unfold is_u64, two64; lia). rewrite (getProof_ok _ _ _ n Htok Hn). done.
Qed.

(** The deposit tree answers for its deposits: after any history of insertions,
    finalizations and restorations from a snapshot its root is the root of all its
    deposits with their number mixed in; the proof of a deposit that is not finalized
    verifies against this root, and a proof of a finalized one is refused; inserting and
    finalizing succeed. *)
Theorem deposit_tree_correct `{Sha256} (leaves : list bytes) (f : nat) (d : DepositTree) :
  DepositTreeReach leaves f d →
  let root := Hash (merkleRoot leaves 32 ++ encCount (Z.of_nat (length leaves))) in
  getRoot d = Ret root ∧ TreeNumOfItems d = Z.of_nat (length leaves) ∧
  (∀ n leaf, leaves !! n = Some leaf →
     if (n <? f)%nat then getProof d (Z.of_nat n) = Err ErrInvalidIndex
     else ∃ proof, getProof d (Z.of_nat n) = Ret (leaf, proof) ∧ VerifyMerkleProofWithDepth root leaf (Z.of_nat n) proof 32 = Ret true) ∧
  (∀ item, length item = 32%nat → Z.of_nat (S (length leaves)) < 2 ^ 32 → ∃ d', TreeInsert d item = Ret (d', None)) ∧
  (∀ idx hash number, (idx < length leaves)%nat → ∃ d', TreeFinalize d (Z.of_nat idx) hash number = Ret (d', None)).
Proof.
  intros Hr. pose proof (DepositTreeReach_ok _ _ _ Hr) as Hok. cbv zeta. split; [by eapply getRoot_ok|].
  pose proof Hok as (t & Ht & HR & Hc & Hlt & Hch). pose proof (capacity_Z _ Hlt) as Hz. split_and!.
  - unfold TreeNumOfItems. rewrite Hc. apply wrapI64_small. unfold is_i64, minInt64, maxInt64. lia.
  - intros n leaf Hleaf. pose proof (lookup_lt_Some _ _ _ Hleaf) as Hn. rewrite (getProof_ok _ _ _ n Hok Hn).
    destruct (n <? f)%nat; [done|]. assert (nodeAt leaves 0 n = leaf) as Hnode by (unfold nodeAt; by rewrite Hleaf). rewrite Hnode.
    eexists. split; [done|]. unfold VerifyMerkleProofWithDepth. set (proof := branchOf _ _ _ _ ++ _).
    assert (Z.of_nat (length proof) = 33) as Hlen by (unfold proof, branchOf; rewrite length_app, length_map, length_seq; done).
    rewrite Hlen. change (negb (33 =? 32 +w 1)) with false. cbv iota.
    assert (length leaf = 32%nat) as Hleafc by exact (Forall_lookup_1 _ _ _ _ Hch Hleaf).
    destruct proof as [|p proof'] eqn:Ep; [cbn in Hlen; lia|]. rewrite <- Ep. rewrite ToBytes32_chunk by done. unfold proof in *.
    rewrite verifyLoop_root by (done || lia). by rewrite bool_decide_true.
  - intros item Hi Hcap. destruct (TreeInsert_ok _ _ _ item Hok) as (d' & Hd' & _); [lia|done|]. by exists d'.
  - intros idx hash number Hidx. destruct (TreeFinalize_ok _ _ _ idx hash number Hok Hidx) as (d' & Hd' & _). by exists d'.
Qed.

(** ** Snapshots *)

Section restore.
Context `{Sha256}.

Lemma length_copy32 b : length (copyBytes (zeroBytes 32) b) = 32%nat.
Proof. unfold copyBytes, zeroBytes. rewrite length_app, length_take, length_drop, length_replicate. lia. Qed.

Lemma TreeFinalize_block d i hash number d' e : TreeFinalize d i hash number = Ret (d', e) → length (ExecHash (finalizedExecutionBlock d')) = 32%nat.
Proof.
  unfold TreeFinalize, withTree. destruct (tree d); [|done]. destruct (Finalize _ _ _) as [[t _] err]. intros [= <- _]. apply length_copy32.
Qed.

Lemma reach_block leaves f d : DepositTreeReach leaves f d → length (ExecHash (finalizedExecutionBlock d)) = 32%nat.
Proof.
  induction 1 as [|leaves f d item d' Hr IH Hcap Hins|leaves f d idx hash number d' _ _ _ Hfin|leaves f d d' Hr IH Hcopy].
  - done.
  - unfold TreeInsert, pushLeaf, withTree in Hins. case_match; [done|]. destruct (tree d); [|done].
    destruct (PushLeaf _ _ _) as [[self t'] [err|]]; [done|]. by injection Hins as <-.
  - by eapply TreeFinalize_block.
  - destruct (TreeCopy_ok _ _ _ (DepositTreeReach_ok _ _ _ Hr)) as (d'' & Hcopy' & _ & Hb). rewrite Hcopy in Hcopy'. injection Hcopy' as ->. by rewrite Hb.
Qed.

Lemma finHashes_chunks h leaves f : Forall is_chunk leaves → Forall is_chunk (finHashes h leaves f).
Proof.
  revert leaves f. induction h as [|h IH]; intros leaves f Hch; cbn [finHashes].
  - case_match; [|done]. constructor; [by apply length_nodeAt|done].
  - case_match; [constructor; [by apply length_nodeAt|done]|]. apply Forall_app. split; apply IH; [by apply Forall_take|by apply Forall_drop].
Qed.

(** The protobuf message of a snapshot is read back as the snapshot. *)
Lemma snapshot_proto leaves f r b : Forall is_chunk leaves → length r = 32%nat → length (ExecHash b) = 32%nat →
  DepositTreeFromSnapshotProto (SnapshotToProto (mkSnapshot (finHashes 32 leaves f) r (Z.of_nat f) b)) =
  fromSnapshot (mkSnapshot (finHashes 32 leaves f) r (Z.of_nat f) b).
Proof.
  intros Hch Hr Hb. unfold DepositTreeFromSnapshotProto, SnapshotToProto.
  cbn [PFinalized PDepositRoot PDepositCount PExecutionHash PExecutionDepth finalized depositRoot snapshotCount snapshotBlock].
  rewrite !ToBytes32_chunk by done. assert (map ToBytes32 (finHashes 32 leaves f) = finHashes 32 leaves f) as ->.
  { rewrite <- (map_id (finHashes 32 leaves f)) at 2. apply map_ext_in. intros c Hc%list_elem_of_In.
    pose proof (finHashes_chunks 32 leaves f Hch) as Hall. rewrite Forall_forall in Hall. by apply ToBytes32_chunk, Hall. }
  by destruct b.
Qed.
End restore.

(** C26. Snapshots restore: from the stored snapshot of a deposit tree after any history, which
    holds one hash for each bit of the number of finalized deposits, a tree is restored that
    has exactly the finalized deposits and the finalized block; when it is given the other
    deposits again, its root and all its proofs are those of the original tree. *)
Theorem snapshot_restores_tree `{Sha256} (leaves : list bytes) (f : nat) (d : DepositTree) :
  DepositTreeReach leaves f d →
  ∃ p d1 d2, TreeToProto d = Ret p ∧ DepositTreeFromSnapshotProto p = Ret d1 ∧
    (TreeNumOfItems d1 = Z.of_nat f ∧ finalizedExecutionBlock d1 = finalizedExecutionBlock d) ∧
    insertAll d1 f (drop f leaves) = Ret (d2, None) ∧ getRoot d2 = getRoot d ∧
    ∀ n : nat, (n < length leaves)%nat → getProof d2 (Z.of_nat n) = getProof d (Z.of_nat n).
Proof.
  intros Hr. pose proof (DepositTreeReach_ok _ _ _ Hr) as Hok. pose proof (reach_block _ _ _ Hr) as Hb.
  pose proof Hok as (t & Ht & HR & Hc & Hlt & Hch). pose proof (capacity_Z _ Hlt) as Hz. pose proof (Rep_bounds _ _ _ _ HR) as Hf.
  destruct (TreeCopy_ok _ _ _ Hok) as (d1 & Hcopy & Hok1 & Hb1). pose proof Hcopy as Hfrom. unfold TreeCopy in Hfrom.
  rewrite (GetSnapshot_ok _ _ _ Hok) in Hfrom. cbn [obind] in Hfrom.
  pose proof (tree_restore _ _ _ _ Hr Hcopy) as Hr1.
  destruct (insertAll_tree (drop f leaves) d1 (take f leaves) f Hr1) with (i := f) as (d2 & Hins & Hr2 & _);
    [by apply Forall_drop|rewrite length_take, length_drop; lia|].
  rewrite take_drop in Hr2. pose proof (DepositTreeReach_ok _ _ _ Hr2) as Hok2.
  eexists _, d1, d2. split; [unfold TreeToProto; rewrite (GetSnapshot_ok _ _ _ Hok); reflexivity|]. split_and!.
  - rewrite snapshot_proto; [exact Hfrom|done|apply length_Hash|done].
  - destruct Hok1 as (t1 & _ & _ & Hc1 & _). unfold TreeNumOfItems. rewrite Hc1, length_take, Nat.min_l by lia.
    apply wrapI64_small. unfold is_i64, minInt64, maxInt64. lia.
  - done.
  - exact Hins.
  - by rewrite (getRoot_ok _ _ _ Hok2), (getRoot_ok _ _ _ Hok).
  - intros n Hn. by rewrite (getProof_ok _ _ _ n Hok2 Hn), (getProof_ok _ _ _ n Hok Hn).
Qed.

(** ** Witnesses

    Three deposits, of which the first two are finalized. *)

Definition deposit (b : Z) : bytes := replicate 32 b.
Definition threeDeposits : list bytes := [deposit 1; deposit 2; deposit 3].
Definition finalizedTwo : DepositTree :=
  match @insertAll _ (@DepositTree_MerkleTree fips180) NewDepositTree 0 threeDeposits with
  | Ret (d, None) => match @TreeFinalize fips180 d 1 (deposit 9) 77 with Ret (d, _) => d | _ => NewDepositTree end
  | _ => NewDepositTree
  end.

Lemma finalizedTwo_reach : @DepositTreeReach fips180 threeDeposits 2 finalizedTwo.
Proof.
  pose proof (@insertAll_tree fips180 threeDeposits NewDepositTree [] 0 tree_new) as Hi.
  destruct (Hi ltac:(repeat constructor) ltac:(cbn; lia) 0%nat) as (d & Hd & Hr & _).
  destruct (@TreeFinalize_ok fips180 _ _ _ 1 (deposit 9) 77 (@DepositTreeReach_ok fips180 _ _ _ Hr)) as (d' & Hd' & _); [cbn; lia|].
  pose proof (@tree_finalize fips180 _ _ _ 1 _ _ _ Hr ltac:(cbn; lia) Hd') as Hr'.
  assert (finalizedTwo = d') as ->; [|exact Hr']. unfold finalizedTwo. rewrite Hd. change (Z.of_nat 1) with 1 in Hd'. rewrite Hd'. done.
Qed.

Lemma deposit_trees_agree_witness :
  (∃ m0 m d, @NewTrie fips180 32 = Ret m0 ∧
    @insertAll _ (@SparseMerkleTrie_MerkleTree fips180) m0 0 threeDeposits = Ret (m, None) ∧
    @insertAll _ (@DepositTree_MerkleTree fips180) NewDepositTree 0 threeDeposits = Ret (d, None) ∧
    @HashTreeRoot fips180 m = @getRoot fips180 d ∧ NumOfItems m = 3 ∧ TreeNumOfItems d = 3) ∧
  (∃ m0 m d, @NewTrie fips180 32 = Ret m0 ∧
    @insertAll _ (@SparseMerkleTrie_MerkleTree fips180) m0 0 [zeroBytes 32] = Ret (m, None) ∧
    @insertAll _ (@DepositTree_MerkleTree fips180) NewDepositTree 0 [zeroBytes 32] = Ret (d, None) ∧
    NumOfItems m = 0 ∧ TreeNumOfItems d = 1).
Proof.
  split.
  - destruct (@deposit_trees_agree fips180 threeDeposits) as (m0 & m & d & E0 & Em & Ed & (C1 & R1) & (C2 & R2) & _);
      [repeat constructor|reflexivity|].
    exists m0, m, d. split; [exact E0|]. split; [exact Em|]. split; [exact Ed|].
    split; [exact (eq_trans R1 (eq_sym R2))|]. split; [exact C1|exact C2].
  - destruct (@deposit_trees_agree fips180 [zeroBytes 32]) as (m0 & m & d & E0 & Em & Ed & (C1 & _) & (C2 & _) & _);
      [repeat constructor|reflexivity|].
    exists m0, m, d. split; [exact E0|]. split; [exact Em|]. split; [exact Ed|]. split; [exact C1|exact C2].
Defined.

Lemma deposit_tree_correct_witness :
  @getRoot fips180 finalizedTwo = Ret (@Hash fips180 (@merkleRoot fips180 threeDeposits 32 ++ encCount 3)).
Proof. exact (proj1 (@deposit_tree_correct fips180 threeDeposits 2 finalizedTwo finalizedTwo_reach)). Defined.

Lemma snapshot_restores_tree_witness :
  ∃ p d1 d2, @TreeToProto fips180 finalizedTwo = Ret p ∧ @DepositTreeFromSnapshotProto fips180 p = Ret d1 ∧
    (TreeNumOfItems d1 = 2 ∧ finalizedExecutionBlock d1 = finalizedExecutionBlock finalizedTwo) ∧
    @insertAll _ (@DepositTree_MerkleTree fips180) d1 2 [deposit 3] = Ret (d2, None) ∧
    @getRoot fips180 d2 = @getRoot fips180 finalizedTwo ∧
    ∀ n : nat, (n < 3)%nat → @getProof fips180 d2 (Z.of_nat n) = @getProof fips180 finalizedTwo (Z.of_nat n).
Proof. exact (@snapshot_restores_tree fips180 threeDeposits 2 finalizedTwo finalizedTwo_reach). Defined.

(** ** What the code does not say *)

(** A copy is not a copy: [Copy], which says it makes a deep copy, goes through a snapshot,
    so a tree with a deposit that is not finalized yet has one item and its copy none. *)
Theorem copy_forgets_deposits :
  ∃ d d', TreeInsert NewDepositTree (deposit 1) = Ret (d, None) ∧ @TreeCopy fips180 d = Ret d' ∧
    TreeNumOfItems d = 1 ∧ TreeNumOfItems d' = 0.
Proof.
  destruct (@TreeInsert_ok fips180 [] 0 NewDepositTree (deposit 1)) as (d & Hd & Hok & _); [apply NewDepositTree_ok|cbn; lia|done|].
  destruct (@TreeCopy_ok fips180 _ _ d Hok) as (d' & Hd' & Hok' & _). exists d, d'. split; [done|]. split; [done|].
  destruct Hok as (_ & _ & _ & Hc & _), Hok' as (_ & _ & _ & Hc' & _). unfold TreeNumOfItems. by rewrite Hc, Hc'.
Qed.

(** Finalizing more deposits than there are replaces an empty subtree by one of height 0,
    whose root is wrong: the tree's root changes. *)
Example finalize_beyond_end_changes_root :
  match @insertAll _ (@DepositTree_MerkleTree fips180) NewDepositTree 0 threeDeposits with
  | Ret (d, _) => match @TreeFinalize fips180 d 5 (deposit 9) 77 with
                  | Ret (d', None) => bool_decide (@getRoot fips180 d = @getRoot fips180 d')
                  | _ => true
                  end
  | _ => true
  end = false.
Proof. vm_compute. reflexivity. Qed.
