(* ===== verification/DepositCache.v ===== *)
(** * The deposit cache

    Models [beacon-chain/cache/depositsnapshot/deposit_inserter.go], [deposit_fetcher.go]
    and [deposit_pruner.go]: the deposits seen in the deposit contract's logs, by index and
    by key, those not yet in the chain, and the deposit tree of the finalized ones.
    Deposits are shared between the lists of the cache and its callers, and pruning clears
    their proofs, so they live in a heap; the containers around them never change.  The
    lock makes every operation one step.  The hash tree root of the deposit data is
    generated code and a parameter. *)

From S2P Require Import Prelude MathHelper Bytes Sha256 Merkle SparseTrie DepositTree.

Record DepositData := mkDepositData {
  PublicKey : bytes;
  WithdrawalCredentials : bytes;
  Amount : Z;
  Signature : bytes
}.
Record Deposit := mkDeposit { Proof : option (list bytes); Data : DepositData }.

(** [None] is the nil pointer. *)
Definition DepositPtr : Type := nat.
Definition DepositHeap : Type := gmap DepositPtr Deposit.

Record DepositContainer := mkContainer {
  CDeposit : DepositPtr;
  Eth1BlockHeight : Z;
  CDepositRoot : bytes;
  Index : Z
}.

Record finalizedDepositsContainer := mkFinalizedDeposits { depositTree : DepositTree; merkleTrieIndex : Z }.

Record Cache := mkCache {
  pendingDeposits : list DepositContainer;
  deposits : list DepositContainer;
  finalizedDeposits : finalizedDepositsContainer;
  depositsByKey : gmap bytes (list DepositContainer)
}.

Definition toFinalizedDepositsContainer (t : DepositTree) (index : Z) : finalizedDepositsContainer := mkFinalizedDeposits t index.
Definition NewCache : Cache := mkCache [] [] (toFinalizedDepositsContainer NewDepositTree (-1)) ∅.

Definition MerkleTrieIndex (fd : finalizedDepositsContainer) : Z := merkleTrieIndex fd.
Definition Deposits (fd : finalizedDepositsContainer) : DepositTree := depositTree fd.

(** [sort.Search(n, f)] of the Go standard library. *)
Fixpoint searchLoop (fuel i j : nat) (f : nat → bool) : nat :=
  match fuel with
  | O => i
  | S fuel =>
      if (i <? j)%nat then
        let h := ((i + j) / 2)%nat in
        if negb (f h) then searchLoop fuel (h + 1) j f else searchLoop fuel i h f
      else i
  end.
Definition Search (n : nat) (f : nat → bool) : nat := searchLoop n 0 n f.

(** [sort.SliceStable] by index: the container goes behind those with the same index. *)
Fixpoint insertByIndex (c : DepositContainer) (l : list DepositContainer) : list DepositContainer :=
  match l with
  | [] => [c]
  | c' :: l' => if Index c <? Index c' then c :: l else c' :: insertByIndex c l'
  end.
Definition sortByIndex (l : list DepositContainer) : list DepositContainer := foldl (λ acc c, insertByIndex c acc) [] l.

Definition errNilDeposit : error := "nil deposit inserted into the cache".
Definition errWantedDeposit : error := "wanted deposit with another index to be inserted".

(** [c.depositsByKey[k] = append(c.depositsByKey[k], ctr)] *)
Definition appendByKey (k : bytes) (ctr : DepositContainer) (m : gmap bytes (list DepositContainer)) : gmap bytes (list DepositContainer) :=
  <[k := default [] (m !! k) ++ [ctr]]> m.

Section cache.
Context `{Sha256} (DataRoot : DepositData → error + bytes).

(** ** Insertion *)

Definition InsertDeposit (ctxErr : option error) (h : DepositHeap) (c : Cache) (d : option DepositPtr) (blockNum index : Z) (depositRoot : bytes)
    : outcome Cache :=
  match ctxErr, d with
  | Some e, _ => Err e
  | None, None => Err errNilDeposit
  | None, Some d =>
      if negb (index =? Z.of_nat (length (deposits c))) then Err errWantedDeposit
      else
        let heightIdx := Search (length (deposits c))
          (λ i, match deposits c !! i with Some ctr => index <=? Index ctr | None => false end) in
        let depCtr := mkContainer d blockNum depositRoot index in
        let newDeposits := depCtr :: drop heightIdx (deposits c) in
        match h !! d with
        | None => Panic nilPanic
        | Some dep =>
            Ret (mkCache (pendingDeposits c) (take heightIdx (deposits c) ++ newDeposits) (finalizedDeposits c)
                   (appendByKey (ToBytes48 (PublicKey (Data dep))) depCtr (depositsByKey c)))
        end
  end.

Fixpoint addContainers (h : DepositHeap) (ctrs : list DepositContainer) (m : gmap bytes (list DepositContainer))
    : outcome (gmap bytes (list DepositContainer)) :=
  match ctrs with
  | [] => Ret m
  | ctr :: ctrs =>
      match h !! CDeposit ctr with
      | Some dep => addContainers h ctrs (appendByKey (ToBytes48 (PublicKey (Data dep))) ctr m)
      | None => Panic nilPanic
      end
  end.
Definition InsertDepositContainers (h : DepositHeap) (c : Cache) (ctrs : list DepositContainer) : outcome Cache :=
  let ctrs := sortByIndex ctrs in
  byKey <-? addContainers h ctrs (depositsByKey c);;
  Ret (mkCache (pendingDeposits c) ctrs (finalizedDeposits c) byKey).

(** The loop that inserts the newly finalized deposits into the tree, which is changed in
    place: it is returned also with an error. *)
Fixpoint insertFinalizedLoop (h : DepositHeap) (ctrs : list DepositContainer) (currIdx eth1DepositIndex : Z) (d : DepositTree)
    : outcome (DepositTree * option error) :=
  match ctrs with
  | [] => Ret (d, None)
  | ctr :: ctrs =>
      if (currIdx <? Index ctr) && (Index ctr <=? eth1DepositIndex) then
        match h !! CDeposit ctr with
        | None => Panic nilPanic
        | Some dep =>
            match DataRoot (Data dep) with
            | inr rt =>
                res <-? TreeInsert d rt;;
                match res with
                | (d, None) => insertFinalizedLoop h ctrs currIdx eth1DepositIndex d
                | failed => Ret failed
                end
            | inl e => Ret (d, Some e)
            end
        end
      else insertFinalizedLoop h ctrs currIdx eth1DepositIndex d
  end.

Definition setFinalized (c : Cache) (d : DepositTree) (index : Z) : Cache :=
  mkCache (pendingDeposits c) (deposits c) (mkFinalizedDeposits d index) (depositsByKey c).

Definition InsertFinalizedDeposits (ctxErr : option error) (h : DepositHeap) (c : Cache) (eth1DepositIndex : Z) (executionHash : bytes)
    (executionNumber : Z) : outcome (Cache * option error) :=
  match ctxErr with
  | Some e => Ret (c, Some e)
  | None =>
      let depositTrie := depositTree (finalizedDeposits c) in
      let insertIndex := wrapI64 (MerkleTrieIndex (finalizedDeposits c) + 1) in
      if (length (deposits c) =? 0)%nat then Ret (c, None)
      else
        let eth1DepositIndex := if Z.of_nat (length (deposits c)) <=? eth1DepositIndex
                                then Z.of_nat (length (deposits c)) - 1 else eth1DepositIndex in
        if eth1DepositIndex <? insertIndex then Ret (c, None)
        else
          let currIdx := wrapI64 (wrapI64 (depositCount depositTrie) - 1) in
          res <-? insertFinalizedLoop h (deposits c) currIdx eth1DepositIndex depositTrie;;
          match res with
          | (d, Some e) => Ret (setFinalized c d (merkleTrieIndex (finalizedDeposits c)), Some e)
          | (d, None) =>
              res <-? TreeFinalize d eth1DepositIndex executionHash executionNumber;;
              match res with
              | (d, Some e) => Ret (setFinalized c d (merkleTrieIndex (finalizedDeposits c)), Some e)
              | (d, None) => Ret (setFinalized c d eth1DepositIndex, None)
              end
          end
  end.

Definition InsertPendingDeposit (c : Cache) (d : option DepositPtr) (blockNum index : Z) (depositRoot : bytes) : Cache :=
  match d with
  | None => c
  | Some d => mkCache (pendingDeposits c ++ [mkContainer d blockNum depositRoot index]) (deposits c) (finalizedDeposits c) (depositsByKey c)
  end.

(** ** Queries *)

(** [untilBlk == nil || untilBlk >= height]; [untilBlk] is [None] for nil. *)
Definition upToBlock (untilBlk : option Z) (height : Z) : bool :=
  match untilBlk with None => true | Some b => height <=? b end.

Definition allDeposits (c : Cache) (untilBlk : option Z) : list DepositPtr :=
  map CDeposit (filter (λ ctnr, upToBlock untilBlk (Eth1BlockHeight ctnr) = true) (deposits c)).

Definition AllDepositContainers (c : Cache) : list DepositContainer := deposits c.

Definition DepositByPubkey (c : Cache) (pubKey : bytes) : option (DepositPtr * Z) :=
  match depositsByKey c !! ToBytes48 pubKey with
  | Some (ctr :: _) => Some (CDeposit ctr, wrapI64 (Eth1BlockHeight ctr))
  | _ => None
  end.

Definition DepositsNumberAndRootAtHeight (c : Cache) (blockHeight : Z) : outcome (Z * bytes) :=
  let heightIdx := Search (length (deposits c))
    (λ i, match deposits c !! i with Some ctr => blockHeight <? Eth1BlockHeight ctr | None => false end) in
  if (heightIdx =? 0)%nat then Ret (0, zeroBytes 32)
  else match deposits c !! (heightIdx - 1)%nat with
       | Some ctr => Ret (Z.of_nat heightIdx, ToBytes32 (CDepositRoot ctr))
       | None => Panic indexPanic
       end.

Definition FinalizedDeposits (c : Cache) : outcome finalizedDepositsContainer :=
  t <-? TreeCopy (depositTree (finalizedDeposits c));;
  Ret (mkFinalizedDeposits t (merkleTrieIndex (finalizedDeposits c))).

(** The tree is never nil here; [untilBlk.Uint64()] takes the low 64 bits. *)
Definition NonFinalizedDeposits (c : Cache) (lastFinalizedIndex : Z) (untilBlk : option Z) : list DepositPtr :=
  map CDeposit (filter (λ d, lastFinalizedIndex < Index d ∧
      upToBlock (option_map wrap64 untilBlk) (Eth1BlockHeight d) = true) (deposits c)).

Definition PendingContainers (c : Cache) (untilBlk : option Z) : list DepositContainer :=
  sortByIndex (filter (λ ctnr, upToBlock (option_map wrap64 untilBlk) (Eth1BlockHeight ctnr) = true) (pendingDeposits c)).

Definition PendingDeposits (c : Cache) (untilBlk : option Z) : list DepositPtr := map CDeposit (PendingContainers c untilBlk).

(** ** Pruning *)

Definition clearProof (d : Deposit) : Deposit := mkDeposit None (Data d).

(** From container [n - 1] downwards, until a proof is nil already. *)
Fixpoint pruneProofLoop (n : nat) (ctrs : list DepositContainer) (h : DepositHeap) : outcome DepositHeap :=
  match n with
  | O => Ret h
  | S i =>
      match ctrs !! i with
      | None => Panic indexPanic
      | Some ctr =>
          match h !! CDeposit ctr with
          | None => Panic nilPanic
          | Some dep =>
              match Proof dep with
              | None => Ret h
              | Some _ => pruneProofLoop i ctrs (<[CDeposit ctr := clearProof dep]> h)
              end
          end
      end
  end.

Definition PruneProofs (c : Cache) (untilDepositIndex : Z) (h : DepositHeap) : outcome DepositHeap :=
  let untilDepositIndex := if Z.of_nat (length (deposits c)) <=? untilDepositIndex
                           then Z.of_nat (length (deposits c)) - 1 else untilDepositIndex in
  pruneProofLoop (Z.to_nat (untilDepositIndex + 1)) (deposits c) h.

Definition PruneAllProofs (c : Cache) (h : DepositHeap) : outcome DepositHeap :=
  pruneProofLoop (length (deposits c)) (deposits c) h.

Definition PrunePendingDeposits (c : Cache) (merkleTreeIndex : Z) : Cache :=
  if merkleTreeIndex =? 0 then c
  else mkCache (filter (λ dp, merkleTreeIndex ≤ Index dp) (pendingDeposits c)) (deposits c) (finalizedDeposits c) (depositsByKey c).

Definition PruneAllPendingDeposits (c : Cache) : Cache :=
  mkCache [] (deposits c) (finalizedDeposits c) (depositsByKey c).
End cache.
