(* ===== verification/DepositCacheTheorems.v ===== *)
(** * The deposit cache: correctness

    The invariant of the cache and that every operation keeps it, errors included: the
    deposits are in the order of their indices, the index by key lists exactly the deposits
    of each key, and the tree holds the roots of a prefix of the deposits, of which those up
    to the trie index are finalized. *)

From stdpp Require Import sorting.
From S2P Require Import Prelude MathHelper Bytes Sha256 Merkle Ssz SszRoots SparseTrie SparseTrieProofs DepositTree DepositSnapshots DepositTheorems DepositCache.

(** ** Binary search *)

Lemma searchLoop_spec fuel i j n f :
  (j ≤ n)%nat → (i ≤ j)%nat → (j - i ≤ fuel)%nat → (∀ a b, (a ≤ b < n)%nat → f a = true → f b = true) →
  (∀ k, (k < i)%nat → f k = false) → (∀ k, (j ≤ k < n)%nat → f k = true) →
  let r := searchLoop fuel i j f in
  (r ≤ n)%nat ∧ (∀ k, (k < r)%nat → f k = false) ∧ (∀ k, (r ≤ k < n)%nat → f k = true).
Proof.
  intros Hjn. revert i j Hjn. induction fuel as [|fuel IH]; intros i j Hjn Hij Hfuel Hmono Hlo Hhi; cbn [searchLoop].
  { replace j with i in * by lia. split_and!; [lia|done|done]. }
  destruct (i <? j)%nat eqn:E.
  - apply Nat.ltb_lt in E. assert (i ≤ (i + j) / 2 < j)%nat as Hh.
    { split; [apply Nat.div_le_lower_bound; lia|apply Nat.Div0.div_lt_upper_bound; lia]. }
    set (m := ((i + j) / 2)%nat) in *. destruct (f m) eqn:Ef; cbn [negb].
    + apply IH; [lia..|done|done|]. intros k Hk. by apply (Hmono m k); [lia|].
    + apply IH; [lia..|done| |done]. intros k Hk. destruct (f k) eqn:Efk; [|done].
      rewrite (Hmono k m) in Ef; [done|lia|done].
  - apply Nat.ltb_ge in E. replace j with i in * by lia. split_and!; [lia|done|done].
Qed.

Lemma Search_spec n f : (∀ a b, (a ≤ b < n)%nat → f a = true → f b = true) →
  (Search n f ≤ n)%nat ∧ (∀ k, (k < Search n f)%nat → f k = false) ∧ (∀ k, (Search n f ≤ k < n)%nat → f k = true).
Proof. intros Hmono. apply searchLoop_spec; [lia..|done|lia|lia]. Qed.

Lemma filter_iff_elem {A} (P Q : A → Prop) `{∀ x, Decision (P x)} `{∀ x, Decision (Q x)} (l : list A) :
  (∀ x, x ∈ l → P x ↔ Q x) → filter P l = filter Q l.
Proof.
  induction l as [|x l IH]; intros Hpq; [done|]. rewrite !filter_cons, IH by (intros; apply Hpq; by constructor).
  pose proof (Hpq x ltac:(constructor)). repeat case_decide; tauto.
Qed.

Section cache.
Context `{Sha256} (DataRoot : DepositData → error + bytes).

(** ** The invariant *)

Definition HasRoot (h : DepositHeap) (ctr : DepositContainer) (r : bytes) : Prop :=
  ∃ dep, h !! CDeposit ctr = Some dep ∧ DataRoot (Data dep) = inr r.

(** The key a container is filed under. *)
Definition keyOf (h : DepositHeap) (ctr : DepositContainer) : option bytes :=
  (λ dep, ToBytes48 (PublicKey (Data dep))) <$> h !! CDeposit ctr.

Record CacheOk (h : DepositHeap) (c : Cache) : Prop := {
  co_index : ∀ i ctr, deposits c !! i = Some ctr → Index ctr = Z.of_nat i;
  co_deref : ∀ ctr, ctr ∈ deposits c → is_Some (h !! CDeposit ctr);
  co_keys : ∀ k, default [] (depositsByKey c !! k) = filter (λ ctr, keyOf h ctr = Some k) (deposits c);
  co_tree : ∃ roots f, TreeOk roots f (depositTree (finalizedDeposits c)) ∧
    Forall2 (HasRoot h) (take (length roots) (deposits c)) roots ∧ (length roots ≤ length (deposits c))%nat ∧
    Z.of_nat f = merkleTrieIndex (finalizedDeposits c) + 1
}.

Lemma NewCache_ok h : CacheOk h NewCache.
Proof.
  constructor; cbn; [done|set_solver|by intros k; rewrite lookup_empty|].
  exists [], 0%nat. split; [apply NewDepositTree_ok|]. split; [constructor|]. split; [done|lia].
Qed.

(** Two heaps that differ in proofs and in what is not in the cache. *)
Definition sameData (h h' : DepositHeap) : Prop := ∀ p dep, h !! p = Some dep → ∃ dep', h' !! p = Some dep' ∧ Data dep' = Data dep.

Lemma keyOf_sameData h h' ctr : sameData h h' → is_Some (h !! CDeposit ctr) → keyOf h' ctr = keyOf h ctr.
Proof. intros Hs [dep Hdep]. unfold keyOf. destruct (Hs _ _ Hdep) as (dep' & Hd' & Ed). rewrite Hdep, Hd'. cbn. by rewrite Ed. Qed.

Lemma HasRoot_sameData h h' ctr r : sameData h h' → HasRoot h ctr r → HasRoot h' ctr r.
Proof. intros Hs (dep & Hdep & Hr). destruct (Hs _ _ Hdep) as (dep' & Hd' & Ed). exists dep'. by rewrite Ed. Qed.

Lemma CacheOk_sameData h h' c : sameData h h' → CacheOk h c → CacheOk h' c.
Proof.
  intros Hs [Hi Hd Hk (roots & f & Ht & Hr & Hl & Hf)]. constructor; [done| | |].
  - intros ctr [dep Hdep]%Hd. destruct (Hs _ _ Hdep) as (dep' & Hd' & _). by exists dep'.
  - intros k. rewrite Hk. apply filter_iff_elem. intros ctr Hctr. by rewrite (keyOf_sameData h h') by (done || by apply Hd).
  - exists roots, f. split_and!; [done| |done|done]. eapply Forall2_impl; [exact Hr|]. intros ctr r. by apply HasRoot_sameData.
Qed.

(** ** Insertion *)

Lemma InsertDeposit_ok h c d blockNum root dep :
  CacheOk h c → h !! d = Some dep →
  let ctr := mkContainer d blockNum root (Z.of_nat (length (deposits c))) in
  ∃ c', InsertDeposit None h c (Some d) blockNum (Z.of_nat (length (deposits c))) root = Ret c' ∧
    deposits c' = deposits c ++ [ctr] ∧ finalizedDeposits c' = finalizedDeposits c ∧ pendingDeposits c' = pendingDeposits c ∧ CacheOk h c'.
Proof.
  intros [Hi Hd Hk (roots & f & Ht & Hr & Hl & Hf)] Hdep. cbv zeta. unfold InsertDeposit. rewrite Z.eqb_refl. cbn [negb].
  set (ctr := mkContainer d blockNum root (Z.of_nat (length (deposits c)))).
  set (test := λ i, match deposits c !! i with Some ctr => Z.of_nat (length (deposits c)) <=? Index ctr | None => false end).
  assert (∀ k, (k < length (deposits c))%nat → test k = false) as Hfalse.
  { intros k Hkl. unfold test. destruct (deposits c !! k) as [x|] eqn:Ex; [|done]. rewrite (Hi _ _ Ex). apply Z.leb_gt. lia. }
  destruct (Search_spec (length (deposits c)) test) as (Hs1 & _ & Hs2).
  { intros a b Hab Ha. rewrite Hfalse in Ha by lia. done. }
  assert (Search (length (deposits c)) test = length (deposits c)) as Hs.
  { destruct (decide (Search (length (deposits c)) test < length (deposits c))%nat) as [Hlt|]; [|lia].
    pose proof (Hs2 _ (conj (le_n _) Hlt)) as Ht'. by rewrite Hfalse in Ht'. }
  rewrite Hs, Hdep, take_ge, drop_ge by lia. eexists. split; [done|]. cbn [deposits finalizedDeposits pendingDeposits depositsByKey].
  split_and!; [done..|]. constructor; cbn [deposits finalizedDeposits depositsByKey].
  - intros i x Hx. destruct (decide (i < length (deposits c))%nat); [rewrite lookup_app_l in Hx by done; by apply Hi|].
    rewrite lookup_app_r in Hx by lia. apply list_lookup_singleton_Some in Hx as [Hz <-]. cbn. lia.
  - intros x [Hx|Hx%list_elem_of_singleton]%elem_of_app; [by apply Hd|]. subst x. cbn. by exists dep.
  - intros k. unfold appendByKey. rewrite filter_app. assert (keyOf h ctr = Some (ToBytes48 (PublicKey (Data dep)))) as Hkey by (unfold keyOf, ctr; cbn; by rewrite Hdep).
    destruct (decide (k = ToBytes48 (PublicKey (Data dep)))) as [->|Hne].
    + rewrite lookup_insert_eq. cbn [default from_option]. rewrite Hk. f_equal. by rewrite filter_cons_True.
    + rewrite lookup_insert_ne by done. rewrite Hk. rewrite filter_cons_False, filter_nil, app_nil_r; [done|]. rewrite Hkey. congruence.
  - exists roots, f. split_and!; [done| |rewrite length_app; lia|done]. by rewrite take_app_le.
Qed.

(** ** The load at start-up *)

Lemma insertByIndex_perm c l : insertByIndex c l ≡ₚ c :: l.
Proof. induction l as [|c' l IH]; cbn [insertByIndex]; [done|]. case_if; [done|]. rewrite IH. apply Permutation_swap. Qed.

Lemma sortByIndex_perm l : sortByIndex l ≡ₚ l.
Proof.
  unfold sortByIndex. assert (∀ acc, foldl (λ acc c, insertByIndex c acc) acc l ≡ₚ acc ++ l) as Hgen; [|apply Hgen].
  induction l as [|c l IH]; intros acc; cbn [foldl]; [by rewrite app_nil_r|].
  rewrite IH, insertByIndex_perm. cbn. by rewrite Permutation_middle.
Qed.

Lemma insertByIndex_sorted c l : StronglySorted Z.le (map Index l) → StronglySorted Z.le (map Index (insertByIndex c l)).
Proof.
  induction l as [|c' l IH]; cbn [insertByIndex map]; intros Hs; [by repeat constructor|].
  apply StronglySorted_inv in Hs as [Hs Hall]. destruct (Index c <? Index c') eqn:E.
  - bprop. cbn [map]. constructor; [by constructor|]. constructor; [lia|]. eapply Forall_impl; [exact Hall|]. intros. lia.
  - bprop. cbn [map]. constructor; [by apply IH|]. rewrite (Permutation_map Index (insertByIndex_perm c l)). cbn [map].
    by constructor.
Qed.

Lemma sortByIndex_sorted l : StronglySorted Z.le (map Index (sortByIndex l)).
Proof.
  unfold sortByIndex. assert (∀ acc, StronglySorted Z.le (map Index acc) →
    StronglySorted Z.le (map Index (foldl (λ acc c, insertByIndex c acc) acc l))) as Hgen; [|apply Hgen; constructor].
  induction l as [|c l IH]; intros acc Hacc; cbn [foldl]; [done|]. by apply IH, insertByIndex_sorted.
Qed.

Lemma seq_sorted n m : StronglySorted Z.le (map Z.of_nat (seq n m)).
Proof.
  revert n. induction m as [|m IH]; intros n; cbn; constructor; [apply IH|]. apply Forall_forall.
  intros x (k & -> & Hk%elem_of_seq)%list_elem_of_fmap. lia.
Qed.

(** Containers with the indices from 0 on, in any order. *)
Definition consecutive (ctrs : list DepositContainer) : Prop := map Index ctrs ≡ₚ map Z.of_nat (seq 0 (length ctrs)).

Lemma sortByIndex_consecutive ctrs i ctr : consecutive ctrs → sortByIndex ctrs !! i = Some ctr → Index ctr = Z.of_nat i.
Proof.
  intros Hc Hi. assert (map Index (sortByIndex ctrs) = map Z.of_nat (seq 0 (length ctrs))) as E.
  { apply (StronglySorted_unique Z.le); [apply sortByIndex_sorted|apply seq_sorted|].
    etrans; [apply Permutation_map, sortByIndex_perm|exact Hc]. }
  assert (map Index (sortByIndex ctrs) !! i = Some (Index ctr)) as Hx by (by rewrite list_lookup_fmap, Hi).
  rewrite E, list_lookup_fmap in Hx. destruct (seq 0 (length ctrs) !! i) as [k|] eqn:Ek; [|done].
  apply lookup_seq in Ek as [-> _]. by injection Hx as <-.
Qed.

Lemma addContainers_inv h ctrs m m' : addContainers h ctrs m = Ret m' →
  (∀ ctr, ctr ∈ ctrs → is_Some (h !! CDeposit ctr)) ∧
  ∀ k, default [] (m' !! k) = default [] (m !! k) ++ filter (λ ctr, keyOf h ctr = Some k) ctrs.
Proof.
  revert m. induction ctrs as [|ctr ctrs IH]; intros m; cbn [addContainers].
  { intros [= ->]. split; [set_solver|]. intros k. by rewrite filter_nil, app_nil_r. }
  destruct (h !! CDeposit ctr) as [dep|] eqn:Ed; [|done]. intros [H1 H2]%IH. split.
  { intros x [->|Hx]%elem_of_cons; [by rewrite Ed|by apply H1]. }
  assert (keyOf h ctr = Some (ToBytes48 (PublicKey (Data dep)))) as Hkey by (unfold keyOf; by rewrite Ed).
  intros k. rewrite H2, filter_cons, Hkey. unfold appendByKey. rewrite lookup_insert.
  destruct (decide (ToBytes48 (PublicKey (Data dep)) = k)) as [->|Hne].
  - rewrite decide_True by done. exact (eq_sym (app_assoc _ [ctr] _)).
  - by rewrite !decide_False by congruence.
Qed.

Lemma InsertDepositContainers_ok h ctrs c' :
  consecutive ctrs → InsertDepositContainers h NewCache ctrs = Ret c' → CacheOk h c' ∧ deposits c' = sortByIndex ctrs.
Proof.
  intros Hc. unfold InsertDepositContainers. destruct (addContainers h (sortByIndex ctrs) _) as [m| | |] eqn:E; [|done..].
  cbn [obind]. intros [= <-]. apply addContainers_inv in E as [H1 H2]. split; [|done]. constructor; cbn [deposits depositsByKey finalizedDeposits NewCache].
  - intros i ctr. by apply sortByIndex_consecutive.
  - done.
  - intros k. rewrite H2. cbn. by rewrite lookup_empty.
  - exists [], 0%nat. split; [apply NewDepositTree_ok|]. split; [constructor|]. cbn. split; [lia|done].
Qed.

(** ** Pruning *)

Lemma pruneProofLoop_sameData ctrs n : ∀ h h', pruneProofLoop n ctrs h = Ret h' → sameData h h'.
Proof.
  induction n as [|n IH]; intros h h'; cbn [pruneProofLoop]; [intros [= ->]; by intros p dep Hp; exists dep|].
  destruct (ctrs !! n) as [ctr|]; [|done]. destruct (h !! CDeposit ctr) as [dep|] eqn:Ed; [|done].
  destruct (Proof dep); [|intros [= ->]; by intros p x Hp; exists x].
  intros Hs%IH p x Hp. destruct (decide (p = CDeposit ctr)) as [->|Hne].
  - destruct (Hs (CDeposit ctr) (clearProof dep)) as (y & Hy & Ey); [apply lookup_insert_eq|]. exists y. split; [done|]. rewrite Ey. cbn. congruence.
  - apply (Hs p x). rewrite <- Hp. by apply lookup_insert_ne.
Qed.

Lemma pruneProofLoop_total ctrs n : ∀ h, (n ≤ length ctrs)%nat → (∀ ctr, ctr ∈ ctrs → is_Some (h !! CDeposit ctr)) →
  ∃ h', pruneProofLoop n ctrs h = Ret h'.
Proof.
  induction n as [|n IH]; intros h Hn Hd; cbn [pruneProofLoop]; [by exists h|].
  destruct (lookup_lt_is_Some_2 ctrs n ltac:(lia)) as [ctr Hctr]. rewrite Hctr.
  destruct (Hd ctr) as [dep Hdep]; [by eapply list_elem_of_lookup_2|]. rewrite Hdep. destruct (Proof dep); [|by eexists].
  apply IH; [lia|]. intros x Hx.
  destruct (decide (CDeposit ctr = CDeposit x)) as [<-|Hne]; [eexists; apply lookup_insert_eq|].
  destruct (Hd x Hx) as [y Hy]. exists y. rewrite <- Hy. by apply lookup_insert_ne.
Qed.

(** ** Finalization *)

Hypothesis DataRoot_chunk : ∀ x r, DataRoot x = inr r → length r = 32%nat.

Lemma insertFinalizedLoop_ok h D f (n e : nat) ctrs : ∀ k R d,
  ctrs = drop k D → (∀ i ctr, D !! i = Some ctr → Index ctr = Z.of_nat i) → (∀ ctr, ctr ∈ D → is_Some (h !! CDeposit ctr)) →
  Z.of_nat (length D) < 2 ^ 32 → (n ≤ length D)%nat → (e < length D)%nat → (k ≤ length D)%nat →
  TreeOk R f d → Forall2 (HasRoot h) (take (length R) D) R → length R = Nat.max n (Nat.min k (e + 1)) →
  ∃ d' err R', insertFinalizedLoop DataRoot h ctrs (Z.of_nat n - 1) (Z.of_nat e) d = Ret (d', err) ∧
    TreeOk R' f d' ∧ Forall2 (HasRoot h) (take (length R') D) R' ∧ (length R' ≤ length D)%nat ∧
    match err with
    | None => length R' = Nat.max n (e + 1)
    | Some m => ∃ i ctr dep, (i ≤ e)%nat ∧ D !! i = Some ctr ∧ h !! CDeposit ctr = Some dep ∧ DataRoot (Data dep) = inl m
    end.
Proof.
  induction ctrs as [|ctr ctrs IH]; intros k R d Hctrs Hidx Hderef Hcap Hn He Hk Ht HR HlenR; cbn [insertFinalizedLoop].
  { assert (k = length D) as ->.
    { apply (f_equal length) in Hctrs. rewrite length_drop in Hctrs. cbn in Hctrs. lia. }
    exists d, None, R. split_and!; [done|done|done|lia|lia]. }
  assert (D !! k = Some ctr ∧ ctrs = drop (S k) D) as [Hctr Hrest].
  { split; [by rewrite <- (Nat.add_0_r k), <- lookup_drop, <- Hctrs|].
    rewrite <- Nat.add_1_r, <- drop_drop, <- Hctrs. done. }
  pose proof (lookup_lt_Some _ _ _ Hctr) as Hlt. rewrite (Hidx _ _ Hctr).
  destruct ((Z.of_nat n - 1 <? Z.of_nat k) && (Z.of_nat k <=? Z.of_nat e)) eqn:E.
  - bprop. destruct (Hderef ctr) as [dep Hdep]; [by eapply list_elem_of_lookup_2|]. rewrite Hdep.
    destruct (DataRoot (Data dep)) as [m|r] eqn:Er.
    + exists d, (Some m), R. split_and!; [done|done|done|lia|]. exists k, ctr, dep. split_and!; [lia|done..].
    + pose proof (DataRoot_chunk _ _ Er) as Hr. assert (length R = k) as HRk by lia.
      destruct (TreeInsert_ok R f d r Ht) as (d1 & Hins & Ht1 & _); [lia|lia|]. rewrite Hins. cbn [obind].
      rewrite take_ge in Ht1 by lia. apply (IH (S k) (R ++ [r])); try done; [|rewrite length_app; cbn [length]; lia].
      rewrite length_app. cbn [length]. rewrite HRk, Nat.add_1_r, (take_S_r _ _ _ Hctr). rewrite HRk in HR.
      apply Forall2_app; [done|]. constructor; [by exists dep|constructor].
  - apply (IH (S k) R); try done.
    apply andb_false_iff in E as [E|E]; bprop; lia.
Qed.

(** Whatever [InsertFinalizedDeposits] does, it returns, and the cache stays consistent; without
    an error the trie index becomes the requested one, or the last deposit's, and never falls. *)
Lemma InsertFinalizedDeposits_ok h c i hash number :
  CacheOk h c → Z.of_nat (length (deposits c)) < 2 ^ 32 →
  ∃ c' err, InsertFinalizedDeposits DataRoot None h c i hash number = Ret (c', err) ∧ CacheOk h c' ∧
    deposits c' = deposits c ∧ pendingDeposits c' = pendingDeposits c ∧ depositsByKey c' = depositsByKey c ∧
    match err with
    | None => merkleTrieIndex (finalizedDeposits c') =
                Z.max (merkleTrieIndex (finalizedDeposits c)) (Z.min i (Z.of_nat (length (deposits c)) - 1))
    | Some m => merkleTrieIndex (finalizedDeposits c') = merkleTrieIndex (finalizedDeposits c) ∧
        ∃ (k : nat) ctr dep, Z.of_nat k ≤ i ∧ deposits c !! k = Some ctr ∧ h !! CDeposit ctr = Some dep ∧ DataRoot (Data dep) = inl m
    end.
Proof.
  intros Hok Hcap. pose proof Hok as [Hidx Hd Hk (roots & f & Ht & Hr & Hl & Hf)]. unfold InsertFinalizedDeposits, MerkleTrieIndex.
  pose proof Ht as (t & _ & HR & Hcnt & _). pose proof (Rep_bounds _ _ _ _ HR) as Hb.
  assert (wrapI64 (merkleTrieIndex (finalizedDeposits c) + 1) = Z.of_nat f) as Hwrap.
  { rewrite wrapI64_small; [lia|]. unfold is_i64, minInt64, maxInt64. lia. }
  rewrite Hwrap. destruct (length (deposits c) =? 0)%nat eqn:E0.
  { apply Nat.eqb_eq in E0. exists c, None. split_and!; [done..|]. lia. }
  apply Nat.eqb_neq in E0. destruct (decide (i < 0)) as [Hneg|Hi].
  { rewrite (proj2 (Z.leb_gt _ _)), (proj2 (Z.ltb_lt _ _)) by lia. exists c, None. split_and!; [done..|]. lia. }
  set (i' := if Z.of_nat (length (deposits c)) <=? i then _ else _).
  assert (i' = Z.of_nat (Z.to_nat (Z.min i (Z.of_nat (length (deposits c)) - 1)))) as ->.
  { unfold i'. destruct (Z.of_nat (length (deposits c)) <=? i) eqn:E; bprop; lia. }
  set (e := Z.to_nat (Z.min i (Z.of_nat (length (deposits c)) - 1))). destruct (Z.of_nat e <? Z.of_nat f) eqn:Ef; bprop.
  { exists c, None. split_and!; [done..|]. lia. }
  rewrite Hcnt. rewrite (wrapI64_small (Z.of_nat (length roots))), wrapI64_small by (unfold is_i64, minInt64, maxInt64; lia).
  destruct (insertFinalizedLoop_ok h (deposits c) f (length roots) e (deposits c) 0 roots (depositTree (finalizedDeposits c)))
    as (d' & err & R' & Hloop & Ht' & HR' & Hl' & Herr); try done; [lia..|].
  rewrite Hloop. cbn [obind]. destruct err as [m|].
  - exists (setFinalized c d' (merkleTrieIndex (finalizedDeposits c))), (Some m). split; [done|]. split; [|split_and!; try done].
    + constructor; [done..|]. by exists R', f.
    + destruct Herr as (k & ctr & dep & ? & ? & ? & ?). exists k, ctr, dep. split_and!; [lia|done..].
  - destruct (TreeFinalize_ok R' f d' e hash number Ht') as (d2 & Hfin & Hok2); [lia|]. rewrite Hfin. cbn [obind].
    exists (setFinalized c d2 (Z.of_nat e)), None. split; [done|]. split; [|split_and!; try done; cbn; lia].
    constructor; [done..|]. exists R', (Nat.max f (S e)). split_and!; [done..|]. cbn. lia.
Qed.

End cache.

(** * The deposit cache: theorems

    What the cache answers after any history of its operations. *)

(** ** Histories

    Callers make new deposits; the operations of the cache run one at a time, under its
    lock.  A node fills its new cache at start-up with the containers of its database, which
    have the indices from 0 on.  The contract has room for fewer than 2^32 deposits. *)
Inductive CacheReach `{Sha256} (DataRoot : DepositData → error + bytes) : DepositHeap → Cache → Prop :=
| cache_new h : CacheReach DataRoot h NewCache
| cache_load h ctrs c :
    consecutive ctrs → InsertDepositContainers h NewCache ctrs = Ret c → CacheReach DataRoot h c
| cache_alloc h c p dep : CacheReach DataRoot h c → h !! p = None → CacheReach DataRoot (<[p := dep]> h) c
| cache_insert h c ctxErr d blockNum index root c' :
    CacheReach DataRoot h c → InsertDeposit ctxErr h c d blockNum index root = Ret c' → CacheReach DataRoot h c'
| cache_finalize h c ctxErr index hash number c' err :
    CacheReach DataRoot h c → Z.of_nat (length (deposits c)) < 2 ^ 32 →
    InsertFinalizedDeposits DataRoot ctxErr h c index hash number = Ret (c', err) → CacheReach DataRoot h c'
| cache_pending h c d blockNum index root : CacheReach DataRoot h c → CacheReach DataRoot h (InsertPendingDeposit c d blockNum index root)
| cache_prune_pending h c index : CacheReach DataRoot h c → CacheReach DataRoot h (PrunePendingDeposits c index)
| cache_prune_all_pending h c : CacheReach DataRoot h c → CacheReach DataRoot h (PruneAllPendingDeposits c)
| cache_prune_proofs h c index h' : CacheReach DataRoot h c → PruneProofs c index h = Ret h' → CacheReach DataRoot h' c
| cache_prune_all_proofs h c h' : CacheReach DataRoot h c → PruneAllProofs c h = Ret h' → CacheReach DataRoot h' c.

Section cache.
Context `{Sha256} (DataRoot : DepositData → error + bytes).
Hypothesis DataRoot_chunk : ∀ x r, DataRoot x = inr r → length r = 32%nat.

(** Changes outside the indexed deposits and the tree. *)
Lemma CacheOk_pending h c l : CacheOk DataRoot h c → CacheOk DataRoot h (mkCache l (deposits c) (finalizedDeposits c) (depositsByKey c)).
Proof. by intros [? ? ? ?]. Qed.

Lemma InsertDeposit_inv ctxErr h c d blockNum index root c' : InsertDeposit ctxErr h c d blockNum index root = Ret c' →
  ∃ p dep, ctxErr = None ∧ d = Some p ∧ h !! p = Some dep ∧ index = Z.of_nat (length (deposits c)).
Proof.
  unfold InsertDeposit. destruct ctxErr as [e|], d as [p|]; try done. case_match eqn:E; [done|].
  apply negb_false_iff in E. bprop. destruct (h !! p) as [dep|] eqn:Ed; [|done]. intros _. by exists p, dep.
Qed.

Lemma CacheReach_ok h c : CacheReach DataRoot h c → CacheOk DataRoot h c.
Proof.
  induction 1 as [h|h ctrs c Hc Hload|h c p dep _ IH Hp|h c ctxErr d blockNum index root c' _ IH Hins|h c ctxErr index hash number c' err _ IH Hcap Hfin
    |h c d blockNum index root _ IH|h c index _ IH|h c _ IH|h c index h' _ IH Hpr|h c h' _ IH Hpr].
  - apply NewCache_ok.
  - by apply (InsertDepositContainers_ok DataRoot h ctrs c Hc).
  - eapply CacheOk_sameData; [|done]. intros q x Hq. exists x. split; [|done]. rewrite <- Hq. apply lookup_insert_ne. congruence.
  - destruct (InsertDeposit_inv _ _ _ _ _ _ _ _ Hins) as (p & dep & -> & -> & Hp & ->).
    destruct (InsertDeposit_ok DataRoot h c p blockNum root dep IH Hp) as (c1 & Hins1 & _ & _ & _ & Hok).
    rewrite Hins in Hins1. by injection Hins1 as ->.
  - destruct ctxErr as [e|]; [by injection Hfin as <- _|].
    destruct (InsertFinalizedDeposits_ok DataRoot DataRoot_chunk h c index hash number IH Hcap) as (c1 & err1 & Hfin1 & Hok & _).
    rewrite Hfin in Hfin1. by injection Hfin1 as -> _.
  - unfold InsertPendingDeposit. destruct d; [by apply CacheOk_pending|done].
  - unfold PrunePendingDeposits. case_match; [done|by apply CacheOk_pending].
  - by apply CacheOk_pending.
  - eapply CacheOk_sameData; [|done]. by eapply pruneProofLoop_sameData.
  - eapply CacheOk_sameData; [|done]. by eapply pruneProofLoop_sameData.
Qed.

Lemma HasRoot_functional h l R R' : Forall2 (HasRoot DataRoot h) l R → Forall2 (HasRoot DataRoot h) l R' → R = R'.
Proof.
  intros HR. revert R'. induction HR as [|ctr r l R (dep & Hd & Hr) _ IH]; intros R' HR'; inversion HR' as [|? r' ? ? (dep' & Hd' & Hr') HR1]; [done|].
  f_equal; [congruence|by apply IH].
Qed.

Lemma filter_above l (n : nat) : ∀ k, (∀ i ctr, l !! i = Some ctr → Index ctr = Z.of_nat (k + i)) →
  filter (λ d, Z.of_nat n - 1 < Index d ∧ upToBlock None (Eth1BlockHeight d) = true) l = drop (n - k) l.
Proof.
  induction l as [|ctr l IH]; intros k Hidx; [by rewrite drop_nil|]. pose proof (Hidx 0%nat ctr eq_refl) as Hctr.
  rewrite filter_cons, (IH (S k)) by (intros i x Hx; rewrite (Hidx (S i) x Hx); f_equal; lia). case_decide as Hd; cbn [upToBlock] in *.
  - replace (n - k)%nat with 0%nat by lia. replace (n - S k)%nat with 0%nat by lia. done.
  - assert (k < n)%nat by (apply not_and_r in Hd as [?|?]; [lia|done]). by replace (n - k)%nat with (S (n - S k)) by lia.
Qed.

Lemma insertAll_ok items : ∀ d pre f, TreeOk pre f d → Forall is_chunk items → Z.of_nat (length pre + length items) < 2 ^ 32 →
  ∀ i, ∃ d', insertAll d i items = Ret (d', None) ∧ TreeOk (pre ++ items) f d'.
Proof.
  induction items as [|x items IH]; intros d pre f Hok Hch Hcap i; cbn [insertAll]; [exists d; by rewrite app_nil_r|].
  inversion_clear Hch as [|? ? Hx Hrest]. cbn [length] in Hcap.
  destruct (TreeInsert_ok _ _ _ x Hok) as (d1 & Hins & Hok1 & _); [lia|lia|]. cbn [mtInsert DepositTree_MerkleTree]. rewrite Hins. cbn [obind].
  rewrite take_ge in Hok1 by lia. destruct (IH d1 (pre ++ [x]) f Hok1 Hrest) with (i := S i) as (d' & Hall & Hok'); [rewrite length_app; cbn [length]; lia|].
  exists d'. by rewrite <- app_assoc in Hok'.
Qed.

Lemma HasRoot_chunks h l R : Forall2 (HasRoot DataRoot h) l R → Forall is_chunk R.
Proof. induction 1 as [|ctr r l R (dep & _ & Hr) _ IH]; constructor; [by apply (DataRoot_chunk (Data dep))|done]. Qed.
End cache.

(** C40. The deposit cache stays consistent: starting from an empty cache, or from one that was
    filled at start-up with containers of the indices 0, 1, ... in any order, and after any
    history of insertions of single deposits, finalizations and prunings, failed ones
    included, the deposits are listed by their indices; a look-up by key returns the first
    deposit of that key; exactly the next index may be inserted and goes to the end; and
    pruning proofs, to any index, returns and keeps the deposits' data.  A second load, or
    one with other indices, is not among these histories ([reload_keeps_stale_keys]). *)
Theorem deposit_cache_consistent `{Sha256} (DataRoot : DepositData → error + bytes) (h : DepositHeap) (c : Cache) :
  (∀ x r, DataRoot x = inr r → length r = 32%nat) → CacheReach DataRoot h c →
  (∀ i ctr, deposits c !! i = Some ctr → Index ctr = Z.of_nat i) ∧
  (∀ k, DepositByPubkey c k = (λ ctr, (CDeposit ctr, wrapI64 (Eth1BlockHeight ctr))) <$>
                              head (filter (λ ctr, keyOf h ctr = Some (ToBytes48 k)) (deposits c))) ∧
  (∀ d dep blockNum index root, h !! d = Some dep →
     if index =? Z.of_nat (length (deposits c))
     then ∃ c', InsertDeposit None h c (Some d) blockNum index root = Ret c' ∧ deposits c' = deposits c ++ [mkContainer d blockNum root index]
     else InsertDeposit None h c (Some d) blockNum index root = Err errWantedDeposit) ∧
  (∀ i, ∃ h', PruneProofs c i h = Ret h' ∧ ∀ p dep, h !! p = Some dep → ∃ dep', h' !! p = Some dep' ∧ Data dep' = Data dep).
Proof.
  intros Hchunk Hr. pose proof (CacheReach_ok DataRoot Hchunk h c Hr) as Hok. pose proof Hok as [Hi Hd Hk _]. split_and!; [exact Hi|..].
  - intros k. specialize (Hk (ToBytes48 k)). unfold DepositByPubkey. rewrite <- Hk. by destruct (depositsByKey c !! ToBytes48 k) as [[|? ?]|].
  - intros d dep blockNum index root Hdep. destruct (index =? _) eqn:E.
    + bprop. subst index. destruct (InsertDeposit_ok DataRoot h c d blockNum root dep Hok Hdep) as (c' & Hins & Hc' & _). by exists c'.
    + unfold InsertDeposit. by rewrite E.
  - intros i. destruct (pruneProofLoop_total (deposits c) (Z.to_nat ((if Z.of_nat (length (deposits c)) <=? i then Z.of_nat (length (deposits c)) - 1 else i) + 1)) h)
      as (h' & Hh'); [destruct (_ <=? i) eqn:E; bprop; lia|exact Hd|].
    exists h'. split; [exact Hh'|exact (pruneProofLoop_sameData _ _ _ _ Hh')].
Qed.

(** C28. Finalized and pending deposits make up the tree of all: finalizing the deposits up to an
    index, or to the last one if there are fewer, never lowers the finalized index; the copy
    of the tree then handed out holds exactly the deposits up to that index, the rest are
    returned as not finalized, in order; and when their roots are inserted into the copy,
    its root is the deposit contract's root of all deposits. *)
Theorem finalized_deposits_complete `{Sha256} (DataRoot : DepositData → error + bytes) (h : DepositHeap) (c : Cache) (roots : list bytes)
    (index : Z) (hash : bytes) (number : Z) :
  (∀ x r, DataRoot x = inr r → length r = 32%nat) → CacheReach DataRoot h c → Z.of_nat (length (deposits c)) < 2 ^ 32 →
  Forall2 (HasRoot DataRoot h) (deposits c) roots →
  ∃ c' fd t, InsertFinalizedDeposits DataRoot None h c index hash number = Ret (c', None) ∧ FinalizedDeposits c' = Ret fd ∧
    let n := Z.to_nat (MerkleTrieIndex fd + 1) in
    MerkleTrieIndex fd = Z.max (MerkleTrieIndex (finalizedDeposits c)) (Z.min index (Z.of_nat (length (deposits c)) - 1)) ∧
    TreeNumOfItems (Deposits fd) = MerkleTrieIndex fd + 1 ∧
    getRoot (Deposits fd) = Ret (Hash (merkleRoot (take n roots) 32 ++ encCount (MerkleTrieIndex fd + 1))) ∧
    NonFinalizedDeposits c' (MerkleTrieIndex fd) None = map CDeposit (drop n (deposits c)) ∧
    insertAll (Deposits fd) n (drop n roots) = Ret (t, None) ∧
    getRoot t = Ret (Hash (merkleRoot roots 32 ++ encCount (Z.of_nat (length roots)))).
Proof.
  intros Hchunk Hr Hcap Hroots. pose proof (CacheReach_ok DataRoot Hchunk h c Hr) as Hok.
  destruct (InsertFinalizedDeposits_ok DataRoot Hchunk h c index hash number Hok Hcap) as (c' & err & Hfin & Hok' & Hdep & _ & _ & Herr).
  destruct err as [m|].
  { destruct Herr as (_ & k & ctr & dep & _ & Hctr & Hd & Hm). destruct (Forall2_lookup_l _ _ _ _ _ Hroots Hctr) as (r & _ & dep' & Hd' & Hr'). congruence. }
  pose proof Hok' as [Hidx _ _ (R & f & Ht & HR & Hl & Hf)]. rewrite Hdep in *. pose proof (Forall2_length _ _ _ Hroots) as Hlen.
  assert (R = take (length R) roots) as HRr by (eapply HasRoot_functional; [exact HR|by apply Forall2_take]).
  pose proof Ht as (t0 & _ & HRep & _). pose proof (Rep_bounds _ _ _ _ HRep) as Hb.
  destruct (TreeCopy_ok _ _ _ Ht) as (d1 & Hcopy & Hok1 & _).
  assert (take f R = take f roots) as HfR by (rewrite HRr, take_take; f_equal; lia). rewrite HfR in Hok1.
  pose proof (HasRoot_chunks DataRoot Hchunk _ _ _ Hroots) as Hch.
  destruct (insertAll_ok (drop f roots) d1 (take f roots) f Hok1 ltac:(by apply Forall_drop)) with (i := f) as (t & Hins & Hokt);
    [rewrite length_take, length_drop; lia|]. rewrite take_drop in Hokt.
  exists c', (mkFinalizedDeposits d1 (merkleTrieIndex (finalizedDeposits c'))), t. unfold FinalizedDeposits, Deposits, MerkleTrieIndex.
  rewrite Hcopy. cbn [obind depositTree merkleTrieIndex]. rewrite <- Hf, Nat2Z.id. split_and!; [done|done|done|..].
  - destruct Hok1 as (t1 & _ & _ & Hc1 & _). unfold TreeNumOfItems. rewrite Hc1, length_take, Nat.min_l by lia. apply wrapI64_small. unfold is_i64, minInt64, maxInt64. lia.
  - rewrite (getRoot_ok _ _ _ Hok1), length_take, Nat.min_l by lia. done.
  - unfold NonFinalizedDeposits. rewrite Hdep. f_equal. replace (merkleTrieIndex (finalizedDeposits c')) with (Z.of_nat f - 1) by lia.
    cbn [option_map]. rewrite (filter_above (deposits c) f 0); [by rewrite Nat.sub_0_r|exact Hidx].
  - exact Hins.
  - exact (getRoot_ok _ _ _ Hokt).
Qed.

(** ** Deposits at a block height *)

Lemma filter_take (P : DepositContainer → Prop) `{∀ x, Decision (P x)} (l : list DepositContainer) (n : nat) :
  (∀ i x, l !! i = Some x → P x ↔ (i < n)%nat) → filter P l = take n l.
Proof.
  revert n. induction l as [|x l IH]; intros n Hn; [by rewrite take_nil|]. rewrite filter_cons. pose proof (Hn 0%nat x eq_refl) as Hx.
  destruct n as [|n]; case_decide as Hd; cbn [take]; [apply Hx in Hd; lia| | |destruct Hd; apply Hx; lia].
  - rewrite (IH 0%nat); [by rewrite take_0|]. intros i y Hy. rewrite (Hn (S i) y Hy). lia.
  - f_equal. apply IH. intros i y Hy. rewrite (Hn (S i) y Hy). lia.
Qed.

(** The eth1 vote data at a block: when the deposits were made in the order of their
    blocks, the binary search of [DepositsNumberAndRootAtHeight] returns the number of
    deposits made up to that height and the deposit root of the last of them, or the zero
    root if there is none. *)
Theorem deposits_at_height_correct (c : Cache) (blockHeight : Z) :
  (∀ i j ctr ctr', (i ≤ j)%nat → deposits c !! i = Some ctr → deposits c !! j = Some ctr' → Eth1BlockHeight ctr ≤ Eth1BlockHeight ctr') →
  let upTo := filter (λ ctr, Eth1BlockHeight ctr ≤ blockHeight) (deposits c) in
  DepositsNumberAndRootAtHeight c blockHeight =
    Ret (Z.of_nat (length upTo), match last upTo with Some ctr => ToBytes32 (CDepositRoot ctr) | None => zeroBytes 32 end).
Proof.
  intros Hsorted. cbv zeta. unfold DepositsNumberAndRootAtHeight. set (test := λ i, _).
  destruct (Search_spec (length (deposits c)) test) as (Hs1 & Hs2 & Hs3).
  { unfold test. intros a b Hab. destruct (deposits c !! a) as [x|] eqn:Ex; [|done].
    destruct (lookup_lt_is_Some_2 (deposits c) b ltac:(lia)) as [y Ey]. rewrite Ey. pose proof (Hsorted a b x y ltac:(lia) Ex Ey).
    rewrite !Z.ltb_lt. lia. }
  set (n := Search (length (deposits c)) test) in *.
  rewrite (filter_take _ (deposits c) n).
  2:{ intros i x Hx. pose proof (lookup_lt_Some _ _ _ Hx). destruct (decide (i < n)%nat) as [Hin|Hin].
      - specialize (Hs2 i Hin). unfold test in Hs2. rewrite Hx in Hs2. bprop. split; [done|lia].
      - specialize (Hs3 i ltac:(lia)). unfold test in Hs3. rewrite Hx in Hs3. bprop. split; lia. }
  rewrite length_take, Nat.min_l by done. destruct (n =? 0)%nat eqn:E0.
  - apply Nat.eqb_eq in E0. rewrite E0. by rewrite take_0.
  - apply Nat.eqb_neq in E0. destruct (lookup_lt_is_Some_2 (deposits c) (n - 1) ltac:(lia)) as [x Ex]. rewrite Ex.
    assert (take n (deposits c) = take (n - 1) (deposits c) ++ [x]) as -> by (rewrite <- (take_S_r _ _ _ Ex); f_equal; lia).
    by rewrite last_snoc.
Qed.

(** ** Witnesses

    Two deposits of the same key, inserted one after the other. *)

Definition sampleRoot (x : DepositData) : error + bytes := inr (ToBytes32 (Signature x)).
Definition sampleDeposit (b : Z) : Deposit := mkDeposit (Some []) (mkDepositData (replicate 48 7) [] 32 (replicate 32 b)).
Definition sampleHeap : DepositHeap := <[0%nat := sampleDeposit 1]> (<[1%nat := sampleDeposit 2]> ∅).
Definition sampleContainers : list DepositContainer := [mkContainer 0%nat 10 (deposit 5) 0; mkContainer 1%nat 12 (deposit 6) 1].
Definition sampleCache : Cache :=
  mkCache [] sampleContainers (toFinalizedDepositsContainer NewDepositTree (-1)) {[ replicate 48 7 := sampleContainers ]}.

Lemma sampleRoot_chunk x r : sampleRoot x = inr r → length r = 32%nat.
Proof. intros [= <-]. exact (length_ToBytes32 _). Qed.

Lemma sampleCache_reach : @CacheReach fips180 sampleRoot sampleHeap sampleCache.
Proof.
  eapply (@cache_insert fips180 _ _ _ None (Some 1%nat) 12 1 (deposit 6));
    [eapply (@cache_insert fips180 _ _ _ None (Some 0%nat) 10 0 (deposit 5)); [apply (@cache_new fips180)|]|]; vm_compute; reflexivity.
Qed.

(** The same cache, loaded with its containers in the other order. *)
Lemma sampleCache_loaded : @CacheReach fips180 sampleRoot sampleHeap sampleCache.
Proof.
  apply (@cache_load fips180 _ sampleHeap (reverse sampleContainers)).
  - unfold consecutive. change (map Index (reverse sampleContainers)) with [1; 0]. apply Permutation_swap.
  - vm_compute. reflexivity.
Qed.

Lemma deposit_cache_consistent_witness : DepositByPubkey sampleCache (replicate 48 7) = Some (0%nat, 10).
Proof.
  rewrite (proj1 (proj2 (@deposit_cache_consistent fips180 sampleRoot sampleHeap sampleCache sampleRoot_chunk sampleCache_loaded)) (replicate 48 7)).
  vm_compute. reflexivity.
Defined.

(** Loading a cache that has deposits replaces the list but not the index by key: after the
    two deposits are replaced by none, the list is empty and a look-up still finds the
    first of them.  And a container whose index is not its position is taken as it is. *)
Example reload_keeps_stale_keys :
  ∃ c c', InsertDepositContainers sampleHeap sampleCache [] = Ret c ∧ deposits c = [] ∧
    DepositByPubkey c (replicate 48 7) = Some (0%nat, 10) ∧
    InsertDepositContainers sampleHeap NewCache [mkContainer 0%nat 10 (deposit 5) 5] = Ret c' ∧
    Index <$> deposits c' = [5].
Proof. eexists _, _. split; [vm_compute; reflexivity|]. repeat (split; [vm_compute; reflexivity|]). vm_compute. reflexivity. Qed.

Lemma finalized_deposits_complete_witness :
  ∃ c' fd t, @InsertFinalizedDeposits fips180 sampleRoot None sampleHeap sampleCache 0 (deposit 9) 77 = Ret (c', None) ∧
    @FinalizedDeposits fips180 c' = Ret fd ∧
    let n := Z.to_nat (MerkleTrieIndex fd + 1) in
    MerkleTrieIndex fd = 0 ∧ TreeNumOfItems (Deposits fd) = MerkleTrieIndex fd + 1 ∧
    @getRoot fips180 (Deposits fd) = Ret (@Hash fips180 (@merkleRoot fips180 (take n [deposit 1; deposit 2]) 32 ++ encCount (MerkleTrieIndex fd + 1))) ∧
    NonFinalizedDeposits c' (MerkleTrieIndex fd) None = map CDeposit (drop n sampleContainers) ∧
    @insertAll _ (@DepositTree_MerkleTree fips180) (Deposits fd) n (drop n [deposit 1; deposit 2]) = Ret (t, None) ∧
    @getRoot fips180 t = Ret (@Hash fips180 (@merkleRoot fips180 [deposit 1; deposit 2] 32 ++ encCount 2)).
Proof.
  refine (@finalized_deposits_complete fips180 sampleRoot sampleHeap sampleCache [deposit 1; deposit 2] 0 (deposit 9) 77 sampleRoot_chunk sampleCache_reach _ _).
  - reflexivity.
  - repeat constructor; eexists; (split; [vm_compute; reflexivity|reflexivity]).
Defined.

Lemma deposits_at_height_correct_witness : DepositsNumberAndRootAtHeight sampleCache 11 = Ret (1, deposit 5).
Proof.
  rewrite (deposits_at_height_correct sampleCache 11); [vm_compute; reflexivity|].
  intros [|[|i]] [|[|j]] ctr ctr' Hij Hi Hj; cbn in Hi, Hj; try discriminate; try lia; injection Hi as <-; injection Hj as <-; cbn; lia.
Defined.
