(* ===== verification/SliceSets.v ===== *)
(** * Slices as sets

    Models [container/slice/slice.go]: subset, intersection, union and difference of
    slices.  The source writes the same loops for [uint64], [int64], [Slot] and byte
    slices; here they are polymorphic and instantiated.  A Go map is a finite map. *)

From stdpp Require Import sorting.
From S2P Require Import Prelude.

Section sets.
Context {A : Type} `{Countable A}.

(** ** Subset *)

Definition countAll (b : list A) : gmap A Z := foldl (λ set v, <[v := default 0 (set !! v) +w 1]> set) ∅ b.
Fixpoint takeAll (a : list A) (set : gmap A Z) : bool :=
  match a with
  | [] => true
  | v :: a =>
      match set !! v with
      | None => false
      | Some count => if count <? 1 then false else takeAll a (<[v := count -w 1]> set)
      end
  end.
Definition Subset (a b : list A) : bool := if (length b <? length a)%nat then false else takeAll a (countAll b).

(** ** Intersection *)

(** The items of slice [i]: those counted [i] times are counted again, and kept when they
    are in all [num] slices. *)
Fixpoint intersectOne (i num : Z) (items : list A) (m : gmap A Z) (intersect : list A) : gmap A Z * list A :=
  match items with
  | [] => (m, intersect)
  | k :: items =>
      if bool_decide (m !! k = Some i)
      then intersectOne i num items (<[k := i + 1]> m) (if i + 1 =? num then intersect ++ [k] else intersect)
      else intersectOne i num items m intersect
  end.
Fixpoint intersectRest (i num : Z) (rest : list (list A)) (m : gmap A Z) (intersect : list A) : list A :=
  match rest with
  | [] => intersect
  | items :: rest => let '(m, intersect) := intersectOne i num items m intersect in intersectRest (i + 1) num rest m intersect
  end.
Definition Intersection (s : list (list A)) : list A :=
  match s with
  | [] => []
  | [a] => a
  | a :: rest => intersectRest 1 (Z.of_nat (length s)) rest (foldl (λ m k, <[k := 1]> m) ∅ a) []
  end.

(** ** Union and difference *)

Definition addKeys (a : list A) (m : gset A) : gset A := foldl (λ m k, {[k]} ∪ m) m a.
Fixpoint unionRest (a : list A) (rest : list (list A)) (m : gset A) (set : list A) : list A :=
  match rest with
  | [] => set
  | b :: rest => let m := addKeys a m in unionRest b rest m (set ++ filter (λ k, k ∉ m) b)
  end.
Definition Union (s : list (list A)) : list A :=
  match s with
  | [] => []
  | [a] => a
  | a :: rest => unionRest a rest ∅ a
  end.

Definition NotIn (a b : list A) : list A := let m := addKeys a ∅ in filter (λ k, k ∉ m) b.
Definition IsIn (a : A) (b : list A) : bool := bool_decide (a ∈ b).

(** ** Duplicates and order *)

Fixpoint uniqueLoop (a : list A) (found : gset A) : list A :=
  match a with
  | [] => []
  | x :: a => if bool_decide (x ∈ found) then uniqueLoop a found else x :: uniqueLoop a ({[x]} ∪ found)
  end.
Definition Unique (a : list A) : list A := if (length a <=? 1)%nat then a else uniqueLoop a ∅.

Definition VerifyMaxLength (v : list A) (max : Z) : outcome unit :=
  if max <? Z.of_nat (length v) then Err "length exceeds max" else Ret tt.
End sets.

(** The swaps from both ends of [Reverse]. *)
Fixpoint reverseLoop {A} (fuel i j : nat) (s : list A) : list A :=
  match fuel with
  | O => s
  | S fuel =>
      if (i <? j)%nat then
        match s !! i, s !! j with
        | Some x, Some y => reverseLoop fuel (S i) (j - 1) (<[j := x]> (<[i := y]> s))
        | _, _ => s
        end
      else s
  end.
Definition Reverse {A} (s : list A) : list A := reverseLoop (length s) 0 (length s - 1) s.

Fixpoint IsUint64Sorted (a : list Z) : bool :=
  match a with
  | x :: ((y :: _) as rest) => if y <? x then false else IsUint64Sorted rest
  | _ => true
  end.

(** ** Instances of the source *)

Definition SubsetUint64 (a b : list Z) : bool := Subset a b.
Definition IntersectionUint64 (s : list (list Z)) : list Z := Intersection s.
Definition UnionUint64 (s : list (list Z)) : list Z := Union s.
Definition SetUint64 (a : list Z) : list Z := uniqueLoop a ∅.
Definition NotUint64 (a b : list Z) : list Z := NotIn a b.
Definition IsInUint64 (a : Z) (b : list Z) : bool := IsIn a b.
Definition IntersectionInt64 (s : list (list Z)) : list Z := Intersection s.
Definition UnionInt64 (s : list (list Z)) : list Z := Union s.
Definition NotInt64 (a b : list Z) : list Z := NotIn a b.
Definition IntersectionByteSlices (s : list (list (list Z))) : list (list Z) := Intersection s.
Definition UnionByteSlices (s : list (list (list Z))) : list (list Z) := Union s.
Definition IntersectionSlot (s : list (list Z)) : list Z := Intersection s.
Definition NotSlot (a b : list Z) : list Z := NotIn a b.

(** ** Correctness *)

Section correct.
Context {A : Type} `{Countable A}.
Implicit Types (a b l : list A) (x : A).

Lemma addKeys_spec a m x : x ∈ addKeys a m ↔ x ∈ a ∨ x ∈ m.
Proof.
  revert m. induction a as [|k a IH]; intros m; [cbn; set_solver|].
  change (addKeys (k :: a) m) with (addKeys a ({[k]} ∪ m)). rewrite IH. set_solver.
Qed.

Lemma uniqueLoop_spec a found : (∀ x, x ∈ uniqueLoop a found ↔ x ∈ a ∧ x ∉ found) ∧ NoDup (uniqueLoop a found).
Proof.
  revert found. induction a as [|k a IH]; intros found; cbn [uniqueLoop]; [split; [set_solver|constructor]|].
  case_bool_decide as Hk.
  - destruct (IH found) as [Hx Hn]. split; [|done]. intros x. rewrite Hx. set_solver.
  - destruct (IH ({[k]} ∪ found)) as [Hx Hn]. split.
    + intros x. rewrite elem_of_cons, Hx. destruct (decide (x = k)) as [->|]; set_solver.
    + constructor; [rewrite Hx; set_solver|done].
Qed.

Lemma unionRest_spec rest a m set x :
  (∀ y, y ∈ m → y ∈ set) → (∀ y, y ∈ a → y ∈ set) →
  x ∈ unionRest a rest m set ↔ x ∈ set ∨ ∃ l, l ∈ rest ∧ x ∈ l.
Proof.
  revert a m set. induction rest as [|b rest IH]; intros a m set Hm Ha; cbn [unionRest]; [set_solver|].
  rewrite IH.
  - rewrite elem_of_app, list_elem_of_filter. split.
    + intros [[?|[? ?]]|(l & ? & ?)]; [by left|right; exists b; split; [by left|done]|right; exists l; split; [by right|done]].
    + intros [?|(l & [->|?]%elem_of_cons & ?)]; [by left; left| |by right; exists l].
      destruct (decide (x ∈ addKeys a m)) as [Hin|Hin]; [|by left; right]. left. left. apply addKeys_spec in Hin as [?|?]; auto.
  - intros y Hy%addKeys_spec. rewrite elem_of_app. destruct Hy; auto.
  - intros y Hy. rewrite elem_of_app, list_elem_of_filter. destruct (decide (y ∈ addKeys a m)) as [Hin|Hin]; [|by right].
    left. apply addKeys_spec in Hin as [?|?]; auto.
Qed.

(** After slice [i], the map counts how many of the slices so far hold an item, up to the
    first that does not. *)
Lemma intersectOne_spec i num items m acc : ∀ m' acc', intersectOne i num items m acc = (m', acc') →
  (∀ x, m' !! x = if decide (x ∈ items ∧ m !! x = Some i) then Some (i + 1) else m !! x) ∧
  (i + 1 = num → (∀ x, x ∈ acc' ↔ x ∈ acc ∨ (x ∈ items ∧ m !! x = Some i)) ∧
     (NoDup acc → (∀ x, x ∈ acc → m !! x ≠ Some i) → NoDup acc')) ∧
  (i + 1 ≠ num → acc' = acc).
Proof.
  revert m acc. induction items as [|k items IH]; intros m acc m' acc'; cbn [intersectOne].
  { intros [= <- <-]. split_and!; [intros x; case_decide; set_solver|intros _; split; [set_solver|done]|done]. }
  case_bool_decide as Hk; intros Heq; destruct (IH _ _ _ _ Heq) as (Hm & Hacc & Hne).
  - split_and!.
    + intros x. rewrite Hm. destruct (decide (x = k)) as [->|Hx].
      * rewrite lookup_insert_eq, (decide_False (P := _ ∧ _)) by (intros [_ ?]; simplify_eq; lia). by rewrite decide_True by (split; [by left|done]).
      * rewrite lookup_insert_ne by done. apply decide_ext. set_solver.
    + intros Hnum. rewrite (proj2 (Z.eqb_eq _ _)) in Hacc by done. destruct (Hacc Hnum) as [Hin Hnd]. split.
      * intros x. rewrite Hin. destruct (decide (x = k)) as [->|Hx]; [rewrite lookup_insert_eq|rewrite lookup_insert_ne by done]; set_solver.
      * intros Hn Hfresh. apply Hnd.
        -- apply NoDup_app. split_and!; [done| |apply NoDup_singleton]. intros x Hx ->%list_elem_of_singleton. by apply (Hfresh k).
        -- intros x [Hx| ->%list_elem_of_singleton]%elem_of_app; [|rewrite lookup_insert_eq; intros ?; simplify_eq; lia].
           destruct (decide (x = k)) as [->|Hxk]; [rewrite lookup_insert_eq; intros ?; simplify_eq; lia|rewrite lookup_insert_ne by done; by apply Hfresh].
    + intros Hnum. rewrite (Hne Hnum). by rewrite (proj2 (Z.eqb_neq _ _)).
  - split_and!; [|intros Hnum; destruct (Hacc Hnum) as [Hin Hnd]; split; [|done]|done].
    + intros x. rewrite Hm. apply decide_ext. set_solver.
    + intros x. rewrite Hin. set_solver.
Qed.

Lemma intersectRest_spec rest : ∀ i m, rest ≠ [] → (∀ x c, m !! x = Some c → c ≤ i) →
  let r := intersectRest i (i + Z.of_nat (length rest)) rest m [] in
  (∀ x, x ∈ r ↔ m !! x = Some i ∧ ∀ l, l ∈ rest → x ∈ l) ∧ NoDup r.
Proof.
  induction rest as [|items rest IH]; intros i m Hne Hle; [done|]. cbn [intersectRest].
  destruct (intersectOne _ _ _ _ _) as [m' acc'] eqn:Eo. destruct (intersectOne_spec _ _ _ _ _ _ _ Eo) as (Hm & Hlast & Hnot).
  destruct rest as [|items' rest].
  - cbn [intersectRest length] in *. destruct (Hlast ltac:(lia)) as [Hin Hnd]. split.
    + intros x. rewrite Hin. set_solver.
    + apply Hnd; [constructor|set_solver].
  - rewrite (Hnot ltac:(cbn [length]; lia)). destruct (IH (i + 1) m' ltac:(done)) as [Hin Hnd].
    { intros x c. rewrite Hm. case_decide; [intros ?; simplify_eq; lia|]. intros Hc%Hle. lia. }
    replace (i + 1 + Z.of_nat (length (items' :: rest))) with (i + Z.of_nat (length (items :: items' :: rest))) in * by (cbn [length]; lia).
    split; [|done]. intros x. rewrite Hin, Hm. case_decide as Hd.
    + split; [intros [_ Hl]; split; [tauto|]|intros [_ Hl]; split; [done|]]; intros l; rewrite ?elem_of_cons in *; [|set_solver].
      intros [->|Hl']; [tauto|]. apply Hl. by rewrite elem_of_cons.
    + split; [intros [Hc%Hle _]; lia|]. intros [Hc Hl]. destruct Hd. split; [apply Hl; by left|done].
Qed.

Lemma oneEach_spec a y c : foldl (λ m k, <[k := 1]> m) (∅ : gmap A Z) a !! y = Some c ↔ c = 1 ∧ y ∈ a.
Proof.
  assert (∀ m0 : gmap A Z, foldl (λ m k, <[k := 1]> m) m0 a !! y = if decide (y ∈ a) then Some 1 else m0 !! y) as ->.
  { induction a as [|k a IH]; intros m0; cbn [foldl]; [done|]. rewrite IH. destruct (decide (y = k)) as [->|Hy].
    - rewrite lookup_insert_eq. repeat case_decide; set_solver.
    - rewrite lookup_insert_ne by done. repeat case_decide; set_solver. }
  rewrite lookup_empty. case_decide; naive_solver.
Qed.

Lemma Intersection_rest a b (rest : list (list A)) :
  let r := Intersection (a :: b :: rest) in (∀ x, x ∈ r ↔ x ∈ a ∧ ∀ l, l ∈ b :: rest → x ∈ l) ∧ NoDup r.
Proof.
  cbv zeta. unfold Intersection. replace (Z.of_nat (length (a :: b :: rest))) with (1 + Z.of_nat (length (b :: rest))) by (cbn [length]; lia).
  destruct (intersectRest_spec (b :: rest) 1 (foldl (λ m k, <[k := 1]> m) ∅ a)) as [Hin Hnd]; [done|intros y c Hc%oneEach_spec; lia|].
  split; [|done]. intros x. rewrite Hin, oneEach_spec. naive_solver.
Qed.

Lemma Intersection_spec (s : list (list A)) x : s ≠ [] → x ∈ Intersection s ↔ ∀ l, l ∈ s → x ∈ l.
Proof.
  intros Hs. destruct s as [|a [|b rest]]; [done| |].
  { cbn. split; [by intros Hx l ->%list_elem_of_singleton|intros Hl; apply Hl; by left]. }
  rewrite (proj1 (Intersection_rest a b rest)). setoid_rewrite (elem_of_cons (b :: rest)). naive_solver.
Qed.

(** *** Subset *)

Definition occurrences x l : Z := Z.of_nat (length (filter (x =.) l)).

Lemma occurrences_cons x y l : occurrences x (y :: l) = (if decide (x = y) then 1 else 0) + occurrences x l.
Proof. unfold occurrences. rewrite filter_cons. repeat case_decide; cbn [length]; lia || congruence. Qed.

Lemma occurrences_length x l : 0 ≤ occurrences x l ≤ Z.of_nat (length l).
Proof. unfold occurrences. pose proof (length_filter (x =.) l). lia. Qed.

Lemma countAll_spec b x : Z.of_nat (length b) < two64 → default 0 (countAll b !! x) = occurrences x b.
Proof.
  intros Hb. unfold countAll. assert (∀ m : gmap A Z, 0 ≤ default 0 (m !! x) → default 0 (m !! x) + Z.of_nat (length b) < two64 →
    default 0 (foldl (λ set v, <[v := default 0 (set !! v) +w 1]> set) m b !! x) = default 0 (m !! x) + occurrences x b) as Hgen.
  2:{ rewrite Hgen; rewrite lookup_empty; cbn [default from_option id]; lia. }
  clear Hb. induction b as [|k b IH]; intros m Hm Hb; cbn [foldl]; [unfold occurrences; cbn; lia|]. cbn [length] in Hb. rewrite occurrences_cons.
  case_decide as Hx; [subst k|].
  - assert (default 0 (m !! x) +w 1 = default 0 (m !! x) + 1) as Hw by (apply wrap64_small; unfold is_u64; lia).
    rewrite IH; rewrite lookup_insert_eq; cbn [default from_option id]; rewrite ?Hw; lia.
  - rewrite IH; rewrite lookup_insert_ne by done; lia.
Qed.

Lemma takeAll_spec a : ∀ set, (∀ x, 0 ≤ default 0 (set !! x) < two64) →
  takeAll a set = true ↔ ∀ x, occurrences x a ≤ default 0 (set !! x).
Proof.
  induction a as [|k a IH]; intros set Hset; cbn [takeAll].
  { split; [intros _ x; apply Hset|done]. }
  destruct (set !! k) as [c|] eqn:Ek.
  2:{ split; [done|]. intros Hall. specialize (Hall k). rewrite occurrences_cons, decide_True, Ek in Hall by done. cbn in Hall.
      pose proof (occurrences_length k a). lia. }
  pose proof (Hset k) as Hk. rewrite Ek in Hk. cbn [default from_option id] in Hk. destruct (c <? 1) eqn:Ec; bprop.
  { split; [done|]. intros Hall. specialize (Hall k). rewrite occurrences_cons, decide_True, Ek in Hall by done. cbn in Hall.
    pose proof (occurrences_length k a). lia. }
  assert (c -w 1 = c - 1) as Hw by (apply wrap64_small; unfold is_u64; lia). rewrite IH.
  - apply forall_proper. intros x. rewrite occurrences_cons. case_decide as Hx; [subst x; rewrite lookup_insert_eq, Ek|rewrite lookup_insert_ne by done]; cbn [default from_option id]; rewrite ?Hw; lia.
  - intros x. destruct (decide (x = k)) as [->|Hx]; [rewrite lookup_insert_eq|rewrite lookup_insert_ne by done; apply Hset]. cbn [default from_option id]. rewrite Hw. lia.
Qed.

Lemma occurrences_le_length a : ∀ b, (∀ x, occurrences x a ≤ occurrences x b) → (length a ≤ length b)%nat.
Proof.
  induction a as [|k a IH]; intros b Hab; [cbn; lia|].
  assert (k ∈ b) as (b1 & b2 & ->)%list_elem_of_split.
  { specialize (Hab k). rewrite occurrences_cons, decide_True in Hab by done. pose proof (occurrences_length k a).
    unfold occurrences in Hab. destruct (filter (k =.) b) as [|y l] eqn:Ef; [cbn in Hab; lia|].
    assert (y ∈ filter (k =.) b) as Hy by (rewrite Ef; by left). by apply list_elem_of_filter in Hy as [<- ?]. }
  enough (length a ≤ length (b1 ++ b2))%nat by (rewrite length_app in *; cbn [length]; lia).
  apply IH. intros x. specialize (Hab x). unfold occurrences in *. rewrite !filter_app, !length_app, !filter_cons in *.
  repeat case_decide; cbn [length] in *; lia.
Qed.

Lemma Subset_spec a b : Z.of_nat (length b) < two64 → Subset a b = true ↔ ∀ x, occurrences x a ≤ occurrences x b.
Proof.
  intros Hb. unfold Subset. destruct (length b <? length a)%nat eqn:El.
  { apply Nat.ltb_lt in El. split; [done|]. intros Hab%occurrences_le_length. lia. }
  rewrite takeAll_spec.
  - apply forall_proper. intros x. by rewrite countAll_spec.
  - intros x. rewrite countAll_spec by done. pose proof (occurrences_length x b). lia.
Qed.

(** *** Reverse *)

Lemma reverseLoop_spec fuel : ∀ i j l, (j < i + 2 * fuel)%nat → (j < length l ∨ j ≤ i)%nat →
  let r := reverseLoop fuel i j l in
  length r = length l ∧ ∀ k, r !! k = if decide (i ≤ k ≤ j)%nat then l !! (i + j - k)%nat else l !! k.
Proof.
  induction fuel as [|fuel IH]; intros i j l Hfuel Hj; cbn [reverseLoop].
  { split; [done|]. intros k. case_decide; [lia|done]. }
  destruct (i <? j)%nat eqn:E.
  - apply Nat.ltb_lt in E. destruct (lookup_lt_is_Some_2 l i ltac:(lia)) as [x Ex]. destruct (lookup_lt_is_Some_2 l j ltac:(lia)) as [y Ey].
    rewrite Ex, Ey. destruct (IH (S i) (j - 1)%nat (<[j := x]> (<[i := y]> l))) as [Hlen Hk]; [lia|rewrite !length_insert; lia|].
    split; [rewrite Hlen, !length_insert; done|]. intros k. rewrite Hk.
    destruct (decide (k = i)) as [->|Hki]; [|destruct (decide (k = j)) as [->|Hkj]].
    + rewrite decide_False, decide_True by lia. rewrite list_lookup_insert_ne, list_lookup_insert_eq by lia. rewrite <- Ey. f_equal. lia.
    + rewrite decide_False, decide_True by lia. rewrite list_lookup_insert_eq by (rewrite length_insert; lia). rewrite <- Ex. f_equal. lia.
    + repeat case_decide; try lia; rewrite !list_lookup_insert_ne by lia; [f_equal; lia|done].
  - apply Nat.ltb_ge in E. split; [done|]. intros k. case_decide; [f_equal; lia|done].
Qed.

Lemma Reverse_spec l : Reverse l = reverse l.
Proof.
  destruct (decide (l = [])) as [->|Hne]; [done|]. assert (0 < length l)%nat by (destruct l; [done|cbn; lia]).
  unfold Reverse. destruct (reverseLoop_spec (length l) 0 (length l - 1) l) as [Hlen Hk]; [lia|destruct l; cbn; lia|].
  apply list_eq. intros k. rewrite Hk. destruct (decide (k < length l)%nat) as [Hlt|Hge].
  - rewrite decide_True, reverse_lookup by lia. f_equal. lia.
  - rewrite decide_False by lia. rewrite (lookup_ge_None_2 l), (lookup_ge_None_2 (reverse l)); [done|rewrite length_reverse; lia|lia].
Qed.
End correct.

(** The set operations on slices are right: a subset test compares numbers of
    occurrences; the intersection of two or more slices has exactly the common items, each
    once; the union has the items of all; the difference those of the second slice alone;
    removing duplicates keeps every item once; and reversing in place reverses. *)
Theorem slice_sets_correct {A : Type} `{Countable A} (a b : list A) (s : list (list A)) :
  (Z.of_nat (length b) < two64 → Subset a b = true ↔ ∀ x, occurrences x a ≤ occurrences x b) ∧
  (s ≠ [] → ∀ x, x ∈ Intersection s ↔ ∀ l, l ∈ s → x ∈ l) ∧
  NoDup (Intersection (a :: b :: s)) ∧
  (∀ x, x ∈ Union s ↔ ∃ l, l ∈ s ∧ x ∈ l) ∧
  (∀ x, x ∈ NotIn a b ↔ x ∈ b ∧ x ∉ a) ∧
  ((∀ x, x ∈ Unique a ↔ x ∈ a) ∧ NoDup (Unique a)) ∧
  Reverse a = reverse a.
Proof.
  split_and!.
  - apply Subset_spec.
  - intros Hs x. by apply Intersection_spec.
  - apply (Intersection_rest a b s).
  - intros x. destruct s as [|l1 [|l2 rest]]; cbn [Union]; [set_solver| |].
    + split; [intros Hx; exists l1; split; [by left|done]|by intros (l & ->%list_elem_of_singleton & Hx)].
    + rewrite unionRest_spec; [|set_solver|done]. setoid_rewrite (elem_of_cons (l2 :: rest)). naive_solver.
  - intros x. unfold NotIn. rewrite list_elem_of_filter, addKeys_spec. set_solver.
  - unfold Unique. destruct (length a <=? 1)%nat eqn:El; [done|]. intros x. rewrite (proj1 (uniqueLoop_spec a ∅)). set_solver.
  - unfold Unique. destruct (length a <=? 1)%nat eqn:El; [|apply uniqueLoop_spec].
    apply Nat.leb_le in El. destruct a as [|x [|y a]]; [constructor|apply NoDup_singleton|cbn in El; lia].
  - apply Reverse_spec.
Qed.

Lemma slice_sets_correct_witness :
  (Subset [1; 2; 2] [2; 1; 2; 3] = true ↔ ∀ x, occurrences x [1; 2; 2] ≤ occurrences x [2; 1; 2; 3]) ∧
  (∀ x, x ∈ Intersection [[1; 2]; [2; 3]] ↔ ∀ l, l ∈ [[1; 2]; [2; 3]] → x ∈ l).
Proof.
  destruct (slice_sets_correct [1; 2; 2] [2; 1; 2; 3] [[1; 2]; [2; 3]]) as (Hsub & Hint & _). split; [by apply Hsub|by apply Hint].
Defined.
