(* ===== verification/Ledger.v ===== *)
(** * The ledger of the beacon state

    The part of the beacon state that holds validators and their balances, and the
    operations on it that the state transition is made of: [helpers/rewards_penalties.go],
    the balance predicates of [helpers/validators.go], the wrapper of a validator
    ([state/state-native/readonly_validator.go]) and the getters and setters of
    [state/state-native].  A [Ledger] extends the [ExitState] of the exit queue.  The
    slices of the state are copied on write, so that they are values here; when a call
    fails, its caller drops the state. *)

From S2P Require Import Prelude MathHelper Primitives SlotTime Shuffle Committee ExitQueue Bytes.

Definition two32 : Z := 4294967296.

(** ** Configuration

    The fields of [params.BeaconChainConfig] that rewards, penalties, withdrawals and
    deposits use, with the relations between them that the code relies on. *)
Class LedgerConfig `{BeaconChainConfig} := {
  BaseRewardFactor : Z;
  WeightDenominator : Z;
  TimelySourceWeight : Z;
  TimelyTargetWeight : Z;
  TimelyHeadWeight : Z;
  ProposerWeight : Z;
  TimelySourceFlagIndex : Z;
  TimelyHeadFlagIndex : Z;
  InactivityScoreBias : Z;
  InactivityScoreRecoveryRate : Z;
  MinEpochsToInactivityPenalty : Z;
  InactivityPenaltyQuotient0 : Z;
  InactivityPenaltyQuotientAltair : Z;
  InactivityPenaltyQuotientBellatrix : Z;
  ProportionalSlashingMultiplier0 : Z;
  ProportionalSlashingMultiplierAltair : Z;
  ProportionalSlashingMultiplierBellatrix : Z;
  MinSlashingPenaltyQuotient : Z;
  MinSlashingPenaltyQuotientAltair : Z;
  MinSlashingPenaltyQuotientBellatrix : Z;
  MinSlashingPenaltyQuotientElectra : Z;
  ProposerRewardQuotient : Z;
  WhistleBlowerRewardQuotient : Z;
  WhistleBlowerRewardQuotientElectra : Z;
  HysteresisQuotient : Z;
  HysteresisDownwardMultiplier : Z;
  HysteresisUpwardMultiplier : Z;
  MinActivationBalance : Z;
  SqrRootSlotsPerEpoch : Z;
  MinAttestationInclusionDelay : Z;
  MaxWithdrawalsPerPayload : Z;
  MaxValidatorsPerWithdrawalsSweep : Z;
  MaxPendingPartialsPerWithdrawalsSweep : Z;
  PendingPartialWithdrawalsLimit : Z;
  PendingConsolidationsLimit : Z;
  MaxPendingDepositsPerEpoch : Z;
  FullExitRequestAmount : Z;
  ShardCommitteePeriod : Z;
  GenesisSlot : Z;
  UnsetDepositRequestsStartIndex : Z;
  BLSWithdrawalPrefixByte : Z;
  ETH1AddressWithdrawalPrefixByte : Z;
  CompoundingWithdrawalPrefixByte : Z;
  weights_range : 0 ≤ TimelySourceWeight ∧ 0 ≤ TimelyTargetWeight ∧ 0 ≤ TimelyHeadWeight ∧ 0 < ProposerWeight ∧
    TimelySourceWeight + TimelyTargetWeight + TimelyHeadWeight + ProposerWeight ≤ WeightDenominator ≤ 256;
  flags_range : 0 ≤ TimelySourceFlagIndex ≤ 7 ∧ 0 ≤ TimelyTargetFlagIndex ≤ 7 ∧ 0 ≤ TimelyHeadFlagIndex ≤ 7;
  flags_distinct : TimelySourceFlagIndex ≠ TimelyTargetFlagIndex ∧ TimelySourceFlagIndex ≠ TimelyHeadFlagIndex ∧
    TimelyTargetFlagIndex ≠ TimelyHeadFlagIndex;
  BaseRewardFactor_range : 0 < BaseRewardFactor ≤ 1024;
  inactivity_range : 0 < InactivityScoreBias < 131072 ∧ 0 ≤ InactivityScoreRecoveryRate < two64 ∧ 0 ≤ MinEpochsToInactivityPenalty < two64 ∧
    0 < InactivityPenaltyQuotientAltair ∧ 0 < InactivityPenaltyQuotientBellatrix ∧ 0 < InactivityPenaltyQuotient0 ∧
    InactivityScoreBias * InactivityPenaltyQuotientAltair < two64 ∧ InactivityScoreBias * InactivityPenaltyQuotientBellatrix < two64 ∧
    InactivityScoreBias * InactivityPenaltyQuotient0 < two64;
  slashing_range : 0 < ProportionalSlashingMultiplier0 ≤ 16 ∧ 0 < ProportionalSlashingMultiplierAltair ≤ 16 ∧
    0 < ProportionalSlashingMultiplierBellatrix ≤ 16 ∧ 0 < EpochsPerSlashingsVector < two32;
  quotients_range : 0 < MinSlashingPenaltyQuotient < two64 ∧ 0 < MinSlashingPenaltyQuotientAltair < two64 ∧
    0 < MinSlashingPenaltyQuotientBellatrix < two64 ∧ 0 < MinSlashingPenaltyQuotientElectra < two64 ∧
    0 < ProposerRewardQuotient < two64 ∧ 0 < WhistleBlowerRewardQuotient < two64 ∧ 0 < WhistleBlowerRewardQuotientElectra < two64;
  hysteresis_range : 0 < HysteresisQuotient ∧ 0 ≤ HysteresisDownwardMultiplier ≤ HysteresisQuotient ∧
    HysteresisQuotient ≤ HysteresisUpwardMultiplier ≤ 16 * HysteresisQuotient ∧
    256 ≤ EffectiveBalanceIncrement < two32;
  hysteresis_divides : EffectiveBalanceIncrement mod HysteresisQuotient = 0;
  balances_range : EffectiveBalanceIncrement ≤ MinActivationBalance ≤ MaxEffectiveBalanceElectra ∧
    EffectiveBalanceIncrement ≤ MaxEffectiveBalance ≤ MaxEffectiveBalanceElectra ∧
    MaxEffectiveBalanceElectra ≤ 4096 * EffectiveBalanceIncrement ∧
    MinActivationBalance mod EffectiveBalanceIncrement = 0 ∧ MaxEffectiveBalance mod EffectiveBalanceIncrement = 0 ∧
    MaxEffectiveBalanceElectra mod EffectiveBalanceIncrement = 0;
  activation_balance : MinActivationBalance = MaxEffectiveBalance;
  withdrawals_range : 0 < MaxPendingPartialsPerWithdrawalsSweep < MaxWithdrawalsPerPayload ∧ MaxWithdrawalsPerPayload < two32 ∧
    0 < MaxValidatorsPerWithdrawalsSweep < two32;
  prefixes_distinct : BLSWithdrawalPrefixByte ≠ ETH1AddressWithdrawalPrefixByte ∧
    ETH1AddressWithdrawalPrefixByte ≠ CompoundingWithdrawalPrefixByte ∧ BLSWithdrawalPrefixByte ≠ CompoundingWithdrawalPrefixByte;
  FarFutureEpoch_max : FarFutureEpoch = maxUint64
}.

#[program] Definition mainnetLedgerConfig : @LedgerConfig mainnetBeaconConfig := {|
  BaseRewardFactor := 64;
  WeightDenominator := 64;
  TimelySourceWeight := 14;
  TimelyTargetWeight := 26;
  TimelyHeadWeight := 14;
  ProposerWeight := 8;
  TimelySourceFlagIndex := 0;
  TimelyHeadFlagIndex := 2;
  InactivityScoreBias := 4;
  InactivityScoreRecoveryRate := 16;
  MinEpochsToInactivityPenalty := 4;
  InactivityPenaltyQuotient0 := 67108864;
  InactivityPenaltyQuotientAltair := 50331648;
  InactivityPenaltyQuotientBellatrix := 16777216;
  ProportionalSlashingMultiplier0 := 1;
  ProportionalSlashingMultiplierAltair := 2;
  ProportionalSlashingMultiplierBellatrix := 3;
  MinSlashingPenaltyQuotient := 128;
  MinSlashingPenaltyQuotientAltair := 64;
  MinSlashingPenaltyQuotientBellatrix := 32;
  MinSlashingPenaltyQuotientElectra := 4096;
  ProposerRewardQuotient := 8;
  WhistleBlowerRewardQuotient := 512;
  WhistleBlowerRewardQuotientElectra := 4096;
  HysteresisQuotient := 4;
  HysteresisDownwardMultiplier := 1;
  HysteresisUpwardMultiplier := 5;
  MinActivationBalance := 32000000000;
  SqrRootSlotsPerEpoch := 5;
  MinAttestationInclusionDelay := 1;
  MaxWithdrawalsPerPayload := 16;
  MaxValidatorsPerWithdrawalsSweep := 16384;
  MaxPendingPartialsPerWithdrawalsSweep := 8;
  PendingPartialWithdrawalsLimit := 134217728;
  PendingConsolidationsLimit := 262144;
  MaxPendingDepositsPerEpoch := 16;
  FullExitRequestAmount := 0;
  ShardCommitteePeriod := 256;
  GenesisSlot := 0;
  UnsetDepositRequestsStartIndex := maxUint64;
  BLSWithdrawalPrefixByte := 0;
  ETH1AddressWithdrawalPrefixByte := 1;
  CompoundingWithdrawalPrefixByte := 2
|}.
Solve Obligations with (cbn; unfold two64, two32; intuition (lia || discriminate || reflexivity)).

(** ** Data *)

Record PendingPartialWithdrawal := mkPartial { PartialIndex : Z; PartialAmount : Z; PartialWithdrawableEpoch : Z }.
Record PendingDeposit := mkPendingDeposit {
  PDPublicKey : list Z;
  PDWithdrawalCredentials : list Z;
  PDAmount : Z;
  PDSignature : list Z;
  PDSlot : Z
}.
Record PendingConsolidation := mkConsolidation { SourceIndex : Z; TargetIndex : Z }.

Record Ledger := mkLedger {
  registry : ExitState;
  Balances : list Z;
  Slashings : list Z;
  InactivityScores : list Z;
  PreviousEpochParticipation : list Z;
  CurrentEpochParticipation : list Z;
  FinalizedEpoch : Z;
  ValMap : gmap (list Z) Z;
  NextWithdrawalIndex : Z;
  NextWithdrawalValidatorIndex : Z;
  PendingPartialWithdrawals : list PendingPartialWithdrawal;
  PendingDepositQueue : list PendingDeposit;
  DepositBalanceToConsume : Z;
  Eth1DepositIndex : Z;
  DepositRequestsStartIndex : Z;
  PendingConsolidations : list PendingConsolidation
}.

Definition setRegistry (x : ExitState) (s : Ledger) : Ledger :=
  mkLedger x (Balances s) (Slashings s) (InactivityScores s) (PreviousEpochParticipation s) (CurrentEpochParticipation
    s) (FinalizedEpoch s) (ValMap s) (NextWithdrawalIndex s) (NextWithdrawalValidatorIndex s) (PendingPartialWithdrawals
    s) (PendingDepositQueue s) (DepositBalanceToConsume s) (Eth1DepositIndex s) (DepositRequestsStartIndex s)
    (PendingConsolidations s).
Definition setBalances (x : list Z) (s : Ledger) : Ledger :=
  mkLedger (registry s) x (Slashings s) (InactivityScores s) (PreviousEpochParticipation s) (CurrentEpochParticipation
    s) (FinalizedEpoch s) (ValMap s) (NextWithdrawalIndex s) (NextWithdrawalValidatorIndex s) (PendingPartialWithdrawals
    s) (PendingDepositQueue s) (DepositBalanceToConsume s) (Eth1DepositIndex s) (DepositRequestsStartIndex s)
    (PendingConsolidations s).
Definition setSlashings (x : list Z) (s : Ledger) : Ledger :=
  mkLedger (registry s) (Balances s) x (InactivityScores s) (PreviousEpochParticipation s) (CurrentEpochParticipation s)
    (FinalizedEpoch s) (ValMap s) (NextWithdrawalIndex s) (NextWithdrawalValidatorIndex s) (PendingPartialWithdrawals s)
    (PendingDepositQueue s) (DepositBalanceToConsume s) (Eth1DepositIndex s) (DepositRequestsStartIndex s)
    (PendingConsolidations s).
Definition setInactivityScores (x : list Z) (s : Ledger) : Ledger :=
  mkLedger (registry s) (Balances s) (Slashings s) x (PreviousEpochParticipation s) (CurrentEpochParticipation s)
    (FinalizedEpoch s) (ValMap s) (NextWithdrawalIndex s) (NextWithdrawalValidatorIndex s) (PendingPartialWithdrawals s)
    (PendingDepositQueue s) (DepositBalanceToConsume s) (Eth1DepositIndex s) (DepositRequestsStartIndex s)
    (PendingConsolidations s).
Definition setPreviousParticipation (x : list Z) (s : Ledger) : Ledger :=
  mkLedger (registry s) (Balances s) (Slashings s) (InactivityScores s) x (CurrentEpochParticipation s) (FinalizedEpoch
    s) (ValMap s) (NextWithdrawalIndex s) (NextWithdrawalValidatorIndex s) (PendingPartialWithdrawals s)
    (PendingDepositQueue s) (DepositBalanceToConsume s) (Eth1DepositIndex s) (DepositRequestsStartIndex s)
    (PendingConsolidations s).
Definition setCurrentParticipation (x : list Z) (s : Ledger) : Ledger :=
  mkLedger (registry s) (Balances s) (Slashings s) (InactivityScores s) (PreviousEpochParticipation s) x (FinalizedEpoch
    s) (ValMap s) (NextWithdrawalIndex s) (NextWithdrawalValidatorIndex s) (PendingPartialWithdrawals s)
    (PendingDepositQueue s) (DepositBalanceToConsume s) (Eth1DepositIndex s) (DepositRequestsStartIndex s)
    (PendingConsolidations s).
Definition setFinalizedEpoch (x : Z) (s : Ledger) : Ledger :=
  mkLedger (registry s) (Balances s) (Slashings s) (InactivityScores s) (PreviousEpochParticipation s)
    (CurrentEpochParticipation s) x (ValMap s) (NextWithdrawalIndex s) (NextWithdrawalValidatorIndex s)
    (PendingPartialWithdrawals s) (PendingDepositQueue s) (DepositBalanceToConsume s) (Eth1DepositIndex s)
    (DepositRequestsStartIndex s) (PendingConsolidations s).
Definition setValMap (x : gmap (list Z) Z) (s : Ledger) : Ledger :=
  mkLedger (registry s) (Balances s) (Slashings s) (InactivityScores s) (PreviousEpochParticipation s)
    (CurrentEpochParticipation s) (FinalizedEpoch s) x (NextWithdrawalIndex s) (NextWithdrawalValidatorIndex s)
    (PendingPartialWithdrawals s) (PendingDepositQueue s) (DepositBalanceToConsume s) (Eth1DepositIndex s)
    (DepositRequestsStartIndex s) (PendingConsolidations s).
Definition setNextWithdrawalIndex (x : Z) (s : Ledger) : Ledger :=
  mkLedger (registry s) (Balances s) (Slashings s) (InactivityScores s) (PreviousEpochParticipation s)
    (CurrentEpochParticipation s) (FinalizedEpoch s) (ValMap s) x (NextWithdrawalValidatorIndex s)
    (PendingPartialWithdrawals s) (PendingDepositQueue s) (DepositBalanceToConsume s) (Eth1DepositIndex s)
    (DepositRequestsStartIndex s) (PendingConsolidations s).
Definition setNextWithdrawalValidatorIndex (x : Z) (s : Ledger) : Ledger :=
  mkLedger (registry s) (Balances s) (Slashings s) (InactivityScores s) (PreviousEpochParticipation s)
    (CurrentEpochParticipation s) (FinalizedEpoch s) (ValMap s) (NextWithdrawalIndex s) x (PendingPartialWithdrawals s)
    (PendingDepositQueue s) (DepositBalanceToConsume s) (Eth1DepositIndex s) (DepositRequestsStartIndex s)
    (PendingConsolidations s).
Definition setPendingPartialWithdrawals (x : list PendingPartialWithdrawal) (s : Ledger) : Ledger :=
  mkLedger (registry s) (Balances s) (Slashings s) (InactivityScores s) (PreviousEpochParticipation s)
    (CurrentEpochParticipation s) (FinalizedEpoch s) (ValMap s) (NextWithdrawalIndex s) (NextWithdrawalValidatorIndex s)
    x (PendingDepositQueue s) (DepositBalanceToConsume s) (Eth1DepositIndex s) (DepositRequestsStartIndex s)
    (PendingConsolidations s).
Definition setPendingDeposits (x : list PendingDeposit) (s : Ledger) : Ledger :=
  mkLedger (registry s) (Balances s) (Slashings s) (InactivityScores s) (PreviousEpochParticipation s)
    (CurrentEpochParticipation s) (FinalizedEpoch s) (ValMap s) (NextWithdrawalIndex s) (NextWithdrawalValidatorIndex s)
    (PendingPartialWithdrawals s) x (DepositBalanceToConsume s) (Eth1DepositIndex s) (DepositRequestsStartIndex s)
    (PendingConsolidations s).
Definition setDepositBalanceToConsume (x : Z) (s : Ledger) : Ledger :=
  mkLedger (registry s) (Balances s) (Slashings s) (InactivityScores s) (PreviousEpochParticipation s)
    (CurrentEpochParticipation s) (FinalizedEpoch s) (ValMap s) (NextWithdrawalIndex s) (NextWithdrawalValidatorIndex s)
    (PendingPartialWithdrawals s) (PendingDepositQueue s) x (Eth1DepositIndex s) (DepositRequestsStartIndex s)
    (PendingConsolidations s).
Definition setEth1DepositIndex (x : Z) (s : Ledger) : Ledger :=
  mkLedger (registry s) (Balances s) (Slashings s) (InactivityScores s) (PreviousEpochParticipation s)
    (CurrentEpochParticipation s) (FinalizedEpoch s) (ValMap s) (NextWithdrawalIndex s) (NextWithdrawalValidatorIndex s)
    (PendingPartialWithdrawals s) (PendingDepositQueue s) (DepositBalanceToConsume s) x (DepositRequestsStartIndex s)
    (PendingConsolidations s).
Definition setDepositRequestsStartIndex (x : Z) (s : Ledger) : Ledger :=
  mkLedger (registry s) (Balances s) (Slashings s) (InactivityScores s) (PreviousEpochParticipation s)
    (CurrentEpochParticipation s) (FinalizedEpoch s) (ValMap s) (NextWithdrawalIndex s) (NextWithdrawalValidatorIndex s)
    (PendingPartialWithdrawals s) (PendingDepositQueue s) (DepositBalanceToConsume s) (Eth1DepositIndex s) x
    (PendingConsolidations s).
Definition setPendingConsolidations (x : list PendingConsolidation) (s : Ledger) : Ledger :=
  mkLedger (registry s) (Balances s) (Slashings s) (InactivityScores s) (PreviousEpochParticipation s)
    (CurrentEpochParticipation s) (FinalizedEpoch s) (ValMap s) (NextWithdrawalIndex s) (NextWithdrawalValidatorIndex s)
    (PendingPartialWithdrawals s) (PendingDepositQueue s) (DepositBalanceToConsume s) (Eth1DepositIndex s)
    (DepositRequestsStartIndex s) x.

(** ** Getters and setters of the state *)

Definition Validators (s : Ledger) : list Validator := StateValidators (registry s).
Definition LedgerSlot (s : Ledger) : Z := ExitSlot (registry s).
Definition Version (s : Ledger) : ForkVersion := StateVersion (registry s).
Definition NumValidators (s : Ledger) : Z := Z.of_nat (length (Validators s)).

(** [b.version >= v] *)
Definition versionAtLeast (v : ForkVersion) (s : Ledger) : bool := versionNumber v <=? versionNumber (Version s).

Definition isPhase0 (s : Ledger) : bool := versionNumber (Version s) =? versionNumber Phase0.

Definition errOutOfBounds : error := "index out of bounds".
Definition errNotSupported (funcName : string) : error := (funcName +:+ " is not supported")%string.

Definition ValidatorAt (s : Ledger) (idx : Z) : outcome Validator := ValidatorAtIndex (registry s) idx.
Definition UpdateValidatorAt (s : Ledger) (idx : Z) (val : Validator) : outcome Ledger :=
  r <-? UpdateValidatorAtIndex (registry s) idx val;; Ret (setRegistry r s).

Definition BalanceAtIndex (s : Ledger) (idx : Z) : outcome Z :=
  match Balances s !! Z.to_nat idx with Some b => Ret b | None => Err errOutOfBounds end.
Definition UpdateBalancesAtIndex (s : Ledger) (idx val : Z) : outcome Ledger :=
  if (Z.to_nat idx <? length (Balances s))%nat then Ret (setBalances (<[Z.to_nat idx := val]> (Balances s)) s)
  else Err (wrapErr errOutOfBounds "could not update balances").

Definition UpdateSlashingsAtIndex (s : Ledger) (idx val : Z) : outcome Ledger :=
  if Z.of_nat (length (Slashings s)) <=? idx then Err "invalid index provided"
  else Ret (setSlashings (<[Z.to_nat idx := val]> (Slashings s)) s).

(** [AppendValidator] also enters the key into the map of indices. *)
Definition AppendValidator (s : Ledger) (val : Validator) : Ledger :=
  let s := setRegistry (setValidators (Validators s ++ [val]) (registry s)) s in
  setValMap (<[ToBytes48 (ValPublicKey val) := NumValidators s - 1]> (ValMap s)) s.
Definition AppendBalance (s : Ledger) (bal : Z) : Ledger := setBalances (Balances s ++ [bal]) s.
Definition AppendInactivityScore (s : Ledger) (score : Z) : outcome Ledger :=
  if isPhase0 s then Err (errNotSupported "AppendInactivityScore")
  else Ret (setInactivityScores (InactivityScores s ++ [score]) s).
Definition AppendPreviousParticipationBits (s : Ledger) (val : Z) : outcome Ledger :=
  if isPhase0 s then Err (errNotSupported "AppendPreviousParticipationBits")
  else Ret (setPreviousParticipation (PreviousEpochParticipation s ++ [val]) s).
Definition AppendCurrentParticipationBits (s : Ledger) (val : Z) : outcome Ledger :=
  if isPhase0 s then Err (errNotSupported "AppendCurrentParticipationBits")
  else Ret (setCurrentParticipation (CurrentEpochParticipation s ++ [val]) s).

(** The second component is whether the key is known. *)
Definition ValidatorIndexByPubkey (s : Ledger) (key : list Z) : option Z :=
  match ValMap s !! key with
  | Some idx => if NumValidators s <=? idx then None else Some idx
  | None => None
  end.

Section ledger.
Context `{LedgerConfig}.

(** [slots.ToEpoch(s.Slot())] and [time.PrevEpoch]. *)
Definition LedgerEpoch (s : Ledger) : Z := ToEpoch (LedgerSlot s).
Definition LedgerPrevEpoch (s : Ledger) : Z := if LedgerEpoch s =? 0 then 0 else LedgerEpoch s - 1.

(** ** Balances *)

Fixpoint totalLoop (validators : list Validator) (indices : list Z) (total : Z) : Z :=
  match indices with
  | [] => total
  | idx :: indices =>
      match validators !! Z.to_nat idx with
      | Some val => totalLoop validators indices (total +w EffectiveBalance val)
      | None => totalLoop validators indices total
      end
  end.
Definition TotalBalance (s : Ledger) (indices : list Z) : Z :=
  let total := totalLoop (Validators s) indices 0 in
  if total <? EffectiveBalanceIncrement then EffectiveBalanceIncrement else total.

Definition IncreaseBalanceWithVal (currBalance delta : Z) : outcome Z := Add64 currBalance delta.
Definition DecreaseBalanceWithVal (currBalance delta : Z) : Z := if currBalance <? delta then 0 else currBalance -w delta.

Definition IncreaseBalance (s : Ledger) (idx delta : Z) : outcome Ledger :=
  balAtIdx <-? BalanceAtIndex s idx;;
  newBal <-? IncreaseBalanceWithVal balAtIdx delta;;
  UpdateBalancesAtIndex s idx newBal.
Definition DecreaseBalance (s : Ledger) (idx delta : Z) : outcome Ledger :=
  balAtIdx <-? BalanceAtIndex s idx;;
  UpdateBalancesAtIndex s idx (DecreaseBalanceWithVal balAtIdx delta).

Definition FinalityDelay (prevEpoch finalizedEpoch : Z) : Z := prevEpoch -w finalizedEpoch.
Definition IsInInactivityLeak (prevEpoch finalizedEpoch : Z) : bool :=
  MinEpochsToInactivityPenalty <? FinalityDelay prevEpoch finalizedEpoch.

(** ** Parameters by fork *)

Definition ProportionalSlashingMultiplier (s : Ledger) : outcome Z :=
  if versionAtLeast Bellatrix s then Ret ProportionalSlashingMultiplierBellatrix
  else if versionAtLeast Altair s then Ret ProportionalSlashingMultiplierAltair
  else if versionAtLeast Phase0 s then Ret ProportionalSlashingMultiplier0
  else Err (errNotSupported "ProportionalSlashingMultiplier").

Definition InactivityPenaltyQuotient (s : Ledger) : outcome Z :=
  if versionAtLeast Bellatrix s then Ret InactivityPenaltyQuotientBellatrix
  else if versionAtLeast Altair s then Ret InactivityPenaltyQuotientAltair
  else if versionAtLeast Phase0 s then Ret InactivityPenaltyQuotient0
  else Err (errNotSupported "InactivityPenaltyQuotient").

(** The slashing, proposer reward and whistleblower reward quotients. *)
Definition SlashingParamsPerVersion (v : ForkVersion) : outcome (Z * Z * Z) :=
  if versionNumber Electra <=? versionNumber v then
    Ret (MinSlashingPenaltyQuotientElectra, ProposerRewardQuotient, WhistleBlowerRewardQuotientElectra)
  else if versionNumber Bellatrix <=? versionNumber v then
    Ret (MinSlashingPenaltyQuotientBellatrix, ProposerRewardQuotient, WhistleBlowerRewardQuotient)
  else if versionNumber Altair <=? versionNumber v then
    Ret (MinSlashingPenaltyQuotientAltair, ProposerRewardQuotient, WhistleBlowerRewardQuotient)
  else if versionNumber Phase0 <=? versionNumber v then
    Ret (MinSlashingPenaltyQuotient, ProposerRewardQuotient, WhistleBlowerRewardQuotient)
  else Err "unknown state version".

(** ** Withdrawal credentials

    An index into empty credentials would panic; the state's credentials have 32 bytes. *)

Definition credentialPrefix (v : Validator) : outcome Z :=
  match ValWithdrawalCredentials v with b :: _ => Ret b | [] => Panic "index out of range" end.
Definition HasETH1WithdrawalCredentials (v : Validator) : outcome bool :=
  b <-? credentialPrefix v;; Ret (b =? ETH1AddressWithdrawalPrefixByte).
Definition HasCompoundingWithdrawalCredentials (v : Validator) : outcome bool :=
  b <-? credentialPrefix v;; Ret (b =? CompoundingWithdrawalPrefixByte).
Definition HasExecutionWithdrawalCredentials (v : Validator) : outcome bool :=
  e <-? HasETH1WithdrawalCredentials v;;
  if e : bool then Ret true else HasCompoundingWithdrawalCredentials v.

Definition ValidatorMaxEffectiveBalance (v : Validator) : outcome Z :=
  c <-? HasCompoundingWithdrawalCredentials v;;
  Ret (if c : bool then MaxEffectiveBalanceElectra else MinActivationBalance).

(** ** Activation *)

Definition isEligibleForActivationQueue (activationEligibilityEpoch effectiveBalance : Z) : bool :=
  (activationEligibilityEpoch =? FarFutureEpoch) && (effectiveBalance =? MaxEffectiveBalance).
Definition isEligibleForActivationQueueElectra (activationEligibilityEpoch effectiveBalance : Z) : bool :=
  (activationEligibilityEpoch =? FarFutureEpoch) && (MinActivationBalance <=? effectiveBalance).
Definition IsEligibleForActivationQueue (v : Validator) (currentEpoch : Z) : bool :=
  if ElectraForkEpoch <=? currentEpoch
  then isEligibleForActivationQueueElectra (ActivationEligibilityEpoch v) (EffectiveBalance v)
  else isEligibleForActivationQueue (ActivationEligibilityEpoch v) (EffectiveBalance v).

Definition isEligibleForActivation (activationEligibilityEpoch activationEpoch finalizedEpoch : Z) : bool :=
  (activationEligibilityEpoch <=? finalizedEpoch) && (activationEpoch =? FarFutureEpoch).
Definition IsEligibleForActivation (s : Ledger) (v : Validator) : bool :=
  isEligibleForActivation (ActivationEligibilityEpoch v) (ActivationEpoch v) (FinalizedEpoch s).

(** ** Changes of one validator *)

Definition withEffectiveBalance (b : Z) (v : Validator) : Validator :=
  mkValidator b (Slashed v) (ActivationEligibilityEpoch v) (ActivationEpoch v) (ExitEpoch v) (WithdrawableEpoch v)
    (ValPublicKey v) (ValWithdrawalCredentials v).
Definition withEligibility (e : Z) (v : Validator) : Validator :=
  mkValidator (EffectiveBalance v) (Slashed v) e (ActivationEpoch v) (ExitEpoch v) (WithdrawableEpoch v)
    (ValPublicKey v) (ValWithdrawalCredentials v).
Definition withActivation (e : Z) (v : Validator) : Validator :=
  mkValidator (EffectiveBalance v) (Slashed v) (ActivationEligibilityEpoch v) e (ExitEpoch v) (WithdrawableEpoch v)
    (ValPublicKey v) (ValWithdrawalCredentials v).
Definition withSlashed (withdrawable : Z) (v : Validator) : Validator :=
  mkValidator (EffectiveBalance v) true (ActivationEligibilityEpoch v) (ActivationEpoch v) (ExitEpoch v) withdrawable
    (ValPublicKey v) (ValWithdrawalCredentials v).
Definition withExit (exit withdrawable : Z) (v : Validator) : Validator :=
  mkValidator (EffectiveBalance v) (Slashed v) (ActivationEligibilityEpoch v) (ActivationEpoch v) exit withdrawable
    (ValPublicKey v) (ValWithdrawalCredentials v).
Definition withCredentials (creds : list Z) (v : Validator) : Validator :=
  mkValidator (EffectiveBalance v) (Slashed v) (ActivationEligibilityEpoch v) (ActivationEpoch v) (ExitEpoch v) (WithdrawableEpoch v)
    (ValPublicKey v) creds.
End ledger.

(** * Laws of the ledger

    The invariant of the ledger that its operations share, and what the changes of a
    balance and of a validator do under it. *)

(** One balance for each validator, all of them machine integers, and credentials of 32
    bytes. *)
Record ledger_ok (s : Ledger) : Prop := {
  lo_balances : length (Balances s) = length (Validators s);
  lo_amounts : Forall is_u64 (Balances s);
  lo_creds : Forall (λ v, length (ValWithdrawalCredentials v) = 32%nat) (Validators s);
  lo_size : NumValidators s < two32
}.

(** An index of the registry. *)
Definition known (s : Ledger) (i : Z) : Prop := 0 ≤ i < NumValidators s.

Lemma unsupported_ret {A} (b : bool) (e : error) (x y : A) : (if b then Err e else Ret x) = Ret y → y = x.
Proof. destruct b; [done|]. by intros [= ->]. Qed.

Section laws.
Context `{LedgerConfig}.

(** ** Sums under an update *)

Lemma Zsum_insert (l : list Z) i x y : l !! i = Some x → Zsum (<[i := y]> l) = Zsum l - x + y.
Proof.
  revert i. induction l as [|z l IH]; intros [|i] Hi; [done..| |]; cbn in *.
  - injection Hi as ->. lia.
  - change (z + Zsum (<[i := y]> l) = z + Zsum l - x + y). rewrite (IH _ Hi). lia.
Qed.

Lemma balances_nonneg s : ledger_ok s → 0 ≤ Zsum (Balances s).
Proof. intros Hok. apply Zsum_nonneg. eapply Forall_impl; [apply (lo_amounts _ Hok)|]. intros x Hx. apply Hx. Qed.

(** ** Looking up *)

Lemma known_lt s i : known s i → (Z.to_nat i < length (Validators s))%nat.
Proof. unfold known, NumValidators. lia. Qed.

Lemma known_u64 s i : ledger_ok s → known s i → is_u64 i.
Proof. intros Hok Hi. pose proof (lo_size _ Hok). unfold known, is_u64, two64, two32 in *. lia. Qed.

Lemma known_validator s i : known s i → ∃ v, Validators s !! Z.to_nat i = Some v ∧ ValidatorAt s i = Ret v.
Proof.
  intros Hi%known_lt. destruct (lookup_lt_is_Some_2 _ _ Hi) as [v Hv]. exists v. split; [done|].
  unfold ValidatorAt, ValidatorAtIndex, Validators in *. by rewrite Hv.
Qed.

Lemma validator_creds s i v :
  ledger_ok s → Validators s !! i = Some v → length (ValWithdrawalCredentials v) = 32%nat.
Proof. intros Hok Hv. exact (Forall_lookup_1 _ _ _ _ (lo_creds _ Hok) Hv). Qed.

Lemma known_balance s i : ledger_ok s → known s i → ∃ b, Balances s !! Z.to_nat i = Some b ∧ BalanceAtIndex s i = Ret b ∧ is_u64 b.
Proof.
  intros Hok Hi%known_lt. rewrite <- (lo_balances _ Hok) in Hi. destruct (lookup_lt_is_Some_2 _ _ Hi) as [b Hb].
  exists b. split_and!; [done| |exact (Forall_lookup_1 _ _ _ _ (lo_amounts _ Hok) Hb)]. unfold BalanceAtIndex. by rewrite Hb.
Qed.

(** ** Setting balances *)

Lemma setBalances_ok s bs : ledger_ok s → length bs = length (Balances s) → Forall is_u64 bs → ledger_ok (setBalances bs s).
Proof. intros Hok Hl Hb. split; cbn; [rewrite Hl; apply Hok|done|apply Hok|apply Hok]. Qed.

Lemma setBalance_ok s i b : ledger_ok s → is_u64 b → ledger_ok (setBalances (<[i := b]> (Balances s)) s).
Proof. intros Hok Hb. apply setBalances_ok; [done|apply length_insert|]. apply Forall_insert; [apply Hok|done]. Qed.

Lemma UpdateBalancesAtIndex_run s i b x :
  Balances s !! Z.to_nat i = Some x →
  UpdateBalancesAtIndex s i b = Ret (setBalances (<[Z.to_nat i := b]> (Balances s)) s).
Proof. intros Hx%lookup_lt_Some. unfold UpdateBalancesAtIndex. by rewrite (proj2 (Nat.ltb_lt _ _) Hx). Qed.

Lemma BalanceAtIndex_run s i x : Balances s !! Z.to_nat i = Some x → BalanceAtIndex s i = Ret x.
Proof. intros Hx. unfold BalanceAtIndex. by rewrite Hx. Qed.

Lemma DecreaseBalanceWithVal_max x d : is_u64 x → is_u64 d → DecreaseBalanceWithVal x d = Z.max 0 (x - d).
Proof.
  unfold DecreaseBalanceWithVal, is_u64. intros Hx Hd. destruct (x <? d) eqn:E; bprop; [lia|].
  rewrite wrap64_small by (unfold is_u64; lia). lia.
Qed.

Lemma DecreaseBalance_run s i x d :
  Balances s !! Z.to_nat i = Some x → is_u64 x → is_u64 d →
  DecreaseBalance s i d = Ret (setBalances (<[Z.to_nat i := Z.max 0 (x - d)]> (Balances s)) s).
Proof.
  intros Hx Hux Hd. unfold DecreaseBalance. rewrite (BalanceAtIndex_run _ _ _ Hx). cbn.
  rewrite DecreaseBalanceWithVal_max by done. by eapply UpdateBalancesAtIndex_run.
Qed.

Lemma IncreaseBalance_run s i x d :
  Balances s !! Z.to_nat i = Some x → is_u64 x → is_u64 d → x + d < two64 →
  IncreaseBalance s i d = Ret (setBalances (<[Z.to_nat i := x + d]> (Balances s)) s).
Proof.
  intros Hx Hux Hd Hsum. unfold IncreaseBalance, IncreaseBalanceWithVal. rewrite (BalanceAtIndex_run _ _ _ Hx). cbn [obind].
  rewrite Add64_spec by done. rewrite (proj2 (Z.ltb_lt _ _)) by done. cbn [obind]. by eapply UpdateBalancesAtIndex_run.
Qed.

(** ** Credentials *)

Definition prefixOf (v : Validator) : Z := hd 0 (ValWithdrawalCredentials v).
Definition isETH1 (v : Validator) : bool := prefixOf v =? ETH1AddressWithdrawalPrefixByte.
Definition isCompounding (v : Validator) : bool := prefixOf v =? CompoundingWithdrawalPrefixByte.
Definition capOf (v : Validator) : Z := if isCompounding v then MaxEffectiveBalanceElectra else MinActivationBalance.

Section creds.
Context (v : Validator) (Hv : length (ValWithdrawalCredentials v) = 32%nat).

Lemma credentialPrefix_run : credentialPrefix v = Ret (prefixOf v).
Proof using Hv. unfold credentialPrefix, prefixOf. by destruct (ValWithdrawalCredentials v). Qed.

Lemma HasETH1_run : HasETH1WithdrawalCredentials v = Ret (isETH1 v).
Proof using Hv. unfold HasETH1WithdrawalCredentials. by rewrite credentialPrefix_run. Qed.

Lemma HasCompounding_run : HasCompoundingWithdrawalCredentials v = Ret (isCompounding v).
Proof using Hv. unfold HasCompoundingWithdrawalCredentials. by rewrite credentialPrefix_run. Qed.

Lemma HasExecution_run : HasExecutionWithdrawalCredentials v = Ret (isETH1 v || isCompounding v).
Proof using Hv.
  unfold HasExecutionWithdrawalCredentials. rewrite HasETH1_run, HasCompounding_run. cbn. by destruct (isETH1 v).
Qed.

Lemma MaxEffectiveBalance_run : ValidatorMaxEffectiveBalance v = Ret (capOf v).
Proof using Hv. unfold ValidatorMaxEffectiveBalance. by rewrite HasCompounding_run. Qed.
End creds.

Lemma capOf_range v : EffectiveBalanceIncrement ≤ capOf v ≤ 4096 * EffectiveBalanceIncrement.
Proof. unfold capOf. pose proof balances_range. destruct (isCompounding v); lia. Qed.

Lemma capOf_multiple v : capOf v mod EffectiveBalanceIncrement = 0.
Proof. unfold capOf. pose proof balances_range. destruct (isCompounding v); lia. Qed.

(** A validator has one kind of credentials. *)
Lemma ETH1_not_compounding v : isETH1 v = true → isCompounding v = false.
Proof. unfold isETH1, isCompounding. pose proof prefixes_distinct. intros ?. bprop. apply Z.eqb_neq. lia. Qed.
(** ** Exits *)

(** What an exit does to the registry. *)
Definition exit_effect (s s' : ExitState) (idx : Z) : Prop :=
  ExitSlot s' = ExitSlot s ∧ StateVersion s' = StateVersion s ∧
  (StateValidators s' = StateValidators s ∨
   ∃ v e w, StateValidators s !! Z.to_nat idx = Some v ∧ StateValidators s' = <[Z.to_nat idx := withExit e w v]> (StateValidators s)).

(** A change of the churn only. *)
Definition churn_only (s s' : ExitState) : Prop := ExitSlot s' = ExitSlot s ∧ StateVersion s' = StateVersion s ∧ StateValidators s' = StateValidators s.

Lemma updateChurn_only s total b : churn_only s (exitEpochAndUpdateChurn s total b).1.
Proof. unfold exitEpochAndUpdateChurn. by repeat case_match. Qed.

Lemma recordExit_effect s s0 idx v info r :
  StateValidators s !! Z.to_nat idx = Some v → churn_only s s0 → recordExit s0 idx v info = r → exit_effect s r.1.1 idx.
Proof.
  intros Hv (H1' & H2' & H3') <-. unfold recordExit, UpdateValidatorAtIndex. rewrite H3'.
  destruct (Epoch_SafeAddEpoch _ _) as [w| | |]; [|split_and!; [done|done|by left]..]. destruct (_ <? _)%nat; [|split_and!; [done|done|by left]].
  split_and!; [done|done|]. right. exists v, (HighestExitEpoch info), w. by split.
Qed.

Lemma initiateExit_effect electraExit s idx info :
  (∀ s b, churn_only s (electraExit s b).1) → exit_effect s (initiateExit electraExit s idx info).1.1 idx.
Proof.
  intros Hc. assert (exit_effect s s idx) as Hid by (split_and!; [done|done|by left]). unfold initiateExit, ValidatorAtIndex.
  destruct (StateValidators s !! Z.to_nat idx) as [v|] eqn:Hv; [|done]. destruct (negb _); [done|]. destruct (negb _).
  - destruct (initiateValidatorExitPreElectra s info) as [info' [u| | |]]; [|done..]. eapply (recordExit_effect s s); [exact Hv|done|reflexivity].
  - pose proof (Hc s (EffectiveBalance v)) as Hc1. destruct (electraExit s (EffectiveBalance v)) as [s1 res]. cbn [fst] in Hc1.
    assert (exit_effect s s1 idx) as Hid1 by (destruct Hc1 as (? & ? & ?); split_and!; [done|done|by left]).
    destruct res; [|done..]. eapply recordExit_effect; [exact Hv|exact Hc1|reflexivity].
Qed.

Lemma exitForTotal_effect s idx info total : exit_effect s (InitiateValidatorExitForTotalBal s idx info total).1.1 idx.
Proof.
  apply initiateExit_effect. intros s' b. unfold ExitEpochAndUpdateChurnForTotalBal. destruct (negb _); [done|]. apply updateChurn_only.
Qed.

Lemma InitiateExit_effect s i info : exit_effect s (InitiateValidatorExit s i info).1.1 i.
Proof. apply initiateExit_effect. intros s' b. unfold ExitEpochAndUpdateChurn. destruct (negb _); [done|]. apply updateChurn_only. Qed.

Lemma Decrease_registry s i a s' : DecreaseBalance s i a = Ret s' → registry s' = registry s.
Proof.
  unfold DecreaseBalance, UpdateBalancesAtIndex. intros (x & _ & Hr)%obind_ret. destruct (_ <? _)%nat; [|done]. by injection Hr as <-.
Qed.
Lemma Increase_registry s i a s' : IncreaseBalance s i a = Ret s' → registry s' = registry s.
Proof.
  unfold IncreaseBalance, UpdateBalancesAtIndex. intros (x & _ & (y & _ & Hr)%obind_ret)%obind_ret. destruct (_ <? _)%nat; [|done]. by injection Hr as <-.
Qed.

End laws.

Lemma returned_ret {A} (o : outcome A) : is_ret o = true → ∃ a, o = Ret a.
Proof. destruct o; naive_solver. Qed.

(** ** A sample ledger *)

Definition sampleValidator (effective : Z) (prefix key exit withdrawable : Z) : Validator :=
  mkValidator effective false 0 0 exit withdrawable (replicate 48 key) (prefix :: replicate 31 key).

(** Four validators at the start of epoch 100 of Electra: a plain one with an excess, an
    exited one, a compounding one with a pending partial withdrawal, and one without
    execution credentials. *)
Definition sampleLedger : Ledger :=
  mkLedger
    (mkExitState
      [sampleValidator 32000000000 1 1 maxUint64 maxUint64; sampleValidator 32000000000 1 2 50 90;
       sampleValidator 64000000000 2 3 maxUint64 maxUint64; sampleValidator 32000000000 0 4 maxUint64 maxUint64]
      3200 Electra 0 0 0 0)
    [32500000000; 31000000000; 64700000000; 33000000000] (replicate 8192 0) [0; 0; 0; 0] [7; 0; 7; 3] [7; 0; 1; 3] 98
    {[replicate 48 1 := 0; replicate 48 2 := 1; replicate 48 3 := 2; replicate 48 4 := 3]} 1000 0
    [mkPartial 2 500000000 99; mkPartial 2 100000000 200] [] 0 0 0 [].

Lemma sampleLedger_ok : ledger_ok sampleLedger.
Proof. split; [done| |by repeat constructor|done]. repeat constructor; unfold is_u64; by compute. Qed.
