(* ===== verification/Participation.v ===== *)
(** * Attestation participation

    Models [beacon-chain/core/altair/attestation.go] and [reward.go]: which participation
    flags an attestation earns, how they are entered into the state, and the proposer's
    reward for entering them.  The committee and signature checks before it, and the
    choice of the proposer, are arguments. *)

From S2P Require Import Prelude MathHelper Primitives SlotTime Shuffle Committee Justification ExitQueue Ledger.

(** What the reward code needs of [math.CachedSquareRoot]. *)
Class SquareRoot := {
  CachedRoot : Z → outcome Z;
  CachedRoot_sqrt x : 0 ≤ x < maxUint64 → CachedRoot x = Ret (Z.sqrt x)
}.

(** The cached Newton iteration keeps the promise from every consistent cache. *)
#[program] Definition cachedSquareRoot (c : sqrtCache) (Hc : sqrtCache_ok c) : SquareRoot := {|
  CachedRoot x := (CachedSquareRoot x c).1
|}.
Next Obligation.
  intros c Hc x Hx. destruct (CachedSquareRoot_root x c) as (c' & Hr & _); [unfold two64, maxUint64 in *; lia|done|lia|]. by rewrite Hr.
Qed.

(** Go's integer division. *)
Definition goDiv (a b : Z) : outcome Z := if b =? 0 then Panic ErrDivByZero else Ret (a / b).

Record AttestationData := mkAttestationData {
  AttSlot : Z;
  AttCommitteeIndex : Z;
  AttBeaconBlockRoot : Z;
  AttSource : EthCheckpoint;
  AttTarget : EthCheckpoint
}.

Definition errFlagPosition : error := "flag position exceeds length".
Definition HasValidatorFlag (flag flagPosition : Z) : outcome bool :=
  if 7 <? flagPosition then Err errFlagPosition else Ret (Z.land (Z.shiftr flag flagPosition) 1 =? 1).
Definition AddValidatorFlag (flag flagPosition : Z) : outcome Z :=
  if 7 <? flagPosition then Err errFlagPosition else Ret (Z.lor flag (Z.shiftl 1 flagPosition)).

Abbreviation Flags := (gmap Z bool).
Definition participated (flags : Flags) (i : Z) : bool := default false (flags !! i).

Section participation.
Context `{LedgerConfig} `{!SquareRoot}.

(** ** Base rewards *)

Definition BaseRewardPerIncrement (activeBalance : Z) : outcome Z :=
  if activeBalance =? 0 then Err "active balance can't be 0"
  else root <-? CachedRoot activeBalance;; goDiv (EffectiveBalanceIncrement *w BaseRewardFactor) root.

Definition BaseRewardWithTotalBalance (s : Ledger) (index totalBalance : Z) : outcome Z :=
  val <-? ValidatorAt s index;;
  let increments := EffectiveBalance val / EffectiveBalanceIncrement in
  baseRewardPerInc <-? BaseRewardPerIncrement totalBalance;;
  Ret (increments *w baseRewardPerInc).

Definition BaseReward (s : Ledger) (index : Z) : outcome Z :=
  BaseRewardWithTotalBalance s index (TotalActiveBalance (registry s)).

(** ** Flags of an attestation *)

Section matching.
Context {BV : Type} `{Bitvector4 BV}.

Definition MatchingStatus (st : BeaconState BV) (data : AttestationData) (cp : EthCheckpoint) : outcome (bool * bool * bool) :=
  let matchedSrc := (CheckpointEpoch (AttSource data) =? CheckpointEpoch cp) && (CheckpointRoot (AttSource data) =? CheckpointRoot cp) in
  r <-? BlockRoot st (CheckpointEpoch (AttTarget data));;
  let matchedTgt := r =? CheckpointRoot (AttTarget data) in
  r <-? BlockRootAtSlot st (AttSlot data);;
  let matchedHead := r =? AttBeaconBlockRoot data in
  Ret (matchedSrc, matchedTgt, matchedHead).

Definition AttestationParticipationFlagIndices (st : BeaconState BV) (data : AttestationData) (delay : Z) : outcome Flags :=
  let justifiedCheckpt := if CheckpointEpoch (AttTarget data) =? CurrentEpoch st
                          then CurrentJustifiedCheckpoint st else PreviousJustifiedCheckpoint st in
  m <-? MatchingStatus st data justifiedCheckpt;;
  let '(matchedSrc, matchedTgt, matchedHead) := m in
  if negb matchedSrc then Err "source epoch does not match"
  else
    let flags : Flags := ∅ in
    let flags := if matchedSrc && (delay <=? SqrRootSlotsPerEpoch) then <[TimelySourceFlagIndex := true]> flags else flags in
    let matchedSrcTgt := matchedSrc && matchedTgt in
    let flags := if matchedSrcTgt then <[TimelyTargetFlagIndex := true]> flags else flags in
    let matchedSrcTgtHead := matchedHead && matchedSrcTgt in
    Ret (if matchedSrcTgtHead && (delay =? MinAttestationInclusionDelay) then <[TimelyHeadFlagIndex := true]> flags else flags).
End matching.

(** ** Entering the flags *)

(** One flag of one validator: its participation byte and the reward numerator. *)
Definition enterFlag (flags : Flags) (br flagIndex weight : Z) (acc : Z * Z) : outcome (Z * Z) :=
  has <-? HasValidatorFlag acc.1 flagIndex;;
  if participated flags flagIndex && negb has then
    b <-? AddValidatorFlag acc.1 flagIndex;; Ret (b, acc.2 +w (br *w weight))
  else Ret acc.

Fixpoint EpochParticipationLoop (s : Ledger) (indices : list Z) (epochParticipation : list Z) (flags : Flags) (totalBalance : Z)
    (proposerRewardNumerator : Z) : outcome (Z * list Z) :=
  match indices with
  | [] => Ret (proposerRewardNumerator, epochParticipation)
  | index :: indices =>
      match epochParticipation !! Z.to_nat index with
      | None => Err "index exceeds participation length"
      | Some b =>
          br <-? BaseRewardWithTotalBalance s index totalBalance;;
          acc <-? enterFlag flags br TimelySourceFlagIndex TimelySourceWeight (b, proposerRewardNumerator);;
          acc <-? enterFlag flags br TimelyTargetFlagIndex TimelyTargetWeight acc;;
          acc <-? enterFlag flags br TimelyHeadFlagIndex TimelyHeadWeight acc;;
          EpochParticipationLoop s indices (<[Z.to_nat index := acc.1]> epochParticipation) flags totalBalance acc.2
      end
  end.
Definition EpochParticipation (s : Ledger) (indices epochParticipation : list Z) (flags : Flags) (totalBalance : Z) : outcome (Z * list Z) :=
  EpochParticipationLoop s indices epochParticipation flags totalBalance 0.

(** [proposer] is [helpers.BeaconProposerIndex]. *)
Definition RewardProposer (proposer : Ledger → outcome Z) (s : Ledger) (proposerRewardNumerator : Z) : outcome Ledger :=
  let d := (WeightDenominator -w ProposerWeight) *w WeightDenominator / ProposerWeight in
  proposerReward <-? goDiv proposerRewardNumerator d;;
  i <-? proposer s;;
  IncreaseBalance s i proposerReward.

Definition SetParticipationAndRewardProposer (proposer : Ledger → outcome Z) (s : Ledger) (targetEpoch : Z) (indices : list Z) (flags : Flags)
    (totalBalance : Z) : outcome Ledger :=
  if isPhase0 s then Err (errNotSupported "ModifyParticipationBits")
  else if targetEpoch =? LedgerEpoch s then
    res <-? EpochParticipation s indices (CurrentEpochParticipation s) flags totalBalance;;
    RewardProposer proposer (setCurrentParticipation res.2 s) res.1
  else
    res <-? EpochParticipation s indices (PreviousEpochParticipation s) flags totalBalance;;
    RewardProposer proposer (setPreviousParticipation res.2 s) res.1.

(** [st] is the finality part of the state; [verified] is the result of
    [VerifyAttestationNoVerifySignature] and [indices] of [AttestingIndices]. *)
Definition ProcessAttestationNoVerifySignature {BV} `{Bitvector4 BV} (proposer : Ledger → outcome Z) (verified : outcome unit)
    (indices : outcome (list Z)) (st : BeaconState BV) (s : Ledger) (data : AttestationData) (totalBalance : Z) : outcome Ledger :=
  _ <-? verified;;
  match Slot_SafeSubSlot (LedgerSlot s) (AttSlot data) with
  | Ret delay =>
      flags <-? AttestationParticipationFlagIndices st data delay;;
      indices <-? indices;;
      SetParticipationAndRewardProposer proposer s (CheckpointEpoch (AttTarget data)) indices flags totalBalance
  | _ => Err "att slot can't be greater than state slot"
  end.
End participation.
