(* ===== verification/Rewards.v ===== *)
(** * Rewards and penalties of an epoch

    Models [beacon-chain/core/altair/epoch_precompute.go], the balances of
    [beacon-chain/core/epoch/precompute/attestation.go] and the precomputed data of
    [precompute/type.go].  The records of the validators are shared pointers that the
    stages change in place; each stage returns the changed list. *)

From S2P Require Import Prelude MathHelper Primitives SlotTime Shuffle Committee Justification ExitQueue Ledger Participation.

(** [precompute.Validator], less the fields that only phase 0 fills. *)
Record PreValidator := mkPreValidator {
  IsSlashed : bool;
  IsWithdrawableCurrentEpoch : bool;
  IsActiveCurrentEpoch : bool;
  IsActivePrevEpoch : bool;
  IsCurrentEpochAttester : bool;
  IsCurrentEpochTargetAttester : bool;
  IsPrevEpochAttester : bool;
  IsPrevEpochSourceAttester : bool;
  IsPrevEpochTargetAttester : bool;
  IsPrevEpochHeadAttester : bool;
  CurrentEpochEffectiveBalance : Z;
  BeforeEpochTransitionBalance : Z;
  AfterEpochTransitionBalance : Z;
  InactivityScore : Z
}.

(** [precompute.Balance] *)
Record EpochBalance := mkEpochBalance {
  ActiveCurrent : Z;
  ActivePrev : Z;
  CurrentAttested : Z;
  CurrentTargetAttested : Z;
  PrevAttested : Z;
  PrevTargetAttested : Z;
  PrevHeadAttested : Z
}.

(** The fields that justification reads. *)
Definition finalityBalance (b : EpochBalance) : Balance := mkBalance (ActiveCurrent b) (PrevTargetAttested b) (CurrentTargetAttested b).

Record AttDelta := mkAttDelta {
  HeadReward : Z;
  SourceReward : Z;
  SourcePenalty : Z;
  TargetReward : Z;
  TargetPenalty : Z;
  InactivityPenalty : Z
}.

Definition withScore (score : Z) (v : PreValidator) : PreValidator :=
  mkPreValidator (IsSlashed v) (IsWithdrawableCurrentEpoch v) (IsActiveCurrentEpoch v) (IsActivePrevEpoch v) (IsCurrentEpochAttester v)
    (IsCurrentEpochTargetAttester v) (IsPrevEpochAttester v) (IsPrevEpochSourceAttester v) (IsPrevEpochTargetAttester v)
    (IsPrevEpochHeadAttester v) (CurrentEpochEffectiveBalance v) (BeforeEpochTransitionBalance v) (AfterEpochTransitionBalance v) score.
Definition withTransition (before after : Z) (v : PreValidator) : PreValidator :=
  mkPreValidator (IsSlashed v) (IsWithdrawableCurrentEpoch v) (IsActiveCurrentEpoch v) (IsActivePrevEpoch v) (IsCurrentEpochAttester v)
    (IsCurrentEpochTargetAttester v) (IsPrevEpochAttester v) (IsPrevEpochSourceAttester v) (IsPrevEpochTargetAttester v)
    (IsPrevEpochHeadAttester v) (CurrentEpochEffectiveBalance v) before after (InactivityScore v).

Section rewards.
Context `{LedgerConfig} `{!SquareRoot}.

(** ** Initialisation *)

Fixpoint initializeLoop (vs : list Validator) (scores : list Z) (currentEpoch prevEpoch activeCurrent activePrev : Z)
    : outcome (list PreValidator * Z * Z) :=
  match vs, scores with
  | val :: vs, score :: scores =>
      let isActiveCurrent := IsActiveValidator val currentEpoch in
      activeCurrent <-? (if isActiveCurrent then Add64 activeCurrent (EffectiveBalance val) else Ret activeCurrent);;
      let isActivePrev := IsActiveValidator val prevEpoch in
      activePrev <-? (if isActivePrev then Add64 activePrev (EffectiveBalance val) else Ret activePrev);;
      let v := mkPreValidator (Slashed val) (WithdrawableEpoch val <=? currentEpoch) isActiveCurrent isActivePrev
                 false false false false false false (EffectiveBalance val) 0 0 score in
      rest <-? initializeLoop vs scores currentEpoch prevEpoch activeCurrent activePrev;;
      let '(pvs, ac, ap) := rest in Ret (v :: pvs, ac, ap)
  | _, _ => Ret ([], activeCurrent, activePrev)
  end.

Definition InitializePrecomputeValidators (s : Ledger) : outcome (list PreValidator * EpochBalance) :=
  if isPhase0 s then Err (errNotSupported "InactivityScores")
  else if negb (length (Validators s) =? length (InactivityScores s))%nat
  then Err "num of validators is different than num of inactivity scores"
  else
    res <-? omap_err (λ e, wrapErr e "could not read every validator")
              (initializeLoop (Validators s) (InactivityScores s) (LedgerEpoch s) (LedgerPrevEpoch s) 0 0);;
    let '(vals, activeCurrent, activePrev) := res in
    Ret (vals, mkEpochBalance activeCurrent activePrev 0 0 0 0 0).

(** ** Participation *)

Definition markCurrent (b : Z) (v : PreValidator) : outcome PreValidator :=
  source <-? HasValidatorFlag b TimelySourceFlagIndex;;
  target <-? HasValidatorFlag b TimelyTargetFlagIndex;;
  let source := source && IsActiveCurrentEpoch v in
  let target := target && IsActiveCurrentEpoch v in
  Ret (mkPreValidator (IsSlashed v) (IsWithdrawableCurrentEpoch v) (IsActiveCurrentEpoch v) (IsActivePrevEpoch v)
    (IsCurrentEpochAttester v || source || target) (IsCurrentEpochTargetAttester v || target)
    (IsPrevEpochAttester v) (IsPrevEpochSourceAttester v) (IsPrevEpochTargetAttester v) (IsPrevEpochHeadAttester v)
    (CurrentEpochEffectiveBalance v) (BeforeEpochTransitionBalance v) (AfterEpochTransitionBalance v) (InactivityScore v)).

Definition markPrevious (b : Z) (v : PreValidator) : outcome PreValidator :=
  source <-? HasValidatorFlag b TimelySourceFlagIndex;;
  target <-? HasValidatorFlag b TimelyTargetFlagIndex;;
  head <-? HasValidatorFlag b TimelyHeadFlagIndex;;
  let source := source && IsActivePrevEpoch v in
  let target := target && IsActivePrevEpoch v in
  let head := head && IsActivePrevEpoch v in
  Ret (mkPreValidator (IsSlashed v) (IsWithdrawableCurrentEpoch v) (IsActiveCurrentEpoch v) (IsActivePrevEpoch v)
    (IsCurrentEpochAttester v) (IsCurrentEpochTargetAttester v)
    (IsPrevEpochAttester v || source || target) (IsPrevEpochSourceAttester v || source) (IsPrevEpochTargetAttester v || target)
    (IsPrevEpochHeadAttester v || head)
    (CurrentEpochEffectiveBalance v) (BeforeEpochTransitionBalance v) (AfterEpochTransitionBalance v) (InactivityScore v)).

(** A byte beyond the end of [vals]: [vals[i]] panics, but is reached only when a flag is
    set. *)
Fixpoint markMissing (flags : list Z) (b : Z) : outcome unit :=
  match flags with
  | [] => Ret tt
  | flag :: flags =>
      has <-? HasValidatorFlag b flag;;
      if has then Panic "index out of range" else markMissing flags b
  end.

(** [for i, b := range participation], with the flags that the loop tests. *)
Fixpoint markLoop (mark : Z → PreValidator → outcome PreValidator) (flags participation : list Z) (vals : list PreValidator)
    : outcome (list PreValidator) :=
  match participation, vals with
  | [], vals => Ret vals
  | b :: bs, v :: vals => v <-? mark b v;; rest <-? markLoop mark flags bs vals;; Ret (v :: rest)
  | b :: bs, [] => _ <-? markMissing flags b;; markLoop mark flags bs []
  end.

Definition currentFlags : list Z := [TimelySourceFlagIndex; TimelyTargetFlagIndex].
Definition previousFlags : list Z := [TimelySourceFlagIndex; TimelyTargetFlagIndex; TimelyHeadFlagIndex].

Definition EnsureBalancesLowerBound (b : EpochBalance) : EpochBalance :=
  let ebi := EffectiveBalanceIncrement in
  let atLeast x := if x <? ebi then ebi else x in
  mkEpochBalance (atLeast (ActiveCurrent b)) (atLeast (ActivePrev b)) (atLeast (CurrentAttested b)) (atLeast (CurrentTargetAttested b))
    (atLeast (PrevAttested b)) (atLeast (PrevTargetAttested b)) (atLeast (PrevHeadAttested b)).

Definition addBalance (v : PreValidator) (version : ForkVersion) (b : EpochBalance) : EpochBalance :=
  if IsSlashed v then b
  else
    let e := CurrentEpochEffectiveBalance v in
    let add (c : bool) x := if c then x +w e else x in
    let prevAttested := add ((versionNumber version =? versionNumber Phase0) && IsPrevEpochAttester v) (PrevAttested b) in
    mkEpochBalance (ActiveCurrent b) (ActivePrev b) (add (IsCurrentEpochAttester v) (CurrentAttested b))
      (add (IsCurrentEpochTargetAttester v) (CurrentTargetAttested b))
      (add ((versionNumber Altair <=? versionNumber version) && IsPrevEpochSourceAttester v) prevAttested)
      (add (IsPrevEpochTargetAttester v) (PrevTargetAttested b)) (add (IsPrevEpochHeadAttester v) (PrevHeadAttested b)).
Definition UpdateBalance (vp : list PreValidator) (b : EpochBalance) (version : ForkVersion) : EpochBalance :=
  EnsureBalancesLowerBound (foldl (λ b v, addBalance v version b) b vp).

Definition ProcessEpochParticipation (s : Ledger) (bal : EpochBalance) (vals : list PreValidator) : outcome (list PreValidator * EpochBalance) :=
  if isPhase0 s then Err (errNotSupported "CurrentEpochParticipation")
  else
    vals <-? markLoop markCurrent currentFlags (CurrentEpochParticipation s) vals;;
    vals <-? markLoop markPrevious previousFlags (PreviousEpochParticipation s) vals;;
    Ret (vals, UpdateBalance vals bal (Version s)).

(** ** Inactivity scores *)

Definition EligibleForRewards (v : PreValidator) : bool :=
  IsActivePrevEpoch v || (IsSlashed v && negb (IsWithdrawableCurrentEpoch v)).

Definition nextScore (leak : bool) (v : PreValidator) : outcome Z :=
  score <-? (if IsPrevEpochTargetAttester v && negb (IsSlashed v)
             then Ret (if 0 <? InactivityScore v then InactivityScore v -w 1 else InactivityScore v)
             else Add64 (InactivityScore v) InactivityScoreBias);;
  if negb leak then
    let recovered := if score <? InactivityScoreRecoveryRate then score else InactivityScoreRecoveryRate in
    Ret (score -w recovered)
  else Ret score.

(** The scores of the state and of the records move together. *)
Fixpoint inactivityLoop (leak : bool) (vals : list PreValidator) (scores : list Z) : outcome (list PreValidator * list Z) :=
  match vals, scores with
  | [], scores => Ret ([], scores)
  | v :: vals, score :: scores =>
      new <-? (if EligibleForRewards v then n <-? nextScore leak v;; Ret (withScore n v, n) else Ret (v, score));;
      rest <-? inactivityLoop leak vals scores;;
      Ret (new.1 :: rest.1, new.2 :: rest.2)
  | v :: vals, [] =>
      if EligibleForRewards v then _ <-? nextScore leak v;; Panic "index out of range"
      else rest <-? inactivityLoop leak vals [];; Ret (v :: rest.1, rest.2)
  end.

(** [finalizedEpoch] is read after justification has been processed. *)
Definition ProcessInactivityScores (s : Ledger) (vals : list PreValidator) : outcome (Ledger * list PreValidator) :=
  if LedgerEpoch s =? GenesisEpoch then Ret (s, vals)
  else if isPhase0 s then Err (errNotSupported "InactivityScores")
  else
    res <-? inactivityLoop (IsInInactivityLeak (LedgerPrevEpoch s) (FinalizedEpoch s)) vals (InactivityScores s);;
    Ret (setInactivityScores res.2 s, res.1).

(** ** Deltas *)

Definition attestationDelta (bal : EpochBalance) (val : PreValidator) (baseRewardMultiplier inactivityDenominator : Z) (inactivityLeak : bool)
    : outcome AttDelta :=
  let eligible := IsActivePrevEpoch val || (IsSlashed val && negb (IsWithdrawableCurrentEpoch val)) in
  if negb eligible || (ActiveCurrent bal =? 0) then Ret (mkAttDelta 0 0 0 0 0 0)
  else
    let increment := EffectiveBalanceIncrement in
    let effectiveBalance := CurrentEpochEffectiveBalance val in
    let baseReward := (effectiveBalance / increment) *w baseRewardMultiplier in
    let activeIncrement := ActiveCurrent bal / increment in
    let reward weight attested := goDiv (baseReward *w weight *w (attested / increment)) (activeIncrement *w WeightDenominator) in
    let penalty weight := baseReward *w weight / WeightDenominator in
    source <-? (if IsPrevEpochSourceAttester val && negb (IsSlashed val)
                then r <-? (if negb inactivityLeak then reward TimelySourceWeight (PrevAttested bal) else Ret 0);; Ret (r, 0)
                else Ret (0, penalty TimelySourceWeight));;
    target <-? (if IsPrevEpochTargetAttester val && negb (IsSlashed val)
                then r <-? (if negb inactivityLeak then reward TimelyTargetWeight (PrevTargetAttested bal) else Ret 0);; Ret (r, 0)
                else Ret (0, penalty TimelyTargetWeight));;
    headReward <-? (if IsPrevEpochHeadAttester val && negb (IsSlashed val) && negb inactivityLeak
                    then reward TimelyHeadWeight (PrevHeadAttested bal) else Ret 0);;
    inactivity <-? (if negb (IsPrevEpochTargetAttester val) || IsSlashed val
                    then n <-? Mul64 effectiveBalance (InactivityScore val);; goDiv n inactivityDenominator else Ret 0);;
    Ret (mkAttDelta headReward source.1 source.2 target.1 target.2 inactivity).

Fixpoint deltaLoop (bal : EpochBalance) (vals : list PreValidator) (baseRewardMultiplier inactivityDenominator : Z) (leak : bool)
    : outcome (list AttDelta) :=
  match vals with
  | [] => Ret []
  | v :: vals =>
      d <-? attestationDelta bal v baseRewardMultiplier inactivityDenominator leak;;
      ds <-? deltaLoop bal vals baseRewardMultiplier inactivityDenominator leak;;
      Ret (d :: ds)
  end.

Definition AttestationsDelta (s : Ledger) (bal : EpochBalance) (vals : list PreValidator) : outcome (list AttDelta) :=
  root <-? CachedRoot (ActiveCurrent bal);;
  baseRewardMultiplier <-? goDiv (EffectiveBalanceIncrement *w BaseRewardFactor) root;;
  let leak := IsInInactivityLeak (LedgerPrevEpoch s) (FinalizedEpoch s) in
  inactivityPenaltyQuotient <-? InactivityPenaltyQuotient s;;
  let inactivityDenominator := InactivityScoreBias *w inactivityPenaltyQuotient in
  deltaLoop bal vals baseRewardMultiplier inactivityDenominator leak.

Definition applyDelta (balance : Z) (delta : AttDelta) : outcome Z :=
  balance <-? IncreaseBalanceWithVal balance (HeadReward delta +w SourceReward delta +w TargetReward delta);;
  Ret (DecreaseBalanceWithVal balance (SourcePenalty delta +w TargetPenalty delta +w InactivityPenalty delta)).

Fixpoint applyDeltas (balances : list Z) (deltas : list AttDelta) (vals : list PreValidator) : outcome (list Z * list PreValidator) :=
  match balances, deltas, vals with
  | b :: bs, d :: ds, v :: vs =>
      b' <-? applyDelta b d;;
      rest <-? applyDeltas bs ds vs;;
      Ret (b' :: rest.1, withTransition b b' v :: rest.2)
  | _, _, _ => Ret ([], [])
  end.

Definition ProcessRewardsAndPenaltiesPrecompute (s : Ledger) (bal : EpochBalance) (vals : list PreValidator) : outcome (Ledger * list PreValidator) :=
  if LedgerEpoch s =? GenesisEpoch then Ret (s, vals)
  else if negb (length vals =? length (Validators s))%nat || negb (length vals =? length (Balances s))%nat
  then Err "validator registries not the same length as state's validator registries"
  else
    attDeltas <-? omap_err (λ e, wrapErr e "could not get attestation delta") (AttestationsDelta s bal vals);;
    res <-? applyDeltas (Balances s) attDeltas vals;;
    Ret (setBalances res.1 s, res.2).
End rewards.
