(* ===== verification/RewardsCorrect.v ===== *)
(** * The specification of rewards and penalties

    The consensus specification computes the rewards of an epoch from sets of indices.
    Here it is stated validator by validator, on rows that hold the entries of the state's
    parallel lists at one index, with unbounded integers.  [RewardsCorrect.v] shows that
    the precomputing pipeline computes it. *)

From S2P Require Import Prelude MathHelper Primitives SlotTime Shuffle Committee Justification ExitQueue Ledger Participation Rewards.

Record Row := mkRow {
  rowValidator : Validator;
  rowScore : Z;
  rowPrevious : Z;
  rowCurrent : Z;
  rowBalance : Z
}.

(** The lists of the state, as rows. *)
Record laid (s : Ledger) (rs : list Row) : Prop := {
  la_validators : Validators s = map rowValidator rs;
  la_scores : InactivityScores s = map rowScore rs;
  la_previous : PreviousEpochParticipation s = map rowPrevious rs;
  la_current : CurrentEpochParticipation s = map rowCurrent rs;
  la_balances : Balances s = map rowBalance rs
}.

Section spec.
Context `{LedgerConfig}.

Definition effective (r : Row) : Z := EffectiveBalance (rowValidator r).
Definition sumOver (p : Row → bool) (rs : list Row) : Z := Zsum (map (λ r, if p r then effective r else 0) rs).
Definition atLeastIncrement (x : Z) : Z := Z.max EffectiveBalanceIncrement x.

(** [get_total_active_balance] *)
Definition totalActive (epoch : Z) (rs : list Row) : Z := atLeastIncrement (sumOver (λ r, IsActiveValidator (rowValidator r) epoch) rs).

(** [get_unslashed_participating_indices] of the previous epoch. *)
Definition participates (prev flag : Z) (r : Row) : bool :=
  IsActiveValidator (rowValidator r) prev && Z.testbit (rowPrevious r) flag && negb (Slashed (rowValidator r)).
Definition participating (prev flag : Z) (rs : list Row) : Z := atLeastIncrement (sumOver (participates prev flag) rs).

(** [get_eligible_validator_indices] *)
Definition eligibleRow (prev : Z) (r : Row) : bool :=
  IsActiveValidator (rowValidator r) prev || (Slashed (rowValidator r) && (prev + 1 <? WithdrawableEpoch (rowValidator r))).

(** [process_inactivity_updates] *)
Definition specScore (prev : Z) (leak : bool) (r : Row) : Z :=
  if eligibleRow prev r then
    let score := if participates prev TimelyTargetFlagIndex r then rowScore r - Z.min 1 (rowScore r) else rowScore r + InactivityScoreBias in
    if leak then score else score - Z.min InactivityScoreRecoveryRate score
  else rowScore r.

(** [get_base_reward] *)
Definition rewardPerIncrement (total : Z) : Z := EffectiveBalanceIncrement * BaseRewardFactor / Z.sqrt total.
Definition baseRewardOf (total : Z) (r : Row) : Z := effective r / EffectiveBalanceIncrement * rewardPerIncrement total.

(** The reward and the penalty of one flag, [get_flag_index_deltas]; the head flag has no
    penalty. *)
Definition flagReward (prev total : Z) (rs : list Row) (leak : bool) (flag weight : Z) (r : Row) : Z :=
  if eligibleRow prev r && participates prev flag r && negb leak
  then baseRewardOf total r * weight * (participating prev flag rs / EffectiveBalanceIncrement) /
       (total / EffectiveBalanceIncrement * WeightDenominator)
  else 0.
Definition flagPenalty (prev total : Z) (flag weight : Z) (r : Row) : Z :=
  if eligibleRow prev r && negb (participates prev flag r) then baseRewardOf total r * weight / WeightDenominator else 0.

(** [get_inactivity_penalty_deltas], with the updated score. *)
Definition inactivityPenaltyOf (prev score quotient : Z) (r : Row) : Z :=
  if eligibleRow prev r && negb (participates prev TimelyTargetFlagIndex r)
  then effective r * score / (InactivityScoreBias * quotient) else 0.

Definition specRewards (prev total : Z) (rs : list Row) (leak : bool) (r : Row) : Z :=
  flagReward prev total rs leak TimelySourceFlagIndex TimelySourceWeight r +
  flagReward prev total rs leak TimelyTargetFlagIndex TimelyTargetWeight r +
  flagReward prev total rs leak TimelyHeadFlagIndex TimelyHeadWeight r.
Definition specPenalties (prev total quotient : Z) (leak : bool) (r : Row) : Z :=
  flagPenalty prev total TimelySourceFlagIndex TimelySourceWeight r +
  flagPenalty prev total TimelyTargetFlagIndex TimelyTargetWeight r +
  inactivityPenaltyOf prev (specScore prev leak r) quotient r.

(** The row after the epoch. *)
Definition specRow (prev total quotient : Z) (leak : bool) (rs : list Row) (r : Row) : Row :=
  mkRow (rowValidator r) (specScore prev leak r) (rowPrevious r) (rowCurrent r)
    (Z.max 0 (rowBalance r + specRewards prev total rs leak r - specPenalties prev total quotient leak r)).

(** [increase_balance] and [decrease_balance] with the deltas of one flag after the other,
    the order of the specification. *)
Definition applyInTurn (balance : Z) (deltas : list (Z * Z)) : Z :=
  foldl (λ b d, Z.max 0 (b + d.1 - d.2)) balance deltas.
Definition specDeltas (prev total quotient : Z) (leak : bool) (rs : list Row) (r : Row) : list (Z * Z) :=
  [(flagReward prev total rs leak TimelySourceFlagIndex TimelySourceWeight r, flagPenalty prev total TimelySourceFlagIndex TimelySourceWeight r);
   (flagReward prev total rs leak TimelyTargetFlagIndex TimelyTargetWeight r, flagPenalty prev total TimelyTargetFlagIndex TimelyTargetWeight r);
   (flagReward prev total rs leak TimelyHeadFlagIndex TimelyHeadWeight r, 0);
   (0, inactivityPenaltyOf prev (specScore prev leak r) quotient r)].

(** ** The pipeline *)

Section pipeline.
Context `{!SquareRoot}.

(** The stages of [ProcessEpoch] from the precomputed validators to the new balances. *)
Definition epochRewards (s : Ledger) : outcome Ledger :=
  p <-? InitializePrecomputeValidators s;;
  p <-? ProcessEpochParticipation s p.2 p.1;;
  let '(vals, bal) := p in
  q <-? ProcessInactivityScores s vals;;
  let '(s, vals) := q in
  res <-? ProcessRewardsAndPenaltiesPrecompute s bal vals;;
  Ret res.1.
End pipeline.

(** The parameters of the epoch. *)
Definition quotientOf (s : Ledger) : Z :=
  if versionAtLeast Bellatrix s then InactivityPenaltyQuotientBellatrix
  else if versionAtLeast Altair s then InactivityPenaltyQuotientAltair else InactivityPenaltyQuotient0.
Definition leakOf (s : Ledger) : bool := MinEpochsToInactivityPenalty <? LedgerPrevEpoch s - FinalizedEpoch s.
Definition specOf (s : Ledger) (rs : list Row) : Row → Row :=
  specRow (LedgerPrevEpoch s) (totalActive (LedgerEpoch s) rs) (quotientOf s) (leakOf s) rs.
Definition deltasOf (s : Ledger) (rs : list Row) : Row → list (Z * Z) :=
  specDeltas (LedgerPrevEpoch s) (totalActive (LedgerEpoch s) rs) (quotientOf s) (leakOf s) rs.
Definition penaltiesOf (s : Ledger) (rs : list Row) : Row → Z :=
  specPenalties (LedgerPrevEpoch s) (totalActive (LedgerEpoch s) rs) (quotientOf s) (leakOf s).

(** Ranges of the entries; the active balance does not halve within an epoch. *)
Record row_ok (r : Row) : Prop := {
  ro_effective : 0 ≤ effective r ≤ MaxEffectiveBalanceElectra;
  ro_score : 0 ≤ rowScore r < 131072;
  ro_balance : 0 ≤ rowBalance r < two63
}.

Record rewards_ready (s : Ledger) (rs : list Row) : Prop := {
  rr_laid : laid s rs;
  rr_rows : Forall row_ok rs;
  rr_total : sumOver (λ _, true) rs < maxUint64;
  rr_stable : sumOver (λ r, IsActiveValidator (rowValidator r) (LedgerPrevEpoch s)) rs ≤ 2 * totalActive (LedgerEpoch s) rs;
  rr_epoch : 0 < LedgerEpoch s < two64 ∧ LedgerEpoch s ≠ GenesisEpoch;
  rr_fork : isPhase0 s = false;
  rr_finalized : 0 ≤ FinalizedEpoch s ≤ LedgerPrevEpoch s
}.
End spec.

(** * Correctness of rewards and penalties

    The pipeline of [core/altair/epoch_precompute.go] computes the specification of
    [RewardsCorrect.v] for every validator, without overflow. *)

Section stages.
Context `{LedgerConfig} `{!SquareRoot}.

(** ** Sums *)

Lemma sumOver_cons p r rs : sumOver p (r :: rs) = (if p r then effective r else 0) + sumOver p rs.
Proof. done. Qed.

Lemma sumOver_le p q rs : Forall row_ok rs → (∀ r, p r = true → q r = true) → 0 ≤ sumOver p rs ≤ sumOver q rs.
Proof.
  intros Hrs Hpq. induction Hrs as [|r rs [[? _] _ _] _ IH]; [unfold sumOver; cbn; lia|]. rewrite !sumOver_cons. specialize (Hpq r) as Hpr.
  destruct (p r); [rewrite Hpr by done; lia|destruct (q r); lia].
Qed.

Lemma sumOver_all p rs : Forall row_ok rs → 0 ≤ sumOver p rs ≤ sumOver (λ _, true) rs.
Proof. intros Hrs. by apply sumOver_le. Qed.

(** ** Initialisation *)

Definition pre0 (cur prev : Z) (r : Row) : PreValidator :=
  mkPreValidator (Slashed (rowValidator r)) (WithdrawableEpoch (rowValidator r) <=? cur) (IsActiveValidator (rowValidator r) cur)
    (IsActiveValidator (rowValidator r) prev) false false false false false false (effective r) 0 0 (rowScore r).

Lemma addActive (b : bool) x e t : 0 ≤ x → 0 ≤ e → x + e < t → t ≤ two64 → (if b then Add64 x e else Ret x) = Ret (x + if b then e else 0).
Proof.
  intros Hx He Ht Htt. destruct b; [|f_equal; lia]. rewrite Add64_spec by (unfold is_u64; lia). by rewrite (proj2 (Z.ltb_lt _ _)) by lia.
Qed.

Lemma initializeLoop_run cur prev rs : ∀ ac ap,
  Forall row_ok rs → 0 ≤ ac → 0 ≤ ap → ac + sumOver (λ _, true) rs < two64 → ap + sumOver (λ _, true) rs < two64 →
  initializeLoop (map rowValidator rs) (map rowScore rs) cur prev ac ap =
    Ret (map (pre0 cur prev) rs, ac + sumOver (λ r, IsActiveValidator (rowValidator r) cur) rs,
         ap + sumOver (λ r, IsActiveValidator (rowValidator r) prev) rs).
Proof.
  induction rs as [|r rs IH]; intros ac ap Hrs Hac Hap Hs1 Hs2.
  { cbn. by rewrite !Z.add_0_r. }
  pose proof (sumOver_all (λ _, true) rs) as Hnn. apply Forall_cons in Hrs as [Hr Hrs]. specialize (Hnn Hrs). rewrite !sumOver_cons in *.
  pose proof (ro_effective _ Hr) as [He _]. cbn [map initializeLoop]. fold (effective r).
  rewrite !(addActive _ _ _ two64) by lia. cbn [obind].
  rewrite IH; [|done|destruct (IsActiveValidator _ _); lia..]. cbn [obind]. by rewrite !Z.add_assoc.
Qed.

(** ** Participation *)

Lemma HasFlag_run b f : 0 ≤ f ≤ 7 → HasValidatorFlag b f = Ret (Z.testbit b f).
Proof.
  intros Hf. unfold HasValidatorFlag. rewrite (proj2 (Z.ltb_ge _ _)) by lia. f_equal.
  change 1 with (Z.ones 1) at 1. rewrite Z.land_ones by lia. rewrite Z.shiftr_div_pow2, Z.testbit_odd, Z.shiftr_div_pow2 by lia.
  change (2 ^ 1) with 2. rewrite Zmod_odd. by destruct (Z.odd _).
Qed.

Lemma markLoop_map mark flags (f : Row → Z) (g h : Row → PreValidator) rs :
  (∀ r, mark (f r) (g r) = Ret (h r)) → markLoop mark flags (map f rs) (map g rs) = Ret (map h rs).
Proof. intros Hm. induction rs as [|r rs IH]; [done|]. cbn. by rewrite Hm, IH. Qed.

Definition pre2 (cur prev : Z) (r : Row) : PreValidator :=
  let actC := IsActiveValidator (rowValidator r) cur in
  let actP := IsActiveValidator (rowValidator r) prev in
  let c f := Z.testbit (rowCurrent r) f && actC in
  let p f := Z.testbit (rowPrevious r) f && actP in
  mkPreValidator (Slashed (rowValidator r)) (WithdrawableEpoch (rowValidator r) <=? cur) actC actP
    (c TimelySourceFlagIndex || c TimelyTargetFlagIndex) (c TimelyTargetFlagIndex)
    (p TimelySourceFlagIndex || p TimelyTargetFlagIndex) (p TimelySourceFlagIndex) (p TimelyTargetFlagIndex) (p TimelyHeadFlagIndex)
    (effective r) 0 0 (rowScore r).

Lemma mark_run cur prev rs :
  (vals <-? markLoop markCurrent currentFlags (map rowCurrent rs) (map (pre0 cur prev) rs);; markLoop markPrevious previousFlags (map rowPrevious rs) vals) =
  Ret (map (pre2 cur prev) rs).
Proof.
  pose proof flags_range as (Hf1 & Hf2 & Hf3).
  rewrite (markLoop_map markCurrent currentFlags rowCurrent (pre0 cur prev) (λ r, mkPreValidator (Slashed (rowValidator r)) (WithdrawableEpoch (rowValidator r) <=? cur)
    (IsActiveValidator (rowValidator r) cur) (IsActiveValidator (rowValidator r) prev)
    (Z.testbit (rowCurrent r) TimelySourceFlagIndex && IsActiveValidator (rowValidator r) cur || Z.testbit (rowCurrent r) TimelyTargetFlagIndex && IsActiveValidator (rowValidator r) cur)
    (Z.testbit (rowCurrent r) TimelyTargetFlagIndex && IsActiveValidator (rowValidator r) cur) false false false false (effective r) 0 0 (rowScore r))).
  - cbn [obind]. apply markLoop_map. intros r. unfold markPrevious. rewrite !HasFlag_run by done. done.
  - intros r. unfold markCurrent. rewrite !HasFlag_run by done. done.
Qed.

(** ** Balances *)

Definition addIf (c : bool) (e x : Z) : Z := if c then wrap64 (x + e) else x.

(** The part of the balances that the deltas read. *)
Definition readBalances (b : EpochBalance) : Z * Z * Z * Z := (ActiveCurrent b, PrevAttested b, PrevTargetAttested b, PrevHeadAttested b).

Lemma addBalance_read cur prev v r b :
  (versionNumber v =? versionNumber Phase0) = false →
  readBalances (addBalance (pre2 cur prev r) v b) =
    (ActiveCurrent b, addIf (participates prev TimelySourceFlagIndex r) (effective r) (PrevAttested b),
     addIf (participates prev TimelyTargetFlagIndex r) (effective r) (PrevTargetAttested b),
     addIf (participates prev TimelyHeadFlagIndex r) (effective r) (PrevHeadAttested b)).
Proof.
  intros Hv.
  unfold addBalance, readBalances, participates, addIf. cbn [pre2 IsSlashed]. destruct (Slashed (rowValidator r)); [by rewrite !andb_false_r|].
  destruct v; [discriminate Hv|cbn; rewrite !andb_true_r; by rewrite !(andb_comm (IsActiveValidator _ _))..].
Qed.

Lemma addIf_run c e x t : 0 ≤ x → 0 ≤ e → x + e + t < two64 → 0 ≤ t → addIf c e x = x + if c then e else 0.
Proof. intros Hx He Ht Htn. unfold addIf. destruct c; [|lia]. apply wrap64_small. unfold is_u64. lia. Qed.

Lemma fold_read cur prev v rs : ∀ b ac pa pt ph,
  (versionNumber v =? versionNumber Phase0) = false → Forall row_ok rs → readBalances b = (ac, pa, pt, ph) → 0 ≤ pa → 0 ≤ pt → 0 ≤ ph →
  pa + sumOver (λ _, true) rs < two64 → pt + sumOver (λ _, true) rs < two64 → ph + sumOver (λ _, true) rs < two64 →
  readBalances (foldl (λ b x, addBalance x v b) b (map (pre2 cur prev) rs)) =
    (ac, pa + sumOver (participates prev TimelySourceFlagIndex) rs, pt + sumOver (participates prev TimelyTargetFlagIndex) rs,
     ph + sumOver (participates prev TimelyHeadFlagIndex) rs).
Proof.
  induction rs as [|r rs IH]; intros b ac pa pt ph Hv Hrs Hb Hpa Hpt Hph Hs1 Hs2 Hs3; cbn [map foldl].
  { rewrite Hb. cbn. by rewrite !Z.add_0_r. }
  apply Forall_cons in Hrs as [Hr Hrs]. pose proof (sumOver_all (λ _, true) rs Hrs) as [Hnn _]. rewrite !sumOver_cons in *. cbv beta iota in Hs1, Hs2, Hs3.
  pose proof (ro_effective _ Hr) as [He _]. pose proof (addBalance_read cur prev v r b Hv) as Hadd. injection Hb as E1 E2 E3 E4.
  rewrite E1, E2, E3, E4 in Hadd. rewrite !(addIf_run _ _ _ (sumOver (λ _, true) rs)) in Hadd by lia.
  rewrite (IH _ _ _ _ _ Hv Hrs Hadd); [by rewrite !Z.add_assoc|clear Hadd; destruct (participates _ _ _); lia..].
Qed.

(** ** Inactivity scores *)

Definition pre3 (cur prev : Z) (leak : bool) (r : Row) : PreValidator := withScore (specScore prev leak r) (pre2 cur prev r).

Lemma eligible_run prev r : EligibleForRewards (pre2 (prev + 1) prev r) = eligibleRow prev r.
Proof. unfold EligibleForRewards, eligibleRow. cbn. by rewrite Z.leb_antisym, negb_involutive. Qed.

Lemma target_participates cur prev r :
  IsPrevEpochTargetAttester (pre2 cur prev r) && negb (IsSlashed (pre2 cur prev r)) = participates prev TimelyTargetFlagIndex r.
Proof. cbn. unfold participates. by rewrite (andb_comm (IsActiveValidator _ _)). Qed.

Lemma specScore_range prev leak r : row_ok r → 0 ≤ specScore prev leak r < 262144.
Proof.
  intros [_ Hs _]. pose proof inactivity_range as (Hb & Hr & _). unfold specScore.
  destruct (eligibleRow prev r); [|lia]. destruct (participates _ _ _), leak; lia.
Qed.

Lemma nextScore_run cur prev leak r :
  row_ok r → eligibleRow prev r = true → nextScore leak (pre2 cur prev r) = Ret (specScore prev leak r).
Proof.
  intros Hok Hel. pose proof (ro_score _ Hok) as Hs. pose proof inactivity_range as (Hb & Hr & _). unfold nextScore, specScore. rewrite Hel, target_participates.
  cbn [pre2 InactivityScore].
  assert ((if participates prev TimelyTargetFlagIndex r then Ret (if 0 <? rowScore r then wrap64 (rowScore r - 1) else rowScore r)
           else Add64 (rowScore r) InactivityScoreBias) =
          Ret (if participates prev TimelyTargetFlagIndex r then rowScore r - Z.min 1 (rowScore r) else rowScore r + InactivityScoreBias)) as ->.
  { destruct (participates _ _ _).
    - f_equal. destruct (0 <? rowScore r) eqn:E; bprop; [|lia]. rewrite wrap64_small by (unfold is_u64, two64; lia). lia.
    - rewrite Add64_spec by (unfold is_u64, two64; lia). by rewrite (proj2 (Z.ltb_lt _ _)) by (unfold two64; lia). }
  cbn [obind]. set (x := if participates _ _ _ then _ else _). assert (0 ≤ x < two64) as Hx by (unfold x, two64; destruct (participates _ _ _); lia).
  destruct leak; [done|]. cbn [negb]. f_equal. destruct (x <? InactivityScoreRecoveryRate) eqn:E; bprop; rewrite wrap64_small by (unfold is_u64; lia); lia.
Qed.

Lemma inactivityLoop_run prev leak rs :
  Forall row_ok rs →
  inactivityLoop leak (map (pre2 (prev + 1) prev) rs) (map rowScore rs) =
    Ret (map (pre3 (prev + 1) prev leak) rs, map (specScore prev leak) rs).
Proof.
  induction 1 as [|r rs Hr _ IH]; [done|]. cbn [map inactivityLoop]. rewrite eligible_run.
  destruct (eligibleRow prev r) eqn:E.
  - rewrite nextScore_run by done. cbn [obind]. rewrite IH. done.
  - cbn [obind]. rewrite IH. cbn [obind fst snd]. assert (specScore prev leak r = rowScore r) as Hsc by (unfold specScore; by rewrite E).
    assert (pre3 (prev + 1) prev leak r = pre2 (prev + 1) prev r) as -> by (unfold pre3; by rewrite Hsc). by rewrite Hsc.
Qed.

(** ** Arithmetic of the deltas *)

Section bounds.
Context (total : Z) (Htotal : EffectiveBalanceIncrement ≤ total < two64).

Lemma sqrt_bounds : 1 ≤ Z.sqrt total < two32 ∧ total ≤ Z.sqrt total * (Z.sqrt total + 2).
Proof.
  pose proof EffectiveBalanceIncrement_range. destruct (Z.sqrt_spec total) as [Hlo Hhi]; [lia|]. pose proof (Z.sqrt_nonneg total).
  assert (0 < Z.sqrt total) by (apply Z.sqrt_pos; lia). unfold two32, two64 in *. split; [split; [lia|nia]|lia].
Qed.

Lemma perIncrement_range : 0 ≤ rewardPerIncrement total ≤ EffectiveBalanceIncrement * BaseRewardFactor ∧
  rewardPerIncrement total * Z.sqrt total ≤ EffectiveBalanceIncrement * BaseRewardFactor.
Proof.
  destruct sqrt_bounds as [Hs _]. pose proof EffectiveBalanceIncrement_range. pose proof BaseRewardFactor_range. unfold rewardPerIncrement.
  assert (0 ≤ EffectiveBalanceIncrement * BaseRewardFactor) as Hn by nia. split_and!.
  - apply Z.div_pos; lia.
  - apply Z.div_le_upper_bound; nia.
  - rewrite Z.mul_comm. apply Z.mul_div_le. lia.
Qed.

Lemma increments_range r : row_ok r → 0 ≤ effective r / EffectiveBalanceIncrement ≤ 4096.
Proof.
  intros [[He1 He2] _ _]. pose proof EffectiveBalanceIncrement_range. pose proof balances_range. split; [apply Z.div_pos; lia|].
  apply Z.div_le_upper_bound; lia.
Qed.

Lemma baseReward_range r : row_ok r → 0 ≤ baseRewardOf total r ≤ 18014398509481984.
Proof.
  intros Hr. pose proof (increments_range r Hr). destruct perIncrement_range as [Hp _]. pose proof BaseRewardFactor_range. pose proof hysteresis_range as (_ & _ & _ & Hi).
  unfold baseRewardOf, two32 in *. assert (EffectiveBalanceIncrement * BaseRewardFactor ≤ 4294967296 * 1024) by nia. nia.
Qed.

(** The numerator of a reward fits: the reward per increment falls with the root of the
    total, and the attesting increments grow with the total. *)
Lemma numerator_range r weight attested :
  row_ok r → 0 ≤ weight < 256 → 0 ≤ attested ≤ 2 * total →
  0 ≤ baseRewardOf total r * weight * (attested / EffectiveBalanceIncrement) < two64.
Proof.
  intros Hr Hw Ha. pose proof (increments_range r Hr). destruct perIncrement_range as [Hp Hps]. destruct sqrt_bounds as [Hs Ht].
  pose proof EffectiveBalanceIncrement_range as Hi. pose proof BaseRewardFactor_range as Hf.
  assert (0 ≤ attested / EffectiveBalanceIncrement) by (apply Z.div_pos; lia).
  pose proof (Z.mul_div_le attested EffectiveBalanceIncrement) as Hq.
  set (q := attested / EffectiveBalanceIncrement) in *. set (p := rewardPerIncrement total) in *. set (n := Z.sqrt total) in *.
  assert (p * q ≤ 2 * BaseRewardFactor * (n + 2)) as Hpq.
  { apply (Z.mul_le_mono_pos_l _ _ (n * EffectiveBalanceIncrement)); [nia|].
    transitivity ((p * n) * (EffectiveBalanceIncrement * q)); [lia|].
    transitivity ((EffectiveBalanceIncrement * BaseRewardFactor) * (2 * (n * (n + 2)))); [|lia]. apply Z.mul_le_mono_nonneg; [nia|lia|nia|lia]. }
  unfold baseRewardOf. fold p. set (e := effective r / EffectiveBalanceIncrement) in *.
  replace (e * p * weight * q) with (e * weight * (p * q)) by lia.
  assert (0 ≤ e * weight ≤ 4096 * 255) by nia. assert (0 ≤ p * q) by nia. unfold two32, two64 in *.
  assert (p * q ≤ 2 * 1024 * 4294967297) by nia. nia.
Qed.

(** A reward is at most three base rewards when the balances are stable. *)
Lemma reward_range r weight attested :
  row_ok r → 0 ≤ weight ≤ WeightDenominator → 0 ≤ attested ≤ 2 * total →
  0 ≤ baseRewardOf total r * weight * (attested / EffectiveBalanceIncrement) / (total / EffectiveBalanceIncrement * WeightDenominator)
    ≤ 3 * baseRewardOf total r.
Proof.
  intros Hr Hw Ha. pose proof (baseReward_range r Hr) as Hb. pose proof EffectiveBalanceIncrement_range as Hi. pose proof weights_range as Hwr.
  assert (1 ≤ total / EffectiveBalanceIncrement) as Ht1 by (apply Z.div_le_lower_bound; lia).
  assert (attested / EffectiveBalanceIncrement ≤ 3 * (total / EffectiveBalanceIncrement)) as Ha3.
  { apply Z.lt_succ_r. apply Z.div_lt_upper_bound; [lia|]. pose proof (Z.mul_succ_div_gt total EffectiveBalanceIncrement). nia. }
  assert (0 ≤ attested / EffectiveBalanceIncrement) by (apply Z.div_pos; lia).
  set (a := attested / _) in *. set (t := total / _) in *. set (b := baseRewardOf total r) in *. split; [apply Z.div_pos; nia|].
  apply Z.div_le_upper_bound; [nia|]. assert (weight * a ≤ WeightDenominator * (3 * t)) by (apply Z.mul_le_mono_nonneg; lia). nia.
Qed.
End bounds.

(** ** The deltas of one validator *)

Definition deltaOf (prev total quotient : Z) (leak : bool) (rs : list Row) (r : Row) : AttDelta :=
  mkAttDelta (flagReward prev total rs leak TimelyHeadFlagIndex TimelyHeadWeight r)
    (flagReward prev total rs leak TimelySourceFlagIndex TimelySourceWeight r) (flagPenalty prev total TimelySourceFlagIndex TimelySourceWeight r)
    (flagReward prev total rs leak TimelyTargetFlagIndex TimelyTargetWeight r) (flagPenalty prev total TimelyTargetFlagIndex TimelyTargetWeight r)
    (inactivityPenaltyOf prev (specScore prev leak r) quotient r).

Section delta.
Context (prev total quotient : Z) (leak : bool) (rs : list Row) (r : Row) (bal : EpochBalance).
Context (Htotal : EffectiveBalanceIncrement ≤ total < two64) (Hr : row_ok r).
Context (Hbal : readBalances bal = (total, participating prev TimelySourceFlagIndex rs, participating prev TimelyTargetFlagIndex rs,
                                    participating prev TimelyHeadFlagIndex rs)).
Context (Hstable : ∀ flag, 0 ≤ participating prev flag rs ≤ 2 * total).
Context (Hquotient : 0 < InactivityScoreBias * quotient).

Lemma denominator_run :
  total / EffectiveBalanceIncrement *w WeightDenominator = total / EffectiveBalanceIncrement * WeightDenominator ∧
  0 < total / EffectiveBalanceIncrement * WeightDenominator.
Proof.
  pose proof hysteresis_range as (_ & _ & _ & Hi). pose proof weights_range as Hw.
  assert (1 ≤ total / EffectiveBalanceIncrement) by (apply Z.div_le_lower_bound; lia). split; [|nia].
  assert (total / EffectiveBalanceIncrement ≤ total / 256) by (apply Z.div_le_compat_l; lia).
  assert (total / 256 < 72057594037927936) by (apply Z.div_lt_upper_bound; unfold two64 in *; lia).
  apply wrap64_small. unfold is_u64, two64. nia.
Qed.

Lemma weight_small w : w = TimelySourceWeight ∨ w = TimelyTargetWeight ∨ w = TimelyHeadWeight → 0 ≤ w < 256 ∧ w ≤ WeightDenominator.
Proof. pose proof weights_range. intros [->|[->| ->]]; lia. Qed.

Lemma base_run : effective r / EffectiveBalanceIncrement *w rewardPerIncrement total = baseRewardOf total r.
Proof. pose proof (baseReward_range total Htotal r Hr). apply wrap64_small. unfold is_u64, two64. unfold baseRewardOf in *. lia. Qed.

(** The code's reward is that of the specification. *)
Lemma reward_run flag w :
  w = TimelySourceWeight ∨ w = TimelyTargetWeight ∨ w = TimelyHeadWeight →
  goDiv (baseRewardOf total r *w w *w (participating prev flag rs / EffectiveBalanceIncrement)) (total / EffectiveBalanceIncrement *w WeightDenominator) =
  Ret (baseRewardOf total r * w * (participating prev flag rs / EffectiveBalanceIncrement) / (total / EffectiveBalanceIncrement * WeightDenominator)).
Proof.
  intros [Hw _]%weight_small. destruct denominator_run as [Hd Hd0]. cbn beta in Hd |- *. rewrite Hd.
  pose proof (baseReward_range total Htotal r Hr). pose proof (numerator_range total Htotal r w (participating prev flag rs) Hr Hw (Hstable flag)) as Hn.
  rewrite (wrap64_small (baseRewardOf total r * w)) by (unfold is_u64, two64; nia). rewrite wrap64_small by done.
  unfold goDiv. by rewrite (proj2 (Z.eqb_neq _ _)) by lia.
Qed.

Lemma penalty_run w :
  w = TimelySourceWeight ∨ w = TimelyTargetWeight ∨ w = TimelyHeadWeight →
  baseRewardOf total r *w w / WeightDenominator = baseRewardOf total r * w / WeightDenominator.
Proof.
  intros [Hw _]%weight_small. pose proof (baseReward_range total Htotal r Hr). cbn beta. rewrite wrap64_small by (unfold is_u64, two64; nia). done.
Qed.

Lemma attestationDelta_run :
  attestationDelta bal (pre3 (prev + 1) prev leak r) (rewardPerIncrement total) (InactivityScoreBias * quotient) leak =
  Ret (deltaOf prev total quotient leak rs r).
Proof.
  unfold attestationDelta. injection Hbal as E1 E2 E3 E4. rewrite E1, E2, E3, E4. cbn zeta.
  change (IsActivePrevEpoch (pre3 (prev + 1) prev leak r) || _) with (EligibleForRewards (pre2 (prev + 1) prev r)). rewrite eligible_run.
  pose proof EffectiveBalanceIncrement_range. rewrite (proj2 (Z.eqb_neq total 0)) by lia.
  unfold deltaOf, flagReward, flagPenalty, inactivityPenaltyOf. destruct (eligibleRow prev r); [|done]. cbn [negb orb andb].
  change (CurrentEpochEffectiveBalance (pre3 (prev + 1) prev leak r)) with (effective r).
  change (InactivityScore (pre3 (prev + 1) prev leak r)) with (specScore prev leak r).
  pose proof base_run as Hb. cbn beta in Hb. rewrite Hb.
  assert (∀ flag, Z.testbit (rowPrevious r) flag && IsActiveValidator (rowValidator r) prev && negb (Slashed (rowValidator r)) = participates prev flag r) as Hp
    by (intros flag; unfold participates; by rewrite (andb_comm (IsActiveValidator _ _))).
  change (IsPrevEpochSourceAttester _ && negb _) with (Z.testbit (rowPrevious r) TimelySourceFlagIndex && IsActiveValidator (rowValidator r) prev && negb (Slashed (rowValidator r))).
  change (IsPrevEpochTargetAttester _ && negb _) with (Z.testbit (rowPrevious r) TimelyTargetFlagIndex && IsActiveValidator (rowValidator r) prev && negb (Slashed (rowValidator r))).
  change (IsPrevEpochHeadAttester _ && negb _) with (Z.testbit (rowPrevious r) TimelyHeadFlagIndex && IsActiveValidator (rowValidator r) prev && negb (Slashed (rowValidator r))).
  assert (negb (IsPrevEpochTargetAttester (pre3 (prev + 1) prev leak r)) || IsSlashed (pre3 (prev + 1) prev leak r) =
          negb (participates prev TimelyTargetFlagIndex r)) as ->.
  { rewrite <- Hp. cbn. by destruct (Z.testbit _ _), (IsActiveValidator _ _), (Slashed _). }
  rewrite !Hp.
  pose proof (reward_run TimelySourceFlagIndex TimelySourceWeight ltac:(by left)) as Rs. pose proof (reward_run TimelyTargetFlagIndex TimelyTargetWeight ltac:(by right; left)) as Rt.
  pose proof (reward_run TimelyHeadFlagIndex TimelyHeadWeight ltac:(by right; right)) as Rh. cbn beta in Rs, Rt, Rh. rewrite Rs, Rt, Rh.
  pose proof (penalty_run TimelySourceWeight ltac:(by left)) as Ps. pose proof (penalty_run TimelyTargetWeight ltac:(by right; left)) as Pt. cbn beta in Ps, Pt. rewrite Ps, Pt.
  pose proof (specScore_range prev leak r Hr) as Hsc. pose proof (ro_effective _ Hr) as He. pose proof balances_range as Hbr. pose proof hysteresis_range as (_ & _ & _ & Hi).
  assert (effective r * specScore prev leak r < two64) as Hprod by (unfold two32, two64 in *; nia).
  assert (Mul64 (effective r) (specScore prev leak r) = Ret (effective r * specScore prev leak r)) as ->.
  { unfold two32, two64 in *. rewrite Mul64_spec by (unfold is_u64, two64; lia). unfold two64. by rewrite (proj2 (Z.ltb_lt _ _)) by lia. }
  cbn [obind]. unfold goDiv. rewrite (proj2 (Z.eqb_neq (InactivityScoreBias * quotient) 0)) by lia.
  destruct (participates prev TimelySourceFlagIndex r), (participates prev TimelyTargetFlagIndex r), (participates prev TimelyHeadFlagIndex r), leak; reflexivity.
Qed.

Lemma rewards_bound : 0 ≤ specRewards prev total rs leak r ≤ 162129586585337856.
Proof.
  pose proof (baseReward_range total Htotal r Hr). unfold specRewards, flagReward.
  assert (∀ flag w, w = TimelySourceWeight ∨ w = TimelyTargetWeight ∨ w = TimelyHeadWeight →
    0 ≤ baseRewardOf total r * w * (participating prev flag rs / EffectiveBalanceIncrement) / (total / EffectiveBalanceIncrement * WeightDenominator)
      ≤ 54043195528445952) as Hf.
  { intros flag w [[? _] ?]%weight_small. pose proof (reward_range total Htotal r w (participating prev flag rs) Hr ltac:(lia) (Hstable flag)). lia. }
  pose proof (Hf TimelySourceFlagIndex TimelySourceWeight ltac:(by left)). pose proof (Hf TimelyTargetFlagIndex TimelyTargetWeight ltac:(by right; left)).
  pose proof (Hf TimelyHeadFlagIndex TimelyHeadWeight ltac:(by right; right)).
  destruct (eligibleRow prev r && participates prev TimelySourceFlagIndex r && negb leak), (eligibleRow prev r && participates prev TimelyTargetFlagIndex r && negb leak),
    (eligibleRow prev r && participates prev TimelyHeadFlagIndex r && negb leak); lia.
Qed.

Lemma penalty_bound flag w :
  w = TimelySourceWeight ∨ w = TimelyTargetWeight ∨ w = TimelyHeadWeight → 0 ≤ flagPenalty prev total flag w r ≤ 18014398509481984.
Proof.
  intros [Hw1 Hw2]%weight_small. pose proof (baseReward_range total Htotal r Hr). pose proof weights_range. unfold flagPenalty. destruct (_ && _); [|lia].
  split; [apply Z.div_pos; nia|]. transitivity (baseRewardOf total r); [apply Z.div_le_upper_bound; nia|lia].
Qed.

Lemma inactivity_bound : 0 ≤ inactivityPenaltyOf prev (specScore prev leak r) quotient r < 4611686018427387904.
Proof.
  pose proof (specScore_range prev leak r Hr) as Hsc. pose proof (ro_effective _ Hr) as He. pose proof balances_range as Hbr. pose proof hysteresis_range as (_ & _ & _ & Hi).
  unfold inactivityPenaltyOf, two32 in *. destruct (_ && _); [|lia]. assert (effective r * specScore prev leak r < 4611686018427387904) by nia.
  split; [apply Z.div_pos; nia|]. apply Z.div_lt_upper_bound; nia.
Qed.

Lemma flagReward_nonneg flag w : 0 ≤ w → 0 ≤ flagReward prev total rs leak flag w r.
Proof.
  intros Hw. unfold flagReward. destruct (_ && _); [|lia]. pose proof (baseReward_range total Htotal r Hr). destruct denominator_run as [_ Hd].
  pose proof EffectiveBalanceIncrement_range. apply Z.div_pos; [|done].
  assert (0 ≤ participating prev flag rs / EffectiveBalanceIncrement) by (apply Z.div_pos; [apply Hstable|lia]).
  apply Z.mul_nonneg_nonneg; [apply Z.mul_nonneg_nonneg; lia|lia].
Qed.

(** Applying the deltas in turn, when the penalties do not exceed the balance. *)
Lemma inTurn_run :
  specPenalties prev total quotient leak r ≤ rowBalance r →
  rowBalance (specRow prev total quotient leak rs r) = applyInTurn (rowBalance r) (specDeltas prev total quotient leak rs r).
Proof.
  intros Hpen. pose proof (penalty_bound TimelySourceFlagIndex TimelySourceWeight ltac:(by left)).
  pose proof (penalty_bound TimelyTargetFlagIndex TimelyTargetWeight ltac:(by right; left)). pose proof inactivity_bound. pose proof weights_range.
  assert (0 ≤ flagReward prev total rs leak TimelySourceFlagIndex TimelySourceWeight r) by (apply flagReward_nonneg; lia).
  assert (0 ≤ flagReward prev total rs leak TimelyTargetFlagIndex TimelyTargetWeight r) by (apply flagReward_nonneg; lia).
  assert (0 ≤ flagReward prev total rs leak TimelyHeadFlagIndex TimelyHeadWeight r) by (apply flagReward_nonneg; lia).
  unfold specRow, specRewards, specPenalties, specDeltas, applyInTurn in *. cbn [rowBalance foldl fst snd]. lia.
Qed.

Lemma applyDelta_run :
  applyDelta (rowBalance r) (deltaOf prev total quotient leak rs r) =
  Ret (Z.max 0 (rowBalance r + specRewards prev total rs leak r - specPenalties prev total quotient leak r)).
Proof.
  pose proof rewards_bound as Hrw. pose proof (penalty_bound TimelySourceFlagIndex TimelySourceWeight ltac:(by left)) as Hps.
  pose proof (penalty_bound TimelyTargetFlagIndex TimelyTargetWeight ltac:(by right; left)) as Hpt. pose proof inactivity_bound as Hin. pose proof (ro_balance _ Hr) as Hb.
  pose proof weights_range as Hw. 
  assert (0 ≤ flagReward prev total rs leak TimelySourceFlagIndex TimelySourceWeight r) by (apply flagReward_nonneg; lia).
  assert (0 ≤ flagReward prev total rs leak TimelyTargetFlagIndex TimelyTargetWeight r) by (apply flagReward_nonneg; lia).
  assert (0 ≤ flagReward prev total rs leak TimelyHeadFlagIndex TimelyHeadWeight r) by (apply flagReward_nonneg; lia).
  unfold applyDelta, deltaOf, specRewards, specPenalties, IncreaseBalanceWithVal in *. cbn [HeadReward SourceReward TargetReward SourcePenalty TargetPenalty InactivityPenalty].
  unfold two63 in *. rewrite !wrap64_add_l. rewrite wrap64_small by (unfold is_u64, two64; lia).
  rewrite Add64_spec by (unfold is_u64, two64; lia). rewrite (proj2 (Z.ltb_lt _ _)) by (unfold two64; lia). cbn [obind].
  rewrite wrap64_small by (unfold is_u64, two64; lia). rewrite DecreaseBalanceWithVal_max by (unfold is_u64, two64; lia). f_equal. lia.
Qed.
End delta.

(** ** The lists *)

Lemma deltaLoop_run prev total quotient leak rs bal l :
  (∀ r, r ∈ l → attestationDelta bal (pre3 (prev + 1) prev leak r) (rewardPerIncrement total) (InactivityScoreBias * quotient) leak =
                Ret (deltaOf prev total quotient leak rs r)) →
  deltaLoop bal (map (pre3 (prev + 1) prev leak) l) (rewardPerIncrement total) (InactivityScoreBias * quotient) leak =
  Ret (map (deltaOf prev total quotient leak rs) l).
Proof.
  induction l as [|r l IH]; intros Hl; [done|]. cbn [map deltaLoop]. rewrite Hl by set_solver. cbn [obind]. rewrite IH by set_solver. done.
Qed.

Lemma applyDeltas_run prev total quotient leak rs l :
  (∀ r, r ∈ l → applyDelta (rowBalance r) (deltaOf prev total quotient leak rs r) = Ret (rowBalance (specRow prev total quotient leak rs r))) →
  ∃ vals, applyDeltas (map rowBalance l) (map (deltaOf prev total quotient leak rs) l) (map (pre3 (prev + 1) prev leak) l) =
    Ret (map (λ r, rowBalance (specRow prev total quotient leak rs r)) l, vals).
Proof.
  induction l as [|r l IH]; intros Hl; [by exists []|]. cbn [map applyDeltas]. rewrite Hl by set_solver. cbn [obind].
  destruct IH as [vals ->]; [set_solver|]. cbn [obind fst snd]. eauto.
Qed.

Lemma quotient_run s : InactivityPenaltyQuotient s = Ret (quotientOf s) ∧ InactivityScoreBias *w quotientOf s = InactivityScoreBias * quotientOf s ∧
  0 < InactivityScoreBias * quotientOf s.
Proof.
  pose proof inactivity_range as (Hb & _ & _ & Hq1 & Hq2 & Hq3 & Hp1 & Hp2 & Hp3). unfold InactivityPenaltyQuotient, quotientOf.
  assert (versionAtLeast Phase0 s = true) as -> by (unfold versionAtLeast; by destruct (Version s)).
  destruct (versionAtLeast Bellatrix s); [|destruct (versionAtLeast Altair s)]; (split_and!; [done|apply wrap64_small; unfold is_u64; nia|nia]).
Qed.

Lemma participating_stable prev rs total flag :
  Forall row_ok rs → EffectiveBalanceIncrement ≤ total → sumOver (λ r, IsActiveValidator (rowValidator r) prev) rs ≤ 2 * total →
  0 ≤ participating prev flag rs ≤ 2 * total.
Proof.
  intros Hrs Ht Hs. pose proof EffectiveBalanceIncrement_range. unfold participating, atLeastIncrement.
  pose proof (sumOver_le (participates prev flag) (λ r, IsActiveValidator (rowValidator r) prev) rs Hrs) as Hle.
  assert (0 ≤ sumOver (participates prev flag) rs ≤ sumOver (λ r, IsActiveValidator (rowValidator r) prev) rs); [|lia].
  apply Hle. intros r Hr. unfold participates in Hr. by apply andb_true_iff in Hr as [[Hr _]%andb_true_iff _].
Qed.

(** The first two stages. *)
Lemma precompute_run s rs :
  rewards_ready s rs →
  ∃ bal, (p <-? InitializePrecomputeValidators s;; ProcessEpochParticipation s p.2 p.1) = Ret (map (pre2 (LedgerPrevEpoch s + 1) (LedgerPrevEpoch s)) rs, bal) ∧
    readBalances bal = (totalActive (LedgerEpoch s) rs, participating (LedgerPrevEpoch s) TimelySourceFlagIndex rs,
      participating (LedgerPrevEpoch s) TimelyTargetFlagIndex rs, participating (LedgerPrevEpoch s) TimelyHeadFlagIndex rs).
Proof.
  intros [[Lv Ls Lp Lc Lb] Hrs Htot _ [He _] Hf _]. unfold InitializePrecomputeValidators, ProcessEpochParticipation. rewrite Hf.
  assert (LedgerPrevEpoch s + 1 = LedgerEpoch s) as Hprev by (unfold LedgerPrevEpoch; rewrite (proj2 (Z.eqb_neq _ _)) by lia; lia). rewrite Hprev.
  rewrite Lv, Ls, !length_map, Nat.eqb_refl. cbn [negb]. pose proof (sumOver_all (λ _, true) rs Hrs). unfold maxUint64 in Htot.
  rewrite initializeLoop_run by (done || (unfold two64; lia)). cbn [omap_err obind fst snd]. rewrite Lp, Lc.
  pose proof (mark_run (LedgerEpoch s) (LedgerPrevEpoch s) rs) as Hm. apply obind_ret in Hm as (v1 & -> & Hm). cbn [obind]. rewrite Hm. cbn [obind].
  eexists. split; [done|]. set (b0 := mkEpochBalance _ _ 0 0 0 0 0).
  pose proof (fold_read (LedgerEpoch s) (LedgerPrevEpoch s) (Version s) rs b0 _ _ _ _ Hf Hrs eq_refl) as Hfold.
  cbn [b0 PrevAttested PrevTargetAttested PrevHeadAttested ActiveCurrent] in Hfold. assert (0 + sumOver (λ _, true) rs < two64) as Hs0 by (unfold two64; lia). assert (0 ≤ 0) as H00 by lia.
  specialize (Hfold H00 H00 H00 Hs0 Hs0 Hs0).
  unfold UpdateBalance, EnsureBalancesLowerBound, readBalances in *. cbn [PrevAttested PrevTargetAttested PrevHeadAttested ActiveCurrent].
  injection Hfold as E1 E2 E3 E4. rewrite E1, E2, E3, E4. unfold totalActive, participating, atLeastIncrement.
  assert (∀ x, (if x <? EffectiveBalanceIncrement then EffectiveBalanceIncrement else x) = Z.max EffectiveBalanceIncrement x) as Hmax by (intros x; case_if; lia).
  rewrite !Hmax. by rewrite !Z.add_0_l.
Qed.

(** C5. Rewards and penalties, Altair and later: on a state with consistent lists the
    pipeline of precomputed validators succeeds, and every validator's inactivity score
    and balance become those of the consensus specification, computed with unbounded
    integers from the sets of participating validators.  Adding all rewards before
    subtracting all penalties, as the code does, agrees with applying the deltas one after
    the other whenever the penalties do not exceed the balance. *)
Theorem epoch_rewards_spec s rs :
  rewards_ready s rs →
  ∃ s', epochRewards s = Ret s' ∧ laid s' (map (specOf s rs) rs) ∧
    ∀ r, r ∈ rs → penaltiesOf s rs r ≤ rowBalance r → rowBalance (specOf s rs r) = applyInTurn (rowBalance r) (deltasOf s rs r).
Proof.
  intros Hready. destruct (precompute_run s rs Hready) as (bal & Hpre & Hbal). destruct Hready as [[Lv Ls Lp Lc Lb] Hrs Htot Hst [He Hg] Hf Hfin].
  set (prev := LedgerPrevEpoch s) in *. set (total := totalActive (LedgerEpoch s) rs) in *.
  pose proof EffectiveBalanceIncrement_range as Hinc. pose proof hysteresis_range as (_ & _ & _ & Hi). pose proof BaseRewardFactor_range as Hbf.
  pose proof (sumOver_all (λ r, IsActiveValidator (rowValidator r) (LedgerEpoch s)) rs Hrs) as Hact.
  assert (EffectiveBalanceIncrement ≤ total < maxUint64) as Ht by (unfold total, totalActive, atLeastIncrement, maxUint64, two32 in *; lia).
  assert (EffectiveBalanceIncrement ≤ total < two64) as Htt by (unfold maxUint64, two64 in *; lia).
  destruct (quotient_run s) as (Hq1 & Hq2 & Hq3). cbn beta in Hq2.
  assert (∀ flag, 0 ≤ participating prev flag rs ≤ 2 * total) as Hstable by (intros flag; apply participating_stable; [done|lia|done]).
  unfold epochRewards. apply obind_ret in Hpre as (p & -> & Hpre). cbn [obind]. rewrite Hpre. cbn [obind].
  unfold ProcessInactivityScores. rewrite (proj2 (Z.eqb_neq _ _)) by done. rewrite Hf.
  assert (IsInInactivityLeak prev (FinalizedEpoch s) = leakOf s) as Hleak.
  { unfold IsInInactivityLeak, FinalityDelay, leakOf. fold prev. rewrite wrap64_small; [done|]. unfold is_u64, prev, LedgerPrevEpoch in *. case_match; bprop; lia. }
  fold prev. rewrite Hleak, Ls, inactivityLoop_run by done. cbn [obind fst snd].
  unfold ProcessRewardsAndPenaltiesPrecompute. set (s1 := setInactivityScores _ s).
  change (LedgerEpoch s1) with (LedgerEpoch s). rewrite (proj2 (Z.eqb_neq _ _)) by done.
  change (Validators s1) with (Validators s). change (Balances s1) with (Balances s). rewrite Lv, Lb, !length_map, !Nat.eqb_refl. cbn [negb orb].
  unfold AttestationsDelta. injection Hbal as E1 E2 E3 E4. rewrite E1. rewrite CachedRoot_sqrt by lia. cbn [obind].
  destruct (sqrt_bounds total Htt) as [Hsq _]. unfold two32, two64 in Hi, Hinc. rewrite (wrap64_small (EffectiveBalanceIncrement * BaseRewardFactor)) by (unfold is_u64, two64; nia).
  unfold goDiv at 1. rewrite (proj2 (Z.eqb_neq _ _)) by lia. cbn [obind].
  change (LedgerPrevEpoch s1) with prev. change (FinalizedEpoch s1) with (FinalizedEpoch s). rewrite Hleak.
  change (InactivityPenaltyQuotient s1) with (InactivityPenaltyQuotient s). rewrite Hq1. cbn [obind]. rewrite Hq2. fold (rewardPerIncrement total).
  rewrite (deltaLoop_run prev total (quotientOf s) (leakOf s) rs).
  2: { intros r Hr. rewrite Forall_forall in Hrs. apply attestationDelta_run; [done|by apply Hrs|by rewrite <- E1, <- E2, <- E3, <- E4|done..]. }
  cbn [omap_err obind]. destruct (applyDeltas_run prev total (quotientOf s) (leakOf s) rs rs) as [vals ->].
  { intros r Hr. rewrite Forall_forall in Hrs. apply applyDelta_run; [done|by apply Hrs|done..]. }
  cbn [obind fst]. eexists. split_and!; [done| |].
  - split; cbn; rewrite ?map_map; done.
  - intros r Hr Hpen. rewrite Forall_forall in Hrs. specialize (Hrs _ Hr). unfold specOf, deltasOf, penaltiesOf in *. fold prev total in Hpen |- *.
    apply inTurn_run; done.
Qed.
End stages.

(** ** Witness *)

Lemma initialSqrtCache_ok : sqrtCache_ok initialSqrtCache.
Proof. vm_compute. intuition discriminate. Qed.

Definition sampleSqrt : SquareRoot := cachedSquareRoot initialSqrtCache initialSqrtCache_ok.

Definition sampleRows : list Row :=
  [mkRow (sampleValidator 32000000000 1 1 maxUint64 maxUint64) 0 7 7 32500000000; mkRow (sampleValidator 32000000000 1 2 50 90) 0 0 0 31000000000;
   mkRow (sampleValidator 64000000000 2 3 maxUint64 maxUint64) 0 7 1 64700000000; mkRow (sampleValidator 32000000000 0 4 maxUint64 maxUint64) 0 3 3 33000000000].

Lemma epoch_rewards_spec_witness :
  ∃ s', @epochRewards _ mainnetLedgerConfig sampleSqrt sampleLedger = Ret s' ∧
    laid s' (map (@specOf _ mainnetLedgerConfig sampleLedger sampleRows) sampleRows) ∧
    map rowBalance (map (@specOf _ mainnetLedgerConfig sampleLedger sampleRows) sampleRows) = [32504516846; 31000000000; 64709033692; 33003577700].
Proof.
  destruct (@epoch_rewards_spec _ mainnetLedgerConfig sampleSqrt sampleLedger sampleRows) as (s' & Hrun & Hlaid & _).
  { split; [by split|repeat constructor; by compute|by vm_compute|by vm_compute|by vm_compute|by vm_compute|by vm_compute]. }
  exists s'. split_and!; [exact Hrun|exact Hlaid|vm_compute; reflexivity].
Defined.
