(* ===== verification/ParticipationCorrect.v ===== *)
(** * Correctness of participation

    Entering an attestation's flags sets exactly these flags for exactly the attesting
    validators and pays the proposer once for every flag that was not set before. *)

From S2P Require Import Prelude MathHelper Primitives SlotTime Shuffle Committee Justification ExitQueue Ledger Participation Rewards RewardsCorrect.

Section participation.
Context `{LedgerConfig} `{!SquareRoot}.

(** The bits of the flags of an attestation. *)
Definition flagBit (flags : Flags) (f : Z) : Z := if participated flags f then Z.shiftl 1 f else 0.
Definition flagMask (flags : Flags) : Z :=
  Z.lor (Z.lor (flagBit flags TimelySourceFlagIndex) (flagBit flags TimelyTargetFlagIndex)) (flagBit flags TimelyHeadFlagIndex).

(** What one validator with base reward [br] and participation [b] adds to the proposer's
    reward. *)
Definition earnedFlag (flags : Flags) (br b f w : Z) : Z := if participated flags f && negb (Z.testbit b f) then br * w else 0.
Definition earned (flags : Flags) (br b : Z) : Z :=
  earnedFlag flags br b TimelySourceFlagIndex TimelySourceWeight + earnedFlag flags br b TimelyTargetFlagIndex TimelyTargetWeight +
  earnedFlag flags br b TimelyHeadFlagIndex TimelyHeadWeight.

(** ** One flag *)

Lemma AddFlag_run b f : 0 ≤ f ≤ 7 → AddValidatorFlag b f = Ret (Z.lor b (Z.shiftl 1 f)).
Proof. intros Hf. unfold AddValidatorFlag. by rewrite (proj2 (Z.ltb_ge _ _)) by lia. Qed.

Lemma lor_bit_set b f : 0 ≤ f → Z.testbit b f = true → Z.lor b (Z.shiftl 1 f) = b.
Proof.
  intros Hf Hb. apply Z.bits_inj'. intros n Hn. rewrite Z.lor_spec. destruct (decide (n = f)) as [->|Hne]; [by rewrite Hb|].
  rewrite Z.shiftl_spec by lia. replace (Z.testbit 1 (n - f)) with false; [apply orb_false_r|].
  destruct (decide (n < f)); [by rewrite Z.testbit_neg_r by lia|]. symmetry. change 1 with (2 ^ 0). apply Z.pow2_bits_false. lia.
Qed.

Lemma testbit_flag flags f g : 0 ≤ f → 0 ≤ g → f ≠ g → Z.testbit (flagBit flags f) g = false.
Proof.
  intros Hf Hg Hne. unfold flagBit. destruct (participated flags f); [|apply Z.bits_0]. rewrite Z.shiftl_spec by lia.
  destruct (decide (g < f)); [by rewrite Z.testbit_neg_r by lia|]. change 1 with (2 ^ 0). apply Z.pow2_bits_false. lia.
Qed.

Lemma testbit_own flags f : 0 ≤ f → Z.testbit (flagBit flags f) f = participated flags f.
Proof.
  intros Hf. unfold flagBit. destruct (participated flags f); [|apply Z.bits_0]. rewrite Z.shiftl_spec by lia. rewrite Z.sub_diag. done.
Qed.

Lemma enterFlag_run flags br b n f w :
  0 ≤ f ≤ 7 → is_u64 n →
  enterFlag flags br f w (b, n) = Ret (Z.lor b (flagBit flags f), wrap64 (n + earnedFlag flags br b f w)).
Proof.
  intros Hf Hn. unfold enterFlag, earnedFlag, flagBit. cbn [fst snd]. rewrite HasFlag_run by done. cbn [obind].
  destruct (participated flags f); cbn [andb]; [|by rewrite Z.lor_0_r, Z.add_0_r, wrap64_small].
  destruct (Z.testbit b f) eqn:Hb; cbn [negb].
  - by rewrite lor_bit_set, Z.add_0_r, wrap64_small by (done || lia).
  - rewrite AddFlag_run by done. cbn [obind]. by rewrite wrap64_add_r.
Qed.

(** All flags of one validator. *)
Lemma enterAll_run flags br b n :
  is_u64 n →
  (acc <-? enterFlag flags br TimelySourceFlagIndex TimelySourceWeight (b, n);;
   acc <-? enterFlag flags br TimelyTargetFlagIndex TimelyTargetWeight acc;;
   enterFlag flags br TimelyHeadFlagIndex TimelyHeadWeight acc) = Ret (Z.lor b (flagMask flags), wrap64 (n + earned flags br b)).
Proof.
  intros Hn. pose proof flags_range as (Hf1 & Hf2 & Hf3). pose proof flags_distinct as (Hd1 & Hd2 & Hd3).
  rewrite enterFlag_run by done. cbn [obind]. rewrite enterFlag_run by (done || apply wrap64_range). cbn [obind]. rewrite enterFlag_run by (done || apply wrap64_range).
  rewrite !wrap64_add_l. unfold flagMask, earned. do 2 f_equal; [by rewrite !Z.lor_assoc|].
  rewrite <- (Z.add_assoc (wrap64 _)), wrap64_add_l. unfold earnedFlag. rewrite !Z.lor_spec, !testbit_flag by lia. rewrite !orb_false_r. by rewrite !Z.add_assoc.
Qed.

(** Nothing is earned for flags that are set. *)
Lemma earned_again flags br b : earned flags br (Z.lor b (flagMask flags)) = 0.
Proof.
  pose proof flags_range as (Hf1 & Hf2 & Hf3). unfold earned, earnedFlag, flagMask. rewrite !Z.lor_spec, !testbit_own by lia.
  destruct (participated flags TimelySourceFlagIndex), (participated flags TimelyTargetFlagIndex), (participated flags TimelyHeadFlagIndex);
    rewrite ?orb_true_r, ?orb_true_l; cbn [orb andb negb]; rewrite ?orb_true_r; done.
Qed.

(** ** All validators *)

Definition enterOne (mask : Z) (ep : list Z) (i : Z) : list Z :=
  match ep !! Z.to_nat i with Some b => <[Z.to_nat i := Z.lor b mask]> ep | None => ep end.
Definition entered (mask : Z) (indices ep : list Z) : list Z := foldl (enterOne mask) ep indices.

Definition baseOf (s : Ledger) (total i : Z) : Z :=
  match Validators s !! Z.to_nat i with Some v => EffectiveBalance v / EffectiveBalanceIncrement * rewardPerIncrement total | None => 0 end.

(** The numerator of the proposer's reward. *)
Definition earnedAll (s : Ledger) (total : Z) (flags : Flags) (ep indices : list Z) : Z :=
  Zsum (map (λ i, earned flags (baseOf s total i) (default 0 (ep !! Z.to_nat i))) indices).

Lemma enterOne_length mask ep i : length (enterOne mask ep i) = length ep.
Proof. unfold enterOne. destruct (ep !! _); [apply length_insert|done]. Qed.

Lemma entered_length mask indices : ∀ ep, length (entered mask indices ep) = length ep.
Proof. induction indices as [|i indices IH]; intros ep; [done|]. cbn. unfold entered in IH. by rewrite IH, enterOne_length. Qed.

Lemma enterOne_lookup mask ep i k :
  enterOne mask ep i !! k = (if decide (k = Z.to_nat i) then λ b, Z.lor b mask else id) <$> ep !! k.
Proof.
  unfold enterOne. destruct (decide (k = Z.to_nat i)) as [->|Hne].
  - destruct (ep !! Z.to_nat i) as [b|] eqn:Hb; [|by rewrite Hb]. by rewrite list_lookup_insert_eq by (by eapply lookup_lt_Some).
  - destruct (ep !! Z.to_nat i); [rewrite list_lookup_insert_ne by done|]; by rewrite option_fmap_id.
Qed.

(** Exactly the attesting validators have the flags added. *)
Lemma entered_lookup mask indices k : ∀ ep,
  entered mask indices ep !! k = (if decide (k ∈ map Z.to_nat indices) then λ b, Z.lor b mask else id) <$> ep !! k.
Proof.
  induction indices as [|i indices IH]; intros ep; cbn [entered foldl map].
  { rewrite decide_False by set_solver. by rewrite option_fmap_id. }
  unfold entered in IH. rewrite IH, enterOne_lookup. destruct (ep !! k) as [b|]; [|done]. cbn. f_equal.
  destruct (decide (k ∈ map Z.to_nat indices)), (decide (k = Z.to_nat i)), (decide (k ∈ Z.to_nat i :: map Z.to_nat indices));
    try set_solver. cbn. by rewrite <- Z.lor_assoc, Z.lor_diag.
Qed.

Lemma entered_again mask indices ep : entered mask indices (entered mask indices ep) = entered mask indices ep.
Proof.
  apply list_eq. intros k. rewrite !entered_lookup. destruct (ep !! k) as [b|]; [|done]. cbn. f_equal.
  destruct (decide _); [|done]. by rewrite <- Z.lor_assoc, Z.lor_diag.
Qed.

(** What entering flags relies on. *)
Record participation_ready (s : Ledger) (total : Z) (indices : list Z) : Prop := {
  pa_indices : Forall (known s) indices;
  pa_unique : NoDup indices;
  pa_effective : Forall (λ v, 0 ≤ EffectiveBalance v ≤ MaxEffectiveBalanceElectra) (Validators s);
  pa_total : EffectiveBalanceIncrement ≤ total < maxUint64
}.

Lemma BaseReward_run s total i :
  known s i → Forall (λ v, 0 ≤ EffectiveBalance v ≤ MaxEffectiveBalanceElectra) (Validators s) → EffectiveBalanceIncrement ≤ total < maxUint64 →
  BaseRewardWithTotalBalance s i total = Ret (baseOf s total i) ∧ 0 ≤ baseOf s total i ≤ 18014398509481984.
Proof.
  intros Hi He Ht. destruct (known_validator _ _ Hi) as (v & Hv & Hva). pose proof (Forall_lookup_1 _ _ _ _ He Hv) as Hev. cbn beta in Hev.
  assert (EffectiveBalanceIncrement ≤ total < two64) as Htt by (unfold maxUint64, two64 in *; lia).
  pose proof EffectiveBalanceIncrement_range as Hinc. pose proof hysteresis_range as (_ & _ & _ & Hi'). pose proof BaseRewardFactor_range as Hbf.
  destruct (sqrt_bounds total Htt) as [Hs _].
  assert (0 ≤ baseOf s total i ≤ 18014398509481984) as Hb.
  { unfold baseOf. rewrite Hv. apply (baseReward_range total Htt (mkRow v 0 0 0 0)). split; cbn; [done|lia|unfold two63; lia]. }
  split; [|done]. unfold BaseRewardWithTotalBalance, BaseRewardPerIncrement. rewrite Hva. cbn [obind]. rewrite (proj2 (Z.eqb_neq _ _)) by lia.
  rewrite CachedRoot_sqrt by lia. cbn [obind]. unfold two32, two64 in Hi', Hinc.
  rewrite (wrap64_small (EffectiveBalanceIncrement * BaseRewardFactor)) by (unfold is_u64, two64; nia).
  unfold goDiv. rewrite (proj2 (Z.eqb_neq _ _)) by lia. cbn [obind]. unfold baseOf in *. rewrite Hv in *. fold (rewardPerIncrement total).
  rewrite wrap64_small by (unfold is_u64, two64; lia). done.
Qed.

Lemma loop_run s total flags indices : ∀ ep n,
  participation_ready s total indices → length ep = length (Validators s) → is_u64 n →
  EpochParticipationLoop s indices ep flags total n =
    Ret (wrap64 (n + earnedAll s total flags ep indices), entered (flagMask flags) indices ep).
Proof.
  induction indices as [|i indices IH]; intros ep n Hready Hlen Hn; cbn [EpochParticipationLoop entered foldl].
  { unfold earnedAll. cbn. by rewrite Z.add_0_r, wrap64_small. }
  destruct Hready as [Hk Hu He Ht]. apply Forall_cons in Hk as [Hi Hk]. apply NoDup_cons in Hu as [Hni Hu].
  pose proof (known_lt _ _ Hi) as Hlt. destruct (lookup_lt_is_Some_2 ep (Z.to_nat i) ltac:(lia)) as [b Hb]. rewrite Hb.
  destruct (BaseReward_run s total i Hi He Ht) as [-> _]. cbn [obind].
  pose proof (enterAll_run flags (baseOf s total i) b n Hn) as Hall. apply obind_ret in Hall as (a1 & -> & (a2 & E2 & E3)%obind_ret). cbn [obind].
  rewrite E2. cbn [obind]. rewrite E3. cbn [obind fst snd].
  assert (enterOne (flagMask flags) ep i = <[Z.to_nat i := Z.lor b (flagMask flags)]> ep) as Hone by (unfold enterOne; by rewrite Hb).
  rewrite <- Hone, IH; [|by split|by rewrite enterOne_length|apply wrap64_range]. rewrite wrap64_add_l. do 2 f_equal.
  unfold earnedAll. cbn [map Zsum]. rewrite Hb. cbn [default]. rewrite Z.add_assoc. do 2 f_equal. apply Zsum_map_ext. intros j Hj.
  rewrite enterOne_lookup. rewrite decide_False; [by rewrite option_fmap_id|]. rewrite Forall_forall in Hk. specialize (Hk j Hj). unfold known in *.
  intros Heq. assert (i = j) as -> by lia. done.
Qed.

(** A second pass earns nothing. *)
Lemma earnedAll_again s total flags ep indices :
  Forall (known s) indices → length ep = length (Validators s) → earnedAll s total flags (entered (flagMask flags) indices ep) indices = 0.
Proof.
  intros Hk Hlen. unfold earnedAll.
  assert (∀ l, l ⊆ indices → Zsum (map (λ i, earned flags (baseOf s total i) (default 0 (entered (flagMask flags) indices ep !! Z.to_nat i))) l) = 0) as Hl.
  { induction l as [|i l IH]; intros Hsub; [done|]. cbn [map Zsum]. rewrite IH by set_solver. rewrite entered_lookup.
    rewrite decide_True by (apply list_elem_of_fmap_2; set_solver).
    rewrite Forall_forall in Hk. assert (known s i) as Hi by (apply Hk; set_solver). apply known_lt in Hi.
    destruct (lookup_lt_is_Some_2 ep (Z.to_nat i) ltac:(lia)) as [b ->].
    change (default 0 _) with (Z.lor b (flagMask flags)). by rewrite earned_again. }
  by apply Hl.
Qed.

(** ** Rewarding the proposer *)

Definition participationOf (targetEpoch : Z) (s : Ledger) : list Z :=
  if targetEpoch =? LedgerEpoch s then CurrentEpochParticipation s else PreviousEpochParticipation s.
Definition withParticipation (targetEpoch : Z) (ep : list Z) (s : Ledger) : Ledger :=
  if targetEpoch =? LedgerEpoch s then setCurrentParticipation ep s else setPreviousParticipation ep s.

Lemma withParticipation_frame t ep s :
  LedgerEpoch (withParticipation t ep s) = LedgerEpoch s ∧ registry (withParticipation t ep s) = registry s ∧ Balances (withParticipation t ep s) = Balances s.
Proof. unfold withParticipation. by destruct (_ =? _). Qed.

Lemma withParticipation_get t ep s : participationOf t (withParticipation t ep s) = ep.
Proof.
  unfold participationOf. destruct (withParticipation_frame t ep s) as (-> & _). unfold withParticipation. by destruct (_ =? _).
Qed.

Lemma withParticipation_same t s : withParticipation t (participationOf t s) s = s.
Proof. unfold withParticipation, participationOf. destruct s. by destruct (_ =? _). Qed.

Definition proposerDenominator : Z := (WeightDenominator - ProposerWeight) * WeightDenominator / ProposerWeight.

Lemma denominator_run' : (WeightDenominator -w ProposerWeight) *w WeightDenominator / ProposerWeight = proposerDenominator ∧ 0 ≤ proposerDenominator.
Proof.
  pose proof weights_range as Hw. unfold proposerDenominator. cbn beta. rewrite (wrap64_small (WeightDenominator - ProposerWeight)) by (unfold is_u64, two64; lia).
  rewrite wrap64_small by (unfold is_u64, two64; nia). split; [done|]. apply Z.div_pos; nia.
Qed.

Lemma RewardProposer_run proposer s p n b :
  0 < proposerDenominator → proposer s = Ret p → Balances s !! Z.to_nat p = Some b → is_u64 b → is_u64 n → b + n / proposerDenominator < two64 →
  RewardProposer proposer s n = Ret (setBalances (<[Z.to_nat p := b + n / proposerDenominator]> (Balances s)) s).
Proof.
  intros Hd Hp Hb Hub Hn Hlt. unfold RewardProposer. destruct denominator_run' as [Hr _]. cbn beta in Hr. rewrite Hr. unfold goDiv.
  rewrite (proj2 (Z.eqb_neq _ _)) by lia. cbn [obind]. rewrite Hp. cbn [obind]. apply IncreaseBalance_run; [done..| |done].
  unfold is_u64 in *. split; [apply Z.div_pos; lia|]. apply Z.le_lt_trans with n; [apply Z.div_le_upper_bound; nia|lia].
Qed.

Lemma SetParticipation_run proposer s targetEpoch indices flags total p b :
  participation_ready s total indices → isPhase0 s = false → length (participationOf targetEpoch s) = length (Validators s) →
  0 < proposerDenominator → (∀ t, registry t = registry s → proposer t = Ret p) → Balances s !! Z.to_nat p = Some b → is_u64 b →
  let n := wrap64 (earnedAll s total flags (participationOf targetEpoch s) indices) in
  b + n / proposerDenominator < two64 →
  SetParticipationAndRewardProposer proposer s targetEpoch indices flags total =
    Ret (withParticipation targetEpoch (entered (flagMask flags) indices (participationOf targetEpoch s))
           (setBalances (<[Z.to_nat p := b + n / proposerDenominator]> (Balances s)) s)).
Proof.
  intros Hready Hf Hlen Hd Hp Hb Hub n Hlt. unfold SetParticipationAndRewardProposer, EpochParticipation. rewrite Hf.
  assert (is_u64 0) as H0' by (unfold is_u64, two64; lia). unfold participationOf, withParticipation in *. cbn [LedgerEpoch].
  change (LedgerEpoch (setBalances _ s)) with (LedgerEpoch s). destruct (targetEpoch =? LedgerEpoch s).
  all: rewrite loop_run by done; rewrite Z.add_0_l; cbn [obind fst snd]; fold n.
  all: rewrite (RewardProposer_run _ _ p _ b) by (done || (apply Hp; done) || apply wrap64_range); done.
Qed.

(** Processing once more. *)
Lemma again_run proposer s s' targetEpoch indices flags total p b :
  participation_ready s total indices → isPhase0 s = false → length (participationOf targetEpoch s) = length (Validators s) →
  0 < proposerDenominator → (∀ t, registry t = registry s → proposer t = Ret p) → (Z.to_nat p < length (Balances s))%nat → is_u64 b →
  registry s' = registry s → Balances s' = <[Z.to_nat p := b]> (Balances s) →
  participationOf targetEpoch s' = entered (flagMask flags) indices (participationOf targetEpoch s) →
  SetParticipationAndRewardProposer proposer s' targetEpoch indices flags total = Ret s'.
Proof.
  intros [Hk Hu He Ht] Hf Hlen Hd Hp Hlt Hub Hreg Hbal Hpart.
  assert (Validators s' = Validators s) as Hvs by (unfold Validators; by rewrite Hreg).
  assert (Forall (known s') indices) as Hk' by (unfold known, NumValidators in *; by rewrite Hvs).
  assert (length (participationOf targetEpoch s') = length (Validators s')) as Hlen' by (by rewrite Hpart, entered_length, Hvs).
  assert (Balances s' !! Z.to_nat p = Some b) as Hb by (rewrite Hbal; by apply list_lookup_insert_eq).
  assert (earnedAll s' total flags (participationOf targetEpoch s') indices = 0) as H0'.
  { rewrite Hpart. apply earnedAll_again; [done|by rewrite Hvs]. }
  rewrite (SetParticipation_run proposer s' targetEpoch indices flags total p b);
    [|by split; [done|done|by rewrite Hvs|done]|unfold isPhase0, Version in *; by rewrite Hreg|done|done|intros t Ht'; apply Hp; by rewrite Ht'|done|done|].
  - rewrite H0'. change (wrap64 0) with 0. rewrite Z.div_0_l by lia. rewrite Z.add_0_r, list_insert_id by done.
    assert (setBalances (Balances s') s' = s') as -> by (by destruct s'). rewrite Hpart, entered_again, <- Hpart. by rewrite withParticipation_same.
  - rewrite H0'. change (wrap64 0) with 0. rewrite Z.div_0_l by lia. unfold is_u64 in Hub. lia.
Qed.

(** C17. Participation: processing the flags of an attestation sets exactly these flags for
    exactly the attesting validators, pays the proposer the share of the base rewards of
    the flags that were new, and changes nothing else.  Processing the same attestation
    again changes nothing: a flag is rewarded once. *)
Theorem participation_rewarded_once proposer s targetEpoch indices flags total p b :
  participation_ready s total indices → isPhase0 s = false → length (participationOf targetEpoch s) = length (Validators s) →
  0 < proposerDenominator → (∀ t, registry t = registry s → proposer t = Ret p) → Balances s !! Z.to_nat p = Some b → is_u64 b →
  earnedAll s total flags (participationOf targetEpoch s) indices < two64 →
  b + earnedAll s total flags (participationOf targetEpoch s) indices / proposerDenominator < two64 →
  ∃ s', SetParticipationAndRewardProposer proposer s targetEpoch indices flags total = Ret s' ∧
    (∀ i, participationOf targetEpoch s' !! i =
       (if decide (i ∈ map Z.to_nat indices) then λ x, Z.lor x (flagMask flags) else id) <$> participationOf targetEpoch s !! i) ∧
    Balances s' = <[Z.to_nat p := b + earnedAll s total flags (participationOf targetEpoch s) indices / proposerDenominator]> (Balances s) ∧
    registry s' = registry s ∧
    SetParticipationAndRewardProposer proposer s' targetEpoch indices flags total = Ret s'.
Proof.
  intros Hready Hf Hlen Hd Hp Hb Hub He Hlt. set (n := earnedAll _ _ _ _ _) in *.
  assert (0 ≤ n) as Hn0.
  { unfold n, earnedAll. apply Zsum_nonneg, Forall_forall. intros x (i & -> & Hi)%list_elem_of_fmap. destruct Hready as [Hk _ Hev Ht].
    rewrite Forall_forall in Hk. destruct (BaseReward_run s total i (Hk i Hi) Hev Ht) as [_ Hbr]. pose proof weights_range. unfold earned, earnedFlag.
    destruct (participated flags TimelySourceFlagIndex && _), (participated flags TimelyTargetFlagIndex && _), (participated flags TimelyHeadFlagIndex && _); nia. }
  assert (wrap64 n = n) as Hw by (apply wrap64_small; unfold is_u64; lia).
  pose proof (SetParticipation_run proposer s targetEpoch indices flags total p b Hready Hf Hlen Hd Hp Hb Hub) as Hrun. cbn zeta in Hrun. fold n in Hrun.
  rewrite Hw in Hrun. specialize (Hrun Hlt). eexists. split; [exact Hrun|]. set (s' := withParticipation _ _ _).
  destruct (withParticipation_frame targetEpoch (entered (flagMask flags) indices (participationOf targetEpoch s))
    (setBalances (<[Z.to_nat p := b + n / proposerDenominator]> (Balances s)) s)) as (_ & Hreg & Hbal). fold s' in Hreg, Hbal. cbn [setBalances registry Balances] in Hreg, Hbal.
  assert (participationOf targetEpoch s' = entered (flagMask flags) indices (participationOf targetEpoch s)) as Hpart by apply withParticipation_get.
  split_and!; [by intros i; rewrite Hpart, entered_lookup|done|done|].
  eapply (again_run _ s); [done|done|done|done|exact Hp|by eapply lookup_lt_Some| |done|exact Hbal|done].
  unfold is_u64 in *. split; [|lia]. apply Z.add_nonneg_nonneg; [lia|apply Z.div_pos; lia].
Qed.
End participation.

(** ** Witness *)

(** Validators 0 and 3 attest with all three flags in the current epoch; validator 2
    proposes. *)
Definition allFlags : Flags := {[0 := true; 1 := true; 2 := true]}.

Lemma participation_rewarded_once_witness :
  ∃ s', @SetParticipationAndRewardProposer _ mainnetLedgerConfig sampleSqrt (λ _, Ret 2) sampleLedger 100 [0; 3] allFlags 128000000000 = Ret s' ∧
    @SetParticipationAndRewardProposer _ mainnetLedgerConfig sampleSqrt (λ _, Ret 2) s' 100 [0; 3] allFlags 128000000000 = Ret s' ∧
    nth 2 (Balances s') 0 = 64700178885.
Proof.
  destruct (@participation_rewarded_once _ mainnetLedgerConfig sampleSqrt (λ _, Ret 2) sampleLedger 100 [0; 3] allFlags 128000000000 2 64700000000)
    as (s' & Hrun & _ & Hbal & _ & Hagain).
  { split; [by repeat (apply Forall_cons; split; [by compute|])|by apply (bool_decide_unpack _); vm_compute|repeat constructor; by compute|by vm_compute]. }
  { vm_compute. reflexivity. }
  { vm_compute. reflexivity. }
  { by vm_compute. }
  { done. }
  { done. }
  { by vm_compute. }
  { by vm_compute. }
  { by vm_compute. }
  exists s'. split_and!; [exact Hrun|exact Hagain|]. rewrite Hbal. vm_compute. reflexivity.
Defined.
