(* ===== verification/EpochUpdates.v ===== *)
(** * Registry, slashings and effective balances

    Models [beacon-chain/core/epoch/epoch_processing.go], [sortable_indices.go], the
    registry and effective balance updates of [beacon-chain/core/electra], the slashing of
    a validator ([beacon-chain/core/validators/validator.go]) and the rotation of the
    participation flags ([altair/epoch_spec.go]).  The resets of eth1 votes, randao mixes
    and historical roots touch other parts of the state. *)

From S2P Require Import Prelude MathHelper Primitives SlotTime Shuffle Committee Justification ExitQueue Ledger Participation Rewards.

Section updates.
Context `{LedgerConfig} `{!SquareRoot}.

(** ** Registry updates *)

(** The indices of the validators with a property, in order. *)
Fixpoint collect (p : Validator → bool) (idx : Z) (vs : list Validator) : list Z :=
  match vs with
  | [] => []
  | v :: vs => if p v then idx :: collect p (idx + 1) vs else collect p (idx + 1) vs
  end.

Fixpoint updateAll (f : Validator → Validator) (indices : list Z) (s : Ledger) : outcome Ledger :=
  match indices with
  | [] => Ret s
  | idx :: indices =>
      v <-? ValidatorAt s idx;;
      s <-? UpdateValidatorAt s idx (f v);;
      updateAll f indices s
  end.

Fixpoint ejectAll (info : Ledger → ExitInfo) (indices : list Z) (s : Ledger) : outcome Ledger :=
  match indices with
  | [] => Ret s
  | idx :: indices =>
      match InitiateValidatorExit (registry s) idx (info s) with
      | (r, _, Ret _) => ejectAll info indices (setRegistry r s)
      | (r, _, Err e) =>
          if bool_decide (e = ErrValidatorAlreadyExited) then ejectAll info indices (setRegistry r s)
          else Err (wrapErr e "could not initiate exit for validator")
      | (_, _, Panic m) => Panic m
      | (_, _, OutOfFuel) => OutOfFuel
      end
  end.

Definition eligibilityOf (vs : list Validator) (idx : Z) : option Z := ActivationEligibilityEpoch <$> vs !! Z.to_nat idx.

(** [sortableIndices.Less] *)
Definition Less (vs : list Validator) (i j : Z) : bool :=
  match eligibilityOf vs i, eligibilityOf vs j with
  | Some a, Some b => if a =? b then i <? j else a <? b
  | _, _ => false
  end.

(** [sort.Sort]: the order is total, so that every sorting algorithm gives this list. *)
Fixpoint insertSorted (vs : list Validator) (i : Z) (l : list Z) : list Z :=
  match l with
  | [] => [i]
  | j :: l' => if Less vs i j then i :: l else j :: insertSorted vs i l'
  end.
Definition sortIndices (vs : list Validator) (l : list Z) : list Z := foldr (insertSorted vs) [] l.

Definition activationLimit (s : Ledger) : Z :=
  let activeValidatorCount := Z.of_nat (length (activeFrom 0 (Validators s) (LedgerEpoch s))) in
  if versionAtLeast Deneb s then ValidatorActivationChurnLimitDeneb activeValidatorCount
  else ValidatorActivationChurnLimit activeValidatorCount.

Definition isEjected (currentEpoch : Z) (v : Validator) : bool :=
  IsActiveValidator v currentEpoch && (EffectiveBalance v <=? EjectionBalance).

Definition ProcessRegistryUpdates (s : Ledger) : outcome Ledger :=
  let currentEpoch := LedgerEpoch s in
  let eligibleForActivationQ := collect (λ v, IsEligibleForActivationQueue v currentEpoch) 0 (Validators s) in
  let eligibleForEjection := collect (isEjected currentEpoch) 0 (Validators s) in
  let eligibleForActivation := collect (IsEligibleForActivation s) 0 (Validators s) in
  s <-? updateAll (withEligibility (currentEpoch +w 1)) eligibleForActivationQ s;;
  s <-? ejectAll (λ s, ExitInformation (registry s)) eligibleForEjection s;;
  let eligibleForActivation := sortIndices (Validators s) eligibleForActivation in
  let limit := Z.min (activationLimit s) (Z.of_nat (length eligibleForActivation)) in
  updateAll (withActivation (ActivationExitEpoch currentEpoch)) (take (Z.to_nat limit) eligibleForActivation) s.

(** [ProcessRegistryUpdates] of the package [electra]. *)
Definition electraProcessRegistryUpdates (s : Ledger) : outcome Ledger :=
  let currentEpoch := LedgerEpoch s in
  let activationEpoch := ActivationExitEpoch currentEpoch in
  let eligibleForActivationQ := collect (λ v, IsEligibleForActivationQueue v currentEpoch) 0 (Validators s) in
  let eligibleForEjection := collect (isEjected currentEpoch) 0 (Validators s) in
  let eligibleForActivation := collect (IsEligibleForActivation s) 0 (Validators s) in
  s <-? updateAll (withEligibility (currentEpoch +w 1)) eligibleForActivationQ s;;
  s <-? ejectAll (λ _, mkExitInfo 0 0 0) eligibleForEjection s;;
  updateAll (withActivation activationEpoch) eligibleForActivation s.

(** ** Slashings *)

Fixpoint sumSlashings (slashings : list Z) (total : Z) : outcome Z :=
  match slashings with
  | [] => Ret total
  | x :: slashings => total <-? Add64 total x;; sumSlashings slashings total
  end.

Definition slashingPenalty (electra : bool) (totalBalance minSlashing penaltyPerIncrement effectiveBalance : Z) : outcome Z :=
  let increment := EffectiveBalanceIncrement in
  if electra then Ret (penaltyPerIncrement *w (effectiveBalance / increment))
  else
    let penaltyNumerator := effectiveBalance / increment *w minSlashing in
    q <-? goDiv penaltyNumerator totalBalance;; Ret (q *w increment).

(** [currentEpoch + exitLength/2 == val.WithdrawableEpoch()] *)
Definition penaltyDue (currentEpoch : Z) (v : Validator) : bool :=
  Slashed v && (currentEpoch +w EpochsPerSlashingsVector / 2 =? WithdrawableEpoch v).

Fixpoint slashingsLoop (electra : bool) (currentEpoch totalBalance minSlashing penaltyPerIncrement : Z) (vs : list Validator) (bals : list Z)
    : outcome (list Z) :=
  match vs, bals with
  | [], bals => Ret bals
  | v :: vs, b :: bals =>
      b <-? (if penaltyDue currentEpoch v
             then p <-? slashingPenalty electra totalBalance minSlashing penaltyPerIncrement (EffectiveBalance v);;
                  Ret (DecreaseBalanceWithVal b p)
             else Ret b);;
      rest <-? slashingsLoop electra currentEpoch totalBalance minSlashing penaltyPerIncrement vs bals;;
      Ret (b :: rest)
  | v :: vs, [] =>
      if penaltyDue currentEpoch v then Panic "index out of range"
      else slashingsLoop electra currentEpoch totalBalance minSlashing penaltyPerIncrement vs []
  end.

Definition ProcessSlashings (s : Ledger) : outcome Ledger :=
  slashingMultiplier <-? omap_err (λ e, wrapErr e "could not get proportional slashing multiplier") (ProportionalSlashingMultiplier s);;
  let totalBalance := TotalActiveBalance (registry s) in
  totalSlashing <-? sumSlashings (Slashings s) 0;;
  let minSlashing := Min (totalSlashing *w slashingMultiplier) totalBalance in
  let electra := versionAtLeast Electra s in
  penaltyPerIncrement <-? (if electra then goDiv minSlashing (totalBalance / EffectiveBalanceIncrement) else Ret 0);;
  bals <-? slashingsLoop electra (LedgerEpoch s) totalBalance minSlashing penaltyPerIncrement (Validators s) (Balances s);;
  Ret (setBalances bals s).

Definition ProcessSlashingsReset (s : Ledger) : outcome Ledger :=
  let nextEpoch := LedgerEpoch s +w 1 in
  let slashedEpoch := nextEpoch mod EpochsPerSlashingsVector in
  if negb (Z.of_nat (length (Slashings s)) =? EpochsPerSlashingsVector) then Err "state slashing length different than EpochsPerHistoricalVector"
  else UpdateSlashingsAtIndex s slashedEpoch 0.

(** ** Effective balances *)

Definition hysteresisInc : Z := EffectiveBalanceIncrement / HysteresisQuotient.
Definition downwardThreshold : Z := hysteresisInc *w HysteresisDownwardMultiplier.
Definition upwardThreshold : Z := hysteresisInc *w HysteresisUpwardMultiplier.

Definition outsideThresholds (balance effective : Z) : bool :=
  (balance +w downwardThreshold <? effective) || (effective +w upwardThreshold <? balance).

(** [ApplyToEveryValidator] with the callback of [ProcessEffectiveBalanceUpdates]; [limitOf]
    is the cap of the validator. *)
Fixpoint effectiveLoop (limitOf : Validator → outcome Z) (vs : list Validator) (bals : list Z) : outcome (list Validator) :=
  match vs, bals with
  | [], _ => Ret []
  | _ :: _, [] => Err "validator index exceeds validator length in state"
  | v :: vs, balance :: bals =>
      limit <-? limitOf v;;
      let v := if outsideThresholds balance (EffectiveBalance v)
               then withEffectiveBalance (Z.min (balance - balance mod EffectiveBalanceIncrement) limit) v else v in
      rest <-? effectiveLoop limitOf vs bals;;
      Ret (v :: rest)
  end.

Definition ProcessEffectiveBalanceUpdates (s : Ledger) : outcome Ledger :=
  vs <-? effectiveLoop (λ _, Ret MaxEffectiveBalance) (Validators s) (Balances s);;
  Ret (setRegistry (setValidators vs (registry s)) s).
Definition electraProcessEffectiveBalanceUpdates (s : Ledger) : outcome Ledger :=
  vs <-? effectiveLoop ValidatorMaxEffectiveBalance (Validators s) (Balances s);;
  Ret (setRegistry (setValidators vs (registry s)) s).

(** ** Participation flags *)

Definition ProcessParticipationFlagUpdates (s : Ledger) : outcome Ledger :=
  if isPhase0 s then Err (errNotSupported "CurrentEpochParticipation")
  else Ret (setCurrentParticipation (replicate (length (Validators s)) 0) (setPreviousParticipation (CurrentEpochParticipation s) s)).

(** ** Slashing a validator *)

(** [proposer] is [helpers.BeaconProposerIndex]. *)
Definition SlashValidator (proposer : Ledger → outcome Z) (s : Ledger) (slashedIdx : Z) (exitInfo : ExitInfo) : outcome (Ledger * ExitInfo) :=
  let '(r, exitInfo, res) := InitiateValidatorExitForTotalBal (registry s) slashedIdx exitInfo (TotalActiveBalanceInfo exitInfo) in
  _ <-? (match res with
         | Err e => if bool_decide (e = ErrValidatorAlreadyExited) then Ret tt else Err (wrapErr e "could not initiate validator exit")
         | res => res
         end);;
  let s := setRegistry r s in
  let currentEpoch := LedgerEpoch s in
  validator <-? ValidatorAt s slashedIdx;;
  let maxWithdrawableEpoch := MaxEpoch (WithdrawableEpoch validator) (currentEpoch +w EpochsPerSlashingsVector) in
  s <-? UpdateValidatorAt s slashedIdx (withSlashed maxWithdrawableEpoch validator);;
  let slashingIdx := currentEpoch mod EpochsPerSlashingsVector in
  match Slashings s !! Z.to_nat slashingIdx with
  | None => Panic "index out of range"
  | Some currentSlashing =>
      s <-? UpdateSlashingsAtIndex s slashingIdx (currentSlashing +w EffectiveBalance validator);;
      ps <-? omap_err (λ e, wrapErr e "could not get slashing parameters per version") (SlashingParamsPerVersion (Version s));;
      let '(slashingQuotient, proposerRewardQuotient, whistleblowerRewardQuotient) := ps in
      penalty <-? omap_err (λ e, wrapErr e "failed to compute slashing slashingPenalty") (Div64 (EffectiveBalance validator) slashingQuotient);;
      s <-? DecreaseBalance s slashedIdx penalty;;
      proposerIdx <-? omap_err (λ e, wrapErr e "could not get proposer idx") (proposer s);;
      whistleblowerReward <-? omap_err (λ e, wrapErr e "failed to compute whistleblowerReward") (Div64 (EffectiveBalance validator) whistleblowerRewardQuotient);;
      proposerReward <-? omap_err (λ e, wrapErr e "failed to compute proposer reward") (Div64 whistleblowerReward proposerRewardQuotient);;
      s <-? IncreaseBalance s proposerIdx proposerReward;;
      s <-? IncreaseBalance s proposerIdx (whistleblowerReward -w proposerReward);;
      Ret (s, exitInfo)
  end.
End updates.
