(* ===== verification/RegistryUpdates.v ===== *)
(** * Correctness of registry updates

    Validators enter the activation queue when they are funded, and leave it in the order in
    which they became eligible, at most as many in an epoch as the churn limit allows. *)

From Stdlib Require Import Sorting.Sorted.
From S2P Require Import Prelude MathHelper Primitives SlotTime Shuffle Committee Justification ExitQueue Ledger Participation Rewards EpochUpdates.

(** ** Collecting indices *)

Lemma collect_spec p vs : ∀ off i, i ∈ collect p off vs ↔ ∃ n v, i = off + Z.of_nat n ∧ vs !! n = Some v ∧ p v = true.
Proof.
  induction vs as [|v vs IH]; intros off i; cbn [collect]; [split; [set_solver|intros (n & v & _ & Hn & _); by rewrite lookup_nil in Hn]|].
  assert (i ∈ collect p (off + 1) vs ↔ ∃ n w, i = off + Z.of_nat (S n) ∧ vs !! n = Some w ∧ p w = true) as Hrest.
  { rewrite IH. split; intros (n & w & -> & Hn & Hw); exists n, w; (split_and!; [lia|done|done]). }
  destruct (p v) eqn:Hp; rewrite ?elem_of_cons, Hrest; split.
  - intros [->|(n & w & -> & Hn & Hw)]; [by exists 0%nat, v; split; [lia|]|by exists (S n), w].
  - intros ([|n] & w & -> & Hn & Hw); [left; lia|right; by exists n, w].
  - intros (n & w & -> & Hn & Hw). by exists (S n), w.
  - intros ([|n] & w & -> & Hn & Hw); [cbn in Hn; congruence|]. by exists n, w.
Qed.
Lemma collect_NoDup p vs : ∀ off, NoDup (collect p off vs).
Proof.
  induction vs as [|v vs IH]; intros off; cbn [collect]; [constructor|]. destruct (p v); [|apply IH]. apply NoDup_cons. split; [|apply IH].
  rewrite collect_spec. intros (n & w & Hoff & _). lia.
Qed.

(** ** Updating validators *)

(** [l] after [f] at the indices [ix]. *)
Definition updatedAt (f : Validator → Validator) (ix : list Z) (vs : list Validator) : list Validator :=
  imap (λ n v, if bool_decide (Z.of_nat n ∈ ix) then f v else v) vs.

Lemma updatedAt_lookup f ix vs n : updatedAt f ix vs !! n = (λ v, if bool_decide (Z.of_nat n ∈ ix) then f v else v) <$> vs !! n.
Proof. unfold updatedAt. by rewrite list_lookup_imap. Qed.
Lemma updatedAt_length f ix vs : length (updatedAt f ix vs) = length vs.
Proof. apply length_imap. Qed.

Section updates.
Context `{LedgerConfig} `{!SquareRoot}.

Definition withRegistry (vs : list Validator) (s : Ledger) : Ledger := setRegistry (setValidators vs (registry s)) s.

Lemma updateAll_run f ix : ∀ s, NoDup ix → (∀ i, i ∈ ix → known s i) → updateAll f ix s = Ret (withRegistry (updatedAt f ix (Validators s)) s).
Proof.
  induction ix as [|i ix IH]; intros s Hnd Hk; cbn [updateAll].
  - f_equal. unfold withRegistry. replace (updatedAt f [] (Validators s)) with (Validators s); [destruct s as [[] ? ? ? ? ? ? ? ? ? ? ? ? ? ? ?]; done|].
    apply list_eq. intros n. rewrite updatedAt_lookup. by destruct (Validators s !! n).
  - apply NoDup_cons in Hnd as [Hni Hnd]. assert (known s i) as Hi by (apply Hk; left). destruct (known_validator s i Hi) as (v & Hv & ->). cbn [obind].
    unfold UpdateValidatorAt, UpdateValidatorAtIndex. pose proof (known_lt _ _ Hi) as Hlt. unfold Validators in Hlt. rewrite (proj2 (Nat.ltb_lt _ _) Hlt). cbn [obind].
    change (setRegistry _ s) with (withRegistry (<[Z.to_nat i := f v]> (Validators s)) s). rewrite IH; [|done|].
    + assert (updatedAt f ix (<[Z.to_nat i := f v]> (Validators s)) = updatedAt f (i :: ix) (Validators s)) as <-; [|done].
      assert (0 ≤ i) as H0' by apply Hi. apply list_eq. intros n. rewrite !updatedAt_lookup. destruct (decide (n = Z.to_nat i)) as [->|Hn].
      * rewrite list_lookup_insert_eq by done. rewrite Hv. cbn [fmap option_fmap option_map]. rewrite !Z2Nat.id by done.
        rewrite bool_decide_eq_false_2 by done. by rewrite bool_decide_eq_true_2 by left.
      * rewrite list_lookup_insert_ne by done. destruct (Validators s !! n); [|done]. cbn [fmap option_fmap option_map].
        erewrite bool_decide_ext; [done|]. rewrite elem_of_cons. split; [by right|intros [?|?]; [lia|done]].
    + intros j Hj. unfold known, NumValidators, Validators in *. cbn. rewrite length_insert. apply Hk. by right.
Qed.

(** ** The activation queue *)

(** The place of validators in the queue: by the epoch of their eligibility, then by index. *)
Definition precedes (vs : list Validator) (i j : Z) : Prop :=
  ∃ a b, eligibilityOf vs i = Some a ∧ eligibilityOf vs j = Some b ∧ (a < b ∨ (a = b ∧ i < j)).

Lemma Less_precedes vs i j : Less vs i j = true ↔ precedes vs i j.
Proof.
  unfold Less, precedes. destruct (eligibilityOf vs i) as [a|]; [|split; [done|naive_solver]]. destruct (eligibilityOf vs j) as [b|]; [|split; [done|naive_solver]].
  destruct (Z.eqb_spec a b) as [->|Hne]; rewrite Z.ltb_lt; naive_solver (lia || auto).
Qed.
Lemma precedes_trans vs i j k : precedes vs i j → precedes vs j k → precedes vs i k.
Proof. intros (a & b & Ha & Hb & ?) (b' & c & Hb' & Hc & ?). simplify_eq. exists a, c. split_and!; [done|done|lia]. Qed.
Lemma precedes_total vs i j : is_Some (eligibilityOf vs i) → is_Some (eligibilityOf vs j) → i ≠ j → precedes vs i j ∨ precedes vs j i.
Proof. intros [a Ha] [b Hb] Hne. unfold precedes. destruct (decide (a < b ∨ (a = b ∧ i < j))); [left; naive_solver|right; exists b, a; split_and!; [done|done|lia]]. Qed.

Lemma insertSorted_perm vs i l : insertSorted vs i l ≡ₚ i :: l.
Proof. induction l as [|j l IH]; [done|]. cbn [insertSorted]. destruct (Less vs i j); [done|]. rewrite IH. apply Permutation_swap. Qed.
Lemma sortIndices_perm vs l : sortIndices vs l ≡ₚ l.
Proof. induction l as [|i l IH]; [done|]. cbn [sortIndices foldr]. rewrite insertSorted_perm. by f_equiv. Qed.

Lemma insertSorted_sorted vs i l :
  i ∉ l → (∀ j, j ∈ i :: l → is_Some (eligibilityOf vs j)) → StronglySorted (precedes vs) l → StronglySorted (precedes vs) (insertSorted vs i l).
Proof.
  induction l as [|j l IH]; intros Hni Hk Hs; cbn [insertSorted]; [by repeat constructor|]. inversion_clear Hs as [|? ? Hs' Hall].
  destruct (Less vs i j) eqn:Hless.
  - apply Less_precedes in Hless. constructor; [by constructor|]. constructor; [done|]. eapply Forall_impl; [exact Hall|]. intros k Hk'. by eapply precedes_trans.
  - assert (precedes vs j i) as Hji.
    { destruct (precedes_total vs i j) as [Hij|?]; [apply Hk; left|apply Hk; set_solver|set_solver| |done]. apply Less_precedes in Hij. congruence. }
    constructor; [apply IH; [set_solver|set_solver|done]|]. rewrite insertSorted_perm. by constructor.
Qed.
Lemma sortIndices_sorted vs l : NoDup l → (∀ j, j ∈ l → is_Some (eligibilityOf vs j)) → StronglySorted (precedes vs) (sortIndices vs l).
Proof.
  induction l as [|i l IH]; intros Hnd Hk; [constructor|]. apply NoDup_cons in Hnd as [Hni Hnd]. cbn [sortIndices foldr]. fold (sortIndices vs l).
  apply insertSorted_sorted; [by rewrite sortIndices_perm|intros j; rewrite sortIndices_perm; apply Hk|]. apply IH; [done|set_solver].
Qed.

Lemma elem_take (l : list Z) n i : i ∈ take n l → i ∈ l.
Proof. intros Hi. rewrite <- (take_drop n l). apply elem_of_app. by left. Qed.

(** The first [n] of a sorted queue come before the others. *)
Lemma take_first (R : Z → Z → Prop) l n i j : StronglySorted R l → i ∈ take n l → j ∈ l → j ∉ take n l → R i j.
Proof.
  intros Hs Hi Hj Hnj. rewrite <- (take_drop n l) in Hs, Hj. apply elem_of_app in Hj as [?|Hj]; [done|]. clear Hnj.
  induction (take n l) as [|k t IH]; [by apply elem_of_nil in Hi|]. cbn in Hs. inversion_clear Hs as [|? ? Hs' Hall].
  apply elem_of_cons in Hi as [->|Hi]; [|by apply IH]. rewrite Forall_forall in Hall. apply Hall, elem_of_app. by right.
Qed.

(** ** Ejections *)

(** Only exits of validators in [l] changed. *)
Record ejected (l : list Z) (s s' : Ledger) : Prop := {
  ej_slot : LedgerSlot s' = LedgerSlot s;
  ej_version : Version s' = Version s;
  ej_length : length (Validators s') = length (Validators s);
  ej_validators : ∀ n v, Validators s !! n = Some v → ∃ v', Validators s' !! n = Some v' ∧ (Z.of_nat n ∉ l → v' = v) ∧ ∃ e w, v' = withExit e w v
}.

Lemma withExit_id v : withExit (ExitEpoch v) (WithdrawableEpoch v) v = v.
Proof. by destruct v. Qed.

Lemma ejected_refl l s : ejected l s s.
Proof. split; try done. intros n v Hv. exists v. split_and!; [done|done|]. exists (ExitEpoch v), (WithdrawableEpoch v). by rewrite withExit_id. Qed.
Lemma ejected_trans l s s1 s2 : ejected l s s1 → ejected l s1 s2 → ejected l s s2.
Proof.
  intros [A1 A2 A3 A4] [B1 B2 B3 B4]. split; [congruence..|]. intros n v Hv. destruct (A4 n v Hv) as (v1 & Hv1 & Hn1 & e1 & w1 & E1).
  destruct (B4 n v1 Hv1) as (v2 & Hv2 & Hn2 & e2 & w2 & E2). exists v2. split_and!; [done|intros Hni; rewrite Hn2, Hn1; done|]. exists e2, w2. by rewrite E2, E1.
Qed.
Lemma ejected_mono l l' s s' : (∀ i, i ∈ l → i ∈ l') → ejected l s s' → ejected l' s s'.
Proof. intros Hl [A1 A2 A3 A4]. split; [done..|]. intros n v Hv. destruct (A4 n v Hv) as (v' & ? & Hn & ?). exists v'. split_and!; [done| |done]. intros Hni. apply Hn. naive_solver. Qed.

Lemma exit_ejected s r i : 0 ≤ i → exit_effect (registry s) r i → ejected [i] s (setRegistry r s).
Proof.
  intros Hi (Hs & Hv & Hcase). split; [done|done| |].
  - unfold Validators. cbn [setRegistry registry]. destruct Hcase as [->|(v & e & w & _ & ->)]; [done|by rewrite length_insert].
  - intros n v Hn. unfold Validators in *. cbn [setRegistry registry]. destruct Hcase as [->|(v0 & e & w & Hv0 & ->)].
    + destruct (ej_validators _ _ _ (ejected_refl [i] s) n v Hn) as (v' & Hv' & Hrest). unfold Validators in Hv'. assert (v' = v) as -> by congruence. exists v. done.
    + destruct (decide (n = Z.to_nat i)) as [->|Hne].
      * assert (v0 = v) as -> by congruence. rewrite list_lookup_insert_eq by (by eapply lookup_lt_Some). exists (withExit e w v). split_and!; [done| |by exists e, w].
        rewrite Z2Nat.id by done. intros Hni. by destruct Hni; apply list_elem_of_singleton.
      * rewrite list_lookup_insert_ne by done. exists v. split_and!; [done|done|]. exists (ExitEpoch v), (WithdrawableEpoch v). by rewrite withExit_id.
Qed.

Lemma ejectAll_ejected info l : ∀ s s', (∀ i, i ∈ l → 0 ≤ i) → ejectAll info l s = Ret s' → ejected l s s'.
Proof.
  induction l as [|i l IH]; intros s s' Hpos Hr; [injection Hr as <-; apply ejected_refl|]. cbn [ejectAll] in Hr.
  pose proof (InitiateExit_effect (registry s) i (info s)) as He. destruct (InitiateValidatorExit _ _ _) as [[r info'] res]. cbn [fst] in He.
  assert (ejectAll info l (setRegistry r s) = Ret s') as Hr' by (destruct res; [done|by destruct (bool_decide _)|done..]).
  eapply ejected_trans; [apply (ejected_mono [i]); [set_solver|apply exit_ejected; [apply Hpos; left|done]]|].
  eapply (ejected_mono l); [set_solver|]. apply IH; [set_solver|done].
Qed.

(** ** Registry updates *)

(** Validator [i] waits for its activation. *)
Definition waiting (s : Ledger) (i : Z) : Prop := ∃ n v, i = Z.of_nat n ∧ Validators s !! n = Some v ∧ IsEligibleForActivation s v = true.

Lemma waiting_collect s i : i ∈ collect (IsEligibleForActivation s) 0 (Validators s) ↔ waiting s i.
Proof. rewrite collect_spec. unfold waiting. naive_solver. Qed.

(** The validator after entering the queue. *)
Definition queued (epoch : Z) (v : Validator) : Validator := if IsEligibleForActivationQueue v epoch then withEligibility (epoch +w 1) v else v.

Lemma collect_known p s i : i ∈ collect p 0 (Validators s) → known s i.
Proof. rewrite collect_spec. intros (n & v & -> & Hn & _). apply lookup_lt_Some in Hn. unfold known, NumValidators. lia. Qed.

Lemma queue_run epoch s s1 :
  updateAll (withEligibility (epoch +w 1)) (collect (λ v, IsEligibleForActivationQueue v epoch) 0 (Validators s)) s = Ret s1 →
  s1 = withRegistry (map (queued epoch) (Validators s)) s.
Proof.
  rewrite updateAll_run; [|apply collect_NoDup|intros i; apply collect_known]. intros [= <-]. f_equal. apply list_eq. intros n. rewrite updatedAt_lookup.
  rewrite list_lookup_fmap. destruct (Validators s !! n) as [v|] eqn:Hn; [|done]. cbn [fmap option_fmap option_map]. f_equal. unfold queued.
  case_bool_decide as Hin; rewrite collect_spec in Hin.
  - destruct Hin as (m & w & Hm & Hw & Hq). assert (m = n) as -> by lia. assert (w = v) as -> by congruence. by rewrite Hq.
  - destruct (IsEligibleForActivationQueue v epoch) eqn:Hq; [|done]. destruct Hin. exists n, v. split_and!; [lia|done|done].
Qed.

(** A validator that waits entered the queue before, so that entering does not move it. *)
Lemma waiting_not_queued s v epoch : FinalizedEpoch s < FarFutureEpoch → IsEligibleForActivation s v = true → queued epoch v = v.
Proof.
  intros Hf Hw. unfold queued. replace (IsEligibleForActivationQueue v epoch) with false; [done|]. symmetry. unfold IsEligibleForActivation, isEligibleForActivation in Hw. bprop.
  unfold IsEligibleForActivationQueue, isEligibleForActivationQueueElectra, isEligibleForActivationQueue. rewrite (proj2 (Z.eqb_neq (ActivationEligibilityEpoch v) FarFutureEpoch)) by lia.
  by case_match.
Qed.

Lemma waiting_eligibility s mid i :
  FinalizedEpoch s < FarFutureEpoch → (∀ n v, Validators s !! n = Some v → ∃ e w, Validators mid !! n = Some (withExit e w (queued (LedgerEpoch s) v))) →
  waiting s i → is_Some (eligibilityOf (Validators s) i) ∧ eligibilityOf (Validators mid) i = eligibilityOf (Validators s) i.
Proof.
  intros Hf Hmid (n & v & -> & Hn & Hw). unfold eligibilityOf. rewrite Nat2Z.id, Hn. split; [done|]. destruct (Hmid n v Hn) as (e & w & ->).
  by rewrite (waiting_not_queued s v) by done.
Qed.

(** C16. Validators join and leave the activation queue in order.  A funded validator that is
    not in the queue gets the next epoch as its eligibility; a validator below the ejection
    balance may only get an exit; and of those that wait, whose eligibility is finalized,
    the first by eligibility and index are activated for the same future epoch, as many as
    the churn limit allows: nobody who waits is overtaken, and if somebody is left over
    then the limit was used up.  Nothing else changes, and unless somebody has to be
    ejected the update cannot fail. *)
Theorem registry_updates_fair s :
  FinalizedEpoch s < FarFutureEpoch →
  ((∀ v, v ∈ Validators s → isEjected (LedgerEpoch s) v = false) → ∃ s', ProcessRegistryUpdates s = Ret s') ∧
  ∀ s', ProcessRegistryUpdates s = Ret s' → ∃ mid activated,
    (LedgerSlot mid = LedgerSlot s ∧ Version mid = Version s) ∧
    (∀ n v, Validators s !! n = Some v → ∃ e w, Validators mid !! n = Some (withExit e w (queued (LedgerEpoch s) v)) ∧
      (isEjected (LedgerEpoch s) v = false → e = ExitEpoch v ∧ w = WithdrawableEpoch v)) ∧
    Validators s' = updatedAt (withActivation (ActivationExitEpoch (LedgerEpoch s))) activated (Validators mid) ∧
    (∀ i, i ∈ activated → waiting s i) ∧ NoDup activated ∧
    length activated = Z.to_nat (Z.min (activationLimit mid) (Z.of_nat (length (collect (IsEligibleForActivation s) 0 (Validators s))))) ∧
    (∀ i j, i ∈ activated → waiting s j → j ∉ activated → precedes (Validators s) i j).
Proof.
  intros Hf. split.
  - intros Hno. unfold ProcessRegistryUpdates. rewrite updateAll_run; [|apply collect_NoDup|intros i; apply collect_known]. cbn [obind].
    replace (collect (isEjected (LedgerEpoch s)) 0 (Validators s)) with (@nil Z).
    + cbn [ejectAll obind]. eexists. apply updateAll_run.
      * eapply sublist_NoDup; [|apply sublist_take]. rewrite sortIndices_perm. apply collect_NoDup.
      * intros i Hi. apply elem_take in Hi. rewrite sortIndices_perm in Hi. apply collect_known in Hi.
        unfold known, NumValidators, withRegistry, Validators in *. cbn. rewrite updatedAt_length. exact Hi.
    + destruct (collect _ _ _) as [|i l] eqn:E; [done|]. assert (i ∈ collect (isEjected (LedgerEpoch s)) 0 (Validators s)) as Hi by (rewrite E; left).
      apply collect_spec in Hi as (n & v & _ & Hn & He). rewrite Hno in He; [done|]. by eapply list_elem_of_lookup_2.
  - intros s' (s1 & Hs1%queue_run & (mid & Hmid & Hs')%obind_ret)%obind_ret. apply ejectAll_ejected in Hmid; [|intros i Hi%collect_known; apply Hi].
    destruct Hmid as [M1 M2 M3 M4]. subst s1.
    assert (∀ n v, Validators s !! n = Some v → ∃ e w, Validators mid !! n = Some (withExit e w (queued (LedgerEpoch s) v)) ∧
      (isEjected (LedgerEpoch s) v = false → e = ExitEpoch v ∧ w = WithdrawableEpoch v)) as Hmid.
    { intros n v Hn. destruct (M4 n (queued (LedgerEpoch s) v)) as (v' & Hv' & Hkeep & e & w & ->); [unfold withRegistry, Validators in *; cbn; by rewrite list_lookup_fmap, Hn|].
      destruct (isEjected (LedgerEpoch s) v) eqn:Hej; [by exists e, w|]. exists (ExitEpoch v), (WithdrawableEpoch v). split; [|done]. rewrite Hv', Hkeep.
      - unfold queued. case_match; by rewrite <- (withExit_id v) at 1.
      - rewrite collect_spec. intros (m & w' & Hm & Hw' & He). assert (m = n) as -> by lia. congruence. }
    assert (∀ i, i ∈ collect (IsEligibleForActivation s) 0 (Validators s) → is_Some (eligibilityOf (Validators s) i) ∧ eligibilityOf (Validators mid) i = eligibilityOf (Validators s) i) as Hel.
    { intros i Hi%waiting_collect. eapply waiting_eligibility; [done| |done]. intros n v Hn. destruct (Hmid n v Hn) as (e & w & ? & _). by exists e, w. }
    set (queue := sortIndices (Validators mid) (collect (IsEligibleForActivation s) 0 (Validators s))) in *.
    assert (∀ i, i ∈ queue ↔ waiting s i) as Hq by (intros i; unfold queue; rewrite sortIndices_perm; apply waiting_collect).
    assert (StronglySorted (precedes (Validators mid)) queue) as Hsort.
    { apply sortIndices_sorted; [apply collect_NoDup|]. intros i Hi. destruct (Hel i Hi) as [? ->]. done. }
    exists mid, (take (Z.to_nat (Z.min (activationLimit mid) (Z.of_nat (length queue)))) queue). split_and!; [done|done|exact Hmid| | | | |].
    + rewrite updateAll_run in Hs'; [by injection Hs' as <-| |].
      * eapply sublist_NoDup; [|apply sublist_take]. unfold queue. rewrite sortIndices_perm. apply collect_NoDup.
      * intros i Hi%elem_take. unfold queue in Hi. rewrite sortIndices_perm in Hi. apply collect_known in Hi. unfold known, NumValidators, withRegistry, Validators in *.
        cbn in M3. rewrite length_map in M3. by rewrite M3.
    + intros i Hi. by apply Hq, (elem_take _ _ _ Hi).
    + eapply sublist_NoDup; [|apply sublist_take]. unfold queue. rewrite sortIndices_perm. apply collect_NoDup.
    + rewrite length_take, <- (Permutation_length (sortIndices_perm (Validators mid) (collect (IsEligibleForActivation s) 0 (Validators s)))). fold queue. lia.
    + intros i j Hi Hj Hnj. assert (precedes (Validators mid) i j) as (a & b & Ha & Hb & Hab) by (eapply take_first; [done|done|by apply Hq|done]).
      assert (i ∈ queue) as Hi' by apply (elem_take _ _ _ Hi).
      exists a, b. split_and!; [|  |done]; [rewrite <- Ha|rewrite <- Hb]; symmetry; apply Hel; apply waiting_collect; [by apply Hq|done].
Qed.
End updates.

(** ** A sample *)

(** Two validators wait, the second one for longer; the third one enters the queue. *)
Definition newValidator (eligibility : Z) : Validator :=
  mkValidator 32000000000 false eligibility maxUint64 maxUint64 maxUint64 (replicate 48 eligibility) (replicate 32 1).
Definition waitingLedger : Ledger :=
  setRegistry (mkExitState [newValidator 97; newValidator 95; newValidator maxUint64] 3231 Deneb 0 0 0 0) sampleLedger.

Lemma registry_updates_fair_witness :
  ∃ s', ProcessRegistryUpdates (H0 := mainnetLedgerConfig) waitingLedger = Ret s' ∧ map ActivationEpoch (Validators s') = [105; 105; maxUint64] ∧
    ∃ activated : list Z, ∀ i j, i ∈ activated → waiting (H := mainnetBeaconConfig) waitingLedger j → j ∉ activated → precedes (Validators waitingLedger) i j.
Proof.
  destruct (registry_updates_fair (H0 := mainnetLedgerConfig) waitingLedger) as [Hrun Hfair]; [reflexivity|]. destruct Hrun as [s' Hs'].
  { intros v Hv. repeat (apply elem_of_cons in Hv as [->|Hv]; [by vm_compute|]). by apply elem_of_nil in Hv. }
  exists s'. split; [exact Hs'|]. split.
  - assert ((r <-? ProcessRegistryUpdates (H0 := mainnetLedgerConfig) waitingLedger;; Ret (map ActivationEpoch (Validators r))) = Ret [105; 105; maxUint64]) as Hb
      by (vm_compute; reflexivity).
    rewrite Hs' in Hb. by injection Hb.
  - destruct (Hfair s' Hs') as (mid & activated & _ & _ & _ & _ & _ & _ & Hord). exists activated. exact Hord.
Defined.
