(* ===== verification/BalanceUpdates.v ===== *)
(** * Correctness of effective balances and slashing penalties

    Effective balances follow balances with a hysteresis: they stay multiples of the
    increment within the validator's cap, and a second update changes nothing.  The
    penalty for a correlated slashing never exceeds the effective balance. *)

From S2P Require Import Prelude MathHelper Primitives SlotTime Shuffle Committee Justification ExitQueue Ledger Participation Rewards EpochUpdates.

Section effective.
Context `{LedgerConfig}.

(** ** The thresholds *)

Lemma thresholds_run :
  0 ≤ downwardThreshold ≤ EffectiveBalanceIncrement ∧ EffectiveBalanceIncrement ≤ upwardThreshold ≤ 16 * EffectiveBalanceIncrement.
Proof.
  pose proof hysteresis_range as (Hq & Hd & Hu & Hi). pose proof hysteresis_divides as Hm. unfold downwardThreshold, upwardThreshold, hysteresisInc.
  apply Z.mod_divide in Hm as [k Hk]; [|lia]. rewrite Hk, Z.div_mul by lia. assert (0 < k) by nia. unfold two32 in *.
  assert (0 ≤ k * HysteresisDownwardMultiplier ≤ k * HysteresisQuotient) by nia. assert (k * HysteresisQuotient ≤ k * HysteresisUpwardMultiplier ≤ 16 * (k * HysteresisQuotient)) by nia.
  rewrite !wrap64_small by (unfold is_u64, two64; nia). lia.
Qed.

Definition target (cap balance : Z) : Z := Z.min (balance - balance mod EffectiveBalanceIncrement) cap.

(** The new effective balance of one validator. *)
Definition newEffective (cap balance effective : Z) : Z := if outsideThresholds balance effective then target cap balance else effective.

(** What holds of an effective balance. *)
Record effective_ok (cap effective : Z) : Prop := {
  eo_range : 0 ≤ effective ≤ cap;
  eo_multiple : effective mod EffectiveBalanceIncrement = 0
}.

(** The effective balance follows the balance. *)
Record follows (cap balance effective : Z) : Prop := {
  fo_low : effective ≤ balance + downwardThreshold;
  fo_high : effective = cap ∨ balance ≤ effective + upwardThreshold
}.

Lemma outside_run balance effective :
  0 ≤ balance < two63 → 0 ≤ effective < two63 →
  outsideThresholds balance effective = (balance + downwardThreshold <? effective) || (effective + upwardThreshold <? balance).
Proof.
  intros Hb He. pose proof thresholds_run. pose proof hysteresis_range as (_ & _ & _ & Hi). unfold outsideThresholds, two32, two63 in *.
  rewrite !wrap64_small by (unfold is_u64, two64; lia). done.
Qed.

Lemma target_ok cap balance :
  0 ≤ balance → 0 ≤ cap → cap mod EffectiveBalanceIncrement = 0 → effective_ok cap (target cap balance) ∧ follows cap balance (target cap balance).
Proof.
  intros Hb Hc Hm. pose proof EffectiveBalanceIncrement_range as Hi. pose proof thresholds_run as Ht.
  assert (0 < EffectiveBalanceIncrement) as Hpos by lia. pose proof (Z.mod_pos_bound balance _ Hpos) as Hbm. pose proof (Z.mod_le balance _ Hb Hpos).
  assert ((balance - balance mod EffectiveBalanceIncrement) mod EffectiveBalanceIncrement = 0) as Hz.
  { rewrite Zminus_mod_idemp_r, Z.sub_diag. by apply Z.mod_0_l; lia. }
  unfold target. split; split; [lia| |lia|lia]. destruct (Z.min_spec (balance - balance mod EffectiveBalanceIncrement) cap) as [[_ ->]|[_ ->]]; done.
Qed.

Lemma newEffective_ok cap balance effective :
  0 ≤ balance < two63 → effective < two63 → 0 ≤ cap → cap mod EffectiveBalanceIncrement = 0 → effective_ok cap effective →
  effective_ok cap (newEffective cap balance effective) ∧ follows cap balance (newEffective cap balance effective).
Proof.
  intros Hb He Hc Hm Hok. unfold newEffective. destruct (outsideThresholds balance effective) eqn:E; [by apply target_ok; [lia|..]|].
  split; [done|]. rewrite outside_run in E by (done || (destruct Hok; lia)). bprop. split; [lia|right; lia].
Qed.

Lemma newEffective_again cap balance effective :
  newEffective cap balance (newEffective cap balance effective) = newEffective cap balance effective.
Proof. unfold newEffective. destruct (outsideThresholds balance effective) eqn:E; [by case_if|by rewrite E]. Qed.

(** ** All validators *)

Definition updated (limitOf : Validator → Z) (v : Validator) (b : Z) : Validator :=
  withEffectiveBalance (newEffective (limitOf v) b (EffectiveBalance v)) v.

Lemma updated_same v : withEffectiveBalance (EffectiveBalance v) v = v.
Proof. by destruct v. Qed.

Lemma effectiveLoop_run f g vs : ∀ bs,
  length bs = length vs → (∀ v, v ∈ vs → f v = Ret (g v)) → effectiveLoop f vs bs = Ret (zip_with (updated g) vs bs).
Proof.
  induction vs as [|v vs IH]; intros [|b bs] Hl Hf; [done..|]. cbn [effectiveLoop zip_with]. rewrite Hf by set_solver. cbn [obind].
  rewrite IH; [|by injection Hl|set_solver]. cbn [obind]. do 2 f_equal. unfold updated, newEffective, target.
  destruct (outsideThresholds b (EffectiveBalance v)); [done|]. by rewrite updated_same.
Qed.

(** The caps do not read the effective balance. *)
Definition independent (g : Validator → Z) : Prop := ∀ v e, g (withEffectiveBalance e v) = g v.

Lemma updated_again g v b : independent g → updated g (updated g v b) b = updated g v b.
Proof. intros Hg. unfold updated. rewrite Hg. cbn [EffectiveBalance withEffectiveBalance]. by rewrite newEffective_again. Qed.

Lemma zip_again g vs : ∀ bs, independent g → zip_with (updated g) (zip_with (updated g) vs bs) bs = zip_with (updated g) vs bs.
Proof. induction vs as [|v vs IH]; intros [|b bs] Hg; [done..|]. cbn. by rewrite updated_again, IH. Qed.

Record effective_ready (s : Ledger) (limitOf : Validator → Z) : Prop := {
  er_ledger : ledger_ok s;
  er_balances : Forall (λ b, b < two63) (Balances s);
  er_effective : Forall (λ v, effective_ok (limitOf v) (EffectiveBalance v)) (Validators s)
}.

(** [s'] is [s] with the effective balances updated. *)
Record effective_updated (s s' : Ledger) (limitOf : Validator → Z) : Prop := {
  eu_balances : Balances s' = Balances s;
  eu_validators : ∀ i v b, Validators s !! i = Some v → Balances s !! i = Some b →
    ∃ e, Validators s' !! i = Some (withEffectiveBalance e v) ∧ effective_ok (limitOf v) e ∧ follows (limitOf v) b e ∧
      (follows (limitOf v) b (EffectiveBalance v) → EffectiveBalance v < limitOf v → e = EffectiveBalance v)
}.

Definition withValidators (vs : list Validator) (s : Ledger) : Ledger := setRegistry (setValidators vs (registry s)) s.

Lemma effective_run f g s :
  (∀ v, length (ValWithdrawalCredentials v) = 32%nat → f v = Ret (g v)) → ledger_ok s →
  (vs <-? effectiveLoop f (Validators s) (Balances s);; Ret (withValidators vs s)) = Ret (withValidators (zip_with (updated g) (Validators s) (Balances s)) s).
Proof.
  intros Hf Hok. rewrite (effectiveLoop_run f g); [done|apply Hok|]. intros v Hv. apply Hf. pose proof (lo_creds _ Hok) as Hc. rewrite Forall_forall in Hc. by apply Hc.
Qed.

Lemma updated_ok s g vs :
  (∀ v, 0 ≤ g v < two63 ∧ g v mod EffectiveBalanceIncrement = 0) → effective_ready s g → vs = zip_with (updated g) (Validators s) (Balances s) →
  effective_updated s (withValidators vs s) g.
Proof.
  intros Hg [Hok Hb He] ->. split; [done|]. intros i v b Hv Hi.
  pose proof (Forall_lookup_1 _ _ _ _ He Hv) as Hev. pose proof (Forall_lookup_1 _ _ _ _ (lo_amounts _ Hok) Hi) as Hub. pose proof (Forall_lookup_1 _ _ _ _ Hb Hi) as Hlt.
  destruct (Hg v) as [Hc Hm]. cbn beta in *. unfold is_u64 in Hub. pose proof (eo_range _ _ Hev) as Hr.
  exists (newEffective (g v) b (EffectiveBalance v)). split.
  { change (Validators (withValidators _ s)) with (zip_with (updated g) (Validators s) (Balances s)). by apply lookup_zip_with_Some; eauto. }
  destruct (newEffective_ok (g v) b (EffectiveBalance v)) as [Hok' Hf']; [lia|lia|lia|done|done|]. split_and!; [done|done|].
  intros [Hlo Hhi] Hlt'. unfold newEffective. rewrite outside_run by lia. rewrite (proj2 (Z.ltb_ge _ _)) by lia. by rewrite (proj2 (Z.ltb_ge _ _)) by lia.
Qed.

Lemma again_same g s :
  independent g → let s' := withValidators (zip_with (updated g) (Validators s) (Balances s)) s in
  withValidators (zip_with (updated g) (Validators s') (Balances s')) s' = s'.
Proof.
  intros Hg s'. change (Validators s') with (zip_with (updated g) (Validators s) (Balances s)). change (Balances s') with (Balances s). by rewrite zip_again.
Qed.

Lemma withValidators_ok s g :
  ledger_ok s → ledger_ok (withValidators (zip_with (updated g) (Validators s) (Balances s)) s).
Proof.
  intros [Hl Ha Hc Hs]. assert (length (zip_with (updated g) (Validators s) (Balances s)) = length (Validators s)) as Hlen by (rewrite length_zip_with; lia).
  split; [|done| |].
  - change (Validators (withValidators _ s)) with (zip_with (updated g) (Validators s) (Balances s)). by rewrite Hlen.
  - change (Validators (withValidators _ s)) with (zip_with (updated g) (Validators s) (Balances s)). apply Forall_forall. intros x Hx.
    apply elem_of_lookup_zip_with in Hx as (i & v & b & -> & Hv & _). exact (Forall_lookup_1 _ _ _ _ Hc Hv).
  - unfold NumValidators in *. change (Validators (withValidators _ s)) with (zip_with (updated g) (Validators s) (Balances s)). by rewrite Hlen.
Qed.

(** The update with caps [g], as [f] computes them. *)
Lemma update_correct f g s process :
  (∀ s, process s = (vs <-? effectiveLoop f (Validators s) (Balances s);; Ret (withValidators vs s))) →
  (∀ v, length (ValWithdrawalCredentials v) = 32%nat → f v = Ret (g v)) → (∀ v, 0 ≤ g v < two63 ∧ g v mod EffectiveBalanceIncrement = 0) → independent g →
  effective_ready s g → ∃ s', process s = Ret s' ∧ effective_updated s s' g ∧ process s' = Ret s'.
Proof.
  intros Hp Hf Hg Hi Hs. pose proof (er_ledger _ _ Hs) as Hok. rewrite Hp, (effective_run f g) by done. eexists. split_and!; [done|by apply updated_ok|].
  rewrite Hp, (effective_run f g) by (done || by apply withValidators_ok). by rewrite again_same.
Qed.

(** C18. Effective balances: on a state with consistent lists both versions of the update
    succeed.  Every effective balance stays a multiple of the increment within the
    validator's cap, ends at most the downward threshold above the balance and, below the
    cap, at most the upward threshold beneath it, and does not move when it was already
    there.  Updating again changes nothing. *)
Theorem effective_balances_correct s :
  (effective_ready s (λ _, MaxEffectiveBalance) →
   ∃ s', ProcessEffectiveBalanceUpdates s = Ret s' ∧ effective_updated s s' (λ _, MaxEffectiveBalance) ∧ ProcessEffectiveBalanceUpdates s' = Ret s') ∧
  (effective_ready s capOf →
   ∃ s', electraProcessEffectiveBalanceUpdates s = Ret s' ∧ effective_updated s s' capOf ∧ electraProcessEffectiveBalanceUpdates s' = Ret s').
Proof.
  pose proof balances_range as Hb. pose proof hysteresis_range as (_ & _ & _ & Hi). unfold two32 in Hi. split; intros Hs.
  - apply (update_correct (λ _, Ret MaxEffectiveBalance) (λ _, MaxEffectiveBalance)); [done|done| |done|done]. intros v. unfold two63. split; lia.
  - apply (update_correct ValidatorMaxEffectiveBalance capOf); [done|apply MaxEffectiveBalance_run| |done|done]. intros v.
    pose proof (capOf_range v). pose proof (capOf_multiple v). unfold two63. split; lia.
Qed.
End effective.

Lemma effective_balances_correct_witness :
  ∃ s', @electraProcessEffectiveBalanceUpdates _ mainnetLedgerConfig sampleLedger = Ret s' ∧
    map EffectiveBalance (Validators s') = [32000000000; 31000000000; 64000000000; 32000000000].
Proof.
  destruct (proj2 (@effective_balances_correct _ mainnetLedgerConfig sampleLedger)) as (s' & Hrun & _ & _).
  { split; [exact sampleLedger_ok|repeat constructor; by compute|]. repeat (apply Forall_cons; split; [split; by vm_compute|]). apply Forall_nil. done. }
  exists s'. split; [exact Hrun|].
  assert ((r <-? @electraProcessEffectiveBalanceUpdates _ mainnetLedgerConfig sampleLedger;; Ret (map EffectiveBalance (Validators r))) =
          Ret [32000000000; 31000000000; 64000000000; 32000000000]) as Hb by (vm_compute; reflexivity).
  rewrite Hrun in Hb. by injection Hb.
Defined.

(** * Correctness of slashing penalties

    The penalty for correlated slashings is computed without overflow, hits exactly the
    validators half way to their withdrawal, and never exceeds the effective balance. *)

Section penalties.
Context `{LedgerConfig}.

(** The active balance, with unbounded integers. *)
Definition activeSum (epoch : Z) (vs : list Validator) : Z := Zsum (map (λ v, if IsActiveValidator v epoch then EffectiveBalance v else 0) vs).
Definition totalOf (s : Ledger) : Z := Z.max EffectiveBalanceIncrement (activeSum (LedgerEpoch s) (Validators s)).

(** The multiplier of the fork. *)
Definition multiplierOf (s : Ledger) : Z :=
  if versionAtLeast Bellatrix s then ProportionalSlashingMultiplierBellatrix
  else if versionAtLeast Altair s then ProportionalSlashingMultiplierAltair else ProportionalSlashingMultiplier0.

(** [min(sum(slashings) * multiplier, total_balance)] *)
Definition adjusted (s : Ledger) : Z := Z.min (Zsum (Slashings s) * multiplierOf s) (totalOf s).

(** The penalty of the specification. *)
Definition penaltyOf (s : Ledger) (v : Validator) : Z :=
  let increments := EffectiveBalance v / EffectiveBalanceIncrement in
  if versionAtLeast Electra s then adjusted s / (totalOf s / EffectiveBalanceIncrement) * increments
  else increments * adjusted s / totalOf s * EffectiveBalanceIncrement.

Record slashings_ready (s : Ledger) : Prop := {
  sr_ledger : ledger_ok s;
  sr_effective : Forall (λ v, effective_ok MaxEffectiveBalanceElectra (EffectiveBalance v)) (Validators s);
  sr_total : Zsum (map EffectiveBalance (Validators s)) < two64;
  sr_slashings : Forall (λ x, 0 ≤ x) (Slashings s) ∧ Zsum (Slashings s) * 16 < two64;
  sr_old : versionAtLeast Electra s = false → Forall (λ v, EffectiveBalance v / EffectiveBalanceIncrement * totalOf s < two64) (Validators s)
}.

Lemma activeSum_le epoch vs : Forall (λ v, 0 ≤ EffectiveBalance v) vs → 0 ≤ activeSum epoch vs ≤ Zsum (map EffectiveBalance vs).
Proof. unfold activeSum. induction 1 as [|v vs Hv _ IH]; cbn; [lia|]. destruct (IsActiveValidator v epoch); lia. Qed.

Lemma sumActive_run epoch vs : ∀ t,
  Forall (λ v, 0 ≤ EffectiveBalance v) vs → 0 ≤ t → t + activeSum epoch vs < two64 → sumActiveBalance vs epoch t = t + activeSum epoch vs.
Proof.
  induction vs as [|v vs IH]; intros t Hvs Ht Hlt; [unfold activeSum; cbn; lia|].
  apply Forall_cons in Hvs as [Hv Hvs]. pose proof (activeSum_le epoch vs Hvs). unfold activeSum in *. cbn [map Zsum sumActiveBalance] in *.
  destruct (IsActiveValidator v epoch); [|rewrite IH by (done || lia); lia]. rewrite wrap64_small by (unfold is_u64; lia). rewrite IH by (done || lia). lia.
Qed.

Lemma activeSum_multiple epoch vs : Forall (λ v, EffectiveBalance v mod EffectiveBalanceIncrement = 0) vs → activeSum epoch vs mod EffectiveBalanceIncrement = 0.
Proof.
  pose proof EffectiveBalanceIncrement_range. unfold activeSum. induction 1 as [|v vs Hv _ IH]; [apply Z.mod_0_l; lia|]. cbn [map Zsum].
  rewrite <- Zplus_mod_idemp_r, IH, Z.add_0_r. destruct (IsActiveValidator v epoch); [done|apply Z.mod_0_l; lia].
Qed.

Lemma total_run s : slashings_ready s →
  TotalActiveBalance (registry s) = totalOf s ∧ EffectiveBalanceIncrement ≤ totalOf s < two64 ∧ totalOf s mod EffectiveBalanceIncrement = 0.
Proof.
  intros [_ He Ht _ _]. pose proof EffectiveBalanceIncrement_range.
  assert (Forall (λ v, 0 ≤ EffectiveBalance v) (Validators s)) as Hnn by (eapply Forall_impl; [exact He|]; intros v [? _]; lia).
  pose proof (activeSum_le (LedgerEpoch s) _ Hnn) as Hle. unfold totalOf. split_and!; [|lia|lia|].
  - unfold TotalActiveBalance. f_equal. change (sumActiveBalance (Validators s) (LedgerEpoch s) 0 = activeSum (LedgerEpoch s) (Validators s)).
    rewrite sumActive_run by (done || lia). lia.
  - assert (activeSum (LedgerEpoch s) (Validators s) mod EffectiveBalanceIncrement = 0) as Hm
      by (apply activeSum_multiple; eapply Forall_impl; [exact He|]; by intros v [_ ?]).
    destruct (Z.max_spec EffectiveBalanceIncrement (activeSum (LedgerEpoch s) (Validators s))) as [[_ ->]|[_ ->]]; [done|apply Z.mod_same; lia].
Qed.

Lemma sumSlashings_run l : ∀ t, Forall (λ x, 0 ≤ x) l → 0 ≤ t → t + Zsum l < two64 → sumSlashings l t = Ret (t + Zsum l).
Proof.
  induction l as [|x l IH]; intros t Hl Ht Hlt; cbn [sumSlashings Zsum] in *; [f_equal; lia|]. apply Forall_cons in Hl as [Hx Hl]. pose proof (Zsum_nonneg l Hl).
  rewrite Add64_spec by (unfold is_u64; lia). rewrite (proj2 (Z.ltb_lt _ _)) by lia. cbn [obind]. rewrite IH by (done || lia). f_equal. lia.
Qed.

Lemma multiplier_run s : ProportionalSlashingMultiplier s = Ret (multiplierOf s) ∧ 0 < multiplierOf s ≤ 16.
Proof.
  pose proof slashing_range as (H1' & H2' & H3' & _). unfold ProportionalSlashingMultiplier, multiplierOf.
  assert (versionAtLeast Phase0 s = true) as -> by (unfold versionAtLeast; by destruct (Version s)).
  destruct (versionAtLeast Bellatrix s); [|destruct (versionAtLeast Altair s)]; (split; [done|lia]).
Qed.

Lemma adjusted_run s : slashings_ready s → Min (Zsum (Slashings s) *w multiplierOf s) (totalOf s) = adjusted s ∧ 0 ≤ adjusted s ≤ totalOf s.
Proof.
  intros Hs. destruct (total_run s Hs) as (_ & Ht & _). destruct Hs as [_ _ _ [Hnn Hlt] _]. pose proof (Zsum_nonneg _ Hnn). destruct (multiplier_run s) as [_ Hm].
  pose proof EffectiveBalanceIncrement_range. unfold adjusted, Min. cbn beta. rewrite wrap64_small by (unfold is_u64; nia). split; [case_if; lia|nia].
Qed.

(** A penalty is at most the effective balance. *)
Lemma penalty_le s v :
  slashings_ready s → v ∈ Validators s → 0 ≤ penaltyOf s v ≤ EffectiveBalance v.
Proof.
  intros Hs Hv. destruct (total_run s Hs) as (_ & Ht & Hm). destruct (adjusted_run s Hs) as [_ Ha]. pose proof EffectiveBalanceIncrement_range as Hi.
  destruct Hs as [_ He _ _ _]. rewrite Forall_forall in He. destruct (He v Hv) as [[He0 _] _].
  assert (0 ≤ EffectiveBalance v / EffectiveBalanceIncrement) as Hq by (apply Z.div_pos; lia).
  pose proof (Z.mul_div_le (EffectiveBalance v) EffectiveBalanceIncrement) as Hle. unfold penaltyOf. set (q := EffectiveBalance v / _) in *. set (t := totalOf s) in *. set (a := adjusted s) in *.
  destruct (versionAtLeast Electra s).
  - apply Z.mod_divide in Hm as [k Hk]; [|lia]. rewrite Hk, Z.div_mul by lia. assert (0 < k) by nia.
    assert (0 ≤ a / k ≤ EffectiveBalanceIncrement) as Hak by (split; [apply Z.div_pos; lia|apply Z.div_le_upper_bound; lia]). nia.
  - assert (0 ≤ q * a / t ≤ q) as Hqa by (split; [apply Z.div_pos; nia|apply Z.div_le_upper_bound; nia]). nia.
Qed.

Lemma slashingPenalty_run s v :
  slashings_ready s → v ∈ Validators s →
  slashingPenalty (versionAtLeast Electra s) (totalOf s) (adjusted s) (adjusted s / (totalOf s / EffectiveBalanceIncrement)) (EffectiveBalance v) = Ret (penaltyOf s v).
Proof.
  intros Hs Hv. pose proof (penalty_le s v Hs Hv) as Hp. destruct (total_run s Hs) as (_ & Ht & _). destruct (adjusted_run s Hs) as [_ Ha]. pose proof EffectiveBalanceIncrement_range as Hi.
  destruct Hs as [_ He Htot _ Hold]. pose proof balances_range as Hb. pose proof hysteresis_range as (_ & _ & _ & Hi'). rewrite Forall_forall in He. destruct (He v Hv) as [[He0 He1] _].
  assert (EffectiveBalance v < two64) by (unfold two32, two64 in *; lia). assert (0 ≤ EffectiveBalance v / EffectiveBalanceIncrement) as Hq by (apply Z.div_pos; lia).
  unfold slashingPenalty, penaltyOf in *. cbn zeta in *. destruct (versionAtLeast Electra s) eqn:E.
  - rewrite wrap64_small by (unfold is_u64; lia). done.
  - specialize (Hold eq_refl). rewrite Forall_forall in Hold. specialize (Hold v Hv). rewrite (wrap64_small (_ / _ * adjusted s)) by (unfold is_u64; nia).
    unfold goDiv. rewrite (proj2 (Z.eqb_neq _ _)) by lia. cbn [obind]. rewrite wrap64_small by (unfold is_u64; lia). done.
Qed.

Definition penalised (s : Ledger) (v : Validator) (b : Z) : Z := if penaltyDue (LedgerEpoch s) v then Z.max 0 (b - penaltyOf s v) else b.

Lemma slashingsLoop_run s p vs : ∀ bs,
  length bs = length vs → Forall is_u64 bs →
  (∀ v, v ∈ vs → slashingPenalty (versionAtLeast Electra s) (totalOf s) (adjusted s) p (EffectiveBalance v) = Ret (penaltyOf s v) ∧ is_u64 (penaltyOf s v)) →
  slashingsLoop (versionAtLeast Electra s) (LedgerEpoch s) (totalOf s) (adjusted s) p vs bs = Ret (zip_with (penalised s) vs bs).
Proof.
  induction vs as [|v vs IH]; intros [|b bs] Hl Hb Hp; [done..|]. apply Forall_cons in Hb as [Hb Hbs]. cbn [slashingsLoop zip_with]. unfold penalised at 1.
  assert (v ∈ v :: vs) as Hin by (apply elem_of_cons; by left). destruct (Hp v Hin) as [-> Hu].
  assert (length bs = length vs) as Hl' by (by injection Hl). specialize (IH bs Hl' Hbs (λ w Hw, Hp w (proj2 (elem_of_cons _ _ _) (or_intror Hw)))).
  destruct (penaltyDue (LedgerEpoch s) v); cbn [obind]; rewrite IH; [|done]. cbn [obind]. by rewrite DecreaseBalanceWithVal_max.
Qed.

(** C19. Slashing penalties: on a state with consistent lists [ProcessSlashings] succeeds on
    every fork, takes from each slashed validator that is half way to its withdrawal the
    penalty of the specification, which is at most its effective balance, down to zero,
    and leaves every other balance and all validators unchanged. *)
Theorem slashing_penalties_bounded s :
  slashings_ready s →
  ∃ s', ProcessSlashings s = Ret s' ∧ registry s' = registry s ∧
    ∀ i v b, Validators s !! i = Some v → Balances s !! i = Some b →
      0 ≤ penaltyOf s v ≤ EffectiveBalance v ∧
      Balances s' !! i = Some (if penaltyDue (LedgerEpoch s) v then Z.max 0 (b - penaltyOf s v) else b).
Proof.
  intros Hs. destruct (total_run s Hs) as (Htr & Ht & _). destruct (multiplier_run s) as [Hmr Hm]. destruct (adjusted_run s Hs) as [Har Ha].
  pose proof (sr_slashings _ Hs) as [Hnn Hlt]. pose proof (Zsum_nonneg _ Hnn). pose proof EffectiveBalanceIncrement_range as Hi.
  unfold ProcessSlashings. rewrite Hmr, Htr. cbn [omap_err obind]. rewrite sumSlashings_run by (done || lia). cbn [obind]. rewrite Z.add_0_l.
  cbn beta in Har. rewrite Har. assert (1 ≤ totalOf s / EffectiveBalanceIncrement) by (apply Z.div_le_lower_bound; lia).
  set (p := if versionAtLeast Electra s then adjusted s / (totalOf s / EffectiveBalanceIncrement) else 0).
  assert ((if versionAtLeast Electra s then goDiv (adjusted s) (totalOf s / EffectiveBalanceIncrement) else Ret 0) = Ret p) as ->.
  { unfold p. destruct (versionAtLeast Electra s); [|done]. unfold goDiv. by rewrite (proj2 (Z.eqb_neq _ _)) by lia. }
  cbn [obind]. rewrite (slashingsLoop_run s p); [|apply Hs|apply Hs|].
  2: { intros v Hv. pose proof (slashingPenalty_run s v Hs Hv) as Hr. split; [unfold p, slashingPenalty in *; by destruct (versionAtLeast Electra s)|].
       pose proof (penalty_le s v Hs Hv). pose proof (sr_effective _ Hs) as He. rewrite Forall_forall in He. destruct (He v Hv) as [He1 _].
       pose proof balances_range. pose proof hysteresis_range as (_ & _ & _ & Hi'). unfold is_u64, two32, two64 in *. lia. }
  cbn [obind]. eexists. split_and!; [done|done|]. intros i v b Hv Hb. split; [apply penalty_le; [done|by eapply list_elem_of_lookup_2]|].
  change (Balances (setBalances ?l s)) with l. by apply lookup_zip_with_Some; eauto.
Qed.
End penalties.

(** ** Witness *)

(** Validator 1 was slashed and is due in epoch 100. *)
Definition slashedLedger : Ledger :=
  setSlashings (32000000000 :: replicate 8191 0)
    (setRegistry (setValidators
       [sampleValidator 32000000000 1 1 maxUint64 maxUint64; withSlashed 4196 (sampleValidator 32000000000 1 2 50 90);
        sampleValidator 64000000000 2 3 maxUint64 maxUint64; sampleValidator 32000000000 0 4 maxUint64 maxUint64] (registry sampleLedger)) sampleLedger).

Lemma slashing_penalties_bounded_witness :
  ∃ s', @ProcessSlashings _ mainnetLedgerConfig slashedLedger = Ret s' ∧ Balances s' = [32500000000; 7000000000; 64700000000; 33000000000].
Proof.
  destruct (@slashing_penalties_bounded _ mainnetLedgerConfig slashedLedger) as (s' & Hrun & _ & _).
  { split; [destruct sampleLedger_ok; by split; [done|done|by repeat constructor|done]|by repeat (apply Forall_cons; split; [split; by vm_compute|])|by vm_compute| |done].
    split; [|by vm_compute]. apply Forall_cons. split; [done|]. by apply Forall_replicate. }
  exists s'. split; [exact Hrun|].
  assert ((r <-? @ProcessSlashings _ mainnetLedgerConfig slashedLedger;; Ret (Balances r)) = Ret [32500000000; 7000000000; 64700000000; 33000000000]) as Hb
    by (vm_compute; reflexivity).
  rewrite Hrun in Hb. by injection Hb.
Defined.
