(* ===== verification/SlashingCorrect.v ===== *)
(** * Slashing operations of a block

    Models [beacon-chain/core/blocks/proposer_slashing.go] and [attester_slashing.go], and
    the checks of attestations and their indices in
    [proto/prysm/v1alpha1/attestation/attestation_utils.go].  The verification of a
    signature is an argument. *)

From Stdlib Require Import Sorting.Sorted.
From S2P Require Import Prelude MathHelper Primitives SlotTime Shuffle Committee Justification ExitQueue SliceSets Ledger Participation Rewards EpochUpdates.

(** ** Data *)

Record BeaconBlockHeader := mkHeader {
  HeaderSlot : Z;
  HeaderProposerIndex : Z;
  HeaderParentRoot : Z;
  HeaderStateRoot : Z;
  HeaderBodyRoot : Z
}.
#[global] Instance BeaconBlockHeader_eq_dec : EqDecision BeaconBlockHeader.
Proof. solve_decision. Defined.

Record SignedBeaconBlockHeader := mkSignedHeader { Header : BeaconBlockHeader; HeaderSignature : list Z }.
(** [None] is a nil signed header, or one whose header is nil. *)
Record ProposerSlashing := mkProposerSlashing { Header_1 : option SignedBeaconBlockHeader; Header_2 : option SignedBeaconBlockHeader }.

#[global] Instance EthCheckpoint_eq_dec : EqDecision EthCheckpoint.
Proof. solve_decision. Defined.

(** Attestations of the chain: [IdxElectra] says whether the type is that of Electra. *)
Record IndexedAttestation := mkIndexedAttestation { IdxData : AttestationData; IdxIndices : list Z; IdxSignature : list Z; IdxElectra : bool }.
Record AttesterSlashing := mkAttesterSlashing { FirstAttestation : option IndexedAttestation; SecondAttestation : option IndexedAttestation }.

(** ** Attestations *)

Definition CheckPointIsEqual (c1 c2 : EthCheckpoint) : bool :=
  (CheckpointEpoch c1 =? CheckpointEpoch c2) && (CheckpointRoot c1 =? CheckpointRoot c2).

Definition AttDataIsEqual (d1 d2 : AttestationData) : bool :=
  (AttSlot d1 =? AttSlot d2) && (AttCommitteeIndex d1 =? AttCommitteeIndex d2) && (AttBeaconBlockRoot d1 =? AttBeaconBlockRoot d2) &&
  CheckPointIsEqual (AttSource d1) (AttSource d2) && CheckPointIsEqual (AttTarget d1) (AttTarget d2).

(** [slashings.IsSurround] *)
Definition surrounds (a b : AttestationData) : bool :=
  (CheckpointEpoch (AttSource a) <? CheckpointEpoch (AttSource b)) && (CheckpointEpoch (AttTarget b) <? CheckpointEpoch (AttTarget a)).

Definition IsSlashableAttestationData (d1 d2 : AttestationData) : bool :=
  let isDoubleVote := negb (AttDataIsEqual d1 d2) && (CheckpointEpoch (AttTarget d1) =? CheckpointEpoch (AttTarget d2)) in
  let isSurroundVote := surrounds d1 d2 in
  isDoubleVote || isSurroundVote.

Fixpoint strictlySorted (indices : list Z) : bool :=
  match indices with
  | x :: ((y :: _) as rest) => if y <=? x then false else strictlySorted rest
  | _ => true
  end.

(** Attestations have data with both checkpoints, so that the checks for nil are not modelled. *)
Definition IsValidAttestationIndices (a : IndexedAttestation) (committeeValMax maxCommittees : Z) : outcome unit :=
  let indices := IdxIndices a in
  if (length indices =? 0)%nat then Err "expected non-empty attesting indices"
  else
    let maxLength := if IdxElectra a then committeeValMax *w maxCommittees else committeeValMax in
    if maxLength <? Z.of_nat (length indices) then Err "validator indices count exceeds MAX_VALIDATORS_PER_COMMITTEE"
    else if negb (strictlySorted indices) then Err "attesting indices is not uniquely sorted"
    else Ret tt.

Definition SlashableAttesterIndices (slashing : AttesterSlashing) : list Z :=
  match FirstAttestation slashing, SecondAttestation slashing with
  | Some a1, Some a2 => IntersectionUint64 [IdxIndices a1; IdxIndices a2]
  | _, _ => []
  end.

(** [sort.SliceStable] of indices. *)
Fixpoint insertIndex (x : Z) (l : list Z) : list Z :=
  match l with
  | [] => [x]
  | y :: l' => if x <=? y then x :: l else y :: insertIndex x l'
  end.
Definition sortUint64 (l : list Z) : list Z := foldr insertIndex [] l.

Section ops.
Context `{LedgerConfig} `{!SquareRoot}.
(** [helpers.BeaconProposerIndex], the verification of a header's and of an attestation's
    signature, and [MaxValidatorsPerCommittee]. *)
Context (proposer : Ledger → outcome Z) (verifyHeader : Ledger → SignedBeaconBlockHeader → outcome unit)
        (verifyAttestation : Ledger → IndexedAttestation → outcome unit) (MaxValidatorsPerCommittee : Z).

(** ** Proposer slashings *)

Definition IsSlashableValidator (v : Validator) (epoch : Z) : bool :=
  checkValidatorSlashable (ActivationEpoch v) (WithdrawableEpoch v) (Slashed v) epoch.

Definition VerifyProposerSlashing (s : Ledger) (slashing : ProposerSlashing) : outcome unit :=
  match Header_1 slashing, Header_2 slashing with
  | Some sh1, Some sh2 =>
      let h1 := Header sh1 in
      let h2 := Header sh2 in
      if negb (HeaderSlot h1 =? HeaderSlot h2) then Err "mismatched header slots"
      else if negb (HeaderProposerIndex h1 =? HeaderProposerIndex h2) then Err "mismatched indices"
      else if bool_decide (h1 = h2) then Err "expected slashing headers to differ"
      else
        v <-? ValidatorAt s (HeaderProposerIndex h1);;
        if negb (IsSlashableValidator v (LedgerEpoch s)) then Err "validator is not slashable"
        else
          _ <-? omap_err (λ e, wrapErr e "could not verify beacon block header") (verifyHeader s sh1);;
          omap_err (λ e, wrapErr e "could not verify beacon block header") (verifyHeader s sh2)
  | _, _ => Err "nil header cannot be verified"
  end.

(** [None] is a nil slashing. *)
Definition ProcessProposerSlashing (s : Ledger) (slashing : option ProposerSlashing) (exitInfo : ExitInfo) : outcome (Ledger * ExitInfo) :=
  match slashing with
  | None => Err "nil proposer slashings in block body"
  | Some slashing =>
      _ <-? omap_err (λ e, wrapErr e "could not verify proposer slashing") (VerifyProposerSlashing s slashing);;
      match Header_1 slashing with
      | Some h => omap_err (λ e, wrapErr e "could not slash proposer index") (SlashValidator proposer s (HeaderProposerIndex (Header h)) exitInfo)
      | None => Panic "nil pointer dereference"
      end
  end.

Fixpoint ProcessProposerSlashings (s : Ledger) (slashings : list (option ProposerSlashing)) (exitInfo : ExitInfo) : outcome (Ledger * ExitInfo) :=
  match slashings with
  | [] => Ret (s, exitInfo)
  | x :: slashings => res <-? ProcessProposerSlashing s x exitInfo;; ProcessProposerSlashings res.1 slashings res.2
  end.

(** ** Attester slashings *)

Definition VerifyIndexedAttestation (s : Ledger) (a : IndexedAttestation) : outcome unit :=
  _ <-? IsValidAttestationIndices a MaxValidatorsPerCommittee MaxCommitteesPerSlot;;
  verifyAttestation s a.

Definition VerifyAttesterSlashing (s : Ledger) (slashing : AttesterSlashing) : outcome unit :=
  match FirstAttestation slashing, SecondAttestation slashing with
  | Some att1, Some att2 =>
      if negb (IsSlashableAttestationData (IdxData att1) (IdxData att2)) then Err "attestations are not slashable"
      else
        _ <-? omap_err (λ e, wrapErr e "could not validate indexed attestation") (VerifyIndexedAttestation s att1);;
        omap_err (λ e, wrapErr e "could not validate indexed attestation") (VerifyIndexedAttestation s att2)
  | _, _ => Err "nil attestation"
  end.

(** The loop over the slashable indices; whether any was slashed. *)
Fixpoint slashIndices (currentEpoch : Z) (s : Ledger) (indices : list Z) (exitInfo : ExitInfo) (slashedAny : bool)
    : outcome (Ledger * ExitInfo * bool) :=
  match indices with
  | [] => Ret (s, exitInfo, slashedAny)
  | idx :: indices =>
      v <-? ValidatorAt s idx;;
      if IsSlashableValidator v currentEpoch then
        res <-? omap_err (λ e, wrapErr e "could not slash validator index") (SlashValidator proposer s idx exitInfo);;
        slashIndices currentEpoch res.1 indices res.2 true
      else slashIndices currentEpoch s indices exitInfo slashedAny
  end.

Definition ProcessAttesterSlashing (s : Ledger) (slashing : option AttesterSlashing) (exitInfo : ExitInfo) : outcome (Ledger * ExitInfo) :=
  match slashing with
  | None => Err (wrapErr "nil slashing" "could not verify attester slashing")
  | Some slashing =>
      _ <-? omap_err (λ e, wrapErr e "could not verify attester slashing") (VerifyAttesterSlashing s slashing);;
      res <-? slashIndices (LedgerEpoch s) s (sortUint64 (SlashableAttesterIndices slashing)) exitInfo false;;
      let '(s, exitInfo, slashedAny) := res in
      if negb slashedAny then Err "unable to slash any validator despite confirmed attester slashing" else Ret (s, exitInfo)
  end.

Fixpoint ProcessAttesterSlashings (s : Ledger) (slashings : list (option AttesterSlashing)) (exitInfo : ExitInfo) : outcome (Ledger * ExitInfo) :=
  match slashings with
  | [] => Ret (s, exitInfo)
  | x :: slashings => res <-? ProcessAttesterSlashing s x exitInfo;; ProcessAttesterSlashings res.1 slashings res.2
  end.
End ops.

(** * Correctness of slashing operations

    An accepted attester slashing proves two conflicting votes and slashes exactly the
    validators that signed both and could still be slashed; an accepted proposer slashing
    slashes the proposer of two different headers for one slot.  Nothing else changes in
    the registry. *)

Section slashing.
Context `{LedgerConfig} `{!SquareRoot}.

(** [v'] is [v] slashed: only the exit and withdrawable epochs moved besides. *)
Definition slashedFrom (v v' : Validator) : Prop :=
  Slashed v' = true ∧ EffectiveBalance v' = EffectiveBalance v ∧ ActivationEpoch v' = ActivationEpoch v ∧
  ActivationEligibilityEpoch v' = ActivationEligibilityEpoch v ∧ ValPublicKey v' = ValPublicKey v ∧ ValWithdrawalCredentials v' = ValWithdrawalCredentials v.

(** ** Slashing one validator *)

(** The registry after slashing validator [idx]. *)
Definition slashed_at (s s' : Ledger) (idx : Z) : Prop :=
  ∃ v v', Validators s !! Z.to_nat idx = Some v ∧ Validators s' = <[Z.to_nat idx := v']> (Validators s) ∧ slashedFrom v v' ∧
    LedgerEpoch s +w EpochsPerSlashingsVector ≤ WithdrawableEpoch v' ∧ LedgerEpoch s' = LedgerEpoch s.

Lemma MaxEpoch_ge a b : b ≤ MaxEpoch a b.
Proof. unfold MaxEpoch. case_if; lia. Qed.

Lemma exit_then_slash r r' idx v' :
  exit_effect r r' idx → StateValidators r' !! Z.to_nat idx = Some v' →
  ∃ v, StateValidators r !! Z.to_nat idx = Some v ∧ (∀ w, slashedFrom v (withSlashed w v')) ∧
    ∀ x, <[Z.to_nat idx := x]> (StateValidators r') = <[Z.to_nat idx := x]> (StateValidators r).
Proof.
  intros (_ & _ & Hcase) Hv'. destruct Hcase as [Heq|(v & e & w & Hv & Heq)]; rewrite Heq in Hv' |- *.
  - exists v'. split_and!; [done|by intros w|done].
  - rewrite list_lookup_insert_eq in Hv' by (by eapply lookup_lt_Some). injection Hv' as <-. exists v. split_and!; [done|by intros w'|].
    intros x. by rewrite list_insert_insert_eq.
Qed.

Lemma SlashValidator_effect proposer s idx info s' info' : SlashValidator proposer s idx info = Ret (s', info') → slashed_at s s' idx.
Proof.
  unfold SlashValidator. pose proof (exitForTotal_effect (registry s) idx info (TotalActiveBalanceInfo info)) as Hex.
  destruct (InitiateValidatorExitForTotalBal _ _ _ _) as [[r info1] res]. cbn [fst] in Hex.
  intros (_ & _ & (v' & Hv' & (s1 & Hs1 & Hr)%obind_ret)%obind_ret)%obind_ret.
  unfold ValidatorAt, ValidatorAtIndex in Hv'. cbn [setRegistry registry] in Hv'. destruct (StateValidators r !! _) as [x|] eqn:Hx; [|done]. injection Hv' as ->.
  destruct (exit_then_slash _ _ _ _ Hex Hx) as (v & Hv & Hsl & Hins).
  unfold UpdateValidatorAt, UpdateValidatorAtIndex in Hs1. cbn [setRegistry registry] in Hs1.
  destruct (_ <? _)%nat; [|done]. cbn [obind] in Hs1. injection Hs1 as <-.
  match type of Hr with match ?o with _ => _ end = _ => destruct o; [|done] end.
  apply obind_ret in Hr as (s2 & Hs2 & (ps & _ & Hr)%obind_ret). destruct ps as [[q1 q2] q3].
  apply obind_ret in Hr as (pen & _ & (s3 & Hs3%Decrease_registry & (pi & _ & (wr & _ & (pr & _ & (s4 & Hs4%Increase_registry & Hr)%obind_ret)%obind_ret)%obind_ret)%obind_ret)%obind_ret).
  apply obind_ret in Hr as (s5 & Hs5%Increase_registry & [= <- <-]).
  unfold UpdateSlashingsAtIndex in Hs2. destruct (_ <=? _); [done|]. injection Hs2 as <-. cbn [setSlashings setRegistry registry] in *.
  assert (registry s5 = setValidators (<[Z.to_nat idx := withSlashed (MaxEpoch (WithdrawableEpoch v') (LedgerEpoch (setRegistry r s) +w EpochsPerSlashingsVector)) v']>
    (StateValidators r)) r) as Hreg by congruence.
  assert (LedgerEpoch (setRegistry r s) = LedgerEpoch s) as Hep by (unfold LedgerEpoch, LedgerSlot; cbn; by destruct Hex as (-> & _)).
  eexists v, _. split_and!; [done|unfold Validators; rewrite Hreg; cbn [setValidators StateValidators]; apply Hins|apply Hsl| |].
  - cbn [withSlashed WithdrawableEpoch]. rewrite Hep. apply MaxEpoch_ge.
  - unfold LedgerEpoch, LedgerSlot in *. rewrite Hreg. done.
Qed.

(** ** Slashing several validators *)

(** Validator [n] was slashed between [s] and [s'] exactly when [cond] holds, and is otherwise
    unchanged. *)
Definition slashed_iff (s s' : Ledger) (cond : nat → Validator → bool) : Prop :=
  length (Validators s') = length (Validators s) ∧
  ∀ n v, Validators s !! n = Some v → ∃ v', Validators s' !! n = Some v' ∧
    if cond n v then slashedFrom v v' ∧ LedgerEpoch s +w EpochsPerSlashingsVector ≤ WithdrawableEpoch v' else v' = v.

Lemma slashed_iff_none s cond : (∀ n v, Validators s !! n = Some v → cond n v = false) → slashed_iff s s cond.
Proof. intros Hn. split; [done|]. intros n v Hv. exists v. split; [done|]. by rewrite (Hn n v Hv). Qed.

Lemma slashed_iff_step s s1 s' idx cond cond' :
  slashed_at s s1 idx → slashed_iff s1 s' cond' → (∀ v, Validators s !! Z.to_nat idx = Some v → cond (Z.to_nat idx) v = true) →
  (∀ v, cond' (Z.to_nat idx) v = false) → (∀ n v, n ≠ Z.to_nat idx → cond' n v = cond n v) → slashed_iff s s' cond.
Proof.
  intros (v0 & v1 & Hv0 & Hins & Hfrom & Hw & Hep) [Hlen Hall] Ht Hf Hne. rewrite Hins, length_insert in Hlen. split; [done|].
  intros n v Hv. destruct (decide (n = Z.to_nat idx)) as [->|Hn].
  - rewrite (Ht v Hv). assert (v = v0) as -> by congruence. destruct (Hall (Z.to_nat idx) v1) as (v' & Hv' & Hc).
    { rewrite Hins. apply list_lookup_insert_eq. by eapply lookup_lt_Some. }
    rewrite Hf in Hc. subst v'. by exists v1.
  - destruct (Hall n v) as (v' & Hv' & Hc); [by rewrite Hins, list_lookup_insert_ne|]. exists v'. by rewrite <- Hne, <- Hep.
Qed.

(** The validators of [l] that can be slashed at [epoch]. *)
Definition dueIn (epoch : Z) (l : list Z) (n : nat) (v : Validator) : bool := bool_decide (Z.of_nat n ∈ l) && IsSlashableValidator v epoch.

Lemma slashIndices_effect proposer epoch l s info any s' info' any' :
  NoDup l → (∀ i, i ∈ l → 0 ≤ i) → slashIndices proposer epoch s l info any = Ret (s', info', any') →
  slashed_iff s s' (dueIn epoch l) ∧
  (any' = true → any = true ∨ ∃ i v, i ∈ l ∧ Validators s !! Z.to_nat i = Some v ∧ IsSlashableValidator v epoch = true).
Proof.
  revert s info any. induction l as [|idx l IH]; intros s info any Hnd Hpos Hrun.
  - injection Hrun as <- <- <-. split; [|by left]. by apply slashed_iff_none.
  - apply NoDup_cons in Hnd as [Hni Hnd]. cbn [slashIndices] in Hrun. apply obind_ret in Hrun as (v & Hv & Hrun).
    unfold ValidatorAt, ValidatorAtIndex in Hv. destruct (StateValidators (registry s) !! Z.to_nat idx) as [x|] eqn:Hx; [|done]. injection Hv as ->.
    assert (0 ≤ idx) as Hidx by (apply Hpos; left). assert (∀ i, i ∈ l → 0 ≤ i) as Hpos' by (intros; apply Hpos; by right).
    assert (∀ n w, n ≠ Z.to_nat idx → dueIn epoch l n w = dueIn epoch (idx :: l) n w) as Hrest.
    { intros n w Hn. unfold dueIn. f_equal. apply bool_decide_ext. rewrite elem_of_cons. split; [by right|intros [?|?]; [lia|done]]. }
    assert (∀ w, dueIn epoch l (Z.to_nat idx) w = false) as Hout.
    { intros w. unfold dueIn. rewrite Z2Nat.id by done. by rewrite bool_decide_eq_false_2. }
    destruct (IsSlashableValidator v epoch) eqn:Hsl.
    + apply obind_ret in Hrun as ([s1 info1] & Hone%omap_err_ret & Hrun). cbn [fst snd] in Hrun.
      apply SlashValidator_effect in Hone. destruct (IH _ _ _ Hnd Hpos' Hrun) as [Hrec _]. split; [|intros _; right; exists idx, v; split_and!; [left|done|done]].
      apply (slashed_iff_step s s1 s' idx _ _ Hone Hrec); [|done|done].
      intros w Hw. unfold Validators in Hw. unfold dueIn. rewrite Z2Nat.id, bool_decide_eq_true_2 by (done || left). cbn. congruence.
    + destruct (IH _ _ _ Hnd Hpos' Hrun) as [[Hlen Hall] Hany]. split.
      * split; [done|]. intros n w Hw. destruct (Hall n w Hw) as (w' & Hw' & Hc). exists w'. split; [done|].
        destruct (decide (n = Z.to_nat idx)) as [->|Hn]; [|by rewrite <- Hrest]. rewrite Hout in Hc. unfold dueIn. unfold Validators in Hw.
        assert (w = v) as -> by congruence. by rewrite Hsl, andb_false_r.
      * intros Ha. destruct (Hany Ha) as [?|(i & w & Hi & ?)]; [by left|right; exists i, w; split; [by right|done]].
Qed.

Lemma insertIndex_perm x l : insertIndex x l ≡ₚ x :: l.
Proof.
  induction l as [|y l IH]; [done|]. cbn [insertIndex]. destruct (x <=? y); [done|]. rewrite IH. apply Permutation_swap.
Qed.
Lemma sortUint64_perm l : sortUint64 l ≡ₚ l.
Proof. induction l as [|x l IH]; [done|]. cbn [sortUint64 foldr]. rewrite insertIndex_perm. by f_equiv. Qed.

Lemma slashableIndices_spec a1 a2 :
  let l := sortUint64 (SlashableAttesterIndices (mkAttesterSlashing (Some a1) (Some a2))) in
  NoDup l ∧ ∀ i, i ∈ l ↔ i ∈ IdxIndices a1 ∧ i ∈ IdxIndices a2.
Proof.
  cbv zeta. unfold SlashableAttesterIndices, IntersectionUint64. cbn [FirstAttestation SecondAttestation].
  destruct (Intersection_rest (IdxIndices a1) (IdxIndices a2) []) as [Hin Hnd]. split; [by rewrite sortUint64_perm|].
  intros i. rewrite sortUint64_perm, Hin. set_solver.
Qed.

(** ** The proofs of an offence *)

(** Two votes no honest validator casts: different votes for one target epoch, or a vote that
    surrounds the other. *)
Definition conflicting (d1 d2 : AttestationData) : Prop :=
  (d1 ≠ d2 ∧ CheckpointEpoch (AttTarget d1) = CheckpointEpoch (AttTarget d2)) ∨
  (CheckpointEpoch (AttSource d1) < CheckpointEpoch (AttSource d2) ∧ CheckpointEpoch (AttTarget d2) < CheckpointEpoch (AttTarget d1)).

Lemma AttDataIsEqual_eq d1 d2 : AttDataIsEqual d1 d2 = true ↔ d1 = d2.
Proof.
  destruct d1 as [? ? ? [] []], d2 as [? ? ? [] []]. unfold AttDataIsEqual, CheckPointIsEqual. cbn. rewrite !andb_true_iff, !Z.eqb_eq. naive_solver.
Qed.
Lemma IsSlashableAttestationData_spec d1 d2 : IsSlashableAttestationData d1 d2 = true ↔ conflicting d1 d2.
Proof.
  unfold IsSlashableAttestationData, conflicting, surrounds. rewrite orb_true_iff, !andb_true_iff, negb_true_iff, Z.eqb_eq, !Z.ltb_lt.
  rewrite <- not_true_iff_false, AttDataIsEqual_eq. done.
Qed.

Lemma strictlySorted_spec l : strictlySorted l = true → StronglySorted Z.lt l.
Proof.
  intros Hl. apply Sorted_StronglySorted; [intros x y z ? ?; lia|]. revert Hl. induction l as [|x [|y l] IH]; intros Hl; [constructor|by repeat constructor|].
  cbn [strictlySorted] in Hl. destruct (y <=? x) eqn:Hyx; [done|]. apply Z.leb_gt in Hyx. constructor; [by apply IH|by constructor].
Qed.

(** An attestation that passed the checks. *)
Definition attestation_verified (verifyAttestation : Ledger → IndexedAttestation → outcome unit) (s : Ledger) (a : IndexedAttestation) : Prop :=
  IdxIndices a ≠ [] ∧ StronglySorted Z.lt (IdxIndices a) ∧ verifyAttestation s a = Ret tt.

Lemma VerifyIndexedAttestation_spec verifyAttestation maxPer s a :
  VerifyIndexedAttestation verifyAttestation maxPer s a = Ret tt → attestation_verified verifyAttestation s a.
Proof.
  unfold VerifyIndexedAttestation, IsValidAttestationIndices. intros ([] & Hi & Hv)%obind_ret. destruct (length _ =? 0)%nat eqn:Hz; [done|].
  destruct (_ <? _); [done|]. destruct (strictlySorted _) eqn:Hs; [|done]. split_and!; [by intros Hn; rewrite Hn in Hz|by apply strictlySorted_spec|done].
Qed.

Lemma VerifyAttesterSlashing_spec verifyAttestation maxPer s sl :
  VerifyAttesterSlashing verifyAttestation maxPer s sl = Ret tt → ∃ a1 a2, sl = mkAttesterSlashing (Some a1) (Some a2) ∧
    conflicting (IdxData a1) (IdxData a2) ∧ attestation_verified verifyAttestation s a1 ∧ attestation_verified verifyAttestation s a2.
Proof.
  destruct sl as [[a1|] [a2|]]; [|done..]. unfold VerifyAttesterSlashing. cbn [FirstAttestation SecondAttestation].
  destruct (IsSlashableAttestationData _ _) eqn:Hc; [|done]. cbn [negb]. intros ([] & H1'%omap_err_ret & H2'%omap_err_ret)%obind_ret.
  exists a1, a2. split_and!; [done|by apply IsSlashableAttestationData_spec|by eapply VerifyIndexedAttestation_spec..].
Qed.

Lemma VerifyProposerSlashing_spec verifyHeader s sl :
  VerifyProposerSlashing verifyHeader s sl = Ret tt → ∃ h1 h2 v, sl = mkProposerSlashing (Some h1) (Some h2) ∧ HeaderSlot (Header h1) = HeaderSlot (Header h2) ∧
    HeaderProposerIndex (Header h1) = HeaderProposerIndex (Header h2) ∧ Header h1 ≠ Header h2 ∧ verifyHeader s h1 = Ret tt ∧ verifyHeader s h2 = Ret tt ∧
    Validators s !! Z.to_nat (HeaderProposerIndex (Header h1)) = Some v ∧ IsSlashableValidator v (LedgerEpoch s) = true.
Proof.
  destruct sl as [[h1|] [h2|]]; [|done..]. unfold VerifyProposerSlashing. cbn [Header_1 Header_2]. cbv zeta.
  destruct (Z.eqb_spec (HeaderSlot (Header h1)) (HeaderSlot (Header h2))) as [Hslot|]; [|done]. destruct (Z.eqb_spec (HeaderProposerIndex (Header h1)) (HeaderProposerIndex (Header h2))) as [Hidx|]; [|done].
  cbn [negb]. case_bool_decide as Hne; [done|]. intros (v & Hv & Hr)%obind_ret. destruct (IsSlashableValidator v _) eqn:Hsl; [|done].
  cbn [negb] in Hr. apply obind_ret in Hr as ([] & H1'%omap_err_ret & H2'%omap_err_ret).
  unfold ValidatorAt, ValidatorAtIndex in Hv. destruct (StateValidators (registry s) !! _) as [x|] eqn:Hx; [|done]. injection Hv as ->. by exists h1, h2, v.
Qed.

Lemma slashed_at_iff s s' idx : 0 ≤ idx → slashed_at s s' idx → slashed_iff s s' (λ n _, bool_decide (Z.of_nat n = idx)).
Proof.
  intros Hi Hat. apply (slashed_iff_step s s' s' idx _ (λ _ _, false)); [done|by apply slashed_iff_none| |done|].
  - intros v _. apply bool_decide_eq_true_2. lia.
  - intros n v Hn. symmetry. apply bool_decide_eq_false_2. lia.
Qed.

(** C9. An accepted slashing proves an offence and punishes exactly its authors.  An
    attester slashing carries two conflicting votes - different votes for one target epoch,
    or one that surrounds the other - each with sorted indices and a verified signature;
    the validators slashed by it are those that signed both and were active, not yet
    withdrawable and not yet slashed, at least one of them, and every other validator is
    as it was.  A proposer slashing carries two different signed headers of one slot and
    proposer, and slashes that proposer only, who could still be slashed.  A slashed
    validator keeps its balance from withdrawal for the whole window of slashings.  The
    loop is total: conflicting votes that leave nobody to slash are refused. *)
Theorem slashings_correct proposer verifyHeader verifyAttestation maxPer s info :
  (∀ a1 a2 s' info', let sl := mkAttesterSlashing (Some a1) (Some a2) in
    (∀ i, i ∈ IdxIndices a1 → 0 ≤ i) → ProcessAttesterSlashing proposer verifyAttestation maxPer s (Some sl) info = Ret (s', info') →
    conflicting (IdxData a1) (IdxData a2) ∧ attestation_verified verifyAttestation s a1 ∧ attestation_verified verifyAttestation s a2 ∧
    slashed_iff s s' (λ n v, bool_decide (Z.of_nat n ∈ IdxIndices a1) && bool_decide (Z.of_nat n ∈ IdxIndices a2) && IsSlashableValidator v (LedgerEpoch s)) ∧
    ∃ i v, i ∈ IdxIndices a1 ∧ i ∈ IdxIndices a2 ∧ Validators s !! Z.to_nat i = Some v ∧ IsSlashableValidator v (LedgerEpoch s) = true) ∧
  (∀ h1 h2 s' info', let sl := mkProposerSlashing (Some h1) (Some h2) in
    0 ≤ HeaderProposerIndex (Header h1) → ProcessProposerSlashing proposer verifyHeader s (Some sl) info = Ret (s', info') →
    HeaderSlot (Header h1) = HeaderSlot (Header h2) ∧ HeaderProposerIndex (Header h1) = HeaderProposerIndex (Header h2) ∧ Header h1 ≠ Header h2 ∧ verifyHeader s h1 = Ret tt ∧ verifyHeader s h2 = Ret tt ∧
    slashed_iff s s' (λ n _, bool_decide (Z.of_nat n = HeaderProposerIndex (Header h1))) ∧
    ∃ v, Validators s !! Z.to_nat (HeaderProposerIndex (Header h1)) = Some v ∧ IsSlashableValidator v (LedgerEpoch s) = true) ∧
  (∀ sl, VerifyAttesterSlashing verifyAttestation maxPer s sl = Ret tt →
    (∀ i, i ∈ SlashableAttesterIndices sl → ∃ v, Validators s !! Z.to_nat i = Some v ∧ IsSlashableValidator v (LedgerEpoch s) = false) →
    ProcessAttesterSlashing proposer verifyAttestation maxPer s (Some sl) info = Err "unable to slash any validator despite confirmed attester slashing").
Proof.
  split_and!.
  - intros a1 a2 s' info' sl Hpos Hrun. unfold ProcessAttesterSlashing in Hrun. apply obind_ret in Hrun as ([] & Hv%omap_err_ret & Hrun).
    destruct (VerifyAttesterSlashing_spec _ _ _ _ Hv) as (b1 & b2 & [= <- <-] & Hc & Ha1 & Ha2).
    apply obind_ret in Hrun as ([[s1 info1] any] & Hloop & Hrun). destruct any; [|done]. injection Hrun as <- <-.
    destruct (slashableIndices_spec a1 a2) as [Hnd Hin]. fold sl in Hnd, Hin.
    destruct (slashIndices_effect _ _ _ _ _ _ _ _ _ Hnd ltac:(intros i [? _]%Hin; by apply Hpos) Hloop) as [[Hlen Hall] Hany].
    split_and!; [done|done|done| |].
    + split; [done|]. intros n v Hn. destruct (Hall n v Hn) as (v' & Hv' & Hcase). exists v'. split; [done|].
      unfold dueIn in Hcase. rewrite <- bool_decide_and. erewrite bool_decide_ext; [exact Hcase|]. symmetry. apply Hin.
    + destruct (Hany eq_refl) as [?|(i & v & [? ?]%Hin & ? & ?)]; [done|]. by exists i, v.
  - intros h1 h2 s' info' sl Hpos Hrun. unfold ProcessProposerSlashing in Hrun. apply obind_ret in Hrun as ([] & Hv%omap_err_ret & Hrun%omap_err_ret).
    destruct (VerifyProposerSlashing_spec _ _ _ Hv) as (b1 & b2 & v & [= <- <-] & ? & ? & ? & ? & ? & ? & ?). cbn [sl Header_1] in Hrun.
    split_and!; try done; [|by exists v]. apply slashed_at_iff; [done|]. by eapply SlashValidator_effect.
  - intros sl Hv Hnone. unfold ProcessAttesterSlashing. rewrite Hv. cbn [omap_err obind].
    enough (slashIndices proposer (LedgerEpoch s) s (sortUint64 (SlashableAttesterIndices sl)) info false = Ret (s, info, false)) as -> by done.
    assert (∀ i, i ∈ sortUint64 (SlashableAttesterIndices sl) → ∃ v, Validators s !! Z.to_nat i = Some v ∧ IsSlashableValidator v (LedgerEpoch s) = false) as Hl.
    { intros i. rewrite sortUint64_perm. apply Hnone. }
    induction (sortUint64 _) as [|i l IH]; [done|]. cbn [slashIndices]. destruct (Hl i ltac:(left)) as (v & Hi & Hno). unfold Validators in Hi.
    unfold ValidatorAt, ValidatorAtIndex. rewrite Hi. cbn [obind]. rewrite Hno. apply IH. intros j Hj. apply Hl. by right.
Qed.
End slashing.

(** ** A sample *)

(** Two votes for target epoch 99 with different blocks: validators 0 and 1 signed both, but
    validator 1 is withdrawable already. *)
Definition sampleVote (block : Z) (indices : list Z) : IndexedAttestation :=
  mkIndexedAttestation (mkAttestationData 3170 0 block (mkEthCheckpoint 98 1) (mkEthCheckpoint 99 2)) indices [] true.
Definition sampleHeader (body : Z) : SignedBeaconBlockHeader := mkSignedHeader (mkHeader 3190 2 7 8 body) [].

Lemma slashings_correct_witness :
  (∃ s' info', ProcessAttesterSlashing (H0 := mainnetLedgerConfig) (λ _, Ret 3) (λ _ _, Ret tt) 2048 sampleLedger
      (Some (mkAttesterSlashing (Some (sampleVote 5 [0; 1; 3])) (Some (sampleVote 6 [0; 1; 2])))) (mkExitInfo 0 0 128000000000) = Ret (s', info') ∧
    slashed_iff (H := mainnetBeaconConfig) sampleLedger s' (λ n v, bool_decide (Z.of_nat n ∈ [0; 1; 3]) && bool_decide (Z.of_nat n ∈ [0; 1; 2]) && IsSlashableValidator v 100)) ∧
  (∃ s' info', ProcessProposerSlashing (H0 := mainnetLedgerConfig) (λ _, Ret 3) (λ _ _, Ret tt) sampleLedger
      (Some (mkProposerSlashing (Some (sampleHeader 1)) (Some (sampleHeader 2)))) (mkExitInfo 0 0 128000000000) = Ret (s', info') ∧
    slashed_iff (H := mainnetBeaconConfig) sampleLedger s' (λ n _, bool_decide (Z.of_nat n = 2))).
Proof.
  destruct (slashings_correct (H0 := mainnetLedgerConfig) (λ _, Ret 3) (λ _ _, Ret tt) (λ _ _, Ret tt) 2048 sampleLedger (mkExitInfo 0 0 128000000000)) as (Hatt & Hprop & _). split.
  - destruct (returned_ret (ProcessAttesterSlashing (H0 := mainnetLedgerConfig) (λ _, Ret 3) (λ _ _, Ret tt) 2048 sampleLedger
      (Some (mkAttesterSlashing (Some (sampleVote 5 [0; 1; 3])) (Some (sampleVote 6 [0; 1; 2])))) (mkExitInfo 0 0 128000000000))) as [[s' info'] Hrun]; [vm_compute; reflexivity|].
    exists s', info'. split; [exact Hrun|]. apply (Hatt (sampleVote 5 [0; 1; 3]) (sampleVote 6 [0; 1; 2]) s' info'); [|exact Hrun].
    intros i. cbn. rewrite !elem_of_cons, elem_of_nil. intros [?|[?|[?|[]]]]; lia.
  - destruct (returned_ret (ProcessProposerSlashing (H0 := mainnetLedgerConfig) (λ _, Ret 3) (λ _ _, Ret tt) sampleLedger
      (Some (mkProposerSlashing (Some (sampleHeader 1)) (Some (sampleHeader 2)))) (mkExitInfo 0 0 128000000000))) as [[s' info'] Hrun]; [vm_compute; reflexivity|].
    exists s', info'. split; [exact Hrun|]. apply (Hprop (sampleHeader 1) (sampleHeader 2) s' info'); [done|exact Hrun].
Defined.
