(* ===== verification/Withdrawals.v ===== *)
(** * Withdrawals

    Models the withdrawals of a block: which ones the state expects
    ([state/state-native/getters_withdrawal.go]), how a payload's are checked and applied
    and how credentials change ([core/blocks/withdrawals.go]), the predicates on
    validators of [core/helpers/validators.go], and the withdrawal requests of the
    execution layer ([core/electra/withdrawals.go]).  The hash tree root of one
    withdrawal is generated code and an argument. *)

From S2P Require Import Prelude MathHelper Primitives SlotTime Shuffle Committee ExitQueue Bytes Sha256 Merkle Ssz Ledger.

(** [enginev1.Withdrawal] *)
Record Withdrawal := mkWithdrawal {
  WithdrawalIndex : Z;
  WithdrawalValidatorIndex : Z;
  WithdrawalAddress : list Z;
  WithdrawalAmount : Z
}.

(** [enginev1.WithdrawalRequest] *)
Record WithdrawalRequest := mkWithdrawalRequest {
  RequestSourceAddress : list Z;
  RequestValidatorPubkey : list Z;
  RequestAmount : Z
}.

(** [ethpb.BLSToExecutionChange] *)
Record BLSToExecutionChange := mkBLSChange {
  ChangeValidatorIndex : Z;
  FromBlsPubkey : list Z;
  ToExecutionAddress : list Z
}.

(** What [ProcessWithdrawals] reads of the payload: a blinded one has only the root. *)
Inductive ExecutionData :=
| Blinded (withdrawalsRoot : list Z)
| Payload (withdrawals : list Withdrawal).

Definition ETH1AddressOffset : Z := 12.

(** [creds[12:]] *)
Definition credentialAddress (v : Validator) : outcome (list Z) :=
  goSlice (ValWithdrawalCredentials v) ETH1AddressOffset (Z.of_nat (length (ValWithdrawalCredentials v))).

Definition IsSameWithdrawalCredentials (a b : Validator) : bool :=
  if (length (ValWithdrawalCredentials a) <=? 12)%nat || (length (ValWithdrawalCredentials b) <=? 12)%nat then false
  else bool_decide (drop 12 (ValWithdrawalCredentials a) = drop 12 (ValWithdrawalCredentials b)).

(** The loops that add up the amounts of one validator. *)
Fixpoint withdrawnLoop (ws : list Withdrawal) (idx total : Z) : Z :=
  match ws with
  | [] => total
  | w :: ws => withdrawnLoop ws idx (if WithdrawalValidatorIndex w =? idx then total +w WithdrawalAmount w else total)
  end.
Fixpoint pendingLoop (ps : list PendingPartialWithdrawal) (idx total : Z) : Z :=
  match ps with
  | [] => total
  | p :: ps => pendingLoop ps idx (if PartialIndex p =? idx then total +w PartialAmount p else total)
  end.

Section withdrawals.
Context `{LedgerConfig}.

(** ** Predicates *)

(** [fork >= version.Electra] *)
Definition electraFork (fork : ForkVersion) : bool := versionNumber Electra <=? versionNumber fork.

Definition IsFullyWithdrawableValidator (val : Validator) (balance epoch : Z) (fork : ForkVersion) : outcome bool :=
  if balance <=? 0 then Ret false
  else if electraFork fork then
    c <-? HasExecutionWithdrawalCredentials val;; Ret (c && (WithdrawableEpoch val <=? epoch))
  else c <-? HasETH1WithdrawalCredentials val;; Ret (c && (WithdrawableEpoch val <=? epoch)).

Definition isPartiallyWithdrawableValidatorElectra (val : Validator) (balance : Z) : outcome bool :=
  maxEB <-? ValidatorMaxEffectiveBalance val;;
  let hasMaxBalance := EffectiveBalance val =? maxEB in
  let hasExcessBalance := maxEB <? balance in
  c <-? HasExecutionWithdrawalCredentials val;;
  Ret (c && hasMaxBalance && hasExcessBalance).

Definition isPartiallyWithdrawableValidatorCapella (val : Validator) (balance : Z) : outcome bool :=
  let hasMaxBalance := EffectiveBalance val =? MaxEffectiveBalance in
  let hasExcessBalance := MaxEffectiveBalance <? balance in
  c <-? HasETH1WithdrawalCredentials val;;
  Ret (c && hasExcessBalance && hasMaxBalance).

Definition IsPartiallyWithdrawableValidator (val : Validator) (balance : Z) (fork : ForkVersion) : outcome bool :=
  if negb (electraFork fork) then isPartiallyWithdrawableValidatorCapella val balance
  else isPartiallyWithdrawableValidatorElectra val balance.

(** ** Expected withdrawals *)

(** What the loops carry: the withdrawals so far and the next index to give. *)
Record Sweep := mkSweep { SweepWithdrawals : list Withdrawal; SweepIndex : Z }.

Definition addWithdrawal (idx : Z) (address : list Z) (amount : Z) (c : Sweep) : Sweep :=
  mkSweep (SweepWithdrawals c ++ [mkWithdrawal (SweepIndex c) idx address amount]) (SweepIndex c +w 1).

(** One pending partial withdrawal. *)
Definition partialStep (s : Ledger) (w : PendingPartialWithdrawal) (c : Sweep) : outcome Sweep :=
  v <-? omap_err (λ e, wrapErr e "failed to determine withdrawals at index") (ValidatorAt s (PartialIndex w));;
  vBal <-? omap_err (λ e, wrapErr e "could not retrieve balance at index") (BalanceAtIndex s (PartialIndex w));;
  let hasSufficientEffectiveBalance := MinActivationBalance <=? EffectiveBalance v in
  let totalWithdrawn := withdrawnLoop (SweepWithdrawals c) (PartialIndex w) 0 in
  balance <-? omap_err (λ e, wrapErr e "failed to subtract balance with total withdrawn") (Sub64 vBal totalWithdrawn);;
  let hasExcessBalance := MinActivationBalance <? balance in
  if (ExitEpoch v =? FarFutureEpoch) && hasSufficientEffectiveBalance && hasExcessBalance then
    let amount := Z.min (balance -w MinActivationBalance) (PartialAmount w) in
    address <-? credentialAddress v;;
    Ret (addWithdrawal (PartialIndex w) address amount c)
  else Ret c.

Fixpoint partialLoop (s : Ledger) (epoch : Z) (ps : list PendingPartialWithdrawal) (c : Sweep) (processed : Z) : outcome (Sweep * Z) :=
  match ps with
  | [] => Ret (c, processed)
  | w :: ps =>
      if (epoch <? PartialWithdrawableEpoch w) || (MaxPendingPartialsPerWithdrawalsSweep <=? Z.of_nat (length (SweepWithdrawals c)))
      then Ret (c, processed)
      else c <-? partialStep s w c;; partialLoop s epoch ps c (processed +w 1)
  end.

(** One validator of the sweep. *)
Definition sweepStep (s : Ledger) (epoch validatorIndex : Z) (c : Sweep) : outcome Sweep :=
  val <-? omap_err (λ e, wrapErr e "could not retrieve validator at index") (ValidatorAt s validatorIndex);;
  balance <-? omap_err (λ e, wrapErr e "could not retrieve balance at index") (BalanceAtIndex s validatorIndex);;
  balance <-? (if versionAtLeast Electra s
               then omap_err (λ e, wrapErr e "could not subtract balance with partial withdrawn balance")
                      (Sub64 balance (withdrawnLoop (SweepWithdrawals c) validatorIndex 0))
               else Ret balance);;
  full <-? IsFullyWithdrawableValidator val balance epoch (Version s);;
  if full : bool then
    address <-? credentialAddress val;; Ret (addWithdrawal validatorIndex address balance c)
  else
    partial <-? IsPartiallyWithdrawableValidator val balance (Version s);;
    if partial : bool then
      address <-? credentialAddress val;;
      maxEB <-? ValidatorMaxEffectiveBalance val;;
      Ret (addWithdrawal validatorIndex address (balance -w maxEB) c)
    else Ret c.

(** The loop makes at most [n] rounds. *)
Fixpoint sweepLoop (s : Ledger) (epoch : Z) (n : nat) (validatorIndex : Z) (c : Sweep) : outcome Sweep :=
  match n with
  | O => Ret c
  | S n =>
      c <-? sweepStep s epoch validatorIndex c;;
      if Z.of_nat (length (SweepWithdrawals c)) =? MaxWithdrawalsPerPayload then Ret c
      else sweepLoop s epoch n (if validatorIndex +w 1 =? NumValidators s then 0 else validatorIndex +w 1) c
  end.

Definition ExpectedWithdrawals (s : Ledger) : outcome (list Withdrawal * Z) :=
  if negb (versionAtLeast Capella s) then Err (errNotSupported "ExpectedWithdrawals")
  else
    let epoch := LedgerEpoch s in
    res <-? (if versionAtLeast Electra s then partialLoop s epoch (PendingPartialWithdrawals s) (mkSweep [] (NextWithdrawalIndex s)) 0
             else Ret (mkSweep [] (NextWithdrawalIndex s), 0));;
    let bound := Min (NumValidators s) MaxValidatorsPerWithdrawalsSweep in
    c <-? sweepLoop s epoch (Z.to_nat bound) (NextWithdrawalValidatorIndex s) res.1;;
    Ret (SweepWithdrawals c, res.2).

(** ** Setters *)

Definition SetNextWithdrawalIndex (s : Ledger) (i : Z) : outcome Ledger :=
  if negb (versionAtLeast Capella s) then Err (errNotSupported "SetNextWithdrawalIndex") else Ret (setNextWithdrawalIndex i s).
Definition SetNextWithdrawalValidatorIndex (s : Ledger) (i : Z) : outcome Ledger :=
  if negb (versionAtLeast Capella s) then Err (errNotSupported "SetNextWithdrawalValidatorIndex")
  else Ret (setNextWithdrawalValidatorIndex i s).
Definition AppendPendingPartialWithdrawal (s : Ledger) (ppw : PendingPartialWithdrawal) : outcome Ledger :=
  if negb (versionAtLeast Electra s) then Err (errNotSupported "AppendPendingPartialWithdrawal")
  else Ret (setPendingPartialWithdrawals (PendingPartialWithdrawals s ++ [ppw]) s).
Definition DequeuePendingPartialWithdrawals (s : Ledger) (n : Z) : outcome Ledger :=
  if negb (versionAtLeast Electra s) then Err (errNotSupported "DequeuePendingPartialWithdrawals")
  else if Z.of_nat (length (PendingPartialWithdrawals s)) <? n then Err "cannot dequeue more withdrawals than are in the queue"
  else if n =? 0 then Ret s
  else Ret (setPendingPartialWithdrawals (drop (Z.to_nat n) (PendingPartialWithdrawals s)) s).

(** [PendingBalanceToWithdraw] and [HasPendingBalanceToWithdraw] *)
Definition PendingBalanceToWithdraw (s : Ledger) (idx : Z) : outcome Z :=
  if negb (versionAtLeast Electra s) then Err (errNotSupported "PendingBalanceToWithdraw")
  else Ret (pendingLoop (PendingPartialWithdrawals s) idx 0).
Definition HasPendingBalanceToWithdraw (s : Ledger) (idx : Z) : outcome bool :=
  if negb (versionAtLeast Electra s) then Err (errNotSupported "HasPendingBalanceToWithdraw")
  else Ret (existsb (λ w, (PartialIndex w =? idx) && (0 <? PartialAmount w)) (PendingPartialWithdrawals s)).

(** ** Processing the payload *)

Fixpoint decreaseAll (s : Ledger) (ws : list Withdrawal) : outcome Ledger :=
  match ws with
  | [] => Ret s
  | w :: ws =>
      s <-? omap_err (λ e, wrapErr e "could not decrease balance") (DecreaseBalance s (WithdrawalValidatorIndex w) (WithdrawalAmount w));;
      decreaseAll s ws
  end.

Section payload.
Context `{Sha256} `{!Gohashtree} `{!GoRuntime} (withdrawalRoot : Withdrawal → outcome (list Z)).

Definition WithdrawalSliceRoot (ws : list Withdrawal) (limit : Z) : outcome (list Z) := SliceRoot (map withdrawalRoot ws) limit.

Definition payloadRoot (executionData : ExecutionData) (expected : list Withdrawal) : outcome (list Z) :=
  match executionData with
  | Blinded r => Ret (ToBytes32 r)
  | Payload wds =>
      if negb (length wds =? length expected)%nat then Err "execution payload header has the wrong number of withdrawals"
      else omap_err (λ e, wrapErr e "could not get withdrawals root") (WithdrawalSliceRoot wds MaxWithdrawalsPerPayload)
  end.

Definition ProcessWithdrawals (s : Ledger) (executionData : ExecutionData) : outcome Ledger :=
  res <-? omap_err (λ e, wrapErr e "could not get expected withdrawals") (ExpectedWithdrawals s);;
  let '(expectedWithdrawals, processedPartialWithdrawalsCount) := res in
  wdRoot <-? payloadRoot executionData expectedWithdrawals;;
  expectedRoot <-? omap_err (λ e, wrapErr e "could not get expected withdrawals root")
                     (WithdrawalSliceRoot expectedWithdrawals MaxWithdrawalsPerPayload);;
  if negb (bool_decide (expectedRoot = wdRoot)) then Err "unexpected withdrawals root"
  else
    s <-? decreaseAll s expectedWithdrawals;;
    s <-? (if versionAtLeast Electra s
           then omap_err (λ e, wrapErr e "unable to dequeue partial withdrawals from state")
                  (DequeuePendingPartialWithdrawals s processedPartialWithdrawalsCount)
           else Ret s);;
    s <-? (match last expectedWithdrawals with
           | Some w => omap_err (λ e, wrapErr e "could not set next withdrawal index") (SetNextWithdrawalIndex s (WithdrawalIndex w +w 1))
           | None => Ret s
           end);;
    nextValidatorIndex <-? (if Z.of_nat (length expectedWithdrawals) <? MaxWithdrawalsPerPayload
                            then if NumValidators s =? 0 then Panic ErrDivByZero
                                 else Ret ((NextWithdrawalValidatorIndex s +w MaxValidatorsPerWithdrawalsSweep) mod NumValidators s)
                            else match last expectedWithdrawals with
                                 | None => Panic "index out of range"
                                 | Some w => let i := WithdrawalValidatorIndex w +w 1 in Ret (if i =? NumValidators s then 0 else i)
                                 end);;
    omap_err (λ e, wrapErr e "could not set next withdrawal validator index") (SetNextWithdrawalValidatorIndex s nextValidatorIndex).

(** ** Changes of credentials *)

Definition errNilSignedWithdrawalMessage : error := "nil SignedBLSToExecutionChange message".
Definition errNilWithdrawalMessage : error := "nil BLSToExecutionChange message".
Definition errInvalidBLSPrefix : error := "withdrawal credential prefix is not a BLS prefix".
Definition errInvalidWithdrawalCredentials : error := "withdrawal credentials do not match".

(** The outer [None] is a nil signed message, the inner one a nil message. *)
Definition ValidateBLSToExecutionChange (s : Ledger) (signed : option (option BLSToExecutionChange)) : outcome Validator :=
  match signed with
  | None => Err errNilSignedWithdrawalMessage
  | Some None => Err errNilWithdrawalMessage
  | Some (Some message) =>
      val <-? ValidatorAt s (ChangeValidatorIndex message);;
      let cred := ValWithdrawalCredentials val in
      match cred with
      | b :: _ :: _ =>
          if negb (b =? BLSWithdrawalPrefixByte) then Err errInvalidBLSPrefix
          else if negb (bool_decide (drop 1 (Hash (FromBlsPubkey message)) = drop 1 cred)) then Err errInvalidWithdrawalCredentials
          else Ret val
      | _ => Err errInvalidBLSPrefix
      end
  end.

Definition executionToBLSPadding : nat := 12.

Definition processBLSToExecutionChange (s : Ledger) (signed : option (option BLSToExecutionChange)) : outcome Ledger :=
  val <-? ValidateBLSToExecutionChange s signed;;
  match signed with
  | None | Some None => Panic "nil pointer dereference"
  | Some (Some message) =>
      let newCredentials := ETH1AddressWithdrawalPrefixByte :: replicate (executionToBLSPadding - 1) 0 in
      UpdateValidatorAt s (ChangeValidatorIndex message) (withCredentials (newCredentials ++ ToExecutionAddress message) val)
  end.

Fixpoint changesLoop (s : Ledger) (changes : list (option (option BLSToExecutionChange))) : outcome Ledger :=
  match changes with
  | [] => Ret s
  | c :: changes =>
      s <-? omap_err (λ e, wrapErr e "could not process BLSToExecutionChange") (processBLSToExecutionChange s c);;
      changesLoop s changes
  end.
Definition ProcessBLSToExecutionChanges (s : Ledger) (blockVersion : ForkVersion) (changes : list (option (option BLSToExecutionChange))) : outcome Ledger :=
  if versionNumber blockVersion <? versionNumber Capella then Ret s else changesLoop s changes.
End payload.

(** ** Requests of the execution layer *)

(** A call of the exit queue; on an error the caller drops the state. *)
Definition liftExit {A} (r : ExitState * outcome A) (s : Ledger) : outcome (Ledger * A) :=
  a <-? r.2;; Ret (setRegistry r.1 s, a).

Definition withdrawalRequestStep (currentEpoch : Z) (s : Ledger) (wr : WithdrawalRequest) : outcome Ledger :=
  let amount := RequestAmount wr in
  let isFullExitRequest := amount =? FullExitRequestAmount in
  if negb (versionAtLeast Electra s) then Err (errNotSupported "NumPendingPartialWithdrawals")
  else if (Z.of_nat (length (PendingPartialWithdrawals s)) =? PendingPartialWithdrawalsLimit) && negb isFullExitRequest then Ret s
  else
    match ValidatorIndexByPubkey s (ToBytes48 (RequestValidatorPubkey wr)) with
    | None => Ret s
    | Some vIdx =>
        validator <-? ValidatorAt s vIdx;;
        hasCorrectCredential <-? HasExecutionWithdrawalCredentials validator;;
        address <-? credentialAddress validator;;
        let isCorrectSourceAddress := bool_decide (address = RequestSourceAddress wr) in
        if negb hasCorrectCredential || negb isCorrectSourceAddress then Ret s
        else if negb (IsActiveValidator validator currentEpoch) then Ret s
        else if negb (ExitEpoch validator =? FarFutureEpoch) then Ret s
        else
          longEnough <-? Epoch_AddEpoch (ActivationEpoch validator) ShardCommitteePeriod;;
          if currentEpoch <? longEnough then Ret s
          else
            pendingBalanceToWithdraw <-? PendingBalanceToWithdraw s vIdx;;
            if isFullExitRequest then
              if pendingBalanceToWithdraw =? 0 then
                let '(r, _, res) := InitiateValidatorExit (registry s) vIdx (ExitInformation (registry s)) in
                x <-? liftExit (r, res) s;; Ret x.1
              else Ret s
            else
              let hasSufficientEffectiveBalance := MinActivationBalance <=? EffectiveBalance validator in
              vBal <-? BalanceAtIndex s vIdx;;
              let hasExcessBalance := (MinActivationBalance +w pendingBalanceToWithdraw) <? vBal in
              compounding <-? HasCompoundingWithdrawalCredentials validator;;
              if compounding && hasSufficientEffectiveBalance && hasExcessBalance then
                let toWithdraw := Z.min (vBal -w MinActivationBalance -w pendingBalanceToWithdraw) amount in
                x <-? liftExit (ExitEpochAndUpdateChurn (registry s) toWithdraw) s;;
                let '(s, exitQueueEpoch) := x in
                withdrawableEpoch <-? omap_err (λ e, wrapErr e "failed to add withdrawability delay to exit queue epoch")
                                        (Epoch_SafeAddEpoch exitQueueEpoch MinValidatorWithdrawabilityDelay);;
                AppendPendingPartialWithdrawal s (mkPartial vIdx toWithdraw withdrawableEpoch)
              else Ret s
    end.

(** [None] is a nil request.  The slot does not change in the loop. *)
Fixpoint ProcessWithdrawalRequests (s : Ledger) (wrs : list (option WithdrawalRequest)) : outcome Ledger :=
  match wrs with
  | [] => Ret s
  | None :: _ => Err "nil execution layer withdrawal request"
  | Some wr :: wrs => s <-? withdrawalRequestStep (LedgerEpoch s) s wr;; ProcessWithdrawalRequests s wrs
  end.
End withdrawals.
