(* ===== verification/WithdrawalsCorrect.v ===== *)
(** * Correctness of withdrawals

    A state whose indices are in range always has a list of expected withdrawals.  They
    never take more than a validator has, and the payload that carries them is applied by
    debiting exactly these amounts.  The sweep is fair: every validator that it passes has
    nothing left to withdraw. *)

From S2P Require Import Prelude MathHelper Primitives SlotTime Shuffle Committee ExitQueue Bytes Sha256 Merkle Ssz SszRoots Ledger Withdrawals.

(** What [ws] takes from validator [i]. *)
Definition withdrawn (ws : list Withdrawal) (i : Z) : Z :=
  Zsum (map (λ w, if WithdrawalValidatorIndex w =? i then WithdrawalAmount w else 0) ws).

Section withdrawals.
Context `{LedgerConfig}.

(** The indices that withdrawals depend on are in range. *)
Record withdrawals_ready (s : Ledger) : Prop := {
  wr_ledger : ledger_ok s;
  wr_next : known s (NextWithdrawalValidatorIndex s);
  wr_partials : Forall (λ w, known s (PartialIndex w) ∧ is_u64 (PartialAmount w)) (PendingPartialWithdrawals s);
  wr_queue : Z.of_nat (length (PendingPartialWithdrawals s)) < two64;
  wr_index : is_u64 (NextWithdrawalIndex s)
}.

(** The invariant of the loops. *)
Record sweep_ok (s : Ledger) (c : Sweep) : Prop := {
  so_known : Forall (λ w, known s (WithdrawalValidatorIndex w) ∧ 0 ≤ WithdrawalAmount w) (SweepWithdrawals c);
  so_bound : ∀ i b, known s i → Balances s !! Z.to_nat i = Some b → withdrawn (SweepWithdrawals c) i ≤ b;
  so_index : ∀ j w, SweepWithdrawals c !! j = Some w → WithdrawalIndex w = wrap64 (NextWithdrawalIndex s + Z.of_nat j);
  so_next : SweepIndex c = wrap64 (NextWithdrawalIndex s + Z.of_nat (length (SweepWithdrawals c)))
}.

(** [c'] extends [c] by at most one withdrawal, from validator [i]. *)
Definition extends (i : Z) (c c' : Sweep) : Prop :=
  SweepWithdrawals c' = SweepWithdrawals c ∨
  ∃ w, SweepWithdrawals c' = SweepWithdrawals c ++ [w] ∧ WithdrawalValidatorIndex w = i.

(** ** Sums *)

Lemma withdrawn_app ws ws' i : withdrawn (ws ++ ws') i = withdrawn ws i + withdrawn ws' i.
Proof. unfold withdrawn. by rewrite map_app, Zsum_app. Qed.

Lemma withdrawn_one w i : withdrawn [w] i = if WithdrawalValidatorIndex w =? i then WithdrawalAmount w else 0.
Proof. unfold withdrawn. cbn. lia. Qed.

Lemma withdrawn_nonneg ws i : Forall (λ w, 0 ≤ WithdrawalAmount w) ws → 0 ≤ withdrawn ws i.
Proof. unfold withdrawn. induction 1; cbn; [lia|]. case_if; lia. Qed.

Lemma withdrawnLoop_sum ws i : ∀ t,
  Forall (λ w, 0 ≤ WithdrawalAmount w) ws → 0 ≤ t → t + withdrawn ws i < two64 → withdrawnLoop ws i t = t + withdrawn ws i.
Proof.
  induction ws as [|w ws IH]; intros t Hw Ht Hsum; [unfold withdrawn; cbn; lia|].
  apply Forall_cons in Hw as [Hw Hws]. pose proof (withdrawn_nonneg ws i Hws) as Hnn.
  change (w :: ws) with ([w] ++ ws) in *. rewrite withdrawn_app, withdrawn_one in *. cbn.
  destruct (WithdrawalValidatorIndex w =? i) eqn:E; [|rewrite IH by (done || lia); lia].
  rewrite wrap64_small by (unfold is_u64; lia). rewrite IH by (done || lia). lia.
Qed.

Lemma sweep_amounts s c : sweep_ok s c → Forall (λ w, 0 ≤ WithdrawalAmount w) (SweepWithdrawals c).
Proof. intros Hc. eapply Forall_impl; [apply (so_known _ _ Hc)|]. by intros w [_ ?]. Qed.

(** The balance that the loops compute. *)
Lemma sweep_withdrawn s c i b :
  sweep_ok s c → known s i → Balances s !! Z.to_nat i = Some b → is_u64 b →
  withdrawnLoop (SweepWithdrawals c) i 0 = withdrawn (SweepWithdrawals c) i ∧ 0 ≤ withdrawn (SweepWithdrawals c) i ≤ b.
Proof.
  intros Hc Hi Hb Hu. pose proof (so_bound _ _ Hc i b Hi Hb). pose proof (withdrawn_nonneg _ i (sweep_amounts _ _ Hc)).
  split; [|done]. rewrite withdrawnLoop_sum; [lia|by eapply sweep_amounts|lia|unfold is_u64 in Hu; lia].
Qed.

Lemma sweep_left s c i b :
  sweep_ok s c → known s i → Balances s !! Z.to_nat i = Some b → is_u64 b →
  Sub64 b (withdrawnLoop (SweepWithdrawals c) i 0) = Ret (b - withdrawn (SweepWithdrawals c) i) ∧
  is_u64 (b - withdrawn (SweepWithdrawals c) i).
Proof.
  intros Hc Hi Hb Hu. destruct (sweep_withdrawn _ _ _ _ Hc Hi Hb Hu) as [-> Hr]. unfold is_u64 in *.
  rewrite Sub64_spec by (unfold is_u64; lia). rewrite (proj2 (Z.leb_le _ _)) by lia. split; [done|lia].
Qed.

(** ** The steps *)

Lemma addWithdrawal_ok s c i address amount b :
  sweep_ok s c → known s i → Balances s !! Z.to_nat i = Some b → 0 ≤ amount ≤ b - withdrawn (SweepWithdrawals c) i →
  sweep_ok s (addWithdrawal i address amount c).
Proof.
  intros Hc Hi Hb Ham. split; cbn [addWithdrawal SweepWithdrawals SweepIndex].
  - apply Forall_app_2; [apply Hc|]. apply Forall_singleton. cbn. split; [done|lia].
  - intros j b' Hj Hb'. rewrite withdrawn_app, withdrawn_one. cbn [WithdrawalValidatorIndex WithdrawalAmount]. case_if; [|pose proof (so_bound _ _ Hc j b' Hj Hb'); lia].
    subst j. assert (b' = b) as -> by congruence. lia.
  - intros j w [Hw|(Hj & Hw)]%lookup_app_Some; [by apply (so_index _ _ Hc)|].
    apply list_lookup_singleton_Some in Hw as [Hz <-]. cbn. rewrite (so_next _ _ Hc). do 2 f_equal. lia.
  - rewrite (so_next _ _ Hc), wrap64_add_l, length_app. cbn [length]. f_equal. lia.
Qed.

Lemma addWithdrawal_extends i address amount c : extends i c (addWithdrawal i address amount c).
Proof. right. eexists. split; reflexivity. Qed.

Lemma credentialAddress_run v : length (ValWithdrawalCredentials v) = 32%nat → credentialAddress v = Ret (drop 12 (ValWithdrawalCredentials v)).
Proof.
  intros Hl. unfold credentialAddress, goSlice, ETH1AddressOffset. rewrite Hl. cbn -[take drop]. f_equal. apply take_ge.
  rewrite length_drop. lia.
Qed.

Lemma partialStep_run s c w :
  ledger_ok s → sweep_ok s c → known s (PartialIndex w) → is_u64 (PartialAmount w) →
  ∃ c', partialStep s w c = Ret c' ∧ sweep_ok s c' ∧ extends (PartialIndex w) c c'.
Proof.
  intros Hok Hc Hi Hu. destruct (known_validator _ _ Hi) as (v & Hv & Hva). destruct (known_balance _ _ Hok Hi) as (b & Hb & Hba & Hub).
  destruct (sweep_left _ _ _ _ Hc Hi Hb Hub) as [Hl Hul]. unfold partialStep. rewrite Hva, Hba. cbn [omap_err obind].
  rewrite Hl. cbn [omap_err obind]. set (l := b - _) in *.
  case_if; [|eexists; split_and!; [done|done|by left]].
  bprop. rewrite (credentialAddress_run _ (validator_creds _ _ _ Hok Hv)). cbn [obind].
  eexists. split_and!; [done| |apply addWithdrawal_extends].
  eapply addWithdrawal_ok; [done..|]. fold l. pose proof balances_range. pose proof EffectiveBalanceIncrement_range.
  unfold is_u64 in *. rewrite wrap64_small by (unfold is_u64; lia). lia.
Qed.
Lemma extends_length i c c' : extends i c c' → (length (SweepWithdrawals c) ≤ length (SweepWithdrawals c') ≤ S (length (SweepWithdrawals c)))%nat.
Proof. intros [->|(w & -> & _)]; [lia|]. rewrite length_app. cbn [length]. lia. Qed.

Lemma extends_withdrawn i j c c' : extends i c c' → j ≠ i → withdrawn (SweepWithdrawals c') j = withdrawn (SweepWithdrawals c) j.
Proof.
  intros [->|(w & -> & Hw)] Hj; [done|]. rewrite withdrawn_app, withdrawn_one, Hw. rewrite (proj2 (Z.eqb_neq _ _)) by done. lia.
Qed.

Lemma partialLoop_run s epoch ps : ∀ c k,
  ledger_ok s → sweep_ok s c → Forall (λ w, known s (PartialIndex w) ∧ is_u64 (PartialAmount w)) ps →
  Z.of_nat (length (SweepWithdrawals c)) ≤ MaxPendingPartialsPerWithdrawalsSweep → 0 ≤ k → k + Z.of_nat (length ps) < two64 →
  ∃ c' k', partialLoop s epoch ps c k = Ret (c', k') ∧ sweep_ok s c' ∧ k ≤ k' ≤ k + Z.of_nat (length ps) ∧
    Z.of_nat (length (SweepWithdrawals c')) ≤ MaxPendingPartialsPerWithdrawalsSweep.
Proof.
  induction ps as [|w ps IH]; intros c k Hok Hc Hps Hlen Hk Hsum; cbn [partialLoop length].
  { exists c, k. split_and!; [done|done|lia..]. }
  apply Forall_cons in Hps as [[Hi Hu] Hps]. case_if; [exists c, k; cbn [length] in Hsum; split_and!; [done|done|lia..]|].
  cbn [length] in Hsum. destruct (partialStep_run _ _ _ Hok Hc Hi Hu) as (c1 & -> & Hc1 & He). cbn [obind].
  pose proof (extends_length _ _ _ He). rewrite wrap64_small by (unfold is_u64; lia).
  destruct (IH c1 (k + 1) Hok Hc1 Hps) as (c' & k' & -> & Hc' & Hk' & Hl'); [lia..|].
  exists c', k'. split_and!; [done|done|lia..].
Qed.

(** Nothing is left to withdraw from a validator with balance [b]. *)
Definition exhausted (s : Ledger) (v : Validator) (b : Z) : Prop :=
  IsFullyWithdrawableValidator v b (LedgerEpoch s) (Version s) = Ret false ∧
  IsPartiallyWithdrawableValidator v b (Version s) = Ret false.

Lemma full_run v b epoch fork :
  length (ValWithdrawalCredentials v) = 32%nat →
  IsFullyWithdrawableValidator v b epoch fork =
    Ret ((0 <? b) && (if electraFork fork then isETH1 v || isCompounding v else isETH1 v) && (WithdrawableEpoch v <=? epoch)).
Proof.
  intros Hv. unfold IsFullyWithdrawableValidator. rewrite (HasExecution_run _ Hv), (HasETH1_run _ Hv).
  destruct (b <=? 0) eqn:E; bprop.
  - by rewrite (proj2 (Z.ltb_ge _ _)) by lia.
  - rewrite (proj2 (Z.ltb_lt _ _)) by lia. by destruct (electraFork fork).
Qed.

(** On both forks the cap of the partial withdrawal is that of the validator. *)
Lemma partial_run v b fork :
  length (ValWithdrawalCredentials v) = 32%nat →
  IsPartiallyWithdrawableValidator v b fork =
    Ret ((if electraFork fork then isETH1 v || isCompounding v else isETH1 v) && (EffectiveBalance v =? capOf v) && (capOf v <? b)).
Proof.
  intros Hv. unfold IsPartiallyWithdrawableValidator. destruct (electraFork fork); cbn [negb].
  - unfold isPartiallyWithdrawableValidatorElectra. rewrite (MaxEffectiveBalance_run _ Hv), (HasExecution_run _ Hv). done.
  - unfold isPartiallyWithdrawableValidatorCapella. rewrite (HasETH1_run _ Hv). cbn [obind]. f_equal.
    destruct (isETH1 v) eqn:E; [|done]. unfold capOf. rewrite (ETH1_not_compounding _ E), activation_balance. cbn. apply andb_comm.
Qed.

Lemma exhausted_zero s v : length (ValWithdrawalCredentials v) = 32%nat → exhausted s v 0.
Proof.
  intros Hv. pose proof (capOf_range v). pose proof EffectiveBalanceIncrement_range. unfold exhausted. rewrite full_run, partial_run by done.
  rewrite (proj2 (Z.ltb_ge (capOf v) 0)) by lia. split; [done|]. f_equal. apply andb_false_r.
Qed.

Lemma exhausted_cap s v b :
  length (ValWithdrawalCredentials v) = 32%nat → capOf v < b →
  IsFullyWithdrawableValidator v b (LedgerEpoch s) (Version s) = Ret false → exhausted s v (capOf v).
Proof.
  intros Hv Hb. pose proof (capOf_range v). pose proof EffectiveBalanceIncrement_range. unfold exhausted. rewrite !full_run, partial_run by done.
  rewrite !(proj2 (Z.ltb_lt 0 _)) by lia. rewrite (Z.ltb_irrefl (capOf v)). intros ->. split; [done|]. f_equal. apply andb_false_r.
Qed.

(** The balance that the sweep looks at. *)
Lemma sweep_balance s c i b :
  sweep_ok s c → known s i → Balances s !! Z.to_nat i = Some b → is_u64 b →
  (versionAtLeast Electra s = false → withdrawn (SweepWithdrawals c) i = 0) →
  (if versionAtLeast Electra s
   then omap_err (λ e, wrapErr e "could not subtract balance with partial withdrawn balance") (Sub64 b (withdrawnLoop (SweepWithdrawals c) i 0))
   else Ret b) = Ret (b - withdrawn (SweepWithdrawals c) i) ∧ is_u64 (b - withdrawn (SweepWithdrawals c) i).
Proof.
  intros Hc Hi Hb Hu Hz. destruct (sweep_left _ _ _ _ Hc Hi Hb Hu) as [Hl Hul]. split; [|done].
  destruct (versionAtLeast Electra s); [by rewrite Hl|]. rewrite Hz by done. f_equal. lia.
Qed.

Lemma addWithdrawal_withdrawn i address amount c :
  withdrawn (SweepWithdrawals (addWithdrawal i address amount c)) i = withdrawn (SweepWithdrawals c) i + amount.
Proof. cbn [addWithdrawal SweepWithdrawals]. rewrite withdrawn_app, withdrawn_one. cbn [WithdrawalValidatorIndex WithdrawalAmount]. by rewrite Z.eqb_refl. Qed.

Lemma sweepStep_run s c i v b :
  ledger_ok s → sweep_ok s c → known s i → Validators s !! Z.to_nat i = Some v → Balances s !! Z.to_nat i = Some b →
  (versionAtLeast Electra s = false → withdrawn (SweepWithdrawals c) i = 0) →
  ∃ c', sweepStep s (LedgerEpoch s) i c = Ret c' ∧ sweep_ok s c' ∧ extends i c c' ∧
    exhausted s v (b - withdrawn (SweepWithdrawals c') i).
Proof.
  intros Hok Hc Hi Hv Hb Hz. destruct (known_validator _ _ Hi) as (v' & Hv' & Hva). destruct (known_balance _ _ Hok Hi) as (b' & Hb' & Hba & Hu).
  rewrite Hv' in Hv. injection Hv as ->. rewrite Hb' in Hb. injection Hb as ->.
  pose proof (validator_creds _ _ _ Hok Hv') as Hcr. destruct (sweep_balance _ _ _ _ Hc Hi Hb' Hu Hz) as [Hl Hul].
  unfold sweepStep. rewrite Hva, Hba. cbn [omap_err obind]. rewrite Hl. cbn [obind]. set (l := b - _) in *.
  destruct (IsFullyWithdrawableValidator v l (LedgerEpoch s) (Version s)) as [full| | |] eqn:Ef; [|rewrite full_run in Ef by done; done..].
  cbn [obind]. destruct full.
  { rewrite (credentialAddress_run _ Hcr). cbn [obind]. eexists. split_and!; [done| |apply addWithdrawal_extends|].
    - eapply addWithdrawal_ok; [done..|]. fold l. unfold is_u64 in Hul. lia.
    - rewrite addWithdrawal_withdrawn. replace (b - _) with 0 by lia. by apply exhausted_zero. }
  destruct (IsPartiallyWithdrawableValidator v l (Version s)) as [partial| | |] eqn:Ep; [|rewrite partial_run in Ep by done; done..].
  cbn [obind]. destruct partial.
  - rewrite (credentialAddress_run _ Hcr), (MaxEffectiveBalance_run _ Hcr). cbn [obind].
    rewrite partial_run in Ep by done. injection Ep as Ep. bprop. pose proof (capOf_range v). pose proof EffectiveBalanceIncrement_range.
    unfold is_u64 in Hul. rewrite wrap64_small by (unfold is_u64; lia).
    eexists. split_and!; [done| |apply addWithdrawal_extends|].
    + eapply addWithdrawal_ok; [done..|]. fold l. lia.
    + rewrite addWithdrawal_withdrawn. replace (b - _) with (capOf v) by lia. by apply (exhausted_cap _ _ l).
  - eexists. split_and!; [done|done|by left|]. by split.
Qed.

(** ** The sweep *)

(** The [k]-th validator of a sweep that starts at [i]. *)
Definition pos (s : Ledger) (i k : Z) : Z := (i + k) mod NumValidators s.

Definition exhaustedAt (s : Ledger) (ws : list Withdrawal) (i : Z) : Prop :=
  ∃ v b, Validators s !! Z.to_nat i = Some v ∧ Balances s !! Z.to_nat i = Some b ∧ exhausted s v (b - withdrawn ws i).

Lemma pos_cases s i k : known s i → 0 ≤ k < NumValidators s → pos s i k = if i + k <? NumValidators s then i + k else i + k - NumValidators s.
Proof.
  unfold known, pos. intros Hi Hk. case_if; [apply Z.mod_small; lia|].
  symmetry. apply (Z.mod_unique _ _ 1); lia.
Qed.

Lemma pos_ne s i k : known s i → 0 < k < NumValidators s → pos s i k ≠ i.
Proof. intros Hi Hk. rewrite pos_cases by (done || lia). case_if; lia. Qed.

Lemma pos_known s i k : known s i → known s (pos s i k).
Proof. unfold known, pos. intros Hi. apply Z.mod_pos_bound. lia. Qed.

Lemma pos_shift s i k : pos s (pos s i 1) k = pos s i (k + 1).
Proof. unfold pos. rewrite Zplus_mod_idemp_l. f_equal. lia. Qed.

Lemma pos_0 s i : known s i → pos s i 0 = i.
Proof. unfold known, pos. intros Hi. rewrite Z.add_0_r. by apply Z.mod_small. Qed.

Lemma next_index s i : ledger_ok s → known s i → (if i +w 1 =? NumValidators s then 0 else i +w 1) = pos s i 1.
Proof.
  intros Hok Hi. pose proof (lo_size _ Hok) as Hs. unfold known, two32 in *. rewrite wrap64_small by (unfold is_u64, two64; lia).
  unfold pos. case_if; [|symmetry; apply Z.mod_small; lia]. by rewrite <- E, Z.mod_same by lia.
Qed.

(** What a sweep of [cnt] rounds from [i] has done when it ends with [c']: it passed [m]
    validators, and stopped early only because the payload is full. *)
Record swept (s : Ledger) (cnt i : Z) (c c' : Sweep) (m : Z) : Prop := {
  sw_ok : sweep_ok s c';
  sw_passed : 0 ≤ m ≤ cnt;
  sw_done : ∀ k, 0 ≤ k < m → exhaustedAt s (SweepWithdrawals c') (pos s i k);
  sw_frame : ∀ j, known s j → (∀ k, 0 ≤ k < cnt → j ≠ pos s i k) → withdrawn (SweepWithdrawals c') j = withdrawn (SweepWithdrawals c) j;
  sw_end : (Z.of_nat (length (SweepWithdrawals c')) < MaxWithdrawalsPerPayload ∧ m = cnt) ∨
           (Z.of_nat (length (SweepWithdrawals c')) = MaxWithdrawalsPerPayload ∧ 0 < m ∧
            ∃ w, last (SweepWithdrawals c') = Some w ∧ WithdrawalValidatorIndex w = pos s i (m - 1))
}.

Lemma sweepLoop_run s n : ∀ i c,
  ledger_ok s → sweep_ok s c → known s i → Z.of_nat n ≤ NumValidators s →
  Z.of_nat (length (SweepWithdrawals c)) < MaxWithdrawalsPerPayload →
  (versionAtLeast Electra s = false → ∀ k, 0 ≤ k < Z.of_nat n → withdrawn (SweepWithdrawals c) (pos s i k) = 0) →
  ∃ c' m, sweepLoop s (LedgerEpoch s) n i c = Ret c' ∧ swept s (Z.of_nat n) i c c' m.
Proof.
  induction n as [|n IH]; intros i c Hok Hc Hi Hn Hlen Hz; cbn [sweepLoop].
  { exists c, 0. split; [done|]. split; [done|lia|lia|done|left; lia]. }
  destruct (known_validator _ _ Hi) as (v & Hv & _). destruct (known_balance _ _ Hok Hi) as (b & Hb & _ & _).
  destruct (sweepStep_run s c i v b Hok Hc Hi Hv Hb) as (c1 & -> & Hc1 & He & Hex).
  { intros Hel. rewrite <- (pos_0 s i Hi). apply Hz; [done|lia]. }
  cbn [obind]. pose proof (extends_length _ _ _ He) as Hlen1. destruct (Z.of_nat (length (SweepWithdrawals c1)) =? MaxWithdrawalsPerPayload) eqn:E; bprop.
  { exists c1, 1. split; [done|]. split; [done|lia|..].
    - intros k Hk. replace k with 0 by lia. rewrite pos_0 by done. by exists v, b.
    - intros j Hj Hne. apply (extends_withdrawn i); [done|]. rewrite <- (pos_0 s i Hi). apply Hne. lia.
    - right. split_and!; [done|lia|]. destruct He as [He|(w & He & Hw)]; [rewrite He in E; lia|]. exists w.
      rewrite He, last_snoc. replace (1 - 1) with 0 by lia. by rewrite pos_0. }
  rewrite (next_index _ _ Hok Hi). destruct (IH (pos s i 1) c1 Hok Hc1) as (c' & m & -> & Hsw); [by apply pos_known|lia|lia| |].
  { intros Hel k Hk. rewrite pos_shift, (extends_withdrawn i _ c c1 He) by (apply pos_ne; [done|lia]). apply Hz; [done|lia]. }
  exists c', (m + 1). destruct Hsw as [Hok' Hm Hdone Hframe Hend]. split; [done|]. split; [done|lia|..].
  - intros k Hk. destruct (decide (k = 0)) as [->|Hk0].
    + rewrite pos_0 by done. exists v, b. split_and!; [done..|]. rewrite Hframe; [done|done|]. intros k Hk1. rewrite pos_shift.
      intros Heq. symmetry in Heq. revert Heq. apply pos_ne; [done|lia].
    + replace k with (k - 1 + 1) by lia. rewrite <- pos_shift. apply Hdone. lia.
  - intros j Hj Hne. rewrite Hframe; [|done|].
    + apply (extends_withdrawn i); [done|]. rewrite <- (pos_0 s i Hi). apply Hne. lia.
    + intros k Hk. rewrite pos_shift. apply Hne. lia.
  - destruct Hend as [[Hl ->]|(Hl & Hm0 & w & Hw & Hwi)]; [left; lia|]. right. split_and!; [done|lia|]. exists w. split; [done|].
    rewrite Hwi, pos_shift. f_equal. lia.
Qed.

Lemma sweep_start_ok s : ledger_ok s → is_u64 (NextWithdrawalIndex s) → sweep_ok s (mkSweep [] (NextWithdrawalIndex s)).
Proof.
  intros Hok Hu. split; cbn [SweepWithdrawals SweepIndex length]; [constructor| |done|].
  - intros i b Hi Hb. pose proof (Forall_lookup_1 _ _ _ _ (lo_amounts _ Hok) Hb) as Hub. unfold withdrawn, is_u64 in *. cbn. lia.
  - by rewrite Z.add_0_r, wrap64_small.
Qed.

Definition sweepBound (s : Ledger) : Z := Min (NumValidators s) MaxValidatorsPerWithdrawalsSweep.

Lemma sweepBound_min s : sweepBound s = Z.min (NumValidators s) MaxValidatorsPerWithdrawalsSweep.
Proof. unfold sweepBound, Min. case_if; lia. Qed.

Lemma ExpectedWithdrawals_run s :
  withdrawals_ready s → versionAtLeast Capella s = true →
  ∃ c0 c m k, ExpectedWithdrawals s = Ret (SweepWithdrawals c, k) ∧ swept s (sweepBound s) (NextWithdrawalValidatorIndex s) c0 c m ∧
    0 ≤ k ≤ Z.of_nat (length (PendingPartialWithdrawals s)) ∧ (versionAtLeast Electra s = false → k = 0).
Proof.
  intros [Hok Hn Hp Hq Hx] Hv. unfold ExpectedWithdrawals. rewrite Hv. cbn [negb]. pose proof withdrawals_range as Hr.
  pose proof (sweep_start_ok s Hok Hx) as Hstart.
  assert (∃ c0 k, (if versionAtLeast Electra s then partialLoop s (LedgerEpoch s) (PendingPartialWithdrawals s) (mkSweep [] (NextWithdrawalIndex s)) 0
             else Ret (mkSweep [] (NextWithdrawalIndex s), 0)) = Ret (c0, k) ∧ sweep_ok s c0 ∧
             0 ≤ k ≤ Z.of_nat (length (PendingPartialWithdrawals s)) ∧ Z.of_nat (length (SweepWithdrawals c0)) < MaxWithdrawalsPerPayload ∧
             (versionAtLeast Electra s = false → SweepWithdrawals c0 = [] ∧ k = 0)) as (c0 & k & -> & Hc0 & Hk & Hlen & Hempty).
  { destruct (versionAtLeast Electra s).
    - destruct (partialLoop_run s (LedgerEpoch s) (PendingPartialWithdrawals s) (mkSweep [] (NextWithdrawalIndex s)) 0)
        as (c0 & k & Hr0 & Hc0 & Hk & Hl); [done|done|done|cbn [SweepWithdrawals length]; lia|lia|lia|].
      exists c0, k. split_and!; [done|done|lia|lia|lia|done].
    - exists (mkSweep [] (NextWithdrawalIndex s)), 0. cbn [SweepWithdrawals length]. split_and!; [done|done|lia|lia|lia|done]. }
  cbn [obind fst snd]. pose proof (sweepBound_min s) as Hb. fold (sweepBound s).
  destruct (sweepLoop_run s (Z.to_nat (sweepBound s)) (NextWithdrawalValidatorIndex s) c0) as (c & m & -> & Hsw); [done|done|done|unfold known in Hn; lia|lia| |].
  { intros He j Hj. by destruct (Hempty He) as [-> _]. }
  rewrite Z2Nat.id in Hsw by (unfold known in Hn; lia). exists c0, c, m, k. split_and!; [done|done|lia..|]. intros He. by destruct (Hempty He).
Qed.

(** ** Debiting *)

Lemma decreaseAll_run ws : ∀ s,
  ledger_ok s → Forall (λ w, known s (WithdrawalValidatorIndex w) ∧ 0 ≤ WithdrawalAmount w) ws →
  (∀ i b, known s i → Balances s !! Z.to_nat i = Some b → withdrawn ws i ≤ b) →
  ∃ bs, decreaseAll s ws = Ret (setBalances bs s) ∧ ledger_ok (setBalances bs s) ∧
    (∀ i b, known s i → Balances s !! Z.to_nat i = Some b → bs !! Z.to_nat i = Some (b - withdrawn ws i)) ∧
    Zsum bs = Zsum (Balances s) - Zsum (map WithdrawalAmount ws).
Proof.
  induction ws as [|w ws IH]; intros s Hok Hws Hb; cbn [decreaseAll].
  { exists (Balances s). assert (setBalances (Balances s) s = s) as -> by (by destruct s). split_and!; [done|done| |cbn; lia].
    intros i b _ Hi. rewrite Hi. unfold withdrawn. cbn. f_equal. lia. }
  apply Forall_cons in Hws as [[Hi Hnn] Hws]. destruct (known_balance _ _ Hok Hi) as (x & Hx & _ & Hu).
  assert (Forall (λ w, 0 ≤ WithdrawalAmount w) ws) as Hnns by (eapply Forall_impl; [apply Hws|]; by intros ? []).
  assert (∀ j, withdrawn (w :: ws) j = withdrawn [w] j + withdrawn ws j) as Happ by (intros j; apply (withdrawn_app [w])).
  pose proof (Hb _ _ Hi Hx) as Hbx. rewrite Happ, withdrawn_one, Z.eqb_refl in Hbx. pose proof (withdrawn_nonneg ws (WithdrawalValidatorIndex w) Hnns).
  unfold is_u64 in Hu. rewrite (DecreaseBalance_run s _ x) by (done || (unfold is_u64; lia)). cbn [omap_err obind].
  rewrite Z.max_r by lia. set (s1 := setBalances _ s).
  assert (ledger_ok s1) as Hok1 by (apply setBalance_ok; [done|unfold is_u64; lia]).
  assert (∀ i b, known s i → Balances s !! Z.to_nat i = Some b → Balances s1 !! Z.to_nat i = Some (b - withdrawn [w] i)) as Hs1.
  { intros j b Hj Hjb. rewrite withdrawn_one. cbn. case_if.
    - subst j. rewrite list_lookup_insert_eq by (by eapply lookup_lt_Some). congruence.
    - rewrite list_lookup_insert_ne by (unfold known in *; lia). rewrite Hjb. f_equal. lia. }
  destruct (IH s1 Hok1) as (bs & -> & Hokb & Hbs & Hsum); [done| |].
  { intros j b Hj Hjb. destruct (known_balance s j Hok Hj) as (y & Hy & _). pose proof (Hb j y Hj Hy) as Hyb.
    rewrite (Hs1 j y Hj Hy) in Hjb. injection Hjb as <-. rewrite Happ in Hyb. lia. }
  exists bs. split_and!; [done|done| |].
  - intros j b Hj Hjb. rewrite (Hbs j _ Hj (Hs1 j b Hj Hjb)), Happ. f_equal. lia.
  - rewrite Hsum. cbn. rewrite (Zsum_insert _ _ x) by done. lia.
Qed.

(** ** Processing *)

(** [s'] is [s] after the withdrawals [ws], with [k] entries of the queue done. *)
Record withdrawals_processed (s s' : Ledger) (ws : list Withdrawal) (k : Z) : Prop := {
  wp_validators : Validators s' = Validators s;
  wp_balances : ∀ i b, known s i → Balances s !! Z.to_nat i = Some b →
    0 ≤ withdrawn ws i ≤ b ∧ Balances s' !! Z.to_nat i = Some (b - withdrawn ws i);
  wp_total : Zsum (Balances s') = Zsum (Balances s) - Zsum (map WithdrawalAmount ws);
  wp_queue : PendingPartialWithdrawals s' = drop (Z.to_nat k) (PendingPartialWithdrawals s);
  wp_index : NextWithdrawalIndex s' = wrap64 (NextWithdrawalIndex s + Z.of_nat (length ws));
  wp_ready : withdrawals_ready s';
  wp_fair : ∃ m, 0 < m ≤ MaxValidatorsPerWithdrawalsSweep ∧ NextWithdrawalValidatorIndex s' = pos s (NextWithdrawalValidatorIndex s) m ∧
    ∀ j, 0 ≤ j < m → exhaustedAt s' [] (pos s (NextWithdrawalValidatorIndex s) j)
}.

(** The fields that the last part of [ProcessWithdrawals] sets. *)
Definition finishWithdrawals (bs : list Z) (k nextIndex nextValidator : Z) (s : Ledger) : Ledger :=
  setNextWithdrawalValidatorIndex nextValidator (setNextWithdrawalIndex nextIndex
    (setPendingPartialWithdrawals (drop (Z.to_nat k) (PendingPartialWithdrawals s)) (setBalances bs s))).

Lemma Dequeue_run s k :
  0 ≤ k ≤ Z.of_nat (length (PendingPartialWithdrawals s)) → versionAtLeast Electra s = true →
  DequeuePendingPartialWithdrawals s k = Ret (setPendingPartialWithdrawals (drop (Z.to_nat k) (PendingPartialWithdrawals s)) s).
Proof.
  intros Hk He. unfold DequeuePendingPartialWithdrawals. rewrite He. cbn [negb]. rewrite (proj2 (Z.ltb_ge _ _)) by lia.
  case_if; [|done]. subst k. by destruct s.
Qed.

(** The next start of the sweep. *)
Lemma next_start s c0 c m :
  ledger_ok s → known s (NextWithdrawalValidatorIndex s) → swept s (sweepBound s) (NextWithdrawalValidatorIndex s) c0 c m →
  ∃ m', 0 < m' ≤ MaxValidatorsPerWithdrawalsSweep ∧
    (∀ j, 0 ≤ j < m' → exhaustedAt s (SweepWithdrawals c) (pos s (NextWithdrawalValidatorIndex s) j)) ∧
    ∀ s' : Ledger, NumValidators s' = NumValidators s → NextWithdrawalValidatorIndex s' = NextWithdrawalValidatorIndex s →
      (if Z.of_nat (length (SweepWithdrawals c)) <? MaxWithdrawalsPerPayload
       then if NumValidators s' =? 0 then Panic ErrDivByZero
            else Ret ((NextWithdrawalValidatorIndex s' +w MaxValidatorsPerWithdrawalsSweep) mod NumValidators s')
       else match last (SweepWithdrawals c) with
            | None => Panic "index out of range"
            | Some w => Ret (if WithdrawalValidatorIndex w +w 1 =? NumValidators s' then 0 else WithdrawalValidatorIndex w +w 1)
            end) = Ret (pos s (NextWithdrawalValidatorIndex s) m').
Proof.
  intros Hok Hn [_ Hm Hdone _ Hend]. pose proof (lo_size _ Hok) as Hsz. pose proof withdrawals_range as Hr. pose proof (sweepBound_min s) as Hbd.
  pose proof Hn as Hn'. unfold known in Hn'. destruct Hend as [[Hl ->]|(Hl & Hm0 & w & Hw & Hwi)].
  - exists MaxValidatorsPerWithdrawalsSweep. split_and!; [lia|lia| |].
    + intros j Hj. destruct (decide (j < sweepBound s)) as [Hjb|Hjb]; [apply Hdone; lia|].
      assert (sweepBound s = NumValidators s) as Heq by lia. rewrite Heq in Hdone. pose proof (Z.mod_pos_bound j (NumValidators s)) as Hmod.
      replace (pos s (NextWithdrawalValidatorIndex s) j) with (pos s (NextWithdrawalValidatorIndex s) (j mod NumValidators s)); [apply Hdone; lia|].
      unfold pos. apply Zplus_mod_idemp_r.
    + intros s' Hs1 Hs2. rewrite (proj2 (Z.ltb_lt _ _)) by done. rewrite Hs1, Hs2. rewrite (proj2 (Z.eqb_neq _ _)) by lia.
      unfold two32 in *. rewrite wrap64_small by (unfold is_u64, two64; lia). done.
  - exists m. split_and!; [lia|lia|done|]. intros s' Hs1 Hs2. rewrite (proj2 (Z.ltb_ge _ _)) by lia. rewrite Hw, Hs1, Hwi.
    rewrite (next_index s) by (done || by apply pos_known). f_equal. unfold pos. rewrite Zplus_mod_idemp_l. f_equal. lia.
Qed.

Lemma next_withdrawal_index s c :
  sweep_ok s c → is_u64 (NextWithdrawalIndex s) →
  match last (SweepWithdrawals c) with
  | Some w => WithdrawalIndex w +w 1
  | None => NextWithdrawalIndex s
  end = wrap64 (NextWithdrawalIndex s + Z.of_nat (length (SweepWithdrawals c))).
Proof.
  intros Hc Hu. destruct (last (SweepWithdrawals c)) as [w|] eqn:Hl.
  - rewrite last_lookup in Hl. pose proof (so_index _ _ Hc _ _ Hl) as ->. rewrite wrap64_add_l. apply lookup_lt_Some in Hl. f_equal. lia.
  - apply last_None in Hl as ->. cbn [length]. by rewrite Z.add_0_r, wrap64_small.
Qed.

Section payload.
Context `{Sha256} `{!Gohashtree} `{!GoRuntime} (withdrawalRoot : Withdrawal → outcome (list Z)).

Lemma ProcessWithdrawals_run s c0 c m k d r :
  withdrawals_ready s → versionAtLeast Capella s = true →
  ExpectedWithdrawals s = Ret (SweepWithdrawals c, k) → swept s (sweepBound s) (NextWithdrawalValidatorIndex s) c0 c m →
  0 ≤ k ≤ Z.of_nat (length (PendingPartialWithdrawals s)) → (versionAtLeast Electra s = false → k = 0) →
  payloadRoot withdrawalRoot d (SweepWithdrawals c) = Ret r → WithdrawalSliceRoot withdrawalRoot (SweepWithdrawals c) MaxWithdrawalsPerPayload = Ret r →
  ∃ bs m', ProcessWithdrawals withdrawalRoot s d =
      Ret (finishWithdrawals bs k (wrap64 (NextWithdrawalIndex s + Z.of_nat (length (SweepWithdrawals c)))) (pos s (NextWithdrawalValidatorIndex s) m') s) ∧
    0 < m' ≤ MaxValidatorsPerWithdrawalsSweep ∧
    (∀ j, 0 ≤ j < m' → exhaustedAt s (SweepWithdrawals c) (pos s (NextWithdrawalValidatorIndex s) j)) ∧
    ledger_ok (setBalances bs s) ∧
    (∀ i b, known s i → Balances s !! Z.to_nat i = Some b → bs !! Z.to_nat i = Some (b - withdrawn (SweepWithdrawals c) i)) ∧
    Zsum bs = Zsum (Balances s) - Zsum (map WithdrawalAmount (SweepWithdrawals c)).
Proof.
  intros [Hok Hn Hp Hq Hx] Hv Hexp Hsw Hk Hk0 Hpr Hwr. pose proof (sw_ok _ _ _ _ _ _ Hsw) as Hc.
  destruct (decreaseAll_run (SweepWithdrawals c) s Hok (so_known _ _ Hc) (so_bound _ _ Hc)) as (bs & Hdec & Hokb & Hbs & Hsum).
  destruct (next_start s c0 c m Hok Hn Hsw) as (m' & Hm' & Hex & Hnext). exists bs, m'. split; [|done].
  unfold ProcessWithdrawals. rewrite Hexp. cbn [omap_err obind]. rewrite Hpr, Hwr. cbn [omap_err obind]. rewrite bool_decide_true by done. cbn [negb].
  rewrite Hdec. cbn [obind].
  set (s2 := setPendingPartialWithdrawals (drop (Z.to_nat k) (PendingPartialWithdrawals s)) (setBalances bs s)).
  assert ((if versionAtLeast Electra (setBalances bs s)
           then omap_err (λ e, wrapErr e "unable to dequeue partial withdrawals from state") (DequeuePendingPartialWithdrawals (setBalances bs s) k)
           else Ret (setBalances bs s)) = Ret s2) as ->.
  { change (versionAtLeast Electra (setBalances bs s)) with (versionAtLeast Electra s). destruct (versionAtLeast Electra s) eqn:He.
    - by rewrite Dequeue_run.
    - unfold s2. rewrite Hk0 by done. by destruct s. }
  cbn [obind]. set (s3 := setNextWithdrawalIndex (wrap64 (NextWithdrawalIndex s + Z.of_nat (length (SweepWithdrawals c)))) s2).
  assert (match last (SweepWithdrawals c) with
          | Some w => omap_err (λ e, wrapErr e "could not set next withdrawal index") (SetNextWithdrawalIndex s2 (WithdrawalIndex w +w 1))
          | None => Ret s2
          end = Ret s3) as ->.
  { pose proof (next_withdrawal_index s c Hc Hx) as Hni. unfold SetNextWithdrawalIndex. change (versionAtLeast Capella s2) with (versionAtLeast Capella s).
    rewrite Hv. cbn [negb]. unfold s3. rewrite <- Hni. destruct (last (SweepWithdrawals c)); [done|]. by destruct s. }
  cbn [obind]. rewrite (Hnext s3) by done. cbn [obind]. unfold SetNextWithdrawalValidatorIndex. change (versionAtLeast Capella s3) with (versionAtLeast Capella s).
  by rewrite Hv.
Qed.

Lemma ProcessWithdrawals_mismatch s ws k d r r' :
  ExpectedWithdrawals s = Ret (ws, k) → payloadRoot withdrawalRoot d ws = Ret r' →
  WithdrawalSliceRoot withdrawalRoot ws MaxWithdrawalsPerPayload = Ret r → r' ≠ r →
  ProcessWithdrawals withdrawalRoot s d = Err "unexpected withdrawals root".
Proof.
  intros Hexp Hpr Hwr Hne. unfold ProcessWithdrawals. rewrite Hexp. cbn [omap_err obind]. rewrite Hpr, Hwr. cbn [omap_err obind].
  by rewrite bool_decide_false by congruence.
Qed.

Lemma finishWithdrawals_processed s c bs k m :
  withdrawals_ready s → sweep_ok s c → 0 < m ≤ MaxValidatorsPerWithdrawalsSweep →
  (∀ j, 0 ≤ j < m → exhaustedAt s (SweepWithdrawals c) (pos s (NextWithdrawalValidatorIndex s) j)) →
  ledger_ok (setBalances bs s) →
  (∀ i b, known s i → Balances s !! Z.to_nat i = Some b → bs !! Z.to_nat i = Some (b - withdrawn (SweepWithdrawals c) i)) →
  Zsum bs = Zsum (Balances s) - Zsum (map WithdrawalAmount (SweepWithdrawals c)) →
  withdrawals_processed s (finishWithdrawals bs k (wrap64 (NextWithdrawalIndex s + Z.of_nat (length (SweepWithdrawals c))))
    (pos s (NextWithdrawalValidatorIndex s) m) s) (SweepWithdrawals c) k.
Proof.
  intros [Hok Hn Hp Hq Hx] Hc Hm Hex Hokb Hbs Hsum. split; [done| |done|done|done| |].
  - intros i b Hi Hb. split; [split; [apply withdrawn_nonneg; by eapply sweep_amounts|by apply (so_bound _ _ Hc)]|by apply Hbs].
  - split; [by destruct Hokb; split|exact (pos_known s _ m Hn)|exact (Forall_drop _ (Z.to_nat k) _ Hp)| |apply wrap64_range].
    unfold finishWithdrawals. cbn [PendingPartialWithdrawals setNextWithdrawalValidatorIndex setNextWithdrawalIndex setPendingPartialWithdrawals].
    rewrite length_drop. lia.
  - exists m. split_and!; [lia|lia|done|]. intros j Hj. destruct (Hex j Hj) as (v & b & Hv & Hb & He). exists v, (b - withdrawn (SweepWithdrawals c) (pos s (NextWithdrawalValidatorIndex s) j)).
    split_and!; [done|apply Hbs; [by apply pos_known|done]|]. unfold withdrawn at 2. cbn [map Zsum]. by rewrite Z.sub_0_r.
Qed.

(** C6. Withdrawals, Capella and later: in a state whose indices are in range the expected
    withdrawals are always computed; there are at most MaxWithdrawalsPerPayload of them,
    numbered consecutively.  A payload with their root is accepted: every validator is
    debited exactly its withdrawals, which never exceed its balance, the processed
    partial withdrawals leave the queue, the invariant is kept, and the next sweep starts
    after validators that all have nothing left to withdraw.  Any other root is refused. *)
Theorem withdrawals_correct s :
  withdrawals_ready s → versionAtLeast Capella s = true →
  ∃ ws k, ExpectedWithdrawals s = Ret (ws, k) ∧ Z.of_nat (length ws) ≤ MaxWithdrawalsPerPayload ∧
    0 ≤ k ≤ Z.of_nat (length (PendingPartialWithdrawals s)) ∧
    (∀ j w, ws !! j = Some w → WithdrawalIndex w = wrap64 (NextWithdrawalIndex s + Z.of_nat j)) ∧
    ∀ d r, WithdrawalSliceRoot withdrawalRoot ws MaxWithdrawalsPerPayload = Ret r →
      (payloadRoot withdrawalRoot d ws = Ret r → ∃ s', ProcessWithdrawals withdrawalRoot s d = Ret s' ∧ withdrawals_processed s s' ws k) ∧
      (∀ r', payloadRoot withdrawalRoot d ws = Ret r' → r' ≠ r → ProcessWithdrawals withdrawalRoot s d = Err "unexpected withdrawals root").
Proof.
  intros Hs Hv. destruct (ExpectedWithdrawals_run s Hs Hv) as (c0 & c & m & k & Hexp & Hsw & Hk & Hk0).
  pose proof (sw_ok _ _ _ _ _ _ Hsw) as Hc. exists (SweepWithdrawals c), k.
  split_and!; [done|destruct (sw_end _ _ _ _ _ _ Hsw) as [[? _]|[? _]]; lia|lia..|apply Hc|]. intros d r Hr. split.
  - intros Hp. destruct (ProcessWithdrawals_run s c0 c m k d r) as (bs & m' & Hrun & Hm' & Hex & Hokb & Hbs & Hsum); [done..|].
    eexists. split; [exact Hrun|]. by apply finishWithdrawals_processed.
  - intros r' Hp Hne. by eapply ProcessWithdrawals_mismatch.
Qed.
End payload.
End withdrawals.

(** ** Witnesses *)

Definition sampleRoot (w : Withdrawal) : outcome (list Z) := Ret (replicate 32 (WithdrawalIndex w mod 256)).

(** The partial withdrawal of validator 2, the excess of validator 0 and all of validator 1. *)
Definition sampleWithdrawals : list Withdrawal :=
  [mkWithdrawal 1000 2 (replicate 20 3) 500000000; mkWithdrawal 1001 0 (replicate 20 1) 500000000;
   mkWithdrawal 1002 1 (replicate 20 2) 31000000000].

Lemma sample_ready : withdrawals_ready sampleLedger.
Proof.
  split; [exact sampleLedger_ok|by compute| |by compute|by compute]. repeat constructor; by compute.
Qed.

Lemma withdrawals_correct_witness :
  ∃ s', @ProcessWithdrawals mainnetBeaconConfig mainnetLedgerConfig fips180 portable threeProcessors sampleRoot sampleLedger (Payload sampleWithdrawals) = Ret s' ∧
    @withdrawals_processed mainnetBeaconConfig mainnetLedgerConfig sampleLedger s' sampleWithdrawals 1.
Proof.
  destruct (@withdrawals_correct mainnetBeaconConfig mainnetLedgerConfig fips180 portable threeProcessors sampleRoot sampleLedger sample_ready eq_refl)
    as (ws & k & Hexp & _ & _ & _ & Hrun).
  assert (Ret (ws, k) = Ret (sampleWithdrawals, 1)) as Heq by (rewrite <- Hexp; vm_compute; reflexivity).
  injection Heq as -> ->.
  assert (is_ret (@WithdrawalSliceRoot fips180 portable threeProcessors sampleRoot sampleWithdrawals 16) = true) as Hr by (vm_compute; reflexivity).
  destruct (@WithdrawalSliceRoot fips180 portable threeProcessors sampleRoot sampleWithdrawals 16) as [r| | |] eqn:Er; [|discriminate..].
  exact (proj1 (Hrun (Payload sampleWithdrawals) r Er) (f_equal (omap_err _) Er)).
Defined.
