(* ===== verification/DepositOps.v ===== *)
(** * Deposits

    Models the deposits of a block and the queue of pending deposits:
    [core/blocks/deposit.go], [core/altair/deposit.go], [core/electra/deposits.go] and the
    setters of [state/state-native/setters_deposits.go] and [setters_deposit_requests.go].
    Signatures are verified by a library, the class [DepositSignatures]; the hash tree root
    of the deposit data is generated code and an argument, and so are the deposit root of
    the state's eth1 data ([None] when that is nil) and the depth of the deposit tree. *)

From S2P Require Import Prelude MathHelper Primitives SlotTime Shuffle Committee ExitQueue Bytes Sha256 Merkle SparseTrie DepositTree DepositCache Ledger.

(** [signing.ComputeDomain], [deposit.VerifyDepositSignature] and
    [bls.VerifyMultipleSignatures]: a batch that verifies has no invalid signature. *)
Class DepositSignatures := {
  depositDomain : outcome (list Z);
  verifyDepositSignature : DepositData → list Z → bool;
  verifyDepositBatch : list DepositData → list Z → bool;
  verifyDepositBatch_sound ds domain d :
    verifyDepositBatch ds domain = true → d ∈ ds → verifyDepositSignature d domain = true
}.

(** [enginev1.DepositRequest] *)
Record DepositRequest := mkDepositRequest { ReqData : DepositData; ReqIndex : Z }.

Definition depositDataOf (pd : PendingDeposit) : DepositData :=
  mkDepositData (PDPublicKey pd) (PDWithdrawalCredentials pd) (PDAmount pd) (PDSignature pd).
Definition pendingOf (d : DepositData) (slot : Z) : PendingDeposit :=
  mkPendingDeposit (PublicKey d) (WithdrawalCredentials d) (Amount d) (Signature d) slot.

Definition nilDeposit : error := "got a nil deposit in block".

Section deposits.
Context `{LedgerConfig} `{!DepositSignatures}.

(** ** Setters *)

Definition AppendPendingDeposit (s : Ledger) (pd : PendingDeposit) : outcome Ledger :=
  if negb (versionAtLeast Electra s) then Err (errNotSupported "AppendPendingDeposit")
  else Ret (setPendingDeposits (PendingDepositQueue s ++ [pd]) s).
Definition SetPendingDeposits (s : Ledger) (val : list PendingDeposit) : outcome Ledger :=
  if negb (versionAtLeast Electra s) then Err (errNotSupported "SetPendingDeposits") else Ret (setPendingDeposits val s).
Definition SetDepositBalanceToConsume (s : Ledger) (dbtc : Z) : outcome Ledger :=
  if negb (versionAtLeast Electra s) then Err (errNotSupported "SetDepositBalanceToConsume") else Ret (setDepositBalanceToConsume dbtc s).
Definition SetDepositRequestsStartIndex (s : Ledger) (index : Z) : outcome Ledger :=
  if negb (versionAtLeast Electra s) then Err (errNotSupported "SetDepositRequestsStartIndex") else Ret (setDepositRequestsStartIndex index s).

(** ** Signatures *)

Definition IsValidDepositSignature (data : DepositData) : outcome bool :=
  domain <-? depositDomain;; Ret (verifyDepositSignature data domain).
Definition BatchVerifyDepositsSignatures (deposits : list DepositData) : outcome bool :=
  domain <-? depositDomain;; Ret (verifyDepositBatch deposits domain).
Definition BatchVerifyPendingDepositsSignatures (deposits : list PendingDeposit) : outcome bool :=
  domain <-? depositDomain;; Ret (verifyDepositBatch (map depositDataOf deposits) domain).

(** ** New validators *)

(** The common end of the two versions of [AddValidatorToRegistry]. *)
Definition appendToRegistry (s : Ledger) (val : Validator) (amount : Z) : outcome Ledger :=
  let s := AppendBalance (AppendValidator s val) amount in
  if versionAtLeast Altair s then
    s <-? AppendInactivityScore s 0;;
    s <-? AppendPreviousParticipationBits s 0;;
    AppendCurrentParticipationBits s 0
  else Ret s.

Definition altairGetValidatorFromDeposit (pubKey withdrawalCredentials : list Z) (amount : Z) : Validator :=
  let effectiveBalance := amount - amount mod EffectiveBalanceIncrement in
  let effectiveBalance := if MaxEffectiveBalance <? effectiveBalance then MaxEffectiveBalance else effectiveBalance in
  mkValidator effectiveBalance false FarFutureEpoch FarFutureEpoch FarFutureEpoch FarFutureEpoch pubKey withdrawalCredentials.
Definition altairAddValidatorToRegistry (s : Ledger) (pubKey withdrawalCredentials : list Z) (amount : Z) : outcome Ledger :=
  appendToRegistry s (altairGetValidatorFromDeposit pubKey withdrawalCredentials amount) amount.

Definition GetValidatorFromDeposit (pubKey withdrawalCredentials : list Z) (amount : Z) : outcome Validator :=
  let validator := mkValidator 0 false FarFutureEpoch FarFutureEpoch FarFutureEpoch FarFutureEpoch pubKey withdrawalCredentials in
  maxEffectiveBalance <-? ValidatorMaxEffectiveBalance validator;;
  Ret (withEffectiveBalance (Z.min (amount - amount mod EffectiveBalanceIncrement) maxEffectiveBalance) validator).
Definition AddValidatorToRegistry (s : Ledger) (pubKey withdrawalCredentials : list Z) (amount : Z) : outcome Ledger :=
  val <-? omap_err (λ e, wrapErr e "could not get validator from deposit") (GetValidatorFromDeposit pubKey withdrawalCredentials amount);;
  appendToRegistry s val amount.

(** ** Deposits of a block *)

Definition altairApplyDeposit (s : Ledger) (data : DepositData) (allSignaturesVerified : bool) : outcome Ledger :=
  match ValidatorIndexByPubkey s (ToBytes48 (PublicKey data)) with
  | None =>
      valid <-? (if allSignaturesVerified then Ret true else IsValidDepositSignature data);;
      if negb valid then Ret s
      else altairAddValidatorToRegistry s (PublicKey data) (WithdrawalCredentials data) (Amount data)
  | Some index => IncreaseBalance s index (Amount data)
  end.

(** [ApplyDeposit] of the package [electra]: the amount goes to the queue. *)
Definition ApplyDeposit (s : Ledger) (data : DepositData) (allSignaturesVerified : bool) : outcome Ledger :=
  let queue s := AppendPendingDeposit s (pendingOf data GenesisSlot) in
  match ValidatorIndexByPubkey s (ToBytes48 (PublicKey data)) with
  | None =>
      valid <-? (if allSignaturesVerified then Ret true
                 else omap_err (λ e, wrapErr e "could not verify deposit signature") (IsValidDepositSignature data));;
      if negb valid then Ret s
      else
        s <-? omap_err (λ e, wrapErr e "could not add validator to registry")
               (AddValidatorToRegistry s (PublicKey data) (WithdrawalCredentials data) 0);;
        queue s
  | Some _ => queue s
  end.

Section block.
Context `{Sha256} (depositDataRoot : DepositData → outcome bytes) (eth1DepositRoot : option bytes) (DepositContractTreeDepth : Z).

(** [None] is a nil deposit or one without data. *)
Definition VerifyDeposit (s : Ledger) (deposit : option Deposit) : outcome unit :=
  match deposit with
  | None => Err "received nil deposit or nil deposit data"
  | Some deposit =>
      match eth1DepositRoot with
      | None => Err "received nil eth1data in the beacon state"
      | Some receiptRoot =>
          leaf <-? omap_err (λ e, wrapErr e "could not tree hash deposit data") (depositDataRoot (Data deposit));;
          ok <-? VerifyMerkleProofWithDepth receiptRoot leaf (Eth1DepositIndex s) (default [] (Proof deposit)) DepositContractTreeDepth;;
          if ok : bool then Ret tt else Err "deposit merkle branch of deposit root did not verify"
      end
  end.

(** [apply] is the [ApplyDeposit] of the package. *)
Definition ProcessDeposit (apply : Ledger → DepositData → bool → outcome Ledger) (s : Ledger) (deposit : Deposit) (allSignaturesVerified : bool)
    : outcome Ledger :=
  _ <-? omap_err (λ e, wrapErr e "could not verify deposit") (VerifyDeposit s (Some deposit));;
  apply (setEth1DepositIndex (Eth1DepositIndex s +w 1) s) (Data deposit) allSignaturesVerified.

Fixpoint depositsLoop (apply : Ledger → DepositData → bool → outcome Ledger) (allSignaturesVerified : bool) (s : Ledger) (deposits : list (option Deposit))
    : outcome Ledger :=
  match deposits with
  | [] => Ret s
  | None :: _ => Err nilDeposit
  | Some d :: deposits =>
      s <-? omap_err (λ e, wrapErr e "could not process deposit") (ProcessDeposit apply s d allSignaturesVerified);;
      depositsLoop apply allSignaturesVerified s deposits
  end.

(** A nil deposit makes the batch fail. *)
Definition allVerified (deposits : list (option Deposit)) : outcome bool :=
  match mapM id deposits with
  | Some ds => BatchVerifyDepositsSignatures (map Data ds)
  | None => domain <-? depositDomain;; Ret false
  end.

Definition altairProcessDeposits (s : Ledger) (deposits : list (option Deposit)) : outcome Ledger :=
  allSignaturesVerified <-? allVerified deposits;;
  depositsLoop altairApplyDeposit allSignaturesVerified s deposits.
Definition ProcessDeposits (s : Ledger) (deposits : list (option Deposit)) : outcome Ledger :=
  allSignaturesVerified <-? omap_err (λ e, wrapErr e "could not verify deposit signatures in batch") (allVerified deposits);;
  depositsLoop ApplyDeposit allSignaturesVerified s deposits.

(** ** Genesis *)

Fixpoint ActivateValidatorWithEffectiveBalance (s : Ledger) (deposits : list Deposit) : outcome Ledger :=
  match deposits with
  | [] => Ret s
  | d :: deposits =>
      match ValidatorIndexByPubkey s (ToBytes48 (PublicKey (Data d))) with
      | None => ActivateValidatorWithEffectiveBalance s deposits
      | Some index =>
          balance <-? BalanceAtIndex s index;;
          validator <-? ValidatorAt s index;;
          let validator := withEffectiveBalance (Min (balance - balance mod EffectiveBalanceIncrement) MaxEffectiveBalance) validator in
          let validator := if EffectiveBalance validator =? MaxEffectiveBalance then withActivation 0 (withEligibility 0 validator) else validator in
          s <-? UpdateValidatorAt s index validator;;
          ActivateValidatorWithEffectiveBalance s deposits
      end
  end.

Definition ProcessPreGenesisDeposits (s : Ledger) (deposits : list Deposit) : outcome Ledger :=
  s <-? omap_err (λ e, wrapErr e "could not process deposit") (altairProcessDeposits s (map Some deposits));;
  ActivateValidatorWithEffectiveBalance s deposits.
End block.

(** ** Pending deposits *)

Definition ApplyPendingDeposit (s : Ledger) (deposit : PendingDeposit) : outcome Ledger :=
  match ValidatorIndexByPubkey s (ToBytes48 (PDPublicKey deposit)) with
  | None =>
      verified <-? omap_err (λ e, wrapErr e "could not verify deposit signature") (IsValidDepositSignature (depositDataOf deposit));;
      if verified : bool
      then omap_err (λ e, wrapErr e "could not add validator to registry")
             (AddValidatorToRegistry s (PDPublicKey deposit) (PDWithdrawalCredentials deposit) (PDAmount deposit))
      else Ret s
  | Some index => IncreaseBalance s index (PDAmount deposit)
  end.

Fixpoint batchLoop (allSignaturesVerified : bool) (s : Ledger) (pendingDeposits : list PendingDeposit) : outcome Ledger :=
  match pendingDeposits with
  | [] => Ret s
  | pd :: pendingDeposits =>
      validSig <-? (if allSignaturesVerified then Ret true
                    else omap_err (λ e, wrapErr e "individual deposit signature verification failed") (IsValidDepositSignature (depositDataOf pd)));;
      s <-? (match ValidatorIndexByPubkey s (ToBytes48 (PDPublicKey pd)) with
             | Some index => omap_err (λ e, wrapErr e "could not increase balance") (IncreaseBalance s index (PDAmount pd))
             | None =>
                 if validSig : bool
                 then omap_err (λ e, wrapErr e "failed to add validator to registry")
                        (AddValidatorToRegistry s (PDPublicKey pd) (PDWithdrawalCredentials pd) (PDAmount pd))
                 else Ret s
             end);;
      batchLoop allSignaturesVerified s pendingDeposits
  end.
Definition batchProcessNewPendingDeposits (s : Ledger) (pendingDeposits : list PendingDeposit) : outcome Ledger :=
  if (length pendingDeposits =? 0)%nat then Ret s
  else
    allSignaturesVerified <-? omap_err (λ e, wrapErr e "batch signature verification failed") (BatchVerifyPendingDepositsSignatures pendingDeposits);;
    batchLoop allSignaturesVerified s pendingDeposits.

(** What the loop over the queue carries. *)
Record PendingRun := mkPendingRun {
  RunLedger : Ledger;
  processedAmount : Z;
  nextDepositIndex : Z;
  isChurnLimitReached : bool;
  toBatchVerify : list PendingDeposit;
  toPostpone : list PendingDeposit
}.

(** Whether the key's validator has exited and whether it has been withdrawn. *)
Definition depositStatus (s : Ledger) (nextEpoch : Z) (found : option Z) : outcome (bool * bool) :=
  match found with
  | None => Ret (false, false)
  | Some index =>
      val <-? omap_err (λ e, wrapErr e "could not get validator") (ValidatorAt s index);;
      Ret (ExitEpoch val <? FarFutureEpoch, WithdrawableEpoch val <? nextEpoch)
  end.

Fixpoint pendingDepositsLoop (nextEpoch availableForProcessing finalizedSlot startIndex : Z) (ds : list PendingDeposit) (r : PendingRun)
    : outcome PendingRun :=
  match ds with
  | [] => Ret r
  | pd :: ds =>
      let s := RunLedger r in
      if (GenesisSlot <? PDSlot pd) && (Eth1DepositIndex s <? startIndex) then Ret r
      else if finalizedSlot <? PDSlot pd then Ret r
      else if MaxPendingDepositsPerEpoch <=? nextDepositIndex r then Ret r
      else
        let found := ValidatorIndexByPubkey s (ToBytes48 (PDPublicKey pd)) in
        st <-? depositStatus s nextEpoch found;;
        let '(isValidatorExited, isValidatorWithdrawn) := st in
        let continue r := pendingDepositsLoop nextEpoch availableForProcessing finalizedSlot startIndex ds r in
        if isValidatorWithdrawn : bool then
          s <-? omap_err (λ e, wrapErr e "could not increase balance") (IncreaseBalance s (default 0 found) (PDAmount pd));;
          continue (mkPendingRun s (processedAmount r) (nextDepositIndex r +w 1) (isChurnLimitReached r) (toBatchVerify r) (toPostpone r))
        else if isValidatorExited : bool then
          continue (mkPendingRun s (processedAmount r) (nextDepositIndex r +w 1) (isChurnLimitReached r) (toBatchVerify r) (toPostpone r ++ [pd]))
        else if availableForProcessing <? processedAmount r +w PDAmount pd then
          Ret (mkPendingRun s (processedAmount r) (nextDepositIndex r) true (toBatchVerify r) (toPostpone r))
        else
          let processed := processedAmount r +w PDAmount pd in
          match found with
          | Some index =>
              s <-? omap_err (λ e, wrapErr e "could not increase balance") (IncreaseBalance s index (PDAmount pd));;
              continue (mkPendingRun s processed (nextDepositIndex r +w 1) false (toBatchVerify r) (toPostpone r))
          | None => continue (mkPendingRun s processed (nextDepositIndex r +w 1) false (toBatchVerify r ++ [pd]) (toPostpone r))
          end
  end.

Definition ProcessPendingDeposits (s : Ledger) (activeBalance : Z) : outcome Ledger :=
  let nextEpoch := LedgerEpoch s +w 1 in
  if negb (versionAtLeast Electra s)
  then Err (wrapErr (errNotSupported "DepositBalanceToConsume") "could not get deposit balance to consume")
  else
    let availableForProcessing := DepositBalanceToConsume s +w ActivationExitChurnLimit activeBalance in
    finalizedSlot <-? omap_err (λ e, wrapErr e "could not get finalized slot") (EpochStart (FinalizedEpoch s));;
    let pendingDeposits := PendingDepositQueue s in
    r <-? pendingDepositsLoop nextEpoch availableForProcessing finalizedSlot (DepositRequestsStartIndex s) pendingDeposits
            (mkPendingRun s 0 0 false [] []);;
    s <-? omap_err (λ e, wrapErr e "could not process pending deposits with new public keys")
           (batchProcessNewPendingDeposits (RunLedger r) (toBatchVerify r));;
    s <-? omap_err (λ e, wrapErr e "could not set pending deposits")
           (SetPendingDeposits s (drop (Z.to_nat (nextDepositIndex r)) pendingDeposits ++ toPostpone r));;
    if isChurnLimitReached r then SetDepositBalanceToConsume s (availableForProcessing -w processedAmount r)
    else SetDepositBalanceToConsume s 0.

(** ** Deposit requests *)

(** [None] is a nil request. *)
Definition processDepositRequest (s : Ledger) (request : option DepositRequest) : outcome Ledger :=
  if negb (versionAtLeast Electra s)
  then Err (wrapErr (errNotSupported "DepositRequestsStartIndex") "could not get deposit requests start index")
  else match request with
       | None => Err "nil deposit request"
       | Some request =>
           s <-? (if DepositRequestsStartIndex s =? UnsetDepositRequestsStartIndex
                  then omap_err (λ e, wrapErr e "could not set deposit requests start index") (SetDepositRequestsStartIndex s (ReqIndex request))
                  else Ret s);;
           omap_err (λ e, wrapErr e "could not append deposit request") (AppendPendingDeposit s (pendingOf (ReqData request) (LedgerSlot s)))
       end.
Fixpoint ProcessDepositRequests (s : Ledger) (requests : list (option DepositRequest)) : outcome Ledger :=
  match requests with
  | [] => Ret s
  | r :: requests =>
      s <-? omap_err (λ e, wrapErr e "could not apply deposit request") (processDepositRequest s r);;
      ProcessDepositRequests s requests
  end.
End deposits.
