(* ===== verification/Consolidations.v ===== *)
(** * Consolidations

    Models [core/electra/consolidations.go] and [core/electra/validator.go]: moving the
    balance of one validator to another, the requests for it, and the change to
    compounding credentials.  Where a request fails after a part of its effects, the source
    only logs the error and keeps the changed state, so such operations return the state
    with the outcome.  The context is never cancelled. *)

From S2P Require Import Prelude MathHelper Primitives SlotTime Shuffle Committee ExitQueue Bytes Sha256 Merkle Ssz SparseTrie DepositTree DepositCache Ledger Withdrawals DepositOps.

(** [enginev1.ConsolidationRequest]; a nil key is [None]. *)
Record ConsolidationRequest := mkConsolidationRequest {
  ReqSourceAddress : list Z;
  SourcePubkey : option (list Z);
  TargetPubkey : option (list Z)
}.

(** [common.InfiniteSignature] *)
Definition InfiniteSignature : list Z := 192 :: replicate 95 0.

(** [bytes.HasSuffix] *)
Definition HasSuffix (s suffix : list Z) : bool :=
  (length suffix <=? length s)%nat && bool_decide (drop (length s - length suffix) s = suffix).

Section consolidations.
Context `{LedgerConfig}.

(** ** Setters *)

Definition AppendPendingConsolidation (s : Ledger) (val : PendingConsolidation) : outcome Ledger :=
  if negb (versionAtLeast Electra s) then Err (errNotSupported "AppendPendingConsolidation")
  else Ret (setPendingConsolidations (PendingConsolidations s ++ [val]) s).
Definition SetPendingConsolidations (s : Ledger) (val : list PendingConsolidation) : outcome Ledger :=
  if negb (versionAtLeast Electra s) then Err (errNotSupported "SetPendingConsolidations") else Ret (setPendingConsolidations val s).

(** ** Queueing balances *)

(** A call that changes the state in place: on an error the changes before it stay. *)
Definition settle (s : Ledger) (m : outcome Ledger) : Ledger * outcome unit :=
  match m with
  | Ret s' => (s', Ret tt)
  | Err e => (s, Err e)
  | Panic msg => (s, Panic msg)
  | OutOfFuel => (s, OutOfFuel)
  end.

Definition QueueExcessActiveBalance (s : Ledger) (idx : Z) : Ledger * outcome unit :=
  match BalanceAtIndex s idx with
  | Ret bal =>
      if MinActivationBalance <? bal then
        match UpdateBalancesAtIndex s idx MinActivationBalance with
        | Ret s =>
            let excessBalance := bal -w MinActivationBalance in
            settle s (val <-? ValidatorAt s idx;;
                      AppendPendingDeposit s (mkPendingDeposit (ToBytes48 (ValPublicKey val)) (ValWithdrawalCredentials val) excessBalance
                        InfiniteSignature GenesisSlot))
        | m => settle s m
        end
      else (s, Ret tt)
  | Err e => (s, Err e)
  | Panic m => (s, Panic m)
  | OutOfFuel => (s, OutOfFuel)
  end.

Definition QueueEntireBalanceAndResetValidator (s : Ledger) (idx : Z) : outcome Ledger :=
  bal <-? BalanceAtIndex s idx;;
  s <-? UpdateBalancesAtIndex s idx 0;;
  v <-? ValidatorAt s idx;;
  let v := withEligibility FarFutureEpoch (withEffectiveBalance 0 v) in
  s <-? UpdateValidatorAt s idx v;;
  AppendPendingDeposit s (mkPendingDeposit (ValPublicKey v) (ValWithdrawalCredentials v) bal InfiniteSignature GenesisSlot).

(** The credentials change also when queueing the excess fails. *)
Definition SwitchToCompoundingValidator (s : Ledger) (idx : Z) : Ledger * outcome unit :=
  match (v <-? ValidatorAt s idx;;
         match ValWithdrawalCredentials v with
         | [] => Err "validator has no withdrawal credentials"
         | _ :: rest => UpdateValidatorAt s idx (withCredentials (CompoundingWithdrawalPrefixByte :: rest) v)
         end) with
  | Ret s => QueueExcessActiveBalance s idx
  | m => settle s m
  end.

(** ** Pending consolidations *)

Fixpoint consolidationsLoop (nextEpoch : Z) (pcs : list PendingConsolidation) (s : Ledger) (next : Z) : outcome (Ledger * Z) :=
  match pcs with
  | [] => Ret (s, next)
  | pc :: pcs =>
      sourceValidator <-? ValidatorAt s (SourceIndex pc);;
      if Slashed sourceValidator then consolidationsLoop nextEpoch pcs s (next +w 1)
      else if nextEpoch <? WithdrawableEpoch sourceValidator then Ret (s, next)
      else
        validatorBalance <-? BalanceAtIndex s (SourceIndex pc);;
        let b := Z.min validatorBalance (EffectiveBalance sourceValidator) in
        s <-? DecreaseBalance s (SourceIndex pc) b;;
        s <-? IncreaseBalance s (TargetIndex pc) b;;
        consolidationsLoop nextEpoch pcs s (next +w 1)
  end.

Definition ProcessPendingConsolidations (s : Ledger) : outcome Ledger :=
  let nextEpoch := LedgerEpoch s +w 1 in
  if negb (versionAtLeast Electra s) then Err (errNotSupported "PendingConsolidations")
  else
    res <-? consolidationsLoop nextEpoch (PendingConsolidations s) s 0;;
    let '(s', next) := res in
    if 0 <? next then SetPendingConsolidations s' (drop (Z.to_nat next) (PendingConsolidations s)) else Ret s'.

(** ** Requests *)

(** [len(creds) != 32 || len(address) != 20 || !bytes.HasSuffix(creds, address)] *)
Definition wrongAddress (v : Validator) (address : list Z) : bool :=
  negb (length (ValWithdrawalCredentials v) =? 32)%nat || negb (length address =? 20)%nat || negb (HasSuffix (ValWithdrawalCredentials v) address).

Definition IsValidSwitchToCompoundingRequest (s : Ledger) (req : ConsolidationRequest) : outcome bool :=
  match SourcePubkey req, TargetPubkey req with
  | Some source, Some target =>
      if negb (bool_decide (source = target)) then Ret false
      else match ValidatorIndexByPubkey s (ToBytes48 source) with
           | None => Ret false
           | Some srcIdx =>
               match ValidatorAt s srcIdx with
               | Ret srcV =>
                   if wrongAddress srcV (ReqSourceAddress req) then Ret false
                   else
                     eth1 <-? HasETH1WithdrawalCredentials srcV;;
                     if negb eth1 then Ret false
                     else if negb (IsActiveValidator srcV (LedgerEpoch s)) then Ret false
                     else Ret (ExitEpoch srcV =? FarFutureEpoch)
               | _ => Ret false
               end
           end
  | _, _ => Ret false
  end.

(** The exit of the source and the entry in the queue. *)
Definition startConsolidation (s : Ledger) (srcIdx tgtIdx : Z) (srcV : Validator) : outcome Ledger :=
  match ComputeConsolidationEpochAndUpdateChurn (registry s) (EffectiveBalance srcV) with
  | (r, Ret exitEpoch) =>
      let s := setRegistry r s in
      s <-? omap_err (λ e, wrapErr e "failed to update validator")
             (UpdateValidatorAt s srcIdx (withExit exitEpoch (exitEpoch +w MinValidatorWithdrawabilityDelay) srcV));;
      omap_err (λ e, wrapErr e "failed to append pending consolidation") (AppendPendingConsolidation s (mkConsolidation srcIdx tgtIdx))
  | (r, Err _) => Ret (setRegistry r s)
  | (_, Panic m) => Panic m
  | (_, OutOfFuel) => OutOfFuel
  end.

(** [math.SafeAdd] of the activation epoch; an overflow is logged. *)
Definition activeLongEnough (curEpoch : Z) (v : Validator) : bool :=
  let e := ActivationEpoch v + ShardCommitteePeriod in
  (e <? two64) && (e <=? curEpoch).

Definition consolidate (curEpoch : Z) (s : Ledger) (sourcePubkey targetPubkey address : list Z) : outcome Ledger :=
  if bool_decide (sourcePubkey = targetPubkey) then Ret s
  else if negb (versionAtLeast Electra s)
  then Err (wrapErr (errNotSupported "NumPendingConsolidations") "failed to fetch number of pending consolidations")
  else if PendingConsolidationsLimit <=? Z.of_nat (length (PendingConsolidations s)) then Ret s
  else
    let churnLimit := ConsolidationChurnLimit (TotalActiveBalance (registry s)) in
    if churnLimit <=? MinActivationBalance then Ret s
    else match ValidatorIndexByPubkey s sourcePubkey, ValidatorIndexByPubkey s targetPubkey with
         | Some srcIdx, Some tgtIdx =>
             srcV <-? omap_err (λ e, wrapErr e "failed to fetch source validator") (ValidatorAt s srcIdx);;
             tgtV <-? omap_err (λ e, wrapErr e "failed to fetch target validator") (ValidatorAt s tgtIdx);;
             execution <-? HasExecutionWithdrawalCredentials srcV;;
             if negb execution then Ret s
             else if wrongAddress srcV address then Ret s
             else
               compounding <-? HasCompoundingWithdrawalCredentials tgtV;;
               if negb compounding then Ret s
               else if negb (IsActiveValidator srcV curEpoch) || negb (IsActiveValidator tgtV curEpoch) then Ret s
               else if negb (ExitEpoch srcV =? FarFutureEpoch) || negb (ExitEpoch tgtV =? FarFutureEpoch) then Ret s
               else if negb (activeLongEnough curEpoch srcV) then Ret s
               else match PendingBalanceToWithdraw s srcIdx with
                    | Ret bal => if 0 <? bal then Ret s else startConsolidation s srcIdx tgtIdx srcV
                    | Err _ => Ret s
                    | Panic m => Panic m
                    | OutOfFuel => OutOfFuel
                    end
         | _, _ => Ret s
         end.

Definition consolidationRequestStep (curEpoch : Z) (s : Ledger) (cr : ConsolidationRequest) : outcome Ledger :=
  switch <-? IsValidSwitchToCompoundingRequest s cr;;
  let source := default [] (SourcePubkey cr) in
  let target := default [] (TargetPubkey cr) in
  if switch : bool then
    match ValidatorIndexByPubkey s (ToBytes48 source) with
    | None => Ret s
    | Some srcIdx =>
        match SwitchToCompoundingValidator s srcIdx with
        | (s, Ret _) | (s, Err _) => Ret s
        | (_, Panic m) => Panic m
        | (_, OutOfFuel) => OutOfFuel
        end
    end
  else consolidate curEpoch s (ToBytes48 source) (ToBytes48 target) (ReqSourceAddress cr).

(** [None] is a nil request. *)
Fixpoint ProcessConsolidationRequests (s : Ledger) (reqs : list (option ConsolidationRequest)) : outcome Ledger :=
  match reqs with
  | [] => Ret s
  | None :: _ => Err "nil consolidation request"
  | Some cr :: reqs => s <-? consolidationRequestStep (LedgerEpoch s) s cr;; ProcessConsolidationRequests s reqs
  end.
End consolidations.
