(* ===== verification/PendingDeposits.v ===== *)
(** * The queue of pending deposits

    [ProcessPendingDeposits] collects the deposits of unknown keys, verifies their
    signatures in one batch and enters the validators at the end.  The consensus
    specification applies every deposit when it is reached.  This file states that
    reference on the ledger and shows that the two agree. *)

From S2P Require Import Prelude MathHelper Primitives SlotTime Shuffle Committee ExitQueue Bytes Sha256 Merkle SparseTrie DepositTree DepositCache Ledger DepositOps.

(** ** The reference *)

Section reference.
Context `{LedgerConfig} `{!DepositSignatures}.

Record SpecRun := mkSpecRun { SpecLedger : Ledger; specProcessed : Z; specIndex : nat; specPostponed : list PendingDeposit; specChurn : bool }.

(** [process_pending_deposits], with unbounded integers. *)
Fixpoint specLoop (nextEpoch available finalizedSlot startIndex : Z) (ds : list PendingDeposit) (r : SpecRun) : outcome SpecRun :=
  match ds with
  | [] => Ret r
  | pd :: ds =>
      let s := SpecLedger r in
      if (GenesisSlot <? PDSlot pd) && (Eth1DepositIndex s <? startIndex) then Ret r
      else if finalizedSlot <? PDSlot pd then Ret r
      else if MaxPendingDepositsPerEpoch <=? Z.of_nat (specIndex r) then Ret r
      else
        st <-? depositStatus s nextEpoch (ValidatorIndexByPubkey s (ToBytes48 (PDPublicKey pd)));;
        let '(exited, withdrawn) := st in
        let continue r := specLoop nextEpoch available finalizedSlot startIndex ds r in
        if withdrawn : bool then
          s <-? ApplyPendingDeposit s pd;;
          continue (mkSpecRun s (specProcessed r) (S (specIndex r)) (specPostponed r) (specChurn r))
        else if exited : bool then
          continue (mkSpecRun s (specProcessed r) (S (specIndex r)) (specPostponed r ++ [pd]) (specChurn r))
        else if available <? specProcessed r + PDAmount pd then
          Ret (mkSpecRun s (specProcessed r) (specIndex r) (specPostponed r) true)
        else
          s <-? ApplyPendingDeposit s pd;;
          continue (mkSpecRun s (specProcessed r + PDAmount pd) (S (specIndex r)) (specPostponed r) false)
  end.

Definition specPendingDeposits (s : Ledger) (activeBalance : Z) : outcome Ledger :=
  let available := DepositBalanceToConsume s + ActivationExitChurnLimit activeBalance in
  r <-? specLoop (LedgerEpoch s + 1) available (FinalizedEpoch s * SlotsPerEpoch) (DepositRequestsStartIndex s) (PendingDepositQueue s) (mkSpecRun s 0 0 [] false);;
  let s' := setPendingDeposits (drop (specIndex r) (PendingDepositQueue s) ++ specPostponed r) (SpecLedger r) in
  Ret (setDepositBalanceToConsume (if specChurn r then available - specProcessed r else 0) s').

(** ** Pure descriptions *)

Definition credit (i : nat) (a : Z) (s : Ledger) : Ledger := setBalances (alter (λ x, x + a) i (Balances s)) s.

Definition newEntry (val : Validator) (amount : Z) (s : Ledger) : Ledger :=
  let s := AppendBalance (AppendValidator s val) amount in
  let s := setInactivityScores (InactivityScores s ++ [0]) s in
  let s := setPreviousParticipation (PreviousEpochParticipation s ++ [0]) s in
  setCurrentParticipation (CurrentEpochParticipation s ++ [0]) s.

Definition validatorOf (d : PendingDeposit) : Validator :=
  let v := mkValidator 0 false FarFutureEpoch FarFutureEpoch FarFutureEpoch FarFutureEpoch (PDPublicKey d) (PDWithdrawalCredentials d) in
  withEffectiveBalance (Z.min (PDAmount d - PDAmount d mod EffectiveBalanceIncrement) (capOf v)) v.

Definition applyPure (domain : list Z) (s : Ledger) (d : PendingDeposit) : Ledger :=
  match ValMap s !! ToBytes48 (PDPublicKey d) with
  | Some i => credit (Z.to_nat i) (PDAmount d) s
  | None => if verifyDepositSignature (depositDataOf d) domain then newEntry (validatorOf d) (PDAmount d) s else s
  end.

(** What the deposits rely on. *)
Record books_ok (s : Ledger) : Prop := {
  bo_balances : length (Balances s) = length (Validators s);
  bo_amounts : Forall (λ b, 0 ≤ b) (Balances s);
  bo_total : Zsum (Balances s) < two64;
  bo_map : ∀ key i, ValMap s !! key = Some i → known s i;
  bo_version : versionAtLeast Electra s = true
}.

Definition good_deposit (d : PendingDeposit) : Prop := 0 ≤ PDAmount d ∧ length (PDWithdrawalCredentials d) = 32%nat.

(** [t] has the validators of [s], and new ones that have not left. *)
Record grown (s t : Ledger) : Prop := {
  gr_map : ∀ key i, ValMap s !! key = Some i → ValMap t !! key = Some i;
  gr_old : ∀ i, known s i → Validators t !! Z.to_nat i = Validators s !! Z.to_nat i;
  gr_new : ∀ key i, ValMap s !! key = None → ValMap t !! key = Some i →
    ∃ v, Validators t !! Z.to_nat i = Some v ∧ ExitEpoch v = FarFutureEpoch ∧ WithdrawableEpoch v = FarFutureEpoch;
  gr_count : NumValidators s ≤ NumValidators t;
  gr_eth1 : Eth1DepositIndex t = Eth1DepositIndex s
}.
End reference.

(** Projections of the loop states. *)
Ltac run_cbn := cbn [RunLedger processedAmount nextDepositIndex isChurnLimitReached toBatchVerify toPostpone SpecLedger specProcessed
  specIndex specPostponed specChurn].

Section proofs.
Context `{LedgerConfig} `{!DepositSignatures}.

(** ** Sums *)

Lemma Zsum_alter (l : list Z) i a : (i < length l)%nat → Zsum (alter (λ x, x + a) i l) = Zsum l + a.
Proof.
  revert i. induction l as [|x l IH]; intros i Hi; [cbn in Hi; lia|]. destruct i as [|i].
  - cbn. lia.
  - change (x + Zsum (alter (λ x, x + a) i l) = x + Zsum l + a). rewrite IH by (cbn in Hi; lia). lia.
Qed.

Lemma alter_insert_at (l : list Z) i x f : l !! i = Some x → alter f i l = <[i := f x]> l.
Proof. revert i. induction l as [|y l IH]; intros [|i] Hi; [done..|by injection Hi as ->|]. cbn. f_equal. by apply IH. Qed.

Lemma Zsum_lookup l i x : Forall (λ b, 0 ≤ b) l → l !! i = Some x → 0 ≤ x ≤ Zsum l.
Proof.
  intros Hl Hi. split; [exact (Forall_lookup_1 _ _ _ _ Hl Hi)|].
  pose proof (Zsum_map_elem id l x) as Hs. rewrite map_id in Hs. apply Hs; [by apply Forall_forall|by eapply list_elem_of_lookup_2].
Qed.

(** ** The operations are their descriptions *)

Lemma index_map s key : books_ok s → ValidatorIndexByPubkey s key = ValMap s !! key.
Proof.
  intros Hs. unfold ValidatorIndexByPubkey. destruct (ValMap s !! key) as [i|] eqn:Hi; [|done].
  pose proof (bo_map _ Hs _ _ Hi) as Hk. unfold known in Hk. by rewrite (proj2 (Z.leb_gt _ _)) by lia.
Qed.

Lemma Increase_credit s i a :
  books_ok s → known s i → 0 ≤ a → Zsum (Balances s) + a < two64 → IncreaseBalance s i a = Ret (credit (Z.to_nat i) a s).
Proof.
  intros Hs Hi%known_lt Ha Hsum. rewrite <- (bo_balances _ Hs) in Hi. destruct (lookup_lt_is_Some_2 _ _ Hi) as [x Hx].
  pose proof (Zsum_lookup _ _ _ (bo_amounts _ Hs) Hx) as Hxs.
  rewrite (IncreaseBalance_run s i x a) by (done || (unfold is_u64; lia) || lia). unfold credit. do 2 f_equal.
  symmetry. exact (alter_insert_at _ _ x (λ x, x + a) Hx).
Qed.

Lemma electra_altair s : versionAtLeast Electra s = true → versionAtLeast Altair s = true ∧ isPhase0 s = false.
Proof. unfold versionAtLeast, isPhase0. by destruct (Version s). Qed.

Lemma appendToRegistry_run s val a : versionAtLeast Electra s = true → appendToRegistry s val a = Ret (newEntry val a s).
Proof.
  intros [Ha Hp]%electra_altair. unfold appendToRegistry, AppendInactivityScore, AppendPreviousParticipationBits, AppendCurrentParticipationBits.
  change (versionAtLeast Altair (AppendBalance (AppendValidator s val) a)) with (versionAtLeast Altair s). rewrite Ha.
  unfold isPhase0 in *. change (Version (AppendBalance (AppendValidator s val) a)) with (Version s). rewrite Hp. cbn [obind].
  change (Version (setInactivityScores _ _)) with (Version s). rewrite Hp. cbn [obind].
  change (Version (setPreviousParticipation _ _)) with (Version s). by rewrite Hp.
Qed.

Lemma AddValidator_run s d :
  versionAtLeast Electra s = true → length (PDWithdrawalCredentials d) = 32%nat →
  AddValidatorToRegistry s (PDPublicKey d) (PDWithdrawalCredentials d) (PDAmount d) = Ret (newEntry (validatorOf d) (PDAmount d) s).
Proof.
  intros Hv Hc. unfold AddValidatorToRegistry, GetValidatorFromDeposit. cbn zeta. rewrite MaxEffectiveBalance_run by exact Hc. cbn [omap_err obind].
  by rewrite appendToRegistry_run.
Qed.

Lemma Apply_run domain s d :
  depositDomain = Ret domain → books_ok s → good_deposit d → Zsum (Balances s) + PDAmount d < two64 →
  ApplyPendingDeposit s d = Ret (applyPure domain s d).
Proof.
  intros Hd Hs [Ha Hc] Hsum. unfold ApplyPendingDeposit, applyPure, IsValidDepositSignature. rewrite (index_map _ _ Hs).
  destruct (ValMap s !! _) as [i|] eqn:Hi; [apply Increase_credit; [done|by apply (bo_map _ Hs _ _ Hi)|done..]|].
  rewrite Hd. cbn [obind omap_err]. destruct (verifyDepositSignature _ _); [|done]. rewrite AddValidator_run by (apply Hs || done). done.
Qed.

(** ** The invariant *)

Lemma credit_ok s i a :
  books_ok s → (i < length (Balances s))%nat → 0 ≤ a → Zsum (Balances s) + a < two64 → books_ok (credit i a s).
Proof.
  intros [Hl Ha Ht Hm Hv] Hi Hna Hsum. split; [|cbn..].
  - cbn. by rewrite length_alter.
  - apply Forall_alter; [done|]. intros x _ Hx. lia.
  - rewrite Zsum_alter by done. lia.
  - exact Hm.
  - exact Hv.
Qed.

Lemma newEntry_known s val a i : known s i → known (newEntry val a s) i.
Proof. unfold known, NumValidators. cbn. rewrite length_app. lia. Qed.

Lemma newEntry_count s val a : NumValidators (newEntry val a s) = NumValidators s + 1.
Proof. unfold NumValidators. cbn. rewrite length_app. cbn [length]. lia. Qed.

Lemma newEntry_map s val a : ValMap (newEntry val a s) = <[ToBytes48 (ValPublicKey val) := NumValidators s]> (ValMap s).
Proof. unfold newEntry. cbn. do 2 f_equal. unfold NumValidators, Validators. cbn. rewrite length_app. cbn [length]. lia. Qed.

Lemma newEntry_ok s val a : books_ok s → 0 ≤ a → Zsum (Balances s) + a < two64 → books_ok (newEntry val a s).
Proof.
  intros [Hl Ha Ht Hm Hv] Hna Hsum. split.
  - cbn. rewrite !length_app. cbn [length]. unfold Validators in *. lia.
  - cbn. apply Forall_app_2; [done|by apply Forall_singleton].
  - cbn. rewrite Zsum_app. cbn. lia.
  - intros key i. rewrite newEntry_map. intros [[_ <-]|[_ Hi]]%lookup_insert_Some; [|by apply newEntry_known, (Hm key)].
    unfold known. rewrite newEntry_count. unfold NumValidators. lia.
  - exact Hv.
Qed.

Lemma applyPure_ok domain s d :
  books_ok s → good_deposit d → Zsum (Balances s) + PDAmount d < two64 → books_ok (applyPure domain s d).
Proof.
  intros Hs [Ha _] Hsum. unfold applyPure. destruct (ValMap s !! _) as [i|] eqn:Hi.
  - apply credit_ok; [done| |done..]. pose proof (known_lt _ _ (bo_map _ Hs _ _ Hi)). rewrite (bo_balances _ Hs). done.
  - destruct (verifyDepositSignature _ _); [by apply newEntry_ok|done].
Qed.

Lemma applyPure_total domain s d :
  books_ok s → good_deposit d → Zsum (Balances s) ≤ Zsum (Balances (applyPure domain s d)) ≤ Zsum (Balances s) + PDAmount d.
Proof.
  intros Hs [Ha _]. unfold applyPure. destruct (ValMap s !! _) as [i|] eqn:Hi.
  - cbn. rewrite Zsum_alter; [lia|]. pose proof (known_lt _ _ (bo_map _ Hs _ _ Hi)). rewrite (bo_balances _ Hs). done.
  - destruct (verifyDepositSignature _ _); [|lia]. cbn. rewrite Zsum_app. cbn. lia.
Qed.

Lemma applyPure_length domain s d : (length (Balances s) ≤ length (Balances (applyPure domain s d)))%nat.
Proof.
  unfold applyPure. destruct (ValMap s !! _); cbn; [by rewrite length_alter|].
  destruct (verifyDepositSignature _ _); [|done]. cbn. rewrite length_app. lia.
Qed.

(** ** Growth *)

Lemma grown_refl s : grown s s.
Proof. split; [done..|naive_solver|done|done]. Qed.

Lemma grown_trans s t u : books_ok s → books_ok t → grown s t → grown t u → grown s u.
Proof.
  intros Hs Ht [Hm Ho Hn Hc He] [Hm' Ho' Hn' Hc' He']. split.
  - eauto.
  - intros i Hi. rewrite Ho', Ho; [done|done|]. unfold known in *. lia.
  - intros key i Hk Hu. destruct (ValMap t !! key) as [j|] eqn:Hj; [|by eapply Hn'].
    pose proof (Hm' _ _ Hj) as Hj'. rewrite Hu in Hj'. injection Hj' as ->. destruct (Hn key j Hk Hj) as (v & Hv & Hve). exists v.
    rewrite Ho'; [done|by apply (bo_map _ Ht key)].
  - lia.
  - congruence.
Qed.

Lemma applyPure_grown domain s d : books_ok s → grown s (applyPure domain s d).
Proof.
  intros Hs. unfold applyPure. destruct (ValMap s !! ToBytes48 (PDPublicKey d)) as [i|] eqn:Hi; [split; [done..|naive_solver|done|done]|].
  destruct (verifyDepositSignature _ _); [|apply grown_refl]. split.
  - intros key j Hj. rewrite newEntry_map. change (ValPublicKey (validatorOf d)) with (PDPublicKey d).
    rewrite lookup_insert_ne; [done|]. intros <-. discriminate (eq_trans (eq_sym Hi) Hj).
  - intros j Hj. cbn. rewrite lookup_app_l; [done|by apply known_lt].
  - intros key j Hk. rewrite newEntry_map. intros [[_ <-]|[_ Hj]]%lookup_insert_Some; [|discriminate (eq_trans (eq_sym Hk) Hj)].
    exists (validatorOf d). split; [|done]. cbn. unfold NumValidators. rewrite Nat2Z.id. by apply list_lookup_middle.
  - rewrite newEntry_count. lia.
  - done.
Qed.

(** ** Applying a batch *)

Definition applyAll (domain : list Z) (s : Ledger) (ds : list PendingDeposit) : Ledger := foldl (applyPure domain) s ds.

Definition amounts (ds : list PendingDeposit) : Z := Zsum (map PDAmount ds).

Lemma amounts_nonneg ds : Forall good_deposit ds → 0 ≤ amounts ds.
Proof. unfold amounts. induction 1 as [|d ds [Hd _] _ IH]; cbn; lia. Qed.

Lemma amounts_app ds ds' : amounts (ds ++ ds') = amounts ds + amounts ds'.
Proof. unfold amounts. by rewrite map_app, Zsum_app. Qed.

Lemma amounts_cons d ds : amounts (d :: ds) = PDAmount d + amounts ds.
Proof. done. Qed.

Lemma applyAll_ok domain ds : ∀ s,
  books_ok s → Forall good_deposit ds → Zsum (Balances s) + amounts ds < two64 →
  books_ok (applyAll domain s ds) ∧ grown s (applyAll domain s ds) ∧ Zsum (Balances (applyAll domain s ds)) ≤ Zsum (Balances s) + amounts ds.
Proof.
  induction ds as [|d ds IH]; intros s Hs Hds Hsum; cbn [applyAll foldl].
  { unfold amounts. cbn. split_and!; [done|apply grown_refl|lia]. }
  apply Forall_cons in Hds as [Hd Hds]. rewrite amounts_cons in *. pose proof (amounts_nonneg _ Hds).
  pose proof (applyPure_total domain s d Hs Hd). pose proof (applyPure_ok domain s d Hs Hd ltac:(lia)) as Hs1.
  destruct (IH _ Hs1 Hds) as (Hok & Hgr & Hle); [lia|]. split_and!; [done| |unfold applyAll in Hle; lia].
  eapply grown_trans; [done|exact Hs1|by apply applyPure_grown|done].
Qed.

Lemma alter_comm (l : list Z) a b : ∀ i j, alter (λ x, x + a) i (alter (λ x, x + b) j l) = alter (λ x, x + b) j (alter (λ x, x + a) i l).
Proof.
  induction l as [|x l IH]; intros [|i] [|j]; cbn; [done..| |done|done|].
  - by replace (x + b + a) with (x + a + b) by lia.
  - f_equal. apply IH.
Qed.

Lemma applyPure_credit domain s d i a :
  (i < length (Balances s))%nat → applyPure domain (credit i a s) d = credit i a (applyPure domain s d).
Proof.
  intros Hi. unfold applyPure. change (ValMap (credit i a s)) with (ValMap s). destruct (ValMap s !! _).
  - unfold credit, setBalances. cbn. by rewrite alter_comm.
  - destruct (verifyDepositSignature _ _); [|done]. unfold credit, newEntry, AppendBalance, AppendValidator, setBalances. cbn.
    by rewrite alter_app_l.
Qed.

Lemma applyAll_credit domain ds i a : ∀ s,
  (i < length (Balances s))%nat → applyAll domain (credit i a s) ds = credit i a (applyAll domain s ds).
Proof.
  induction ds as [|d ds IH]; intros s Hi; [done|]. cbn [applyAll foldl]. rewrite applyPure_credit by done.
  apply IH. pose proof (applyPure_length domain s d). lia.
Qed.

Lemma batchLoop_run domain ds (all : bool) : ∀ s,
  depositDomain = Ret domain → books_ok s → Forall good_deposit ds → Zsum (Balances s) + amounts ds < two64 →
  (all = true → ∀ d, d ∈ ds → verifyDepositSignature (depositDataOf d) domain = true) →
  batchLoop all s ds = Ret (applyAll domain s ds).
Proof.
  induction ds as [|d ds IH]; intros s Hd Hs Hds Hsum Hall; [done|]. cbn [batchLoop applyAll foldl].
  apply Forall_cons in Hds as [Hgd Hds]. rewrite amounts_cons in *. pose proof (amounts_nonneg _ Hds). pose proof (applyPure_total domain s d Hs Hgd).
  assert ((if all then Ret true else omap_err (λ e, wrapErr e "individual deposit signature verification failed") (IsValidDepositSignature (depositDataOf d)))
          = Ret (verifyDepositSignature (depositDataOf d) domain)) as ->.
  { destruct all; [rewrite Hall by (done || set_solver); done|]. unfold IsValidDepositSignature. by rewrite Hd. }
  cbn [obind]. pose proof (Apply_run domain s d Hd Hs Hgd ltac:(lia)) as Hrun. unfold ApplyPendingDeposit, IsValidDepositSignature in Hrun. rewrite Hd in Hrun.
  cbn [obind omap_err] in Hrun.
  assert (∀ f g : error → error, match ValidatorIndexByPubkey s (ToBytes48 (PDPublicKey d)) with
      | Some index => omap_err f (IncreaseBalance s index (PDAmount d))
      | None => if verifyDepositSignature (depositDataOf d) domain
                then omap_err g (AddValidatorToRegistry s (PDPublicKey d) (PDWithdrawalCredentials d) (PDAmount d)) else Ret s
      end = Ret (applyPure domain s d)) as ->.
  { intros f g. destruct (ValidatorIndexByPubkey _ _); [by rewrite Hrun|]. destruct (verifyDepositSignature _ _); [|done].
    rewrite AddValidator_run in * by (apply Hs || apply Hgd). done. }
  cbn [obind]. apply IH; [done|by apply applyPure_ok; [done..|lia]|done|lia|]. intros Ht e He. apply Hall; [done|set_solver].
Qed.

Lemma batchProcess_run domain s ds :
  depositDomain = Ret domain → books_ok s → Forall good_deposit ds → Zsum (Balances s) + amounts ds < two64 →
  batchProcessNewPendingDeposits s ds = Ret (applyAll domain s ds).
Proof.
  intros Hd Hs Hds Hsum. unfold batchProcessNewPendingDeposits. destruct ds as [|d ds]; [done|]. cbn [length Nat.eqb].
  unfold BatchVerifyPendingDepositsSignatures. rewrite Hd. cbn [obind omap_err]. apply batchLoop_run; [done..|].
  intros Ht e He. eapply verifyDepositBatch_sound; [exact Ht|]. by apply list_elem_of_fmap_2.
Qed.

(** ** Simulation *)

Definition indexOf (s : Ledger) (pd : PendingDeposit) : option Z := ValidatorIndexByPubkey s (ToBytes48 (PDPublicKey pd)).

(** The status of a key does not depend on the deposits that wait in the batch. *)
Lemma status_same s t nextEpoch pd :
  books_ok s → books_ok t → grown s t → nextEpoch ≤ FarFutureEpoch →
  ∃ st, depositStatus s nextEpoch (indexOf s pd) = Ret st ∧ depositStatus t nextEpoch (indexOf t pd) = Ret st ∧
    (indexOf s pd = None → st = (false, false)).
Proof.
  intros Hs Ht Hg Hne. unfold indexOf. rewrite (index_map s), (index_map t) by done. destruct (ValMap s !! _) as [i|] eqn:Hi.
  - rewrite (gr_map _ _ Hg _ _ Hi). pose proof (bo_map _ Hs _ _ Hi) as Hk. destruct (known_validator _ _ Hk) as (v & Hv & Hva). cbn [depositStatus].
    rewrite Hva. cbn [omap_err obind]. pose proof (gr_old _ _ Hg i Hk) as Hold. rewrite Hv in Hold.
    assert (ValidatorAt t i = Ret v) as -> by (unfold ValidatorAt, ValidatorAtIndex, Validators in *; by rewrite Hold).
    eexists. split_and!; [done|done|done].
  - exists (false, false). split_and!; [done| |done]. destruct (ValMap t !! _) as [j|] eqn:Hj; [|done].
    destruct (gr_new _ _ Hg _ _ Hi Hj) as (v & Hv & He & Hw). cbn [depositStatus].
    assert (ValidatorAt t j = Ret v) as -> by (unfold ValidatorAt, ValidatorAtIndex, Validators in *; by rewrite Hv).
    cbn [omap_err obind]. rewrite He, Hw, Z.ltb_irrefl. by rewrite (proj2 (Z.ltb_ge _ _)) by lia.
Qed.

Record sim (domain : list Z) (available : Z) (r : PendingRun) (q : SpecRun) : Prop := {
  si_books : books_ok (RunLedger r);
  si_batch : Forall good_deposit (toBatchVerify r);
  si_ledger : SpecLedger q = applyAll domain (RunLedger r) (toBatchVerify r);
  si_amount : specProcessed q = processedAmount r;
  si_index : nextDepositIndex r = Z.of_nat (specIndex q);
  si_postponed : specPostponed q = toPostpone r;
  si_churn : specChurn q = isChurnLimitReached r;
  si_room : 0 ≤ processedAmount r ≤ available
}.

(** The amounts that the ledger may still receive. *)
Definition room (r : PendingRun) (ds : list PendingDeposit) : Z :=
  Zsum (Balances (RunLedger r)) + amounts (toBatchVerify r) + amounts ds.

Lemma sim_ledger domain available r q ds :
  sim domain available r q → Forall good_deposit ds → room r ds < two64 →
  books_ok (SpecLedger q) ∧ grown (RunLedger r) (SpecLedger q) ∧ Zsum (Balances (SpecLedger q)) + amounts ds < two64.
Proof.
  intros [Hs Hb Hl _ _ _ _ _] Hds Hroom. unfold room in Hroom. pose proof (amounts_nonneg _ Hds). pose proof (amounts_nonneg _ Hb).
  rewrite Hl. destruct (applyAll_ok domain (toBatchVerify r) _ Hs Hb) as (Hok & Hg & Hle); [lia|]. split_and!; [done|done|lia].
Qed.

(** A deposit of a known key, in both. *)
Lemma sim_credit domain available r q pd ds i a b :
  depositDomain = Ret domain → sim domain available r q → good_deposit pd → Forall good_deposit ds → room r (pd :: ds) < two64 →
  indexOf (RunLedger r) pd = Some i → 0 ≤ a ≤ available →
  let s' := credit (Z.to_nat i) (PDAmount pd) (RunLedger r) in
  let r' := mkPendingRun s' a (nextDepositIndex r + 1) b (toBatchVerify r) (toPostpone r) in
  ∃ t', IncreaseBalance (RunLedger r) i (PDAmount pd) = Ret s' ∧ ApplyPendingDeposit (SpecLedger q) pd = Ret t' ∧
    sim domain available r' (mkSpecRun t' a (S (specIndex q)) (specPostponed q) b) ∧ room r' ds < two64.
Proof.
  intros Hd Hsim Hpd Hds Hroom Hi Ha s' r'. destruct (sim_ledger _ _ _ _ (pd :: ds) Hsim) as (Hok & Hg & Htot); [by constructor|done|].
  pose proof (amounts_nonneg _ Hds). destruct Hsim as [Hs Hb Hl Ham Hix Hpo Hch Hav]. pose proof (amounts_nonneg _ Hb).
  unfold indexOf in Hi. rewrite (index_map _ _ Hs) in Hi. pose proof (bo_map _ Hs _ _ Hi) as Hk. pose proof (known_lt _ _ Hk) as Hlt.
  rewrite <- (bo_balances _ Hs) in Hlt. unfold room in *. rewrite amounts_cons in *. destruct Hpd as [Hp0 Hpc].
  exists (applyPure domain (SpecLedger q) pd). split_and!.
  - apply Increase_credit; [done..|lia].
  - apply Apply_run; [done|done|by split|lia].
  - unfold r'. split; run_cbn; [|done| |done|rewrite Hix; lia|done|done|done].
    + unfold s'. apply credit_ok; [done..|lia].
    + unfold s'. rewrite applyAll_credit by done. rewrite <- Hl. unfold applyPure. pose proof (gr_map _ _ Hg _ _ Hi) as Hi'.
      match goal with |- match ?x with _ => _ end = _ => replace x with (Some i) end. done.
  - unfold r', s'. run_cbn. cbn [credit Balances setBalances]. rewrite Zsum_alter by done. lia.
Qed.

Lemma sim_loop domain nextEpoch available finalizedSlot startIndex ds : ∀ r q,
  depositDomain = Ret domain → nextEpoch ≤ FarFutureEpoch → available < two64 →
  sim domain available r q → Forall good_deposit ds → room r ds < two64 → processedAmount r + amounts ds < two64 →
  nextDepositIndex r + Z.of_nat (length ds) < two64 →
  ∃ r' q', pendingDepositsLoop nextEpoch available finalizedSlot startIndex ds r = Ret r' ∧
    specLoop nextEpoch available finalizedSlot startIndex ds q = Ret q' ∧ sim domain available r' q' ∧
    room r' [] < two64.
Proof.
  induction ds as [|pd ds IH]; intros r q Hd Hne Hav Hsim Hds Hroom Hproc Hidx; cbn [pendingDepositsLoop specLoop].
  { by exists r, q. }
  pose proof Hsim as Hsim0. destruct (sim_ledger _ _ _ _ _ Hsim Hds Hroom) as (Hok & Hg & _). pose proof (amounts_nonneg _ Hds) as Hnn.
  assert (room r [] < two64) as Hr0 by (unfold room, amounts in *; cbn [map Zsum] in *; lia).
  apply Forall_cons in Hds as [Hpd Hds]. destruct Hsim as [Hs Hb Hl Ham Hix Hpo Hch [Hp0 Hpa]]. rewrite (gr_eth1 _ _ Hg), <- Hix.
  case_if; [by exists r, q|]. case_if; [by exists r, q|]. case_if; [by exists r, q|].
  destruct (status_same _ _ nextEpoch pd Hs Hok Hg Hne) as ([exited wdn] & Hst1 & Hst2 & Hst3). unfold indexOf in Hst1, Hst2. rewrite Hst1, Hst2. cbn [obind].
  cbn [length] in Hidx. assert (nextDepositIndex r +w 1 = nextDepositIndex r + 1) as Hw by (apply wrap64_small; unfold is_u64; lia). cbn beta in Hw. rewrite Hw.
  pose proof Hpd as [Hpd0 _]. rewrite Ham. fold (indexOf (RunLedger r) pd).
  assert (amounts (pd :: ds) = PDAmount pd + amounts ds) as Hac by done. pose proof (amounts_nonneg _ Hds).
  pose proof (amounts_nonneg _ Hb). assert (0 ≤ Zsum (Balances (RunLedger r))) by (apply Zsum_nonneg; apply Hs).
  assert (processedAmount r +w PDAmount pd = processedAmount r + PDAmount pd) as Hpw by (apply wrap64_small; unfold is_u64; lia). cbn beta in Hpw.
  destruct wdn.
  { destruct (indexOf (RunLedger r) pd) as [i|] eqn:Hi; [|by specialize (Hst3 eq_refl)]. cbn [default from_option id].
    destruct (sim_credit domain available r q pd ds i (processedAmount r) (isChurnLimitReached r)) as (t' & -> & -> & Hs' & Hr'); [done..|].
    cbn [omap_err obind]. rewrite Hch. apply IH; [done..|run_cbn; lia|run_cbn; lia]. }
  destruct exited.
  { rewrite Hpo, Hch. apply IH; [done..| |done|unfold room in *; run_cbn; lia|run_cbn; lia|run_cbn; lia]. split; run_cbn; [done..|lia|done|done|lia]. }
  rewrite Hpw. case_if.
  { do 2 eexists. split_and!; [done|done| |done]. split; run_cbn; [done..|lia]. }
  destruct (indexOf (RunLedger r) pd) as [i|] eqn:Hi.
  { destruct (sim_credit domain available r q pd ds i (processedAmount r + PDAmount pd) false) as (t' & -> & -> & Hs' & Hr'); [done..|lia|].
    cbn [omap_err obind]. apply IH; [done..|run_cbn; lia|run_cbn; lia]. }
  destruct (sim_ledger _ _ _ _ (pd :: ds) Hsim0) as (_ & _ & Htot); [by constructor|done|].
  rewrite (Apply_run domain) by (done || lia). cbn [obind].
  apply IH; [done..| |done| |run_cbn; lia|run_cbn; lia].
  - split; run_cbn; [done| | |done|lia|done|done|lia].
    + apply Forall_app_2; [done|by apply Forall_singleton].
    + rewrite Hl. unfold applyAll. by rewrite foldl_app.
  - unfold room in *. run_cbn. rewrite amounts_app. unfold amounts at 2. cbn [map Zsum]. lia.
Qed.

(** ** The theorem *)

Record deposits_ready (s : Ledger) (activeBalance : Z) : Prop := {
  dr_books : books_ok s;
  dr_deposits : Forall good_deposit (PendingDepositQueue s);
  dr_total : Zsum (Balances s) + amounts (PendingDepositQueue s) < two64;
  dr_length : Z.of_nat (length (PendingDepositQueue s)) < two64;
  dr_churn : 0 ≤ DepositBalanceToConsume s ∧ 0 ≤ ActivationExitChurnLimit activeBalance ∧
    DepositBalanceToConsume s + ActivationExitChurnLimit activeBalance < two64;
  dr_epoch : 0 ≤ LedgerEpoch s < maxUint64;
  dr_finalized : 0 ≤ FinalizedEpoch s ∧ FinalizedEpoch s * SlotsPerEpoch < two64;
  dr_domain : ∃ domain, depositDomain = Ret domain
}.

Lemma EpochStart_run e : 0 ≤ e → e * SlotsPerEpoch < two64 → EpochStart e = Ret (e * SlotsPerEpoch).
Proof.
  intros He Hlt. pose proof SlotsPerEpoch_range. unfold EpochStart, Slot_SafeMul, two63 in *. rewrite Mul64_spec by (unfold is_u64, two64 in *; nia).
  rewrite (Z.mul_comm SlotsPerEpoch). by rewrite (proj2 (Z.ltb_lt _ _)) by done.
Qed.

Lemma setPending_run s ds b :
  versionAtLeast Electra s = true →
  (s <-? omap_err (λ e, wrapErr e "could not set pending deposits") (SetPendingDeposits s ds);; SetDepositBalanceToConsume s b) =
  Ret (setDepositBalanceToConsume b (setPendingDeposits ds s)).
Proof.
  intros Hv. unfold SetPendingDeposits, SetDepositBalanceToConsume. rewrite Hv. cbn [negb omap_err obind].
  change (versionAtLeast Electra (setPendingDeposits ds s)) with (versionAtLeast Electra s). by rewrite Hv.
Qed.

(** C7. Batching pending deposits changes nothing: on a state with room for the pending
    amounts, [ProcessPendingDeposits], which verifies the signatures of unknown keys in one
    batch and enters their validators after all other deposits, ends with the state that
    the sequential algorithm of the specification computes, which applies every deposit
    when it is reached. *)
Theorem pending_deposits_spec s activeBalance :
  deposits_ready s activeBalance →
  ∃ s', ProcessPendingDeposits s activeBalance = Ret s' ∧ specPendingDeposits s activeBalance = Ret s'.
Proof.
  intros [Hs Hds Htot Hlen (Hc1 & Hc2 & Hc3) He [Hf1 Hf2] [domain Hd]]. unfold ProcessPendingDeposits, specPendingDeposits.
  rewrite (bo_version _ Hs), (EpochStart_run _ Hf1 Hf2). cbn [negb omap_err obind].
  assert (LedgerEpoch s +w 1 = LedgerEpoch s + 1) as Hw1 by (apply wrap64_small; unfold is_u64, two64, maxUint64 in *; lia). cbn beta in Hw1.
  set (available := DepositBalanceToConsume s + _) in *.
  assert (wrap64 available = available) as Hw2 by (apply wrap64_small; unfold is_u64; lia).
  rewrite Hw1, Hw2. pose proof (amounts_nonneg _ Hds). assert (0 ≤ Zsum (Balances s)) by (apply Zsum_nonneg; apply Hs).
  destruct (sim_loop domain (LedgerEpoch s + 1) available (FinalizedEpoch s * SlotsPerEpoch) (DepositRequestsStartIndex s) (PendingDepositQueue s)
              (mkPendingRun s 0 0 false [] []) (mkSpecRun s 0 0 [] false)) as (r & q & -> & -> & Hsim & Hroom);
    [done|rewrite FarFutureEpoch_max; lia|lia| |done|unfold room, amounts at 1; run_cbn; cbn [map Zsum]; lia|run_cbn; lia|run_cbn; lia|].
  { split; run_cbn; [done|constructor|done..|lia]. }
  destruct (sim_ledger _ _ _ _ [] Hsim) as (Hok & _ & _); [constructor|done|]. destruct Hsim as [Hsr Hb Hl Ham Hix Hpo Hch Hav].
  cbn [obind]. rewrite (batchProcess_run domain) by (done || (unfold room, amounts in *; cbn [map Zsum] in *; lia)). cbn [omap_err obind]. rewrite <- Hl.
  eexists. split; [|done]. rewrite Hpo, Hch, Hix, Nat2Z.id, Ham.
  destruct (isChurnLimitReached r); rewrite setPending_run by apply Hok; [|done]. do 2 f_equal. apply wrap64_small. unfold is_u64. lia.
Qed.
End proofs.

(** ** Witnesses *)

(** Signatures are valid when they start with 1. *)
Definition sampleVerify (d : DepositData) : bool := match Signature d with 1 :: _ => true | _ => false end.

#[program] Definition sampleSignatures : DepositSignatures := {|
  depositDomain := Ret [3];
  verifyDepositSignature d _ := sampleVerify d;
  verifyDepositBatch ds _ := forallb sampleVerify ds
|}.
Next Obligation.
  intros ds domain d Hall Hd. cbn in *. rewrite forallb_forall in Hall. apply Hall. by apply list_elem_of_In.
Qed.

Definition samplePending (key amount signature : Z) : PendingDeposit :=
  mkPendingDeposit (replicate 48 key) (1 :: replicate 31 key) amount [signature] 0.

(** A top-up, a new validator, a top-up of it, an invalid signature and a withdrawn
    validator. *)
Definition depositLedger : Ledger :=
  setPendingDeposits [samplePending 3 1000000000 0; samplePending 9 32000000000 1; samplePending 9 2000000000 0;
    samplePending 8 32000000000 0; samplePending 2 5000000000 0] sampleLedger.

Lemma depositLedger_books : books_ok depositLedger.
Proof.
  split; [done|repeat constructor; by compute|by vm_compute| |done].
  intros key i Hi. assert (Forall (λ x : list Z * Z, 0 ≤ x.2 < 4) (map_to_list (ValMap depositLedger))) as Hall
    by (vm_compute; repeat constructor; discriminate).
  apply elem_of_map_to_list in Hi. rewrite Forall_forall in Hall. exact (Hall _ Hi).
Qed.

Lemma pending_deposits_spec_witness :
  ∃ s', @ProcessPendingDeposits _ mainnetLedgerConfig sampleSignatures depositLedger 256000000000 = Ret s' ∧
    @specPendingDeposits _ mainnetLedgerConfig sampleSignatures depositLedger 256000000000 = Ret s' ∧
    Balances s' = [32500000000; 36000000000; 65700000000; 33000000000; 34000000000].
Proof.
  destruct (@pending_deposits_spec _ mainnetLedgerConfig sampleSignatures depositLedger 256000000000) as (s' & Hrun & Hspec).
  { split; [exact depositLedger_books|repeat constructor; by compute|by vm_compute|by vm_compute|by vm_compute|by vm_compute|by vm_compute|by exists [3]]. }
  exists s'. split_and!; [exact Hrun|exact Hspec|].
  assert ((r <-? @ProcessPendingDeposits _ mainnetLedgerConfig sampleSignatures depositLedger 256000000000;; Ret (Balances r)) =
          Ret [32500000000; 36000000000; 65700000000; 33000000000; 34000000000]) as Hb by (vm_compute; reflexivity).
  rewrite Hrun in Hb. by injection Hb.
Defined.
