(* ===== verification/LinkedList.v ===== *)
(** * Doubly linked list

    Models [container/doubly-linked-list/list.go]: nodes with pointers to their neighbours
    in an explicit heap, and the list with its first and last node.  The theorem is that a
    heap of nodes behaves as the list of their values: appending puts a node at the end,
    removing a node of the list takes it out, and the nodes can be walked in both
    directions, also from a node that has just been removed. *)

From S2P Require Import Prelude.

(** ** Data *)

(** A pointer; nil is [None]. *)
Abbreviation ptr := (option nat).

Section list.
Context {T : Type}.

Record ListNode := mkNode { value : T; prev : ptr; next : ptr }.

(** The nodes that have been made, and where the next one goes. *)
Record Nodes := mkNodes { cells : gmap nat ListNode; fresh : nat }.

Record List := mkList { first : ptr; last : ptr; len : Z }.

Definition errNextOnNil : error := "cannot get next node of nil node".
Definition errPrevOnNil : error := "cannot get previous node of nil node".
Definition errValueOnNil : error := "cannot get value of nil node".

(** ** Operations *)

Definition emptyList : List := mkList None None 0.
Definition emptyNodes : Nodes := mkNodes ∅ 0.

(** A field access through a pointer. *)
Definition load (h : Nodes) (p : ptr) : outcome ListNode :=
  match p with
  | Some a => match cells h !! a with Some n => Ret n | None => Panic "invalid pointer" end
  | None => Panic "nil pointer dereference"
  end.
Definition store (h : Nodes) (p : ptr) (f : ListNode → ListNode) : outcome Nodes :=
  n <-? load h p;; Ret (mkNodes (<[default 0%nat p := f n]> (cells h)) (fresh h)).

Definition setPrev (p : ptr) (n : ListNode) : ListNode := mkNode (value n) p (next n).
Definition setNext (p : ptr) (n : ListNode) : ListNode := mkNode (value n) (prev n) p.

Definition First (l : List) : ptr := first l.
Definition Last (l : List) : ptr := last l.
Definition ListLen (l : List) : Z := len l.

Definition NewNode (v : T) (h : Nodes) : Nodes * ptr :=
  (mkNodes (<[fresh h := mkNode v None None]> (cells h)) (S (fresh h)), Some (fresh h)).

Definition ListAppend (n : ptr) (l : List) (h : Nodes) : outcome (List * Nodes) :=
  match first l with
  | None => Ret (mkList n n (len l + 1), h)
  | Some _ =>
      h <-? store h n (setPrev (last l));;
      h <-? store h (last l) (setNext n);;
      Ret (mkList (first l) n (len l + 1), h)
  end.

Definition Remove (n : ptr) (l : List) (h : Nodes) : outcome (List * Nodes) :=
  match n with
  | None => Ret (l, h)
  | Some _ =>
      if bool_decide (n = First l) then
        if bool_decide (n = last l) then Ret (mkList None None (len l - 1), h)
        else
          nd <-? load h n;;
          h <-? store h (next nd) (setPrev None);;
          Ret (mkList (next nd) (last l) (len l - 1), h)
      else if bool_decide (n = last l) then
        nd <-? load h n;;
        h <-? store h (prev nd) (setNext None);;
        Ret (mkList (first l) (prev nd) (len l - 1), h)
      else
        nd <-? load h n;;
        match next nd, prev nd with
        | Some _, Some _ =>
            h <-? store h (prev nd) (setNext (next nd));;
            h <-? store h (next nd) (setPrev (prev nd));;
            Ret (mkList (first l) (last l) (len l - 1), h)
        | _, _ => Ret (l, h)
        end
  end.

Definition Next (n : ptr) (h : Nodes) : outcome ptr :=
  match n with None => Err errNextOnNil | _ => nd <-? load h n;; Ret (next nd) end.
Definition Prev (n : ptr) (h : Nodes) : outcome ptr :=
  match n with None => Err errPrevOnNil | _ => nd <-? load h n;; Ret (prev nd) end.
Definition NodeValue (n : ptr) (h : Nodes) : outcome T :=
  match n with None => Err errValueOnNil | _ => nd <-? load h n;; Ret (value nd) end.

Definition NodeCopy (n : ptr) (h : Nodes) : outcome (Nodes * ptr) :=
  match n with None => Ret (h, None) | _ => nd <-? load h n;; Ret (NewNode (value nd) h) end.

(** [Copy] walks the list; the walk of a well-formed list ends after [len] steps. *)
Fixpoint copyLoop (fuel : nat) (n : ptr) (list : List) (h : Nodes) : outcome (List * Nodes) :=
  match n with
  | None => Ret (list, h)
  | Some _ =>
      match fuel with
      | O => OutOfFuel
      | S fuel =>
          c <-? NodeCopy n h;;
          r <-? ListAppend c.2 list c.1;;
          n' <-? Next n r.2;;
          copyLoop fuel n' r.1 r.2
      end
  end.
Definition ListCopy (l : List) (h : Nodes) : outcome (List * Nodes) :=
  if len l =? 0 then Ret (emptyList, h) else copyLoop (Z.to_nat (len l)) (First l) emptyList h.
End list.
Arguments ListNode : clear implicits.
Arguments Nodes : clear implicits.

(** ** The list that a heap represents *)

Section laws.
Context {T : Type}.
Implicit Types (h : Nodes T) (l : List) (ns : list (nat * T)).

Definition addr ns (i : nat) : ptr := ns.*1 !! i.

(** The node at position [i]. *)
Definition linkedNode ns (i : nat) (v : T) : ListNode T := mkNode v (match i with O => None | S j => addr ns j end) (addr ns (S i)).

Record links h l ns : Prop := {
  rp_first : first l = addr ns 0;
  rp_last : last l = addr ns (length ns - 1);
  rp_len : len l = Z.of_nat (length ns);
  rp_nodup : NoDup (ns.*1);
  rp_fresh : ∀ a, a ∈ ns.*1 → (a < fresh h)%nat;
  rp_nodes : ∀ i a v, ns !! i = Some (a, v) → cells h !! a = Some (linkedNode ns i v)
}.

Lemma represents_empty h : links h emptyList [].
Proof. split; try done; [constructor|set_solver]. Qed.

Lemma addr_Some ns i a : addr ns i = Some a ↔ ∃ v, ns !! i = Some (a, v).
Proof. unfold addr. rewrite list_lookup_fmap_Some. split; [intros ([b v] & ? & Hb); cbn in *; subst; by exists v|intros [v ?]; by exists (a, v)]. Qed.
Lemma addr_None ns i : addr ns i = None ↔ (length ns <= i)%nat.
Proof. unfold addr. by rewrite lookup_ge_None, length_fmap. Qed.
Lemma addr_inj ns i j a : NoDup (ns.*1) → addr ns i = Some a → addr ns j = Some a → i = j.
Proof. intros Hnd. by apply NoDup_lookup. Qed.

Lemma load_at h l ns i a v : links h l ns → ns !! i = Some (a, v) → load h (Some a) = Ret (linkedNode ns i v).
Proof. intros Hr Hi. unfold load. by rewrite (rp_nodes _ _ _ Hr i a v Hi). Qed.

(** The end of a walk. *)
Lemma Next_at h l ns i a v : links h l ns → ns !! i = Some (a, v) → Next (Some a) h = Ret (addr ns (S i)).
Proof. intros Hr Hi. unfold Next. by rewrite (load_at _ _ _ _ _ _ Hr Hi). Qed.
Lemma Prev_at h l ns i a v : links h l ns → ns !! i = Some (a, v) → Prev (Some a) h = Ret (match i with O => None | S j => addr ns j end).
Proof. intros Hr Hi. unfold Prev. by rewrite (load_at _ _ _ _ _ _ Hr Hi). Qed.
Lemma Value_at h l ns i a v : links h l ns → ns !! i = Some (a, v) → NodeValue (Some a) h = Ret v.
Proof. intros Hr Hi. unfold NodeValue. by rewrite (load_at _ _ _ _ _ _ Hr Hi). Qed.

(** ** Appending *)

Lemma store_run h a n f : cells h !! a = Some n → store h (Some a) f = Ret (mkNodes (<[a := f n]> (cells h)) (fresh h)).
Proof. intros Hn. unfold store, load. by rewrite Hn. Qed.

Lemma addr_app_l ns ms i : (i < length ns)%nat → addr (ns ++ ms) i = addr ns i.
Proof. intros Hi. unfold addr. rewrite fmap_app, lookup_app_l; [done|]. by rewrite length_fmap. Qed.
Lemma addr_app_end ns a v : addr (ns ++ [(a, v)]) (length ns) = Some a.
Proof. unfold addr. rewrite fmap_app, lookup_app_r; rewrite length_fmap; [|done]. by rewrite Nat.sub_diag. Qed.

(** [h'] is [h] outside the nodes [ns]. *)
Definition frame (as_ : list nat) h h' : Prop := fresh h' = fresh h ∧ ∀ b, b ∉ as_ → cells h' !! b = cells h !! b.

(** A node that is in no list. *)
Definition isolated h (a : nat) (v : T) : Prop := cells h !! a = Some (mkNode v None None) ∧ (a < fresh h)%nat.

Lemma Append_represents h l ns a v :
  links h l ns → a ∉ ns.*1 → isolated h a v →
  ∃ l' h', ListAppend (Some a) l h = Ret (l', h') ∧ links h' l' (ns ++ [(a, v)]) ∧ frame (a :: ns.*1) h h' ∧ last l' = Some a.
Proof.
  intros [R1 R2 R3 R4 R5 R6] Hni [Ha Hfr]. unfold ListAppend. destruct ns as [|n0 ns0] eqn:Ens.
  - cbn in R1. rewrite R1. do 2 eexists. split; [reflexivity|]. split_and!; [|done|done].
    split; cbn; [done|done|rewrite R3; done|apply NoDup_singleton|set_solver|]. intros [|i] b w Hi; [|done]. cbn in Hi. by injection Hi as <- <-.
  - rewrite <- Ens in *. assert (0 < length ns)%nat as Hpos by (rewrite Ens; cbn; lia). destruct (addr ns (length ns - 1)) as [z|] eqn:Hz; [|apply addr_None in Hz; lia].
    destruct (proj1 (addr_Some _ _ _) Hz) as [w Hw]. assert (z ≠ a) as Hza by (intros ->; apply Hni; apply list_elem_of_lookup; eexists; exact Hz).
    destruct (first l) as [f0|] eqn:Hf; [|symmetry in R1; apply addr_None in R1; lia]. rewrite R2, (store_run h a _ _ Ha). cbn [obind].
    erewrite store_run; [|cbn [cells]; rewrite lookup_insert_ne by done; apply (R6 _ _ _ Hw)]. cbn [obind fresh cells]. do 2 eexists. split; [reflexivity|].
    split_and!; [|split; [done|]; intros b Hb; cbn [cells]; rewrite !lookup_insert_ne; [done|set_solver|]|done].
    2:{ intros ->. apply Hb. right. apply list_elem_of_lookup. by eexists. }
    split; cbn [first last len fresh cells].
    + by rewrite addr_app_l.
    + rewrite length_app. cbn [length]. replace (length ns + 1 - 1)%nat with (length ns) by lia. by rewrite addr_app_end.
    + rewrite R3, length_app. cbn [length]. lia.
    + rewrite fmap_app. apply NoDup_app. split_and!; [done|set_solver|apply NoDup_singleton].
    + intros b. rewrite fmap_app, elem_of_app. intros [?| ->%list_elem_of_singleton]; [by apply R5|done].
    + intros i b x Hi. destruct (decide (i < length ns)%nat) as [Hlt|Hge].
      * rewrite lookup_app_l in Hi by done. assert (b ≠ a) as Hba. { intros ->. apply Hni. apply list_elem_of_lookup. exists i. by apply addr_Some; exists x. }
        destruct (decide (i = (length ns - 1)%nat)) as [->|Hne].
        -- assert (b = z ∧ x = w) as [-> ->] by (split; congruence). rewrite lookup_insert_eq. unfold setNext, linkedNode. cbn [value prev]. f_equal. f_equal.
           ++ destruct (length ns - 1)%nat eqn:E; [done|]. by rewrite addr_app_l by lia.
           ++ replace (S (length ns - 1)) with (length ns) by lia. by rewrite addr_app_end.
        -- assert (z ≠ b) as Hzb. { intros ->. apply Hne. apply (addr_inj ns _ _ b); [done| |exact Hz]. apply addr_Some. by exists x. }
           rewrite !lookup_insert_ne by done. rewrite (R6 _ _ _ Hi). unfold linkedNode. f_equal. f_equal; [destruct i; [done|]; by rewrite addr_app_l by lia|by rewrite addr_app_l by lia].
      * rewrite lookup_app_r in Hi by lia. apply list_lookup_singleton_Some in Hi as [Hi0 [= -> ->]]. assert (i = length ns) as -> by lia.
        rewrite lookup_insert_ne, lookup_insert_eq by done. unfold setPrev, linkedNode. cbn [value next]. f_equal. f_equal.
        -- destruct (length ns) eqn:E; [lia|]. rewrite addr_app_l by lia. replace (S n - 1)%nat with n in Hz by lia. done.
        -- symmetry. apply addr_None. rewrite length_app. cbn. lia.
Qed.

(** ** Removing *)

Lemma addr_delete ns i j : addr (delete i ns) j = if decide (j < i)%nat then addr ns j else addr ns (S j).
Proof.
  unfold addr. rewrite !list_lookup_fmap. case_decide; [by rewrite list_lookup_delete_lt|by rewrite list_lookup_delete_ge by lia].
Qed.

Definition pred ns (i : nat) : ptr := match i with O => None | S j => addr ns j end.

(** What removing the node at [i] does to the node at address [b]. *)
Definition unlinked ns (i b : nat) (n : ListNode T) : ListNode T :=
  mkNode (value n) (if bool_decide (addr ns (S i) = Some b) then pred ns i else prev n) (if bool_decide (pred ns i = Some b) then addr ns (S i) else next n).

Lemma pred_delete ns i j : pred (delete i ns) j = if decide (j < S i)%nat then pred ns j else pred ns (S j).
Proof. destruct j as [|j]; [done|]. cbn [pred]. rewrite addr_delete. case_decide; case_decide; done || lia. Qed.

Lemma unlink_represents h l ns i a v h' l' :
  links h l ns → ns !! i = Some (a, v) → (∀ b, cells h' !! b = unlinked ns i b <$> cells h !! b) → fresh h' = fresh h →
  first l' = addr (delete i ns) 0 → last l' = addr (delete i ns) (length (delete i ns) - 1) → len l' = len l - 1 →
  links h' l' (delete i ns) ∧ frame (delete i ns).*1 h h'.
Proof.
  intros [R1 R2 R3 R4 R5 R6] Hi Hc Hf Hfirst Hlast Hlen. pose proof (lookup_lt_Some _ _ _ Hi) as Hlt.
  assert (length (delete i ns) = (length ns - 1)%nat) as Hdl by (rewrite length_delete; [lia|by eexists]).
  assert (∀ j b, addr ns j = Some b → j ≠ i → b ∈ (delete i ns).*1) as Hin.
  { intros j b Hj Hne. apply list_elem_of_lookup. exists (if decide (j < i)%nat then j else (j - 1)%nat). fold (addr (delete i ns) (if decide (j < i)%nat then j else (j - 1)%nat)).
    rewrite addr_delete. repeat case_decide; try lia; [done|]. by replace (S (j - 1)) with j by lia. }
  split; [split|split]; [done|done|rewrite Hlen, R3, Hdl; lia|..|done|].
  - eapply sublist_NoDup; [exact R4|]. apply fmap_sublist, sublist_delete.
  - intros b Hb. rewrite Hf. apply R5. eapply elem_of_submseteq; [exact Hb|]. apply sublist_submseteq, fmap_sublist, sublist_delete.
  - intros j b x Hj. assert (∃ k, ns !! k = Some (b, x) ∧ k ≠ i ∧ (j = if decide (k < i)%nat then k else (k - 1)%nat)) as (k & Hk & Hne & Hjk).
    { destruct (decide (j < i)%nat) as [?|?]; [rewrite list_lookup_delete_lt in Hj by done; exists j; split_and!; [done|lia|by rewrite decide_True]|].
      rewrite list_lookup_delete_ge in Hj by lia. exists (S j). split_and!; [done|lia|rewrite decide_False by lia; lia]. }
    rewrite Hc, (R6 _ _ _ Hk). cbn [fmap option_fmap option_map]. f_equal. unfold unlinked, linkedNode. cbn [value prev next]. fold (pred ns k). fold (pred (delete i ns) j).
    assert (addr ns k = Some b) as Hak by (apply addr_Some; by exists x).
    assert (∀ m, addr ns m = Some b ↔ m = k) as Hm by (intros m; split; [intros Hm; by eapply addr_inj|by intros ->]).
    assert (pred ns i = Some b ↔ i = S k) as Hp. { destruct i as [|i']; cbn [pred]; [by split|]. rewrite Hm. lia. }
    f_equal.
    + rewrite pred_delete, (bool_decide_ext _ _ (Hm (S i))). case_bool_decide as Hs; subst j; repeat case_decide; try lia; f_equal; lia.
    + rewrite addr_delete, (bool_decide_ext _ _ Hp). case_bool_decide as Hs; subst j; repeat case_decide; try lia; f_equal; lia.
  - intros b Hb. rewrite Hc. assert (addr ns (S i) ≠ Some b) as Hs by (intros Hs; apply Hb; apply (Hin _ _ Hs); lia).
    assert (pred ns i ≠ Some b) as Hp. { destruct i as [|i']; [done|]. intros Hp. apply Hb. apply (Hin _ _ Hp). lia. }
    destruct (cells h !! b) as [n|]; [|done]. cbn. f_equal. unfold unlinked. rewrite !bool_decide_eq_false_2 by done. by destruct n.
Qed.

Lemma unlinked_none ns i b n : addr ns (S i) = None → pred ns i = None → unlinked ns i b n = n.
Proof. intros Hs Hp. unfold unlinked. rewrite Hs, Hp. by destruct n. Qed.

Lemma Remove_represents h l ns i a v :
  links h l ns → ns !! i = Some (a, v) →
  ∃ l' h', Remove (Some a) l h = Ret (l', h') ∧ links h' l' (delete i ns) ∧ frame (delete i ns).*1 h h'.
Proof.
  intros Hr Hi. pose proof Hr as [R1 R2 R3 R4 R5 R6]. pose proof (lookup_lt_Some _ _ _ Hi) as Hlt. assert (addr ns i = Some a) as Ha by (apply addr_Some; by exists v).
  assert (length (delete i ns) = (length ns - 1)%nat) as Hdl by (rewrite length_delete; [lia|by eexists]).
  assert (∀ j, Some a = addr ns j ↔ i = j) as Heq. { intros j. split; [intros Hj; by eapply addr_inj|by intros <-]. }
  unfold Remove, First. rewrite R1, R2, (bool_decide_ext _ _ (Heq 0%nat)), (bool_decide_ext _ _ (Heq (length ns - 1)%nat)), (load_at _ _ _ _ _ _ Hr Hi). cbn [obind].
  change (next (linkedNode ns i v)) with (addr ns (S i)). change (prev (linkedNode ns i v)) with (pred ns i).
  assert (∀ j, (j < length ns)%nat → ∃ b w, addr ns j = Some b ∧ ns !! j = Some (b, w)) as Hat.
  { intros j Hj. destruct (lookup_lt_is_Some_2 ns j Hj) as [[b w] Hb]. exists b, w. split; [apply addr_Some; by exists w|done]. }
  case_bool_decide as H0.
  - subst i. case_bool_decide as H1'.
    + do 2 eexists. split; [reflexivity|]. eapply unlink_represents; [done|done| |done|cbn [first]; rewrite addr_delete, decide_False by lia; symmetry; apply addr_None; lia| |done].
      * intros b. destruct (cells h !! b) as [n|]; [|done]. cbn. f_equal. symmetry. apply unlinked_none; [apply addr_None; lia|done].
      * cbn [last]. rewrite Hdl, addr_delete, decide_False by lia. symmetry. apply addr_None. lia.
    + destruct (Hat 1%nat) as (s & w & Hs & Hns); [lia|]. rewrite Hs, (store_run _ _ _ _ (R6 _ _ _ Hns)). cbn [obind]. do 2 eexists. split; [reflexivity|].
      eapply unlink_represents; [done|done| |done|cbn [first]; by rewrite addr_delete, decide_False by lia| |done].
      * intros b. cbn [cells]. rewrite lookup_insert. unfold unlinked. rewrite Hs. cbn [pred]. case_decide as Hb.
        -- subst b. rewrite (R6 _ _ _ Hns). cbn. by rewrite bool_decide_eq_true_2.
        -- destruct (cells h !! b) as [[? ? ?]|]; [|done]. cbn. by rewrite bool_decide_eq_false_2 by congruence.
      * cbn [last]. rewrite Hdl, addr_delete, decide_False by lia. f_equal. lia.
  - destruct i as [|i']; [done|]. cbn [pred]. destruct (Hat i') as (p & w & Hp & Hnp); [lia|]. case_bool_decide as H1'.
    + rewrite Hp, (store_run _ _ _ _ (R6 _ _ _ Hnp)). cbn [obind]. do 2 eexists. split; [reflexivity|].
      assert (addr ns (S (S i')) = None) as Hs by (apply addr_None; lia).
      eapply unlink_represents; [done|done| |done|cbn [first]; by rewrite addr_delete, decide_True by lia| |done].
      * intros b. cbn [cells]. rewrite lookup_insert. unfold unlinked. rewrite Hs. cbn [pred]. rewrite Hp. case_decide as Hb.
        -- subst b. rewrite (R6 _ _ _ Hnp). cbn. rewrite (bool_decide_eq_false_2 (None = Some p)) by done. by rewrite bool_decide_eq_true_2.
        -- destruct (cells h !! b) as [[? ? ?]|]; [|done]. cbn. by rewrite !bool_decide_eq_false_2 by congruence.
      * cbn [last]. rewrite Hdl, addr_delete, decide_True by lia. rewrite <- Hp. f_equal. lia.
    + destruct (Hat (S (S i'))) as (s & x & Hs & Hns); [lia|]. rewrite Hp, Hs, (store_run _ _ _ _ (R6 _ _ _ Hnp)). cbn [obind].
      assert (s ≠ p) as Hsp. { intros ->. enough (S (S i') = i') by lia. by eapply addr_inj. }
      erewrite store_run; [|cbn [cells]; rewrite lookup_insert_ne by done; apply (R6 _ _ _ Hns)]. cbn [obind cells fresh]. do 2 eexists. split; [reflexivity|].
      eapply unlink_represents; [done|done| |done|cbn [first]; by rewrite addr_delete, decide_True by lia| |done].
      * intros b. cbn [cells]. unfold unlinked. rewrite Hs. cbn [pred]. rewrite Hp. destruct (decide (b = s)) as [->|Hbs]; [|destruct (decide (b = p)) as [->|Hbp]].
        -- rewrite lookup_insert_eq, (R6 _ _ _ Hns). cbn. rewrite bool_decide_eq_true_2 by done. by rewrite bool_decide_eq_false_2 by congruence.
        -- rewrite lookup_insert_ne, lookup_insert_eq, (R6 _ _ _ Hnp) by done. cbn. rewrite (bool_decide_eq_false_2 (Some s = Some p)) by congruence. by rewrite bool_decide_eq_true_2.
        -- rewrite !lookup_insert_ne by done. destruct (cells h !! b) as [[? ? ?]|]; [|done]. cbn. by rewrite !bool_decide_eq_false_2 by congruence.
      * cbn [last]. rewrite Hdl, addr_delete, decide_False by lia. f_equal. lia.
Qed.

(** A removed node still leads to the nodes that were next to it. *)
Lemma removed_node h h' l ns i a v :
  links h l ns → ns !! i = Some (a, v) → frame (delete i ns).*1 h h' →
  Next (Some a) h' = Ret (addr (delete i ns) i) ∧ Prev (Some a) h' = Ret (pred (delete i ns) i).
Proof.
  intros Hr Hi [_ Hfr]. assert (cells h' !! a = Some (linkedNode ns i v)) as Hc.
  { rewrite Hfr; [by apply (rp_nodes _ _ _ Hr)|]. intros (j & Hj)%list_elem_of_lookup. fold (addr (delete i ns) j) in Hj. rewrite addr_delete in Hj.
    assert (addr ns i = Some a) as Ha by (apply addr_Some; by exists v). pose proof (rp_nodup _ _ _ Hr) as Hnd.
    case_decide as Hd; [assert (j = i) by (by eapply addr_inj)|assert (S j = i) by (by eapply addr_inj)]; lia. }
  unfold Next, Prev, load. rewrite Hc. cbn [obind linkedNode next prev]. fold (pred ns i).
  rewrite addr_delete, pred_delete, decide_False, decide_True by lia. done.
Qed.

(** ** Fresh nodes *)

Lemma represents_mono h h' l ns :
  links h l ns → (∀ a, a ∈ ns.*1 → cells h' !! a = cells h !! a) → (fresh h <= fresh h')%nat → links h' l ns.
Proof.
  intros [R1 R2 R3 R4 R5 R6] Hc Hf. split; [done..| |].
  - intros a Ha. specialize (R5 a Ha). lia.
  - intros i a v Hi. rewrite Hc; [by apply R6|]. apply list_elem_of_lookup. exists i. apply addr_Some. by exists v.
Qed.

Lemma NewNode_isolated h v : isolated (NewNode v h).1 (fresh h) v.
Proof. split; cbn; [apply lookup_insert_eq|lia]. Qed.
Lemma NewNode_represents h l ns v : links h l ns → links (NewNode v h).1 l ns.
Proof.
  intros Hr. eapply represents_mono; [exact Hr| |cbn; lia]. intros a Ha. cbn. apply lookup_insert_ne. pose proof (rp_fresh _ _ _ Hr a Ha). lia.
Qed.

(** Appending a new node, the way all callers do. *)
Lemma Append_new h l ns v :
  links h l ns →
  ∃ l' h', ListAppend (NewNode v h).2 l (NewNode v h).1 = Ret (l', h') ∧ links h' l' (ns ++ [(fresh h, v)]) ∧
    last l' = Some (fresh h) ∧ fresh h' = S (fresh h) ∧ (∀ b, b ∉ ns.*1 → b ≠ fresh h → cells h' !! b = cells h !! b).
Proof.
  intros Hr. destruct (Append_represents (NewNode v h).1 l ns (fresh h) v) as (l' & h' & Hrun & Hr' & [Hf Hfr] & Hlast).
  - by apply NewNode_represents.
  - intros Hin. pose proof (rp_fresh _ _ _ Hr _ Hin). lia.
  - apply NewNode_isolated.
  - exists l', h'. split_and!; [done..|]. intros b Hb Hne. rewrite Hfr; [|set_solver]. cbn. by rewrite lookup_insert_ne.
Qed.

(** ** Copies *)

(** A walk over [ns] from position [i] appends a new node for each value. *)
Lemma copyLoop_run l ns : ∀ fuel i h c cs,
  links h l ns → links h c cs → ns.*1 ## cs.*1 → (length ns <= i + fuel)%nat →
  ∃ c' h' cs', copyLoop fuel (addr ns i) c h = Ret (c', h') ∧ links h' l ns ∧ links h' c' (cs ++ cs') ∧
    cs'.*2 = drop i ns.*2 ∧ ns.*1 ## (cs ++ cs').*1 ∧ (∀ b, b ∉ cs.*1 → (b < fresh h)%nat → cells h' !! b = cells h !! b).
Proof.
  induction fuel as [|fuel IH]; intros i h c cs Hr Hc Hd Hfuel.
  - assert (addr ns i = None) as Hn by (apply addr_None; lia). exists c, h, []. rewrite Hn, app_nil_r. cbn. split_and!; try done. rewrite drop_ge; [done|]. rewrite length_fmap. lia.
  - destruct (addr ns i) as [a|] eqn:Hai.
    2:{ pose proof (proj1 (addr_None _ _) Hai). exists c, h, []. rewrite app_nil_r. cbn. split_and!; try done. rewrite drop_ge; [done|]. rewrite length_fmap. lia. }
    destruct (proj1 (addr_Some _ _ _) Hai) as [v Hv]. cbn [copyLoop]. unfold NodeCopy. rewrite (load_at _ _ _ _ _ _ Hr Hv). cbn [obind linkedNode value].
    destruct (Append_new h c cs v Hc) as (c1 & h1 & Hrun & Hr1 & _ & Hf1 & Hfr1). rewrite Hrun. cbn [obind fst snd].
    assert (∀ b, b ∈ ns.*1 → cells h1 !! b = cells h !! b) as Hkeep.
    { intros b Hb. apply Hfr1; [set_solver|]. pose proof (rp_fresh _ _ _ Hr b Hb). lia. }
    assert (links h1 l ns) as Hr' by (eapply represents_mono; [exact Hr|exact Hkeep|lia]). rewrite (Next_at _ _ _ _ _ _ Hr' Hv). cbn [obind].
    destruct (IH (S i) h1 c1 (cs ++ [(fresh h, v)])) as (c' & h' & cs' & Hrun' & Hl' & Hc' & Hvals & Hdisj & Hfr'); [done|done| |lia|].
    { rewrite fmap_app. intros b Hb [Hb'|Hb']%elem_of_app; [set_solver|]. apply list_elem_of_singleton in Hb'. cbn in Hb'. pose proof (rp_fresh _ _ _ Hr _ Hb). lia. }
    exists c', h', ((fresh h, v) :: cs'). replace (cs ++ (fresh h, v) :: cs') with ((cs ++ [(fresh h, v)]) ++ cs') by (by rewrite <- app_assoc).
    split_and!; [done..| |done|].
    + cbn. rewrite Hvals. symmetry. apply drop_S. rewrite list_lookup_fmap, Hv. done.
    + intros b Hb Hlt. rewrite Hfr'; [apply Hfr1; [done|lia]|rewrite fmap_app; set_solver by lia|lia].
Qed.

Lemma ListCopy_run h l ns :
  links h l ns →
  ∃ c h' cs, ListCopy l h = Ret (c, h') ∧ links h' l ns ∧ links h' c cs ∧ cs.*2 = ns.*2 ∧ ns.*1 ## cs.*1.
Proof.
  intros Hr. pose proof Hr as [R1 R2 R3 R4 R5 R6]. unfold ListCopy, First. rewrite R1, R3, Nat2Z.id. destruct (Z.eqb_spec (Z.of_nat (length ns)) 0) as [H0|H0].
  - assert (ns = []) as -> by (apply nil_length_inv; lia). exists emptyList, h, []. split_and!; [done|done|apply represents_empty|done|set_solver].
  - destruct (copyLoop_run l ns (length ns) 0 h emptyList []) as (c & h' & cs & Hrun & Hl & Hc & Hv & Hd & _); [done|apply represents_empty|set_solver|lia|].
    exists c, h', cs. done.
Qed.
End laws.

(** ** The theorem *)

(** A heap whose nodes are linked as a list behaves as that list.  The list knows its
    length and its nodes lead to their neighbours; appending a new node puts its value at
    the end; removing any node takes exactly that one out, whether it is the first, the
    last, both or in the middle, and the node removed still leads to what were its
    neighbours, so that a walk may remove nodes as it goes; a copy has the same values in
    nodes of its own and leaves the list as it was. *)
Theorem linked_list_refines {T} (h : Nodes T) l ns :
  links h l ns →
  ListLen l = Z.of_nat (length ns) ∧ First l = addr ns 0 ∧ Last l = addr ns (length ns - 1) ∧
  (∀ i a v, ns !! i = Some (a, v) → NodeValue (Some a) h = Ret v ∧ Next (Some a) h = Ret (addr ns (S i)) ∧ Prev (Some a) h = Ret (pred ns i)) ∧
  (∀ v, ∃ l' h', ListAppend (NewNode v h).2 l (NewNode v h).1 = Ret (l', h') ∧ links h' l' (ns ++ [(fresh h, v)])) ∧
  (∀ i a v, ns !! i = Some (a, v) →
     ∃ l' h', Remove (Some a) l h = Ret (l', h') ∧ links h' l' (delete i ns) ∧
       Next (Some a) h' = Ret (addr (delete i ns) i) ∧ Prev (Some a) h' = Ret (pred (delete i ns) i)) ∧
  (∃ c h' cs, ListCopy l h = Ret (c, h') ∧ links h' l ns ∧ links h' c cs ∧ cs.*2 = ns.*2 ∧ ns.*1 ## cs.*1).
Proof.
  intros Hr. pose proof Hr as [R1 R2 R3 R4 R5 R6]. split_and!; [done|done|done|..].
  - intros i a v Hi. split_and!; [by eapply Value_at|by eapply Next_at|by eapply Prev_at].
  - intros v. destruct (Append_new h l ns v Hr) as (l' & h' & Hrun & Hr' & _). by exists l', h'.
  - intros i a v Hi. destruct (Remove_represents h l ns i a v Hr Hi) as (l' & h' & Hrun & Hr' & Hfr). exists l', h'. split_and!; [done|done|by eapply removed_node..].
  - by apply ListCopy_run.
Qed.

Definition threeNodes : Nodes Z :=
  mkNodes (list_to_map [(0%nat, mkNode 7 None (Some 1%nat)); (1%nat, mkNode 8 (Some 0%nat) (Some 2%nat)); (2%nat, mkNode 9 (Some 1%nat) None)]) 3.
Definition threeList : List := mkList (Some 0%nat) (Some 2%nat) 3.
Lemma three_represents : links threeNodes threeList [(0%nat, 7); (1%nat, 8); (2%nat, 9)].
Proof.
  split; try done.
  - cbn. by apply NoDup_cons_2; [set_solver|]; apply NoDup_cons_2; [set_solver|]; apply NoDup_singleton.
  - cbn. intros a. rewrite !elem_of_cons, elem_of_nil. lia.
  - intros [|[|[|i]]] a v Hi; cbn in Hi; try discriminate Hi; by injection Hi as <- <-.
Qed.

Lemma linked_list_refines_witness :
  ∃ l' h', Remove (Some 1%nat) threeList threeNodes = Ret (l', h') ∧ ListLen l' = 2 ∧ Next (Some 1%nat) h' = Ret (Some 2%nat).
Proof.
  destruct (linked_list_refines threeNodes threeList _ three_represents) as (_ & _ & _ & _ & _ & Hrem & _).
  destruct (Hrem 1%nat 1%nat 8 eq_refl) as (l' & h' & Hrun & Hr & Hn & _). exists l', h'. split_and!; [exact Hrun|exact (rp_len _ _ _ Hr)|exact Hn].
Defined.

(** Removing a node of the middle a second time is not noticed, against what the comment
    in [Remove] expects: the node still has both its pointers, and the length is reduced
    although nothing is removed. *)
Example removing_twice_corrupts_length :
  (r <-? Remove (Some 1%nat) threeList threeNodes;; r <-? Remove (Some 1%nat) r.1 r.2;;
   n <-? Next (First r.1) r.2;; Ret (ListLen r.1, First r.1, n)) = Ret (1, Some 0%nat, Some 2%nat).
Proof. vm_compute. reflexivity. Qed.
