(* ===== verification/OperationPools.v ===== *)
(** * Pools of operations

    Models the pools of voluntary exits ([beacon-chain/operations/voluntaryexits/pool.go])
    and of changes of withdrawal credentials ([beacon-chain/operations/blstoexec/pool.go]),
    with the conditions on a voluntary exit of [beacon-chain/core/blocks/exit.go] that the
    first one checks.  Both keep their operations in a doubly linked list, with a map from
    the validator to the node, and hand out operations for a block in a walk that removes
    the invalid ones as it goes.  The theorem is that a pool is the list of its operations,
    oldest first, with one operation for each validator.

    The pools are used under their lock, one operation at a time; the walk releases the lock
    only while it removes an operation. *)

From S2P Require Import Prelude MathHelper Primitives SlotTime Shuffle Committee ExitQueue Sha256 Ledger Withdrawals LinkedList.

(** ** A pool *)

Record Pool (A : Type) := mkPool {
  nodes : Nodes A;
  pending : List;
  m : gmap Z ptr
}.
Arguments mkPool {A}.
Arguments nodes {A}.
Arguments pending {A}.
Arguments m {A}.

(** What the walk decides about an operation: it is for a later block, it is invalid, or it
    goes into the block. *)
Inductive Verdict := Later | Invalid | Ready.
#[global] Instance Verdict_eq_dec : EqDecision Verdict.
Proof. solve_decision. Defined.

Section pool.
Context {A : Type} (index : A → Z).
Implicit Types (p : Pool A).

Definition NewPool : Pool A := mkPool emptyNodes emptyList ∅.

(** [result[i], err = node.Value()] over the nodes; [result] has [Len] elements, so that a
    longer walk panics before the fuel is used up. *)
Fixpoint pendingWalk (fuel i : nat) (node : ptr) (h : Nodes A) (result : list (option A)) : outcome (list (option A)) :=
  match node with
  | None => Ret result
  | Some _ =>
      match fuel with
      | O => OutOfFuel
      | S fuel =>
          v <-? NodeValue node h;;
          if (i <? length result)%nat then
            node <-? Next node h;;
            pendingWalk fuel (S i) node h (<[i := Some v]> result)
          else Panic "index out of range"
      end
  end.
Definition Pending p : outcome (list (option A)) :=
  if ListLen (pending p) <? 0 then Panic "makeslice: len out of range"
  else pendingWalk (S (Z.to_nat (ListLen (pending p)))) 0 (First (pending p)) (nodes p) (replicate (Z.to_nat (ListLen (pending p))) None).

Definition PoolInsert (x : A) p : outcome (Pool A) :=
  match m p !! index x with
  | Some _ => Ret p
  | None =>
      let '(h, n) := NewNode x (nodes p) in
      r <-? ListAppend n (pending p) h;;
      Ret (mkPool r.2 r.1 (<[index x := Last r.1]> (m p)))
  end.

Definition MarkIncluded (x : A) p : outcome (Pool A) :=
  match default None (m p !! index x) with
  | None => Ret p
  | Some a =>
      r <-? Remove (Some a) (pending p) (nodes p);;
      Ret (mkPool r.2 r.1 (delete (index x) (m p)))
  end.

(** ** Walks for a block *)

Section walk.
Context (judge : A → outcome Verdict) (mark : A → Pool A → outcome (Pool A)) (advance : ptr → Nodes A → outcome ptr).

Fixpoint inclusionWalk (fuel : nat) (length' : Z) (node : ptr) p (result : list A) : outcome (Pool A * list A) :=
  match node with
  | None => Ret (p, result)
  | Some _ =>
      if length' <=? Z.of_nat (length result) then Ret (p, result) else
      match fuel with
      | O => OutOfFuel
      | S fuel =>
          x <-? NodeValue node (nodes p);;
          verdict <-? judge x;;
          match verdict with
          | Later => node <-? advance node (nodes p);; inclusionWalk fuel length' node p result
          | Invalid =>
              p <-? mark x p;;
              node <-? advance node (nodes p);; inclusionWalk fuel length' node p result
          | Ready => node <-? advance node (nodes p);; inclusionWalk fuel length' node p (result ++ [x])
          end
      end
  end.
End walk.

(** ** The invariant *)

Record pool_ok p (ns : list (nat * A)) : Prop := {
  po_list : links (nodes p) (pending p) ns;
  po_map : ∀ k q, m p !! k = Some q ↔ ∃ i a v, ns !! i = Some (a, v) ∧ index v = k ∧ q = Some a
}.

(** The pool holds the operations [xs], oldest first. *)
Definition holds p (xs : list A) : Prop := ∃ ns, pool_ok p ns ∧ ns.*2 = xs.

Lemma NewPool_holds : holds NewPool [].
Proof.
  exists []. split; [|done]. split; [apply represents_empty|]. intros k q. cbn. rewrite lookup_empty. split; [done|]. intros (i & a & v & Hi & _). done.
Qed.

Lemma pool_index p ns i j a b v w :
  pool_ok p ns → ns !! i = Some (a, v) → ns !! j = Some (b, w) → index v = index w → i = j.
Proof.
  intros [Hl Hm] Hi Hj Hk. assert (m p !! index v = Some (Some a)) as H1' by (apply Hm; by exists i, a, v).
  assert (m p !! index v = Some (Some b)) as H2' by (apply Hm; rewrite Hk; by exists j, b, w).
  assert (a = b) as -> by congruence. eapply addr_inj; [exact (rp_nodup _ _ _ Hl)|apply addr_Some; by exists v|apply addr_Some; by exists w].
Qed.

Lemma holds_unique p xs : holds p xs → NoDup (index <$> xs).
Proof.
  intros (ns & Hp & <-). apply NoDup_alt. intros i j k Hi Hj. rewrite !list_lookup_fmap in Hi, Hj.
  destruct (ns !! i) as [[a v]|] eqn:Ei; [|done]. destruct (ns !! j) as [[b w]|] eqn:Ej; [|done]. cbn in Hi, Hj.
  eapply pool_index; [done|exact Ei|exact Ej|congruence].
Qed.

Lemma pool_lookup p ns k : pool_ok p ns → is_Some (m p !! k) ↔ k ∈ index <$> ns.*2.
Proof.
  intros [Hl Hm]. split.
  - intros [q (i & a & v & Hi & <- & _)%Hm]. apply list_elem_of_fmap. exists v. split; [done|]. apply list_elem_of_fmap. exists (a, v). split; [done|]. by eapply list_elem_of_lookup_2.
  - intros (v & -> & ((a & v') & -> & Hin)%list_elem_of_fmap)%list_elem_of_fmap. apply list_elem_of_lookup in Hin as [i Hi]. exists (Some a). apply Hm. by exists i, a, v'.
Qed.

(** ** Inserting and removing *)

(** What inserting and removing do to the list of operations. *)
Definition insertSpec (x : A) (xs : list A) : list A := if bool_decide (index x ∈ index <$> xs) then xs else xs ++ [x].
Definition removeSpec (x : A) (xs : list A) : list A := filter (λ y, index y ≠ index x) xs.

Lemma Insert_holds p xs x : holds p xs → ∃ p', PoolInsert x p = Ret p' ∧ holds p' (insertSpec x xs).
Proof.
  intros (ns & Hp & <-). pose proof Hp as [Hl Hm]. unfold PoolInsert, insertSpec. pose proof (pool_lookup p ns (index x) Hp) as Hlook.
  destruct (m p !! index x) as [q|] eqn:Hq.
  - rewrite bool_decide_eq_true_2 by (apply Hlook; by eexists). exists p. split; [done|]. by exists ns.
  - rewrite bool_decide_eq_false_2 by (intros Hin; apply Hlook in Hin as [? ?]; done).
    destruct (Append_new (nodes p) (pending p) ns x Hl) as (l' & h' & Hrun & Hr & Hlast & _). unfold NewNode in *. cbn [fst snd] in Hrun. rewrite Hrun. cbn [obind fst snd].
    eexists. split; [reflexivity|]. exists (ns ++ [(fresh (nodes p), x)]). split; [|by rewrite fmap_app]. split; cbn [nodes pending m]; [done|].
    unfold Last. rewrite Hlast. intros k q. rewrite lookup_insert_Some. split.
    + intros [[<- <-]|[Hne (i & a & v & Hi & Hk & Hq')%Hm]].
      * exists (length ns), (fresh (nodes p)), x. split_and!; [|done|done]. rewrite lookup_app_r, Nat.sub_diag by lia. done.
      * exists i, a, v. split_and!; [by apply lookup_app_l_Some|done|done].
    + intros (i & a & v & Hi & <- & ->). apply lookup_app_Some in Hi as [Hi|[_ Hi]].
      * right. split; [|apply Hm; by exists i, a, v]. intros Hk. assert (is_Some (m p !! index x)) as [? ?]; [|congruence]. rewrite Hk. exists (Some a). apply Hm. by exists i, a, v.
      * apply list_lookup_singleton_Some in Hi as [_ [= -> ->]]. by left.
Qed.

Lemma filter_keeps (P : A → Prop) `{∀ x, Decision (P x)} (l : list A) : (∀ x, x ∈ l → P x) → filter P l = l.
Proof. intros HP. induction l as [|x l IH]; [done|]. rewrite filter_cons_True by (apply HP; left). f_equal. apply IH. intros y Hy. apply HP. by right. Qed.

(** The map after the node at [i] has gone. *)
Lemma pool_delete p ns i a v h l :
  pool_ok p ns → ns !! i = Some (a, v) → links h l (delete i ns) → pool_ok (mkPool h l (delete (index v) (m p))) (delete i ns).
Proof.
  intros Hp Hi Hr. pose proof Hp as [Hl Hm]. split; cbn [nodes pending m]; [done|]. intros k q. rewrite lookup_delete_Some, Hm. split.
  - intros [Hne (j & b & w & Hj & <- & ->)]. assert (j ≠ i) as Hji by (intros ->; congruence).
    exists (if decide (j < i)%nat then j else (j - 1)%nat), b, w. split_and!; [|done|done].
    case_decide; [by rewrite list_lookup_delete_lt|]. rewrite list_lookup_delete_ge by lia. by replace (S (j - 1)) with j by lia.
  - intros (j & b & w & Hj & <- & ->). assert (∃ k, ns !! k = Some (b, w) ∧ k ≠ i) as (k & Hk & Hne).
    { destruct (decide (j < i)%nat) as [Hlt|Hge]; [rewrite list_lookup_delete_lt in Hj by done; exists j|rewrite list_lookup_delete_ge in Hj by lia; exists (S j)]; (split; [done|lia]). }
    split; [|by eauto 6]. intros Hidx. apply Hne. by eapply pool_index.
Qed.

Lemma removeSpec_delete p ns i a v : pool_ok p ns → ns !! i = Some (a, v) → removeSpec v ns.*2 = (delete i ns).*2.
Proof.
  intros Hp Hi. assert (∀ j b w, ns !! j = Some (b, w) → j ≠ i → index w ≠ index v) as Hne by (intros j b w Hj Hji Hk; apply Hji; by eapply pool_index).
  rewrite <- (take_drop_middle ns i (a, v) Hi) at 1. rewrite delete_take_drop, !fmap_app, fmap_cons. unfold removeSpec. rewrite filter_app, filter_cons_False by (intros Hc; by apply Hc).
  f_equal; apply filter_keeps; intros w ((b & w') & -> & Hin)%list_elem_of_fmap; apply list_elem_of_lookup in Hin as [j Hj].
  - apply lookup_take_Some in Hj as [Hj Hlt]. by apply (Hne j b w'); [|lia].
  - rewrite lookup_drop in Hj. by apply (Hne (S i + j)%nat b w'); [|lia].
Qed.

Lemma Mark_at p ns i a v :
  pool_ok p ns → ns !! i = Some (a, v) →
  ∃ p', MarkIncluded v p = Ret p' ∧ pool_ok p' (delete i ns) ∧
    Next (Some a) (nodes p') = Ret (addr (delete i ns) i) ∧ Prev (Some a) (nodes p') = Ret (pred (delete i ns) i).
Proof.
  intros Hp Hi. pose proof Hp as [Hl Hm]. unfold MarkIncluded. assert (m p !! index v = Some (Some a)) as -> by (apply Hm; by exists i, a, v).
  destruct (Remove_represents _ _ _ _ _ _ Hl Hi) as (l' & h' & Hrun & Hr & Hfr). unfold default, from_option, id. rewrite Hrun. cbn [obind fst snd].
  eexists. split; [reflexivity|]. split; [by eapply pool_delete|]. cbn [nodes]. by eapply removed_node.
Qed.

Lemma Mark_holds p xs x : holds p xs → ∃ p', MarkIncluded x p = Ret p' ∧ holds p' (removeSpec x xs).
Proof.
  intros (ns & Hp & <-). destruct (m p !! index x) as [q|] eqn:Hq.
  - apply (po_map _ _ Hp) in Hq as (i & a & v & Hi & Hk & _). destruct (Mark_at p ns i a v Hp Hi) as (p' & Hrun & Hok & _).
    exists p'. unfold MarkIncluded, removeSpec in *. rewrite <- Hk. split; [exact Hrun|]. exists (delete i ns). split; [done|]. symmetry. by eapply removeSpec_delete.
  - unfold MarkIncluded. rewrite Hq. exists p. split; [done|]. exists ns. split; [done|]. symmetry. apply filter_keeps. intros y Hy Hk.
    assert (is_Some (m p !! index x)) as [? ?]; [|congruence]. apply (pool_lookup _ _ _ Hp). rewrite <- Hk. apply list_elem_of_fmap. by exists y.
Qed.

(** ** Reading *)

Lemma pendingWalk_run h l ns : ∀ fuel i result,
  links h l ns → length result = length ns → (i <= length ns < i + fuel)%nat → take i result = take i (Some <$> ns.*2) →
  pendingWalk fuel i (addr ns i) h result = Ret (Some <$> ns.*2).
Proof.
  induction fuel as [|fuel IH]; intros i result Hr Hlen Hf Hpre; [lia|]. destruct (addr ns i) as [a|] eqn:Ha; cbn [pendingWalk].
  - destruct (proj1 (addr_Some _ _ _) Ha) as [v Hv]. rewrite (Value_at _ _ _ _ _ _ Hr Hv), (Next_at _ _ _ _ _ _ Hr Hv). cbn [obind]. pose proof (lookup_lt_Some _ _ _ Hv).
    rewrite (proj2 (Nat.ltb_lt i (length result))) by lia. apply IH; [done|by rewrite length_insert|lia|].
    rewrite (take_S_r (<[i:=Some v]> result) i (Some v)) by (apply list_lookup_insert_eq; lia). rewrite take_insert_ge by lia.
    rewrite (take_S_r _ i (Some v)) by (by rewrite !list_lookup_fmap, Hv). by rewrite Hpre.
  - apply addr_None in Ha. f_equal. rewrite !take_ge in Hpre by (rewrite ?length_fmap; lia). done.
Qed.

Lemma Pending_holds p xs : holds p xs → Pending p = Ret (Some <$> xs).
Proof.
  intros (ns & Hp & <-). pose proof (po_list _ _ Hp) as Hr. pose proof Hr as [R1 R2 R3 R4 R5 R6]. unfold Pending, ListLen, First. rewrite R1, R3, Nat2Z.id.
  rewrite (proj2 (Z.ltb_ge _ _)) by lia. eapply pendingWalk_run; [exact Hr|apply length_replicate|lia|done].
Qed.

(** ** Walks *)

Section walks.
Context (judge : A → outcome Verdict) (verdict : A → Verdict) (judge_runs : ∀ x, judge x = Ret (verdict x)).

(** What a walk hands out and what it leaves, with room for [n] operations. *)
Fixpoint select (n : nat) (xs : list A) : list A * list A :=
  match n, xs with
  | O, _ => ([], xs)
  | _, [] => ([], [])
  | S n', x :: xs =>
      match verdict x with
      | Later => let '(r, rest) := select n xs in (r, x :: rest)
      | Invalid => select n xs
      | Ready => let '(r, rest) := select n' xs in (x :: r, x :: rest)
      end
  end.

Lemma select_0 xs : select 0 xs = ([], xs).
Proof. by destruct xs. Qed.

Lemma lookup_middle {B} (pre suf : list B) x : (pre ++ x :: suf) !! length pre = Some x.
Proof. by rewrite lookup_app_r, Nat.sub_diag. Qed.
Lemma delete_app_middle {B} (pre suf : list B) x : delete (length pre) (pre ++ x :: suf) = pre ++ suf.
Proof. rewrite delete_take_drop, take_app_length, (cons_middle x pre suf), app_assoc. f_equal. apply drop_app_length'. rewrite length_app. cbn. lia. Qed.

Lemma forward_walk mark length' :
  (∀ x p, mark x p = MarkIncluded x p) → ∀ suf pre fuel p result,
  pool_ok p (pre ++ suf) → (length suf <= fuel)%nat →
  ∃ p' ns', inclusionWalk judge mark Next fuel length' (addr (pre ++ suf) (length pre)) p result =
      Ret (p', result ++ (select (Z.to_nat (length' - Z.of_nat (length result))) suf.*2).1) ∧
    pool_ok p' ns' ∧ ns'.*2 = pre.*2 ++ (select (Z.to_nat (length' - Z.of_nat (length result))) suf.*2).2.
Proof.
  intros Hmark. induction suf as [|[a x] suf IH]; intros pre fuel p result Hp Hf.
  - assert (addr (pre ++ []) (length pre) = None) as -> by (apply addr_None; rewrite app_nil_r; lia). exists p, pre. rewrite app_nil_r in Hp.
    destruct fuel; destruct (Z.to_nat (length' - Z.of_nat (length result))); cbn; rewrite !app_nil_r; done.
  - pose proof (po_list _ _ Hp) as Hr. pose proof (lookup_middle pre suf (a, x)) as Hi. assert (addr (pre ++ (a, x) :: suf) (length pre) = Some a) as -> by (apply addr_Some; by exists x).
    destruct fuel as [|fuel]; [cbn in Hf; lia|]. cbn [inclusionWalk]. destruct (Z.leb_spec length' (Z.of_nat (length result))) as [Hle|Hgt].
    { exists p, (pre ++ (a, x) :: suf). replace (Z.to_nat (length' - Z.of_nat (length result))) with 0%nat by lia. rewrite select_0. cbn [fst snd]. rewrite app_nil_r. split_and!; [done|done|]. by rewrite fmap_app. }
    destruct (Z.to_nat (length' - Z.of_nat (length result))) as [|n] eqn:Hn; [lia|].
    rewrite (Value_at _ _ _ _ _ _ Hr Hi). cbn [obind]. rewrite (judge_runs x). cbn [obind fmap list_fmap snd select]. destruct (verdict x) eqn:Hv.
    + rewrite (Next_at _ _ _ _ _ _ Hr Hi). cbn [obind]. rewrite cons_middle, app_assoc in Hp |- *. replace (S (length pre)) with (length (pre ++ [(a, x)])) by (rewrite length_app; cbn; lia).
      destruct (IH (pre ++ [(a, x)]) fuel p result) as (p' & ns' & Hrun & Hok & Hns); [done|cbn in Hf; lia|]. exists p', ns'. rewrite Hrun, Hns, Hn. change (list_fmap _ _ snd suf) with (suf.*2).
      destruct (select (S n) suf.*2) as [r rest]. cbn [fst snd]. split_and!; [done|done|]. by rewrite fmap_app, <- app_assoc.
    + destruct (Mark_at p _ _ _ _ Hp Hi) as (p1 & Hrun1 & Hok1 & Hnext & _). rewrite Hmark, Hrun1. cbn [obind]. rewrite Hnext. cbn [obind]. rewrite delete_app_middle in *.
      destruct (IH pre fuel p1 result) as (p' & ns' & Hrun & Hok & Hns); [done|cbn in Hf; lia|]. exists p', ns'. rewrite Hrun, Hns, Hn. done.
    + rewrite (Next_at _ _ _ _ _ _ Hr Hi). cbn [obind]. rewrite cons_middle, app_assoc in Hp |- *. replace (S (length pre)) with (length (pre ++ [(a, x)])) by (rewrite length_app; cbn; lia).
      destruct (IH (pre ++ [(a, x)]) fuel p (result ++ [x])) as (p' & ns' & Hrun & Hok & Hns); [done|cbn in Hf; lia|]. exists p', ns'. rewrite Hrun, Hns.
      replace (Z.to_nat (length' - Z.of_nat (length (result ++ [x])))) with n by (rewrite length_app; cbn; lia). change (list_fmap _ _ snd suf) with (suf.*2).
      destruct (select n suf.*2) as [r rest]. cbn [fst snd]. rewrite <- app_assoc. split_and!; [done|done|]. by rewrite fmap_app, <- app_assoc.
Qed.

Lemma backward_walk mark length' :
  (∀ x p, mark x p = MarkIncluded x p) → ∀ pre suf fuel p result,
  pool_ok p (pre ++ suf) → (length pre <= fuel)%nat →
  ∃ p' ns', inclusionWalk judge mark Prev fuel length' (pred (pre ++ suf) (length pre)) p result =
      Ret (p', result ++ (select (Z.to_nat (length' - Z.of_nat (length result))) (reverse pre.*2)).1) ∧
    pool_ok p' ns' ∧ ns'.*2 = reverse (select (Z.to_nat (length' - Z.of_nat (length result))) (reverse pre.*2)).2 ++ suf.*2.
Proof.
  intros Hmark pre. induction pre as [|[a x] pre IH] using rev_ind; intros suf fuel p result Hp Hf.
  - exists p, suf. destruct fuel; destruct (Z.to_nat (length' - Z.of_nat (length result))); cbn; rewrite app_nil_r; done.
  - pose proof (po_list _ _ Hp) as Hr. rewrite <- app_assoc in Hp, Hr |- *. cbn [app] in Hp, Hr |- *. rewrite length_app in Hf |- *. cbn [length] in Hf |- *. rewrite Nat.add_1_r. cbn [pred].
    pose proof (lookup_middle pre suf (a, x)) as Hi. assert (addr (pre ++ (a, x) :: suf) (length pre) = Some a) as -> by (apply addr_Some; by exists x).
    rewrite fmap_app, reverse_app. cbn [fmap list_fmap snd reverse rev_append app]. change (rev_append [x] []) with [x]. cbn [app].
    destruct fuel as [|fuel]; [lia|]. cbn [inclusionWalk]. destruct (Z.leb_spec length' (Z.of_nat (length result))) as [Hle|Hgt].
    { exists p, (pre ++ (a, x) :: suf). replace (Z.to_nat (length' - Z.of_nat (length result))) with 0%nat by lia. rewrite select_0. cbn [fst snd]. rewrite app_nil_r. split_and!; [done|done|].
      rewrite fmap_app, reverse_cons, reverse_involutive, <- app_assoc. done. }
    destruct (Z.to_nat (length' - Z.of_nat (length result))) as [|n] eqn:Hn; [lia|].
    rewrite (Value_at _ _ _ _ _ _ Hr Hi). cbn [obind]. rewrite (judge_runs x). cbn [obind select]. destruct (verdict x) eqn:Hv.
    + rewrite (Prev_at _ _ _ _ _ _ Hr Hi). cbn [obind]. fold (pred (pre ++ (a, x) :: suf) (length pre)).
      destruct (IH ((a, x) :: suf) fuel p result) as (p' & ns' & Hrun & Hok & Hns); [done|lia|]. exists p', ns'. rewrite Hrun, Hns, Hn.
      destruct (select (S n) (reverse pre.*2)) as [r rest]. cbn [fst snd]. split_and!; [done|done|]. by rewrite reverse_cons, <- app_assoc.
    + destruct (Mark_at p _ _ _ _ Hp Hi) as (p1 & Hrun1 & Hok1 & _ & Hprev). rewrite Hmark, Hrun1. cbn [obind]. rewrite Hprev. cbn [obind]. rewrite delete_app_middle in *.
      destruct (IH suf fuel p1 result) as (p' & ns' & Hrun & Hok & Hns); [done|lia|]. exists p', ns'. rewrite Hrun, Hns, Hn. done.
    + rewrite (Prev_at _ _ _ _ _ _ Hr Hi). cbn [obind]. fold (pred (pre ++ (a, x) :: suf) (length pre)).
      destruct (IH ((a, x) :: suf) fuel p (result ++ [x])) as (p' & ns' & Hrun & Hok & Hns); [done|lia|]. exists p', ns'. rewrite Hrun, Hns.
      replace (Z.to_nat (length' - Z.of_nat (length (result ++ [x])))) with n by (rewrite length_app; cbn; lia).
      destruct (select n (reverse pre.*2)) as [r rest]. cbn [fst snd]. rewrite <- app_assoc. split_and!; [done|done|]. by rewrite reverse_cons, <- app_assoc.
Qed.

(** A walk hands out the oldest operations that are ready, at most [n] of them, and what is
    left is what is not invalid, as far as the walk went. *)
Lemma select_spec n xs :
  (select n xs).1 = take n (filter (λ x, verdict x = Ready) xs) ∧
  (select n xs).2 `sublist_of` xs ∧ (∀ x, x ∈ xs → verdict x ≠ Invalid → x ∈ (select n xs).2).
Proof using Type.
  clear judge_runs judge index. revert n. induction xs as [|x xs IH]; intros n; [by destruct n; cbn|]. destruct n as [|n]; [cbn; done|]. cbn [select]. destruct (verdict x) eqn:Hv.
  - destruct (IH (S n)) as (H1' & H2' & H3'). destruct (select (S n) xs) as [r rest]. cbn [fst snd] in *. rewrite filter_cons_False by congruence. split_and!; [done|by constructor|set_solver].
  - destruct (IH (S n)) as (H1' & H2' & H3'). rewrite filter_cons_False by congruence. split_and!; [done|by constructor|]. intros y [->|Hy]%elem_of_cons Hny; [congruence|by apply H3'].
  - destruct (IH n) as (H1' & H2' & H3'). destruct (select n xs) as [r rest]. cbn [fst snd] in *. rewrite filter_cons_True by done. cbn [take]. split_and!; [by f_equal|by constructor|set_solver].
Qed.
End walks.
End pool.

(** ** Voluntary exits *)

Record SignedVoluntaryExit := mkVoluntaryExit {
  VoluntaryEpoch : Z;
  VoluntaryIndex : Z;
  VoluntarySignature : list Z
}.

Section exits.
Context `{BeaconChainConfig} `{!LedgerConfig}.

Definition verifyExitConditions (st : Ledger) (validator : Validator) (exit : SignedVoluntaryExit) : outcome unit :=
  let currentEpoch := ToEpoch (LedgerSlot st) in
  if negb (IsActiveValidator validator currentEpoch) then Err "non-active validator cannot exit"
  else if negb (ExitEpoch validator =? FarFutureEpoch) then Err "validator has already submitted an exit, which will take place at epoch"
  else if currentEpoch <? VoluntaryEpoch exit then Err "expected current epoch >= exit epoch"
  else if currentEpoch <? ActivationEpoch validator +w ShardCommitteePeriod then Err "validator has not been active long enough to exit"
  else if versionAtLeast Electra st then
    ok <-? omap_err (λ e, wrapErr e "unable to retrieve pending balance to withdraw") (HasPendingBalanceToWithdraw st (VoluntaryIndex exit));;
    if ok then Err "validator must have no pending balance to withdraw" else Ret tt
  else Ret tt.

(** [signing.Domain] for the fork of the state or, when the flag is set, for Capella, and
    whether [signing.VerifySigningRoot] accepts the signature. *)
Context (Domain : bool → Z → error + list Z) (VerifySigningRoot : SignedVoluntaryExit → list Z → list Z → list Z → bool).

Definition ErrSigFailedToVerify : error := "signature did not verify".

Definition VerifyExitAndSignature (validator : Validator) (st : Ledger) (signed : option SignedVoluntaryExit) : outcome unit :=
  match signed with
  | None => Err "nil exit"
  | Some exit =>
      let fixedToCapella := versionAtLeast Deneb st in
      _ <-? verifyExitConditions st validator exit;;
      match Domain fixedToCapella (VoluntaryEpoch exit) with
      | inl err => Err err
      | inr domain =>
          if VerifySigningRoot exit (ValPublicKey validator) (VoluntarySignature exit) domain then Ret tt else Err ErrSigFailedToVerify
      end
  end.

Definition PendingExits : Pool SignedVoluntaryExit → outcome (list (option SignedVoluntaryExit)) := Pending.
Definition InsertVoluntaryExit : SignedVoluntaryExit → Pool SignedVoluntaryExit → outcome (Pool SignedVoluntaryExit) := PoolInsert VoluntaryIndex.
Definition ExitMarkIncluded : SignedVoluntaryExit → Pool SignedVoluntaryExit → outcome (Pool SignedVoluntaryExit) := MarkIncluded VoluntaryIndex.

(** What the body of the loop of [ExitsForInclusion] decides about an exit. *)
Definition judgeExit (st : Ledger) (slot : Z) (exit : SignedVoluntaryExit) : outcome Verdict :=
  if ToEpoch slot <? VoluntaryEpoch exit then Ret Later else
  match ValidatorAt st (VoluntaryIndex exit) with
  | Err _ => Ret Later
  | Ret validator =>
      match VerifyExitAndSignature validator st (Some exit) with
      | Err _ => Ret Invalid
      | Ret _ => Ret Ready
      | Panic s => Panic s
      | OutOfFuel => OutOfFuel
      end
  | Panic s => Panic s
  | OutOfFuel => OutOfFuel
  end.

Definition ExitsForInclusion (MaxVoluntaryExits : Z) (st : Ledger) (slot : Z) (p : Pool SignedVoluntaryExit)
    : outcome (Pool SignedVoluntaryExit * list SignedVoluntaryExit) :=
  inclusionWalk (judgeExit st slot) ExitMarkIncluded Next (Z.to_nat (ListLen (pending p)))
    (Z.min MaxVoluntaryExits (ListLen (pending p))) (First (pending p)) p [].

(** ** Changes of withdrawal credentials *)

Context `{Sha256}.
Definition ChangePool := Pool BLSToExecutionChange.

Definition blsChangesPoolThreshold : Z := 2000.

Definition cycleMap (p : ChangePool) : ChangePool :=
  mkPool (nodes p) (pending p) (foldr (λ kv newMap, <[kv.1 := kv.2]> newMap) ∅ (map_to_list (m p))).

Definition numPending (p : ChangePool) : Z := ListLen (pending p).

Definition PendingBLSToExecChanges : ChangePool → outcome (list (option BLSToExecutionChange)) := Pending.
Definition InsertBLSToExecChange : BLSToExecutionChange → ChangePool → outcome ChangePool := PoolInsert ChangeValidatorIndex.

Definition ChangeMarkIncluded (change : BLSToExecutionChange) (p : ChangePool) : outcome ChangePool :=
  match default None (m p !! ChangeValidatorIndex change) with
  | None => Ret p
  | Some a =>
      r <-? Remove (Some a) (pending p) (nodes p);;
      let p := mkPool r.2 r.1 (delete (ChangeValidatorIndex change) (m p)) in
      Ret (if numPending p =? blsChangesPoolThreshold then cycleMap p else p)
  end.

Definition ValidatorExists (idx : Z) (p : ChangePool) : bool := bool_decide (default None (m p !! idx) ≠ None).

Definition judgeChange (st : Ledger) (change : BLSToExecutionChange) : outcome Verdict :=
  match ValidateBLSToExecutionChange st (Some (Some change)) with
  | Err _ => Ret Invalid
  | Ret _ => Ret Ready
  | Panic s => Panic s
  | OutOfFuel => OutOfFuel
  end.

Definition BLSToExecChangesForInclusion (MaxBlsToExecutionChanges : Z) (st : Ledger) (p : ChangePool)
    : outcome (ChangePool * list BLSToExecutionChange) :=
  inclusionWalk (judgeChange st) ChangeMarkIncluded Prev (Z.to_nat (ListLen (pending p)))
    (Z.min MaxBlsToExecutionChanges (ListLen (pending p))) (Last (pending p)) p [].

(** ** The pools are lists *)

Definition verdictOf {A} (judge : A → outcome Verdict) (x : A) : Verdict := match judge x with Ret v => v | _ => Later end.

Lemma judgeExit_runs st slot x : judgeExit st slot x = Ret (verdictOf (judgeExit st slot) x).
Proof.
  unfold verdictOf. enough (∃ v, judgeExit st slot x = Ret v) as [v ->] by done. unfold judgeExit, ValidatorAt, ValidatorAtIndex. case_match; [by eexists|]. destruct (StateValidators _ !! _) as [val|]; [|by eexists].
  unfold VerifyExitAndSignature, verifyExitConditions, HasPendingBalanceToWithdraw. repeat (case_match; cbn in *; try done; try (by eexists)).
Qed.

Lemma judgeChange_runs st x : judgeChange st x = Ret (verdictOf (judgeChange st) x).
Proof.
  unfold verdictOf. enough (∃ v, judgeChange st x = Ret v) as [v ->] by done. unfold judgeChange, ValidateBLSToExecutionChange, ValidatorAt, ValidatorAtIndex.
  destruct (StateValidators _ !! _) as [val|]; cbn; [|by eexists]. destruct (ValWithdrawalCredentials val) as [|b [|c cs]]; [by eexists|by eexists|]. cbn. destruct (negb _); [by eexists|]. destruct (negb _); by eexists.
Qed.

Lemma cycleMap_same p : cycleMap p = p.
Proof.
  unfold cycleMap. destruct p as [h l mp]. cbn. f_equal. transitivity (list_to_map (map_to_list mp) : gmap Z ptr); [|apply list_to_map_to_list].
  induction (map_to_list mp) as [|[k q] kvs IH]; [done|]. cbn. by rewrite IH.
Qed.
Lemma ChangeMarkIncluded_same x p : ChangeMarkIncluded x p = MarkIncluded ChangeValidatorIndex x p.
Proof.
  unfold ChangeMarkIncluded, MarkIncluded. case_match; [|done]. destruct (Remove _ _ _); cbn; [|done..]. case_match; [by rewrite cycleMap_same|done].
Qed.

Lemma reverse_sublist' {A} (l k : list A) : l `sublist_of` reverse k → reverse l `sublist_of` k.
Proof.
  intros Hs. rewrite <- (reverse_involutive k). revert Hs. generalize (reverse k). intros k' Hs. induction Hs as [|x l1 k1 _ IH|x l1 k1 _ IH]; [done| |].
  - rewrite !reverse_cons. by apply sublist_app.
  - rewrite reverse_cons. by apply sublist_inserts_r.
Qed.

(** A block has room for no more than [limit] of at most [length xs] operations. *)
Lemma take_min {A} (P : A → Prop) `{∀ x, Decision (P x)} (limit : Z) (xs : list A) :
  take (Z.to_nat (Z.min limit (Z.of_nat (length xs)))) (filter P xs) = take (Z.to_nat limit) (filter P xs).
Proof.
  pose proof (length_filter P xs). destruct (decide (limit ≤ Z.of_nat (length xs))); [by rewrite Z.min_l|]. rewrite !take_ge by lia. done.
Qed.

Lemma ExitsForInclusion_run limit st slot p xs :
  holds VoluntaryIndex p xs →
  ∃ p' rest, ExitsForInclusion limit st slot p = Ret (p', take (Z.to_nat limit) (filter (λ x, judgeExit st slot x = Ret Ready) xs)) ∧
    holds VoluntaryIndex p' rest ∧ rest `sublist_of` xs ∧ (∀ x, x ∈ xs → judgeExit st slot x ≠ Ret Invalid → x ∈ rest).
Proof.
  intros (ns & Hp & <-). pose proof (po_list _ _ _ Hp) as Hr. unfold ExitsForInclusion, ListLen, First. rewrite (rp_len _ _ _ Hr), (rp_first _ _ _ Hr), Nat2Z.id.
  destruct (forward_walk VoluntaryIndex (judgeExit st slot) _ (judgeExit_runs st slot) ExitMarkIncluded (Z.min limit (Z.of_nat (length ns))) (λ _ _, eq_refl) ns [] (length ns) p []) as (p' & ns' & Hrun & Hok & Hns); [done|done|].
  cbn [app length] in Hrun. rewrite Hrun. cbn [length Z.of_nat] in *. rewrite Z.sub_0_r in *. destruct (select_spec (verdictOf (judgeExit st slot)) (Z.to_nat (Z.min limit (Z.of_nat (length ns)))) ns.*2) as (H1' & H2' & H3').
  eexists _, _. split; [|split; [exists ns'; split; [exact Hok|exact Hns]|]].
  - rewrite H1'. replace (length ns) with (length ns.*2) by apply length_fmap. rewrite take_min. do 3 f_equal. apply list_filter_iff. intros x. rewrite judgeExit_runs. split; [by intros ->|by intros [=]].
  - split; [exact H2'|]. intros x Hx Hnv. apply H3'; [done|]. intros Hv. apply Hnv. rewrite judgeExit_runs. by rewrite Hv.
Qed.

Lemma ChangesForInclusion_run limit st p xs :
  holds ChangeValidatorIndex p xs →
  ∃ p' rest, BLSToExecChangesForInclusion limit st p = Ret (p', take (Z.to_nat limit) (filter (λ x, judgeChange st x = Ret Ready) (reverse xs))) ∧
    holds ChangeValidatorIndex p' rest ∧ rest `sublist_of` xs ∧ (∀ x, x ∈ xs → judgeChange st x ≠ Ret Invalid → x ∈ rest).
Proof.
  intros (ns & Hp & <-). pose proof (po_list _ _ _ Hp) as Hr. unfold BLSToExecChangesForInclusion, ListLen, Last. rewrite (rp_len _ _ _ Hr), (rp_last _ _ _ Hr), Nat2Z.id.
  assert (addr ns (length ns - 1) = pred ns (length ns)) as ->. { destruct ns as [|n ns]; [done|]. cbn [length pred]. by rewrite Nat.sub_succ, Nat.sub_0_r. }
  destruct (backward_walk ChangeValidatorIndex (judgeChange st) _ (judgeChange_runs st) ChangeMarkIncluded (Z.min limit (Z.of_nat (length ns))) ChangeMarkIncluded_same ns [] (length ns) p []) as (p' & ns' & Hrun & Hok & Hns);
    [by rewrite app_nil_r|done|].
  rewrite app_nil_r in Hrun, Hns. rewrite Hrun. cbn [length Z.of_nat app] in *. rewrite Z.sub_0_r in *. destruct (select_spec (verdictOf (judgeChange st)) (Z.to_nat (Z.min limit (Z.of_nat (length ns)))) (reverse ns.*2)) as (H1' & H2' & H3').
  eexists _, _. split; [|split; [exists ns'; split; [exact Hok|exact Hns]|]].
  - rewrite H1'. replace (length ns) with (length (reverse ns.*2)) by (by rewrite length_reverse, length_fmap). rewrite take_min. do 3 f_equal. apply list_filter_iff. intros x. rewrite judgeChange_runs. split; [by intros ->|by intros [=]].
  - split; [by apply reverse_sublist'|]. intros x Hx Hnv. apply elem_of_reverse. apply H3'; [by apply elem_of_reverse|]. intros Hv. apply Hnv. rewrite judgeChange_runs. by rewrite Hv.
Qed.
End exits.

(** C20. The pool of voluntary exits is the list of its exits, oldest first, with one for
    each validator.  Reading the pool gives the list; inserting an exit adds it at the end
    unless the validator has one already; marking an exit as included removes the exit of
    that validator and nothing else.  For a block the pool hands out, in the order in which
    they came, the exits that are due and pass [VerifyExitAndSignature], as many as the
    block takes, and the walk removes only exits that fail it; no pointer is nil and the
    walk ends, although it removes nodes as it goes. *)
Theorem exit_pool_refines `{BeaconChainConfig} `{!LedgerConfig} Domain VerifySigningRoot limit st slot p xs :
  holds VoluntaryIndex p xs →
  NoDup (VoluntaryIndex <$> xs) ∧ PendingExits p = Ret (Some <$> xs) ∧
  (∀ x, ∃ p', InsertVoluntaryExit x p = Ret p' ∧ holds VoluntaryIndex p' (if bool_decide (VoluntaryIndex x ∈ VoluntaryIndex <$> xs) then xs else xs ++ [x])) ∧
  (∀ x, ∃ p', ExitMarkIncluded x p = Ret p' ∧ holds VoluntaryIndex p' (filter (λ y, VoluntaryIndex y ≠ VoluntaryIndex x) xs)) ∧
  (∃ p' r rest, ExitsForInclusion Domain VerifySigningRoot limit st slot p = Ret (p', r) ∧ holds VoluntaryIndex p' rest ∧
     r = take (Z.to_nat limit) (filter (λ x, judgeExit Domain VerifySigningRoot st slot x = Ret Ready) xs) ∧
     rest `sublist_of` xs ∧ (∀ x, x ∈ xs → judgeExit Domain VerifySigningRoot st slot x ≠ Ret Invalid → x ∈ rest) ∧
     (∀ x, x ∈ r → VoluntaryEpoch x ≤ ToEpoch slot ∧
        ∃ v, ValidatorAt st (VoluntaryIndex x) = Ret v ∧ VerifyExitAndSignature Domain VerifySigningRoot v st (Some x) = Ret tt)).
Proof.
  intros Hp. split_and!; [by eapply holds_unique|by eapply Pending_holds|intros x; by apply Insert_holds|intros x; by apply Mark_holds|].
  destruct (ExitsForInclusion_run Domain VerifySigningRoot limit st slot p xs Hp) as (p' & rest & Hrun & Hok & Hsub & Hkeep). do 3 eexists. split_and!; [exact Hrun|exact Hok|done|done|done|].
  intros x Hx. apply subseteq_take in Hx. apply list_elem_of_filter in Hx as [Hj _]. unfold judgeExit in Hj. destruct (Z.ltb_spec (ToEpoch slot) (VoluntaryEpoch x)); [done|]. split; [lia|].
  destruct (ValidatorAt st (VoluntaryIndex x)) as [v| | |]; try done. exists v. split; [done|]. by destruct (VerifyExitAndSignature _ _ v st (Some x)) as [[]| | |].
Qed.

(** The pool of changes of withdrawal credentials is the list of its changes, oldest
    first, with one for each validator, and says which validators have one.  Removing a
    change also when the map is rebuilt removes that change and nothing else.  For a block
    the pool hands out, newest first, the changes that pass [ValidateBLSToExecutionChange],
    as many as the block takes, and the walk removes only changes that fail it. *)
Theorem change_pool_refines `{BeaconChainConfig} `{!LedgerConfig} `{Sha256} limit st p xs :
  holds ChangeValidatorIndex p xs →
  NoDup (ChangeValidatorIndex <$> xs) ∧ PendingBLSToExecChanges p = Ret (Some <$> xs) ∧ numPending p = Z.of_nat (length xs) ∧
  (∀ idx, ValidatorExists idx p = bool_decide (idx ∈ ChangeValidatorIndex <$> xs)) ∧
  (∀ x, ∃ p', InsertBLSToExecChange x p = Ret p' ∧ holds ChangeValidatorIndex p' (if bool_decide (ChangeValidatorIndex x ∈ ChangeValidatorIndex <$> xs) then xs else xs ++ [x])) ∧
  (∀ x, ∃ p', ChangeMarkIncluded x p = Ret p' ∧ holds ChangeValidatorIndex p' (filter (λ y, ChangeValidatorIndex y ≠ ChangeValidatorIndex x) xs)) ∧
  (∃ p' r rest, BLSToExecChangesForInclusion limit st p = Ret (p', r) ∧ holds ChangeValidatorIndex p' rest ∧
     r = take (Z.to_nat limit) (filter (λ x, judgeChange st x = Ret Ready) (reverse xs)) ∧
     rest `sublist_of` xs ∧ (∀ x, x ∈ xs → judgeChange st x ≠ Ret Invalid → x ∈ rest) ∧
     (∀ x, x ∈ r → is_ret (ValidateBLSToExecutionChange st (Some (Some x))) = true)).
Proof.
  intros Hp. split_and!; [by eapply holds_unique|by eapply Pending_holds|..].
  - destruct Hp as (ns & Hok & <-). unfold numPending, ListLen. by rewrite (rp_len _ _ _ (po_list _ _ _ Hok)), length_fmap.
  - destruct Hp as (ns & Hok & <-). intros idx. unfold ValidatorExists. apply bool_decide_ext. rewrite <- (pool_lookup ChangeValidatorIndex p ns idx Hok).
    destruct (m p !! idx) as [q|] eqn:Hq; [|split; [done|by intros [? ?]]]. apply (po_map _ _ _ Hok) in Hq as (i & a & v & _ & _ & ->). split; [by eexists|done].
  - intros x. by apply Insert_holds.
  - intros x. rewrite ChangeMarkIncluded_same. by apply Mark_holds.
  - destruct (ChangesForInclusion_run limit st p xs Hp) as (p' & rest & Hrun & Hok & Hsub & Hkeep). do 3 eexists. split_and!; [exact Hrun|exact Hok|done|done|done|].
    intros x Hx. apply subseteq_take in Hx. apply list_elem_of_filter in Hx as [Hj _]. unfold judgeChange in Hj. by destruct (ValidateBLSToExecutionChange st (Some (Some x))).
Qed.

(** ** Samples *)

(** [sampleLedger] in epoch 300, with the credentials of the last validator those of the
    BLS key of fours. *)
Definition laterLedger : Ledger :=
  setRegistry (mkExitState (<[3%nat := withCredentials (0 :: drop 1 (Fips.sha256 (replicate 48 4))) (sampleValidator 32000000000 0 4 maxUint64 maxUint64)]>
    (Validators sampleLedger)) 9600 Electra 0 0 0 0) sampleLedger.

(** Exits of a validator that may exit, of one that has, and for a later epoch; a second exit
    of the first validator is not taken. *)
Definition sampleExits : list SignedVoluntaryExit := [mkVoluntaryExit 5 0 [1]; mkVoluntaryExit 5 1 [1]; mkVoluntaryExit 100000 3 [1]].
Definition sampleExitPool : Pool SignedVoluntaryExit :=
  mkPool (mkNodes (list_to_map [(0%nat, mkNode (mkVoluntaryExit 5 0 [1]) None (Some 1%nat)); (1%nat, mkNode (mkVoluntaryExit 5 1 [1]) (Some 0%nat) (Some 2%nat));
                                (2%nat, mkNode (mkVoluntaryExit 100000 3 [1]) (Some 1%nat) None)]) 3)
    (mkList (Some 0%nat) (Some 2%nat) 3) (list_to_map [(0, Some 0%nat); (1, Some 1%nat); (3, Some 2%nat)]).

(** The pool that a sequence of insertions makes. *)
Definition built {A} (index : A → Z) (xs : list A) : outcome (Pool A) := foldl (λ p x, p <-? p;; PoolInsert index x p) (Ret NewPool) xs.
Lemma built_holds {A} (index : A → Z) (xs : list A) p : built index xs = Ret p → holds index p (foldl (λ ys x, insertSpec index x ys) [] xs).
Proof.
  enough (∀ q ys, holds index q ys → foldl (λ p x, p <-? p;; PoolInsert index x p) (Ret q) xs = Ret p → holds index p (foldl (λ ys x, insertSpec index x ys) ys xs)) as Hg
    by (apply Hg, NewPool_holds).
  induction xs as [|x xs IH]; intros q ys Hq; cbn; [by intros [= <-]|]. destruct (Insert_holds index q ys x Hq) as (q' & -> & Hq'). by apply IH.
Qed.

Lemma sampleExitPool_holds : holds VoluntaryIndex sampleExitPool sampleExits.
Proof.
  apply (built_holds VoluntaryIndex [mkVoluntaryExit 5 0 [1]; mkVoluntaryExit 5 1 [1]; mkVoluntaryExit 7 0 [2]; mkVoluntaryExit 100000 3 [1]]). vm_compute. reflexivity.
Qed.

Lemma exit_pool_refines_witness :
  ∃ p' rest, @ExitsForInclusion _ mainnetLedgerConfig (λ _ _, inr []) (λ _ _ _ _, true) 16 laterLedger 9600 sampleExitPool = Ret (p', [mkVoluntaryExit 5 0 [1]]) ∧
    holds VoluntaryIndex p' rest ∧ mkVoluntaryExit 100000 3 [1] ∈ rest.
Proof.
  destruct (exit_pool_refines (H0 := mainnetLedgerConfig) (λ _ _, inr []) (λ _ _ _ _, true) 16 laterLedger 9600 sampleExitPool sampleExits sampleExitPool_holds)
    as (_ & _ & _ & _ & p' & r & rest & Hrun & Hok & Hr & _ & Hkeep & _).
  exists p', rest. split_and!; [|exact Hok|].
  - rewrite Hrun, Hr. vm_compute. reflexivity.
  - apply Hkeep; [unfold sampleExits; set_solver|]. intros Hj. vm_compute in Hj. discriminate Hj.
Defined.

Definition sampleChange (i k : Z) : BLSToExecutionChange := mkBLSChange i (replicate 48 k) (replicate 20 9).
Definition sampleChangePool : ChangePool :=
  mkPool (mkNodes (list_to_map [(0%nat, mkNode (sampleChange 3 4) None (Some 1%nat)); (1%nat, mkNode (sampleChange 0 1) (Some 0%nat) None)]) 2)
    (mkList (Some 0%nat) (Some 1%nat) 2) (list_to_map [(3, Some 0%nat); (0, Some 1%nat)]).
Lemma sampleChangePool_holds : holds ChangeValidatorIndex sampleChangePool [sampleChange 3 4; sampleChange 0 1].
Proof. apply (built_holds ChangeValidatorIndex [sampleChange 3 4; sampleChange 0 1; sampleChange 3 5]). vm_compute. reflexivity. Qed.

Lemma change_pool_refines_witness :
  ValidatorExists 3 sampleChangePool = true ∧
  ∃ p' rest, @BLSToExecChangesForInclusion _ mainnetLedgerConfig fips180 16 laterLedger sampleChangePool = Ret (p', [sampleChange 3 4]) ∧
    holds ChangeValidatorIndex p' rest.
Proof.
  destruct (change_pool_refines (H0 := mainnetLedgerConfig) (H1 := fips180) 16 laterLedger sampleChangePool _ sampleChangePool_holds)
    as (_ & _ & _ & Hex & _ & _ & p' & r & rest & Hrun & Hok & Hr & _). split; [rewrite Hex; reflexivity|].
  exists p', rest. split; [|exact Hok]. rewrite Hrun, Hr. vm_compute. reflexivity.
Defined.
