(* ===== verification/LedgerValue.v ===== *)
(** * Conservation of value

    The value of a ledger is the sum of the balances and of the pending deposits.  The
    operations of Electra that queue, apply, move or withdraw-request balances are the
    steps of a relation; a run of them raises the value by at most what was deposited. *)

From S2P Require Import Prelude MathHelper Primitives SlotTime Shuffle Committee ExitQueue Bytes Sha256 Merkle Ssz SparseTrie DepositTree DepositCache Ledger Withdrawals DepositOps Consolidations PendingDeposits.

Definition value (s : Ledger) : Z := Zsum (Balances s) + amounts (PendingDepositQueue s).

(** Balances and pending amounts are machine integers. *)
Record funds_ok (s : Ledger) : Prop := {
  fo_balances : Forall is_u64 (Balances s);
  fo_pending : Forall (λ d, is_u64 (PDAmount d)) (PendingDepositQueue s)
}.

(** Two ledgers with the same funds. *)
Definition same_funds (s t : Ledger) : Prop := Balances t = Balances s ∧ PendingDepositQueue t = PendingDepositQueue s.

Section value.
Context `{LedgerConfig} `{!DepositSignatures}.

(** ** Single changes *)

Lemma same_value s t : same_funds s t → value t = value s.
Proof. intros [Hb Hq]. unfold value. by rewrite Hb, Hq. Qed.

Lemma same_ok s t : same_funds s t → funds_ok s → funds_ok t.
Proof. intros [Hb Hq] [Hf1 Hf2]. split; [by rewrite Hb|by rewrite Hq]. Qed.

Lemma UpdateValidator_same s i v s' : UpdateValidatorAt s i v = Ret s' → same_funds s s'.
Proof. unfold UpdateValidatorAt. intros (r & _ & [= <-])%obind_ret. done. Qed.

Lemma funds_lookup s i x : funds_ok s → Balances s !! i = Some x → is_u64 x.
Proof. intros Hs Hx. exact (Forall_lookup_1 _ _ _ _ (fo_balances _ Hs) Hx). Qed.

Lemma UpdateBalances_value s i x b s' :
  BalanceAtIndex s i = Ret x → UpdateBalancesAtIndex s i b = Ret s' → funds_ok s → is_u64 b →
  value s' = value s - x + b ∧ funds_ok s' ∧ PendingDepositQueue s' = PendingDepositQueue s ∧ Version s' = Version s ∧ Validators s' = Validators s.
Proof.
  unfold BalanceAtIndex, UpdateBalancesAtIndex. destruct (Balances s !! _) as [y|] eqn:Hx; [|done]. intros [= ->].
  destruct (_ <? _)%nat; [|done]. intros [= <-] Hs Hb. unfold value. cbn [Balances PendingDepositQueue setBalances]. rewrite (Zsum_insert _ _ x) by done. split_and!; [lia| |done..].
  split; cbn; [|apply Hs]. apply Forall_insert; [apply Hs|done].
Qed.

Lemma Increase_value s i a s' :
  IncreaseBalance s i a = Ret s' → funds_ok s → is_u64 a →
  value s' = value s + a ∧ funds_ok s' ∧ PendingDepositQueue s' = PendingDepositQueue s ∧ Version s' = Version s ∧ Validators s' = Validators s.
Proof.
  unfold IncreaseBalance, IncreaseBalanceWithVal. intros (x & Hx & (y & Hy & Hu)%obind_ret)%obind_ret Hs Ha.
  assert (is_u64 x) as Hux. { unfold BalanceAtIndex in Hx. destruct (Balances s !! _) eqn:E; [|done]. injection Hx as <-. by eapply funds_lookup. }
  rewrite Add64_spec in Hy by done. case_match eqn:E; [|done]. bprop. injection Hy as <-.
  destruct (UpdateBalances_value _ _ _ _ _ Hx Hu Hs) as (Hv & Hok & Hrest); [unfold is_u64 in *; lia|]. split_and!; [lia|done|apply Hrest..].
Qed.

Lemma Decrease_value s i a x s' :
  BalanceAtIndex s i = Ret x → DecreaseBalance s i a = Ret s' → funds_ok s → 0 ≤ a ≤ x →
  value s' = value s - a ∧ funds_ok s' ∧ PendingDepositQueue s' = PendingDepositQueue s ∧ Version s' = Version s ∧ Validators s' = Validators s.
Proof.
  unfold DecreaseBalance. intros Hx Hd Hs Ha. rewrite Hx in Hd. cbn [obind] in Hd.
  assert (is_u64 x) as Hux. { unfold BalanceAtIndex in Hx. destruct (Balances s !! _) eqn:E; [|done]. injection Hx as <-. by eapply funds_lookup. }
  rewrite DecreaseBalanceWithVal_max in Hd by (unfold is_u64 in *; lia).
  destruct (UpdateBalances_value _ _ _ _ _ Hx Hd Hs) as (Hv & Hok & Hrest); [unfold is_u64 in *; lia|]. split_and!; [lia|done|apply Hrest..].
Qed.

Lemma AppendPending_value s pd s' :
  AppendPendingDeposit s pd = Ret s' → funds_ok s → is_u64 (PDAmount pd) → value s' = value s + PDAmount pd ∧ funds_ok s'.
Proof.
  unfold AppendPendingDeposit. destruct (negb _); [done|]. intros [= <-] Hs Hp. unfold value. cbn [Balances PendingDepositQueue setPendingDeposits]. rewrite amounts_app.
  unfold amounts at 2. cbn [map Zsum]. split; [lia|]. split; [apply Hs|]. cbn. apply Forall_app_2; [apply Hs|by apply Forall_singleton].
Qed.

(** The setters that some forks do not have. *)
Lemma appendToRegistry_value s val a s' :
  appendToRegistry s val a = Ret s' → funds_ok s → is_u64 a →
  value s' = value s + a ∧ funds_ok s' ∧ PendingDepositQueue s' = PendingDepositQueue s.
Proof.
  intros Hr Hs Ha. unfold appendToRegistry in Hr.
  assert (same_funds (AppendBalance (AppendValidator s val) a) s') as [Hb Hq].
  { destruct (versionAtLeast Altair _); [|by injection Hr as <-]. unfold AppendInactivityScore, AppendPreviousParticipationBits, AppendCurrentParticipationBits in Hr.
    apply obind_ret in Hr as (s1 & ->%unsupported_ret & (s2 & ->%unsupported_ret & ->%unsupported_ret)%obind_ret). done. }
  cbn in Hb, Hq. unfold value. rewrite Hb, Hq, Zsum_app. cbn [Zsum]. split_and!; [lia| |done].
  split; [rewrite Hb; apply Forall_app_2; [apply Hs|by apply Forall_singleton]|rewrite Hq; apply Hs].
Qed.

Lemma AddValidator_value s pk creds a s' :
  AddValidatorToRegistry s pk creds a = Ret s' → funds_ok s → is_u64 a →
  value s' = value s + a ∧ funds_ok s' ∧ PendingDepositQueue s' = PendingDepositQueue s.
Proof. unfold AddValidatorToRegistry. intros (v & _ & Hr)%obind_ret. by eapply appendToRegistry_value. Qed.

(** ** The queues *)

Lemma ApplyDeposit_value s data all s' :
  ApplyDeposit s data all = Ret s' → funds_ok s → is_u64 (Amount data) →
  value s ≤ value s' ≤ value s + Amount data ∧ funds_ok s'.
Proof.
  intros Hr Hs Ha. unfold is_u64 in *. unfold ApplyDeposit in Hr. destruct (ValidatorIndexByPubkey _ _).
  - destruct (AppendPending_value _ _ _ Hr Hs Ha) as [Hv Hok]. cbn in Hv. split; [lia|done].
  - apply obind_ret in Hr as (valid & _ & Hr). destruct (negb valid); [injection Hr as <-; split; [lia|done]|].
    apply obind_ret in Hr as (s1 & Hs1%omap_err_ret & Hr).
    destruct (AddValidator_value _ _ _ _ _ Hs1 Hs) as (Hv1 & Hok1 & _); [unfold is_u64, two64; lia|].
    destruct (AppendPending_value _ _ _ Hr Hok1 Ha) as [Hv Hok]. cbn in Hv. split; [lia|done].
Qed.

Lemma DepositRequest_value s r s' :
  processDepositRequest s (Some r) = Ret s' → funds_ok s → is_u64 (Amount (ReqData r)) →
  value s' = value s + Amount (ReqData r) ∧ funds_ok s'.
Proof.
  intros Hr Hs Ha. unfold processDepositRequest in Hr. destruct (negb _); [done|].
  apply obind_ret in Hr as (s1 & Hs1 & Hr%omap_err_ret).
  assert (same_funds s s1) as Hsame.
  { destruct (_ =? _); [|by injection Hs1 as <-]. apply omap_err_ret in Hs1. unfold SetDepositRequestsStartIndex in Hs1. by apply unsupported_ret in Hs1 as ->. }
  destruct (AppendPending_value _ _ _ Hr (same_ok _ _ Hsame Hs) Ha) as [Hv Hok]. rewrite (same_value _ _ Hsame) in Hv. by split.
Qed.

Lemma batch_value all ds : ∀ s s',
  batchLoop all s ds = Ret s' → funds_ok s → Forall (λ d, is_u64 (PDAmount d)) ds →
  value s' ≤ value s + amounts ds ∧ funds_ok s' ∧ PendingDepositQueue s' = PendingDepositQueue s.
Proof.
  induction ds as [|d ds IH]; intros s s' Hr Hs Hds; cbn [batchLoop] in Hr.
  { injection Hr as <-. unfold amounts. cbn. split_and!; [lia|done|done]. }
  apply Forall_cons in Hds as [Hd Hds]. rewrite amounts_cons. apply obind_ret in Hr as (valid & _ & (s1 & Hs1 & Hr)%obind_ret).
  assert (value s1 ≤ value s + PDAmount d ∧ funds_ok s1 ∧ PendingDepositQueue s1 = PendingDepositQueue s) as (Hv1 & Hok1 & Hq1).
  { unfold is_u64 in Hd. destruct (ValidatorIndexByPubkey _ _).
    - apply omap_err_ret in Hs1. destruct (Increase_value _ _ _ _ Hs1 Hs Hd) as (Hv & Hok & Hq & _). split_and!; [lia|done|done].
    - destruct valid; [|injection Hs1 as <-; split_and!; [lia|done|done]]. apply omap_err_ret in Hs1.
      destruct (AddValidator_value _ _ _ _ _ Hs1 Hs Hd) as (Hv & Hok & Hq). split_and!; [lia|done|done]. }
  destruct (IH _ _ Hr Hok1 Hds) as (Hv & Hok & Hq). split_and!; [lia|done|congruence].
Qed.

(** ** The loop over the queue *)

Record credit_ok (r : PendingRun) : Prop := {
  ro_funds : funds_ok (RunLedger r);
  ro_batch : Forall (λ d, is_u64 (PDAmount d)) (toBatchVerify r);
  ro_postpone : Forall (λ d, is_u64 (PDAmount d)) (toPostpone r);
  ro_index : 0 ≤ nextDepositIndex r
}.

Definition runValue (r : PendingRun) : Z := Zsum (Balances (RunLedger r)) + amounts (toBatchVerify r) + amounts (toPostpone r).

(** From [r] to [r'] the first deposits of [ds] were consumed, and nothing else changed
    the amounts. *)
Definition consumed (ds : list PendingDeposit) (r r' : PendingRun) : Prop :=
  ∃ pre post, ds = pre ++ post ∧ nextDepositIndex r' = nextDepositIndex r + Z.of_nat (length pre) ∧ runValue r' = runValue r + amounts pre ∧
    credit_ok r' ∧ PendingDepositQueue (RunLedger r') = PendingDepositQueue (RunLedger r).

Lemma consumed_none ds r b : credit_ok r → consumed ds r (mkPendingRun (RunLedger r) (processedAmount r) (nextDepositIndex r) b (toBatchVerify r) (toPostpone r)).
Proof. intros [? ? ? ?]. exists [], ds. unfold amounts, runValue. cbn [map Zsum length app]. run_cbn. split_and!; [done|lia|lia|by split|done]. Qed.

Lemma consumed_refl ds r : credit_ok r → consumed ds r r.
Proof. intros Hr. destruct r. by apply (consumed_none ds (mkPendingRun _ _ _ _ _ _)). Qed.

Lemma consumed_cons pd ds r r1 r' :
  nextDepositIndex r1 = nextDepositIndex r + 1 → runValue r1 = runValue r + PDAmount pd →
  PendingDepositQueue (RunLedger r1) = PendingDepositQueue (RunLedger r) → consumed ds r1 r' → consumed (pd :: ds) r r'.
Proof.
  intros Hi Hv Hq (pre & post & -> & Hi' & Hv' & Hok & Hq'). exists (pd :: pre), post. rewrite amounts_cons. cbn [length app].
  split_and!; [done|lia|lia|done|congruence].
Qed.

(** A credit of the amount, by [IncreaseBalance]. *)
Lemma credited r pd i s' a b :
  IncreaseBalance (RunLedger r) i (PDAmount pd) = Ret s' → credit_ok r → is_u64 (PDAmount pd) →
  let r1 := mkPendingRun s' a (nextDepositIndex r + 1) b (toBatchVerify r) (toPostpone r) in
  credit_ok r1 ∧ runValue r1 = runValue r + PDAmount pd ∧ PendingDepositQueue s' = PendingDepositQueue (RunLedger r).
Proof.
  intros Hi [Hf Hb Hp Hx] Hu r1. destruct (Increase_value _ _ _ _ Hi Hf Hu) as (Hv & Hok & Hq & _).
  split_and!; [split; unfold r1; run_cbn; [done..|lia]| |done]. unfold runValue, r1. run_cbn. unfold value in Hv. rewrite Hq in Hv. lia.
Qed.

Lemma pendingLoop_value nextEpoch available finalizedSlot startIndex ds : ∀ r r',
  pendingDepositsLoop nextEpoch available finalizedSlot startIndex ds r = Ret r' →
  credit_ok r → Forall (λ d, is_u64 (PDAmount d)) ds → nextDepositIndex r + Z.of_nat (length ds) < two64 → consumed ds r r'.
Proof.
  induction ds as [|pd ds IH]; intros r r' Hr Hok Hds Hidx; cbn [pendingDepositsLoop] in Hr; [injection Hr as <-; by apply consumed_refl|].
  apply Forall_cons in Hds as [Hpd Hds]. cbn [length] in Hidx. pose proof (ro_index _ Hok).
  assert (nextDepositIndex r +w 1 = nextDepositIndex r + 1) as Hw by (apply wrap64_small; unfold is_u64; lia). cbn beta in Hw. rewrite Hw in Hr.
  destruct (_ && _); [injection Hr as <-; by apply consumed_refl|]. destruct (_ <? _); [injection Hr as <-; by apply consumed_refl|].
  destruct (_ <=? _); [injection Hr as <-; by apply consumed_refl|]. apply obind_ret in Hr as ([exited wdn] & _ & Hr).
  destruct wdn.
  { apply obind_ret in Hr as (s' & Hs%omap_err_ret & Hr). destruct (credited r pd _ s' (processedAmount r) (isChurnLimitReached r) Hs Hok Hpd) as (Hok1 & Hv1 & Hq1).
    eapply consumed_cons; [| | |apply (IH _ _ Hr Hok1 Hds); run_cbn; lia]; done. }
  destruct exited.
  { eapply consumed_cons; [| | |apply (IH _ _ Hr); [|done|run_cbn; lia]]; [done| |done|].
    - unfold runValue. run_cbn. rewrite amounts_app. unfold amounts at 3. cbn [map Zsum]. lia.
    - destruct Hok as [Hf Hb Hp Hx]. split; run_cbn; [done|done|by apply Forall_app_2, Forall_singleton|lia]. }
  destruct (_ <? _); [injection Hr as <-; by apply consumed_none|].
  destruct (ValidatorIndexByPubkey _ _).
  { apply obind_ret in Hr as (s' & Hs%omap_err_ret & Hr). destruct (credited r pd _ s' (processedAmount r +w PDAmount pd) false Hs Hok Hpd) as (Hok1 & Hv1 & Hq1).
    eapply consumed_cons; [| | |apply (IH _ _ Hr Hok1 Hds); run_cbn; lia]; done. }
  eapply consumed_cons; [| | |apply (IH _ _ Hr); [|done|run_cbn; lia]]; [done| |done|].
  - unfold runValue. run_cbn. rewrite amounts_app. unfold amounts at 2. cbn [map Zsum]. lia.
  - destruct Hok as [Hf Hb Hp Hx]. split; run_cbn; [done|by apply Forall_app_2, Forall_singleton|done|lia].
Qed.

Lemma ProcessPending_value s activeBalance s' :
  ProcessPendingDeposits s activeBalance = Ret s' → funds_ok s → Z.of_nat (length (PendingDepositQueue s)) < two64 →
  value s' ≤ value s ∧ funds_ok s'.
Proof.
  intros Hr Hs Hlen. unfold ProcessPendingDeposits in Hr. destruct (negb _); [done|]. apply obind_ret in Hr as (fs & _ & (r & Hr & Hr')%obind_ret).
  apply pendingLoop_value in Hr as (pre & post & Hq & Hi & Hv & Hok & Hqq); [| |apply Hs|run_cbn; lia].
  2: { split; run_cbn; [done|constructor|constructor|lia]. }
  revert Hi Hv Hqq. unfold runValue, amounts at 3 4. run_cbn. cbn [map Zsum]. intros Hi Hv Hqq. destruct Hok as [Hf Hb Hp _].
  apply obind_ret in Hr' as (s1 & Hs1%omap_err_ret & Hr').
  assert (value s1 ≤ value (RunLedger r) + amounts (toBatchVerify r) ∧ funds_ok s1 ∧ PendingDepositQueue s1 = PendingDepositQueue (RunLedger r)) as (Hv1 & Hok1 & Hq1).
  { unfold batchProcessNewPendingDeposits in Hs1. destruct (toBatchVerify r) as [|d ds] eqn:E.
    - injection Hs1 as <-. unfold amounts. cbn [map Zsum]. split_and!; [lia|done|done].
    - cbn [length Nat.eqb] in Hs1. apply obind_ret in Hs1 as (all & _ & Hs1). by eapply batch_value. }
  apply obind_ret in Hr' as (s2 & Hs2%omap_err_ret & Hr'). unfold SetPendingDeposits in Hs2. apply unsupported_ret in Hs2 as ->.
  assert (same_funds (setPendingDeposits (drop (Z.to_nat (nextDepositIndex r)) (PendingDepositQueue s) ++ toPostpone r) s1) s') as [Hb' Hq'].
  { destruct (isChurnLimitReached r); unfold SetDepositBalanceToConsume in Hr'; by apply unsupported_ret in Hr' as ->. }
  cbn [Balances PendingDepositQueue setPendingDeposits] in Hb', Hq'. rewrite Hi, Hq, Z.add_0_l, Nat2Z.id, drop_app_length in Hq'.
  unfold value in *. rewrite Hq', Hb', Hq, !amounts_app. rewrite Hq1, Hqq in Hv1. split; [lia|]. split; [rewrite Hb'; apply Hok1|].
  rewrite Hq'. apply Forall_app_2; [|done]. pose proof (fo_pending _ Hs) as Hfp. rewrite Hq in Hfp. by apply Forall_app in Hfp as [_ ?].
Qed.

(** ** Consolidations *)

(** Effective balances are machine integers. *)
Definition typed (s : Ledger) : Prop := Forall (λ v, is_u64 (EffectiveBalance v)) (Validators s).

Lemma consolidations_value nextEpoch pcs : ∀ s n s' n',
  consolidationsLoop nextEpoch pcs s n = Ret (s', n') → funds_ok s → typed s →
  value s' = value s ∧ funds_ok s' ∧ PendingDepositQueue s' = PendingDepositQueue s.
Proof.
  induction pcs as [|pc pcs IH]; intros s n s' n' Hr Hs Ht; cbn [consolidationsLoop] in Hr; [by injection Hr as <- <-|].
  apply obind_ret in Hr as (v & Hv & Hr). destruct (Slashed v); [by eapply IH|]. destruct (_ <? _); [by injection Hr as <- <-|].
  apply obind_ret in Hr as (x & Hx & (s1 & Hs1 & (s2 & Hs2 & Hr)%obind_ret)%obind_ret).
  assert (is_u64 (EffectiveBalance v)) as Hu.
  { unfold ValidatorAt, ValidatorAtIndex in Hv. destruct (StateValidators _ !! _) eqn:E; [|done]. injection Hv as <-. exact (Forall_lookup_1 _ _ _ _ Ht E). }
  assert (is_u64 x) as Hux. { unfold BalanceAtIndex in Hx. destruct (Balances s !! _) eqn:E; [|done]. injection Hx as <-. by eapply funds_lookup. }
  unfold is_u64 in *. destruct (Decrease_value _ _ _ _ _ Hx Hs1 Hs) as (Hv1 & Hok1 & Hq1 & _ & Hvs1); [lia|].
  destruct (Increase_value _ _ _ _ Hs2 Hok1) as (Hv2 & Hok2 & Hq2 & _ & Hvs2); [unfold is_u64; lia|].
  destruct (IH _ _ _ _ Hr Hok2) as (Hv3 & Hok3 & Hq3); [unfold typed; by rewrite Hvs2, Hvs1|]. split_and!; [lia|done|congruence].
Qed.

Lemma ProcessConsolidations_value s s' :
  ProcessPendingConsolidations s = Ret s' → funds_ok s → typed s → value s' = value s ∧ funds_ok s'.
Proof.
  intros Hr Hs Ht. unfold ProcessPendingConsolidations in Hr. destruct (negb _); [done|]. apply obind_ret in Hr as ([s1 n] & Hr1 & Hr).
  destruct (consolidations_value _ _ _ _ _ _ Hr1 Hs Ht) as (Hv & Hok & Hq).
  assert (same_funds s1 s') as Hsame. { destruct (0 <? n); [|by injection Hr as <-]. unfold SetPendingConsolidations in Hr. by apply unsupported_ret in Hr as ->. }
  split; [rewrite (same_value _ _ Hsame); done|by eapply same_ok].
Qed.

Lemma QueueExcess_value s i : funds_ok s → let s' := (QueueExcessActiveBalance s i).1 in value s' ≤ value s ∧ funds_ok s'.
Proof.
  intros Hs. unfold QueueExcessActiveBalance. destruct (BalanceAtIndex s i) as [x| | |] eqn:Hx; [|cbn; split; [lia|done]..].
  destruct (MinActivationBalance <? x) eqn:E; [|cbn; split; [lia|done]]. bprop. pose proof balances_range. pose proof EffectiveBalanceIncrement_range.
  assert (is_u64 x) as Hux. { unfold BalanceAtIndex in Hx. destruct (Balances s !! _) eqn:E'; [|done]. injection Hx as <-. by eapply funds_lookup. }
  unfold is_u64 in *. destruct (UpdateBalancesAtIndex s i MinActivationBalance) as [s1| | |] eqn:Hu; [|cbn; split; [lia|done]..].
  destruct (UpdateBalances_value _ _ _ _ _ Hx Hu Hs) as (Hv1 & Hok1 & _); [unfold is_u64; lia|]. rewrite wrap64_small by (unfold is_u64; lia).
  destruct (v <-? ValidatorAt s1 i;; _) as [s2| | |] eqn:Hr; [|cbn; split; [lia|done]..]. apply obind_ret in Hr as (v & _ & Hr).
  destruct (AppendPending_value _ _ _ Hr Hok1) as [Hv2 Hok2]; [cbn; unfold is_u64; lia|]. cbn in Hv2 |- *. split; [lia|done].
Qed.

Lemma Switch_value s i : funds_ok s → let s' := (SwitchToCompoundingValidator s i).1 in value s' ≤ value s ∧ funds_ok s'.
Proof.
  intros Hs. unfold SwitchToCompoundingValidator. destruct (v <-? ValidatorAt s i;; _) as [s1| | |] eqn:Hr; [|cbn; split; [lia|done]..].
  assert (same_funds s s1) as Hsame.
  { apply obind_ret in Hr as (v & _ & Hr). destruct (ValWithdrawalCredentials v); [done|]. by eapply UpdateValidator_same. }
  rewrite <- (same_value _ _ Hsame). apply QueueExcess_value. by eapply same_ok.
Qed.

Lemma startConsolidation_same s i j v s' : startConsolidation s i j v = Ret s' → same_funds s s'.
Proof.
  unfold startConsolidation. destruct (ComputeConsolidationEpochAndUpdateChurn _ _) as [r [e| | |]]; [|by intros [= <-]|done..].
  intros (s1 & Hs1%omap_err_ret & Hs2%omap_err_ret)%obind_ret. apply UpdateValidator_same in Hs1 as [Hb Hq].
  unfold AppendPendingConsolidation in Hs2. apply unsupported_ret in Hs2 as ->. by split.
Qed.

Lemma consolidate_same epoch s source target address s' : consolidate epoch s source target address = Ret s' → same_funds s s'.
Proof.
  unfold consolidate. intros Hr. assert (Ret s = Ret s' → same_funds s s') as Hid by (by intros [= <-]).
  repeat match type of Hr with
  | (if ?b then _ else _) = _ => destruct b; [by auto || done|]
  | match ?o with Some _ => _ | None => _ end = _ => destruct o; [|by auto]
  | obind ?m _ = _ => apply obind_ret in Hr as (? & _ & Hr)
  end.
  destruct (PendingBalanceToWithdraw _ _); [|by auto|done..]. destruct (0 <? _); [by auto|]. by eapply startConsolidation_same.
Qed.

Lemma consolidationRequest_value epoch s cr s' :
  consolidationRequestStep epoch s cr = Ret s' → funds_ok s → value s' ≤ value s ∧ funds_ok s'.
Proof.
  intros Hr Hs. unfold consolidationRequestStep in Hr. apply obind_ret in Hr as (switch & _ & Hr). destruct switch.
  - destruct (ValidatorIndexByPubkey _ _) as [i|]; [|injection Hr as <-; split; [lia|done]].
    pose proof (Switch_value s i Hs) as Hsw. destruct (SwitchToCompoundingValidator s i) as [s1 []]; cbn in Hsw; [injection Hr as <-; done..|done|done].
  - apply consolidate_same in Hr as Hsame. split; [rewrite (same_value _ _ Hsame); lia|by eapply same_ok].
Qed.

(** ** Withdrawal requests *)

Lemma withdrawalRequest_same epoch s wr s' : withdrawalRequestStep epoch s wr = Ret s' → same_funds s s'.
Proof.
  unfold withdrawalRequestStep. intros Hr. assert (Ret s = Ret s' → same_funds s s') as Hid by (by intros [= <-]).
  repeat match type of Hr with
  | (if ?b then _ else _) = _ => destruct b; [by auto || done|]
  | match ?o with Some _ => _ | None => _ end = _ => destruct o; [|by auto]
  | obind ?m _ = _ => apply obind_ret in Hr as (? & _ & Hr)
  end.
  destruct (RequestAmount wr =? FullExitRequestAmount).
  - destruct (_ =? 0); [|by auto]. destruct (InitiateValidatorExit _ _ _) as [[reg info] res]. apply obind_ret in Hr as (y & Hy & [= <-]).
    unfold liftExit in Hy. apply obind_ret in Hy as (u & _ & [= <-]). done.
  - apply obind_ret in Hr as (bal & _ & (c & _ & Hr)%obind_ret). destruct (_ && _); [|by auto].
    apply obind_ret in Hr as ([s1 e] & Hl & (w & _ & Hr)%obind_ret). unfold liftExit in Hl. apply obind_ret in Hl as (u & _ & [= <- <-]).
    unfold AppendPendingPartialWithdrawal in Hr. apply unsupported_ret in Hr as ->. done.
Qed.

(** ** Runs *)

(** One operation on the queues, with the amount that it deposits. *)
Inductive queue_op (s : Ledger) : Z → Ledger → Prop :=
| step_deposit data all s' : ApplyDeposit s data all = Ret s' → is_u64 (Amount data) → queue_op s (Amount data) s'
| step_request r s' : processDepositRequest s (Some r) = Ret s' → is_u64 (Amount (ReqData r)) → queue_op s (Amount (ReqData r)) s'
| step_pending activeBalance s' :
    ProcessPendingDeposits s activeBalance = Ret s' → Z.of_nat (length (PendingDepositQueue s)) < two64 → queue_op s 0 s'
| step_consolidations s' : ProcessPendingConsolidations s = Ret s' → typed s → queue_op s 0 s'
| step_consolidation_request epoch cr s' : consolidationRequestStep epoch s cr = Ret s' → queue_op s 0 s'
| step_withdrawal_request epoch wr s' : withdrawalRequestStep epoch s wr = Ret s' → queue_op s 0 s'.

Inductive queue_run : Ledger → Z → Ledger → Prop :=
| run_refl s : queue_run s 0 s
| run_step s a s' b t : queue_op s a s' → queue_run s' b t → queue_run s (a + b) t.

Lemma queue_step_value s a s' : queue_op s a s' → funds_ok s → value s' ≤ value s + a ∧ funds_ok s'.
Proof.
  intros Hstep Hs. destruct Hstep as [data all s' Hr Ha|r s' Hr Ha|ab s' Hr Hl|s' Hr Ht|e cr s' Hr|e wr s' Hr].
  - destruct (ApplyDeposit_value _ _ _ _ Hr Hs Ha). split; [lia|done].
  - destruct (DepositRequest_value _ _ _ Hr Hs Ha). split; [lia|done].
  - destruct (ProcessPending_value _ _ _ Hr Hs Hl). split; [lia|done].
  - destruct (ProcessConsolidations_value _ _ Hr Hs Ht). split; [lia|done].
  - destruct (consolidationRequest_value _ _ _ _ Hr Hs). split; [lia|done].
  - apply withdrawalRequest_same in Hr as Hsame. split; [rewrite (same_value _ _ Hsame); lia|by eapply same_ok].
Qed.

(** C8. No money from nothing: however deposits, deposit requests, the processing of pending
    deposits and consolidations, and requests for consolidation and withdrawal follow each
    other, the balances and pending deposits together never grow by more than the amounts
    that were deposited. *)
Theorem queues_create_no_value s a t : queue_run s a t → funds_ok s → value t ≤ value s + a ∧ funds_ok t.
Proof.
  induction 1 as [s|s a s' b t Hstep _ IH]; intros Hs; [split; [lia|done]|].
  destruct (queue_step_value _ _ _ Hstep Hs) as [Hv Hok]. destruct (IH Hok). split; [lia|done].
Qed.
End value.

(** ** Witness *)

(** A deposit request of 5 ETH for validator 4, then the processing of the queue. *)
Definition sampleRequest : DepositRequest := mkDepositRequest (mkDepositData (replicate 48 4) (1 :: replicate 31 4) 5000000000 [0]) 7.

Definition afterRequest : Ledger := setPendingDeposits [mkPendingDeposit (replicate 48 4) (1 :: replicate 31 4) 5000000000 [0] 3200] sampleLedger.

Lemma queues_create_no_value_witness : value afterRequest ≤ value sampleLedger + (5000000000 + 0).
Proof.
  apply (@queues_create_no_value _ mainnetLedgerConfig sampleSignatures sampleLedger (5000000000 + 0) afterRequest).
  - refine (@run_step _ mainnetLedgerConfig sampleSignatures _ 5000000000 afterRequest _ _ _ (run_refl _)).
    refine (@step_request _ mainnetLedgerConfig sampleSignatures _ sampleRequest afterRequest _ _); [vm_compute; reflexivity|by vm_compute].
  - split; [exact (lo_amounts _ sampleLedger_ok)|constructor].
Defined.
