(* ===== verification/EpochTransition.v ===== *)
(** * The epoch transition

    Models [ProcessEpoch] of [beacon-chain/core/altair/transition.go] and of
    [beacon-chain/core/electra/transition.go]: the stages of the end of an epoch, one after
    the other, on the ledger, the finality and the accumulators of the state, with the
    resets of [core/epoch/epoch_processing.go] and [core/altair/epoch_spec.go] that the
    other files leave out.  The next sync committee and the roots of historical batches
    are arguments. *)

From S2P Require Import Prelude MathHelper Primitives SlotTime Shuffle Committee Justification Finality ExitQueue Bytes Sha256 Merkle Ssz SparseTrie DepositTree DepositCache Ledger Participation Rewards RewardsCorrect EpochUpdates Withdrawals DepositOps Consolidations PendingDeposits.

(** The lengths of the vectors and periods that the resets read. *)
Class EpochConfig := {
  EpochsPerHistoricalVector : Z;
  EpochsPerEth1VotingPeriod : Z;
  MaxDeposits : Z;
  periods_range : 0 < EpochsPerHistoricalVector < two32 ∧ 0 < EpochsPerEth1VotingPeriod < two32 ∧ 0 < MaxDeposits < two32
}.
#[program] Definition mainnetEpochConfig : EpochConfig := {|
  EpochsPerHistoricalVector := 65536;
  EpochsPerEth1VotingPeriod := 64;
  MaxDeposits := 16
|}.
Solve Obligations with (cbn; unfold two32; lia).

(** The beacon state: its ledger, its finality and its accumulators.  Roots and mixes are
    integers, as in the finality part; [E] and [C] are the types of eth1 data and of sync
    committees. *)
Record EpochState {BV E C : Type} := mkEpochState {
  EsLedger : Ledger;
  EsFinality : BeaconState BV;
  EsStateRoots : list Z;
  EsEth1DataVotes : list E;
  EsRandaoMixes : list Z;
  EsHistoricalRoots : list Z;
  EsHistoricalSummaries : list (Z * Z);
  EsCurrentSyncCommittee : C;
  EsNextSyncCommittee : C
}.
Arguments EpochState : clear implicits.

Section transition.
Context `{LedgerConfig} `{!SquareRoot} `{!DepositSignatures} `{!EpochConfig} {BV : Type} `{Bitvector4 BV} {E C : Type}.
(** [NextSyncCommittee], [stateutil.ArraysRoot] and the hash tree root of a historical batch. *)
Context (nextSyncCommittee : EpochState BV E C → outcome C) (arraysRoot : list Z → outcome Z) (batchRoot : list Z → list Z → outcome Z).
Implicit Types (st : EpochState BV E C).

Definition onLedger (f : Ledger → outcome Ledger) st : outcome (EpochState BV E C) :=
  l <-? f (EsLedger st);;
  Ret (mkEpochState _ _ _ l (EsFinality st) (EsStateRoots st) (EsEth1DataVotes st) (EsRandaoMixes st) (EsHistoricalRoots st) (EsHistoricalSummaries st)
         (EsCurrentSyncCommittee st) (EsNextSyncCommittee st)).

(** The finality part, and the finalized epoch that the ledger reads. *)
Definition setFinality (f : BeaconState BV) st : EpochState BV E C :=
  mkEpochState _ _ _ (setFinalizedEpoch (CheckpointEpoch (FinalizedCheckpoint f)) (EsLedger st)) f (EsStateRoots st) (EsEth1DataVotes st) (EsRandaoMixes st)
    (EsHistoricalRoots st) (EsHistoricalSummaries st) (EsCurrentSyncCommittee st) (EsNextSyncCommittee st).

(** ** Resets *)

Definition ProcessEth1DataReset st : outcome (EpochState BV E C) :=
  let nextEpoch := LedgerEpoch (EsLedger st) +w 1 in
  if nextEpoch mod EpochsPerEth1VotingPeriod =? 0
  then Ret (mkEpochState _ _ _ (EsLedger st) (EsFinality st) (EsStateRoots st) [] (EsRandaoMixes st) (EsHistoricalRoots st) (EsHistoricalSummaries st)
              (EsCurrentSyncCommittee st) (EsNextSyncCommittee st))
  else Ret st.

(** [helpers.RandaoMix] *)
Definition RandaoMix st (epoch : Z) : outcome Z :=
  match EsRandaoMixes st !! Z.to_nat (epoch mod EpochsPerHistoricalVector) with Some m => Ret m | None => Err errOutOfBounds end.

Definition ProcessRandaoMixesReset st : outcome (EpochState BV E C) :=
  let currentEpoch := LedgerEpoch (EsLedger st) in
  let nextEpoch := currentEpoch +w 1 in
  if negb (Z.of_nat (length (EsRandaoMixes st)) =? EpochsPerHistoricalVector)
  then Err "state randao length different than EpochsPerHistoricalVector"
  else
    mix <-? RandaoMix st currentEpoch;;
    Ret (mkEpochState _ _ _ (EsLedger st) (EsFinality st) (EsStateRoots st) (EsEth1DataVotes st)
           (<[Z.to_nat (nextEpoch mod EpochsPerHistoricalVector) := mix]> (EsRandaoMixes st)) (EsHistoricalRoots st) (EsHistoricalSummaries st)
           (EsCurrentSyncCommittee st) (EsNextSyncCommittee st)).

Definition ProcessHistoricalDataUpdate st : outcome (EpochState BV E C) :=
  let nextEpoch := LedgerEpoch (EsLedger st) +w 1 in
  epochsPerHistoricalRoot <-? Slot_DivSlot SlotsPerHistoricalRoot SlotsPerEpoch;;
  r <-? Epoch_Mod nextEpoch epochsPerHistoricalRoot;;
  if negb (r =? 0) then Ret st
  else
    let roots := BlockRoots (EsFinality st) in
    if versionAtLeast Capella (EsLedger st) then
      br <-? arraysRoot roots;;
      sr <-? arraysRoot (EsStateRoots st);;
      Ret (mkEpochState _ _ _ (EsLedger st) (EsFinality st) (EsStateRoots st) (EsEth1DataVotes st) (EsRandaoMixes st) (EsHistoricalRoots st)
             (EsHistoricalSummaries st ++ [(br, sr)]) (EsCurrentSyncCommittee st) (EsNextSyncCommittee st))
    else
      root <-? omap_err (λ e, wrapErr e "could not hash historical batch") (batchRoot roots (EsStateRoots st));;
      Ret (mkEpochState _ _ _ (EsLedger st) (EsFinality st) (EsStateRoots st) (EsEth1DataVotes st) (EsRandaoMixes st) (EsHistoricalRoots st ++ [root])
             (EsHistoricalSummaries st) (EsCurrentSyncCommittee st) (EsNextSyncCommittee st)).

Definition setSyncCommittees (current next : C) st : EpochState BV E C :=
  mkEpochState _ _ _ (EsLedger st) (EsFinality st) (EsStateRoots st) (EsEth1DataVotes st) (EsRandaoMixes st) (EsHistoricalRoots st)
    (EsHistoricalSummaries st) current next.

(** Before Altair there are no sync committees. *)
Definition ProcessSyncCommitteeUpdates st : outcome (EpochState BV E C) :=
  let nextEpoch := LedgerEpoch (EsLedger st) +w 1 in
  if negb (nextEpoch mod EpochsPerSyncCommitteePeriod =? 0) then Ret st
  else if isPhase0 (EsLedger st) then Err (errNotSupported "NextSyncCommittee")
  else
    let st := setSyncCommittees (EsNextSyncCommittee st) (EsNextSyncCommittee st) st in
    next <-? nextSyncCommittee st;;
    Ret (setSyncCommittees (EsCurrentSyncCommittee st) next st).

(** ** The stages *)

(** The stages up to the rewards, which both versions share; the second component is the
    active balance of the epoch. *)
Definition processBalances st : outcome (EpochState BV E C * Z) :=
  p <-? InitializePrecomputeValidators (EsLedger st);;
  p <-? ProcessEpochParticipation (EsLedger st) p.2 p.1;;
  let '(vp, bp) := p in
  f <-? omap_err (λ e, wrapErr e "could not process justification")
         (ProcessJustificationAndFinalizationPreCompute (EsFinality st) (finalityBalance bp));;
  let st := setFinality f st in
  q <-? omap_err (λ e, wrapErr e "could not process inactivity updates") (ProcessInactivityScores (EsLedger st) vp);;
  st <-? onLedger (λ _, Ret q.1) st;;
  st <-? onLedger (λ l, r <-? omap_err (λ e, wrapErr e "could not process rewards and penalties") (ProcessRewardsAndPenaltiesPrecompute l bp q.2);; Ret r.1) st;;
  Ret (st, ActiveCurrent bp).

(** The last stages, which both versions share too. *)
Definition processResets st : outcome (EpochState BV E C) :=
  st <-? onLedger ProcessSlashingsReset st;;
  st <-? ProcessRandaoMixesReset st;;
  st <-? ProcessHistoricalDataUpdate st;;
  st <-? onLedger ProcessParticipationFlagUpdates st;;
  ProcessSyncCommitteeUpdates st.

(** [altair.ProcessEpoch]; [None] is a nil state. *)
Definition altairProcessEpoch (st : option (EpochState BV E C)) : outcome (EpochState BV E C) :=
  match st with
  | None => Err "nil state"
  | Some st =>
      r <-? processBalances st;;
      st <-? onLedger (λ l, omap_err (λ e, wrapErr e "could not process registry updates") (ProcessRegistryUpdates l)) r.1;;
      st <-? onLedger ProcessSlashings st;;
      st <-? ProcessEth1DataReset st;;
      st <-? onLedger ProcessEffectiveBalanceUpdates st;;
      processResets st
  end.

(** [electra.ProcessEpoch] *)
Definition electraProcessEpoch (st : option (EpochState BV E C)) : outcome (EpochState BV E C) :=
  match st with
  | None => Err "nil state"
  | Some st =>
      r <-? processBalances st;;
      st <-? onLedger (λ l, omap_err (λ e, wrapErr e "could not process registry updates") (electraProcessRegistryUpdates l)) r.1;;
      st <-? onLedger ProcessSlashings st;;
      st <-? ProcessEth1DataReset st;;
      st <-? onLedger (λ l, ProcessPendingDeposits l r.2) st;;
      st <-? onLedger ProcessPendingConsolidations st;;
      st <-? onLedger electraProcessEffectiveBalanceUpdates st;;
      processResets st
  end.

(** ** Deposits of a block *)

(** The number of deposits a block must carry; [depositCount] is that of the state's eth1 data. *)
Definition VerifyBlockDepositLength (s : Ledger) (depositCount numDeposits : Z) : outcome unit :=
  if negb (versionAtLeast Electra s)
  then Err (wrapErr (errNotSupported "DepositRequestsStartIndex") "failed to get requests start index")
  else
    let eth1DepositIndexLimit := Z.min depositCount (DepositRequestsStartIndex s) in
    if Eth1DepositIndex s <? eth1DepositIndexLimit then
      if negb (numDeposits =? Z.min MaxDeposits (eth1DepositIndexLimit - Eth1DepositIndex s))
      then Err "incorrect outstanding deposits in block body" else Ret tt
    else if negb (numDeposits =? 0) then Err "incorrect outstanding deposits in block body" else Ret tt.
End transition.

(** * Correctness of the epoch transition

    The end of an epoch keeps the state well formed: the lists that run along the registry
    stay aligned with it also when pending deposits add validators, nobody's key,
    credentials or slashing changes, the participation of the epoch moves to the previous
    one, and the slots of the rings that the next epoch uses are prepared. *)

(** ** How a stage changes the ledger *)

Definition same_identity (v v' : Validator) : Prop :=
  ValPublicKey v' = ValPublicKey v ∧ ValWithdrawalCredentials v' = ValWithdrawalCredentials v ∧ Slashed v' = Slashed v.

(** The index of keys points to validators with those keys. *)
Definition keys_ok (s : Ledger) : Prop :=
  ∀ key i, ValMap s !! key = Some i → 0 ≤ i ∧ ∃ v, Validators s !! Z.to_nat i = Some v ∧ ToBytes48 (ValPublicKey v) = key.

(** [s'] has [k] more validators than [s], without participation. *)
Record grown (s s' : Ledger) (k : nat) : Prop := {
  gr_validators : length (Validators s') = (length (Validators s) + k)%nat;
  gr_balances : length (Balances s') = (length (Balances s) + k)%nat;
  gr_scores : length (InactivityScores s') = (length (InactivityScores s) + k)%nat;
  gr_previous : PreviousEpochParticipation s' = PreviousEpochParticipation s ++ replicate k 0;
  gr_current : CurrentEpochParticipation s' = CurrentEpochParticipation s ++ replicate k 0
}.

Record evolves (s s' : Ledger) : Prop := {
  ev_slot : LedgerSlot s' = LedgerSlot s;
  ev_version : Version s' = Version s;
  ev_slashings : Slashings s' = Slashings s;
  ev_finalized : FinalizedEpoch s' = FinalizedEpoch s;
  ev_grown : ∃ k, grown s s' k;
  ev_keep : ∀ n v, Validators s !! n = Some v → ∃ v', Validators s' !! n = Some v' ∧ same_identity v v';
  ev_keys : keys_ok s → keys_ok s'
}.

Lemma grown_0 s s' :
  length (Validators s') = length (Validators s) → length (Balances s') = length (Balances s) → length (InactivityScores s') = length (InactivityScores s) →
  PreviousEpochParticipation s' = PreviousEpochParticipation s → CurrentEpochParticipation s' = CurrentEpochParticipation s → grown s s' 0.
Proof. intros. split; [lia|lia|lia|by rewrite app_nil_r|by rewrite app_nil_r]. Qed.

Lemma grown_compose s s1 s2 k l : grown s s1 k → grown s1 s2 l → grown s s2 (k + l).
Proof.
  intros [H1' H2' H3' H4' H5'] [J1 J2 J3 J4 J5].
  split; [lia|lia|lia|by rewrite J4, H4', replicate_add, app_assoc|by rewrite J5, H5', replicate_add, app_assoc].
Qed.

#[global] Instance same_identity_preorder : PreOrder same_identity.
Proof. split; [by intros v|]. intros x y z (? & ? & ?) (? & ? & ?). split_and!; congruence. Qed.

#[global] Instance evolves_preorder : PreOrder evolves.
Proof.
  split.
  - intros s. split; try done; [exists 0%nat; by apply grown_0|]. intros n v Hv. by exists v.
  - intros s s1 s2 [A1 A2 A3 A4 [k A5] A6 A7] [B1 B2 B3 B4 [l B5] B6 B7]. split; [congruence..|exists (k + l)%nat; by eapply grown_compose| |by auto].
    intros n v Hv. destruct (A6 n v Hv) as (v1 & Hv1 & ?). destruct (B6 n v1 Hv1) as (v2 & Hv2 & ?). exists v2. split; [done|by etrans].
Qed.

(** Changes of the balances, the scores or one validator. *)
Lemma evolves_balances s bs : length bs = length (Balances s) → evolves s (setBalances bs s).
Proof. intros Hl. split; try done; [exists 0%nat; by apply grown_0|]. intros n v Hv. by exists v. Qed.
Lemma evolves_scores s l : length l = length (InactivityScores s) → evolves s (setInactivityScores l s).
Proof. intros Hl. split; try done; [exists 0%nat; by apply grown_0|]. intros n v Hv. by exists v. Qed.

Lemma evolves_registry s r :
  ExitSlot r = ExitSlot (registry s) → StateVersion r = StateVersion (registry s) → Forall2 same_identity (Validators s) (StateValidators r) →
  evolves s (setRegistry r s).
Proof.
  intros Hs Hv Hf. assert (∀ n v, Validators s !! n = Some v → ∃ v', StateValidators r !! n = Some v' ∧ same_identity v v') as Hkeep.
  { intros n v Hn. by apply (Forall2_lookup_l _ _ _ _ _ Hf Hn). }
  split; try done.
  - exists 0%nat. apply grown_0; try done. symmetry. by eapply Forall2_length.
  - intros Hk key i Hi. destruct (Hk key i Hi) as (? & v & Hv' & Hkey). split; [done|]. destruct (Hkeep _ _ Hv') as (v' & Hn & Hid).
    exists v'. split; [done|]. by rewrite (proj1 Hid).
Qed.

Lemma Forall2_refl_id (l : list Validator) : Forall2 same_identity l l.
Proof. apply Forall_Forall2_diag, Forall_forall. by intros v _. Qed.
Lemma Forall2_insert_id (l : list Validator) i v v' : l !! i = Some v → same_identity v v' → Forall2 same_identity l (<[i := v']> l).
Proof.
  intros Hi Hid. rewrite <- (list_insert_id l i v Hi) at 1. apply Forall2_insert; [apply Forall2_refl_id|done].
Qed.

(** A change of other fields. *)
Lemma evolves_others s s' :
  registry s' = registry s → Balances s' = Balances s → Slashings s' = Slashings s → InactivityScores s' = InactivityScores s →
  PreviousEpochParticipation s' = PreviousEpochParticipation s → CurrentEpochParticipation s' = CurrentEpochParticipation s →
  FinalizedEpoch s' = FinalizedEpoch s → ValMap s' = ValMap s → evolves s s'.
Proof.
  intros Hr Hb Hsl Hi Hp Hc Hf Hm. unfold LedgerSlot, Version, Validators in *.
  split; unfold LedgerSlot, Version, keys_ok, Validators; rewrite ?Hr, ?Hm; try done.
  - exists 0%nat. apply grown_0; unfold Validators; by rewrite ?Hr, ?Hb, ?Hi.
  - intros n v Hv. by exists v.
Qed.

Section stages.
Context `{LedgerConfig} `{!SquareRoot} `{!DepositSignatures}.

(** ** Registry updates *)

Lemma evolves_update s i v v' s' : ValidatorAt s i = Ret v → same_identity v v' → UpdateValidatorAt s i v' = Ret s' → evolves s s'.
Proof.
  unfold ValidatorAt, ValidatorAtIndex, UpdateValidatorAt, UpdateValidatorAtIndex. intros Hv Hid.
  destruct (StateValidators (registry s) !! Z.to_nat i) as [x|] eqn:Hx; [|done]. injection Hv as ->.
  destruct (_ <? _)%nat; [|done]. intros [= <-]. apply evolves_registry; [done|done|]. by eapply Forall2_insert_id.
Qed.

Lemma updateAll_evolves f l : (∀ v, same_identity v (f v)) → ∀ s s', updateAll f l s = Ret s' → evolves s s'.
Proof.
  intros Hf. induction l as [|i l IH]; intros s s' Hr; [by injection Hr as <-|]. cbn [updateAll] in Hr.
  apply obind_ret in Hr as (v & Hv & (s1 & Hs1 & Hr)%obind_ret). etrans; [by apply (evolves_update s i v (f v))|by apply IH].
Qed.

Lemma exit_evolves s r i : exit_effect (registry s) r i → evolves s (setRegistry r s).
Proof.
  intros (Hs & Hv & [Heq|(v & e & w & Hi & Heq)]); (apply evolves_registry; [done|done|]); rewrite Heq; [apply Forall2_refl_id|].
  apply (Forall2_insert_id _ _ v); [exact Hi|done].
Qed.

Lemma ejectAll_evolves info l : ∀ s s', ejectAll info l s = Ret s' → evolves s s'.
Proof.
  induction l as [|i l IH]; intros s s' Hr; [by injection Hr as <-|]. cbn [ejectAll] in Hr.
  pose proof (InitiateExit_effect (registry s) i (info s)) as He. destruct (InitiateValidatorExit _ _ _) as [[r info'] [u|e|m|]]; [| |done..].
  - etrans; [by eapply exit_evolves|by apply IH].
  - destruct (bool_decide _); [|done]. etrans; [by eapply exit_evolves|by apply IH].
Qed.

Lemma registry_evolves s s' : ProcessRegistryUpdates s = Ret s' → evolves s s'.
Proof.
  intros (s1 & H1' & (s2 & H2' & H3')%obind_ret)%obind_ret. etrans; [eapply updateAll_evolves; [|exact H1']; by intros v|].
  etrans; [by eapply ejectAll_evolves|]. eapply updateAll_evolves; [|exact H3']. by intros v.
Qed.
Lemma electraRegistry_evolves s s' : electraProcessRegistryUpdates s = Ret s' → evolves s s'.
Proof.
  intros (s1 & H1' & (s2 & H2' & H3')%obind_ret)%obind_ret. etrans; [eapply updateAll_evolves; [|exact H1']; by intros v|].
  etrans; [by eapply ejectAll_evolves|]. eapply updateAll_evolves; [|exact H3']. by intros v.
Qed.

(** ** Balances and scores *)

Lemma inactivityLoop_length leak vals : ∀ scores r, inactivityLoop leak vals scores = Ret r → length r.2 = length scores ∧ length r.1 = length vals.
Proof.
  induction vals as [|v vals IH]; intros [|x scores] r Hr; cbn [inactivityLoop] in Hr; [by injection Hr as <-..| |].
  - destruct (EligibleForRewards v); [by apply obind_ret in Hr as (? & _ & ?)|]. apply obind_ret in Hr as (rest & Hrest & [= <-]).
    destruct (IH _ _ Hrest) as [Ha Hb]. split; [done|cbn; lia].
  - apply obind_ret in Hr as (new & _ & (rest & Hrest & [= <-])%obind_ret). destruct (IH _ _ Hrest) as [Ha Hb]. cbn. lia.
Qed.

Lemma inactivity_evolves s vals r : ProcessInactivityScores s vals = Ret r → evolves s r.1 ∧ length r.2 = length vals.
Proof.
  unfold ProcessInactivityScores. destruct (_ =? _); [by intros [= <-]|]. destruct (isPhase0 s); [done|].
  intros (res & Hres & [= <-])%obind_ret. destruct (inactivityLoop_length _ _ _ _ Hres) as [? ?]. split; [by apply evolves_scores|done].
Qed.

Lemma applyDeltas_length bs : ∀ ds vs r, applyDeltas bs ds vs = Ret r → length ds = length bs → length vs = length bs → length r.1 = length bs.
Proof.
  induction bs as [|b bs IH]; intros [|d ds] [|v vs] r Hr Hd Hv; try done; [by injection Hr as <-|].
  cbn [applyDeltas] in Hr. apply obind_ret in Hr as (b' & _ & (rest & Hrest & [= <-])%obind_ret). cbn in *. f_equal. eapply IH; [done|lia|lia].
Qed.
Lemma deltaLoop_length bal vals m d leak : ∀ r, deltaLoop bal vals m d leak = Ret r → length r = length vals.
Proof.
  induction vals as [|v vals IH]; intros r Hr; [by injection Hr as <-|]. cbn [deltaLoop] in Hr.
  apply obind_ret in Hr as (x & _ & (xs & Hxs & [= <-])%obind_ret). cbn. f_equal. by apply IH.
Qed.

Lemma rewards_evolves s bal vals r : ProcessRewardsAndPenaltiesPrecompute s bal vals = Ret r → evolves s r.1.
Proof.
  unfold ProcessRewardsAndPenaltiesPrecompute. destruct (_ =? _); [by intros [= <-]|].
  destruct (length vals =? length (Validators s))%nat; [|done]. destruct (length vals =? length (Balances s))%nat eqn:Hl; [|done]. apply Nat.eqb_eq in Hl. cbn [negb orb].
  intros (ds & Hds%omap_err_ret & (res & Hres & [= <-])%obind_ret)%obind_ret. apply evolves_balances.
  unfold AttestationsDelta in Hds. apply obind_ret in Hds as (x & _ & (y & _ & (z & _ & Hds)%obind_ret)%obind_ret).
  apply deltaLoop_length in Hds. eapply applyDeltas_length; [done|lia|lia].
Qed.

Lemma slashingsLoop_length el e t m p vs : ∀ bs r, slashingsLoop el e t m p vs bs = Ret r → length r = length bs.
Proof.
  induction vs as [|v vs IH]; intros [|b bs] r Hr; cbn [slashingsLoop] in Hr; [by injection Hr as <-..| |].
  - destruct (penaltyDue e v); [done|]. by apply IH.
  - apply obind_ret in Hr as (b' & _ & (rest & Hrest & [= <-])%obind_ret). cbn. f_equal. by apply IH.
Qed.
Lemma slashings_evolves s s' : ProcessSlashings s = Ret s' → evolves s s'.
Proof.
  intros (x & _ & (y & _ & (z & _ & (bs & Hbs & [= <-])%obind_ret)%obind_ret)%obind_ret)%obind_ret.
  apply evolves_balances. by eapply slashingsLoop_length.
Qed.

Lemma UpdateBalances_evolves s i b s' : UpdateBalancesAtIndex s i b = Ret s' → evolves s s'.
Proof. unfold UpdateBalancesAtIndex. destruct (_ <? _)%nat; [|done]. intros [= <-]. apply evolves_balances. by rewrite length_insert. Qed.
Lemma Increase_evolves s i a s' : IncreaseBalance s i a = Ret s' → evolves s s'.
Proof. intros (x & _ & (y & _ & Hr)%obind_ret)%obind_ret. by eapply UpdateBalances_evolves. Qed.
Lemma Decrease_evolves s i a s' : DecreaseBalance s i a = Ret s' → evolves s s'.
Proof. intros (x & _ & Hr)%obind_ret. by eapply UpdateBalances_evolves. Qed.

Lemma effectiveLoop_identity f vs : ∀ bs r, effectiveLoop f vs bs = Ret r → Forall2 same_identity vs r.
Proof.
  induction vs as [|v vs IH]; intros [|b bs] r Hr; cbn [effectiveLoop] in Hr; [by injection Hr as <-..|done|].
  apply obind_ret in Hr as (limit & _ & (rest & Hrest & [= <-])%obind_ret). constructor; [by case_match|by eapply IH].
Qed.
Lemma effective_evolves f s s' :
  (vs <-? effectiveLoop f (Validators s) (Balances s);; Ret (setRegistry (setValidators vs (registry s)) s)) = Ret s' → evolves s s'.
Proof. intros (vs & Hvs & [= <-])%obind_ret. apply evolves_registry; [done|done|]. by eapply effectiveLoop_identity. Qed.

(** ** The queues *)

Lemma version_evolves v s s' : evolves s s' → versionAtLeast v s' = versionAtLeast v s.
Proof. intros He. unfold versionAtLeast. by rewrite (ev_version _ _ He). Qed.

Lemma append_evolves s val a s' : versionAtLeast Altair s = true → appendToRegistry s val a = Ret s' → evolves s s'.
Proof.
  intros Hv. unfold appendToRegistry. change (versionAtLeast Altair (AppendBalance _ _)) with (versionAtLeast Altair s). rewrite Hv.
  unfold AppendInactivityScore, AppendPreviousParticipationBits, AppendCurrentParticipationBits.
  intros (s1 & ->%unsupported_ret & (s2 & ->%unsupported_ret & ->%unsupported_ret)%obind_ret)%obind_ret.
  change (AppendBalance (AppendValidator s val) a) with
    (setBalances (Balances s ++ [a]) (setValMap (<[ToBytes48 (ValPublicKey val) := Z.of_nat (length (Validators s ++ [val])) - 1]> (ValMap s))
      (setRegistry (setValidators (Validators s ++ [val]) (registry s)) s))).
  split; try done.
  - exists 1%nat. split; [by apply length_app..|done|done].
  - intros n v Hn. exists v. split; [|done]. unfold Validators. cbn. by apply lookup_app_l_Some.
  - intros Hk key i. unfold Validators. cbn [ValMap setCurrentParticipation setPreviousParticipation setInactivityScores setBalances setValMap]. rewrite lookup_insert_Some, length_app.
    cbn [length]. intros [[<- <-]|[_ Hi]].
    + split; [lia|]. exists val. split; [|done]. cbn. rewrite lookup_app_r by lia. by replace (Z.to_nat _ - _)%nat with 0%nat by lia.
    + destruct (Hk key i Hi) as (? & v & Hn & ?). split; [done|]. exists v. split; [|done]. cbn. by apply lookup_app_l_Some.
Qed.

Lemma batch_evolves all ds : ∀ s s', versionAtLeast Altair s = true → batchLoop all s ds = Ret s' → evolves s s'.
Proof.
  induction ds as [|pd ds IH]; intros s s' Hv Hr; [by injection Hr as <-|]. cbn [batchLoop] in Hr.
  apply obind_ret in Hr as (valid & _ & (s1 & Hs1 & Hr)%obind_ret). assert (evolves s s1) as He.
  { destruct (ValidatorIndexByPubkey s _) as [i|]; [by eapply Increase_evolves, omap_err_ret|]. destruct valid; [|by injection Hs1 as <-].
    apply omap_err_ret in Hs1. apply obind_ret in Hs1 as (val & _ & Hs1). by eapply append_evolves. }
  etrans; [exact He|]. apply IH; [|done]. by rewrite (version_evolves _ _ _ He).
Qed.

Lemma pendingLoop_evolves nextEpoch available finalizedSlot startIndex ds : ∀ r r',
  pendingDepositsLoop nextEpoch available finalizedSlot startIndex ds r = Ret r' → evolves (RunLedger r) (RunLedger r').
Proof.
  induction ds as [|pd ds IH]; intros r r' Hr; [by injection Hr as <-|]. cbn [pendingDepositsLoop] in Hr. cbv zeta in Hr.
  destruct (_ && _); [by injection Hr as <-|]. destruct (finalizedSlot <? _); [by injection Hr as <-|]. destruct (_ <=? nextDepositIndex r); [by injection Hr as <-|].
  apply obind_ret in Hr as ([ex wd] & _ & Hr). destruct wd.
  { apply obind_ret in Hr as (s1 & Hs1%omap_err_ret%Increase_evolves & Hr%IH). by etrans. }
  destruct ex; [by apply IH in Hr|]. destruct (available <? _); [by injection Hr as <-|]. destruct (ValidatorIndexByPubkey _ _) as [i|]; [|by apply IH in Hr].
  apply obind_ret in Hr as (s1 & Hs1%omap_err_ret%Increase_evolves & Hr%IH). by etrans.
Qed.

Lemma pending_evolves s b s' : ProcessPendingDeposits s b = Ret s' → evolves s s'.
Proof.
  unfold ProcessPendingDeposits. destruct (versionAtLeast Electra s) eqn:Hv; [|done]. cbn [negb].
  intros (fs & _ & (r & Hr%pendingLoop_evolves & (s1 & Hs1%omap_err_ret & (s2 & Hs2%omap_err_ret & Hfin)%obind_ret)%obind_ret)%obind_ret)%obind_ret.
  cbn [RunLedger] in Hr. assert (versionAtLeast Altair (RunLedger r) = true) as Ha.
  { rewrite (version_evolves _ _ _ Hr). unfold versionAtLeast in *. apply Z.leb_le in Hv. apply Z.leb_le. cbn in *. lia. }
  assert (evolves (RunLedger r) s1) as He1.
  { unfold batchProcessNewPendingDeposits in Hs1. destruct (_ =? _)%nat; [by injection Hs1 as <-|]. apply obind_ret in Hs1 as (all & _ & Hs1). by eapply batch_evolves. }
  assert (evolves s1 s2) as He2. { unfold SetPendingDeposits in Hs2. destruct (negb _); [done|]. injection Hs2 as <-. by apply evolves_others. }
  etrans; [exact Hr|]. etrans; [exact He1|]. etrans; [exact He2|].
  unfold SetDepositBalanceToConsume in Hfin. by destruct (isChurnLimitReached r), (negb _); try done; injection Hfin as <-; apply evolves_others.
Qed.

Lemma consolidations_evolves nextEpoch pcs : ∀ s n r, consolidationsLoop nextEpoch pcs s n = Ret r → evolves s r.1.
Proof.
  induction pcs as [|pc pcs IH]; intros s n r Hr; [by injection Hr as <-|]. cbn [consolidationsLoop] in Hr. apply obind_ret in Hr as (v & _ & Hr).
  destruct (Slashed v); [by eapply IH|]. destruct (nextEpoch <? _); [by injection Hr as <-|].
  apply obind_ret in Hr as (b & _ & (s1 & H1'%Decrease_evolves & (s2 & H2'%Increase_evolves & Hr%IH)%obind_ret)%obind_ret).
  etrans; [exact H1'|]. by etrans.
Qed.
Lemma pendingConsolidations_evolves s s' : ProcessPendingConsolidations s = Ret s' → evolves s s'.
Proof.
  unfold ProcessPendingConsolidations. destruct (negb _); [done|]. intros ([s1 n] & H1'%consolidations_evolves & Hr)%obind_ret. cbn [fst] in H1'.
  etrans; [exact H1'|]. destruct (0 <? n); [|by injection Hr as <-]. unfold SetPendingConsolidations in Hr. destruct (negb _); [done|].
  injection Hr as <-. by apply evolves_others.
Qed.
End stages.

(** ** The whole transition *)

Section whole.
Context `{LedgerConfig} `{!SquareRoot} `{!DepositSignatures} `{!EpochConfig} {BV : Type} `{Bitvector4 BV} {E C : Type}.
Context (nextSyncCommittee : EpochState BV E C → outcome C) (arraysRoot : list Z → outcome Z) (batchRoot : list Z → list Z → outcome Z).
Implicit Types (st : EpochState BV E C).

(** A well-formed state. *)
Record epoch_wf st : Prop := {
  ew_balances : length (Balances (EsLedger st)) = length (Validators (EsLedger st));
  ew_scores : length (InactivityScores (EsLedger st)) = length (Validators (EsLedger st));
  ew_previous : length (PreviousEpochParticipation (EsLedger st)) = length (Validators (EsLedger st));
  ew_current : length (CurrentEpochParticipation (EsLedger st)) = length (Validators (EsLedger st));
  ew_keys : keys_ok (EsLedger st);
  ew_slashings : Z.of_nat (length (Slashings (EsLedger st))) = EpochsPerSlashingsVector;
  ew_randao : Z.of_nat (length (EsRandaoMixes st)) = EpochsPerHistoricalVector;
  ew_slot : StateSlot (EsFinality st) = LedgerSlot (EsLedger st);
  ew_finalized : FinalizedEpoch (EsLedger st) = CheckpointEpoch (FinalizedCheckpoint (EsFinality st))
}.

(** The parts other than the ledger and the sync committees and historical roots. *)
Definition same_rest st st' : Prop := EsFinality st' = EsFinality st ∧ EsRandaoMixes st' = EsRandaoMixes st.

Lemma onLedger_run f st st' : onLedger f st = Ret st' → f (EsLedger st) = Ret (EsLedger st') ∧ same_rest st st'.
Proof. intros (l & Hl & [= <-])%obind_ret. done. Qed.

Lemma justification_slot s b (f : BeaconState BV) : ProcessJustificationAndFinalizationPreCompute s b = Ret f → StateSlot f = StateSlot s.
Proof.
  intros (x & _ & Hr)%obind_ret. destruct (_ <=? _); [by injection Hr as <-|]. unfold weighJustificationAndFinalization in Hr.
  apply obind_ret in Hr as ([jc fc] & _ & [= <-]). done.
Qed.

(** Justification runs on the balances of the participants, and rewards on the new finality. *)
Lemma processBalances_run st r :
  processBalances st = Ret r → ∃ bal, ProcessJustificationAndFinalizationPreCompute (EsFinality st) bal = Ret (EsFinality r.1) ∧
    let l := setFinalizedEpoch (CheckpointEpoch (FinalizedCheckpoint (EsFinality r.1))) (EsLedger st) in
    epochRewards l = Ret (EsLedger r.1) ∧ evolves l (EsLedger r.1) ∧ EsRandaoMixes r.1 = EsRandaoMixes st.
Proof.
  intros (p & Hp & (pp & Hpp & Hr)%obind_ret)%obind_ret. destruct pp as [vp bp].
  apply obind_ret in Hr as (f & Hf%omap_err_ret & (q & Hq%omap_err_ret & (st1 & (Hl1 & Hf1 & Hm1)%onLedger_run & (st2 & (Hl2 & Hf2 & Hm2)%onLedger_run & [= <-])%obind_ret)%obind_ret)%obind_ret).
  apply obind_ret in Hl2 as (res & Hres%omap_err_ret & [= Hl2]). injection Hl1 as Hl1. cbn [fst snd]. cbn [setFinality EsFinality EsRandaoMixes EsLedger] in *.
  exists (finalityBalance bp). rewrite Hf2, Hf1, Hm2, Hm1. split; [done|]. cbv zeta. split_and!; [| |done].
  - unfold epochRewards. change (InitializePrecomputeValidators (setFinalizedEpoch _ _)) with (InitializePrecomputeValidators (EsLedger st)). rewrite Hp. cbn [obind].
    change (ProcessEpochParticipation (setFinalizedEpoch _ _)) with (ProcessEpochParticipation (EsLedger st)). rewrite Hpp. cbn [obind]. rewrite Hq. cbn [obind].
    destruct q as [l q2]. cbn [fst snd] in *. subst l. rewrite Hres. cbn [obind]. by rewrite Hl2.
  - destruct (inactivity_evolves _ _ _ Hq) as [He _]. rewrite Hl1 in He. etrans; [exact He|]. rewrite <- Hl2. by eapply rewards_evolves.
Qed.

(** What a well-formed state has after the transition. *)
Record transitioned st st' (k : nat) : Prop := {
  tr_size : length (Validators (EsLedger st')) = (length (Validators (EsLedger st)) + k)%nat;
  tr_keep : ∀ n v, Validators (EsLedger st) !! n = Some v → ∃ v', Validators (EsLedger st') !! n = Some v' ∧ same_identity v v';
  tr_previous : PreviousEpochParticipation (EsLedger st') = CurrentEpochParticipation (EsLedger st) ++ replicate k 0;
  tr_current : CurrentEpochParticipation (EsLedger st') = replicate (length (Validators (EsLedger st')) ) 0;
  tr_slashings : Slashings (EsLedger st') = <[Z.to_nat ((LedgerEpoch (EsLedger st) +w 1) mod EpochsPerSlashingsVector) := 0]> (Slashings (EsLedger st));
  tr_randao : ∃ mix, EsRandaoMixes st !! Z.to_nat (LedgerEpoch (EsLedger st) mod EpochsPerHistoricalVector) = Some mix ∧
    EsRandaoMixes st' = <[Z.to_nat ((LedgerEpoch (EsLedger st) +w 1) mod EpochsPerHistoricalVector) := mix]> (EsRandaoMixes st)
}.

(** The middle of the transition only evolves the ledger. *)
Lemma resets_run st0 st1 st' k :
  grown (EsLedger st0) (EsLedger st1) k → evolves (setFinalizedEpoch (CheckpointEpoch (FinalizedCheckpoint (EsFinality st1))) (EsLedger st0)) (EsLedger st1) →
  EsRandaoMixes st1 = EsRandaoMixes st0 → StateSlot (EsFinality st1) = StateSlot (EsFinality st0) →
  epoch_wf st0 → processResets nextSyncCommittee arraysRoot batchRoot st1 = Ret st' →
  epoch_wf st' ∧ EsFinality st' = EsFinality st1 ∧ transitioned st0 st' k.
Proof.
  intros [G1 G2 G3 G4 G5] [Es Ev Esl Ef _ Ek Eks] Hm Hslot [W1 W2 W3 W4 W5 W6 W7 W8 W9] Hr.
  apply obind_ret in Hr as (s2 & (Hl2 & Hf2 & Hm2)%onLedger_run & (s3 & Hs3 & (s4 & Hs4 & (s5 & (Hl5 & Hf5 & Hm5)%onLedger_run & Hs5)%obind_ret)%obind_ret)%obind_ret).
  unfold ProcessSlashingsReset, UpdateSlashingsAtIndex in Hl2. destruct (negb _); [done|]. destruct (_ <=? _); [done|]. injection Hl2 as Hl2.
  unfold ProcessRandaoMixesReset, RandaoMix in Hs3. destruct (negb _); [done|]. destruct (EsRandaoMixes s2 !! _) as [mix|] eqn:Hmix; [|done]. injection Hs3 as Hs3.
  assert (EsLedger s4 = EsLedger s3 ∧ same_rest s3 s4) as (Hl4 & Hf4 & Hm4).
  { unfold ProcessHistoricalDataUpdate in Hs4. apply obind_ret in Hs4 as (x & _ & (y & _ & Hs4)%obind_ret). destruct (negb _); [by injection Hs4 as <-|].
    destruct (versionAtLeast _ _); [apply obind_ret in Hs4 as (br & _ & (sr & _ & [= <-])%obind_ret)|apply obind_ret in Hs4 as (br & _ & [= <-])]; done. }
  unfold ProcessParticipationFlagUpdates in Hl5. apply unsupported_ret in Hl5.
  assert (EsLedger st' = EsLedger s5 ∧ same_rest s5 st') as (Hl6 & Hf6 & Hm6).
  { unfold ProcessSyncCommitteeUpdates in Hs5. destruct (negb _); [by injection Hs5 as <-|]. destruct (isPhase0 _); [done|]. apply obind_ret in Hs5 as (nx & _ & [= <-]). done. }
  subst s3. cbn [EsLedger EsFinality EsRandaoMixes] in Hl4, Hf4, Hm4.
  assert (EsLedger st' = setCurrentParticipation (replicate (length (Validators (EsLedger st1))) 0) (setPreviousParticipation (CurrentEpochParticipation (EsLedger st1))
    (setSlashings (<[Z.to_nat ((LedgerEpoch (EsLedger st1) +w 1) mod EpochsPerSlashingsVector) := 0]> (Slashings (EsLedger st1))) (EsLedger st1)))) as HL.
  { rewrite Hl6, Hl5, Hl4, <- Hl2. done. }
  assert (LedgerEpoch (EsLedger st1) = LedgerEpoch (EsLedger st0)) as Hep by (unfold LedgerEpoch; rewrite Es; done).
  assert (EsFinality st' = EsFinality st1) as HF by congruence. rewrite <- Hl2 in Hm4, Hmix. rewrite Hm2, Hm in Hm4, Hmix.
  change (LedgerEpoch (setSlashings _ _)) with (LedgerEpoch (EsLedger st1)) in Hm4, Hmix. rewrite Hep in Hm4, Hmix.
  split_and!; [|done|].
  - split; rewrite ?HL; unfold keys_ok, Validators in *; cbn [setCurrentParticipation setPreviousParticipation setSlashings Balances InactivityScores registry PreviousEpochParticipation
      CurrentEpochParticipation Slashings FinalizedEpoch ValMap]; try lia.
    + rewrite G5, length_app, length_replicate. unfold Validators in *. lia.
    + by rewrite length_replicate.
    + apply Eks. exact W5.
    + rewrite length_insert, Esl. exact W6.
    + rewrite Hm6, Hm5, Hm4, length_insert. exact W7.
    + rewrite HF, Hslot, W8. symmetry. exact Es.
    + rewrite HF. exact Ef.
  - split; rewrite ?HL; unfold Validators in *; cbn [setCurrentParticipation setPreviousParticipation setSlashings Balances registry PreviousEpochParticipation CurrentEpochParticipation Slashings].
    + exact G1.
    + exact Ek.
    + exact G5.
    + done.
    + rewrite Hep, Esl. done.
    + exists mix. rewrite Hm6, Hm5, Hm4. done.
Qed.

Lemma eth1Reset_run st st' : ProcessEth1DataReset st = Ret st' → EsLedger st' = EsLedger st ∧ same_rest st st'.
Proof. unfold ProcessEth1DataReset. by case_match; intros [= <-]. Qed.

(** The ledger of the state that the resets start from. *)
Lemma middle_run st r st1 :
  epoch_wf st → processBalances st = Ret r → evolves (EsLedger r.1) (EsLedger st1) → same_rest r.1 st1 →
  ∀ st', processResets nextSyncCommittee arraysRoot batchRoot st1 = Ret st' →
  epoch_wf st' ∧ (∃ k, transitioned st st' k) ∧
  ∃ bal, ProcessJustificationAndFinalizationPreCompute (EsFinality st) bal = Ret (EsFinality st') ∧
    epochRewards (setFinalizedEpoch (CheckpointEpoch (FinalizedCheckpoint (EsFinality st'))) (EsLedger st)) = Ret (EsLedger r.1).
Proof.
  intros Hwf (bal & Hj & Hrw & He & Hm)%processBalances_run He1 [Hf1 Hm1] st' Hr.
  assert (evolves (setFinalizedEpoch (CheckpointEpoch (FinalizedCheckpoint (EsFinality st1))) (EsLedger st)) (EsLedger st1)) as Hev by (rewrite Hf1; by etrans).
  destruct (ev_grown _ _ Hev) as [k [G1 G2 G3 G4 G5]].
  destruct (resets_run st st1 st' k) as (Hwf' & Hf' & Ht); [by split|done|congruence|rewrite Hf1; by eapply justification_slot|done|done|].
  split_and!; [done|by exists k|]. exists bal. rewrite Hf', Hf1. done.
Qed.

(** C4. The end of an epoch keeps the state well formed, before and after Electra.  From a
    state whose balances, scores and participation run along the registry, whose index of
    keys is right and whose rings have their lengths, a transition that returns leaves such
    a state: validators added by pending deposits get an entry in every list, nobody's
    key, credentials or slashing changes, the participation of the epoch becomes that of
    the previous epoch and the new one is empty, the slashings of the next epoch are
    cleared and its randao mix starts from the current one.  Finality is decided from the
    participation first, and the rewards are those of the new finalized epoch. *)
Theorem epoch_transition_sound (electra : bool) st st' :
  epoch_wf st →
  (if electra then electraProcessEpoch nextSyncCommittee arraysRoot batchRoot (Some st)
   else altairProcessEpoch nextSyncCommittee arraysRoot batchRoot (Some st)) = Ret st' →
  epoch_wf st' ∧ (∃ k, transitioned st st' k) ∧
  ∃ r bal, processBalances st = Ret r ∧ ProcessJustificationAndFinalizationPreCompute (EsFinality st) bal = Ret (EsFinality st') ∧
    epochRewards (setFinalizedEpoch (CheckpointEpoch (FinalizedCheckpoint (EsFinality st'))) (EsLedger st)) = Ret (EsLedger r.1).
Proof.
  intros Hwf Hrun.
  assert (∃ r st1, processBalances st = Ret r ∧ evolves (EsLedger r.1) (EsLedger st1) ∧ same_rest r.1 st1 ∧
    processResets nextSyncCommittee arraysRoot batchRoot st1 = Ret st') as (r & st1 & Hb & He & Hsame & Hres).
  { destruct electra; apply obind_ret in Hrun as (r & Hr & (s1 & (H1' & F1 & M1)%onLedger_run & (s2 & (H2' & F2 & M2)%onLedger_run & (s3 & (H3' & F3 & M3)%eth1Reset_run & Hrun)%obind_ret)%obind_ret)%obind_ret).
    - apply obind_ret in Hrun as (s4 & (H4' & F4 & M4)%onLedger_run & (s5 & (H5' & F5 & M5)%onLedger_run & (s6 & (H6' & F6 & M6)%onLedger_run & Hrun)%obind_ret)%obind_ret).
      exists r, s6. split_and!; [done| |split; congruence|done].
      etrans; [by eapply electraRegistry_evolves, omap_err_ret|]. etrans; [by eapply slashings_evolves|]. rewrite <- H3'.
      etrans; [by eapply pending_evolves|]. etrans; [by eapply pendingConsolidations_evolves|]. by eapply effective_evolves.
    - apply obind_ret in Hrun as (s4 & (H4' & F4 & M4)%onLedger_run & Hrun). exists r, s4. split_and!; [done| |split; congruence|done].
      etrans; [by eapply registry_evolves, omap_err_ret|]. etrans; [by eapply slashings_evolves|]. rewrite <- H3'. by eapply effective_evolves. }
  destruct (middle_run st r st1 Hwf Hb He Hsame st' Hres) as (Hwf' & Hk & bal & Hj & Hrw).
  split_and!; [done|done|]. by exists r, bal.
Qed.
End whole.

(** ** A sample *)

(** [sampleLedger] at the last slot of epoch 100. *)
Definition epochLedger : Ledger :=
  setRegistry (mkExitState (Validators sampleLedger) 3231 Electra 0 0 0 0) sampleLedger.
Definition sampleEpochState : EpochState Z Z Z :=
  mkEpochState Z Z Z epochLedger (mkBeaconState 3231 15 (mkEthCheckpoint 98 1) (mkEthCheckpoint 99 1) (mkEthCheckpoint 98 1) (replicate 8192 1))
    [] [7] (replicate 65536 5) [] [] 1 2.

Lemma epochLedger_keys : keys_ok epochLedger.
Proof.
  intros key i Hi. change (ValMap epochLedger) with (ValMap sampleLedger) in Hi. cbn [ValMap sampleLedger] in Hi. rewrite !lookup_insert_Some, lookup_singleton_Some in Hi.
  destruct Hi as [[<- <-]|[_ [[<- <-]|[_ [[<- <-]|[_ [<- <-]]]]]]]; (split; [done|]; eexists; split; [reflexivity|reflexivity]).
Qed.

Lemma epoch_transition_sound_witness :
  ∃ st', @electraProcessEpoch _ mainnetLedgerConfig sampleSqrt sampleSignatures mainnetEpochConfig Z byteBits Z Z (λ _, Ret 9) (λ _, Ret 0) (λ _ _, Ret 0)
      (Some sampleEpochState) = Ret st' ∧ @epoch_wf mainnetBeaconConfig mainnetEpochConfig Z Z Z st'.
Proof.
  destruct (returned_ret (@electraProcessEpoch _ mainnetLedgerConfig sampleSqrt sampleSignatures mainnetEpochConfig Z byteBits Z Z (λ _, Ret 9) (λ _, Ret 0) (λ _ _, Ret 0)
    (Some sampleEpochState))) as [st' Hrun]; [vm_compute; reflexivity|].
  exists st'. split; [exact Hrun|].
  apply (@epoch_transition_sound _ mainnetLedgerConfig sampleSqrt sampleSignatures mainnetEpochConfig Z byteBits Z Z (λ _, Ret 9) (λ _, Ret 0) (λ _ _, Ret 0) true sampleEpochState st');
    [|exact Hrun].
  split; [reflexivity|reflexivity|reflexivity|reflexivity|exact epochLedger_keys|vm_compute; reflexivity|vm_compute; reflexivity|reflexivity|reflexivity].
Defined.
