(* ===== verification/BlockOperations.v ===== *)
(** * Sync aggregates and votes for eth1 data

    Models the sync aggregate of a block ([beacon-chain/core/altair/block.go]) and the votes
    for eth1 data ([beacon-chain/core/blocks/eth1_data.go]).  The code pays the proposer
    once for all participants, where the specification pays after each of them: the first
    theorem is that this makes no difference unless a penalty empties the proposer's own
    balance.  The second is that eth1 data changes exactly when a majority of the slots of
    a voting period has voted for it, which only one candidate can reach. *)

From S2P Require Import Prelude MathHelper Primitives SlotTime Shuffle Committee ExitQueue Bytes Ledger Participation RewardsCorrect PendingDeposits EpochTransition.

(** ** Sync aggregates *)

Class SyncConfig `{LedgerConfig} := {
  SyncRewardWeight : Z;
  SyncCommitteeSize : Z;
  sync_range : 0 < SyncRewardWeight ∧ ProposerWeight + SyncRewardWeight ≤ WeightDenominator ∧ 0 < SyncCommitteeSize < two32
}.
#[program] Definition mainnetSyncConfig : @SyncConfig mainnetBeaconConfig mainnetLedgerConfig := {| SyncRewardWeight := 2; SyncCommitteeSize := 512 |}.
Solve Obligations with (cbn; unfold two32; lia).

Section sync.
Context `{LedgerConfig} `{!SquareRoot} `{!SyncConfig}.

(** The reward of the proposer for a participant, and of the participant. *)
Definition SyncRewards (activeBalance : Z) : outcome (Z * Z) :=
  let totalActiveIncrements := activeBalance / EffectiveBalanceIncrement in
  baseRewardPerInc <-? BaseRewardPerIncrement activeBalance;;
  let totalBaseRewards := baseRewardPerInc *w totalActiveIncrements in
  let maxParticipantRewards := totalBaseRewards *w SyncRewardWeight / WeightDenominator / SlotsPerEpoch in
  let participantReward := maxParticipantRewards / SyncCommitteeSize in
  let proposerReward := participantReward *w ProposerWeight / (WeightDenominator -w ProposerWeight) in
  Ret (proposerReward, participantReward).

(** [bls.PublicKeyFromBytes], [helpers.BeaconProposerIndex] and [VerifySyncCommitteeSig]. *)
Context {PK : Type} (PublicKeyFromBytes : list Z → error + PK) (proposer : Ledger → outcome Z) (VerifySyncCommitteeSig : Ledger → list PK → list Z → outcome unit).

Record SyncRun := mkSyncRun { SyncLedger : Ledger; votedKeys : list PK; earnedProposerReward : Z }.

(** The loop over the bits; [committeeKeys[i]] has been checked to exist. *)
Fixpoint syncLoop (proposerReward participantReward : Z) (committeeKeys : list (list Z)) (bits : list bool) (r : SyncRun) : outcome SyncRun :=
  match bits, committeeKeys with
  | [], _ => Ret r
  | _ :: _, [] => Panic "index out of range"
  | bit :: bits, key :: committeeKeys =>
      match ValidatorIndexByPubkey (SyncLedger r) (ToBytes48 key) with
      | None => Err "validator public key does not exist in state"
      | Some vIdx =>
          r <-? (if bit : bool then
                   match PublicKeyFromBytes key with
                   | inl err => Err err
                   | inr pubKey =>
                       s <-? IncreaseBalance (SyncLedger r) vIdx participantReward;;
                       Ret (mkSyncRun s (votedKeys r ++ [pubKey]) (earnedProposerReward r +w proposerReward))
                   end
                 else s <-? DecreaseBalance (SyncLedger r) vIdx participantReward;; Ret (mkSyncRun s (votedKeys r) (earnedProposerReward r)));;
          syncLoop proposerReward participantReward committeeKeys bits r
      end
  end.

(** [committee] has the keys of the current sync committee; [None] is a nil committee. *)
Definition processSyncAggregate (s : Ledger) (committee : option (list (list Z))) (bits : list bool) : outcome SyncRun :=
  if isPhase0 s then Err (errNotSupported "CurrentSyncCommittee") else
  match committee with
  | None => Err "nil current sync committee in state"
  | Some committeeKeys =>
      if (length committeeKeys <? length bits)%nat then Err "bits length exceeds committee length" else
      rewards <-? SyncRewards (TotalActiveBalance (registry s));;
      let '(proposerReward, participantReward) := rewards in
      proposerIndex <-? proposer s;;
      r <-? syncLoop proposerReward participantReward committeeKeys bits (mkSyncRun s [] 0);;
      s <-? IncreaseBalance (SyncLedger r) proposerIndex (earnedProposerReward r);;
      Ret (mkSyncRun s (votedKeys r) (earnedProposerReward r))
  end.

Definition ProcessSyncAggregate (s : Ledger) (committee : option (list (list Z))) (bits : list bool) (signature : list Z) : outcome (Ledger * Z) :=
  r <-? omap_err (λ e, wrapErr e "could not filter sync committee votes") (processSyncAggregate s committee bits);;
  _ <-? omap_err (λ e, wrapErr e "could not verify sync committee signature") (VerifySyncCommitteeSig (SyncLedger r) (votedKeys r) signature);;
  Ret (SyncLedger r, earnedProposerReward r).

(** ** The specification's loop on the balances

    A member of the committee is its position in the registry and its bit. *)
Abbreviation Member := (nat * bool)%type.

Definition pay (i : nat) (a : Z) (bs : list Z) : list Z := alter (λ b, b + a) i bs.
Definition fine (i : nat) (a : Z) (bs : list Z) : list Z := alter (λ b, Z.max 0 (b - a)) i bs.

Definition memberStep (participant : Z) (bs : list Z) (x : Member) : list Z := if x.2 then pay x.1 participant bs else fine x.1 participant bs.
Definition specStep (p : nat) (proposer_ participant : Z) (bs : list Z) (x : Member) : list Z :=
  if x.2 then pay p proposer_ (pay x.1 participant bs) else fine x.1 participant bs.

(** What [process_sync_aggregate] does to the balances, and what the code does before it
    pays the proposer. *)
Definition specSync (p : nat) (proposer_ participant : Z) (xs : list Member) (bs : list Z) : list Z := foldl (specStep p proposer_ participant) bs xs.
Definition membersOnly (participant : Z) (xs : list Member) (bs : list Z) : list Z := foldl (memberStep participant) bs xs.

Definition participants (xs : list Member) : Z := Zsum (map (λ x : Member, if x.2 then 1 else 0) xs).
Definition absences (p : nat) (xs : list Member) : Z := Zsum (map (λ x : Member, if bool_decide (x.1 = p) && negb x.2 then 1 else 0) xs).

Lemma participants_nonneg xs : 0 ≤ participants xs ≤ Z.of_nat (length xs).
Proof. unfold participants. induction xs as [|[i []] xs IH]; [done|..]; cbn [map length snd]; rewrite Zsum_cons; lia. Qed.
Lemma absences_nonneg p xs : 0 ≤ absences p xs.
Proof. unfold absences. induction xs as [|[i b] xs IH]; [done|]. cbn [map fst snd]. rewrite Zsum_cons. case_match; lia. Qed.

Lemma lookup_pay i a bs j : pay i a bs !! j = (λ b, if decide (j = i) then b + a else b) <$> bs !! j.
Proof.
  unfold pay. case_decide as Hj; [subst; by rewrite list_lookup_alter_eq|]. rewrite list_lookup_alter_ne by done. by destruct (bs !! j).
Qed.
Lemma lookup_fine i a bs j : fine i a bs !! j = (λ b, if decide (j = i) then Z.max 0 (b - a) else b) <$> bs !! j.
Proof.
  unfold fine. case_decide as Hj; [subst; by rewrite list_lookup_alter_eq|]. rewrite list_lookup_alter_ne by done. by destruct (bs !! j).
Qed.

(** Paying the proposer commutes with a member's reward, and with its penalty when the
    penalty does not empty the proposer's balance. *)
Lemma pay_memberStep p a participant x bs b :
  0 ≤ a → bs !! p = Some b → (if bool_decide (x.1 = p) && negb x.2 then participant else 0) ≤ b →
  memberStep participant (pay p a bs) x = pay p a (memberStep participant bs x).
Proof.
  intros Ha Hb Hroom. apply list_eq. intros j. destruct x as [i []]; cbn [memberStep fst snd] in *; unfold memberStep; cbn [fst snd].
  - rewrite !lookup_pay. destruct (bs !! j); cbn; [|done]. f_equal. repeat case_decide; lia.
  - rewrite lookup_fine, !lookup_pay, lookup_fine. destruct (bs !! j) as [c|] eqn:Hj; cbn; [|done]. f_equal. repeat case_decide; subst; try lia.
    rewrite bool_decide_eq_true_2 in Hroom by done. cbn in Hroom. assert (c = b) by congruence. lia.
Qed.

Lemma pay_pay p a b bs : pay p a (pay p b bs) = pay p (b + a) bs.
Proof. apply list_eq. intros j. rewrite !lookup_pay. destruct (bs !! j); cbn; [|done]. f_equal. case_decide; lia. Qed.
Lemma pay_0 p bs : pay p 0 bs = bs.
Proof. apply list_eq. intros j. rewrite lookup_pay. destruct (bs !! j); cbn; [|done]. f_equal. case_decide; lia. Qed.

(** The proposer's balance after a step still covers its later absences. *)
Lemma memberStep_room p participant x xs bs b :
  0 ≤ participant → bs !! p = Some b → participant * absences p (x :: xs) ≤ b →
  (if bool_decide (x.1 = p) && negb x.2 then participant else 0) ≤ b ∧
  ∃ b', memberStep participant bs x !! p = Some b' ∧ participant * absences p xs ≤ b'.
Proof.
  intros Hp Hb Hroom. unfold absences in *. cbn [map] in Hroom. rewrite Zsum_cons in Hroom. pose proof (absences_nonneg p xs) as Hn. unfold absences in Hn.
  destruct x as [i []]; unfold memberStep; cbn [fst snd negb] in *; rewrite ?andb_false_r, ?andb_true_r in *.
  - split; [nia|]. rewrite lookup_pay, Hb. eexists. split; [reflexivity|]. case_decide; lia.
  - case_bool_decide as Hi; [split; [nia|]|split; [nia|]]; rewrite lookup_fine, Hb; (eexists; split; [reflexivity|]); case_decide; try congruence; lia.
Qed.

Lemma membersOnly_pay p a participant xs : ∀ bs b,
  0 ≤ a → 0 ≤ participant → bs !! p = Some b → participant * absences p xs ≤ b →
  membersOnly participant xs (pay p a bs) = pay p a (membersOnly participant xs bs).
Proof.
  induction xs as [|x xs IH]; intros bs b Ha Hp Hb Hroom; [done|]. destruct (memberStep_room p participant x xs bs b) as (Hstep & b' & Hb' & Hroom'); [done..|].
  unfold membersOnly. cbn [foldl]. rewrite (pay_memberStep p a participant x bs b) by done. by apply (IH _ b').
Qed.

(** The proposer may be paid at the end. *)
Lemma specSync_members p q participant xs : ∀ bs b,
  0 ≤ q → 0 ≤ participant → bs !! p = Some b → participant * absences p xs ≤ b →
  specSync p q participant xs bs = pay p (q * participants xs) (membersOnly participant xs bs).
Proof.
  induction xs as [|x xs IH]; intros bs b Hq Hp Hb Hroom.
  - unfold participants. cbn. by rewrite Z.mul_0_r, pay_0.
  - destruct (memberStep_room p participant x xs bs b) as (_ & b' & Hb' & Hroom'); [done..|].
    change (specSync p q participant (x :: xs) bs) with (specSync p q participant xs (specStep p q participant bs x)).
    change (membersOnly participant (x :: xs) bs) with (membersOnly participant xs (memberStep participant bs x)).
    change (participants (x :: xs)) with ((if x.2 then 1 else 0) + participants xs). destruct x as [i []]; cbn [snd].
    + change (specStep p q participant bs (i, true)) with (pay p q (memberStep participant bs (i, true))).
      rewrite (IH _ (b' + q)); [|done|done|rewrite lookup_pay, Hb'; cbn; f_equal; case_decide; [lia|done]|lia].
      rewrite (membersOnly_pay _ _ _ _ _ b'), pay_pay by done. f_equal. lia.
    + change (specStep p q participant bs (i, false)) with (memberStep participant bs (i, false)). by rewrite (IH _ b').
Qed.

(** ** The run *)

(** The members of the committee that the bits speak of. *)
Fixpoint membersOf (s : Ledger) (keys : list (list Z)) (bits : list bool) : option (list Member) :=
  match bits, keys with
  | [], _ => Some []
  | bit :: bits, key :: keys =>
      match ValidatorIndexByPubkey s (ToBytes48 key), membersOf s keys bits with
      | Some i, Some xs => Some ((Z.to_nat i, bit) :: xs)
      | _, _ => None
      end
  | _, [] => None
  end.
(** The keys whose bits are set. *)
Fixpoint chosen (keys : list (list Z)) (bits : list bool) : list (list Z) :=
  match bits, keys with
  | true :: bits, key :: keys => key :: chosen keys bits
  | false :: bits, _ :: keys => chosen keys bits
  | _, _ => []
  end.

Lemma membersOf_balances bs s keys bits : membersOf (setBalances bs s) keys bits = membersOf s keys bits.
Proof. revert keys. induction bits as [|b bits IH]; intros [|k keys]; [done..|]. cbn [membersOf]. by rewrite IH. Qed.

(** Every balance is at most [M]. *)
Definition capped (M : Z) (bs : list Z) : Prop := Forall (λ b, 0 ≤ b ≤ M) bs.

Lemma capped_pay M i a bs : 0 ≤ a → capped M bs → capped (M + a) (pay i a bs).
Proof.
  intros Ha Hb. apply Forall_lookup. intros j c Hc. rewrite lookup_pay in Hc. destruct (bs !! j) as [d|] eqn:Hd; [|done]. injection Hc as <-.
  pose proof (Forall_lookup_1 _ _ _ _ Hb Hd) as Hr. cbn in Hr. case_decide; lia.
Qed.
Lemma capped_fine M i a bs : 0 ≤ a → capped M bs → capped M (fine i a bs).
Proof.
  intros Ha Hb. apply Forall_lookup. intros j c Hc. rewrite lookup_fine in Hc. destruct (bs !! j) as [d|] eqn:Hd; [|done]. injection Hc as <-.
  pose proof (Forall_lookup_1 _ _ _ _ Hb Hd) as Hr. cbn in Hr. case_decide; lia.
Qed.
Lemma capped_mono M N bs : M ≤ N → capped M bs → capped N bs.
Proof. intros HMN Hb. eapply Forall_impl; [exact Hb|]. cbn. lia. Qed.

Lemma memberStep_length participant bs x : length (memberStep participant bs x) = length bs.
Proof. unfold memberStep, pay, fine. case_match; apply length_alter. Qed.
Lemma membersOnly_length participant xs bs : length (membersOnly participant xs bs) = length bs.
Proof. revert bs. induction xs as [|x xs IH]; intros bs; [done|]. cbn. unfold membersOnly in IH. by rewrite IH, memberStep_length. Qed.

Lemma capped_step M participant bs x : 0 ≤ participant → capped M bs → capped (M + participant) (memberStep participant bs x).
Proof. intros Hp Hb. unfold memberStep. case_match; [by apply capped_pay|]. eapply capped_mono; [|by apply capped_fine]. lia. Qed.

Lemma Increase_pay bs s i a M :
  capped M bs → 0 ≤ a → M + a < two64 → (Z.to_nat i < length bs)%nat → IncreaseBalance (setBalances bs s) i a = Ret (setBalances (pay (Z.to_nat i) a bs) s).
Proof.
  intros Hc Ha HM Hi. destruct (lookup_lt_is_Some_2 _ _ Hi) as [b Hb]. pose proof (Forall_lookup_1 _ _ _ _ Hc Hb) as Hr. cbn in Hr.
  rewrite (IncreaseBalance_run _ _ b); [|done|unfold is_u64; lia|unfold is_u64; lia|lia]. cbn [Balances setBalances]. unfold pay. by rewrite (alter_insert_at _ _ b).
Qed.
Lemma Decrease_fine bs s i a M :
  capped M bs → 0 ≤ a < two64 → M < two64 → (Z.to_nat i < length bs)%nat → DecreaseBalance (setBalances bs s) i a = Ret (setBalances (fine (Z.to_nat i) a bs) s).
Proof.
  intros Hc Ha HM Hi. destruct (lookup_lt_is_Some_2 _ _ Hi) as [b Hb]. pose proof (Forall_lookup_1 _ _ _ _ Hc Hb) as Hr. cbn in Hr.
  rewrite (DecreaseBalance_run _ _ b); [|done|unfold is_u64; lia|unfold is_u64; lia]. cbn [Balances setBalances]. unfold fine. by rewrite (alter_insert_at _ _ b).
Qed.

Lemma syncLoop_run q participant s : ∀ bits keys xs bs M vk e,
  membersOf s keys bits = Some xs → (∀ k, k ∈ keys → ∃ pk, PublicKeyFromBytes k = inr pk) → (∀ x, x ∈ xs → (x.1 < length bs)%nat) →
  capped M bs → 0 ≤ participant → 0 ≤ q → 0 ≤ e → M + participant * Z.of_nat (length xs) < two64 → e + q * Z.of_nat (length xs) < two64 → participant < two64 → M < two64 →
  ∃ pks, syncLoop q participant keys bits (mkSyncRun (setBalances bs s) vk e) =
      Ret (mkSyncRun (setBalances (membersOnly participant xs bs) s) (vk ++ pks) (e + q * participants xs)) ∧
    Forall2 (λ k pk, PublicKeyFromBytes k = inr pk) (chosen keys bits) pks ∧ capped (M + participant * Z.of_nat (length xs)) (membersOnly participant xs bs).
Proof.
  induction bits as [|bit bits IH]; intros keys xs bs M vk e Hm Hk Hx Hc Hp Hq He HM He' Hp' HM'.
  - assert (xs = []) as -> by (destruct keys; cbn in Hm; by injection Hm). exists []. cbn [syncLoop chosen length Z.of_nat]. unfold participants. cbn. rewrite app_nil_r, !Z.mul_0_r, !Z.add_0_r. split_and!; [by destruct keys|destruct keys; constructor|done].
  - destruct keys as [|k keys]; [done|]. cbn [membersOf] in Hm. destruct (ValidatorIndexByPubkey s (ToBytes48 k)) as [i|] eqn:Hi; [|done]. destruct (membersOf s keys bits) as [ys|] eqn:Hys; [|done].
    injection Hm as <-. cbn [length] in HM, He'. rewrite Nat2Z.inj_succ in HM, He'. assert (Z.to_nat i < length bs)%nat as Hlt by (apply (Hx (Z.to_nat i, bit)); left).
    cbn [syncLoop]. change (ValidatorIndexByPubkey (SyncLedger (mkSyncRun (setBalances bs s) vk e)) (ToBytes48 k)) with (ValidatorIndexByPubkey s (ToBytes48 k)). rewrite Hi. cbn [SyncLedger votedKeys earnedProposerReward].
    change (membersOnly participant ((Z.to_nat i, bit) :: ys) bs) with (membersOnly participant ys (memberStep participant bs (Z.to_nat i, bit))).
    change (participants ((Z.to_nat i, bit) :: ys)) with ((if bit then 1 else 0) + participants ys). pose proof (participants_nonneg ys) as Hn.
    assert (∀ x, x ∈ ys → (x.1 < length (memberStep participant bs (Z.to_nat i, bit)))%nat) as Hx'. { intros x Hin. rewrite memberStep_length. apply Hx. by right. }
    assert (∀ k', k' ∈ keys → ∃ pk, PublicKeyFromBytes k' = inr pk) as Hk' by (intros k' Hin; apply Hk; by right).
    pose proof (capped_step M participant bs (Z.to_nat i, bit) Hp Hc) as Hc'. cbn [length]. rewrite Nat2Z.inj_succ.
    replace (M + participant * Z.succ (Z.of_nat (length ys))) with (M + participant + participant * Z.of_nat (length ys)) by lia. destruct bit.
    + destruct (Hk k) as [pk Hpk]; [left|]. rewrite Hpk, (Increase_pay bs s i participant M) by (done || nia). cbn [obind]. rewrite wrap64_small by (unfold is_u64; nia).
      destruct (IH keys ys (memberStep participant bs (Z.to_nat i, true)) (M + participant) (vk ++ [pk]) (e + q)) as (pks & Hrun & Hf & Hcap); [done..|lia|lia|lia|done|nia|].
      exists (pk :: pks). change (pay (Z.to_nat i) participant bs) with (memberStep participant bs (Z.to_nat i, true)). rewrite Hrun, <- app_assoc. split_and!; [|by constructor|done]. do 2 f_equal. lia.
    + rewrite (Decrease_fine bs s i participant M) by (done || lia). cbn [obind].
      destruct (IH keys ys (memberStep participant bs (Z.to_nat i, false)) (M + participant) vk e) as (pks & Hrun & Hf & Hcap); [done..|lia|lia|done|nia|].
      exists pks. change (fine (Z.to_nat i) participant bs) with (memberStep participant bs (Z.to_nat i, false)). rewrite Hrun. split_and!; [|done|done]. do 2 f_equal.
Qed.

Lemma div_u64 a b : is_u64 a → 0 < b → is_u64 (a / b).
Proof. unfold is_u64. intros Ha Hb. assert (a / b ≤ a) by (apply Z.div_le_upper_bound; nia). split; [apply Z.div_pos; lia|lia]. Qed.

Lemma SyncRewards_range x q r : SyncRewards x = Ret (q, r) → is_u64 q ∧ is_u64 r.
Proof.
  unfold SyncRewards. intros (base & _ & [= <- <-])%obind_ret. pose proof sync_range. pose proof weights_range. pose proof SlotsPerEpoch_pos.
  assert (is_u64 (wrap64 (wrap64 (base * (x / EffectiveBalanceIncrement)) * SyncRewardWeight) / WeightDenominator / SlotsPerEpoch / SyncCommitteeSize)) as Hr.
  { repeat (apply div_u64; [|lia]). apply wrap64_range. }
  split; [|exact Hr]. rewrite (wrap64_small (WeightDenominator - ProposerWeight)) by (unfold is_u64, two64; lia). apply div_u64; [apply wrap64_range|lia].
Qed.

(** ** Sums *)

Lemma Zsum_fine i a bs : 0 ≤ a → Forall (λ b, 0 ≤ b) bs → Zsum (fine i a bs) ≤ Zsum bs.
Proof.
  intros Ha. revert i. induction bs as [|b bs IH]; intros i Hb; [done|]. apply Forall_cons in Hb as [Hb0 Hb]. destruct i as [|i].
  - change (Z.max 0 (b - a) + Zsum bs ≤ b + Zsum bs). lia.
  - change (b + Zsum (fine i a bs) ≤ b + Zsum bs). specialize (IH i Hb). lia.
Qed.
Lemma membersOnly_sum participant xs : ∀ bs, 0 ≤ participant → Forall (λ b, 0 ≤ b) bs → (∀ x, x ∈ xs → (x.1 < length bs)%nat) →
  Zsum (membersOnly participant xs bs) ≤ Zsum bs + participant * participants xs.
Proof.
  induction xs as [|x xs IH]; intros bs Hp Hb Hx; [unfold participants; cbn; lia|]. change (membersOnly participant (x :: xs) bs) with (membersOnly participant xs (memberStep participant bs x)).
  change (participants (x :: xs)) with ((if x.2 then 1 else 0) + participants xs).
  assert (Forall (λ b, 0 ≤ b) (memberStep participant bs x)) as Hb'.
  { apply Forall_lookup. intros j c Hc. unfold memberStep in Hc. destruct x.2; [rewrite lookup_pay in Hc|rewrite lookup_fine in Hc]; (destruct (bs !! j) as [d|] eqn:Hd; [|done]); injection Hc as <-;
      pose proof (Forall_lookup_1 _ _ _ _ Hb Hd) as Hr; cbn in Hr; case_decide; lia. }
  pose proof (IH _ Hp Hb') as Hs. rewrite memberStep_length in Hs. specialize (Hs (λ y Hy, Hx y (list_elem_of_further _ _ _ Hy))).
  unfold memberStep in Hs |- *. destruct x as [i []]; cbn [fst snd] in *.
  - unfold pay in Hs |- *. rewrite Zsum_alter in Hs; [lia|]. apply (Hx (i, true)). left.
  - pose proof (Zsum_fine i participant bs Hp Hb). lia.
Qed.

(** ** The theorem *)

Record sync_ready (s : Ledger) (keys : list (list Z)) (bits : list bool) (xs : list Member) (p q r : Z) : Prop := {
  sr_fork : isPhase0 s = false;
  sr_rewards : SyncRewards (TotalActiveBalance (registry s)) = Ret (q, r);
  sr_members : membersOf s keys bits = Some xs;
  sr_keys : ∀ k, k ∈ keys → ∃ pk, PublicKeyFromBytes k = inr pk;
  sr_index : ∀ x, x ∈ xs → (x.1 < length (Balances s))%nat;
  sr_proposer : proposer s = Ret p ∧ (Z.to_nat p < length (Balances s))%nat;
  sr_room : Forall (λ b, 0 ≤ b ∧ b + (q + r) * Z.of_nat (length xs) < two64) (Balances s)
}.

Lemma membersOf_length s keys bits xs : membersOf s keys bits = Some xs → (length bits <= length keys)%nat.
Proof.
  revert keys xs. induction bits as [|b bits IH]; intros [|k keys] xs Hm; cbn in *; [lia|lia|done|]. repeat (case_match; [|done]).
  match goal with Hys : membersOf _ _ _ = Some _ |- _ => apply IH in Hys end. lia.
Qed.

Lemma setBalances_id s : setBalances (Balances s) s = s.
Proof. by destruct s. Qed.

Lemma processSyncAggregate_run s keys bits xs p q r :
  sync_ready s keys bits xs p q r →
  ∃ pks, processSyncAggregate s (Some keys) bits =
      Ret (mkSyncRun (setBalances (pay (Z.to_nat p) (q * participants xs) (membersOnly r xs (Balances s))) s) pks (q * participants xs)) ∧
    Forall2 (λ k pk, PublicKeyFromBytes k = inr pk) (chosen keys bits) pks.
Proof.
  intros [Hf Hrw Hm Hk Hx [Hp Hpl] Hroom]. destruct (SyncRewards_range _ _ _ Hrw) as [Hq Hr]. unfold is_u64 in Hq, Hr. unfold processSyncAggregate. rewrite Hf. pose proof (membersOf_length _ _ _ _ Hm) as Hlen.
  rewrite (proj2 (Nat.ltb_ge _ _)), Hrw, Hp by lia. cbn [obind]. set (n := Z.of_nat (length xs)) in *. set (M := two64 - 1 - (q + r) * n).
  assert (capped M (Balances s)) as HM. { eapply Forall_impl; [exact Hroom|]. cbn. unfold M. lia. }
  assert ((q + r) * n < two64) as Hqn. { destruct (lookup_lt_is_Some_2 _ _ Hpl) as [b Hb]. pose proof (Forall_lookup_1 _ _ _ _ Hroom Hb) as Hr0. cbn in Hr0. lia. }
  pose proof (participants_nonneg xs) as Hn. fold n in Hn.
  destruct (syncLoop_run q r s bits keys xs (Balances s) M [] 0) as (pks & Hrun & Hf2 & Hcap); try done; try (unfold M; fold n; nia).
  rewrite setBalances_id in Hrun. rewrite Hrun. cbn [obind SyncLedger earnedProposerReward votedKeys app]. rewrite Z.add_0_l.
  rewrite (Increase_pay _ _ _ _ (M + r * n)); [|exact Hcap|nia|unfold M; nia|by rewrite membersOnly_length]. cbn [obind]. by exists pks.
Qed.
End sync.

(** Sync aggregates: with known members, enough room for the rewards and a proposer whose
    balance covers its own absences, processing succeeds and changes nothing but the
    balances, which become those of the specification's loop, although that loop pays the
    proposer after each participant and the code once at the end; the keys handed to the
    signature check are those of the set bits, in order; and the sum of all balances grows by
    no more than the rewards of the participants and of the proposer. *)
Theorem sync_aggregate_spec `{LedgerConfig} `{!SquareRoot} `{!SyncConfig} {PK} (PublicKeyFromBytes : list Z → error + PK) proposer s keys bits xs p q r b :
  sync_ready PublicKeyFromBytes proposer s keys bits xs p q r → Balances s !! Z.to_nat p = Some b → r * absences (Z.to_nat p) xs ≤ b →
  ∃ pks, processSyncAggregate PublicKeyFromBytes proposer s (Some keys) bits =
      Ret (mkSyncRun (setBalances (specSync (Z.to_nat p) q r xs (Balances s)) s) pks (q * participants xs)) ∧
    Forall2 (λ k pk, PublicKeyFromBytes k = inr pk) (chosen keys bits) pks ∧
    Zsum (specSync (Z.to_nat p) q r xs (Balances s)) ≤ Zsum (Balances s) + (q + r) * participants xs.
Proof.
  intros Hs Hb Hroom. destruct (SyncRewards_range _ _ _ (sr_rewards _ _ _ _ _ _ _ _ _ Hs)) as [Hq Hr]. unfold is_u64 in Hq, Hr.
  destruct (processSyncAggregate_run _ _ _ _ _ _ _ _ _ Hs) as (pks & Hrun & Hf). exists pks. rewrite Hrun, (specSync_members _ _ _ _ _ b) by (done || lia). split_and!; [done|done|].
  unfold pay. rewrite Zsum_alter by (rewrite membersOnly_length; exact (proj2 (sr_proposer _ _ _ _ _ _ _ _ _ Hs))).
  pose proof (membersOnly_sum r xs (Balances s)) as Hsum. specialize (Hsum ltac:(lia)). specialize (Hsum (Forall_impl _ _ _ (sr_room _ _ _ _ _ _ _ _ _ Hs) (λ b Hb, proj1 Hb)) (sr_index _ _ _ _ _ _ _ _ _ Hs)). lia.
Qed.

(** The keys of the first, third and last validator of [sampleLedger] make the committee; the
    proposer is the first validator and the second member does not take part. *)
Definition sampleCommittee : list (list Z) := [replicate 48 3; replicate 48 1; replicate 48 4].
Definition sampleAggregate (s : Ledger) : outcome (list Z * Z) :=
  r <-? @processSyncAggregate _ mainnetLedgerConfig sampleSqrt mainnetSyncConfig (list Z) inr (λ _, Ret 0) s (Some sampleCommittee) [true; false; true];;
  Ret (Balances (SyncLedger r), earnedProposerReward r).

Lemma sync_aggregate_spec_witness : sampleAggregate sampleLedger = Ret ([32499999969; 31000000000; 64700000043; 33000000043], 12).
Proof.
  destruct (@sync_aggregate_spec _ mainnetLedgerConfig sampleSqrt mainnetSyncConfig (list Z) inr (λ _, Ret 0) sampleLedger sampleCommittee [true; false; true]
    [(2%nat, true); (0%nat, false); (3%nat, true)] 0 6 43 32500000000) as (pks & Hrun & _).
  - split; [by vm_compute|vm_compute; reflexivity|vm_compute; reflexivity|intros k _; by exists k| |split; [done|cbn; lia]|repeat constructor; by compute].
    intros x. rewrite !elem_of_cons, elem_of_nil. cbn. intros [-> | [-> | [-> | []]]]; cbn; lia.
  - reflexivity.
  - vm_compute. discriminate.
  - unfold sampleAggregate. rewrite Hrun. vm_compute. reflexivity.
Defined.

(** When the proposer is absent and has nothing left to lose, its reward counts before the
    penalty in the specification and after it in the code. *)
Definition poorLedger : Ledger := setBalances [0; 31000000000; 64700000000; 33000000000] sampleLedger.
Example empty_proposer_diverges :
  sampleAggregate poorLedger = Ret ([12; 31000000000; 64700000043; 33000000043], 12) ∧
  specSync 0 6 43 [(2%nat, true); (0%nat, false); (3%nat, true)] (Balances poorLedger) = [6; 31000000000; 64700000043; 33000000043].
Proof. split; vm_compute; reflexivity. Qed.

(** ** Votes for eth1 data *)

Record Eth1Data := mkEth1Data { DepositRoot : list Z; DepositCount : Z; BlockHash : list Z }.
#[global] Instance Eth1Data_eq_dec : EqDecision Eth1Data.
Proof. solve_decision. Defined.

(** The votes of the period and the eth1 data of the state; a pointer may be nil. *)
Record Eth1State := mkEth1State { Eth1DataVotes : list (option Eth1Data); StateEth1Data : option Eth1Data }.

Definition AreEth1DataEqual (a b : option Eth1Data) : bool :=
  match a, b with
  | None, None => true
  | Some a, Some b => (DepositCount a =? DepositCount b) && bool_decide (BlockHash a = BlockHash b) && bool_decide (DepositRoot a = DepositRoot b)
  | _, _ => false
  end.

Section eth1.
Context `{BeaconChainConfig} `{!EpochConfig}.

Fixpoint countVotes (votes : list (option Eth1Data)) (data : option Eth1Data) (voteCount : Z) : Z :=
  match votes with
  | [] => voteCount
  | vote :: votes => countVotes votes data (if AreEth1DataEqual vote data then voteCount +w 1 else voteCount)
  end.
Definition Eth1DataHasEnoughSupport (st : Eth1State) (data : option Eth1Data) : outcome bool :=
  support <-? Slot_Mul SlotsPerEpoch EpochsPerEth1VotingPeriod;;
  Ret (support <? countVotes (Eth1DataVotes st) data 0 *w 2).

(** [None] is a nil state. *)
Definition ProcessEth1DataInBlock (st : option Eth1State) (eth1Data : option Eth1Data) : outcome Eth1State :=
  match st with
  | None => Err "nil state"
  | Some st =>
      let st := mkEth1State (Eth1DataVotes st ++ [eth1Data]) (StateEth1Data st) in
      hasSupport <-? Eth1DataHasEnoughSupport st eth1Data;;
      Ret (if hasSupport : bool then mkEth1State (Eth1DataVotes st) eth1Data else st)
  end.

Definition supporters (votes : list (option Eth1Data)) (data : option Eth1Data) : Z := Z.of_nat (length (filter (λ v, v = data) votes)).

Lemma AreEth1DataEqual_eq a b : AreEth1DataEqual a b = bool_decide (a = b).
Proof.
  destruct a as [[r c h]|], b as [[r' c' h']|]; cbn; [|by rewrite bool_decide_eq_false_2..|done]. destruct (Z.eqb_spec c c') as [->|Hc]; cbn.
  - repeat case_bool_decide; simplify_eq; done.
  - symmetry. apply bool_decide_eq_false_2. congruence.
Qed.

Lemma countVotes_run votes data : ∀ n, 0 ≤ n → n + Z.of_nat (length votes) < two64 → countVotes votes data n = n + supporters votes data.
Proof.
  unfold supporters. induction votes as [|v votes IH]; intros n Hn Hlen; [cbn; lia|]. cbn [countVotes length] in *. rewrite AreEth1DataEqual_eq. case_bool_decide as Hv.
  - rewrite filter_cons_True by done. rewrite wrap64_small by (unfold is_u64; lia). rewrite IH by lia. cbn [length]. lia.
  - rewrite filter_cons_False by done. rewrite IH by lia. done.
Qed.

(** Two candidates share the votes. *)
Lemma supporters_disjoint votes a b : a ≠ b → supporters votes a + supporters votes b ≤ Z.of_nat (length votes).
Proof.
  intros Hab. unfold supporters. induction votes as [|v votes IH]; [done|]. rewrite !filter_cons. repeat case_decide; subst; try done; cbn [length]; lia.
Qed.

Definition periodSlots : Z := SlotsPerEpoch * EpochsPerEth1VotingPeriod.

(** The votes of the blocks of a period, one after the other. *)
Definition votePeriod (st : Eth1State) (ds : list (option Eth1Data)) : outcome Eth1State :=
  foldl (λ st d, st <-? st;; ProcessEth1DataInBlock (Some st) d) (Ret st) ds.
Definition majority (votes : list (option Eth1Data)) (c : option Eth1Data) : Prop := periodSlots < 2 * supporters votes c.

#[global] Instance majority_dec votes c : Decision (majority votes c).
Proof. unfold majority. apply _. Defined.

Context (period_small : periodSlots < two63).

Lemma periodSlots_pos : 0 < periodSlots.
Proof. pose proof SlotsPerEpoch_pos. pose proof periods_range. unfold periodSlots. nia. Qed.
Lemma support_run : Slot_Mul SlotsPerEpoch EpochsPerEth1VotingPeriod = Ret periodSlots.
Proof.
  pose proof SlotsPerEpoch_u64. pose proof periods_range. pose proof periodSlots_pos. unfold Slot_Mul, Slot_SafeMul. unfold periodSlots in *.
  rewrite Mul64_spec by (unfold is_u64, two32, two63, two64 in *; lia). rewrite (proj2 (Z.ltb_lt _ _)) by (unfold two63, two64 in *; lia). done.
Qed.

Lemma Process_run votes e d :
  Z.of_nat (length votes) < periodSlots →
  ProcessEth1DataInBlock (Some (mkEth1State votes e)) d =
    Ret (mkEth1State (votes ++ [d]) (if decide (majority (votes ++ [d]) d) then d else e)).
Proof.
  intros Hlen. unfold ProcessEth1DataInBlock, Eth1DataHasEnoughSupport. rewrite support_run. cbn [obind Eth1DataVotes StateEth1Data].
  assert (Z.of_nat (length (votes ++ [d])) ≤ periodSlots) as Hl by (rewrite length_app; cbn; lia). rewrite countVotes_run by (unfold two63, two64 in *; lia). rewrite Z.add_0_l.
  assert (0 ≤ supporters (votes ++ [d]) d ≤ periodSlots) as Hs. { unfold supporters. pose proof (length_filter (λ v, v = d) (votes ++ [d])). lia. }
  rewrite wrap64_small by (unfold is_u64, two63, two64 in *; lia). unfold majority. rewrite Z.mul_comm. case_decide as Hm.
  - by rewrite (proj2 (Z.ltb_lt _ _)).
  - by rewrite (proj2 (Z.ltb_ge _ _)) by lia.
Qed.

Lemma supporters_snoc votes d c : supporters (votes ++ [d]) c = supporters votes c + (if decide (d = c) then 1 else 0).
Proof. unfold supporters. rewrite filter_app, length_app, filter_cons, filter_nil. case_decide; cbn [length]; lia. Qed.

Lemma majority_unique votes a b : Z.of_nat (length votes) ≤ periodSlots → majority votes a → majority votes b → a = b.
Proof.
  intros Hl Ha Hb. destruct (decide (a = b)) as [|Hne]; [done|]. pose proof (supporters_disjoint votes a b Hne). unfold majority in *. lia.
Qed.

Lemma votePeriod_run e ds :
  Z.of_nat (length ds) ≤ periodSlots →
  ∃ d, votePeriod (mkEth1State [] e) ds = Ret (mkEth1State ds d) ∧ (∀ c, majority ds c → d = c) ∧ ((∀ c, ¬ majority ds c) → d = e).
Proof.
  induction ds as [|x ds IH] using rev_ind; intros Hl.
  - exists e. split_and!; [done| |done]. intros c Hc. unfold majority, supporters in Hc. cbn in Hc. pose proof periodSlots_pos. lia.
  - rewrite length_app in Hl. cbn [length] in Hl. destruct IH as (d & Hrun & Hmaj & Hnone); [lia|]. unfold votePeriod in *. rewrite foldl_app, Hrun. cbn [foldl obind]. rewrite Process_run by lia.
    eexists. split; [reflexivity|]. assert (∀ c, majority ds c → majority (ds ++ [x]) c) as Hmono by (intros c; unfold majority; rewrite supporters_snoc; case_decide; lia). split.
    + intros c Hc. case_decide as Hx; [eapply majority_unique; [|exact Hx|exact Hc]; rewrite length_app; cbn; lia|]. apply Hmaj. unfold majority in *. rewrite supporters_snoc in Hc.
      case_decide as Hxc; [|lia]. subst. rewrite supporters_snoc, decide_True in Hx by done. lia.
    + intros Hn. case_decide as Hx; [by destruct (Hn x)|]. apply Hnone. intros c Hc. by apply (Hn c), Hmono.
Qed.
End eth1.

(** Votes for eth1 data: whatever the blocks of a voting period vote, processing succeeds
    and keeps the votes, and at every point the state's eth1 data is the candidate that more
    than half of the slots of the period have voted for, of which there is at most one, or
    else what it was before the period. *)
Theorem eth1_majority_wins `{BeaconChainConfig} `{!EpochConfig} e ds :
  periodSlots < two63 → Z.of_nat (length ds) ≤ periodSlots →
  ∃ d, votePeriod (mkEth1State [] e) ds = Ret (mkEth1State ds d) ∧ (∀ c, majority ds c → d = c) ∧ ((∀ c, ¬ majority ds c) → d = e).
Proof. intros Hp. by apply votePeriod_run. Qed.

Definition sampleEth1 (n : Z) : option Eth1Data := Some (mkEth1Data [n] n [n]).
Lemma eth1_majority_wins_witness :
  ∃ d, @votePeriod mainnetBeaconConfig mainnetEpochConfig (mkEth1State [] (sampleEth1 0)) (replicate 1025 (sampleEth1 1) ++ [sampleEth1 2]) =
    Ret (mkEth1State (replicate 1025 (sampleEth1 1) ++ [sampleEth1 2]) d) ∧ d = sampleEth1 1.
Proof.
  destruct (@eth1_majority_wins mainnetBeaconConfig mainnetEpochConfig (sampleEth1 0) (replicate 1025 (sampleEth1 1) ++ [sampleEth1 2])) as (d & Hrun & Hmaj & _); [by vm_compute|vm_compute; discriminate|].
  exists d. split; [exact Hrun|]. apply Hmaj. vm_compute. reflexivity.
Defined.
